(* ===== verification/_CoqProject ===== *)
-Q . S2P
Prelude.v
Config.v
Basics.v
Transactions.v
TransactionsSpec.v
AssetAuthority.v
Bookkeeping.v
BookkeepingSpec.v
Totals.v
Cow.v
TxTail.v
Multisig.v
Teal.v
TealSpec.v
TealValues.v
Assembler.v
Verify.v
Eval.v
EvalSpec.v
Pool.v
PoolSpec.v
AcctUpdates.v
AcctUpdatesSpec.v
EvalReads.v
Agreement.v
AgreementSpec.v
VoteTracker.v
VoteTrackerSpec.v
ProposalTracker.v
Router.v
Machines.v
RouterSpec.v
Player.v
PlayerSpec.v
PlayerFuel.v
Merkle.v
MerkleSpec.v
Payset.v
OneTimeSig.v
OneTimeSigSpec.v
Participation.v
ParticipationSpec.v
Wordlist.v
Passphrase.v
PassphraseSpec.v
Auction.v
AuctionSpec.v
BlockDB.v
BlockQueue.v
Trackers.v
TrackersSpec.v
HeaderCache.v
HeaderCacheSpec.v
LedgerStore.v
LedgerStoreSpec.v
LedgerDurable.v
AcctRestart.v
AcctRestartSpec.v
GoText.v
GoTextSpec.v
Address.v
AsmText.v
AsmTextSpec.v
Disasm.v
AsmPrint.v
AsmCanon.v
DisasmSpec.v
WalletBox.v
Wallet.v
WalletSpec.v
WalletDriver.v
WalletClaims.v
WalletExamples.v
Session.v
SessionSpec.v
Pseudonode.v
Persistence.v
Service.v
ServiceSpec.v
ServiceExamples.v
