(* ===== verification/Prelude.v ===== *)
(** Verification of gatemint, a fork of go-algorand.

    gatemint is the node of a proof-of-stake ledger: blocks of transactions change the
    balances of accounts, and a committee chosen by sortition agrees on one block per
    round.  The development models the path from a transaction to an agreed block, and from
    there to the disk.

    * The parts and the files

    Foundations.
    - [Prelude]: 64-bit integers with their wrap-around ([wrap64], [u64]), the results
      [Ok | Err | Panic] of code that can fail or panic, the state monad [M] for methods
      on pointers, record updates, and the lemmas on lists, maps and sums the other
      files share.
    - [Config]: src/config/config.go, the table of consensus parameters.
    - [Basics]: src/data/basics, checked arithmetic, rounds, account data and deferred
      rewards.  [Address]: address.go, addresses as text with a checksum.
    - [GoText], [GoTextSpec]: what the code uses of strings, bufio, strconv and the
      encodings of Go's library.

    Transactions and blocks.
    - [Transactions]: src/data/transactions/{transaction,payment,keyreg,asset}.go.
      [Apply] runs against the interface [Balances], a typeclass; [TransactionsSpec]
      proves what it does from the laws of that interface ([BalancesLaws]), and
      [AssetAuthority] whose transactions may change an asset and its holdings.
    - [Bookkeeping], [BookkeepingSpec]: src/data/bookkeeping/block.go and the signed
      transactions: rewards, protocol upgrades, construction and checks of headers,
      encoding of transactions in a block, groups.
    - [Multisig]: src/crypto/multisig.go.
    - [Teal], [TealSpec]: the interpreter of src/data/transactions/logic/eval.go and its
      static check; indexing, slicing and following a nil pointer are checked and panic.
      [TealValues]: the bounds on what a run holds.
    - The assembler and disassembler of assembler.go: [Assembler] emits and parses code,
      [AsmText] and [AsmTextSpec] read text, [Disasm] prints programs, [AsmPrint] and
      [AsmCanon] relate printed lines to instructions, [DisasmSpec] has the theorems.
    - [Verify]: src/data/transactions/verify/txn.go.

    The ledger.
    - [Totals]: src/ledger/totals.go.  [Cow]: src/ledger/cow.go and the balance methods
      of eval.go; it is the instance of [Balances], with its laws.  [TxTail]:
      src/ledger/txtail.go.
    - [Eval], [EvalSpec]: src/ledger/eval.go, the block evaluator, which drives
      [Verify], [Transactions], [Cow] and [Bookkeeping].  [EvalReads]: its result depends
      on the answers of the ledger about the round before, up to nil and empty maps.
    - [Pool], [PoolSpec]: src/data/pools, the transaction pool, a client of the evaluator
      that keeps the groups it accepted and starts it afresh on every block.
    - [AcctUpdates], [AcctUpdatesSpec]: src/ledger/acctupdates.go and accountdb.go, the
      history of account states behind the evaluator.  [AcctRestart],
      [AcctRestartSpec]: the other half of these files, the first initialisation of the
      tables, loading from disk, in which the evaluator reads the tracker that is being
      loaded, and the listing of assets.

    Storage of the ledger.
    - [BlockDB]: src/ledger/blockdb.go and the transactions of src/util/db, a table of
      blocks below a driver that can fail.  [BlockQueue]: blockqueue.go, the queue of
      blocks not yet written and its syncer, a program counter that the steps advance.
    - [Trackers], [TrackersSpec]: tracker.go, bulletin.go, notifier.go and time.go; what
      the ledger promises its trackers is the class [TrackersOK].
    - [HeaderCache], [HeaderCacheSpec]: roundlru.go over container/heap.
    - [LedgerStore]: ledger.go, which puts these together: opening, adding blocks,
      committing, reading.  [LedgerStoreSpec] has the abstract ledger (a chain with a
      durable prefix) and the simulation, [LedgerDurable] what follows from it.

    Commitments and keys.
    - [Merkle], [MerkleSpec]: src/crypto/merkle.  [Payset]: the commitment of a
      block to its transactions, src/data/transactions/aggregates.go.
    - [OneTimeSig], [OneTimeSigSpec]: src/crypto/onetimesig.go, signatures whose keys are
      deleted as rounds pass.  [Participation], [ParticipationSpec]: src/data/account,
      the participation keys on disk.
    - [Wordlist], [Passphrase], [PassphraseSpec]: src/crypto/passphrase, keys as words.

    Wallets, src/daemon/kmd.
    - [WalletBox]: wallet/driver/sqlite_crypto.go, secrets sealed under passwords and keys.
      [Wallet]: sqlite.go, a directory of databases below calls that can fail, and every
      method of the driver and of a wallet.  [WalletSpec] has the abstract wallet, a
      [Vault], and triples for each method; [WalletDriver] the directory; [WalletClaims]
      the theorems and [WalletExamples] a concrete library below them.
    - [Session], [SessionSpec]: session, tokens for open wallets.

    The auction, src/auction: [Auction], [AuctionSpec].

    The agreement protocol, src/agreement.
    - [Agreement], [AgreementSpec]: steps, credentials, votes, bundles, certificates,
      seeds, proposals.
    - [VoteTracker], [VoteTrackerSpec]: the votes of one step.
    - [ProposalTracker]: the proposals of one period.
    - [Router]: the tree of state machines by round, period and step, its garbage
      collection, and the vote machines of a period and a round.  [Machines]: the
      proposal store of a round, the proposal manager and the vote aggregator.
      [RouterSpec]: what travelling events keep.
    - [Player], [PlayerSpec], [PlayerFuel]: player.go, the machine at the root, whose
      actions are the votes and messages of the node.
    - [Pseudonode]: pseudonode.go, which signs the votes and proposals the player asks
      for.  [Persistence]: persistence.go, the crash database.  [Service]: service.go,
      demux.go and the execution of actions; [node_step] interleaves the main loop, the
      persistence loop and the pseudonode with crashes and restarts.  [ServiceSpec],
      [ServiceExamples]: votes across crashes, and executions that go wrong.

    * How code becomes definitions

    A method on a pointer is a function of [M S], from a state to a result and the state
    after it; an error is [Err], a run-time panic or a call of [logging.Panic] is
    [Panic].  A Go map is a [gmap], or an [option] of one where the nil map can be told
    apart; iteration over a map is a fold where the order does not matter, and a
    quantified list of its elements where it might.  Unsigned integers are kept in their
    width by [wrap64], durations by [wrapI64].  Hashes, signatures, the VRF, sortition,
    encodings and the database below the tracker are parameters: fields of the records
    [Crypto], [AgreeCrypto] and [KmdLib], or arguments.  What a theorem needs of them is a named
    hypothesis with a concrete instance in its witness.  Logging, metrics, locks and
    timing records are left out.

    * What the theorems show

    - Transactions: [Apply] conserves algos and the supply of every asset, charges only
      the sender and respects the authorities an asset names.
    - Blocks: evaluation conserves money including the rewards it pays, enforces minimum
      balances and distinct transaction ids; [Validate] accepts only blocks that are a
      run of the evaluator; protocol upgrades happen exactly with the votes they need.
    - The pool: under any interleaving of its methods the pending groups are what the
      pending evaluator accepted; a new block loses no transaction silently; the fee
      check is the documented formula modulo 2^64.
    - Authorisation: a verified transaction was authorised by its sender; multisignatures
      verify exactly with a threshold of signatures; programs end within a step per byte
      without panics and within the cost [Check] computes.
    - History: over all interleavings of new blocks and commits the accounts tracker
      answers old rounds as before; evaluating the blocks on disk again over the tracker
      being loaded makes one that answers as the one that was running.
    - Storage: under any interleaving of writers, readers, the syncer and failures of the
      driver the ledger is a chain that grows at its end; what it reported as committed is
      there after a crash; a read answers with the chain at a moment between its call and
      its return; trackers see each block once and in order; and the syncer of an open
      ledger writes every block when the driver stops failing.  The header cache evicts the entry least
      recently used and its headers are those of the blocks.
    - Commitments and keys: the root of the Merkle tree is the recursive tree hash; equal
      commitments to transactions mean equal transactions or a collision; a participation
      key signs exactly for the rounds that were not deleted; words and keys are in
      bijection, checksum included.
    - The auction: the money bid is returned, paid or kept by the bidder.
    - Programs as text: the disassembled text of an assembled program assembles to the same
      program exactly when its branches have different targets inside the program; a line
      that is too long silently ends the text.  Addresses have one text each.
    - Wallets: whatever fails, a wallet is a store of keys; the keys it generated can be
      generated again from its master derivation key; no two wallets share a name or an id
      as long as nothing fails; what it signs verifies.  A session token is accepted exactly
      while its session lasts.
    - Agreement, votes: a tracker counts the weight that supports a value, emits one
      threshold event, and its bundle verifies at every node; two conflicting bundles
      expose the senders that signed both.
    - Agreement, player: along every run from a fresh player it never attests two values
      in a step, cert-votes only values it has staged and assembled, and moves only
      forward.  Its recursion ends.
    - Agreement, service: the votes a node has handed over agree across crashes of its
      process, because a vote waits for its state to be on disk.  Two executions show the
      limits: a process that resumes overwrites its stored state with a blank one, and a
      write that fails can block the service for ever.

    * Bounds and fuel

    Recursions that Go writes as loops over rounds or program counters take fuel.  The
    TEAL loops need a step per byte ([Eval_no_loop], [Check_total]); the lease scan of the
    tail needs a step per round of the window, and one case in which it never ends is
    proved as such.  [handleThreshold] and [handleMessageEvent] of the player take fuel
    and a parameter for what happens without it; [player_fuel] shows that one more than
    the rounds ahead with a threshold, plus the votes in the message, makes that parameter
    irrelevant.  The theorems on the player ask that the round stays [fuel] below 2^64, so
    that the unsigned comparisons of the code do not wrap.  The loops of the Merkle tree
    take fuel from the number of leaves, and running out is a panic that the theorems show
    is not reached; the clearing loop of the auction takes the number of its price steps;
    the bit buffer of the passphrases the number of its bits; loading the accounts the
    number of rounds to load and one.  The heap of the header cache moves an entry at most
    its depth.  [Atomic] of the database makes the 1000 attempts of the code.  The scanner
    of text takes a turn per byte and one, the disassembler a turn per byte, decimal
    numbers 20 digits; the theorem on disassembly bounds programs by 16000 bytes, so that
    no printed line reaches the 64 KB of the scanner.  The search of a wallet for its next
    key takes 2^64 turns, counted in binary, one of which meets the bound of the code.

    * Not modelled

    The verifier of agreement messages and the orderly shutdown of the agreement service
    (messages may arrive verified or not, timers may fire at any moment, and a stop is a
    crash), the network and its filters, catchup, hardware wallets, the REST and command
    line tools: they are I/O around the modelled parts.  The metrics tracker only feeds counters.  The fee suggestion is a
    floating-point average.  SQL is modelled by what the statements of the code do to a
    table, not by its syntax.  The theorem on restarting the accounts tracker is about
    blocks that were evaluated by [Validate] or [AddBlock], not about changes that
    [GenerateBlock] left to a proposer.  The methods of a wallet run one after the other. *)

From Stdlib Require Export ZArith Lia.
From stdpp Require Export strings gmap fin_maps option sets list.

#[global] Open Scope Z_scope.
#[global] Set Default Goal Selector "!".

(** ** Machine integers

    A Go [uint64] is a [Z]; every operation that can leave the range writes its
    wrap-around with [wrap64].  [u64 z] says that [z] is such a value. *)

Definition maxUint64 : Z := 2 ^ 64 - 1.
Definition wrap64 (z : Z) : Z := z mod 2 ^ 64.
Definition u64 (z : Z) : Prop := 0 <= z < 2 ^ 64.
Definition is_byte (b : Z) : Prop := 0 <= b < 256.

Lemma u64_pow : 2 ^ 64 = 18446744073709551616.
Proof. reflexivity. Qed.

Lemma wrap64_range z : u64 (wrap64 z).
Proof. unfold u64, wrap64. apply Z.mod_pos_bound. lia. Qed.

Lemma wrap64_small z : u64 z -> wrap64 z = z.
Proof. intros. unfold wrap64. by apply Z.mod_small. Qed.

Lemma wrap64_sub_small a b : u64 a -> u64 b -> b <= a -> wrap64 (a - b) = a - b.
Proof. unfold u64. intros. apply wrap64_small. unfold u64. lia. Qed.

Lemma wrap64_add_over a b : u64 a -> u64 b -> 2 ^ 64 <= a + b -> wrap64 (a + b) = a + b - 2 ^ 64.
Proof.
  unfold u64, wrap64. intros. symmetry. apply (Z.mod_unique_pos _ _ 1); lia.
Qed.

Lemma wrap64_sub_under a b : u64 a -> u64 b -> a < b -> wrap64 (a - b) = a - b + 2 ^ 64.
Proof.
  unfold u64, wrap64. intros. symmetry. apply (Z.mod_unique_pos _ _ (-1)); lia.
Qed.

(** ** Results and the state monad of the model

    A Go function that returns [(x, error)] and may panic becomes a [result];
    a method on a mutable receiver becomes a function of the monad [M S], in
    which the state reached when an error is returned is kept: the Go code does
    not roll back. *)

(** The error codes of the SQLite driver that the code tells apart. *)
Inductive sqliteCode := ErrLocked | ErrBusy | ErrConstraint | ErrOther (n : Z).
#[global] Instance sqliteCode_eq_dec : EqDecision sqliteCode.
Proof. solve_decision. Defined.

Inductive error :=
| Errorf (msg : string)
| ErrNoSpace
| TransactionInLedgerError (txid : list Z)
| TxnDeadError (round first last : Z)
| MinFeeError
| ProtocolError (version : string)
| BlockInLedgerError (lastRound nextRound : Z)
| ErrNoEntry (round latest committed : Z)
| SqliteError (code : sqliteCode).

#[global] Instance error_eq_dec : EqDecision error.
Proof. solve_decision. Defined.

Inductive result (A : Type) :=
| Ok (a : A)
| Err (e : error)
| Panic (msg : string).
Arguments Ok {A} a.
Arguments Err {A} e.
Arguments Panic {A} msg.

#[global] Instance result_ret : MRet result := @Ok.
#[global] Instance result_bind : MBind result := λ A B f r,
  match r with Ok a => f a | Err e => Err e | Panic m => Panic m end.

Definition M (S A : Type) : Type := S -> result A * S.

#[global] Instance M_ret {S} : MRet (M S) := λ A a s, (Ok a, s).
#[global] Instance M_bind {S} : MBind (M S) := λ A B f m s,
  match m s with
  | (Ok a, s') => f a s'
  | (Err e, s') => (Err e, s')
  | (Panic p, s') => (Panic p, s')
  end.

(** Raising and lifting. *)
Definition throw {S A} (e : error) : M S A := λ s, (Err e, s).
Definition lift {S A} (r : result A) : M S A := λ s, (r, s).
Definition get {S} : M S S := λ s, (Ok s, s).
Definition put {S} (s' : S) : M S unit := λ _, (Ok tt, s').
Definition guardE {S} (b : bool) (e : error) : M S unit := if b then mret tt else throw e.
Definition guardR (b : bool) (e : error) : result unit := if b then Ok tt else Err e.

(** Sequencing of a list of actions, stopping at the first failure. *)
Fixpoint forM {S A} (f : A -> M S unit) (l : list A) : M S unit :=
  match l with
  | [] => mret tt
  | x :: l => f x ≫= λ _, forM f l
  end.

Definition is_ok {A} (r : result A) : bool := match r with Ok _ => true | _ => false end.
Definition is_panic {A} (r : result A) : bool := match r with Panic _ => true | _ => false end.

Lemma result_bind_Ok {A B} (r : result A) (f : A -> result B) b :
  r ≫= f = Ok b <-> exists a, r = Ok a /\ f a = Ok b.
Proof.
  destruct r; cbn; split; try discriminate; eauto;
    intros (? & [=] & ?); by subst.
Qed.

Lemma M_bind_Ok {S A B} (m : M S A) (f : A -> M S B) s b s' :
  (m ≫= f) s = (Ok b, s') <-> exists a s1, m s = (Ok a, s1) /\ f a s1 = (Ok b, s').
Proof.
  unfold mbind, M_bind. destruct (m s) as [[] s1]; split;
    try (intros [=]; fail); try (intros (? & ? & [=] & ?); by subst); eauto.
Qed.

(** Running a bind forward. *)
Lemma bind_run {S A B} (m : M S A) (f : A -> M S B) s a s' : m s = (Ok a, s') -> (m ≫= f) s = f a s'.
Proof. unfold mbind, M_bind. by intros ->. Qed.
Lemma bind_assoc_run {S A B C} (m : M S A) (f : A -> M S B) (g : B -> M S C) s : ((m ≫= f) ≫= g) s = (m ≫= λ a, f a ≫= g) s.
Proof. unfold mbind, M_bind. by destruct (m s) as [[] ?]. Qed.
Ltac run := rewrite ?bind_assoc_run; erewrite bind_run by done; rewrite ?bind_assoc_run.
Ltac run_by E := erewrite bind_run by exact E.

Lemma guardR_Ok b e u : guardR b e = Ok u <-> b = true.
Proof. destruct b, u; cbn; split; done. Qed.

Lemma guardE_Ok {S} b e u (s s' : S) : guardE b e s = (Ok u, s') <-> b = true /\ s' = s.
Proof.
  destruct b, u; unfold guardE, throw, mret, M_ret;
    (split; [intros [=]; by subst|intros [? ->]; done]).
Qed.

Lemma forM_app {S A} (f : A -> M S unit) l1 l2 s :
  forM f (l1 ++ l2) s = (forM f l1 ≫= λ _, forM f l2) s.
Proof.
  revert s. induction l1 as [|x l1 IH]; intros s; [done|].
  cbn. unfold mbind, M_bind. destruct (f x s) as [[]]; auto.
Qed.

(** Break a hypothesis [... = Ok ...] into the calls that succeeded. *)
Ltac inv_ok_step :=
  match goal with
  | H : (_ ≫= _) _ = (Ok _, _) |- _ => apply M_bind_Ok in H as (? & ? & ? & ?)
  | H : (_ ≫= _) = Ok _ |- _ => apply result_bind_Ok in H as (? & ? & ?)
  | H : lift _ _ = (_, _) |- _ => unfold lift in H
  | H : get _ = (_, _) |- _ => unfold get in H
  | H : put _ _ = (_, _) |- _ => unfold put in H
  | H : mret _ _ = (_, _) |- _ => unfold mret, M_ret in H
  | H : mret _ = Ok _ |- _ => unfold mret, result_ret in H
  | H : throw _ _ = (Ok _, _) |- _ => discriminate H
  | H : guardE _ _ _ = (Ok _, _) |- _ => apply guardE_Ok in H as [? ->]
  | H : guardR _ _ = Ok _ |- _ => apply guardR_Ok in H
  | H : (_, _) = (_, _) |- _ => injection H; clear H; intros; subst
  | H : Ok _ = Ok _ |- _ => injection H; clear H; intros; subst
  | H : Err _ = Ok _ |- _ => discriminate H
  | H : Panic _ = Ok _ |- _ => discriminate H
  end.
Ltac inv_ok := repeat inv_ok_step.

(** Turn boolean tests in hypotheses and goal into propositions. *)
Lemma bool_decide_false_iff P `{Decision P} : bool_decide P = false <-> ~ P.
Proof. case_bool_decide; naive_solver. Qed.

Create HintDb zify_bool.
#[export] Hint Rewrite andb_true_iff andb_false_iff orb_true_iff orb_false_iff
  negb_true_iff negb_false_iff Z.leb_le Z.leb_gt Z.ltb_lt Z.ltb_ge
  Z.eqb_eq Z.eqb_neq @bool_decide_eq_true @bool_decide_eq_false : zify_bool.
Ltac bool_hyps := autorewrite with zify_bool in *.

(** Case analysis on every integer comparison of the goal. *)
Ltac zcases :=
  repeat match goal with
  | |- context [?a <? ?b] => destruct (Z.ltb_spec a b)
  | |- context [?a <=? ?b] => destruct (Z.leb_spec a b)
  | |- context [?a =? ?b] => destruct (Z.eqb_spec a b)
  end.

(** ** Record updates: [r <| f := v |>] and [r <| f ::= g |>]

    [Eta R] is the constructor of [R] applied to its projections; the update of
    one projection is found by abstracting that projection in it. *)

Class Eta (R : Type) := eta : R -> R.
Class Setter {R T : Type} (p : R -> T) := setter : (T -> T) -> R -> R.

Ltac build_setter p :=
  match type of p with
  | ?R -> ?T =>
    let f := fresh "f" in let r := fresh "r" in
    refine (fun (f : T -> T) (r : R) => _);
    let e := eval hnf in (@eta R _ r) in
    let e' := eval pattern (p r) in e in
    match e' with ?g _ => let b := eval cbv beta in (g (f (p r))) in exact b end
  end.

#[export] Hint Extern 1 (Setter ?p) => build_setter p : typeclass_instances.

Definition rset {R T} (p : R -> T) `{!Setter p} (f : T -> T) (r : R) : R := setter f r.
Arguments rset {R T} p {_} f r /.
Arguments setter {R T} p {_} f r /.

Declare Scope go_scope.
Delimit Scope go_scope with go.
Notation "r <| p := v |>" := (rset p (λ _, v) r)
  (at level 8, left associativity, format "r  <| p  :=  v |>") : go_scope.
Notation "r <| p ::= g |>" := (rset p g r)
  (at level 8, left associativity, format "r  <| p  ::=  g |>") : go_scope.
#[global] Open Scope go_scope.

(** ** Finite sums over a list of keys *)

Fixpoint sumZ {A} (f : A -> Z) (l : list A) : Z :=
  match l with [] => 0 | a :: l => f a + sumZ f l end.

Lemma sumZ_ext {A} (f g : A -> Z) l :
  (forall a, a ∈ l -> f a = g a) -> sumZ f l = sumZ g l.
Proof.
  induction l as [|x l IH]; intros H; cbn; [done|].
  rewrite (H x) by set_solver. rewrite IH; [done|]. set_solver.
Qed.

Lemma sumZ_zero {A} (f : A -> Z) l : (forall a, a ∈ l -> f a = 0) -> sumZ f l = 0.
Proof.
  induction l as [|x l IH]; intros H; cbn; [done|].
  rewrite (H x), IH by set_solver. done.
Qed.

Lemma sumZ_app {A} (f : A -> Z) l1 l2 : sumZ f (l1 ++ l2) = sumZ f l1 + sumZ f l2.
Proof. induction l1; cbn in *; lia. Qed.

Lemma sumZ_fmap {A B} (g : A -> B) (f : B -> Z) l : sumZ f (g <$> l) = sumZ (λ a, f (g a)) l.
Proof. induction l as [|x l IH]; [done|]. cbn. by rewrite <- IH. Qed.

Lemma sumZ_add {A} (f g : A -> Z) l : sumZ (λ a, f a + g a) l = sumZ f l + sumZ g l.
Proof. induction l; cbn in *; lia. Qed.

Lemma sumZ_mul_r {A} (f : A -> Z) c l : sumZ (λ a, f a * c) l = sumZ f l * c.
Proof. induction l; cbn in *; lia. Qed.

Lemma sumZ_nonneg {A} (f : A -> Z) l : (forall a, a ∈ l -> 0 <= f a) -> 0 <= sumZ f l.
Proof.
  induction l as [|x l IH]; intros H; cbn; [done|].
  assert (0 <= f x) by (apply H; set_solver).
  assert (0 <= sumZ f l) by (apply IH; set_solver).  lia.
Qed.

Lemma sumZ_ge {A} (f : A -> Z) l a :
  (forall a, a ∈ l -> 0 <= f a) -> a ∈ l -> f a <= sumZ f l.
Proof.
  induction l as [|x l IH]; intros H Ha; [set_solver|]. cbn.
  assert (0 <= f x) by (apply H; set_solver).
  assert (0 <= sumZ f l) by (apply sumZ_nonneg; set_solver). 
  apply elem_of_cons in Ha as [->|Ha]; [lia|].
  specialize (IH ltac:(set_solver) Ha). lia.
Qed.

Lemma sumZ_le {A} (f g : A -> Z) l : (forall a, a ∈ l -> f a <= g a) -> sumZ f l <= sumZ g l.
Proof.
  induction l as [|x l IH]; intros H; cbn; [done|].
  pose proof (H x ltac:(set_solver)). specialize (IH ltac:(set_solver)). lia.
Qed.

Lemma sumZ_Permutation {A} (f : A -> Z) l1 l2 : l1 ≡ₚ l2 -> sumZ f l1 = sumZ f l2.
Proof. induction 1; cbn in *; lia. Qed.

(** Changing a function at one key of a duplicate-free list. *)
Lemma sumZ_update {A} `{!EqDecision A} (f g : A -> Z) l a :
  NoDup l -> a ∈ l -> (forall b, b <> a -> g b = f b) ->
  sumZ g l = sumZ f l - f a + g a.
Proof.
  induction l as [|x l IH]; intros Hnd Ha Hg; [set_solver|].
  apply NoDup_cons in Hnd as [Hx Hnd]. cbn.
  destruct (decide (x = a)) as [->|Hne].
  - assert (sumZ g l = sumZ f l) as Heq.
    { apply sumZ_ext. intros b Hb. apply Hg. intros ->. done. }
     lia.
  - rewrite Hg by done. apply elem_of_cons in Ha as [->|Ha]; [done|].
    specialize (IH Hnd Ha Hg).  lia.
Qed.

(** ** Go maps

    A Go map value is [nil] or a finite map; reads of [nil] see the empty map. *)

Definition asmap {K V} `{Countable K} (m : option (gmap K V)) : gmap K V := default ∅ m.

(** Pointwise update of a function. *)
Definition fupd {A B} `{!EqDecision A} (f : A -> B) (a : A) (b : B) : A -> B :=
  λ x, if decide (x = a) then b else f x.

Lemma fupd_eq {A B} `{!EqDecision A} (f : A -> B) a b : fupd f a b a = b.
Proof. unfold fupd. by rewrite decide_True. Qed.
Lemma fupd_ne {A B} `{!EqDecision A} (f : A -> B) a b x : x <> a -> fupd f a b x = f x.
Proof. intros. unfold fupd. by rewrite decide_False. Qed.

Create HintDb ledger.
#[export] Hint Resolve wrap64_range : ledger.
