(* ===== verification/Config.v ===== *)
(** Consensus parameters (src/config/config.go, src/protocol/consensus.go).

    [ConsensusParams] has every field of the Go struct, in its order.  [Consensus]
    is the table that [init] builds: the release versions, the test versions and
    the fast-upgrade copies.  [time.Duration] is a number of nanoseconds. *)

From S2P Require Import Prelude.

(** A [ConsensusVersion] is a string. *)
Definition ConsensusV7 : string := "v7".
Definition ConsensusV8 : string := "v8".
Definition ConsensusV9 : string := "v9".
Definition ConsensusV10 : string := "v10".
Definition ConsensusV11 : string := "v11".
Definition ConsensusV12 : string := "v12".
Definition ConsensusV13 : string :=
  "https://github.com/algorand/spec/tree/0c8a9dc44d7368cc266d5407b79fb3311f4fc795".
Definition ConsensusV14 : string :=
  "https://github.com/algorand/spec/tree/2526b6ae062b4fe5e163e06e41e1d9b9219135a9".
Definition ConsensusV15 : string :=
  "https://github.com/algorand/spec/tree/a26ed78ed8f834e2b9ccb6eb7d3ee9f629a6e622".
Definition ConsensusV16 : string :=
  "https://github.com/algorand/spec/tree/22726c9dcd12d9cddce4a8bd7e8ccaa707f74101".
Definition ConsensusV17 : string :=
  "https://github.com/algorandfoundation/specs/tree/5615adc36bad610c7f165fa2967f4ecfa75125f0".
Definition ConsensusV18 : string :=
  "https://github.com/algorandfoundation/specs/tree/6c6bd668be0ab14098e51b37e806c509f7b7e31f".
Definition ConsensusV19 : string :=
  "https://github.com/algorandfoundation/specs/tree/03ae4eac54f1325377d0a2df62b5ef7cc08c5e18".
Definition ConsensusFuture : string := "future".
Definition ConsensusCurrentVersion : string := ConsensusV19.
Definition ConsensusTest0 : string := "test0".
Definition ConsensusTest1 : string := "test1".
Definition ConsensusTestBigBlocks : string := "test-big-blocks".
Definition ConsensusTestRapidRewardRecalculation : string := "test-fast-reward-recalculation".
Definition ConsensusTestFastUpgrade (proto : string) : string := "test-fast-upgrade-" +:+ proto.

Record ConsensusParams := mkConsensusParams {
  cp_UpgradeVoteRounds : Z;
  cp_UpgradeThreshold : Z;
  cp_UpgradeWaitRounds : Z;
  cp_MaxVersionStringLen : Z;
  cp_MaxTxnBytesPerBlock : Z;
  cp_MaxTxnNoteBytes : Z;
  cp_MaxTxnLife : Z;
  cp_ApprovedUpgrades : gmap string bool;
  cp_SupportGenesisHash : bool;
  cp_RequireGenesisHash : bool;
  cp_DefaultKeyDilution : Z;
  cp_MinBalance : Z;
  cp_MinTxnFee : Z;
  cp_RewardUnit : Z;
  cp_RewardsRateRefreshInterval : Z;
  cp_SeedLookback : Z;
  cp_SeedRefreshInterval : Z;
  cp_MaxBalLookback : Z;
  cp_NumProposers : Z;
  cp_SoftCommitteeSize : Z;
  cp_SoftCommitteeThreshold : Z;
  cp_CertCommitteeSize : Z;
  cp_CertCommitteeThreshold : Z;
  cp_NextCommitteeSize : Z;
  cp_NextCommitteeThreshold : Z;
  cp_LateCommitteeSize : Z;
  cp_LateCommitteeThreshold : Z;
  cp_RedoCommitteeSize : Z;
  cp_RedoCommitteeThreshold : Z;
  cp_DownCommitteeSize : Z;
  cp_DownCommitteeThreshold : Z;
  cp_FastRecoveryLambda : Z;
  cp_FastPartitionRecovery : bool;
  cp_PaysetCommitFlat : bool;
  cp_MaxTimestampIncrement : Z;
  cp_SupportSignedTxnInBlock : bool;
  cp_ForceNonParticipatingFeeSink : bool;
  cp_ApplyData : bool;
  cp_RewardsInApplyData : bool;
  cp_CredentialDomainSeparationEnabled : bool;
  cp_SupportBecomeNonParticipatingTransactions : bool;
  cp_PendingResidueRewards : bool;
  cp_Asset : bool;
  cp_MaxAssetsPerAccount : Z;
  cp_MaxAssetNameBytes : Z;
  cp_MaxAssetUnitNameBytes : Z;
  cp_MaxAssetURLBytes : Z;
  cp_TxnCounter : bool;
  cp_SupportTxGroups : bool;
  cp_MaxTxGroupSize : Z;
  cp_SupportTransactionLeases : bool;
  cp_LogicSigVersion : Z;
  cp_LogicSigMaxSize : Z;
  cp_LogicSigMaxCost : Z
}.

#[export] Instance ConsensusParams_eta : Eta ConsensusParams := λ r, mkConsensusParams
  (cp_UpgradeVoteRounds r) (cp_UpgradeThreshold r) (cp_UpgradeWaitRounds r)
  (cp_MaxVersionStringLen r) (cp_MaxTxnBytesPerBlock r) (cp_MaxTxnNoteBytes r)
  (cp_MaxTxnLife r) (cp_ApprovedUpgrades r) (cp_SupportGenesisHash r)
  (cp_RequireGenesisHash r) (cp_DefaultKeyDilution r) (cp_MinBalance r) (cp_MinTxnFee r)
  (cp_RewardUnit r) (cp_RewardsRateRefreshInterval r) (cp_SeedLookback r)
  (cp_SeedRefreshInterval r) (cp_MaxBalLookback r) (cp_NumProposers r)
  (cp_SoftCommitteeSize r) (cp_SoftCommitteeThreshold r) (cp_CertCommitteeSize r)
  (cp_CertCommitteeThreshold r) (cp_NextCommitteeSize r) (cp_NextCommitteeThreshold r)
  (cp_LateCommitteeSize r) (cp_LateCommitteeThreshold r) (cp_RedoCommitteeSize r)
  (cp_RedoCommitteeThreshold r) (cp_DownCommitteeSize r) (cp_DownCommitteeThreshold r)
  (cp_FastRecoveryLambda r) (cp_FastPartitionRecovery r) (cp_PaysetCommitFlat r)
  (cp_MaxTimestampIncrement r) (cp_SupportSignedTxnInBlock r)
  (cp_ForceNonParticipatingFeeSink r) (cp_ApplyData r) (cp_RewardsInApplyData r)
  (cp_CredentialDomainSeparationEnabled r) (cp_SupportBecomeNonParticipatingTransactions r)
  (cp_PendingResidueRewards r) (cp_Asset r) (cp_MaxAssetsPerAccount r)
  (cp_MaxAssetNameBytes r) (cp_MaxAssetUnitNameBytes r) (cp_MaxAssetURLBytes r)
  (cp_TxnCounter r) (cp_SupportTxGroups r) (cp_MaxTxGroupSize r)
  (cp_SupportTransactionLeases r) (cp_LogicSigVersion r) (cp_LogicSigMaxSize r)
  (cp_LogicSigMaxCost r).

(** The zero value of the struct. *)
Definition ConsensusParams_zero : ConsensusParams := mkConsensusParams
  0 0 0 0 0 0 0 ∅ false false 0 0 0 0 0 0 0 0 0 0 0 0 0 0 0 0 0 0 0 0 0 0 false false 0 false
  false false false false false false false 0 0 0 0 false false 0 false 0 0 0.

(** The version blocks of [initConsensusProtocols], each a copy of the previous
    one with its assignments. *)
Definition v7 : ConsensusParams :=
  ConsensusParams_zero
    <| cp_UpgradeVoteRounds := 10000 |>
    <| cp_UpgradeThreshold := 9000 |>
    <| cp_UpgradeWaitRounds := 10000 |>
    <| cp_MaxVersionStringLen := 64 |>
    <| cp_MinBalance := 10000 |>
    <| cp_MinTxnFee := 1000 |>
    <| cp_MaxTxnLife := 1000 |>
    <| cp_MaxTxnNoteBytes := 1024 |>
    <| cp_MaxTxnBytesPerBlock := 1000000 |>
    <| cp_DefaultKeyDilution := 10000 |>
    <| cp_MaxTimestampIncrement := 25 |>
    <| cp_RewardUnit := 1000000 |>
    <| cp_RewardsRateRefreshInterval := 500000 |>
    <| cp_ApprovedUpgrades := ∅ |>
    <| cp_NumProposers := 30 |>
    <| cp_SoftCommitteeSize := 2500 |>
    <| cp_SoftCommitteeThreshold := 1870 |>
    <| cp_CertCommitteeSize := 1000 |>
    <| cp_CertCommitteeThreshold := 720 |>
    <| cp_NextCommitteeSize := 10000 |>
    <| cp_NextCommitteeThreshold := 7750 |>
    <| cp_LateCommitteeSize := 10000 |>
    <| cp_LateCommitteeThreshold := 7750 |>
    <| cp_RedoCommitteeSize := 10000 |>
    <| cp_RedoCommitteeThreshold := 7750 |>
    <| cp_DownCommitteeSize := 10000 |>
    <| cp_DownCommitteeThreshold := 7750 |>
    <| cp_FastRecoveryLambda := 5 * 60 * 1000000000 |>
    <| cp_SeedLookback := 2 |>
    <| cp_SeedRefreshInterval := 100 |>
    <| cp_MaxBalLookback := 320 |>
    <| cp_MaxTxGroupSize := 1 |>.
Definition v8 : ConsensusParams :=
  v7
    <| cp_SeedRefreshInterval := 80 |>
    <| cp_NumProposers := 9 |>
    <| cp_SoftCommitteeSize := 2990 |>
    <| cp_SoftCommitteeThreshold := 2267 |>
    <| cp_CertCommitteeSize := 1500 |>
    <| cp_CertCommitteeThreshold := 1112 |>
    <| cp_NextCommitteeSize := 5000 |>
    <| cp_NextCommitteeThreshold := 3838 |>
    <| cp_LateCommitteeSize := 5000 |>
    <| cp_LateCommitteeThreshold := 3838 |>
    <| cp_RedoCommitteeSize := 5000 |>
    <| cp_RedoCommitteeThreshold := 3838 |>
    <| cp_DownCommitteeSize := 5000 |>
    <| cp_DownCommitteeThreshold := 3838 |>
    <| cp_ApprovedUpgrades := ∅ |>.
Definition v9 : ConsensusParams :=
  v8
    <| cp_MinBalance := 100000 |>
    <| cp_ApprovedUpgrades := ∅ |>.
Definition v10 : ConsensusParams :=
  v9
    <| cp_FastPartitionRecovery := true |>
    <| cp_NumProposers := 20 |>
    <| cp_LateCommitteeSize := 500 |>
    <| cp_LateCommitteeThreshold := 320 |>
    <| cp_RedoCommitteeSize := 2400 |>
    <| cp_RedoCommitteeThreshold := 1768 |>
    <| cp_DownCommitteeSize := 6000 |>
    <| cp_DownCommitteeThreshold := 4560 |>
    <| cp_ApprovedUpgrades := ∅ |>.
Definition v11 : ConsensusParams :=
  v10
    <| cp_SupportSignedTxnInBlock := true |>
    <| cp_PaysetCommitFlat := true |>
    <| cp_ApprovedUpgrades := ∅ |>.
Definition v12 : ConsensusParams :=
  v11
    <| cp_MaxVersionStringLen := 128 |>
    <| cp_ApprovedUpgrades := ∅ |>.
Definition v13 : ConsensusParams :=
  v12
    <| cp_ApprovedUpgrades := ∅ |>.
Definition v14 : ConsensusParams :=
  v13
    <| cp_ApplyData := true |>
    <| cp_SupportGenesisHash := true |>
    <| cp_ApprovedUpgrades := ∅ |>.
Definition v15 : ConsensusParams :=
  v14
    <| cp_RewardsInApplyData := true |>
    <| cp_ForceNonParticipatingFeeSink := true |>
    <| cp_ApprovedUpgrades := ∅ |>.
Definition v16 : ConsensusParams :=
  v15
    <| cp_CredentialDomainSeparationEnabled := true |>
    <| cp_RequireGenesisHash := true |>
    <| cp_ApprovedUpgrades := ∅ |>.
Definition v17 : ConsensusParams :=
  v16
    <| cp_ApprovedUpgrades := ∅ |>.
Definition v18 : ConsensusParams :=
  v17
    <| cp_PendingResidueRewards := true |>
    <| cp_ApprovedUpgrades := ∅ |>
    <| cp_TxnCounter := true |>
    <| cp_Asset := true |>
    <| cp_LogicSigVersion := 1 |>
    <| cp_LogicSigMaxSize := 1000 |>
    <| cp_LogicSigMaxCost := 20000 |>
    <| cp_MaxAssetsPerAccount := 1000 |>
    <| cp_SupportTxGroups := true |>
    <| cp_MaxTxGroupSize := 16 |>
    <| cp_SupportTransactionLeases := true |>
    <| cp_SupportBecomeNonParticipatingTransactions := true |>
    <| cp_MaxAssetNameBytes := 32 |>
    <| cp_MaxAssetUnitNameBytes := 8 |>
    <| cp_MaxAssetURLBytes := 32 |>.
Definition v19 : ConsensusParams :=
  v18
    <| cp_ApprovedUpgrades := ∅ |>.
Definition vFuture : ConsensusParams :=
  v19
    <| cp_ApprovedUpgrades := ∅ |>.

(** [vN.ApprovedUpgrades[w] = true]: the map is shared by the local variable [vN]
    and by the table entry, so the table sees the assignment. *)
Definition approve (v w : string) (tbl : gmap string ConsensusParams) : gmap string ConsensusParams :=
  alter (λ p, p <| cp_ApprovedUpgrades ::= <[w := true]> |>) v tbl.

Definition initConsensusProtocols (tbl : gmap string ConsensusParams) : gmap string ConsensusParams :=
  let tbl := <[ConsensusV7 := v7]> tbl in
  let tbl := <[ConsensusV8 := v8]> tbl in
  let tbl := approve ConsensusV7 ConsensusV8 tbl in
  let tbl := <[ConsensusV9 := v9]> tbl in
  let tbl := approve ConsensusV8 ConsensusV9 tbl in
  let tbl := <[ConsensusV10 := v10]> tbl in
  let tbl := approve ConsensusV9 ConsensusV10 tbl in
  let tbl := <[ConsensusV11 := v11]> tbl in
  let tbl := approve ConsensusV10 ConsensusV11 tbl in
  let tbl := <[ConsensusV12 := v12]> tbl in
  let tbl := approve ConsensusV11 ConsensusV12 tbl in
  let tbl := <[ConsensusV13 := v13]> tbl in
  let tbl := approve ConsensusV12 ConsensusV13 tbl in
  let tbl := <[ConsensusV14 := v14]> tbl in
  let tbl := approve ConsensusV13 ConsensusV14 tbl in
  let tbl := <[ConsensusV15 := v15]> tbl in
  let tbl := approve ConsensusV14 ConsensusV15 tbl in
  let tbl := <[ConsensusV16 := v16]> tbl in
  let tbl := approve ConsensusV15 ConsensusV16 tbl in
  let tbl := <[ConsensusV17 := v17]> tbl in
  let tbl := approve ConsensusV16 ConsensusV17 tbl in
  let tbl := <[ConsensusV18 := v18]> tbl in
  let tbl := <[ConsensusV19 := v19]> tbl in
  let tbl := approve ConsensusV18 ConsensusV19 tbl in
  let tbl := approve ConsensusV17 ConsensusV19 tbl in
  let tbl := <[ConsensusFuture := vFuture]> tbl in
  tbl.

Definition initConsensusTestProtocols (tbl : gmap string ConsensusParams) : gmap string ConsensusParams :=
  let test0 := ConsensusParams_zero
    <| cp_UpgradeVoteRounds := 2 |>
    <| cp_UpgradeThreshold := 1 |>
    <| cp_UpgradeWaitRounds := 2 |>
    <| cp_MaxVersionStringLen := 64 |>
    <| cp_MaxTxnBytesPerBlock := 1000000 |>
    <| cp_DefaultKeyDilution := 10000 |>
    <| cp_ApprovedUpgrades := {[ConsensusTest1 := true]} |> in
  let test1 := ConsensusParams_zero
    <| cp_UpgradeVoteRounds := 10 |>
    <| cp_UpgradeThreshold := 8 |>
    <| cp_UpgradeWaitRounds := 10 |>
    <| cp_MaxVersionStringLen := 64 |>
    <| cp_MaxTxnBytesPerBlock := 1000000 |>
    <| cp_DefaultKeyDilution := 10000 |>
    <| cp_ApprovedUpgrades := ∅ |> in
  let tbl := <[ConsensusTest1 := test1]> (<[ConsensusTest0 := test0]> tbl) in
  let testBigBlocks := (default ConsensusParams_zero (tbl !! ConsensusCurrentVersion))
    <| cp_MaxTxnBytesPerBlock := 100000000 |> <| cp_ApprovedUpgrades := ∅ |> in
  let tbl := <[ConsensusTestBigBlocks := testBigBlocks]> tbl in
  let rapidRecalcParams := (default ConsensusParams_zero (tbl !! ConsensusCurrentVersion))
    <| cp_RewardsRateRefreshInterval := 25 |> <| cp_ApprovedUpgrades := ∅ |> in
  <[ConsensusTestRapidRewardRecalculation := rapidRecalcParams]> tbl.

Definition fastUpgrade (params : ConsensusParams) : ConsensusParams :=
  params <| cp_UpgradeVoteRounds := 5 |> <| cp_UpgradeThreshold := 3 |>
    <| cp_UpgradeWaitRounds := 5 |>
    <| cp_MaxVersionStringLen ::= λ n, n + Z.of_nat (String.length (ConsensusTestFastUpgrade "")) |>
    <| cp_ApprovedUpgrades ::= λ m, kmap ConsensusTestFastUpgrade m |>.

Definition initConsensusTestFastUpgrade (tbl : gmap string ConsensusParams) : gmap string ConsensusParams :=
  kmap ConsensusTestFastUpgrade (fastUpgrade <$> tbl) ∪ tbl.

(** The table [config.Consensus] after [init]. *)
Definition Consensus : gmap string ConsensusParams :=
  initConsensusTestFastUpgrade (initConsensusTestProtocols (initConsensusProtocols ∅)).

(** ** What the table guarantees *)

(** Every upgrade a version approves is itself in the table, is not the empty
    string, and fits the approving version's limit on version strings: the checks
    of [applyUpgradeVote] and [MakeBlock] that would otherwise fail. *)
Definition upgrade_ok (tbl : gmap string ConsensusParams) (p : ConsensusParams) (w : string) : bool :=
  bool_decide (is_Some (tbl !! w)) && bool_decide (w <> "")
  && (Z.of_nat (String.length w) <=? cp_MaxVersionStringLen p).

Definition upgrades_closed (tbl : gmap string ConsensusParams) : bool :=
  forallb (λ '(_, p), forallb (λ '(w, _), upgrade_ok tbl p w) (map_to_list (cp_ApprovedUpgrades p)))
    (map_to_list tbl).

(** The parameters the arithmetic of the ledger divides by or counts with. *)
Definition params_sane (p : ConsensusParams) : bool :=
  (0 <? cp_RewardUnit p) && (0 <? cp_RewardsRateRefreshInterval p) && (0 <? cp_MinBalance p)
  && (cp_UpgradeThreshold p <=? cp_UpgradeVoteRounds p) && (0 <? cp_UpgradeThreshold p)
  && (0 <? cp_UpgradeWaitRounds p) && (0 <? cp_MaxTxnLife p) && (0 <? cp_MaxTxGroupSize p).

Lemma forallb_map_to_list {V} (f : string * V -> bool) (m : gmap string V) k v :
  forallb f (map_to_list m) = true -> m !! k = Some v -> f (k, v) = true.
Proof.
  intros H Hk. rewrite forallb_forall in H. apply H, list_elem_of_In, elem_of_map_to_list, Hk.
Qed.

Lemma upgrades_closed_spec tbl v p w b :
  upgrades_closed tbl = true -> tbl !! v = Some p -> cp_ApprovedUpgrades p !! w = Some b ->
  is_Some (tbl !! w) /\ w <> "" /\ Z.of_nat (String.length w) <= cp_MaxVersionStringLen p.
Proof.
  intros Hc Hv Hw. apply (forallb_map_to_list _ _ _ _ Hc) in Hv as Hp.
  apply (forallb_map_to_list _ _ _ _ Hp) in Hw. unfold upgrade_ok in Hw.
  bool_hyps. tauto.
Qed.

(** The release versions and their fast-upgrade copies are sane; the entries
    "test0" and "test1" leave the reward unit at zero. *)
Lemma Consensus_release_sane :
  forallb (λ '(_, p), params_sane p) (map_to_list (initConsensusProtocols ∅)) = true.
Proof. vm_compute. reflexivity. Qed.

Lemma Consensus_upgrades_closed : upgrades_closed Consensus = true.
Proof. vm_compute. reflexivity. Qed.
