(* ===== verification/Basics.v ===== *)
(** Basic types (src/data/basics): overflow-checked arithmetic, rounds and
    account data with deferred rewards.

    [Address], [Digest] and key types are byte strings, a [list Z]; the zero
    value of a 32-byte array is [zero32].  A Go map field is an [option gmap]:
    [None] is the nil map, which [AccountData.IsZero] tells apart from an empty
    one. *)

From S2P Require Import Prelude Config.

Notation bytes := (list Z) (only parsing).
Notation Address := (list Z) (only parsing).
Notation Digest := (list Z) (only parsing).
Notation Round := Z (only parsing).
Notation MicroAlgos := Z (only parsing).
Notation AssetIndex := Z (only parsing).

Definition zero32 : list Z := replicate 32 0.
#[global] Arguments zero32 : simpl never.

(** ** overflow.go *)

Definition OAdd16 (a b : Z) : Z * bool := let res := (a + b) mod 2 ^ 16 in (res, res <? a).
Definition OAdd (a b : Z) : Z * bool := let res := wrap64 (a + b) in (res, res <? a).
Definition OSub (a b : Z) : Z * bool := let res := wrap64 (a - b) in (res, a <? res).
Definition OMul (a b : Z) : Z * bool :=
  if b =? 0 then (0, false)
  else let c := wrap64 (a * b) in
       if negb (c / b =? a) then (0, true) else (c, false).
Definition MulSaturate (a b : Z) : Z :=
  let '(res, overflowed) := OMul a b in if overflowed then maxUint64 else res.

(** The sticky flag of [OverflowTracker], threaded through its methods. *)
Definition ot_Add16 (t : bool) (a b : Z) : Z * bool := let '(res, o) := OAdd16 a b in (res, t || o).
Definition ot_Add (t : bool) (a b : Z) : Z * bool := let '(res, o) := OAdd a b in (res, t || o).
Definition ot_Sub (t : bool) (a b : Z) : Z * bool := let '(res, o) := OSub a b in (res, t || o).
Definition ot_Mul (t : bool) (a b : Z) : Z * bool := let '(res, o) := OMul a b in (res, t || o).

Definition OAddA (a b : MicroAlgos) : MicroAlgos * bool := OAdd a b.
Definition OSubA (a b : MicroAlgos) : MicroAlgos * bool := OSub a b.
Definition MulAIntSaturate (a : MicroAlgos) (b : Z) : MicroAlgos := MulSaturate a (wrap64 b).
Definition ot_AddA (t : bool) (a b : MicroAlgos) : MicroAlgos * bool := ot_Add t a b.
Definition ot_SubA (t : bool) (a b : MicroAlgos) : MicroAlgos * bool := ot_Sub t a b.
Definition ot_ScalarMulA (t : bool) (a : MicroAlgos) (b : Z) : MicroAlgos * bool := ot_Mul t a b.

(** ** units.go *)

Definition RewardUnits (a : MicroAlgos) (proto : ConsensusParams) : result Z :=
  if cp_RewardUnit proto =? 0 then Panic "integer divide by zero"
  else Ok (a / cp_RewardUnit proto).

Definition SubSaturate (round x : Round) : Round :=
  if round <? x then 0 else wrap64 (round - x).

(** [OneTimeSignatureIdentifier]: batch and offset of a round. *)
Definition OneTimeIDForRound (round : Round) (keyDilution : Z) : result (Z * Z) :=
  if keyDilution =? 0 then Panic "integer divide by zero"
  else Ok (round / keyDilution, round mod keyDilution).

(** ** userBalance.go *)

Inductive Status := Offline | Online | NotParticipating.
#[export] Instance Status_eq_dec : EqDecision Status.
Proof. solve_decision. Defined.

Record AssetHolding := mkAssetHolding { ah_Amount : Z; ah_Frozen : bool }.
#[export] Instance AssetHolding_eq_dec : EqDecision AssetHolding.
Proof. solve_decision. Defined.
#[export] Instance AssetHolding_eta : Eta AssetHolding :=
  λ r, mkAssetHolding (ah_Amount r) (ah_Frozen r).
Definition AssetHolding_zero : AssetHolding := mkAssetHolding 0 false.

Record AssetParams := mkAssetParams {
  ap_Total : Z;
  ap_DefaultFrozen : bool;
  ap_UnitName : string;
  ap_AssetName : string;
  ap_URL : string;
  ap_MetadataHash : bytes;
  ap_Manager : Address;
  ap_Reserve : Address;
  ap_Freeze : Address;
  ap_Clawback : Address
}.
#[export] Instance AssetParams_eq_dec : EqDecision AssetParams.
Proof. solve_decision. Defined.
#[export] Instance AssetParams_eta : Eta AssetParams := λ r,
  mkAssetParams (ap_Total r) (ap_DefaultFrozen r) (ap_UnitName r) (ap_AssetName r) (ap_URL r)
    (ap_MetadataHash r) (ap_Manager r) (ap_Reserve r) (ap_Freeze r) (ap_Clawback r).
Definition AssetParams_zero : AssetParams :=
  mkAssetParams 0 false "" "" "" zero32 zero32 zero32 zero32 zero32.

Record AccountData := mkAccountData {
  ad_Status : Status;
  ad_MicroAlgos : MicroAlgos;
  ad_RewardsBase : Z;
  ad_RewardedMicroAlgos : MicroAlgos;
  ad_VoteID : bytes;
  ad_SelectionID : bytes;
  ad_VoteFirstValid : Round;
  ad_VoteLastValid : Round;
  ad_VoteKeyDilution : Z;
  ad_AssetParams : option (gmap AssetIndex AssetParams);
  ad_Assets : option (gmap AssetIndex AssetHolding)
}.
#[export] Instance AccountData_eq_dec : EqDecision AccountData.
Proof. solve_decision. Defined.
#[export] Instance AccountData_eta : Eta AccountData := λ r,
  mkAccountData (ad_Status r) (ad_MicroAlgos r) (ad_RewardsBase r) (ad_RewardedMicroAlgos r)
    (ad_VoteID r) (ad_SelectionID r) (ad_VoteFirstValid r) (ad_VoteLastValid r)
    (ad_VoteKeyDilution r) (ad_AssetParams r) (ad_Assets r).
Definition AccountData_zero : AccountData :=
  mkAccountData Offline 0 0 0 zero32 zero32 0 0 0 None None.

Definition MakeAccountData (status : Status) (algos : MicroAlgos) : AccountData :=
  AccountData_zero <| ad_Status := status |> <| ad_MicroAlgos := algos |>.

(** A [BalanceRecord] is an address with its account data. *)
Definition BalanceRecord : Type := Address * AccountData.

Definition WithUpdatedRewards (u : AccountData) (proto : ConsensusParams) (rewardsLevel : Z)
    : result AccountData :=
  if decide (ad_Status u <> NotParticipating) then
    rewardsUnits ← RewardUnits (ad_MicroAlgos u) proto;
    let '(rewardsDelta, ot) := ot_Sub false rewardsLevel (ad_RewardsBase u) in
    let '(rewards, ot) := ot_Mul ot rewardsUnits rewardsDelta in
    let '(algos, ot) := ot_AddA ot (ad_MicroAlgos u) rewards in
    if ot then Panic "AccountData.WithUpdatedRewards(): overflowed account balance"
    else Ok (u <| ad_MicroAlgos := algos |> <| ad_RewardsBase := rewardsLevel |>
               <| ad_RewardedMicroAlgos := wrap64 (ad_RewardedMicroAlgos u + rewards) |>)
  else Ok u.

Definition Money (u : AccountData) (proto : ConsensusParams) (rewardsLevel : Z)
    : result (MicroAlgos * MicroAlgos) :=
  e ← WithUpdatedRewards u proto rewardsLevel;
  mret (ad_MicroAlgos e, ad_RewardedMicroAlgos e).

Definition VotingStake (u : AccountData) : MicroAlgos :=
  if decide (ad_Status u <> Online) then 0 else ad_MicroAlgos u.

Definition KeyDilution (u : AccountData) (proto : ConsensusParams) : Z :=
  if negb (ad_VoteKeyDilution u =? 0) then ad_VoteKeyDilution u else cp_DefaultKeyDilution proto.

(** [reflect.DeepEqual] with the zero value, after an empty [Assets] is made nil. *)
Definition IsZero (u : AccountData) : bool :=
  let u := if bool_decide (ad_Assets u = Some ∅) then u <| ad_Assets := None |> else u in
  bool_decide (u = AccountData_zero).

(** ** Specifications *)

Lemma OAdd_spec a b : u64 a -> u64 b ->
  OAdd a b = if a + b <? 2 ^ 64 then (a + b, false) else (a + b - 2 ^ 64, true).
Proof.
  intros Ha Hb. unfold OAdd. destruct (Z.ltb_spec (a + b) (2 ^ 64)).
  - rewrite wrap64_small by (unfold u64 in *; lia). f_equal. apply Z.ltb_ge. unfold u64 in *; lia.
  - rewrite wrap64_add_over by done. f_equal. apply Z.ltb_lt. unfold u64 in *; lia.
Qed.

Lemma OSub_spec a b : u64 a -> u64 b ->
  OSub a b = if b <=? a then (a - b, false) else (a - b + 2 ^ 64, true).
Proof.
  intros Ha Hb. unfold OSub. destruct (Z.leb_spec b a).
  - rewrite wrap64_sub_small by done. f_equal. apply Z.ltb_ge. unfold u64 in *; lia.
  - rewrite wrap64_sub_under by done. f_equal. apply Z.ltb_lt. unfold u64 in *; lia.
Qed.

Lemma OMul_spec a b : u64 a -> u64 b ->
  OMul a b = if a * b <? 2 ^ 64 then (a * b, false) else (0, true).
Proof.
  unfold u64. intros Ha Hb. unfold OMul. destruct (Z.eqb_spec b 0) as [->|Hb0].
  { rewrite Z.mul_0_r. done. }
  destruct (Z.ltb_spec (a * b) (2 ^ 64)).
  - rewrite wrap64_small by (unfold u64; nia). rewrite Z.div_mul by done.
    by rewrite Z.eqb_refl.
  - destruct (Z.eqb_spec (wrap64 (a * b) / b) a) as [E|]; [|done]. exfalso.
    pose proof (wrap64_range (a * b)) as [_ Hr].
    pose proof (Z.mul_div_le (wrap64 (a * b)) b ltac:(lia)). rewrite E in *. lia.
Qed.

Lemma OAdd_Ok a b r : u64 a -> u64 b -> OAdd a b = (r, false) -> r = a + b /\ a + b < 2 ^ 64.
Proof. intros Ha Hb. rewrite OAdd_spec by done. destruct (Z.ltb_spec (a + b) (2 ^ 64)); naive_solver. Qed.
Lemma OSub_Ok a b r : u64 a -> u64 b -> OSub a b = (r, false) -> r = a - b /\ b <= a.
Proof. intros Ha Hb. rewrite OSub_spec by done. destruct (Z.leb_spec b a); naive_solver. Qed.
Lemma OAdd_range a b : u64 (OAdd a b).1.
Proof. apply wrap64_range. Qed.
Lemma OSub_range a b : u64 (OSub a b).1.
Proof. apply wrap64_range. Qed.
#[export] Hint Resolve OAdd_range OSub_range : ledger.

Lemma MulSaturate_spec a b : u64 a -> u64 b -> MulSaturate a b = Z.min (a * b) maxUint64.
Proof.
  intros Ha Hb. unfold MulSaturate, maxUint64. rewrite OMul_spec by done.
  destruct (Z.ltb_spec (a * b) (2 ^ 64)); lia.
Qed.

Lemma RewardUnits_Ok a p r : RewardUnits a p = Ok r -> cp_RewardUnit p <> 0 /\ r = a / cp_RewardUnit p.
Proof. unfold RewardUnits. destruct (Z.eqb_spec (cp_RewardUnit p) 0); naive_solver. Qed.

(** The amount an account owns at a rewards level, as an unbounded integer: its
    stored balance plus the deferred rewards. *)
Definition units (p : ConsensusParams) (d : AccountData) : Z :=
  if decide (ad_Status d <> NotParticipating) then ad_MicroAlgos d / cp_RewardUnit p else 0.

Definition pending (p : ConsensusParams) (lvl : Z) (d : AccountData) : Z :=
  units p d * (lvl - (if decide (ad_Status d <> NotParticipating) then ad_RewardsBase d else lvl)).

Definition money (p : ConsensusParams) (lvl : Z) (d : AccountData) : Z :=
  ad_MicroAlgos d + pending p lvl d.

(** Field ranges: what the Go types guarantee. *)
Record wf_acct (d : AccountData) : Prop := {
  wf_algos : u64 (ad_MicroAlgos d);
  wf_base : u64 (ad_RewardsBase d);
  wf_rewarded : u64 (ad_RewardedMicroAlgos d);
  wf_assets : forall i h, asmap (ad_Assets d) !! i = Some h -> u64 (ah_Amount h);
  wf_params : forall i q, asmap (ad_AssetParams d) !! i = Some q -> u64 (ap_Total q)
}.

Lemma wf_acct_zero : wf_acct AccountData_zero.
Proof. split; cbn; try (unfold u64; lia); intros i ?; by rewrite lookup_empty. Qed.
#[export] Hint Resolve wf_acct_zero : ledger.

(** The parts of an account that rewards never touch. *)
Definition same_assets (d d' : AccountData) : Prop :=
  ad_Assets d' = ad_Assets d /\ ad_AssetParams d' = ad_AssetParams d.

Lemma units_range p d : wf_acct d -> 0 < cp_RewardUnit p -> 0 <= units p d <= ad_MicroAlgos d.
Proof.
  intros [[H1 H2] _ _ _ _] Hp. unfold units. case_decide; [|lia]. split.
  - apply Z.div_pos; lia.
  - apply Z.div_le_upper_bound; nia.
Qed.

(** [WithUpdatedRewards] succeeds exactly when the rewards level has not gone
    back and the effective balance fits 64 bits, and then stores that balance. *)
Lemma WithUpdatedRewards_spec u p lvl :
  wf_acct u -> u64 lvl -> 0 < cp_RewardUnit p -> ad_Status u <> NotParticipating ->
  WithUpdatedRewards u p lvl =
    if (ad_RewardsBase u <=? lvl) && (money p lvl u <? 2 ^ 64) then
      Ok (u <| ad_MicroAlgos := money p lvl u |> <| ad_RewardsBase := lvl |>
            <| ad_RewardedMicroAlgos := wrap64 (ad_RewardedMicroAlgos u + pending p lvl u) |>)
    else Panic "AccountData.WithUpdatedRewards(): overflowed account balance".
Proof.
  intros Hwf Hl Hp Hs. pose proof (units_range p u Hwf Hp) as Hu.
  unfold WithUpdatedRewards, RewardUnits, ot_Sub, ot_Mul, ot_AddA, ot_Add, money, pending, units in *.
  rewrite !decide_True in * by done. rewrite (proj2 (Z.eqb_neq _ _)) by lia. cbn [mbind result_bind].
  set (n := ad_MicroAlgos u / cp_RewardUnit p) in *.
  destruct Hwf as [Ha Hb _ _ _]. rewrite OSub_spec by done.
  destruct (Z.leb_spec (ad_RewardsBase u) lvl); cbn [orb andb].
  - rewrite OMul_spec by (unfold u64 in *; lia).
    destruct (Z.ltb_spec (n * (lvl - ad_RewardsBase u)) (2 ^ 64)); cbn [orb].
    + rewrite OAdd_spec by (unfold u64 in *; nia).
      destruct (Z.ltb_spec (ad_MicroAlgos u + n * (lvl - ad_RewardsBase u)) (2 ^ 64)); done.
    + rewrite (proj2 (Z.ltb_ge _ _)) by (unfold u64 in *; nia).
      by destruct (OAdd _ _).
  - destruct (OMul _ _), (OAdd _ _). done.
Qed.

Lemma money_updated_base p lvl d :
  ad_RewardsBase d = lvl \/ ad_Status d = NotParticipating -> money p lvl d = ad_MicroAlgos d.
Proof.
  unfold money, pending. intros [->| ->]; [case_decide; lia|].
  rewrite decide_False by naive_solver. lia.
Qed.

Lemma WithUpdatedRewards_Ok u p lvl u' :
  wf_acct u -> u64 lvl -> 0 < cp_RewardUnit p -> WithUpdatedRewards u p lvl = Ok u' ->
  ad_MicroAlgos u' = money p lvl u /\ money p lvl u' = money p lvl u /\ wf_acct u' /\
  same_assets u u' /\ ad_Status u' = ad_Status u /\
  (ad_Status u <> NotParticipating -> ad_RewardsBase u' = lvl /\ ad_RewardsBase u <= lvl).
Proof.
  intros Hwf Hl Hp H. destruct (decide (ad_Status u = NotParticipating)) as [Hs|Hs].
  - unfold WithUpdatedRewards in H. rewrite decide_False in H by naive_solver. inv_ok.
    unfold money, pending, same_assets. rewrite decide_False by naive_solver.
    split_and!; (lia || done || naive_solver).
  - rewrite WithUpdatedRewards_spec in H by done.
    destruct ((ad_RewardsBase u <=? lvl) && (money p lvl u <? 2 ^ 64)) eqn:E; [|done].
    inv_ok. bool_hyps. destruct E as [E1 E2]. pose proof (units_range p u Hwf Hp).
    assert (0 <= money p lvl u).
    { unfold money, pending. rewrite decide_True by done. destruct Hwf as [[]]. nia. }
    unfold same_assets. destruct Hwf. split_and!; try done.
    + rewrite money_updated_base; [done|]. by left.
    + split; cbn; try done; apply wrap64_range.
Qed.

Lemma WithUpdatedRewards_not_Err u p lvl e : WithUpdatedRewards u p lvl <> Err e.
Proof.
  unfold WithUpdatedRewards, RewardUnits. case_decide; [|done].
  destruct (cp_RewardUnit p =? 0); cbn [mbind result_bind]; [done|].
  destruct (ot_Sub _ _ _) as [? t1]. destruct (ot_Mul t1 _ _) as [? t2].
  by destruct (ot_AddA t2 _ _) as [? []].
Qed.

Lemma money_nonneg p lvl d :
  wf_acct d -> 0 < cp_RewardUnit p -> (ad_Status d <> NotParticipating -> ad_RewardsBase d <= lvl) ->
  ad_MicroAlgos d <= money p lvl d.
Proof.
  intros Hwf Hp Hb. pose proof (units_range p d Hwf Hp). unfold money, pending.
  case_decide; [|lia]. specialize (Hb ltac:(done)). nia.
Qed.

Lemma SubSaturate_spec r x : u64 r -> u64 x -> SubSaturate r x = Z.max 0 (r - x).
Proof.
  intros Hr Hx. unfold SubSaturate. destruct (Z.ltb_spec r x); [lia|].
  rewrite wrap64_sub_small by done. lia.
Qed.

(** ** Views of the accounts *)

(** The account data of every address; [None]: not known. *)
Notation View := (list Z -> option AccountData) (only parsing).

Definition wfV (V : View) : Prop := forall a d, V a = Some d -> wf_acct d.

(** Sum of the effective balances of the accounts in [D]. *)
Definition total (p : ConsensusParams) (lvl : Z) (V : View) (D : list Address) : Z :=
  sumZ (λ a, from_option (money p lvl) 0 (V a)) D.

(** Replacing one account. *)
Lemma total_fupd p lvl (V V' : View) D a d d' : NoDup D -> a ∈ D -> V a = Some d ->
  (forall x, V' x = fupd V a (Some d') x) ->
  total p lvl V' D = total p lvl V D - money p lvl d + money p lvl d'.
Proof.
  intros Hnd Ha Hd HV'. unfold total.
  rewrite (sumZ_update (λ a, from_option (money p lvl) 0 (V a)) _ D a Hnd Ha).
  - rewrite HV', fupd_eq, Hd. done.
  - intros b Hb. by rewrite HV', fupd_ne.
Qed.
