(* ===== verification/Transactions.v ===== *)
(** Transactions (src/data/transactions): their fields, the stateless checks
    [WellFormed] and [Alive], and [Apply] with the five kinds of transaction.

    [Apply] mutates balances through the interface [Balances]; here it is a
    typeclass of operations in the monad [M S].  [BalancesLaws] states what the
    interface promises, and the theorems of [TransactionsSpec] are proved against
    it; [Cow] discharges it for [roundCowState].

    A pointer argument [*MicroAlgos] is an optional value ([None] for nil) that the
    call returns updated.  [protocol.Encode] and [crypto.HashObj] are third-party
    code: the transaction hash is the parameter [computeID]. *)

From S2P Require Import Prelude Config Basics.

Notation Txid := (list Z) (only parsing).

(** [protocol.TxType] *)
Definition PaymentTx : string := "pay".
Definition KeyRegistrationTx : string := "keyreg".
Definition AssetConfigTx : string := "acfg".
Definition AssetTransferTx : string := "axfer".
Definition AssetFreezeTx : string := "afrz".
Definition UnknownTx : string := "unknown".

Record SpecialAddresses := mkSpecialAddresses { sa_FeeSink : Address; sa_RewardsPool : Address }.

Record Header := mkHeader {
  hdr_Sender : Address;
  hdr_Fee : MicroAlgos;
  hdr_FirstValid : Round;
  hdr_LastValid : Round;
  hdr_Note : option bytes;   (* None: a nil slice *)
  hdr_GenesisID : string;
  hdr_GenesisHash : Digest;
  hdr_Group : Digest;
  hdr_Lease : bytes
}.
#[export] Instance Header_eq_dec : EqDecision Header.
Proof. solve_decision. Defined.
#[export] Instance Header_eta : Eta Header := λ r,
  mkHeader (hdr_Sender r) (hdr_Fee r) (hdr_FirstValid r) (hdr_LastValid r) (hdr_Note r)
    (hdr_GenesisID r) (hdr_GenesisHash r) (hdr_Group r) (hdr_Lease r).

Record KeyregTxnFields := mkKeyregTxnFields {
  kr_VotePK : bytes;
  kr_SelectionPK : bytes;
  kr_VoteFirst : Round;
  kr_VoteLast : Round;
  kr_VoteKeyDilution : Z;
  kr_Nonparticipation : bool
}.
#[export] Instance KeyregTxnFields_eq_dec : EqDecision KeyregTxnFields.
Proof. solve_decision. Defined.
Definition KeyregTxnFields_zero : KeyregTxnFields := mkKeyregTxnFields zero32 zero32 0 0 0 false.

Record PaymentTxnFields := mkPaymentTxnFields {
  pay_Receiver : Address;
  pay_Amount : MicroAlgos;
  pay_CloseRemainderTo : Address
}.
#[export] Instance PaymentTxnFields_eq_dec : EqDecision PaymentTxnFields.
Proof. solve_decision. Defined.
Definition PaymentTxnFields_zero : PaymentTxnFields := mkPaymentTxnFields zero32 0 zero32.

Record AssetConfigTxnFields := mkAssetConfigTxnFields {
  ac_ConfigAsset : AssetIndex;
  ac_AssetParams : AssetParams
}.
#[export] Instance AssetConfigTxnFields_eq_dec : EqDecision AssetConfigTxnFields.
Proof. solve_decision. Defined.
Definition AssetConfigTxnFields_zero : AssetConfigTxnFields := mkAssetConfigTxnFields 0 AssetParams_zero.

Record AssetTransferTxnFields := mkAssetTransferTxnFields {
  ax_XferAsset : AssetIndex;
  ax_AssetAmount : Z;
  ax_AssetSender : Address;
  ax_AssetReceiver : Address;
  ax_AssetCloseTo : Address
}.
#[export] Instance AssetTransferTxnFields_eq_dec : EqDecision AssetTransferTxnFields.
Proof. solve_decision. Defined.
Definition AssetTransferTxnFields_zero : AssetTransferTxnFields :=
  mkAssetTransferTxnFields 0 0 zero32 zero32 zero32.

Record AssetFreezeTxnFields := mkAssetFreezeTxnFields {
  af_FreezeAccount : Address;
  af_FreezeAsset : AssetIndex;
  af_AssetFrozen : bool
}.
#[export] Instance AssetFreezeTxnFields_eq_dec : EqDecision AssetFreezeTxnFields.
Proof. solve_decision. Defined.
Definition AssetFreezeTxnFields_zero : AssetFreezeTxnFields := mkAssetFreezeTxnFields zero32 0 false.

Record Transaction := mkTransaction {
  tx_Type : string;
  tx_Header : Header;
  tx_Keyreg : KeyregTxnFields;
  tx_Payment : PaymentTxnFields;
  tx_AssetConfig : AssetConfigTxnFields;
  tx_AssetTransfer : AssetTransferTxnFields;
  tx_AssetFreeze : AssetFreezeTxnFields;
  tx_cachedTxid : Txid;
  tx_valid : bool
}.
#[export] Instance Transaction_eq_dec : EqDecision Transaction.
Proof. solve_decision. Defined.
#[export] Instance Transaction_eta : Eta Transaction := λ r,
  mkTransaction (tx_Type r) (tx_Header r) (tx_Keyreg r) (tx_Payment r) (tx_AssetConfig r)
    (tx_AssetTransfer r) (tx_AssetFreeze r) (tx_cachedTxid r) (tx_valid r).

Record ApplyData := mkApplyData {
  apd_ClosingAmount : MicroAlgos;
  apd_SenderRewards : MicroAlgos;
  apd_ReceiverRewards : MicroAlgos;
  apd_CloseRewards : MicroAlgos
}.
#[export] Instance ApplyData_eq_dec : EqDecision ApplyData.
Proof. solve_decision. Defined.
#[export] Instance ApplyData_eta : Eta ApplyData := λ r,
  mkApplyData (apd_ClosingAmount r) (apd_SenderRewards r) (apd_ReceiverRewards r) (apd_CloseRewards r).
Definition ApplyData_zero : ApplyData := mkApplyData 0 0 0 0.

(** ** The transaction identifier and its cache *)

Section TxID.
Variable computeID : Transaction -> Txid.

Definition InitCaches (tx : Transaction) : Transaction :=
  if negb (tx_valid tx) then tx <| tx_cachedTxid := computeID tx |> <| tx_valid := true |> else tx.
Definition ResetCaches (tx : Transaction) : Transaction := tx <| tx_valid := false |>.
Definition ID (tx : Transaction) : Txid := if tx_valid tx then tx_cachedTxid tx else computeID tx.
End TxID.

(** ** Stateless checks *)

(** [TxnContext] *)
Record TxnContext := mkTxnContext {
  tc_Round : Round;
  tc_ConsensusProtocol : ConsensusParams;
  tc_GenesisID : string;
  tc_GenesisHash : Digest
}.

Definition Alive (tx : Header) (tc : TxnContext) : result unit :=
  let round := tc_Round tc in
  if (round <? hdr_FirstValid tx) || (hdr_LastValid tx <? round) then
    Err (TxnDeadError round (hdr_FirstValid tx) (hdr_LastValid tx))
  else
  let proto := tc_ConsensusProtocol tc in
  if bool_decide (hdr_GenesisID tx <> "") && bool_decide (hdr_GenesisID tx <> tc_GenesisID tc) then
    Err (Errorf "tx.GenesisID does not match expected")
  else if cp_SupportGenesisHash proto then
    if bool_decide (hdr_GenesisHash tx <> zero32)
       && bool_decide (hdr_GenesisHash tx <> tc_GenesisHash tc) then
      Err (Errorf "tx.GenesisHash does not match expected")
    else if cp_RequireGenesisHash proto && bool_decide (hdr_GenesisHash tx = zero32) then
      Err (Errorf "required tx.GenesisHash is missing")
    else Ok tt
  else if bool_decide (hdr_GenesisHash tx <> zero32) then Err (Errorf "tx.GenesisHash not allowed")
  else Ok tt.

Definition checkSpender (payment : PaymentTxnFields) (header : Header) (spec : SpecialAddresses)
    : result unit :=
  if bool_decide (hdr_Sender header = pay_CloseRemainderTo payment) then
    Err (Errorf "transaction cannot close account to its sender")
  else if bool_decide (hdr_Sender header = sa_FeeSink spec) then
    if bool_decide (pay_Receiver payment <> sa_RewardsPool spec) then
      Err (Errorf "cannot spend from fee sink's address to non incentive pool address")
    else if bool_decide (pay_CloseRemainderTo payment <> zero32) then
      Err (Errorf "cannot close fee sink")
    else Ok tt
  else Ok tt.

(** The [switch tx.Type] of [WellFormed]. *)
Definition wellFormedType (tx : Transaction) (spec : SpecialAddresses) (proto : ConsensusParams)
    : result unit :=
  let t := tx_Type tx in
  if bool_decide (t = PaymentTx) then checkSpender (tx_Payment tx) (tx_Header tx) spec
  else if bool_decide (t = KeyRegistrationTx) then
    if kr_Nonparticipation (tx_Keyreg tx) then
      if negb (cp_SupportBecomeNonParticipatingTransactions proto) then
        Err (Errorf "transaction tries to mark an account as nonparticipating, but that transaction is not supported")
      else
        let suppliesNullKeys := bool_decide (kr_VotePK (tx_Keyreg tx) = zero32)
                                || bool_decide (kr_SelectionPK (tx_Keyreg tx) = zero32) in
        if negb suppliesNullKeys then
          Err (Errorf "transaction tries to register keys to go online, but nonparticipatory flag is set")
        else Ok tt
    else Ok tt
  else if bool_decide (t = AssetConfigTx) || bool_decide (t = AssetTransferTx)
          || bool_decide (t = AssetFreezeTx) then
    if negb (cp_Asset proto) then Err (Errorf "asset transaction not supported") else Ok tt
  else Err (Errorf "unknown tx type").

(** The keys of [nonZeroFields], the types whose fields are not all zero. *)
Definition nonZeroFields (tx : Transaction) : list string :=
  (if bool_decide (tx_Payment tx <> PaymentTxnFields_zero) then [PaymentTx] else []) ++
  (if bool_decide (tx_Keyreg tx <> KeyregTxnFields_zero) then [KeyRegistrationTx] else []) ++
  (if bool_decide (tx_AssetConfig tx <> AssetConfigTxnFields_zero) then [AssetConfigTx] else []) ++
  (if bool_decide (tx_AssetTransfer tx <> AssetTransferTxnFields_zero) then [AssetTransferTx] else []) ++
  (if bool_decide (tx_AssetFreeze tx <> AssetFreezeTxnFields_zero) then [AssetFreezeTx] else []).

Definition zlen {A} (l : list A) : Z := Z.of_nat (length l).
Definition strlen (s : string) : Z := Z.of_nat (String.length s).

Definition WellFormed (tx : Transaction) (spec : SpecialAddresses) (proto : ConsensusParams)
    : result unit :=
  let h := tx_Header tx in
  let params := ac_AssetParams (tx_AssetConfig tx) in
  _ ← wellFormedType tx spec proto;
  _ ← guardR (forallb (λ t, bool_decide (t = tx_Type tx)) (nonZeroFields tx))
        (Errorf "transaction has non-zero fields for another type");
  _ ← guardR (negb (hdr_Fee h <? cp_MinTxnFee proto)) MinFeeError;
  _ ← guardR (negb (hdr_LastValid h <? hdr_FirstValid h)) (Errorf "transaction invalid range");
  _ ← guardR (negb (cp_MaxTxnLife proto <? wrap64 (hdr_LastValid h - hdr_FirstValid h)))
        (Errorf "transaction window size excessive");
  _ ← guardR (negb (cp_MaxTxnNoteBytes proto <? zlen (default [] (hdr_Note h))))
        (Errorf "transaction note too big");
  _ ← guardR (negb (cp_MaxAssetNameBytes proto <? strlen (ap_AssetName params)))
        (Errorf "transaction asset name too big");
  _ ← guardR (negb (cp_MaxAssetUnitNameBytes proto <? strlen (ap_UnitName params)))
        (Errorf "transaction asset unit name too big");
  _ ← guardR (negb (cp_MaxAssetURLBytes proto <? strlen (ap_URL params)))
        (Errorf "transaction asset url too big");
  _ ← guardR (bool_decide (hdr_Sender h <> sa_RewardsPool spec))
        (Errorf "transaction from incentive pool is invalid");
  _ ← guardR (bool_decide (hdr_Sender h <> zero32)) (Errorf "transaction cannot have zero sender");
  _ ← guardR (cp_SupportTransactionLeases proto || bool_decide (hdr_Lease h = zero32))
        (Errorf "transaction tried to acquire lease but protocol does not support transaction leases");
  guardR (cp_SupportTxGroups proto || bool_decide (hdr_Group h = zero32))
        (Errorf "transaction has group but groups not yet enabled").

Definition RelevantAddrs (tx : Transaction) (spec : SpecialAddresses) : list Address :=
  let addrs := [hdr_Sender (tx_Header tx); sa_FeeSink spec] in
  if bool_decide (tx_Type tx = PaymentTx) then
    addrs ++ [pay_Receiver (tx_Payment tx)]
    ++ (if bool_decide (pay_CloseRemainderTo (tx_Payment tx) <> zero32)
        then [pay_CloseRemainderTo (tx_Payment tx)] else [])
  else if bool_decide (tx_Type tx = AssetTransferTx) then
    addrs ++ [ax_AssetReceiver (tx_AssetTransfer tx)]
    ++ (if bool_decide (ax_AssetCloseTo (tx_AssetTransfer tx) <> zero32)
        then [ax_AssetCloseTo (tx_AssetTransfer tx)] else [])
  else addrs.

Definition MatchAddress (tx : Transaction) (addr : Address) (spec : SpecialAddresses) : bool :=
  existsb (λ candidate, bool_decide (addr = candidate)) (RelevantAddrs tx spec).

Definition TxAmount (tx : Transaction) : MicroAlgos :=
  if bool_decide (tx_Type tx = PaymentTx) then pay_Amount (tx_Payment tx) else 0.

(** ** The interface [Balances] *)

Class Balances (S : Type) := {
  bal_Get : Address -> bool -> M S BalanceRecord;
  bal_GetAssetCreator : AssetIndex -> M S Address;
  bal_Put : BalanceRecord -> M S unit;
  bal_Move : Address -> Address -> MicroAlgos -> option MicroAlgos -> option MicroAlgos ->
             M S (option MicroAlgos * option MicroAlgos);
  bal_ConsensusParams : S -> ConsensusParams
}.

(** [x, err = f()] with the error ignored: [x] is the zero value. *)
Definition ignore_err {S A} (m : M S A) (zero : A) : M S A := λ s,
  match m s with (Err _, s') => (Ok zero, s') | r => r end.

Section Apply.
Context {S : Type} `{!Balances S}.

Definition the_params : M S ConsensusParams := λ s, (Ok (bal_ConsensusParams s), s).

Definition setSR (ad : ApplyData) (r : option MicroAlgos) : ApplyData :=
  match r with Some v => ad <| apd_SenderRewards := v |> | None => ad end.
Definition setRR (ad : ApplyData) (r : option MicroAlgos) : ApplyData :=
  match r with Some v => ad <| apd_ReceiverRewards := v |> | None => ad end.
Definition setCR (ad : ApplyData) (r : option MicroAlgos) : ApplyData :=
  match r with Some v => ad <| apd_CloseRewards := v |> | None => ad end.

(** The [CloseRemainderTo] part of a payment. *)
Definition payment_close (payment : PaymentTxnFields) (header : Header) (ad : ApplyData) : M S ApplyData :=
  rec ← bal_Get (hdr_Sender header) true;
  let closeAmount := ad_MicroAlgos rec.2 in
  let ad := ad <| apd_ClosingAmount := closeAmount |> in
  r ← bal_Move (hdr_Sender header) (pay_CloseRemainderTo payment) closeAmount
        (Some (apd_SenderRewards ad)) (Some (apd_CloseRewards ad));
  let ad := setCR (setSR ad r.1) r.2 in
  rec ← ignore_err (bal_Get (hdr_Sender header) true) (zero32, AccountData_zero);
  _ ← guardE (ad_MicroAlgos rec.2 =? 0) (Errorf "balance still not zero after CloseRemainderTo");
  _ ← guardE (negb (0 <? Z.of_nat (size (asmap (ad_Assets rec.2))))) (Errorf "cannot close: outstanding assets");
  _ ← guardE (negb (0 <? Z.of_nat (size (asmap (ad_AssetParams rec.2)))))
        (Errorf "cannot close: outstanding created assets");
  _ ← bal_Put (rec.1, AccountData_zero);
  mret ad.

Definition payment_apply (payment : PaymentTxnFields) (header : Header) (ad : ApplyData) : M S ApplyData :=
  ad ← (if negb (pay_Amount payment =? 0) || bool_decide (pay_Receiver payment <> zero32) then
          r ← bal_Move (hdr_Sender header) (pay_Receiver payment) (pay_Amount payment)
                (Some (apd_SenderRewards ad)) (Some (apd_ReceiverRewards ad));
          mret (setRR (setSR ad r.1) r.2)
        else mret ad);
  if bool_decide (pay_CloseRemainderTo payment <> zero32) then payment_close payment header ad
  else mret ad.

(** The record a key registration writes. *)
Definition keyreg_record (keyreg : KeyregTxnFields) (proto : ConsensusParams) (rec : AccountData)
    : result AccountData :=
  let rec := rec <| ad_VoteID := kr_VotePK keyreg |> <| ad_SelectionID := kr_SelectionPK keyreg |> in
  if bool_decide (kr_VotePK keyreg = zero32) || bool_decide (kr_SelectionPK keyreg = zero32) then
    rec ← (if kr_Nonparticipation keyreg then
             if cp_SupportBecomeNonParticipatingTransactions proto
             then Ok (rec <| ad_Status := NotParticipating |>)
             else Err (Errorf "transaction tries to mark an account as nonparticipating, but that transaction is not supported")
           else Ok (rec <| ad_Status := Offline |>));
    Ok (rec <| ad_VoteFirstValid := 0 |> <| ad_VoteLastValid := 0 |> <| ad_VoteKeyDilution := 0 |>)
  else
    Ok (rec <| ad_Status := Online |> <| ad_VoteFirstValid := kr_VoteFirst keyreg |>
            <| ad_VoteLastValid := kr_VoteLast keyreg |>
            <| ad_VoteKeyDilution := kr_VoteKeyDilution keyreg |>).

Definition keyreg_apply (keyreg : KeyregTxnFields) (header : Header) (spec : SpecialAddresses) : M S unit :=
  _ ← guardE (bool_decide (hdr_Sender header <> sa_FeeSink spec))
        (Errorf "cannot register participation key for fee sink's address");
  rec ← bal_Get (hdr_Sender header) false;
  _ ← guardE (bool_decide (ad_Status rec.2 <> NotParticipating))
        (Errorf "cannot change online/offline status of non-participating account");
  proto ← the_params;
  data ← lift (keyreg_record keyreg proto rec.2);
  bal_Put (rec.1, data).

(** [clone] and [cloneParams]: a fresh, non-nil map with the same entries. *)
Definition clone {V} (m : option (gmap AssetIndex V)) : option (gmap AssetIndex V) := Some (asmap m).

Definition setAssets (d : AccountData) (f : gmap AssetIndex AssetHolding -> gmap AssetIndex AssetHolding)
    : AccountData := d <| ad_Assets ::= λ m, f <$> clone m |>.
Definition setParams (d : AccountData) (f : gmap AssetIndex AssetParams -> gmap AssetIndex AssetParams)
    : AccountData := d <| ad_AssetParams ::= λ m, f <$> clone m |>.

Definition getParams (aidx : AssetIndex) : M S (AssetParams * Address) :=
  creator ← bal_GetAssetCreator aidx;
  creatorRecord ← bal_Get creator false;
  match asmap (ad_AssetParams creatorRecord.2) !! aidx with
  | Some params => mret (params, creator)
  | None => throw (Errorf "asset index not found in account")
  end.

(** Allocating an asset. *)
Definition assetConfig_create (cc : AssetConfigTxnFields) (header : Header) (txnCounter : Z) : M S unit :=
  rec ← bal_Get (hdr_Sender header) false;
  let newidx := wrap64 (txnCounter + 1) in
  _ ← guardE (bool_decide (asmap (ad_AssetParams rec.2) !! newidx = None))
        (Errorf "already found asset with index");
  let data := setParams rec.2 <[newidx := ac_AssetParams cc]> in
  let data := setAssets data <[newidx := mkAssetHolding (ap_Total (ac_AssetParams cc)) false]> in
  proto ← the_params;
  _ ← guardE (negb (cp_MaxAssetsPerAccount proto <? Z.of_nat (size (asmap (ad_Assets data)))))
        (Errorf "too many assets in account");
  bal_Put (rec.1, data).

(** The new parameters of a re-configured asset: zero addresses stay zero. *)
Definition reconfigure (params new : AssetParams) : AssetParams :=
  let keep old v : Address := if bool_decide (old = zero32) then old else v in
  params <| ap_Manager := keep (ap_Manager params) (ap_Manager new) |>
         <| ap_Reserve := keep (ap_Reserve params) (ap_Reserve new) |>
         <| ap_Freeze := keep (ap_Freeze params) (ap_Freeze new) |>
         <| ap_Clawback := keep (ap_Clawback params) (ap_Clawback new) |>.

Definition assetConfig_apply (cc : AssetConfigTxnFields) (header : Header) (txnCounter : Z) : M S unit :=
  if ac_ConfigAsset cc =? 0 then assetConfig_create cc header txnCounter
  else
    pc ← getParams (ac_ConfigAsset cc);
    let '(params, creator) := pc in
    _ ← guardE (negb (bool_decide (ap_Manager params = zero32)
                      || bool_decide (hdr_Sender header <> ap_Manager params)))
          (Errorf "this transaction should be issued by the manager");
    rec ← bal_Get creator false;
    if bool_decide (ac_AssetParams cc = AssetParams_zero) then
      let held := from_option ah_Amount 0 (asmap (ad_Assets rec.2) !! ac_ConfigAsset cc) in
      _ ← guardE (held =? ap_Total params) (Errorf "cannot destroy asset: creator is holding only part");
      bal_Put (rec.1, setParams (setAssets rec.2 (delete (ac_ConfigAsset cc))) (delete (ac_ConfigAsset cc)))
    else
      bal_Put (rec.1, setParams (setAssets rec.2 id)
                        <[ac_ConfigAsset cc := reconfigure params (ac_AssetParams cc)]>).

Definition takeOut (addr : Address) (asset : AssetIndex) (amount : Z) (bypassFreeze : bool) : M S unit :=
  if amount =? 0 then mret tt
  else
    snd ← bal_Get addr false;
    match asmap (ad_Assets snd.2) !! asset with
    | None => throw (Errorf "asset missing from account")
    | Some sndHolding =>
      _ ← guardE (negb (ah_Frozen sndHolding && negb bypassFreeze)) (Errorf "asset frozen in account");
      let '(newAmount, overflowed) := OSub (ah_Amount sndHolding) amount in
      _ ← guardE (negb overflowed) (Errorf "underflow on subtracting from sender amount");
      bal_Put (snd.1, setAssets snd.2 <[asset := sndHolding <| ah_Amount := newAmount |>]>)
    end.

Definition putIn (addr : Address) (asset : AssetIndex) (amount : Z) (bypassFreeze : bool) : M S unit :=
  if amount =? 0 then mret tt
  else
    rcv ← bal_Get addr false;
    match asmap (ad_Assets rcv.2) !! asset with
    | None => throw (Errorf "asset missing from account")
    | Some rcvHolding =>
      _ ← guardE (negb (ah_Frozen rcvHolding && negb bypassFreeze)) (Errorf "asset frozen in recipient");
      let '(newAmount, overflowed) := OAdd (ah_Amount rcvHolding) amount in
      _ ← guardE (negb overflowed) (Errorf "overflow on adding to receiver amount");
      bal_Put (rcv.1, setAssets rcv.2 <[asset := rcvHolding <| ah_Amount := newAmount |>]>)
    end.

(** Source of a transfer: the transaction sender, or the clawback target. *)
Definition transfer_source (ct : AssetTransferTxnFields) (header : Header) : M S (Address * bool) :=
  if bool_decide (ax_AssetSender ct = zero32) then mret (hdr_Sender header, false)
  else
    pc ← getParams (ax_XferAsset ct);
    _ ← guardE (negb (bool_decide (ap_Clawback pc.1 = zero32)
                      || bool_decide (hdr_Sender header <> ap_Clawback pc.1)))
          (Errorf "clawback not allowed");
    mret (ax_AssetSender ct, true).

(** Allocate a slot for an asset (a self-transfer of zero). *)
Definition transfer_optin (ct : AssetTransferTxnFields) (source : Address) : M S unit :=
  snd ← bal_Get source false;
  match asmap (ad_Assets snd.2) !! ax_XferAsset ct with
  | Some _ => mret tt
  | None =>
    pc ← getParams (ax_XferAsset ct);
    let data := setAssets snd.2
      <[ax_XferAsset ct := AssetHolding_zero <| ah_Frozen := ap_DefaultFrozen pc.1 |>]> in
    proto ← the_params;
    _ ← guardE (negb (cp_MaxAssetsPerAccount proto <? Z.of_nat (size (asmap (ad_Assets data)))))
          (Errorf "too many assets in account");
    bal_Put (snd.1, data)
  end.

(** The [AssetCloseTo] part of a transfer. *)
Definition transfer_close (ct : AssetTransferTxnFields) (source : Address) : M S unit :=
  snd ← bal_Get source false;
  _ ← guardE (bool_decide (asmap (ad_AssetParams snd.2) !! ax_XferAsset ct = None))
        (Errorf "cannot close asset ID in allocating account");
  match asmap (ad_Assets snd.2) !! ax_XferAsset ct with
  | None => throw (Errorf "asset not present in account")
  | Some sndHolding =>
    dst ← bal_Get (ax_AssetCloseTo ct) false;
    let bypassFreeze := bool_decide (is_Some (asmap (ad_AssetParams dst.2) !! ax_XferAsset ct)) in
    _ ← takeOut source (ax_XferAsset ct) (ah_Amount sndHolding) bypassFreeze;
    _ ← putIn (ax_AssetCloseTo ct) (ax_XferAsset ct) (ah_Amount sndHolding) bypassFreeze;
    snd ← bal_Get source false;
    let left := from_option ah_Amount 0 (asmap (ad_Assets snd.2) !! ax_XferAsset ct) in
    _ ← guardE (left =? 0) (Errorf "asset not zero after closing");
    bal_Put (snd.1, setAssets snd.2 (delete (ax_XferAsset ct)))
  end.

Definition assetTransfer_apply (ct : AssetTransferTxnFields) (header : Header) : M S unit :=
  sc ← transfer_source ct header;
  let '(source, clawback) := sc in
  _ ← (if (ax_AssetAmount ct =? 0) && bool_decide (ax_AssetReceiver ct = source) && negb clawback
       then transfer_optin ct source else mret tt);
  _ ← takeOut source (ax_XferAsset ct) (ax_AssetAmount ct) clawback;
  _ ← putIn (ax_AssetReceiver ct) (ax_XferAsset ct) (ax_AssetAmount ct) clawback;
  if bool_decide (ax_AssetCloseTo ct <> zero32) then
    _ ← guardE (negb clawback) (Errorf "cannot close asset by clawback");
    transfer_close ct source
  else mret tt.

Definition assetFreeze_apply (cf : AssetFreezeTxnFields) (header : Header) : M S unit :=
  pc ← getParams (af_FreezeAsset cf);
  _ ← guardE (negb (bool_decide (ap_Freeze pc.1 = zero32)
                    || bool_decide (hdr_Sender header <> ap_Freeze pc.1)))
        (Errorf "freeze not allowed");
  rec ← bal_Get (af_FreezeAccount cf) false;
  match asmap (ad_Assets rec.2) !! af_FreezeAsset cf with
  | None => throw (Errorf "asset not found in account")
  | Some holding =>
    bal_Put (rec.1, setAssets rec.2 <[af_FreezeAsset cf := holding <| ah_Frozen := af_AssetFrozen cf |>]>)
  end.

(** The [switch tx.Type] of [Apply]. *)
Definition apply_type (tx : Transaction) (spec : SpecialAddresses) (ctr : Z) (ad : ApplyData) : M S ApplyData :=
  let h := tx_Header tx in
  let keep (m : M S unit) : M S ApplyData := _ ← m; mret ad in
  if bool_decide (tx_Type tx = PaymentTx) then payment_apply (tx_Payment tx) h ad
  else if bool_decide (tx_Type tx = KeyRegistrationTx) then keep (keyreg_apply (tx_Keyreg tx) h spec)
  else if bool_decide (tx_Type tx = AssetConfigTx) then keep (assetConfig_apply (tx_AssetConfig tx) h ctr)
  else if bool_decide (tx_Type tx = AssetTransferTx) then keep (assetTransfer_apply (tx_AssetTransfer tx) h)
  else if bool_decide (tx_Type tx = AssetFreezeTx) then keep (assetFreeze_apply (tx_AssetFreeze tx) h)
  else throw (Errorf "Unknown transaction type").

Definition Apply (tx : Transaction) (spec : SpecialAddresses) (ctr : Z) : M S ApplyData :=
  params ← the_params;
  r ← bal_Move (hdr_Sender (tx_Header tx)) (sa_FeeSink spec) (hdr_Fee (tx_Header tx))
        (Some (apd_SenderRewards ApplyData_zero)) None;
  ad ← apply_type tx spec ctr (setSR ApplyData_zero r.1);
  mret (if cp_RewardsInApplyData params then ad
        else ad <| apd_SenderRewards := 0 |> <| apd_ReceiverRewards := 0 |> <| apd_CloseRewards := 0 |>).
End Apply.
