(* ===== verification/TransactionsSpec.v ===== *)
(** What [Transaction.Apply] guarantees, proved against the interface [Balances].

    [BalancesLaws] gives an implementation of the interface its abstract state, a
    [view] from addresses to account data ([None]: the lookup fails), and states
    the effect of each operation on it.  The theorems are about the view before
    and after a successful [Apply]: total algos are conserved, only the sender
    loses algos, and assets are conserved. *)

From S2P Require Import Prelude Config Basics Transactions.

(** The effect of a successful [Move]. *)
Definition move_post (p : ConsensusParams) (lvl : Z) (from to : Address) (amt : MicroAlgos)
    (V V' : View) : Prop :=
  exists f f' x t t' y,
    V from = Some f /\ WithUpdatedRewards f p lvl = Ok f' /\
    OSubA (ad_MicroAlgos f') amt = (x, false) /\
    fupd V from (Some (f' <| ad_MicroAlgos := x |>)) to = Some t /\
    WithUpdatedRewards t p lvl = Ok t' /\
    OAddA (ad_MicroAlgos t') amt = (y, false) /\
    forall a, V' a = fupd (fupd V from (Some (f' <| ad_MicroAlgos := x |>)))
                          to (Some (t' <| ad_MicroAlgos := y |>)) a.

Class BalancesLaws (S : Type) `{!Balances S} := {
  view : S -> Address -> option AccountData;
  level : S -> Z;
  law_Get_Some : forall a b s d, view s a = Some d ->
    bal_Get a b s = ((d' ← (if b then WithUpdatedRewards d (bal_ConsensusParams s) (level s) else Ok d);
                      Ok (a, d')), s);
  law_Get_None : forall a b s, view s a = None -> is_ok (bal_Get a b s).1 = false;
  law_GetAssetCreator : forall i s, (bal_GetAssetCreator i s).2 = s;
  law_Put : forall a d s s', bal_Put (a, d) s = (Ok tt, s') ->
    is_Some (view s a) /\ level s' = level s /\ bal_ConsensusParams s' = bal_ConsensusParams s /\
    forall x, view s' x = fupd (view s) a (Some d) x;
  law_Move : forall from to amt fr tr r s s', bal_Move from to amt fr tr s = (Ok r, s') ->
    level s' = level s /\ bal_ConsensusParams s' = bal_ConsensusParams s /\
    move_post (bal_ConsensusParams s) (level s) from to amt (view s) (view s')
}.

(** ** Views *)

(** Units of an asset held by an account, and by the accounts in [D]. *)
Definition holding (i : AssetIndex) (d : AccountData) : Z :=
  from_option ah_Amount 0 (asmap (ad_Assets d) !! i).
Definition holdingV (i : AssetIndex) (V : View) (a : Address) : Z := from_option (holding i) 0 (V a).
Definition supply (i : AssetIndex) (V : View) (D : list Address) : Z := sumZ (holdingV i V) D.

(** Only the asset fields of an account differ. *)
Definition asset_only (d d' : AccountData) : Prop :=
  exists A P, d' = d <| ad_Assets := A |> <| ad_AssetParams := P |>.

(** Only the algo and participation fields differ. *)
Definition algo_only (d d' : AccountData) : Prop :=
  ad_Assets d' = ad_Assets d /\ ad_AssetParams d' = ad_AssetParams d.

Definition rel_view (R : AccountData -> AccountData -> Prop) (V V' : View) : Prop :=
  forall a, option_Forall2 R (V a) (V' a).

#[export] Instance asset_only_refl : Reflexive asset_only.
Proof. intros d. exists (ad_Assets d), (ad_AssetParams d). by destruct d. Qed.
#[export] Instance asset_only_trans : Transitive asset_only.
Proof. intros d1 d2 d3 (A & P & ->) (A' & P' & ->). by exists A', P'. Qed.
#[export] Instance algo_only_refl : Reflexive algo_only.
Proof. by split. Qed.
#[export] Instance algo_only_trans : Transitive algo_only.
Proof. intros d1 d2 d3 [? ?] [? ?]. split; congruence. Qed.
#[export] Instance rel_view_refl R `{!Reflexive R} : Reflexive (rel_view R).
Proof. intros V a. destruct (V a); by constructor. Qed.
#[export] Instance rel_view_trans R `{!Transitive R} : Transitive (rel_view R).
Proof. intros V1 V2 V3 H1 H2 a. specialize (H1 a); specialize (H2 a). by etrans. Qed.

Lemma rel_view_fupd R `{!Reflexive R} (V V' : View) a d d' :
  V a = Some d -> R d d' -> (forall x, V' x = fupd V a (Some d') x) -> rel_view R V V'.
Proof.
  intros Ha HR HV' x. rewrite HV'. unfold fupd. case_decide as Hx; [subst; rewrite Ha; by constructor|].
  destruct (V x); by constructor.
Qed.

Lemma wfV_fupd (V V' : View) a d : wfV V -> wf_acct d ->
  (forall x, V' x = fupd V a (Some d) x) -> wfV V'.
Proof.
  intros HV Hd HV' x dx. rewrite HV'. unfold fupd. case_decide; [naive_solver|apply HV].
Qed.

Lemma money_asset_only p lvl d d' : asset_only d d' -> money p lvl d' = money p lvl d.
Proof. intros (A & P & ->). done. Qed.

Lemma total_asset_only p lvl V V' D : rel_view asset_only V V' -> total p lvl V' D = total p lvl V D.
Proof.
  intros H. apply sumZ_ext. intros a _. specialize (H a). destruct H; [|done].
  cbn. by apply money_asset_only.
Qed.

Lemma supply_algo_only i V V' D : rel_view algo_only V V' -> supply i V' D = supply i V D.
Proof.
  intros H. apply sumZ_ext. intros a _. unfold holdingV. specialize (H a).
  destruct H as [d d' [H1 H2]|]; [|done]. cbn. unfold holding. by rewrite H1.
Qed.

Lemma supply_fupd i (V V' : View) D a d d' : NoDup D -> a ∈ D -> V a = Some d ->
  (forall x, V' x = fupd V a (Some d') x) ->
  supply i V' D = supply i V D - holding i d + holding i d'.
Proof.
  intros Hnd Ha Hd HV'. unfold supply.
  rewrite (sumZ_update (holdingV i V) _ D a Hnd Ha).
  - unfold holdingV. rewrite HV', fupd_eq, Hd. done.
  - intros b Hb. unfold holdingV. by rewrite HV', fupd_ne.
Qed.

(** ** Move *)

Section Move.
Context (p : ConsensusParams) (lvl : Z) (Hp : 0 < cp_RewardUnit p) (Hl : u64 lvl).

Lemma set_algos_money d x :
  ad_RewardsBase d = lvl \/ ad_Status d = NotParticipating -> money p lvl (d <| ad_MicroAlgos := x |>) = x.
Proof. intros H. by rewrite money_updated_base. Qed.

Lemma wf_set_algos d x : wf_acct d -> u64 x -> wf_acct (d <| ad_MicroAlgos := x |>).
Proof. intros [] ?. by split. Qed.

Lemma updated_base u u' : wf_acct u -> WithUpdatedRewards u p lvl = Ok u' ->
  ad_RewardsBase u' = lvl \/ ad_Status u' = NotParticipating.
Proof.
  intros Hwf H. apply WithUpdatedRewards_Ok in H as (_ & _ & _ & _ & Hs & Hb); try done.
  destruct (decide (ad_Status u = NotParticipating)); [right; congruence|left; naive_solver].
Qed.

(** What a successful [Move] does, in unbounded arithmetic. *)
Lemma move_post_spec from to amt V V' : wfV V -> u64 amt -> move_post p lvl from to amt V V' ->
  exists f f1 t t1,
    let V1 := fupd V from (Some f1) in
    V from = Some f /\ V1 to = Some t /\ (forall a, V' a = fupd V1 to (Some t1) a) /\
    wf_acct f1 /\ wf_acct t /\ wf_acct t1 /\ algo_only f f1 /\ algo_only t t1 /\
    money p lvl f1 = money p lvl f - amt /\ money p lvl t1 = money p lvl t + amt /\
    ad_MicroAlgos f1 = money p lvl f1 /\ ad_MicroAlgos t1 = money p lvl t1 /\
    (ad_RewardsBase f1 = lvl \/ ad_Status f1 = NotParticipating) /\
    (ad_RewardsBase t1 = lvl \/ ad_Status t1 = NotParticipating) /\
    ad_Status f1 = ad_Status f /\ ad_Status t1 = ad_Status t.
Proof.
  intros HV Ha (f & f' & x & t & t' & y & Hf & Hf' & Hx & Ht & Ht' & Hy & HV').
  pose proof (HV _ _ Hf) as Wf. pose proof (updated_base _ _ Wf Hf') as Bf.
  apply WithUpdatedRewards_Ok in Hf' as (Af & _ & Wf' & [? ?] & Sf & _); try done.
  apply OSub_Ok in Hx as [-> Hle]; [|apply Wf'|done].
  set (f1 := f' <| ad_MicroAlgos := ad_MicroAlgos f' - amt |>) in *.
  assert (wf_acct f1) as Wf1.
  { apply wf_set_algos; [done|]. destruct Wf' as [[]]. unfold u64 in *. lia. }
  assert (wf_acct t) as Wt.
  { revert Ht. unfold fupd. case_decide; [by intros [= <-]|apply HV]. }
  pose proof (updated_base _ _ Wt Ht') as Bt.
  apply WithUpdatedRewards_Ok in Ht' as (At & _ & Wt' & [? ?] & St & _); try done.
  apply OAdd_Ok in Hy as [-> Hlt]; [|apply Wt'|done].
  exists f, f1, t, (t' <| ad_MicroAlgos := ad_MicroAlgos t' + amt |>). cbn zeta.
  assert (wf_acct (t' <| ad_MicroAlgos := ad_MicroAlgos t' + amt |>)).
  { apply wf_set_algos; [done|]. destruct Wt' as [[]]. unfold u64 in *. lia. }
  unfold f1 in *. rewrite !set_algos_money by done. rewrite Af, At in *.
  split_and!; try done; cbn; congruence.
Qed.

Lemma move_total from to amt V V' D : wfV V -> u64 amt -> NoDup D -> from ∈ D -> to ∈ D ->
  move_post p lvl from to amt V V' -> total p lvl V' D = total p lvl V D.
Proof.
  intros HV Ha Hnd Hfrom Hto Hm.
  apply move_post_spec in Hm as (f & f1 & t & t1 & Hf & Ht & HV' & _ & _ & _ & _ & _ & Mf & Mt & _); try done.
  rewrite (total_fupd p lvl _ _ D to t t1 Hnd Hto Ht HV').
  rewrite (total_fupd p lvl V _ D from f f1 Hnd Hfrom Hf (λ x, eq_refl)). lia.
Qed.

Lemma move_wfV from to amt V V' : wfV V -> u64 amt -> move_post p lvl from to amt V V' -> wfV V'.
Proof.
  intros HV Ha Hm.
  apply move_post_spec in Hm as (f & f1 & t & t1 & _ & _ & HV' & ? & _ & ? & _); try done.
  refine (wfV_fupd _ _ _ _ _ _ HV'); [|done]. by refine (wfV_fupd V _ _ _ _ _ (λ x, eq_refl)).
Qed.

Lemma move_algo_only from to amt V V' : wfV V -> u64 amt -> move_post p lvl from to amt V V' ->
  rel_view algo_only V V'.
Proof.
  intros HV Ha Hm.
  apply move_post_spec in Hm as (f & f1 & t & t1 & Hf & Ht & HV' & _ & _ & _ & Hf1 & Ht1 & _); try done.
  etrans; [exact (rel_view_fupd _ _ _ _ _ _ Hf Hf1 (λ x, eq_refl))|].
  exact (rel_view_fupd _ _ _ _ _ _ Ht Ht1 HV').
Qed.

(** After a [Move] both parties are up to date with the rewards level. *)
Lemma move_current from to amt V V' a : wfV V -> u64 amt -> move_post p lvl from to amt V V' ->
  a = from \/ a = to ->
  exists d, V' a = Some d /\ (ad_RewardsBase d = lvl \/ ad_Status d = NotParticipating).
Proof.
  intros HV Ha Hm Hd.
  apply move_post_spec in Hm as (f & f1 & t & t1 & _ & _ & HV' & Hx); try done.
  destruct Hx as (_ & _ & _ & _ & _ & _ & _ & _ & _ & B1 & B2 & _).
  rewrite HV'. destruct (decide (a = to)) as [->|Hne]; [rewrite fupd_eq; by eexists|].
  destruct Hd as [->|]; [|done]. rewrite fupd_ne, fupd_eq by done. by eexists.
Qed.

(** Everyone but the payer keeps at least what they had. *)
Lemma move_no_loss from to amt V V' a d : wfV V -> u64 amt -> move_post p lvl from to amt V V' ->
  a <> from -> V a = Some d ->
  exists d', V' a = Some d' /\ money p lvl d <= money p lvl d'.
Proof.
  intros HV Ha Hm Hne Hd.
  apply move_post_spec in Hm as (f & f1 & t & t1 & Hf & Ht & HV' & Hx); try done.
  destruct Hx as (_ & _ & _ & _ & _ & _ & Mt & _). rewrite HV'.
  destruct (decide (a = to)) as [->|Hat].
  - rewrite fupd_eq. rewrite fupd_ne in Ht by done. eexists. split; [done|].
    destruct Ha. assert (t = d) as -> by congruence. lia.
  - rewrite !fupd_ne by done. eauto with lia.
Qed.
End Move.

(** ** Effects of the operations on assets *)

Lemma holding_setAssets i f d :
  holding i (setAssets d f) = from_option ah_Amount 0 (f (asmap (ad_Assets d)) !! i).
Proof. done. Qed.
Lemma holding_setParams i f d : holding i (setParams d f) = holding i d.
Proof. done. Qed.
Lemma holding_insert i j h d :
  holding i (setAssets d <[j := h]>) = if decide (i = j) then ah_Amount h else holding i d.
Proof.
  rewrite holding_setAssets. case_decide as E; [subst; by rewrite lookup_insert_eq|].
  by rewrite lookup_insert_ne.
Qed.
Lemma holding_delete i j d :
  holding i (setAssets d (delete j)) = if decide (i = j) then 0 else holding i d.
Proof.
  rewrite holding_setAssets. case_decide as E; [subst; by rewrite lookup_delete_eq|].
  by rewrite lookup_delete_ne.
Qed.
#[export] Hint Rewrite holding_setParams holding_insert holding_delete : ledger.

Lemma asset_only_setAssets d f : asset_only d (setAssets d f).
Proof. by exists (f <$> clone (ad_Assets d)), (ad_AssetParams d). Qed.
Lemma asset_only_setParams d f : asset_only d (setParams d f).
Proof. by exists (ad_Assets d), (f <$> clone (ad_AssetParams d)). Qed.
Lemma asset_only_setAP d f g : asset_only d (setAssets (setParams d f) g).
Proof. etrans; [apply asset_only_setParams|apply asset_only_setAssets]. Qed.
Lemma asset_only_setPA d f g : asset_only d (setParams (setAssets d f) g).
Proof. etrans; [apply asset_only_setAssets|apply asset_only_setParams]. Qed.
#[export] Hint Resolve asset_only_setAssets asset_only_setParams asset_only_setAP asset_only_setPA : ledger.

Lemma wf_setAssets d f : wf_acct d ->
  (forall i h, f (asmap (ad_Assets d)) !! i = Some h -> u64 (ah_Amount h)) -> wf_acct (setAssets d f).
Proof. intros [] ?. by split. Qed.
Lemma wf_setParams d f : wf_acct d ->
  (forall i q, f (asmap (ad_AssetParams d)) !! i = Some q -> u64 (ap_Total q)) -> wf_acct (setParams d f).
Proof. intros [] ?. by split. Qed.
Lemma wf_insert_holding d i h : wf_acct d -> u64 (ah_Amount h) -> wf_acct (setAssets d <[i := h]>).
Proof.
  intros Hd Hh. apply wf_setAssets; [done|]. intros j hj.
  rewrite lookup_insert. case_decide; [naive_solver|apply Hd].
Qed.
Lemma wf_delete_holding d i : wf_acct d -> wf_acct (setAssets d (delete i)).
Proof.
  intros Hd. apply wf_setAssets; [done|]. intros j hj [_ Hj]%lookup_delete_Some. by eapply Hd.
Qed.
Lemma wf_insert_params d i q : wf_acct d -> u64 (ap_Total q) -> wf_acct (setParams d <[i := q]>).
Proof.
  intros Hd Hh. apply wf_setParams; [done|]. intros j hj.
  rewrite lookup_insert. case_decide; [naive_solver|apply Hd].
Qed.
Lemma wf_delete_params d i : wf_acct d -> wf_acct (setParams d (delete i)).
Proof.
  intros Hd. apply wf_setParams; [done|]. intros j hj [_ Hj]%lookup_delete_Some. by eapply Hd.
Qed.
Lemma wf_setAssets_id d : wf_acct d -> wf_acct (setAssets d id).
Proof. intros Hd. apply wf_setAssets; [done|apply Hd]. Qed.
#[export] Hint Resolve wf_insert_holding wf_delete_holding wf_insert_params wf_delete_params
  wf_setAssets_id : ledger.

Lemma holding_range i d : wf_acct d -> u64 (holding i d).
Proof.
  intros [_ _ _ H _]. unfold holding. destruct (_ !! i) eqn:E; cbn; [by eapply H|unfold u64; lia].
Qed.

Section AssetOps.
Context {S : Type} `{HB : !Balances S} `{HL : !BalancesLaws S}.
Implicit Types s : S.

Definition env_eq s s' : Prop :=
  level s' = level s /\ bal_ConsensusParams s' = bal_ConsensusParams s.

#[export] Instance env_eq_refl : Reflexive env_eq.
Proof. done. Qed.
#[export] Instance env_eq_trans : Transitive env_eq.
Proof. intros s1 s2 s3 [] []. split; congruence. Qed.

Lemma Get_Ok a b s r s' : bal_Get a b s = (Ok r, s') ->
  s' = s /\ exists d, view s a = Some d /\ r.1 = a /\
    if b then WithUpdatedRewards d (bal_ConsensusParams s) (level s) = Ok r.2 else r.2 = d.
Proof.
  intros H. destruct (view s a) as [d|] eqn:E.
  - rewrite (law_Get_Some _ _ _ _ E) in H. injection H as H <-. split; [done|].
    destruct b; inv_ok; eauto.
  - apply (law_Get_None a b) in E. by rewrite H in E.
Qed.

Lemma Get_false_Ok a s r s' : bal_Get a false s = (Ok r, s') ->
  s' = s /\ exists d, view s a = Some d /\ r = (a, d).
Proof. intros (-> & d & H & <- & <-)%Get_Ok. split; [done|]. exists r.2. by destruct r. Qed.

Lemma Put_Ok a d u s s' : bal_Put (a, d) s = (Ok u, s') ->
  env_eq s s' /\ forall x, view s' x = fupd (view s) a (Some d) x.
Proof. destruct u. intros (? & ? & ? & ?)%law_Put. done. Qed.

Lemma Creator_Ok i r s s' : bal_GetAssetCreator i s = (Ok r, s') -> s' = s.
Proof. intros H. pose proof (law_GetAssetCreator i s) as Hs. by rewrite H in Hs. Qed.

(** [getParams] reads the parameters from the creator's record. *)
Lemma getParams_Ok i q c s s' : getParams i s = (Ok (q, c), s') ->
  s' = s /\ exists d, view s c = Some d /\ asmap (ad_AssetParams d) !! i = Some q.
Proof.
  unfold getParams. intros H. inv_ok.
  repeat match goal with
  | H : bal_GetAssetCreator _ _ = _ |- _ => apply Creator_Ok in H as ->
  | H : bal_Get _ false _ = _ |- _ => apply Get_false_Ok in H as (-> & ? & ? & ->)
  end.
  cbn in *. case_match; inv_ok. eauto.
Qed.
End AssetOps.

(** Invert the calls of the interface. *)
Ltac inv_bal_step :=
  match goal with
  | H : bal_GetAssetCreator _ _ = (Ok _, _) |- _ => apply Creator_Ok in H; subst
  | H : bal_Get _ false _ = (Ok _, _) |- _ => apply Get_false_Ok in H as (-> & ? & ? & ->); cbn [fst snd] in *
  | H : bal_Get _ true _ = (Ok _, _) |- _ => apply Get_Ok in H as (-> & ? & ? & ? & ?); cbn [fst snd] in *
  | H : bal_Put _ _ = (Ok _, _) |- _ => apply Put_Ok in H as [? ?]
  | H : getParams _ _ = (Ok (_, _), _) |- _ => apply getParams_Ok in H as (-> & ? & ? & ?)
  | H : getParams _ _ = (Ok ?r, _) |- _ => destruct r; apply getParams_Ok in H as (-> & ? & ? & ?); cbn [fst snd] in *
  | H : the_params _ = (_, _) |- _ => unfold the_params in H
  end.
Ltac inv_bal := repeat (inv_ok_step || inv_bal_step).

Section AssetEffects.
Context {S : Type} `{HB : !Balances S} `{HL : !BalancesLaws S}.
Implicit Types s : S.

(** A single [Put] of an account changed only in its assets. *)
Record asset_step s s' (a : Address) (d d' : AccountData) : Prop := {
  as_env : env_eq s s';
  as_old : view s a = Some d;
  as_new : forall x, view s' x = fupd (view s) a (Some d') x;
  as_only : asset_only d d'
}.

Lemma asset_step_rel s s' a d d' : asset_step s s' a d d' -> rel_view asset_only (view s) (view s').
Proof. intros [_ H1 H2 H3]. exact (rel_view_fupd _ _ _ _ _ _ H1 H3 H2). Qed.

Lemma asset_step_wf s s' a d d' :
  asset_step s s' a d d' -> (wf_acct d -> wf_acct d') -> wfV (view s) -> wfV (view s').
Proof. intros [_ H1 H2 _] Hd HV. eapply (wfV_fupd _ _ _ _ HV); [|exact H2]. eauto. Qed.

Lemma asset_step_supply i s s' a d d' D : NoDup D -> a ∈ D -> asset_step s s' a d d' ->
  supply i (view s') D = supply i (view s) D - holding i d + holding i d'.
Proof. intros ?? [_ H1 H2 _]. exact (supply_fupd i _ _ _ a _ _ ltac:(done) ltac:(done) H1 H2). Qed.

Lemma takeOut_Ok a i amount bypass u s s' : takeOut a i amount bypass s = (Ok u, s') ->
  amount = 0 /\ s' = s \/
  amount <> 0 /\ exists d h x, asmap (ad_Assets d) !! i = Some h /\
    (ah_Frozen h = true -> bypass = true) /\ OSub (ah_Amount h) amount = (x, false) /\
    asset_step s s' a d (setAssets d <[i := h <| ah_Amount := x |>]>).
Proof.
  unfold takeOut. destruct (Z.eqb_spec amount 0); intros H; [left; by inv_bal|right; split; [done|]].
  inv_bal. case_match; inv_bal. destruct (OSub _ _) as [nx []] eqn:E; inv_bal; [done|].
  eexists _, _, _. split_and!; [done| |done|split; eauto with ledger].
  intros Hf. rewrite Hf in *. by destruct bypass.
Qed.

Lemma putIn_Ok a i amount bypass u s s' : putIn a i amount bypass s = (Ok u, s') ->
  amount = 0 /\ s' = s \/
  amount <> 0 /\ exists d h x, asmap (ad_Assets d) !! i = Some h /\
    (ah_Frozen h = true -> bypass = true) /\ OAdd (ah_Amount h) amount = (x, false) /\
    asset_step s s' a d (setAssets d <[i := h <| ah_Amount := x |>]>).
Proof.
  unfold putIn. destruct (Z.eqb_spec amount 0); intros H; [left; by inv_bal|right; split; [done|]].
  inv_bal. case_match; inv_bal. destruct (OAdd _ _) as [nx []] eqn:E; inv_bal; [done|].
  eexists _, _, _. split_and!; [done| |done|split; eauto with ledger].
  intros Hf. rewrite Hf in *. by destruct bypass.
Qed.

(** An operation that leaves algos alone and keeps every field in range. *)
Definition quiet s s' : Prop :=
  env_eq s s' /\ rel_view asset_only (view s) (view s') /\ (wfV (view s) -> wfV (view s')).

#[export] Instance quiet_refl : Reflexive quiet.
Proof. intros s. split_and!; done. Qed.
#[export] Instance quiet_trans : Transitive quiet.
Proof. intros s1 s2 s3 (? & ? & ?) (? & ? & ?). split_and!; [by etrans|by etrans|auto]. Qed.

Lemma asset_step_quiet s s' a d d' :
  asset_step s s' a d d' -> (wf_acct d -> wf_acct d') -> quiet s s'.
Proof.
  intros H Hd. split_and!; [apply H|by eapply asset_step_rel|by eapply asset_step_wf].
Qed.

Lemma takeOut_quiet a i amount b u s s' : takeOut a i amount b s = (Ok u, s') -> quiet s s'.
Proof.
  intros [[_ ->]|(_ & d & h & x & _ & _ & Hx & H)]%takeOut_Ok; [done|].
  apply (asset_step_quiet _ _ _ _ _ H). intros Hd. apply wf_insert_holding; [done|].
  cbn. pose proof (OSub_range (ah_Amount h) amount) as Hr. by rewrite Hx in Hr.
Qed.

Lemma putIn_quiet a i amount b u s s' : putIn a i amount b s = (Ok u, s') -> quiet s s'.
Proof.
  intros [[_ ->]|(_ & d & h & x & _ & _ & Hx & H)]%putIn_Ok; [done|].
  apply (asset_step_quiet _ _ _ _ _ H). intros Hd. apply wf_insert_holding; [done|].
  cbn. pose proof (OAdd_range (ah_Amount h) amount) as Hr. by rewrite Hx in Hr.
Qed.

Lemma takeOut_supply j a i amount b u s s' D : NoDup D -> (amount <> 0 -> a ∈ D) -> wfV (view s) -> u64 amount ->
  takeOut a i amount b s = (Ok u, s') ->
  supply j (view s') D = supply j (view s) D - (if decide (j = i) then amount else 0).
Proof.
  intros Hnd Ha HV Hu [[-> ->]|(Hne & d & h & x & Hh & _ & Hx & H)]%takeOut_Ok; [case_decide; lia|].
  rewrite (asset_step_supply j _ _ _ _ _ _ Hnd (Ha Hne) H). rewrite holding_insert. cbn.
  case_decide as E; [subst j|lia].
  apply OSub_Ok in Hx as [-> _]; [|eapply (HV _ _ (as_old _ _ _ _ _ H)), Hh|done].
  unfold holding. rewrite Hh. cbn. lia.
Qed.

Lemma putIn_supply j a i amount b u s s' D : NoDup D -> (amount <> 0 -> a ∈ D) -> wfV (view s) -> u64 amount ->
  putIn a i amount b s = (Ok u, s') ->
  supply j (view s') D = supply j (view s) D + (if decide (j = i) then amount else 0).
Proof.
  intros Hnd Ha HV Hu [[-> ->]|(Hne & d & h & x & Hh & _ & Hx & H)]%putIn_Ok; [case_decide; lia|].
  rewrite (asset_step_supply j _ _ _ _ _ _ Hnd (Ha Hne) H). rewrite holding_insert. cbn.
  case_decide as E; [subst j|lia].
  apply OAdd_Ok in Hx as [-> _]; [|eapply (HV _ _ (as_old _ _ _ _ _ H)), Hh|done].
  unfold holding. rewrite Hh. cbn. lia.
Qed.

Lemma transfer_source_Ok ct h r s s' : transfer_source ct h s = (Ok r, s') ->
  s' = s /\ ((ax_AssetSender ct = zero32 /\ r = (hdr_Sender h, false)) \/
             (ax_AssetSender ct <> zero32 /\ r = (ax_AssetSender ct, true) /\
              exists c d q, view s c = Some d /\ asmap (ad_AssetParams d) !! ax_XferAsset ct = Some q /\
                ap_Clawback q = hdr_Sender h /\ hdr_Sender h <> zero32)).
Proof.
  unfold transfer_source. case_bool_decide; intros Hs; inv_bal; [by split; [|left]|].
  split; [done|right]. split_and!; [done|done|]. bool_hyps.
  destruct H1 as [Hz Hc]. apply dec_stable in Hc.
  eexists _, _, _. split_and!; [done|done|done|congruence].
Qed.

Lemma transfer_optin_Ok ct a u s s' : transfer_optin ct a s = (Ok u, s') ->
  s' = s \/ exists d fr, asmap (ad_Assets d) !! ax_XferAsset ct = None /\
    asset_step s s' a d (setAssets d <[ax_XferAsset ct := mkAssetHolding 0 fr]>).
Proof.
  unfold transfer_optin. intros H. inv_bal. case_match; inv_bal; [by left|right].
  eexists _, _. split; [done|]. split; eauto with ledger.
Qed.

Lemma transfer_optin_quiet ct a u s s' : transfer_optin ct a s = (Ok u, s') -> quiet s s'.
Proof.
  intros [->|(d & fr & _ & H)]%transfer_optin_Ok; [done|].
  apply (asset_step_quiet _ _ _ _ _ H). intros. apply wf_insert_holding; [done|]. unfold u64; cbn; lia.
Qed.

Lemma transfer_optin_supply j ct a u s s' D : NoDup D -> a ∈ D ->
  transfer_optin ct a s = (Ok u, s') -> supply j (view s') D = supply j (view s) D.
Proof.
  intros Hnd Ha [->|(d & fr & Hn & H)]%transfer_optin_Ok; [done|].
  rewrite (asset_step_supply j _ _ _ _ _ _ Hnd Ha H), holding_insert. cbn.
  case_decide; [|lia]. subst. unfold holding. rewrite Hn. cbn. lia.
Qed.

Lemma transfer_close_Ok ct a u s s' : transfer_close ct a s = (Ok u, s') ->
  exists d h b s1 s2 d2,
    view s a = Some d /\ asmap (ad_AssetParams d) !! ax_XferAsset ct = None /\
    asmap (ad_Assets d) !! ax_XferAsset ct = Some h /\
    takeOut a (ax_XferAsset ct) (ah_Amount h) b s = (Ok tt, s1) /\
    putIn (ax_AssetCloseTo ct) (ax_XferAsset ct) (ah_Amount h) b s1 = (Ok tt, s2) /\
    holding (ax_XferAsset ct) d2 = 0 /\
    asset_step s2 s' a d2 (setAssets d2 (delete (ax_XferAsset ct))).
Proof.
  unfold transfer_close. intros H. inv_bal. case_match; inv_bal. bool_hyps.
  repeat match goal with u : unit |- _ => destruct u end.
  eexists _, _, _, _, _, _. split_and!; try done. split; eauto with ledger.
Qed.

Lemma transfer_close_quiet ct a u s s' : transfer_close ct a s = (Ok u, s') -> quiet s s'.
Proof.
  intros (d & h & b & s1 & s2 & d2 & _ & _ & _ & H1 & H2 & _ & H3)%transfer_close_Ok.
  etrans; [by eapply takeOut_quiet|]. etrans; [by eapply putIn_quiet|].
  eapply (asset_step_quiet _ _ _ _ _ H3); eauto with ledger.
Qed.

Lemma assetTransfer_Ok ct h u s s' : assetTransfer_apply ct h s = (Ok u, s') ->
  exists source clawback s1 s2 s3,
    transfer_source ct h s = (Ok (source, clawback), s) /\
    (s1 = s \/ clawback = false /\ transfer_optin ct source s = (Ok tt, s1)) /\
    takeOut source (ax_XferAsset ct) (ax_AssetAmount ct) clawback s1 = (Ok tt, s2) /\
    putIn (ax_AssetReceiver ct) (ax_XferAsset ct) (ax_AssetAmount ct) clawback s2 = (Ok tt, s3) /\
    (s' = s3 \/ ax_AssetCloseTo ct <> zero32 /\ clawback = false /\ transfer_close ct source s3 = (Ok tt, s')).
Proof.
  unfold assetTransfer_apply. intros H.
  apply M_bind_Ok in H as ([source clawback] & s0 & H0 & H).
  pose proof H0 as [-> _]%transfer_source_Ok.
  apply M_bind_Ok in H as ([] & s1 & H1 & H).
  apply M_bind_Ok in H as ([] & s2 & H2 & H).
  apply M_bind_Ok in H as ([] & s3 & H3 & H).
  exists source, clawback, s1, s2, s3. split_and!; try done.
  - destruct clawback; cbn [negb] in H1; [rewrite andb_false_r in H1; cbn iota in H1; inv_ok; auto|].
    rewrite andb_true_r in H1. destruct (_ && _) in H1; inv_ok; auto.
  - case_bool_decide; inv_ok; auto. right. destruct clawback; [done|]. by destruct u.
Qed.

Lemma assetTransfer_quiet ct h u s s' : assetTransfer_apply ct h s = (Ok u, s') -> quiet s s'.
Proof.
  intros (source & cb & s1 & s2 & s3 & _ & H1 & H2 & H3 & H4)%assetTransfer_Ok.
  transitivity s1; [destruct H1 as [->|[_ H1]]; [done|by eapply transfer_optin_quiet]|].
  transitivity s2; [by eapply takeOut_quiet|]. transitivity s3; [by eapply putIn_quiet|].
  destruct H4 as [->|(_ & _ & H4)]; [done|by eapply transfer_close_quiet].
Qed.

Lemma assetFreeze_Ok cf h u s s' : assetFreeze_apply cf h s = (Ok u, s') ->
  exists d c dc q hd, asmap (ad_Assets d) !! af_FreezeAsset cf = Some hd /\
    asmap (ad_AssetParams dc) !! af_FreezeAsset cf = Some q /\ view s c = Some dc /\
    ap_Freeze q = hdr_Sender h /\ ap_Freeze q <> zero32 /\
    asset_step s s' (af_FreezeAccount cf) d
      (setAssets d <[af_FreezeAsset cf := hd <| ah_Frozen := af_AssetFrozen cf |>]>).
Proof.
  unfold assetFreeze_apply. intros H. inv_bal. case_match; inv_bal. bool_hyps.
  match goal with H : _ /\ ~ _ |- _ => destruct H as [Hz Hc%dec_stable] end.
  eexists _, _, _, _, _. split_and!; try (done || congruence). split; eauto with ledger.
Qed.

Lemma assetFreeze_quiet cf h u s s' : assetFreeze_apply cf h s = (Ok u, s') -> quiet s s'.
Proof.
  intros (d & c & dc & q & hd & Hh & _ & _ & _ & _ & H)%assetFreeze_Ok.
  apply (asset_step_quiet _ _ _ _ _ H). intros Hd. apply wf_insert_holding; [done|].
  exact (wf_assets _ Hd _ _ Hh).
Qed.

Lemma assetFreeze_supply j cf h u s s' D : NoDup D -> af_FreezeAccount cf ∈ D ->
  assetFreeze_apply cf h s = (Ok u, s') -> supply j (view s') D = supply j (view s) D.
Proof.
  intros Hnd Ha (d & c & dc & q & hd & Hh & _ & _ & _ & _ & H)%assetFreeze_Ok.
  rewrite (asset_step_supply j _ _ _ _ _ _ Hnd Ha H), holding_insert. cbn.
  case_decide; [|lia]. subst. unfold holding. rewrite Hh. cbn. lia.
Qed.

(** The three branches of an asset configuration. *)
Definition create_data (cc : AssetConfigTxnFields) (idx : AssetIndex) (d : AccountData) : AccountData :=
  setAssets (setParams d <[idx := ac_AssetParams cc]>)
    <[idx := mkAssetHolding (ap_Total (ac_AssetParams cc)) false]>.

Lemma assetConfig_Ok cc h ctr u s s' : assetConfig_apply cc h ctr s = (Ok u, s') ->
  (ac_ConfigAsset cc = 0 /\ exists d, asmap (ad_AssetParams d) !! wrap64 (ctr + 1) = None /\
     asset_step s s' (hdr_Sender h) d (create_data cc (wrap64 (ctr + 1)) d)) \/
  (ac_ConfigAsset cc <> 0 /\ exists c d q,
     asmap (ad_AssetParams d) !! ac_ConfigAsset cc = Some q /\
     ap_Manager q = hdr_Sender h /\ ap_Manager q <> zero32 /\
     ((ac_AssetParams cc = AssetParams_zero /\ holding (ac_ConfigAsset cc) d = ap_Total q /\
       asset_step s s' c d (setParams (setAssets d (delete (ac_ConfigAsset cc))) (delete (ac_ConfigAsset cc)))) \/
      (ac_AssetParams cc <> AssetParams_zero /\
       asset_step s s' c d (setParams (setAssets d id)
                              <[ac_ConfigAsset cc := reconfigure q (ac_AssetParams cc)]>)))).
Proof.
  unfold assetConfig_apply. destruct (Z.eqb_spec (ac_ConfigAsset cc) 0); intros H.
  - left. split; [done|]. unfold assetConfig_create in H. inv_bal. bool_hyps.
    eexists. split; [done|]. split; eauto with ledger.
  - right. split; [done|]. apply M_bind_Ok in H as ([q c] & s1 & H1 & H). inv_bal. bool_hyps.
    match goal with H : _ /\ ~ _ |- _ => destruct H as [Hz Hc%dec_stable] end.
    match goal with H1 : view ?s ?c = _, H2 : view ?s ?c = _ |- _ => rewrite H1 in H2; injection H2 as -> end.
    case_bool_decide; inv_bal; bool_hyps.
    + eexists c, _, q. split_and!; try (done || congruence). left. split_and!; try done.
      split; eauto with ledger.
    + eexists c, _, q. split_and!; try (done || congruence). right. split_and!; try done.
      split; eauto with ledger.
Qed.

Lemma assetConfig_quiet cc h ctr u s s' : u64 (ap_Total (ac_AssetParams cc)) ->
  assetConfig_apply cc h ctr s = (Ok u, s') -> quiet s s'.
Proof.
  intros Hu [(_ & d & _ & H)|(_ & c & d & q & Hq & _ & _ & [(_ & _ & H)|(_ & H)])]%assetConfig_Ok;
    apply (asset_step_quiet _ _ _ _ _ H); intros Hd; unfold create_data; auto with ledger.
  apply wf_insert_params; [by apply wf_setAssets_id|]. exact (wf_params _ Hd _ _ Hq).
Qed.
End AssetEffects.

(** ** Payments, key registrations and whole transactions *)

(** The amounts in a transaction fit their Go types. *)
Record wf_txn (tx : Transaction) : Prop := {
  wf_fee : u64 (hdr_Fee (tx_Header tx));
  wf_amount : u64 (pay_Amount (tx_Payment tx));
  wf_total : u64 (ap_Total (ac_AssetParams (tx_AssetConfig tx)));
  wf_aamount : u64 (ax_AssetAmount (tx_AssetTransfer tx))
}.

Section ApplyEffects.
Context {S : Type} `{HB : !Balances S} `{HL : !BalancesLaws S}.
Implicit Types s : S.

Lemma Move_Ok from to amt fr tr r s s' : bal_Move from to amt fr tr s = (Ok r, s') ->
  env_eq s s' /\ move_post (bal_ConsensusParams s) (level s) from to amt (view s) (view s').
Proof. intros (? & ? & ?)%law_Move. done. Qed.

(** Preconditions shared by the theorems. *)
Record good s : Prop := {
  good_wf : wfV (view s);
  good_level : u64 (level s);
  good_unit : 0 < cp_RewardUnit (bal_ConsensusParams s)
}.

Lemma good_env s s' : env_eq s s' -> wfV (view s') -> good s -> good s'.
Proof. intros [E1 E2] HV []. split; [done|by rewrite E1|by rewrite E2]. Qed.

Lemma good_quiet s s' : quiet s s' -> good s -> good s'.
Proof. intros (HE & _ & HV) Hg. eapply good_env; [done| |done]. apply HV, Hg. Qed.

Lemma good_move from to amt fr tr r s s' : u64 amt -> good s ->
  bal_Move from to amt fr tr s = (Ok r, s') -> good s'.
Proof.
  intros Ha Hg [HE Hm]%Move_Ok. eapply good_env; [done| |done].
  destruct Hg as [HV Hl Hp]. exact (move_wfV _ _ Hp Hl _ _ _ _ _ HV Ha Hm).
Qed.

(** Closing an account pays out all of it and then clears the record. *)
Lemma payment_close_Ok pay h ad ad' s s' : good s ->
  payment_close pay h ad s = (Ok ad', s') ->
  exists s1 amt fr tr r d1, u64 amt /\
    bal_Move (hdr_Sender h) (pay_CloseRemainderTo pay) amt fr tr s = (Ok r, s1) /\
    view s1 (hdr_Sender h) = Some d1 /\ money (bal_ConsensusParams s1) (level s1) d1 = 0 /\
    asmap (ad_Assets d1) = ∅ /\ asmap (ad_AssetParams d1) = ∅ /\
    env_eq s1 s' /\ forall x, view s' x = fupd (view s1) (hdr_Sender h) (Some AccountData_zero) x.
Proof.
  intros Hg. unfold payment_close. intros H.
  apply M_bind_Ok in H as ([a0 d0] & s0 & H0 & H).
  apply Get_Ok in H0 as (-> & d & Hd & Ha0 & Hd0). cbn [fst snd] in *. subst a0.
  apply M_bind_Ok in H as (r & s1 & H1 & H).
  assert (u64 (ad_MicroAlgos d0)) as Hu.
  { destruct Hg as [HV Hl Hp]. apply WithUpdatedRewards_Ok in Hd0 as (_ & _ & W & _); eauto. apply W. }
  pose proof (good_move _ _ _ _ _ _ _ _ Hu Hg H1) as Hg1.
  assert (is_Some (view s1 (hdr_Sender h))) as [d1 Hd1].
  { apply Move_Ok in H1 as [_ Hm]. destruct Hg as [HV Hl Hp].
    destruct (move_current _ _ Hp Hl _ _ _ _ _ (hdr_Sender h) HV Hu Hm (or_introl eq_refl))
      as (? & -> & _). done. }
  apply M_bind_Ok in H as ([a2 d2] & s2 & H2 & H). unfold ignore_err in H2.
  rewrite (law_Get_Some _ true _ _ Hd1) in H2.
  destruct (WithUpdatedRewards d1 _ _) as [d2'|e|] eqn:E;
    cbn in H2; [|by apply WithUpdatedRewards_not_Err in E|done].
  injection H2 as <- <- <-. cbn [fst snd] in *. inv_bal. bool_hyps.
  destruct Hg1 as [HV1 Hl1 Hp1].
  apply WithUpdatedRewards_Ok in E as (Ha & _ & _ & [HA HP] & _); eauto.
  exists s1, (ad_MicroAlgos d0). do 3 eexists. exists d1.
  split_and!; try done.
  - congruence.
  - apply map_size_empty_inv. rewrite HA in *. lia.
  - apply map_size_empty_inv. rewrite HP in *. lia.
Qed.

(** ** [Apply] as a sequence of ledger actions

    The abstract actions a transaction performs on a view before it touches any
    asset: pay from the sender, clear the sender's empty record, or change the
    sender's participation fields once its rewards are settled. *)

Inductive action (p : ConsensusParams) (lvl : Z) (snd : Address) (A : list Address) : View -> View -> Prop :=
| act_move to amt V V' :
    to ∈ A -> u64 amt -> move_post p lvl snd to amt V V' -> action p lvl snd A V V'
| act_clear d V V' :
    V snd = Some d -> money p lvl d = 0 -> asmap (ad_Assets d) = ∅ -> asmap (ad_AssetParams d) = ∅ ->
    (forall x, V' x = fupd V snd (Some AccountData_zero) x) -> action p lvl snd A V V'
| act_keyreg d d' V V' :
    V snd = Some d -> ad_RewardsBase d = lvl \/ ad_Status d = NotParticipating ->
    ad_MicroAlgos d' = ad_MicroAlgos d -> ad_RewardsBase d' = lvl \/ ad_Status d' = NotParticipating ->
    algo_only d d' -> (wf_acct d -> wf_acct d') ->
    (forall x, V' x = fupd V snd (Some d') x) -> action p lvl snd A V V'.

Lemma move_action p lvl snd A to amt fr tr r s s' :
  p = bal_ConsensusParams s -> lvl = level s -> to ∈ A -> u64 amt ->
  bal_Move snd to amt fr tr s = (Ok r, s') -> rtc (action p lvl snd A) (view s) (view s').
Proof. intros -> -> HA Hu [_ H]%Move_Ok. apply rtc_once. by eapply act_move. Qed.

(** Every transaction type but asset operations, which are quiet. *)
Lemma payment_actions pay h ad ad' s s' A : good s -> u64 (pay_Amount pay) ->
  pay_Receiver pay ∈ A -> (pay_CloseRemainderTo pay <> zero32 -> pay_CloseRemainderTo pay ∈ A) ->
  payment_apply pay h ad s = (Ok ad', s') ->
  env_eq s s' /\ good s' /\
  rtc (action (bal_ConsensusParams s) (level s) (hdr_Sender h) A) (view s) (view s').
Proof.
  intros Hg Hu HA HC. unfold payment_apply. intros H. apply M_bind_Ok in H as (ad1 & s1 & H1 & H).
  assert (env_eq s s1 /\ good s1 /\
    rtc (action (bal_ConsensusParams s) (level s) (hdr_Sender h) A) (view s) (view s1)) as (E1 & G1 & R1).
  { destruct (negb _ || _); inv_ok; [|split_and!; done].
    match goal with H : bal_Move _ _ _ _ _ _ = _ |- _ => rename H into Hm end.
    split_and!; [by apply Move_Ok in Hm as [? _]|by eapply good_move|by eapply move_action]. }
  case_bool_decide; inv_ok; [|done]. destruct (proj1 (conj E1 E1)) as [El Ep].
  apply payment_close_Ok in H as (s2 & amt & fr & tr & r & d & Ha & Hm & Hd & Hz & HA0 & HP0 & E2 & HV); [|done].
  pose proof (good_move _ _ _ _ _ _ _ _ Ha G1 Hm) as G2.
  pose proof Hm as [E12 _]%Move_Ok.
  split_and!; [by etrans; [|etrans]| |].
  - eapply good_env; [done| |done]. eapply wfV_fupd; [apply G2| |done]. auto with ledger.
  - etrans; [done|]. etrans; [eapply move_action, Hm; auto|].
    apply rtc_once. eapply act_clear; [done| |done..].
    destruct E12 as [E3 E4]. congruence.
Qed.

Lemma keyreg_record_Ok kr p d d' : keyreg_record kr p d = Ok d' ->
  ad_MicroAlgos d' = ad_MicroAlgos d /\ ad_RewardsBase d' = ad_RewardsBase d /\ algo_only d d' /\
  (wf_acct d -> wf_acct d').
Proof.
  unfold keyreg_record. intros H.
  destruct (_ || _); inv_ok; [destruct (kr_Nonparticipation kr); [destruct (cp_SupportBecomeNonParticipatingTransactions p)|]|];
    inv_ok; split_and!; try done; intros []; by split.
Qed.

Lemma keyreg_actions kr h spec s s' A u : good s ->
  (exists d, view s (hdr_Sender h) = Some d /\ (ad_RewardsBase d = level s \/ ad_Status d = NotParticipating)) ->
  keyreg_apply kr h spec s = (Ok u, s') ->
  env_eq s s' /\ good s' /\
  rtc (action (bal_ConsensusParams s) (level s) (hdr_Sender h) A) (view s) (view s').
Proof.
  intros Hg (d & Hd & Hb) H. unfold keyreg_apply in H. inv_bal. bool_hyps.
  match goal with H1 : view ?s ?c = _, H2 : view ?s ?c = _ |- _ => rewrite H1 in H2; injection H2 as -> end.
  match goal with H : keyreg_record _ _ _ = _ |- _ => apply keyreg_record_Ok in H as (M1 & M2 & M3 & M4) end.
  split_and!; [done| |].
  - eapply good_env; [done| |done]. eapply wfV_fupd; [apply Hg| |done]. apply M4. by eapply Hg.
  - apply rtc_once. eapply act_keyreg; try done. left. destruct Hb as [Hb|Hb]; [congruence|done].
Qed.

Lemma Apply_Ok tx spec ctr ad s s' : Apply tx spec ctr s = (Ok ad, s') ->
  exists ad0 ad1 s1 r,
    bal_Move (hdr_Sender (tx_Header tx)) (sa_FeeSink spec) (hdr_Fee (tx_Header tx)) (Some 0) None s = (Ok r, s1) /\
    apply_type tx spec ctr ad0 s1 = (Ok ad1, s').
Proof.
  unfold Apply, the_params. intros H. apply M_bind_Ok in H as (p & s0 & [= <- <-] & H).
  apply M_bind_Ok in H as (r & s1 & H1 & H). apply M_bind_Ok in H as (ad1 & s2 & H2 & H).
  inv_ok. do 4 eexists. split; eassumption.
Qed.


(** The asset operation of a transaction, run on the state its fee left. *)
Definition asset_op (tx : Transaction) (ctr : Z) (s s' : S) : Prop :=
  let h := tx_Header tx in
  (tx_Type tx = AssetConfigTx /\ assetConfig_apply (tx_AssetConfig tx) h ctr s = (Ok tt, s')) \/
  (tx_Type tx = AssetTransferTx /\ assetTransfer_apply (tx_AssetTransfer tx) h s = (Ok tt, s')) \/
  (tx_Type tx = AssetFreezeTx /\ assetFreeze_apply (tx_AssetFreeze tx) h s = (Ok tt, s')).

Lemma asset_op_quiet tx ctr s s' : wf_txn tx -> asset_op tx ctr s s' -> quiet s s'.
Proof.
  intros [_ _ W _] [[_ H]|[[_ H]|[_ H]]];
    [by eapply assetConfig_quiet|by eapply assetTransfer_quiet|by eapply assetFreeze_quiet].
Qed.

(** A successful [Apply] is a sequence of actions of the sender, whose payees
    are all in [RelevantAddrs], followed by at most one asset operation. *)
Lemma Apply_shape tx spec ctr ad s s' : good s -> wf_txn tx ->
  Apply tx spec ctr s = (Ok ad, s') ->
  exists s1, env_eq s s1 /\ good s1 /\ (s' = s1 \/ asset_op tx ctr s1 s') /\
  rtc (action (bal_ConsensusParams s) (level s) (hdr_Sender (tx_Header tx)) (RelevantAddrs tx spec))
      (view s) (view s1).
Proof.
  intros Hg Hw H. destruct Hw as [W1 W2 W3 W4]. apply Apply_Ok in H as (ad0 & ad1 & s1 & r & Hm & HA).
  pose proof (good_move _ _ _ _ _ _ _ _ W1 Hg Hm) as G1. pose proof Hm as [E1 Hp]%Move_Ok.
  assert (rtc (action (bal_ConsensusParams s) (level s) (hdr_Sender (tx_Header tx)) (RelevantAddrs tx spec))
      (view s) (view s1)) as R1.
  { eapply move_action, Hm; [done|done| |done]. unfold RelevantAddrs. repeat case_bool_decide; set_solver. }
  assert (forall s2, (env_eq s1 s2 /\ good s2 /\
    rtc (action (bal_ConsensusParams s1) (level s1) (hdr_Sender (tx_Header tx)) (RelevantAddrs tx spec))
      (view s1) (view s2)) -> s' = s2 ->
    exists s1, env_eq s s1 /\ good s1 /\ (s' = s1 \/ asset_op tx ctr s1 s') /\
    rtc (action (bal_ConsensusParams s) (level s) (hdr_Sender (tx_Header tx)) (RelevantAddrs tx spec))
      (view s) (view s1)) as Hend.
  { intros s2 (E2 & G2 & R2) ->. pose proof E1 as [El Ep]. rewrite El, Ep in R2.
    exists s2. split_and!; [by etrans|done|by left|by etrans]. }
  assert (asset_op tx ctr s1 s' -> exists s1, env_eq s s1 /\ good s1 /\ (s' = s1 \/ asset_op tx ctr s1 s') /\
    rtc (action (bal_ConsensusParams s) (level s) (hdr_Sender (tx_Header tx)) (RelevantAddrs tx spec))
      (view s) (view s1)) as Hop.
  { intros. exists s1. split_and!; try done. by right. }
  unfold apply_type in HA. destruct (bool_decide (tx_Type tx = PaymentTx)) eqn:T1.
  { eapply Hend; [|done]. eapply (payment_actions _ _ _ _ _ _ (RelevantAddrs tx spec)), HA; try done;
      unfold RelevantAddrs; rewrite T1; [set_solver|].
    intros. rewrite bool_decide_eq_true_2 by done. set_solver. }
  case_bool_decide.
  { inv_ok. eapply Hend; [|done]. eapply keyreg_actions; [done| |done].
    destruct Hg as [HV Hl Hu], E1 as [-> _].
    eapply (move_current _ _ Hu Hl _ _ _ _ _ _ HV W1 Hp). by left. }
  unfold asset_op in Hop.
  repeat (case_bool_decide; [inv_ok; match goal with u : unit |- _ => destruct u end; by auto|]).
  done.
Qed.

(** Invariance of a view property under the actions, by rule induction. *)
Section Actions.
Context (p : ConsensusParams) (lvl : Z) (Hp : 0 < cp_RewardUnit p) (Hl : u64 lvl).
Context (snd : Address) (A : list Address).

Lemma action_wfV V V' : action p lvl snd A V V' -> wfV V -> wfV V'.
Proof.
  intros [to amt ?? _ Hu Hm|d ?? _ _ _ _ HV'|d d' ?? Hd _ _ _ _ Hw HV'] HV.
  - exact (move_wfV p lvl Hp Hl _ _ _ _ _ HV Hu Hm).
  - eapply wfV_fupd; [done| |done]. auto with ledger.
  - eapply wfV_fupd; [done| |done]. apply Hw. by eapply HV.
Qed.

Lemma action_total V V' D : NoDup D -> snd ∈ D -> A ⊆ D -> wfV V ->
  action p lvl snd A V V' -> total p lvl V' D = total p lvl V D.
Proof.
  intros Hnd Hs HA HV Hact. revert HV.
  destruct Hact as [to amt ?? Hto Hu Hm|d ?? Hd Hz _ _ HV'|d d' ?? Hd Hb Ha Hb' _ _ HV']; intros HV.
  - exact (move_total p lvl Hp Hl _ _ _ _ _ D HV Hu Hnd Hs (HA _ Hto) Hm).
  - rewrite (total_fupd _ _ _ _ _ _ _ _ Hnd Hs Hd HV'), Hz.
    enough (money p lvl AccountData_zero = 0) by lia.
    unfold money, pending, units. cbn. by rewrite Zdiv_0_l.
  - rewrite (total_fupd _ _ _ _ _ _ _ _ Hnd Hs Hd HV').
    rewrite !money_updated_base by done. lia.
Qed.

Lemma action_no_loss V V' a d : wfV V -> a <> snd -> V a = Some d -> action p lvl snd A V V' ->
  exists d', V' a = Some d' /\ money p lvl d <= money p lvl d'.
Proof.
  intros HV Ha Hd Hact. revert HV Hd.
  destruct Hact as [to amt ?? Hto Hu Hm|d0 ?? _ _ _ _ HV'|d0 d' ?? _ _ _ _ _ _ HV']; intros HV Hd.
  - exact (move_no_loss p lvl Hp Hl _ _ _ _ _ _ _ HV Hu Hm Ha Hd).
  - rewrite HV', fupd_ne by done. eauto with lia.
  - rewrite HV', fupd_ne by done. eauto with lia.
Qed.

(** Actions leave the contents of every asset map as they are. *)
Definition same_maps (d d' : AccountData) : Prop :=
  asmap (ad_Assets d') = asmap (ad_Assets d) /\ asmap (ad_AssetParams d') = asmap (ad_AssetParams d).

#[local] Instance same_maps_refl : Reflexive same_maps.
Proof. by split. Qed.
#[local] Instance same_maps_trans : Transitive same_maps.
Proof. intros d1 d2 d3 [] []. split; congruence. Qed.

Lemma action_same_maps V V' : wfV V -> action p lvl snd A V V' -> rel_view same_maps V V'.
Proof.
  intros HV Hact. revert HV.
  destruct Hact as [to amt ?? _ Hu Hm|d ?? Hd _ H1 H2 HV'|d d' ?? Hd _ _ _ [HA HP] _ HV']; intros HV.
  - intros a. pose proof (move_algo_only p lvl Hp Hl _ _ _ _ _ HV Hu Hm a) as Ha.
    destruct Ha as [x y [E1 E2]|]; constructor. split; congruence.
  - refine (rel_view_fupd _ _ _ _ _ _ Hd _ HV'). split; cbn; congruence.
  - refine (rel_view_fupd _ _ _ _ _ _ Hd _ HV'). split; congruence.
Qed.

Lemma actions_ind V V' (P : View -> Prop) :
  (forall V1 V2, wfV V1 -> P V1 -> action p lvl snd A V1 V2 -> P V2) ->
  wfV V -> rtc (action p lvl snd A) V V' -> P V -> P V' /\ wfV V'.
Proof.
  intros Hstep HV HR. induction HR as [|V1 V2 V3 H12 _ IH]; intros HP; [done|].
  apply IH; [by eapply action_wfV|by eapply Hstep].
Qed.

Lemma actions_total V V' D : NoDup D -> snd ∈ D -> A ⊆ D -> wfV V ->
  rtc (action p lvl snd A) V V' -> total p lvl V' D = total p lvl V D.
Proof.
  intros ??? HV HR. refine (proj1 (actions_ind _ _ (λ V2, total p lvl V2 D = total p lvl V D) _ HV HR eq_refl)).
  intros V1 V2 HV1 <- Ha. by apply action_total.
Qed.

Lemma actions_no_loss V V' a d : wfV V -> a <> snd -> V a = Some d -> rtc (action p lvl snd A) V V' ->
  exists d', V' a = Some d' /\ money p lvl d <= money p lvl d'.
Proof.
  intros HV Ha Hd HR.
  refine (proj1 (actions_ind _ _ (λ V2, exists d', V2 a = Some d' /\ money p lvl d <= money p lvl d') _ HV HR _));
    [|eauto with lia].
  intros V1 V2 HV1 (d1 & Hd1 & Hle) Hact.
  destruct (action_no_loss _ _ _ _ HV1 Ha Hd1 Hact) as (d2 & Hd2 & Hle2). eauto with lia.
Qed.

Lemma actions_same_maps V V' : wfV V -> rtc (action p lvl snd A) V V' -> rel_view same_maps V V'.
Proof.
  intros HV HR. refine (proj1 (actions_ind _ _ (rel_view same_maps V) _ HV HR _)); [|reflexivity].
  intros V1 V2 HV1 H1 H2%action_same_maps; [|done]. by etrans.
Qed.
End Actions.
End ApplyEffects.

Lemma same_maps_holdingV i V V' a : rel_view same_maps V V' -> holdingV i V' a = holdingV i V a.
Proof.
  intros H. specialize (H a). unfold holdingV. destruct H as [d d' [H1 H2]|]; [|done].
  cbn. unfold holding. by rewrite H1.
Qed.

Lemma same_maps_supply i V V' D : rel_view same_maps V V' -> supply i V' D = supply i V D.
Proof. intros H. apply sumZ_ext. intros a _. by apply same_maps_holdingV. Qed.

(** ** Invariant of the asset system

    Every asset's units, summed over the accounts [D] that hold asset state, are
    its [Total]; an asset has one creator; indices are below the transaction
    counter, so an index is never used twice. *)

Definition holds (d : AccountData) (i : AssetIndex) : Prop := is_Some (asmap (ad_Assets d) !! i).
Definition defines (d : AccountData) (i : AssetIndex) (q : AssetParams) : Prop :=
  asmap (ad_AssetParams d) !! i = Some q.

Record asset_inv (V : View) (D : list Address) (n : Z) : Prop := {
  ai_supply : forall c d i q, V c = Some d -> defines d i q -> supply i V D = ap_Total q;
  ai_unique : forall c c' d d' i q q', V c = Some d -> V c' = Some d' ->
                defines d i q -> defines d' i q' -> c = c';
  ai_holds : forall a d i, V a = Some d -> holds d i -> a ∈ D /\ 0 < i <= n;
  ai_defines : forall a d i q, V a = Some d -> defines d i q -> a ∈ D /\ 0 < i <= n
}.

(** Accounts keep their parameters and gain no holding outside [extra]. *)
Definition keeps (extra : Address -> AssetIndex -> Prop) (V V' : View) : Prop :=
  forall a d', V' a = Some d' -> exists d, V a = Some d /\
    (forall i q, defines d' i q -> defines d i q) /\
    (forall i, holds d' i -> holds d i \/ extra a i).

Lemma asset_inv_keeps extra V V' D n : asset_inv V D n -> keeps extra V V' ->
  (forall a i, extra a i -> a ∈ D /\ 0 < i <= n) ->
  (forall i, supply i V' D = supply i V D) -> asset_inv V' D n.
Proof.
  intros [H1 H2 H3 H4] HK HX HS. split.
  - intros c d i q Hc Hd. destruct (HK _ _ Hc) as (d0 & Hc0 & Hq & _). rewrite HS. eauto.
  - intros c c' d d' i q q' Hc Hc' Hd Hd'.
    destruct (HK _ _ Hc) as (d0 & ? & ? & _), (HK _ _ Hc') as (d0' & ? & ? & _). eapply H2; eauto.
  - intros a d i Ha Hh. destruct (HK _ _ Ha) as (d0 & ? & _ & Hk).
    destruct (Hk _ Hh); [eapply H3|apply HX]; eauto.
  - intros a d i q Ha Hd. destruct (HK _ _ Ha) as (d0 & ? & ? & _). eapply H4; eauto.
Qed.

Lemma asset_inv_mono V D n n' : n <= n' -> asset_inv V D n -> asset_inv V D n'.
Proof.
  intros Hn [H1 H2 H3 H4]. split; [done|done| |]; intros.
  - destruct (H3 a d i); auto with lia.
  - destruct (H4 a d i q); auto with lia.
Qed.

Definition nothing : Address -> AssetIndex -> Prop := λ _ _, False.

Lemma keeps_refl extra V : keeps extra V V.
Proof. intros a d H. exists d. auto. Qed.
Lemma keeps_trans e V1 V2 V3 : keeps e V1 V2 -> keeps e V2 V3 -> keeps e V1 V3.
Proof.
  intros H12 H23 a d3 H3. destruct (H23 _ _ H3) as (d2 & H2 & ? & Hh2).
  destruct (H12 _ _ H2) as (d1 & H1 & ? & Hh1). exists d1. split_and!; [done|auto|].
  intros i Hi. destruct (Hh2 _ Hi) as [Hj|]; auto.
Qed.
Lemma keeps_weaken (e e' : Address -> AssetIndex -> Prop) V V' :
  (forall a i, e a i -> e' a i) -> keeps e V V' -> keeps e' V V'.
Proof.
  intros He H a d Hd. destruct (H _ _ Hd) as (d0 & ? & ? & Hh). exists d0. split_and!; auto.
  intros i Hi. destruct (Hh i Hi); auto.
Qed.

Lemma same_maps_keeps V V' : rel_view same_maps V V' -> keeps nothing V V'.
Proof.
  intros H a d' Hd'. specialize (H a). rewrite Hd' in H. inversion H as [d ? [H1 H2]|]; subst.
  exists d. unfold defines, holds. rewrite H1, H2. auto.
Qed.

Lemma keeps_step (extra : Address -> AssetIndex -> Prop) (V V' : View) a d d' :
  V a = Some d -> (forall x, V' x = fupd V a (Some d') x) ->
  (forall i q, defines d' i q -> defines d i q) -> (forall i, holds d' i -> holds d i \/ extra a i) ->
  keeps extra V V'.
Proof.
  intros Ha HV' Hq Hh x dx. rewrite HV'. unfold fupd.
  case_decide; [intros [= <-]; subst; eauto|]. intros. exists dx. auto.
Qed.

Section AssetInv.
Context {S : Type} `{HB : !Balances S} `{HL : !BalancesLaws S}.
Implicit Types s : S.

Lemma step_insert_keeps s s' a d i h h' : asmap (ad_Assets d) !! i = Some h ->
  asset_step s s' a d (setAssets d <[i := h']>) -> keeps nothing (view s) (view s').
Proof.
  intros Hh [_ H1 H2 _]. refine (keeps_step _ _ _ _ _ _ H1 H2 _ _); [done|].
  unfold holds. cbn. intros j. rewrite lookup_insert. case_decide; [subst; eauto|auto].
Qed.

Lemma takeOut_keeps a i amount b u s s' : takeOut a i amount b s = (Ok u, s') ->
  keeps nothing (view s) (view s').
Proof.
  intros [[_ ->]|(_ & d & h & x & Hh & _ & _ & H)]%takeOut_Ok; [apply keeps_refl|].
  by eapply step_insert_keeps.
Qed.
Lemma putIn_keeps a i amount b u s s' : putIn a i amount b s = (Ok u, s') ->
  keeps nothing (view s) (view s').
Proof.
  intros [[_ ->]|(_ & d & h & x & Hh & _ & _ & H)]%putIn_Ok; [apply keeps_refl|].
  by eapply step_insert_keeps.
Qed.

Lemma transfer_close_keeps ct a u s s' : transfer_close ct a s = (Ok u, s') ->
  keeps nothing (view s) (view s').
Proof.
  intros (d & h & b & s1 & s2 & d2 & _ & _ & _ & H1 & H2 & _ & [_ H3 H4 _])%transfer_close_Ok.
  eapply keeps_trans; [by eapply takeOut_keeps|]. eapply keeps_trans; [by eapply putIn_keeps|].
  refine (keeps_step _ _ _ _ _ _ H3 H4 _ _); [done|]. unfold holds. cbn.
  intros j [? [_ ?]%lookup_delete_Some]. eauto.
Qed.

(** Every account that holds a slot for some asset is in [D]. *)
Definition holders_in (D : list Address) (V : View) : Prop :=
  forall a d i, V a = Some d -> holds d i -> a ∈ D.

Lemma holders_in_keeps (extra : Address -> AssetIndex -> Prop) D V V' :
  keeps extra V V' -> (forall a i, extra a i -> a ∈ D) -> holders_in D V -> holders_in D V'.
Proof.
  intros HK HX HD a d i Ha Hh. destruct (HK _ _ Ha) as (d0 & ? & _ & Hk).
  destruct (Hk _ Hh); eauto.
Qed.

Lemma takeOut_member a i amount b u s s' D : holders_in D (view s) ->
  takeOut a i amount b s = (Ok u, s') -> amount <> 0 -> a ∈ D.
Proof.
  intros HD [[-> _]|(_ & d & h & x & Hh & _ & _ & [_ H _ _])]%takeOut_Ok; [done|].
  intros _. eapply HD; [done|]. by eexists.
Qed.
Lemma putIn_member a i amount b u s s' D : holders_in D (view s) ->
  putIn a i amount b s = (Ok u, s') -> amount <> 0 -> a ∈ D.
Proof.
  intros HD [[-> _]|(_ & d & h & x & Hh & _ & _ & [_ H _ _])]%putIn_Ok; [done|].
  intros _. eapply HD; [done|]. by eexists.
Qed.

(** Moving units from one account to another keeps every supply. *)
Lemma takeOut_putIn_supply j a a' i amount b u u' s s1 s' D : NoDup D -> holders_in D (view s) ->
  wfV (view s) -> u64 amount ->
  takeOut a i amount b s = (Ok u, s1) -> putIn a' i amount b s1 = (Ok u', s') ->
  supply j (view s') D = supply j (view s) D.
Proof.
  intros Hnd HD HV Hu H1 H2.
  assert (holders_in D (view s1)) as HD1 by (eapply holders_in_keeps; [by eapply takeOut_keeps|done|done]).
  assert (wfV (view s1)) as HV1 by (eapply takeOut_quiet; eauto).
  rewrite (putIn_supply j _ _ _ _ _ _ _ D Hnd (putIn_member _ _ _ _ _ _ _ _ HD1 H2) HV1 Hu H2).
  rewrite (takeOut_supply j _ _ _ _ _ _ _ D Hnd (takeOut_member _ _ _ _ _ _ _ _ HD H1) HV Hu H1). lia.
Qed.

Lemma transfer_close_supply j ct a u s s' D : NoDup D -> holders_in D (view s) -> wfV (view s) ->
  transfer_close ct a s = (Ok u, s') -> supply j (view s') D = supply j (view s) D.
Proof.
  intros Hnd HD HV (d & h & b & s1 & s2 & d2 & Hd & _ & Hh & H1 & H2 & H0 & H3)%transfer_close_Ok.
  assert (u64 (ah_Amount h)) as Hu by (eapply (HV _ _ Hd), Hh).
  assert (a ∈ D) as Ha by (eapply HD; [done|by eexists]).
  rewrite (asset_step_supply j _ _ _ _ _ _ Hnd Ha H3), holding_delete.
  rewrite (takeOut_putIn_supply j _ _ _ _ _ _ _ _ _ _ D Hnd HD HV Hu H1 H2).
  case_decide; subst; lia.
Qed.

(** The slot a transfer may allocate. *)
Definition optin_slot (ct : AssetTransferTxnFields) (h : Header) : Address -> AssetIndex -> Prop :=
  λ a i, a = hdr_Sender h /\ i = ax_XferAsset ct.

Lemma transfer_optin_keeps ct h u s s' : transfer_optin ct (hdr_Sender h) s = (Ok u, s') ->
  keeps (optin_slot ct h) (view s) (view s') /\
  (s' = s \/ exists c d q, view s c = Some d /\ defines d (ax_XferAsset ct) q).
Proof.
  intros H. split.
  - apply transfer_optin_Ok in H as [->|(d & fr & _ & [_ H1 H2 _])]; [apply keeps_refl|].
    refine (keeps_step _ _ _ _ _ _ H1 H2 _ _); [done|]. unfold holds, optin_slot. cbn.
    intros j. rewrite lookup_insert. case_decide; auto.
  - unfold transfer_optin in H. inv_bal. case_match; inv_bal; [by left|right]. by eexists _, _, _.
Qed.

Lemma assetTransfer_keeps ct h u s s' : assetTransfer_apply ct h s = (Ok u, s') ->
  keeps (optin_slot ct h) (view s) (view s') /\
  (keeps nothing (view s) (view s') \/ exists c d q, view s c = Some d /\ defines d (ax_XferAsset ct) q).
Proof.
  intros (src & cb & s1 & s2 & s3 & H0 & H1 & H2 & H3 & H4)%assetTransfer_Ok.
  assert (keeps nothing (view s1) (view s')) as HK.
  { eapply keeps_trans; [by eapply takeOut_keeps|]. eapply keeps_trans; [by eapply putIn_keeps|].
    destruct H4 as [->|(_ & _ & H4)]; [apply keeps_refl|by eapply transfer_close_keeps]. }
  destruct H1 as [->|[-> H1]].
  { split; [|by left]. eapply keeps_weaken, HK. by intros ?? []. }
  apply transfer_source_Ok in H0 as [_ [[_ [= ->]]|(_ & [=] & _)]].
  apply transfer_optin_keeps in H1 as [K1 K2]. split.
  - eapply keeps_trans; [done|]. eapply keeps_weaken, HK. by intros ?? [].
  - destruct K2 as [->|?]; [by left|by right].
Qed.

Lemma assetTransfer_supply j ct h u s s' D : NoDup D -> hdr_Sender h ∈ D -> holders_in D (view s) ->
  wfV (view s) -> u64 (ax_AssetAmount ct) ->
  assetTransfer_apply ct h s = (Ok u, s') -> supply j (view s') D = supply j (view s) D.
Proof.
  intros Hnd Hs HD HV Hu (src & cb & s1 & s2 & s3 & H0 & H1 & H2 & H3 & H4)%assetTransfer_Ok.
  assert (holders_in D (view s1) /\ wfV (view s1) /\ supply j (view s1) D = supply j (view s) D)
    as (HD1 & HV1 & HS1).
  { destruct H1 as [->|[-> H1]]; [done|].
    apply transfer_source_Ok in H0 as [_ [[_ [= ->]]|(_ & [=] & _)]]. split_and!.
    - apply transfer_optin_keeps in H1 as [K _]. eapply holders_in_keeps; [done| |done]. by intros ?? [-> _].
    - by eapply transfer_optin_quiet.
    - exact (transfer_optin_supply _ _ _ _ _ _ _ Hnd Hs H1). }
  rewrite <- HS1, <- (takeOut_putIn_supply j _ _ _ _ _ _ _ _ _ _ D Hnd HD1 HV1 Hu H2 H3).
  destruct H4 as [->|(_ & _ & H4)]; [done|].
  refine (transfer_close_supply j _ _ _ _ _ _ Hnd _ _ H4).
  - eapply holders_in_keeps; [by eapply putIn_keeps|done|].
    eapply holders_in_keeps; [by eapply takeOut_keeps|done|done].
  - eapply putIn_quiet; [done|]. by eapply takeOut_quiet.
Qed.

(** An update of one account that creates, destroys or reconfigures asset [i]
    keeps the invariant. *)
Lemma asset_inv_create V V' D n a d cc : NoDup D -> asset_inv V D n -> a ∈ D -> V a = Some d -> 0 <= n ->
  (forall x, V' x = fupd V a (Some (create_data cc (n + 1) d)) x) -> asset_inv V' D (n + 1).
Proof.
  intros Hnd [I1 I2 I3 I4] Ha Hd Hn HV'.
  assert (forall x dx j q, V' x = Some dx -> defines dx j q ->
    (j = n + 1 /\ x = a /\ q = ac_AssetParams cc) \/ exists d0, V x = Some d0 /\ defines d0 j q) as Hdef.
  { intros x dx j q. rewrite HV'. unfold fupd. case_decide; [|by eauto]. intros [= <-]. subst.
    unfold defines. cbn. rewrite lookup_insert. case_decide; [intros [= <-]; by left|right; eauto]. }
  assert (forall j, supply j V' D = supply j V D + if decide (j = n + 1) then ap_Total (ac_AssetParams cc) else 0) as Hsup.
  { intros j. rewrite (supply_fupd j _ _ _ _ _ _ Hnd Ha Hd HV'). unfold create_data.
    rewrite holding_insert. case_decide; [|rewrite holding_setParams; lia]. subst. cbn.
    assert (holding (n + 1) d = 0); [|lia]. unfold holding.
    destruct (asmap (ad_Assets d) !! (n + 1)) eqn:E; [|done].
    destruct (I3 a d (n + 1) Hd ltac:(by eexists)). lia. }
  assert (supply (n + 1) V D = 0) as Hz.
  { apply sumZ_zero. intros x _. unfold holdingV.
    destruct (V x) as [dx|] eqn:Ex; [|done]. cbn. unfold holding.
    destruct (asmap (ad_Assets dx) !! (n + 1)) eqn:E; [|done].
    destruct (I3 x dx (n + 1) Ex ltac:(by eexists)). lia. }
  split.
  - intros c dc j q Hc Hq. rewrite Hsup. destruct (Hdef _ _ _ _ Hc Hq) as [(-> & -> & ->)|(d0 & H0 & Hq0)].
    + rewrite decide_True by done. lia.
    + destruct (I4 _ _ _ _ H0 Hq0). rewrite decide_False by lia. rewrite (I1 _ _ _ _ H0 Hq0). lia.
  - intros c c' dc dc' j q q' Hc Hc' Hq Hq'.
    destruct (Hdef _ _ _ _ Hc Hq) as [(-> & -> & _)|(d0 & H0 & Hq0)],
      (Hdef _ _ _ _ Hc' Hq') as [(? & -> & _)|(d1 & H1 & Hq1)]; subst; try done.
    + destruct (I4 _ _ _ _ H1 Hq1). lia.
    + destruct (I4 _ _ _ _ H0 Hq0). lia.
    + by eapply I2.
  - intros x dx j. rewrite HV'. unfold fupd. case_decide.
    + intros [= <-]. subst. unfold holds. cbn. rewrite lookup_insert. case_decide; [split; [done|lia]|].
      intros Hh. destruct (I3 _ _ j Hd Hh). split; [done|lia].
    + intros Hx Hh. destruct (I3 _ _ _ Hx Hh). split; [done|lia].
  - intros x dx j q Hx Hq. destruct (Hdef _ _ _ _ Hx Hq) as [(-> & -> & _)|(d0 & H0 & Hq0)].
    + split; [done|lia].
    + destruct (I4 _ _ _ _ H0 Hq0). split; [done|lia].
Qed.

(** An update that only drops asset [i] from, or changes its roles in, its
    creator's record. *)
Lemma asset_inv_update V V' D n a d d' i q : NoDup D -> asset_inv V D n -> V a = Some d ->
  defines d i q -> (forall x, V' x = fupd V a (Some d') x) ->
  (forall j qj, defines d' j qj -> j <> i /\ defines d j qj \/ j = i /\ ap_Total qj = ap_Total q /\ holding i d' = holding i d) ->
  (forall j, holds d' j -> holds d j) -> (forall j, j <> i -> holding j d' = holding j d) ->
  asset_inv V' D n.
Proof.
  intros Hnd [I1 I2 I3 I4] Hd Hq HV' Hdef Hh Hother.
  destruct (I4 _ _ _ _ Hd Hq) as [Ha Hi].
  assert (forall x dx j qj, V' x = Some dx -> defines dx j qj ->
    exists d0 q0, V x = Some d0 /\ defines d0 j q0 /\ ap_Total q0 = ap_Total qj /\
      (j = i -> x = a /\ holding i d' = holding i d)) as Hold.
  { intros x dx j qj. rewrite HV'. unfold fupd. case_decide.
    - intros [= <-] Hj. subst. destruct (Hdef _ _ Hj) as [[Hne Hj0]|(-> & Ht & Hk)].
      + eexists _, _. split_and!; done.
      + eexists _, _. split_and!; done.
    - intros Hx Hj. eexists _, _. split_and!; [done..|]. intros ->. by destruct (I2 _ _ _ _ _ _ _ Hx Hd Hj Hq). }
  split.
  - intros c dc j qj Hc Hj. destruct (Hold _ _ _ _ Hc Hj) as (d0 & q0 & H0 & Hj0 & <- & Hk).
    rewrite (supply_fupd j _ _ _ _ _ _ Hnd Ha Hd HV'). rewrite <- (I1 _ _ _ _ H0 Hj0).
    destruct (decide (j = i)) as [->|Hne]; [destruct Hk as [_ Hk]; [done|]|pose proof (Hother _ Hne)]; lia.
  - intros c c' dc dc' j q1 q2 Hc Hc' H1 H2.
    destruct (Hold _ _ _ _ Hc H1) as (? & ? & ? & ? & _), (Hold _ _ _ _ Hc' H2) as (? & ? & ? & ? & _).
    by eapply I2.
  - intros x dx j. rewrite HV'. unfold fupd. case_decide; [intros [= <-] ?; subst|]; eauto.
  - intros x dx j qj Hx Hj. destruct (Hold _ _ _ _ Hx Hj) as (? & ? & ? & ? & _). by eapply I4.
Qed.

Lemma assetConfig_inv cc h ctr u s s' D : NoDup D -> hdr_Sender h ∈ D -> 0 <= ctr < 2 ^ 64 - 1 ->
  asset_inv (view s) D ctr -> assetConfig_apply cc h ctr s = (Ok u, s') -> asset_inv (view s') D (ctr + 1).
Proof.
  intros Hnd Hs Hn HI [(_ & d & _ & [_ H1 H2 _])|(_ & c & d & q & Hq & _ & _ & Hc)]%assetConfig_Ok.
  - rewrite wrap64_small in H2 by (unfold u64; lia).
    exact (asset_inv_create _ _ _ _ _ _ _ Hnd HI Hs H1 ltac:(lia) H2).
  - apply (asset_inv_mono _ _ ctr); [lia|].
    destruct Hc as [(_ & _ & [_ H1 H2 _])|(_ & [_ H1 H2 _])].
    + refine (asset_inv_update _ _ _ _ _ _ _ _ _ Hnd HI H1 Hq H2 _ _ _); unfold defines, holds; cbn.
      * intros j qj [? ?]%lookup_delete_Some. left. auto.
      * intros j [x [_ ?]%lookup_delete_Some]. eauto.
      * intros j Hne. rewrite holding_setParams, holding_delete. by rewrite decide_False.
    + refine (asset_inv_update _ _ _ _ _ _ _ _ _ Hnd HI H1 Hq H2 _ _ _); unfold defines, holds; cbn; [|done|done].
      intros j qj. rewrite lookup_insert. case_decide; [intros [= <-]; subst; by right|by left].
Qed.

Lemma assetFreeze_inv cf h u s s' D n : NoDup D -> asset_inv (view s) D n ->
  assetFreeze_apply cf h s = (Ok u, s') -> asset_inv (view s') D n.
Proof.
  intros Hnd HI Hf. pose proof Hf as (d & c & dc & q & hd & Hh & _ & _ & _ & _ & H)%assetFreeze_Ok.
  pose proof (step_insert_keeps _ _ _ _ _ _ _ Hh H) as HK.
  eapply asset_inv_keeps; [done|done|by intros ?? []|]. intros i.
  eapply assetFreeze_supply; [done| |done].
  destruct (ai_holds _ _ _ HI _ _ (af_FreezeAsset cf) (as_old _ _ _ _ _ H) ltac:(by eexists)). done.
Qed.

Lemma assetTransfer_inv ct h u s s' D n : NoDup D -> hdr_Sender h ∈ D -> wfV (view s) ->
  u64 (ax_AssetAmount ct) -> asset_inv (view s) D n ->
  assetTransfer_apply ct h s = (Ok u, s') -> asset_inv (view s') D n.
Proof.
  intros Hnd Hs HV Hu HI Ht.
  assert (holders_in D (view s)) as HD by (intros a d i Ha Hh; by eapply ai_holds).
  pose proof (λ j, assetTransfer_supply j _ _ _ _ _ _ Hnd Hs HD HV Hu Ht) as Hsup.
  destruct (assetTransfer_keeps _ _ _ _ _ Ht) as [K1 [K2|(c & d & q & Hc & Hq)]].
  - eapply asset_inv_keeps; [done|done|by intros ?? []|done].
  - eapply asset_inv_keeps; [done|done| |done]. intros a i [-> ->].
    split; [done|]. by eapply ai_defines.
Qed.
End AssetInv.

(** ** Theorems *)

Section Theorems.
Context {S : Type} `{HB : !Balances S} `{HL : !BalancesLaws S}.
Implicit Types s : S.

Lemma apply_total tx spec ctr ad s s' D :
  good s -> wf_txn tx -> NoDup D -> RelevantAddrs tx spec ⊆ D ->
  Apply tx spec ctr s = (Ok ad, s') ->
  total (bal_ConsensusParams s) (level s) (view s') D = total (bal_ConsensusParams s) (level s) (view s) D.
Proof.
  intros Hg Hw Hnd HD H. pose proof (Apply_shape _ _ _ _ _ _ Hg Hw H) as (s1 & _ & _ & Ho & HR).
  destruct Hg as [HV Hl Hp]. transitivity (total (bal_ConsensusParams s) (level s) (view s1) D).
  - destruct Ho as [->|Ho%asset_op_quiet]; [done| |done]. by apply total_asset_only, Ho.
  - apply (actions_total _ _ Hp Hl _ _ _ _ D Hnd) in HR; try done. apply HD.
    unfold RelevantAddrs. repeat case_bool_decide; set_solver.
Qed.

(** A successful [Apply] keeps the preconditions. *)
Lemma apply_good tx spec ctr ad s s' : good s -> wf_txn tx ->
  Apply tx spec ctr s = (Ok ad, s') -> good s' /\ env_eq s s'.
Proof.
  intros Hg Hw H. pose proof (Apply_shape _ _ _ _ _ _ Hg Hw H) as (s1 & HE & G1 & Ho & _).
  destruct Ho as [->|Ho%asset_op_quiet]; [done| |done].
  split; [by eapply good_quiet|etrans; [done|apply Ho]].
Qed.

(** C1: Conservation of algos.  When [Transaction.Apply] succeeds, the sum of the
    effective balances (stored balance plus deferred rewards) over any
    duplicate-free list of accounts containing the transaction's [RelevantAddrs]
    is unchanged: the fee, the payment, the closing of the account and every asset
    or key-registration transaction move algos but neither create nor destroy any. *)
Theorem Apply_conserves_money tx spec ctr ad s s' D :
  good s -> wf_txn tx -> NoDup D -> RelevantAddrs tx spec ⊆ D ->
  Apply tx spec ctr s = (Ok ad, s') ->
  total (bal_ConsensusParams s) (level s) (view s') D = total (bal_ConsensusParams s) (level s) (view s) D.
Proof. apply apply_total. Qed.

(** C2: Only the sender pays.  A successful [Apply] never lowers the effective
    balance of an account other than the transaction's sender. *)
Theorem Apply_only_sender_pays tx spec ctr ad s s' a d :
  good s -> wf_txn tx -> Apply tx spec ctr s = (Ok ad, s') ->
  a <> hdr_Sender (tx_Header tx) -> view s a = Some d ->
  exists d', view s' a = Some d' /\
    money (bal_ConsensusParams s) (level s) d <= money (bal_ConsensusParams s) (level s) d'.
Proof.
  intros Hg Hw H Ha Hd. pose proof (Apply_shape _ _ _ _ _ _ Hg Hw H) as (s1 & _ & _ & Ho & HR).
  destruct Hg as [HV Hl Hp].
  destruct (actions_no_loss _ _ Hp Hl _ _ _ _ _ _ HV Ha Hd HR) as (d1 & Hd1 & Hle).
  destruct Ho as [->|Ho]; [eauto|]. apply asset_op_quiet in Ho as (_ & Hr & _); [|done].
  specialize (Hr a). rewrite Hd1 in Hr. inversion Hr as [? d2 Ha2|]; subst.
  exists d2. split; [done|]. by rewrite (money_asset_only _ _ _ _ Ha2).
Qed.

(** C3: The asset system stays consistent.  If every asset's total supply equals
    the sum of its holdings, each asset has one creator and all indices are at most
    the transaction counter, then this still holds (with the counter advanced)
    after any successful [Apply]: creation mints exactly [Total] under a fresh
    index, destruction needs the creator to hold everything, transfers, closings,
    clawbacks, freezes and re-configurations change no supply. *)
Theorem Apply_preserves_asset_inv tx spec ctr ad s s' D :
  good s -> wf_txn tx -> NoDup D -> hdr_Sender (tx_Header tx) ∈ D -> 0 <= ctr < 2 ^ 64 - 1 ->
  asset_inv (view s) D ctr -> Apply tx spec ctr s = (Ok ad, s') ->
  asset_inv (view s') D (ctr + 1).
Proof.
  intros Hg Hw Hnd Hs Hc HI H. pose proof (Apply_shape _ _ _ _ _ _ Hg Hw H) as (s1 & _ & Hg1 & Ho & HR).
  destruct Hg as [HV Hl Hp]. pose proof (actions_same_maps _ _ Hp Hl _ _ _ _ HV HR) as Hsm.
  assert (asset_inv (view s1) D ctr) as HI1.
  { eapply asset_inv_keeps; [done|by apply same_maps_keeps|by intros ?? []|].
    intros i. by apply same_maps_supply. }
  pose proof Hw as [_ _ _ W4]. pose proof (asset_inv_mono _ D ctr (ctr + 1) ltac:(lia) HI1) as HI1'.
  destruct Ho as [->|[[_ Ho]|[[_ Ho]|[_ Ho]]]]; [done| | |].
  - exact (assetConfig_inv _ _ _ _ _ _ _ Hnd Hs Hc HI1 Ho).
  - exact (assetTransfer_inv _ _ _ _ _ _ _ Hnd Hs (good_wf _ Hg1) W4 HI1' Ho).
  - exact (assetFreeze_inv _ _ _ _ _ _ _ Hnd HI1' Ho).
Qed.
End Theorems.
