(* ===== verification/AssetAuthority.v ===== *)
(** Authority over assets (src/data/transactions/asset.go): what a successful
    [Transaction.Apply] may do to the parameters of an asset and to the holdings of an
    account, and who must have sent it.

    An account has, for each asset, an optional record of parameters (as its creator) and
    an optional holding.  The theorem classifies every change of either between the states
    before and after [Apply]. *)

From S2P Require Import Prelude Config Basics Transactions TransactionsSpec.

Definition slotV (i : AssetIndex) (V : View) (a : Address) : option AssetHolding :=
  V a ≫= λ d, asmap (ad_Assets d) !! i.
Definition paramsV (i : AssetIndex) (V : View) (a : Address) : option AssetParams :=
  V a ≫= λ d, asmap (ad_AssetParams d) !! i.

(** [snd] has a role (freeze or clawback address) in asset [i]. *)
Definition role (pick : AssetParams -> Address) (V : View) (i : AssetIndex) (snd : Address) : Prop :=
  snd <> zero32 /\ exists c q, paramsV i V c = Some q /\ pick q = snd.

(** ** The permitted changes *)

Section Changes.
Context (tx : Transaction) (ctr : Z) (V : View) (a : Address) (i : AssetIndex).
Let snd : Address := hdr_Sender (tx_Header tx).
Let cc := tx_AssetConfig tx.
Let ct := tx_AssetTransfer tx.
Let cf := tx_AssetFreeze tx.

(** The parameters of an asset are created by their owner, and afterwards changed or
    destroyed only by the asset's manager. *)
Inductive params_change : option AssetParams -> option AssetParams -> Prop :=
| pc_create : tx_Type tx = AssetConfigTx -> ac_ConfigAsset cc = 0 -> a = snd -> i = wrap64 (ctr + 1) ->
    params_change None (Some (ac_AssetParams cc))
| pc_update q : tx_Type tx = AssetConfigTx -> ac_ConfigAsset cc = i -> ap_Manager q = snd -> snd <> zero32 ->
    params_change (Some q) (Some (reconfigure q (ac_AssetParams cc)))
| pc_destroy q : tx_Type tx = AssetConfigTx -> ac_ConfigAsset cc = i -> ap_Manager q = snd -> snd <> zero32 ->
    ac_AssetParams cc = AssetParams_zero -> holdingV i V a = ap_Total q -> params_change (Some q) None.

(** The holding of an account other than the sender is frozen or thawed by the asset's
    freeze address, lowered by a clawback of its clawback address, raised by a transfer
    to it, or removed when the account is the creator and the manager destroys the asset. *)
Inductive holding_change : option AssetHolding -> option AssetHolding -> Prop :=
| hc_freeze h : tx_Type tx = AssetFreezeTx -> af_FreezeAccount cf = a -> af_FreezeAsset cf = i ->
    role ap_Freeze V i snd -> holding_change (Some h) (Some (h <| ah_Frozen := af_AssetFrozen cf |>))
| hc_clawback h : tx_Type tx = AssetTransferTx -> ax_XferAsset ct = i -> ax_AssetSender ct = a -> a <> zero32 ->
    role ap_Clawback V i snd -> ax_AssetAmount ct <= ah_Amount h ->
    holding_change (Some h) (Some (h <| ah_Amount := ah_Amount h - ax_AssetAmount ct |>))
| hc_receive h n : tx_Type tx = AssetTransferTx -> ax_XferAsset ct = i ->
    (ax_AssetReceiver ct = a \/ ax_AssetCloseTo ct = a) -> ah_Amount h < n ->
    holding_change (Some h) (Some (h <| ah_Amount := n |>))
| hc_destroy h q : tx_Type tx = AssetConfigTx -> ac_ConfigAsset cc = i -> ac_AssetParams cc = AssetParams_zero ->
    paramsV i V a = Some q -> ap_Manager q = snd -> snd <> zero32 -> ah_Amount h = ap_Total q ->
    holding_change (Some h) None.

(** The freeze flag of a holding, the sender's own included. *)
Inductive flag_change : AssetHolding -> AssetHolding -> Prop :=
| fc_freeze h : tx_Type tx = AssetFreezeTx -> af_FreezeAccount cf = a -> af_FreezeAsset cf = i ->
    role ap_Freeze V i snd -> flag_change h (h <| ah_Frozen := af_AssetFrozen cf |>)
| fc_create h h' : tx_Type tx = AssetConfigTx -> ac_ConfigAsset cc = 0 -> a = snd -> i = wrap64 (ctr + 1) ->
    flag_change h h'.
End Changes.

(** Every change between two views is one of these. *)
Record authorised_changes (tx : Transaction) (ctr : Z) (V V' : View) : Prop := {
  au_params : forall i a, paramsV i V' a <> paramsV i V a ->
    params_change tx ctr V a i (paramsV i V a) (paramsV i V' a);
  au_holding : forall i a, a <> hdr_Sender (tx_Header tx) -> slotV i V' a <> slotV i V a ->
    holding_change tx V a i (slotV i V a) (slotV i V' a);
  au_flag : forall i a h h', slotV i V a = Some h -> slotV i V' a = Some h' -> ah_Frozen h' <> ah_Frozen h ->
    flag_change tx ctr V a i h h'
}.

(** ** One update of an account *)

Section Authority.
Context {S : Type} `{HB : !Balances S} `{HL : !BalancesLaws S}.
Implicit Types s : S.

Lemma step_slot i s s' a d d' x : asset_step s s' a d d' ->
  slotV i (view s') x = if decide (x = a) then asmap (ad_Assets d') !! i else slotV i (view s) x.
Proof. intros [_ _ H _]. unfold slotV. rewrite H. unfold fupd. by case_decide. Qed.
Lemma step_params i s s' a d d' x : asset_step s s' a d d' ->
  paramsV i (view s') x = if decide (x = a) then asmap (ad_AssetParams d') !! i else paramsV i (view s) x.
Proof. intros [_ _ H _]. unfold paramsV. rewrite H. unfold fupd. by case_decide. Qed.
Lemma step_old i s s' a d d' : asset_step s s' a d d' ->
  slotV i (view s) a = asmap (ad_Assets d) !! i /\ paramsV i (view s) a = asmap (ad_AssetParams d) !! i.
Proof. intros [_ H _ _]. unfold slotV, paramsV. by rewrite H. Qed.

(** A step that only touches the holding of asset [j]: parameters stay. *)
Lemma step_insert_slot i j s s' a d h x : asset_step s s' a d (setAssets d <[j := h]>) ->
  slotV i (view s') x = (if decide (x = a /\ i = j) then Some h else slotV i (view s) x) /\
  paramsV i (view s') x = paramsV i (view s) x.
Proof.
  intros H. rewrite (step_slot i _ _ _ _ _ x H), (step_params i _ _ _ _ _ x H).
  destruct (step_old i _ _ _ _ _ H) as [E1 E2]. destruct (decide (x = a)) as [->|Hx].
  - rewrite E1, E2. cbn. split; [|done]. rewrite lookup_insert. repeat case_decide; naive_solver.
  - split; [|done]. by rewrite decide_False by naive_solver.
Qed.

(** A holding that is there stays, with its freeze flag. *)
Definition flag_kept (V V' : View) : Prop := forall i a h, slotV i V a = Some h ->
  exists h', slotV i V' a = Some h' /\ ah_Frozen h' = ah_Frozen h.
Definition same_params (V V' : View) : Prop := forall i a, paramsV i V' a = paramsV i V a.

#[local] Instance flag_kept_preorder : PreOrder flag_kept.
Proof.
  split; [intros V i a h H; eauto|]. intros V1 V2 V3 H12 H23 i a h H.
  destruct (H12 _ _ _ H) as (h2 & H2 & E2). destruct (H23 _ _ _ H2) as (h3 & H3 & E3). exists h3. split; congruence.
Qed.
#[local] Instance same_params_preorder : PreOrder same_params.
Proof. split; [by intros V i a|]. intros V1 V2 V3 H12 H23 i a. by rewrite H23. Qed.

Lemma step_keeps_flag j s s' a d h h' : asmap (ad_Assets d) !! j = Some h -> ah_Frozen h' = ah_Frozen h ->
  asset_step s s' a d (setAssets d <[j := h']>) -> flag_kept (view s) (view s') /\ same_params (view s) (view s').
Proof.
  intros Hh Hf H. split; [|intros i x; by destruct (step_insert_slot i _ _ _ _ _ _ x H)].
  intros i x hx Hx. destruct (step_insert_slot i _ _ _ _ _ _ x H) as [-> _]. destruct (step_old j _ _ _ _ _ H) as [E _].
  case_decide as Hc; [|eauto]. destruct Hc as [-> ->]. exists h'. split; [done|]. congruence.
Qed.

(** ** The steps of a transfer *)

(** Units taken from, or put into, the holding of asset [j] of [a]. *)
Definition taken (n : Z) (V V' : View) (a : Address) (j : AssetIndex) : Prop := forall i x,
  slotV i V' x = slotV i V x \/
  (x = a /\ i = j /\ exists h, slotV i V x = Some h /\ n <= ah_Amount h /\
     slotV i V' x = Some (h <| ah_Amount := ah_Amount h - n |>)).
Definition given (n : Z) (V V' : View) (a : Address) (j : AssetIndex) : Prop := forall i x,
  slotV i V' x = slotV i V x \/
  (x = a /\ i = j /\ exists h, slotV i V x = Some h /\ 0 < n /\
     slotV i V' x = Some (h <| ah_Amount := ah_Amount h + n |>)).

Lemma takeOut_taken a j n b u s s' : wfV (view s) -> u64 n -> takeOut a j n b s = (Ok u, s') ->
  taken n (view s) (view s') a j /\ flag_kept (view s) (view s') /\ same_params (view s) (view s').
Proof.
  intros HV Hn [[_ ->]|(_ & d & h & y & Hh & _ & Hy & H)]%takeOut_Ok; [split_and!; [by left|done|done]|].
  apply OSub_Ok in Hy as [-> Hle]; [|eapply (HV _ _ (as_old _ _ _ _ _ H)), Hh|done].
  split; [|by eapply step_keeps_flag; [exact Hh| |exact H]]. intros i x. destruct (step_insert_slot i _ _ _ _ _ _ x H) as [-> _].
  case_decide as Hc; [|by left]. destruct Hc as [-> ->]. right. destruct (step_old j _ _ _ _ _ H) as [-> _].
  split_and!; eauto.
Qed.
Lemma putIn_given a j n b u s s' : wfV (view s) -> u64 n -> putIn a j n b s = (Ok u, s') ->
  given n (view s) (view s') a j /\ flag_kept (view s) (view s') /\ same_params (view s) (view s').
Proof.
  intros HV Hn [[_ ->]|(Hz & d & h & y & Hh & _ & Hy & H)]%putIn_Ok; [split_and!; [by left|done|done]|].
  apply OAdd_Ok in Hy as [-> _]; [|eapply (HV _ _ (as_old _ _ _ _ _ H)), Hh|done].
  split; [|by eapply step_keeps_flag; [exact Hh| |exact H]]. intros i x. destruct (step_insert_slot i _ _ _ _ _ _ x H) as [-> _].
  case_decide as Hc; [|by left]. destruct Hc as [-> ->]. right. destruct (step_old j _ _ _ _ _ H) as [-> _].
  split_and!; [done|done|]. exists h. unfold u64 in Hn. split_and!; [done|lia|done].
Qed.
Lemma optin_slots ct a u s s' : transfer_optin ct a s = (Ok u, s') ->
  (forall i x, x <> a -> slotV i (view s') x = slotV i (view s) x) /\
  flag_kept (view s) (view s') /\ same_params (view s) (view s').
Proof.
  intros [->|(d & fr & Hn & H)]%transfer_optin_Ok; [done|]. split_and!.
  - intros i x Hx. destruct (step_insert_slot i _ _ _ _ _ _ x H) as [-> _]. by rewrite decide_False by naive_solver.
  - intros i x h Hx. destruct (step_insert_slot i _ _ _ _ _ _ x H) as [-> _]. case_decide as Hc; [|eauto].
    destruct Hc as [-> ->]. destruct (step_old (ax_XferAsset ct) _ _ _ _ _ H) as [E _]. congruence.
  - intros i x. by destruct (step_insert_slot i _ _ _ _ _ _ x H).
Qed.

(** Freeze flags, when the holding is there before and after. *)
Definition flags_same (V V' : View) : Prop := forall i a h h',
  slotV i V a = Some h -> slotV i V' a = Some h' -> ah_Frozen h' = ah_Frozen h.

Lemma flag_kept_same V V' : flag_kept V V' -> flags_same V V'.
Proof. intros H i a h h' E E'. destruct (H _ _ _ E) as (h2 & E2 & <-). congruence. Qed.

Lemma transfer_close_slots ct a u s s' : wfV (view s) -> transfer_close ct a s = (Ok u, s') ->
  (exists n, forall i x, x <> a -> slotV i (view s') x = slotV i (view s) x \/
     (x = ax_AssetCloseTo ct /\ i = ax_XferAsset ct /\ exists h, slotV i (view s) x = Some h /\ 0 < n /\
        slotV i (view s') x = Some (h <| ah_Amount := ah_Amount h + n |>))) /\
  flags_same (view s) (view s') /\ same_params (view s) (view s').
Proof.
  intros HV (d & h & b & s1 & s2 & d2 & Hd & _ & Hh & H1 & H2 & _ & H3)%transfer_close_Ok.
  assert (u64 (ah_Amount h)) as Hu by (eapply (HV _ _ Hd), Hh).
  destruct (takeOut_taken _ _ _ _ _ _ _ HV Hu H1) as (T & F1 & P1).
  assert (wfV (view s1)) as HV1 by (by eapply takeOut_quiet).
  destruct (putIn_given _ _ _ _ _ _ _ HV1 Hu H2) as (G & F2 & P2).
  split_and!.
  - exists (ah_Amount h). intros i x Hx. rewrite (step_slot i _ _ _ _ _ x H3), decide_False by done.
    destruct (T i x) as [<-|(? & _)]; [apply G|done].
  - intros i x hx hx' Hx. rewrite (step_slot i _ _ _ _ _ x H3). case_decide as Hc.
    + cbn. intros [Hne E]%lookup_delete_Some. subst x. destruct (step_old i _ _ _ _ _ H3) as [E0 _]. rewrite <- E0 in E.
      revert Hx E. apply flag_kept_same. by etrans.
    + intros E. revert Hx E. apply flag_kept_same. by etrans.
  - intros i x. rewrite (step_params i _ _ _ _ _ x H3). case_decide; [|by rewrite P2, P1].
    destruct (step_old i _ _ _ _ _ H3) as [_ E]. subst x. rewrite <- P1, <- P2. by rewrite E.
Qed.

(** ** The asset operations *)

Lemma assetTransfer_slots tx u s s' : wfV (view s) -> u64 (ax_AssetAmount (tx_AssetTransfer tx)) ->
  tx_Type tx = AssetTransferTx -> assetTransfer_apply (tx_AssetTransfer tx) (tx_Header tx) s = (Ok u, s') ->
  (forall i x, x <> hdr_Sender (tx_Header tx) -> slotV i (view s') x <> slotV i (view s) x ->
     holding_change tx (view s) x i (slotV i (view s) x) (slotV i (view s') x)) /\
  flags_same (view s) (view s') /\ same_params (view s) (view s').
Proof.
  set (ct := tx_AssetTransfer tx). set (snd := hdr_Sender _).
  intros HV Hu Ht (src & cb & s1 & s2 & s3 & H0 & H1 & H2 & H3 & H4)%assetTransfer_Ok.
  apply transfer_source_Ok in H0 as [_ H0].
  assert (wfV (view s1) /\ (cb = true -> s1 = s) /\
    (forall i x, x <> src -> slotV i (view s1) x = slotV i (view s) x) /\
    flag_kept (view s) (view s1) /\ same_params (view s) (view s1)) as (HV1 & Hcb & O & F0 & P0).
  { destruct H1 as [->|[-> H1]]; [done|]. split; [by eapply transfer_optin_quiet|]. split; [done|by eapply optin_slots]. }
  destruct (takeOut_taken _ _ _ _ _ _ _ HV1 Hu H2) as (T & F1 & P1).
  assert (wfV (view s2)) as HV2 by (by eapply takeOut_quiet).
  destruct (putIn_given _ _ _ _ _ _ _ HV2 Hu H3) as (G & F2 & P2).
  assert (wfV (view s3)) as HV3 by (by eapply putIn_quiet).
  assert (flag_kept (view s) (view s3)) as F by (by do 2 (etrans; [done|])).
  assert (same_params (view s) (view s3)) as P by (by do 2 (etrans; [done|])).
  destruct H0 as [[_ [= -> ->]]|(Hz & [= -> ->] & c & d & q & Hc & Hq & Hcl & Hnz)].
  - (* a transfer of the sender *)
    assert (forall i x, x <> snd -> slotV i (view s3) x = slotV i (view s) x \/
      (x = ax_AssetReceiver ct /\ i = ax_XferAsset ct /\ exists h, slotV i (view s) x = Some h /\
         0 < ax_AssetAmount ct /\ slotV i (view s3) x = Some (h <| ah_Amount := ah_Amount h + ax_AssetAmount ct |>))) as G'.
    { intros i x Hx. destruct (T i x) as [E|[? _]]; [|done]. destruct (G i x) as [E2|(? & ? & h & E2 & ?)].
      - left. by rewrite E2, E, O.
      - right. split_and!; [done..|]. exists h. rewrite <- O, <- E by done. done. }
    destruct H4 as [->|(_ & _ & H4)].
    + split_and!; [|by apply flag_kept_same|done]. intros i x Hx Hne.
      destruct (G' i x Hx) as [?|(-> & -> & h & E1 & ? & E2)]; [done|]. rewrite E1, E2.
      apply hc_receive; [done|done|by left|cbn; lia].
    + destruct (transfer_close_slots _ _ _ _ _ HV3 H4) as ((n & C) & F3 & P3). split_and!; [| |by etrans].
      * intros i x Hx Hne.
        destruct (G' i x Hx) as [E|(Ex & Ei & h & E1 & ? & E2)], (C i x Hx) as [E'|(Ey & Ej & h3 & E3 & ? & E4)].
        -- congruence.
        -- subst i. rewrite E in E3. rewrite E3, E4. apply hc_receive; [done|done|by right|cbn; lia].
        -- subst i. rewrite E1, E', E2. apply hc_receive; [done|done|by left|cbn; lia].
        -- subst i. rewrite E2 in E3. injection E3 as <-. rewrite E1, E4.
           apply (hc_receive tx _ _ _ h); [done|done|by left|cbn; lia].
      * intros i x h h' E E'. destruct (F _ _ _ E) as (h3 & E3 & <-). by eapply F3.
  - (* a clawback *)
    rewrite (Hcb eq_refl) in *. destruct H4 as [->|(_ & [=] & _)]. split_and!; [|by apply flag_kept_same|done].
    intros i x Hx Hne.
    assert (role ap_Clawback (view s) (ax_XferAsset ct) snd) as Hr.
    { split; [done|]. exists c, q. split; [|done]. unfold paramsV. by rewrite Hc. }
    destruct (T i x) as [E|(Ex & Ei & h & E1 & ? & E2)], (G i x) as [E'|(Ey & Ej & h2 & E3 & ? & E4)].
    + congruence.
    + rewrite E in E3. subst i. rewrite E3, E4. apply hc_receive; [done|done|by left|cbn; lia].
    + subst i. rewrite E', E1, E2. apply hc_clawback; try done. by rewrite Ex.
    + destruct Hne. rewrite E2 in E3. injection E3 as <-. rewrite E1, E4. f_equal. destruct h. cbn. f_equal. lia.
Qed.

Lemma assetFreeze_slots tx u s s' : tx_Type tx = AssetFreezeTx ->
  assetFreeze_apply (tx_AssetFreeze tx) (tx_Header tx) s = (Ok u, s') ->
  (forall i x, slotV i (view s') x = slotV i (view s) x \/
     (af_FreezeAccount (tx_AssetFreeze tx) = x /\ af_FreezeAsset (tx_AssetFreeze tx) = i /\
      role ap_Freeze (view s) i (hdr_Sender (tx_Header tx)) /\ exists h, slotV i (view s) x = Some h /\
      slotV i (view s') x = Some (h <| ah_Frozen := af_AssetFrozen (tx_AssetFreeze tx) |>))) /\
  same_params (view s) (view s').
Proof.
  intros Ht (d & c & dc & q & hd & Hh & Hq & Hc & Hf & Hnz & H)%assetFreeze_Ok. split.
  - intros i x. destruct (step_insert_slot i _ _ _ _ _ _ x H) as [-> _]. case_decide as Hi; [|by left].
    destruct Hi as [-> ->]. right. destruct (step_old (af_FreezeAsset (tx_AssetFreeze tx)) _ _ _ _ _ H) as [-> _].
    split_and!; [done|done| |by eauto]. split; [congruence|]. exists c, q. split; [|done]. unfold paramsV. by rewrite Hc.
  - intros i x. by destruct (step_insert_slot i _ _ _ _ _ _ x H).
Qed.

(** An asset-configuration transaction changes one account, for one asset. *)
Lemma create_changes tx ctr s s' d : tx_Type tx = AssetConfigTx -> ac_ConfigAsset (tx_AssetConfig tx) = 0 ->
  asmap (ad_AssetParams d) !! wrap64 (ctr + 1) = None ->
  asset_step s s' (hdr_Sender (tx_Header tx)) d (create_data (tx_AssetConfig tx) (wrap64 (ctr + 1)) d) ->
  authorised_changes tx ctr (view s) (view s').
Proof.
  intros Ht Hz Hn H. split.
  - intros i x Hne. rewrite (step_params i _ _ _ _ _ x H) in *. case_decide; [|done]. subst x.
    destruct (step_old i _ _ _ _ _ H) as [_ EO]. rewrite EO in *. cbn in *. rewrite lookup_insert in *.
    case_decide; [|done]. subst i. rewrite Hn. by apply pc_create.
  - intros i x Hx Hne. by rewrite (step_slot i _ _ _ _ _ x H), decide_False in Hne.
  - intros i x h h' E E' Hne. rewrite (step_slot i _ _ _ _ _ x H) in E'. case_decide; [|congruence]. subst x.
    destruct (step_old i _ _ _ _ _ H) as [EO _]. rewrite EO in E. cbn in E'. rewrite lookup_insert in E'.
    case_decide; [by apply fc_create|]. assert (Some h = Some h') by (rewrite <- E, <- E'; reflexivity). congruence.
Qed.

Lemma destroy_changes tx ctr s s' c d q : tx_Type tx = AssetConfigTx ->
  asmap (ad_AssetParams d) !! ac_ConfigAsset (tx_AssetConfig tx) = Some q ->
  ap_Manager q = hdr_Sender (tx_Header tx) -> ap_Manager q <> zero32 ->
  ac_AssetParams (tx_AssetConfig tx) = AssetParams_zero -> holding (ac_ConfigAsset (tx_AssetConfig tx)) d = ap_Total q ->
  asset_step s s' c d (setParams (setAssets d (delete (ac_ConfigAsset (tx_AssetConfig tx))))
                         (delete (ac_ConfigAsset (tx_AssetConfig tx)))) ->
  authorised_changes tx ctr (view s) (view s').
Proof.
  intros Ht Hq Hm Hnz Hcz Htot H. split.
  - intros i x Hne. rewrite (step_params i _ _ _ _ _ x H) in *. case_decide; [|done]. subst x.
    destruct (step_old i _ _ _ _ _ H) as [_ EO]. rewrite EO in *. cbn in *. rewrite lookup_delete in *.
    case_decide; [|done]. subst i. rewrite Hq. apply pc_destroy; try done; [congruence|].
    unfold holdingV. by rewrite (as_old _ _ _ _ _ H).
  - intros i x Hx Hne. rewrite (step_slot i _ _ _ _ _ x H) in *. case_decide; [|done]. subst x.
    destruct (step_old i _ _ _ _ _ H) as [EO EP]. rewrite EO in *. cbn in *. rewrite lookup_delete in *.
    case_decide; [|done]. subst i. unfold holding in Htot.
    destruct (asmap (ad_Assets d) !! _) as [h|] eqn:E; [|done]. rewrite <- EP in Hq.
    by eapply (hc_destroy tx _ _ _ h q); try done; congruence.
  - intros i x h h' E E' Hne. rewrite (step_slot i _ _ _ _ _ x H) in E'. case_decide; [|congruence]. subst x.
    destruct (step_old i _ _ _ _ _ H) as [EO _]. rewrite EO in E. cbn in E'. rewrite lookup_delete in E'.
    case_decide; [done|]. assert (Some h = Some h') by (rewrite <- E, <- E'; reflexivity). congruence.
Qed.

Lemma reconfigure_changes tx ctr s s' c d q : tx_Type tx = AssetConfigTx ->
  asmap (ad_AssetParams d) !! ac_ConfigAsset (tx_AssetConfig tx) = Some q ->
  ap_Manager q = hdr_Sender (tx_Header tx) -> ap_Manager q <> zero32 ->
  asset_step s s' c d (setParams (setAssets d id)
    <[ac_ConfigAsset (tx_AssetConfig tx) := reconfigure q (ac_AssetParams (tx_AssetConfig tx))]>) ->
  authorised_changes tx ctr (view s) (view s').
Proof.
  intros Ht Hq Hm Hnz H.
  assert (forall i x, slotV i (view s') x = slotV i (view s) x) as HS.
  { intros i x. rewrite (step_slot i _ _ _ _ _ x H). case_decide; [|done]. subst x.
    by destruct (step_old i _ _ _ _ _ H) as [-> _]. }
  split.
  - intros i x Hne. rewrite (step_params i _ _ _ _ _ x H) in *. case_decide; [|done]. subst x.
    destruct (step_old i _ _ _ _ _ H) as [_ EO]. rewrite EO in *. cbn in *. rewrite lookup_insert in *.
    case_decide; [|done]. subst i. rewrite Hq. apply pc_update; congruence.
  - intros i x _ Hne. by rewrite HS in Hne.
  - intros i x h h' E E' Hne. rewrite HS in E'. congruence.
Qed.

Lemma assetConfig_changes tx ctr u s s' : tx_Type tx = AssetConfigTx ->
  assetConfig_apply (tx_AssetConfig tx) (tx_Header tx) ctr s = (Ok u, s') ->
  authorised_changes tx ctr (view s) (view s').
Proof.
  intros Ht [(Hz & d & Hn & H)|(Hz & c & d & q & Hq & Hm & Hnz & [(Hcz & Htot & H)|(Hcz & H)])]%assetConfig_Ok.
  - by eapply create_changes.
  - by eapply destroy_changes.
  - by eapply reconfigure_changes.
Qed.

Lemma assetTransfer_changes tx ctr u s s' : wfV (view s) -> u64 (ax_AssetAmount (tx_AssetTransfer tx)) ->
  tx_Type tx = AssetTransferTx -> assetTransfer_apply (tx_AssetTransfer tx) (tx_Header tx) s = (Ok u, s') ->
  authorised_changes tx ctr (view s) (view s').
Proof.
  intros HV Hu Ht H. destruct (assetTransfer_slots tx u s s' HV Hu Ht H) as (H1 & H2 & H3). split; [|done|].
  - intros i a Hne. by rewrite H3 in Hne.
  - intros i a h h' E E' Hne. by rewrite (H2 _ _ _ _ E E') in Hne.
Qed.

Lemma assetFreeze_changes tx ctr u s s' : tx_Type tx = AssetFreezeTx ->
  assetFreeze_apply (tx_AssetFreeze tx) (tx_Header tx) s = (Ok u, s') -> authorised_changes tx ctr (view s) (view s').
Proof.
  intros Ht H. destruct (assetFreeze_slots tx u s s' Ht H) as [H1 H2]. split.
  - intros i a Hne. by rewrite H2 in Hne.
  - intros i a _ Hne. destruct (H1 i a) as [?|(Ha & Hi & Hr & h & E & E')]; [done|]. rewrite E, E'. by apply hc_freeze.
  - intros i a h h' E E' Hne. destruct (H1 i a) as [Es|(Ha & Hi & Hr & h2 & E2 & E2')]; [congruence|].
    assert (h2 = h) as -> by congruence. rewrite E2' in E'. injection E' as <-. by apply fc_freeze.
Qed.

(** The fee, payments and key registrations change neither. *)
Lemma same_maps_slots V V' : rel_view same_maps V V' -> forall i a, slotV i V' a = slotV i V a /\ paramsV i V' a = paramsV i V a.
Proof.
  intros H i a. specialize (H a). unfold slotV, paramsV. destruct H as [d d' [H1 H2]|]; [|done].
  cbn. by rewrite H1, H2.
Qed.
Lemma changes_before tx ctr V V1 V' : rel_view same_maps V V1 -> authorised_changes tx ctr V1 V' -> authorised_changes tx ctr V V'.
Proof.
  intros H [H1 H2 H3]. pose proof (λ i a, proj1 (same_maps_slots _ _ H i a)) as ES.
  pose proof (λ i a, proj2 (same_maps_slots _ _ H i a)) as EP.
  assert (forall pick i x, role pick V1 i x -> role pick V i x) as ER.
  { intros pick i x (Hx & c & q & Hc & Hq). split; [done|]. exists c, q. by rewrite <- EP. }
  split.
  - intros i a Hne. rewrite <- EP in *. destruct (H1 i a Hne); [by apply pc_create|by apply pc_update|].
    apply pc_destroy; try done. by rewrite <- (same_maps_holdingV i _ _ a H).
  - intros i a Ha Hne. rewrite <- ES in *. destruct (H2 i a Ha Hne).
    + apply hc_freeze; auto.
    + apply hc_clawback; auto.
    + by apply hc_receive.
    + by eapply hc_destroy; rewrite <- ?EP.
  - intros i a h h' E E' Hne. rewrite <- ES in E. destruct (H3 i a h h' E E' Hne); [apply fc_freeze; auto|by apply fc_create].
Qed.

(** C4: Authority over assets.  Between the states before and after a successful [Apply]:
    the parameters of an asset change only when an asset-configuration transaction creates
    it, under the next index and owned by its sender, or when the asset's manager
    reconfigures it or (its creator holding every unit) destroys it; the holding of an
    account that is not the sender changes only when the asset's freeze address sets its
    freeze flag, when the asset's clawback address takes the transferred amount, when a
    transfer or a close-out pays units in, or when the manager destroys the asset and the
    account is its creator; and a holding's freeze flag, the sender's own included,
    changes only by a freeze transaction of the asset's freeze address, or because the
    account's slot is the one a creation just made. *)
Theorem Apply_asset_authority tx spec ctr ad s s' :
  good s -> wf_txn tx -> Apply tx spec ctr s = (Ok ad, s') -> authorised_changes tx ctr (view s) (view s').
Proof.
  intros Hg Hw H. pose proof (Apply_shape _ _ _ _ _ _ Hg Hw H) as (s1 & _ & Hg1 & Ho & HR).
  destruct Hg as [HV Hl Hp]. pose proof (actions_same_maps _ _ Hp Hl _ _ _ _ HV HR) as Hsm.
  apply (changes_before _ _ _ _ _ Hsm). destruct Ho as [->|[[Ht Ho]|[[Ht Ho]|[Ht Ho]]]].
  - split; [done|done|congruence].
  - by eapply assetConfig_changes.
  - eapply assetTransfer_changes; [apply Hg1|apply Hw|done|done].
  - by eapply assetFreeze_changes.
Qed.
End Authority.
