(* ===== verification/Bookkeeping.v ===== *)
(** Blocks (src/data/bookkeeping/block.go) and the signed transactions they hold
    (src/data/transactions/signedtxn.go, logicsig.go, src/crypto/multisig.go).

    The rewards schedule [NextRewardsState], the protocol-upgrade state machine
    [applyUpgradeVote], [MakeBlock] and [PreCheck], the encoding of transactions in
    blocks and the splitting of a payset into groups.

    Hashes of headers and paysets are parameters: [crypto.HashObj] hashes the
    output of a third-party encoder.  [config.Consensus] is the argument
    [consensus] of the functions that read it. *)

From S2P Require Import Prelude Config Basics Transactions.

(** ** Signed transactions *)

Record MultisigSubsig := mkMultisigSubsig { ms_Key : bytes; ms_Sig : bytes }.
#[export] Instance MultisigSubsig_eq_dec : EqDecision MultisigSubsig.
Proof. solve_decision. Defined.

Record MultisigSig := mkMultisigSig {
  msig_Version : Z;
  msig_Threshold : Z;
  msig_Subsigs : option (list MultisigSubsig)   (* None: a nil slice *)
}.
#[export] Instance MultisigSig_eq_dec : EqDecision MultisigSig.
Proof. solve_decision. Defined.

Definition msig_Blank (msig : MultisigSig) : bool :=
  if negb (msig_Version msig =? 0) then false
  else if negb (msig_Threshold msig =? 0) then false
  else bool_decide (msig_Subsigs msig = None).

Definition msig_Equal (msig other : MultisigSig) : bool :=
  let subs m := default [] (msig_Subsigs m) in
  if negb (msig_Version msig =? msig_Version other) then false
  else if negb (msig_Threshold msig =? msig_Threshold other) then false
  else if negb (length (subs msig) =? length (subs other))%nat then false
  else forallb (λ '(x, y), bool_decide (x = y)) (zip (subs msig) (subs other)).

Record LogicSig := mkLogicSig {
  lsig_Logic : bytes;
  lsig_Sig : bytes;
  lsig_Msig : MultisigSig;
  lsig_Args : list (option bytes)   (* None: a nil slice *)
}.
#[export] Instance LogicSig_eq_dec : EqDecision LogicSig.
Proof. solve_decision. Defined.

Definition lsig_Blank (lsig : LogicSig) : bool := bool_decide (length (lsig_Logic lsig) = 0%nat).
Definition lsig_Len (lsig : LogicSig) : Z :=
  foldl (λ n arg, n + zlen (default [] arg)) (zlen (lsig_Logic lsig)) (lsig_Args lsig).

Definition lsig_Equal (lsig b : LogicSig) : bool :=
  if bool_decide (length (lsig_Logic lsig) = 0%nat) && bool_decide (length (lsig_Logic b) = 0%nat) then true
  else
    let sigs := bool_decide (lsig_Sig lsig = lsig_Sig b) && msig_Equal (lsig_Msig lsig) (lsig_Msig b) in
    if negb sigs then false
    else if negb (length (lsig_Args lsig) =? length (lsig_Args b))%nat then false
    else forallb (λ '(x, y), bool_decide (default [] x = default [] y)) (zip (lsig_Args lsig) (lsig_Args b)).

Record SignedTxn := mkSignedTxn {
  stx_Sig : bytes;
  stx_Msig : MultisigSig;
  stx_Lsig : LogicSig;
  stx_Txn : Transaction;
  stx_cachedEncodingLen : Z
}.
#[export] Instance SignedTxn_eq_dec : EqDecision SignedTxn.
Proof. solve_decision. Defined.
#[export] Instance SignedTxn_eta : Eta SignedTxn := λ r,
  mkSignedTxn (stx_Sig r) (stx_Msig r) (stx_Lsig r) (stx_Txn r) (stx_cachedEncodingLen r).

Record SignedTxnWithAD := mkSignedTxnWithAD { sad_SignedTxn : SignedTxn; sad_ApplyData : ApplyData }.
#[export] Instance SignedTxnWithAD_eq_dec : EqDecision SignedTxnWithAD.
Proof. solve_decision. Defined.

Record SignedTxnInBlock := mkSignedTxnInBlock {
  stb_WithAD : SignedTxnWithAD;
  stb_HasGenesisID : bool;
  stb_HasGenesisHash : bool
}.
#[export] Instance SignedTxnInBlock_eq_dec : EqDecision SignedTxnInBlock.
Proof. solve_decision. Defined.

(** An application transaction of the fork: [Tx] is a byte string. *)
Record SignedSingleTxnInBlock := mkSignedSingleTxnInBlock {
  ssb_Tx : bytes;
  ssb_HasGenesisID : bool;
  ssb_HasGenesisHash : bool
}.
#[export] Instance SignedSingleTxnInBlock_eq_dec : EqDecision SignedSingleTxnInBlock.
Proof. solve_decision. Defined.

Definition maxTxnBytesForPriority : Z := 2 ^ 20.

Section Signed.
Variable computeEncodingLen : SignedTxn -> Z.

Definition GetEncodedLength (s : SignedTxn) : Z :=
  if stx_cachedEncodingLen s =? 0 then computeEncodingLen s else stx_cachedEncodingLen s.

Definition Priority (s : SignedTxn) : result Z :=
  let encodingLen := GetEncodedLength s in
  if encodingLen =? 0 then Panic "bug: SignedTxn.encodingLen is zero"
  else Ok (MulSaturate (hdr_Fee (tx_Header (stx_Txn s))) (maxTxnBytesForPriority / encodingLen)).
End Signed.

Definition stx_ResetCaches (s : SignedTxn) : SignedTxn :=
  s <| stx_cachedEncodingLen := 0 |> <| stx_Txn ::= ResetCaches |>.

(** ** Block headers *)

Record RewardsState := mkRewardsState {
  rs_FeeSink : Address;
  rs_RewardsPool : Address;
  rs_RewardsLevel : Z;
  rs_RewardsRate : Z;
  rs_RewardsResidue : Z;
  rs_RewardsRecalculationRound : Round
}.
#[export] Instance RewardsState_eq_dec : EqDecision RewardsState.
Proof. solve_decision. Defined.
#[export] Instance RewardsState_eta : Eta RewardsState := λ r,
  mkRewardsState (rs_FeeSink r) (rs_RewardsPool r) (rs_RewardsLevel r) (rs_RewardsRate r)
    (rs_RewardsResidue r) (rs_RewardsRecalculationRound r).

Record UpgradeVote := mkUpgradeVote { uv_UpgradePropose : string; uv_UpgradeApprove : bool }.
#[export] Instance UpgradeVote_eq_dec : EqDecision UpgradeVote.
Proof. solve_decision. Defined.

Record UpgradeState := mkUpgradeState {
  us_CurrentProtocol : string;
  us_NextProtocol : string;
  us_NextProtocolApprovals : Z;
  us_NextProtocolVoteBefore : Round;
  us_NextProtocolSwitchOn : Round
}.
#[export] Instance UpgradeState_eq_dec : EqDecision UpgradeState.
Proof. solve_decision. Defined.
#[export] Instance UpgradeState_eta : Eta UpgradeState := λ r,
  mkUpgradeState (us_CurrentProtocol r) (us_NextProtocol r) (us_NextProtocolApprovals r)
    (us_NextProtocolVoteBefore r) (us_NextProtocolSwitchOn r).

Record BlockHeader := mkBlockHeader {
  bh_Round : Round;
  bh_Branch : Digest;
  bh_Seed : bytes;
  bh_TxnRoot : Digest;
  bh_TimeStamp : Z;   (* int64 *)
  bh_GenesisID : string;
  bh_GenesisHash : Digest;
  bh_RewardsState : RewardsState;
  bh_UpgradeState : UpgradeState;
  bh_UpgradeVote : UpgradeVote;
  bh_TxnCounter : Z
}.
#[export] Instance BlockHeader_eq_dec : EqDecision BlockHeader.
Proof. solve_decision. Defined.
#[export] Instance BlockHeader_eta : Eta BlockHeader := λ r,
  mkBlockHeader (bh_Round r) (bh_Branch r) (bh_Seed r) (bh_TxnRoot r) (bh_TimeStamp r)
    (bh_GenesisID r) (bh_GenesisHash r) (bh_RewardsState r) (bh_UpgradeState r) (bh_UpgradeVote r)
    (bh_TxnCounter r).

Record Block := mkBlock {
  blk_BlockHeader : BlockHeader;
  blk_Payset : list SignedTxnInBlock;
  blk_PayProxySet : list SignedSingleTxnInBlock
}.
#[export] Instance Block_eta : Eta Block := λ r,
  mkBlock (blk_BlockHeader r) (blk_Payset r) (blk_PayProxySet r).

Definition bh_CurrentProtocol (bh : BlockHeader) : string := us_CurrentProtocol (bh_UpgradeState bh).
Definition bh_RewardsLevel (bh : BlockHeader) : Z := rs_RewardsLevel (bh_RewardsState bh).
Definition bh_FeeSink (bh : BlockHeader) : Address := rs_FeeSink (bh_RewardsState bh).
Definition bh_RewardsPool (bh : BlockHeader) : Address := rs_RewardsPool (bh_RewardsState bh).

(** ** Rewards *)

Definition NextRewardsState (s : RewardsState) (nextRound : Round) (nextProto : ConsensusParams)
    (incentivePoolBalance : MicroAlgos) (totalRewardUnits : Z) : result RewardsState :=
  res ← (if nextRound =? rs_RewardsRecalculationRound s then
           let maxSpentOver :=
             if cp_PendingResidueRewards nextProto then
               let '(sum, overflowed) := OAdd (cp_MinBalance nextProto) (rs_RewardsResidue s) in
               if overflowed then incentivePoolBalance else sum
             else cp_MinBalance nextProto in
           let '(diff, overflowed) := OSub incentivePoolBalance maxSpentOver in
           let newRate := if overflowed then 0 else diff in
           if cp_RewardsRateRefreshInterval nextProto =? 0 then Panic "integer divide by zero"
           else Ok (s <| rs_RewardsRate := newRate / cp_RewardsRateRefreshInterval nextProto |>
                      <| rs_RewardsRecalculationRound :=
                           wrap64 (nextRound + cp_RewardsRateRefreshInterval nextProto) |>)
         else Ok s);
  if totalRewardUnits =? 0 then Ok res
  else
    let '(rewardsWithResidue, ot) := ot_Add false (rs_RewardsRate s) (rs_RewardsResidue s) in
    let '(nextRewardLevel, ot) := ot_Add ot (rs_RewardsLevel s) (rewardsWithResidue / totalRewardUnits) in
    let nextResidue := rewardsWithResidue mod totalRewardUnits in
    if ot then Ok res
    else Ok (res <| rs_RewardsLevel := nextRewardLevel |> <| rs_RewardsResidue := nextResidue |>).

(** ** Protocol upgrades *)

Definition clearProposal (s : UpgradeState) : UpgradeState :=
  s <| us_NextProtocol := "" |> <| us_NextProtocolApprovals := 0 |>
    <| us_NextProtocolVoteBefore := 0 |> <| us_NextProtocolSwitchOn := 0 |>.

(** Apply proposal of upgrade to new protocol. *)
Definition applyPropose (params : ConsensusParams) (s : UpgradeState) (r : Round) (vote : UpgradeVote)
    : result UpgradeState :=
  if bool_decide (uv_UpgradePropose vote <> "") then
    _ ← guardR (bool_decide (us_NextProtocol s = ""))
          (Errorf "computeUpgradeState: new proposal during existing proposal");
    _ ← guardR (negb (cp_MaxVersionStringLen params <? strlen (uv_UpgradePropose vote)))
          (Errorf "proposed protocol version too long");
    Ok (s <| us_NextProtocol := uv_UpgradePropose vote |> <| us_NextProtocolApprovals := 0 |>
          <| us_NextProtocolVoteBefore := wrap64 (r + cp_UpgradeVoteRounds params) |>
          <| us_NextProtocolSwitchOn :=
               wrap64 (wrap64 (r + cp_UpgradeVoteRounds params) + cp_UpgradeWaitRounds params) |>)
  else Ok s.

(** Apply approval of existing protocol upgrade. *)
Definition applyApprove (s : UpgradeState) (r : Round) (vote : UpgradeVote) : result UpgradeState :=
  if uv_UpgradeApprove vote then
    _ ← guardR (bool_decide (us_NextProtocol s <> ""))
          (Errorf "computeUpgradeState: approval without an active proposal");
    _ ← guardR (r <? us_NextProtocolVoteBefore s)
          (Errorf "computeUpgradeState: approval after vote deadline");
    Ok (s <| us_NextProtocolApprovals ::= λ n, wrap64 (n + 1) |>)
  else Ok s.

(** Clear out failed proposal. *)
Definition clearFailed (params : ConsensusParams) (s : UpgradeState) (r : Round) : UpgradeState :=
  if (r =? us_NextProtocolVoteBefore s) && (us_NextProtocolApprovals s <? cp_UpgradeThreshold params)
  then clearProposal s else s.

(** Switch over to new approved protocol. *)
Definition switchOver (s : UpgradeState) (r : Round) : UpgradeState :=
  if r =? us_NextProtocolSwitchOn s
  then clearProposal (s <| us_CurrentProtocol := us_NextProtocol s |>) else s.

Definition applyUpgradeVote (consensus : gmap string ConsensusParams) (s : UpgradeState) (r : Round)
    (vote : UpgradeVote) : result UpgradeState :=
  match consensus !! us_CurrentProtocol s with
  | None => Err (Errorf "computeUpgradeState: unsupported protocol")
  | Some params =>
    s ← applyPropose params s r vote;
    s ← applyApprove s r vote;
    Ok (switchOver (clearFailed params s r) r)
  end.

Definition NextVersionInfo (consensus : gmap string ConsensusParams) (bh : BlockHeader)
    : string * Round * bool :=
  let us := bh_UpgradeState bh in
  let '(ver, rnd) :=
    if (us_NextProtocolVoteBefore us <=? bh_Round bh) && (bh_Round bh <? us_NextProtocolSwitchOn us)
    then (us_NextProtocol us, us_NextProtocolSwitchOn us)
    else (us_CurrentProtocol us, wrap64 (bh_Round bh + 1)) in
  (ver, rnd, bool_decide (is_Some (consensus !! ver))).

Section Blocks.
Variable consensus : gmap string ConsensusParams.
Variable hashHeader : BlockHeader -> Digest.
Variable Commit : bool -> list SignedTxnInBlock -> Digest.

(** The vote [MakeBlock] casts: [proposals] lists the keys of [ApprovedUpgrades]
    in the order the map iteration visits them. *)
Definition makeUpgradeVote (prev : BlockHeader) (prevParams : ConsensusParams)
    (proposals : list string) (round : Round) : UpgradeVote :=
  let approved k := default false (cp_ApprovedUpgrades prevParams !! k) in
  let vote :=
    if bool_decide (us_NextProtocol (bh_UpgradeState prev) = "") then
      match List.find approved proposals with
      | Some k => mkUpgradeVote k true
      | None => mkUpgradeVote "" false
      end
    else mkUpgradeVote "" false in
  if (round <? us_NextProtocolVoteBefore (bh_UpgradeState prev))
     && approved (us_NextProtocol (bh_UpgradeState prev))
  then mkUpgradeVote (uv_UpgradePropose vote) true else vote.

(** The timestamp of a new block: the clock, clamped to the allowed window.
    [int64] addition wraps; [wrapS64] is its two's complement reduction. *)
Definition wrapS64 (z : Z) : Z := (z + 2 ^ 63) mod 2 ^ 64 - 2 ^ 63.

Definition clampTime (prev : BlockHeader) (params : ConsensusParams) (now : Z) : Z :=
  if 0 <? bh_TimeStamp prev then
    if now <? bh_TimeStamp prev then bh_TimeStamp prev
    else if wrapS64 (bh_TimeStamp prev + cp_MaxTimestampIncrement params) <? now
    then wrapS64 (bh_TimeStamp prev + cp_MaxTimestampIncrement params)
    else now
  else now.

Definition RewardsState_zero : RewardsState := mkRewardsState zero32 zero32 0 0 0 0.

Definition MakeBlock (proposals : list string) (now : Z) (prev : BlockHeader) : result Block :=
  let round := wrap64 (bh_Round prev + 1) in
  match consensus !! bh_CurrentProtocol prev with
  | None => Panic "MakeBlock: previous protocol not supported"
  | Some prevParams =>
    let upgradeVote := makeUpgradeVote prev prevParams proposals round in
    match applyUpgradeVote consensus (bh_UpgradeState prev) round upgradeVote with
    | Err _ => Panic "MakeBlock: constructed invalid upgrade vote"
    | Panic m => Panic m
    | Ok upgradeState =>
      match consensus !! us_CurrentProtocol upgradeState with
      | None => Panic "MakeBlock: next protocol not supported"
      | Some params =>
        Ok (mkBlock
              (mkBlockHeader round (hashHeader prev) zero32
                 (Commit (cp_PaysetCommitFlat params) []) (clampTime prev params now)
                 (bh_GenesisID prev) (bh_GenesisHash prev) RewardsState_zero
                 upgradeState upgradeVote 0)
              [] [])
      end
    end
  end.

Definition PreCheck (bh prev : BlockHeader) : result unit :=
  match consensus !! bh_CurrentProtocol bh with
  | None => Err (Errorf "BlockHeader.PreCheck: protocol not supported")
  | Some params =>
    let round := wrap64 (bh_Round prev + 1) in
    _ ← guardR (round =? bh_Round bh) (Errorf "block round incorrect");
    _ ← guardR (bool_decide (bh_Branch bh = hashHeader prev)) (Errorf "block branch incorrect");
    nextUpgradeState ← applyUpgradeVote consensus (bh_UpgradeState prev) round (bh_UpgradeVote bh);
    _ ← guardR (bool_decide (nextUpgradeState = bh_UpgradeState bh)) (Errorf "UpgradeState mismatch");
    _ ← (if 0 <? bh_TimeStamp prev then
           if bh_TimeStamp bh <? bh_TimeStamp prev then Err (Errorf "bad timestamp")
           else if wrapS64 (bh_TimeStamp prev + cp_MaxTimestampIncrement params) <? bh_TimeStamp bh
           then Err (Errorf "bad timestamp: max increment")
           else Ok tt
         else Ok tt);
    _ ← guardR (bool_decide (bh_GenesisID bh <> "")) (Errorf "genesis ID missing");
    _ ← guardR (negb (bool_decide (bh_GenesisID prev <> "")
                      && bool_decide (bh_GenesisID prev <> bh_GenesisID bh))) (Errorf "genesis ID mismatch");
    if cp_SupportGenesisHash params then
      _ ← guardR (bool_decide (bh_GenesisHash bh <> zero32)) (Errorf "genesis hash missing");
      guardR (negb (bool_decide (bh_GenesisHash prev <> zero32)
                    && bool_decide (bh_GenesisHash prev <> bh_GenesisHash bh))) (Errorf "genesis hash mismatch")
    else guardR (bool_decide (bh_GenesisHash bh = zero32)) (Errorf "genesis hash not allowed")
  end.

(** [config.Consensus[v]] without the [ok] check: the zero value when absent. *)
Definition protoOf (v : string) : ConsensusParams := default ConsensusParams_zero (consensus !! v).

Definition ContentsMatchHeader (block : Block) : bool :=
  let proto := protoOf (bh_CurrentProtocol (blk_BlockHeader block)) in
  bool_decide (Commit (cp_PaysetCommitFlat proto) (blk_Payset block) = bh_TxnRoot (blk_BlockHeader block)).

(** ** Transactions in a block *)

Definition setGenesisID (st : SignedTxn) (id : string) : SignedTxn :=
  st <| stx_Txn ::= λ t, t <| tx_Header ::= λ h, h <| hdr_GenesisID := id |> |> |>.
Definition setGenesisHash (st : SignedTxn) (d : Digest) : SignedTxn :=
  st <| stx_Txn ::= λ t, t <| tx_Header ::= λ h, h <| hdr_GenesisHash := d |> |> |>.
Definition stx_Header (st : SignedTxn) : Header := tx_Header (stx_Txn st).

Definition DecodeSignedTxn (bh : BlockHeader) (stb : SignedTxnInBlock) : result (SignedTxn * ApplyData) :=
  let st := sad_SignedTxn (stb_WithAD stb) in
  let ad := sad_ApplyData (stb_WithAD stb) in
  let proto := protoOf (bh_CurrentProtocol bh) in
  if negb (cp_SupportSignedTxnInBlock proto) then Ok (st, ApplyData_zero)
  else
    _ ← guardR (bool_decide (hdr_GenesisID (stx_Header st) = "")) (Errorf "GenesisID not empty");
    let st1 := if stb_HasGenesisID stb then setGenesisID st (bh_GenesisID bh) else st in
    _ ← guardR (bool_decide (hdr_GenesisHash (stx_Header st1) = zero32)) (Errorf "GenesisHash not empty");
    st2 ← (if cp_RequireGenesisHash proto then
             _ ← guardR (negb (stb_HasGenesisHash stb))
                   (Errorf "HasGenesisHash set to true but RequireGenesisHash obviates the flag");
             Ok (setGenesisHash st1 (bh_GenesisHash bh))
           else Ok (if stb_HasGenesisHash stb then setGenesisHash st1 (bh_GenesisHash bh) else st1));
    Ok (stx_ResetCaches st2, ad).

Definition EncodeSignedTxn (bh : BlockHeader) (st : SignedTxn) (ad : ApplyData) : result SignedTxnInBlock :=
  let proto := protoOf (bh_CurrentProtocol bh) in
  if negb (cp_SupportSignedTxnInBlock proto) then
    Ok (mkSignedTxnInBlock (mkSignedTxnWithAD st ApplyData_zero) false false)
  else
    r1 ← (if bool_decide (hdr_GenesisID (stx_Header st) <> "") then
            if bool_decide (hdr_GenesisID (stx_Header st) = bh_GenesisID bh)
            then Ok (setGenesisID st "", true)
            else Err (Errorf "GenesisID mismatch")
          else Ok (st, false));
    r2 ← (if bool_decide (hdr_GenesisHash (stx_Header r1.1) <> zero32) then
            if bool_decide (hdr_GenesisHash (stx_Header r1.1) = bh_GenesisHash bh)
            then Ok (setGenesisHash r1.1 zero32, negb (cp_RequireGenesisHash proto))
            else Err (Errorf "GenesisHash mismatch")
          else if cp_RequireGenesisHash proto then Err (Errorf "GenesisHash required but missing")
          else Ok (r1.1, false));
    Ok (mkSignedTxnInBlock (mkSignedTxnWithAD r2.1 ad) r1.2 r2.2).

Fixpoint DecodePaysetFlat (bh : BlockHeader) (payset : list SignedTxnInBlock) : result (list SignedTxnWithAD) :=
  match payset with
  | [] => Ok []
  | txib :: rest =>
    sa ← DecodeSignedTxn bh txib;
    l ← DecodePaysetFlat bh rest;
    Ok (mkSignedTxnWithAD sa.1 sa.2 :: l)
  end.
End Blocks.

(** One step of the grouping loop: [res] is the list of finished groups and
    [lastGroup] the group being collected ([[]]: nil). *)
Definition groupStep {A} (group : A -> Digest) (acc : list (list A) * list A) (x : A) : list (list A) * list A :=
  let '(res, lastGroup) := acc in
  match lastGroup with
  | [] => (res, [x])
  | y :: _ =>
    if bool_decide (group y <> group x) || bool_decide (group y = zero32)
    then (res ++ [lastGroup], [x])
    else (res, lastGroup ++ [x])
  end.

Definition toGroups {A} (group : A -> Digest) (l : list A) : list (list A) :=
  let '(res, lastGroup) := foldl (groupStep group) ([], []) l in
  match lastGroup with [] => res | _ => res ++ [lastGroup] end.

Definition groupOf (st : SignedTxn) : Digest := hdr_Group (tx_Header (stx_Txn st)).
Definition SignedTxnsToGroups (txns : list SignedTxn) : list (list SignedTxn) := toGroups groupOf txns.
Definition SignedTxnGroupsFlatten (txgroups : list (list SignedTxn)) : list SignedTxn :=
  foldl (λ res g, res ++ g) [] txgroups.

(** [DecodePaysetGroups] decodes as it groups; the first decoding error ends it. *)
Definition DecodePaysetGroups (consensus : gmap string ConsensusParams) (block : Block)
    : result (list (list SignedTxnWithAD)) :=
  l ← DecodePaysetFlat consensus (blk_BlockHeader block) (blk_Payset block);
  Ok (toGroups (λ x, groupOf (sad_SignedTxn x)) l).
