(* ===== verification/BookkeepingSpec.v ===== *)
(** Properties of blocks: the upgrade state machine, the rewards schedule, block
    construction against block checking, and the payset encodings. *)

From S2P Require Import Prelude Config Basics Transactions Bookkeeping.

(** ** The upgrade state machine *)

(** Invariant of [UpgradeState] after the block of round [r] under parameters
    [params]: no proposal means cleared fields; a pending proposal switches in the
    future, and once its voting is over it has reached the threshold. *)
Record upgrade_inv (params : ConsensusParams) (r : Round) (s : UpgradeState) : Prop := {
  ui_none : us_NextProtocol s = "" ->
    us_NextProtocolVoteBefore s = 0 /\ us_NextProtocolSwitchOn s = 0 /\ us_NextProtocolApprovals s = 0;
  ui_some : us_NextProtocol s <> "" ->
    r < us_NextProtocolSwitchOn s < 2 ^ 64 /\
    us_NextProtocolSwitchOn s = us_NextProtocolVoteBefore s + cp_UpgradeWaitRounds params /\
    (us_NextProtocolVoteBefore s <= r -> cp_UpgradeThreshold params <= us_NextProtocolApprovals s);
  ui_approvals : 0 <= us_NextProtocolApprovals s <= r
}.

(** Rounds are far from the end of their range. *)
Definition round_ok (params : ConsensusParams) (r : Round) : Prop :=
  0 < r /\ r + cp_UpgradeVoteRounds params + cp_UpgradeWaitRounds params < 2 ^ 64 - 1.

Definition upgrade_params (params : ConsensusParams) : Prop :=
  0 < cp_UpgradeVoteRounds params /\ 0 < cp_UpgradeWaitRounds params /\ 0 < cp_UpgradeThreshold params.

Section Upgrade.
Context (consensus : gmap string ConsensusParams).

Lemma wrap_rounds params r : round_ok params r -> upgrade_params params ->
  wrap64 (r + cp_UpgradeVoteRounds params) = r + cp_UpgradeVoteRounds params /\
  wrap64 (r + cp_UpgradeVoteRounds params + cp_UpgradeWaitRounds params)
    = r + cp_UpgradeVoteRounds params + cp_UpgradeWaitRounds params.
Proof.
  intros [? ?] (? & ? & ?). split; apply wrap64_small; unfold u64; lia.
Qed.

(** The state after proposal and approval, before clearing and switching: like
    the invariant, but the switch may be due now. *)
Record voted_inv (params : ConsensusParams) (r : Round) (s : UpgradeState) : Prop := {
  vi_none : us_NextProtocol s = "" ->
    us_NextProtocolVoteBefore s = 0 /\ us_NextProtocolSwitchOn s = 0 /\ us_NextProtocolApprovals s = 0;
  vi_some : us_NextProtocol s <> "" ->
    r <= us_NextProtocolSwitchOn s < 2 ^ 64 /\
    us_NextProtocolSwitchOn s = us_NextProtocolVoteBefore s + cp_UpgradeWaitRounds params /\
    (us_NextProtocolVoteBefore s < r -> cp_UpgradeThreshold params <= us_NextProtocolApprovals s);
  vi_approvals : 0 <= us_NextProtocolApprovals s <= r
}.

Lemma applyPropose_Ok params s r vote s1 :
  upgrade_inv params (r - 1) s -> round_ok params r -> upgrade_params params ->
  applyPropose params s r vote = Ok s1 ->
  voted_inv params r s1 /\ us_NextProtocolApprovals s1 < r /\
  us_CurrentProtocol s1 = us_CurrentProtocol s /\ (us_NextProtocol s <> "" -> s1 = s) /\
  (us_NextProtocol s = "" -> us_NextProtocol s1 <> "" -> r < us_NextProtocolVoteBefore s1).
Proof.
  intros [I1 I2 I3] Hr Hp H. destruct (wrap_rounds params r Hr Hp) as [W1 W2].
  destruct Hr as [Hr0 Hr1], Hp as (P1 & P2 & P3). unfold applyPropose in H. rewrite W1, W2 in H.
  case_bool_decide as Hv; inv_ok; bool_hyps.
  - split_and!; cbn; try done; try lia. split; cbn; try done; lia.
  - split_and!; try done; [|lia]. split; [done| |lia].
    intros Hn. destruct (I2 Hn) as (? & ? & Ht). lia.
Qed.

Lemma applyApprove_Ok params s r vote s1 :
  voted_inv params r s -> us_NextProtocolApprovals s < r -> r < 2 ^ 64 - 1 ->
  applyApprove s r vote = Ok s1 ->
  voted_inv params r s1 /\ us_CurrentProtocol s1 = us_CurrentProtocol s /\
  us_NextProtocol s1 = us_NextProtocol s /\ us_NextProtocolSwitchOn s1 = us_NextProtocolSwitchOn s /\
  us_NextProtocolVoteBefore s1 = us_NextProtocolVoteBefore s /\
  (us_NextProtocolVoteBefore s <= r -> s1 = s).
Proof.
  intros [I1 I2 I3] Ha Hr H. unfold applyApprove in H.
  destruct (uv_UpgradeApprove vote); inv_ok; [|split_and!; done]. bool_hyps. cbn.
  rewrite wrap64_small by (unfold u64; lia).
  split_and!; try done; [|intros; lia]. split; cbn; [done| |lia].
  intros Hn. destruct (I2 Hn) as (? & ? & Ht). lia.
Qed.

(** What [applyUpgradeVote] does to a state satisfying the invariant: either it
    switches to a proposal whose approvals reached the threshold, or it keeps the
    protocol and the invariant. *)
Lemma applyUpgradeVote_Ok s r vote params s' :
  consensus !! us_CurrentProtocol s = Some params ->
  upgrade_inv params (r - 1) s -> round_ok params r -> upgrade_params params ->
  applyUpgradeVote consensus s r vote = Ok s' ->
  (us_CurrentProtocol s' = us_CurrentProtocol s /\ upgrade_inv params r s' /\
     (us_NextProtocol s <> "" -> r <> us_NextProtocolSwitchOn s)) \/
  (us_NextProtocol s <> "" /\ r = us_NextProtocolSwitchOn s /\
     us_NextProtocolVoteBefore s < r /\ cp_UpgradeThreshold params <= us_NextProtocolApprovals s /\
     s' = mkUpgradeState (us_NextProtocol s) "" 0 0 0).
Proof.
  intros Hc Hi Hr Hp H. unfold applyUpgradeVote in H. rewrite Hc in H.
  apply result_bind_Ok in H as (s1 & H1 & H). apply result_bind_Ok in H as (s2 & H2 & H). inv_ok.
  apply (applyPropose_Ok _ _ _ _ _ Hi Hr Hp) in H1 as (V1 & A1 & C1 & N1 & F1).
  pose proof Hr as [Hr0 Hr1]. pose proof Hp as (P1 & P2 & P3).
  apply (applyApprove_Ok params) in H2 as (V2 & C2 & N2 & S2 & B2 & E2); try done; [|lia].
  destruct V2 as [J1 J2 J3]. unfold switchOver, clearFailed.
  destruct (Z.eqb_spec r (us_NextProtocolVoteBefore s2)) as [Eb|Nb]; cbn [andb].
  { destruct (Z.ltb_spec (us_NextProtocolApprovals s2) (cp_UpgradeThreshold params)).
    - left. cbn. rewrite (proj2 (Z.eqb_neq r 0)) by lia. cbn. split_and!; [congruence| |].
      + split; cbn; [done|done|lia].
      + intros Hn. rewrite <- (N1 Hn), <- S2.
        destruct J2 as (? & ? & _); [rewrite N2, (N1 Hn); done|]. lia.
    - left. destruct (Z.eqb_spec r (us_NextProtocolSwitchOn s2)) as [Es|Ns].
      + exfalso. destruct (decide (us_NextProtocol s2 = "")) as [Hn|Hn].
        * destruct (J1 Hn). lia.
        * destruct (J2 Hn) as (? & ? & _). lia.
      + split_and!; [congruence| |].
        * split; [done| |lia]. intros Hn. destruct (J2 Hn) as (? & ? & ?). lia.
        * intros Hn. rewrite <- (N1 Hn), <- S2. done. }
  destruct (Z.eqb_spec r (us_NextProtocolSwitchOn s2)) as [Es|Ns].
  - right. destruct (decide (us_NextProtocol s2 = "")) as [Hn|Hn]; [destruct (J1 Hn); lia|].
    destruct (J2 Hn) as (? & ? & Ht). assert (us_NextProtocol s <> "") as Hs.
    { intros Hs. pose proof (F1 Hs ltac:(congruence)). lia. }
    specialize (N1 Hs). subst s1. assert (s2 = s) as -> by (apply E2; lia). 
    split_and!; try done; [lia|apply Ht; lia].
  - left. split_and!; [congruence| |].
    + split; [done| |lia]. intros Hn. destruct (J2 Hn) as (? & ? & ?). lia.
    + intros Hn. rewrite <- (N1 Hn), <- S2. done.
Qed.

(** A proposal that is pending after a vote was pending before it and gains the vote's
    approval if that is in time, or is the vote's own. *)
Lemma applyUpgradeVote_pending s r vote params s' :
  consensus !! us_CurrentProtocol s = Some params ->
  upgrade_inv params (r - 1) s -> round_ok params r -> upgrade_params params ->
  applyUpgradeVote consensus s r vote = Ok s' -> us_NextProtocol s' <> "" ->
  us_CurrentProtocol s' = us_CurrentProtocol s /\
  ((us_NextProtocol s <> "" /\ us_NextProtocol s' = us_NextProtocol s /\
    us_NextProtocolVoteBefore s' = us_NextProtocolVoteBefore s /\
    us_NextProtocolApprovals s' = us_NextProtocolApprovals s +
      (if uv_UpgradeApprove vote && (r <? us_NextProtocolVoteBefore s) then 1 else 0)) \/
   (us_NextProtocol s = "" /\ uv_UpgradePropose vote = us_NextProtocol s' /\
    us_NextProtocolVoteBefore s' = r + cp_UpgradeVoteRounds params /\
    us_NextProtocolApprovals s' = if uv_UpgradeApprove vote then 1 else 0)).
Proof.
  intros Hc Hi Hr Hp H Hn. unfold applyUpgradeVote in H. rewrite Hc in H.
  apply result_bind_Ok in H as (s1 & H1 & H). apply result_bind_Ok in H as (s2 & H2 & H). inv_ok.
  assert (switchOver (clearFailed params s2 r) r = s2) as E.
  { unfold switchOver, clearFailed in *. by repeat (destruct (_ && _) || destruct (_ =? _)). }
  rewrite E in *. clear E. destruct (wrap_rounds params r Hr Hp) as [W1 _]. destruct Hi as [_ _ I3], Hr as [Hr0 Hr1].
  assert (us_CurrentProtocol s2 = us_CurrentProtocol s1 /\ us_NextProtocol s2 = us_NextProtocol s1 /\
    us_NextProtocolVoteBefore s2 = us_NextProtocolVoteBefore s1 /\
    us_NextProtocolApprovals s2 = (if uv_UpgradeApprove vote then wrap64 (us_NextProtocolApprovals s1 + 1)
                                   else us_NextProtocolApprovals s1) /\
    (uv_UpgradeApprove vote = true -> r < us_NextProtocolVoteBefore s1)) as (E1 & E2 & E3 & E4 & E5).
  { unfold applyApprove in H2. destruct (uv_UpgradeApprove vote); inv_ok; [bool_hyps|]; done. }
  rewrite E1, E2, E3, E4 in *. unfold applyPropose in H1. rewrite W1 in H1. case_bool_decide as Hv; inv_ok; bool_hyps.
  - split; [done|]. right. cbn in *. by split_and!.
  - split; [done|]. left. split_and!; try done. destruct (uv_UpgradeApprove vote); cbn [andb]; [|lia].
    rewrite (proj2 (Z.ltb_lt _ _)) by auto. destruct Hp. apply wrap64_small. unfold u64. lia.
Qed.

(** ** Chains of blocks

    A chain of upgrade states from a fresh one, one vote per round: [votes] are the
    votes of rounds [r0 + 1] to [r]. *)
Inductive upgrade_chain : UpgradeState -> Round -> list UpgradeVote -> UpgradeState -> Round -> Prop :=
| chain_nil s r : upgrade_chain s r [] s r
| chain_snoc s0 r0 votes s r vote s' :
    upgrade_chain s0 r0 votes s r -> applyUpgradeVote consensus s (r + 1) vote = Ok s' ->
    upgrade_chain s0 r0 (votes ++ [vote]) s' (r + 1).

Lemma upgrade_chain_length s0 r0 votes s r : upgrade_chain s0 r0 votes s r -> r = r0 + zlen votes.
Proof. induction 1 as [|??????? _ IH]; unfold zlen in *; cbn; [lia|]. rewrite length_app. cbn. lia. Qed.

(** Approvals among [votes], cast from round [r] on, in rounds [lo <= _ < hi]. *)
Fixpoint approvalsIn (lo hi r : Round) (votes : list UpgradeVote) : Z :=
  match votes with
  | [] => 0
  | v :: votes => (if uv_UpgradeApprove v && (lo <=? r) && (r <? hi) then 1 else 0) + approvalsIn lo hi (r + 1) votes
  end.

Lemma approvalsIn_snoc lo hi votes : forall r v, approvalsIn lo hi r (votes ++ [v]) =
  approvalsIn lo hi r votes +
    if uv_UpgradeApprove v && (lo <=? r + zlen votes) && (r + zlen votes <? hi) then 1 else 0.
Proof.
  induction votes as [|v0 votes IH]; intros r v; cbn [approvalsIn app].
  - unfold zlen. cbn. by rewrite !Z.add_0_r.
  - rewrite IH. unfold zlen. cbn [length]. rewrite Nat2Z.inj_succ.
    replace (r + 1 + Z.of_nat (length votes)) with (r + Z.succ (Z.of_nat (length votes))) by lia. lia.
Qed.
Lemma approvalsIn_before lo hi votes : forall r, r + zlen votes <= lo -> approvalsIn lo hi r votes = 0.
Proof.
  unfold zlen. induction votes as [|v votes IH]; intros r Hr; cbn [approvalsIn length] in *; [done|].
  rewrite (proj2 (Z.leb_gt lo r)) by lia. rewrite andb_false_r. cbn. apply IH. lia.
Qed.

(** The pending proposal was made by a vote of the chain, and its approvals are the
    approving votes of its voting period. *)
Definition proposed_in (params : ConsensusParams) (r0 : Round) (votes : list UpgradeVote) (s : UpgradeState) : Prop :=
  exists p v, r0 < p /\ votes !! Z.to_nat (p - r0 - 1) = Some v /\ uv_UpgradePropose v = us_NextProtocol s /\
    us_NextProtocolVoteBefore s = p + cp_UpgradeVoteRounds params /\
    us_NextProtocolApprovals s = approvalsIn p (p + cp_UpgradeVoteRounds params) (r0 + 1) votes.

(** Every protocol of the table has the parameters the machine needs. *)
Definition consensus_ok (rmax : Round) : Prop :=
  forall v params, consensus !! v = Some params ->
    upgrade_params params /\ round_ok params rmax.

Lemma round_ok_le params r r' : 0 < r' <= r -> round_ok params r -> round_ok params r'.
Proof. intros ? [? ?]. split; lia. Qed.

(** The invariant holds along a chain. *)
Lemma upgrade_chain_inv s0 r0 votes s r rmax : consensus_ok rmax -> upgrade_chain s0 r0 votes s r -> r <= rmax ->
  0 <= r0 -> us_NextProtocol s0 = "" -> us_NextProtocolVoteBefore s0 = 0 ->
  us_NextProtocolSwitchOn s0 = 0 -> us_NextProtocolApprovals s0 = 0 ->
  r0 <= r /\ (forall params, consensus !! us_CurrentProtocol s = Some params -> upgrade_inv params r s).
Proof.
  intros Hc Hch. induction Hch as [s r|s0 r0 votes s r vote s' Hch IH H]; intros Hr H0 HN HB HS HA.
  { split; [done|]. intros params _. split; [done|done|lia]. }
  destruct IH as [Hle IH]; try done; [lia|]. split; [lia|].
  destruct (consensus !! us_CurrentProtocol s) as [params|] eqn:Hp;
    [|unfold applyUpgradeVote in H; by rewrite Hp in H].
  destruct (Hc _ _ Hp) as [Pp Pr].
  assert (round_ok params (r + 1)) as Pr' by (eapply round_ok_le, Pr; lia).
  apply (applyUpgradeVote_Ok s (r + 1) vote params s' Hp) in H; try done.
  - destruct H as [(HC & HI & _)|(_ & _ & _ & _ & ->)].
    + intros params'. rewrite HC, Hp. by intros [= <-].
    + intros params' _. split; cbn; [done|done|lia].
  - replace (r + 1 - 1) with r by lia. by apply IH.
Qed.

Lemma upgrade_chain_proposed s0 r0 votes s r rmax : consensus_ok rmax -> upgrade_chain s0 r0 votes s r -> r <= rmax ->
  0 <= r0 -> us_NextProtocol s0 = "" -> us_NextProtocolVoteBefore s0 = 0 ->
  us_NextProtocolSwitchOn s0 = 0 -> us_NextProtocolApprovals s0 = 0 ->
  us_NextProtocol s <> "" -> forall params, consensus !! us_CurrentProtocol s = Some params -> proposed_in params r0 votes s.
Proof.
  intros Hc Hch. induction Hch as [s r|s0 r0 votes s r vote s' Hch IH H]; intros Hr H0 HN HB HS HA Hn params Hp; [done|].
  destruct (upgrade_chain_inv _ _ _ _ _ _ Hc Hch ltac:(lia) H0 HN HB HS HA) as [Hle HI].
  pose proof (upgrade_chain_length _ _ _ _ _ Hch) as Hlen.
  destruct (consensus !! us_CurrentProtocol s) as [params0|] eqn:Hp0;
    [|unfold applyUpgradeVote in H; by rewrite Hp0 in H].
  destruct (Hc _ _ Hp0) as [Pp Pr].
  destruct (applyUpgradeVote_pending s (r + 1) vote params0 s' Hp0) as [EC HE]; try done.
  { replace (r + 1 - 1) with r by lia. by apply HI. } { eapply round_ok_le, Pr; lia. }
  rewrite EC, Hp0 in Hp. injection Hp as <-. destruct HE as [(Hn0 & EN & EB & EA)|(Hn0 & EN & EB & EA)].
  - destruct (IH ltac:(lia) H0 HN HB HS HA Hn0 _ eq_refl) as (p & v & G1 & G2 & G3 & G4 & G5).
    exists p, v. split_and!; [done|by apply lookup_app_l_Some|congruence|congruence|].
    rewrite EA, G5, G4, approvalsIn_snoc. apply lookup_lt_Some in G2.
    replace (r0 + 1 + zlen votes) with (r + 1) by lia. rewrite (proj2 (Z.leb_le p (r + 1))) by (unfold zlen in *; lia).
    by rewrite andb_true_r.
  - exists (r + 1), vote. split_and!; [lia| |done|done|].
    + replace (Z.to_nat (r + 1 - r0 - 1)) with (length votes) by (unfold zlen in *; lia).
      rewrite lookup_app_r, Nat.sub_diag by lia. done.
    + rewrite EA, approvalsIn_snoc, approvalsIn_before by lia. replace (r0 + 1 + zlen votes) with (r + 1) by lia.
      rewrite (proj2 (Z.leb_le _ _)), (proj2 (Z.ltb_lt _ _)) by (destruct Pp; lia). by rewrite !andb_true_r.
Qed.
End Upgrade.

(** C26: No unapproved upgrade.  Starting from a header without a pending proposal,
    whatever votes the blocks carry, a block at round [r+1] changes the current protocol
    only to the pending proposal.  That was proposed by the vote of some earlier round [p];
    the block is exactly [UpgradeVoteRounds + UpgradeWaitRounds] after [p]; and at least
    [UpgradeThreshold] of the votes of rounds [p] to [p + UpgradeVoteRounds - 1], before
    the deadline, approved it.  Every protocol of the table has positive voting
    parameters, and rounds stay below [rmax], which with them does not overflow. *)
Theorem upgrade_needs_threshold consensus rmax s0 r0 votes s r vote s' params :
  consensus_ok consensus rmax -> upgrade_chain consensus s0 r0 votes s r -> r + 1 <= rmax -> 0 <= r0 ->
  us_NextProtocol s0 = "" -> us_NextProtocolVoteBefore s0 = 0 ->
  us_NextProtocolSwitchOn s0 = 0 -> us_NextProtocolApprovals s0 = 0 ->
  consensus !! us_CurrentProtocol s = Some params ->
  applyUpgradeVote consensus s (r + 1) vote = Ok s' ->
  us_CurrentProtocol s' <> us_CurrentProtocol s ->
  us_CurrentProtocol s' = us_NextProtocol s /\ us_NextProtocol s <> "" /\
  r + 1 = us_NextProtocolSwitchOn s /\ us_NextProtocolVoteBefore s < r + 1 /\
  cp_UpgradeThreshold params <= us_NextProtocolApprovals s /\
  exists p v, r0 < p /\ votes !! Z.to_nat (p - r0 - 1) = Some v /\ uv_UpgradePropose v = us_CurrentProtocol s' /\
    r + 1 = p + cp_UpgradeVoteRounds params + cp_UpgradeWaitRounds params /\
    cp_UpgradeThreshold params <= approvalsIn p (p + cp_UpgradeVoteRounds params) (r0 + 1) votes.
Proof.
  intros Hc Hch Hr H0 HN HB HS HA Hp H Hne.
  destruct (upgrade_chain_inv _ _ _ _ _ _ _ Hc Hch ltac:(lia) H0 HN HB HS HA) as [Hle HI].
  pose proof (upgrade_chain_proposed _ _ _ _ _ _ _ Hc Hch ltac:(lia) H0 HN HB HS HA) as HP.
  destruct (Hc _ _ Hp) as [Pp Pr]. specialize (HI _ Hp).
  apply (applyUpgradeVote_Ok _ s (r + 1) vote params s' Hp) in H.
  - destruct H as [(? & _)|(Hn & Hs & Hb & Ht & ->)]; [done|]. split_and!; try done.
    destruct (HP Hn _ Hp) as (p & v & G1 & G2 & G3 & G4 & G5). exists p, v.
    destruct (ui_some _ _ _ HI Hn) as (_ & Hsw & _). split_and!; try done; [lia|by rewrite <- G5].
  - by replace (r + 1 - 1) with r by lia.
  - eapply round_ok_le, Pr. lia.
  - done.
Qed.

(** An approved upgrade happens.  In a chain as above, if a proposal is
    pending after round [r] and its switch round is [r+1], then every block the
    upgrade rules accept at round [r+1] runs the proposed protocol and clears the
    proposal. *)
Theorem upgrade_happens consensus rmax s0 r0 votes s r vote s' params :
  consensus_ok consensus rmax -> upgrade_chain consensus s0 r0 votes s r -> r + 1 <= rmax -> 0 <= r0 ->
  us_NextProtocol s0 = "" -> us_NextProtocolVoteBefore s0 = 0 ->
  us_NextProtocolSwitchOn s0 = 0 -> us_NextProtocolApprovals s0 = 0 ->
  consensus !! us_CurrentProtocol s = Some params ->
  us_NextProtocol s <> "" -> us_NextProtocolSwitchOn s = r + 1 ->
  applyUpgradeVote consensus s (r + 1) vote = Ok s' ->
  s' = mkUpgradeState (us_NextProtocol s) "" 0 0 0.
Proof.
  intros Hc Hch Hr H0 HN HB HS HA Hp Hn Hsw H.
  destruct (upgrade_chain_inv _ _ _ _ _ _ _ Hc Hch ltac:(lia) H0 HN HB HS HA) as [Hle HI].
  destruct (Hc _ _ Hp) as [Pp Pr]. specialize (HI _ Hp).
  apply (applyUpgradeVote_Ok _ s (r + 1) vote params s' Hp) in H.
  - destruct H as [(_ & _ & HX)|(_ & _ & _ & _ & ->)]; [|done]. by destruct (HX Hn).
  - by replace (r + 1 - 1) with r by lia.
  - eapply round_ok_le, Pr. lia.
  - done.
Qed.

(** ** Proposals against checks *)

Section MakeBlock.
Context (consensus : gmap string ConsensusParams) (hashHeader : BlockHeader -> Digest)
        (Commit : bool -> list SignedTxnInBlock -> Digest).

(** A header from which the next block can be proposed: its protocol and a
    pending one are known, its upgrade state satisfies the invariant, and its
    genesis fields suit the protocols that may come next. *)
Record ready (prev : BlockHeader) (params : ConsensusParams) : Prop := {
  rd_params : consensus !! bh_CurrentProtocol prev = Some params;
  rd_inv : upgrade_inv params (bh_Round prev) (bh_UpgradeState prev);
  rd_round : round_ok params (bh_Round prev + 1);
  rd_upgrade : upgrade_params params;
  rd_next : us_NextProtocol (bh_UpgradeState prev) = "" \/
            is_Some (consensus !! us_NextProtocol (bh_UpgradeState prev));
  rd_id : bh_GenesisID prev <> "";
  rd_hash : forall v p, consensus !! v = Some p ->
    v = bh_CurrentProtocol prev \/ v = us_NextProtocol (bh_UpgradeState prev) ->
    cp_SupportGenesisHash p = bool_decide (bh_GenesisHash prev <> zero32);
  rd_time : forall v p, consensus !! v = Some p ->
    0 <= cp_MaxTimestampIncrement p /\ 0 <= bh_TimeStamp prev /\
    bh_TimeStamp prev + cp_MaxTimestampIncrement p < 2 ^ 63;
  rd_r : 0 <= bh_Round prev
}.

Lemma wrapS64_small z : - 2 ^ 63 <= z < 2 ^ 63 -> wrapS64 z = z.
Proof. intros. unfold wrapS64. rewrite Z.mod_small by lia. lia. Qed.

Lemma applyPropose_none params s r b : applyPropose params s r (mkUpgradeVote "" b) = Ok s.
Proof. reflexivity. Qed.

(** The vote a proposer casts is acceptable. *)
Lemma makeUpgradeVote_ok prev params proposals : upgrades_closed consensus = true ->
  ready prev params ->
  exists s', applyUpgradeVote consensus (bh_UpgradeState prev) (bh_Round prev + 1)
               (makeUpgradeVote prev params proposals (bh_Round prev + 1)) = Ok s'.
Proof.
  intros Hcl [Hc [I1 I2 I3] Hr Hp _ _ _ _ Hr0]. unfold applyUpgradeVote, makeUpgradeVote.
  change (us_CurrentProtocol (bh_UpgradeState prev)) with (bh_CurrentProtocol prev). rewrite Hc.
  destruct (wrap_rounds params _ Hr Hp) as [W1 W2]. destruct Hp as (P1 & P2 & P3).
  case_bool_decide as Hn.
  - destruct (I1 Hn) as (HB & _ & _). rewrite HB, (proj2 (Z.ltb_ge _ _)) by lia. cbn [andb].
    destruct (List.find _ _) as [k|] eqn:Hf.
    + apply find_some in Hf as [_ Hk]. destruct (_ !! k) as [b|] eqn:Hb; [|done].
      destruct (upgrades_closed_spec _ _ _ _ _ Hcl Hc Hb) as (_ & Hne & Hlen).
      unfold applyPropose. cbn [uv_UpgradePropose]. rewrite !bool_decide_true by done.
      unfold strlen. rewrite (proj2 (Z.ltb_ge _ _)) by lia. cbn.
      unfold applyApprove. cbn. rewrite bool_decide_true by done. cbn. rewrite W1.
      rewrite (proj2 (Z.ltb_lt _ _)) by lia. cbn. eauto.
    + rewrite applyPropose_none. eauto.
  - destruct (Z.ltb_spec (bh_Round prev + 1) (us_NextProtocolVoteBefore (bh_UpgradeState prev))) as [Hlt|];
      cbn [andb]; [|rewrite applyPropose_none; eauto].
    destruct (default _ _); rewrite applyPropose_none; cbn [mbind result_bind]; [|eauto].
    unfold applyApprove. cbn. rewrite bool_decide_true by done. cbn.
    rewrite (proj2 (Z.ltb_lt _ _)) by lia. cbn. eauto.
Qed.

(** The timestamp of a proposal passes the check. *)
Lemma clampTime_ok prev params now : 0 <= cp_MaxTimestampIncrement params ->
  0 <= bh_TimeStamp prev -> bh_TimeStamp prev + cp_MaxTimestampIncrement params < 2 ^ 63 ->
  0 < bh_TimeStamp prev ->
  bh_TimeStamp prev <= clampTime prev params now <= bh_TimeStamp prev + cp_MaxTimestampIncrement params.
Proof.
  intros. unfold clampTime. rewrite wrapS64_small by lia.
  zcases; lia.
Qed.

(** Proposers build valid headers.  From a header as above, [MakeBlock] does
    not panic, whatever the clock and the iteration order of the approved
    upgrades, and the header it builds passes [PreCheck]. *)
Theorem MakeBlock_PreCheck proposals now prev params :
  upgrades_closed consensus = true -> ready prev params ->
  exists blk, MakeBlock consensus hashHeader Commit proposals now prev = Ok blk /\
    PreCheck consensus hashHeader (blk_BlockHeader blk) prev = Ok tt.
Proof.
  intros Hcl Hrd. destruct (makeUpgradeVote_ok prev params proposals Hcl Hrd) as [s' Hs].
  pose proof Hrd as [Hc Hi Hr Hp Hnx Hid Hh Ht Hr0].
  assert (wrap64 (bh_Round prev + 1) = bh_Round prev + 1) as Hw.
  { destruct Hr, Hp as (? & ? & ?). apply wrap64_small. unfold u64. lia. }
  assert (exists p', consensus !! us_CurrentProtocol s' = Some p' /\
    cp_SupportGenesisHash p' = bool_decide (bh_GenesisHash prev <> zero32)) as (p' & Hp' & HG).
  { pose proof Hs as Hs0. apply (applyUpgradeVote_Ok _ _ _ _ _ _ Hc) in Hs0; try done.
    - destruct Hs0 as [(E & _)|(Hn & _ & _ & _ & ->)]; [rewrite E; eauto|].
      destruct Hnx as [|[p' Hx]]; [done|]. cbn. eauto.
    - by replace (bh_Round prev + 1 - 1) with (bh_Round prev) by lia. }
  unfold MakeBlock. rewrite Hw, Hc, Hs, Hp'. eexists. split; [reflexivity|].
  unfold PreCheck, bh_CurrentProtocol. cbn. rewrite Hp', Hw, Z.eqb_refl. cbn.
  rewrite (bool_decide_true (hashHeader prev = _)) by done. cbn. rewrite Hs. cbn.
  rewrite (bool_decide_true (s' = s')) by done. cbn.
  destruct (Ht _ _ Hp') as (T1 & T2 & T3).
  assert ((if 0 <? bh_TimeStamp prev
           then if clampTime prev p' now <? bh_TimeStamp prev then Err (Errorf "bad timestamp")
                else if wrapS64 (bh_TimeStamp prev + cp_MaxTimestampIncrement p') <? clampTime prev p' now
                     then Err (Errorf "bad timestamp: max increment") else Ok tt
           else Ok tt) = Ok tt) as ->.
  { destruct (Z.ltb_spec 0 (bh_TimeStamp prev)); [|done].
    destruct (clampTime_ok prev p' now) as [? ?]; try done. rewrite wrapS64_small by lia.
    by rewrite !(proj2 (Z.ltb_ge _ _)) by lia. }
  cbn. rewrite (bool_decide_true (bh_GenesisID prev <> "")) by done. cbn.
  rewrite (bool_decide_false (bh_GenesisID prev <> bh_GenesisID prev)) by auto. cbn. rewrite HG.
  destruct (decide (bh_GenesisHash prev <> zero32)) as [HZ|HZ].
  - rewrite (bool_decide_true (_ <> zero32)) by done. cbn. rewrite (bool_decide_false (bh_GenesisHash prev <> bh_GenesisHash prev)) by auto. done.
  - rewrite (bool_decide_false (_ <> zero32)) by done. apply dec_stable in HZ. by rewrite bool_decide_true.
Qed.
End MakeBlock.

(** ** The rewards schedule *)

(** A round of rewards, as block evaluation runs it: the header's state advances
    and the pool pays the level's increase for every reward unit. *)
Definition rewardsRound (proto : ConsensusParams) (s : RewardsState * Z) (r : Round) (units : Z)
    : result (RewardsState * Z) :=
  s' ← NextRewardsState s.1 r proto s.2 units;
  mret (s', s.2 - units * (rs_RewardsLevel s' - rs_RewardsLevel s.1)).

Fixpoint rewardsRun (proto : ConsensusParams) (s : RewardsState * Z) (r : Round) (l : list Z)
    : result (RewardsState * Z) :=
  match l with
  | [] => Ok s
  | u :: l => s' ← rewardsRound proto s r u; rewardsRun proto s' (r + 1) l
  end.

Record wf_rewards (s : RewardsState) : Prop := {
  wr_level : u64 (rs_RewardsLevel s);
  wr_rate : u64 (rs_RewardsRate s);
  wr_residue : u64 (rs_RewardsResidue s)
}.

(** What a round pays out, and what stays as residue. *)
Lemma NextRewardsState_pay proto s pool r u s' :
  wf_rewards s -> u64 u -> NextRewardsState s r proto pool u = Ok s' ->
  u64 (rs_RewardsLevel s') /\ u64 (rs_RewardsResidue s') /\
  (u * (rs_RewardsLevel s' - rs_RewardsLevel s)
     = rs_RewardsRate s + rs_RewardsResidue s - rs_RewardsResidue s' \/
   rs_RewardsLevel s' = rs_RewardsLevel s /\ rs_RewardsResidue s' = rs_RewardsResidue s).
Proof.
  intros [WL WR WS] Hu H. unfold NextRewardsState in H. apply result_bind_Ok in H as (res & Hres & H).
  assert (rs_RewardsLevel res = rs_RewardsLevel s /\ rs_RewardsResidue res = rs_RewardsResidue s) as [RL RR].
  { destruct (r =? _); [|by injection Hres as <-]. destruct (OSub _ _) as [? []], (_ =? 0); by simplify_eq. }
  clear Hres. destruct (Z.eqb_spec u 0) as [->|Hu0]; [injection H as <-; rewrite RL, RR; auto|].
  unfold ot_Add in H. rewrite OAdd_spec in H by done.
  destruct (Z.ltb_spec (rs_RewardsRate s + rs_RewardsResidue s) (2 ^ 64)) as [Hs|Hs]; cbn [orb] in H;
    [|destruct (OAdd _ _); injection H as <-; rewrite RL, RR; auto].
  set (w := rs_RewardsRate s + rs_RewardsResidue s) in *.
  assert (0 <= w) as Hw by (unfold u64, w in *; lia).
  assert (0 < u) as Hu1 by (unfold u64 in *; lia).
  assert (u64 (w / u)) as Hq.
  { split; [apply Z.div_pos; lia|]. apply Z.div_lt_upper_bound; nia. }
  pose proof (Z.mod_pos_bound w u Hu1) as Hm. pose proof (Z.div_mod w u ltac:(lia)) as Hdm.
  rewrite OAdd_spec in H by done. unfold u64 in *.
  destruct (Z.ltb_spec (rs_RewardsLevel s + w / u) (2 ^ 64)); injection H as <-; cbn; [|rewrite RL, RR; auto].
  split_and!; try lia.
Qed.

(** When the rate is recalculated, and to what. *)
Lemma NextRewardsState_rate proto s pool r u s' :
  wf_rewards s -> u64 pool -> u64 (cp_MinBalance proto) -> 0 < cp_RewardsRateRefreshInterval proto ->
  cp_PendingResidueRewards proto = true ->
  NextRewardsState s r proto pool u = Ok s' -> r = rs_RewardsRecalculationRound s ->
  rs_RewardsRecalculationRound s' = wrap64 (r + cp_RewardsRateRefreshInterval proto) /\
  u64 (rs_RewardsRate s') /\
  rs_RewardsRate s' * cp_RewardsRateRefreshInterval proto
    <= Z.max 0 (pool - cp_MinBalance proto - rs_RewardsResidue s).
Proof.
  intros [_ _ WS] Hpool Hmb Hint Hb H ->. unfold NextRewardsState in H.
  rewrite Z.eqb_refl, Hb, (OAdd_spec (cp_MinBalance proto) (rs_RewardsResidue s) Hmb WS) in H.
  set (over := match (if _ : bool then _ else _) with (sum, true) => pool | (sum, false) => sum end) in H.
  assert (u64 over /\ (over = cp_MinBalance proto + rs_RewardsResidue s \/ over = pool)) as [Uo Ho].
  { unfold over. zcases; unfold u64 in *; lia. }
  clearbody over. rewrite (OSub_spec pool over Hpool Uo) in H.
  rewrite (proj2 (Z.eqb_neq (cp_RewardsRateRefreshInterval proto) 0)) in H by lia.
  destruct (if over <=? pool then _ else _) as [diff o] eqn:Ed in H.
  set (new := if o then 0 else diff) in H.
  assert (0 <= new < 2 ^ 64 /\ new <= Z.max 0 (pool - cp_MinBalance proto - rs_RewardsResidue s)) as [Hn1 Hn2].
  { unfold new. destruct (Z.leb_spec over pool); injection Ed as <- <-; unfold u64 in *; lia. }
  clearbody new. cbn [mbind result_bind] in H.
  match type of H with context [if _ : bool then Ok ?r else _] => set (res := r) in H end.
  assert (rs_RewardsRate s' = rs_RewardsRate res /\
          rs_RewardsRecalculationRound s' = rs_RewardsRecalculationRound res) as [-> ->].
  { destruct (u =? 0); [by injection H as <-|]. destruct (ot_Add _ _ _) as [? o1], (ot_Add o1 _ _) as [? []];
      by injection H as <-. }
  cbn. split_and!; [done| |].
  - split; [apply Z.div_pos; lia|]. apply Z.div_lt_upper_bound; nia.
  - rewrite Z.mul_comm. etrans; [apply Z.mul_div_le|]; lia.
Qed.

Lemma NextRewardsState_keep proto s pool r u s' :
  NextRewardsState s r proto pool u = Ok s' -> r <> rs_RewardsRecalculationRound s ->
  rs_RewardsRate s' = rs_RewardsRate s /\
  rs_RewardsRecalculationRound s' = rs_RewardsRecalculationRound s.
Proof.
  intros H Hr. unfold NextRewardsState in H. rewrite (proj2 (Z.eqb_neq r _) Hr) in H. cbn in H.
  destruct (u =? 0); [by injection H as <-|].
  destruct (_ || _) in H; by injection H as <-.
Qed.

(** Up to and including the next recalculation round, [n] rounds pay at most [n]
    times the rate and the residue. *)
Lemma rewardsRun_bound proto l : forall s pool r s' pool',
  wf_rewards s -> Forall u64 l -> r + Z.of_nat (length l) <= rs_RewardsRecalculationRound s + 1 ->
  rewardsRun proto (s, pool) r l = Ok (s', pool') ->
  pool - rs_RewardsRate s * Z.of_nat (length l) - rs_RewardsResidue s <= pool'.
Proof.
  induction l as [|u l IH]; intros s pool r s' pool' W Hl Hr H.
  { injection H as <- <-. cbn. destruct W. unfold u64 in *. lia. }
  apply Forall_cons in Hl as [Hu Hl]. cbn in H. apply result_bind_Ok in H as ([s1 pool1] & H1 & H).
  unfold rewardsRound in H1. apply result_bind_Ok in H1 as (s1' & H1 & E).
  unfold mret, result_ret in E. injection E as <- <-. cbn [fst snd] in *.
  destruct (NextRewardsState_pay _ _ _ _ _ _ W Hu H1) as (U1 & U2 & Hp).
  assert (0 <= rs_RewardsRate s /\ 0 <= rs_RewardsResidue s) as [? ?] by (destruct W; unfold u64 in *; lia).
  cbn [length] in *. rewrite Nat2Z.inj_succ in *. destruct l as [|u2 l].
  { injection H as <- <-. cbn. unfold u64 in *. destruct Hp as [->|[-> ?]]; lia. }
  destruct (NextRewardsState_keep _ _ _ _ _ _ H1) as [E1 E2]; [cbn [length] in Hr; lia|].
  apply IH in H; [|split; [done|rewrite E1; apply W|done]|done|lia].
  rewrite E1 in H. destruct Hp as [Hp|[Hp Hp2]]; [|rewrite Hp in H]; lia.
Qed.

(** C27: Solvency of the rewards pool.  Under a protocol with [PendingResidueRewards],
    take the round at which the rate is recalculated, with a pool balance [pool] that
    covers the minimum balance and the pending residue, and any numbers of reward units
    per round.  Run it and at most [RewardsRateRefreshInterval] further rounds, the last of
    which may be the next recalculation: the pool ends with at least its minimum balance
    less one round at the old rate, which the recalculation round still pays. *)
Theorem rewards_pool_solvent proto s pool r u l s' pool' :
  wf_rewards s -> u64 pool -> u64 (cp_MinBalance proto) -> 0 < cp_RewardsRateRefreshInterval proto ->
  cp_PendingResidueRewards proto = true -> r = rs_RewardsRecalculationRound s ->
  0 <= r -> r + cp_RewardsRateRefreshInterval proto < 2 ^ 64 ->
  Forall u64 (u :: l) -> Z.of_nat (length l) <= cp_RewardsRateRefreshInterval proto ->
  cp_MinBalance proto + rs_RewardsResidue s <= pool ->
  rewardsRun proto (s, pool) r (u :: l) = Ok (s', pool') ->
  cp_MinBalance proto - rs_RewardsRate s <= pool'.
Proof.
  intros W Hpool Hmb Hint Hb Hr Hr0 Hr1 Hl Hlen Hge H. apply Forall_cons in Hl as [Hu Hl].
  cbn in H. apply result_bind_Ok in H as ([s1 pool1] & H1 & H).
  unfold rewardsRound in H1. apply result_bind_Ok in H1 as (s1' & H1 & E).
  unfold mret, result_ret in E. injection E as <- <-. cbn [fst snd] in *.
  destruct (NextRewardsState_pay _ _ _ _ _ _ W Hu H1) as (U1 & U2 & Hp).
  destruct (NextRewardsState_rate _ _ _ _ _ _ W Hpool Hmb Hint Hb H1 Hr) as (E1 & E2 & E3).
  rewrite wrap64_small in E1 by (unfold u64; lia).
  apply rewardsRun_bound in H; [|by split|done|lia].
  assert (0 <= rs_RewardsRate s /\ 0 <= rs_RewardsResidue s) as [? ?] by (destruct W; unfold u64 in *; lia).
  assert (rs_RewardsRate s1' * Z.of_nat (length l)
    <= rs_RewardsRate s1' * cp_RewardsRateRefreshInterval proto).
  { apply Z.mul_le_mono_nonneg_l; unfold u64 in *; lia. }
  destruct Hp as [Hp|[Hp Hp2]]; [|rewrite Hp in H]; lia.
Qed.

(** The old rate is really paid: a pool can end an interval below its minimum
    balance of 10 when the interval is two rounds. *)
Example rewards_pool_overspent :
  let proto := ConsensusParams_zero <| cp_MinBalance := 10 |> <| cp_RewardsRateRefreshInterval := 2 |>
                 <| cp_PendingResidueRewards := true |> in
  snd <$> (match rewardsRun proto (mkRewardsState zero32 zero32 0 5 0 7, 20) 7 [1; 1; 1] with
           | Ok x => Some x | _ => None end) = Some 5.
Proof. reflexivity. Qed.

Lemma rewards_pool_solvent_witness :
  let proto := ConsensusParams_zero <| cp_MinBalance := 10 |> <| cp_RewardsRateRefreshInterval := 2 |>
                 <| cp_PendingResidueRewards := true |> in
  10 - 5 <= 5.
Proof.
  intros proto.
  refine (rewards_pool_solvent proto (mkRewardsState zero32 zero32 0 5 0 7) 20 7 1 [1; 1]
    (mkRewardsState zero32 zero32 15 0 0 11) 5 _ _ _ _ _ _ _ _ _ _ _ _).
  all: try (unfold u64; cbn; lia); try reflexivity.
  - split; unfold u64; cbn; lia.
  - repeat constructor; lia.
Defined.

(** ** Transactions in blocks *)

Section Encoding.
Context (consensus : gmap string ConsensusParams).

(** A block stores transactions faithfully.  If [EncodeSignedTxn] accepts a
    signed transaction for a block whose protocol has signed-transactions-in-block,
    [DecodeSignedTxn] gives back the transaction (with its caches reset) and its
    [ApplyData], although the genesis fields were stripped. *)
Theorem EncodeDecodeSignedTxn bh st ad stb :
  cp_SupportSignedTxnInBlock (protoOf consensus (bh_CurrentProtocol bh)) = true ->
  EncodeSignedTxn consensus bh st ad = Ok stb ->
  DecodeSignedTxn consensus bh stb = Ok (stx_ResetCaches st, ad).
Proof.
  intros Hs H. unfold EncodeSignedTxn, DecodeSignedTxn in *. rewrite Hs in *. cbn [negb] in *.
  destruct st as [sig msig lsig [ty [snd fee fv lv note gid gh grp lease] k p ac ax af txid v] len].
  unfold setGenesisID, setGenesisHash, stx_Header, stx_ResetCaches, ResetCaches in *. cbn in *.
  set (req := cp_RequireGenesisHash _) in *. clearbody req.
  apply result_bind_Ok in H as ([st1 b1] & H1 & H). apply result_bind_Ok in H as ([st2 b2] & H2 & H).
  inv_ok. revert H1. destruct (bool_decide_reflect (gid <> "")) as [E1|E1];
    [destruct (bool_decide_reflect (gid = bh_GenesisID bh)) as [E2|]; [|done]|apply dec_stable in E1];
    intros [= <- <-]; revert H2; cbn;
    (destruct (bool_decide_reflect (gh <> zero32)) as [E3|E3];
      [destruct (bool_decide_reflect (gh = bh_GenesisHash bh)) as [E4|]; [|done]
      |apply dec_stable in E3; destruct req; [done|]]);
    intros [= <- <-]; subst; cbn; first [done|by destruct req].
Qed.

(** Block encodings are canonical.  A stored transaction that decodes under a
    header with non-empty genesis fields is the encoding of what it decodes to, up
    to the caches: no other stored form decodes to the same transaction. *)
Theorem DecodeEncodeSignedTxn bh stb st ad :
  cp_SupportSignedTxnInBlock (protoOf consensus (bh_CurrentProtocol bh)) = true ->
  bh_GenesisID bh <> "" -> bh_GenesisHash bh <> zero32 ->
  DecodeSignedTxn consensus bh stb = Ok (st, ad) ->
  EncodeSignedTxn consensus bh st ad =
    Ok (mkSignedTxnInBlock
          (mkSignedTxnWithAD (stx_ResetCaches (sad_SignedTxn (stb_WithAD stb))) (sad_ApplyData (stb_WithAD stb)))
          (stb_HasGenesisID stb) (stb_HasGenesisHash stb)).
Proof.
  intros Hs Hid Hh H. unfold EncodeSignedTxn, DecodeSignedTxn in *. rewrite Hs in *. cbn [negb] in *.
  destruct stb as [[[sig msig lsig [ty [snd fee fv lv note gid gh grp lease] k p ac ax af txid v] len] ad0] b1 b2].
  unfold setGenesisID, setGenesisHash, stx_Header, stx_ResetCaches, ResetCaches in *. cbn in *.
  set (req := cp_RequireGenesisHash _) in *. clearbody req.
  apply result_bind_Ok in H as ([] & H1 & H). apply result_bind_Ok in H as ([] & H2 & H).
  apply result_bind_Ok in H as (st2 & H3 & H). inv_ok. apply bool_decide_eq_true in H1. subst gid.
  assert (gh = zero32) as -> by (by destruct b1; apply bool_decide_eq_true in H2).
  destruct b1, req, b2; inv_ok; cbn in *; try done;
    repeat (match goal with |- context [@bool_decide ?P ?d] => first
      [rewrite (@bool_decide_true P d) by done|rewrite (@bool_decide_false P d) by auto] end; cbn);
    reflexivity.
Qed.
End Encoding.

(** ** Groups *)

Section Groups.
Context {A : Type} (group : A -> Digest).

(** Two transactions belong to the same atomic group. *)
Definition joins (x y : A) : Prop := group x = group y /\ group x <> zero32.

Definition uniform (g : list A) : Prop :=
  match g with [] => False | x :: r => forall y, y ∈ r -> joins x y end.

Fixpoint canonical (gs : list (list A)) : Prop :=
  match gs with
  | [] => True
  | g :: gs' => uniform g /\ canonical gs' /\
      match g, gs' with x :: _, (y :: _) :: _ => ~ joins x y | _, _ => True end
  end.

(** The grouping loop as a recursive function. *)
Fixpoint collect (x : A) (r l : list A) : list (list A) :=
  match l with
  | [] => [x :: r]
  | y :: l => if bool_decide (group x = group y) && bool_decide (group x <> zero32)
              then collect x (r ++ [y]) l else (x :: r) :: collect y [] l
  end.

Lemma collect_fold l : forall x r res,
  (let '(res', last) := foldl (groupStep group) (res, x :: r) l in
   match last with [] => res' | _ => res' ++ [last] end) = res ++ collect x r l.
Proof.
  induction l as [|y l IH]; intros x r res; [done|]. cbn [foldl groupStep collect].
  destruct (decide (group x = group y)) as [E|E], (decide (group x = zero32)) as [F|F];
    rewrite ?(bool_decide_true (group x = group y)), ?(bool_decide_false (group x = group y)),
      ?(bool_decide_true (group x <> group y)), ?(bool_decide_false (group x <> group y)),
      ?(bool_decide_true (group x = zero32)), ?(bool_decide_false (group x = zero32)),
      ?(bool_decide_true (group x <> zero32)), ?(bool_decide_false (group x <> zero32)) by auto;
    cbn [andb orb app]; rewrite IH, <- ?app_assoc; done.
Qed.

Lemma toGroups_collect l : toGroups group l = match l with [] => [] | x :: l => collect x [] l end.
Proof. destruct l; [done|]. unfold toGroups. cbn [foldl groupStep]. apply collect_fold. Qed.

Lemma joins_dec x y : bool_decide (group x = group y) && bool_decide (group x <> zero32) = true <-> joins x y.
Proof. unfold joins. bool_hyps. done. Qed.

Lemma collect_sound l : forall x r, uniform (x :: r) ->
  concat (collect x r l) = x :: r ++ l /\ canonical (collect x r l) /\
  exists r' gs, collect x r l = (x :: r') :: gs.
Proof.
  induction l as [|y l IH]; intros x r Hu; cbn [collect].
  { rewrite !app_nil_r. cbn. rewrite app_nil_r. split_and!; try done. eauto. }
  destruct (_ && _) eqn:E.
  - apply joins_dec in E. destruct (IH x (r ++ [y])) as (IH1 & IH2 & IH3).
    { intros z [Hz|Hz%list_elem_of_singleton]%elem_of_app; [by apply Hu|by subst]. }
    rewrite IH1, <- app_assoc. done.
  - destruct (IH y []) as (IH1 & IH2 & (r' & gs & IH3)); [by intros ? ?%elem_of_nil|].
    split_and!; [cbn; by rewrite IH1| |eauto]. cbn. rewrite IH3 in *. split_and!; try done.
    intros ?%joins_dec. congruence.
Qed.

Lemma collect_uniform l x r2 : forall r1, (forall y, y ∈ r2 -> joins x y) ->
  collect x r1 (r2 ++ l) = collect x (r1 ++ r2) l.
Proof.
  induction r2 as [|y r2 IH]; intros r1 H; [by rewrite app_nil_r|]. cbn [app collect].
  rewrite (proj2 (joins_dec x y)) by (apply H; set_solver).
  rewrite IH by set_solver. by rewrite <- app_assoc.
Qed.

Lemma collect_complete gs : forall x r, canonical ((x :: r) :: gs) ->
  collect x [] (r ++ concat gs) = (x :: r) :: gs.
Proof.
  induction gs as [|g gs IH]; intros x r [Hu [Hc Hj]]; rewrite collect_uniform by done; [done|].
  destruct g as [|y r']; [by destruct Hc|]. cbn [app concat collect].
  destruct (_ && _) eqn:E; [by apply joins_dec in E|]. by rewrite (IH y r' Hc).
Qed.

Lemma toGroups_iff l gs : toGroups group l = gs <-> concat gs = l /\ canonical gs.
Proof.
  rewrite toGroups_collect. split.
  - intros <-. destruct l as [|x l]; [done|].
    destruct (collect_sound l x []) as (H1 & H2 & _); [by intros ? ?%elem_of_nil|]. done.
  - intros [<- Hc]. destruct gs as [|[|x r] gs]; [done|by destruct Hc|].
    cbn [concat app]. by rewrite (collect_complete gs x r Hc).
Qed.
End Groups.

Lemma SignedTxnGroupsFlatten_concat gs : SignedTxnGroupsFlatten gs = concat gs.
Proof.
  unfold SignedTxnGroupsFlatten. change (concat gs) with ([] ++ concat gs).
  generalize (@nil SignedTxn) as acc. induction gs as [|g gs IH]; intros acc; cbn.
  - by rewrite app_nil_r.
  - by rewrite IH, app_assoc.
Qed.

(** Grouping is the unique canonical splitting.  [SignedTxnsToGroups] returns
    [gs] exactly when [SignedTxnGroupsFlatten] gives the input back, each group is a
    non-empty run of transactions that share a group ID (a single transaction when
    the ID is zero), and adjacent groups are not parts of the same group. *)
Theorem SignedTxnsToGroups_unique txns gs :
  SignedTxnsToGroups txns = gs <-> SignedTxnGroupsFlatten gs = txns /\ canonical groupOf gs.
Proof. rewrite SignedTxnGroupsFlatten_concat. apply toGroups_iff. Qed.

(** ** Witnesses *)

Module Witness.
Definition pA : ConsensusParams :=
  ConsensusParams_zero <| cp_UpgradeVoteRounds := 2 |> <| cp_UpgradeThreshold := 1 |>
    <| cp_UpgradeWaitRounds := 2 |> <| cp_MaxVersionStringLen := 64 |>
    <| cp_SupportSignedTxnInBlock := true |> <| cp_ApprovedUpgrades := {["b" := true]} |>
    <| cp_MaxTimestampIncrement := 25 |> <| cp_SupportGenesisHash := true |>
    <| cp_RequireGenesisHash := true |>.
Definition pB : ConsensusParams := pA <| cp_ApprovedUpgrades := ∅ |>.
Definition tbl : gmap string ConsensusParams := {["a" := pA; "b" := pB]}.

Definition s0 : UpgradeState := mkUpgradeState "a" "" 0 0 0.
Definition s1 : UpgradeState := mkUpgradeState "a" "b" 1 3 5.
Definition s5 : UpgradeState := mkUpgradeState "b" "" 0 0 0.
Definition vyes : UpgradeVote := mkUpgradeVote "b" true.
Definition vno : UpgradeVote := mkUpgradeVote "" false.

Lemma tbl_cases v p : tbl !! v = Some p -> p = pA \/ p = pB.
Proof.
  unfold tbl. intros [[_ <-]|[_ [_ <-]%lookup_singleton_Some]]%lookup_insert_Some; auto.
Qed.

Lemma tbl_ok : consensus_ok tbl 100.
Proof.
  intros v p [->| ->]%tbl_cases; (split; [split_and!|split]); vm_compute; done.
Qed.

Lemma chain4 : upgrade_chain tbl s0 0 [vyes; vno; vno; vno] s1 4.
Proof.
  apply (chain_snoc _ _ _ [vyes; vno; vno] s1 3 vno); [|vm_compute; reflexivity].
  apply (chain_snoc _ _ _ [vyes; vno] s1 2 vno); [|vm_compute; reflexivity].
  apply (chain_snoc _ _ _ [vyes] s1 1 vno); [|vm_compute; reflexivity].
  apply (chain_snoc _ _ _ [] s0 0 vyes); [|vm_compute; reflexivity].
  constructor.
Qed.

(** An approval after the deadline is refused, so it cannot save the proposal. *)
Example late_approval : applyUpgradeVote tbl (s1 <| us_NextProtocolApprovals := 0 |>) 3 (mkUpgradeVote "" true) =
  Err (Errorf "computeUpgradeState: approval after vote deadline").
Proof. vm_compute. reflexivity. Qed.

Lemma upgrade_needs_threshold_witness : "b" = "b" /\ "b" <> "" /\ 4 + 1 = 5 /\ 3 < 4 + 1 /\ 1 <= 1 /\
  exists p v, 0 < p /\ [vyes; vno; vno; vno] !! Z.to_nat (p - 0 - 1) = Some v /\ uv_UpgradePropose v = "b" /\
    4 + 1 = p + 2 + 2 /\ 1 <= approvalsIn p (p + 2) (0 + 1) [vyes; vno; vno; vno].
Proof.
  refine (upgrade_needs_threshold tbl 100 s0 0 [vyes; vno; vno; vno] s1 4 vno s5 pA tbl_ok chain4 _ _ _ _ _ _ _ _ _);
    try lia; try reflexivity; discriminate.
Defined.

Lemma upgrade_happens_witness : s5 = mkUpgradeState "b" "" 0 0 0.
Proof.
  refine (upgrade_happens tbl 100 s0 0 [vyes; vno; vno; vno] s1 4 vno s5 pA tbl_ok chain4 _ _ _ _ _ _ _ _ _ _);
    try lia; try reflexivity; discriminate.
Defined.

Definition one32 : list Z := replicate 32 1.
Definition hdr0 : BlockHeader :=
  mkBlockHeader 7 zero32 zero32 zero32 1000 "test" one32 RewardsState_zero s0 vno 0.

Lemma hdr0_ready : ready tbl hdr0 pA.
Proof.
  split.
  - reflexivity.
  - split; cbn; [done|done|lia].
  - split; vm_compute; done.
  - split_and!; vm_compute; done.
  - by left.
  - discriminate.
  - intros v p [->| ->]%tbl_cases _; vm_compute; done.
  - intros v p [->| ->]%tbl_cases; vm_compute; done.
  - cbn. lia.
Qed.

Lemma MakeBlock_PreCheck_witness :
  exists blk, MakeBlock tbl (λ _, zero32) (λ _ _, zero32) ["b"] 5000 hdr0 = Ok blk /\
    PreCheck tbl (λ _, zero32) (blk_BlockHeader blk) hdr0 = Ok tt.
Proof.
  apply (MakeBlock_PreCheck tbl (λ _, zero32) (λ _ _, zero32) ["b"] 5000 hdr0 pA).
  - vm_compute. reflexivity.
  - exact hdr0_ready.
Defined.

Definition tx0 : Transaction :=
  mkTransaction PaymentTx (mkHeader one32 1000 1 100 None "test" one32 zero32 zero32)
    KeyregTxnFields_zero (mkPaymentTxnFields one32 5 zero32) AssetConfigTxnFields_zero
    AssetTransferTxnFields_zero AssetFreezeTxnFields_zero zero32 true.
Definition stx0 : SignedTxn :=
  mkSignedTxn zero32 (mkMultisigSig 0 0 None) (mkLogicSig [] zero32 (mkMultisigSig 0 0 None) []) tx0 200.
Definition stb0 : SignedTxnInBlock :=
  mkSignedTxnInBlock
    (mkSignedTxnWithAD (setGenesisHash (setGenesisID stx0 "") zero32) (mkApplyData 0 1 2 3)) true false.

Lemma EncodeDecodeSignedTxn_witness :
  DecodeSignedTxn tbl hdr0 stb0 = Ok (stx_ResetCaches stx0, mkApplyData 0 1 2 3).
Proof. apply EncodeDecodeSignedTxn; vm_compute; reflexivity. Defined.

Lemma DecodeEncodeSignedTxn_witness :
  EncodeSignedTxn tbl hdr0 (stx_ResetCaches stx0) (mkApplyData 0 1 2 3) =
    Ok (mkSignedTxnInBlock
          (mkSignedTxnWithAD (stx_ResetCaches (sad_SignedTxn (stb_WithAD stb0))) (sad_ApplyData (stb_WithAD stb0)))
          (stb_HasGenesisID stb0) (stb_HasGenesisHash stb0)).
Proof. apply DecodeEncodeSignedTxn; (discriminate || (vm_compute; reflexivity)). Defined.
End Witness.
