(* ===== verification/Totals.v ===== *)
(** Account totals (src/ledger/totals.go): the sums of algos and reward units per
    account status that the ledger keeps for every round.

    Pointer receivers become state passing; the [OverflowTracker] passed by pointer
    is the boolean [ot] threaded through the calls.  [totals_repr] relates the
    running totals to a recomputation over all accounts. *)

From S2P Require Import Prelude Config Basics.

Record AlgoCount := mkAlgoCount { ac_Money : MicroAlgos; ac_RewardUnits : Z }.
#[export] Instance AlgoCount_eq_dec : EqDecision AlgoCount.
Proof. solve_decision. Defined.

Definition ac_applyRewards (ac : AlgoCount) (rewardsPerUnit : Z) (ot : bool) : AlgoCount * bool :=
  let '(rewardsGottenThisRound, ot) := ot_Mul ot (ac_RewardUnits ac) rewardsPerUnit in
  let '(money, ot) := ot_AddA ot (ac_Money ac) rewardsGottenThisRound in
  (mkAlgoCount money (ac_RewardUnits ac), ot).

Record AccountTotals := mkAccountTotals {
  at_Online : AlgoCount;
  at_Offline : AlgoCount;
  at_NotParticipating : AlgoCount;
  at_RewardsLevel : Z
}.
#[export] Instance AccountTotals_eq_dec : EqDecision AccountTotals.
Proof. solve_decision. Defined.
#[export] Instance AccountTotals_eta : Eta AccountTotals := λ r,
  mkAccountTotals (at_Online r) (at_Offline r) (at_NotParticipating r) (at_RewardsLevel r).
Definition AccountTotals_zero : AccountTotals :=
  mkAccountTotals (mkAlgoCount 0 0) (mkAlgoCount 0 0) (mkAlgoCount 0 0) 0.

(** The field that [statusField] points at, read and written. *)
Definition statusField (t : AccountTotals) (status : Status) : AlgoCount :=
  match status with
  | Online => at_Online t
  | Offline => at_Offline t
  | NotParticipating => at_NotParticipating t
  end.
Definition setStatusField (t : AccountTotals) (status : Status) (ac : AlgoCount) : AccountTotals :=
  match status with
  | Online => t <| at_Online := ac |>
  | Offline => t <| at_Offline := ac |>
  | NotParticipating => t <| at_NotParticipating := ac |>
  end.

Definition addAccount (proto : ConsensusParams) (data : AccountData) (t : AccountTotals) (ot : bool)
    : result (AccountTotals * bool) :=
  let sum := statusField t (ad_Status data) in
  m ← Money data proto (at_RewardsLevel t);
  let '(money, ot) := ot_AddA ot (ac_Money sum) m.1 in
  u ← RewardUnits (ad_MicroAlgos data) proto;
  let '(units, ot) := ot_Add ot (ac_RewardUnits sum) u in
  mret (setStatusField t (ad_Status data) (mkAlgoCount money units), ot).

Definition delAccount (proto : ConsensusParams) (data : AccountData) (t : AccountTotals) (ot : bool)
    : result (AccountTotals * bool) :=
  let sum := statusField t (ad_Status data) in
  m ← Money data proto (at_RewardsLevel t);
  let '(money, ot) := ot_SubA ot (ac_Money sum) m.1 in
  u ← RewardUnits (ad_MicroAlgos data) proto;
  let '(units, ot) := ot_Sub ot (ac_RewardUnits sum) u in
  mret (setStatusField t (ad_Status data) (mkAlgoCount money units), ot).

Definition at_applyRewards (rewardsLevel : Z) (t : AccountTotals) (ot : bool) : AccountTotals * bool :=
  let '(rewardsPerUnit, ot) := ot_Sub ot rewardsLevel (at_RewardsLevel t) in
  let t := t <| at_RewardsLevel := rewardsLevel |> in
  let '(online, ot) := ac_applyRewards (at_Online t) rewardsPerUnit ot in
  let t := t <| at_Online := online |> in
  let '(offline, ot) := ac_applyRewards (at_Offline t) rewardsPerUnit ot in
  (t <| at_Offline := offline |>, ot).

Definition Participating (t : AccountTotals) : result MicroAlgos :=
  let '(res, overflowed) := OAddA (ac_Money (at_Online t)) (ac_Money (at_Offline t)) in
  if overflowed then Panic "AccountTotals.Participating(): overflow" else Ok res.

Definition All (t : AccountTotals) : result MicroAlgos :=
  participating ← Participating t;
  let '(res, overflowed) := OAddA (ac_Money (at_NotParticipating t)) participating in
  if overflowed then Panic "AccountTotals.All(): overflow" else Ok res.

Definition at_RewardUnits (t : AccountTotals) : result Z :=
  let '(res, overflowed) := OAdd (ac_RewardUnits (at_Online t)) (ac_RewardUnits (at_Offline t)) in
  if overflowed then Panic "AccountTotals.RewardUnits(): overflow" else Ok res.

(** ** The totals as sums over accounts *)

(** Sum of [f] over the accounts of [D] that have status [st]. *)
Definition sum_of (st : Status) (f : AccountData -> Z) (V : View) (D : list Address) : Z :=
  sumZ (λ a, from_option (λ d, if decide (ad_Status d = st) then f d else 0) 0 (V a)) D.

Definition rawUnits (p : ConsensusParams) (d : AccountData) : Z := ad_MicroAlgos d / cp_RewardUnit p.

Record totals_repr (p : ConsensusParams) (lvl : Z) (V : View) (D : list Address) (t : AccountTotals) : Prop := {
  tr_level : at_RewardsLevel t = lvl;
  tr_money : forall st, ac_Money (statusField t st) = sum_of st (money p lvl) V D;
  tr_units : forall st, ac_RewardUnits (statusField t st) = sum_of st (rawUnits p) V D
}.

(** Every account of [D] is well formed and its rewards base is not in the future. *)
Definition current (p : ConsensusParams) (lvl : Z) (V : View) (D : list Address) : Prop :=
  forall a d, a ∈ D -> V a = Some d ->
    wf_acct d /\ (ad_Status d <> NotParticipating -> ad_RewardsBase d <= lvl).

Lemma statusField_set t st ac st' :
  statusField (setStatusField t st ac) st' = if decide (st' = st) then ac else statusField t st'.
Proof. by destruct st, st'. Qed.

Lemma level_set t st ac : at_RewardsLevel (setStatusField t st ac) = at_RewardsLevel t.
Proof. by destruct st. Qed.

Lemma sum_of_nonneg st f V D : (forall a d, a ∈ D -> V a = Some d -> 0 <= f d) -> 0 <= sum_of st f V D.
Proof.
  intros H. apply sumZ_nonneg. intros a Ha. destruct (V a) as [d|] eqn:E; cbn; [|lia].
  case_decide; [by eapply H|lia].
Qed.

Lemma sum_of_ge st f V D a d : (forall a d, a ∈ D -> V a = Some d -> 0 <= f d) ->
  a ∈ D -> V a = Some d -> ad_Status d = st -> f d <= sum_of st f V D.
Proof.
  intros H Ha Hd <-. assert (f d = from_option (λ d', if decide (ad_Status d' = ad_Status d) then f d' else 0) 0 (V a)) as ->.
  { rewrite Hd. cbn. by rewrite decide_True. }
  apply (sumZ_ge (λ a, from_option (λ d', if decide (ad_Status d' = ad_Status d) then f d' else 0) 0 (V a))); [|done].
  intros b Hb. destruct (V b) as [db|] eqn:E; cbn; [|lia]. case_decide; [by eapply H|lia].
Qed.

Lemma sum_of_fupd st f (V V' : View) D a d d' : NoDup D -> a ∈ D -> V a = Some d ->
  (forall x, V' x = fupd V a (Some d') x) ->
  sum_of st f V' D = sum_of st f V D - (if decide (ad_Status d = st) then f d else 0)
                     + (if decide (ad_Status d' = st) then f d' else 0).
Proof.
  intros Hnd Ha Hd HV'. unfold sum_of.
  rewrite (sumZ_update (λ a, from_option (λ d, if decide (ad_Status d = st) then f d else 0) 0 (V a)) _ D a Hnd Ha).
  - rewrite HV', fupd_eq, Hd. done.
  - intros b Hb. by rewrite HV', fupd_ne.
Qed.

Section Totals.
Context (p : ConsensusParams) (Hp : 0 < cp_RewardUnit p).

Lemma Money_spec d lvl : wf_acct d -> u64 lvl -> (ad_Status d <> NotParticipating -> ad_RewardsBase d <= lvl) ->
  money p lvl d < 2 ^ 64 -> exists r, Money d p lvl = Ok (money p lvl d, r).
Proof.
  intros Hwf Hl Hb Hm. unfold Money. destruct (decide (ad_Status d = NotParticipating)) as [Hs|Hs].
  - unfold WithUpdatedRewards. rewrite decide_False by naive_solver. cbn.
    rewrite money_updated_base by auto. eauto.
  - rewrite WithUpdatedRewards_spec by done. specialize (Hb Hs).
    rewrite (proj2 (Z.leb_le _ _)), (proj2 (Z.ltb_lt _ _)) by done. cbn. eauto.
Qed.

Lemma rawUnits_range d : wf_acct d -> 0 <= rawUnits p d <= ad_MicroAlgos d.
Proof.
  intros [[H1 H2] _ _ _ _]. unfold rawUnits. split; [apply Z.div_pos; lia|].
  apply Z.div_le_upper_bound; nia.
Qed.

Lemma money_ge_algos lvl d : wf_acct d -> (ad_Status d <> NotParticipating -> ad_RewardsBase d <= lvl) ->
  ad_MicroAlgos d <= money p lvl d.
Proof. intros. by apply money_nonneg. Qed.

Lemma RewardUnits_spec a : RewardUnits a p = Ok (a / cp_RewardUnit p).
Proof. unfold RewardUnits. by rewrite (proj2 (Z.eqb_neq _ _)) by lia. Qed.

Lemma units_le_money lvl V D st : current p lvl V D ->
  0 <= sum_of st (rawUnits p) V D <= sum_of st (money p lvl) V D.
Proof.
  intros HC. split.
  - apply sum_of_nonneg. intros a d Ha Hd. destruct (HC a d Ha Hd). by apply rawUnits_range.
  - apply sumZ_le. intros a Ha. destruct (V a) as [d|] eqn:E; cbn; [|lia]. destruct (HC a d Ha E) as [W B].
    case_decide; [|lia]. pose proof (rawUnits_range d W). pose proof (money_ge_algos lvl d W B). lia.
Qed.

Lemma sum_of_le_total lvl V D st : current p lvl V D -> sum_of st (money p lvl) V D <= total p lvl V D.
Proof.
  intros HC. apply sumZ_le. intros a Ha. destruct (V a) as [d|] eqn:E; cbn; [|lia].
  destruct (HC a d Ha E) as [W B]. pose proof (money_ge_algos lvl d W B). destruct W as [[]].
  case_decide; lia.
Qed.

Lemma total_split lvl V D : total p lvl V D =
  sum_of NotParticipating (money p lvl) V D + (sum_of Online (money p lvl) V D + sum_of Offline (money p lvl) V D).
Proof.
  unfold total, sum_of. rewrite <- !sumZ_add. apply sumZ_ext. intros a _.
  destruct (V a) as [d|]; cbn; [|lia]. destruct (ad_Status d) eqn:E; repeat case_decide; try lia; congruence.
Qed.

Lemma current_fupd lvl (V V' : View) D a d : current p lvl V D ->
  wf_acct d -> (ad_Status d <> NotParticipating -> ad_RewardsBase d <= lvl) ->
  (forall x, V' x = fupd V a (Some d) x) -> current p lvl V' D.
Proof.
  intros HC W B HV' x dx Hx. rewrite HV'. unfold fupd. case_decide; [|by apply HC].
  by intros [= <-].
Qed.

Lemma total_ge lvl V D a d : current p lvl V D -> a ∈ D -> V a = Some d -> money p lvl d <= total p lvl V D.
Proof.
  intros HC Ha Hd. etrans; [|by apply (sum_of_le_total lvl V D (ad_Status d))].
  eapply sum_of_ge; try done. intros b db Hb Hdb. destruct (HC b db Hb Hdb) as [W B].
  pose proof (money_ge_algos lvl db W B). destruct W as [[]]. lia.
Qed.

Lemma delAccount_Ok d t ot : let lvl := at_RewardsLevel t in let f := statusField t (ad_Status d) in
  wf_acct d -> u64 lvl -> (ad_Status d <> NotParticipating -> ad_RewardsBase d <= lvl) ->
  money p lvl d <= ac_Money f < 2 ^ 64 -> rawUnits p d <= ac_RewardUnits f < 2 ^ 64 ->
  delAccount p d t ot = Ok (setStatusField t (ad_Status d)
    (mkAlgoCount (ac_Money f - money p lvl d) (ac_RewardUnits f - rawUnits p d)), ot).
Proof.
  intros lvl f W Hl B Hm Hu. pose proof (money_ge_algos lvl d W B). pose proof (rawUnits_range d W).
  destruct (Money_spec d lvl W Hl B ltac:(lia)) as [r Hr]. pose proof W as [[? ?]].
  unfold delAccount. fold lvl f. rewrite Hr, RewardUnits_spec. fold (rawUnits p d). cbn [mbind result_bind fst].
  unfold ot_SubA, ot_Sub. rewrite !OSub_spec by (unfold u64; lia).
  rewrite !(proj2 (Z.leb_le _ _)) by lia. by rewrite !orb_false_r.
Qed.

Lemma addAccount_Ok d t ot : let lvl := at_RewardsLevel t in let f := statusField t (ad_Status d) in
  wf_acct d -> u64 lvl -> (ad_Status d <> NotParticipating -> ad_RewardsBase d <= lvl) ->
  0 <= ac_Money f -> 0 <= ac_RewardUnits f ->
  ac_Money f + money p lvl d < 2 ^ 64 -> ac_RewardUnits f + rawUnits p d < 2 ^ 64 ->
  addAccount p d t ot = Ok (setStatusField t (ad_Status d)
    (mkAlgoCount (ac_Money f + money p lvl d) (ac_RewardUnits f + rawUnits p d)), ot).
Proof.
  intros lvl f W Hl B Hm0 Hu0 Hm Hu. pose proof (money_ge_algos lvl d W B). pose proof (rawUnits_range d W).
  destruct (Money_spec d lvl W Hl B ltac:(lia)) as [r Hr]. pose proof W as [[? ?]].
  unfold addAccount. fold lvl f. rewrite Hr, RewardUnits_spec. fold (rawUnits p d). cbn [mbind result_bind fst].
  unfold ot_AddA, ot_Add. rewrite !OAdd_spec by (unfold u64; lia).
  rewrite !(proj2 (Z.ltb_lt _ _)) by lia. by rewrite !orb_false_r.
Qed.

(** Replacing an account in the totals. *)
Lemma replace_spec lvl (V V' : View) D t ot a d d' : u64 lvl -> NoDup D -> a ∈ D -> V a = Some d ->
  (forall x, V' x = fupd V a (Some d') x) ->
  current p lvl V D -> current p lvl V' D -> total p lvl V D < 2 ^ 64 -> total p lvl V' D < 2 ^ 64 ->
  totals_repr p lvl V D t ->
  exists t1 t2, delAccount p d t ot = Ok (t1, ot) /\ addAccount p d' t1 ot = Ok (t2, ot) /\
    totals_repr p lvl V' D t2.
Proof.
  intros Hl Hnd Ha Hd HV' HC HC' HT HT' [Rl Rm Ru].
  assert (V' a = Some d') as Hd' by (by rewrite HV', fupd_eq).
  destruct (HC a d Ha Hd) as [W B], (HC' a d' Ha Hd') as [W' B'].
  assert (forall st f, sum_of st f V' D = sum_of st f V D - (if decide (ad_Status d = st) then f d else 0)
                     + (if decide (ad_Status d' = st) then f d' else 0)) as Hs by (intros; by eapply sum_of_fupd).
  pose proof (units_le_money lvl V D (ad_Status d) HC). pose proof (sum_of_le_total lvl V D (ad_Status d) HC).
  pose proof (units_le_money lvl V' D (ad_Status d') HC'). pose proof (sum_of_le_total lvl V' D (ad_Status d') HC').
  pose proof (units_le_money lvl V D (ad_Status d') HC).
  assert (money p lvl d <= sum_of (ad_Status d) (money p lvl) V D /\
          rawUnits p d <= sum_of (ad_Status d) (rawUnits p) V D) as [? ?].
  { split; (eapply sum_of_ge; try done); intros b db Hb Hdb; destruct (HC b db Hb Hdb) as [Wb Bb];
      pose proof (money_ge_algos lvl db Wb Bb); pose proof (rawUnits_range db Wb); destruct Wb as [[]]; lia. }
  eexists _, _. rewrite delAccount_Ok by (rewrite ?Rl, ?Rm, ?Ru; (done || lia)). split; [reflexivity|].
  rewrite addAccount_Ok; rewrite ?level_set, ?statusField_set, ?Rl; try done.
  1: { split; [reflexivity|]. split; [by rewrite !level_set| |]; intros st; rewrite !statusField_set, Hs;
         repeat case_decide; cbn; subst; rewrite ?Rm, ?Ru, ?Rl; try congruence; lia. }
  all: rewrite ?Hs in *; repeat case_decide; cbn; rewrite ?Rm, ?Ru, ?Rl; try congruence; try lia.
  1-2: replace (ad_Status d') with (ad_Status d) in * by congruence; lia.
Qed.

(** ** A round of changes *)

(** The loop of [accountUpdates.newBlock] over the modified accounts: each entry
    is an address with its old and new data. *)
Fixpoint updateTotals (l : list (Address * (AccountData * AccountData))) (t : AccountTotals) (ot : bool)
    : result (AccountTotals * bool) :=
  match l with
  | [] => Ok (t, ot)
  | (_, (old, new)) :: l =>
    r ← delAccount p old t ot;
    r ← addAccount p new r.1 r.2;
    updateTotals l r.1 r.2
  end.

(** The view after the changes. *)
Definition applyDeltas (V : View) (l : list (Address * (AccountData * AccountData))) : View :=
  foldl (λ V x, fupd V x.1 (Some x.2.2)) V l.

Lemma applyDeltas_other (V : View) l a : a ∉ l.*1 -> applyDeltas V l a = V a.
Proof.
  revert V. induction l as [|[b [o n]] l IH]; intros V Ha; [done|]. cbn in *.
  rewrite IH by set_solver. apply fupd_ne. set_solver.
Qed.

Definition delta_ok (lvl : Z) (V : View) (D : list Address) (x : Address * (AccountData * AccountData)) : Prop :=
  x.1 ∈ D /\ V x.1 = Some x.2.1 /\ wf_acct x.2.2 /\
  (ad_Status x.2.2 <> NotParticipating -> ad_RewardsBase x.2.2 <= lvl).

Lemma updateTotals_repr lvl D l : forall (V : View) t ot, u64 lvl -> NoDup D -> NoDup l.*1 ->
  Forall (delta_ok lvl V D) l -> current p lvl V D -> totals_repr p lvl V D t ->
  total p lvl V D + sumZ (λ x, money p lvl x.2.2) l < 2 ^ 64 ->
  exists t', updateTotals l t ot = Ok (t', ot) /\ totals_repr p lvl (applyDeltas V l) D t'.
Proof.
  induction l as [|[a [d d']] l IH]; intros V t ot Hl Hnd Hnl HF HC HR HT; [by exists t|].
  cbn in Hnl. apply NoDup_cons in Hnl as [Hal Hnl].
  apply Forall_cons in HF as [(Ha & Hd & W' & B') HF]. cbn [fst snd] in *.
  assert (forall x, x ∈ l -> 0 <= money p lvl x.2.2) as Hpos.
  { intros x Hx. rewrite Forall_forall in HF. destruct (HF x Hx) as (_ & _ & Wx & Bx).
    pose proof (money_ge_algos lvl x.2.2 Wx Bx). destruct Wx as [[]]. lia. }
  pose proof (sumZ_nonneg _ _ Hpos). pose proof (money_ge_algos lvl d' W' B').
  destruct (HC a d Ha Hd) as [W B]. pose proof (money_ge_algos lvl d W B).
  pose proof W as [[? ?]]. pose proof W' as [[? ?]].
  set (V1 := fupd V a (Some d')). cbn [sumZ fst snd] in HT.
  assert (current p lvl V1 D) as HC1 by (by apply (current_fupd lvl V V1 D a d')).
  assert (total p lvl V1 D = total p lvl V D - money p lvl d + money p lvl d') as HT1 by (by eapply total_fupd).
  destruct (replace_spec lvl V V1 D t ot a d d' Hl Hnd Ha Hd (λ x, eq_refl) HC HC1) as (t1 & t2 & E1 & E2 & HR2);
    [lia|lia|done|].
  cbn [updateTotals]. rewrite E1. cbn [mbind result_bind fst snd]. rewrite E2. cbn [mbind result_bind fst snd].
  change (applyDeltas V ((a, (d, d')) :: l)) with (applyDeltas V1 l).
  apply IH; try done; [|lia]. apply Forall_forall. intros x Hx. rewrite Forall_forall in HF.
  destruct (HF x Hx) as (? & Hx2 & ?). split; [done|]. split; [|done]. unfold V1. rewrite fupd_ne; [done|].
  intros E. apply Hal. rewrite <- E. by apply list_elem_of_fmap_2.
Qed.

(** Moving the totals to a new rewards level. *)
Lemma money_level lvl lvl' d : money p lvl' d = money p lvl d +
  (if decide (ad_Status d = NotParticipating) then 0 else rawUnits p d * (lvl' - lvl)).
Proof.
  unfold money, pending, units, rawUnits. repeat case_decide; try congruence; lia.
Qed.

Lemma sum_of_level lvl lvl' V D st : sum_of st (money p lvl') V D = sum_of st (money p lvl) V D +
  (if decide (st = NotParticipating) then 0 else sum_of st (rawUnits p) V D * (lvl' - lvl)).
Proof.
  unfold sum_of. case_decide as E.
  - rewrite Z.add_0_r. apply sumZ_ext. intros a _. destruct (V a) as [d|]; cbn; [|done].
    case_decide; [|done]. rewrite (money_level lvl). rewrite decide_True by congruence. lia.
  - rewrite <- sumZ_mul_r, <- sumZ_add. apply sumZ_ext. intros a _. destruct (V a) as [d|]; cbn; [|done].
    case_decide; [|lia]. rewrite (money_level lvl). by rewrite decide_False by congruence.
Qed.

Lemma ac_applyRewards_Ok ac r ot : u64 (ac_RewardUnits ac) -> u64 r -> u64 (ac_Money ac) ->
  ac_Money ac + ac_RewardUnits ac * r < 2 ^ 64 ->
  ac_applyRewards ac r ot = (mkAlgoCount (ac_Money ac + ac_RewardUnits ac * r) (ac_RewardUnits ac), ot).
Proof.
  intros Hu Hr Hm Hlt. unfold ac_applyRewards, ot_Mul, ot_AddA, ot_Add.
  assert (0 <= ac_RewardUnits ac * r) by (unfold u64 in *; nia).
  rewrite OMul_spec, (proj2 (Z.ltb_lt (_ * _) _)) by (done || (unfold u64 in *; lia)).
  rewrite OAdd_spec, (proj2 (Z.ltb_lt _ _)) by (unfold u64 in *; lia). by rewrite !orb_false_r.
Qed.

Lemma current_mono lvl lvl' V D : lvl <= lvl' -> current p lvl V D -> current p lvl' V D.
Proof.
  intros Hle HC a d Ha Hd. destruct (HC a d Ha Hd) as [W B]. split; [done|]. intros H. specialize (B H). lia.
Qed.

Lemma applyRewards_repr lvl lvl' V D t ot : u64 lvl -> u64 lvl' -> lvl <= lvl' -> current p lvl V D ->
  total p lvl' V D < 2 ^ 64 -> totals_repr p lvl V D t ->
  exists t', at_applyRewards lvl' t ot = (t', ot) /\ totals_repr p lvl' V D t'.
Proof.
  intros Hl Hl' Hle HC HT [Rl Rm Ru]. pose proof (current_mono _ _ _ _ Hle HC) as HC'.
  pose proof (sum_of_le_total lvl' V D Online HC'). pose proof (sum_of_le_total lvl' V D Offline HC').
  pose proof (units_le_money lvl V D Online HC). pose proof (units_le_money lvl V D Offline HC).
  pose proof (sum_of_level lvl lvl' V D Online) as E1. pose proof (sum_of_level lvl lvl' V D Offline) as E2.
  pose proof (sum_of_level lvl lvl' V D NotParticipating) as E3.
  rewrite decide_False in E1 by done. rewrite decide_False in E2 by done. rewrite decide_True in E3 by done.
  pose proof (Rm Online) as M1. pose proof (Rm Offline) as M2. pose proof (Ru Online) as U1. pose proof (Ru Offline) as U2.
  cbn [statusField] in *.
  assert (0 <= sum_of Online (rawUnits p) V D * (lvl' - lvl)) by (apply Z.mul_nonneg_nonneg; lia).
  assert (0 <= sum_of Offline (rawUnits p) V D * (lvl' - lvl)) by (apply Z.mul_nonneg_nonneg; lia).
  unfold at_applyRewards, ot_Sub. rewrite Rl, OSub_spec, (proj2 (Z.leb_le _ _)), orb_false_r by done. cbn.
  rewrite ac_applyRewards_Ok by (rewrite ?M1, ?U1; unfold u64 in *; lia). cbn.
  rewrite ac_applyRewards_Ok by (rewrite ?M2, ?U2; unfold u64 in *; lia). cbn.
  eexists. split; [reflexivity|]. split; [done| |]; intros []; cbn.
  - rewrite M2, U2. lia.
  - rewrite M1, U1. lia.
  - specialize (Rm NotParticipating). cbn in Rm. lia.
  - apply U2.
  - apply U1.
  - apply (Ru NotParticipating).
Qed.

Lemma All_repr lvl V D t : current p lvl V D -> total p lvl V D < 2 ^ 64 -> totals_repr p lvl V D t ->
  All t = Ok (total p lvl V D).
Proof.
  intros HC HT [Rl Rm Ru]. pose proof (total_split lvl V D) as E.
  pose proof (units_le_money lvl V D Online HC). pose proof (units_le_money lvl V D Offline HC).
  pose proof (units_le_money lvl V D NotParticipating HC).
  pose proof (Rm Online) as M1. pose proof (Rm Offline) as M2. pose proof (Rm NotParticipating) as M3.
  cbn [statusField] in *. unfold All, Participating, OAddA. rewrite M1, M2, M3.
  rewrite OAdd_spec, (proj2 (Z.ltb_lt _ _)) by (unfold u64; lia). cbn [mbind result_bind].
  rewrite OAdd_spec, (proj2 (Z.ltb_lt _ _)) by (unfold u64; lia). by rewrite E.
Qed.
End Totals.
