(* ===== verification/Cow.v ===== *)
(** The copy-on-write state of block evaluation (src/ledger/cow.go and the
    [Balances] methods of src/ledger/eval.go).

    A [roundCowState] holds the changes of a round, or of one transaction group,
    over a parent.  The Go interface [roundCowParent] is a record of functions; a
    [roundCowState] is itself such a parent ([asParent]).  A child is committed by
    [commitToParent], which returns the updated parent: the parent is not touched
    while a child is in use, so its snapshot in the child equals the pointer.

    The instance [Balances roundCowState] is the [transactions.Balances]
    implementation, and [cow_laws] discharges the laws [TransactionsSpec] is proved
    against. *)

From S2P Require Import Prelude Config Basics Transactions TransactionsSpec AssetAuthority Bookkeeping.

Record accountDelta := mkAccountDelta { acd_old : AccountData; acd_new : AccountData }.
#[export] Instance accountDelta_eq_dec : EqDecision accountDelta.
Proof. solve_decision. Defined.

Record modifiedAsset := mkModifiedAsset {
  ma_created : bool;
  ma_creator : Address;
  ma_ndeltas : Z
}.
#[export] Instance modifiedAsset_eta : Eta modifiedAsset := λ r,
  mkModifiedAsset (ma_created r) (ma_creator r) (ma_ndeltas r).
#[export] Instance modifiedAsset_eq_dec : EqDecision modifiedAsset.
Proof. solve_decision. Defined.

(** A [txlease] is a sender with a lease. *)
Definition txlease : Type := Address * bytes.

Record StateDelta := mkStateDelta {
  sd_accts : gmap Address accountDelta;
  sd_Txids : gmap Txid Round;
  sd_txleases : gmap txlease Round;
  sd_assets : gmap AssetIndex modifiedAsset;
  sd_hdr : BlockHeader
}.
#[export] Instance StateDelta_eta : Eta StateDelta := λ r,
  mkStateDelta (sd_accts r) (sd_Txids r) (sd_txleases r) (sd_assets r) (sd_hdr r).

Record roundCowParent := mkRoundCowParent {
  rcp_lookup : Address -> result AccountData;
  rcp_isDup : Round -> Round -> Txid -> txlease -> result bool;
  rcp_txnCounter : Z;
  rcp_getAssetCreator : AssetIndex -> result Address
}.

Record roundCowState := mkRoundCowState {
  rcs_lookupParent : roundCowParent;
  rcs_proto : ConsensusParams;
  rcs_mods : StateDelta
}.
#[export] Instance roundCowState_eta : Eta roundCowState := λ r,
  mkRoundCowState (rcs_lookupParent r) (rcs_proto r) (rcs_mods r).

Definition emptyDelta (hdr : BlockHeader) : StateDelta := mkStateDelta ∅ ∅ ∅ ∅ hdr.

Definition makeRoundCowState (consensus : gmap string ConsensusParams) (b : roundCowParent)
    (hdr : BlockHeader) : roundCowState :=
  mkRoundCowState b (protoOf consensus (bh_CurrentProtocol hdr)) (emptyDelta hdr).

Definition rewardsLevel (cb : roundCowState) : Z := bh_RewardsLevel (sd_hdr (rcs_mods cb)).

Definition getAssetCreator (cb : roundCowState) (aidx : AssetIndex) : result Address :=
  match sd_assets (rcs_mods cb) !! aidx with
  | Some delta => if ma_created delta then Ok (ma_creator delta)
                  else Err (Errorf "asset has been deleted")
  | None => rcp_getAssetCreator (rcs_lookupParent cb) aidx
  end.

Definition lookup (cb : roundCowState) (addr : Address) : result AccountData :=
  match sd_accts (rcs_mods cb) !! addr with
  | Some d => Ok (acd_new d)
  | None => rcp_lookup (rcs_lookupParent cb) addr
  end.

Definition isDup (cb : roundCowState) (firstValid lastValid : Round) (txid : Txid) (txl : txlease)
    : result bool :=
  if bool_decide (is_Some (sd_Txids (rcs_mods cb) !! txid)) then Ok true
  else if cp_SupportTransactionLeases (rcs_proto cb) && bool_decide (txl.2 <> zero32)
          && match sd_txleases (rcs_mods cb) !! txl with
             | Some expires => bh_Round (sd_hdr (rcs_mods cb)) <=? expires
             | None => false
             end
  then Ok true
  else rcp_isDup (rcs_lookupParent cb) firstValid lastValid txid txl.

Definition txnCounter (cb : roundCowState) : Z :=
  wrap64 (rcp_txnCounter (rcs_lookupParent cb) + Z.of_nat (size (sd_Txids (rcs_mods cb)))).

(** Assets created and deleted by a change of an account's [AssetParams]. *)
Definition getChangedAssetIndices (creator : Address) (delta : accountDelta) : gmap AssetIndex modifiedAsset :=
  let old := asmap (ad_AssetParams (acd_old delta)) in
  let new := asmap (ad_AssetParams (acd_new delta)) in
  let created := (λ _, mkModifiedAsset true creator 0) <$> (new ∖ old) in
  let deleted := (λ _, mkModifiedAsset false creator 0) <$> (old ∖ new) in
  deleted ∪ created.

Definition cow_put (addr : Address) (old new : AccountData) (cb : roundCowState) : roundCowState :=
  let prev := sd_accts (rcs_mods cb) !! addr in
  let entry := match prev with
               | Some prev => mkAccountDelta (acd_old prev) new
               | None => mkAccountDelta old new
               end in
  let assetDeltas := getChangedAssetIndices addr (mkAccountDelta old new) in
  cb <| rcs_mods ::= λ m, m <| sd_accts ::= <[addr := entry]> |>
                            <| sd_assets ::= λ a, assetDeltas ∪ a |> |>.

Section AddTx.
Variable computeID : Transaction -> Txid.
Definition addTx (txn : Transaction) (cb : roundCowState) : roundCowState :=
  let h := tx_Header txn in
  cb <| rcs_mods ::= λ m, m <| sd_Txids ::= <[ID computeID txn := hdr_LastValid h]> |>
                            <| sd_txleases ::= <[(hdr_Sender h, hdr_Lease h) := hdr_LastValid h]> |> |>.
End AddTx.

Definition asParent (cb : roundCowState) : roundCowParent :=
  mkRoundCowParent (lookup cb) (isDup cb) (txnCounter cb) (getAssetCreator cb).

Definition child (cb : roundCowState) : roundCowState :=
  mkRoundCowState (asParent cb) (rcs_proto cb) (emptyDelta (sd_hdr (rcs_mods cb))).

(** Entries of the child win; the [old] value of an account is the parent's when
    it has one. *)
Definition mergeAccts (child parent : gmap Address accountDelta) : gmap Address accountDelta :=
  merge (λ c p, match c, p with
                | Some delta, Some prev => Some (mkAccountDelta (acd_old prev) (acd_new delta))
                | Some delta, None => Some delta
                | None, p => p
                end) child parent.

Definition commitToParent (cb parent : roundCowState) : roundCowState :=
  let m := rcs_mods cb in
  parent <| rcs_mods ::= λ pm, pm <| sd_accts ::= mergeAccts (sd_accts m) |>
                                  <| sd_Txids ::= λ t, sd_Txids m ∪ t |>
                                  <| sd_txleases ::= λ t, sd_txleases m ∪ t |>
                                  <| sd_assets ::= λ t, sd_assets m ∪ t |> |>.

Definition modifiedAccounts (cb : roundCowState) : list Address := (map_to_list (sd_accts (rcs_mods cb))).*1.

(** ** The [Balances] methods *)

Definition Get (addr : Address) (withPendingRewards : bool) : M roundCowState BalanceRecord := λ cs,
  ((acctdata ← lookup cs addr;
    acctdata ← (if withPendingRewards then WithUpdatedRewards acctdata (rcs_proto cs) (rewardsLevel cs)
                else Ok acctdata);
    mret (addr, acctdata)), cs).

Definition Put (record : BalanceRecord) : M roundCowState unit := λ cs,
  match lookup cs record.1 with
  | Ok olddata => (Ok tt, cow_put record.1 olddata record.2 cs)
  | Err e => (Err e, cs)
  | Panic m => (Panic m, cs)
  end.

(** [*rewards += new - old], when the pointer is not nil. *)
Definition trackRewards (rewards : option MicroAlgos) (new old : MicroAlgos) : result (option MicroAlgos) :=
  match rewards with
  | None => Ok None
  | Some r =>
    let '(diff, ot) := ot_SubA false new old in
    let '(newRewards, ot) := ot_AddA ot r diff in
    if ot then Err (Errorf "overflowed tracking of rewards") else Ok (Some newRewards)
  end.

(** [cs.put] as a step of the monad. *)
Definition putM (addr : Address) (old new : AccountData) : M roundCowState unit :=
  λ cs, (Ok tt, cow_put addr old new cs).

Definition Move (from to : Address) (amt : MicroAlgos) (fromRewards toRewards : option MicroAlgos)
    : M roundCowState (option MicroAlgos * option MicroAlgos) :=
  cs ← get;
  let rewardlvl := rewardsLevel cs in
  fromBal ← lift (lookup cs from);
  fromBalNew ← lift (WithUpdatedRewards fromBal (rcs_proto cs) rewardlvl);
  fromRewards ← lift (trackRewards fromRewards (ad_MicroAlgos fromBalNew) (ad_MicroAlgos fromBal));
  let '(x, overflowed) := OSubA (ad_MicroAlgos fromBalNew) amt in
  _ ← guardE (negb overflowed) (Errorf "overspend");
  _ ← putM from fromBal (fromBalNew <| ad_MicroAlgos := x |>);
  cs ← get;
  toBal ← lift (lookup cs to);
  toBalNew ← lift (WithUpdatedRewards toBal (rcs_proto cs) rewardlvl);
  toRewards ← lift (trackRewards toRewards (ad_MicroAlgos toBalNew) (ad_MicroAlgos toBal));
  let '(y, overflowed) := OAddA (ad_MicroAlgos toBalNew) amt in
  _ ← guardE (negb overflowed) (Errorf "balance overflow");
  _ ← putM to toBal (toBalNew <| ad_MicroAlgos := y |>);
  mret (fromRewards, toRewards).

#[export] Instance cow_Balances : Balances roundCowState := {
  bal_Get := Get;
  bal_GetAssetCreator i := λ cs, (getAssetCreator cs i, cs);
  bal_Put := Put;
  bal_Move := Move;
  bal_ConsensusParams := rcs_proto
}.

(** ** The laws of the interface *)

Definition cow_view (cs : roundCowState) (a : Address) : option AccountData :=
  match lookup cs a with Ok d => Some d | _ => None end.

Lemma cow_view_Some cs a d : cow_view cs a = Some d <-> lookup cs a = Ok d.
Proof. unfold cow_view. destruct (lookup cs a); naive_solver. Qed.

Lemma lookup_put a old new cs x :
  lookup (cow_put a old new cs) x = if decide (x = a) then Ok new else lookup cs x.
Proof.
  unfold lookup, cow_put. cbn. rewrite lookup_insert. repeat case_decide; try congruence.
  by destruct (_ !! a).
Qed.

Lemma cow_view_put a old new cs x : cow_view (cow_put a old new cs) x = fupd (cow_view cs) a (Some new) x.
Proof. unfold cow_view, fupd. rewrite lookup_put. by case_decide. Qed.

Lemma put_level a old new cs : rewardsLevel (cow_put a old new cs) = rewardsLevel cs.
Proof. done. Qed.
Lemma put_proto a old new cs : rcs_proto (cow_put a old new cs) = rcs_proto cs.
Proof. done. Qed.

Lemma putM_Ok a old new cs u cs' : putM a old new cs = (Ok u, cs') -> cs' = cow_put a old new cs.
Proof. by intros [= <- <-]. Qed.

Lemma Move_inv from to amt fr tr r cs cs' : Move from to amt fr tr cs = (Ok r, cs') ->
  exists f f' x t t' y,
    let cs1 := cow_put from f (f' <| ad_MicroAlgos := x |>) cs in
    lookup cs from = Ok f /\ WithUpdatedRewards f (rcs_proto cs) (rewardsLevel cs) = Ok f' /\
    OSubA (ad_MicroAlgos f') amt = (x, false) /\ lookup cs1 to = Ok t /\
    WithUpdatedRewards t (rcs_proto cs) (rewardsLevel cs) = Ok t' /\
    OAddA (ad_MicroAlgos t') amt = (y, false) /\
    cs' = cow_put to t (t' <| ad_MicroAlgos := y |>) cs1.
Proof.
  unfold Move. intros H. inv_ok. destruct (OSubA _ _) as [x0 o1] eqn:E1. inv_ok.
  match goal with H : putM _ _ _ _ = _ |- _ => apply putM_Ok in H; subst end.
  destruct (OAddA _ _) as [y0 o2] eqn:E2. inv_ok.
  match goal with H : putM _ _ _ _ = _ |- _ => apply putM_Ok in H; subst end.
  bool_hyps. subst. eexists _, _, _, _, _, _. split_and!; try done.
Qed.

#[export, refine] Instance cow_laws : BalancesLaws roundCowState :=
  {| view := cow_view; level := rewardsLevel |}.
Proof.
  - intros a b cs d Hd%cow_view_Some. cbn. unfold Get. rewrite Hd. done.
  - intros a b cs Hd. cbn. unfold Get, cow_view in *. by destruct (lookup cs a).
  - done.
  - intros a d cs cs' H. cbn in H. unfold Put in H. cbn [fst snd] in H.
    destruct (lookup cs a) as [o| |] eqn:E; try done. injection H as <-.
    split_and!; [|done|done|apply cow_view_put]. exists o. by apply cow_view_Some.
  - intros from to amt fr tr r cs cs' H.
    apply Move_inv in H as (f & f' & x & t & t' & y & H1 & H2 & H3 & H4 & H5 & H6 & ->).
    split_and!; [done|done|]. exists f, f', x, t, t', y. split_and!; try done.
    + by apply cow_view_Some.
    + rewrite <- (cow_view_put _ f). by apply cow_view_Some.
    + intros a. rewrite cow_view_put. unfold fupd at 1 2. case_decide; [done|]. apply cow_view_put.
Defined.

(** ** Committing a child *)

(** The observations of a state that reads go through. *)
Record cow_equiv (a b : roundCowState) : Prop := {
  ce_lookup : forall x, lookup a x = lookup b x;
  ce_isDup : forall fv lv id l, isDup a fv lv id l = isDup b fv lv id l;
  ce_counter : txnCounter a = txnCounter b;
  ce_creator : forall i, getAssetCreator a i = getAssetCreator b i;
  ce_proto : rcs_proto a = rcs_proto b;
  ce_hdr : sd_hdr (rcs_mods a) = sd_hdr (rcs_mods b)
}.

#[export] Instance cow_equiv_equivalence : Equivalence cow_equiv.
Proof.
  split.
  - intros a. by split.
  - intros a b []. by split.
  - intros a b c [] []. split; intros; etrans; eauto.
Qed.

(** A chain of a child over its parent that was obtained by running on a fresh
    child: same parameters and header, transactions new to the parent and alive. *)
Record child_of (c p : roundCowState) : Prop := {
  co_parent : rcs_lookupParent c = asParent p;
  co_proto : rcs_proto c = rcs_proto p;
  co_hdr : sd_hdr (rcs_mods c) = sd_hdr (rcs_mods p);
  co_txids : sd_Txids (rcs_mods c) ##ₘ sd_Txids (rcs_mods p);
  co_leases : forall l e, sd_txleases (rcs_mods c) !! l = Some e -> bh_Round (sd_hdr (rcs_mods c)) <= e
}.

Lemma lookup_commit c p x : rcs_lookupParent c = asParent p -> lookup (commitToParent c p) x = lookup c x.
Proof.
  intros Hp. unfold lookup at 1 2. rewrite Hp. cbn. unfold mergeAccts, lookup. rewrite lookup_merge.
  unfold diag_None.
  destruct (sd_accts (rcs_mods c) !! x), (sd_accts (rcs_mods p) !! x); done.
Qed.

Lemma wrap64_add_wrap a b : wrap64 (wrap64 a + b) = wrap64 (a + b).
Proof. unfold wrap64. rewrite Zplus_mod_idemp_l. done. Qed.

Lemma isDup_commit c p fv lv id l : child_of c p -> isDup (commitToParent c p) fv lv id l = isDup c fv lv id l.
Proof.
  intros [Hp Hpr Hh _ Hl]. specialize (Hl l).
  unfold isDup at 2. rewrite Hp. cbn [asParent rcp_isDup]. unfold isDup. cbn. rewrite Hpr, Hh in *. rewrite !lookup_union.
  destruct (sd_Txids (rcs_mods c) !! id) eqn:E1, (sd_Txids (rcs_mods p) !! id) eqn:E2; cbn; try done;
    (destruct (cp_SupportTransactionLeases _ && bool_decide _); cbn; [|done]);
    destruct (sd_txleases (rcs_mods c) !! l) as [e|] eqn:E3; cbn.
  all: try (rewrite (proj2 (Z.leb_le _ e)) by (by apply Hl)); try done.
  all: destruct (sd_txleases (rcs_mods p) !! l); cbn; try done.
  all: by rewrite (proj2 (Z.leb_le _ e)) by (by apply Hl).
Qed.

(** Committing a group is invisible to reads.  After [commitToParent] the
    parent answers [lookup], [isDup], [txnCounter] and [getAssetCreator] exactly as
    the child did: the transactions of a group see each other's effects while it
    runs, and later groups see the same state. *)
Theorem commitToParent_refines c p : child_of c p -> cow_equiv (commitToParent c p) c.
Proof.
  intros Hco. pose proof Hco as [Hp Hpr Hh Ht Hl]. split.
  - intros x. by apply lookup_commit.
  - intros. by apply isDup_commit.
  - unfold txnCounter. rewrite Hp. cbn [asParent rcp_txnCounter commitToParent rcs_lookupParent]. unfold txnCounter.
    rewrite wrap64_add_wrap. cbn. rewrite map_size_disj_union by done. f_equal. lia.
  - intros i. unfold getAssetCreator. rewrite Hp. cbn. unfold getAssetCreator. rewrite lookup_union.
    destruct (sd_assets (rcs_mods c) !! i), (sd_assets (rcs_mods p) !! i); done.
  - done.
  - done.
Qed.

(** ** The index of asset creators *)

(** [getAssetCreator] names exactly the account whose record defines the asset. *)
Definition creators_ok (cs : roundCowState) : Prop :=
  forall i c, getAssetCreator cs i = Ok c <-> exists d q, cow_view cs c = Some d /\ defines d i q.

Definition unique_creators (V : View) : Prop :=
  forall i c c' d d' q q', V c = Some d -> V c' = Some d' -> defines d i q -> defines d' i q' -> c = c'.

Lemma getChanged_lookup a old new i :
  getChangedAssetIndices a (mkAccountDelta old new) !! i =
    match asmap (ad_AssetParams old) !! i, asmap (ad_AssetParams new) !! i with
    | None, Some _ => Some (mkModifiedAsset true a 0)
    | Some _, None => Some (mkModifiedAsset false a 0)
    | _, _ => None
    end.
Proof.
  unfold getChangedAssetIndices. cbn. rewrite lookup_union, !lookup_fmap, !lookup_difference.
  destruct (asmap (ad_AssetParams old) !! i), (asmap (ad_AssetParams new) !! i); done.
Qed.

Lemma getAssetCreator_put a old new cs i :
  getAssetCreator (cow_put a old new cs) i =
    match asmap (ad_AssetParams old) !! i, asmap (ad_AssetParams new) !! i with
    | None, Some _ => Ok a
    | Some _, None => Err (Errorf "asset has been deleted")
    | _, _ => getAssetCreator cs i
    end.
Proof.
  unfold getAssetCreator at 1. cbn. rewrite lookup_union, getChanged_lookup. unfold getAssetCreator.
  destruct (asmap (ad_AssetParams old) !! i), (asmap (ad_AssetParams new) !! i); cbn;
    destruct (sd_assets (rcs_mods cs) !! i); done.
Qed.

(** The creator index stays exact.  [Put] records the assets an account gains
    and loses, so that as long as each asset is defined by one account,
    [getAssetCreator] keeps naming exactly the account that defines the asset. *)
Theorem Put_creators_ok a d cs cs' :
  creators_ok cs -> unique_creators (cow_view cs) -> unique_creators (cow_view cs') ->
  Put (a, d) cs = (Ok tt, cs') -> creators_ok cs'.
Proof.
  intros HC HU HU' H i c. unfold Put in H. cbn [fst snd] in H.
  destruct (lookup cs a) as [o| |] eqn:Ho; try done. injection H as <-.
  apply cow_view_Some in Ho. rewrite getAssetCreator_put.
  assert (cow_view (cow_put a o d cs) a = Some d) as Hd by (rewrite cow_view_put; apply fupd_eq).
  destruct (asmap (ad_AssetParams o) !! i) as [qo|] eqn:Eo, (asmap (ad_AssetParams d) !! i) as [qd|] eqn:Ed.
  3: { split; [intros [= <-]; by exists d, qd|]. intros (dc & q & Hc & Hq). f_equal. by eapply HU'. }
  2: { split; [done|]. intros (dc & q & Hc & Hq). exfalso. rewrite cow_view_put in Hc. unfold fupd in Hc.
       case_decide as E; [injection Hc as <-; unfold defines in Hq; congruence|].
       apply E. by eapply HU. }
  all: rewrite (HC i c); setoid_rewrite cow_view_put; unfold fupd; case_decide as E; [|done]; subst c.
  - split; intros _; [by exists d, qd|by exists o, qo].
  - split; intros (dc & q & Hc & Hq); exfalso; unfold defines in *; congruence.
Qed.

(** ** Witnesses

    A small ledger: an asset with its creator, a holder and a clawback address. *)

Module Witness.
Definition addr (n : Z) : Address := replicate 32 n.
Definition alice : Address := addr 1.
Definition bob : Address := addr 2.
Definition carol : Address := addr 3.
Definition sink : Address := addr 4.
Definition pool : Address := addr 5.
Definition spec : SpecialAddresses := mkSpecialAddresses sink pool.

Definition coin : AssetParams :=
  AssetParams_zero <| ap_Total := 100 |> <| ap_Manager := alice |> <| ap_Clawback := carol |>.
Definition acctA : AccountData :=
  (MakeAccountData Offline 5000000) <| ad_AssetParams := Some {[7 := coin]} |>
    <| ad_Assets := Some {[7 := mkAssetHolding 60 false]} |>.
Definition acctB : AccountData :=
  (MakeAccountData Online 3000000) <| ad_Assets := Some {[7 := mkAssetHolding 40 false]} |>.
Definition acctC : AccountData := MakeAccountData Offline 2000000.
Definition lookup0 (a : Address) : AccountData :=
  if decide (a = alice) then acctA else if decide (a = bob) then acctB
  else if decide (a = carol) then acctC else AccountData_zero.
Definition parent : roundCowParent :=
  mkRoundCowParent (λ a, Ok (lookup0 a)) (λ _ _ _ _, Ok false) 10
    (λ i, if i =? 7 then Ok alice else Err (Errorf "no such asset")).
Definition rs : RewardsState := mkRewardsState sink pool 2 0 0 0.
Definition hdr : BlockHeader :=
  mkBlockHeader 20 zero32 zero32 zero32 0 "" zero32 rs
    (mkUpgradeState ConsensusV19 "" 0 0 0) (mkUpgradeVote "" false) 0.
Definition cs0 : roundCowState := mkRoundCowState parent v19 (emptyDelta hdr).
Definition D : list Address := [alice; bob; carol; sink].

Definition header (a : Address) : Header := mkHeader a 1000 1 100 None "" zero32 zero32 zero32.
Definition txn (t : string) (a : Address) : Transaction :=
  mkTransaction t (header a) KeyregTxnFields_zero PaymentTxnFields_zero AssetConfigTxnFields_zero
    AssetTransferTxnFields_zero AssetFreezeTxnFields_zero zero32 false.
Definition pay : Transaction :=
  (txn PaymentTx alice) <| tx_Payment := mkPaymentTxnFields bob 1234 zero32 |>.
Definition claw : Transaction :=
  (txn AssetTransferTx carol) <| tx_AssetTransfer := mkAssetTransferTxnFields 7 15 bob alice zero32 |>.
Definition mint : Transaction :=
  (txn AssetConfigTx bob) <| tx_AssetConfig := mkAssetConfigTxnFields 0 coin |>.

Lemma ok_pair {A S} (r : result A * S) : is_ok r.1 = true -> exists a, r = (Ok a, r.2).
Proof. destruct r as [[] ?]; cbn; [eauto|done..]. Qed.

Lemma view0 a : view cs0 a = Some (lookup0 a).
Proof. cbn. unfold cow_view, lookup. cbn. by rewrite lookup_empty. Qed.

Lemma lookup0_cases (P : AccountData -> Prop) :
  P acctA -> P acctB -> P acctC -> P AccountData_zero -> forall a, P (lookup0 a).
Proof. intros. unfold lookup0. by repeat case_decide. Qed.

Lemma good0 : good cs0.
Proof.
  split; [|vm_compute; done|vm_compute; done]. intros a d. rewrite view0. intros [= <-].
  apply lookup0_cases; [..|apply wf_acct_zero]; (split; [vm_compute; done..| |]); cbn; intros i v;
    try (by rewrite lookup_empty); intros [_ <-]%lookup_singleton_Some; vm_compute; done.
Qed.

Lemma nodup_D : NoDup D.
Proof. apply (bool_decide_unpack _). vm_compute. done. Qed.

Lemma incl3 {A} (a b c d : A) : [a; d; b] ⊆ [a; b; c; d].
Proof. set_solver. Qed.

Lemma wf_txns : wf_txn pay /\ wf_txn claw /\ wf_txn mint.
Proof. split_and!; split; vm_compute; done. Qed.

Lemma defines0 a i q : defines (lookup0 a) i q -> a = alice /\ i = 7 /\ q = coin.
Proof.
  unfold lookup0, defines. repeat case_decide; cbn; rewrite ?lookup_empty; try done.
  intros [<- <-]%lookup_singleton_Some. done.
Qed.

Lemma holds0 a i : holds (lookup0 a) i -> (a = alice \/ a = bob) /\ i = 7.
Proof.
  intros [h Hh]. revert Hh. unfold lookup0, holds. repeat case_decide; cbn; rewrite ?lookup_empty; try done;
    intros [<- _]%lookup_singleton_Some; auto.
Qed.

Lemma asset_inv0 : asset_inv (view cs0) D 10.
Proof.
  split.
  - intros c d i q. rewrite view0. intros [= <-] (-> & -> & ->)%defines0. vm_compute. done.
  - intros c c' d d' i q q'. rewrite !view0. intros [= <-] [= <-] (-> & _)%defines0 (-> & _)%defines0. done.
  - intros a d i. rewrite view0. intros [= <-] [Ha ->]%holds0. split; [|lia].
    unfold D. destruct Ha as [->| ->]; set_solver.
  - intros a d i q. rewrite view0. intros [= <-] (-> & -> & ->)%defines0. split; [|lia]. unfold D. set_solver.
Qed.

Lemma Apply_conserves_money_witness :
  total v19 2 (view (Apply pay spec 10 cs0).2) D = total v19 2 (view cs0) D.
Proof.
  assert (is_ok (Apply pay spec 10 cs0).1 = true) as E by (vm_compute; reflexivity).
  destruct (ok_pair _ E) as [ad H].
  refine (Apply_conserves_money pay spec 10 ad cs0 _ D good0 (proj1 wf_txns) nodup_D _ H).
  assert (RelevantAddrs pay spec = [alice; sink; bob]) as -> by (vm_compute; reflexivity).
  exact (incl3 alice bob carol sink).
Defined.

Lemma Apply_only_sender_pays_witness :
  exists d', view (Apply pay spec 10 cs0).2 bob = Some d' /\ money v19 2 acctB <= money v19 2 d'.
Proof.
  assert (is_ok (Apply pay spec 10 cs0).1 = true) as E by (vm_compute; reflexivity).
  destruct (ok_pair _ E) as [ad H].
  refine (Apply_only_sender_pays pay spec 10 ad cs0 _ bob acctB good0 (proj1 wf_txns) H _ _).
  - discriminate.
  - reflexivity.
Defined.

Lemma Apply_preserves_asset_inv_witness :
  asset_inv (view (Apply mint spec 10 cs0).2) D (10 + 1).
Proof.
  assert (is_ok (Apply mint spec 10 cs0).1 = true) as E by (vm_compute; reflexivity).
  destruct (ok_pair _ E) as [ad H].
  refine (Apply_preserves_asset_inv mint spec 10 ad cs0 _ D good0 (proj2 (proj2 wf_txns)) nodup_D _ _ asset_inv0 H).
  - right. left.
  - lia.
Defined.

Lemma Apply_asset_authority_witness :
  authorised_changes claw 10 (view cs0) (view (Apply claw spec 10 cs0).2) /\
  holding_change claw (view cs0) bob 7 (slotV 7 (view cs0) bob) (slotV 7 (view (Apply claw spec 10 cs0).2) bob).
Proof.
  assert (is_ok (Apply claw spec 10 cs0).1 = true) as E by (vm_compute; reflexivity).
  destruct (ok_pair _ E) as [ad H].
  assert (authorised_changes claw 10 (view cs0) (view (Apply claw spec 10 cs0).2)) as HA
    by exact (Apply_asset_authority claw spec 10 ad cs0 _ good0 (proj1 (proj2 wf_txns)) H).
  split; [exact HA|]. apply (au_holding _ _ _ _ HA).
  - discriminate.
  - vm_compute. discriminate.
Defined.

Definition child1 : roundCowState := (Apply pay spec 10 (child cs0)).2.

Lemma commitToParent_refines_witness : cow_equiv (commitToParent child1 cs0) child1.
Proof.
  apply (commitToParent_refines child1 cs0). split.
  - vm_compute. reflexivity.
  - vm_compute. reflexivity.
  - vm_compute. reflexivity.
  - apply map_disjoint_empty_r.
  - intros l e. assert (sd_txleases (rcs_mods child1) = ∅) as -> by (vm_compute; reflexivity).
    by rewrite lookup_empty.
Defined.

Lemma Put_creators_ok_witness : creators_ok (Put (bob, acctC) cs0).2.
Proof.
  refine (Put_creators_ok bob acctC cs0 _ _ _ _ eq_refl).
  - intros i c. split.
    + unfold getAssetCreator. cbn. rewrite lookup_empty. destruct (Z.eqb_spec i 7) as [->|]; [|done].
      intros [= <-]. exists acctA, coin. split; [apply view0|]. by apply lookup_singleton_Some.
    + intros (d & q & Hd & Hq). change (cow_view cs0 c) with (view cs0 c) in Hd. rewrite view0 in Hd.
      injection Hd as <-. apply defines0 in Hq as (-> & -> & _). reflexivity.
  - intros i c c' d d' q q'. change (cow_view cs0) with (view cs0). rewrite !view0.
    intros [= <-] [= <-] (-> & _)%defines0 (-> & _)%defines0. done.
  - assert (forall c d i q, cow_view (Put (bob, acctC) cs0).2 c = Some d -> defines d i q -> c = alice) as Hx.
    { intros c d i q. change (Put (bob, acctC) cs0).2 with (cow_put bob acctB acctC cs0).
      rewrite cow_view_put. unfold fupd. case_decide.
      - intros [= <-]. unfold defines. cbn. by rewrite lookup_empty.
      - change (cow_view cs0 c) with (view cs0 c). rewrite view0. by intros [= <-] (-> & _)%defines0. }
    intros i c c' d d' q q' H1 H2 H3 H4. rewrite (Hx _ _ _ _ H1 H3). by rewrite (Hx _ _ _ _ H2 H4).
Defined.
End Witness.
