(* ===== verification/TxTail.v ===== *)
(** The transaction tail (src/ledger/txtail.go): the recent transactions kept to
    detect duplicates and lease conflicts.

    Iterations over Go maps whose order does not matter are [map_fold] or [filter].
    The loops over rounds of [loadFromDisk] and [isDup] count in 64 bits: they are
    written with fuel, [None] meaning that the fuel ran out. *)

From S2P Require Import Prelude Config Basics Transactions Bookkeeping Cow.

Record roundTxMembers := mkRoundTxMembers {
  rtm_txids : option (gmap Txid Round);   (* None: the nil map *)
  rtm_txleases : gmap txlease Round;
  rtm_proto : ConsensusParams
}.
Definition roundTxMembers_zero : roundTxMembers := mkRoundTxMembers None ∅ ConsensusParams_zero.

Record txTail := mkTxTail {
  tt_recent : gmap Round roundTxMembers;
  tt_lastValid : gmap Round (gset Txid);
  tt_lowWaterMark : Round
}.
#[export] Instance txTail_eta : Eta txTail := λ r,
  mkTxTail (tt_recent r) (tt_lastValid r) (tt_lowWaterMark r).

(** [t.recent[rnd]]: the zero value when absent. *)
Definition recentAt (t : txTail) (rnd : Round) : roundTxMembers :=
  default roundTxMembers_zero (tt_recent t !! rnd).

Definition putLV (lastValid : Round) (id : Txid) (t : txTail) : txTail :=
  t <| tt_lastValid ::= λ m, <[lastValid := {[id]} ∪ default ∅ (m !! lastValid)]> m |>.

Section Tail.
Variable consensus : gmap string ConsensusParams.

Definition tail_newBlock (blk : BlockHeader) (delta : StateDelta) (t : txTail) : txTail :=
  let rnd := bh_Round blk in
  if bool_decide (rtm_txids (recentAt t rnd) <> None) then t
  else
    let t := t <| tt_recent ::= <[rnd := mkRoundTxMembers (Some (sd_Txids delta)) (sd_txleases delta)
                                           (protoOf consensus (bh_CurrentProtocol blk))]> |> in
    map_fold (λ txid lv t, putLV lv txid t) t (sd_Txids delta).

Definition tail_committedUpTo (rnd : Round) (t : txTail) : Round * txTail :=
  let maxlife := cp_MaxTxnLife (rtm_proto (recentAt t rnd)) in
  let recent := filter (λ '(r, _), ~ (wrap64 (r + maxlife) < rnd)) (tt_recent t) in
  let lastValid := foldl (λ m r, delete r m) (tt_lastValid t)
                     (seqZ (tt_lowWaterMark t) (rnd - tt_lowWaterMark t)) in
  let t := mkTxTail recent lastValid (Z.max (tt_lowWaterMark t) rnd) in
  (SubSaturate (wrap64 (rnd + 1)) maxlife, t).

(** [for rnd := firstValid; rnd <= lastValid; rnd++]: is the lease held? *)
Fixpoint scanLeases (fuel : nat) (t : txTail) (current rnd lastValid : Round) (txl : txlease) : option bool :=
  match fuel with
  | O => None
  | S fuel =>
    if rnd <=? lastValid then
      match rtm_txleases (recentAt t rnd) !! txl with
      | Some expires => if current <=? expires then Some true
                        else scanLeases fuel t current (wrap64 (rnd + 1)) lastValid txl
      | None => scanLeases fuel t current (wrap64 (rnd + 1)) lastValid txl
      end
    else Some false
  end.

Definition tail_isDup (fuel : nat) (t : txTail) (proto : ConsensusParams) (current firstValid lastValid : Round)
    (txid : Txid) (txl : txlease) : option (result bool) :=
  if lastValid <? tt_lowWaterMark t then Some (Err (Errorf "txTail: tried to check for dup in missing round"))
  else
    let confirmed := bool_decide (txid ∈ default ∅ (tt_lastValid t !! lastValid)) in
    if cp_SupportTransactionLeases proto && bool_decide (txl.2 <> zero32) then
      match scanLeases fuel t current firstValid lastValid txl with
      | None => None
      | Some true => Some (Ok true)
      | Some false => Some (Ok confirmed)
      end
    else Some (Ok confirmed).

Definition getRoundTxIds (rnd : Round) (t : txTail) : gset Txid := dom (asmap (rtm_txids (recentAt t rnd))).

(** ** Loading from disk *)

Variable computeID : Transaction -> Txid.

(** One transaction of a block that is loaded. *)
Definition loadTx (old : Round) (t : txTail) (txad : SignedTxnWithAD) : txTail :=
  let tx := stx_Txn (sad_SignedTxn txad) in
  let h := tx_Header tx in
  let id := ID computeID tx in
  let r := recentAt t old in
  putLV (hdr_LastValid h) id
    (t <| tt_recent ::= <[old := mkRoundTxMembers
            (Some (<[id := hdr_LastValid h]> (asmap (rtm_txids r))))
            (<[(hdr_Sender h, hdr_Lease h) := hdr_LastValid h]> (rtm_txleases r)) (rtm_proto r)]> |>).

Definition loadBlock (blockAt : Round -> result Block) (old : Round) (t : txTail) : result txTail :=
  blk ← blockAt old;
  payset ← DecodePaysetFlat consensus (blk_BlockHeader blk) (blk_Payset blk);
  let t := t <| tt_recent ::= <[old := mkRoundTxMembers (Some ∅) ∅
                   (protoOf consensus (bh_CurrentProtocol (blk_BlockHeader blk)))]> |> in
  Ok (foldl (loadTx old) t payset).

(** [for ; old <= latest; old++] *)
Fixpoint loadBlocks (fuel : nat) (blockAt : Round -> result Block) (latest old : Round) (t : txTail)
    : option (result txTail) :=
  match fuel with
  | O => None
  | S fuel =>
    if old <=? latest then
      match loadBlock blockAt old t with
      | Ok t => loadBlocks fuel blockAt latest (wrap64 (old + 1)) t
      | r => Some r
      end
    else Some (Ok t)
  end.

Definition tail_loadFromDisk (fuel : nat) (latest : Round) (blockHdr : Round -> result BlockHeader)
    (blockAt : Round -> result Block) : option (result txTail) :=
  match blockHdr latest with
  | Ok hdr =>
    let proto := protoOf consensus (bh_CurrentProtocol hdr) in
    let old := SubSaturate (wrap64 (latest + 1)) (cp_MaxTxnLife proto) in
    loadBlocks fuel blockAt latest old (mkTxTail ∅ ∅ latest)
  | Err _ => Some (Err (Errorf "txTail: could not get latest block header"))
  | Panic m => Some (Panic m)
  end.
End Tail.

(** ** The index by last valid round *)

(** The transactions the tail remembers as confirmed. *)
Definition remembers (t : txTail) (lv : Round) (id : Txid) : Prop := id ∈ default ∅ (tt_lastValid t !! lv).

Lemma remembers_putLV lv id t lv' id' :
  remembers (putLV lv id t) lv' id' <-> remembers t lv' id' \/ (lv' = lv /\ id' = id).
Proof.
  unfold remembers, putLV. cbn. rewrite lookup_insert. case_decide; subst; cbn; set_solver.
Qed.

Lemma remembers_fold (m : gmap Txid Round) t lv id :
  remembers (map_fold (λ txid lv t, putLV lv txid t) t m) lv id <-> remembers t lv id \/ m !! id = Some lv.
Proof.
  revert lv id.
  apply (map_fold_weak_ind (λ t' m, forall lv id, remembers t' lv id <-> remembers t lv id \/ m !! id = Some lv)).
  - intros. rewrite lookup_empty. naive_solver.
  - intros i x m' t' Hm IH lv id. rewrite remembers_putLV, IH, lookup_insert. case_decide; subst; naive_solver.
Qed.

Lemma fold_fields (m : gmap Txid Round) t :
  let t' := map_fold (λ txid lv t, putLV lv txid t) t m in
  tt_recent t' = tt_recent t /\ tt_lowWaterMark t' = tt_lowWaterMark t.
Proof.
  apply (map_fold_weak_ind (λ t' _, tt_recent t' = tt_recent t /\ tt_lowWaterMark t' = tt_lowWaterMark t)); done.
Qed.

Lemma foldl_delete {V} (m : gmap Round V) l r :
  foldl (λ m r, delete r m) m l !! r = if decide (r ∈ l) then None else m !! r.
Proof.
  revert m. induction l as [|x l IH]; intros m; cbn; [done|]. rewrite IH, lookup_delete.
  repeat case_decide; subst; try done; set_solver.
Qed.

Section TailSpec.
Context (consensus : gmap string ConsensusParams).

(** Runs of the tail: blocks are added and rounds are committed, in any order. *)
Inductive tail_op :=
| NewBlock (hdr : BlockHeader) (delta : StateDelta)
| CommittedUpTo (rnd : Round).

Definition tail_step (t : txTail) (o : tail_op) : txTail :=
  match o with
  | NewBlock hdr delta => tail_newBlock consensus hdr delta t
  | CommittedUpTo rnd => (tail_committedUpTo rnd t).2
  end.

(** The specification: the set of all transactions ever confirmed, a growing
    set; a round that is already recorded is not recorded again. *)
Fixpoint confirmed (t : txTail) (l : list tail_op) (lv : Round) (id : Txid) : Prop :=
  match l with
  | [] => False
  | o :: l =>
    (match o with
     | NewBlock hdr delta => rtm_txids (recentAt t (bh_Round hdr)) = None /\ sd_Txids delta !! id = Some lv
     | CommittedUpTo _ => False
     end) \/ confirmed (tail_step t o) l lv id
  end.

Lemma newBlock_remembers hdr delta t lv id :
  remembers (tail_newBlock consensus hdr delta t) lv id <->
  remembers t lv id \/ (rtm_txids (recentAt t (bh_Round hdr)) = None /\ sd_Txids delta !! id = Some lv).
Proof.
  unfold tail_newBlock. destruct (rtm_txids (recentAt t (bh_Round hdr))) eqn:E.
  - rewrite bool_decide_true by done. naive_solver.
  - rewrite bool_decide_false by auto. rewrite remembers_fold. unfold remembers. cbn. naive_solver.
Qed.

Lemma newBlock_mark hdr delta t : tt_lowWaterMark (tail_newBlock consensus hdr delta t) = tt_lowWaterMark t.
Proof. unfold tail_newBlock. case_bool_decide; [done|]. by rewrite (proj2 (fold_fields _ _)). Qed.

Lemma committed_remembers rnd t lv id : Z.max (tt_lowWaterMark t) rnd <= lv ->
  remembers (tail_committedUpTo rnd t).2 lv id <-> remembers t lv id.
Proof.
  intros Hlv. unfold remembers, tail_committedUpTo. cbn. rewrite foldl_delete.
  case_decide as E; [|done]. apply elem_of_seqZ in E. lia.
Qed.

Lemma tail_step_mark t o : tt_lowWaterMark t <= tt_lowWaterMark (tail_step t o).
Proof. destruct o; cbn; [by rewrite newBlock_mark|lia]. Qed.

Lemma run_remembers l : forall t lv id, tt_lowWaterMark (foldl tail_step t l) <= lv ->
  remembers (foldl tail_step t l) lv id <-> remembers t lv id \/ confirmed t l lv id.
Proof.
  induction l as [|o l IH]; intros t lv id Hlv; cbn in *; [naive_solver|].
  rewrite IH by done. assert (tt_lowWaterMark (tail_step t o) <= lv) as Hm.
  { etrans; [|exact Hlv]. clear. generalize (tail_step t o). induction l as [|o' l IH]; intros t'; [done|].
    etrans; [apply (tail_step_mark t' o')|apply IH]. }
  destruct o as [hdr delta|rnd]; cbn [tail_step] in *.
  - rewrite newBlock_remembers. tauto.
  - rewrite committed_remembers by done. tauto.
Qed.

(** Duplicate detection is exact.  After any sequence of blocks and commits
    from an empty tail, a query without a lease whose last valid round is not below
    the low-water mark answers [true] exactly when a transaction with that
    identifier and last valid round was confirmed in some block of the sequence. *)
Theorem tail_isDup_exact fuel l proto cur fv lv id txl r :
  let t := foldl tail_step (mkTxTail ∅ ∅ r) l in
  tt_lowWaterMark t <= lv -> cp_SupportTransactionLeases proto = false \/ txl.2 = zero32 ->
  exists b, tail_isDup fuel t proto cur fv lv id txl = Some (Ok b) /\
    (b = true <-> confirmed (mkTxTail ∅ ∅ r) l lv id).
Proof.
  intros t Hlv Hl. unfold tail_isDup. rewrite (proj2 (Z.ltb_ge _ _)) by done.
  assert (cp_SupportTransactionLeases proto && bool_decide (txl.2 <> zero32) = false) as ->.
  { destruct Hl as [->| ->]; [done|]. rewrite bool_decide_false by auto. apply andb_false_r. }
  eexists. split; [reflexivity|]. rewrite bool_decide_eq_true.
  change (remembers t lv id <-> confirmed (mkTxTail ∅ ∅ r) l lv id). unfold t. rewrite run_remembers by done.
  split; [|auto]. intros [H|]; [|done]. unfold remembers in H. cbn in H. rewrite lookup_empty in H. set_solver.
Qed.
End TailSpec.

(** ** Leases *)

Definition lease_held (t : txTail) (cur rnd : Round) (txl : txlease) : Prop :=
  exists expires, rtm_txleases (recentAt t rnd) !! txl = Some expires /\ cur <= expires.

Lemma lease_held_dec t cur rnd txl : Decision (lease_held t cur rnd txl).
Proof.
  unfold lease_held. destruct (rtm_txleases (recentAt t rnd) !! txl) as [e|].
  - destruct (decide (cur <= e)); [left|right]; naive_solver.
  - right. naive_solver.
Defined.

Lemma scanLeases_step fuel t cur rnd lv txl : scanLeases (S fuel) t cur rnd lv txl =
  if rnd <=? lv then
    if lease_held_dec t cur rnd txl then Some true else scanLeases fuel t cur (wrap64 (rnd + 1)) lv txl
  else Some false.
Proof.
  cbn [scanLeases]. destruct (rnd <=? lv); [|done].
  destruct (lease_held_dec t cur rnd txl) as [(e & He & Hc)|Hn].
  - rewrite He. by rewrite (proj2 (Z.leb_le _ _) Hc).
  - destruct (_ !! txl) as [e|] eqn:E; [|done]. destruct (Z.leb_spec cur e); [|done].
    destruct Hn. by exists e.
Qed.

Lemma scanLeases_exact fuel : forall t cur rnd lv txl, 0 <= rnd -> lv < 2 ^ 64 - 1 ->
  (Z.to_nat (lv - rnd + 1) < fuel)%nat ->
  exists b, scanLeases fuel t cur rnd lv txl = Some b /\
    (b = true <-> exists r, rnd <= r <= lv /\ lease_held t cur r txl).
Proof.
  induction fuel as [|fuel IH]; intros t cur rnd lv txl H0 Hlv Hf; [lia|].
  rewrite scanLeases_step. destruct (Z.leb_spec rnd lv) as [Hle|Hgt].
  2:{ exists false. split; [done|]. split; [done|]. intros (r & ? & _). lia. }
  destruct (lease_held_dec t cur rnd txl) as [Hh|Hh].
  { exists true. split; [done|]. split; [|done]. intros _. exists rnd. split; [lia|done]. }
  rewrite wrap64_small by (unfold u64; lia).
  destruct (IH t cur (rnd + 1) lv txl) as (b & -> & Hb); [lia|lia|lia|]. exists b. split; [done|].
  rewrite Hb. split; intros (r & Hr & Hl); exists r; (split; [|done]); [lia|].
  destruct (decide (r = rnd)) as [->|]; [done|lia].
Qed.

(** What the lease check finds.  For a query with a lease whose last valid
    round is in range and below the maximal round, the loop over rounds terminates
    and the answer is [true] exactly when the lease is recorded as held in a round
    between the query's first and last valid rounds, or the transaction itself is
    recorded as confirmed. *)
Theorem tail_isDup_lease fuel t proto cur fv lv id txl :
  0 <= fv -> tt_lowWaterMark t <= lv < 2 ^ 64 - 1 -> (Z.to_nat (lv - fv + 1) < fuel)%nat ->
  cp_SupportTransactionLeases proto = true -> txl.2 <> zero32 ->
  exists b, tail_isDup fuel t proto cur fv lv id txl = Some (Ok b) /\
    (b = true <-> (exists r, fv <= r <= lv /\ lease_held t cur r txl) \/ remembers t lv id).
Proof.
  intros Hfv Hlv Hf Hs Hz. unfold tail_isDup. rewrite (proj2 (Z.ltb_ge _ _)) by lia.
  rewrite Hs, bool_decide_true by done. cbn [andb].
  destruct (scanLeases_exact fuel t cur fv lv txl Hfv ltac:(lia) Hf) as ([] & -> & Hb).
  - exists true. split; [done|]. tauto.
  - eexists. split; [reflexivity|]. rewrite bool_decide_eq_true. unfold remembers. naive_solver.
Qed.

(** The lease loop does not end at the maximal round.  A query with a lease
    that nobody holds and last valid round [2^64-1] never gets an answer: the round
    counter wraps around and stays below the bound. *)
Theorem tail_isDup_diverges fuel t proto cur fv id txl :
  u64 fv -> tt_lowWaterMark t <= maxUint64 -> cp_SupportTransactionLeases proto = true -> txl.2 <> zero32 ->
  (forall r, ~ lease_held t cur r txl) ->
  tail_isDup fuel t proto cur fv maxUint64 id txl = None.
Proof.
  intros Hfv Hlv Hs Hz Hn. unfold tail_isDup. rewrite (proj2 (Z.ltb_ge _ _)) by lia.
  rewrite Hs, bool_decide_true by done. cbn [andb].
  assert (forall rnd, u64 rnd -> scanLeases fuel t cur rnd maxUint64 txl = None) as ->; [|done..].
  clear Hfv. induction fuel as [|fuel IH]; intros rnd Hr; [done|].
  rewrite scanLeases_step, (proj2 (Z.leb_le _ _)) by (unfold u64, maxUint64 in *; lia).
  destruct (lease_held_dec t cur rnd txl) as [Hh|_]; [by destruct (Hn rnd)|]. apply IH, wrap64_range.
Qed.

(** A lease taken in round 5 until round 100 is not seen by a transaction with the
    same lease that is first valid in round 6, although the current round, 10, is
    before the expiry. *)
Example lease_missed :
  let l : txlease := (replicate 32 1, replicate 32 9) in
  let t := mkTxTail {[5 := mkRoundTxMembers (Some {[replicate 32 7 := 100]}) {[l := 100]} v19]} ∅ 4 in
  tail_isDup 100 t v19 10 6 50 (replicate 32 8) l = Some (Ok false) /\
  tail_isDup 100 t v19 10 5 50 (replicate 32 8) l = Some (Ok true).
Proof. vm_compute. done. Qed.

(** ** Restart *)

Section Restart.
Context (consensus : gmap string ConsensusParams) (computeID : Transaction -> Txid).

Definition txLV (x : SignedTxnWithAD) : Round := hdr_LastValid (tx_Header (stx_Txn (sad_SignedTxn x))).
Definition txId (x : SignedTxnWithAD) : Txid := ID computeID (stx_Txn (sad_SignedTxn x)).

Lemma loadTxs_remembers old l : forall t lv id,
  (remembers (foldl (loadTx computeID old) t l) lv id <->
   remembers t lv id \/ exists x, x ∈ l /\ txLV x = lv /\ txId x = id) /\
  tt_lowWaterMark (foldl (loadTx computeID old) t l) = tt_lowWaterMark t.
Proof.
  induction l as [|x l IH]; intros t lv id; cbn [foldl]; [set_solver|].
  destruct (IH (loadTx computeID old t x) lv id) as [-> ->]. split; [|done].
  unfold loadTx at 1. rewrite remembers_putLV. fold (txLV x) (txId x).
  assert (remembers (t <| tt_recent ::= <[old := mkRoundTxMembers
            (Some (<[txId x := txLV x]> (asmap (rtm_txids (recentAt t old)))))
            (<[(hdr_Sender (tx_Header (stx_Txn (sad_SignedTxn x))), hdr_Lease (tx_Header (stx_Txn (sad_SignedTxn x)))) := txLV x]>
               (rtm_txleases (recentAt t old))) (rtm_proto (recentAt t old))]> |>) lv id <-> remembers t lv id) as -> by done.
  split.
  - intros [[H|[-> ->]]|(y & Hy & H)]; [by left|right; exists x; set_solver|right; exists y; set_solver].
  - intros [H|(y & [->|Hy]%elem_of_cons & <- & <-)]; [by left; left|by left; right|right; by exists y].
Qed.

(** The blocks on disk: each round up to [latest] has one, and it decodes. *)
Definition on_disk (blockAt : Round -> result Block) (txs : Round -> list SignedTxnWithAD) (latest : Round) : Prop :=
  forall r, 0 <= r <= latest -> exists blk, blockAt r = Ok blk /\
    DecodePaysetFlat consensus (blk_BlockHeader blk) (blk_Payset blk) = Ok (txs r).

Lemma loadBlocks_remembers fuel : forall blockAt txs latest old t,
  on_disk blockAt txs latest -> 0 <= old -> latest < 2 ^ 64 - 1 -> (Z.to_nat (latest - old + 1) < fuel)%nat ->
  exists t', loadBlocks consensus computeID fuel blockAt latest old t = Some (Ok t') /\
    tt_lowWaterMark t' = tt_lowWaterMark t /\
    forall lv id, remembers t' lv id <->
      remembers t lv id \/ exists r x, old <= r <= latest /\ x ∈ txs r /\ txLV x = lv /\ txId x = id.
Proof.
  induction fuel as [|fuel IH]; intros blockAt txs latest old t Hd H0 Hl Hf; [lia|]. cbn [loadBlocks].
  destruct (Z.leb_spec old latest) as [Hle|Hgt].
  2:{ exists t. split_and!; [done..|]. intros lv id. split; [auto|]. intros [|(r & x & ? & _)]; [done|lia]. }
  destruct (Hd old ltac:(lia)) as (blk & Hb & Hp). unfold loadBlock. rewrite Hb. cbn [mbind result_bind].
  rewrite Hp. cbn [mbind result_bind]. rewrite wrap64_small by (unfold u64; lia).
  set (t1 := foldl _ _ _). destruct (IH blockAt txs latest (old + 1) t1 Hd ltac:(lia) Hl ltac:(lia)) as (t' & -> & HM & HR).
  exists t'. split; [done|]. split.
  { rewrite HM. unfold t1. by rewrite (proj2 (loadTxs_remembers old (txs old) _ 0 [])). }
  intros lv id. rewrite HR. unfold t1. rewrite (proj1 (loadTxs_remembers old (txs old) _ lv id)).
  split.
  - intros [[H|(x & Hx & H)]|(r & x & Hr & H)]; [by left| |]; right.
    + exists old, x. split; [lia|]. split; [done|]. done.
    + exists r, x. split; [lia|]. done.
  - intros [H|(r & x & Hr & Hx & H)]; [by left; left|].
    destruct (decide (r = old)) as [->|]; [left; right; by exists x|right; exists r, x; split; [lia|done]].
Qed.

(** Duplicate detection survives a restart.  If no transaction of the chain
    outlives its block by more than [MaxTxnLife], then [loadFromDisk], which reads
    only the last [MaxTxnLife] blocks, terminates and rebuilds a tail that knows
    every transaction of the whole chain that could still be repeated: those with
    a last valid round after the latest block. *)
Theorem tail_loadFromDisk_complete fuel latest hdr blockHdr blockAt txs :
  0 <= latest < 2 ^ 64 - 1 -> (Z.to_nat (latest + 1) < fuel)%nat ->
  blockHdr latest = Ok hdr -> on_disk blockAt txs latest ->
  u64 (cp_MaxTxnLife (protoOf consensus (bh_CurrentProtocol hdr))) ->
  (forall r x, 0 <= r <= latest -> x ∈ txs r ->
     txLV x <= r + cp_MaxTxnLife (protoOf consensus (bh_CurrentProtocol hdr))) ->
  exists t, tail_loadFromDisk consensus computeID fuel latest blockHdr blockAt = Some (Ok t) /\
    tt_lowWaterMark t = latest /\
    forall lv id, latest < lv ->
      remembers t lv id <-> exists r x, 0 <= r <= latest /\ x ∈ txs r /\ txLV x = lv /\ txId x = id.
Proof.
  intros Hl Hf Hh Hd Hu Hlife. unfold tail_loadFromDisk. rewrite Hh.
  set (life := cp_MaxTxnLife _) in *. rewrite wrap64_small by (unfold u64; lia).
  rewrite SubSaturate_spec by (done || (unfold u64; lia)).
  destruct (loadBlocks_remembers fuel blockAt txs latest (Z.max 0 (latest + 1 - life)) (mkTxTail ∅ ∅ latest) Hd)
    as (t & -> & HM & HR); [lia|lia|unfold u64 in *; lia|].
  exists t. split_and!; [done..|]. intros lv id Hlv. rewrite HR. split.
  - intros [H|(r & x & Hr & H)]; [|exists r, x; split; [lia|done]].
    unfold remembers in H. cbn in H. rewrite lookup_empty in H. set_solver.
  - intros (r & x & Hr & Hx & HL & HI). right. exists r, x. split; [|done].
    pose proof (Hlife r x Hr Hx). lia.
Qed.
End Restart.

(** ** Witnesses *)

Module TailWitness.
Import Witness.
Definition l0 : txlease := (alice, addr 9).
Definition delta0 : StateDelta := mkStateDelta ∅ {[addr 7 := 100]} {[l0 := 100]} ∅ hdr.
Definition ops : list tail_op := [NewBlock hdr delta0; CommittedUpTo 20].
Definition t0 : txTail := foldl (tail_step Consensus) (mkTxTail ∅ ∅ 0) ops.

Lemma tail_isDup_exact_witness :
  exists b, tail_isDup 0 t0 v19 21 1 100 (addr 7) (alice, zero32) = Some (Ok b) /\
    (b = true <-> confirmed Consensus (mkTxTail ∅ ∅ 0) ops 100 (addr 7)).
Proof.
  apply (tail_isDup_exact Consensus 0 ops v19 21 1 100 (addr 7) (alice, zero32) 0).
  - vm_compute. done.
  - by right.
Defined.

Lemma tail_isDup_lease_witness :
  exists b, tail_isDup 200 t0 v19 21 15 90 (addr 8) l0 = Some (Ok b) /\
    (b = true <-> (exists r, 15 <= r <= 90 /\ lease_held t0 21 r l0) \/ remembers t0 90 (addr 8)).
Proof.
  apply (tail_isDup_lease 200 t0 v19 21 15 90 (addr 8) l0).
  - lia.
  - vm_compute. done.
  - vm_compute. lia.
  - reflexivity.
  - discriminate.
Defined.

Lemma tail_isDup_diverges_witness :
  tail_isDup 1000 (mkTxTail ∅ ∅ 0) v19 21 15 maxUint64 (addr 8) l0 = None.
Proof.
  apply (tail_isDup_diverges 1000 (mkTxTail ∅ ∅ 0) v19 21 15 (addr 8) l0).
  - unfold u64. lia.
  - vm_compute. done.
  - reflexivity.
  - discriminate.
  - intros r (e & He & _). unfold recentAt in He. cbn in He. rewrite lookup_empty in He. cbn in He.
    by rewrite lookup_empty in He.
Defined.

Definition blk0 : Block := mkBlock hdr [] [].

Lemma tail_loadFromDisk_complete_witness :
  exists t, tail_loadFromDisk Consensus (λ _, zero32) 10 3 (λ _, Ok hdr) (λ _, Ok blk0) = Some (Ok t) /\
    tt_lowWaterMark t = 3 /\
    forall lv id, 3 < lv ->
      remembers t lv id <-> exists r x, 0 <= r <= 3 /\ x ∈ @nil SignedTxnWithAD /\
        txLV x = lv /\ txId (λ _, zero32) x = id.
Proof.
  apply (tail_loadFromDisk_complete Consensus (λ _, zero32) 10 3 hdr (λ _, Ok hdr) (λ _, Ok blk0) (λ _, [])).
  - lia.
  - lia.
  - reflexivity.
  - intros r Hr. by exists blk0.
  - vm_compute. done.
  - intros r x _ []%elem_of_nil.
Defined.
End TailWitness.
