(* ===== verification/Multisig.v ===== *)
(** Multisignatures (src/crypto/multisig.go).

    The signature scheme and the hash are third-party code (libsodium, SHA-512/256):
    [Hash], [keyVerify], [pkOf] and [sign] are parameters.  What the theorems need of
    them is stated as hypotheses of a section: a signature verifies under its key, and
    is not the blank 64-byte array that marks an absent signature. *)

From S2P Require Import Prelude Config Basics Transactions Bookkeeping.

Definition zero64 : list Z := replicate 64 0.
#[global] Arguments zero64 : simpl never.

Definition multiSigString : bytes := [77; 117; 108; 116; 105; 115; 105; 103; 65; 100; 100; 114].
Definition maxMultisig : Z := 255.

Definition errUnknownVersion : error := Errorf "unknown version != 1".
Definition errorinvalidthreshold : error := Errorf "invalid threshold".
Definition errorinvalidversion : error := Errorf "invalid version".
Definition errorinvalidaddress : error := Errorf "invalid address".
Definition errorinvalidnumberofsignature : error := Errorf "invalid number of signatures".
Definition errorkeynotexist : error := Errorf "key does not exist".
Definition errorkeysnotmatch : error := Errorf "public key lists do not match".
Definition errorinvalidduplicates : error := Errorf "invalid duplicates".
Definition errorsubsigverification : error := Errorf "verification failure: subsignature".

Definition subs (msig : MultisigSig) : list MultisigSubsig := default [] (msig_Subsigs msig).
Definition signed (s : MultisigSubsig) : bool := bool_decide (ms_Sig s <> zero64).

Definition MultisigPreimageFromPKs (version threshold : Z) (pks : list bytes) : MultisigSig :=
  mkMultisigSig version threshold (Some ((λ k, mkMultisigSubsig k zero64) <$> pks)).

Definition Preimage (msig : MultisigSig) : Z * Z * list bytes :=
  (msig_Version msig, msig_Threshold msig, ms_Key <$> subs msig).

Section Multisig.
Context {Msg SK : Type} (Hash : bytes -> Digest) (keyVerify : bytes -> Msg -> bytes -> bool)
        (pkOf : SK -> bytes) (sign : SK -> Msg -> bytes).

Definition MultisigAddrGen (version threshold : Z) (pk : list bytes) : result Digest :=
  if negb (version =? 1) then Err errUnknownVersion
  else if (threshold =? 0) || (zlen pk =? 0) || (zlen pk <? threshold) then Err errorinvalidthreshold
  else Ok (Hash (foldl (λ buffer pki, buffer ++ pki) (multiSigString ++ [version; threshold]) pk)).

Definition MultisigAddrGenWithSubsigs (version threshold : Z) (subsigs : list MultisigSubsig) : result Digest :=
  if negb (version =? 1) then Err errUnknownVersion
  else if (threshold =? 0) || (zlen subsigs =? 0) || (zlen subsigs <? threshold) then Err errorinvalidthreshold
  else Ok (Hash (foldl (λ buffer s, buffer ++ ms_Key s) (multiSigString ++ [version; threshold]) subsigs)).

Definition MultisigSign (msg : Msg) (addr : Digest) (version threshold : Z) (pk : list bytes) (sk : SK)
    : result MultisigSig :=
  if negb (version =? 1) then Err errUnknownVersion
  else
    addrnew ← MultisigAddrGen version threshold pk;
    _ ← guardR (bool_decide (addr = addrnew)) errorinvalidaddress;
    _ ← guardR (existsb (λ k, bool_decide (pkOf sk = k)) pk) errorkeynotexist;
    Ok (mkMultisigSig version threshold
          (Some ((λ k, mkMultisigSubsig k (if bool_decide (pkOf sk = k) then sign sk msg else zero64)) <$> pk))).

(** The checks of [MultisigAssemble] on two signatures. *)
Definition assembleMatch (u0 u : MultisigSig) : result unit :=
  _ ← guardR (msig_Threshold u0 =? msig_Threshold u) errorinvalidthreshold;
  _ ← guardR (msig_Version u0 =? msig_Version u) errorinvalidversion;
  _ ← guardR (length (subs u0) =? length (subs u))%nat errorinvalidnumberofsignature;
  guardR (bool_decide ((ms_Key <$> subs u0) = (ms_Key <$> subs u))) errorkeysnotmatch.

Fixpoint checkAll (check : MultisigSig -> result unit) (l : list MultisigSig) : result unit :=
  match l with [] => Ok tt | u :: l => _ ← check u; checkAll check l end.

(** Overwrite the signatures by the non-blank ones of [new]. *)
Definition overlay (old new : list MultisigSubsig) : list MultisigSubsig :=
  zip_with (λ o n, mkMultisigSubsig (ms_Key o) (if signed n then ms_Sig n else ms_Sig o)) old new.

Definition MultisigAssemble (unisig : list MultisigSig) : result MultisigSig :=
  match unisig with
  | u0 :: ((_ :: _) as rest) =>
    _ ← checkAll (assembleMatch u0) rest;
    let blank := (λ s, mkMultisigSubsig (ms_Key s) zero64) <$> subs u0 in
    Ok (mkMultisigSig (msig_Version u0) (msig_Threshold u0)
          (Some (foldl (λ acc u, overlay acc (subs u)) blank unisig)))
  | _ => Err (Errorf "invalid number of signatures to assemble")
  end.

Definition MultisigVerify (msg : Msg) (addr : Digest) (sig : MultisigSig) : result bool :=
  match subs sig with
  | [] => Ok false
  | s0 :: _ =>
    if bool_decide (s0 = mkMultisigSubsig zero32 zero64) then Ok false
    else
      addrnew ← MultisigAddrGenWithSubsigs (msig_Version sig) (msig_Threshold sig) (subs sig);
      _ ← guardR (bool_decide (addr = addrnew)) errorinvalidaddress;
      _ ← guardR (negb (maxMultisig <? zlen (subs sig))) errorinvalidnumberofsignature;
      _ ← guardR (negb (zlen (subs sig) <? msig_Threshold sig)) errorinvalidnumberofsignature;
      let counter := Z.of_nat (length (List.filter signed (subs sig))) mod 2 ^ 8 in
      _ ← guardR (negb (counter <? msig_Threshold sig)) errorinvalidnumberofsignature;
      _ ← guardR (forallb (λ s, keyVerify (ms_Key s) msg (ms_Sig s)) (List.filter signed (subs sig)))
            errorsubsigverification;
      let verifiedCount := Z.of_nat (length (List.filter signed (subs sig))) in
      _ ← guardR (negb (verifiedCount <? msig_Threshold sig)) errorinvalidnumberofsignature;
      Ok true
  end.

(** The checks of [MultisigAdd] on one signature. *)
Definition addMatch (msig u : MultisigSig) : result unit :=
  _ ← guardR (msig_Threshold msig =? msig_Threshold u) errorinvalidthreshold;
  _ ← guardR (msig_Version msig =? msig_Version u) errorinvalidversion;
  _ ← guardR (length (subs msig) =? length (subs u))%nat errorkeysnotmatch;
  guardR (bool_decide ((ms_Key <$> subs msig) = (ms_Key <$> subs u))) errorkeysnotmatch.

(** The inner loop of [MultisigAdd]: the updated signatures, and whether it ran
    to the end; what was added before a conflict stays. *)
Fixpoint addSubs (old new : list MultisigSubsig) : list MultisigSubsig * bool :=
  match old, new with
  | o :: old', n :: new' =>
    if signed n then
      if negb (signed o) then
        let '(r, ok) := addSubs old' new' in (mkMultisigSubsig (ms_Key o) (ms_Sig n) :: r, ok)
      else if bool_decide (ms_Sig o <> ms_Sig n) then (old, false)
      else let '(r, ok) := addSubs old' new' in (o :: r, ok)
    else let '(r, ok) := addSubs old' new' in (o :: r, ok)
  | _, _ => (old, true)
  end.

Definition addOne (u : MultisigSig) : M MultisigSig unit := λ msig,
  let '(r, ok) := addSubs (subs msig) (subs u) in
  let msig' := mkMultisigSig (msig_Version msig) (msig_Threshold msig)
                 (match msig_Subsigs msig with None => None | Some _ => Some r end) in
  if ok then (Ok tt, msig') else (Err errorinvalidduplicates, msig').

Definition MultisigAdd (unisig : list MultisigSig) : M MultisigSig unit :=
  _ ← guardE (negb (length unisig =? 0)%nat) (Errorf "invalid number of signatures to add");
  msig ← get;
  _ ← lift (checkAll (addMatch msig) unisig);
  forM addOne unisig.

(** The merged signatures, [None] on conflicting ones. *)
Fixpoint mergeSubs (l1 l2 : list MultisigSubsig) : option (list MultisigSubsig) :=
  match l1, l2 with
  | s1 :: l1, s2 :: l2 =>
    let merged :=
      if negb (signed s1) then Some (if signed s2 then ms_Sig s2 else zero64)
      else if negb (signed s2) || bool_decide (ms_Sig s2 = ms_Sig s1) then Some (ms_Sig s1)
      else None in
    sg ← merged; l ← mergeSubs l1 l2; Some (mkMultisigSubsig (ms_Key s1) sg :: l)
  | _, _ => Some []
  end.

Definition MultisigMerge (msig1 msig2 : MultisigSig) : result MultisigSig :=
  if negb (msig_Threshold msig1 =? msig_Threshold msig2) || negb (msig_Version msig1 =? msig_Version msig2)
     || negb (length (subs msig1) =? length (subs msig2))%nat then Err errorinvalidthreshold
  else if bool_decide ((ms_Key <$> subs msig1) <> (ms_Key <$> subs msig2)) then Err errorkeysnotmatch
  else match mergeSubs (subs msig1) (subs msig2) with
       | Some l => Ok (mkMultisigSig (msig_Version msig1) (msig_Threshold msig1) (Some l))
       | None => Err errorinvalidduplicates
       end.

(** ** Verification *)

(** The subsignatures that are present. *)
Definition present (sig : MultisigSig) : list MultisigSubsig := List.filter signed (subs sig).

Lemma MultisigVerify_spec msg addr sig :
  0 <= msig_Threshold sig ->
  MultisigVerify msg addr sig = Ok true <->
    head (subs sig) <> Some (mkMultisigSubsig zero32 zero64) /\
    MultisigAddrGenWithSubsigs (msig_Version sig) (msig_Threshold sig) (subs sig) = Ok addr /\
    zlen (subs sig) <= maxMultisig /\
    (forall s, In s (present sig) -> keyVerify (ms_Key s) msg (ms_Sig s) = true) /\
    1 <= msig_Threshold sig <= zlen (present sig).
Proof.
  intros Ht. pose proof (filter_length_le signed (subs sig)) as Hn.
  unfold MultisigVerify, present, zlen, maxMultisig in *. split.
  - intros H. destruct (subs sig) as [|s0 l] eqn:E; [done|]. case_bool_decide as Hz; [done|]. inv_ok. bool_hyps. subst.
    split_and!; try done; try lia.
    + intros [= ->]. done.
    + by apply forallb_forall.
    + unfold MultisigAddrGenWithSubsigs in *. destruct (negb _); [done|].
      destruct (Z.eqb_spec (msig_Threshold sig) 0); [done|lia].
  - intros (Hh & Ha & Hl & Hv & H1 & H2). destruct (subs sig) as [|s0 l] eqn:E; [cbn in *; lia|].
    rewrite bool_decide_false by (intros ->; done). rewrite Ha. cbn [mbind result_bind].
    rewrite bool_decide_true by done. cbn [guardR mbind result_bind].
    rewrite Z.mod_small by lia.
    rewrite !(proj2 (Z.ltb_ge _ _)) by lia. cbn [negb guardR mbind result_bind].
    rewrite (proj2 (forallb_forall _ _)) by done. done.
Qed.

(** What a verified multisignature proves.  [MultisigVerify] accepts exactly
    when the key list, threshold and version hash to the address, there are at most
    255 keys, every signature present verifies under the key at its position, and at
    least [Threshold] (and at least one) are present; the 8-bit counter cannot wrap. *)
Theorem MultisigVerify_iff msg addr sig :
  0 <= msig_Threshold sig ->
  MultisigVerify msg addr sig = Ok true <->
    head (subs sig) <> Some (mkMultisigSubsig zero32 zero64) /\
    MultisigAddrGenWithSubsigs (msig_Version sig) (msig_Threshold sig) (subs sig) = Ok addr /\
    zlen (subs sig) <= maxMultisig /\
    (forall s, In s (present sig) -> keyVerify (ms_Key s) msg (ms_Sig s) = true) /\
    1 <= msig_Threshold sig <= zlen (present sig).
Proof. apply MultisigVerify_spec. Qed.

(** ** Assembling *)

Lemma overlay_keys old new : length old = length new -> ms_Key <$> overlay old new = ms_Key <$> old.
Proof.
  revert new. induction old as [|o old IH]; intros [|n new] H; try done. cbn in *. f_equal. apply IH. lia.
Qed.

(** Merging and assembling agree.  Whenever [MultisigMerge] succeeds, the
    result is what [MultisigAssemble] builds from the two signatures. *)
Theorem MultisigMerge_Assemble m1 m2 m :
  MultisigMerge m1 m2 = Ok m -> MultisigAssemble [m1; m2] = Ok m.
Proof.
  unfold MultisigMerge, MultisigAssemble. cbn [checkAll foldl].
  destruct (_ || _) eqn:E1; [done|]. bool_hyps. destruct E1 as [[E1 E2] E3].
  case_bool_decide as E4; [done|].
  destruct (mergeSubs _ _) as [l|] eqn:E5; [|done]. intros [= <-].
  assert (assembleMatch m1 m2 = Ok tt) as ->.
  { unfold assembleMatch. rewrite E1, E2, !Z.eqb_refl. cbn. rewrite E3. cbn. by rewrite bool_decide_true. }
  apply Nat.eqb_eq in E3. cbn. do 3 f_equal.
  revert E5 E3. generalize (subs m1) (subs m2). clear. intros l1. revert l.
  induction l1 as [|s1 l1 IH]; intros l [|s2 l2] H Hlen; try done; cbn in *; [by injection H as <-|].
  apply bind_Some in H as (sg & Hs & H). apply bind_Some in H as (l' & H & Hl). injection Hl as <-. cbn.
  f_equal; [|apply IH; [done|lia]]. destruct (signed s1); cbn in Hs; [|injection Hs as <-; by destruct (signed s2)].
  destruct (signed s2); cbn in Hs; [|by injection Hs as <-]. case_bool_decide as Ee; [|done].
  injection Hs as <-. by rewrite Ee.
Qed.

(** ** Signing, assembling, verifying *)

(** What the theorem needs of the signature scheme. *)
Definition sign_verifies : Prop := forall sk m, keyVerify (pkOf sk) m (sign sk m) = true.
Definition sign_not_blank : Prop := forall sk m, sign sk m <> zero64.

(** The partial signature of one signer. *)
Definition unisig (msg : Msg) (threshold : Z) (pk : list bytes) (sk : SK) : MultisigSig :=
  mkMultisigSig 1 threshold
    (Some ((λ k, mkMultisigSubsig k (if bool_decide (pkOf sk = k) then sign sk msg else zero64)) <$> pk)).

(** The signature of the last of the signers that owns key [k]. *)
Definition lastSig (msg : Msg) (L : list SK) (s : bytes) (k : bytes) : bytes :=
  foldl (λ s sk, if bool_decide (pkOf sk = k) then sign sk msg else s) s L.

Lemma overlay_fmap (pk : list bytes) (g h : bytes -> bytes) :
  overlay ((λ k, mkMultisigSubsig k (g k)) <$> pk) ((λ k, mkMultisigSubsig k (h k)) <$> pk) =
  (λ k, mkMultisigSubsig k (if bool_decide (h k <> zero64) then h k else g k)) <$> pk.
Proof. unfold overlay. induction pk as [|k pk IH]; [done|]. cbn. f_equal. apply IH. Qed.

Lemma assembled_subs msg thr pk L (g : bytes -> bytes) : sign_not_blank ->
  foldl (λ acc u, overlay acc (subs u)) ((λ k, mkMultisigSubsig k (g k)) <$> pk) (unisig msg thr pk <$> L) =
  (λ k, mkMultisigSubsig k (lastSig msg L (g k) k)) <$> pk.
Proof.
  intros Hnb. revert g. induction L as [|sk L IH]; intros g; [done|]. cbn [fmap list_fmap foldl].
  pose (h k := if bool_decide (pkOf sk = k) then sign sk msg else zero64).
  change (subs (unisig msg thr pk sk)) with ((λ k, mkMultisigSubsig k (h k)) <$> pk).
  rewrite (overlay_fmap pk g h). rewrite (IH (λ k, if bool_decide (h k <> zero64) then h k else g k)).
  apply list_fmap_ext.
  intros _ k _. unfold lastSig. cbn [foldl]. do 2 f_equal.
  unfold h. destruct (bool_decide_reflect (pkOf sk = k)); [by rewrite bool_decide_true by apply Hnb|].
  by rewrite bool_decide_false by auto.
Qed.

Lemma lastSig_cases msg L s k :
  (lastSig msg L s k = s /\ k ∉ pkOf <$> L) \/ exists sk, pkOf sk = k /\ lastSig msg L s k = sign sk msg.
Proof.
  revert s. induction L as [|sk L IH]; intros s; [left; set_solver|]. cbn [lastSig foldl].
  destruct (IH (if bool_decide (pkOf sk = k) then sign sk msg else s)) as [[H1 H2]|H]; [|by right].
  unfold lastSig in H1. rewrite H1. case_bool_decide as E; [right; eauto|]. left. set_solver.
Qed.

Lemma MultisigSign_Ok msg addr thr pk sk : MultisigAddrGen 1 thr pk = Ok addr -> pkOf sk ∈ pk ->
  MultisigSign msg addr 1 thr pk sk = Ok (unisig msg thr pk sk).
Proof.
  intros Ha Hk. unfold MultisigSign. change (negb (1 =? 1)) with false. cbn match. rewrite Ha. cbn. rewrite bool_decide_true by done. cbn.
  assert (existsb (λ k, bool_decide (pkOf sk = k)) pk = true) as ->; [|done].
  apply existsb_exists. exists (pkOf sk). split; [by apply list_elem_of_In|]. by rewrite bool_decide_true.
Qed.

Lemma checkAll_Ok f l : Forall (λ u, f u = Ok tt) l -> checkAll f l = Ok tt.
Proof. induction 1 as [|u l Hu _ IH]; [done|]. cbn. by rewrite Hu. Qed.

Lemma AddrGen_subs v thr pk (g : bytes -> bytes) :
  MultisigAddrGenWithSubsigs v thr ((λ k, mkMultisigSubsig k (g k)) <$> pk) = MultisigAddrGen v thr pk.
Proof.
  unfold MultisigAddrGenWithSubsigs, MultisigAddrGen, zlen. rewrite length_fmap.
  destruct (negb _); [done|]. destruct (_ || _); [done|]. do 2 f_equal.
  generalize (multiSigString ++ [v; thr]). induction pk as [|k pk IH]; intros acc; [done|]. apply IH.
Qed.

(** Enough signers make a valid multisignature.  If the threshold is met by
    distinct keys of the address that sign one by one with [MultisigSign], then
    [MultisigAssemble] combines their partial signatures and [MultisigVerify]
    accepts the result. *)
Theorem multisig_complete msg addr thr pk signers :
  sign_verifies -> sign_not_blank ->
  MultisigAddrGen 1 thr pk = Ok addr -> zlen pk <= maxMultisig -> head pk <> Some zero32 ->
  (2 <= length signers)%nat -> 0 < thr <= zlen signers -> NoDup (pkOf <$> signers) ->
  (forall sk, sk ∈ signers -> pkOf sk ∈ pk) ->
  exists sigs msig,
    Forall2 (λ sk s, MultisigSign msg addr 1 thr pk sk = Ok s) signers sigs /\
    MultisigAssemble sigs = Ok msig /\ MultisigVerify msg addr msig = Ok true.
Proof.
  intros Hv Hnb Ha Hmax Hhd H2 Ht Hnd Hin.
  set (m := mkMultisigSig 1 thr (Some ((λ k, mkMultisigSubsig k (lastSig msg signers zero64 k)) <$> pk))).
  exists (unisig msg thr pk <$> signers), m. split_and!.
  - clear H2 Ht Hnd. induction signers as [|sk L IH]; [constructor|]. cbn. constructor.
    + apply MultisigSign_Ok; [done|]. apply Hin. set_solver.
    + apply IH. intros. apply Hin. set_solver.
  - destruct signers as [|s1 [|s2 L]]; [cbn in H2; lia..|]. unfold MultisigAssemble. cbn [fmap list_fmap].
    rewrite checkAll_Ok.
    + cbn [mbind result_bind]. unfold m. do 3 f_equal.
      rewrite <- (assembled_subs msg thr pk (s1 :: s2 :: L) (λ _, zero64) Hnb). cbn [fmap list_fmap]. f_equal.
      unfold subs. cbn. rewrite <- list_fmap_compose. done.
    + apply Forall_forall. intros u Hu.
      assert (exists sk, u = unisig msg thr pk sk) as [sk ->].
      { apply elem_of_cons in Hu as [->|(sk & -> & _)%list_elem_of_fmap]; eauto. }
      unfold assembleMatch. cbn. rewrite !Z.eqb_refl. cbn. rewrite !length_fmap, Nat.eqb_refl. cbn.
      rewrite <- !list_fmap_compose. by rewrite bool_decide_true.
  - apply MultisigVerify_spec; [cbn; lia|]. unfold present.
    change (subs m) with ((λ k, mkMultisigSubsig k (lastSig msg signers zero64 k)) <$> pk).
    cbn [m msig_Version msig_Threshold]. rewrite (AddrGen_subs 1 thr pk (lastSig msg signers zero64)). unfold zlen. rewrite length_fmap. split_and!; try done.
    + destruct pk; [done|]. cbn. intros [= -> _]. done.
    + intros s [Hs Hb]%filter_In. apply list_elem_of_In, list_elem_of_fmap in Hs as (k & -> & _). cbn.
      destruct (lastSig_cases msg signers zero64 k) as [[E _]|(sk & <- & ->)]; [|apply Hv].
      unfold signed in Hb. cbn in Hb. rewrite E in Hb. by apply bool_decide_eq_true in Hb.
    + lia.
    + unfold zlen in Ht. transitivity (Z.of_nat (length (pkOf <$> signers))); [rewrite length_fmap; lia|].
      apply Nat2Z.inj_le. rewrite <- (length_fmap ms_Key). apply submseteq_length, NoDup_submseteq; [done|].
      intros k Hk. apply list_elem_of_fmap in Hk as Hk'. destruct Hk' as (sk & -> & Hsk).
      apply list_elem_of_fmap. eexists. split; [|apply list_elem_of_In, filter_In; split].
      2: { apply list_elem_of_In, list_elem_of_fmap. eexists. split; [reflexivity|]. by apply Hin. }
      * done.
      * apply bool_decide_eq_true. cbn.
        destruct (lastSig_cases msg signers zero64 (pkOf sk)) as [[_ E]|(sk' & _ & ->)]; [done|apply Hnb].
Qed.
End Multisig.

(** ** Witnesses

    A toy scheme: a secret key is a number, its public key repeats it, a signature
    pairs it with the message. *)

Module MultisigWitness.
Definition pkOf (sk : Z) : bytes := replicate 32 sk.
Definition sign (sk m : Z) : bytes := [sk; m].
Definition keyVerify (k : bytes) (m : Z) (s : bytes) : bool := bool_decide (s = [default 0 (head k); m]).
Definition pks : list bytes := [pkOf 1; pkOf 2; pkOf 3].
Definition addr : Digest := multiSigString ++ [1; 2] ++ concat pks.
Definition msig : MultisigSig :=
  mkMultisigSig 1 2 (Some [mkMultisigSubsig (pkOf 1) [1; 5]; mkMultisigSubsig (pkOf 2) zero64;
                           mkMultisigSubsig (pkOf 3) [3; 5]]).
Definition part (sk : Z) : MultisigSig := unisig pkOf sign 5 2 pks sk.

Lemma MultisigVerify_iff_witness :
  MultisigVerify id keyVerify 5 addr msig = Ok true <->
    head (subs msig) <> Some (mkMultisigSubsig zero32 zero64) /\
    MultisigAddrGenWithSubsigs id (msig_Version msig) (msig_Threshold msig) (subs msig) = Ok addr /\
    zlen (subs msig) <= maxMultisig /\
    (forall s, In s (present msig) -> keyVerify (ms_Key s) 5 (ms_Sig s) = true) /\
    1 <= msig_Threshold msig <= zlen (present msig).
Proof. apply (MultisigVerify_iff id keyVerify 5 addr msig). cbn. lia. Defined.

Lemma MultisigMerge_Assemble_witness : MultisigAssemble [part 1; part 3] = Ok msig.
Proof. apply (MultisigMerge_Assemble (part 1) (part 3) msig). vm_compute. reflexivity. Defined.

Lemma multisig_complete_witness :
  exists sigs m,
    Forall2 (λ sk s, MultisigSign id pkOf sign 5 addr 1 2 pks sk = Ok s) [3; 1] sigs /\
    MultisigAssemble sigs = Ok m /\ MultisigVerify id keyVerify 5 addr m = Ok true.
Proof.
  apply (multisig_complete id keyVerify pkOf sign 5 addr 2 pks [3; 1]).
  - intros sk m. by apply bool_decide_eq_true.
  - intros sk m H. discriminate H.
  - vm_compute. reflexivity.
  - vm_compute. done.
  - discriminate.
  - cbn. lia.
  - vm_compute. done.
  - apply (bool_decide_unpack _). vm_compute. done.
  - intros sk Hsk. apply (bool_decide_unpack _).
    apply elem_of_cons in Hsk as [->|[->|[]%elem_of_nil]%elem_of_cons]; vm_compute; done.
Defined.
End MultisigWitness.
