(* ===== verification/Teal.v ===== *)
(** The TEAL interpreter (src/data/transactions/logic/eval.go, and the constant
    block parsers of assembler.go).

    The operand stack is a list whose head is the top of the Go slice; an operation
    on a stack shorter than it indexes is the Go panic.  [cx.err] is a field of the
    context; a Go run-time panic is [Panic].  Byte slices on the stack are
    [option bytes], [None] being nil, because [stackValue] tells integers from byte
    strings by [Bytes != nil].

    SHA-256, Keccak-256, SHA-512/256, Ed25519 and the hash of the program are
    third-party code: parameters of the section.  [encoding/binary] is part of the
    language's standard library and is modelled. *)

From stdpp Require Import sorting.
From S2P Require Import Prelude Config Basics Transactions Bookkeeping.

(** ** encoding/binary *)

(** [binary.Uvarint]: the value and the number of bytes read; 0: buffer too small;
    negative: overflow. *)
Fixpoint uvarintLoop (buf : bytes) (x s i : Z) : Z * Z :=
  match buf with
  | [] => (0, 0)
  | b :: rest =>
    if b <? 0x80 then
      if (9 <? i) || ((i =? 9) && (1 <? b)) then (0, - (i + 1))
      else (Z.lor x (wrap64 (Z.shiftl b s)), i + 1)
    else uvarintLoop rest (Z.lor x (wrap64 (Z.shiftl (Z.land b 0x7f) s))) (s + 7) (i + 1)
  end.
Definition Uvarint (buf : bytes) : Z * Z := uvarintLoop buf 0 0 0.

Definition BigEndianPutUint64 (v : Z) : bytes :=
  (λ k, Z.land (Z.shiftr v (8 * k)) 0xff) <$> [7; 6; 5; 4; 3; 2; 1; 0].

(** ** Values and parameters *)

Record stackValue := mkStackValue { sv_Uint : Z; sv_Bytes : option bytes }.
#[export] Instance stackValue_eta : Eta stackValue := λ r, mkStackValue (sv_Uint r) (sv_Bytes r).
#[export] Instance stackValue_eq_dec : EqDecision stackValue.
Proof. solve_decision. Defined.
Definition svInt (n : Z) : stackValue := mkStackValue n None.
Definition svBytes (b : bytes) : stackValue := mkStackValue 0 (Some b).

Inductive StackType := StackNone | StackAny | StackUint64 | StackBytes.
#[export] Instance StackType_eq_dec : EqDecision StackType.
Proof. solve_decision. Defined.

Definition argType (sv : stackValue) : StackType :=
  match sv_Bytes sv with Some _ => StackBytes | None => StackUint64 end.

(** [Txn] and [Proto] are pointers: [None] is nil. *)
Record EvalParams := mkEvalParams {
  ep_Txn : option SignedTxn;
  ep_Proto : option ConsensusParams;
  ep_TxnGroup : list SignedTxnWithAD;
  ep_GroupIndex : Z;
  ep_FirstValidTimeStamp : Z
}.

Record evalContext := mkEvalContext {
  cx_params : EvalParams;
  cx_stack : list stackValue;
  cx_program : bytes;
  cx_pc : Z;
  cx_nextpc : Z;
  cx_err : option error;
  cx_intc : list Z;
  cx_bytec : list bytes;
  cx_scratch : list stackValue;
  cx_cost : Z;
  cx_branchTargets : list Z;
  cx_programHash : Digest
}.
#[export] Instance evalContext_eta : Eta evalContext := λ r,
  mkEvalContext (cx_params r) (cx_stack r) (cx_program r) (cx_pc r) (cx_nextpc r) (cx_err r) (cx_intc r)
    (cx_bytec r) (cx_scratch r) (cx_cost r) (cx_branchTargets r) (cx_programHash r).

Definition EvalMaxVersion : Z := 1.
Definition EvalMaxArgs : Z := 255.
Definition MaxStackDepth : Z := 1000.

Definition errLoopDetected : error := Errorf "loop detected".
Definition errCostTooHigh : error := Errorf "LogicSigMaxCost exceded".
Definition errLogicSignNotSupported : error := Errorf "LogicSig not supported".
Definition errTooManyArgs : error := Errorf "LogicSig has too many arguments".
Definition errIllegalOpcode : error := Errorf "illegal opcode".
Definition errShortProgram : error := Errorf "program ends short of immediate values".

Definition setErr (cx : evalContext) (e : error) : evalContext := cx <| cx_err := Some e |>.
Definition fail (cx : evalContext) (msg : string) : result evalContext := Ok (setErr cx (Errorf msg)).
Definition push (cx : evalContext) (sv : stackValue) : evalContext := cx <| cx_stack ::= cons sv |>.
Definition setStack (cx : evalContext) (st : list stackValue) : evalContext := cx <| cx_stack := st |>.
Definition indexPanic {A} : result A := Panic "index out of range".

(** [cx.program[i]] *)
Definition byteAt (program : bytes) (i : Z) : result Z :=
  if i <? 0 then indexPanic
  else match program !! Z.to_nat i with Some b => Ok b | None => indexPanic end.

(** [program[pos:]] *)
Definition slicePanic {A} : result A := Panic "slice bounds out of range".
Definition sliceFrom (program : bytes) (pos : Z) : result bytes :=
  if (0 <=? pos) && (pos <=? zlen program) then Ok (drop (Z.to_nat pos) program) else slicePanic.
(** [program[lo:hi]] of a slice whose capacity is its length. *)
Definition sliceOf (program : bytes) (lo hi : Z) : result bytes :=
  if (0 <=? lo) && (lo <=? hi) && (hi <=? zlen program)
  then Ok (take (Z.to_nat (hi - lo)) (drop (Z.to_nat lo) program)) else slicePanic.

(** [*p] for a pointer [p] that may be nil. *)
Definition deref {A} (p : option A) : result A :=
  match p with Some v => Ok v | None => Panic "invalid memory address or nil pointer dereference" end.

Definition boolUint (b : bool) : Z := if b then 1 else 0.

(** ** Arithmetic and logic *)

(** An operation on the two topmost values: [f prev last] gives the new value at
    the position of [prev]; [last] is popped. *)
Definition binop (cx : evalContext) (f : stackValue -> stackValue -> stackValue) : result evalContext :=
  match cx_stack cx with
  | last :: prev :: st => Ok (setStack cx (f prev last :: st))
  | _ => indexPanic
  end.
Definition binopUint (cx : evalContext) (f : Z -> Z -> Z) : result evalContext :=
  binop cx (λ prev last, prev <| sv_Uint := f (sv_Uint prev) (sv_Uint last) |>).
Definition unop (cx : evalContext) (f : stackValue -> stackValue) : result evalContext :=
  match cx_stack cx with
  | last :: st => Ok (setStack cx (f last :: st))
  | _ => indexPanic
  end.
(** The two topmost integers. *)
Definition with2 (cx : evalContext) (k : Z -> Z -> result evalContext) : result evalContext :=
  match cx_stack cx with
  | last :: prev :: _ => k (sv_Uint prev) (sv_Uint last)
  | _ => indexPanic
  end.

Definition opErr (cx : evalContext) : result evalContext := fail cx "error".

Definition opPlus (cx : evalContext) : result evalContext :=
  match cx_stack cx with
  | last :: prev :: st =>
    let prev := prev <| sv_Uint := wrap64 (sv_Uint prev + sv_Uint last) |> in
    if sv_Uint prev <? sv_Uint last then fail (setStack cx (last :: prev :: st)) "+ overflowed"
    else Ok (setStack cx (prev :: st))
  | _ => indexPanic
  end.
Definition opMinus (cx : evalContext) : result evalContext :=
  with2 cx (λ a b, if a <? b then fail cx "- would result negative"
                   else binopUint cx (λ a b, wrap64 (a - b))).
Definition opDiv (cx : evalContext) : result evalContext :=
  with2 cx (λ a b, if b =? 0 then fail cx "/ 0" else binopUint cx Z.div).
Definition opModulo (cx : evalContext) : result evalContext :=
  with2 cx (λ a b, if b =? 0 then fail cx "% 0" else binopUint cx Z.modulo).
Definition opMul (cx : evalContext) : result evalContext :=
  with2 cx (λ a b, if negb (a =? 0) && negb (b =? 0) && negb (wrap64 (a * b) / a =? b)
                   then fail cx "* overflowed" else binopUint cx (λ a b, wrap64 (a * b))).

Definition opMulwImpl (x y : Z) : result (Z * Z) :=
  let v := x * y in
  let low := Z.land v maxUint64 in
  let high := Z.shiftr v 64 in
  if (maxUint64 <? low) || (maxUint64 <? high) then Err (Errorf "mulw overflowed") else Ok (high, low).
Definition opMulw (cx : evalContext) : result evalContext :=
  match cx_stack cx with
  | last :: prev :: st =>
    match opMulwImpl (sv_Uint prev) (sv_Uint last) with
    | Ok (high, low) => Ok (setStack cx (last <| sv_Uint := low |> :: prev <| sv_Uint := high |> :: st))
    | Err e => Ok (setErr cx e)
    | Panic m => Panic m
    end
  | _ => indexPanic
  end.

Definition opLt (cx : evalContext) := binopUint cx (λ a b, boolUint (a <? b)).
Definition opGt (cx : evalContext) := binopUint cx (λ a b, boolUint (b <? a)).
Definition opLe (cx : evalContext) := binopUint cx (λ a b, boolUint (a <=? b)).
Definition opGe (cx : evalContext) := binopUint cx (λ a b, boolUint (b <=? a)).
Definition opAnd (cx : evalContext) := binopUint cx (λ a b, boolUint (negb (a =? 0) && negb (b =? 0))).
Definition opOr (cx : evalContext) := binopUint cx (λ a b, boolUint (negb (a =? 0) || negb (b =? 0))).

(** [==] compares bytes with bytes and integers with integers. *)
Definition eqValues (prev last : stackValue) : bool :=
  match argType prev with
  | StackBytes => bool_decide (default [] (sv_Bytes prev) = default [] (sv_Bytes last))
  | _ => sv_Uint prev =? sv_Uint last
  end.
Definition opEq (cx : evalContext) : result evalContext :=
  match cx_stack cx with
  | last :: prev :: _ =>
    if bool_decide (argType prev <> argType last) then fail cx "cannot compare"
    else binop cx (λ prev last, mkStackValue (boolUint (eqValues prev last)) None)
  | _ => indexPanic
  end.
Definition opNeq (cx : evalContext) : result evalContext :=
  match cx_stack cx with
  | last :: prev :: _ =>
    if bool_decide (argType prev <> argType last) then fail cx "cannot compare"
    else binop cx (λ prev last, mkStackValue (boolUint (negb (eqValues prev last))) None)
  | _ => indexPanic
  end.
Definition opNot (cx : evalContext) := unop cx (λ v, v <| sv_Uint := boolUint (sv_Uint v =? 0) |>).
Definition opLen (cx : evalContext) := unop cx (λ v, mkStackValue (zlen (default [] (sv_Bytes v))) None).
Definition opItob (cx : evalContext) := unop cx (λ v, v <| sv_Bytes := Some (BigEndianPutUint64 (sv_Uint v)) |>).
Definition btoiLoop (ibytes : bytes) : Z :=
  foldl (λ value b, Z.lor (wrap64 (Z.shiftl value 8)) (Z.land b 0xff)) 0 ibytes.
Definition opBtoi (cx : evalContext) : result evalContext :=
  match cx_stack cx with
  | last :: st =>
    let ibytes := default [] (sv_Bytes last) in
    if 8 <? zlen ibytes then fail cx "btoi arg too long"
    else Ok (setStack cx (mkStackValue (btoiLoop ibytes) None :: st))
  | _ => indexPanic
  end.
Definition opBitOr (cx : evalContext) := binopUint cx Z.lor.
Definition opBitAnd (cx : evalContext) := binopUint cx Z.land.
Definition opBitXor (cx : evalContext) := binopUint cx Z.lxor.
Definition opBitNot (cx : evalContext) := unop cx (λ v, v <| sv_Uint := Z.lxor (sv_Uint v) maxUint64 |>).

(** ** Constants *)

(** The loops over the items of a block: position after the items and the items.
    [n] counts the items left. *)
Fixpoint intItems (n : nat) (program : bytes) (pos : Z) : result (list Z * Z) :=
  match n with
  | O => Ok ([], pos)
  | S n =>
    if zlen program <=? pos then Err (Errorf "bytecblock ran past end of program")
    else
      buf ← sliceFrom program pos;
      let '(v, bytesUsed) := Uvarint buf in
      if bytesUsed <=? 0 then Err (Errorf "could not decode int const")
      else r ← intItems n program (pos + bytesUsed); mret (v :: r.1, r.2)
  end.

Definition parseIntcblock (program : bytes) (pc : Z) : result (list Z * Z) :=
  let pos := pc + 1 in
  buf ← sliceFrom program pos;
  let '(numInts, bytesUsed) := Uvarint buf in
  if bytesUsed <=? 0 then Err (Errorf "could not decode int const block size")
  else if zlen program <? numInts then Err (Errorf "intcblock with too many items")
  else intItems (Z.to_nat numInts) program (pos + bytesUsed).

Definition errShortBytecblock : error := Errorf "bytecblock ran past end of program".

(** [int(itemLen)] is [itemLen], which is at most [len(program)] where it is used. *)
Fixpoint byteItems (n : nat) (program : bytes) (pos : Z) : result (list bytes * Z) :=
  match n with
  | O => Ok ([], pos)
  | S n =>
    if zlen program <=? pos then Err errShortBytecblock
    else
      buf ← sliceFrom program pos;
      let '(itemLen, bytesUsed) := Uvarint buf in
      if bytesUsed <=? 0 then Err (Errorf "could not decode []byte const")
      else
        let pos := pos + bytesUsed in
        if zlen program <=? pos then Err errShortBytecblock
        else
          let fin := wrap64 (pos + itemLen) in
          if (zlen program <? fin) || (fin <? pos) then Err errShortBytecblock
          else
            item ← sliceOf program pos (pos + itemLen);
            r ← byteItems n program (pos + itemLen);
            mret (item :: r.1, r.2)
  end.

Definition parseBytecBlock (program : bytes) (pc : Z) : result (list bytes * Z) :=
  let pos := pc + 1 in
  buf ← sliceFrom program pos;
  let '(numItems, bytesUsed) := Uvarint buf in
  if bytesUsed <=? 0 then Err (Errorf "could not decode []byte const block size")
  else if zlen program <? numItems then Err (Errorf "bytecblock with too many items")
  else byteItems (Z.to_nat numItems) program (pos + bytesUsed).

(** On a parse error Go also stores the items read so far; the error ends the run
    before they can be used. *)
Definition opIntConstBlock (cx : evalContext) : result evalContext :=
  match parseIntcblock (cx_program cx) (cx_pc cx) with
  | Ok (intc, nextpc) => Ok (cx <| cx_intc := intc |> <| cx_nextpc := nextpc |>)
  | Err e => Ok (setErr cx e)
  | Panic m => Panic m
  end.

Definition opIntConstN (n : Z) (cx : evalContext) : result evalContext :=
  match cx_intc cx !! Z.to_nat n with
  | Some v => Ok (push cx (svInt v))
  | None => fail cx "intc beyond constants"
  end.
(** [cx.nextpc = cx.pc + k], also after an error. *)
Definition advance (k : Z) (cx : evalContext) : evalContext := cx <| cx_nextpc := cx_pc cx + k |>.
Definition opIntConstLoad (cx : evalContext) : result evalContext :=
  n ← byteAt (cx_program cx) (cx_pc cx + 1);
  cx ← opIntConstN n cx;
  mret (advance 2 cx).

Definition opByteConstBlock (cx : evalContext) : result evalContext :=
  match parseBytecBlock (cx_program cx) (cx_pc cx) with
  | Ok (bytec, nextpc) => Ok (cx <| cx_bytec := bytec |> <| cx_nextpc := nextpc |>)
  | Err e => Ok (setErr cx e)
  | Panic m => Panic m
  end.
Definition opByteConstN (n : Z) (cx : evalContext) : result evalContext :=
  match cx_bytec cx !! Z.to_nat n with
  | Some v => Ok (push cx (svBytes v))
  | None => fail cx "bytec beyond constants"
  end.
Definition opByteConstLoad (cx : evalContext) : result evalContext :=
  n ← byteAt (cx_program cx) (cx_pc cx + 1);
  cx ← opByteConstN n cx;
  mret (advance 2 cx).

Definition opArgN (n : Z) (cx : evalContext) : result evalContext :=
  txn ← deref (ep_Txn (cx_params cx));
  match lsig_Args (stx_Lsig txn) !! Z.to_nat n with
  | Some v => Ok (push cx (mkStackValue 0 v))
  | None => fail cx "cannot load arg"
  end.
Definition opArg (cx : evalContext) : result evalContext :=
  n ← byteAt (cx_program cx) (cx_pc cx + 1);
  cx ← opArgN n cx;
  mret (advance 2 cx).

(** ** Branches and the stack *)

Definition branchOffset (program : bytes) (pc : Z) : result Z :=
  h ← byteAt program (pc + 1);
  l ← byteAt program (pc + 2);
  mret (Z.lor (Z.shiftl h 8) l).

Definition opBnz (cx : evalContext) : result evalContext :=
  match cx_stack cx with
  | last :: st =>
    let cx := setStack (advance 3 cx) st in
    if negb (sv_Uint last =? 0) then
      offset ← branchOffset (cx_program cx) (cx_pc cx);
      if 0x7fff <? offset then fail cx "bnz offset too large"
      else mret (cx <| cx_nextpc ::= λ n, n + offset |>)
    else Ok cx
  | [] => indexPanic
  end.

Definition opPop (cx : evalContext) : result evalContext :=
  match cx_stack cx with _ :: st => Ok (setStack cx st) | [] => indexPanic end.
Definition opDup (cx : evalContext) : result evalContext :=
  match cx_stack cx with sv :: _ => Ok (push cx sv) | [] => indexPanic end.

Definition opLoad (cx : evalContext) : result evalContext :=
  gindex ← byteAt (cx_program cx) (cx_pc cx + 1);
  match cx_scratch cx !! Z.to_nat gindex with
  | Some sv => Ok (advance 2 (push cx sv))
  | None => indexPanic
  end.
Definition opStore (cx : evalContext) : result evalContext :=
  gindex ← byteAt (cx_program cx) (cx_pc cx + 1);
  match cx_stack cx, cx_scratch cx !! Z.to_nat gindex with
  | last :: st, Some _ =>
    Ok (advance 2 (setStack (cx <| cx_scratch ::= <[Z.to_nat gindex := last]> |>) st))
  | _, _ => indexPanic
  end.

(** ** Transaction and global fields *)

Inductive TxnField :=
| Sender | Fee | FirstValid | FirstValidTime | LastValid | Note | Lease | Receiver | Amount
| CloseRemainderTo | VotePK | SelectionPK | VoteFirst | VoteLast | VoteKeyDilution | Type_ | TypeEnum
| XferAsset | AssetAmount | AssetSender | AssetReceiver | AssetCloseTo | GroupIndex | TxID.
#[export] Instance TxnField_eq_dec : EqDecision TxnField.
Proof. solve_decision. Defined.

(** The enumeration in order: [TxnField(n)] is its [n]-th member. *)
Definition txnFieldList : list TxnField :=
  [Sender; Fee; FirstValid; FirstValidTime; LastValid; Note; Lease; Receiver; Amount;
   CloseRemainderTo; VotePK; SelectionPK; VoteFirst; VoteLast; VoteKeyDilution; Type_; TypeEnum;
   XferAsset; AssetAmount; AssetSender; AssetReceiver; AssetCloseTo; GroupIndex; TxID].

Inductive GlobalField := MinTxnFee | MinBalance | MaxTxnLife | ZeroAddress | GroupSize.
Definition globalFieldList : list GlobalField := [MinTxnFee; MinBalance; MaxTxnLife; ZeroAddress; GroupSize].

Definition TxnTypeNames : list string :=
  [UnknownTx; PaymentTx; KeyRegistrationTx; AssetConfigTx; AssetTransferTx; AssetFreezeTx].
(** [txnTypeIndexes[t]], 0 for a type that is not listed. *)
Definition txnTypeIndex (t : string) : Z :=
  default 0 ((λ p, Z.of_nat p.1) <$> list_find (λ n, n = t) TxnTypeNames).

Definition stringBytes (s : string) : bytes := (λ a, Z.of_N (Ascii.N_of_ascii a)) <$> String.list_ascii_of_string s.

Section Interp.
Variable computeID : Transaction -> Txid.
Variables sha256 keccak256 sha512_256 : bytes -> bytes.
(** [sv.Verify(Msg{ProgramHash, Data}, sig)] *)
Variable verifyMsg : bytes -> Digest -> bytes -> bytes -> bool.
Variable hashProgram : bytes -> Digest.

Definition txnFieldToStack (cx : evalContext) (txn : Transaction) (field : Z) : result stackValue :=
  let h := tx_Header txn in
  match txnFieldList !! Z.to_nat field with
  | Some Sender => Ok (svBytes (hdr_Sender h))
  | Some Fee => Ok (svInt (hdr_Fee h))
  | Some FirstValid => Ok (svInt (hdr_FirstValid h))
  | Some FirstValidTime => Ok (svInt (ep_FirstValidTimeStamp (cx_params cx)))
  | Some LastValid => Ok (svInt (hdr_LastValid h))
  | Some Note => Ok (mkStackValue 0 (hdr_Note h))
  | Some Receiver => Ok (svBytes (pay_Receiver (tx_Payment txn)))
  | Some Amount => Ok (svInt (pay_Amount (tx_Payment txn)))
  | Some CloseRemainderTo => Ok (svBytes (pay_CloseRemainderTo (tx_Payment txn)))
  | Some VotePK => Ok (svBytes (kr_VotePK (tx_Keyreg txn)))
  | Some SelectionPK => Ok (svBytes (kr_SelectionPK (tx_Keyreg txn)))
  | Some VoteFirst => Ok (svInt (kr_VoteFirst (tx_Keyreg txn)))
  | Some VoteLast => Ok (svInt (kr_VoteLast (tx_Keyreg txn)))
  | Some VoteKeyDilution => Ok (svInt (kr_VoteKeyDilution (tx_Keyreg txn)))
  | Some Type_ => Ok (svBytes (stringBytes (tx_Type txn)))
  | Some TypeEnum => Ok (svInt (txnTypeIndex (tx_Type txn)))
  | Some XferAsset => Ok (svInt (ax_XferAsset (tx_AssetTransfer txn)))
  | Some AssetAmount => Ok (svInt (ax_AssetAmount (tx_AssetTransfer txn)))
  | Some AssetSender => Ok (svBytes (ax_AssetSender (tx_AssetTransfer txn)))
  | Some AssetReceiver => Ok (svBytes (ax_AssetReceiver (tx_AssetTransfer txn)))
  | Some AssetCloseTo => Ok (svBytes (ax_AssetCloseTo (tx_AssetTransfer txn)))
  | Some GroupIndex => Ok (svInt (ep_GroupIndex (cx_params cx)))
  | Some TxID => Ok (svBytes (ID computeID txn))
  | Some Lease => Ok (svBytes (hdr_Lease h))
  | None => Err (Errorf "invalid txn field")
  end.

Definition opTxn (cx : evalContext) : result evalContext :=
  field ← byteAt (cx_program cx) (cx_pc cx + 1);
  txn ← deref (ep_Txn (cx_params cx));
  match txnFieldToStack cx (stx_Txn txn) field with
  | Ok sv => Ok (advance 2 (push cx sv))
  | Err e => Ok (setErr cx e)
  | Panic m => Panic m
  end.

Definition opGtxn (cx : evalContext) : result evalContext :=
  gtxid ← byteAt (cx_program cx) (cx_pc cx + 1);
  match ep_TxnGroup (cx_params cx) !! Z.to_nat gtxid with
  | None => fail cx "gtxn lookup beyond the group"
  | Some stxn =>
    field ← byteAt (cx_program cx) (cx_pc cx + 2);
    let sv := if bool_decide (txnFieldList !! Z.to_nat field = Some GroupIndex) then Ok (svInt gtxid)
              else txnFieldToStack cx (stx_Txn (sad_SignedTxn stxn)) field in
    match sv with
    | Ok sv => Ok (advance 3 (push cx sv))
    | Err e => Ok (setErr cx e)
    | Panic m => Panic m
    end
  end.

Definition opGlobal (cx : evalContext) : result evalContext :=
  gindex ← byteAt (cx_program cx) (cx_pc cx + 1);
  let load v := Ok (advance 2 (push cx v)) in
  match globalFieldList !! Z.to_nat gindex with
  | Some MinTxnFee => proto ← deref (ep_Proto (cx_params cx)); load (svInt (cp_MinTxnFee proto))
  | Some MinBalance => proto ← deref (ep_Proto (cx_params cx)); load (svInt (cp_MinBalance proto))
  | Some MaxTxnLife => proto ← deref (ep_Proto (cx_params cx)); load (svInt (cp_MaxTxnLife proto))
  | Some ZeroAddress => load (svBytes zero32)
  | Some GroupSize => load (svInt (zlen (ep_TxnGroup (cx_params cx))))
  | None => fail cx "invalid global"
  end.

(** ** Cryptography *)

Definition hashOp (h : bytes -> bytes) (cx : evalContext) : result evalContext :=
  unop cx (λ v, v <| sv_Bytes := Some (h (default [] (sv_Bytes v))) |>).
Definition opSHA256 := hashOp sha256.
Definition opKeccak256 := hashOp keccak256.
Definition opSHA512_256 := hashOp sha512_256.

Definition opEd25519verify (cx : evalContext) : result evalContext :=
  match cx_stack cx with
  | last :: prev :: pprev :: st =>
    let pk := default [] (sv_Bytes last) in
    let sig := default [] (sv_Bytes prev) in
    if negb (zlen pk =? 32) then fail cx "invalid public key"
    else if negb (zlen sig =? 64) then fail cx "invalid signature"
    else
      let ok := verifyMsg pk (cx_programHash cx) (default [] (sv_Bytes pprev)) sig in
      Ok (setStack cx (mkStackValue (boolUint ok) None :: st))
  | _ => indexPanic
  end.

(** ** The tables *)

Record OpSpec := mkOpSpec {
  os_Opcode : Z;
  os_Name : string;
  os_op : evalContext -> result evalContext;
  os_Args : list StackType
}.

Definition oneBytes := [StackBytes].
Definition threeBytes := [StackBytes; StackBytes; StackBytes].
Definition oneInt := [StackUint64].
Definition twoInts := [StackUint64; StackUint64].
Definition oneAny := [StackAny].
Definition twoAny := [StackAny; StackAny].

Definition OpSpecs : list OpSpec :=
  [mkOpSpec 0x00 "err" opErr [];
   mkOpSpec 0x01 "sha256" opSHA256 oneBytes;
   mkOpSpec 0x02 "keccak256" opKeccak256 oneBytes;
   mkOpSpec 0x03 "sha512_256" opSHA512_256 oneBytes;
   mkOpSpec 0x04 "ed25519verify" opEd25519verify threeBytes;
   mkOpSpec 0x08 "+" opPlus twoInts;
   mkOpSpec 0x09 "-" opMinus twoInts;
   mkOpSpec 0x0a "/" opDiv twoInts;
   mkOpSpec 0x0b "*" opMul twoInts;
   mkOpSpec 0x0c "<" opLt twoInts;
   mkOpSpec 0x0d ">" opGt twoInts;
   mkOpSpec 0x0e "<=" opLe twoInts;
   mkOpSpec 0x0f ">=" opGe twoInts;
   mkOpSpec 0x10 "&&" opAnd twoInts;
   mkOpSpec 0x11 "||" opOr twoInts;
   mkOpSpec 0x12 "==" opEq twoAny;
   mkOpSpec 0x13 "!=" opNeq twoAny;
   mkOpSpec 0x14 "!" opNot oneInt;
   mkOpSpec 0x15 "len" opLen oneBytes;
   mkOpSpec 0x16 "itob" opItob oneInt;
   mkOpSpec 0x17 "btoi" opBtoi oneBytes;
   mkOpSpec 0x18 "%" opModulo twoInts;
   mkOpSpec 0x19 "|" opBitOr twoInts;
   mkOpSpec 0x1a "&" opBitAnd twoInts;
   mkOpSpec 0x1b "^" opBitXor twoInts;
   mkOpSpec 0x1c "~" opBitNot oneInt;
   mkOpSpec 0x1d "mulw" opMulw twoInts;
   mkOpSpec 0x20 "intcblock" opIntConstBlock [];
   mkOpSpec 0x21 "intc" opIntConstLoad [];
   mkOpSpec 0x22 "intc_0" (opIntConstN 0) [];
   mkOpSpec 0x23 "intc_1" (opIntConstN 1) [];
   mkOpSpec 0x24 "intc_2" (opIntConstN 2) [];
   mkOpSpec 0x25 "intc_3" (opIntConstN 3) [];
   mkOpSpec 0x26 "bytecblock" opByteConstBlock [];
   mkOpSpec 0x27 "bytec" opByteConstLoad [];
   mkOpSpec 0x28 "bytec_0" (opByteConstN 0) [];
   mkOpSpec 0x29 "bytec_1" (opByteConstN 1) [];
   mkOpSpec 0x2a "bytec_2" (opByteConstN 2) [];
   mkOpSpec 0x2b "bytec_3" (opByteConstN 3) [];
   mkOpSpec 0x2c "arg" opArg [];
   mkOpSpec 0x2d "arg_0" (opArgN 0) [];
   mkOpSpec 0x2e "arg_1" (opArgN 1) [];
   mkOpSpec 0x2f "arg_2" (opArgN 2) [];
   mkOpSpec 0x30 "arg_3" (opArgN 3) [];
   mkOpSpec 0x31 "txn" opTxn [];
   mkOpSpec 0x32 "global" opGlobal [];
   mkOpSpec 0x33 "gtxn" opGtxn [];
   mkOpSpec 0x34 "load" opLoad [];
   mkOpSpec 0x35 "store" opStore oneAny;
   mkOpSpec 0x40 "bnz" opBnz oneInt;
   mkOpSpec 0x48 "pop" opPop oneAny;
   mkOpSpec 0x49 "dup" opDup oneAny].

(** [opsByOpcode[opcode]]; [None]: [op == nil]. *)
Definition opsByOpcode (opcode : Z) : option OpSpec :=
  List.find (λ oi, os_Opcode oi =? opcode) OpSpecs.
End Interp.

(** The custom check functions of [opSizes]. *)
Inductive opCheckFunc := checkBnzF | checkIntConstBlockF | checkByteConstBlockF.

Record opSize := mkOpSize { oz_cost : Z; oz_size : Z; oz_checkFunc : option opCheckFunc }.

Definition opSizes : list (string * opSize) :=
  [("sha256", mkOpSize 7 1 None);
   ("keccak256", mkOpSize 26 1 None);
   ("sha512_256", mkOpSize 9 1 None);
   ("ed25519verify", mkOpSize 1900 1 None);
   ("bnz", mkOpSize 1 3 (Some checkBnzF));
   ("intc", mkOpSize 1 2 None);
   ("bytec", mkOpSize 1 2 None);
   ("arg", mkOpSize 1 2 None);
   ("txn", mkOpSize 1 2 None);
   ("gtxn", mkOpSize 1 3 None);
   ("global", mkOpSize 1 2 None);
   ("intcblock", mkOpSize 1 0 (Some checkIntConstBlockF));
   ("bytecblock", mkOpSize 1 0 (Some checkByteConstBlockF));
   ("load", mkOpSize 1 2 None);
   ("store", mkOpSize 1 2 None)].

(** The size entry [init] stores for an operation. *)
Definition opSizeOf (name : string) : opSize :=
  match List.find (λ p, bool_decide (p.1 = name)) opSizes with
  | Some p => p.2
  | None => mkOpSize 1 1 None
  end.

Definition opCompat (expected got : StackType) : bool :=
  if bool_decide (expected = StackAny) then true else bool_decide (expected = got).

(** ** Execution *)

Section Run.
Variable computeID : Transaction -> Txid.
Variables sha256 keccak256 sha512_256 : bytes -> bytes.
Variable verifyMsg : bytes -> Digest -> bytes -> bytes -> bool.
Variable hashProgram : bytes -> Digest.

Definition opSpecOf (opcode : Z) : option OpSpec :=
  opsByOpcode computeID sha256 keccak256 sha512_256 verifyMsg opcode.

(** Types of the topmost [length argsTypes] values, deepest first. *)
Definition argsOk (argsTypes : list StackType) (stack : list stackValue) : bool :=
  forallb (λ p, opCompat p.1 p.2) (zip argsTypes (argType <$> rev (take (length argsTypes) stack))).

Definition nextPC (cx : evalContext) : evalContext :=
  if negb (cx_nextpc cx =? 0) then cx <| cx_pc := cx_nextpc cx |> <| cx_nextpc := 0 |>
  else cx <| cx_pc ::= λ pc, pc + 1 |>.

Definition tooShort (oz : opSize) (cx : evalContext) : bool :=
  negb (oz_size oz =? 0) && (zlen (cx_program cx) <? cx_pc cx + oz_size oz).

Definition step (cx : evalContext) : result evalContext :=
  opcode ← byteAt (cx_program cx) (cx_pc cx);
  match opSpecOf opcode with
  | None => Ok (setErr cx errIllegalOpcode)
  | Some spec =>
    if (length (cx_stack cx) <? length (os_Args spec))%nat then fail cx "stack underflow"
    else if negb (argsOk (os_Args spec) (cx_stack cx)) then fail cx "wanted another type"
    else
      let oz := opSizeOf (os_Name spec) in
      if tooShort oz cx then Ok (setErr cx errShortProgram)
      else
        cx ← os_op spec (cx <| cx_cost ::= λ c, c + oz_cost oz |>);
        match cx_err cx with
        | Some _ => Ok cx
        | None => if MaxStackDepth <? zlen (cx_stack cx) then fail cx "stack overflow"
                  else Ok (nextPC cx)
        end
  end.

(** The loop of [Eval].  [n] is [len(program) - stepCount]: the check
    [stepCount > len(program)] after a step fires when it is zero. *)
Fixpoint evalLoop (maxCost : Z) (n : nat) (cx : evalContext) : result evalContext :=
  if bool_decide (cx_err cx = None) && (cx_pc cx <? zlen (cx_program cx)) then
    cx ← step cx;
    match n with
    | O => Err errLoopDetected
    | S n => if maxCost <? cx_cost cx then Err errCostTooHigh else evalLoop maxCost n cx
    end
  else Ok cx.

Definition initContext (program : bytes) (params : EvalParams) (pc : Z) : evalContext :=
  mkEvalContext params [] program pc 0 None [] [] (replicate 256 (svInt 0)) 0 [] zero32.

(** The verdict on the final state. *)
Definition verdict (cx : evalContext) : result bool :=
  match cx_err cx with
  | Some e => Err e
  | None =>
    match cx_stack cx with
    | [sv] => match sv_Bytes sv with
              | Some _ => Err (Errorf "stack finished with bytes not int")
              | None => Ok (negb (sv_Uint sv =? 0))
              end
    | _ => Err (Errorf "stack len is not 1")
    end
  end.

(** [Eval] without its [recover]. *)
Definition evalBody (program : bytes) (params : EvalParams) : result bool :=
  match ep_Proto params with
  | None => Err errLogicSignNotSupported
  | Some proto =>
    if cp_LogicSigVersion proto =? 0 then Err errLogicSignNotSupported
    else
      txn ← deref (ep_Txn params);
      if EvalMaxArgs <? zlen (lsig_Args (stx_Lsig txn)) then Err errTooManyArgs
      else
        let '(version, vlen) := Uvarint program in
        if vlen <=? 0 then Err (Errorf "invalid version")
        else if EvalMaxVersion <? version then Err (Errorf "program version greater than max supported version")
        else if cp_LogicSigVersion proto <? version then
          Err (Errorf "program version greater than protocol supported version")
        else
          cx ← evalLoop (cp_LogicSigMaxCost proto) (length program)
                 ((initContext program params vlen) <| cx_programHash := hashProgram program |>);
          verdict cx
  end.

Definition logic_Eval (program : bytes) (params : EvalParams) : result bool :=
  match evalBody program params with
  | Panic m => Err (Errorf "panic in TEAL Eval")
  | r => r
  end.

(** ** Static checks *)

(** The loops over the items without storing them: the cost reported with an
    error, or the position after the block. *)
Fixpoint skipInts (n : nat) (program : bytes) (pos : Z) : result ((Z * error) + Z) :=
  match n with
  | O => Ok (inr pos)
  | S n =>
    if zlen program <=? pos then Ok (inl (0, Errorf "bytecblock ran past end of program"))
    else
      buf ← sliceFrom program pos;
      let '(_, bytesUsed) := Uvarint buf in
      if bytesUsed <=? 0 then Ok (inl (1, Errorf "could not decode int const"))
      else skipInts n program (pos + bytesUsed)
  end.

Fixpoint skipBytes (n : nat) (program : bytes) (pos : Z) : result ((Z * error) + Z) :=
  match n with
  | O => Ok (inr pos)
  | S n =>
    if zlen program <=? pos then Ok (inl (0, errShortBytecblock))
    else
      buf ← sliceFrom program pos;
      let '(itemLen, bytesUsed) := Uvarint buf in
      if bytesUsed <=? 0 then Ok (inl (1, Errorf "could not decode []byte const"))
      else
        let pos := pos + bytesUsed in
        if zlen program <=? pos then Ok (inl (0, errShortBytecblock))
        else
          let fin := wrap64 (pos + itemLen) in
          if (zlen program <? fin) || (fin <? pos) then Ok (inl (0, errShortBytecblock))
          else skipBytes n program (pos + itemLen)
  end.

Definition endBlock (cx : evalContext) (r : (Z * error) + Z) : Z * evalContext :=
  match r with inl (cost, e) => (cost, setErr cx e) | inr pos => (1, cx <| cx_nextpc := pos |>) end.

Definition checkIntConstBlock (cx : evalContext) : result (Z * evalContext) :=
  let pos := cx_pc cx + 1 in
  buf ← sliceFrom (cx_program cx) pos;
  let '(numInts, bytesUsed) := Uvarint buf in
  if bytesUsed <=? 0 then Ok (1, setErr cx (Errorf "could not decode int const block size"))
  else if zlen (cx_program cx) <? numInts then Ok (0, setErr cx (Errorf "intcblock with too many items"))
  else r ← skipInts (Z.to_nat numInts) (cx_program cx) (pos + bytesUsed); mret (endBlock cx r).

Definition checkByteConstBlock (cx : evalContext) : result (Z * evalContext) :=
  let pos := cx_pc cx + 1 in
  buf ← sliceFrom (cx_program cx) pos;
  let '(numItems, bytesUsed) := Uvarint buf in
  if bytesUsed <=? 0 then Ok (1, setErr cx (Errorf "could not decode []byte const block size"))
  else if zlen (cx_program cx) <? numItems then Ok (0, setErr cx (Errorf "bytecblock with too many items"))
  else r ← skipBytes (Z.to_nat numItems) (cx_program cx) (pos + bytesUsed); mret (endBlock cx r).

Definition checkBnz (cx : evalContext) : result (Z * evalContext) :=
  offset ← branchOffset (cx_program cx) (cx_pc cx);
  if 0x7fff <? offset then Ok (1, setErr cx (Errorf "bnz offset too large"))
  else
    let cx := advance 3 cx in
    let target := cx_nextpc cx + offset in
    if zlen (cx_program cx) <=? target then Ok (1, setErr cx (Errorf "bnz target beyond end of program"))
    else Ok (1, cx <| cx_branchTargets ::= λ bt, merge_sort Z.le (bt ++ [target]) |>).

Definition runCheckFunc (f : opCheckFunc) (cx : evalContext) : result (Z * evalContext) :=
  match f with
  | checkBnzF => checkBnz cx
  | checkIntConstBlockF => checkIntConstBlock cx
  | checkByteConstBlockF => checkByteConstBlock cx
  end.

(** [for len(bt) > 0 && bt[0] == pc { bt = bt[1:] }] *)
Fixpoint dropTargets (pc : Z) (bt : list Z) : list Z :=
  match bt with t :: rest => if t =? pc then dropTargets pc rest else bt | [] => [] end.

Definition checkTargets (cost : Z) (cx : evalContext) : Z * evalContext :=
  match cx_branchTargets cx with
  | [] => (cost, cx)
  | t :: _ =>
    if t <? cx_pc cx then (1, setErr cx (Errorf "branch target not an aligned instruction"))
    else (cost, cx <| cx_branchTargets ::= dropTargets (cx_pc cx) |>)
  end.

Definition checkStep (cx : evalContext) : result (Z * evalContext) :=
  opcode ← byteAt (cx_program cx) (cx_pc cx);
  match opSpecOf opcode with
  | None => Ok (1, setErr cx errIllegalOpcode)
  | Some spec =>
    let oz := opSizeOf (os_Name spec) in
    if tooShort oz cx then Ok (1, setErr cx errShortProgram)
    else
      r ← match oz_checkFunc oz with
          | Some f =>
            r ← runCheckFunc f cx;
            let '(cost, cx) := r in
            Ok (cost, if negb (cx_nextpc cx =? 0) then cx <| cx_pc := cx_nextpc cx |> <| cx_nextpc := 0 |>
                      else cx <| cx_pc ::= λ pc, pc + oz_size oz |>)
          | None => Ok (oz_cost oz, cx <| cx_pc ::= λ pc, pc + oz_size oz |>)
          end;
      match cx_err r.2 with
      | Some _ => Ok (1, r.2)
      | None => Ok (checkTargets r.1 r.2)
      end
  end.

(** The loop of [Check]; [None]: out of fuel. *)
Fixpoint checkLoop (fuel : nat) (cost : Z) (cx : evalContext) : option (result (Z * evalContext)) :=
  if bool_decide (cx_err cx = None) && (cx_pc cx <? zlen (cx_program cx)) then
    match fuel with
    | O => None
    | S fuel =>
      match checkStep cx with
      | Ok (c, cx) => checkLoop fuel (cost + c) cx
      | Err e => Some (Err e)
      | Panic m => Some (Panic m)
      end
    end
  else Some (Ok (cost, cx)).

(** [Check] without its [recover]; the fuel, one step per byte, is enough
    ([checkBody_total]). *)
Definition checkBody (program : bytes) (params : EvalParams) : option (result Z) :=
  match ep_Proto params with
  | None => Some (Err errLogicSignNotSupported)
  | Some proto =>
    if cp_LogicSigVersion proto =? 0 then Some (Err errLogicSignNotSupported)
    else
      let '(version, vlen) := Uvarint program in
      if vlen <=? 0 then Some (Err (Errorf "invalid version"))
      else if EvalMaxVersion <? version then
        Some (Err (Errorf "program version greater than max supported version"))
      else if cp_LogicSigVersion proto <? version then
        Some (Err (Errorf "program version greater than protocol supported version"))
      else
        match checkLoop (length program) 0 (initContext program params vlen) with
        | None => None
        | Some (Ok (cost, cx)) => match cx_err cx with
                                  | Some e => Some (Err e)
                                  | None => Some (Ok cost)
                                  end
        | Some (Err e) => Some (Err e)
        | Some (Panic m) => Some (Panic m)
        end
  end.

Definition logic_Check (program : bytes) (params : EvalParams) : result Z :=
  match checkBody program params with
  | Some (Panic m) => Err (Errorf "panic in TEAL Check")
  | Some r => r
  | None => Panic "out of fuel"
  end.
End Run.
