(* ===== verification/TealSpec.v ===== *)
(** Properties of the TEAL interpreter: it terminates without its loop check, never
    panics, bounds its stack, and the static [Check] bounds the dynamic cost. *)

From stdpp Require Import sorting.
From S2P Require Import Prelude Config Basics Transactions Bookkeeping Teal.


Lemma lor_u64 a b : u64 a -> u64 b -> u64 (Z.lor a b).
Proof.
  intros [Ha Ha'] [Hb Hb']. split; [by apply Z.lor_nonneg|].
  destruct (decide (Z.lor a b = 0)) as [->|Hn]; [lia|].
  apply Z.log2_lt_pow2; [assert (0 <= Z.lor a b) by (by apply Z.lor_nonneg); lia|].
  rewrite Z.log2_lor by done. apply Z.max_lub_lt.
  - destruct (decide (a = 0)) as [->|]; [done|apply Z.log2_lt_pow2; lia].
  - destruct (decide (b = 0)) as [->|]; [done|apply Z.log2_lt_pow2; lia].
Qed.

(** ** Variable-length integers *)

Lemma uvarintLoop_spec buf : forall x s i v used, 0 <= i -> u64 x ->
  uvarintLoop buf x s i = (v, used) -> u64 v /\ (0 < used -> i < used <= i + zlen buf).
Proof.
  unfold zlen. induction buf as [|b buf IH]; intros x s i v used Hi Hx H; cbn [uvarintLoop length] in *.
  { injection H as <- <-. unfold u64. lia. }
  destruct (b <? 0x80).
  - destruct (_ || _); injection H as <- <-; [unfold u64; lia|].
    split; [apply lor_u64; [done|apply wrap64_range]|lia].
  - apply IH in H as [Hv Hu]; [|lia|apply lor_u64; [done|apply wrap64_range]]. split; [done|lia].
Qed.

Lemma Uvarint_spec buf v used : Uvarint buf = (v, used) -> u64 v /\ (0 < used -> 0 < used <= zlen buf).
Proof. intros H. apply uvarintLoop_spec in H; [naive_solver lia|lia|unfold u64; lia]. Qed.

Lemma sliceFrom_Ok p pos : 0 <= pos <= zlen p -> exists buf, sliceFrom p pos = Ok buf /\ zlen buf = zlen p - pos.
Proof.
  intros H. unfold sliceFrom. rewrite !(proj2 (Z.leb_le _ _)) by lia. eexists. split; [reflexivity|].
  unfold zlen in *. rewrite length_drop. lia.
Qed.

(** A slice of [p]: its bytes are bytes of [p]. *)
Definition piece (p b : bytes) : Prop := b ⊆ p /\ zlen b <= zlen p.

Lemma sliceOf_Ok p lo hi : 0 <= lo <= hi -> hi <= zlen p -> exists b, sliceOf p lo hi = Ok b /\ piece p b.
Proof.
  intros H1 H2. unfold sliceOf. rewrite !(proj2 (Z.leb_le _ _)) by lia. eexists. split; [reflexivity|]. split.
  - intros x Hx%elem_of_take. destruct Hx as (i & Hx & _). rewrite lookup_drop in Hx. by eapply list_elem_of_lookup_2.
  - unfold zlen in *. rewrite length_take, length_drop. lia.
Qed.

(** ** Constant blocks *)

(** The errors that only the interpreter loop reports. *)
Definition loop_errors : list error := [errLoopDetected; errCostTooHigh; errIllegalOpcode; errShortProgram].

Ltac not_loop_error := unfold loop_errors; rewrite !elem_of_cons, elem_of_nil;
  intros [|[|[|[|[]]]]]; discriminate.

(** A parser and the static check that skips what it parses: both succeed, at the
    same position, or both report the same error; neither panics. *)
Definition block_agree {A} (P : list A -> Prop) (lo hi : Z) (parse : result (list A * Z))
    (skip : result ((Z * error) + Z)) : Prop :=
  (exists l pos, parse = Ok (l, pos) /\ skip = Ok (inr pos) /\ P l /\ lo <= pos <= hi) \/
  (exists c e, parse = Err e /\ skip = Ok (inl (c, e)) /\ e ∉ loop_errors).

Ltac block_error := right; eexists _, _; split_and!; [reflexivity..|not_loop_error].

Lemma intItems_agree n p : forall pos, 0 <= pos <= zlen p ->
  block_agree (Forall u64) pos (zlen p) (intItems n p pos) (skipInts n p pos).
Proof.
  induction n as [|n IH]; intros pos Hp; cbn [intItems skipInts].
  { left. exists [], pos. split_and!; [done..|constructor|lia|lia]. }
  destruct (Z.leb_spec (zlen p) pos); [block_error|]. destruct (sliceFrom_Ok p pos Hp) as (buf & -> & Hb).
  cbn [mbind result_bind]. destruct (Uvarint buf) as [v used] eqn:E. apply Uvarint_spec in E as [Hv E].
  rewrite Hb in E. destruct (Z.leb_spec used 0); [block_error|].
  destruct (IH (pos + used)) as [(l & pos' & -> & -> & Hl & Hp')|(c & e & -> & -> & He)]; [lia|left|right].
  - exists (v :: l), pos'. split_and!; [done..|by constructor|lia|lia].
  - by exists c, e.
Qed.

Lemma byteItems_agree n p : zlen p < 2 ^ 64 -> forall pos, 0 <= pos <= zlen p ->
  block_agree (Forall (piece p)) pos (zlen p) (byteItems n p pos) (skipBytes n p pos).
Proof.
  intros Hl. induction n as [|n IH]; intros pos Hp; cbn [byteItems skipBytes].
  { left. exists [], pos. split_and!; [done..|constructor|lia|lia]. }
  destruct (Z.leb_spec (zlen p) pos); [block_error|]. destruct (sliceFrom_Ok p pos Hp) as (buf & -> & Hb).
  cbn [mbind result_bind]. destruct (Uvarint buf) as [v used] eqn:E. apply Uvarint_spec in E as [Hv E].
  rewrite Hb in E. destruct (Z.leb_spec used 0); [block_error|].
  destruct (Z.leb_spec (zlen p) (pos + used)); [block_error|].
  destruct (_ || _) eqn:Ef; [block_error|]. bool_hyps. destruct Ef as [F1 F2].
  assert (pos + used + v <= zlen p) as Hfin.
  { destruct (decide (pos + used + v < 2 ^ 64)).
    - rewrite wrap64_small in F1 by (unfold u64 in *; lia). lia.
    - rewrite wrap64_add_over in F2 by (unfold u64 in *; lia). unfold u64 in *. lia. }
  destruct (sliceOf_Ok p (pos + used) (pos + used + v)) as (item & -> & Hi); [unfold u64 in *; lia|done|].
  cbn [mbind result_bind].
  destruct (IH (pos + used + v)) as [(l & pos' & -> & -> & HF & Hp')|(c & e & -> & -> & He)];
    [unfold u64 in *; lia|left|right].
  - exists (item :: l), pos'. unfold u64 in *. split_and!; [done..|by constructor|lia|lia].
  - by exists c, e.
Qed.

(** A block instruction at [pc], executed and checked. *)
Definition block_ok {A} (P : list A -> Prop) (cx : evalContext) (parse : result (list A * Z))
    (check : result (Z * evalContext)) : Prop :=
  (exists l next, parse = Ok (l, next) /\ check = Ok (1, cx <| cx_nextpc := next |>) /\ P l /\
     cx_pc cx + 1 < next <= zlen (cx_program cx)) \/
  (exists c e, parse = Err e /\ check = Ok (c, setErr cx e) /\ e ∉ loop_errors).

Lemma intBlock_ok cx : 0 <= cx_pc cx < zlen (cx_program cx) ->
  block_ok (Forall u64) cx (parseIntcblock (cx_program cx) (cx_pc cx)) (checkIntConstBlock cx).
Proof.
  intros Hpc. unfold parseIntcblock, checkIntConstBlock.
  destruct (sliceFrom_Ok (cx_program cx) (cx_pc cx + 1)) as (buf & -> & Hb); [lia|].
  cbn [mbind result_bind]. destruct (Uvarint buf) as [v used] eqn:E. apply Uvarint_spec in E as [Hv E].
  rewrite Hb in E. destruct (Z.leb_spec used 0); [block_error|]. destruct (_ <? _); [block_error|].
  destruct (intItems_agree (Z.to_nat v) (cx_program cx) (cx_pc cx + 1 + used))
    as [(l & pos & -> & -> & HP & Hp)|(c & e & -> & -> & He)]; [lia|left|right].
  - exists l, pos. split_and!; try done; lia.
  - by exists c, e.
Qed.

Lemma byteBlock_ok cx : 0 <= cx_pc cx < zlen (cx_program cx) -> zlen (cx_program cx) < 2 ^ 64 ->
  block_ok (Forall (piece (cx_program cx))) cx (parseBytecBlock (cx_program cx) (cx_pc cx)) (checkByteConstBlock cx).
Proof.
  intros Hpc Hl. unfold parseBytecBlock, checkByteConstBlock.
  destruct (sliceFrom_Ok (cx_program cx) (cx_pc cx + 1)) as (buf & -> & Hb); [lia|].
  cbn [mbind result_bind]. destruct (Uvarint buf) as [v used] eqn:E. apply Uvarint_spec in E as [Hv E].
  rewrite Hb in E. destruct (Z.leb_spec used 0); [block_error|]. destruct (_ <? _); [block_error|].
  destruct (byteItems_agree (Z.to_nat v) (cx_program cx) Hl (cx_pc cx + 1 + used))
    as [(l & pos & -> & -> & HP & Hp)|(c & e & -> & -> & He)]; [lia|left|right].
  - exists l, pos. split_and!; try done; lia.
  - by exists c, e.
Qed.

Lemma parseIntcblock_spec p pc l next : 0 <= pc < zlen p -> parseIntcblock p pc = Ok (l, next) ->
  Forall u64 l /\ pc + 1 < next <= zlen p.
Proof.
  intros Hp H. destruct (intBlock_ok (initContext p (mkEvalParams None None [] 0 0) pc))
    as [(l' & n & E & _ & ? & ?)|(c & e & E & _)]; [done|..]; cbn in *; rewrite H in E; by simplify_eq.
Qed.
Lemma parseBytecBlock_spec p pc l next : zlen p < 2 ^ 64 -> 0 <= pc < zlen p ->
  parseBytecBlock p pc = Ok (l, next) -> Forall (piece p) l /\ pc + 1 < next <= zlen p.
Proof.
  intros Hl Hp H. destruct (byteBlock_ok (initContext p (mkEvalParams None None [] 0 0) pc))
    as [(l' & n & E & _ & ? & ?)|(c & e & E & _)]; [done|done|..]; cbn in *; rewrite H in E; by simplify_eq.
Qed.

(** ** One operation *)

Record wfcx (cx : evalContext) : Prop := {
  wc_err : cx_err cx = None;
  wc_next : cx_nextpc cx = 0;
  wc_pc : 0 <= cx_pc cx;
  wc_scratch : length (cx_scratch cx) = 256%nat;
  wc_bytes : Forall is_byte (cx_program cx);
  wc_len : zlen (cx_program cx) < 2 ^ 64;
  wc_proto : is_Some (ep_Proto (cx_params cx))
}.

(** Where execution goes after an instruction. *)
Definition next_ok (oz : opSize) (cx : evalContext) (next : Z) : Prop :=
  match oz_checkFunc oz with
  | None => next = if oz_size oz =? 1 then 0 else cx_pc cx + oz_size oz
  | Some checkBnzF => next = cx_pc cx + 3 \/
      exists off, branchOffset (cx_program cx) (cx_pc cx) = Ok off /\ off <= 0x7fff /\ next = cx_pc cx + 3 + off
  | Some checkIntConstBlockF => exists l, parseIntcblock (cx_program cx) (cx_pc cx) = Ok (l, next)
  | Some checkByteConstBlockF => exists l, parseBytecBlock (cx_program cx) (cx_pc cx) = Ok (l, next)
  end.

(** What an operation may change. *)
Record op_post (oz : opSize) (cx cx' : evalContext) : Prop := {
  op_params : cx_params cx' = cx_params cx;
  op_program : cx_program cx' = cx_program cx;
  op_pc : cx_pc cx' = cx_pc cx;
  op_cost : cx_cost cx' = cx_cost cx;
  op_targets : cx_branchTargets cx' = cx_branchTargets cx;
  op_scratch : length (cx_scratch cx') = 256%nat;
  op_err : forall e, cx_err cx' = Some e -> e ∉ loop_errors;
  op_next : cx_err cx' = None -> next_ok oz cx (cx_nextpc cx')
}.

Definition op_ok (spec : OpSpec) : Prop := forall cx,
  let oz := opSizeOf (os_Name spec) in
  wfcx cx -> is_Some (ep_Txn (cx_params cx)) -> cx_pc cx < zlen (cx_program cx) ->
  (length (os_Args spec) <= length (cx_stack cx))%nat -> tooShort oz cx = false ->
  exists cx', os_op spec cx = Ok cx' /\ op_post oz cx cx'.

Lemma byteAt_Ok p i : Forall is_byte p -> 0 <= i < zlen p -> exists b, byteAt p i = Ok b /\ is_byte b.
Proof.
  intros Hp Hi. unfold byteAt, zlen in *. rewrite (proj2 (Z.ltb_ge _ _)) by lia.
  destruct (p !! Z.to_nat i) as [b|] eqn:E; [|apply lookup_ge_None in E; lia].
  exists b. split; [done|]. by eapply Forall_lookup_1.
Qed.

Lemma byteAt_byte p i b : Forall is_byte p -> byteAt p i = Ok b -> is_byte b.
Proof.
  unfold byteAt. intros Hp H. destruct (i <? 0); [done|]. destruct (p !! _) eqn:E; [|done]. injection H as <-.
  by eapply Forall_lookup_1.
Qed.

Lemma op_post_fail oz cx msg : wfcx cx -> Errorf msg ∉ loop_errors -> op_post oz cx (setErr cx (Errorf msg)).
Proof. intros [] Hm. split; try done. by intros e [= <-]. Qed.

Lemma op_post_stack oz cx st : wfcx cx -> oz_checkFunc oz = None -> oz_size oz = 1 ->
  op_post oz cx (setStack cx st).
Proof.
  intros [] Hc Hs. split; try done; cbn; [congruence|]. intros _. unfold next_ok. by rewrite Hc, Hs.
Qed.

Lemma op_post_advance oz cx k sv : wfcx cx -> oz_checkFunc oz = None -> oz_size oz = k -> k <> 1 ->
  op_post oz cx (advance k (push cx sv)).
Proof.
  intros [] Hc <- Hk. split; try done; cbn; [congruence|]. intros _. unfold next_ok. rewrite Hc.
  by rewrite (proj2 (Z.eqb_neq _ _)).
Qed.

Lemma tooShort_false oz cx k : tooShort oz cx = false -> oz_size oz = k -> k <> 0 -> cx_pc cx + k <= zlen (cx_program cx).
Proof.
  unfold tooShort. intros H <- Hk. rewrite (proj2 (Z.eqb_neq _ _)) in H by done. cbn in H. bool_hyps. lia.
Qed.

(** An immediate byte of an instruction. *)
Lemma immediate oz cx k i : wfcx cx -> tooShort oz cx = false -> oz_size oz = k -> 0 < i < k ->
  exists b, byteAt (cx_program cx) (cx_pc cx + i) = Ok b /\ is_byte b.
Proof.
  intros [] Hs Hk Hi. pose proof (tooShort_false oz cx k Hs Hk ltac:(lia)). apply byteAt_Ok; [done|lia].
Qed.

Section Ops.
Context (computeID : Transaction -> Txid) (sha256 keccak256 sha512_256 : bytes -> bytes)
        (verifyMsg : bytes -> Digest -> bytes -> bytes -> bool).

(** A stack operation that either fails or rewrites the stack. *)
Ltac stack_op :=
  intros cx oz W Ht Hpc Hl Hs; cbn [os_op os_Args length] in *;
  destruct (cx_stack cx) as [|v1 [|v2 [|v3 st]]] eqn:E; cbn in Hl; try lia;
  unfold opPlus, opMinus, opDiv, opModulo, opMul, opMulw, opLt, opGt, opLe, opGe, opAnd, opOr, opEq, opNeq,
    opNot, opLen, opItob, opBtoi, opBitOr, opBitAnd, opBitXor, opBitNot, opPop, opDup, opSHA256, opKeccak256,
    opSHA512_256, opEd25519verify, hashOp, with2, binopUint, binop, unop, opMulwImpl, fail, push; rewrite E;
  repeat match goal with |- context [if ?b then _ else _] => destruct b end;
  eexists; (split; [reflexivity|]);
  first [ apply op_post_stack; [done|reflexivity|reflexivity]
        | apply op_post_fail; [done|not_loop_error]
        | destruct W; split; cbn; first [done|discriminate|intros ? [= <-]; not_loop_error] ].

(** Operations that push one value read from an immediate byte. *)
Ltac imm_op k :=
  intros cx oz W Ht Hpc Hl Hs; cbn [os_op os_Args length] in *;
  destruct (immediate oz cx k 1 W Hs eq_refl ltac:(lia)) as (b & Hb & Hr).

(** Pushing a constant, or failing when it does not exist. *)
Lemma opIntConstN_ok n oz cx : wfcx cx -> oz_checkFunc oz = None -> oz_size oz = 1 ->
  exists cx', opIntConstN n cx = Ok cx' /\ op_post oz cx cx'.
Proof.
  intros W Hc Hz. unfold opIntConstN. destruct (_ !! _); eexists; (split; [reflexivity|]).
  - by apply op_post_stack.
  - apply op_post_fail; [done|not_loop_error].
Qed.
Lemma opByteConstN_ok n oz cx : wfcx cx -> oz_checkFunc oz = None -> oz_size oz = 1 ->
  exists cx', opByteConstN n cx = Ok cx' /\ op_post oz cx cx'.
Proof.
  intros W Hc Hz. unfold opByteConstN. destruct (_ !! _); eexists; (split; [reflexivity|]).
  - by apply op_post_stack.
  - apply op_post_fail; [done|not_loop_error].
Qed.
Lemma opArgN_ok n oz cx : wfcx cx -> is_Some (ep_Txn (cx_params cx)) -> oz_checkFunc oz = None -> oz_size oz = 1 ->
  exists cx', opArgN n cx = Ok cx' /\ op_post oz cx cx'.
Proof.
  intros W [txn Ht] Hc Hz. unfold opArgN. rewrite Ht. cbn [mbind result_bind deref]. destruct (_ !! _); eexists; (split; [reflexivity|]).
  - by apply op_post_stack.
  - apply op_post_fail; [done|not_loop_error].
Qed.

(** The same after an index byte. *)
Lemma indexed_ok (f : Z -> evalContext -> result evalContext) oz cx n : oz_checkFunc oz = None -> oz_size oz = 2 ->
  (exists cx', f n cx = Ok cx' /\ op_post (mkOpSize 1 1 None) cx cx') ->
  exists cx', (cx ← f n cx; mret (advance 2 cx)) = Ok cx' /\ op_post oz cx cx'.
Proof.
  intros Hc Hz (cx' & -> & []). eexists. split; [reflexivity|]. split; try done.
  intros _. cbn. unfold next_ok. rewrite Hc, Hz. cbn. congruence.
Qed.

Lemma ok_index name c f : opSizeOf name = mkOpSize 1 2 None ->
  (forall n cx, wfcx cx -> is_Some (ep_Txn (cx_params cx)) -> exists cx', f n cx = Ok cx' /\ op_post (mkOpSize 1 1 None) cx cx') ->
  op_ok (mkOpSpec c name (λ cx, n ← byteAt (cx_program cx) (cx_pc cx + 1); cx ← f n cx; mret (advance 2 cx)) []).
Proof.
  intros Hn Hf cx oz W Ht Hpc _ Hs. assert (oz = mkOpSize 1 2 None) as Ho by exact Hn.
  destruct (immediate oz cx 2 1 W Hs) as (b & Hb & _); [by rewrite Ho|lia|].
  cbn [os_op]. rewrite Hb. cbn [mbind result_bind]. apply indexed_ok; [by rewrite Ho..|by apply Hf].
Qed.

Lemma txnField_error cx txn f : match txnFieldToStack computeID cx txn f with
  | Ok _ => True | Err e => e ∉ loop_errors | Panic _ => False end.
Proof. unfold txnFieldToStack. destruct (_ !! _) as [[]|]; try done. not_loop_error. Qed.

Lemma ok_txn : op_ok (mkOpSpec 0x31 "txn" (opTxn computeID) []).
Proof.
  imm_op 2. unfold opTxn. rewrite Hb. cbn [mbind result_bind].
  destruct Ht as [txn ->]. cbn [deref mbind result_bind]. pose proof (txnField_error cx (stx_Txn txn) b) as He.
  destruct (txnFieldToStack _ _ _ _); [| |done]; eexists; (split; [reflexivity|]).
  - by apply op_post_advance.
  - destruct W. split; cbn; try done. by intros ? [= <-].
Qed.

Lemma ok_gtxn : op_ok (mkOpSpec 0x33 "gtxn" (opGtxn computeID) []).
Proof.
  imm_op 3. unfold opGtxn. rewrite Hb. cbn [mbind result_bind].
  destruct (_ !! _) as [stxn|]; [|eexists; split; [reflexivity|]; apply op_post_fail; [done|not_loop_error]].
  destruct (immediate oz cx 3 2 W Hs eq_refl ltac:(lia)) as (b2 & -> & _). cbn [mbind result_bind].
  pose proof (txnField_error cx (stx_Txn (sad_SignedTxn stxn)) b2) as He.
  case_bool_decide; [|destruct (txnFieldToStack _ _ _ _); [| |done]]; eexists; (split; [reflexivity|]).
  1-2: by apply op_post_advance.
  destruct W. split; cbn; try done. by intros ? [= <-].
Qed.

Lemma ok_global : op_ok (mkOpSpec 0x32 "global" opGlobal []).
Proof.
  imm_op 2. unfold opGlobal. rewrite Hb. cbn [mbind result_bind]. destruct (wc_proto _ W) as [proto ->]. cbn [deref mbind result_bind].
  destruct (_ !! _) as [[]|]; eexists; (split; [reflexivity|]); try (by apply op_post_advance).
  apply op_post_fail; [done|not_loop_error].
Qed.

Lemma ok_load : op_ok (mkOpSpec 0x34 "load" opLoad []).
Proof.
  imm_op 2. unfold opLoad. rewrite Hb. cbn [mbind result_bind].
  destruct (cx_scratch cx !! Z.to_nat b) as [sv|] eqn:E.
  - eexists. split; [reflexivity|]. by apply op_post_advance.
  - apply lookup_ge_None in E. rewrite (wc_scratch _ W) in E. unfold is_byte in Hr. lia.
Qed.

Lemma ok_store : op_ok (mkOpSpec 0x35 "store" opStore oneAny).
Proof.
  imm_op 2. unfold opStore. rewrite Hb. cbn [mbind result_bind].
  destruct (cx_stack cx) as [|v st]; [cbn in Hl; lia|].
  destruct (cx_scratch cx !! Z.to_nat b) as [sv|] eqn:E.
  - eexists. split; [reflexivity|]. destruct W. split; cbn; try done; [by rewrite length_insert|congruence].
  - apply lookup_ge_None in E. rewrite (wc_scratch _ W) in E. unfold is_byte in Hr. lia.
Qed.

Lemma branchOffset_Ok oz cx : wfcx cx -> tooShort oz cx = false -> oz_size oz = 3 ->
  exists off, branchOffset (cx_program cx) (cx_pc cx) = Ok off /\ 0 <= off.
Proof.
  intros W Hs Hz. unfold branchOffset.
  destruct (immediate oz cx 3 1 W Hs Hz ltac:(lia)) as (h & -> & Hh).
  destruct (immediate oz cx 3 2 W Hs Hz ltac:(lia)) as (l & -> & Hl). cbn.
  eexists. split; [reflexivity|]. unfold is_byte in *. apply Z.lor_nonneg.
  split; [apply Z.shiftl_nonneg; lia|lia].
Qed.

Lemma ok_bnz : op_ok (mkOpSpec 0x40 "bnz" opBnz oneInt).
Proof.
  intros cx oz W Ht Hpc Hl Hs. cbn [os_op]. unfold opBnz.
  destruct (cx_stack cx) as [|v st]; [cbn in Hl; lia|]. cbn [cx_program cx_pc setStack advance].
  destruct (branchOffset_Ok oz cx W Hs eq_refl) as (off & Ho & _). pose proof W as [].
  destruct (negb _); [|eexists; split; [reflexivity|]; split; cbn; try done; [congruence|by left]].
  cbn. rewrite Ho. cbn [mbind result_bind]. destruct (Z.ltb_spec 0x7fff off); eexists; (split; [reflexivity|]).
  - split; cbn; try done. intros ? [= <-]. not_loop_error.
  - split; cbn; try done; [congruence|]. intros _. right. eauto.
Qed.

(** The block instructions store the constants, or fail with the parser's error. *)
Lemma ok_intcblock : op_ok (mkOpSpec 0x20 "intcblock" opIntConstBlock []).
Proof.
  intros cx oz W Ht Hpc _ _. cbn [os_op]. unfold opIntConstBlock.
  destruct (intBlock_ok cx) as [(l & n & E & _)|(c & e & E & _ & He)]; [by destruct W| |];
    rewrite E; eexists; (split; [reflexivity|]); destruct W; split; cbn;
    first [done|congruence|by intros _; exists l|by intros ? [= <-]].
Qed.
Lemma ok_bytecblock : op_ok (mkOpSpec 0x26 "bytecblock" opByteConstBlock []).
Proof.
  intros cx oz W Ht Hpc _ _. cbn [os_op]. unfold opByteConstBlock.
  destruct (byteBlock_ok cx) as [(l & n & E & _)|(c & e & E & _ & He)]; [by destruct W|by destruct W| |];
    rewrite E; eexists; (split; [reflexivity|]); destruct W; split; cbn;
    first [done|congruence|by intros _; exists l|by intros ? [= <-]].
Qed.

Lemma ok_err : op_ok (mkOpSpec 0x00 "err" opErr []).
Proof.
  intros cx oz W Ht Hpc _ _. eexists. split; [reflexivity|]. apply op_post_fail; [done|not_loop_error].
Qed.

Ltac const_op :=
  let cx := fresh in let W := fresh in intros cx ? W ? _ _ _; cbn [os_op];
  first [by apply opIntConstN_ok|by apply opByteConstN_ok|by apply opArgN_ok].

(** Every operation of the table is well behaved. *)
Lemma OpSpecs_ok : Forall op_ok (OpSpecs computeID sha256 keccak256 sha512_256 verifyMsg).
Proof.
  unfold OpSpecs. repeat apply Forall_cons_2; [..|apply Forall_nil_2].
  all: first [ apply ok_err | apply ok_txn | apply ok_gtxn | apply ok_global | apply ok_load | apply ok_store
             | apply ok_bnz | apply ok_intcblock | apply ok_bytecblock
             | apply (ok_index "intc" _ opIntConstN); [reflexivity|intros; by apply opIntConstN_ok]
             | apply (ok_index "bytec" _ opByteConstN); [reflexivity|intros; by apply opByteConstN_ok]
             | apply (ok_index "arg" _ opArgN); [reflexivity|intros; by apply opArgN_ok]
             | const_op | stack_op ].
Qed.

Lemma opSpecOf_ok opcode spec :
  opSpecOf computeID sha256 keccak256 sha512_256 verifyMsg opcode = Some spec -> op_ok spec.
Proof.
  intros H. apply find_some in H as [H _]. pose proof OpSpecs_ok as HF. rewrite Forall_forall in HF.
  apply HF. by apply list_elem_of_In.
Qed.

(** The sizes of the table. *)
Lemma opSize_cases opcode spec :
  opSpecOf computeID sha256 keccak256 sha512_256 verifyMsg opcode = Some spec ->
  let oz := opSizeOf (os_Name spec) in
  0 < oz_cost oz /\ match oz_checkFunc oz with
                    | None => 1 <= oz_size oz
                    | Some checkBnzF => oz_size oz = 3 /\ oz_cost oz = 1
                    | Some _ => oz_size oz = 0 /\ oz_cost oz = 1
                    end.
Proof.
  intros H. apply find_some in H as [H _]. apply list_elem_of_In in H. revert spec H.
  rewrite <- Forall_forall. unfold OpSpecs. repeat apply Forall_cons_2; [..|apply Forall_nil_2]; vm_compute; done.
Qed.
End Ops.

(** ** Steps *)

Section Steps.
Context (computeID : Transaction -> Txid) (sha256 keccak256 sha512_256 : bytes -> bytes)
        (verifyMsg : bytes -> Digest -> bytes -> bytes -> bool) (hashProgram : bytes -> Digest).
Notation step := (step computeID sha256 keccak256 sha512_256 verifyMsg).
Notation opSpecOf := (opSpecOf computeID sha256 keccak256 sha512_256 verifyMsg).
Notation evalLoop := (evalLoop computeID sha256 keccak256 sha512_256 verifyMsg).
Notation evalBody := (evalBody computeID sha256 keccak256 sha512_256 verifyMsg hashProgram).
Notation checkStep := (checkStep computeID sha256 keccak256 sha512_256 verifyMsg).
Notation checkLoop := (checkLoop computeID sha256 keccak256 sha512_256 verifyMsg).
Notation checkBody := (checkBody computeID sha256 keccak256 sha512_256 verifyMsg).
Notation logic_Eval := (logic_Eval computeID sha256 keccak256 sha512_256 verifyMsg hashProgram).
Notation logic_Check := (logic_Check computeID sha256 keccak256 sha512_256 verifyMsg).

(** The instruction at a position: it is in the table and complete. *)
Definition instr (p : bytes) (pc : Z) (spec : OpSpec) : Prop :=
  exists opcode, byteAt p pc = Ok opcode /\ opSpecOf opcode = Some spec /\
    (oz_size (opSizeOf (os_Name spec)) <> 0 -> pc + oz_size (opSizeOf (os_Name spec)) <= zlen p).

(** Where the instruction at [pc] can go. *)
Definition flows (p : bytes) (pc next : Z) (spec : OpSpec) : Prop :=
  let oz := opSizeOf (os_Name spec) in
  match oz_checkFunc oz with
  | None => next = pc + oz_size oz
  | Some checkBnzF => next = pc + 3 \/
      exists off, branchOffset p pc = Ok off /\ off <= 0x7fff /\ next = pc + 3 + off
  | Some checkIntConstBlockF => exists l, parseIntcblock p pc = Ok (l, next)
  | Some checkByteConstBlockF => exists l, parseBytecBlock p pc = Ok (l, next)
  end.

Lemma branchOffset_nonneg p pc off : Forall is_byte p -> branchOffset p pc = Ok off -> 0 <= off.
Proof.
  intros Hp H. unfold branchOffset in H. inv_ok.
  apply Z.lor_nonneg. split; [apply Z.shiftl_nonneg|]; by eapply byteAt_byte.
Qed.

Lemma flows_forward p pc next spec opcode : Forall is_byte p -> zlen p < 2 ^ 64 -> 0 <= pc < zlen p ->
  opSpecOf opcode = Some spec -> flows p pc next spec -> pc < next.
Proof.
  intros Hp Hl Hpc Hs Hf. pose proof (opSize_cases _ _ _ _ _ _ _ Hs) as [_ Hz]. unfold flows in Hf.
  destruct (oz_checkFunc _) as [[]|].
  - destruct Hf as [->|(off & Ho & _ & ->)]; [lia|]. apply branchOffset_nonneg in Ho; [lia|done].
  - destruct Hf as [l Hf]. apply parseIntcblock_spec in Hf; lia.
  - destruct Hf as [l Hf]. apply parseBytecBlock_spec in Hf; lia.
  - lia.
Qed.

(** Errors of a step, and the state after a successful one. *)
Record step_post (cx cx' : evalContext) : Prop := {
  sp_program : cx_program cx' = cx_program cx;
  sp_params : cx_params cx' = cx_params cx;
  sp_cost : forall spec, instr (cx_program cx) (cx_pc cx) spec ->
    cx_cost cx' <= cx_cost cx + oz_cost (opSizeOf (os_Name spec));
  sp_err : forall e spec, cx_err cx' = Some e -> instr (cx_program cx) (cx_pc cx) spec -> e ∉ loop_errors;
  sp_err2 : forall e, cx_err cx' = Some e -> e <> errLoopDetected /\ e <> errCostTooHigh;
  sp_ok : cx_err cx' = None -> wfcx cx' /\ zlen (cx_stack cx') <= MaxStackDepth /\
    exists spec, instr (cx_program cx) (cx_pc cx) spec /\ flows (cx_program cx) (cx_pc cx) (cx_pc cx') spec
}.

Lemma instr_cost p pc spec : instr p pc spec -> 0 < oz_cost (opSizeOf (os_Name spec)).
Proof. intros (o & _ & Hs & _). by apply opSize_cases in Hs as [? _]. Qed.

Lemma instr_unique p pc spec spec' : instr p pc spec -> instr p pc spec' -> spec' = spec.
Proof. intros (o & Ho & Hs & _) (o' & Ho' & Hs' & _). congruence. Qed.

Lemma not_in_loop_errors e : e ∉ loop_errors -> e <> errLoopDetected /\ e <> errCostTooHigh.
Proof. unfold loop_errors. set_solver. Qed.

(** An error found before the operation runs. *)
Lemma step_post_err cx e : e <> errLoopDetected -> e <> errCostTooHigh ->
  (forall spec, instr (cx_program cx) (cx_pc cx) spec -> e ∉ loop_errors) -> step_post cx (setErr cx e).
Proof.
  intros H1 H2 H3. split; cbn; try done.
  - intros spec Hi%instr_cost. lia.
  - intros e' spec [= <-] Hi. by eapply H3.
  - by intros e' [= <-].
Qed.

Lemma nextPC_flows oz cx cx' : op_post oz cx cx' -> 0 <= cx_pc cx -> next_ok oz cx (cx_nextpc cx') ->
  (forall l next, parseIntcblock (cx_program cx) (cx_pc cx) = Ok (l, next) -> next <> 0) ->
  (forall l next, parseBytecBlock (cx_program cx) (cx_pc cx) = Ok (l, next) -> next <> 0) ->
  (forall off, branchOffset (cx_program cx) (cx_pc cx) = Ok off -> 0 <= off) ->
  match oz_checkFunc oz with
  | None => 1 <= oz_size oz
  | Some _ => True
  end ->
  match oz_checkFunc oz with
  | None => cx_pc (nextPC cx') = cx_pc cx + oz_size oz
  | _ => cx_pc (nextPC cx') = cx_nextpc cx'
  end /\ cx_nextpc (nextPC cx') = 0.
Proof.
  intros [_ _ Hpc _ _ _ _ _] H0 Hn Hi Hb Ho Hz. unfold nextPC, next_ok in *.
  destruct (oz_checkFunc oz) as [[]|].
  - assert (cx_nextpc cx' <> 0) as Hne by (destruct Hn as [->|(off & Hoff & _ & ->)]; [lia|apply Ho in Hoff; lia]).
    by rewrite (proj2 (Z.eqb_neq _ _) Hne).
  - destruct Hn as [l Hn]. apply Hi in Hn. by rewrite (proj2 (Z.eqb_neq _ _) Hn).
  - destruct Hn as [l Hn]. apply Hb in Hn. by rewrite (proj2 (Z.eqb_neq _ _) Hn).
  - destruct (Z.eqb_spec (oz_size oz) 1) as [E|E].
    + rewrite Hn, E. cbn. rewrite Hpc. split; [done|]. done.
    + rewrite (proj2 (Z.eqb_neq _ _)) by lia. done.
Qed.

Lemma step_post_run cx spec opcode cx1 : wfcx cx -> cx_pc cx < zlen (cx_program cx) ->
  byteAt (cx_program cx) (cx_pc cx) = Ok opcode -> opSpecOf opcode = Some spec ->
  tooShort (opSizeOf (os_Name spec)) cx = false ->
  op_post (opSizeOf (os_Name spec)) (cx <| cx_cost ::= λ c, c + oz_cost (opSizeOf (os_Name spec)) |>) cx1 ->
  zlen (cx_stack cx1) <= MaxStackDepth -> cx_err cx1 = None -> step_post cx (nextPC cx1).
Proof.
  intros W Hpc Hop Hs Hsh P Hst He. pose proof (opSize_cases _ _ _ _ _ _ _ Hs) as [_ Hz].
  assert (instr (cx_program cx) (cx_pc cx) spec) as Hi.
  { exists opcode. split_and!; try done. intros Hne. by eapply tooShort_false. }
  assert (forall X (f : evalContext -> X), f (nextPC cx1) = f (nextPC cx1)) as _ by done.
  destruct (nextPC_flows _ _ _ P) as [Hflow Hnx]; cbn [cx_pc cx_program].
  { by destruct W. } { by apply (op_next _ _ _ P). }
  { intros l next H. apply parseIntcblock_spec in H; destruct W; cbn in *; lia. }
  { intros l next H. apply parseBytecBlock_spec in H; destruct W; cbn in *; lia. }
  { intros off. apply branchOffset_nonneg. by destruct W. }
  { by destruct (oz_checkFunc _) as [[]|]. }
  assert (flows (cx_program cx) (cx_pc cx) (cx_pc (nextPC cx1)) spec) as Hf.
  { unfold flows. pose proof (op_next _ _ _ P He) as Hn. unfold next_ok in Hn. cbn in Hn.
    destruct (oz_checkFunc _) as [[]|]; rewrite Hflow; done. }
  assert (cx_program (nextPC cx1) = cx_program cx /\ cx_params (nextPC cx1) = cx_params cx /\
          cx_err (nextPC cx1) = None /\ cx_cost (nextPC cx1) = cx_cost cx + oz_cost (opSizeOf (os_Name spec)) /\
          cx_stack (nextPC cx1) = cx_stack cx1 /\ length (cx_scratch (nextPC cx1)) = 256%nat) as (E1 & E2 & E3 & E4 & E5 & E6).
  { destruct P. unfold nextPC. destruct (negb _); cbn; split_and!; done. }
  assert (cx_pc cx < cx_pc (nextPC cx1)) by (destruct W; by eapply flows_forward).
  split; rewrite ?E1, ?E2, ?E3, ?E4, ?E5; try done.
  - intros spec' Hi'. by rewrite (instr_unique _ _ _ _ Hi Hi').
  - intros _. split_and!; [|done|by exists spec].
    destruct W. split; rewrite ?E1, ?E2, ?E3; try done. lia.
Qed.

Lemma step_spec cx : wfcx cx -> is_Some (ep_Txn (cx_params cx)) -> cx_pc cx < zlen (cx_program cx) ->
  exists cx', step cx = Ok cx' /\ step_post cx cx'.
Proof.
  intros W Ht Hpc. destruct (byteAt_Ok (cx_program cx) (cx_pc cx) (wc_bytes _ W)) as (opcode & Hop & _).
  { destruct W. lia. }
  unfold Teal.step. rewrite Hop. cbn [mbind result_bind].
  destruct (opSpecOf opcode) as [spec|] eqn:Hs.
  2:{ eexists. split; [reflexivity|]. apply step_post_err; try done. intros spec (o & Ho & Hsp & _). congruence. }
  destruct (_ <? _)%nat eqn:Hlen; [eexists; split; [reflexivity|]; apply step_post_err; [done..|intros; not_loop_error]|].
  destruct (negb _); [eexists; split; [reflexivity|]; apply step_post_err; [done..|intros; not_loop_error]|].
  destruct (tooShort _ _) eqn:Hsh.
  { eexists. split; [reflexivity|]. apply step_post_err; try done. intros spec' (o & Ho & Hsp & Hz).
    assert (spec' = spec) as -> by congruence. unfold tooShort in Hsh. bool_hyps. destruct Hsh as [? ?]. lia. }
  destruct (opSpecOf_ok _ _ _ _ _ _ _ Hs (cx <| cx_cost ::= λ c, c + oz_cost (opSizeOf (os_Name spec)) |>))
    as (cx1 & -> & P); [by destruct W|done|done|apply Nat.ltb_ge in Hlen; done|done|].
  cbn [mbind result_bind]. destruct (cx_err cx1) as [e|] eqn:He.
  { eexists. split; [reflexivity|]. destruct P as [P1 P2 P3 P4 P5 P6 P7 P8].
    split; try done; rewrite ?He; try done.
    - intros spec' (o & Ho & Hsp & _). assert (spec' = spec) as -> by congruence. rewrite P4. done.
    - intros e' spec' [= <-] _. by apply P7.
    - intros e' [= <-]. apply not_in_loop_errors. by apply P7. }
  destruct (Z.ltb_spec MaxStackDepth (zlen (cx_stack cx1))); eexists; (split; [reflexivity|]).
  - destruct P as [P1 P2 P3 P4 P5 P6 P7 P8]. split; cbn; try done.
    + intros spec' (o & Ho & Hsp & _). assert (spec' = spec) as -> by congruence. rewrite P4. done.
    + intros e' spec' [= <-] _. not_loop_error.
    + intros e' [= <-]. done.
  - by eapply step_post_run.
Qed.
(** ** Whole runs *)

Lemma step_forward cx cx' : wfcx cx -> cx_pc cx < zlen (cx_program cx) -> step_post cx cx' ->
  cx_err cx' = None -> wfcx cx' /\ cx_pc cx < cx_pc cx'.
Proof.
  intros W Hpc P He. destruct (sp_ok _ _ P He) as (W' & _ & spec & (o & _ & Hs & _) & Hf).
  split; [done|]. destruct W. by eapply flows_forward.
Qed.

Lemma evalLoop_clean maxCost n : forall cx, wfcx cx -> is_Some (ep_Txn (cx_params cx)) -> zlen (cx_program cx) - cx_pc cx < Z.of_nat n ->
  match evalLoop maxCost n cx with
  | Ok cx' => forall e, cx_err cx' = Some e -> e <> errLoopDetected
  | Err e => e = errCostTooHigh
  | Panic _ => False
  end.
Proof.
  induction n as [|n IH]; intros cx W Ht Hn; cbn [Teal.evalLoop];
    rewrite bool_decide_true by apply W; cbn [andb];
    (destruct (Z.ltb_spec (cx_pc cx) (zlen (cx_program cx))); [|intros e He; by rewrite (wc_err _ W) in He]); [lia|].
  destruct (step_spec cx W Ht) as (cx' & -> & P); [done|]. cbn [mbind result_bind].
  destruct (maxCost <? cx_cost cx'); [done|]. destruct (cx_err cx') as [e|] eqn:He.
  - destruct n; cbn [Teal.evalLoop]; rewrite bool_decide_false by congruence; cbn [andb];
      intros e' He'; rewrite He in He'; injection He' as <-; by apply (sp_err2 _ _ P).
  - destruct (step_forward _ _ W ltac:(done) P He) as [W' Hlt].
    apply IH; [done|by rewrite (sp_params _ _ P)|]. rewrite (sp_program _ _ P). lia.
Qed.

Lemma wf_init program params vlen h : Forall is_byte program -> zlen program < 2 ^ 64 -> 0 <= vlen ->
  is_Some (ep_Proto params) -> wfcx ((initContext program params vlen) <| cx_programHash := h |>).
Proof. intros. by split. Qed.

(** The checks before the loop, which [Eval] and [Check] share. *)
Lemma evalBody_cases program params :
  (ep_Txn params = None /\ exists m, evalBody program params = Panic m) \/
  (exists e, evalBody program params = Err e /\ e ∉ loop_errors) \/
  exists proto v vlen, ep_Proto params = Some proto /\ is_Some (ep_Txn params) /\ Uvarint program = (v, vlen) /\ 0 < vlen <= zlen program /\
    evalBody program params =
      (cx ← evalLoop (cp_LogicSigMaxCost proto) (length program)
              ((initContext program params vlen) <| cx_programHash := hashProgram program |>); verdict cx).
Proof.
  unfold Teal.evalBody. destruct (ep_Proto params) as [proto|]; [|right; left; eexists; split; [done|not_loop_error]].
  destruct (_ =? 0); [right; left; eexists; split; [done|not_loop_error]|].
  destruct (ep_Txn params) as [txn|]; [right|left; cbn; eauto]. cbn [deref mbind result_bind].
  destruct (_ <? _); [left; eexists; split; [done|not_loop_error]|].
  destruct (Uvarint program) as [v vlen] eqn:E. pose proof (Uvarint_spec _ _ _ E) as [_ Hu].
  destruct (Z.leb_spec vlen 0); [left; eexists; split; [done|not_loop_error]|].
  destruct (_ <? _); [left; eexists; split; [done|not_loop_error]|].
  destruct (_ <? _); [left; eexists; split; [done|not_loop_error]|].
  right. exists proto, v, vlen. split_and!; try done; lia.
Qed.

Lemma evalBody_clean program params : Forall is_byte program -> zlen program < 2 ^ 64 ->
  evalBody program params <> Err errLoopDetected /\
  (is_Some (ep_Txn params) -> forall m, evalBody program params <> Panic m).
Proof.
  intros Hb Hl.
  destruct (evalBody_cases program params) as [(Ht & m & ->)|[(e & -> & He)|(proto & v & vlen & Hp & Ht & _ & Hv & ->)]].
  { split; [done|]. rewrite Ht. by intros []. }
  { split; [|done]. intros [= ->]. by destruct (not_in_loop_errors _ He). }
  pose proof (evalLoop_clean (cp_LogicSigMaxCost proto) (length program)
    ((initContext program params vlen) <| cx_programHash := hashProgram program |>)) as H.
  specialize (H ltac:(apply wf_init; eauto; lia) Ht ltac:(cbn; unfold zlen in *; lia)).
  destruct (evalLoop _ _ _) as [cx|e|m]; [|by subst|done]. cbn. unfold verdict.
  destruct (cx_err cx) as [e|] eqn:He; [split; [|done]; intros [= ->]; by destruct (H _ eq_refl)|].
  destruct (cx_stack cx) as [|sv []]; try done. by destruct (sv_Bytes sv).
Qed.

(** C28: The interpreter never panics.  For every program, transaction, group and
    arguments, no index of the stack, the scratch space, the program or a table and no
    slice expression of the constant-block parsers is out of range, and no nil
    pointer is followed, so the [recover] in [Eval] is never needed.  [Txn] must not be
    nil: [Eval] reads its arguments before anything else. *)
Theorem Eval_no_panic program params m : Forall is_byte program -> zlen program < 2 ^ 64 ->
  is_Some (ep_Txn params) -> evalBody program params <> Panic m.
Proof. intros. by apply evalBody_clean. Qed.

(** C29: Programs terminate without the loop detector.  Every instruction moves the
    program counter forward, branches included, so a run ends within one step per
    byte and [Eval] never returns [errLoopDetected]. *)
Theorem Eval_no_loop program params : Forall is_byte program -> zlen program < 2 ^ 64 ->
  logic_Eval program params <> Err errLoopDetected.
Proof.
  intros Hb Hl. unfold Teal.logic_Eval. destruct (evalBody_clean program params Hb Hl) as [H1 H2].
  destruct (evalBody program params); naive_solver.
Qed.

(** The contexts a run goes through. *)
Inductive teal_reach (cx0 : evalContext) : evalContext -> Prop :=
| reach_refl : teal_reach cx0 cx0
| reach_step cx cx' : teal_reach cx0 cx -> cx_err cx = None -> cx_pc cx < zlen (cx_program cx) ->
    step cx = Ok cx' -> teal_reach cx0 cx'.

(** ** The static check *)

#[local] Arguments Z.eqb : simpl never.
#[local] Arguments Z.ltb : simpl never.
#[local] Arguments Z.leb : simpl never.

(** What a successful [checkStep] establishes about the instruction it passes. *)
Record check_post (cx : evalContext) (c : Z) (cx' : evalContext) (spec : OpSpec) (bt : list Z) : Prop := {
  ck_instr : instr (cx_program cx) (cx_pc cx) spec;
  ck_cost : c = oz_cost (opSizeOf (os_Name spec));
  ck_flow : forall next, flows (cx_program cx) (cx_pc cx) next spec -> next = cx_pc cx' \/ next ∈ bt;
  ck_pc : cx_pc cx < cx_pc cx';
  ck_old : forall t, t ∈ cx_branchTargets cx -> t ∈ bt;
  ck_new : forall t, t ∈ bt -> t ∈ cx_branchTargets cx \/ t < zlen (cx_program cx);
  ck_sorted : StronglySorted Z.le (cx_branchTargets cx) -> StronglySorted Z.le bt;
  ck_wf : wfcx cx'
}.

Lemma checkTargets_spec c cx c' cx' : checkTargets c cx = (c', cx') -> cx_err cx = None -> cx_err cx' = None ->
  StronglySorted Z.le (cx_branchTargets cx) ->
  c' = c /\ cx_pc cx' = cx_pc cx /\ cx_program cx' = cx_program cx /\
  StronglySorted Z.le (cx_branchTargets cx') /\
  (forall t, t ∈ cx_branchTargets cx -> t = cx_pc cx \/ t ∈ cx_branchTargets cx') /\
  (forall t, t ∈ cx_branchTargets cx' -> t ∈ cx_branchTargets cx /\ cx_pc cx <= t) /\
  (wfcx cx -> wfcx cx').
Proof.
  unfold checkTargets. intros H He He' HS. destruct (cx_branchTargets cx) as [|t bt] eqn:E.
  { injection H as <- <-. rewrite E. split_and!; try done; set_solver. }
  destruct (Z.ltb_spec t (cx_pc cx)); injection H as <- <-; [done|]. cbn. rewrite E.
  assert (forall l, StronglySorted Z.le l -> StronglySorted Z.le (dropTargets (cx_pc cx) l) /\
    (forall u, u ∈ l -> u = cx_pc cx \/ u ∈ dropTargets (cx_pc cx) l) /\
    (forall u, u ∈ dropTargets (cx_pc cx) l -> u ∈ l)) as Hd.
  { clear. induction l as [|u l IH]; intros HS; cbn; [set_solver|].
    apply StronglySorted_inv in HS as HS'. destruct HS' as [HS' _]. destruct (Z.eqb_spec u (cx_pc cx)).
    - destruct (IH HS') as (? & ? & ?). split_and!; [done|set_solver|set_solver].
    - split_and!; [done|set_solver|set_solver]. }
  destruct (Hd _ HS) as (D1 & D2 & D3). split_and!; try done.
  - intros u Hu%D3. split; [done|]. apply StronglySorted_inv in HS as [_ HF]. rewrite Forall_forall in HF.
    apply elem_of_cons in Hu as [->|Hu]; [done|]. specialize (HF _ Hu). cbn in HF. lia.
  - intros []. by split.
Qed.

(** The instruction part of [checkStep], before the branch targets are compared. *)
Definition checkInstr (spec : OpSpec) (cx : evalContext) : result (Z * evalContext) :=
  let oz := opSizeOf (os_Name spec) in
  match oz_checkFunc oz with
  | Some f =>
    r ← runCheckFunc f cx;
    let '(cost, cx) := r in
    Ok (cost, if negb (cx_nextpc cx =? 0) then cx <| cx_pc := cx_nextpc cx |> <| cx_nextpc := 0 |>
              else cx <| cx_pc ::= λ pc, pc + oz_size oz |>)
  | None => Ok (oz_cost oz, cx <| cx_pc ::= λ pc, pc + oz_size oz |>)
  end.

Lemma checkInstr_spec cx spec opcode : wfcx cx -> cx_pc cx < zlen (cx_program cx) ->
  byteAt (cx_program cx) (cx_pc cx) = Ok opcode -> opSpecOf opcode = Some spec ->
  tooShort (opSizeOf (os_Name spec)) cx = false ->
  exists c cx', checkInstr spec cx = Ok (c, cx') /\
    (cx_err cx' = None -> cx_program cx' = cx_program cx /\
       check_post cx c cx' spec (cx_branchTargets cx')).
Proof.
  intros W Hpc Hop Hs Hsh. pose proof (opSize_cases _ _ _ _ _ _ _ Hs) as [_ Hz].
  assert (instr (cx_program cx) (cx_pc cx) spec) as Hi.
  { exists opcode. split_and!; try done. intros Hne. by eapply tooShort_false. }
  pose proof (wc_pc _ W) as Hpc0. unfold checkInstr, flows. destruct (oz_checkFunc (opSizeOf (os_Name spec))) as [[]|] eqn:Hc.
  - destruct Hz as [Hz Hz']. destruct (branchOffset_Ok _ cx W Hsh Hz) as (off & Ho & Hoff).
    cbn [runCheckFunc]. unfold checkBnz. rewrite Ho. cbn [mbind result_bind].
    destruct (Z.ltb_spec 0x7fff off); [eexists _, _; split; [reflexivity|]; cbn; rewrite (wc_next _ W); done|].
    cbn. destruct (Z.leb_spec (zlen (cx_program cx)) (cx_pc cx + 3 + off));
      (cbn; rewrite (proj2 (Z.eqb_neq (cx_pc cx + 3) 0)) by lia; eexists _, _; split; [reflexivity|]); [done|].
    cbn. intros _. split; [done|]. split; cbn; try done; try lia.
    + intros next. unfold flows. rewrite Hc. rewrite merge_sort_Permutation. cbn.
      intros [->|(off' & Ho' & _ & ->)]; [by left|]. right. rewrite Ho in Ho'. injection Ho' as <-. set_solver.
    + intros t Ht. rewrite merge_sort_Permutation. set_solver.
    + intros t. rewrite merge_sort_Permutation, elem_of_app, list_elem_of_singleton. intros [?| ->]; [by left|right; lia].
    + intros _. apply StronglySorted_merge_sort; apply _.
    + destruct W. split; cbn; try done. lia.
  - destruct Hz as [Hz Hz']. cbn [runCheckFunc mbind result_bind].
    destruct (intBlock_ok cx) as [(l & next & E & Ek & _ & Hn)|(c & e & E & Ek & _)]; [lia| |]; rewrite Ek; cbn [mbind result_bind].
    + cbn. rewrite (proj2 (Z.eqb_neq next 0)) by lia.
      eexists _, _. split; [reflexivity|]. cbn. intros _. split; [done|]. split; cbn; try done; try lia; try auto.
      * intros next'. unfold flows. rewrite Hc, E. intros [l' [= _ ->]]. by left.
      * destruct W. split; cbn; try done. lia.
    + eexists _, _. split; [reflexivity|]. by destruct (negb _).
  - destruct Hz as [Hz Hz']. cbn [runCheckFunc mbind result_bind].
    destruct (byteBlock_ok cx) as [(l & next & E & Ek & _ & Hn)|(c & e & E & Ek & _)]; [lia|by destruct W| |]; rewrite Ek; cbn [mbind result_bind].
    + cbn. rewrite (proj2 (Z.eqb_neq next 0)) by lia.
      eexists _, _. split; [reflexivity|]. cbn. intros _. split; [done|]. split; cbn; try done; try lia; try auto.
      * intros next'. unfold flows. rewrite Hc, E. intros [l' [= _ ->]]. by left.
      * destruct W. split; cbn; try done. lia.
    + eexists _, _. split; [reflexivity|]. by destruct (negb _).
  - eexists _, _. split; [reflexivity|]. cbn. intros _. split; [done|]. split; cbn; try done; try lia; try auto.
    + intros next'. unfold flows. rewrite Hc. intros ->. by left.
    + destruct W. split; cbn; try done. lia.
Qed.
Lemma checkStep_spec cx : wfcx cx -> cx_pc cx < zlen (cx_program cx) ->
  StronglySorted Z.le (cx_branchTargets cx) -> (forall t, t ∈ cx_branchTargets cx -> t < zlen (cx_program cx)) ->
  exists c cx', checkStep cx = Ok (c, cx') /\
    (cx_err cx' = None -> cx_program cx' = cx_program cx /\ wfcx cx' /\ cx_pc cx < cx_pc cx' /\
       StronglySorted Z.le (cx_branchTargets cx') /\
       (forall t, t ∈ cx_branchTargets cx' -> cx_pc cx' <= t < zlen (cx_program cx)) /\
       exists spec bt, check_post cx c cx' spec bt /\
         forall t, t ∈ bt -> t < zlen (cx_program cx) /\ (t = cx_pc cx' \/ t ∈ cx_branchTargets cx')).
Proof.
  intros W Hpc HS Hlt. destruct (byteAt_Ok (cx_program cx) (cx_pc cx) (wc_bytes _ W)) as (opcode & Hop & _).
  { destruct W. lia. }
  unfold Teal.checkStep. rewrite Hop. cbn [mbind result_bind].
  destruct (opSpecOf opcode) as [spec|] eqn:Hs; [|by eexists _, _].
  destruct (tooShort _ _) eqn:Hsh; [by eexists _, _|].
  destruct (checkInstr_spec cx spec opcode W Hpc Hop Hs Hsh) as (c & cx1 & Hi & HP).
  unfold checkInstr in Hi. rewrite Hi. cbn [mbind result_bind fst snd].
  destruct (cx_err cx1) as [e|] eqn:He1; [eexists _, _; split; [reflexivity|]; by rewrite He1|].
  destruct (HP eq_refl) as [Hpr P]. destruct (checkTargets c cx1) as [c' cx'] eqn:Ht.
  eexists _, _. split; [reflexivity|]. intros He'. pose proof P as [P1 P2 P3 P4 P5 P6 P7 P8].
  destruct (checkTargets_spec _ _ _ _ Ht He1 He' (P7 HS)) as (-> & Epc & Epr & S' & T1 & T2 & W').
  assert (forall t, t ∈ cx_branchTargets cx1 -> t < zlen (cx_program cx)) as Hlt1.
  { intros t Htt. destruct (P6 t Htt) as [Hx|Hx]; [by apply Hlt|done]. }
  split_and!; [congruence|by apply W'|lia|done| |].
  - intros t Htt. destruct (T2 t Htt) as [Hx ?]. specialize (Hlt1 t Hx). lia.
  - exists spec, (cx_branchTargets cx1). split.
    + split; try done; [by rewrite Epc|by rewrite Epc|by apply W'].
    + intros t Htt. split; [by apply Hlt1|]. rewrite Epc. by apply T1.
Qed.

(** The cost of the instruction at a position. *)
Definition costAt (p : bytes) (pc : Z) : Z :=
  match byteAt p pc with
  | Ok o => match opSpecOf o with Some spec => oz_cost (opSizeOf (os_Name spec)) | None => 0 end
  | _ => 0
  end.

Lemma instr_costAt p pc spec : instr p pc spec -> costAt p pc = oz_cost (opSizeOf (os_Name spec)).
Proof. intros (o & Ho & Hs & _). unfold costAt. by rewrite Ho, Hs. Qed.

Lemma costAt_nonneg p pc : 0 <= costAt p pc.
Proof.
  unfold costAt. destruct (byteAt p pc) as [o| |]; try done. destruct (opSpecOf o) as [spec|] eqn:E; [|done].
  apply opSize_cases in E as [? _]. lia.
Qed.

(** The instruction at [v] is complete and only leads to members of [V] or past
    the end. *)
Definition closed (p : bytes) (V : list Z) (v : Z) : Prop :=
  exists spec, instr p v spec /\ forall next, flows p v next spec -> next ∈ V \/ zlen p <= next.

(** The positions [Check] has passed: they contain the start, the branch targets,
    and are closed under the flow of control; their costs add up to its result. *)
Lemma check_trace fuel : forall cost0 cx cost cx', wfcx cx -> StronglySorted Z.le (cx_branchTargets cx) ->
  (forall t, t ∈ cx_branchTargets cx -> cx_pc cx <= t < zlen (cx_program cx)) ->
  checkLoop fuel cost0 cx = Some (Ok (cost, cx')) -> cx_err cx' = None ->
  let p := cx_program cx in
  exists V, (cx_pc cx < zlen p -> cx_pc cx ∈ V) /\ (forall v, v ∈ V -> cx_pc cx <= v < zlen p) /\ NoDup V /\
    (forall t, t ∈ cx_branchTargets cx -> t ∈ V) /\ (forall v, v ∈ V -> closed p V v) /\
    cost = cost0 + sumZ (costAt p) V.
Proof.
  induction fuel as [|fuel IH]; intros cost0 cx cost cx' W HS Hbt H He'; cbn [Teal.checkLoop] in H;
    rewrite bool_decide_true in H by apply W; cbn [andb] in H;
    (destruct (Z.ltb_spec (cx_pc cx) (zlen (cx_program cx))) as [Hlt|Hge]; [try done|
      injection H as <- <-; exists []; split_and!; [lia|set_solver|constructor| |set_solver|cbn; lia];
      intros t Ht; apply Hbt in Ht; lia]).
  destruct (checkStep_spec cx W Hlt HS) as (c & cx1 & Hs & HP); [naive_solver lia|]. rewrite Hs in H.
  destruct (cx_err cx1) as [e|] eqn:He1.
  { destruct fuel; cbn [Teal.checkLoop] in H; rewrite bool_decide_false in H by congruence; cbn in H;
      injection H as <- <-; congruence. }
  destruct (HP eq_refl) as (Epr & W1 & Hpc & HS1 & Hbt1 & spec & bt & P & Hb).
  destruct (IH _ _ _ _ W1 HS1 ltac:(rewrite Epr; done) H He') as (V & V1 & V2 & V3 & V4 & V5 & V6).
  rewrite Epr in *. destruct P as [P1 P2 P3 P4 P5 P6 P7 P8].
  assert (forall t, t ∈ bt -> t ∈ V) as HbV.
  { intros t Ht. destruct (Hb t Ht) as [Hx [->|Hy]]; auto. }
  exists (cx_pc cx :: V). split_and!.
  - set_solver.
  - intros v [->|Hv]%elem_of_cons; [lia|]. apply V2 in Hv. lia.
  - apply NoDup_cons. split; [|done]. intros Hv%V2. lia.
  - intros t Ht. apply elem_of_cons. right. auto.
  - intros v [->|Hv]%elem_of_cons.
    + exists spec. split; [done|]. intros next Hf. destruct (P3 next Hf) as [->|Ht].
      * destruct (decide (cx_pc cx1 < zlen (cx_program cx))); [|right; lia]. left. apply elem_of_cons. auto.
      * left. apply elem_of_cons. auto.
    + destruct (V5 v Hv) as (spec' & Hi & Hf). exists spec'. split; [done|]. intros next Hn.
      destruct (Hf next Hn); [left; apply elem_of_cons; auto|by right].
  - cbn. rewrite V6, P2, (instr_costAt _ _ _ P1). lia.
Qed.

(** Cost of the positions before [pc]. *)
Definition costBefore (p : bytes) (V : list Z) (pc : Z) : Z := sumZ (λ v, if v <? pc then costAt p v else 0) V.

Lemma costBefore_step p V pc q : NoDup V -> pc ∈ V -> pc < q -> costBefore p V pc + costAt p pc <= costBefore p V q.
Proof.
  intros Hnd Hpc Hq. pose proof (costAt_nonneg p) as Hc.
  transitivity (sumZ (λ v, if v <=? pc then costAt p v else 0) V).
  - rewrite (sumZ_update (λ v, if v <? pc then costAt p v else 0) _ V pc Hnd Hpc).
    + rewrite (proj2 (Z.ltb_ge pc pc)), (proj2 (Z.leb_le pc pc)) by lia. unfold costBefore. lia.
    + intros b Hb. destruct (Z.leb_spec b pc), (Z.ltb_spec b pc); try lia; done.
  - apply sumZ_le. intros v _. specialize (Hc v). destruct (Z.leb_spec v pc), (Z.ltb_spec v q); lia.
Qed.

Lemma costBefore_all p V pc : costBefore p V pc <= sumZ (costAt p) V.
Proof. apply sumZ_le. intros v _. pose proof (costAt_nonneg p v). destruct (_ <? _); lia. Qed.

Lemma evalLoop_checked maxCost V p n : NoDup V -> (forall v, v ∈ V -> closed p V v) ->
  sumZ (costAt p) V <= maxCost -> forall cx, wfcx cx -> is_Some (ep_Txn (cx_params cx)) -> cx_program cx = p ->
  (cx_pc cx ∈ V \/ zlen p <= cx_pc cx) -> cx_cost cx <= costBefore p V (cx_pc cx) ->
  match evalLoop maxCost n cx with
  | Ok cx' => forall e, cx_err cx' = Some e -> e ∉ loop_errors
  | Err e => e = errLoopDetected
  | Panic _ => True
  end.
Proof.
  intros Hnd HV Hmax. induction n as [|n IH]; intros cx W Ht Hp Hin Hcost; cbn [Teal.evalLoop];
    rewrite bool_decide_true by apply W; cbn [andb]; rewrite Hp;
    (destruct (Z.ltb_spec (cx_pc cx) (zlen p)); [|intros e He; by rewrite (wc_err _ W) in He]);
    (destruct (step_spec cx W Ht) as (cx' & -> & P); [by rewrite Hp|]); cbn [mbind result_bind]; [done|].
  destruct Hin as [Hin|]; [|lia]. destruct (HV _ Hin) as (spec & Hi & Hfl).
  rewrite <- Hp in Hi. pose proof (sp_cost _ _ P spec Hi) as Hc. pose proof (instr_costAt _ _ _ Hi) as Hca.
  rewrite Hp in Hca. rewrite <- Hca in Hc.
  assert (cx_cost cx' <= maxCost) as Hle.
  { pose proof (costBefore_step p V _ (cx_pc cx + 1) Hnd Hin ltac:(lia)).
    pose proof (costBefore_all p V (cx_pc cx + 1)). lia. }
  rewrite (proj2 (Z.ltb_ge _ _) Hle). destruct (cx_err cx') as [e|] eqn:He.
  - destruct n; cbn [Teal.evalLoop]; rewrite bool_decide_false by congruence; cbn [andb];
      intros e' He'; rewrite He in He'; injection He' as <-; by eapply (sp_err _ _ P).
  - destruct (step_forward _ _ W ltac:(by rewrite Hp) P He) as [W' Hlt].
    destruct (sp_ok _ _ P He) as (_ & _ & spec' & Hi' & Hf). rewrite (instr_unique _ _ _ _ Hi Hi'), Hp in Hf.
    apply IH; [done|by rewrite (sp_params _ _ P)|by rewrite (sp_program _ _ P)|by apply Hfl|].
    pose proof (costBefore_step p V _ _ Hnd Hin Hlt). lia.
Qed.

Lemma check_bounds_eval program params params' proto cost e :
  Forall is_byte program -> zlen program < 2 ^ 64 ->
  ep_Proto params = Some proto -> ep_Proto params' = Some proto ->
  logic_Check program params = Ok cost -> cost <= cp_LogicSigMaxCost proto ->
  e ∈ loop_errors -> logic_Eval program params' <> Err e.
Proof.
  intros Hb Hl Hp Hp' Hck Hcost He. destruct (evalBody_clean program params' Hb Hl) as [HL HN].
  assert (evalBody program params' <> Err e) as Hne.
  2:{ unfold Teal.logic_Eval. destruct (evalBody program params') eqn:E; [done|congruence|].
      intros [= <-]. revert He. not_loop_error. }
  destruct (evalBody_cases program params')
    as [(_ & m & ->)|[(e' & -> & He')|(proto' & v & vlen & Hp2 & Ht & Hu & Hv & Hev)]]; [done|congruence|].
  rewrite Hp' in Hp2. injection Hp2 as <-. rewrite Hev in *. clear Hev.
  unfold Teal.logic_Check, Teal.checkBody in Hck. rewrite Hp, Hu in Hck.
  repeat (destruct (_ =? _); [done|]). repeat (match type of Hck with context [if ?b then _ else _] => destruct b; [done|] end).
  destruct (checkLoop _ _ _) as [[[c cx']| |]|] eqn:Ec; try done.
  destruct (cx_err cx') eqn:He'; [done|]. injection Hck as ->.
  apply check_trace in Ec as (V & V1 & V2 & V3 & V4 & V5 & V6); cbn in *; try done.
  - pose proof (evalLoop_checked (cp_LogicSigMaxCost proto) V program (length program) V3 V5 ltac:(lia)
      ((initContext program params' vlen) <| cx_programHash := hashProgram program |>)) as H.
    specialize (H ltac:(apply wf_init; eauto; lia) Ht eq_refl). cbn in H.
    specialize (H ltac:(destruct (decide (vlen < zlen program)); [left; auto|right; lia])).
    specialize (H ltac:(apply sumZ_nonneg; intros w _; pose proof (costAt_nonneg program w); destruct (_ <? _); lia)).
    destruct (evalLoop _ _ _) as [cx|e'|m] eqn:El; cbn in *; [|congruence|done].
    unfold verdict. destruct (cx_err cx) as [e'|] eqn:Hee; [intros [= ->]; by eapply H|].
    intros Hx. revert He. destruct (cx_stack cx) as [|sv []]; [..|destruct (sv_Bytes sv)|];
      cbn in Hx; try discriminate Hx; injection Hx as <-; not_loop_error.
  - apply (wf_init program params vlen zero32); eauto; lia.
  - constructor.
  - intros t []%elem_of_nil.
Qed.

(** The static check bounds the dynamic cost.  If [Check] accepts a program
    with a cost within [LogicSigMaxCost], then no evaluation of it, whatever the
    transaction, group and arguments, runs over the cost limit, meets an illegal
    opcode, or finds an instruction cut short by the end of the program. *)
Theorem Check_bounds_Eval program params params' proto cost e :
  Forall is_byte program -> zlen program < 2 ^ 64 ->
  ep_Proto params = Some proto -> ep_Proto params' = Some proto ->
  logic_Check program params = Ok cost -> cost <= cp_LogicSigMaxCost proto ->
  e ∈ loop_errors -> logic_Eval program params' <> Err e.
Proof. apply check_bounds_eval. Qed.
Lemma checkLoop_total fuel : forall cost0 cx, wfcx cx -> StronglySorted Z.le (cx_branchTargets cx) ->
  (forall t, t ∈ cx_branchTargets cx -> t < zlen (cx_program cx)) ->
  zlen (cx_program cx) - cx_pc cx <= Z.of_nat fuel ->
  exists cost cx', checkLoop fuel cost0 cx = Some (Ok (cost, cx')).
Proof.
  induction fuel as [|fuel IH]; intros cost0 cx W HS Hbt Hf; cbn [Teal.checkLoop];
    rewrite bool_decide_true by apply W; cbn [andb];
    (destruct (Z.ltb_spec (cx_pc cx) (zlen (cx_program cx))) as [Hlt|]; [|by eexists _, _]); [lia|].
  destruct (checkStep_spec cx W Hlt HS Hbt) as (c & cx1 & -> & HP). destruct (cx_err cx1) as [e|] eqn:He.
  - destruct fuel; cbn [Teal.checkLoop]; rewrite bool_decide_false by congruence; by eexists _, _.
  - destruct (HP eq_refl) as (Epr & W1 & Hpc & HS1 & Hbt1 & _). apply IH; try done; rewrite Epr; [naive_solver lia|lia].
Qed.

(** [Check] terminates and never panics, on every program: one step per byte
    of fuel is enough and no index is out of range. *)
Theorem Check_total program params : Forall is_byte program -> zlen program < 2 ^ 64 ->
  (exists cost, checkBody program params = Some (Ok cost)) \/ (exists e, checkBody program params = Some (Err e)).
Proof.
  intros Hb Hl. unfold Teal.checkBody. destruct (ep_Proto params) as [proto|] eqn:Hp; [|eauto].
  destruct (_ =? 0); [eauto|]. destruct (Uvarint program) as [v vlen] eqn:E.
  pose proof (Uvarint_spec _ _ _ E) as [_ Hu]. destruct (Z.leb_spec vlen 0); [eauto|].
  destruct (_ <? _); [eauto|]. destruct (_ <? _); [eauto|].
  destruct (checkLoop_total (length program) 0 (initContext program params vlen)) as (cost & cx' & ->).
  - apply (wf_init program params vlen zero32); eauto; lia.
  - constructor.
  - intros t []%elem_of_nil.
  - cbn. unfold zlen in *. lia.
  - destruct (cx_err cx'); eauto.
Qed.
End Steps.

(** ** Witnesses *)

Module TealWitness.
Definition tx0 : Transaction :=
  mkTransaction PaymentTx (mkHeader zero32 1000 1 100 None "" zero32 zero32 zero32)
    KeyregTxnFields_zero (mkPaymentTxnFields zero32 5 zero32) AssetConfigTxnFields_zero
    AssetTransferTxnFields_zero AssetFreezeTxnFields_zero zero32 true.
Definition stx0 : SignedTxn :=
  mkSignedTxn zero32 (mkMultisigSig 0 0 None) (mkLogicSig [] zero32 (mkMultisigSig 0 0 None) []) tx0 200.
Definition ep0 : EvalParams := mkEvalParams (Some stx0) (Some v19) [] 0 0.
Definition id0 : Transaction -> Txid := λ _, zero32.
Definition hash0 : bytes -> bytes := λ _, zero32.
Definition verify0 : bytes -> Digest -> bytes -> bytes -> bool := λ _ _ _ _, true.

(** int 1; bnz over an [err]; int 1 *)
Definition prog : bytes := [1; 0x20; 1; 1; 0x22; 0x40; 0; 1; 0x00; 0x22].

Lemma prog_bytes : Forall is_byte prog /\ zlen prog < 2 ^ 64.
Proof. split; [|vm_compute; done]. repeat (constructor; [unfold is_byte; lia|]). constructor. Qed.

Example prog_runs : logic_Eval id0 hash0 hash0 hash0 verify0 hash0 prog ep0 = Ok true /\
  logic_Check id0 hash0 hash0 hash0 verify0 prog ep0 = Ok 5.
Proof. vm_compute. done. Qed.

Lemma Eval_no_panic_witness : evalBody id0 hash0 hash0 hash0 verify0 hash0 prog ep0 <> Panic "x".
Proof. apply (Eval_no_panic id0 hash0 hash0 hash0 verify0 hash0 prog ep0 "x"); [apply prog_bytes..|by eexists]. Defined.

(** A bytecblock as the last byte of the program: the slice after it is empty, and
    the parser reports an error; with a nil transaction [Eval] does panic. *)
Example block_at_end : evalBody id0 hash0 hash0 hash0 verify0 hash0 [1; 0x26] ep0 =
    Err (Errorf "could not decode []byte const block size") /\
  exists m, evalBody id0 hash0 hash0 hash0 verify0 hash0 prog (mkEvalParams None (Some v19) [] 0 0) = Panic m.
Proof. vm_compute. eauto. Qed.

Lemma Eval_no_loop_witness : logic_Eval id0 hash0 hash0 hash0 verify0 hash0 prog ep0 <> Err errLoopDetected.
Proof. apply (Eval_no_loop id0 hash0 hash0 hash0 verify0 hash0 prog ep0); apply prog_bytes. Defined.

Lemma Check_bounds_Eval_witness : logic_Eval id0 hash0 hash0 hash0 verify0 hash0 prog ep0 <> Err errCostTooHigh.
Proof.
  refine (Check_bounds_Eval id0 hash0 hash0 hash0 verify0 hash0 prog ep0 ep0 v19 5 errCostTooHigh _ _ _ _ _ _ _).
  - apply prog_bytes.
  - apply prog_bytes.
  - reflexivity.
  - reflexivity.
  - vm_compute. reflexivity.
  - vm_compute. done.
  - right. left.
Defined.

Lemma Check_total_witness :
  (exists cost, checkBody id0 hash0 hash0 hash0 verify0 prog ep0 = Some (Ok cost)) \/
  (exists e, checkBody id0 hash0 hash0 hash0 verify0 prog ep0 = Some (Err e)).
Proof. apply (Check_total id0 hash0 hash0 hash0 verify0 prog ep0); apply prog_bytes. Defined.
End TealWitness.
