(* ===== verification/TealValues.v ===== *)
(** The values of a TEAL run (src/data/transactions/logic/eval.go): whatever a program
    does, the machine integers on the stack, in the scratch space and in the constant
    tables stay 64-bit, byte strings stay byte strings, the byte constants are pieces of
    the program, and the stack, the program counter and the cost stay within bounds that
    only depend on the program's length. *)

From S2P Require Import Prelude Config Basics Transactions Bookkeeping Teal TealSpec.

(** ** Bounds *)

Lemma log2_u64 a : 0 <= a -> Z.log2 a < 64 -> u64 a.
Proof.
  intros Ha Hl. split; [done|]. destruct (decide (a = 0)) as [->|]; [done|]. apply Z.log2_lt_pow2; lia.
Qed.
Lemma u64_log2 a : u64 a -> Z.log2 a < 64.
Proof. intros [Ha Hb]. destruct (decide (a = 0)) as [->|]; [done|]. apply Z.log2_lt_pow2; lia. Qed.

Lemma land_u64 a b : u64 a -> 0 <= b -> u64 (Z.land a b).
Proof.
  intros Ha Hb. apply log2_u64; [apply Z.land_nonneg; by right|]. pose proof (u64_log2 a Ha).
  pose proof (Z.log2_land a b (proj1 Ha) Hb). lia.
Qed.
Lemma lxor_u64 a b : u64 a -> u64 b -> u64 (Z.lxor a b).
Proof.
  intros Ha Hb. apply log2_u64; [apply Z.lxor_nonneg; unfold u64 in *; tauto|].
  pose proof (u64_log2 a Ha). pose proof (u64_log2 b Hb). pose proof (Z.log2_lxor a b (proj1 Ha) (proj1 Hb)). lia.
Qed.
Lemma div_u64 a b : u64 a -> u64 b -> (b =? 0) = false -> u64 (a / b).
Proof.
  intros [Ha Ha'] [Hb Hb'] E%Z.eqb_neq. split; [by apply Z.div_pos; lia|].
  apply Z.le_lt_trans with a; [|done]. apply Z.div_le_upper_bound; nia.
Qed.
Lemma mod_u64 a b : u64 a -> u64 b -> (b =? 0) = false -> u64 (a mod b).
Proof. intros _ [Hb Hb'] E%Z.eqb_neq. pose proof (Z.mod_pos_bound a b ltac:(lia)). unfold u64. lia. Qed.
Lemma high_u64 a b : u64 a -> u64 b -> u64 (Z.shiftr (a * b) 64).
Proof.
  unfold u64. intros [Ha Ha'] [Hb Hb']. rewrite Z.shiftr_div_pow2 by lia. split; [apply Z.div_pos; nia|].
  apply Z.div_lt_upper_bound; nia.
Qed.
Lemma low_u64 a : u64 (Z.land a maxUint64).
Proof.
  replace maxUint64 with (Z.ones 64) by reflexivity. rewrite Z.land_ones by lia.
  pose proof (Z.mod_pos_bound a (2 ^ 64) ltac:(lia)). unfold u64. lia.
Qed.
Lemma boolUint_u64 b : u64 (boolUint b).
Proof. destruct b; unfold u64; cbn; lia. Qed.
Lemma land_is_byte x : is_byte (Z.land x 0xff).
Proof.
  change 0xff with (Z.ones 8). rewrite Z.land_ones by lia. apply (Z.mod_pos_bound x (2 ^ 8)). lia.
Qed.
Lemma byte_u64 x : is_byte x -> u64 x.
Proof. unfold is_byte, u64. lia. Qed.
Lemma btoiLoop_u64 b : u64 (btoiLoop b).
Proof.
  unfold btoiLoop. generalize (conj (Z.le_refl 0) (eq_refl : 0 < 2 ^ 64) : u64 0). generalize 0.
  induction b as [|x b IH]; intros v Hv; cbn [foldl]; [done|].
  apply IH, lor_u64; [apply wrap64_range|apply byte_u64, land_is_byte].
Qed.

(** ** Well-typed values *)

(** A byte slice: bytes, of a length that is an [int]. *)
Definition bytes_ok (b : bytes) : Prop := Forall is_byte b /\ zlen b < 2 ^ 63.
Definition value_ok (v : stackValue) : Prop := u64 (sv_Uint v) /\ bytes_ok (default [] (sv_Bytes v)).

Lemma nil_ok : bytes_ok [].
Proof. split; [constructor|done]. Qed.
Lemma zero32_ok : bytes_ok zero32.
Proof. split; [by apply Forall_replicate|done]. Qed.
Lemma piece_ok p b : Forall is_byte p -> zlen p < 2 ^ 63 -> piece p b -> bytes_ok b.
Proof.
  intros Hp Hl [Hs Hb]. split; [|lia]. apply Forall_forall. intros x Hx. rewrite Forall_forall in Hp. auto.
Qed.
Lemma int_ok n : u64 n -> value_ok (svInt n).
Proof. intros. split; [done|apply nil_ok]. Qed.
Lemma slice_ok b : bytes_ok b -> value_ok (svBytes b).
Proof. split; [by cbn; unfold u64|done]. Qed.
Lemma optSlice_ok o : bytes_ok (default [] o) -> value_ok (mkStackValue 0 o).
Proof. split; [by cbn; unfold u64|done]. Qed.
Lemma setUint_ok v n : value_ok v -> u64 n -> value_ok (v <| sv_Uint := n |>).
Proof. by intros [_ Hb] Hn. Qed.
Lemma setBytes_ok v b : value_ok v -> bytes_ok b -> value_ok (v <| sv_Bytes := Some b |>).
Proof. by intros [Hn _] Hb. Qed.
Lemma bool_ok b : value_ok (mkStackValue (boolUint b) None).
Proof. apply int_ok, boolUint_u64. Qed.
Lemma BigEndian_ok n : bytes_ok (BigEndianPutUint64 n).
Proof. split; [|done]. apply Forall_fmap, Forall_forall. intros k _. apply land_is_byte. Qed.
Lemma zlen_ok b : bytes_ok b -> u64 (zlen b).
Proof. intros [_ H]. unfold u64, zlen in *. lia. Qed.
Lemma max_u64 : u64 maxUint64.
Proof. by unfold u64. Qed.
Lemma land2_u64 a b : u64 a -> u64 b -> u64 (Z.land a b).
Proof. intros Ha [Hb _]. by apply land_u64. Qed.

Create HintDb teal discriminated.
#[export] Hint Resolve wrap64_range lor_u64 lxor_u64 div_u64 mod_u64 boolUint_u64 btoiLoop_u64 low_u64
  high_u64 setUint_ok setBytes_ok int_ok slice_ok optSlice_ok bool_ok BigEndian_ok nil_ok zero32_ok
  zlen_ok max_u64 land2_u64 : teal.

Section Values.
Context (computeID : Transaction -> Txid) (sha256 keccak256 sha512_256 : bytes -> bytes)
        (verifyMsg : bytes -> Digest -> bytes -> bytes -> bool).

(** The fields a program can read are of their Go types. *)
Definition txn_ok (tx : Transaction) : Prop :=
  let h := tx_Header tx in
  Forall u64 [hdr_Fee h; hdr_FirstValid h; hdr_LastValid h; pay_Amount (tx_Payment tx);
    kr_VoteFirst (tx_Keyreg tx); kr_VoteLast (tx_Keyreg tx); kr_VoteKeyDilution (tx_Keyreg tx);
    ax_XferAsset (tx_AssetTransfer tx); ax_AssetAmount (tx_AssetTransfer tx)] /\
  Forall bytes_ok [hdr_Sender h; default [] (hdr_Note h); hdr_Lease h; pay_Receiver (tx_Payment tx);
    pay_CloseRemainderTo (tx_Payment tx); kr_VotePK (tx_Keyreg tx); kr_SelectionPK (tx_Keyreg tx);
    stringBytes (tx_Type tx); ax_AssetSender (tx_AssetTransfer tx); ax_AssetReceiver (tx_AssetTransfer tx);
    ax_AssetCloseTo (tx_AssetTransfer tx); ID computeID tx].

Record params_ok (ep : EvalParams) : Prop := {
  po_txn : forall t, ep_Txn ep = Some t -> txn_ok (stx_Txn t);
  po_args : forall t, ep_Txn ep = Some t -> Forall (λ a, bytes_ok (default [] a)) (lsig_Args (stx_Lsig t));
  po_group : Forall (λ a, txn_ok (stx_Txn (sad_SignedTxn a))) (ep_TxnGroup ep);
  po_size : u64 (zlen (ep_TxnGroup ep));
  po_index : u64 (ep_GroupIndex ep);
  po_time : u64 (ep_FirstValidTimeStamp ep);
  po_proto : forall proto, ep_Proto ep = Some proto ->
    Forall u64 [cp_MinTxnFee proto; cp_MinBalance proto; cp_MaxTxnLife proto]
}.

Record values_ok (cx : evalContext) : Prop := {
  vo_stack : Forall value_ok (cx_stack cx);
  vo_scratch : Forall value_ok (cx_scratch cx);
  vo_intc : Forall u64 (cx_intc cx);
  vo_bytec : Forall (piece (cx_program cx)) (cx_bytec cx)
}.

Lemma values_setStack cx st : values_ok cx -> Forall value_ok st -> values_ok (setStack cx st).
Proof. by intros [] ?. Qed.
Lemma values_setErr cx e : values_ok cx -> values_ok (setErr cx e).
Proof. by intros []. Qed.
Lemma values_push cx v : values_ok cx -> value_ok v -> values_ok (push cx v).
Proof. intros [] Hv. split; try done. by constructor. Qed.
Lemma values_advance cx k : values_ok cx -> values_ok (advance k cx).
Proof. by intros []. Qed.
Lemma values_cost cx f : values_ok cx -> values_ok (cx <| cx_cost ::= f |>).
Proof. by intros []. Qed.
Lemma values_nextPC cx : values_ok cx -> values_ok (nextPC cx).
Proof. intros []. unfold nextPC. by destruct (negb _). Qed.

Hypothesis hash_ok : forall b, bytes_ok (sha256 b) /\ bytes_ok (keccak256 b) /\ bytes_ok (sha512_256 b).

Definition op_values (f : evalContext -> result evalContext) : Prop := forall cx cx',
  wfcx cx -> cx_pc cx < zlen (cx_program cx) -> zlen (cx_program cx) < 2 ^ 63 ->
  params_ok (cx_params cx) -> values_ok cx -> f cx = Ok cx' -> values_ok cx'.

Lemma txnField_ok cx tx f sv : params_ok (cx_params cx) -> txn_ok tx ->
  txnFieldToStack computeID cx tx f = Ok sv -> value_ok sv.
Proof.
  intros Hp [Hu Hb] H. unfold txnFieldToStack in H. rewrite !Forall_cons in Hu. rewrite !Forall_cons in Hb. destruct_and!.
  destruct (_ !! _) as [[]|]; try discriminate H; injection H as <-;
    try (destruct Hp; auto with teal; fail).
  apply int_ok. unfold txnTypeIndex. destruct (list_find _ _) as [[i n]|] eqn:E; [|by unfold u64].
  apply list_find_Some in E as (E & _). apply lookup_lt_Some in E. unfold u64. cbn in *. lia.
Qed.

(** Operations that rewrite the top of the stack. *)
Ltac stack_values :=
  intros cx cx' W Hpc Hl Hp Hv H;
  unfold opErr, opPlus, opMinus, opDiv, opModulo, opMul, opMulw, opLt, opGt, opLe, opGe, opAnd, opOr, opEq, opNeq,
    opNot, opLen, opItob, opBtoi, opBitOr, opBitAnd, opBitXor, opBitNot, opPop, opDup, opSHA256, opKeccak256,
    opSHA512_256, opEd25519verify, hashOp, with2, binopUint, binop, unop, opMulwImpl, fail in H;
  pose proof (vo_stack _ Hv) as Hst;
  destruct (cx_stack cx) as [|v1 [|v2 [|v3 st]]] eqn:E; try discriminate H;
  rewrite ?Forall_cons in Hst; destruct_and?;
  repeat match type of H with context [if ?b then _ else _] => destruct b eqn:? end;
  try discriminate H; injection H as <-.
Ltac stack_done :=
  first [ apply values_setErr | apply values_push; [done|] | apply values_setStack; [done|] | idtac ];
  first [ done | apply values_setStack; [done|] | idtac ];
  repeat first [ done | apply Forall_cons; split ].

Ltac typed := repeat match goal with H : value_ok _ |- _ => destruct H as [? ?] end.

Lemma arith_values : Forall op_values
  [opErr; opPlus; opMinus; opDiv; opModulo; opMul; opMulw; opLt; opGt; opLe; opGe; opAnd; opOr; opEq; opNeq; opNot;
   opLen; opItob; opBtoi; opBitOr; opBitAnd; opBitXor; opBitNot; opPop; opDup; opSHA256 sha256;
   opKeccak256 keccak256; opSHA512_256 sha512_256; opEd25519verify verifyMsg].
Proof.
  repeat apply Forall_cons_2; [..|apply Forall_nil_2]; stack_values; stack_done; typed; split; cbn [sv_Uint sv_Bytes default];
    try (auto with teal; fail); first [apply hash_ok|apply BigEndian_ok].
Qed.

(** Operations that load a value. *)
Lemma opIntConstN_values n : op_values (opIntConstN n).
Proof.
  intros cx cx' _ _ _ _ Hv H. unfold opIntConstN in H. destruct (_ !! _) as [v|] eqn:E; injection H as <-.
  - apply values_push; [done|]. apply int_ok. by eapply Forall_lookup_1; [apply (vo_intc _ Hv)|].
  - by apply values_setErr.
Qed.
Lemma opByteConstN_values n : op_values (opByteConstN n).
Proof.
  intros cx cx' W _ Hl _ Hv H. unfold opByteConstN in H. destruct (_ !! _) as [v|] eqn:E; injection H as <-.
  - apply values_push; [done|]. apply slice_ok. eapply piece_ok; [apply W|done|].
    by eapply (Forall_lookup_1 (piece _)); [apply (vo_bytec _ Hv)|].
  - by apply values_setErr.
Qed.
Lemma opArgN_values n : op_values (opArgN n).
Proof.
  intros cx cx' _ _ _ Hp Hv H. unfold opArgN in H. destruct (ep_Txn (cx_params cx)) as [t|] eqn:Et; [|done].
  cbn [deref mbind result_bind] in H. destruct (_ !! _) as [v|] eqn:E; injection H as <-.
  - apply values_push; [done|]. apply optSlice_ok.
    by eapply (Forall_lookup_1 (λ a, bytes_ok (default [] a))); [apply (po_args _ Hp _ Et)|].
  - by apply values_setErr.
Qed.
Lemma indexed_values f : (forall n, op_values (f n)) ->
  op_values (λ cx, n ← byteAt (cx_program cx) (cx_pc cx + 1); cx ← f n cx; mret (advance 2 cx)).
Proof.
  intros Hf cx cx' W Hpc Hl Hp Hv H. inv_ok. apply values_advance. by eapply (Hf _ cx).
Qed.
Lemma opTxn_values : op_values (opTxn computeID).
Proof.
  intros cx cx' _ _ _ Hp Hv H. unfold opTxn in H. inv_ok. destruct (ep_Txn (cx_params cx)) as [t|] eqn:Et; [|done].
  cbn [deref] in *. simplify_eq. destruct (txnFieldToStack _ _ _ _) as [sv|e|] eqn:E; [| |done]; simplify_eq.
  - apply values_advance, values_push; [done|]. by eapply txnField_ok; [done|eapply po_txn|].
  - by apply values_setErr.
Qed.
Lemma opGtxn_values : op_values (opGtxn computeID).
Proof.
  intros cx cx' W _ _ Hp Hv H. unfold opGtxn in H.
  destruct (byteAt _ (cx_pc cx + 1)) as [g| |] eqn:Eg; [|done..]. cbn [mbind result_bind] in H.
  destruct (_ !! _) as [a|] eqn:E; [|injection H as <-; by apply values_setErr].
  destruct (byteAt _ (cx_pc cx + 2)) as [f| |]; [|done..]. cbn [mbind result_bind] in H.
  pose proof (Forall_lookup_1 _ _ _ _ (po_group _ Hp) E) as Ht. case_bool_decide.
  - injection H as <-. apply values_advance, values_push; [done|]. apply int_ok. apply byte_u64.
    apply (byteAt_byte _ _ _ (wc_bytes _ W) Eg).
  - destruct (txnFieldToStack _ _ _ _) as [sv|e|] eqn:Es; [| |done]; injection H as <-.
    + apply values_advance, values_push; [done|]. by eapply txnField_ok; [exact Hp|exact Ht|exact Es].
    + by apply values_setErr.
Qed.
Lemma opGlobal_values : op_values opGlobal.
Proof.
  intros cx cx' _ _ _ Hp Hv H. unfold opGlobal in H.
  destruct (byteAt _ _) as [g| |]; [|done..]. cbn [mbind result_bind] in H.
  pose proof (po_proto _ Hp) as Hpr. destruct (ep_Proto (cx_params cx)) as [proto|].
  - specialize (Hpr _ eq_refl). rewrite !Forall_cons in Hpr. destruct_and!. cbn [deref] in H.
    destruct (_ !! _) as [[]|]; injection H as <-; try (apply values_advance, values_push; [done|]);
      try (auto with teal; fail); [apply int_ok, (po_size _ Hp)|by apply values_setErr].
  - destruct (_ !! _) as [[]|]; try done; injection H as <-; try (apply values_advance, values_push; [done|]);
      try (auto with teal; fail); [apply int_ok, (po_size _ Hp)|by apply values_setErr].
Qed.
Lemma opLoad_values : op_values opLoad.
Proof.
  intros cx cx' _ _ _ _ Hv H. unfold opLoad in H. destruct (byteAt _ _) as [g| |]; [|done..].
  cbn [mbind result_bind] in H. destruct (_ !! _) as [sv|] eqn:E; [|done]. injection H as <-.
  apply values_advance, values_push; [done|]. by eapply Forall_lookup_1; [apply (vo_scratch _ Hv)|].
Qed.
Lemma opStore_values : op_values opStore.
Proof.
  intros cx cx' _ _ _ _ Hv H. unfold opStore in H. destruct (byteAt _ _) as [g| |]; [|done..].
  cbn [mbind result_bind] in H. destruct (cx_stack cx) as [|v st] eqn:Es; [done|].
  destruct (_ !! _) as [sv|] eqn:E; [|done]. injection H as <-. pose proof (vo_stack _ Hv) as Hst.
  rewrite Es in Hst. apply Forall_cons in Hst as [Hx Hst]. destruct Hv. apply values_advance, values_setStack; [|done].
  split; try done. cbn. by apply Forall_insert.
Qed.
Lemma opBnz_values : op_values opBnz.
Proof.
  intros cx cx' _ _ _ _ Hv H. unfold opBnz in H. pose proof (vo_stack _ Hv) as Hst.
  destruct (cx_stack cx) as [|v st]; [done|]. apply Forall_cons in Hst as [_ Hst].
  assert (values_ok (setStack (advance 3 cx) st)) as Hv' by (by apply values_setStack; [apply values_advance|]).
  destruct (negb _); [|by injection H as <-]. destruct (branchOffset _ _) as [off| |]; [|done..].
  cbn [mbind result_bind] in H. destruct (_ <? _); injection H as <-; [by apply values_setErr|by destruct Hv'].
Qed.
Lemma opIntConstBlock_values : op_values opIntConstBlock.
Proof.
  intros cx cx' W Hpc _ _ Hv H. unfold opIntConstBlock in H.
  destruct (intBlock_ok cx) as [(l & n & E & _ & HF & _)|(c & e & E & _)]; [by destruct W| |];
    rewrite E in H; injection H as <-; [by destruct Hv|by apply values_setErr].
Qed.
Lemma opByteConstBlock_values : op_values opByteConstBlock.
Proof.
  intros cx cx' W Hpc _ _ Hv H. unfold opByteConstBlock in H.
  destruct (byteBlock_ok cx) as [(l & n & E & _ & HF & _)|(c & e & E & _)]; [by destruct W|by destruct W| |];
    rewrite E in H; injection H as <-; [by destruct Hv|by apply values_setErr].
Qed.

(** Every operation of the table keeps the values typed. *)
Lemma OpSpecs_values : Forall (λ spec, op_values (os_op spec)) (OpSpecs computeID sha256 keccak256 sha512_256 verifyMsg).
Proof.
  pose proof arith_values as HA. rewrite Forall_forall in HA. unfold OpSpecs.
  repeat apply Forall_cons_2; [..|apply Forall_nil_2]; cbn [os_op].
  all: first [ apply opIntConstN_values | apply opByteConstN_values | apply opArgN_values | apply opTxn_values
             | apply opGtxn_values | apply opGlobal_values | apply opLoad_values | apply opStore_values
             | apply opBnz_values | apply opIntConstBlock_values | apply opByteConstBlock_values
             | exact (indexed_values opIntConstN opIntConstN_values)
             | exact (indexed_values opByteConstN opByteConstN_values)
             | exact (indexed_values opArgN opArgN_values)
             | apply HA; repeat (first [apply list_elem_of_here|apply list_elem_of_further]) ].
Qed.

Notation step := (step computeID sha256 keccak256 sha512_256 verifyMsg).
Notation opSpecOf := (opSpecOf computeID sha256 keccak256 sha512_256 verifyMsg).
Notation instr := (instr computeID sha256 keccak256 sha512_256 verifyMsg).
Notation teal_reach := (teal_reach computeID sha256 keccak256 sha512_256 verifyMsg).

Lemma step_values cx cx' : wfcx cx -> cx_pc cx < zlen (cx_program cx) -> zlen (cx_program cx) < 2 ^ 63 ->
  params_ok (cx_params cx) -> values_ok cx -> step cx = Ok cx' -> values_ok cx'.
Proof.
  intros W Hpc Hl Hp Hv H. unfold Teal.step in H. destruct (byteAt _ _) as [o| |]; [|done..].
  cbn [mbind result_bind] in H. destruct (opSpecOf o) as [spec|] eqn:Es; [|injection H as <-; by apply values_setErr].
  destruct (_ <? _)%nat; [injection H as <-; by apply values_setErr|].
  destruct (negb _); [injection H as <-; by apply values_setErr|].
  destruct (tooShort _ _); [injection H as <-; by apply values_setErr|].
  destruct (os_op spec _) as [cx1| |] eqn:Eo; [|done..]. cbn [mbind result_bind] in H.
  assert (values_ok cx1) as Hv1.
  { apply find_some in Es as [Es _]. apply list_elem_of_In in Es. pose proof OpSpecs_values as HF.
    rewrite Forall_forall in HF. eapply (HF _ Es); [..|exact Eo]; try done; [by destruct W|by apply values_cost]. }
  destruct (cx_err cx1); [by injection H as <-|].
  destruct (_ <? _); injection H as <-; [by apply values_setErr|by apply values_nextPC].
Qed.

(** The dearest instruction is [ed25519verify]. *)
Definition maxOpCost : Z := 1900.
Lemma instr_cost_le p pc spec : instr p pc spec -> oz_cost (opSizeOf (os_Name spec)) <= maxOpCost.
Proof.
  intros (o & _ & Hs & _). apply find_some in Hs as [Hs _]. apply list_elem_of_In in Hs. revert spec Hs.
  rewrite <- Forall_forall. unfold OpSpecs. repeat apply Forall_cons_2; [..|apply Forall_nil_2]; vm_compute; done.
Qed.

(** A branch reaches at most [0x7fff] bytes past its instruction. *)
Lemma flows_bound p pc next spec : zlen p < 2 ^ 63 -> 0 <= pc < zlen p -> instr p pc spec ->
  flows p pc next spec -> next <= zlen p + 0x7fff.
Proof.
  intros Hl Hpc (o & _ & Hs & Hz) Hf. pose proof (opSize_cases _ _ _ _ _ _ _ Hs) as [_ Hc]. unfold flows in Hf.
  destruct (oz_checkFunc _) as [[]|].
  - destruct Hf as [->|(off & _ & Ho & ->)]; lia.
  - destruct Hf as [l Hf]. apply parseIntcblock_spec in Hf as [_ ?]; lia.
  - destruct Hf as [l Hf]. apply parseBytecBlock_spec in Hf as [_ ?]; lia.
  - lia.
Qed.

(** What every context of a run satisfies. *)
Record run_ok (program : bytes) (params : EvalParams) (vlen : Z) (cx : evalContext) : Prop := {
  ro_stack : zlen (cx_stack cx) <= MaxStackDepth;
  ro_scratch : length (cx_scratch cx) = 256%nat;
  ro_values : values_ok cx;
  ro_program : cx_program cx = program;
  ro_params : cx_params cx = params;
  ro_pc : vlen <= cx_pc cx <= zlen program + 0x7fff;
  ro_cost : cx_cost cx <= maxOpCost * (cx_pc cx - vlen)
}.

(** C30: Invariant of a run.  In every context that an evaluation reaches without an
    error, the stack holds at most [MaxStackDepth] values and the scratch space 256; every
    value on them is a 64-bit integer and a slice of bytes; the integer constants are
    64-bit and the byte constants are pieces of the program; the program and the
    parameters are unchanged; the program counter lies between the end of the version
    and 0x7fff past the end of the program (where a branch can lead); and the cost is
    at most 1900 per byte advanced.  The program is a Go slice of bytes that starts with
    a version, the transaction, group and protocol parameters are of their Go types, and
    the hash functions return byte strings. *)
Theorem teal_reach_invariant program params version vlen h cx :
  Forall is_byte program -> zlen program < 2 ^ 63 -> Uvarint program = (version, vlen) -> 0 < vlen ->
  is_Some (ep_Proto params) -> is_Some (ep_Txn params) -> params_ok params ->
  teal_reach ((initContext program params vlen) <| cx_programHash := h |>) cx -> cx_err cx = None ->
  run_ok program params vlen cx.
Proof.
  intros Hb Hl Hu Hv Hp Ht Hpo H. pose proof (proj2 (Uvarint_spec _ _ _ Hu) Hv) as Hv'.
  assert (cx_err cx = None -> wfcx cx /\ run_ok program params vlen cx) as HI; [|intros He; by apply HI].
  induction H as [|cx cx' H IH He Hpc Hs]; intros He'.
  { split; [by apply wf_init; [..|lia|]; try lia|]. split; try done; [|cbn; lia|cbn; lia].
    split; [by constructor| |by constructor..]. apply Forall_replicate, int_ok. by unfold u64. }
  destruct (IH He) as (W & [R1 R2 R3 R4 R5 R6 R7]).
  destruct (step_spec computeID sha256 keccak256 sha512_256 verifyMsg cx W ltac:(by rewrite R5) Hpc) as (cx1 & Hs1 & P).
  rewrite Hs in Hs1. injection Hs1 as <-. destruct (step_forward _ _ _ _ _ _ _ W Hpc P He') as [W' Hlt].
  destruct (sp_ok _ _ _ _ _ _ _ P He') as (_ & Hst & spec & Hi & Hf).
  pose proof (sp_cost _ _ _ _ _ _ _ P spec Hi) as Hc. pose proof (instr_cost_le _ _ _ Hi).
  apply flows_bound in Hf; [|by rewrite R4|by destruct W|done]. rewrite R4 in Hf.
  split; [done|]. split; try done.
  - apply W'.
  - eapply (step_values cx); [done|done|by rewrite R4|by rewrite R5|done|exact Hs].
  - by rewrite (sp_program _ _ _ _ _ _ _ P).
  - by rewrite (sp_params _ _ _ _ _ _ _ P).
  - lia.
  - unfold maxOpCost in *. lia.
Qed.
End Values.

(** ** Witness: the whole run of a program with a branch *)

Module TealValuesWitness.
Import TealWitness.

Definition stepW : evalContext -> result evalContext := step id0 hash0 hash0 hash0 verify0.
Definition cx0 : evalContext := (initContext prog ep0 1) <| cx_programHash := zero32 |>.
(** The context after [n] steps. *)
Fixpoint after (n : nat) (cx : evalContext) : evalContext :=
  match n with O => cx | S n => match stepW cx with Ok cx => after n cx | _ => cx end end.

Example run_end : cx_pc (after 4 cx0) = 10 /\ cx_stack (after 4 cx0) = [svInt 1] /\ cx_cost (after 4 cx0) = 4.
Proof. vm_compute. done. Qed.

Lemma params0_ok : params_ok id0 ep0.
Proof.
  assert (bytes_ok zero32) as Hz by apply zero32_ok.
  assert (txn_ok id0 tx0) as Htx.
  { split; repeat (apply Forall_cons; split); try done.
    split; [|done]. change (Forall is_byte [112; 97; 121]). by repeat constructor. }
  split; try done; [by intros ? [= <-]|intros ? [= <-]; apply Forall_nil_2|].
  intros ? [= <-]. repeat (apply Forall_cons; split); done.
Qed.

Lemma teal_reach_invariant_witness : run_ok prog ep0 1 (after 4 cx0) /\ 1 <= cx_pc (after 4 cx0) <= 10 + 0x7fff.
Proof.
  assert (run_ok prog ep0 1 (after 4 cx0)) as H.
  - refine (teal_reach_invariant id0 hash0 hash0 hash0 verify0 _ prog ep0 1 1 zero32 (after 4 cx0) _ _ _ _ _ _ _ _ _).
    + intros b. split_and!; apply zero32_ok.
    + apply prog_bytes.
    + vm_compute. done.
    + reflexivity.
    + lia.
    + by eexists.
    + by eexists.
    + apply params0_ok.
    + eapply (reach_step _ _ _ _ _ cx0 (after 3 cx0)); [|vm_compute; reflexivity..].
      eapply (reach_step _ _ _ _ _ cx0 (after 2 cx0)); [|vm_compute; reflexivity..].
      eapply (reach_step _ _ _ _ _ cx0 (after 1 cx0)); [|vm_compute; reflexivity..].
      eapply (reach_step _ _ _ _ _ cx0 cx0); [|vm_compute; reflexivity..]. apply reach_refl.
    + vm_compute. reflexivity.
  - split; [exact H|]. exact (ro_pc _ _ _ _ H).
Defined.
End TealValuesWitness.
