(* ===== verification/Assembler.v ===== *)
(** The TEAL assembler's output side (src/data/transactions/logic/assembler.go):
    [OpStream], its emitters, label resolution and [Bytes].

    The source text is not modelled: splitting lines into fields and parsing
    literals ([strings], [strconv], base32/base64) happens before these operations
    are called.  The theorems relate what is emitted to what the interpreter reads. *)

From stdpp Require Import sorting.
From S2P Require Import Prelude Config Basics Transactions Bookkeeping Teal TealSpec.

(** [binary.PutUvarint] into a buffer of [MaxVarintLen64] bytes. *)
Fixpoint putUvarintLoop (fuel : nat) (x : Z) : bytes :=
  match fuel with
  | O => []
  | S fuel => if x <? 0x80 then [x] else Z.lor (x mod 256) 0x80 :: putUvarintLoop fuel (Z.shiftr x 7)
  end.
Definition PutUvarint (x : Z) : bytes := putUvarintLoop 10 x.
Arguments PutUvarint : simpl never.

Record labelReference := mkLabelReference { lr_position : Z; lr_label : string }.

Record OpStream := mkOpStream {
  ops_Out : bytes;
  ops_Version : Z;
  ops_intc : list Z;
  ops_bytec : list bytes;
  ops_typeStack : list StackType;   (* head: top *)
  ops_labels : gmap string Z;
  ops_labelReferences : list labelReference
}.
#[export] Instance OpStream_eta : Eta OpStream := λ r,
  mkOpStream (ops_Out r) (ops_Version r) (ops_intc r) (ops_bytec r) (ops_typeStack r) (ops_labels r)
    (ops_labelReferences r).
Definition OpStream_zero : OpStream := mkOpStream [] 0 [] [] [] ∅ [].

Definition modify (f : OpStream -> OpStream) : M OpStream unit := λ ops, (Ok tt, f ops).
Definition write (b : bytes) : M OpStream unit := modify (λ ops, ops <| ops_Out ::= λ o, o ++ b |>).

Definition SetLabelHere (label : string) : M OpStream unit := λ ops,
  match ops_labels ops !! label with
  | Some _ => (Err (Errorf "duplicate label"), ops)
  | None => (Ok tt, ops <| ops_labels ::= <[label := zlen (ops_Out ops)]> |>)
  end.
Definition ReferToLabel (pc : Z) (label : string) : M OpStream unit :=
  modify (λ ops, ops <| ops_labelReferences ::= λ l, l ++ [mkLabelReference pc label] |>).

Definition tpush (t : StackType) : M OpStream unit := modify (λ ops, ops <| ops_typeStack ::= cons t |>).
(** [append(typeStack, argType...)]: the last of [ts] ends on top. *)
Definition tpusha (ts : list StackType) : M OpStream unit :=
  modify (λ ops, ops <| ops_typeStack ::= λ st, rev ts ++ st |>).
Definition tpop : M OpStream StackType := λ ops,
  match ops_typeStack ops with
  | [] => (Ok StackNone, ops)
  | t :: st => (Ok t, ops <| ops_typeStack := st |>)
  end.

Definition Intc (constIndex : Z) : M OpStream unit :=
  _ ← (if constIndex =? 0 then write [0x22]
       else if constIndex =? 1 then write [0x23]
       else if constIndex =? 2 then write [0x24]
       else if constIndex =? 3 then write [0x25]
       else if 0xff <? constIndex then throw (Errorf "cannot have more than 256 int constants")
       else write [0x21; constIndex]);
  tpush StackUint64.

(** Index of the first equal constant, appended when there is none. *)
Definition Uint (val : Z) : M OpStream unit :=
  ops ← get;
  match list_find (λ cv, cv = val) (ops_intc ops) with
  | Some (i, _) => Intc (Z.of_nat i)
  | None => _ ← modify (λ ops, ops <| ops_intc ::= λ l, l ++ [val] |>); Intc (zlen (ops_intc ops))
  end.

Definition Bytec (constIndex : Z) : M OpStream unit :=
  _ ← (if constIndex =? 0 then write [0x28]
       else if constIndex =? 1 then write [0x29]
       else if constIndex =? 2 then write [0x2a]
       else if constIndex =? 3 then write [0x2b]
       else if 0xff <? constIndex then throw (Errorf "cannot have more than 256 byte constants")
       else write [0x27; constIndex]);
  tpush StackBytes.

Definition ByteLiteral (val : bytes) : M OpStream unit :=
  ops ← get;
  match list_find (λ cv, cv = val) (ops_bytec ops) with
  | Some (i, _) => Bytec (Z.of_nat i)
  | None => _ ← modify (λ ops, ops <| ops_bytec ::= λ l, l ++ [val] |>); Bytec (zlen (ops_bytec ops))
  end.

Definition Arg (val : Z) : M OpStream unit :=
  _ ← (if val =? 0 then write [0x2d]
       else if val =? 1 then write [0x2e]
       else if val =? 2 then write [0x2f]
       else if val =? 3 then write [0x30]
       else if 0xff <? val then throw (Errorf "cannot have more than 256 args")
       else write [0x2c; val]);
  tpush StackBytes.

(** [TxnFieldTypes], parallel to the enumeration of fields. *)
Definition TxnFieldTypes : list StackType :=
  [StackBytes; StackUint64; StackUint64; StackUint64; StackUint64; StackBytes; StackBytes; StackBytes;
   StackUint64; StackBytes; StackBytes; StackBytes; StackUint64; StackUint64; StackUint64; StackBytes;
   StackUint64; StackUint64; StackUint64; StackBytes; StackBytes; StackBytes; StackUint64; StackBytes].
Definition GlobalFieldTypes : list StackType :=
  [StackUint64; StackUint64; StackUint64; StackBytes; StackUint64].

Definition Txn (val : Z) : M OpStream unit :=
  match TxnFieldTypes !! Z.to_nat val with
  | None => throw (Errorf "invalid txn field")
  | Some t => _ ← write [0x31; val]; tpush t
  end.
Definition Gtxn (gid val : Z) : M OpStream unit :=
  match TxnFieldTypes !! Z.to_nat val with
  | None => throw (Errorf "invalid txn field")
  | Some t => _ ← guardE (negb (255 <? gid)) (Errorf "gtxn cannot look up beyond group index 255");
              _ ← write [0x33; gid; val]; tpush t
  end.
Definition Global (val : Z) : M OpStream unit :=
  match GlobalFieldTypes !! Z.to_nat val with
  | None => throw (Errorf "invalid txn field")
  | Some t => _ ← write [0x32; val]; tpush t
  end.

Definition typecheck (expected got : StackType) : bool :=
  bool_decide (expected = StackAny) || bool_decide (got = StackAny) || bool_decide (expected = got).

(** Pops and checks the arguments; a mismatch is only a warning once branches have
    been seen. *)
Fixpoint checkArgs (args : list StackType) : M OpStream unit :=
  match args with
  | [] => mret tt
  | argType :: args =>
    stype ← tpop;
    ops ← get;
    _ ← guardE (typecheck argType stype || negb (length (ops_labelReferences ops) =? 0)%nat)
          (Errorf "wanted type");
    checkArgs args
  end.

Definition emitBnz (label : string) : M OpStream unit :=
  ops ← get;
  _ ← ReferToLabel (zlen (ops_Out ops)) label;
  _ ← checkArgs [StackUint64];
  write [0x40; 0; 0].
Definition emitLoad (val : Z) : M OpStream unit :=
  _ ← guardE (negb (255 <? val)) (Errorf "load limited to 0..255");
  _ ← write [0x34; val];
  tpush StackAny.
Definition emitStore (val : Z) : M OpStream unit :=
  _ ← guardE (negb (255 <? val)) (Errorf "store limited to 0..255");
  _ ← checkArgs [StackAny];
  write [0x35; val].

(** An [intcblock] directive with its values. *)
Definition emitIntCBlock (args : list Z) : M OpStream unit :=
  write (0x20 :: PutUvarint (zlen args) ++ concat (PutUvarint <$> args)).
Definition emitByteCBlock (bvals : list bytes) : M OpStream unit :=
  write (0x26 :: PutUvarint (zlen bvals) ++ concat ((λ bv, PutUvarint (zlen bv) ++ bv) <$> bvals)).

(** [raw[i] = b] *)
Definition setByte (i b : Z) (raw : bytes) : result bytes :=
  if (i <? 0) || (zlen raw <=? i) then Panic "index out of range" else Ok (<[Z.to_nat i := b]> raw).

Definition resolveLabel (labels : gmap string Z) (lr : labelReference) (raw : bytes) : result bytes :=
  match labels !! lr_label lr with
  | None => Err (Errorf "reference to undefined label")
  | Some dest =>
    let naturalPc := lr_position lr + 3 in
    _ ← guardR (negb (dest <? naturalPc)) (Errorf "label is before reference but only forward jumps are allowed");
    let jump := dest - naturalPc in
    _ ← guardR (negb (0x7fff <? jump)) (Errorf "label is too far away");
    raw ← setByte (lr_position lr + 1) (Z.shiftr jump 8 mod 256) raw;
    setByte (lr_position lr + 2) (Z.land jump 0xff) raw
  end.

Fixpoint resolveAll (labels : gmap string Z) (l : list labelReference) (raw : bytes) : result bytes :=
  match l with
  | [] => Ok raw
  | lr :: l => raw ← resolveLabel labels lr raw; resolveAll labels l raw
  end.

(** Go patches the buffer in place; on an error the assembly is abandoned. *)
Definition resolveLabels : M OpStream unit :=
  ops ← get;
  raw ← lift (resolveAll (ops_labels ops) (ops_labelReferences ops) (ops_Out ops));
  modify (λ ops, ops <| ops_Out := raw |>).

Definition AssemblerDefaultVersion : Z := 1.

Definition intBlock (intc : list Z) : bytes :=
  0x20 :: PutUvarint (zlen intc) ++ concat (PutUvarint <$> intc).
Definition byteBlock (bytec : list bytes) : bytes :=
  0x26 :: PutUvarint (zlen bytec) ++ concat ((λ bv, PutUvarint (zlen bv) ++ bv) <$> bytec).

Definition Bytes (ops : OpStream) : bytes :=
  let version := if ops_Version ops =? 0 then AssemblerDefaultVersion else ops_Version ops in
  PutUvarint version
  ++ (if 0 <? zlen (ops_intc ops) then intBlock (ops_intc ops) else [])
  ++ (if 0 <? zlen (ops_bytec ops) then byteBlock (ops_bytec ops) else [])
  ++ ops_Out ops.

(** ** Programs

    A source line after its text has been split and its literals parsed; the names
    are those of [argOps], [LOp] is any other instruction and [LLabel] a label. *)
Inductive Line :=
| LInt (v : Z) | LIntC (i : Z) | LIntCBlock (vs : list Z)
| LByte (b : bytes) | LByteC (i : Z) | LByteCBlock (bs : list bytes)
| LArg (v : Z) | LTxn (f : Z) | LGtxn (gid f : Z) | LGlobal (f : Z)
| LBnz (label : string) | LLoad (v : Z) | LStore (v : Z)
| LOp (name : string) | LLabel (label : string).

(** [OpSpecs]: opcode, name, arguments and results of the instructions that
    [argOps] does not handle. *)
Definition plainOps : list (string * (Z * list StackType * list StackType)) :=
  [("err", (0x00, [], []));
   ("sha256", (0x01, oneBytes, oneBytes)); ("keccak256", (0x02, oneBytes, oneBytes));
   ("sha512_256", (0x03, oneBytes, oneBytes)); ("ed25519verify", (0x04, threeBytes, oneInt));
   ("+", (0x08, twoInts, oneInt)); ("-", (0x09, twoInts, oneInt)); ("/", (0x0a, twoInts, oneInt));
   ("*", (0x0b, twoInts, oneInt)); ("<", (0x0c, twoInts, oneInt)); (">", (0x0d, twoInts, oneInt));
   ("<=", (0x0e, twoInts, oneInt)); (">=", (0x0f, twoInts, oneInt)); ("&&", (0x10, twoInts, oneInt));
   ("||", (0x11, twoInts, oneInt)); ("==", (0x12, twoAny, oneInt)); ("!=", (0x13, twoAny, oneInt));
   ("!", (0x14, oneInt, oneInt)); ("len", (0x15, oneBytes, oneInt)); ("itob", (0x16, oneInt, oneBytes));
   ("btoi", (0x17, oneBytes, oneInt)); ("%", (0x18, twoInts, oneInt)); ("|", (0x19, twoInts, oneInt));
   ("&", (0x1a, twoInts, oneInt)); ("^", (0x1b, twoInts, oneInt)); ("~", (0x1c, oneInt, oneInt));
   ("mulw", (0x1d, twoInts, twoInts));
   ("intc_0", (0x22, [], oneInt)); ("intc_1", (0x23, [], oneInt)); ("intc_2", (0x24, [], oneInt));
   ("intc_3", (0x25, [], oneInt)); ("bytec_0", (0x28, [], oneBytes)); ("bytec_1", (0x29, [], oneBytes));
   ("bytec_2", (0x2a, [], oneBytes)); ("bytec_3", (0x2b, [], oneBytes)); ("arg_0", (0x2d, [], oneBytes));
   ("arg_1", (0x2e, [], oneBytes)); ("arg_2", (0x2f, [], oneBytes)); ("arg_3", (0x30, [], oneBytes));
   ("pop", (0x48, oneAny, [])); ("dup", (0x49, oneAny, twoAny))].

Definition emitOp (name : string) : M OpStream unit :=
  match List.find (λ p, bool_decide (p.1 = name)) plainOps with
  | Some (_, (opcode, args, returns)) =>
    _ ← checkArgs args;
    _ ← tpusha returns;
    write [opcode]
  | None => throw (Errorf "unknown opcode")
  end.

Definition assembleLine (l : Line) : M OpStream unit :=
  match l with
  | LInt v => Uint v | LIntC i => Intc i | LIntCBlock vs => emitIntCBlock vs
  | LByte b => ByteLiteral b | LByteC i => Bytec i | LByteCBlock bs => emitByteCBlock bs
  | LArg v => Arg v | LTxn f => Txn f | LGtxn gid f => Gtxn gid f | LGlobal f => Global f
  | LBnz label => emitBnz label | LLoad v => emitLoad v | LStore v => emitStore v
  | LOp name => emitOp name | LLabel label => SetLabelHere label
  end.

Definition assembleLines (lines : list Line) : M OpStream unit :=
  _ ← forM assembleLine lines;
  resolveLabels.

(** [assembleProgram] on the parsed lines. *)
Definition assembleProgram (lines : list Line) : result bytes :=
  match assembleLines lines OpStream_zero with
  | (Ok _, ops) => Ok (Bytes ops)
  | (Err e, _) => Err e
  | (Panic m, _) => Panic m
  end.

(** ** Variable-length integers round trip *)

Lemma split7 x : 0 <= x -> Z.lor (x mod 128) (Z.shiftl (Z.shiftr x 7) 7) = x.
Proof.
  intros Hx. apply Z.bits_inj'. intros n Hn. rewrite Z.lor_spec, Z.shiftl_spec by done.
  change 128 with (2 ^ 7). destruct (decide (n < 7)).
  - rewrite Z.mod_pow2_bits_low, (Z.testbit_neg_r _ (n - 7)) by lia. by rewrite orb_false_r.
  - rewrite Z.mod_pow2_bits_high, Z.shiftr_spec by lia. cbn. f_equal. lia.
Qed.

Lemma low7 x : 0 <= x -> Z.land (Z.lor (x mod 256) 0x80) 0x7f = x mod 128 /\ 0x80 <= Z.lor (x mod 256) 0x80.
Proof.
  intros Hx. split.
  - apply Z.bits_inj'. intros n Hn. change 0x7f with (Z.ones 7). rewrite Z.land_ones by lia.
    change 128 with (2 ^ 7). destruct (decide (n < 7)).
    + rewrite !Z.mod_pow2_bits_low by lia. rewrite Z.lor_spec. change 256 with (2 ^ 8).
      rewrite Z.mod_pow2_bits_low by lia. change 0x80 with (2 ^ 7). rewrite Z.pow2_bits_false by lia. by rewrite orb_false_r.
    + by rewrite !Z.mod_pow2_bits_high by lia.
  - pose proof (Z.mod_pos_bound x 256 ltac:(lia)).
    assert (0 <= Z.lor (x mod 256) 0x80) by (apply Z.lor_nonneg; lia).
    assert (Z.testbit (Z.lor (x mod 256) 0x80) 7 = true) as Hb by (rewrite Z.lor_spec; apply orb_true_r).
    apply Z.testbit_true in Hb; [|lia]. change (2 ^ 7) with 128 in Hb.
    destruct (decide (Z.lor (x mod 256) 0x80 < 128)); [|lia]. rewrite Z.div_small in Hb by lia. discriminate.
Qed.

Lemma shiftr7_bound x k : 0 <= x < 2 ^ (7 + k) -> 0 <= k -> 0 <= Z.shiftr x 7 < 2 ^ k.
Proof.
  intros Hx Hk. rewrite Z.shiftr_div_pow2 by lia. change (2 ^ 7) with 128. rewrite Z.pow_add_r in Hx by lia.
  change (2 ^ 7) with 128 in Hx. split; [apply Z.div_pos; lia|]. apply Z.div_lt_upper_bound; lia.
Qed.

Lemma uvarint_loop fuel : forall x rest acc i, (0 < fuel)%nat -> 0 <= i -> 0 <= x < 2 ^ (64 - 7 * i) -> x < 2 ^ (7 * Z.of_nat fuel) ->
  7 * i < 64 -> uvarintLoop (putUvarintLoop fuel x ++ rest) acc (7 * i) i =
    (Z.lor acc (Z.shiftl x (7 * i)), i + zlen (putUvarintLoop fuel x)).
Proof.
  induction fuel as [|fuel IH]; intros x rest acc i H0 Hi Hx Hf H64; [lia|].
  assert (u64 (Z.shiftl x (7 * i))) as Hu.
  { rewrite Z.shiftl_mul_pow2 by lia. split; [apply Z.mul_nonneg_nonneg; lia|].
    replace 64 with ((64 - 7 * i) + 7 * i) by lia. rewrite Z.pow_add_r by lia. apply Z.mul_lt_mono_pos_r; lia. }
  cbn [putUvarintLoop]. destruct (Z.ltb_spec x 0x80) as [Hlt|Hge].
  - cbn [app uvarintLoop zlen length]. rewrite (proj2 (Z.ltb_lt _ _)) by lia.
    rewrite wrap64_small by done. rewrite (proj2 (Z.ltb_ge 9 i)) by lia. cbn [orb].
    destruct (Z.eqb_spec i 9) as [->|]; cbn [andb]; [|done].
    rewrite (proj2 (Z.ltb_ge 1 x)); [done|]. cbn in Hx. lia.
  - destruct (low7 x ltac:(lia)) as [L1 L2]. cbn [app uvarintLoop].
    rewrite (proj2 (Z.ltb_ge _ _)) by lia. rewrite L1.
    assert (7 * i + 7 < 64) as H7.
    { destruct (decide (7 * i + 7 < 64)); [done|]. assert (2 ^ (64 - 7 * i) <= 2 ^ 7) by (apply Z.pow_le_mono_r; lia). lia. }
    pose proof (Z.mod_pos_bound x 128 ltac:(lia)) as Hm. pose proof (Z.mod_le x 128 ltac:(lia) ltac:(lia)) as Hm2.
    rewrite wrap64_small.
    2:{ rewrite Z.shiftl_mul_pow2 in Hu |- * by lia. unfold u64 in *.
        assert (0 < 2 ^ (7 * i)) by (apply Z.pow_pos_nonneg; lia). nia. }
    replace (7 * i + 7) with (7 * (i + 1)) by lia.
    assert (0 < fuel)%nat as Hpos by (destruct fuel; [cbn in Hf; lia|lia]).
    rewrite IH; [|done|lia| | |lia].
    + f_equal; [|unfold zlen; cbn [length]; lia]. rewrite <- Z.lor_assoc. f_equal.
      replace (7 * (i + 1)) with (7 + 7 * i) by lia. rewrite <- Z.shiftl_shiftl by lia.
      rewrite <- Z.shiftl_lor. by rewrite split7 by lia.
    + apply shiftr7_bound; [|lia]. by replace (7 + (64 - 7 * (i + 1))) with (64 - 7 * i) by lia.
    + apply shiftr7_bound; [|lia]. replace (7 + 7 * Z.of_nat fuel) with (7 * Z.of_nat (S fuel)) by lia. lia.
Qed.

Lemma PutUvarint_Uvarint x rest : u64 x -> Uvarint (PutUvarint x ++ rest) = (x, zlen (PutUvarint x)).
Proof.
  intros Hx. unfold Uvarint, PutUvarint. change (uvarintLoop (putUvarintLoop 10 x ++ rest) 0 0 0) with (uvarintLoop (putUvarintLoop 10 x ++ rest) 0 (7 * 0) 0).
  rewrite (uvarint_loop 10 x rest 0 0); [|lia|lia| | |lia].
  - rewrite Z.lor_0_l, Z.shiftl_0_r. done.
  - unfold u64 in Hx. cbn. lia.
  - unfold u64 in Hx. cbn. lia.
Qed.

Lemma PutUvarint_len x : 1 <= zlen (PutUvarint x).
Proof. unfold PutUvarint, zlen. cbn [putUvarintLoop]. destruct (x <? 128); cbn [length]; lia. Qed.

(** ** Constant blocks round trip *)

Lemma zlen_app {A} (a b : list A) : zlen (a ++ b) = zlen a + zlen b.
Proof. unfold zlen. rewrite length_app. lia. Qed.
Lemma zlen_cons {A} (x : A) l : zlen (x :: l) = 1 + zlen l.
Proof. unfold zlen. cbn [length]. lia. Qed.
Lemma zlen_nonneg {A} (a : list A) : 0 <= zlen a.
Proof. unfold zlen. lia. Qed.
Lemma sliceFrom_app a b : sliceFrom (a ++ b) (zlen a) = Ok b.
Proof.
  unfold sliceFrom. pose proof (zlen_nonneg a). pose proof (zlen_nonneg b). rewrite zlen_app.
  rewrite !(proj2 (Z.leb_le _ _)) by lia. cbn [andb]. f_equal. unfold zlen. rewrite Nat2Z.id. apply drop_app_length.
Qed.
Lemma sliceOf_app a b c : sliceOf (a ++ b ++ c) (zlen a) (zlen a + zlen b) = Ok b.
Proof.
  unfold sliceOf. pose proof (zlen_nonneg a). pose proof (zlen_nonneg b). pose proof (zlen_nonneg c).
  rewrite !zlen_app, !(proj2 (Z.leb_le _ _)) by lia. cbn [andb]. f_equal.
  replace (zlen a + zlen b - zlen a) with (zlen b) by lia. unfold zlen. rewrite !Nat2Z.id, drop_app_length. apply take_app_length.
Qed.

Lemma zlen_concat_ge {A} (f : A -> bytes) l : (forall x, 1 <= zlen (f x)) -> zlen l <= zlen (concat (f <$> l)).
Proof.
  intros Hf. induction l as [|x l IH]; [done|]. cbn [fmap list_fmap concat]. rewrite zlen_app.
  specialize (Hf x). unfold zlen in *. cbn [length]. lia.
Qed.

Lemma intItems_encode intc : forall pre rest, Forall u64 intc ->
  intItems (length intc) (pre ++ concat (PutUvarint <$> intc) ++ rest) (zlen pre) =
    Ok (intc, zlen pre + zlen (concat (PutUvarint <$> intc))).
Proof.
  induction intc as [|v intc IH]; intros pre rest HF; cbn [length intItems fmap list_fmap concat].
  { cbn. by rewrite Z.add_0_r. }
  apply Forall_cons in HF as [Hv HF]. rewrite <- app_assoc, sliceFrom_app; cbn [mbind result_bind]; rewrite PutUvarint_Uvarint by done.
  pose proof (PutUvarint_len v). rewrite !zlen_app. pose proof (zlen_nonneg (concat (PutUvarint <$> intc))).
  pose proof (zlen_nonneg rest). rewrite (proj2 (Z.leb_gt _ _)), (proj2 (Z.leb_gt _ 0)) by lia.
  specialize (IH (pre ++ PutUvarint v) rest HF). rewrite zlen_app, <- app_assoc in IH. rewrite IH.
  cbn [mbind result_bind fst snd]. unfold mret, result_ret. do 2 f_equal. rewrite ?zlen_app. lia.
Qed.

(** A block at the end of the program whose last constant is empty cannot be read back:
    the parser asks for a byte after every length. *)
Definition cutShort (bytec : list bytes) (rest : bytes) : Prop := last bytec = Some [] /\ rest = [].
#[export] Instance cutShort_dec bytec rest : Decision (cutShort bytec rest).
Proof. unfold cutShort. apply _. Defined.

Lemma byteItems_encode bytec : forall pre rest, Forall (λ b, u64 (zlen b)) bytec ->
  zlen (pre ++ concat ((λ bv, PutUvarint (zlen bv) ++ bv) <$> bytec) ++ rest) < 2 ^ 64 ->
  byteItems (length bytec) (pre ++ concat ((λ bv, PutUvarint (zlen bv) ++ bv) <$> bytec) ++ rest) (zlen pre) =
    if decide (cutShort bytec rest) then Err errShortBytecblock
    else Ok (bytec, zlen pre + zlen (concat ((λ bv, PutUvarint (zlen bv) ++ bv) <$> bytec))).
Proof.
  induction bytec as [|v bytec IH]; intros pre rest HF Hlen; cbn [length byteItems fmap list_fmap concat].
  { rewrite decide_False by (by intros []). cbn. by rewrite Z.add_0_r. }
  apply Forall_cons in HF as [Hv HF]. cbn [fmap list_fmap concat] in Hlen.
  assert (zlen bytec <= zlen (concat ((λ bv, PutUvarint (zlen bv) ++ bv) <$> bytec))) as Hge.
  { apply zlen_concat_ge. intros x. rewrite zlen_app. pose proof (PutUvarint_len (zlen x)). pose proof (zlen_nonneg x). lia. }
  set (tail := concat ((λ bv, PutUvarint (zlen bv) ++ bv) <$> bytec)) in *.
  rewrite <- !app_assoc in *. rewrite sliceFrom_app; cbn [mbind result_bind]; rewrite PutUvarint_Uvarint by done.
  pose proof (PutUvarint_len (zlen v)). rewrite !zlen_app in *. pose proof (zlen_nonneg tail).
  pose proof (zlen_nonneg pre). pose proof (zlen_nonneg v). pose proof (zlen_nonneg rest).
  rewrite (proj2 (Z.leb_gt _ (zlen pre))), (proj2 (Z.leb_gt _ 0)) by lia.
  specialize (IH ((pre ++ PutUvarint (zlen v)) ++ v) rest HF). rewrite !zlen_app, <- !app_assoc in IH. specialize (IH ltac:(lia)).
  destruct (Z.leb_spec (zlen pre + (zlen (PutUvarint (zlen v)) + (zlen v + (zlen tail + zlen rest)))) (zlen pre + zlen (PutUvarint (zlen v)))) as [Hs|Hs].
  { rewrite decide_True; [done|]. assert (bytec = []) as -> by (destruct bytec; [done|rewrite zlen_cons in Hge; pose proof (zlen_nonneg bytec); lia]).
    destruct v; [|rewrite zlen_cons in Hs; pose proof (zlen_nonneg v); lia]. by destruct rest; [|rewrite zlen_cons in Hs; pose proof (zlen_nonneg rest); lia]. }
  rewrite wrap64_small by (unfold u64 in *; lia).
  rewrite (proj2 (Z.ltb_ge _ _)), (proj2 (Z.ltb_ge _ (zlen pre + _))) by lia. cbn [orb].
  replace (zlen pre + zlen (PutUvarint (zlen v))) with (zlen (pre ++ PutUvarint (zlen v))) in * by (by rewrite zlen_app).
  assert (pre ++ PutUvarint (zlen v) ++ v ++ tail ++ rest = (pre ++ PutUvarint (zlen v)) ++ v ++ tail ++ rest) as Ea by (by rewrite <- app_assoc).
  rewrite Ea at 1. rewrite sliceOf_app. cbn [mbind result_bind].
  rewrite IH. assert (cutShort (v :: bytec) rest <-> cutShort bytec rest) as Hc.
  { unfold cutShort. destruct bytec as [|b bytec]; [|done]. split; [|by intros []]. intros [[= ->] ->].
    change (zlen tail) with 0 in Hs. change (zlen (@nil Z)) with 0 in Hs. rewrite zlen_app in Hs. lia. }
  destruct (decide (cutShort bytec rest)); [by rewrite decide_True by (by apply Hc)|rewrite decide_False by (by rewrite Hc)].
  cbn [mbind result_bind fst snd]. unfold mret, result_ret. do 2 f_equal. rewrite ?zlen_app. lia.
Qed.

Lemma parseIntcblock_encode pre intc rest : Forall u64 intc -> zlen intc < 2 ^ 64 ->
  parseIntcblock (pre ++ intBlock intc ++ rest) (zlen pre) = Ok (intc, zlen (pre ++ intBlock intc)).
Proof.
  intros HF Hl. unfold parseIntcblock, intBlock. set (items := concat (PutUvarint <$> intc)).
  pose proof (zlen_nonneg intc).
  replace (pre ++ (0x20 :: PutUvarint (zlen intc) ++ items) ++ rest)
    with ((pre ++ [0x20]) ++ PutUvarint (zlen intc) ++ items ++ rest) by (cbn [app]; rewrite <- !app_assoc; done).
  replace (zlen pre + 1) with (zlen (pre ++ [0x20])) by (by rewrite zlen_app).
  rewrite sliceFrom_app; cbn [mbind result_bind]; rewrite PutUvarint_Uvarint by (unfold u64; lia).
  pose proof (PutUvarint_len (zlen intc)). rewrite (proj2 (Z.leb_gt _ _)) by lia.
  assert (zlen intc <= zlen items) as Hi by (apply zlen_concat_ge, PutUvarint_len).
  rewrite (proj2 (Z.ltb_ge _ _)).
  2:{ rewrite !zlen_app. pose proof (zlen_nonneg pre). pose proof (zlen_nonneg rest). change (zlen [0x20]) with 1. lia. }
  rewrite app_assoc, <- zlen_app. unfold zlen at 1. rewrite Nat2Z.id.
  rewrite intItems_encode by done. do 2 f_equal. rewrite !zlen_app, !zlen_cons, zlen_app.
  change (zlen (@nil Z)) with 0. fold items. lia.
Qed.

Lemma parseBytecBlock_encode pre bytec rest : zlen (pre ++ byteBlock bytec ++ rest) < 2 ^ 64 ->
  parseBytecBlock (pre ++ byteBlock bytec ++ rest) (zlen pre) =
    if decide (cutShort bytec rest) then Err errShortBytecblock else Ok (bytec, zlen (pre ++ byteBlock bytec)).
Proof.
  intros Hl. pose proof (zlen_nonneg rest). unfold parseBytecBlock, byteBlock in *.
  set (enc := λ bv : bytes, PutUvarint (zlen bv) ++ bv) in *. set (items := concat (enc <$> bytec)) in *.
  assert (zlen bytec <= zlen items) as Hi.
  { apply zlen_concat_ge. intros x. unfold enc. rewrite zlen_app. pose proof (PutUvarint_len (zlen x)).
    pose proof (zlen_nonneg x). lia. }
  assert (forall b, b ∈ bytec -> zlen b <= zlen items) as Hb.
  { clear. unfold items. induction bytec as [|x l IH]; [set_solver|]. intros b [->|Hb]%elem_of_cons.
    - cbn [fmap list_fmap concat]. unfold enc. rewrite !zlen_app. pose proof (PutUvarint_len (zlen x)).
      pose proof (zlen_nonneg (concat (enc <$> l))). unfold enc in *. lia.
    - cbn [fmap list_fmap concat]. rewrite zlen_app. pose proof (zlen_nonneg (enc x)). specialize (IH b Hb). lia. }
  replace (pre ++ (0x26 :: PutUvarint (zlen bytec) ++ items) ++ rest)
    with ((pre ++ [0x26]) ++ PutUvarint (zlen bytec) ++ items ++ rest) in * by (cbn [app]; rewrite <- !app_assoc; done).
  pose proof (zlen_nonneg bytec). pose proof (zlen_nonneg pre). pose proof (PutUvarint_len (zlen bytec)).
  assert (zlen items < 2 ^ 64) by (rewrite !zlen_app in Hl; change (zlen [0x26]) with 1 in Hl; lia).
  replace (zlen pre + 1) with (zlen (pre ++ [0x26])) by (by rewrite zlen_app).
  rewrite sliceFrom_app; cbn [mbind result_bind]; rewrite PutUvarint_Uvarint by (unfold u64; lia).
  rewrite (proj2 (Z.leb_gt _ _)) by lia. rewrite (proj2 (Z.ltb_ge _ _)) by (rewrite !zlen_app; change (zlen [0x26]) with 1; lia).
  rewrite app_assoc in Hl |- *. rewrite <- zlen_app. unfold zlen at 1. rewrite Nat2Z.id.
  unfold items, enc in *. rewrite byteItems_encode; [| |done].
  - case_decide; [done|]. do 2 f_equal. rewrite !zlen_app, !zlen_cons, zlen_app. change (zlen (@nil Z)) with 0. lia.
  - apply Forall_forall. intros b Hbb. specialize (Hb b Hbb). pose proof (zlen_nonneg b). unfold u64. lia.
Qed.

(** The constants an assembled program starts with are the ones it was
    assembled from.  Reading [Bytes ops] as the interpreter does gives the version,
    then (when there are integer constants) an [intcblock] that parses to exactly
    [ops_intc], then a [bytecblock] that parses to exactly [ops_bytec], and what
    follows is the emitted code. *)
Theorem Bytes_constants ops : 0 < zlen (ops_Out ops) -> zlen (Bytes ops) < 2 ^ 64 -> Forall u64 (ops_intc ops) ->
  u64 (ops_Version ops) -> ops_Version ops <> 0 ->
  exists vlen p1 p2, Uvarint (Bytes ops) = (ops_Version ops, vlen)
    /\ (if 0 <? zlen (ops_intc ops) then byteAt (Bytes ops) vlen = Ok 0x20 /\ parseIntcblock (Bytes ops) vlen = Ok (ops_intc ops, p1)
        else p1 = vlen)
    /\ (if 0 <? zlen (ops_bytec ops) then byteAt (Bytes ops) p1 = Ok 0x26 /\ parseBytecBlock (Bytes ops) p1 = Ok (ops_bytec ops, p2)
        else p2 = p1)
    /\ sliceFrom (Bytes ops) p2 = Ok (ops_Out ops).
Proof.
  intros HO Hl HF Hv Hv0. unfold Bytes in *. rewrite (proj2 (Z.eqb_neq _ _)) in * by done.
  set (V := PutUvarint (ops_Version ops)) in *. set (O := ops_Out ops) in *.
  set (I := if 0 <? zlen (ops_intc ops) then intBlock (ops_intc ops) else []) in *.
  set (B := if 0 <? zlen (ops_bytec ops) then byteBlock (ops_bytec ops) else []) in *.
  assert (forall pre x l, byteAt (pre ++ (x :: l)) (zlen pre) = Ok x) as Hat.
  { intros pre x l. unfold byteAt, zlen. rewrite Nat2Z.id, lookup_app_r, Nat.sub_diag by lia. cbn.
    destruct (Z.ltb_spec (Z.of_nat (length pre)) 0); [lia|done]. }
  exists (zlen V), (zlen (V ++ I)), (zlen ((V ++ I) ++ B)). split_and!.
  - apply (PutUvarint_Uvarint (ops_Version ops)); done.
  - subst I. destruct (Z.ltb_spec 0 (zlen (ops_intc ops))); [|by rewrite app_nil_r]. split; [apply Hat|].
    apply parseIntcblock_encode; [done|]. rewrite !zlen_app in Hl.
    pose proof (zlen_nonneg V). pose proof (zlen_nonneg B). pose proof (PutUvarint_len (zlen (ops_intc ops))).
    pose proof (zlen_concat_ge PutUvarint (ops_intc ops) PutUvarint_len) as Hc. unfold intBlock in Hl.
    change (0x20 :: ?l) with ([0x20] ++ l) in Hl. rewrite !zlen_app in Hl. change (zlen [0x20]) with 1 in Hl. lia.
  - subst B. destruct (Z.ltb_spec 0 (zlen (ops_bytec ops))); [|by rewrite app_nil_r].
    rewrite (app_assoc V I). split; [apply Hat|]. rewrite parseBytecBlock_encode by (by rewrite <- app_assoc).
    rewrite decide_False; [done|]. intros [_ E]. by rewrite E in HO.
  - replace (V ++ I ++ B ++ O) with (((V ++ I) ++ B) ++ O) by (by rewrite <- !app_assoc). apply sliceFrom_app.
Qed.

(** ** Labels

    The invariant of an assembly: every reference is the position of a [bnz] that
    has been written, references do not overlap, labels lie inside the output. *)
Definition refOk (out : bytes) (lr : labelReference) : Prop :=
  0 <= lr_position lr /\ lr_position lr + 3 <= zlen out /\ byteAt out (lr_position lr) = Ok 0x40.
Record wf_ops (ops : OpStream) : Prop := {
  wo_refs : Forall (refOk (ops_Out ops)) (ops_labelReferences ops);
  wo_apart : StronglySorted (λ a b, lr_position a + 3 <= lr_position b) (ops_labelReferences ops);
  wo_labels : map_Forall (λ _ d, 0 <= d <= zlen (ops_Out ops)) (ops_labels ops)
}.

(** Actions that only append to the output. *)
Definition emits (m : M OpStream unit) : Prop := forall ops ops', m ops = (Ok tt, ops') ->
  (exists b, ops_Out ops' = ops_Out ops ++ b) /\ ops_labels ops' = ops_labels ops
  /\ ops_labelReferences ops' = ops_labelReferences ops.

Lemma emits_write b : emits (write b).
Proof. intros ops ops' [= <-]. cbn. eauto. Qed.
Lemma emits_id f : (forall ops, ops_Out (f ops) = ops_Out ops /\ ops_labels (f ops) = ops_labels ops
  /\ ops_labelReferences (f ops) = ops_labelReferences ops) -> emits (modify f).
Proof. intros Hf ops ops' [= <-]. destruct (Hf ops) as (-> & -> & ->). split_and!; [exists []; by rewrite app_nil_r|done..]. Qed.
Lemma emits_tpush t : emits (tpush t).
Proof. by apply emits_id. Qed.
Lemma emits_tpusha t : emits (tpusha t).
Proof. by apply emits_id. Qed.
Lemma emits_throw e : emits (throw e).
Proof. intros ??[=]. Qed.
Lemma emits_bind (m : M OpStream unit) (f : unit -> M OpStream unit) : emits m -> (forall u, emits (f u)) -> emits (m ≫= f).
Proof.
  intros Hm Hf ops ops' H. apply M_bind_Ok in H as ([] & s1 & H1 & H2).
  destruct (Hm _ _ H1) as ((b1 & E1) & L1 & R1). destruct (Hf tt _ _ H2) as ((b2 & E2) & L2 & R2).
  split_and!; [|congruence..]. exists (b1 ++ b2). by rewrite E2, E1, app_assoc.
Qed.
Lemma emits_get (f : OpStream -> M OpStream unit) : (forall ops, emits (f ops)) -> emits (ops ← get; f ops).
Proof. intros Hf ops ops' H. exact (Hf ops ops ops' H). Qed.
Lemma emits_guard b e : emits (guardE b e).
Proof. intros ops ops' [_ ->]%guardE_Ok. split_and!; [exists []; by rewrite app_nil_r|done..]. Qed.
Lemma emits_checkArgs args : emits (checkArgs args).
Proof.
  induction args as [|t args IH]; cbn [checkArgs].
  { intros ops ops' [= <-]. split_and!; [exists []; by rewrite app_nil_r|done..]. }
  intros ops ops' H. apply M_bind_Ok in H as (st & s1 & H1 & H2).
  assert (ops_Out s1 = ops_Out ops /\ ops_labels s1 = ops_labels ops /\ ops_labelReferences s1 = ops_labelReferences ops) as (<- & <- & <-).
  { unfold tpop in H1. destruct (ops_typeStack ops); injection H1 as <- <-; done. }
  clear H1. revert s1 ops' H2. apply emits_get. intros ops1. apply emits_bind; [apply emits_guard|done].
Qed.

Create HintDb emits.
#[local] Hint Resolve emits_write emits_tpush emits_tpusha emits_throw emits_guard emits_checkArgs : emits.
Ltac emits_tac := repeat match goal with
  | |- emits (get ≫= _) => apply emits_get; intros ?
  | |- emits (_ ≫= _) => apply emits_bind; [|intros ?]
  | |- emits (if ?b then _ else _) => destruct b
  | |- emits (match ?x with _ => _ end) => destruct x
  | |- emits (modify _) => by apply emits_id
  | |- emits _ => solve [auto 1 with emits nocore]
  end.

Lemma emits_Intc i : emits (Intc i).
Proof. unfold Intc. emits_tac. Qed.
Lemma emits_Bytec i : emits (Bytec i).
Proof. unfold Bytec. emits_tac. Qed.
#[local] Hint Resolve emits_Intc emits_Bytec : emits.

Definition jumps (l : Line) : bool := match l with LBnz _ | LLabel _ => true | _ => false end.
Lemma emits_line l : jumps l = false -> emits (assembleLine l).
Proof.
  destruct l; intros H; try discriminate H; cbn [assembleLine];
    unfold Uint, ByteLiteral, Arg, Txn, Gtxn, Global, emitLoad, emitStore, emitIntCBlock, emitByteCBlock, emitOp;
    emits_tac.
Qed.

Lemma refOk_app out b lr : refOk out lr -> refOk (out ++ b) lr.
Proof.
  intros (H1 & H2 & H3). split_and!; [done|rewrite zlen_app; pose proof (zlen_nonneg b); lia|].
  unfold byteAt in *. destruct (_ <? 0); [done|]. destruct (out !! _) eqn:E; [|discriminate]. by rewrite (lookup_app_l_Some _ _ _ _ E).
Qed.

Lemma wf_emits m ops ops' : emits m -> wf_ops ops -> m ops = (Ok tt, ops') -> wf_ops ops'.
Proof.
  intros Hm [W1 W2 W3] H. destruct (Hm _ _ H) as ((b & E) & L & R). split; rewrite ?E, ?L, ?R; [|done|].
  - eapply Forall_impl; [exact W1|]. intros. by apply refOk_app.
  - eapply map_Forall_impl; [exact W3|]. intros. cbn in *. rewrite zlen_app. pose proof (zlen_nonneg b). lia.
Qed.

Lemma byteAt_app (pre l : bytes) i : 0 <= i -> byteAt (pre ++ l) (zlen pre + i) = byteAt l i.
Proof.
  intros Hi. unfold byteAt, zlen. rewrite (proj2 (Z.ltb_ge _ _)), (proj2 (Z.ltb_ge i 0)) by lia.
  rewrite lookup_app_r by lia. by replace (Z.to_nat _ - length pre)%nat with (Z.to_nat i) by lia.
Qed.

Lemma wf_bnz label ops ops' : wf_ops ops -> emitBnz label ops = (Ok tt, ops') -> wf_ops ops'.
Proof.
  intros [W1 W2 W3] H. unfold emitBnz in H.
  apply M_bind_Ok in H as (o & s0 & [= <- <-] & H). apply M_bind_Ok in H as ([] & s1 & [= <-] & H).
  apply M_bind_Ok in H as ([] & s2 & H2 & [= <-]).
  pose proof (emits_checkArgs [StackUint64] _ _ H2) as ((b & E) & L & R). cbn in E, L, R.
  assert (b = []) as ->.
  { cbn in H2. unfold mbind, M_bind, get, guardE, tpop in H2. cbn in H2.
    destruct (ops_typeStack ops); [|cbn in H2]; destruct (_ || _) in H2; try discriminate H2; injection H2 as <-; cbn in E;
      by apply (f_equal (drop (length (ops_Out ops)))) in E; rewrite drop_all, drop_app_length in E. }
  rewrite app_nil_r in E. split; cbn; rewrite ?E, ?L, ?R.
  - apply Forall_app. split; [eapply Forall_impl; [exact W1|]; intros; by apply refOk_app|].
    apply Forall_singleton. pose proof (zlen_nonneg (ops_Out ops)). split_and!; cbn [lr_position]; [done|rewrite zlen_app; done|].
    rewrite <- (Z.add_0_r (zlen _)), byteAt_app by done. done.
  - apply StronglySorted_app_2; [|done|repeat constructor].
    intros a c Ha ->%list_elem_of_singleton. rewrite Forall_forall in W1. destruct (W1 a Ha) as (? & ? & ?). cbn. lia.
  - eapply map_Forall_impl; [exact W3|]. intros. cbn in *. rewrite zlen_app. change (zlen [64; 0; 0]) with 3. lia.
Qed.

Lemma wf_line l ops ops' : wf_ops ops -> assembleLine l ops = (Ok tt, ops') -> wf_ops ops'.
Proof.
  intros W H. destruct (jumps l) eqn:J; [|by eapply wf_emits; [by apply emits_line|..]].
  destruct l; try discriminate J; cbn [assembleLine] in H; [by eapply wf_bnz|].
  unfold SetLabelHere in H. destruct (ops_labels ops !! label); [discriminate|]. injection H as <-. destruct W as [W1 W2 W3].
  split; [done..|]. cbn. apply map_Forall_insert_2; [|done]. pose proof (zlen_nonneg (ops_Out ops)). lia.
Qed.

Lemma wf_lines lines : forall ops ops', wf_ops ops -> forM assembleLine lines ops = (Ok tt, ops') -> wf_ops ops'.
Proof.
  induction lines as [|l lines IH]; intros ops ops' W H; [by injection H as <-|].
  cbn in H. apply M_bind_Ok in H as ([] & s1 & H1 & H2). eauto using wf_line.
Qed.
Lemma wf_zero : wf_ops OpStream_zero.
Proof. split; cbn; [constructor..|apply map_Forall_empty]. Qed.

(** Patching one reference. *)
Definition resolved (labels : gmap string Z) (out : bytes) (lr : labelReference) : Prop :=
  exists dest, labels !! lr_label lr = Some dest /\ lr_position lr + 3 <= dest <= lr_position lr + 3 + 0x7fff
    /\ byteAt out (lr_position lr) = Ok 0x40 /\ branchOffset out (lr_position lr) = Ok (dest - (lr_position lr + 3)).

Lemma setByte_spec i b raw : 0 <= i < zlen raw ->
  exists raw', setByte i b raw = Ok raw' /\ zlen raw' = zlen raw /\ byteAt raw' i = Ok b
    /\ forall j, j <> i -> byteAt raw' j = byteAt raw j.
Proof.
  intros Hi. unfold setByte. rewrite (proj2 (Z.ltb_ge _ _)), (proj2 (Z.leb_gt _ _)) by lia. cbn [orb].
  eexists. split_and!; [done| | |].
  - unfold zlen. by rewrite length_insert.
  - unfold byteAt, zlen in *. rewrite (proj2 (Z.ltb_ge _ _)) by lia. by rewrite list_lookup_insert_eq by lia.
  - intros j Hj. unfold byteAt. destruct (Z.ltb_spec j 0); [done|]. by rewrite list_lookup_insert_ne by lia.
Qed.

Lemma jump_bytes j : 0 <= j <= 0x7fff -> Z.lor (Z.shiftl (Z.shiftr j 8 mod 256) 8) (Z.land j 0xff) = j.
Proof.
  intros Hj. change 0xff with (Z.ones 8). rewrite Z.land_ones by lia. rewrite Z.mod_small.
  - apply Z.bits_inj'. intros n Hn. rewrite Z.lor_spec, Z.shiftl_spec by lia. destruct (decide (n < 8)).
    + rewrite Z.mod_pow2_bits_low, (Z.testbit_neg_r _ (n - 8)) by lia. done.
    + rewrite Z.mod_pow2_bits_high, Z.shiftr_spec by lia. rewrite orb_false_r. f_equal. lia.
  - rewrite Z.shiftr_div_pow2 by lia. change (2 ^ 8) with 256. split; [apply Z.div_pos; lia|apply Z.div_lt_upper_bound; lia].
Qed.

Lemma resolveLabel_spec labels lr raw : refOk raw lr -> match resolveLabel labels lr raw with
  | Ok raw' => resolved labels raw' lr /\ zlen raw' = zlen raw
      /\ (forall j, j < lr_position lr + 1 \/ lr_position lr + 3 <= j -> byteAt raw' j = byteAt raw j)
  | Err _ => True
  | Panic _ => False
  end.
Proof.
  intros (H0 & H3 & Hop). unfold resolveLabel, guardR. set (p := lr_position lr) in *.
  destruct (labels !! lr_label lr) as [dest|] eqn:El; [|done].
  destruct (Z.ltb_spec dest (p + 3)); cbn [negb mbind result_bind]; [done|].
  destruct (Z.ltb_spec 0x7fff (dest - (p + 3))); cbn [negb]; [done|].
  destruct (setByte_spec (p + 1) (Z.shiftr (dest - (p + 3)) 8 mod 256) raw ltac:(lia)) as (r1 & -> & L1 & B1 & K1). cbn [mbind result_bind].
  destruct (setByte_spec (p + 2) (Z.land (dest - (p + 3)) 0xff) r1 ltac:(lia)) as (r2 & -> & L2 & B2 & K2).
  cbn. split_and!; [|lia|intros j Hj; rewrite K2, K1 by lia; done].
  exists dest. fold p. split_and!; [done|lia|lia|rewrite K2, K1 by lia; done|].
  unfold branchOffset. rewrite B2, (K2 (p + 1)), B1 by lia. cbn. unfold mret, result_ret. f_equal. apply jump_bytes. lia.
Qed.

Lemma resolved_keep labels out out' lr : (forall j, lr_position lr <= j < lr_position lr + 3 -> byteAt out' j = byteAt out j) ->
  resolved labels out lr -> resolved labels out' lr.
Proof.
  intros K (dest & H1 & H2 & H3 & H4). exists dest. unfold branchOffset in *. rewrite !K by lia. done.
Qed.

Lemma resolveAll_spec labels refs : forall raw, Forall (refOk raw) refs ->
  StronglySorted (λ a b, lr_position a + 3 <= lr_position b) refs ->
  match resolveAll labels refs raw with
  | Ok raw' => Forall (resolved labels raw') refs /\ zlen raw' = zlen raw
      /\ forall j, Forall (λ lr, j < lr_position lr) refs -> byteAt raw' j = byteAt raw j
  | Err _ => True
  | Panic _ => False
  end.
Proof.
  induction refs as [|lr refs IH]; intros raw HF HS; cbn [resolveAll]; [done|].
  apply Forall_cons in HF as [Hlr HF]. apply StronglySorted_inv in HS as [HS Hlt].
  pose proof (resolveLabel_spec labels lr raw Hlr) as Hr. destruct (resolveLabel labels lr raw) as [r1|e|m]; cbn; [|done..].
  destruct Hr as (Rlr & Len1 & K1).
  assert (Forall (refOk r1) refs) as HF1.
  { apply Forall_forall. intros b Hb. rewrite Forall_forall in HF, Hlt. destruct (HF b Hb) as (? & ? & ?). specialize (Hlt b Hb).
    split_and!; [done|lia|rewrite K1 by lia; done]. }
  specialize (IH r1 HF1 HS). destruct (resolveAll labels refs r1) as [r2|e|m]; [|done..].
  destruct IH as (R2 & Len2 & K2). split_and!; [|lia|].
  - apply Forall_cons. split; [|done]. eapply resolved_keep; [|exact Rlr]. intros j Hj. apply K2.
    eapply Forall_impl; [exact Hlt|]. cbn. lia.
  - intros j [Hj Hjs]%Forall_cons. rewrite K2 by done. apply K1. lia.
Qed.

(** No action of the assembler panics. *)
Definition calm (m : M OpStream unit) : Prop := forall ops, is_panic (m ops).1 = false.
Lemma calm_bind {A} (m : M OpStream A) (f : A -> M OpStream unit) : (forall ops, is_panic (m ops).1 = false) ->
  (forall a, calm (f a)) -> calm (m ≫= f).
Proof. intros Hm Hf ops. specialize (Hm ops). unfold mbind, M_bind. destruct (m ops) as [[] s1]; [apply Hf|done..]. Qed.
Lemma calm_checkArgs args : calm (checkArgs args).
Proof.
  induction args as [|t args IH]; [done|]. cbn [checkArgs]. apply calm_bind; [intros ops; unfold tpop; by destruct (ops_typeStack ops)|].
  intros st. apply calm_bind; [done|]. intros ops1. apply calm_bind; [intros ?; unfold guardE; by destruct (_ || _)|done].
Qed.
Ltac calm_tac := repeat match goal with
  | |- calm (_ ≫= _) => apply calm_bind; [|intros ?]
  | |- forall ops, is_panic (?m ops).1 = false => change (calm m)
  | |- calm (if ?b then _ else _) => destruct b
  | |- calm (match ?x with _ => _ end) => destruct x
  | |- calm (checkArgs _) => apply calm_checkArgs
  | |- calm (guardE _ _) => intros ?; unfold guardE
  | |- is_panic ((if ?b then _ else _) _).1 = false => by destruct b
  | |- _ => done
  end.
Lemma calm_line l : calm (assembleLine l).
Proof.
  destruct l; cbn [assembleLine];
    unfold Uint, ByteLiteral, Intc, Bytec, Arg, Txn, Gtxn, Global, emitLoad, emitStore, emitBnz, emitOp; calm_tac.
  intros ops. unfold SetLabelHere. by destruct (ops_labels ops !! label).
Qed.
Lemma lines_no_panic lines : calm (forM assembleLine lines).
Proof. induction lines as [|l lines IH]; [done|]. cbn [forM]. apply calm_bind; [apply calm_line|done]. Qed.

Lemma Bytes_prefix ops : exists pre, Bytes ops = pre ++ ops_Out ops.
Proof. unfold Bytes. rewrite !app_assoc. eauto. Qed.

(** Label resolution is right and needs no bounds check.  Assembling any lines
    either fails with an error (never an index out of range), or in the finished
    program every [bnz] carries, as the interpreter decodes it, the distance from
    the instruction after it to its label, between 0 and 0x7fff; the target lies in
    the program or at its end. *)
Theorem Assemble_labels lines : match assembleLines lines OpStream_zero with
  | (Ok _, ops) => forall lr, lr ∈ ops_labelReferences ops -> exists dest,
      ops_labels ops !! lr_label lr = Some dest
      /\ lr_position lr + 3 <= dest <= zlen (ops_Out ops) /\ dest - (lr_position lr + 3) <= 0x7fff
      /\ let n := zlen (Bytes ops) - zlen (ops_Out ops) in
         byteAt (Bytes ops) (n + lr_position lr) = Ok 0x40
         /\ branchOffset (Bytes ops) (n + lr_position lr) = Ok (dest - (lr_position lr + 3))
  | (Err _, _) => True
  | (Panic _, _) => False
  end.
Proof.
  unfold assembleLines. unfold mbind at 1, M_bind. pose proof (lines_no_panic lines OpStream_zero) as Hp.
  destruct (forM assembleLine lines OpStream_zero) as [[[]|e|m] o1] eqn:E1; [|done|done].
  pose proof (wf_lines _ _ _ wf_zero E1) as [W1 W2 W3].
  unfold resolveLabels, mbind, M_bind, get, lift, modify.
  pose proof (resolveAll_spec (ops_labels o1) _ _ W1 W2) as HR.
  destruct (resolveAll _ _ _) as [raw|e|m]; [|done..]. destruct HR as (R & Len & _).
  intros lr Hlr. cbn [ops_labelReferences ops_labels ops_Out rset setter] in *.
  rewrite Forall_forall in R, W1. destruct (R lr Hlr) as (dest & Hd & Hrange & Hop & Hoff). destruct (W1 lr Hlr) as (Hp0 & Hp3 & _).
  pose proof (W3 _ _ Hd) as Hdl. cbn in Hdl. exists dest. split; [done|]. split; [lia|]. split; [lia|].
  set (ops := mkOpStream raw _ _ _ _ _ _). destruct (Bytes_prefix ops) as [pre Epre]. change (ops_Out ops) with raw in *.
  rewrite Epre. cbn zeta. replace (zlen (pre ++ raw) - zlen raw) with (zlen pre) by (rewrite zlen_app; lia).
  unfold branchOffset in *. rewrite <- !Z.add_assoc, !byteAt_app by lia. done.
Qed.

(** ** Literals mean what they say *)

Section Literals.
Variable computeID : Transaction -> Txid.
Variables sha256 keccak256 sha512_256 : bytes -> bytes.
Variable verifyMsg : bytes -> Digest -> bytes -> bytes -> bool.
Notation step := (step computeID sha256 keccak256 sha512_256 verifyMsg).

(** [code] occurs in the program at the program counter of a context about to run
    its next instruction. *)
Definition at_code (code : bytes) (cx : evalContext) : Prop :=
  exists pre post, cx_program cx = pre ++ code ++ post /\ cx_pc cx = zlen pre
    /\ cx_err cx = None /\ cx_nextpc cx = 0 /\ zlen (cx_stack cx) < MaxStackDepth.

(** The context after an instruction of [n] bytes and cost 1 that pushes [v]. *)
Definition pushed (v : stackValue) (n : Z) (cx : evalContext) : evalContext :=
  cx <| cx_stack ::= cons v |> <| cx_pc ::= λ pc, pc + n |> <| cx_cost ::= λ c, c + 1 |>.

Lemma at_code_byte code cx i b : at_code code cx -> code !! i = Some b -> byteAt (cx_program cx) (cx_pc cx + Z.of_nat i) = Ok b.
Proof.
  intros (pre & post & E & -> & _) Hb. rewrite E, byteAt_app by lia. unfold byteAt.
  rewrite (proj2 (Z.ltb_ge _ _)) by lia. by rewrite Nat2Z.id, (lookup_app_l_Some _ _ _ _ Hb).
Qed.
Lemma at_code_fits code cx : at_code code cx -> 0 <= cx_pc cx /\ cx_pc cx + zlen code <= zlen (cx_program cx).
Proof. intros (pre & post & -> & -> & _). rewrite !zlen_app. pose proof (zlen_nonneg post). pose proof (zlen_nonneg pre). lia. Qed.

(** An instruction that pushes one value. *)
Lemma step_push code opcode name op v cx : at_code code cx -> code !! 0%nat = Some opcode ->
  opSpecOf computeID sha256 keccak256 sha512_256 verifyMsg opcode = Some (mkOpSpec opcode name op []) ->
  oz_cost (opSizeOf name) = 1 -> oz_size (opSizeOf name) = zlen code ->
  (op (cx <| cx_cost ::= λ c, c + 1 |>) = Ok (push (cx <| cx_cost ::= λ c, c + 1 |>) v) /\ zlen code = 1
   \/ op (cx <| cx_cost ::= λ c, c + 1 |>) = Ok (advance (zlen code) (push (cx <| cx_cost ::= λ c, c + 1 |>) v)) /\ zlen code = 2) ->
  step cx = Ok (pushed v (zlen code) cx).
Proof.
  intros Hat H0 Hspec Hcost Hsize Hop. pose proof (at_code_byte _ _ 0 _ Hat H0) as Hb. rewrite Z.add_0_r in Hb.
  pose proof (at_code_fits _ _ Hat) as [Hpc Hfit]. destruct Hat as (pre & post & _ & _ & He & Hn & Hs).
  unfold Teal.step. rewrite Hb. cbn [mbind result_bind]. rewrite Hspec. cbn [os_Args os_Name os_op length].
  cbn [Nat.ltb Nat.leb]. unfold argsOk. cbn [length take zip negb forallb].
  unfold tooShort. rewrite Hsize, (proj2 (Z.ltb_ge _ _)) by lia. rewrite andb_false_r, Hcost.
  destruct cx as [prm stk prg pc nx er ic bc scr cost bt ph]. cbn in *. subst.
  assert (zlen (v :: stk) <= MaxStackDepth) as Hs' by (rewrite zlen_cons; lia).
  destruct Hop as [[-> ->]|[-> Hl]]; cbn; rewrite (proj2 (Z.ltb_ge _ _)) by done; cbn; [done|].
  unfold nextPC. cbn. rewrite (proj2 (Z.eqb_neq _ _)) by lia. done.
Qed.

Definition loads (code : bytes) (cx : evalContext) (v : stackValue) : Prop :=
  at_code code cx -> step cx = Ok (pushed v (zlen code) cx).

Ltac load_const i := eapply step_push with (code := [i]); [done|reflexivity|reflexivity..|left; split; [|done]].

Lemma Intc_correct i ops ops' : 0 <= i -> Intc i ops = (Ok tt, ops') ->
  exists code, ops_Out ops' = ops_Out ops ++ code /\ ops_intc ops' = ops_intc ops
    /\ forall cx v, cx_intc cx !! Z.to_nat i = Some v -> loads code cx (svInt v).
Proof.
  intros Hi H. unfold Intc in H. apply M_bind_Ok in H as ([] & s1 & H1 & [= <-]). cbn [ops_Out ops_intc rset setter].
  repeat match type of H1 with context [if ?a =? ?b then _ else _] => destruct (Z.eqb_spec a b) as [->|] end;
    [injection H1 as <-; cbn; eexists; split; [done|]; split; [done|]; intros cx v Hv Hat ..|].
  1: load_const 0x22. 2: load_const 0x23. 3: load_const 0x24. 4: load_const 0x25.
  1-4: unfold opIntConstN; cbn [cx_intc rset setter]; by rewrite Hv.
  destruct (Z.ltb_spec 0xff i); [discriminate|]. injection H1 as <-. cbn. eexists. split; [done|]. split; [done|].
  intros cx v Hv Hat. eapply step_push with (code := [0x21; i]); [done|reflexivity|reflexivity..|right; split; [|done]].
  unfold opIntConstLoad. cbn [cx_program cx_pc rset setter].
  pose proof (at_code_byte _ _ 1 i Hat eq_refl) as Hb. change (Z.of_nat 1) with 1 in Hb. rewrite Hb. cbn [mbind result_bind]. unfold opIntConstN. cbn [cx_intc rset setter].
  by rewrite Hv.
Qed.

Lemma Bytec_correct i ops ops' : 0 <= i -> Bytec i ops = (Ok tt, ops') ->
  exists code, ops_Out ops' = ops_Out ops ++ code /\ ops_bytec ops' = ops_bytec ops
    /\ forall cx v, cx_bytec cx !! Z.to_nat i = Some v -> loads code cx (svBytes v).
Proof.
  intros Hi H. unfold Bytec in H. apply M_bind_Ok in H as ([] & s1 & H1 & [= <-]). cbn [ops_Out ops_bytec rset setter].
  repeat match type of H1 with context [if ?a =? ?b then _ else _] => destruct (Z.eqb_spec a b) as [->|] end;
    [injection H1 as <-; cbn; eexists; split; [done|]; split; [done|]; intros cx v Hv Hat ..|].
  1: load_const 0x28. 2: load_const 0x29. 3: load_const 0x2a. 4: load_const 0x2b.
  1-4: unfold opByteConstN; cbn [cx_bytec rset setter]; by rewrite Hv.
  destruct (Z.ltb_spec 0xff i); [discriminate|]. injection H1 as <-. cbn. eexists. split; [done|]. split; [done|].
  intros cx v Hv Hat. eapply step_push with (code := [0x27; i]); [done|reflexivity|reflexivity..|right; split; [|done]].
  unfold opByteConstLoad. cbn [cx_program cx_pc rset setter].
  pose proof (at_code_byte _ _ 1 i Hat eq_refl) as Hb. change (Z.of_nat 1) with 1 in Hb. rewrite Hb. cbn [mbind result_bind]. unfold opByteConstN. cbn [cx_bytec rset setter].
  by rewrite Hv.
Qed.

(** Integer literals compile correctly.  The code [int v] emits, run by the
    interpreter with any constant table that extends the assembler's (the table the
    finished program starts with), pushes exactly [v] and moves to the next
    instruction, whether the constant was new or reused. *)
Theorem Uint_correct v ops ops' : Uint v ops = (Ok tt, ops') ->
  exists code, ops_Out ops' = ops_Out ops ++ code /\ ops_intc ops `prefix_of` ops_intc ops'
    /\ forall cx, ops_intc ops' `prefix_of` cx_intc cx -> at_code code cx ->
         step cx = Ok (pushed (svInt v) (zlen code) cx).
Proof.
  unfold Uint. intros H. apply M_bind_Ok in H as (o & s & [= <- <-] & H).
  destruct (list_find _ _) as [[i w]|] eqn:E.
  - apply list_find_Some in E as (Hi & -> & _). apply Intc_correct in H as (code & Ho & Hc & Hl); [|lia].
    exists code. rewrite Hc. split_and!; [done|done|]. intros cx Hp. apply Hl. rewrite Nat2Z.id. by eapply prefix_lookup_Some.
  - apply M_bind_Ok in H as ([] & s1 & [= <-] & H). apply Intc_correct in H as (code & Ho & Hc & Hl); [|apply zlen_nonneg].
    cbn in Ho, Hc. exists code. rewrite Hc. split_and!; [done|by apply prefix_app_r|]. intros cx Hp. apply Hl.
    eapply prefix_lookup_Some; [|exact Hp]. unfold zlen. rewrite Nat2Z.id. apply list_lookup_middle. done.
Qed.

(** Byte literals compile correctly, in the same sense. *)
Theorem ByteLiteral_correct v ops ops' : ByteLiteral v ops = (Ok tt, ops') ->
  exists code, ops_Out ops' = ops_Out ops ++ code /\ ops_bytec ops `prefix_of` ops_bytec ops'
    /\ forall cx, ops_bytec ops' `prefix_of` cx_bytec cx -> at_code code cx ->
         step cx = Ok (pushed (svBytes v) (zlen code) cx).
Proof.
  unfold ByteLiteral. intros H. apply M_bind_Ok in H as (o & s & [= <- <-] & H).
  destruct (list_find _ _) as [[i w]|] eqn:E.
  - apply list_find_Some in E as (Hi & -> & _). apply Bytec_correct in H as (code & Ho & Hc & Hl); [|lia].
    exists code. rewrite Hc. split_and!; [done|done|]. intros cx Hp. apply Hl. rewrite Nat2Z.id. by eapply prefix_lookup_Some.
  - apply M_bind_Ok in H as ([] & s1 & [= <-] & H). apply Bytec_correct in H as (code & Ho & Hc & Hl); [|apply zlen_nonneg].
    cbn in Ho, Hc. exists code. rewrite Hc. split_and!; [done|by apply prefix_app_r|]. intros cx Hp. apply Hl.
    eapply prefix_lookup_Some; [|exact Hp]. unfold zlen. rewrite Nat2Z.id. apply list_lookup_middle. done.
Qed.
End Literals.

(** ** Witnesses *)
Module AssemblerWitness.
Definition lines : list Line :=
  [LInt 7; LBnz "skip"; LOp "err"; LLabel "skip"; LByte [1; 2]; LOp "len"; LInt 2; LOp "=="].
Definition ops0 : OpStream := (assembleLines lines (OpStream_zero <| ops_Version := 1 |>)).2.

(** Assembled, checked and run. *)
Example assembled : assembleProgram lines = Ok
  [1; 0x20; 2; 7; 2; 0x26; 1; 2; 1; 2; 0x22; 0x40; 0; 1; 0x00; 0x28; 0x15; 0x23; 0x12].
Proof. vm_compute. reflexivity. Qed.
Example assembled_run : (r ← assembleProgram lines;
  logic_Eval TealWitness.id0 TealWitness.hash0 TealWitness.hash0 TealWitness.hash0 TealWitness.verify0 TealWitness.hash0
    r TealWitness.ep0) = Ok true.
Proof. vm_compute. reflexivity. Qed.

Lemma Bytes_constants_witness : exists vlen p1 p2, Uvarint (Bytes ops0) = (1, vlen)
    /\ parseIntcblock (Bytes ops0) vlen = Ok ([7; 2], p1) /\ parseBytecBlock (Bytes ops0) p1 = Ok ([[1; 2]], p2)
    /\ sliceFrom (Bytes ops0) p2 = Ok (ops_Out ops0).
Proof.
  destruct (Bytes_constants ops0) as (vlen & p1 & p2 & Hv & Hi & Hb & Ho);
    [vm_compute; reflexivity|vm_compute; reflexivity| |vm_compute; split; congruence|vm_compute; congruence|].
  - change (ops_intc ops0) with [7; 2]. constructor; [unfold u64; lia|constructor; [unfold u64; lia|constructor]].
  - exists vlen, p1, p2. split; [exact Hv|]. split; [exact (proj2 Hi)|]. split; [exact (proj2 Hb)|exact Ho].
Defined.

Lemma Uint_correct_witness : Uint 7 ops0 = (Ok tt, (Uint 7 ops0).2) /\ exists code, ops_Out (Uint 7 ops0).2 = ops_Out ops0 ++ code.
Proof.
  assert (Uint 7 ops0 = (Ok tt, (Uint 7 ops0).2)) as H by (vm_compute; reflexivity). split; [exact H|].
  destruct (Uint_correct TealWitness.id0 TealWitness.hash0 TealWitness.hash0 TealWitness.hash0 TealWitness.verify0 7 ops0 _ H)
    as (code & Ho & _). exists code. exact Ho.
Defined.

Lemma ByteLiteral_correct_witness :
  ByteLiteral [9] ops0 = (Ok tt, (ByteLiteral [9] ops0).2) /\ exists code, ops_Out (ByteLiteral [9] ops0).2 = ops_Out ops0 ++ code.
Proof.
  assert (ByteLiteral [9] ops0 = (Ok tt, (ByteLiteral [9] ops0).2)) as H by (vm_compute; reflexivity). split; [exact H|].
  destruct (ByteLiteral_correct TealWitness.id0 TealWitness.hash0 TealWitness.hash0 TealWitness.hash0 TealWitness.verify0 [9] ops0 _ H)
    as (code & Ho & _). exists code. exact Ho.
Defined.
End AssemblerWitness.
