(* ===== verification/Verify.v ===== *)
(** Verification of signed transactions (src/data/transactions/verify/txn.go).

    The execution pool is modelled by running the task it is given; the hash and
    signature primitives are the fields of [Crypto]. *)

From S2P Require Import Prelude Config Basics Transactions Bookkeeping Multisig Teal TealSpec.

(** What is signed: a transaction or a program ([crypto.Hashable]). *)
Inductive Hashable := HTxn (tx : Transaction) | HProgram (program : bytes).

(** The primitives outside the sources that are modelled. *)
Record Crypto := mkCrypto {
  cr_computeID : Transaction -> Txid;
  cr_sha256 : bytes -> bytes;
  cr_keccak256 : bytes -> bytes;
  cr_sha512_256 : bytes -> bytes;
  cr_verifyMsg : bytes -> Digest -> bytes -> bytes -> bool;  (* [SignatureVerifier.Verify] on a [logic.Msg] *)
  cr_hashProgram : bytes -> Digest;                          (* [HashObj(Program(p))] *)
  cr_Hash : bytes -> Digest;
  cr_Verify : bytes -> Hashable -> bytes -> bool             (* [SignatureVerifier.Verify] *)
}.

Section Verify.
Variable cr : Crypto.

Definition logicCheck : bytes -> EvalParams -> result Z :=
  logic_Check (cr_computeID cr) (cr_sha256 cr) (cr_keccak256 cr) (cr_sha512_256 cr) (cr_verifyMsg cr).
Definition logicEval : bytes -> EvalParams -> result bool :=
  logic_Eval (cr_computeID cr) (cr_sha256 cr) (cr_keccak256 cr) (cr_sha512_256 cr) (cr_verifyMsg cr) (cr_hashProgram cr).
Definition multisigVerify : Hashable -> Digest -> MultisigSig -> result bool := MultisigVerify (cr_Hash cr) (cr_Verify cr).

Definition sender (s : SignedTxn) : Address := hdr_Sender (tx_Header (stx_Txn s)).

(** [if ok, _ := MultisigVerify(...); ok] *)
Definition msigOk (msg : Hashable) (addr : Digest) (m : MultisigSig) : bool :=
  match multisigVerify msg addr m with Ok b => b | _ => false end.

Definition verify_LogicSig (lsig : LogicSig) (proto : ConsensusParams) (stxn : SignedTxn) : result unit :=
  _ ← guardR (negb (cp_LogicSigVersion proto =? 0)) (Errorf "LogicSig not enabled");
  _ ← guardR (negb (zlen (lsig_Logic lsig) =? 0)) (Errorf "LogicSig.Logic empty");
  let '(version, vlen) := Uvarint (lsig_Logic lsig) in
  _ ← guardR (negb (vlen <=? 0)) (Errorf "LogicSig.Logic bad version");
  _ ← guardR (negb (cp_LogicSigVersion proto <? version)) (Errorf "LogicSig.Logic version too new");
  _ ← guardR (negb (cp_LogicSigMaxSize proto <? lsig_Len lsig)) (Errorf "LogicSig.Logic too long");
  cost ← logicCheck (lsig_Logic lsig) (mkEvalParams (Some stxn) (Some proto) [] 0 0);
  _ ← guardR (negb (cp_LogicSigMaxCost proto <? cost)) (Errorf "LogicSig.Logic too slow");
  let hasSig := negb (bool_decide (lsig_Sig lsig = zero64)) in
  let hasMsig := negb (msig_Blank (lsig_Msig lsig)) in
  if negb hasSig && negb hasMsig then
    guardR (bool_decide (sender stxn = cr_hashProgram cr (lsig_Logic lsig)))
      (Errorf "LogicNot signed and not a Logic-only account")
  else if hasSig && hasMsig then Err (Errorf "LogicSig should only have one of Sig or Msig but has more than one")
  else if hasSig then
    guardR (cr_Verify cr (sender stxn) (HProgram (lsig_Logic lsig)) (lsig_Sig lsig))
      (Errorf "logic signature validation failed")
  else guardR (msigOk (HProgram (lsig_Logic lsig)) (sender stxn) (lsig_Msig lsig))
         (Errorf "logic multisig validation failed").

Definition stxnVerifyCore (s : SignedTxn) (proto : ConsensusParams) : result unit :=
  let hasSig := negb (bool_decide (stx_Sig s = zero64)) in
  let hasMsig := negb (msig_Blank (stx_Msig s)) in
  let hasLogicSig := negb (lsig_Blank (stx_Lsig s)) in
  let numSigs := Z.b2z hasSig + Z.b2z hasMsig + Z.b2z hasLogicSig in
  _ ← guardR (negb (numSigs =? 0)) (Errorf "signedtxn has no sig");
  _ ← guardR (negb (1 <? numSigs)) (Errorf "signedtxn should only have one of Sig or Msig or LogicSig");
  if hasSig then
    guardR (cr_Verify cr (sender s) (HTxn (stx_Txn s)) (stx_Sig s)) (Errorf "signature validation failed")
  else if hasMsig then
    guardR (msigOk (HTxn (stx_Txn s)) (sender s) (stx_Msig s)) (Errorf "multisig validation failed")
  else if hasLogicSig then verify_LogicSig (stx_Lsig s) proto s
  else Err (Errorf "has one mystery sig. WAT?").

Definition verify_Txn (s : SignedTxn) (spec : SpecialAddresses) (proto : ConsensusParams) : result unit :=
  _ ← WellFormed (stx_Txn s) spec proto;
  _ ← guardR (negb (bool_decide (sender s = zero32))) (Errorf "empty address");
  stxnVerifyCore s proto.

(** What the task leaves in the channel: an error, or [None] when it closes it. *)
Definition stxnAsyncVerify (s : SignedTxn) (proto : ConsensusParams) : result (option error) :=
  match stxnVerifyCore s proto with
  | Ok _ => Ok None
  | Err e => Ok (Some e)
  | Panic m => Panic m
  end.

Definition TxnPool (s : SignedTxn) (spec : SpecialAddresses) (proto : ConsensusParams) : result unit :=
  _ ← WellFormed (stx_Txn s) spec proto;
  _ ← guardR (negb (bool_decide (sender s = zero32))) (Errorf "empty address");
  out ← stxnAsyncVerify s proto;
  match out with Some e => Err e | None => Ok tt end.

Lemma TxnPool_Txn s spec proto : TxnPool s spec proto = verify_Txn s spec proto.
Proof.
  unfold TxnPool, verify_Txn, stxnAsyncVerify. destruct (WellFormed _ _ _); cbn; [|done..].
  destruct (guardR _ _); cbn; [|done..]. by destruct (stxnVerifyCore s proto) as [[]| |].
Qed.

(** ** Who authorised a transaction *)

(** The multisignature [m] shows that at least its threshold of the keys behind
    [addr] signed [msg]. *)
Definition quorum (msg : Hashable) (addr : Address) (m : MultisigSig) : Prop :=
  MultisigAddrGenWithSubsigs (cr_Hash cr) (msig_Version m) (msig_Threshold m) (subs m) = Ok addr
  /\ head (subs m) <> Some (mkMultisigSubsig zero32 zero64)
  /\ zlen (subs m) <= maxMultisig
  /\ (forall s, In s (present m) -> cr_Verify cr (ms_Key s) msg (ms_Sig s) = true)
  /\ 1 <= msig_Threshold m <= zlen (present m).

(** The program is accepted: enabled, small, and statically checked. *)
Definition program_ok (lsig : LogicSig) (proto : ConsensusParams) (s : SignedTxn) : Prop :=
  cp_LogicSigVersion proto <> 0 /\ lsig_Logic lsig <> []
  /\ 0 < (Uvarint (lsig_Logic lsig)).2 /\ (Uvarint (lsig_Logic lsig)).1 <= cp_LogicSigVersion proto
  /\ lsig_Len lsig <= cp_LogicSigMaxSize proto
  /\ exists cost, logicCheck (lsig_Logic lsig) (mkEvalParams (Some s) (Some proto) [] 0 0) = Ok cost
       /\ cost <= cp_LogicSigMaxCost proto.

(** The sender delegated to the program, or is the program's own account. *)
Inductive delegated (addr : Address) (lsig : LogicSig) : Prop :=
| dl_contract : lsig_Sig lsig = zero64 -> msig_Blank (lsig_Msig lsig) = true ->
    addr = cr_hashProgram cr (lsig_Logic lsig) -> delegated addr lsig
| dl_sig : lsig_Sig lsig <> zero64 -> msig_Blank (lsig_Msig lsig) = true ->
    cr_Verify cr addr (HProgram (lsig_Logic lsig)) (lsig_Sig lsig) = true -> delegated addr lsig
| dl_msig : lsig_Sig lsig = zero64 -> msig_Blank (lsig_Msig lsig) = false ->
    quorum (HProgram (lsig_Logic lsig)) addr (lsig_Msig lsig) -> delegated addr lsig.

Inductive authorised (s : SignedTxn) (proto : ConsensusParams) : Prop :=
| au_sig : stx_Sig s <> zero64 -> msig_Blank (stx_Msig s) = true -> lsig_Blank (stx_Lsig s) = true ->
    cr_Verify cr (sender s) (HTxn (stx_Txn s)) (stx_Sig s) = true -> authorised s proto
| au_msig : stx_Sig s = zero64 -> msig_Blank (stx_Msig s) = false -> lsig_Blank (stx_Lsig s) = true ->
    quorum (HTxn (stx_Txn s)) (sender s) (stx_Msig s) -> authorised s proto
| au_lsig : stx_Sig s = zero64 -> msig_Blank (stx_Msig s) = true -> lsig_Blank (stx_Lsig s) = false ->
    program_ok (stx_Lsig s) proto s -> delegated (sender s) (stx_Lsig s) -> authorised s proto.

Lemma msigOk_iff msg addr m : 0 <= msig_Threshold m -> msigOk msg addr m = true <-> quorum msg addr m.
Proof.
  intros Ht. pose proof (MultisigVerify_spec (cr_Hash cr) (cr_Verify cr) msg addr m Ht) as H.
  unfold msigOk, quorum. unfold multisigVerify. destruct (MultisigVerify _ _ _ _ _) as [[]| |]; naive_solver.
Qed.

Lemma verify_LogicSig_iff lsig proto s : 0 <= msig_Threshold (lsig_Msig lsig) ->
  verify_LogicSig lsig proto s = Ok tt <-> program_ok lsig proto s /\ delegated (sender s) lsig.
Proof.
  intros Ht. pose proof (msigOk_iff (HProgram (lsig_Logic lsig)) (sender s) (lsig_Msig lsig) Ht) as Hq.
  unfold verify_LogicSig, program_ok. destruct (Uvarint _) as [version vlen]. cbn [fst snd]. split.
  - intros H. inv_ok. bool_hyps. split.
    + split_and!; [lia| |lia|lia|lia|eexists; split; [done|lia]]. intros E. rewrite E in *. done.
    + destruct (bool_decide (lsig_Sig lsig = zero64)) eqn:E1, (msig_Blank _) eqn:E2; cbn in *; try discriminate;
        inv_ok; bool_hyps; [by apply dl_contract|apply dl_msig; tauto|by apply dl_sig].
  - intros [(H1 & H2 & H3 & H4 & H5 & cost & H6 & H7) Hd].
    rewrite (proj2 (Z.eqb_neq (cp_LogicSigVersion proto) 0)) by done.
    rewrite (proj2 (Z.eqb_neq (zlen (lsig_Logic lsig)) 0)) by (unfold zlen; by destruct (lsig_Logic lsig)).
    rewrite (proj2 (Z.leb_gt vlen 0)) by lia. rewrite (proj2 (Z.ltb_ge (cp_LogicSigVersion proto) version)) by lia.
    rewrite (proj2 (Z.ltb_ge (cp_LogicSigMaxSize proto) (lsig_Len lsig))) by lia. cbn [negb guardR mbind result_bind].
    rewrite H6. cbn [mbind result_bind]. rewrite (proj2 (Z.ltb_ge _ _)) by lia. cbn [negb guardR mbind result_bind].
    destruct Hd as [E1 E2 Ha|E1 E2 Ha|E1 E2 Ha]; rewrite ?E2.
    + rewrite !bool_decide_true by done. done.
    + rewrite bool_decide_false by done. cbn. by rewrite Ha.
    + rewrite bool_decide_true by done. cbn. by rewrite (proj2 Hq).
Qed.

(** C9: What a verified transaction proves.  [verify.Txn] (and [verify.TxnPool], run
    on a pool) accepts exactly the well-formed transactions with a non-zero sender
    that carry exactly one authorisation of that sender: its signature, a quorum of
    its multisignature keys, or a statically checked program that the sender signed
    (or whose hash the sender is). *)
Theorem Txn_authorised s spec proto :
  0 <= msig_Threshold (stx_Msig s) -> 0 <= msig_Threshold (lsig_Msig (stx_Lsig s)) ->
  TxnPool s spec proto = verify_Txn s spec proto /\
  (verify_Txn s spec proto = Ok tt <->
     WellFormed (stx_Txn s) spec proto = Ok tt /\ sender s <> zero32 /\ authorised s proto).
Proof.
  intros Ht Hl. split; [apply TxnPool_Txn|].
  pose proof (msigOk_iff (HTxn (stx_Txn s)) (sender s) (stx_Msig s) Ht) as Hq.
  pose proof (verify_LogicSig_iff (stx_Lsig s) proto s Hl) as HL.
  unfold verify_Txn, stxnVerifyCore. split.
  - intros H. inv_ok. match goal with H : WellFormed _ _ _ = Ok ?u |- _ => destruct u; rename H into HW end. bool_hyps.
    split_and!; [done..|].
    destruct (bool_decide (stx_Sig s = zero64)) eqn:E1, (msig_Blank (stx_Msig s)) eqn:E2, (lsig_Blank (stx_Lsig s)) eqn:E3;
      cbn in *; try lia; inv_ok; bool_hyps; [apply au_lsig|apply au_msig|apply au_sig]; tauto.
  - intros (HW & Hz & Ha). rewrite HW. cbn [mbind result_bind]. rewrite (bool_decide_eq_false_2 (sender s = zero32)) by done. cbn [negb guardR mbind result_bind].
    destruct Ha as [E1 E2 E3 H|E1 E2 E3 H|E1 E2 E3 H1 H2]; rewrite ?E2, ?E3.
    + rewrite bool_decide_false by done. cbn. by rewrite H.
    + rewrite bool_decide_true by done. cbn. by rewrite (proj2 Hq).
    + rewrite bool_decide_true by done. cbn. by apply HL.
Qed.

(** A verified program runs within its limits.  If [verify.Txn] accepted a
    transaction carrying a program, then evaluating that program under the same
    protocol, in any group and at any position, never ends with the cost limit
    exceeded, the loop detector, an illegal opcode or a truncated instruction. *)
Theorem verified_program_in_budget s spec proto params e :
  Forall is_byte (lsig_Logic (stx_Lsig s)) -> zlen (lsig_Logic (stx_Lsig s)) < 2 ^ 64 ->
  0 <= msig_Threshold (lsig_Msig (stx_Lsig s)) ->
  verify_Txn s spec proto = Ok tt -> lsig_Blank (stx_Lsig s) = false ->
  ep_Proto params = Some proto -> e ∈ loop_errors ->
  logicEval (lsig_Logic (stx_Lsig s)) params <> Err e.
Proof.
  intros Hb Hlen Ht H Hbl Hp He. unfold verify_Txn, stxnVerifyCore in H. inv_ok. rewrite Hbl in *.
  destruct (bool_decide (stx_Sig s = zero64)), (msig_Blank (stx_Msig s)); cbn in *; try discriminate.
  match goal with H : verify_LogicSig _ _ _ = _ |- _ => apply verify_LogicSig_iff in H as [(_ & _ & _ & _ & _ & cost & Hc & Hle) _]; [|done] end.
  unfold logicEval. eapply (check_bounds_eval (cr_computeID cr)) with (params := mkEvalParams (Some s) (Some proto) [] 0 0); [done..|reflexivity|done|exact Hc|done|done].
Qed.
End Verify.

(** ** Witnesses *)
Module VerifyWitness.
Definition crypto0 : Crypto := mkCrypto (λ _, zero32) (λ _, zero32) (λ _, zero32) (λ _, zero32) (λ _ _ _ _, true)
  (λ _, replicate 32 7) (λ b, b) (λ k m s, bool_decide (s = replicate 64 (default 0 (head k)))).
Definition blankMsig : MultisigSig := mkMultisigSig 0 0 None.
Definition hdr1 (snd : Address) : Header := mkHeader snd 1000 10 20 None "" zero32 zero32 zero32.
Definition pay1 (snd : Address) : Transaction :=
  mkTransaction PaymentTx (hdr1 snd) KeyregTxnFields_zero (mkPaymentTxnFields (replicate 32 9) 5 zero32)
    AssetConfigTxnFields_zero AssetTransferTxnFields_zero AssetFreezeTxnFields_zero zero32 false.
Definition spec1 : SpecialAddresses := mkSpecialAddresses (replicate 32 100) (replicate 32 101).
(** Signed by its sender; and sent by the account of the program [int 1]. *)
Definition stx1 : SignedTxn :=
  mkSignedTxn (replicate 64 3) blankMsig (mkLogicSig [] zero64 blankMsig []) (pay1 (replicate 32 3)) 0.
Definition stx2 : SignedTxn :=
  mkSignedTxn zero64 blankMsig (mkLogicSig [1; 0x20; 1; 1; 0x22] zero64 blankMsig []) (pay1 (replicate 32 7)) 0.

Lemma Txn_authorised_witness : verify_Txn crypto0 stx1 spec1 v19 = Ok tt /\ authorised crypto0 stx1 v19.
Proof.
  assert (verify_Txn crypto0 stx1 spec1 v19 = Ok tt) as H by (vm_compute; reflexivity). split; [exact H|].
  apply (Txn_authorised crypto0 stx1 spec1 v19); [cbn; lia|cbn; lia|exact H].
Defined.

Lemma verified_program_in_budget_witness :
  logicEval crypto0 (lsig_Logic (stx_Lsig stx2)) (mkEvalParams (Some stx2) (Some v19) [] 0 0) <> Err errCostTooHigh.
Proof.
  apply (verified_program_in_budget crypto0 stx2 spec1 v19 (mkEvalParams (Some stx2) (Some v19) [] 0 0) errCostTooHigh).
  - cbn. repeat constructor; unfold is_byte; lia.
  - vm_compute. reflexivity.
  - cbn. lia.
  - vm_compute. reflexivity.
  - vm_compute. reflexivity.
  - reflexivity.
  - right. left.
Defined.
End VerifyWitness.
