(* ===== verification/Eval.v ===== *)
(** Block evaluation (src/ledger/eval.go): [BlockEvaluator], transaction groups,
    generation and validation of blocks.

    The ledger below is the read-only interface [ledgerForEvaluator], a record of
    functions.  The cache of verified transactions is shared with the transaction
    pool: its state type [Cache] and operations are parameters, and it is threaded
    through every step, also the ones that fail.  The execution pool, logging and
    metrics have no effect on results.  The application behind [transactionSingle]
    is the parameter [CheckTx]; a cancelled context is the parameter [ctxErr]. *)

From S2P Require Import Prelude Config Basics Transactions TransactionsSpec Bookkeeping Totals Cow Multisig Teal TealSpec Verify.

Record ledgerForEvaluator := mkLedgerForEvaluator {
  lfe_GenesisHash : Digest;
  lfe_BlockHdr : Round -> result BlockHeader;
  lfe_Lookup : Round -> Address -> result AccountData;
  lfe_Totals : Round -> result AccountTotals;
  lfe_isDup : ConsensusParams -> Round -> Round -> Round -> Txid -> txlease -> result bool;
  lfe_LookupWithoutRewards : Round -> Address -> result AccountData;
  lfe_GetAssetCreatorForRound : Round -> AssetIndex -> result Address
}.

(** The methods of [VerifiedTxnCache]. *)
Record VerifiedTxnCache (Cache : Type) := mkVerifiedTxnCache {
  vc_Verified : Cache -> SignedTxn -> bool;
  vc_EvalOk : Cache -> string -> Txid -> bool * option error;
  vc_EvalRemember : Cache -> string -> Txid -> option error -> Cache
}.
Arguments vc_Verified {Cache}. Arguments vc_EvalOk {Cache}. Arguments vc_EvalRemember {Cache}.

(** What block evaluation uses of hashing and encoding. *)
Record Encoding := mkEncoding {
  en_hashHeader : BlockHeader -> Digest;
  en_Commit : bool -> list SignedTxnInBlock -> Digest;                (* [Payset.Commit] *)
  en_CommitProxy : bool -> list SignedSingleTxnInBlock -> Digest;     (* [PayProxySet.Commit] *)
  en_len : SignedTxnInBlock -> Z;                                     (* [len(protocol.Encode(txib))] *)
  en_lenSingle : SignedSingleTxnInBlock -> Z;
  en_hashGroup : list Digest -> Digest                                (* [HashObj(TxGroup)] *)
}.

Definition roundCowBase (l : ledgerForEvaluator) (rnd : Round) (txnCount : Z) (proto : ConsensusParams) : roundCowParent :=
  mkRoundCowParent (lfe_LookupWithoutRewards l rnd) (lfe_isDup l proto (wrap64 (rnd + 1))) txnCount
    (lfe_GetAssetCreatorForRound l rnd).

Record BlockEvaluator (Cache : Type) := mkBlockEvaluator {
  be_state : roundCowState;
  be_validate : bool;
  be_generate : bool;
  be_txcache : option Cache;   (* None: nil *)
  be_prevHeader : BlockHeader;
  be_proto : ConsensusParams;
  be_genesisHash : Digest;
  be_block : Block;
  be_blockTxBytes : Z;
  be_l : ledgerForEvaluator
}.
Arguments mkBlockEvaluator {Cache}. Arguments be_state {Cache}. Arguments be_validate {Cache}.
Arguments be_generate {Cache}. Arguments be_txcache {Cache}. Arguments be_prevHeader {Cache}.
Arguments be_proto {Cache}. Arguments be_genesisHash {Cache}. Arguments be_block {Cache}.
Arguments be_blockTxBytes {Cache}. Arguments be_l {Cache}.
#[export] Instance BlockEvaluator_eta Cache : Eta (BlockEvaluator Cache) := λ r,
  mkBlockEvaluator (be_state r) (be_validate r) (be_generate r) (be_txcache r) (be_prevHeader r) (be_proto r)
    (be_genesisHash r) (be_block r) (be_blockTxBytes r) (be_l r).

Definition BlockHeader_zero : BlockHeader :=
  mkBlockHeader 0 zero32 zero32 zero32 0 "" zero32 RewardsState_zero (mkUpgradeState "" "" 0 0 0) (mkUpgradeVote "" false) 0.

Record ValidatedBlock := mkValidatedBlock { vb_blk : Block; vb_delta : StateDelta }.

Definition WithSeed (vb : ValidatedBlock) (s : bytes) : ValidatedBlock :=
  mkValidatedBlock ((vb_blk vb) <| blk_BlockHeader ::= λ h, h <| bh_Seed := s |> |>) (vb_delta vb).

(** [fmt.Errorf("...: %v", err)] *)
Definition wrapErr {A} (msg : string) (r : result A) : result A :=
  match r with Ok a => Ok a | Err _ => Err (Errorf msg) | Panic m => Panic m end.
Definition wrapErrM {S A} (msg : string) (m : M S A) : M S A := λ s, let '(r, s') := m s in (wrapErr msg r, s').

(** The testnet constants of [workaroundOverspentRewards]. *)
Definition testnetGenesisHash : Digest :=
  [72; 99; 181; 24; 164; 179; 200; 78; 200; 16; 242; 45; 79; 16; 129; 203; 15; 113; 240; 89; 167; 172; 32; 222; 198; 47;
   127; 112; 229; 9; 58; 34].
Definition bankAddr : Address :=
  [48; 253; 204; 35; 27; 157; 140; 54; 9; 175; 127; 123; 177; 229; 239; 143; 150; 58; 72; 176; 114; 19; 82; 141; 239;
   189; 136; 109; 150; 174; 72; 132].

Definition workaroundOverspentRewards (genesisHash : Digest) (prevPool : Address) (rewardPoolBalance : BalanceRecord)
    (headerRound : Round) : M roundCowState BalanceRecord :=
  if negb (headerRound =? 1499995) && negb (headerRound =? 2926564) then mret rewardPoolBalance
  else if bool_decide (genesisHash <> testnetGenesisHash) then mret rewardPoolBalance
  else
    _ ← wrapErrM "unable to move funds from testnet bank to incentive pool" (Move bankAddr prevPool 20000000000 None None);
    Get prevPool true.

(** The end of [startEvaluator]: withdraw the rewards of the round from the pool. *)
Definition withdrawRewards (genesisHash : Digest) (prevHeader : BlockHeader) (proto : ConsensusParams)
    (prevTotals : AccountTotals) (hdrRound rewardsPerUnit : Z) : M roundCowState unit :=
  let poolAddr := bh_RewardsPool prevHeader in
  poolOld ← Get poolAddr true;
  poolOld ← workaroundOverspentRewards genesisHash poolAddr poolOld hdrRound;
  rewardUnits ← lift (at_RewardUnits prevTotals);
  let '(rewards, ot) := ot_Mul false rewardUnits rewardsPerUnit in
  let '(algos, ot) := ot_SubA ot (ad_MicroAlgos poolOld.2) rewards in
  _ ← guardE (negb ot) (Errorf "overflowed subtracting reward unit");
  _ ← Put (poolOld.1, poolOld.2 <| ad_MicroAlgos := algos |>);
  let '(_, ot) := ot_SubA ot algos (cp_MinBalance proto) in
  guardE (negb ot) (Errorf "overflowed subtracting rewards").

Section Eval.
Context {Cache : Type}.
Variable consensus : gmap string ConsensusParams.
Variable cr : Crypto.
Variable en : Encoding.
Variable vc : VerifiedTxnCache Cache.

Definition startEvaluator (l : ledgerForEvaluator) (hdr : BlockHeader) (validate generate : bool)
    (txcache : option Cache) : result (BlockEvaluator Cache) :=
  match consensus !! bh_CurrentProtocol hdr with
  | None => Err (ProtocolError (bh_CurrentProtocol hdr))
  | Some proto =>
    let rnd := wrap64 (bh_Round hdr - 1) in
    prevHeader ← (if 0 <? bh_Round hdr then wrapErr "can't evaluate block without previous header" (lfe_BlockHdr l rnd)
                  else Ok BlockHeader_zero);
    let base := roundCowBase l rnd (if 0 <? bh_Round hdr then bh_TxnCounter prevHeader else 0) proto in
    prevTotals ← lfe_Totals l (bh_Round prevHeader);
    incentivePoolData ← lfe_Lookup l (bh_Round prevHeader) (bh_RewardsPool prevHeader);
    blockHdr ← (if generate then
                  units ← at_RewardUnits prevTotals;
                  rs ← NextRewardsState (bh_RewardsState prevHeader) (bh_Round hdr) proto (ad_MicroAlgos incentivePoolData) units;
                  Ok ((if cp_SupportGenesisHash proto then hdr <| bh_GenesisHash := lfe_GenesisHash l |> else hdr)
                        <| bh_RewardsState := rs |>)
                else Ok hdr);
    _ ← (if validate then
           _ ← PreCheck consensus (en_hashHeader en) blockHdr prevHeader;
           units ← at_RewardUnits prevTotals;
           rs ← NextRewardsState (bh_RewardsState prevHeader) (bh_Round hdr) proto (ad_MicroAlgos incentivePoolData) units;
           _ ← guardR (bool_decide (bh_RewardsState blockHdr = rs)) (Errorf "bad rewards state");
           guardR (negb (cp_SupportGenesisHash proto && bool_decide (bh_GenesisHash blockHdr <> lfe_GenesisHash l)))
             (Errorf "wrong genesis hash")
         else Ok tt);
    let '(rewardsPerUnit, ot) := ot_Sub false (bh_RewardsLevel blockHdr) (bh_RewardsLevel prevHeader) in
    _ ← guardR (negb ot) (Errorf "overflowed subtracting rewards levels");
    match withdrawRewards (lfe_GenesisHash l) prevHeader proto prevTotals (bh_Round hdr) rewardsPerUnit
            (makeRoundCowState consensus base blockHdr) with
    | (Ok _, state) =>
      Ok (mkBlockEvaluator state validate generate txcache prevHeader proto (lfe_GenesisHash l) (mkBlock blockHdr [] []) 0 l)
    | (Err e, _) => Err e
    | (Panic m, _) => Panic m
    end
  end.

Definition ResetTxnBytes (eval : BlockEvaluator Cache) : BlockEvaluator Cache := eval <| be_blockTxBytes := 0 |>.

Definition be_hdr (eval : BlockEvaluator Cache) : BlockHeader := blk_BlockHeader (be_block eval).
Definition specOf (eval : BlockEvaluator Cache) : SpecialAddresses :=
  mkSpecialAddresses (bh_FeeSink (be_hdr eval)) (bh_RewardsPool (be_hdr eval)).
(** The block as a [TxnContext]. *)
Definition txnContext (eval : BlockEvaluator Cache) : TxnContext :=
  mkTxnContext (bh_Round (be_hdr eval)) (protoOf consensus (bh_CurrentProtocol (be_hdr eval)))
    (bh_GenesisID (be_hdr eval)) (bh_GenesisHash (be_hdr eval)).
Definition leaseOf (tx : Transaction) : txlease := (hdr_Sender (tx_Header tx), hdr_Lease (tx_Header tx)).
Definition txID (txn : SignedTxn) : Txid := ID (cr_computeID cr) (stx_Txn txn).
Definition hasGroup (txn : SignedTxn) : bool := bool_decide (groupOf txn <> zero32).

Definition checkDup (txn : SignedTxn) (cow : roundCowState) : result unit :=
  let h := stx_Header txn in
  dup ← isDup cow (hdr_FirstValid h) (hdr_LastValid h) (txID txn) (leaseOf (stx_Txn txn));
  guardR (negb dup) (TransactionInLedgerError (txID txn)).

Definition testTransaction (eval : BlockEvaluator Cache) (txn : SignedTxn) (cow : roundCowState) : result unit :=
  _ ← guardR (negb (hasGroup txn && negb (cp_SupportTxGroups (be_proto eval)))) (Errorf "transaction groups not supported");
  _ ← Alive (stx_Header txn) (txnContext eval);
  _ ← wrapErr "transaction malformed" (WellFormed (stx_Txn txn) (specOf eval) (be_proto eval));
  checkDup txn cow.

(** [HashObj] of a member with its group field cleared. *)
Definition memberHash (txn : SignedTxn) : Digest :=
  cr_computeID cr (ResetCaches ((stx_Txn txn) <| tx_Header ::= λ h, h <| hdr_Group := zero32 |> |>)).

(** The group checks on one member: same group as the first, and its hash. *)
Definition groupMember (first : Digest) (n : nat) (txn : SignedTxn) : result (list Digest) :=
  _ ← guardR (bool_decide (groupOf txn = first)) (Errorf "transactionGroup: inconsistent group values");
  if hasGroup txn then Ok [memberHash txn]
  else if (1 <? n)%nat then Err (Errorf "transactionGroup: had zero Group but was submitted in a group")
  else Ok [].
Definition checkComplete (first : Digest) (hashes : list Digest) : result unit :=
  match hashes with
  | [] => Ok tt
  | _ => guardR (bool_decide (first = en_hashGroup en hashes)) (Errorf "transactionGroup: incomplete group")
  end.

Fixpoint testMembers (eval : BlockEvaluator Cache) (cow : roundCowState) (first : Digest) (n : nat)
    (l : list SignedTxn) : result (list Digest) :=
  match l with
  | [] => Ok []
  | txn :: l =>
    _ ← testTransaction eval txn cow;
    h ← groupMember first n txn;
    hs ← testMembers eval cow first n l;
    Ok (h ++ hs)
  end.

Definition TestTransactionGroup (eval : BlockEvaluator Cache) (txgroup : list SignedTxn) : result unit :=
  match txgroup with
  | [] => Ok tt
  | txn0 :: _ =>
    _ ← guardR (negb (cp_MaxTxGroupSize (be_proto eval) <? zlen txgroup)) (Errorf "group size exceeds maximum");
    hashes ← testMembers eval (child (be_state eval)) (groupOf txn0) (length txgroup) txgroup;
    checkComplete (groupOf txn0) hashes
  end.

Definition checkLogicSig (eval : BlockEvaluator Cache) (txn : SignedTxn) (txgroup : list SignedTxnWithAD) (groupIndex : Z)
    : result unit :=
  let firstValid := hdr_FirstValid (stx_Header txn) in
  _ ← guardR (negb (firstValid =? 0)) (Errorf "LogicSig does not work with FirstValid==0");
  hdr ← wrapErr "could not fetch BlockHdr for FirstValid-1" (lfe_BlockHdr (be_l eval) (firstValid - 1));
  _ ← guardR (negb (bh_TimeStamp hdr <? 0)) (Errorf "cannot evaluate LogicSig before 1970");
  pass ← wrapErr "rejected by logic err"
           (logicEval cr (lsig_Logic (stx_Lsig txn)) (mkEvalParams (Some txn) (Some (be_proto eval)) txgroup groupIndex (bh_TimeStamp hdr)));
  guardR pass (Errorf "rejected by logic").

(** ** One transaction

    The state of a step: the child the group runs on, and the cache. *)
Definition txSt : Type := roundCowState * option Cache.
Definition onCow {A} (m : M roundCowState A) : M txSt A := λ '(cow, c), let '(r, cow') := m cow in (r, (cow', c)).

(** [needCheckLsig]: the cached verdict, or an evaluation that is remembered. *)
Definition runLogicSig (eval : BlockEvaluator Cache) (txn : SignedTxn) (txgroup : list SignedTxnWithAD) (groupIndex : Z)
    : M txSt unit := λ '(cow, c),
  if lsig_Blank (stx_Lsig txn) then (Ok tt, (cow, c))
  else match c with
       | None => (Panic "nil pointer dereference", (cow, c))
       | Some cache =>
         let '(found, txErr) := vc_EvalOk vc cache (bh_CurrentProtocol (be_hdr eval)) (txID txn) in
         match found, txErr with
         | true, None => (Ok tt, (cow, c))
         | true, Some e => (Err e, (cow, c))
         | false, _ =>
           match checkLogicSig eval txn txgroup groupIndex with
           | Ok _ => (Ok tt, (cow, Some (vc_EvalRemember vc cache (bh_CurrentProtocol (be_hdr eval)) (txID txn) None)))
           | Err e => (Err e, (cow, c))
           | Panic m => (Panic m, (cow, c))
           end
         end
       end.

Definition verifyTxn (eval : BlockEvaluator Cache) (txn : SignedTxn) (c : option Cache) : result unit :=
  if match c with None => true | Some cache => negb (vc_Verified vc cache txn) end
  then wrapErr "failed to verify" (TxnPool cr txn (specOf eval) (be_proto eval)) else Ok tt.

(** The checks made when [eval.validate]. *)
Definition validateTxn (eval : BlockEvaluator Cache) (txn : SignedTxn) (txgroup : list SignedTxnWithAD) (groupIndex : Z)
    : M txSt unit :=
  s ← get;
  _ ← lift (Alive (stx_Header txn) (txnContext eval));
  _ ← lift (checkDup txn s.1);
  _ ← lift (wrapErr "transaction malformed" (WellFormed (stx_Txn txn) (specOf eval) (be_proto eval)));
  _ ← lift (verifyTxn eval txn s.2);
  _ ← guardE (negb (hasGroup txn && negb (cp_SupportTxGroups (be_proto eval)))) (Errorf "transaction groups not supported");
  runLogicSig eval txn txgroup groupIndex.

Definition checkApplyData (eval : BlockEvaluator Cache) (ad applyData : ApplyData) : result unit :=
  if be_validate eval && negb (be_generate eval) then
    if cp_ApplyData (be_proto eval) then guardR (bool_decide (ad = applyData)) (Errorf "applyData mismatch")
    else guardR (bool_decide (ad = ApplyData_zero)) (Errorf "applyData not supported")
  else Ok tt.

(** The MinBalance check on one modified account. *)
Definition effectiveMinBalance (proto : ConsensusParams) (d : AccountData) : Z :=
  MulSaturate (cp_MinBalance proto) (1 + Z.of_nat (size (asmap (ad_Assets d)))).
Definition checkMinBalance (eval : BlockEvaluator Cache) (cow : roundCowState) (addr : Address) : result unit :=
  if bool_decide (addr = sa_FeeSink (specOf eval)) || bool_decide (addr = sa_RewardsPool (specOf eval)) then Ok tt
  else
    data ← lookup cow addr;
    if IsZero data then Ok tt
    else
      dataNew ← WithUpdatedRewards data (be_proto eval) (rewardsLevel cow);
      guardR (negb (ad_MicroAlgos dataNew <? effectiveMinBalance (be_proto eval) dataNew)) (Errorf "balance below min").
Fixpoint checkMinBalances (eval : BlockEvaluator Cache) (cow : roundCowState) (l : list Address) : result unit :=
  match l with
  | [] => Ok tt
  | addr :: l => _ ← checkMinBalance eval cow addr; checkMinBalances eval cow l
  end.

Definition transaction (eval : BlockEvaluator Cache) (txn : SignedTxn) (ad : ApplyData) (txgroup : list SignedTxnWithAD)
    (groupIndex : Z) : M txSt SignedTxnInBlock :=
  _ ← (if be_validate eval then validateTxn eval txn txgroup groupIndex else mret tt);
  s ← get;
  applyData ← wrapErrM "transaction" (onCow (Apply (stx_Txn txn) (specOf eval) (txnCounter s.1)));
  _ ← lift (checkApplyData eval ad applyData);
  txib ← lift (EncodeSignedTxn consensus (be_hdr eval) txn applyData);
  s ← get;
  _ ← lift (checkMinBalances eval s.1 (modifiedAccounts s.1));
  _ ← onCow (λ cow, (Ok tt, addTx (cr_computeID cr) (stx_Txn txn) cow));
  mret txib.

(** ** Groups *)

(** The loop of [transactionGroup]: the encoded transactions, the member hashes and
    the bytes used. *)
Fixpoint groupLoop (eval : BlockEvaluator Cache) (txgroup : list SignedTxnWithAD) (first : Digest) (gi : Z) (bytes : Z)
    (l : list SignedTxnWithAD) : M txSt (list SignedTxnInBlock * list Digest * Z) :=
  match l with
  | [] => mret ([], [], bytes)
  | txad :: l =>
    txib ← transaction eval (sad_SignedTxn txad) (sad_ApplyData txad) txgroup gi;
    let bytes := if be_validate eval then bytes + en_len en txib else bytes in
    _ ← guardE (negb (be_validate eval && (cp_MaxTxnBytesPerBlock (be_proto eval) <? be_blockTxBytes eval + bytes))) ErrNoSpace;
    h ← lift (groupMember first (length txgroup) (sad_SignedTxn txad));
    r ← groupLoop eval txgroup first (gi + 1) bytes l;
    mret (txib :: r.1.1, h ++ r.1.2, r.2)
  end.

Definition transactionGroup (txgroup : list SignedTxnWithAD) (remember : bool) : M (BlockEvaluator Cache) unit := λ eval,
  match txgroup with
  | [] => (Ok tt, eval)
  | txad0 :: _ =>
    if cp_MaxTxGroupSize (be_proto eval) <? zlen txgroup then (Err (Errorf "group size exceeds maximum"), eval)
    else
      let first := groupOf (sad_SignedTxn txad0) in
      let '(r, (cow, cache)) := groupLoop eval txgroup first 0 0 txgroup (child (be_state eval), be_txcache eval) in
      let eval := eval <| be_txcache := cache |> in
      match r with
      | Err e => (Err e, eval)
      | Panic m => (Panic m, eval)
      | Ok (txibs, hashes, groupTxBytes) =>
        match checkComplete first hashes with
        | Err e => (Err e, eval)
        | Panic m => (Panic m, eval)
        | Ok _ =>
          (Ok tt,
           if remember then
             eval <| be_block ::= λ b, b <| blk_Payset ::= λ p, p ++ txibs |> |>
                  <| be_blockTxBytes ::= λ n, n + groupTxBytes |>
                  <| be_state ::= commitToParent cow |>
           else eval)
        end
      end
  end.

Definition Transaction_ (txn : SignedTxn) (ad : ApplyData) : M (BlockEvaluator Cache) unit :=
  transactionGroup [mkSignedTxnWithAD txn ad] true.
Definition TransactionGroup (txads : list SignedTxnWithAD) : M (BlockEvaluator Cache) unit := transactionGroup txads true.

(** Application transactions of the fork. *)
Definition transactionSingle (CheckTx : bytes -> bool) (tx : bytes) (remember : bool) : M (BlockEvaluator Cache) unit := λ eval,
  let cow := child (be_state eval) in
  if negb (CheckTx tx) then (Err (Errorf "proxy app check tx not valid"), eval)
  else
    let txsib := mkSignedSingleTxnInBlock tx true true in
    let groupTxBytes := if be_validate eval then en_lenSingle en txsib else 0 in
    if be_validate eval && (cp_MaxTxnBytesPerBlock (be_proto eval) <? be_blockTxBytes eval + groupTxBytes)
    then (Err ErrNoSpace, eval)
    else (Ok tt, if remember then
                   eval <| be_block ::= λ b, b <| blk_PayProxySet ::= λ p, p ++ [txsib] |> |>
                        <| be_blockTxBytes ::= λ n, n + groupTxBytes |>
                        <| be_state ::= commitToParent cow |>
                 else eval).

(** ** Blocks *)

Definition expectedTxnCount (eval : BlockEvaluator Cache) : Z :=
  if cp_TxnCounter (be_proto eval) then txnCounter (be_state eval) else 0.
Definition setRoot (eval : BlockEvaluator Cache) (root : Digest) : BlockEvaluator Cache :=
  eval <| be_block ::= λ b, b <| blk_BlockHeader ::= λ h, h <| bh_TxnRoot := root |>
                                                            <| bh_TxnCounter := expectedTxnCount eval |> |> |>.
Definition paysetRoot (eval : BlockEvaluator Cache) : Digest :=
  en_Commit en (cp_PaysetCommitFlat (be_proto eval)) (blk_Payset (be_block eval)).
Definition proxyRoot (eval : BlockEvaluator Cache) : Digest :=
  en_CommitProxy en (cp_PaysetCommitFlat (be_proto eval)) (blk_PayProxySet (be_block eval)).

Definition endOfBlock (eval : BlockEvaluator Cache) : BlockEvaluator Cache :=
  if be_generate eval then setRoot eval (paysetRoot eval) else eval.
Definition endOfProxyBlock (eval : BlockEvaluator Cache) : BlockEvaluator Cache :=
  if be_generate eval then setRoot eval (proxyRoot eval) else eval.

Definition checkCommitments (eval : BlockEvaluator Cache) (txnRoot : Digest) : result unit :=
  _ ← guardR (bool_decide (txnRoot = bh_TxnRoot (be_hdr eval))) (Errorf "txn root wrong");
  guardR (bh_TxnCounter (be_hdr eval) =? expectedTxnCount eval) (Errorf "txn count wrong").
Definition finalValidation (eval : BlockEvaluator Cache) : result unit :=
  if be_validate eval then checkCommitments eval (paysetRoot eval) else Ok tt.
Definition finalProxyValidation (eval : BlockEvaluator Cache) : result unit :=
  if be_validate eval then checkCommitments eval (proxyRoot eval) else Ok tt.

Definition GenerateBlock (eval : BlockEvaluator Cache) : result ValidatedBlock :=
  if negb (be_generate eval) then Panic "GenerateBlock() called but generate is false"
  else
    let eval := endOfBlock eval in
    _ ← finalValidation eval;
    Ok (mkValidatedBlock (be_block eval) (rcs_mods (be_state eval))).
Definition GenerateProxyBlock (eval : BlockEvaluator Cache) : result ValidatedBlock :=
  if negb (be_generate eval) then Panic "GenerateBlock() called but generate is false"
  else
    let eval := endOfProxyBlock eval in
    _ ← finalProxyValidation eval;
    Ok (mkValidatedBlock (be_block eval) (rcs_mods (be_state eval))).

(** The loop over the groups of a block; [ctxErr i] is the error of the context at
    the [i]-th poll. *)
Fixpoint evalGroups (ctxErr : nat -> option error) (i : nat) (groups : list (list SignedTxnWithAD))
    : M (BlockEvaluator Cache) unit :=
  match groups with
  | [] => mret tt
  | g :: groups =>
    match ctxErr i with
    | Some e => throw e
    | None => _ ← TransactionGroup g; evalGroups ctxErr (S i) groups
    end
  end.

Definition ledger_eval (l : ledgerForEvaluator) (ctxErr : nat -> option error) (blk : Block) (validate : bool)
    (txcache : option Cache) : result StateDelta :=
  eval ← startEvaluator l (blk_BlockHeader blk) validate false txcache;
  paysetgroups ← DecodePaysetGroups consensus blk;
  match evalGroups ctxErr 0 paysetgroups eval with
  | (Ok _, eval) =>
    let eval := endOfBlock eval in
    _ ← (if validate then finalValidation eval else Ok tt);
    Ok (rcs_mods (be_state eval))
  | (Err e, _) => Err e
  | (Panic m, _) => Panic m
  end.

Definition Validate (l : ledgerForEvaluator) (ctxErr : nat -> option error) (blk : Block) (txcache : option Cache)
    : result ValidatedBlock :=
  delta ← ledger_eval l ctxErr blk true txcache;
  Ok (mkValidatedBlock blk delta).
End Eval.
