(* ===== verification/EvalSpec.v ===== *)
(** Properties of block evaluation: the money supply, the minimum balance and the
    transaction identifiers of a block under construction or validation. *)

From S2P Require Import Prelude Config Basics Transactions TransactionsSpec Bookkeeping BookkeepingSpec Totals Cow Multisig Teal TealSpec Verify Eval.

(** ** What a transaction leaves alone

    Operations on a [roundCowState] go through [Put] and [Move]: they keep the
    parent, the parameters, the header and the transactions recorded, never forget
    a modified account, and record as old data what the parent holds. *)

Definition olds_ok (cs : roundCowState) : Prop :=
  forall a e, sd_accts (rcs_mods cs) !! a = Some e -> rcp_lookup (rcs_lookupParent cs) a = Ok (acd_old e).

Record frame (s s' : roundCowState) : Prop := {
  fr_parent : rcs_lookupParent s' = rcs_lookupParent s;
  fr_proto : rcs_proto s' = rcs_proto s;
  fr_hdr : sd_hdr (rcs_mods s') = sd_hdr (rcs_mods s);
  fr_txids : sd_Txids (rcs_mods s') = sd_Txids (rcs_mods s);
  fr_leases : sd_txleases (rcs_mods s') = sd_txleases (rcs_mods s);
  fr_dom : dom (sd_accts (rcs_mods s)) ⊆ dom (sd_accts (rcs_mods s'));
  fr_olds : olds_ok s -> olds_ok s'
}.
#[export] Instance frame_refl : Reflexive frame.
Proof. by split. Qed.
#[export] Instance frame_trans : Transitive frame.
Proof. intros a b c [] []. split; try congruence; [set_solver|auto]. Qed.

Definition framed {A} (m : M roundCowState A) : Prop := forall s r s', m s = (r, s') -> frame s s'.

Lemma framed_ret {A} (a : A) : framed (mret a).
Proof. by intros s r s' [= <- <-]. Qed.
Lemma framed_lift {A} (r : result A) : framed (lift r).
Proof. by intros s r' s' [= <- <-]. Qed.
Lemma framed_throw {A} e : framed (throw (A := A) e).
Proof. by intros s r' s' [= <- <-]. Qed.
Lemma framed_get : framed get.
Proof. by intros s r' s' [= <- <-]. Qed.
Lemma framed_guard b e : framed (guardE b e).
Proof. destruct b; [apply framed_ret|apply framed_throw]. Qed.
Lemma framed_bind {A B} (m : M roundCowState A) (f : A -> M roundCowState B) :
  framed m -> (forall a, framed (f a)) -> framed (m ≫= f).
Proof.
  intros Hm Hf s r s' H. unfold mbind, M_bind in H. destruct (m s) as [[a|e|p] s1] eqn:E; apply Hm in E.
  - etrans; [done|by eapply Hf].
  - by injection H as _ <-.
  - by injection H as _ <-.
Qed.
Lemma framed_ignore {A} (m : M roundCowState A) a : framed m -> framed (ignore_err m a).
Proof.
  intros Hm s r s' H. unfold ignore_err in H. destruct (m s) as [[]] eqn:E; apply Hm in E; by injection H as _ <-.
Qed.
Lemma framed_Get a b : framed (bal_Get a b).
Proof. by intros s r s' [= <- <-]. Qed.
Lemma framed_creator i : framed (bal_GetAssetCreator i).
Proof. by intros s r s' [= <- <-]. Qed.
Lemma framed_params : framed the_params.
Proof. by intros s r s' [= <- <-]. Qed.

Lemma frame_put a old new s : lookup s a = Ok old -> frame s (cow_put a old new s).
Proof.
  intros Hl. split; try done; cbn; [rewrite dom_insert; set_solver|].
  intros Ho x e. cbn. rewrite lookup_insert. case_decide as Ex; [|apply Ho]. subst x. intros [= <-].
  unfold lookup in Hl. destruct (sd_accts (rcs_mods s) !! a) as [pe|] eqn:E; cbn; [by apply Ho|done].
Qed.
Lemma framed_Put rec : framed (bal_Put rec).
Proof.
  intros s r s' H. cbn in H. unfold Put in H. destruct (lookup s rec.1) eqn:E; injection H as _ <-; [|done..].
  by apply frame_put.
Qed.
Lemma framed_put_after {B} a old new (f : unit -> M roundCowState B) s r s' :
  lookup s a = Ok old -> (forall u, framed (f u)) -> (putM a old new ≫= f) s = (r, s') -> frame s s'.
Proof.
  intros Hl Hf H. unfold mbind, M_bind, putM in H. etrans; [by apply frame_put|]. by eapply Hf.
Qed.
Lemma framed_Move from to amt fr tr : framed (bal_Move from to amt fr tr).
Proof.
  intros s r s' H. cbn in H. unfold Move in H. unfold mbind at 1, M_bind at 1, get at 1 in H. cbn beta iota in H.
  unfold mbind at 1, M_bind at 1, lift at 1 in H. destruct (lookup s from) as [fb| |] eqn:E1; [|by injection H as _ <-..].
  unfold mbind at 1, M_bind at 1, lift at 1 in H. destruct (WithUpdatedRewards fb _ _); [|by injection H as _ <-..].
  unfold mbind at 1, M_bind at 1, lift at 1 in H. destruct (trackRewards fr _ _); [|by injection H as _ <-..].
  destruct (OSubA _ _) as [x o]. unfold mbind at 1, M_bind at 1, guardE at 1 in H. destruct (negb o); [|by injection H as _ <-].
  cbn [mret M_ret] in H. eapply framed_put_after in H; [done|done|]. intros _.
  intros s1 r1 s1' H1. clear H. unfold mbind at 1, M_bind at 1, get at 1 in H1. cbn beta iota in H1.
  unfold mbind at 1, M_bind at 1, lift at 1 in H1. destruct (lookup s1 to) as [tb| |] eqn:E2; [|by injection H1 as _ <-..].
  revert H1. unfold mbind at 1, M_bind at 1, lift at 1. destruct (WithUpdatedRewards tb _ _); [|by intros [= _ <-]..].
  unfold mbind at 1, M_bind at 1, lift at 1. destruct (trackRewards tr _ _); [|by intros [= _ <-]..].
  destruct (OAddA _ _) as [y o2]. unfold mbind at 1, M_bind at 1, guardE at 1. destruct (negb o2); [|by intros [= _ <-]].
  cbn [mret M_ret]. intros H1. eapply framed_put_after in H1; [done|done|]. intros _. apply framed_ret.
Qed.

Create HintDb framed.
#[local] Hint Resolve framed_ret framed_lift framed_throw framed_get framed_guard framed_Get framed_creator framed_params
  framed_Put framed_Move : framed.
Ltac framed_tac := repeat match goal with
  | |- framed (_ ≫= _) => apply framed_bind; [|intros ?]
  | |- framed (ignore_err _ _) => apply framed_ignore
  | |- framed (if ?b then _ else _) => destruct b
  | |- framed (match ?x with _ => _ end) => destruct x
  | |- framed _ => solve [auto 1 with framed nocore]
  end.

Lemma framed_getParams i : framed (getParams i).
Proof. unfold getParams. framed_tac. Qed.
Lemma framed_takeOut a i n b : framed (takeOut a i n b).
Proof. unfold takeOut. framed_tac. Qed.
Lemma framed_putIn a i n b : framed (putIn a i n b).
Proof. unfold putIn. framed_tac. Qed.
#[local] Hint Resolve framed_getParams framed_takeOut framed_putIn : framed.

Lemma framed_Apply tx spec ctr : framed (Apply tx spec ctr).
Proof.
  unfold Apply, apply_type, payment_apply, payment_close, keyreg_apply, assetConfig_apply, assetConfig_create,
    assetTransfer_apply, transfer_source, transfer_optin, transfer_close, assetFreeze_apply. framed_tac.
Qed.

(** ** Successful steps *)

Lemma wrapErr_Ok {A} m (r : result A) a : wrapErr m r = Ok a <-> r = Ok a.
Proof. destruct r; cbn; naive_solver. Qed.
Lemma wrapErrM_Ok {S A} msg (m : M S A) s a s' : wrapErrM msg m s = (Ok a, s') <-> m s = (Ok a, s').
Proof.
  unfold wrapErrM. destruct (m s) as [r s1]. split; [intros [= H%wrapErr_Ok ->]; by subst|by intros [= -> ->]].
Qed.

Section Steps.
Context {Cache : Type}.
Variable consensus : gmap string ConsensusParams.
Variable cr : Crypto.
Variable en : Encoding.
Variable vc : VerifiedTxnCache Cache.
Notation BlockEvaluator := (BlockEvaluator Cache).
Notation txID := (txID cr).
Implicit Types eval : BlockEvaluator.

Lemma onCow_Ok {A} (m : M roundCowState A) (s s' : txSt (Cache := Cache)) a : onCow m s = (Ok a, s') <-> m s.1 = (Ok a, s'.1) /\ s'.2 = s.2.
Proof.
  destruct s as [cow c], s' as [cow' c']. unfold onCow. cbn. destruct (m cow) as [r cow1].
  split; [by intros [= -> -> ->]|by intros [[= -> ->] ->]].
Qed.

(** What validation established of a transaction before it was applied. *)
Record vetted eval (txn : SignedTxn) (cow : roundCowState) : Prop := {
  vt_alive : Alive (stx_Header txn) (txnContext consensus eval) = Ok tt;
  vt_new : isDup cow (hdr_FirstValid (stx_Header txn)) (hdr_LastValid (stx_Header txn)) (txID txn)
             (leaseOf (stx_Txn txn)) = Ok false;
  vt_formed : WellFormed (stx_Txn txn) (specOf eval) (be_proto eval) = Ok tt;
  vt_signed : exists c, verifyTxn cr vc eval txn c = Ok tt
}.

Lemma runLogicSig_cow eval txn g gi (s s' : txSt (Cache := Cache)) u : runLogicSig cr vc eval txn g gi s = (Ok u, s') -> s'.1 = s.1.
Proof.
  destruct s as [cow c]. unfold runLogicSig. intros H. destruct (lsig_Blank _); [by injection H as _ <-|].
  destruct c as [cache|]; [|done]. destruct (vc_EvalOk vc cache _ _) as [[] [e|]]; [done|by injection H as _ <-|..];
    (destruct (checkLogicSig cr eval txn g gi); [by injection H as _ <-|done..]).
Qed.

Lemma validateTxn_Ok eval txn g gi (s s' : txSt (Cache := Cache)) u : validateTxn consensus cr vc eval txn g gi s = (Ok u, s') ->
  s'.1 = s.1 /\ vetted eval txn s.1.
Proof.
  unfold validateTxn, checkDup. intros H. inv_ok.
  repeat match goal with u : unit |- _ => destruct u end.
  match goal with H : runLogicSig _ _ _ _ _ _ _ = _ |- _ => apply runLogicSig_cow in H end.
  match goal with H : wrapErr _ _ = Ok _ |- _ => apply wrapErr_Ok in H end.
  match goal with H : negb ?b = true, H2 : isDup _ _ _ _ _ = Ok ?b |- _ => apply negb_true_iff in H; subst b end.
  split; [done|]. split; eauto.
Qed.

(** One transaction of a group, from [cow] to [cow']. *)
Inductive txn_step eval (txad : SignedTxnWithAD) (cow cow' : roundCowState) (txib : SignedTxnInBlock) : Prop :=
| txn_step_intro cow1 apd :
    (be_validate eval = true -> vetted eval (sad_SignedTxn txad) cow) ->
    Apply (stx_Txn (sad_SignedTxn txad)) (specOf eval) (txnCounter cow) cow = (Ok apd, cow1) ->
    checkApplyData eval (sad_ApplyData txad) apd = Ok tt ->
    EncodeSignedTxn consensus (be_hdr eval) (sad_SignedTxn txad) apd = Ok txib ->
    checkMinBalances eval cow1 (modifiedAccounts cow1) = Ok tt ->
    cow' = addTx (cr_computeID cr) (stx_Txn (sad_SignedTxn txad)) cow1 ->
    txn_step eval txad cow cow' txib.

Lemma transaction_Ok eval txad g gi (s s' : txSt (Cache := Cache)) txib :
  transaction consensus cr vc eval (sad_SignedTxn txad) (sad_ApplyData txad) g gi s = (Ok txib, s') ->
  txn_step eval txad s.1 s'.1 txib.
Proof.
  unfold transaction. intros H. inv_ok.
  match goal with H : wrapErrM _ _ _ = _ |- _ => apply wrapErrM_Ok, onCow_Ok in H as [Ha _] end.
  match goal with H : onCow _ _ = _ |- _ => apply onCow_Ok in H as [Hadd _]; injection Hadd as Hadd end.
  repeat match goal with u : unit |- _ => destruct u end.
  match goal with H : (if be_validate eval then _ else _) _ = (_, ?s1) |- _ =>
    assert (s1.1 = s.1 /\ (be_validate eval = true -> vetted eval (sad_SignedTxn txad) s.1)) as [E Hv];
    [destruct (be_validate eval); [apply validateTxn_Ok in H; tauto|by injection H as <-]|] end.
  rewrite E in *. by econstructor.
Qed.

(** A group run on its own state. *)
Inductive runs eval : list SignedTxnWithAD -> roundCowState -> roundCowState -> list SignedTxnInBlock -> Prop :=
| runs_nil cow : runs eval [] cow cow []
| runs_cons txad l cow cow1 cow' txib txibs :
    txn_step eval txad cow cow1 txib -> runs eval l cow1 cow' txibs -> runs eval (txad :: l) cow cow' (txib :: txibs).

Lemma groupLoop_runs eval g first : forall l gi bytes (s s' : txSt (Cache := Cache)) r,
  groupLoop consensus cr en vc eval g first gi bytes l s = (Ok r, s') -> runs eval l s.1 s'.1 r.1.1.
Proof.
  induction l as [|txad l IH]; intros gi bytes s s' r H; cbn [groupLoop] in H.
  { injection H as <- <-. constructor. }
  inv_ok. cbn [fst snd]. econstructor; [by eapply transaction_Ok|]. by eapply IH.
Qed.

(** The evaluator after a remembered group. *)
Definition remembered eval (cow : roundCowState) (txibs : list SignedTxnInBlock) (n : Z) (c : option Cache) : BlockEvaluator :=
  (eval <| be_txcache := c |>) <| be_block ::= λ b, b <| blk_Payset ::= λ p, p ++ txibs |> |>
    <| be_blockTxBytes ::= λ m, m + n |> <| be_state ::= commitToParent cow |>.

(** A group is all or nothing: either the evaluator is as before but for the shared
    cache, or the whole group ran on a child that was then committed. *)
Lemma transactionGroup_cases g rem eval r eval' : transactionGroup consensus cr en vc g rem eval = (r, eval') ->
  (exists c, eval' = eval <| be_txcache := c |>) \/
  (exists cow txibs n c, rem = true /\ r = Ok tt /\ runs eval g (child (be_state eval)) cow txibs
     /\ eval' = remembered eval cow txibs n c).
Proof.
  unfold transactionGroup. intros H.
  assert (eval = eval <| be_txcache := be_txcache eval |>) as Hid by (by destruct eval).
  destruct g as [|txad0 g']; [injection H as _ <-; eauto|].
  destruct (_ <? _); [injection H as _ <-; eauto|].
  destruct (groupLoop _ _ _ _ _ _ _ _ _ _ _) as [lr [cow c]] eqn:E.
  destruct lr as [[[txibs hashes] n]| |]; [|injection H as _ <-; eauto..].
  apply groupLoop_runs in E. cbn in E.
  destruct (checkComplete _ _ _); [|injection H as _ <-; eauto..].
  injection H as <- <-. destruct rem; [|eauto]. right. exists cow, txibs, n, c. done.
Qed.

(** ** Runs of an evaluator

    Everything done with an evaluator after it was started: groups that are
    remembered, with the transactions they add, and calls that fail, are only
    tried, or concern application transactions, the byte count, and the cache, which
    others share. *)
Inductive be_trace : BlockEvaluator -> list SignedTxn -> BlockEvaluator -> Prop :=
| bt_nil eval : be_trace eval [] eval
| bt_group g eval eval1 txs eval' :
    TransactionGroup consensus cr en vc g eval = (Ok tt, eval1) -> be_trace eval1 txs eval' ->
    be_trace eval ((sad_SignedTxn <$> g) ++ txs) eval'
| bt_failed g rem r eval eval1 txs eval' :
    transactionGroup consensus cr en vc g rem eval = (r, eval1) -> is_ok r && rem = false -> be_trace eval1 txs eval' ->
    be_trace eval txs eval'
| bt_single CheckTx tx rem r eval eval1 txs eval' :
    transactionSingle en CheckTx tx rem eval = (r, eval1) -> be_trace eval1 txs eval' -> be_trace eval txs eval'
| bt_reset eval txs eval' : be_trace (ResetTxnBytes eval) txs eval' -> be_trace eval txs eval'
| bt_cache c eval txs eval' : be_trace (eval <| be_txcache := c |>) txs eval' -> be_trace eval txs eval'.

Lemma trace_app eval txs eval1 txs' eval' : be_trace eval txs eval1 -> be_trace eval1 txs' eval' -> be_trace eval (txs ++ txs') eval'.
Proof.
  induction 1; intros HT; [done|rewrite <- app_assoc; by eapply bt_group; eauto|by eapply bt_failed; eauto|by eapply bt_single; eauto
    |by apply bt_reset; eauto|by eapply bt_cache; eauto].
Qed.

(** What no step changes. *)
Record same_env eval eval' : Prop := {
  se_validate : be_validate eval' = be_validate eval;
  se_generate : be_generate eval' = be_generate eval;
  se_prev : be_prevHeader eval' = be_prevHeader eval;
  se_proto : be_proto eval' = be_proto eval;
  se_hdr : be_hdr eval' = be_hdr eval;
  se_l : be_l eval' = be_l eval
}.
#[local] Instance same_env_refl : Reflexive same_env.
Proof. by split. Qed.
#[local] Instance same_env_trans : Transitive same_env.
Proof. intros a b c [] []. split; congruence. Qed.

Lemma commit_child cs : commitToParent (child cs) cs = cs.
Proof.
  destruct cs as [pa pr [a t ls i h]]. unfold commitToParent, child. cbn. rewrite !map_empty_union. do 2 f_equal.
  unfold mergeAccts. apply map_eq. intros x. rewrite lookup_merge, lookup_empty. unfold diag_None. by destruct (a !! x).
Qed.

(** Steps that add nothing: the state, the parameters and the payset stay. *)
Definition idle eval eval' : Prop :=
  same_env eval eval' /\ be_state eval' = be_state eval /\ blk_Payset (be_block eval') = blk_Payset (be_block eval).

Lemma single_idle CheckTx tx rem r eval eval' : transactionSingle en CheckTx tx rem eval = (r, eval') -> idle eval eval'.
Proof.
  unfold transactionSingle. intros H. destruct (negb (CheckTx tx)); [by injection H as _ <-|].
  destruct (_ && _); [by injection H as _ <-|]. injection H as _ <-. destruct rem; [|done].
  unfold idle. cbn. by rewrite commit_child.
Qed.

(** Induction over a run: a property of evaluators that idle steps keep and that
    remembered groups keep. *)
Lemma trace_ind (P : BlockEvaluator -> list SignedTxn -> BlockEvaluator -> Prop) :
  (forall eval, P eval [] eval) ->
  (forall eval eval1 txs eval', idle eval eval1 -> be_trace eval1 txs eval' -> P eval1 txs eval' -> P eval txs eval') ->
  (forall g eval cow txibs n c txs eval', runs eval g (child (be_state eval)) cow txibs ->
     be_trace (remembered eval cow txibs n c) txs eval' ->
     P (remembered eval cow txibs n c) txs eval' -> P eval ((sad_SignedTxn <$> g) ++ txs) eval') ->
  forall eval txs eval', be_trace eval txs eval' -> P eval txs eval'.
Proof.
  intros H0 Hidle Hrem eval txs eval' HT. induction HT as [eval|g eval eval1 txs eval' H HT IH|g rem r eval eval1 txs eval' H Hr HT IH
    |CheckTx tx rem r eval eval1 txs eval' H HT IH|eval txs eval' HT IH|c eval txs eval' HT IH].
  - apply H0.
  - unfold TransactionGroup in H. pose proof H as [(c & ->)|(cow & txibs & n & c & _ & _ & Hruns & ->)]%transactionGroup_cases.
    + destruct g as [|txad g']; [|exfalso].
      { cbn. eapply Hidle, IH; [|done]. done. }
      unfold transactionGroup in H. destruct (_ <? _); [done|]. destruct (groupLoop _ _ _ _ _ _ _ _ _ _ _) as [lr [cow c']] eqn:E.
      destruct lr as [[[txibs hs] n]| |]; [|done..]. destruct (checkComplete _ _ _); [|done..].
      apply groupLoop_runs in E. apply (f_equal (λ x, length (blk_Payset (be_block x.2)))) in H. cbn in H.
      rewrite length_app in H. cbn [fst snd] in E. inversion E; subst. cbn in H. lia.
    + by eapply Hrem.
  - pose proof H as [(c & ->)|(cow & txibs & n & c & -> & -> & _)]%transactionGroup_cases; [|done].
    eapply Hidle, IH; done.
  - apply single_idle in H. by eapply Hidle.
  - eapply Hidle, IH; done.
  - eapply Hidle, IH; done.
Qed.

Lemma trace_env eval txs eval' : be_trace eval txs eval' -> same_env eval eval'.
Proof.
  apply (trace_ind (λ eval _ eval', same_env eval eval')); clear.
  - done.
  - intros eval eval1 txs eval' [H _] _ H2. by etrans.
  - intros g eval cow txibs n c txs eval' _ _ H. etrans; [|exact H]. done.
Qed.

(** ** Runs of a group *)

Lemma txn_step_frame eval txad cow cow' txib : txn_step eval txad cow cow' txib ->
  rcs_lookupParent cow' = rcs_lookupParent cow /\ rcs_proto cow' = rcs_proto cow /\
  sd_hdr (rcs_mods cow') = sd_hdr (rcs_mods cow) /\ dom (sd_accts (rcs_mods cow)) ⊆ dom (sd_accts (rcs_mods cow')) /\
  (olds_ok cow -> olds_ok cow').
Proof.
  intros [cow1 apd _ [F1 F2 F3 F4 F5 F6 F7]%framed_Apply _ _ _ ->]. split_and!; try done. 
Qed.

Lemma runs_frame eval l cow cow' txibs : runs eval l cow cow' txibs ->
  rcs_lookupParent cow' = rcs_lookupParent cow /\ rcs_proto cow' = rcs_proto cow /\
  sd_hdr (rcs_mods cow') = sd_hdr (rcs_mods cow) /\ dom (sd_accts (rcs_mods cow)) ⊆ dom (sd_accts (rcs_mods cow')) /\
  (olds_ok cow -> olds_ok cow').
Proof.
  induction 1 as [|txad l cow cow1 cow' txib txibs H _ (I1 & I2 & I3 & I4 & I5)]; [done|].
  apply txn_step_frame in H as (F1 & F2 & F3 & F4 & F5). split_and!; [congruence..|set_solver|auto].
Qed.

Lemma child_view cs x : cow_view (child cs) x = cow_view cs x.
Proof. unfold cow_view, child. unfold lookup at 1. cbn. by rewrite lookup_empty. Qed.

Lemma commit_view eval g cow txibs x : runs eval g (child (be_state eval)) cow txibs ->
  cow_view (commitToParent cow (be_state eval)) x = cow_view cow x.
Proof. intros (F & _)%runs_frame. unfold cow_view. by rewrite lookup_commit. Qed.

(** ** Money *)

(** The transactions only concern accounts of [D], with amounts in range. *)
Definition txn_in (spec : SpecialAddresses) (D : list Address) (txn : SignedTxn) : Prop :=
  wf_txn (stx_Txn txn) /\ RelevantAddrs (stx_Txn txn) spec ⊆ D.

Lemma runs_total eval D l cow cow' txibs : NoDup D -> runs eval l cow cow' txibs -> good cow ->
  Forall (txn_in (specOf eval) D) (sad_SignedTxn <$> l) ->
  good cow' /\ total (rcs_proto cow) (rewardsLevel cow) (cow_view cow') D = total (rcs_proto cow) (rewardsLevel cow) (cow_view cow) D.
Proof.
  intros Hnd. induction 1 as [|txad l cow cow1 cow' txib txibs H _ IH]; intros Hg HF; [done|].
  cbn in HF. apply Forall_cons in HF as [[Hw HD] HF]. pose proof (txn_step_frame _ _ _ _ _ H) as (_ & Fp & Fh & _ & _).
  destruct H as [cow0 apd _ Ha _ _ _ ->].
  pose proof (apply_total _ _ _ _ _ _ D Hg Hw Hnd HD Ha) as Ht. destruct (apply_good _ _ _ _ _ _ Hg Hw Ha) as [Hg0 _].
  destruct IH as [Hg' Ht']; [destruct Hg0; by split|done|]. split; [done|].
  unfold rewardsLevel in *. rewrite Fp, Fh in Ht'. etrans; [exact Ht'|exact Ht].
Qed.

Lemma good_child cs : good cs -> good (child cs).
Proof. intros [W L U]. split; [|done|done]. intros a d. cbn. rewrite child_view. apply W. Qed.

Lemma trace_total eval txs eval' D : be_trace eval txs eval' -> NoDup D -> good (be_state eval) ->
  Forall (txn_in (specOf eval) D) txs ->
  good (be_state eval') /\ rcs_proto (be_state eval') = rcs_proto (be_state eval) /\
  rewardsLevel (be_state eval') = rewardsLevel (be_state eval) /\
  total (rcs_proto (be_state eval)) (rewardsLevel (be_state eval)) (cow_view (be_state eval')) D =
  total (rcs_proto (be_state eval)) (rewardsLevel (be_state eval)) (cow_view (be_state eval)) D.
Proof.
  intros HT Hnd. revert eval txs eval' HT. apply (trace_ind (λ eval txs eval', good (be_state eval) -> Forall (txn_in (specOf eval) D) txs ->
    good (be_state eval') /\ rcs_proto (be_state eval') = rcs_proto (be_state eval) /\
    rewardsLevel (be_state eval') = rewardsLevel (be_state eval) /\
    total (rcs_proto (be_state eval)) (rewardsLevel (be_state eval)) (cow_view (be_state eval')) D =
    total (rcs_proto (be_state eval)) (rewardsLevel (be_state eval)) (cow_view (be_state eval)) D)).
  - done.
  - intros eval eval1 txs eval' ([_ _ _ _ Eh _] & Es & _) _ IH. unfold specOf in *. rewrite Es, Eh in IH. exact IH.
  - intros g eval cow txibs n c txs eval' HR _ IH Hg HF. apply Forall_app in HF as [HF1 HF2].
    destruct (runs_total eval D _ _ _ _ Hnd HR (good_child _ Hg) HF1) as [[W L U] Ht].
    pose proof (runs_frame _ _ _ _ _ HR) as (_ & Fp & Fh & _ & _). cbn in Fp, Fh.
    cbn [be_state remembered rset setter] in IH. destruct IH as (G' & P' & L' & T').
    + split; cbn; [|apply (good_level _ Hg)|apply (good_unit _ Hg)]. intros a d. rewrite (commit_view _ _ _ _ _ HR). apply W.
    + done.
    + split_and!; [done|done|done|]. etrans; [exact T'|]. cbn. etrans; [|etrans; [exact Ht|]].
      * apply sumZ_ext. intros a _. by rewrite (commit_view _ _ _ _ _ HR).
      * apply sumZ_ext. intros a _. by rewrite child_view.
Qed.

(** Moving every account to a new rewards level. *)
Lemma total_level p lvl lvl' V D : total p lvl' V D = total p lvl V D +
  (sum_of Online (rawUnits p) V D + sum_of Offline (rawUnits p) V D) * (lvl' - lvl).
Proof. rewrite !total_split, !(sum_of_level p lvl lvl'). repeat case_decide; try done. lia. Qed.

Lemma at_RewardUnits_Ok p lvl V D t n : totals_repr p lvl V D t -> u64 (ac_RewardUnits (at_Online t)) ->
  u64 (ac_RewardUnits (at_Offline t)) -> at_RewardUnits t = Ok n ->
  n = sum_of Online (rawUnits p) V D + sum_of Offline (rawUnits p) V D.
Proof.
  intros [_ _ Ru] H1 H2 H. unfold at_RewardUnits in H. rewrite OAdd_spec in H by done.
  destruct (_ <? _); [|done]. injection H as <-. by rewrite <- (Ru Online), <- (Ru Offline).
Qed.

(** The state the ledger answers with, before the block. *)
Definition base_view (l : ledgerForEvaluator) (rnd : Round) : View := λ a,
  match lfe_LookupWithoutRewards l rnd a with Ok d => Some d | _ => None end.

Lemma start_view b hdr x : cow_view (makeRoundCowState consensus b hdr) x =
  match rcp_lookup b x with Ok d => Some d | _ => None end.
Proof. unfold cow_view, lookup, makeRoundCowState. cbn. by rewrite lookup_empty. Qed.

(** The laws of the interface, for the methods of [roundCowState]. *)
Lemma cow_Get_Ok a s r s' : Get a true s = (Ok r, s') ->
  s' = s /\ exists d, cow_view s a = Some d /\ r.1 = a /\ WithUpdatedRewards d (rcs_proto s) (rewardsLevel s) = Ok r.2.
Proof. exact (Get_Ok (S := roundCowState) a true s r s'). Qed.
Lemma cow_Put_Ok a d s s' : Put (a, d) s = (Ok tt, s') ->
  env_eq s s' /\ forall x, cow_view s' x = fupd (cow_view s) a (Some d) x.
Proof. exact (Put_Ok (S := roundCowState) a d tt s s'). Qed.

(** The pool's record after the hot fix (or without it): up to date, and no money
    appeared or vanished. *)
Lemma workaround_spec gh pool d d' rnd cs cs1 r D : good cs -> NoDup D -> pool ∈ D -> bankAddr ∈ D ->
  cow_view cs pool = Some d -> WithUpdatedRewards d (rcs_proto cs) (rewardsLevel cs) = Ok d' ->
  workaroundOverspentRewards gh pool (pool, d') rnd cs = (Ok r, cs1) ->
  exists d1, cow_view cs1 pool = Some d1 /\ r.1 = pool /\ WithUpdatedRewards d1 (rcs_proto cs) (rewardsLevel cs) = Ok r.2
    /\ good cs1 /\ env_eq cs cs1
    /\ total (rcs_proto cs) (rewardsLevel cs) (cow_view cs1) D = total (rcs_proto cs) (rewardsLevel cs) (cow_view cs) D.
Proof.
  intros Hg Hnd Hp Hb Hd Hd' H. unfold workaroundOverspentRewards in H.
  destruct (_ && _); [injection H as <- <-; by exists d|].
  case_bool_decide; [injection H as <- <-; by exists d|].
  apply M_bind_Ok in H as (rr & cs2 & Hm%wrapErrM_Ok & H).
  apply cow_Get_Ok in H as (-> & d1 & Hd1 & Hr1 & Hu).
  assert (u64 20000000000) as Hu64 by (unfold u64; lia).
  pose proof (good_move (S := roundCowState) _ _ _ _ _ _ _ _ Hu64 Hg Hm) as Hg2.
  pose proof (Move_Ok (S := roundCowState) _ _ _ _ _ _ _ _ Hm) as [[E1 E2] Hpost].
  cbn in E1, E2, Hu. rewrite E1, E2 in Hu. exists d1. split_and!; try done.
  destruct Hg as [W L U]. exact (move_total _ _ U L _ _ _ _ _ D W Hu64 Hnd Hb Hp Hpost).
Qed.

Lemma withdraw_total gh prev p t rnd rpu n cs cs' D : let pool := bh_RewardsPool prev in
  good cs -> NoDup D -> pool ∈ D -> bankAddr ∈ D -> at_RewardUnits t = Ok n -> u64 n -> u64 rpu ->
  withdrawRewards gh prev p t rnd rpu cs = (Ok tt, cs') ->
  good cs' /\ env_eq cs cs' /\
  total (rcs_proto cs) (rewardsLevel cs) (cow_view cs') D =
  total (rcs_proto cs) (rewardsLevel cs) (cow_view cs) D - n * rpu.
Proof.
  intros pool Hg Hnd Hp Hb Hn Hn64 Hr64 H. unfold withdrawRewards in H. fold pool in H.
  apply M_bind_Ok in H as (rec & cs0 & HG & H). apply cow_Get_Ok in HG as (-> & d & Hd & Hr1 & Hd').
  destruct rec as [? d']. cbn in Hr1, Hd'. subst. cbn in Hd.
  apply M_bind_Ok in H as (r & cs1 & Hw & H).
  eapply workaround_spec in Hw as (d1 & Hd1 & E1 & Hu1 & Hg1 & [HE1 HE2] & Ht); [|done..].
  apply M_bind_Ok in H as (n' & cs2 & Hn' & H). unfold lift in Hn'. injection Hn' as Hn' <-. rewrite Hn in Hn'. injection Hn' as <-.
  destruct (ot_Mul false n rpu) as [rewards ot] eqn:Emul. unfold ot_Mul in Emul. rewrite OMul_spec in Emul by done.
  destruct (ot_SubA ot (ad_MicroAlgos r.2) rewards) as [algos ot2] eqn:Esub.
  apply M_bind_Ok in H as ([] & cs3 & HG & H). apply guardE_Ok in HG as [Hot ->]. apply negb_true_iff in Hot. subst ot2.
  apply M_bind_Ok in H as ([] & cs4 & HP & H). destruct (ot_SubA false algos _) as [? ot3]. apply guardE_Ok in H as [_ ->].
  destruct r as [? d1']. cbn [fst snd] in E1, Hu1, Esub, HP. subst.
  pose proof Hg1 as [W L U]. cbn in W, L, U. cbn in HE1, HE2.
  pose proof (W _ _ Hd1) as Wd1. rewrite <- HE1, <- HE2 in Hu1. pose proof (updated_base _ _ U L _ _ Wd1 Hu1) as Base.
  apply (WithUpdatedRewards_Ok d1 (rcs_proto cs1) (rewardsLevel cs1)) in Hu1 as (Ha & Hm & Wd1' & _ & _ & _); [|done..].
  destruct (Z.ltb_spec (n * rpu) (2 ^ 64)); [|injection Emul as <- <-; unfold ot_SubA, ot_Sub in Esub; by destruct (OSub (ad_MicroAlgos d1') 0)].
  injection Emul as <- <-. unfold ot_SubA, ot_Sub in Esub.
  assert (u64 (n * rpu)) by (unfold u64 in *; nia).
  rewrite OSub_spec in Esub by (done || apply Wd1'). destruct (Z.leb_spec (n * rpu) (ad_MicroAlgos d1')); [|done].
  injection Esub as <-.
  apply cow_Put_Ok in HP as [[E3 E4] HV]. cbn in E3, E4.
  split; [|split; [split; cbn; congruence|]].
  - eapply (good_env cs1); [done| |done]. eapply wfV_fupd; [exact W| |exact HV].
    apply wf_set_algos; [done|]. destruct Wd1' as [[]]. unfold u64 in *. lia.
  - rewrite (total_fupd _ _ _ _ D pool d1 _ Hnd Hp Hd1 HV), Ht, <- HE1, <- HE2.
    rewrite set_algos_money by done. rewrite Ha, <- Hm in *. lia.
Qed.

(** What a started evaluator is. *)
Record started (l : ledgerForEvaluator) (hdr : BlockHeader) (v g : bool) (t : AccountTotals) (rpu : Z) eval : Prop := {
  sv_proto : consensus !! bh_CurrentProtocol hdr = Some (be_proto eval);
  sv_flags : be_validate eval = v /\ be_generate eval = g /\ be_l eval = l;
  sv_totals : lfe_Totals l (bh_Round (be_prevHeader eval)) = Ok t;
  sv_hdr : bh_UpgradeState (be_hdr eval) = bh_UpgradeState hdr /\ bh_Round (be_hdr eval) = bh_Round hdr;
  sv_payset : blk_Payset (be_block eval) = [];
  sv_rpu : OSub (bh_RewardsLevel (be_hdr eval)) (bh_RewardsLevel (be_prevHeader eval)) = (rpu, false);
  sv_counter : rcp_txnCounter (rcs_lookupParent (be_state eval)) =
    if 0 <? bh_Round hdr then bh_TxnCounter (be_prevHeader eval) else 0;
  sv_state : exists cnt, withdrawRewards (lfe_GenesisHash l) (be_prevHeader eval) (be_proto eval) t (bh_Round hdr) rpu
    (makeRoundCowState consensus (roundCowBase l (wrap64 (bh_Round hdr - 1)) cnt (be_proto eval)) (be_hdr eval))
    = (Ok tt, be_state eval);
  sv_valid : v = true -> PreCheck consensus (en_hashHeader en) (be_hdr eval) (be_prevHeader eval) = Ok tt
}.

Lemma framed_wrapErrM {A} msg (m : M roundCowState A) : framed m -> framed (wrapErrM msg m).
Proof. intros Hm s r s' H. unfold wrapErrM in H. destruct (m s) eqn:E. injection H as _ <-. by eapply Hm. Qed.
Lemma framed_cowGet a b : framed (Get a b).
Proof. apply (framed_Get a b). Qed.
Lemma framed_cowMove from to amt fr tr : framed (Move from to amt fr tr).
Proof. apply (framed_Move from to amt fr tr). Qed.
Lemma framed_cowPut rec : framed (Put rec).
Proof. apply (framed_Put rec). Qed.
#[local] Hint Resolve framed_wrapErrM framed_cowGet framed_cowMove framed_cowPut : framed.

Lemma framed_withdraw gh prev p t rnd rpu : framed (withdrawRewards gh prev p t rnd rpu).
Proof.
  unfold withdrawRewards, workaroundOverspentRewards.
  repeat (framed_tac; match goal with |- framed (wrapErrM _ _) => apply framed_wrapErrM end).
Qed.

Lemma startEvaluator_Ok l hdr v g c eval : startEvaluator consensus en l hdr v g c = Ok eval ->
  exists t rpu, started l hdr v g t rpu eval.
Proof.
  unfold startEvaluator. intros H. destruct (consensus !! _) as [proto|] eqn:Ec; [|done].
  apply result_bind_Ok in H as (prev & Hprev & H). apply result_bind_Ok in H as (t & Ht & H).
  apply result_bind_Ok in H as (pd & Hpd & H). apply result_bind_Ok in H as (bh & Hbh & H).
  apply result_bind_Ok in H as ([] & Hv & H).
  destruct (ot_Sub false _ _) as [rpu ot] eqn:Es. apply result_bind_Ok in H as ([] & Hg & H). apply guardR_Ok, negb_true_iff in Hg. subst ot.
  destruct (withdrawRewards _ _ _ _ _ _ _) as [[[]| |] st] eqn:Ew; [|done..]. injection H as <-.
  assert (bh_UpgradeState bh = bh_UpgradeState hdr /\ bh_Round bh = bh_Round hdr) as Hh.
  { destruct g; [|by injection Hbh as <-]. apply result_bind_Ok in Hbh as (n & _ & Hbh).
    apply result_bind_Ok in Hbh as (rs & _ & [= <-]). by destruct (cp_SupportGenesisHash proto). }
  exists t, rpu. split; try done.
  - cbn. rewrite (fr_parent _ _ (framed_withdraw _ _ _ _ _ _ _ _ _ Ew)). done.
  - eexists. exact Ew.
  - intros ->. apply result_bind_Ok in Hv as ([] & HPC & _). exact HPC.
Qed.

(** C6: A block conserves the money supply.  Start an evaluator on a ledger whose
    totals are the sums over the accounts of [D], and run any sequence of groups,
    failing or remembered, and application transactions.  The sum of the effective
    balances at the block's rewards level equals the sum before the block at the
    previous level: the rewards all accounts gain are exactly what the incentive
    pool pays. *)
Theorem block_conserves_money l hdr v g c eval0 txs eval D t :
  let lvl := bh_RewardsLevel (be_prevHeader eval0) in
  let V0 := base_view l (wrap64 (bh_Round hdr - 1)) in
  startEvaluator consensus en l hdr v g c = Ok eval0 -> be_trace eval0 txs eval ->
  lfe_Totals l (bh_Round (be_prevHeader eval0)) = Ok t -> totals_repr (be_proto eval0) lvl V0 D t ->
  u64 (ac_RewardUnits (at_Online t)) -> u64 (ac_RewardUnits (at_Offline t)) ->
  wfV V0 -> 0 < cp_RewardUnit (be_proto eval0) -> u64 lvl -> u64 (bh_RewardsLevel (be_hdr eval0)) ->
  NoDup D -> bh_RewardsPool (be_prevHeader eval0) ∈ D -> bankAddr ∈ D -> Forall (txn_in (specOf eval0) D) txs ->
  total (be_proto eval0) (bh_RewardsLevel (be_hdr eval)) (cow_view (be_state eval)) D = total (be_proto eval0) lvl V0 D.
Proof.
  intros lvl V0 HS HT Htot HR Hu1 Hu2 HW HU HL HL' Hnd Hpool Hbank HF.
  apply startEvaluator_Ok in HS as (t' & rpu & [S1 S2 S3 [S4 S4'] S5 S6 S7 [cnt S8] S9]).
  rewrite Htot in S3. injection S3 as <-.
  set (b := makeRoundCowState _ _ _) in S8.
  assert (forall x, cow_view b x = V0 x) as HV by (intros x; apply start_view).
  assert (rcs_proto b = be_proto eval0) as Hp.
  { unfold b. cbn. unfold protoOf, bh_CurrentProtocol in *. by rewrite S4, S1. }
  assert (good b) as Hg.
  { split; [intros a d; change (view b a) with (cow_view b a); rewrite HV; apply HW|done|].
    change (0 < cp_RewardUnit (rcs_proto b)). by rewrite Hp. }
  assert (rewardsLevel b = bh_RewardsLevel (be_hdr eval0)) as Hlv by done. clearbody b.
  rewrite OSub_spec in S6 by done. fold lvl in S6. destruct (Z.leb_spec lvl (bh_RewardsLevel (be_hdr eval0))) as [Hle|]; [|done].
  injection S6 as <-.
  destruct (at_RewardUnits t) as [n| |] eqn:En.
  2-3: unfold withdrawRewards in S8; rewrite En in S8; inv_ok.
  assert (u64 n) as Hn.
  { unfold at_RewardUnits in En. rewrite OAdd_spec in En by done. destruct (Z.ltb_spec (ac_RewardUnits (at_Online t) + ac_RewardUnits (at_Offline t)) (2 ^ 64)); [|done].
    injection En as <-. unfold u64 in *. lia. }
  assert (u64 (bh_RewardsLevel (be_hdr eval0) - lvl)) as Hd by (unfold u64 in *; lia).
  destruct (withdraw_total _ _ _ _ _ _ _ _ _ D Hg Hnd Hpool Hbank En Hn Hd S8) as (Hg0 & [E1 E2] & Ht).
  cbn in E1, E2. rewrite Hp, Hlv in *.
  destruct (trace_total _ _ _ D HT Hnd Hg0 HF) as (_ & _ & _ & HTT). rewrite E1, E2 in HTT.
  rewrite (se_hdr _ _ (trace_env _ _ _ HT)), HTT, Ht.
  assert (total (be_proto eval0) (bh_RewardsLevel (be_hdr eval0)) (cow_view b) D =
    total (be_proto eval0) (bh_RewardsLevel (be_hdr eval0)) V0 D) as -> by (apply sumZ_ext; intros; by rewrite HV).
  rewrite (total_level _ lvl).
  rewrite (at_RewardUnits_Ok _ _ _ _ _ _ HR Hu1 Hu2 En). lia.
Qed.

(** ** Minimum balance *)

(** The account is empty, or holds the minimum for the assets it has. *)
Definition funded eval (d : AccountData) : Prop :=
  IsZero d = true \/ exists d', WithUpdatedRewards d (be_proto eval) (rewardsLevel (be_state eval)) = Ok d'
    /\ effectiveMinBalance (be_proto eval) d' <= ad_MicroAlgos d'.

(** Accounts the check skips: the fee sink and rewards pool, and the accounts the
    start of the block changes. *)
Definition exempt eval (a : Address) : Prop :=
  a ∈ [bh_FeeSink (be_hdr eval); bh_RewardsPool (be_hdr eval); bh_RewardsPool (be_prevHeader eval); bankAddr].

Definition all_funded eval (cow : roundCowState) : Prop :=
  forall a, a ∈ dom (sd_accts (rcs_mods cow)) -> exempt eval a \/ exists d, cow_view cow a = Some d /\ funded eval d.

Lemma checkMinBalances_Ok eval cow l : rewardsLevel cow = rewardsLevel (be_state eval) ->
  checkMinBalances eval cow l = Ok tt ->
  forall a, a ∈ l -> exempt eval a \/ exists d, cow_view cow a = Some d /\ funded eval d.
Proof.
  intros Hl. induction l as [|x l IH]; intros H a Ha; [set_solver|]. cbn in H. apply result_bind_Ok in H as ([] & Hx & H).
  apply elem_of_cons in Ha as [->|Ha]; [|by apply IH]. unfold checkMinBalance, exempt in *. cbn in Hx.
  destruct (bool_decide _) eqn:E1; [bool_hyps; left; set_solver|]. destruct (bool_decide (x = bh_RewardsPool _)) eqn:E2; [bool_hyps; left; set_solver|].
  cbn in Hx. apply result_bind_Ok in Hx as (d & Hd & Hx). right. exists d. split; [by apply cow_view_Some|]. unfold funded.
  destruct (IsZero d); [by left|]. apply result_bind_Ok in Hx as (d' & Hd' & Hx). right. exists d'. rewrite <- Hl. split; [done|].
  apply guardR_Ok in Hx. bool_hyps. lia.
Qed.

Lemma runs_funded eval l cow cow' txibs : runs eval l cow cow' txibs -> rewardsLevel cow = rewardsLevel (be_state eval) ->
  all_funded eval cow -> all_funded eval cow'.
Proof.
  induction 1 as [|txad l cow cow1 cow' txib txibs H _ IH]; intros Hl HF; [done|].
  pose proof (txn_step_frame _ _ _ _ _ H) as (_ & _ & Fh & _ & _). destruct H as [c1 apd _ Ha _ _ Hmin ->].
  assert (rewardsLevel c1 = rewardsLevel (be_state eval)) as Hl1.
  { rewrite <- Hl. unfold rewardsLevel. by rewrite (fr_hdr _ _ (framed_Apply _ _ _ _ _ _ Ha)). }
  apply IH; [exact Hl1|]. intros a Hin. apply (checkMinBalances_Ok eval c1 _ Hl1 Hmin).
  unfold modifiedAccounts. apply elem_of_dom in Hin as [e He]. apply list_elem_of_fmap. exists (a, e). split; [done|].
  by apply elem_of_map_to_list.
Qed.

Lemma commit_dom c p : dom (sd_accts (rcs_mods (commitToParent c p))) =
  dom (sd_accts (rcs_mods c)) ∪ dom (sd_accts (rcs_mods p)).
Proof.
  cbn. apply set_eq. intros x. rewrite elem_of_union, !elem_of_dom. unfold mergeAccts. rewrite lookup_merge. unfold diag_None.
  destruct (sd_accts (rcs_mods c) !! x), (sd_accts (rcs_mods p) !! x); split; intros; destruct_or?; try done; eauto.
Qed.

Lemma all_funded_env eval eval' cow : be_proto eval' = be_proto eval -> be_hdr eval' = be_hdr eval ->
  be_prevHeader eval' = be_prevHeader eval -> rewardsLevel (be_state eval') = rewardsLevel (be_state eval) ->
  all_funded eval cow -> all_funded eval' cow.
Proof. intros E1 E2 E3 E4 H a Ha. unfold exempt, funded. rewrite E1, E2, E3, E4. by apply H. Qed.

Lemma trace_funded eval txs eval' : be_trace eval txs eval' -> all_funded eval (be_state eval) -> all_funded eval' (be_state eval').
Proof.
  apply (trace_ind (λ eval _ eval', all_funded eval (be_state eval) -> all_funded eval' (be_state eval'))); clear eval txs eval'.
  - done.
  - intros eval eval1 txs eval' ([_ _ E1 E2 E3 _] & Es & _) _ IH HF. apply IH. rewrite Es.
    eapply all_funded_env; [..|exact HF]; congruence.
  - intros g eval cow txibs n c txs eval' HR _ IH HF. apply IH. cbn [be_state remembered rset setter].
    eapply (all_funded_env eval); [done..|].
    assert (all_funded eval cow) as HC.
    { eapply runs_funded; [exact HR|done|]. intros a Ha. cbn in Ha. by rewrite dom_empty in Ha. }
    intros a. rewrite commit_dom, (commit_view _ _ _ _ _ HR). intros Ha.
    destruct (decide (a ∈ dom (sd_accts (rcs_mods cow)))) as [Hc|Hc]; [by apply HC|].
    assert (cow_view cow a = cow_view (be_state eval) a) as ->; [|apply HF; set_solver].
    unfold cow_view. unfold lookup at 1. apply not_elem_of_dom in Hc. rewrite Hc.
    by rewrite (proj1 (runs_frame _ _ _ _ _ HR)).
Qed.

Lemma put_dom a old new cs : dom (sd_accts (rcs_mods (cow_put a old new cs))) = {[a]} ∪ dom (sd_accts (rcs_mods cs)).
Proof. cbn. by rewrite dom_insert_L. Qed.

Lemma Put_dom rec cs cs' u : Put rec cs = (Ok u, cs') ->
  dom (sd_accts (rcs_mods cs')) = {[rec.1]} ∪ dom (sd_accts (rcs_mods cs)).
Proof. unfold Put. intros H. destruct (lookup cs rec.1); [|done..]. injection H as _ <-. apply put_dom. Qed.

Lemma withdraw_dom gh prev p t rnd rpu cs cs' : withdrawRewards gh prev p t rnd rpu cs = (Ok tt, cs') ->
  dom (sd_accts (rcs_mods cs')) ⊆ {[bh_RewardsPool prev; bankAddr]} ∪ dom (sd_accts (rcs_mods cs)).
Proof.
  unfold withdrawRewards. intros H. apply M_bind_Ok in H as (rec & cs0 & HG & H).
  apply cow_Get_Ok in HG as (-> & d & _ & Hr & _). apply M_bind_Ok in H as (r & cs1 & Hw & H).
  assert (r.1 = bh_RewardsPool prev /\ dom (sd_accts (rcs_mods cs1)) ⊆ {[bh_RewardsPool prev; bankAddr]} ∪ dom (sd_accts (rcs_mods cs))) as [E Hd].
  { unfold workaroundOverspentRewards in Hw. destruct (_ && _); [injection Hw as <- <-; set_solver|].
    case_bool_decide; [injection Hw as <- <-; set_solver|]. apply M_bind_Ok in Hw as (rr & cs2 & Hm%wrapErrM_Ok & Hw).
    apply cow_Get_Ok in Hw as (-> & d1 & _ & E & _). split; [done|].
    apply Move_inv in Hm as (f & f' & x & tt0 & t' & y & _ & _ & _ & _ & _ & _ & ->). rewrite !put_dom. set_solver. }
  apply M_bind_Ok in H as (n & cs2 & Hl & H). unfold lift in Hl. injection Hl as _ <-.
  destruct (ot_Mul _ _ _) as [? ?]. destruct (ot_SubA _ _ _) as [? ?]. apply M_bind_Ok in H as ([] & cs3 & [_ ->]%guardE_Ok & H).
  apply M_bind_Ok in H as ([] & cs4 & HP%Put_dom & H). destruct (ot_SubA _ _ _) as [? ?]. apply guardE_Ok in H as [_ ->].
  rewrite HP. cbn [fst]. rewrite E. set_solver.
Qed.

(** C7: Every account a block touches stays funded.  For any run of an evaluator,
    each account in the resulting delta is the fee sink, a rewards pool, the testnet
    bank of the hot fix, or is empty, or holds [MinBalance] for itself and for each
    of its assets once its rewards are settled. *)
Theorem block_min_balance l hdr v g c eval0 txs eval a e :
  startEvaluator consensus en l hdr v g c = Ok eval0 -> be_trace eval0 txs eval ->
  sd_accts (rcs_mods (be_state eval)) !! a = Some e ->
  exempt eval a \/ funded eval (acd_new e).
Proof.
  intros HS HT He. apply startEvaluator_Ok in HS as (t & rpu & [S1 S2 S3 S4 S5 S6 S7 [cnt S8] S9]).
  assert (all_funded eval0 (be_state eval0)) as H0.
  { intros x Hx. left. apply withdraw_dom in S8. cbn in S8. rewrite dom_empty_L in S8. unfold exempt. set_solver. }
  pose proof (trace_funded _ _ _ HT H0 a) as [?|(d & Hd & Hf)]; [by apply elem_of_dom_2 in He|by left|right].
  unfold cow_view, lookup in Hd. rewrite He in Hd. by injection Hd as <-.
Qed.

(** ** Transaction identifiers *)

Lemma isDup_false cs fv lv id ls : isDup cs fv lv id ls = Ok false ->
  sd_Txids (rcs_mods cs) !! id = None /\ rcp_isDup (rcs_lookupParent cs) fv lv id ls = Ok false.
Proof.
  unfold isDup. intros H. case_bool_decide as E; [done|]. rewrite <- eq_None_not_Some in E. split; [done|].
  destruct (_ && _ && _); [done|exact H].
Qed.

(** The identifiers are new to [cs] and, through [dup], to what lies below. *)
Definition new_to (cs : roundCowState) (txn : SignedTxn) : Prop :=
  sd_Txids (rcs_mods cs) !! txID txn = None /\
  rcp_isDup (rcs_lookupParent cs) (hdr_FirstValid (stx_Header txn)) (hdr_LastValid (stx_Header txn)) (txID txn)
    (leaseOf (stx_Txn txn)) = Ok false.

Record ids_ok (cs cs' : roundCowState) (txs : list SignedTxn) : Prop := {
  io_nodup : NoDup (txID <$> txs);
  io_new : Forall (new_to cs) txs;
  io_dom : dom (sd_Txids (rcs_mods cs')) = list_to_set (txID <$> txs) ∪ dom (sd_Txids (rcs_mods cs));
  io_parent : rcs_lookupParent cs' = rcs_lookupParent cs
}.

Lemma ids_nil cs : ids_ok cs cs [].
Proof. split; [constructor|constructor|set_solver|done]. Qed.

(** Runs compose when the second finds the identifiers of the first. *)
Lemma ids_app cs1 cs2 cs3 l1 l2 : ids_ok cs1 cs2 l1 -> ids_ok cs2 cs3 l2 -> ids_ok cs1 cs3 (l1 ++ l2).
Proof.
  intros [N1 W1 D1 P1] [N2 W2 D2 P2]. rewrite Forall_forall in W2. split.
  - rewrite fmap_app. apply NoDup_app. split_and!; [done| |done]. intros x Hx (t & -> & Ht)%list_elem_of_fmap.
    destruct (W2 t Ht) as [H _]. apply not_elem_of_dom in H. rewrite D1 in H. set_solver.
  - apply Forall_app. split; [done|]. apply Forall_forall. intros t Ht. destruct (W2 t Ht) as [H H']. rewrite P1 in H'.
    split; [|done]. apply not_elem_of_dom in H. rewrite D1 in H. apply not_elem_of_dom. set_solver.
  - rewrite D2, D1, fmap_app, list_to_set_app_L. set_solver.
  - congruence.
Qed.

Lemma step_ids eval txad cow cow' txib : be_validate eval = true -> txn_step eval txad cow cow' txib ->
  ids_ok cow cow' [sad_SignedTxn txad].
Proof.
  intros Hv [c1 apd Hvt Ha _ _ _ ->]. destruct (Hvt Hv) as [_ Hnew _ _]. apply isDup_false in Hnew as [H1 H2].
  pose proof (framed_Apply _ _ _ _ _ _ Ha) as [Fp _ _ Ft _ _ _]. split.
  - apply NoDup_singleton.
  - apply Forall_singleton. by split.
  - cbn. rewrite dom_insert_L, Ft. unfold Eval.txID. set_solver.
  - done.
Qed.

Lemma runs_ids eval l cow cow' txibs : be_validate eval = true -> runs eval l cow cow' txibs ->
  ids_ok cow cow' (sad_SignedTxn <$> l).
Proof.
  intros Hv. induction 1 as [|txad l cow cow1 cow' txib txibs H _ IH]; [apply ids_nil|].
  exact (ids_app _ _ _ [_] _ (step_ids _ _ _ _ _ Hv H) IH).
Qed.

Lemma runs_length eval l cow cow' txibs : runs eval l cow cow' txibs -> length txibs = length l.
Proof. induction 1; cbn; congruence. Qed.

Lemma runs_vetted eval l cow cow' txibs : be_validate eval = true -> runs eval l cow cow' txibs ->
  Forall (λ txn, exists c, vetted eval txn c) (sad_SignedTxn <$> l).
Proof.
  intros Hv. induction 1 as [|txad l cow cow1 cow' txib txibs H _ IH]; [constructor|]. cbn. constructor; [|done].
  destruct H as [? ? Hvt _ _ _ _ _]. eauto.
Qed.

Lemma commit_ids eval cow txs : ids_ok (child (be_state eval)) cow txs ->
  ids_ok (be_state eval) (commitToParent cow (be_state eval)) txs.
Proof.
  intros [N W D P]. split; [done| | |done].
  - eapply Forall_impl; [exact W|]. intros t [_ H]. cbn in H. apply isDup_false in H. exact H.
  - cbn in *. rewrite dom_union_L, D, dom_empty_L. set_solver.
Qed.

(** What is known of every transaction of a run. *)
Definition accepted eval (txn : SignedTxn) : Prop :=
  Alive (stx_Header txn) (txnContext consensus eval) = Ok tt /\
  WellFormed (stx_Txn txn) (specOf eval) (be_proto eval) = Ok tt /\ exists c, verifyTxn cr vc eval txn c = Ok tt.

Lemma accepted_env eval eval' txn : same_env eval eval' -> accepted eval' txn -> accepted eval txn.
Proof.
  intros [_ _ _ E2 E3 _] (H1 & H2 & c & H3). unfold accepted, txnContext, specOf, verifyTxn in *.
  unfold specOf in H3. rewrite E2, E3 in *. eauto.
Qed.

Lemma trace_ids eval txs eval' : be_trace eval txs eval' -> be_validate eval = true ->
  ids_ok (be_state eval) (be_state eval') txs /\ Forall (accepted eval) txs /\
  length (blk_Payset (be_block eval')) = (length (blk_Payset (be_block eval)) + length txs)%nat.
Proof.
  apply (trace_ind (λ eval txs eval', be_validate eval = true -> ids_ok (be_state eval) (be_state eval') txs /\
    Forall (accepted eval) txs /\
    length (blk_Payset (be_block eval')) = (length (blk_Payset (be_block eval)) + length txs)%nat)); clear eval txs eval'.
  - intros eval _. split_and!; [apply ids_nil|constructor|cbn; lia].
  - intros eval eval1 txs eval' (Hse & Es & Ep) _ IH Hv. rewrite Es, Ep in IH.
    destruct IH as (I1 & I2 & I3); [by rewrite (se_validate _ _ Hse)|]. split_and!; [done| |done].
    eapply Forall_impl; [exact I2|]. intros t. by apply accepted_env.
  - intros g eval cow txibs n c txs eval' HR _ IH Hv. destruct (IH Hv) as (I1 & I2 & I3).
    pose proof (runs_ids _ _ _ _ _ Hv HR) as Hids. split_and!.
    + eapply ids_app; [|exact I1]. cbn. by apply commit_ids.
    + apply Forall_app. split; [|eapply Forall_impl; [exact I2|]; intros t; by apply accepted_env].
      eapply Forall_impl; [by eapply runs_vetted|]. intros t [c1 [V1 _ V3 V4]]. by split_and!.
    + rewrite I3. cbn. rewrite !length_app, length_fmap, (runs_length _ _ _ _ _ HR). lia.
Qed.

Lemma size_ids (m : gmap Txid Round) (l : list Txid) : NoDup l -> dom m = list_to_set l -> size m = length l.
Proof. intros Hnd Hd. rewrite <- size_dom, Hd. by apply size_list_to_set. Qed.

Lemma block_ids l hdr g c eval0 txs eval : startEvaluator consensus en l hdr true g c = Ok eval0 -> be_trace eval0 txs eval ->
  NoDup (txID <$> txs) /\
  dom (sd_Txids (rcs_mods (be_state eval))) = list_to_set (txID <$> txs) /\
  (forall txn, txn ∈ txs -> accepted eval0 txn /\
     lfe_isDup l (be_proto eval0) (wrap64 (wrap64 (bh_Round hdr - 1) + 1)) (hdr_FirstValid (stx_Header txn))
       (hdr_LastValid (stx_Header txn)) (txID txn) (leaseOf (stx_Txn txn)) = Ok false) /\
  length (blk_Payset (be_block eval)) = length txs /\
  txnCounter (be_state eval) = wrap64 ((if 0 <? bh_Round hdr then bh_TxnCounter (be_prevHeader eval0) else 0) + Z.of_nat (length txs)).
Proof.
  intros HS HT. apply startEvaluator_Ok in HS as (t & rpu & [S1 [S2 _] S3 S4 S5 S6 S7 [cnt S8] S9]).
  destruct (trace_ids _ _ _ HT S2) as ([N W D P] & HA & HL). rewrite S5 in HL.
  pose proof (framed_withdraw _ _ _ _ _ _ _ _ _ S8) as [Fp _ _ Ft _ _ _]. cbn in Fp, Ft.
  rewrite Ft, dom_empty_L, (right_id_L ∅ (∪)) in D. split_and!; [done|done| |done|].
  - intros txn Hin. rewrite Forall_forall in W, HA. split; [by apply HA|]. destruct (W txn Hin) as [_ H]. by rewrite Fp in H.
  - unfold txnCounter. rewrite (size_ids _ _ N D), length_fmap, P, S7. done.
Qed.

(** C8: A block has no duplicate transactions and its counter is exact.  When a
    block is built or validated, the identifiers of its transactions are pairwise
    distinct, none is known to the ledger (by identifier or by a lease in force),
    every one is alive, well formed and verified, the delta records exactly these
    identifiers, and the transaction counter advances by their number. *)
Theorem block_txids l hdr g c eval0 txs eval : startEvaluator consensus en l hdr true g c = Ok eval0 -> be_trace eval0 txs eval ->
  NoDup (txID <$> txs) /\
  dom (sd_Txids (rcs_mods (be_state eval))) = list_to_set (txID <$> txs) /\
  (forall txn, txn ∈ txs -> accepted eval0 txn /\
     lfe_isDup l (be_proto eval0) (wrap64 (wrap64 (bh_Round hdr - 1) + 1)) (hdr_FirstValid (stx_Header txn))
       (hdr_LastValid (stx_Header txn)) (txID txn) (leaseOf (stx_Txn txn)) = Ok false) /\
  length (blk_Payset (be_block eval)) = length txs /\
  txnCounter (be_state eval) = wrap64 ((if 0 <? bh_Round hdr then bh_TxnCounter (be_prevHeader eval0) else 0) + Z.of_nat (length txs)).
Proof. apply block_ids. Qed.

(** ** Validated and generated blocks *)

Lemma evalGroups_trace ctxErr groups : forall i eval eval',
  evalGroups consensus cr en vc ctxErr i groups eval = (Ok tt, eval') ->
  be_trace eval (sad_SignedTxn <$> concat groups) eval'.
Proof.
  induction groups as [|g groups IH]; intros i eval eval' H; cbn [evalGroups] in H; [injection H as <-; constructor|].
  destruct (ctxErr i); [done|]. apply M_bind_Ok in H as ([] & eval1 & H1 & H2). cbn [concat]. rewrite fmap_app.
  eapply bt_group; [exact H1|by eapply IH].
Qed.

Lemma finalValidation_Ok eval : be_validate eval = true -> finalValidation en eval = Ok tt ->
  bh_TxnRoot (be_hdr eval) = paysetRoot en eval /\ bh_TxnCounter (be_hdr eval) = expectedTxnCount eval.
Proof. unfold finalValidation, checkCommitments. intros -> H. inv_ok. bool_hyps. split; congruence. Qed.

(** C5: What a validated block guarantees.  If [Ledger.Validate] accepts a block, its
    header follows the previous one ([PreCheck]); the transactions of its payset
    have pairwise distinct identifiers unknown to the ledger; every one is alive in
    the block, well formed and verified; [TxnRoot] commits to the payset as the
    evaluator re-encodes it, and [TxnCounter] is the previous counter plus the
    number of transactions (zero when the protocol has no counter). *)
Theorem Validate_sound l ctxErr blk c vb : Validate consensus cr en vc l ctxErr blk c = Ok vb ->
  exists eval0 eval txads, startEvaluator consensus en l (blk_BlockHeader blk) true false c = Ok eval0 /\
    DecodePaysetFlat consensus (blk_BlockHeader blk) (blk_Payset blk) = Ok txads /\
    be_trace eval0 (sad_SignedTxn <$> txads) eval /\
    vb = mkValidatedBlock blk (rcs_mods (be_state eval)) /\
    PreCheck consensus (en_hashHeader en) (blk_BlockHeader blk) (be_prevHeader eval0) = Ok tt /\
    NoDup (txID <$> (sad_SignedTxn <$> txads)) /\
    (forall txn, txn ∈ (sad_SignedTxn <$> txads) -> accepted eval0 txn /\
       lfe_isDup l (be_proto eval0) (wrap64 (wrap64 (bh_Round (blk_BlockHeader blk) - 1) + 1)) (hdr_FirstValid (stx_Header txn))
         (hdr_LastValid (stx_Header txn)) (txID txn) (leaseOf (stx_Txn txn)) = Ok false) /\
    bh_TxnRoot (blk_BlockHeader blk) = en_Commit en (cp_PaysetCommitFlat (be_proto eval0)) (blk_Payset (be_block eval)) /\
    length (blk_Payset (be_block eval)) = length (blk_Payset blk) /\
    bh_TxnCounter (blk_BlockHeader blk) =
      if cp_TxnCounter (be_proto eval0)
      then wrap64 ((if 0 <? bh_Round (blk_BlockHeader blk) then bh_TxnCounter (be_prevHeader eval0) else 0)
                   + Z.of_nat (length (blk_Payset blk)))
      else 0.
Proof.
  unfold Validate, ledger_eval. intros H. apply result_bind_Ok in H as (delta & H & [= <-]).
  apply result_bind_Ok in H as (eval0 & HS & H). apply result_bind_Ok in H as (groups & HD & H).
  destruct (evalGroups _ _ _ _ _ _ _ _) as [[[]| |] eval] eqn:E; [|done..].
  apply result_bind_Ok in H as ([] & HF & [= <-]).
  unfold DecodePaysetGroups in HD. apply result_bind_Ok in HD as (txads & HD & [= <-]).
  apply evalGroups_trace in E. rewrite (proj1 (proj1 (toGroups_iff _ _ _) eq_refl)) in E.
  destruct (block_ids _ _ _ _ _ _ _ HS E) as (N & Dm & HA & HL & HC).
  pose proof (trace_env _ _ _ E) as [E1 E2 E3 E4 E5 E6].
  destruct (startEvaluator_Ok _ _ _ _ _ _ HS) as (t & rpu & [S1 (S2 & S2' & _) S3 S4 S5 S6 S7 _ S9]).
  assert (be_hdr eval0 = blk_BlockHeader blk) as Hh.
  { clear -HS. unfold startEvaluator in HS. destruct (consensus !! _); [|done]. inv_ok.
    destruct (ot_Sub _ _ _). inv_ok. destruct (withdrawRewards _ _ _ _ _ _ _) as [[]]; by inv_ok. }
  assert (length txads = length (blk_Payset blk)) as Hlen.
  { clear -HD. revert txads HD. induction (blk_Payset blk) as [|x ps IH]; intros txads HD; cbn in HD; [by injection HD as <-|].
    inv_ok. cbn. f_equal. by apply IH. }
  rewrite length_fmap, Hlen in *. unfold endOfBlock in *. rewrite E2, S2' in *.
  apply finalValidation_Ok in HF as [R1 R2]; [|congruence]. unfold paysetRoot, expectedTxnCount in *. rewrite E4, E5, Hh in *.
  exists eval0, eval, txads. split_and!; try done.
  - by apply S9.
  - rewrite R2. destruct (cp_TxnCounter _); [exact HC|done].
Qed.

(** Generating a block cannot fail.  [GenerateBlock] on an evaluator started for
    generation always succeeds, and the block it returns carries the commitment and
    the counter that validation expects. *)
Theorem GenerateBlock_matches eval : be_generate eval = true ->
  exists vb, GenerateBlock en eval = Ok vb /\ vb_delta vb = rcs_mods (be_state eval) /\
    blk_Payset (vb_blk vb) = blk_Payset (be_block eval) /\
    bh_TxnRoot (blk_BlockHeader (vb_blk vb)) = en_Commit en (cp_PaysetCommitFlat (be_proto eval)) (blk_Payset (vb_blk vb)) /\
    bh_TxnCounter (blk_BlockHeader (vb_blk vb)) = expectedTxnCount eval /\
    (protoOf consensus (bh_CurrentProtocol (be_hdr eval)) = be_proto eval ->
       ContentsMatchHeader consensus (en_Commit en) (vb_blk vb) = true).
Proof.
  intros Hg. unfold GenerateBlock, endOfBlock. rewrite Hg. cbn [negb].
  assert (finalValidation en (setRoot eval (paysetRoot en eval)) = Ok tt) as ->.
  { unfold finalValidation. cbn [be_validate setRoot rset setter]. destruct (be_validate eval); [|done]. unfold checkCommitments.
    rewrite bool_decide_true by done. cbn [guardR mbind result_bind]. rewrite (proj2 (Z.eqb_eq _ _)); done. }
  eexists. split; [done|]. cbn. split_and!; try done. intros Hp. unfold ContentsMatchHeader. cbn.
  unfold be_hdr, bh_CurrentProtocol in Hp. rewrite bool_decide_true; [done|]. unfold paysetRoot. cbn. unfold bh_CurrentProtocol. cbn. by rewrite Hp.
Qed.
End Steps.

(** ** Witnesses

    A ledger at round 9 with a rewards pool, a fee sink and two participating
    accounts; round 10 pays rewards and holds one payment. *)
Module EvalWitness.
Definition ad32 (n : Z) : Address := replicate 32 n.
Definition alice : Address := ad32 3.
Definition bob : Address := ad32 4.
Definition sink : Address := ad32 100.
Definition pool : Address := ad32 101.
Definition gh : Digest := ad32 5.

Definition acct (st : Status) (algos base : Z) : AccountData := (MakeAccountData st algos) <| ad_RewardsBase := base |>.
Definition balances : gmap Address AccountData :=
  <[alice := acct Online 5000000 100]> (<[bob := acct Offline 3000000 90]>
    (<[sink := acct NotParticipating 1000000 0]> {[pool := acct NotParticipating 1000000000 0]})).
Definition acctOf (a : Address) : AccountData := default AccountData_zero (balances !! a).

Definition rs9 : RewardsState := mkRewardsState sink pool 100 1000 5 10000.
Definition us9 : UpgradeState := mkUpgradeState ConsensusV19 "" 0 0 0.
Definition hdr9 : BlockHeader := mkBlockHeader 9 zero32 zero32 zero32 1000 "test" gh rs9 us9 (mkUpgradeVote "" false) 42.
Definition D0 : list Address := [alice; bob; sink; pool; bankAddr; zero32].

(** Their totals at level 100. *)
Definition totals9 : AccountTotals :=
  mkAccountTotals (mkAlgoCount 5000000 5) (mkAlgoCount 3000030 3) (mkAlgoCount 1001000000 1001) 100.
Definition l0 : ledgerForEvaluator := mkLedgerForEvaluator gh (λ r, if r =? 9 then Ok hdr9 else Err (Errorf "no block"))
  (λ _ a, WithUpdatedRewards (acctOf a) v19 100) (λ _, Ok totals9) (λ _ _ _ _ _ _, Ok false) (λ _ a, Ok (acctOf a))
  (λ _ _, Err (Errorf "no asset")).
Definition en0 : Encoding := mkEncoding (λ h, ad32 (bh_Round h)) (λ _ ps, ad32 (zlen ps)) (λ _ ps, ad32 (100 + zlen ps))
  (λ _, 200) (λ _, 200) (λ _, zero32).
Definition vc0 : VerifiedTxnCache unit := mkVerifiedTxnCache _ (λ _ _, false) (λ _ _ _, (false, None)) (λ c _ _ _, c).
Definition cr0 : Crypto := VerifyWitness.crypto0.

Definition hdr10 : BlockHeader :=
  mkBlockHeader 10 (ad32 9) zero32 zero32 1005 "test" zero32 RewardsState_zero us9 (mkUpgradeVote "" false) 0.
Definition pay : Transaction :=
  mkTransaction PaymentTx (mkHeader alice 1000 5 20 None "" gh zero32 zero32) KeyregTxnFields_zero
    (mkPaymentTxnFields bob 70000 zero32) AssetConfigTxnFields_zero AssetTransferTxnFields_zero AssetFreezeTxnFields_zero zero32 false.
Definition stx : SignedTxn :=
  mkSignedTxn (replicate 64 3) VerifyWitness.blankMsig (mkLogicSig [] zero64 VerifyWitness.blankMsig []) pay 0.

Definition dummy : BlockEvaluator unit :=
  mkBlockEvaluator (makeRoundCowState ∅ (roundCowBase l0 0 0 v19) hdr9) false false None hdr9 v19 gh (mkBlock hdr9 [] []) 0 l0.
Definition orDummy (r : result (BlockEvaluator unit)) : BlockEvaluator unit := match r with Ok e => e | _ => dummy end.
Definition started0 : result (BlockEvaluator unit) := startEvaluator Consensus en0 l0 hdr10 true true None.
Definition ev0 : BlockEvaluator unit := orDummy started0.
Definition ev1 : BlockEvaluator unit := (TransactionGroup Consensus cr0 en0 vc0 [mkSignedTxnWithAD stx ApplyData_zero] ev0).2.
Definition blk10 : Block := match GenerateBlock en0 ev1 with Ok vb => vb_blk vb | _ => mkBlock hdr9 [] [] end.

(** The proposed block is accepted by validation. *)
Example proposed_validates :
  match Validate Consensus cr0 en0 vc0 l0 (λ _, None) blk10 None with
  | Ok vb => bh_TxnCounter (blk_BlockHeader (vb_blk vb)) = 43
  | _ => False
  end.
Proof. vm_compute. reflexivity. Qed.

Lemma start0 : startEvaluator Consensus en0 l0 hdr10 true true None = Ok ev0.
Proof.
  change (started0 = Ok ev0). assert (is_ok started0 = true) as H by (vm_compute; reflexivity).
  unfold ev0. destruct started0; [reflexivity|discriminate H..].
Qed.
Lemma group0 : TransactionGroup Consensus cr0 en0 vc0 [mkSignedTxnWithAD stx ApplyData_zero] ev0 = (Ok tt, ev1).
Proof.
  unfold ev1. assert ((TransactionGroup Consensus cr0 en0 vc0 [mkSignedTxnWithAD stx ApplyData_zero] ev0).1 = Ok tt) as H
    by (vm_compute; reflexivity). destruct (TransactionGroup _ _ _ _ _ _). cbn in *. by subst.
Qed.
Lemma trace0 : be_trace Consensus cr0 en0 vc0 ev0 [stx] ev1.
Proof. exact (bt_group _ _ _ _ _ _ _ [] _ group0 (bt_nil _ _ _ _ _)). Qed.

Lemma wf_acct_mk st algos base : u64 algos -> u64 base -> wf_acct (acct st algos base).
Proof. intros. split; try done; cbn; try (by apply map_Forall_empty); unfold u64; lia. Qed.
Lemma wf_ledger : wfV (base_view l0 (wrap64 (bh_Round hdr10 - 1))).
Proof.
  intros a d [= <-]. unfold acctOf, balances. rewrite !lookup_insert, lookup_singleton.
  repeat case_decide; cbn [default from_option id]; apply wf_acct_mk || (change AccountData_zero with (acct Offline 0 0); apply wf_acct_mk);
    unfold u64; lia.
Qed.

Lemma block_conserves_money_witness :
  total v19 225 (cow_view (be_state ev1)) D0 = total v19 100 (base_view l0 9) D0.
Proof.
  refine (block_conserves_money Consensus cr0 en0 vc0 l0 hdr10 true true None ev0 [stx] ev1 D0 totals9 start0 trace0
            _ _ _ _ wf_ledger _ _ _ _ _ _ _).
  - reflexivity.
  - split; [vm_compute; reflexivity|intros []; vm_compute; reflexivity..].
  - vm_compute. split; congruence.
  - vm_compute. split; congruence.
  - vm_compute. reflexivity.
  - vm_compute. split; congruence.
  - vm_compute. split; congruence.
  - apply (bool_decide_unpack _). vm_compute. exact I.
  - apply (bool_decide_unpack _). vm_compute. exact I.
  - apply (bool_decide_unpack _). vm_compute. exact I.
  - constructor; [|constructor]. split; [split; vm_compute; split; congruence|].
    apply (bool_decide_unpack _). vm_compute. exact I.
Defined.

Definition entry : accountDelta :=
  default (mkAccountDelta AccountData_zero AccountData_zero) (sd_accts (rcs_mods (be_state ev1)) !! alice).
Lemma entry_alice : sd_accts (rcs_mods (be_state ev1)) !! alice = Some entry.
Proof.
  assert (is_Some (sd_accts (rcs_mods (be_state ev1)) !! alice)) as [e He]
    by (apply (bool_decide_unpack _); vm_compute; exact I).
  unfold entry. by rewrite He.
Qed.
Lemma block_min_balance_witness : exempt ev1 alice \/ funded ev1 (acd_new entry).
Proof.
  exact (block_min_balance Consensus cr0 en0 vc0 l0 hdr10 true true None ev0 [stx] ev1 alice entry start0 trace0 entry_alice).
Defined.

Lemma block_txids_witness : txnCounter (be_state ev1) = 43.
Proof.
  destruct (block_txids Consensus cr0 en0 vc0 l0 hdr10 true None ev0 [stx] ev1 start0 trace0) as (_ & _ & _ & _ & H).
  exact H.
Defined.

Definition validated : result ValidatedBlock := Validate Consensus cr0 en0 vc0 l0 (λ _, None) blk10 None.
Definition vb10 : ValidatedBlock := match validated with Ok vb => vb | _ => mkValidatedBlock blk10 (emptyDelta hdr9) end.
Lemma validated_ok : Validate Consensus cr0 en0 vc0 l0 (λ _, None) blk10 None = Ok vb10.
Proof.
  change (validated = Ok vb10). assert (is_ok validated = true) as H by (vm_compute; reflexivity).
  unfold vb10. destruct validated; [reflexivity|discriminate H..].
Qed.
Lemma Validate_sound_witness : exists eval0 eval txads,
  be_trace Consensus cr0 en0 vc0 eval0 (sad_SignedTxn <$> txads) eval /\ vb10 = mkValidatedBlock blk10 (rcs_mods (be_state eval)).
Proof.
  destruct (Validate_sound Consensus cr0 en0 vc0 l0 (λ _, None) blk10 None vb10 validated_ok)
    as (eval0 & eval & txads & _ & _ & H1 & H2 & _). exists eval0, eval, txads. split; [exact H1|exact H2].
Defined.

Lemma GenerateBlock_matches_witness : exists vb, GenerateBlock en0 ev1 = Ok vb /\ blk_Payset (vb_blk vb) = blk_Payset (be_block ev1).
Proof.
  destruct (GenerateBlock_matches Consensus en0 ev1) as (vb & H1 & _ & H2 & _); [vm_compute; reflexivity|].
  exists vb. split; [exact H1|exact H2].
Defined.
End EvalWitness.
