(* ===== verification/Pool.v ===== *)
(** The transaction pool (src/data/pools/{transactionPool,statusCache,lsigEvalCache}.go).

    The pool keeps groups of transactions that the block evaluator accepted one after
    the other on top of the latest block, and starts the evaluator afresh when a block
    is added.  The ledger at the moment of a call is the record [poolEnv].

    The evaluator holds the pool as its cache of verified transactions; here the pool's
    cache is put into the evaluator for the time of a call ([onEval]).  Each method runs
    under the pool's lock, except that a caller may be overtaken while it waits: for the
    lock after the first check of [Remember] ([acquire]), and for a new block in [ingest]
    ([await]).  What other callers do meanwhile is the argument of the same name.
    Statistics are left out, except for the count of expired transactions. *)

From S2P Require Import Prelude Config Basics Transactions Bookkeeping Totals Cow Multisig Teal Verify Eval.

(** ** statusCache *)

(** The text of an error is the error. *)
Record statusCacheEntry := mkStatusCacheEntry { sce_tx : SignedTxn; sce_txErr : error }.
Record statusCache := mkStatusCache {
  sc_cur : gmap Txid statusCacheEntry;
  sc_prev : gmap Txid statusCacheEntry;
  sc_sz : Z
}.
Definition makeStatusCache (sz : Z) : statusCache := mkStatusCache ∅ ∅ sz.

Definition sc_check (sc : statusCache) (txid : Txid) : option statusCacheEntry :=
  match sc_cur sc !! txid with
  | Some ent => Some ent
  | None => sc_prev sc !! txid
  end.

Definition sc_put (cr : Crypto) (tx : SignedTxn) (txErr : error) (sc : statusCache) : statusCache :=
  let sc := if sc_sz sc <=? Z.of_nat (size (sc_cur sc)) then mkStatusCache ∅ (sc_cur sc) (sc_sz sc) else sc in
  mkStatusCache (<[txID cr tx := mkStatusCacheEntry tx txErr]> (sc_cur sc)) (sc_prev sc) (sc_sz sc).

(** ** lsigEvalCache *)

(** The verdict of a program by protocol version and transaction; the nil map is empty. *)
Notation lsigEvalSubcache := (gmap string (gmap Txid (option error))) (only parsing).
Definition les_get (les : lsigEvalSubcache) (cvers : string) (txid : Txid) : bool * option error :=
  match les !! cvers with
  | None => (false, None)
  | Some byvers => match byvers !! txid with Some err => (true, err) | None => (false, None) end
  end.
Definition les_put (les : lsigEvalSubcache) (cvers : string) (txid : Txid) (err : option error) : lsigEvalSubcache :=
  <[cvers := <[txid := err]> (default ∅ (les !! cvers))]> les.
Definition les_size (les : lsigEvalSubcache) : Z := map_fold (λ _ byvers sum, sum + Z.of_nat (size byvers)) 0 les.

Record lsigEvalCache := mkLsigEvalCache { lec_cur : lsigEvalSubcache; lec_prev : lsigEvalSubcache; lec_size : Z }.
Definition makeLsigEvalCache (poolSize : Z) : lsigEvalCache := mkLsigEvalCache ∅ ∅ poolSize.
Definition lec_get (lec : lsigEvalCache) (cvers : string) (txid : Txid) : bool * option error :=
  let '(found, err) := les_get (lec_cur lec) cvers txid in
  if found then (found, err) else les_get (lec_prev lec) cvers txid.
Definition lec_put (lec : lsigEvalCache) (cvers : string) (txid : Txid) (err : option error) : lsigEvalCache :=
  let cur := les_put (lec_cur lec) cvers txid err in
  if lec_size lec <? les_size cur then mkLsigEvalCache ∅ cur (lec_size lec)
  else mkLsigEvalCache cur (lec_prev lec) (lec_size lec).

(** [alwaysVerifiedPool] *)
Definition alwaysVerified : VerifiedTxnCache lsigEvalCache := mkVerifiedTxnCache _ (λ _ _, true) lec_get lec_put.

(** ** TransactionPool *)

Notation Evaluator := (BlockEvaluator lsigEvalCache) (only parsing).

Record TransactionPool := mkTransactionPool {
  tp_expiredTxCount : gmap Round Z;
  tp_pendingBlockEvaluator : option Evaluator;   (* None: nil *)
  tp_numPendingWholeBlocks : Round;
  tp_feeThresholdMultiplier : Z;
  tp_statusCache : statusCache;
  tp_expFeeFactor : Z;
  tp_txPoolMaxSize : Z;
  tp_pendingTxGroups : list (list SignedTxn);
  tp_pendingTxids : gmap Txid SignedTxn;
  tp_rememberedTxGroups : list (list SignedTxn);
  tp_rememberedTxids : gmap Txid SignedTxn;
  tp_pendingProxyTxGroups : list bytes;
  tp_pendingProxyTxids : gmap Txid bytes;
  tp_rememberedProxyTxGroups : list bytes;
  tp_rememberedProxyTxids : gmap Txid bytes;
  tp_lsigCache : lsigEvalCache
}.
#[export] Instance TransactionPool_eta : Eta TransactionPool := λ r,
  mkTransactionPool (tp_expiredTxCount r) (tp_pendingBlockEvaluator r) (tp_numPendingWholeBlocks r) (tp_feeThresholdMultiplier r)
    (tp_statusCache r) (tp_expFeeFactor r) (tp_txPoolMaxSize r) (tp_pendingTxGroups r) (tp_pendingTxids r)
    (tp_rememberedTxGroups r) (tp_rememberedTxids r) (tp_pendingProxyTxGroups r) (tp_pendingProxyTxids r)
    (tp_rememberedProxyTxGroups r) (tp_rememberedProxyTxids r) (tp_lsigCache r).

(** The ledger when a method reads it, and what [MakeBlock] reads besides: the order in
    which the approved upgrades are visited, and the clock. *)
Record poolEnv := mkPoolEnv {
  pe_Latest : Round;
  pe_l : ledgerForEvaluator;
  pe_proposals : list string;
  pe_now : Z
}.

Definition expiredHistory : Z := 10.

Definition NumExpired (round : Round) (pool : TransactionPool) : Z := default 0 (tp_expiredTxCount pool !! round).
(** In the order of the map's elements; Go gives any order. *)
Definition PendingTxIDs (pool : TransactionPool) : list Txid := (map_to_list (tp_pendingTxids pool)).*1.
Definition Pending (pool : TransactionPool) : list (list SignedTxn) := tp_pendingTxGroups pool.
Definition PendingCount (pool : TransactionPool) : Z := sumZ zlen (tp_pendingTxGroups pool).

Definition rememberCommit (flush : bool) (pool : TransactionPool) : TransactionPool :=
  (if flush then pool <| tp_pendingTxGroups := tp_rememberedTxGroups pool |> <| tp_pendingTxids := tp_rememberedTxids pool |>
   else pool <| tp_pendingTxGroups := tp_pendingTxGroups pool ++ tp_rememberedTxGroups pool |>
             <| tp_pendingTxids := tp_rememberedTxids pool ∪ tp_pendingTxids pool |>)
    <| tp_rememberedTxGroups := [] |> <| tp_rememberedTxids := ∅ |>.

Definition rememberProxyCommit (flush : bool) (pool : TransactionPool) : TransactionPool :=
  (if flush then pool <| tp_pendingProxyTxGroups := tp_rememberedProxyTxGroups pool |> <| tp_pendingProxyTxids := tp_rememberedProxyTxids pool |>
   else pool <| tp_pendingProxyTxGroups := tp_pendingProxyTxGroups pool ++ tp_rememberedProxyTxGroups pool |>
             <| tp_pendingProxyTxids := tp_rememberedProxyTxids pool ∪ tp_pendingProxyTxids pool |>)
    <| tp_rememberedProxyTxGroups := [] |> <| tp_rememberedProxyTxids := ∅ |>.

Definition checkPendingQueueSize (pool : TransactionPool) : result unit :=
  guardR (zlen (Pending pool) <? tp_txPoolMaxSize pool) (Errorf "TransactionPool.Test: transaction pool have reached capacity").

(** A method of the evaluator, on the pool's cache. *)
Definition onEval {A} (m : M Evaluator A) : M TransactionPool A := λ pool,
  match tp_pendingBlockEvaluator pool with
  | None => (Panic "nil pointer dereference", pool)
  | Some eval =>
    let '(r, eval) := m (eval <| be_txcache := Some (tp_lsigCache pool) |>) in
    (r, pool <| tp_pendingBlockEvaluator := Some eval |> <| tp_lsigCache := default (tp_lsigCache pool) (be_txcache eval) |>)
  end.

Section Pool.
Variable consensus : gmap string ConsensusParams.
Variable cr : Crypto.
Variable en : Encoding.
Variable computeEncodingLen : SignedTxn -> Z.
Variable CheckTx : bytes -> bool.           (* the application *)
Variable hashTx : bytes -> Txid.            (* [Tx.ComputeID] *)
Notation txID := (txID cr).

(** [InitCaches] of a signed transaction. *)
Definition stx_InitCaches (s : SignedTxn) : SignedTxn :=
  (if stx_cachedEncodingLen s =? 0 then s <| stx_cachedEncodingLen := computeEncodingLen s |> else s)
    <| stx_Txn ::= InitCaches (cr_computeID cr) |>.

Definition feePerByte (pool : TransactionPool) : Z :=
  let feePerByte := wrap64 (1 * tp_feeThresholdMultiplier pool) in
  let feePerByte := if (feePerByte =? 0) && (1 <? tp_numPendingWholeBlocks pool) then 1 else feePerByte in
  Nat.iter (Z.to_nat (wrapS64 (wrapS64 (tp_numPendingWholeBlocks pool) - 1))) (λ f, wrap64 (f * tp_expFeeFactor pool)) feePerByte.

Fixpoint checkFees (feePerByte : Z) (txgroup : list SignedTxn) : result unit :=
  match txgroup with
  | [] => Ok tt
  | t :: txgroup =>
    let feeThreshold := wrap64 (feePerByte * wrap64 (GetEncodedLength computeEncodingLen t)) in
    if hdr_Fee (stx_Header t) <? feeThreshold then Err (Errorf "fee below threshold") else checkFees feePerByte txgroup
  end.
Definition checkSufficientFee (txgroup : list SignedTxn) (pool : TransactionPool) : result unit :=
  checkFees (feePerByte pool) txgroup.

Definition pool_Test (txgroup : list SignedTxn) (pool : TransactionPool) : result unit :=
  _ ← checkPendingQueueSize pool;
  let txgroup := stx_InitCaches <$> txgroup in
  match tp_pendingBlockEvaluator pool with
  | None => match txgroup with [] => Ok tt | _ => Panic "nil pointer dereference" end
  | Some eval => TestTransactionGroup consensus cr en eval txgroup
  end.

(** The loop over the group in [addToPendingBlockEvaluatorOnce]. *)
Fixpoint checkDeadlines (r : Round) (txgroup : list SignedTxn) : result unit :=
  match txgroup with
  | [] => Ok tt
  | tx :: txgroup =>
    let h := stx_Header tx in
    if hdr_LastValid h <? r then Err (TxnDeadError r (hdr_FirstValid h) (hdr_LastValid h)) else checkDeadlines r txgroup
  end.
Definition addToPendingBlockEvaluatorOnce (txgroup : list SignedTxn) : M TransactionPool unit := λ pool,
  match tp_pendingBlockEvaluator pool with
  | None => (Panic "nil pointer dereference", pool)
  | Some eval =>
    match checkDeadlines (wrap64 (bh_Round (be_hdr eval) + tp_numPendingWholeBlocks pool)) txgroup with
    | Ok _ => onEval (TransactionGroup consensus cr en alwaysVerified ((λ tx, mkSignedTxnWithAD tx ApplyData_zero) <$> txgroup)) pool
    | Err e => (Err e, pool)
    | Panic m => (Panic m, pool)
    end
  end.
Definition addSingleToPendingBlockEvaluatorOnce (tx : bytes) : M TransactionPool unit := onEval (transactionSingle en CheckTx tx true).

(** A second attempt in a new block when the group does not fit. *)
Definition retry (m : M TransactionPool unit) : M TransactionPool unit := λ pool,
  match m pool with
  | (Err ErrNoSpace, pool) =>
    m (pool <| tp_numPendingWholeBlocks ::= λ n, wrap64 (n + 1) |> <| tp_pendingBlockEvaluator ::= fmap ResetTxnBytes |>)
  | out => out
  end.
Definition addToPendingBlockEvaluator (txgroup : list SignedTxn) : M TransactionPool unit := retry (addToPendingBlockEvaluatorOnce txgroup).
Definition addSingleToPendingBlockEvaluator (tx : bytes) : M TransactionPool unit := retry (addSingleToPendingBlockEvaluatorOnce tx).

Record poolIngestParams := mkPoolIngestParams { checkFee : bool; preferSync : bool }.

Definition noEvaluator : error := Errorf "TransactionPool.ingest: no pending block evaluator".
(** The start of [ingest]: wait until the latest block is processed, or too long. *)
Definition awaitLatest (latest : Round) (await : TransactionPool -> TransactionPool) (sync : bool) : M TransactionPool unit := λ pool,
  match tp_pendingBlockEvaluator pool with
  | None => (Err noEvaluator, pool)
  | Some eval =>
    if sync && (bh_Round (be_hdr eval) <=? latest) then
      let pool := await pool in
      match tp_pendingBlockEvaluator pool with None => (Err noEvaluator, pool) | Some _ => (Ok tt, pool) end
    else (Ok tt, pool)
  end.

Definition ingest (latest : Round) (await : TransactionPool -> TransactionPool) (txgroup : list SignedTxn) (params : poolIngestParams)
    : M TransactionPool unit :=
  _ ← awaitLatest latest await (preferSync params);
  pool ← get;
  _ ← (if checkFee params then lift (checkSufficientFee txgroup pool) else mret tt);
  _ ← addToPendingBlockEvaluator txgroup;
  pool ← get;
  put (pool <| tp_rememberedTxGroups ::= λ gs, gs ++ [txgroup] |>
            <| tp_rememberedTxids ::= λ m, foldl (λ m t, <[txID t := t]> m) m txgroup |>).

Definition ingestSingle (latest : Round) (await : TransactionPool -> TransactionPool) (tx : bytes) (params : poolIngestParams)
    : M TransactionPool unit :=
  _ ← awaitLatest latest await (preferSync params);
  _ ← addSingleToPendingBlockEvaluator tx;
  pool ← get;
  put (pool <| tp_rememberedProxyTxGroups ::= λ gs, gs ++ [tx] |> <| tp_rememberedProxyTxids ::= <[hashTx tx := tx]> |>).

Definition remember (latest : Round) (await : TransactionPool -> TransactionPool) (txgroup : list SignedTxn) : M TransactionPool unit :=
  ingest latest await txgroup (mkPoolIngestParams true true).
Definition rememberSingle (latest : Round) (await : TransactionPool -> TransactionPool) (tx : bytes) : M TransactionPool unit :=
  ingestSingle latest await tx (mkPoolIngestParams false true).
(** Without [preferSync] nothing waits. *)
Definition pool_add (txgroup : list SignedTxn) : M TransactionPool unit := ingest 0 id txgroup (mkPoolIngestParams false false).
Definition addProxy (tx : bytes) : M TransactionPool unit := ingestSingle 0 id tx (mkPoolIngestParams false false).

Definition Remember (latest : Round) (acquire await : TransactionPool -> TransactionPool) (txgroup : list SignedTxn) : M TransactionPool unit :=
  pool ← get;
  _ ← lift (checkPendingQueueSize pool);
  _ ← put (acquire pool);
  _ ← wrapErrM "TransactionPool.Remember" (remember latest await (stx_InitCaches <$> txgroup));
  pool ← get;
  put (rememberCommit false pool).
Definition RememberOne (latest : Round) (acquire await : TransactionPool -> TransactionPool) (t : SignedTxn) : M TransactionPool unit :=
  Remember latest acquire await [t].
Definition RememberSingle (latest : Round) (acquire await : TransactionPool -> TransactionPool) (tx : bytes) : M TransactionPool unit :=
  pool ← get;
  _ ← lift (checkPendingQueueSize pool);
  _ ← put (acquire pool);
  _ ← wrapErrM "TransactionPool.Remember" (rememberSingle latest await tx);
  pool ← get;
  put (rememberProxyCommit false pool).

(** The transaction, the error if it left the pool. *)
Definition Lookup (txid : Txid) (pool : TransactionPool) : option (SignedTxn * option error) :=
  match tp_pendingTxids pool !! txid with
  | Some tx => Some (tx, None)
  | None => (λ ent, (sce_tx ent, Some (sce_txErr ent))) <$> sc_check (tp_statusCache pool) txid
  end.

Definition Verified (txn : SignedTxn) (pool : TransactionPool) : bool :=
  match tp_pendingTxids pool !! txID txn with
  | None => false
  | Some p => bool_decide (stx_Sig p = stx_Sig txn) && msig_Equal (stx_Msig p) (stx_Msig txn) && lsig_Equal (stx_Lsig p) (stx_Lsig txn)
  end.

Definition EvalOk (cvers : string) (txid : Txid) (pool : TransactionPool) : bool * option error := lec_get (tp_lsigCache pool) cvers txid.
Definition EvalRemember (cvers : string) (txid : Txid) (err : option error) (pool : TransactionPool) : TransactionPool :=
  pool <| tp_lsigCache ::= λ c, lec_put c cvers txid err |>.

(** ** New blocks *)

(** Feed the groups to the evaluator: the number of expired ones. *)
Fixpoint feedGroups (committed : gmap Txid Round) (txgroups : list (list SignedTxn)) (expired : Z) : M TransactionPool Z :=
  match txgroups with
  | [] => mret expired
  | txgroup :: txgroups =>
    match txgroup with
    | [] => feedGroups committed txgroups expired
    | tx0 :: _ =>
      if bool_decide (is_Some (committed !! txID tx0)) then feedGroups committed txgroups expired
      else λ pool,
        match pool_add txgroup pool with
        | (Ok _, pool) => feedGroups committed txgroups expired pool
        | (Err e, pool) =>
          feedGroups committed txgroups (match e with TxnDeadError _ _ _ => expired + 1 | _ => expired end)
            (pool <| tp_statusCache ::= λ sc, foldl (λ sc tx, sc_put cr tx e sc) sc txgroup |>)
        | (Panic m, pool) => (Panic m, pool)
        end
    end
  end.
Fixpoint feedProxies (committed : gmap Txid Round) (txs : list bytes) : M TransactionPool unit :=
  match txs with
  | [] => mret tt
  | tx :: txs =>
    if bool_decide (is_Some (committed !! hashTx tx)) then feedProxies committed txs
    else λ pool,
      match addProxy tx pool with
      | (Panic m, pool) => (Panic m, pool)
      | (_, pool) => feedProxies committed txs pool
      end
  end.

(** The number of expired transactions. *)
Definition recomputeBlockEvaluator (env : poolEnv) (committed : gmap Txid Round) : M TransactionPool Z := λ pool,
  let pool := pool <| tp_pendingBlockEvaluator := None |> in
  match lfe_BlockHdr (pe_l env) (pe_Latest env) with
  | Panic m => (Panic m, pool)
  | Err _ => (Ok 0, pool)
  | Ok prev =>
    match MakeBlock consensus (en_hashHeader en) (en_Commit en) (pe_proposals env) (pe_now env) prev with
    | Panic m => (Panic m, pool)
    | Err e => (Err e, pool)
    | Ok next =>
      let pool := pool <| tp_numPendingWholeBlocks := 0 |> in
      match startEvaluator consensus en (pe_l env) (blk_BlockHeader next) true true (Some (tp_lsigCache pool)) with
      | Panic m => (Panic m, pool)
      | Err _ => (Ok 0, pool)
      | Ok eval =>
        (expired ← feedGroups committed (tp_pendingTxGroups pool) 0;
         pool ← get;
         _ ← put (rememberCommit true pool);
         _ ← feedProxies committed (tp_pendingProxyTxGroups pool);
         pool ← get;
         _ ← put (rememberProxyCommit true pool);
         mret expired) (pool <| tp_pendingBlockEvaluator := Some eval |>)
      end
    end
  end.

(** The fee multiplier after a block. *)
Definition adjustFees (pool : TransactionPool) : TransactionPool :=
  if tp_numPendingWholeBlocks pool =? 0 then pool <| tp_feeThresholdMultiplier ::= λ m, m / tp_expFeeFactor pool |>
  else if tp_numPendingWholeBlocks pool =? 1 then pool
  else pool <| tp_feeThresholdMultiplier ::= λ m, if m =? 0 then 1 else wrap64 (m * tp_expFeeFactor pool) |>.

Definition OnNewBlock (env : poolEnv) (block : Block) (delta : StateDelta) : M TransactionPool unit :=
  pool ← get;
  let r := bh_Round (blk_BlockHeader block) in
  expired ← (if match tp_pendingBlockEvaluator pool with None => true | Some eval => bh_Round (be_hdr eval) <=? r end then
               _ ← put (adjustFees pool);
               recomputeBlockEvaluator env (sd_Txids delta)
             else mret 0);
  pool ← get;
  let proto := protoOf consensus (bh_CurrentProtocol (blk_BlockHeader block)) in
  put (pool <| tp_expiredTxCount ::= λ m, delete (wrap64 (r - wrap64 (expiredHistory * wrap64 (cp_MaxTxnLife proto)))) (<[r := expired]> m) |>).

(** [MakeTransactionPool], with the fields of the configuration that it reads. *)
Definition MakeTransactionPool (env : poolEnv) (TxPoolSize TxPoolExponentialIncreaseFactor : Z) : result TransactionPool :=
  let factor := if TxPoolExponentialIncreaseFactor <? 1 then 1 else TxPoolExponentialIncreaseFactor in
  let pool := mkTransactionPool ∅ None 0 0 (makeStatusCache TxPoolSize) factor TxPoolSize [] ∅ [] ∅ [] ∅ [] ∅ (makeLsigEvalCache TxPoolSize) in
  match recomputeBlockEvaluator env ∅ pool with
  | (Ok _, pool) => Ok pool
  | (Err e, _) => Err e
  | (Panic m, _) => Panic m
  end.
End Pool.
