(* ===== verification/PoolSpec.v ===== *)
(** The transaction pool agrees with its evaluator.

    [pool_inv] says that the pending groups, in their order, are exactly what the
    pending block evaluator has accepted since it was started, and that the index of
    pending transactions is that of their identifiers.  It holds after any interleaving
    of the pool's methods.  A new block keeps the groups that can still be executed, and
    every other group was committed or has its error in the status cache. *)

From S2P Require Import Prelude Config Basics Transactions TransactionsSpec Bookkeeping BookkeepingSpec Totals Cow Multisig Teal TealSpec Verify Eval EvalSpec Pool.

(** ** The status cache *)

Section StatusCache.
Variable cr : Crypto.
Notation txID := (txID cr).

(** The entry of [id] is [ent], and will be for [k] puts of other transactions. *)
Definition held (k : Z) (sc : statusCache) (id : Txid) (ent : statusCacheEntry) : Prop :=
  sc_cur sc !! id = Some ent \/ (sc_cur sc !! id = None /\ sc_prev sc !! id = Some ent /\ Z.of_nat (size (sc_cur sc)) + k <= sc_sz sc).

Lemma held_check k sc id ent : held k sc id ent -> sc_check sc id = Some ent.
Proof using Type. unfold sc_check. intros [->|(-> & -> & _)]; done. Qed.
Lemma sc_put_sz tx e sc : sc_sz (sc_put cr tx e sc) = sc_sz sc.
Proof using Type. unfold sc_put. by case_match. Qed.
Lemma put_held k tx e sc : held k (sc_put cr tx e sc) (txID tx) (mkStatusCacheEntry tx e).
Proof using Type. left. unfold sc_put. cbn. by rewrite lookup_insert_eq. Qed.
Lemma size_insert_le {V} (m : gmap Txid V) id v : (size (<[id := v]> m) <= S (size m))%nat.
Proof using Type. destruct (m !! id) eqn:E; [rewrite map_size_insert_Some by eauto; lia|by rewrite map_size_insert_None]. Qed.
Lemma held_put k tx e sc id ent : txID tx <> id -> 1 <= k <= sc_sz sc -> held k sc id ent -> held (k - 1) (sc_put cr tx e sc) id ent.
Proof using Type.
  intros Hne Hk. unfold held, sc_put. destruct (sc_sz sc <=? Z.of_nat (size (sc_cur sc))) eqn:E; cbn; rewrite !lookup_insert_ne by done; intros [H|(H & H' & Hs)].
  - right. rewrite lookup_empty, map_size_insert_None, map_size_empty by apply lookup_empty. split_and!; [done..|lia].
  - bool_hyps. lia.
  - by left.
  - right. split_and!; [done..|]. pose proof (size_insert_le (sc_cur sc) (txID tx) (mkStatusCacheEntry tx e)). lia.
Qed.

Definition putAll (puts : list (SignedTxn * error)) (sc : statusCache) : statusCache := foldl (λ sc te, sc_put cr te.1 te.2 sc) sc puts.
Lemma putAll_held puts : forall k sc id ent, id ∉ (txID ∘ fst <$> puts) -> zlen puts <= k <= sc_sz sc -> held k sc id ent ->
  held (k - zlen puts) (putAll puts sc) id ent.
Proof using Type.
  induction puts as [|[t e] puts IH]; intros k sc id ent Hid Hk H; unfold zlen in *; cbn in *; [change (Z.of_nat 0) with 0; rewrite Z.sub_0_r; exact H|].
  apply not_elem_of_cons in Hid as [Hne Hid]. apply held_put with (tx := t) (e := e) in H; [|done|lia].
  apply IH in H; [|done|rewrite sc_put_sz; lia]. by replace (k - Z.of_nat (S (length puts))) with (k - 1 - Z.of_nat (length puts)) by lia.
Qed.
(** A transaction among the last [sz] put, each with another identifier, is found. *)
Lemma putAll_check puts t e sc : NoDup (txID ∘ fst <$> puts) -> zlen puts <= sc_sz sc -> (t, e) ∈ puts ->
  sc_check (putAll puts sc) (txID t) = Some (mkStatusCacheEntry t e).
Proof using Type.
  intros HN Hl (l1 & l2 & ->)%list_elem_of_split. rewrite fmap_app, fmap_cons in HN. apply NoDup_app in HN as (_ & _ & HN). apply NoDup_cons in HN as [Hid _].
  unfold zlen in Hl. rewrite length_app in Hl. cbn in Hl. unfold putAll. rewrite foldl_app. cbn [foldl fst snd].
  assert (forall l sc, sc_sz (foldl (λ sc te, sc_put cr te.1 te.2 sc) sc l) = sc_sz sc) as Hsz.
  { intros l. induction l as [|x l IH]; intros; [done|]. cbn. by rewrite IH, sc_put_sz. }
  eapply held_check, (putAll_held l2 (zlen l2)); [done|rewrite sc_put_sz, Hsz; unfold zlen; lia|apply put_held].
Qed.
End StatusCache.

(** ** The pool and its evaluator *)

Lemma startEvaluator_proxies {Cache} consensus en l hdr v g (c : option Cache) eval : startEvaluator consensus en l hdr v g c = Ok eval ->
  blk_PayProxySet (be_block eval) = [].
Proof.
  unfold startEvaluator. intros H. destruct (consensus !! _) as [proto|]; [|done].
  do 5 (apply result_bind_Ok in H as (? & _ & H)). destruct (ot_Sub false _ _) as [rpu ot]. apply result_bind_Ok in H as ([] & _ & H). destruct (withdrawRewards _ _ _ _ _ _ _) as [[[]| |] st]; [|done..].
  by injection H as <-.
Qed.

Section Spec.
Variable consensus : gmap string ConsensusParams.
Variable cr : Crypto.
Variable en : Encoding.
Variable computeEncodingLen : SignedTxn -> Z.
Variable CheckTx : bytes -> bool.
Variable hashTx : bytes -> Txid.
Notation txID := (txID cr).
Notation be_trace := (be_trace consensus cr en alwaysVerified).
Notation Evaluator := (BlockEvaluator lsigEvalCache).
Notation startEvaluator := (startEvaluator (Cache := lsigEvalCache) consensus en).
Implicit Types P Q : TransactionPool.

Definition proxiesOf (ev : Evaluator) : list bytes := ssb_Tx <$> blk_PayProxySet (be_block ev).

(** The evaluator accepted these transactions, in this order, since it was started. *)
Definition joint (ev : Evaluator) (txs : list SignedTxn) (px : list bytes) : Prop :=
  (exists l hdr c eval0, startEvaluator l hdr true true c = Ok eval0 /\ be_trace eval0 txs ev) /\ proxiesOf ev = px.

Lemma joint_NoDup ev txs px : joint ev txs px -> NoDup (txID <$> txs).
Proof. intros [(l & hdr & c & eval0 & HS & HT) _]. apply (block_ids _ _ _ _ _ _ _ _ _ _ _ HS HT). Qed.

(** [P'] is [P] with the evaluator moved on. *)
Definition moved P P' (txs : list SignedTxn) (px : list bytes) : Prop :=
  exists ev ev' n c, tp_pendingBlockEvaluator P = Some ev /\ be_trace ev txs ev' /\ proxiesOf ev' = proxiesOf ev ++ px /\
    P' = P <| tp_pendingBlockEvaluator := Some ev' |> <| tp_numPendingWholeBlocks := n |> <| tp_lsigCache := c |>.

Lemma moved_trans P P1 P2 t1 t2 p1 p2 : moved P P1 t1 p1 -> moved P1 P2 t2 p2 -> moved P P2 (t1 ++ t2) (p1 ++ p2).
Proof.
  intros (ev & ev1 & n & c & E & T & X & ->) (ev' & ev2 & n2 & c2 & E' & T' & X' & ->). cbn in E'. injection E' as <-.
  exists ev, ev2, n2, c2. split_and!; [done|by eapply trace_app|by rewrite X', X, app_assoc|done].
Qed.
Lemma moved_joint P P' txs px txs0 px0 : moved P P' txs px -> (forall ev, tp_pendingBlockEvaluator P = Some ev -> joint ev txs0 px0) ->
  forall ev, tp_pendingBlockEvaluator P' = Some ev -> joint ev (txs0 ++ txs) (px0 ++ px).
Proof.
  intros (ev & ev' & n & c & E & T & X & ->) HJ e Ee. cbn in Ee. injection Ee as <-. destruct (HJ _ E) as [(l & hdr & c0 & eval0 & HS & HT) Hx].
  split; [|by rewrite X, Hx]. exists l, hdr, c0, eval0. split; [done|]. by eapply trace_app.
Qed.

(** The transactions a call adds to the evaluator. *)
Definition onlyIf {A B} (r : result A) (l : list B) : list B := if is_ok r then l else [].

Lemma group_proxies g rem (eval : Evaluator) r eval' : transactionGroup consensus cr en alwaysVerified g rem eval = (r, eval') -> proxiesOf eval' = proxiesOf eval.
Proof. by intros [(c & ->)|(cow & txibs & n & c & _ & _ & _ & ->)]%transactionGroup_cases. Qed.

Lemma fmap_withAD (g : list SignedTxn) : sad_SignedTxn <$> ((λ tx, mkSignedTxnWithAD tx ApplyData_zero) <$> g) = g.
Proof. rewrite <- list_fmap_compose. apply list_fmap_id. Qed.

Lemma onEval_moved (m : M Evaluator unit) txs px P r P' : onEval m P = (r, P') -> is_panic r = false ->
  (forall ev r ev', m ev = (r, ev') -> is_panic r = false -> be_trace ev (onlyIf r txs) ev' /\ proxiesOf ev' = proxiesOf ev ++ onlyIf r px) ->
  moved P P' (onlyIf r txs) (onlyIf r px).
Proof.
  unfold onEval. intros H Hr Hm. destruct (tp_pendingBlockEvaluator P) as [ev|] eqn:E; [|by injection H as <- _].
  destruct (m _) as [r1 ev'] eqn:Em. injection H as <- <-. apply Hm in Em as [T X]; [|done]. exists ev, ev', (tp_numPendingWholeBlocks P).
  eexists. split_and!; [done| |done|by destruct P]. by eapply bt_cache.
Qed.

Lemma addOnce_moved g P r P' : addToPendingBlockEvaluatorOnce consensus cr en g P = (r, P') -> is_panic r = false -> is_Some (tp_pendingBlockEvaluator P) ->
  moved P P' (onlyIf r g) (onlyIf r []).
Proof.
  unfold addToPendingBlockEvaluatorOnce. intros H Hr [ev E]. rewrite E in H.
  assert (moved P P [] []) as Hid by (exists ev, ev, (tp_numPendingWholeBlocks P), (tp_lsigCache P); split_and!;
    [done|constructor|by rewrite app_nil_r|destruct P; cbn in *; by subst]).
  destruct (checkDeadlines _ _) eqn:Ed; [|by injection H as <- <-..]. eapply onEval_moved; [exact H|done|].
  intros ev0 r0 ev' Hg Hr0. split; [|rewrite (group_proxies _ _ _ _ _ Hg); destruct r0; by rewrite app_nil_r].
  destruct r0 as [[]| |]; cbn; [|by eapply bt_failed; [exact Hg|done|constructor]|done]. rewrite <- (fmap_withAD g), <- (app_nil_r (_ <$> _)).
  eapply bt_group; [exact Hg|constructor].
Qed.
Lemma addSingleOnce_moved tx P r P' : addSingleToPendingBlockEvaluatorOnce en CheckTx tx P = (r, P') -> is_panic r = false ->
  moved P P' (onlyIf r []) (onlyIf r [tx]).
Proof.
  unfold addSingleToPendingBlockEvaluatorOnce. intros H Hr. eapply onEval_moved; [exact H|done|]. intros ev0 r0 ev' Hs Hr0. split.
  - assert (onlyIf r0 [] = @nil SignedTxn) as -> by (by destruct r0). eapply bt_single; [exact Hs|constructor].
  - unfold transactionSingle in Hs. destruct (negb (CheckTx tx)); [injection Hs as <- <-; cbn; by rewrite app_nil_r|].
    destruct (_ && _); injection Hs as <- <-; cbn; [by rewrite app_nil_r|]. unfold proxiesOf. cbn. by rewrite fmap_app.
Qed.

Lemma retry_moved (m : M TransactionPool unit) txs px P r P' : retry m P = (r, P') -> is_panic r = false -> is_Some (tp_pendingBlockEvaluator P) ->
  (forall Q r Q', m Q = (r, Q') -> is_panic r = false -> is_Some (tp_pendingBlockEvaluator Q) -> moved Q Q' (onlyIf r txs) (onlyIf r px)) ->
  moved P P' (onlyIf r txs) (onlyIf r px).
Proof.
  unfold retry. intros H Hr HP Hm. destruct (m P) as [r1 P1] eqn:E.
  destruct r1 as [u|e|]; [|destruct (decide (e = ErrNoSpace)) as [->|Hne]|]; [injection H as <- <-; by apply Hm in E| |destruct e; try done; injection H as <- <-; by apply Hm in E|injection H as <- <-; done].
  apply Hm in E; [|done..]. cbn in E. destruct E as (ev & ev' & n & c & Ep & T & X & ->).
  apply Hm in H; [|done|cbn; eauto]. destruct H as (ev1 & ev2 & n2 & c2 & E1 & T1 & X1 & ->). cbn in E1. injection E1 as <-.
  exists ev, ev2, n2, c2. split_and!; [done| |rewrite X1; change (proxiesOf (ResetTxnBytes ev')) with (proxiesOf ev'); by rewrite X, app_nil_r|by destruct P].
  rewrite <- (app_nil_l (onlyIf r txs)). eapply trace_app; [exact T|]. by apply bt_reset.
Qed.

(** ** Ingesting *)

Definition idmap (l : list SignedTxn) (m : gmap Txid SignedTxn) : gmap Txid SignedTxn := foldl (λ m t, <[txID t := t]> m) m l.

Lemma idmap_union l m : idmap l m = idmap l ∅ ∪ m.
Proof.
  unfold idmap. revert m. induction l as [|t l IH] using rev_ind; intros m; [cbn; by rewrite (left_id_L ∅ (∪))|].
  rewrite !foldl_snoc, IH. by rewrite insert_union_l.
Qed.
Lemma idmap_lookup l id t : NoDup (txID <$> l) -> idmap l ∅ !! id = Some t <-> t ∈ l /\ txID t = id.
Proof.
  unfold idmap. induction l as [|x l IH] using rev_ind; intros HN; [cbn; rewrite lookup_empty; split; [done|intros [[]%elem_of_nil _]]|].
  rewrite fmap_app in HN. apply NoDup_app in HN as (HN & Hd & _). rewrite foldl_snoc, lookup_insert_Some, IH, elem_of_app, list_elem_of_singleton by done.
  split; [intros [[<- <-]|(? & ? & ?)]; tauto|]. intros [[Hin| ->] <-]; [|tauto]. right. split_and!; [|done..].
  intros E. eapply (Hd (txID t)); [by apply list_elem_of_fmap_2|]. rewrite <- E. set_solver.
Qed.

Definition rememberGroup (g : list SignedTxn) P : TransactionPool :=
  P <| tp_rememberedTxGroups ::= λ gs, gs ++ [g] |> <| tp_rememberedTxids ::= idmap g |>.
Definition rememberTx (tx : bytes) P : TransactionPool :=
  P <| tp_rememberedProxyTxGroups ::= λ gs, gs ++ [tx] |> <| tp_rememberedProxyTxids ::= <[hashTx tx := tx]> |>.

Lemma awaitLatest_cases latest await sync P r Q : awaitLatest latest await sync P = (r, Q) -> (Q = P \/ (sync = true /\ Q = await P)) /\
  match r with Ok _ => is_Some (tp_pendingBlockEvaluator Q) | Err _ => tp_pendingBlockEvaluator Q = None | Panic _ => False end.
Proof.
  unfold awaitLatest. intros H. destruct (tp_pendingBlockEvaluator P) as [ev|] eqn:E; [|injection H as <- <-; tauto].
  destruct sync; cbn in H; [|injection H as <- <-; eauto]. destruct (_ <=? _); [|injection H as <- <-; eauto].
  destruct (tp_pendingBlockEvaluator (await P)) eqn:E'; injection H as <- <-; eauto.
Qed.

(** A call either leaves the pool as the wait left it, moves the evaluator without adding,
    or adds and remembers. *)
Definition ingested P (waited : TransactionPool -> Prop) (add : TransactionPool -> TransactionPool) txs px (r : result unit) P' : Prop :=
  exists Q, waited Q /\ ((P' = Q /\ is_ok r = false) \/ exists Q1, moved Q Q1 (onlyIf r txs) (onlyIf r px) /\ P' = if is_ok r then add Q1 else Q1).

Lemma ingest_cases latest await g params P r P' : ingest consensus cr en computeEncodingLen latest await g params P = (r, P') -> is_panic r = false ->
  ingested P (λ Q, Q = P \/ (preferSync params = true /\ Q = await P)) (rememberGroup g) g [] r P'.
Proof.
  unfold ingest, mbind, M_bind. intros H Hr. destruct (awaitLatest _ _ _ P) as [r0 Q] eqn:E0. apply awaitLatest_cases in E0 as [HQ Hev].
  exists Q. split; [done|]. destruct r0 as [[]|e|]; [|injection H as <- <-; by left|done]. cbn [get] in H.
  assert (forall k : M TransactionPool unit, (k Q = (r, P') -> exists Q1, moved Q Q1 (onlyIf r g) (onlyIf r []) /\ P' = if is_ok r then rememberGroup g Q1 else Q1) ->
    (match (if checkFee params then lift (checkSufficientFee computeEncodingLen g Q) else mret tt) Q with
     | (Ok _, s') => k s' | (Err e, s') => (Err e, s') | (Panic p, s') => (Panic p, s') end) = (r, P') ->
    (P' = Q /\ is_ok r = false) \/ exists Q1, moved Q Q1 (onlyIf r g) (onlyIf r []) /\ P' = if is_ok r then rememberGroup g Q1 else Q1) as Hfee.
  { intros k Hk. destruct (checkFee params); [unfold lift; destruct (checkSufficientFee _ _ _) as [[]| |]|]; cbn; intros E; [right; by apply Hk|injection E as <- <-; by left..|right; by apply Hk]. }
  unfold get in H. apply Hfee in H; [exact H|]. clear H Hfee. intros H. destruct (addToPendingBlockEvaluator _ _ _ g Q) as [r1 Q1] eqn:E1.
  assert (is_panic r1 = false) as Hr1 by (destruct r1; [done..|by injection H as <- _]).
  unfold addToPendingBlockEvaluator in E1. apply (retry_moved _ g []) in E1; [|done..|by apply addOnce_moved].
  destruct r1 as [[]| |]; [|injection H as <- <-; exists Q1; done|done]. unfold put in H. injection H as <- <-. exists Q1. split; [done|]. cbn. done.
Qed.

Lemma ingestSingle_cases latest await tx params P r P' : ingestSingle en CheckTx hashTx latest await tx params P = (r, P') -> is_panic r = false ->
  ingested P (λ Q, Q = P \/ (preferSync params = true /\ Q = await P)) (rememberTx tx) [] [tx] r P'.
Proof.
  unfold ingestSingle, mbind, M_bind. intros H Hr. destruct (awaitLatest _ _ _ P) as [r0 Q] eqn:E0. apply awaitLatest_cases in E0 as [HQ Hev].
  exists Q. split; [done|]. destruct r0 as [[]|e|]; [|injection H as <- <-; by left|done]. right.
  destruct (addSingleToPendingBlockEvaluator _ _ tx Q) as [r1 Q1] eqn:E1. assert (is_panic r1 = false) as Hr1 by (destruct r1; [done..|by injection H as <- _]).
  unfold addSingleToPendingBlockEvaluator in E1. apply (retry_moved _ [] [tx]) in E1; [|done..|intros ??????; by apply addSingleOnce_moved].
  destruct r1 as [[]| |]; [|injection H as <- <-; exists Q1; done|done]. injection H as <- <-. exists Q1. split; [done|]. cbn. done.
Qed.

(** ** The invariant *)

Record pool_inv P : Prop := {
  pi_groups : tp_rememberedTxGroups P = [];
  pi_remembered : tp_rememberedTxids P = ∅;
  pi_proxies : tp_rememberedProxyTxGroups P = [];
  pi_nodup : NoDup (txID <$> concat (tp_pendingTxGroups P));
  pi_ids : tp_pendingTxids P = idmap (concat (tp_pendingTxGroups P)) ∅;
  pi_joint : forall ev, tp_pendingBlockEvaluator P = Some ev -> joint ev (concat (tp_pendingTxGroups P)) (tp_pendingProxyTxGroups P)
}.

Lemma inv_moved P P' : pool_inv P -> moved P P' [] [] -> pool_inv P'.
Proof.
  intros [I1 I2 I3 I4 I5 I6] HM. pose proof (moved_joint _ _ _ _ _ _ HM I6) as HJ. rewrite !app_nil_r in HJ.
  destruct HM as (ev & ev' & n & c & E & T & X & ->). by split.
Qed.
Lemma inv_cache P c : pool_inv P -> pool_inv (P <| tp_lsigCache := c |>).
Proof. intros []. by split. Qed.
Lemma inv_expired P m : pool_inv P -> pool_inv (P <| tp_expiredTxCount := m |>).
Proof. intros []. by split. Qed.

Lemma ingested_inv P waited add txs px r P' : ingested P waited add txs px r P' -> (forall Q, waited Q -> pool_inv Q) ->
  if is_ok r then exists Q Q1, pool_inv Q /\ moved Q Q1 txs px /\ P' = add Q1 else pool_inv P'.
Proof.
  intros (Q & HQ & [[-> ->]|(Q1 & HM & ->)]) HI; [by apply HI|]. specialize (HI _ HQ). unfold onlyIf in HM.
  destruct (is_ok r); [by exists Q, Q1|by eapply inv_moved].
Qed.

Lemma rememberCommit_inv P P1 g : pool_inv P -> moved P P1 g [] -> pool_inv (rememberCommit false (rememberGroup g P1)).
Proof.
  intros [I1 I2 I3 I4 I5 I6] HM. pose proof (moved_joint _ _ _ _ _ _ HM I6) as HJ. rewrite app_nil_r in HJ.
  destruct HM as (ev & ev' & n & c & E & T & X & ->). cbn in HJ. specialize (HJ ev' eq_refl).
  assert (concat (tp_pendingTxGroups P ++ (tp_rememberedTxGroups P ++ [g])) = concat (tp_pendingTxGroups P) ++ g) as Ec
    by (rewrite I1, concat_app; cbn; by rewrite app_nil_r).
  split; cbn; rewrite ?Ec; try done.
  - by eapply joint_NoDup.
  - rewrite I2, I5, <- idmap_union. unfold idmap. by rewrite foldl_app.
  - intros e [= <-]. done.
Qed.
Lemma rememberProxyCommit_inv P P1 tx : pool_inv P -> moved P P1 [] [tx] -> pool_inv (rememberProxyCommit false (rememberTx tx P1)).
Proof.
  intros [I1 I2 I3 I4 I5 I6] HM. pose proof (moved_joint _ _ _ _ _ _ HM I6) as HJ. rewrite app_nil_r in HJ.
  destruct HM as (ev & ev' & n & c & E & T & X & ->). cbn in HJ. specialize (HJ ev' eq_refl). split; cbn; try done.
  rewrite I3. intros e [= <-]. done.
Qed.

Lemma wrapErrM_is {A} msg (m : M TransactionPool A) P r P' : wrapErrM msg m P = (r, P') -> exists r0, m P = (r0, P') /\ is_ok r0 = is_ok r /\ is_panic r0 = is_panic r.
Proof. unfold wrapErrM. destruct (m P) as [r0 Q]. intros H. injection H as <- <-. exists r0. by destruct r0. Qed.

Lemma Remember_inv latest acquire await g P r P' : pool_inv P -> pool_inv (acquire P) -> pool_inv (await (acquire P)) ->
  Remember consensus cr en computeEncodingLen latest acquire await g P = (r, P') -> is_panic r = false -> pool_inv P'.
Proof.
  intros HP HA HW H Hr. unfold Remember, mbind, M_bind, get, put, lift in H. destruct (checkPendingQueueSize P) as [[]| |]; [|injection H as <- <-; done..].
  destruct (wrapErrM _ _ _) as [r0 Q] eqn:E. assert (is_panic r0 = false) as Hr0 by (destruct r0; [done..|by injection H as <- _]).
  apply wrapErrM_is in E as (r1 & E & Eok & Ep). apply ingest_cases in E; [|congruence]. apply ingested_inv in E; [|intros Q' [->|[_ ->]]; done].
  rewrite Eok in E. destruct r0 as [[]| |]; [|injection H as <- <-; done..]. injection H as <- <-. destruct E as (Q0 & Q1 & HI & HM & ->). by eapply rememberCommit_inv.
Qed.
Lemma RememberSingle_inv latest acquire await tx P r P' : pool_inv P -> pool_inv (acquire P) -> pool_inv (await (acquire P)) ->
  RememberSingle en CheckTx hashTx latest acquire await tx P = (r, P') -> is_panic r = false -> pool_inv P'.
Proof.
  intros HP HA HW H Hr. unfold RememberSingle, mbind, M_bind, get, put, lift in H. destruct (checkPendingQueueSize P) as [[]| |]; [|injection H as <- <-; done..].
  destruct (wrapErrM _ _ _) as [r0 Q] eqn:E. assert (is_panic r0 = false) as Hr0 by (destruct r0; [done..|by injection H as <- _]).
  apply wrapErrM_is in E as (r1 & E & Eok & Ep). apply ingestSingle_cases in E; [|congruence]. apply ingested_inv in E; [|intros Q' [->|[_ ->]]; done].
  rewrite Eok in E. destruct r0 as [[]| |]; [|injection H as <- <-; done..]. injection H as <- <-. destruct E as (Q0 & Q1 & HI & HM & ->). by eapply rememberProxyCommit_inv.
Qed.

(** ** New blocks *)

(** What feeding the groups [gs] did: [kept] were remembered, [puts] went to the status
    cache; [refused g e]: the pool refused [g] for [e]. *)
Record fed (refused : list SignedTxn -> error -> Prop) (committed : gmap Txid Round) (gs kept : list (list SignedTxn)) (puts : list (SignedTxn * error)) P P' : Prop := {
  fe_moved : exists Q, moved P Q (concat kept) [] /\ P' = Q <| tp_rememberedTxGroups := tp_rememberedTxGroups P ++ kept |>
               <| tp_rememberedTxids := idmap (concat kept) (tp_rememberedTxids P) |> <| tp_statusCache := putAll cr puts (tp_statusCache P) |>;
  fe_sublist : kept `sublist_of` gs;
  fe_puts : puts.*1 ++ concat kept ⊆+ concat gs;
  fe_kept : forall g, g ∈ kept -> exists tx0, head g = Some tx0 /\ committed !! txID tx0 = None;
  fe_fate : forall g, g ∈ gs -> g = [] \/ (exists tx0, head g = Some tx0 /\ is_Some (committed !! txID tx0)) \/ g ∈ kept \/
              exists e, refused g e /\ forall t, t ∈ g -> (t, e) ∈ puts
}.

(** The error for which [g] was refused: the pool's answer to it after it was fed the groups
    before it, from [P] on. *)
Definition refusedFor (committed : gmap Txid Round) (gs : list (list SignedTxn)) (expired : Z) P (g : list SignedTxn) (e : error) : Prop :=
  exists pre post n Q Q', gs = pre ++ g :: post /\
    feedGroups consensus cr en computeEncodingLen committed pre expired P = (Ok n, Q) /\
    pool_add consensus cr en computeEncodingLen g Q = (Err e, Q').

Lemma refused_here committed g gs n P e Q' : pool_add consensus cr en computeEncodingLen g P = (Err e, Q') ->
  refusedFor committed (g :: gs) n P g e.
Proof. intros H. by exists [], gs, n, P, Q'. Qed.
(** What is refused after [g] was fed is refused after [g] and the rest. *)
Lemma refused_later committed g0 gs n P n1 P1 g e :
  (forall pre, feedGroups consensus cr en computeEncodingLen committed (g0 :: pre) n P = feedGroups consensus cr en computeEncodingLen committed pre n1 P1) ->
  refusedFor committed gs n1 P1 g e -> refusedFor committed (g0 :: gs) n P g e.
Proof. intros Hf (pre & post & m & Q & Q' & -> & E1 & E2). exists (g0 :: pre), post, m, Q, Q'. by rewrite Hf. Qed.

Lemma fed_mono (R R' : list SignedTxn -> error -> Prop) committed gs kept puts P P' : (forall g e, R g e -> R' g e) ->
  fed R committed gs kept puts P P' -> fed R' committed gs kept puts P P'.
Proof. intros HR [F1 F2 F3 F4 F5]. split; try done. intros g Hg. destruct (F5 g Hg) as [?|[?|[?|(e & ? & ?)]]]; [tauto..|]. right; right; right. eauto. Qed.

Lemma moved_refl P : is_Some (tp_pendingBlockEvaluator P) -> moved P P [] [].
Proof.
  intros [ev E]. exists ev, ev, (tp_numPendingWholeBlocks P), (tp_lsigCache P). split_and!; [done|constructor|by rewrite app_nil_r|destruct P; cbn in *; by subst].
Qed.
Lemma fed_skip R committed g gs kept puts P P' : (g = [] \/ exists tx0, head g = Some tx0 /\ is_Some (committed !! txID tx0)) -> fed R committed gs kept puts P P' ->
  fed R committed (g :: gs) kept puts P P'.
Proof.
  intros Hg [F1 F2 F3 F4 F5]. split; [done|by apply sublist_cons|cbn; by apply submseteq_inserts_l|done|].
  intros g' [->|Hin]%elem_of_cons; [tauto|by apply F5].
Qed.
Lemma fed_keep R committed g gs kept puts P P1 P' tx0 : head g = Some tx0 -> committed !! txID tx0 = None -> moved P P1 g [] ->
  fed R committed gs kept puts (rememberGroup g P1) P' -> fed R committed (g :: gs) (g :: kept) puts P P'.
Proof.
  intros Hh Hc HM [(Q & HQ & ->) F2 F3 F4 F5]. split.
  - destruct HM as (ev & ev1 & n1 & c1 & E1 & T1 & X1 & ->), HQ as (ev' & ev2 & n2 & c2 & E2 & T2 & X2 & ->). cbn in *. injection E2 as <-.
    exists (P <| tp_pendingBlockEvaluator := Some ev2 |> <| tp_numPendingWholeBlocks := n2 |> <| tp_lsigCache := c2 |>). split.
    + exists ev, ev2, n2, c2. split_and!; [done|by eapply trace_app|by rewrite X2, X1, !app_nil_r|done].
    + rewrite <- app_assoc. unfold idmap. rewrite foldl_app. by destruct P.
  - by apply sublist_skip.
  - cbn. rewrite (Permutation_app_swap_app (puts.*1)). by apply submseteq_skips_l.
  - intros g' [->|Hin]%elem_of_cons; [eauto|by apply F4].
  - intros g' [->|Hin]%elem_of_cons; [right; right; left; set_solver|]. destruct (F5 _ Hin) as [?|[?|[?|?]]]; [tauto..|right; right; left; set_solver|tauto].
Qed.
Lemma fed_refuse R committed g gs kept puts P P1 P' e : moved P P1 [] [] -> R g e ->
  fed R committed gs kept puts (P1 <| tp_statusCache ::= putAll cr ((λ t, (t, e)) <$> g) |>) P' ->
  fed R committed (g :: gs) kept (((λ t, (t, e)) <$> g) ++ puts) P P'.
Proof.
  intros HM HR [(Q & HQ & ->) F2 F3 F4 F5]. split.
  - destruct HM as (ev & ev1 & n1 & c1 & E1 & T1 & X1 & ->), HQ as (ev' & ev2 & n2 & c2 & E2 & T2 & X2 & ->). cbn in *. injection E2 as <-.
    exists (P <| tp_pendingBlockEvaluator := Some ev2 |> <| tp_numPendingWholeBlocks := n2 |> <| tp_lsigCache := c2 |>). split.
    + exists ev, ev2, n2, c2. split_and!; [done|by apply (trace_app _ _ _ _ _ [] _ _ _ T1)|by rewrite X2, X1, !app_nil_r|done].
    + unfold putAll. rewrite foldl_app. by destruct P.
  - by apply sublist_cons.
  - cbn. rewrite fmap_app, <- app_assoc. assert (((λ t, (t, e)) <$> g).*1 = g) as -> by (rewrite <- list_fmap_compose; apply list_fmap_id). by apply submseteq_skips_l.
  - done.
  - intros g' [->|Hin]%elem_of_cons.
    + right; right; right. exists e. split; [done|]. intros t Ht. apply elem_of_app. left. apply list_elem_of_fmap. eauto.
    + destruct (F5 _ Hin) as [?|[?|[?|(e' & ? & He)]]]; [tauto..|]. right; right; right. exists e'. split; [done|]. set_solver.
Qed.

Lemma status_puts P g e : P <| tp_statusCache ::= putAll cr ((λ t, (t, e)) <$> g) |> = P <| tp_statusCache ::= λ sc, foldl (λ sc tx, sc_put cr tx e sc) sc g |>.
Proof. unfold putAll. cbn. by rewrite foldl_fmap. Qed.
Lemma feedGroups_fed committed gs : forall n n' P P', feedGroups consensus cr en computeEncodingLen committed gs n P = (Ok n', P') -> is_Some (tp_pendingBlockEvaluator P) ->
  exists kept puts, fed (refusedFor committed gs n P) committed gs kept puts P P'.
Proof.
  induction gs as [|g gs IH]; intros n n' P P' H Hev.
  - injection H as <- <-. exists [], []. split; try done; [|set_solver..]. exists P. split; [by apply moved_refl|]. rewrite app_nil_r. by destruct P.
  - assert (forall n1 P1, (forall pre, feedGroups consensus cr en computeEncodingLen committed (g :: pre) n P = feedGroups consensus cr en computeEncodingLen committed pre n1 P1) ->
      is_Some (tp_pendingBlockEvaluator P1) -> exists kept puts, fed (refusedFor committed (g :: gs) n P) committed gs kept puts P1 P') as Hgo.
    { intros n1 P1 Hf Hev1. rewrite Hf in H. apply IH in H as (kept & puts & HF); [|done]. exists kept, puts. eapply fed_mono, HF. intros g1 e. by apply refused_later. }
    destruct g as [|tx0 g'].
    { destruct (Hgo n P) as (kept & puts & HF); [done|done|]. exists kept, puts. apply fed_skip; [by left|done]. }
    cbn [feedGroups] in H, Hgo. set (g := tx0 :: g') in *. case_bool_decide as Hc.
    { destruct (Hgo n P) as (kept & puts & HF); [done|done|]. exists kept, puts. apply fed_skip; [right; by exists tx0|done]. }
    apply eq_None_not_Some in Hc. destruct (pool_add _ _ _ _ g P) as [r Q] eqn:Ea. assert (is_panic r = false) as Hr by (by destruct r).
    pose proof Ea as Ea0. unfold pool_add in Ea. apply ingest_cases in Ea as (Q0 & [->|[? _]] & [[-> Hf]|(Q1 & HM & ->)]); [| |done..].
    + destruct r as [|e|]; [done| |done]. edestruct Hgo as (kept & puts & HF); [done|done|]. exists kept, (((λ t, (t, e)) <$> g) ++ puts).
      apply (fed_refuse _ _ _ _ _ _ _ P); [by apply moved_refl|by eapply refused_here|]. by rewrite status_puts.
    + assert (is_Some (tp_pendingBlockEvaluator Q1)) as Hev1 by (destruct HM as (ev & ev' & nn & c & _ & _ & _ & ->); cbn; eauto).
      destruct r as [[]|e|]; [| |done]; cbn in Hgo, HM; (edestruct Hgo as (kept & puts & HF); [done|done|]).
      * exists (g :: kept), puts. by eapply fed_keep.
      * exists kept, (((λ t, (t, e)) <$> g) ++ puts). apply (fed_refuse _ _ _ _ _ _ _ Q1); [done|by eapply refused_here|]. by rewrite status_puts.
Qed.

Lemma feedProxies_moved committed txs : forall P P', feedProxies en CheckTx hashTx committed txs P = (Ok tt, P') -> is_Some (tp_pendingBlockEvaluator P) ->
  exists px Q ids, moved P Q [] px /\ P' = Q <| tp_rememberedProxyTxGroups := tp_rememberedProxyTxGroups P ++ px |> <| tp_rememberedProxyTxids := ids |>.
Proof.
  induction txs as [|tx txs IH]; intros P P' H Hev.
  - injection H as <-. exists [], P, (tp_rememberedProxyTxids P). split; [by apply moved_refl|]. rewrite app_nil_r. by destruct P.
  - cbn [feedProxies] in H. case_bool_decide; [by apply IH|]. destruct (addProxy _ _ _ tx P) as [r Q] eqn:Ea. assert (is_panic r = false) as Hr by (by destruct r).
    unfold addProxy in Ea. apply ingestSingle_cases in Ea as (Q0 & [->|[? _]] & [[-> Hf]|(Q1 & HM & ->)]); [| |done..].
    { destruct r as [|e|]; [done| |done]. by apply IH. }
    destruct HM as (ev & ev1 & n1 & c1 & E1 & T1 & X1 & ->).
    destruct r as [[]|e|]; [| |done]; cbn [is_ok] in H; (apply IH in H as (px & Q & ids & (ev' & ev2 & n2 & c2 & E2 & T2 & X2 & ->) & ->); [|cbn; eauto]);
      cbn in E2; injection E2 as <-; cbn in T1, X1.
    + exists (tx :: px), (P <| tp_pendingBlockEvaluator := Some ev2 |> <| tp_numPendingWholeBlocks := n2 |> <| tp_lsigCache := c2 |>), ids. split.
      * exists ev, ev2, n2, c2. split_and!; [done|by apply (trace_app _ _ _ _ _ [] _ _ _ T1)|by rewrite X2, X1, <- app_assoc|done].
      * cbn. rewrite <- app_assoc. by destruct P.
    + exists px, (P <| tp_pendingBlockEvaluator := Some ev2 |> <| tp_numPendingWholeBlocks := n2 |> <| tp_lsigCache := c2 |>), ids. split.
      * exists ev, ev2, n2, c2. split_and!; [done|by apply (trace_app _ _ _ _ _ [] _ _ _ T1)|by rewrite X2, X1, <- app_assoc|done].
      * cbn. by destruct P.
Qed.

(** The pool before it is refilled: with an evaluator for the block after the latest one. *)
Definition restarted (env : poolEnv) P Ps : Prop := exists prev next eval,
  lfe_BlockHdr (pe_l env) (pe_Latest env) = Ok prev /\
  MakeBlock consensus (en_hashHeader en) (en_Commit en) (pe_proposals env) (pe_now env) prev = Ok next /\
  Eval.startEvaluator consensus en (pe_l env) (blk_BlockHeader next) true true (Some (tp_lsigCache P)) = Ok eval /\
  Ps = P <| tp_numPendingWholeBlocks := 0 |> <| tp_pendingBlockEvaluator := Some eval |>.

(** The pool after a recomputation: without an evaluator and as before, or refilled. *)
Definition refilled (env : poolEnv) (committed : gmap Txid Round) P P' : Prop := exists kept puts Ps, restarted env P Ps /\
  tp_pendingTxGroups P' = kept /\ tp_statusCache P' = putAll cr puts (tp_statusCache P) /\ kept `sublist_of` tp_pendingTxGroups P /\
  puts.*1 ++ concat kept ⊆+ concat (tp_pendingTxGroups P) /\
  (forall g, g ∈ kept -> exists tx0, head g = Some tx0 /\ committed !! txID tx0 = None) /\
  (forall g, g ∈ tp_pendingTxGroups P -> g = [] \/ (exists tx0, head g = Some tx0 /\ is_Some (committed !! txID tx0)) \/ g ∈ kept \/
              exists e, refusedFor committed (tp_pendingTxGroups P) 0 Ps g e /\ forall t, t ∈ g -> (t, e) ∈ puts).

Lemma recompute_Ok env committed P n P' : recomputeBlockEvaluator consensus cr en computeEncodingLen CheckTx hashTx env committed P = (Ok n, P') -> pool_inv P ->
  pool_inv P' /\ (tp_pendingBlockEvaluator P' = None \/ refilled env committed P P').
Proof.
  intros H [I1 I2 I3 I4 I5 I6]. unfold recomputeBlockEvaluator in H.
  assert (forall k, pool_inv (P <| tp_pendingBlockEvaluator := None |> <| tp_numPendingWholeBlocks := k |>)) as Hnone by (intros; split; done).
  destruct (lfe_BlockHdr _ _) as [prev| |] eqn:EH; [|injection H as _ <-; split; [by split|by left]|done]. destruct (MakeBlock _ _ _ _ _ prev) as [blk| |] eqn:EB; [|done..].
  destruct (Eval.startEvaluator _ _ _ _ _ _ _) as [eval0| |] eqn:ES; [|injection H as _ <-; split; [apply Hnone|by left]|done].
  cbn in H. apply M_bind_Ok in H as (ex & P1 & HF & H). apply feedGroups_fed in HF as (kept & puts & HF); [|cbn; eauto].
  inv_ok. match goal with H : feedProxies _ _ _ _ _ _ = (Ok ?u, _) |- _ => destruct u; rename H into HX end. apply feedProxies_moved in HX as (px & Q & ids & HM & ->).
  2: { destruct HF as [(Q & (? & ev & ? & ? & _ & _ & _ & ->) & ->) _ _ _ _]. cbn. eauto. }
  destruct HF as [(Q1 & (ev0 & ev1 & n1 & c1 & E1 & T1 & X1 & ->) & ->) F2 F3 F4 F5]. cbn in E1. injection E1 as <-. cbn in F2, F3, F5.
  destruct HM as (ev & ev2 & n2 & c2 & E2 & T2 & X2 & ->). cbn in E2. injection E2 as <-.
  assert (joint ev2 (concat kept) px) as HJ.
  { split; [|rewrite X2, X1; unfold proxiesOf; by rewrite (startEvaluator_proxies _ _ _ _ _ _ _ _ ES)].
    do 4 eexists. split; [exact ES|]. rewrite <- (app_nil_r (concat kept)). by eapply trace_app. }
  split.
  - split; cbn; rewrite ?I1, ?I2, ?I3; try done; [by eapply joint_NoDup|]. intros e [= <-]. done.
  - right. eexists kept, puts, _. cbn. rewrite I1. split; [|by split_and!]. exists prev, blk, eval0. by split_and!.
Qed.

Notation OnNewBlock := (OnNewBlock consensus cr en computeEncodingLen CheckTx hashTx).

(** Whether [OnNewBlock] starts a new evaluator. *)
Definition behind P (r : Round) : Prop := forall ev, tp_pendingBlockEvaluator P = Some ev -> bh_Round (be_hdr ev) <= r.

Lemma adjustFees_inv P : pool_inv P -> pool_inv (adjustFees P).
Proof. intros []. unfold adjustFees. repeat case_match; by split. Qed.
Lemma adjustFees_queue P : tp_pendingTxGroups (adjustFees P) = tp_pendingTxGroups P /\ tp_statusCache (adjustFees P) = tp_statusCache P.
Proof. unfold adjustFees. by repeat case_match. Qed.

Lemma OnNewBlock_Ok env b d P P' : OnNewBlock env b d P = (Ok tt, P') -> pool_inv P ->
  pool_inv P' /\ (behind P (bh_Round (blk_BlockHeader b)) -> tp_pendingBlockEvaluator P' = None \/ refilled env (sd_Txids d) (adjustFees P) P').
Proof.
  intros H HI. unfold Pool.OnNewBlock in H. apply M_bind_Ok in H as (P0 & s0 & E0 & H). injection E0 as <- <-.
  apply M_bind_Ok in H as (n & P1 & E1 & H). cbn in H. injection H as <-.
  destruct (match tp_pendingBlockEvaluator P with None => true | Some eval => bh_Round (be_hdr eval) <=? bh_Round (blk_BlockHeader b) end) eqn:Eb.
  - apply M_bind_Ok in E1 as ([] & s1 & Es & E1). injection Es as <-. apply recompute_Ok in E1 as [HI1 HR]; [|by apply adjustFees_inv].
    split; [by apply inv_expired|]. intros _. destruct HR as [?|HR]; [by left|right]. exact HR.
  - injection E1 as <- <-. split; [by apply inv_expired|]. intros Hb. destruct (tp_pendingBlockEvaluator P) as [ev|] eqn:Ee; [|done].
    specialize (Hb ev Ee). apply Z.leb_gt in Eb. lia.
Qed.

Lemma Make_inv env sz f P : MakeTransactionPool consensus cr en computeEncodingLen CheckTx hashTx env sz f = Ok P -> pool_inv P.
Proof.
  unfold MakeTransactionPool. intros H. destruct (recomputeBlockEvaluator _ _ _ _ _ _ _ _ _) as [[n| |] Q] eqn:E; [|done..]. injection H as <-.
  apply recompute_Ok in E; [tauto|]. split; try done. constructor.
Qed.

(** Interleavings of the pool's methods.  While a caller of [Remember] waits for the lock
    or for a new block, others move the pool from [Q] to [Q1] and from [Q1] to [Q2]. *)
Inductive pool_steps : TransactionPool -> TransactionPool -> Prop :=
| ps_refl P : pool_steps P P
| ps_Remember P Q Q1 Q2 latest g r P' : pool_steps P Q -> pool_steps Q Q1 -> pool_steps Q1 Q2 ->
    Remember consensus cr en computeEncodingLen latest (λ _, Q1) (λ _, Q2) g Q = (r, P') -> is_panic r = false -> pool_steps P P'
| ps_RememberSingle P Q Q1 Q2 latest tx r P' : pool_steps P Q -> pool_steps Q Q1 -> pool_steps Q1 Q2 ->
    RememberSingle en CheckTx hashTx latest (λ _, Q1) (λ _, Q2) tx Q = (r, P') -> is_panic r = false -> pool_steps P P'
| ps_OnNewBlock P Q env b d P' : pool_steps P Q -> OnNewBlock env b d Q = (Ok tt, P') -> pool_steps P P'
| ps_EvalRemember P Q cvers txid err : pool_steps P Q -> pool_steps P (EvalRemember cvers txid err Q).

Lemma steps_inv P P' : pool_steps P P' -> pool_inv P -> pool_inv P'.
Proof.
  induction 1 as [|? ? ? ? ? ? ? ? _ IH _ IH1 _ IH2 H Hr|? ? ? ? ? ? ? ? _ IH _ IH1 _ IH2 H Hr|? ? ? ? ? ? _ IH H|? ? ? ? ? _ IH]; intros HI; [done|..].
  - eapply Remember_inv; [..|exact H|done]; auto.
  - eapply RememberSingle_inv; [..|exact H|done]; auto.
  - by apply OnNewBlock_Ok in H as [? _]; auto.
  - by apply inv_cache, IH.
Qed.

(** C22: the pool stays consistent.  After any interleaving of [Remember], [RememberSingle],
    [OnNewBlock] and [EvalRemember] from a new pool, the identifiers of the pending
    transactions are distinct, the index finds exactly them, and the pending groups, in
    their order, are what the pending evaluator has accepted on top of the ledger since
    it was started, as are the pending application transactions: together they can be
    executed. *)
Theorem pool_consistent env sz f P0 P : MakeTransactionPool consensus cr en computeEncodingLen CheckTx hashTx env sz f = Ok P0 -> pool_steps P0 P ->
  NoDup (txID <$> concat (Pending P)) /\
  (forall id t, tp_pendingTxids P !! id = Some t <-> t ∈ concat (Pending P) /\ txID t = id) /\
  (forall ev, tp_pendingBlockEvaluator P = Some ev ->
     (exists l hdr c eval0, startEvaluator l hdr true true c = Ok eval0 /\ be_trace eval0 (concat (Pending P)) ev) /\
     ssb_Tx <$> blk_PayProxySet (be_block ev) = tp_pendingProxyTxGroups P).
Proof.
  intros HM HS. apply Make_inv in HM. apply (steps_inv _ _ HS) in HM as [_ _ _ HN HI HJ]. split_and!; [done| |done].
  intros id t. rewrite HI. by apply idmap_lookup.
Qed.

(** C23: a new block loses no transaction silently.  When the pool starts over after a
    block, with an evaluator for the next one, the groups that stay are old ones in their
    order, and none of them begins with a committed transaction.  Of every other group
    either the first transaction is committed (the pool looks at no other), or the pool,
    fed the groups before it, refused it with some error; and if the transactions that
    left the pool fit into the status cache, which the limit on the number of pending
    groups alone does not ensure, [Lookup] reports each transaction of the group with
    that error. *)
Theorem OnNewBlock_fate env sz f P0 P env' b d P' : MakeTransactionPool consensus cr en computeEncodingLen CheckTx hashTx env sz f = Ok P0 -> pool_steps P0 P ->
  behind P (bh_Round (blk_BlockHeader b)) -> OnNewBlock env' b d P = (Ok tt, P') -> tp_pendingBlockEvaluator P' <> None ->
  Pending P' `sublist_of` Pending P /\
  (forall g, g ∈ Pending P' -> exists tx0, head g = Some tx0 /\ sd_Txids d !! txID tx0 = None) /\
  exists Ps, restarted env' (adjustFees P) Ps /\
  (forall g, g ∈ Pending P -> g = [] \/ (exists tx0, head g = Some tx0 /\ is_Some (sd_Txids d !! txID tx0)) \/ g ∈ Pending P' \/
     exists e, refusedFor (sd_Txids d) (Pending P) 0 Ps g e /\
       (zlen (concat (Pending P)) - zlen (concat (Pending P')) <= sc_sz (tp_statusCache P) ->
        forall t, t ∈ g -> Lookup (txID t) P' = Some (t, Some e))).
Proof.
  intros HM HS Hb HO Hev. apply Make_inv in HM. apply (steps_inv _ _ HS) in HM. pose proof (pi_nodup _ HM) as HN.
  apply OnNewBlock_Ok in HO as [HI HR]; [|done]. destruct (adjustFees_queue P) as [Eq Es].
  destruct (HR Hb) as [?|(kept & puts & Ps & HP & <- & Esc & Hsub & Hp & Hk & Hf)]; [done|]. rewrite Eq in *. rewrite Es in *. split_and!; [done..|].
  exists Ps. split; [done|]. intros g Hg. destruct (Hf _ Hg) as [?|[?|[?|(e & Hr & He)]]]; [by left|by right; left|by do 2 right; left|].
  do 3 right. exists e. split; [done|]. intros Hsz t Ht.
  assert (NoDup (txID <$> (puts.*1 ++ concat (Pending P')))) as HN'.
  { apply (fmap_submseteq txID) in Hp. unfold Pending. apply submseteq_Permutation in Hp as [k Hk']. rewrite Hk' in HN. by apply NoDup_app in HN as [? _]. }
  rewrite fmap_app, <- list_fmap_compose in HN'. apply NoDup_app in HN' as (HN1 & Hd & _). unfold Lookup.
  replace (tp_pendingTxids P' !! txID t) with (@None SignedTxn).
  - rewrite Esc, (putAll_check _ _ t e); [done|done| |by apply He]. apply submseteq_length in Hp. rewrite length_app, length_fmap in Hp. unfold zlen, Pending in *. lia.
  - symmetry. rewrite (pi_ids _ HI). apply eq_None_not_Some. intros [t' [Ht' Eid]%(idmap_lookup _ _ _ (pi_nodup _ HI))]. eapply (Hd (txID t)).
    + apply list_elem_of_fmap. exists (t, e). split; [done|by apply He].
    + rewrite <- Eid. by apply list_elem_of_fmap_2.
Qed.
End Spec.

(** ** The fee threshold *)

Section Fees.
Variable computeEncodingLen : SignedTxn -> Z.
Notation lengthOf := (GetEncodedLength computeEncodingLen).

(** The fee per byte before the exponential part. *)
Definition baseFee (P : TransactionPool) : Z :=
  if (tp_feeThresholdMultiplier P =? 0) && (1 <? tp_numPendingWholeBlocks P) then 1 else tp_feeThresholdMultiplier P.

Lemma iter_wrap (a b : Z) (k : nat) : u64 b -> Nat.iter k (λ f, wrap64 (f * a)) b = wrap64 (b * a ^ Z.of_nat k).
Proof using Type.
  intros Hb. induction k as [|k IH]; [change (Z.of_nat 0) with 0; rewrite Z.pow_0_r, Z.mul_1_r; symmetry; by apply wrap64_small|].
  cbn [Nat.iter nat_rect]. change (nat_rect _ _ _ k) with (Nat.iter k (λ f, wrap64 (f * a)) b). rewrite IH, Nat2Z.inj_succ, Z.pow_succ_r by lia.
  unfold wrap64. rewrite Z.mul_mod_idemp_l by lia. f_equal. ring.
Qed.
Lemma feePerByte_closed P : u64 (tp_feeThresholdMultiplier P) -> 0 <= tp_numPendingWholeBlocks P < 2 ^ 63 ->
  feePerByte P = wrap64 (baseFee P * tp_expFeeFactor P ^ Z.max 0 (tp_numPendingWholeBlocks P - 1)).
Proof using Type.
  intros Hm Hn. unfold feePerByte. cbv zeta. rewrite Z.mul_1_l, (wrap64_small _ Hm). fold (baseFee P).
  assert (forall z, - 2 ^ 63 <= z < 2 ^ 63 -> wrapS64 z = z) as Hw by (intros z Hz; unfold wrapS64; rewrite Z.mod_small; lia).
  rewrite (Hw (tp_numPendingWholeBlocks P)), Hw by lia. rewrite iter_wrap; [do 3 f_equal; lia|].
  unfold baseFee. case_match; [unfold u64; lia|done].
Qed.
Lemma checkFees_Forall f g : checkFees computeEncodingLen f g = Ok tt <-> Forall (λ t, wrap64 (f * wrap64 (lengthOf t)) <= hdr_Fee (stx_Header t)) g.
Proof using Type.
  induction g as [|t g IH]; [done|]. cbn. rewrite Forall_cons. destruct (_ <? _) eqn:E; bool_hyps; [split; [done|intros [? _]; lia]|]. rewrite IH. tauto.
Qed.

(** the fee check is the documented formula, modulo 2^64: a group passes exactly if
    each transaction pays, per byte of its encoding, the multiplier (at least 1 under
    load) times the growth factor to the power of the whole blocks pending beyond the
    first, all reduced to 64 bits. *)
Theorem fee_threshold P g : u64 (tp_feeThresholdMultiplier P) -> 0 <= tp_numPendingWholeBlocks P < 2 ^ 63 ->
  checkSufficientFee computeEncodingLen g P = Ok tt <->
  Forall (λ t, wrap64 (baseFee P * tp_expFeeFactor P ^ Z.max 0 (tp_numPendingWholeBlocks P - 1) * lengthOf t) <= hdr_Fee (stx_Header t)) g.
Proof using Type.
  intros Hm Hn. unfold checkSufficientFee. rewrite checkFees_Forall, feePerByte_closed by done.
 apply Forall_iff. intros t. unfold wrap64. by rewrite <- Z.mul_mod by lia.
Qed.

(** With the default growth factor the threshold is zero once 65 whole blocks are pending. *)
Lemma fee_threshold_wraps P g : u64 (tp_feeThresholdMultiplier P) -> tp_expFeeFactor P = 2 -> 65 <= tp_numPendingWholeBlocks P < 2 ^ 63 ->
  Forall (λ t, 0 <= hdr_Fee (stx_Header t)) g -> checkSufficientFee computeEncodingLen g P = Ok tt.
Proof using Type.
  intros Hm Hf Hn Hg. unfold checkSufficientFee. apply checkFees_Forall. rewrite feePerByte_closed by (done || lia).
  assert (wrap64 (baseFee P * tp_expFeeFactor P ^ Z.max 0 (tp_numPendingWholeBlocks P - 1)) = 0) as ->.
  { rewrite Hf. replace (Z.max 0 (tp_numPendingWholeBlocks P - 1)) with ((tp_numPendingWholeBlocks P - 65) + 64) by lia.
    rewrite Z.pow_add_r, Z.mul_assoc by lia. unfold wrap64. apply Z.mod_mul. lia. }
  eapply Forall_impl; [exact Hg|]. intros t Ht. rewrite Z.mul_0_l. exact Ht.
Qed.
End Fees.

Module PoolWitness.
Import EvalSpec.EvalWitness.

Definition lenOf (_ : SignedTxn) : Z := 200.
Definition check (_ : bytes) : bool := true.
Definition env9 : poolEnv := mkPoolEnv 9 l0 [] 1001.
Definition empty : TransactionPool :=
  mkTransactionPool ∅ None 0 0 (makeStatusCache 100) 2 100 [] ∅ [] ∅ [] ∅ [] ∅ (makeLsigEvalCache 100).
Definition make : result TransactionPool := MakeTransactionPool Consensus cr0 en0 lenOf check id env9 100 2.
Definition pool0 : TransactionPool := match make with Ok p => p | _ => empty end.
Definition remembered1 : result unit * TransactionPool := Remember Consensus cr0 en0 lenOf 9 (λ _, pool0) (λ _, pool0) [stx] pool0.
Definition pool1 : TransactionPool := remembered1.2.

Lemma make_ok : MakeTransactionPool Consensus cr0 en0 lenOf check id env9 100 2 = Ok pool0.
Proof.
  change (make = Ok pool0). assert (is_ok make = true) as H by (vm_compute; reflexivity). unfold pool0. destruct make; [reflexivity|discriminate H..].
Qed.
Lemma pool1_steps : pool_steps Consensus cr0 en0 lenOf check id pool0 pool1.
Proof.
  eapply (ps_Remember _ _ _ _ _ _ pool0 pool0 pool0 pool0 9 [stx] (Ok tt)); [constructor..| |done].
  change (remembered1 = (Ok tt, pool1)). unfold pool1. assert (remembered1.1 = Ok tt) as H by (vm_compute; reflexivity).
  destruct remembered1. cbn in *. by subst.
Qed.

Lemma pool_consistent_witness : NoDup (txID cr0 <$> concat (Pending pool1)) /\ length (concat (Pending pool1)) = 1%nat.
Proof.
  split; [|vm_compute; reflexivity]. exact (proj1 (pool_consistent Consensus cr0 en0 lenOf check id env9 100 2 pool0 pool1 make_ok pool1_steps)).
Defined.

(** The next block: the ledger now knows the transaction by other means, so it is refused. *)
Definition l1 : ledgerForEvaluator := mkLedgerForEvaluator (lfe_GenesisHash l0) (lfe_BlockHdr l0) (lfe_Lookup l0) (lfe_Totals l0)
  (λ _ _ _ _ _ _, Ok true) (lfe_LookupWithoutRewards l0) (lfe_GetAssetCreatorForRound l0).
Definition env10 : poolEnv := mkPoolEnv 9 l1 [] 1001.
Definition block10 : Block := mkBlock hdr10 [] [].
Definition newBlock10 : result unit * TransactionPool :=
  OnNewBlock Consensus cr0 en0 lenOf check id env10 block10 (emptyDelta hdr10) pool1.
Definition pool2 : TransactionPool := newBlock10.2.

Lemma behind10 : behind pool1 (bh_Round (blk_BlockHeader block10)).
Proof.
  assert (match tp_pendingBlockEvaluator pool1 with Some ev => bh_Round (be_hdr ev) <=? bh_Round (blk_BlockHeader block10) | None => true end = true) as H
    by (vm_compute; reflexivity).
  intros ev E. rewrite E in H. by apply Z.leb_le.
Qed.
Lemma newBlock10_ok : OnNewBlock Consensus cr0 en0 lenOf check id env10 block10 (emptyDelta hdr10) pool1 = (Ok tt, pool2).
Proof.
  change (newBlock10 = (Ok tt, pool2)). unfold pool2. assert (newBlock10.1 = Ok tt) as H by (vm_compute; reflexivity). destruct newBlock10. cbn in *. by subst.
Qed.
Lemma pool2_eval : tp_pendingBlockEvaluator pool2 <> None.
Proof.
  assert (match tp_pendingBlockEvaluator pool2 with Some _ => true | None => false end = true) as H by (vm_compute; reflexivity).
  intros E. rewrite E in H. discriminate H.
Qed.
Definition stx1 : SignedTxn := stx_InitCaches cr0 lenOf stx.
Lemma pending1 : Pending pool1 = [[stx1]].
Proof. vm_compute. reflexivity. Qed.
Lemma pending2 : Pending pool2 = [].
Proof. vm_compute. reflexivity. Qed.

Lemma OnNewBlock_fate_witness : exists Ps e, restarted Consensus en0 env10 (adjustFees pool1) Ps /\
  refusedFor Consensus cr0 en0 lenOf ∅ [[stx1]] 0 Ps [stx1] e /\ Lookup (txID cr0 stx1) pool2 = Some (stx1, Some e).
Proof.
  destruct (proj2 (proj2 (OnNewBlock_fate Consensus cr0 en0 lenOf check id env9 100 2 pool0 pool1 env10 block10 (emptyDelta hdr10) pool2 make_ok pool1_steps
    behind10 newBlock10_ok pool2_eval))) as (Ps & HP & HF). exists Ps. rewrite pending1, pending2 in HF.
  destruct (HF [stx1]) as [E|[(tx0 & E & Hc)|[Hin|(e & Hr & He)]]].
  - by apply list_elem_of_singleton.
  - discriminate E.
  - destruct Hc as [r Hr]. unfold emptyDelta in Hr. cbn in Hr. rewrite lookup_empty in Hr. discriminate Hr.
  - by apply elem_of_nil in Hin.
  - exists e. split; [exact HP|]. split; [exact Hr|]. apply He; [vm_compute; discriminate|by apply list_elem_of_singleton].
Defined.

(** Under load: 3 whole blocks pending double the fee per byte twice. *)
Definition loaded : TransactionPool := pool1 <| tp_numPendingWholeBlocks := 3 |> <| tp_feeThresholdMultiplier := 1 |>.
Lemma fee_threshold_witness : checkSufficientFee lenOf [stx] loaded = Ok tt.
Proof.
  apply (fee_threshold lenOf loaded [stx]); [vm_compute; split; [discriminate|reflexivity]|vm_compute; split; [discriminate|reflexivity]|].
  repeat constructor. vm_compute. discriminate.
Defined.

(** [Verified] does not compare the programs of logic signatures: with this transaction
    pending, the same one with another program counts as verified. *)
Definition withProgram (program : bytes) : SignedTxn := stx <| stx_Sig := zero64 |> <| stx_Lsig ::= λ s, mkLogicSig program (lsig_Sig s) (lsig_Msig s) (lsig_Args s) |>.
Lemma Verified_ignores_program :
  Verified cr0 (withProgram [1; 32; 1; 0; 34]) (pool1 <| tp_pendingTxids := {[txID cr0 (withProgram [1; 32; 1; 1; 34]) := withProgram [1; 32; 1; 1; 34]]} |>) = true.
Proof. vm_compute. reflexivity. Qed.
End PoolWitness.
