(* ===== verification/AcctUpdates.v ===== *)
(** The accounts tracker (src/ledger/acctupdates.go) and its database
    (src/ledger/accountdb.go): account states of recent rounds over an on-disk base.

    The database is a record of tables.  Account data is stored encoded; the codec
    is the pair of parameters [Encode] and [Decode].  An SQL transaction that fails
    leaves the tables as they were.  The order in which Go visits a map of deltas is
    the parameter [iter]; the clock is an argument of [committedUpTo]. *)

From S2P Require Import Prelude Config Basics Transactions TransactionsSpec Bookkeeping Totals Cow.

Record modifiedAccount := mkModifiedAccount { mac_data : AccountData; mac_ndeltas : Z }.

Record acctDB (Blob : Type) := mkAcctDB {
  db_acctrounds : Round;
  db_accounttotals : AccountTotals;
  db_accountbase : gmap Address Blob;
  db_assetcreators : gmap AssetIndex Address
}.
Arguments mkAcctDB {Blob}. Arguments db_acctrounds {Blob}. Arguments db_accounttotals {Blob}.
Arguments db_accountbase {Blob}. Arguments db_assetcreators {Blob}.
#[export] Instance acctDB_eta Blob : Eta (acctDB Blob) := λ r,
  mkAcctDB (db_acctrounds r) (db_accounttotals r) (db_accountbase r) (db_assetcreators r).

Record accountUpdates (Blob : Type) := mkAccountUpdates {
  au_dbs : acctDB Blob;
  au_dbRound : Round;
  au_deltas : list (gmap Address accountDelta);
  au_accounts : gmap Address modifiedAccount;
  au_assetDeltas : list (gmap AssetIndex modifiedAsset);
  au_assets : gmap AssetIndex modifiedAsset;
  au_protos : list ConsensusParams;
  au_roundTotals : list AccountTotals;
  au_lastFlushTime : Z
}.
Arguments mkAccountUpdates {Blob}. Arguments au_dbs {Blob}. Arguments au_dbRound {Blob}. Arguments au_deltas {Blob}.
Arguments au_accounts {Blob}. Arguments au_assetDeltas {Blob}. Arguments au_assets {Blob}. Arguments au_protos {Blob}.
Arguments au_roundTotals {Blob}. Arguments au_lastFlushTime {Blob}.
#[export] Instance accountUpdates_eta Blob : Eta (accountUpdates Blob) := λ r,
  mkAccountUpdates (au_dbs r) (au_dbRound r) (au_deltas r) (au_accounts r) (au_assetDeltas r) (au_assets r) (au_protos r)
    (au_roundTotals r) (au_lastFlushTime r).

Section AcctUpdates.
Context {Blob : Type}.
Variable consensus : gmap string ConsensusParams.
Variable Encode : AccountData -> Blob.
Variable Decode : Blob -> result AccountData.
Variable iter : gmap Address accountDelta -> list (Address * accountDelta).
Notation acctDB := (acctDB Blob).
Notation accountUpdates := (accountUpdates Blob).

(** ** The database *)

Definition qs_lookup (db : acctDB) (addr : Address) : result AccountData :=
  match db_accountbase db !! addr with
  | Some buf => Decode buf
  | None => Ok AccountData_zero
  end.
Definition qs_lookupAssetCreator (db : acctDB) (assetIdx : AssetIndex) : result Address :=
  match db_assetcreators db !! assetIdx with
  | Some addr => Ok addr
  | None => Err (Errorf "asset does not exist or has been deleted")
  end.

(** The rows of [accountsAll], decoded in key order; any failure fails the query. *)
Fixpoint decodeRows (rows : list (Address * Blob)) : result (gmap Address AccountData) :=
  match rows with
  | [] => Ok ∅
  | (addr, buf) :: rows => data ← Decode buf; bals ← decodeRows rows; Ok (<[addr := data]> bals)
  end.
Definition accountsAll (db : acctDB) : result (gmap Address AccountData) := decodeRows (map_to_list (db_accountbase db)).

(** Insertion and deletion of the rows of [assetcreators]: inserting an existing
    primary key is a constraint error. *)
Fixpoint writeCreators (addr : Address) (l : list (AssetIndex * modifiedAsset)) (t : gmap AssetIndex Address)
    : result (gmap AssetIndex Address) :=
  match l with
  | [] => Ok t
  | (aidx, delta) :: l =>
    t ← (if ma_created delta then
           if bool_decide (t !! aidx = None) then Ok (<[aidx := addr]> t) else Err (Errorf "UNIQUE constraint failed")
         else Ok (delete aidx t));
    writeCreators addr l t
  end.

Definition writeBase (addr : Address) (new : AccountData) (t : gmap Address Blob) : gmap Address Blob :=
  if IsZero new then delete addr t else <[addr := Encode new]> t.

(** The loop of [accountsNewRound]. *)
Fixpoint newRoundLoop (proto : ConsensusParams) (l : list (Address * accountDelta)) (db : acctDB) (t : AccountTotals) (ot : bool)
    : result (acctDB * AccountTotals * bool) :=
  match l with
  | [] => Ok (db, t, ot)
  | (addr, data) :: l =>
    let db := db <| db_accountbase ::= writeBase addr (acd_new data) |> in
    r ← delAccount proto (acd_old data) t ot;
    r ← addAccount proto (acd_new data) r.1 r.2;
    ac ← writeCreators addr (map_to_list (getChangedAssetIndices addr data)) (db_assetcreators db);
    newRoundLoop proto l (db <| db_assetcreators := ac |>) r.1 r.2
  end.

Definition accountsNewRound (db : acctDB) (rnd : Round) (updates : gmap Address accountDelta) (rewardsLevel : Z)
    (proto : ConsensusParams) : result acctDB :=
  _ ← guardR (rnd =? wrap64 (db_acctrounds db + 1)) (Errorf "newRound is not immediately after base");
  let '(totals, ot) := at_applyRewards rewardsLevel (db_accounttotals db) false in
  r ← newRoundLoop proto (iter updates) db totals ot;
  let '(db, totals, ot) := r in
  _ ← guardR (negb ot) (Errorf "overflow computing totals");
  Ok (db <| db_acctrounds := rnd |> <| db_accounttotals := totals |>).

(** ** Queries *)

Definition latest (au : accountUpdates) : Round := wrap64 (au_dbRound au + zlen (au_deltas au)).

Definition roundOffset (au : accountUpdates) (rnd : Round) : result nat :=
  if rnd <? au_dbRound au then Err (Errorf "round before dbRound")
  else
    let off := rnd - au_dbRound au in
    if zlen (au_deltas au) <? off then Err (Errorf "round too high") else Ok (Z.to_nat off).

(** Newest first search of the first [offset] deltas. *)
Fixpoint findDelta {K V} `{Countable K} (deltas : list (gmap K V)) (offset : nat) (k : K) : option V :=
  match offset with
  | O => None
  | S offset => match deltas !! offset with
                | Some d => match d !! k with Some v => Some v | None => findDelta deltas offset k end
                | None => findDelta deltas offset k
                end
  end.

Definition lookupRaw (au : accountUpdates) (offset : nat) (addr : Address) : result AccountData :=
  let found := if (offset =? length (au_deltas au))%nat then mac_data <$> au_accounts au !! addr
               else acd_new <$> findDelta (au_deltas au) offset addr in
  match found with
  | Some data => Ok data
  | None => qs_lookup (au_dbs au) addr
  end.

Definition au_lookup (au : accountUpdates) (rnd : Round) (addr : Address) (withRewards : bool) : result AccountData :=
  offset ← roundOffset au rnd;
  data ← lookupRaw au offset addr;
  if withRewards then
    match au_roundTotals au !! offset, au_protos au !! offset with
    | Some totals, Some proto => WithUpdatedRewards data proto (at_RewardsLevel totals)
    | _, _ => Panic "index out of range"
    end
  else Ok data.

Definition allBalances (au : accountUpdates) (rnd : Round) : result (gmap Address AccountData) :=
  offsetLimit ← roundOffset au rnd;
  bals ← accountsAll (au_dbs au);
  Ok (foldl (λ bals delta, (acd_new <$> delta) ∪ bals) bals (take offsetLimit (au_deltas au))).

Definition creatorOf (d : modifiedAsset) : result Address :=
  if ma_created d then Ok (ma_creator d) else Err (Errorf "asset has been deleted").
Definition getAssetCreatorForRound (au : accountUpdates) (rnd : Round) (aidx : AssetIndex) : result Address :=
  offset ← roundOffset au rnd;
  let found := if (offset =? length (au_deltas au))%nat then au_assets au !! aidx
               else findDelta (au_assetDeltas au) offset aidx in
  match found with
  | Some d => creatorOf d
  | None => qs_lookupAssetCreator (au_dbs au) aidx
  end.

Definition au_totals (au : accountUpdates) (rnd : Round) : result AccountTotals :=
  offset ← roundOffset au rnd;
  match au_roundTotals au !! offset with Some t => Ok t | None => Panic "index out of range" end.

(** ** A new block *)

(** [au.accounts[addr]] after one more change. *)
Definition bumpAccount (addr : Address) (new : AccountData) (m : gmap Address modifiedAccount) : gmap Address modifiedAccount :=
  <[addr := mkModifiedAccount new (default 0 (mac_ndeltas <$> m !! addr) + 1)]> m.
(** [au.assets] after the changes [adeltas] of account [addr]. *)
Definition bumpAssets (addr : Address) (adeltas m : gmap AssetIndex modifiedAsset) : gmap AssetIndex modifiedAsset :=
  merge (λ d old, match d with
                  | Some d => Some (mkModifiedAsset (ma_created d) addr (default 0 (ma_ndeltas <$> old) + 1))
                  | None => old
                  end) adeltas m.

(** The loop over [delta.accts], and the totals with their overflow flag. *)
Fixpoint newBlockLoop (proto : ConsensusParams) (l : list (Address * accountDelta)) (accounts : gmap Address modifiedAccount)
    (assets assetDeltas : gmap AssetIndex modifiedAsset) (t : AccountTotals) (ot : bool)
    : result (gmap Address modifiedAccount * gmap AssetIndex modifiedAsset * gmap AssetIndex modifiedAsset * AccountTotals * bool) :=
  match l with
  | [] => Ok (accounts, assets, assetDeltas, t, ot)
  | (addr, data) :: l =>
    r ← delAccount proto (acd_old data) t ot;
    r ← addAccount proto (acd_new data) r.1 r.2;
    let adeltas := getChangedAssetIndices addr data in
    newBlockLoop proto l (bumpAccount addr (acd_new data) accounts) (bumpAssets addr adeltas assets)
      (adeltas ∪ assetDeltas) r.1 r.2
  end.

Definition newBlock (blk : Block) (delta : StateDelta) (au : accountUpdates) : result accountUpdates :=
  let proto := protoOf consensus (bh_CurrentProtocol (blk_BlockHeader blk)) in
  let rnd := bh_Round (blk_BlockHeader blk) in
  if rnd <=? latest au then Ok au
  else if negb (rnd =? wrap64 (latest au + 1)) then Panic "accountUpdates: newBlock too far in the future"
  else match last (au_roundTotals au) with
       | None => Panic "index out of range"
       | Some newTotals =>
         allBefore ← All newTotals;
         let '(newTotals, ot) := at_applyRewards (bh_RewardsLevel (sd_hdr delta)) newTotals false in
         r ← newBlockLoop proto (iter (sd_accts delta)) (au_accounts au) (au_assets au) ∅ newTotals ot;
         let '(accounts, assets, newAssetDeltas, newTotals, ot) := r in
         if (ot : bool) then Panic "accountUpdates: newBlock overflowed totals"
         else
           allAfter ← All newTotals;
           if negb (allBefore =? allAfter) then Panic "accountUpdates: sum of money changed"
           else Ok (au <| au_deltas ::= λ l, l ++ [sd_accts delta] |> <| au_protos ::= λ l, l ++ [proto] |>
                       <| au_assetDeltas ::= λ l, l ++ [newAssetDeltas] |> <| au_accounts := accounts |>
                       <| au_assets := assets |> <| au_roundTotals ::= λ l, l ++ [newTotals] |>)
       end.

(** ** Flushing *)

(** How often a key occurs in a list of maps. *)
Definition flushcount {K V} `{Countable K} (l : list (gmap K V)) : gmap K Z :=
  foldl (λ (cnt : gmap K Z) (d : gmap K V), union_with (λ a b, Some (a + b)) cnt ((λ _, 1) <$> d)) ∅ l.

Definition dropAccount (addr : Address) (cnt : Z) (m : gmap Address modifiedAccount) : result (gmap Address modifiedAccount) :=
  match m !! addr with
  | None => Panic "inconsistency: flushed changes, but not in au.accounts"
  | Some macct =>
    if mac_ndeltas macct <? cnt then Panic "inconsistency: flushed changes, but au.accounts had fewer"
    else let n := mac_ndeltas macct - cnt in
         Ok (if n =? 0 then delete addr m else <[addr := mkModifiedAccount (mac_data macct) n]> m)
  end.
Definition dropAsset (aidx : AssetIndex) (cnt : Z) (m : gmap AssetIndex modifiedAsset) : result (gmap AssetIndex modifiedAsset) :=
  match m !! aidx with
  | None => Panic "inconsistency: flushed changes to asset, but not in au.assets"
  | Some masset =>
    if ma_ndeltas masset <? cnt then Panic "inconsistency: flushed changes to asset, but au.assets had fewer"
    else let n := ma_ndeltas masset - cnt in
         Ok (if n =? 0 then delete aidx m else <[aidx := masset <| ma_ndeltas := n |>]> m)
  end.
Fixpoint dropAll {K V} (drop1 : K -> Z -> V -> result V) (l : list (K * Z)) (m : V) : result V :=
  match l with
  | [] => Ok m
  | (k, cnt) :: l => m ← drop1 k cnt m; dropAll drop1 l m
  end.

(** The transaction that moves the base forward by [offset] rounds. *)
Fixpoint flushRounds (base : Round) (deltas : list (gmap Address accountDelta)) (totals : list AccountTotals)
    (protos : list ConsensusParams) (db : acctDB) : result acctDB :=
  match deltas, totals, protos with
  | [], _, _ => Ok db
  | d :: deltas, t :: totals, p :: protos =>
    db ← accountsNewRound db (wrap64 (base + 1)) d (at_RewardsLevel t) p;
    flushRounds (wrap64 (base + 1)) deltas totals protos db
  | _, _, _ => Panic "index out of range"
  end.

(** The oldest round still needed, and the tracker; [now] is the time in nanoseconds. *)
Definition committedUpTo (rnd : Round) (now : Z) (au : accountUpdates) : result (Round * accountUpdates) :=
  match last (au_protos au) with
  | None => Panic "index out of range"
  | Some proto =>
    let lookback := cp_MaxBalLookback proto in
    if rnd <? lookback then Ok (0, au)
    else
      let newBase := rnd - lookback in
      if newBase <=? au_dbRound au then Ok (au_dbRound au, au)
      else if latest au <? newBase then Panic "committedUpTo: block too far in the future"
      else if now <=? au_lastFlushTime au + 5000000000 then Ok (au_dbRound au, au)
      else
        let offset := Z.to_nat (newBase - au_dbRound au) in
        match flushRounds (au_dbRound au) (take offset (au_deltas au)) (tail (au_roundTotals au)) (tail (au_protos au)) (au_dbs au) with
        | Panic m => Panic m
        | Err _ => Ok (au_dbRound au, au)
        | Ok db =>
          accounts ← dropAll dropAccount (map_to_list (flushcount (take offset (au_deltas au)))) (au_accounts au);
          assets ← dropAll dropAsset (map_to_list (flushcount (take offset (au_assetDeltas au)))) (au_assets au);
          Ok (newBase, mkAccountUpdates db newBase (drop offset (au_deltas au)) accounts (drop offset (au_assetDeltas au))
                         assets (drop offset (au_protos au)) (drop offset (au_roundTotals au)) now)
        end
  end.
End AcctUpdates.
