(* ===== verification/AcctUpdatesSpec.v ===== *)
(** The accounts tracker keeps a consistent history.

    [au_inv] is the tracker's invariant: the caches of the newest state agree with
    the stack of deltas and count, per account and per asset, the deltas that touch
    it.  On top of it: [newBlock] extends the history by one round and changes no
    older one, [committedUpTo] moves rounds into the database without changing what
    any retained round answers, and the totals of every round are the sums over its
    accounts. *)

From S2P Require Import Prelude Config Basics Transactions TransactionsSpec Bookkeeping Totals Cow AcctUpdates.

(** ** Searching a stack of deltas *)

Section Stack.
Context {K V : Type} `{Countable K}.
Implicit Types (l : list (gmap K V)) (k : K).

(** The number of maps of [l] that have key [k]. *)
Definition countIn l k : Z := sumZ (λ d, if decide (is_Some (d !! k)) then 1 else 0) l.

Lemma findDelta_app_le l l' n k : (n <= length l)%nat -> findDelta (l ++ l') n k = findDelta l n k.
Proof. induction n as [|n IH]; intros Hn; [done|]. cbn. by rewrite lookup_app_l, IH by lia. Qed.

Lemma findDelta_app l1 l2 n k : (n <= length l2)%nat ->
  findDelta (l1 ++ l2) (length l1 + n) k =
    match findDelta l2 n k with Some v => Some v | None => findDelta l1 (length l1) k end.
Proof.
  induction n as [|n IH]; intros Hn.
  - rewrite Nat.add_0_r. cbn. by rewrite findDelta_app_le.
  - rewrite Nat.add_succ_r. cbn [findDelta]. rewrite lookup_app_r, IH by lia.
    replace (length l1 + n - length l1)%nat with n by lia.
    destruct (l2 !! n) as [d|] eqn:E; [by destruct (d !! k)|]. apply lookup_ge_None in E. lia.
Qed.

Lemma findDelta_snoc l d k : findDelta (l ++ [d]) (length (l ++ [d])) k =
  match d !! k with Some v => Some v | None => findDelta l (length l) k end.
Proof. rewrite length_app. rewrite findDelta_app by done. cbn. by destruct (d !! k). Qed.

Lemma findDelta_cons d l n k : (n <= length l)%nat ->
  findDelta (d :: l) (S n) k = match findDelta l n k with Some v => Some v | None => d !! k end.
Proof.
  intros Hn. change (d :: l) with ([d] ++ l). change (S n) with (length [d] + n)%nat.
  rewrite findDelta_app by done. destruct (findDelta l n k); [done|]. cbn. by destruct (d !! k).
Qed.

Lemma findDelta_drop l o n k : (o <= n <= length l)%nat ->
  findDelta l n k =
    match findDelta (drop o l) (n - o) k with Some v => Some v | None => findDelta (take o l) o k end.
Proof.
  intros Hn. rewrite <- (take_drop o l) at 1. replace n with (length (take o l) + (n - o))%nat at 1 by (rewrite length_take; lia).
  rewrite findDelta_app by (rewrite length_drop; lia). by rewrite length_take, Nat.min_l by lia.
Qed.

Lemma findDelta_Some l n k v : findDelta l n k = Some v -> exists i d, (i < n)%nat /\ l !! i = Some d /\ d !! k = Some v.
Proof.
  induction n as [|n IH]; [done|]. cbn. destruct (l !! n) as [d|] eqn:E; [destruct (d !! k) as [v'|] eqn:Ed|].
  - intros [= <-]. eauto 6.
  - intros (i & d' & ? & ?)%IH. exists i, d'. split; [lia|done].
  - intros (i & d' & ? & ?)%IH. exists i, d'. split; [lia|done].
Qed.

Lemma countIn_nonneg l k : 0 <= countIn l k.
Proof. apply sumZ_nonneg. intros d _. case_decide; lia. Qed.

Lemma countIn_app l l' k : countIn (l ++ l') k = countIn l k + countIn l' k.
Proof. apply sumZ_app. Qed.

Lemma findDelta_count l k : findDelta l (length l) k = None <-> countIn l k = 0.
Proof.
  induction l as [|d l IH] using rev_ind; [done|]. rewrite findDelta_snoc, countIn_app. unfold countIn at 2. cbn.
  pose proof (countIn_nonneg l k). destruct (d !! k) eqn:E; case_decide as Hd.
  - split; [done|lia].
  - destruct Hd; eauto.
  - destruct Hd. congruence.
  - rewrite IH. lia.
Qed.

Lemma flushcount_lookup l k : flushcount l !! k = if decide (countIn l k = 0) then None else Some (countIn l k).
Proof.
  unfold flushcount. induction l as [|d l IH] using rev_ind; [by rewrite decide_True|].
  rewrite foldl_app. cbn [foldl]. rewrite lookup_union_with, IH, lookup_fmap, countIn_app. unfold countIn at 3 4. cbn.
  pose proof (countIn_nonneg l k). destruct (d !! k) eqn:E.
  - rewrite (decide_True (P := is_Some (Some v))) by eauto. rewrite (decide_False (P := _ + _ = 0)) by lia.
    case_decide; cbn; f_equal; lia.
  - rewrite (decide_False (P := is_Some None)) by (by intros []). rewrite !Z.add_0_r. by case_decide.
Qed.
End Stack.

(** ** Reference-counted caches of the newest value

    [mk v n] is the cached form of value [v] with [n] references, [nd] its count. *)
Section Cache.
Context {K V W : Type} `{Countable K} (mk : V -> Z -> W) (nd : W -> Z).
Context (drop1 : K -> Z -> gmap K W -> result (gmap K W)).
Hypothesis nd_mk : forall v n, nd (mk v n) = n.
Hypothesis mk_ext : forall v v' n n', mk v n = mk v' n -> mk v n' = mk v' n'.
Hypothesis drop1_spec : forall k c v n m, m !! k = Some (mk v n) -> c <= n ->
  drop1 k c m = Ok (if n - c =? 0 then delete k m else <[k := mk v (n - c)]> m).

Definition cache_ok (l : list (gmap K V)) (m : gmap K W) : Prop :=
  forall k, m !! k = (λ v, mk v (countIn l k)) <$> findDelta l (length l) k.

Lemma cache_push l m d m' : cache_ok l m ->
  (forall k, m' !! k = match d !! k with
                       | Some v => Some (mk v (default 0 (nd <$> m !! k) + 1))
                       | None => m !! k
                       end) -> cache_ok (l ++ [d]) m'.
Proof using nd_mk.
  intros Hm Hm' k. rewrite Hm', findDelta_snoc, countIn_app, Hm.
  replace (countIn [d] k) with (if decide (is_Some (d !! k)) then 1 else 0) by (unfold countIn; cbn; lia). destruct (d !! k) as [v|] eqn:E.
  - rewrite decide_True by eauto. cbn. f_equal. f_equal.
    destruct (findDelta l (length l) k) eqn:E'; cbn; [rewrite nd_mk; lia|]. apply findDelta_count in E'. lia.
  - rewrite decide_False by (by intros []). destruct (findDelta l (length l) k); cbn; [|done]. f_equal. f_equal. lia.
Qed.

Lemma dropAll_spec l : forall m, NoDup l.*1 ->
  (forall k c, (k, c) ∈ l -> exists v n, m !! k = Some (mk v n) /\ c <= n) ->
  exists m', dropAll drop1 l m = Ok m' /\
    (forall k c v n, (k, c) ∈ l -> m !! k = Some (mk v n) -> m' !! k = if n - c =? 0 then None else Some (mk v (n - c))) /\
    (forall k, k ∉ l.*1 -> m' !! k = m !! k).
Proof using drop1_spec nd_mk mk_ext.
  induction l as [|[k c] l IH]; intros m Hnd Hin; [exists m; split; [done|]; split; [set_solver|done]|].
  cbn in Hnd. apply NoDup_cons in Hnd as [Hk Hnd]. destruct (Hin k c) as (v & n & Hv & Hc); [set_solver|].
  cbn [dropAll]. rewrite (drop1_spec _ _ _ _ _ Hv Hc). cbn [mbind result_bind]. set (m1 := if n - c =? 0 then _ else _).
  assert (m1 !! k = if n - c =? 0 then None else Some (mk v (n - c))) as H1.
  { unfold m1. destruct (n - c =? 0); [apply lookup_delete_eq|apply lookup_insert_eq]. }
  assert (forall j, j <> k -> m1 !! j = m !! j) as H2.
  { intros j Hj. unfold m1. destruct (n - c =? 0); [by apply lookup_delete_ne|by apply lookup_insert_ne]. }
  assert (forall j c', (j, c') ∈ l -> j <> k) as Hne.
  { intros j c' Hj ->. apply Hk. by apply (list_elem_of_fmap_2 fst) in Hj. }
  destruct (IH m1 Hnd) as (m' & E & HA & HB).
  { intros j c' Hj. rewrite H2 by eauto. apply Hin. set_solver. }
  exists m'. split; [done|]. split.
  - intros j c' v' n' Hj Hv'. apply elem_of_cons in Hj as [[= -> ->]|Hj].
    + rewrite HB, H1 by done. rewrite Hv in Hv'. injection Hv' as Hmk. assert (n = n') as <-.
      { rewrite <- (nd_mk v n), Hmk. apply nd_mk. }
      destruct (n - c =? 0); [done|]. f_equal. by eapply mk_ext.
    + apply (HA j c' v' n'); [done|]. rewrite H2 by eauto. done.
  - intros j Hj. cbn in Hj. rewrite HB by set_solver. apply H2. set_solver.
Qed.

Lemma cache_flush l o m : (o <= length l)%nat -> cache_ok l m ->
  exists m', dropAll drop1 (map_to_list (flushcount (take o l))) m = Ok m' /\ cache_ok (drop o l) m'.
Proof using drop1_spec nd_mk mk_ext.
  intros Ho Hm. assert (forall k, countIn l k = countIn (take o l) k + countIn (drop o l) k) as Hsum.
  { intros k. by rewrite <- countIn_app, take_drop. }
  assert (forall k, findDelta l (length l) k = match findDelta (drop o l) (length (drop o l)) k with
                                               | Some v => Some v | None => findDelta (take o l) (length (take o l)) k end) as Hfind.
  { intros k. rewrite (findDelta_drop l o) by lia. by rewrite length_drop, length_take, Nat.min_l. }
  assert (forall k c, (k, c) ∈ map_to_list (flushcount (take o l)) -> c = countIn (take o l) k /\ c <> 0) as Hin.
  { intros k c Hk. apply elem_of_map_to_list in Hk. rewrite flushcount_lookup in Hk. case_decide; by simplify_eq. }
  destruct (dropAll_spec (map_to_list (flushcount (take o l))) m) as (m' & E & HA & HB).
  - apply NoDup_fst_map_to_list.
  - intros k c Hk. destruct (Hin k c Hk) as [-> Hc]. pose proof (countIn_nonneg (drop o l) k). pose proof (countIn_nonneg (take o l) k).
    rewrite (Hm k), Hsum. destruct (findDelta l (length l) k) as [v|] eqn:Ev; cbn.
    + eexists _, _. split; [done|lia].
    + apply findDelta_count in Ev. rewrite Hsum in Ev. lia.
  - exists m'. split; [done|]. intros k. pose proof (findDelta_count (take o l) k) as H1. pose proof (findDelta_count (drop o l) k) as H2.
    specialize (Hm k). rewrite Hfind, Hsum in Hm. destruct (decide (countIn (take o l) k = 0)) as [E0|E0].
    + rewrite HB; [rewrite Hm, E0, (proj2 H1 E0); by destruct (findDelta (drop o l) _ k)|].
      intros Hk. apply list_elem_of_fmap in Hk as ([? c] & -> & Hk). apply Hin in Hk as [-> ?]. done.
    + assert ((k, countIn (take o l) k) ∈ map_to_list (flushcount (take o l))) as Hk.
      { apply elem_of_map_to_list. rewrite flushcount_lookup. by rewrite decide_False. }
      destruct (findDelta (drop o l) (length (drop o l)) k) as [v|] eqn:Ev; cbn in Hm |- *.
      * rewrite (HA _ _ _ _ Hk Hm). replace (_ + _ - _) with (countIn (drop o l) k) by lia.
        destruct (Z.eqb_spec (countIn (drop o l) k) 0) as [E2|]; [|done]. by apply H2 in E2.
      * rewrite (proj1 H2 eq_refl) in Hm. destruct (findDelta (take o l) _ k) as [v|] eqn:Ev'; cbn in Hm; [|by destruct E0; apply H1].
        rewrite (HA _ _ _ _ Hk Hm). by rewrite (proj2 (Z.eqb_eq _ _)) by lia.
Qed.
End Cache.

(** ** Asset changes of a round *)

(** The union of the asset changes of a list of account changes. *)
Definition chg (l : list (Address * accountDelta)) : gmap AssetIndex modifiedAsset :=
  foldr (λ x m, getChangedAssetIndices x.1 x.2 ∪ m) ∅ l.

(** [m] is the set of asset changes of the account changes [d]; that it is a map
    says that no two accounts change the same asset. *)
Definition assetDelta_of (d : gmap Address accountDelta) (m : gmap AssetIndex modifiedAsset) : Prop :=
  forall i x, m !! i = Some x <-> exists a ad, d !! a = Some ad /\ getChangedAssetIndices a ad !! i = Some x.

(** No asset is created or deleted in two accounts. *)
Definition disjoint_assets (l : list (Address * accountDelta)) : Prop :=
  forall a ad b bd i, (a, ad) ∈ l -> (b, bd) ∈ l -> is_Some (getChangedAssetIndices a ad !! i) ->
    is_Some (getChangedAssetIndices b bd !! i) -> a = b.

Lemma getChanged_creator a ad i x : getChangedAssetIndices a ad !! i = Some x -> ma_creator x = a /\ ma_ndeltas x = 0.
Proof. destruct ad as [o n]. rewrite getChanged_lookup. repeat case_match; by intros [= <-]. Qed.

Lemma chg_Some l i x : chg l !! i = Some x -> exists a ad, (a, ad) ∈ l /\ getChangedAssetIndices a ad !! i = Some x.
Proof.
  induction l as [|[a ad] l IH]; cbn; [by rewrite lookup_empty|]. rewrite lookup_union_Some_raw.
  intros [E|[_ E]]; [|destruct (IH E) as (b & bd & ? & ?)]; eexists _, _; (split; [|done]); set_solver.
Qed.

Lemma chg_is_Some l i a ad : (a, ad) ∈ l -> is_Some (getChangedAssetIndices a ad !! i) -> is_Some (chg l !! i).
Proof.
  induction l as [|[b bd] l IH]; [set_solver|]. cbn [chg foldr fst snd]. fold (chg l).
  intros [[= <- <-]|Hin]%elem_of_cons [x Hx]; rewrite lookup_union.
  - rewrite Hx. destruct (chg l !! i); by eexists.
  - destruct (IH Hin (mk_is_Some _ _ Hx)) as [y ->]. destruct (getChangedAssetIndices b bd !! i); by eexists.
Qed.

Lemma chg_head a ad l i : disjoint_assets ((a, ad) :: l) -> a ∉ l.*1 ->
  is_Some (getChangedAssetIndices a ad !! i) -> chg l !! i = None.
Proof.
  intros HD Ha Hi. destruct (chg l !! i) as [x|] eqn:E; [|done]. apply chg_Some in E as (b & bd & Hb & Hx).
  destruct Ha. rewrite (HD a ad b bd i); [by apply (list_elem_of_fmap_2 fst) in Hb|set_solver..|done|eauto].
Qed.

Lemma disjoint_tail x l : disjoint_assets (x :: l) -> disjoint_assets l.
Proof. intros HD a ad b bd i ? ?. apply HD; by right. Qed.

Section Deltas.
Context (iter : gmap Address accountDelta -> list (Address * accountDelta)).
Hypothesis iter_perm : forall d, iter d ≡ₚ map_to_list d.

Lemma iter_in d a ad : (a, ad) ∈ iter d <-> d !! a = Some ad.
Proof using iter_perm. rewrite iter_perm. apply elem_of_map_to_list. Qed.

Lemma iter_NoDup d : NoDup (iter d).*1.
Proof using iter_perm. rewrite iter_perm. apply NoDup_fst_map_to_list. Qed.

Lemma iter_map d : list_to_map (iter d) = d.
Proof using iter_perm.
  apply map_eq. intros a. apply option_eq. intros ad. rewrite <- elem_of_list_to_map by apply iter_NoDup. apply iter_in.
Qed.

Lemma chg_iter d m : assetDelta_of d m -> chg (iter d) = m.
Proof using iter_perm.
  intros HA. apply map_eq. intros i. destruct (chg (iter d) !! i) as [x|] eqn:E.
  - symmetry. apply HA. apply chg_Some in E as (a & ad & Ha & Hx). apply iter_in in Ha. eauto.
  - destruct (m !! i) as [x|] eqn:Em; [|done]. apply HA in Em as (a & ad & Ha & Hx).
    apply iter_in in Ha. destruct (chg_is_Some _ i _ _ Ha (mk_is_Some _ _ Hx)). congruence.
Qed.

Lemma assetDelta_disjoint d m : assetDelta_of d m -> disjoint_assets (iter d).
Proof using iter_perm.
  intros HA a ad b bd i Ha%iter_in Hb%iter_in [x Hx] [y Hy].
  assert (m !! i = Some x) as E1 by (apply HA; eauto). assert (m !! i = Some y) as E2 by (apply HA; eauto).
  apply getChanged_creator in Hx as [<- _], Hy as [<- _]. congruence.
Qed.

Lemma disjoint_assetDelta d : disjoint_assets (iter d) -> assetDelta_of d (chg (iter d)).
Proof using iter_perm.
  intros HD i x. split.
  - intros (a & ad & Ha & Hx)%chg_Some. apply iter_in in Ha. eauto.
  - intros (a & ad & Ha%iter_in & Hx). destruct (chg_is_Some _ i _ _ Ha (mk_is_Some _ _ Hx)) as [y Hy].
    pose proof (chg_Some _ _ _ Hy) as (b & bd & Hb & Hy'). assert (a = b) as <- by (eapply HD; eauto).
    apply iter_in in Ha, Hb. congruence.
Qed.
End Deltas.

(** ** The database *)

(** What encoding loses: an empty map is decoded as the nil map. *)
Definition canonMap {K V} `{Countable K} (m : option (gmap K V)) : option (gmap K V) :=
  if decide (asmap m = ∅) then None else m.
Definition canon (d : AccountData) : AccountData :=
  d <| ad_AssetParams ::= canonMap |> <| ad_Assets ::= canonMap |>.

Definition result_map {A B} (f : A -> B) (r : result A) : result B := x ← r; Ok (f x).
Definition ok_of {A} (r : result A) : option A := match r with Ok a => Some a | _ => None end.

(** [d'] is [d], with some of its empty maps replaced by nil. *)
Definition mapBelow {K V} `{Countable K} (m m' : option (gmap K V)) : Prop := m' = m \/ asmap m = ∅ /\ m' = None.
Record below (d d' : AccountData) : Prop := {
  bl_AssetParams : mapBelow (ad_AssetParams d) (ad_AssetParams d');
  bl_Assets : mapBelow (ad_Assets d) (ad_Assets d');
  bl_rest : d' = d <| ad_AssetParams := ad_AssetParams d' |> <| ad_Assets := ad_Assets d' |>
}.

Lemma mapBelow_asmap {K V} `{Countable K} (m m' : option (gmap K V)) : mapBelow m m' -> asmap m' = asmap m.
Proof. by intros [->|[-> ->]]. Qed.
Lemma mapBelow_canon {K V} `{Countable K} (m : option (gmap K V)) : mapBelow m (canonMap m).
Proof. unfold canonMap. case_decide; [by right|by left]. Qed.
Lemma mapBelow_canonMap {K V} `{Countable K} (m m' : option (gmap K V)) : mapBelow m m' -> canonMap m' = canonMap m.
Proof. intros [->|[E ->]]; [done|]. unfold canonMap. by rewrite (decide_True (P := asmap m = ∅)) by done. Qed.
Lemma mapBelow_trans {K V} `{Countable K} (m1 m2 m3 : option (gmap K V)) : mapBelow m1 m2 -> mapBelow m2 m3 -> mapBelow m1 m3.
Proof. intros [->|[E ->]] [->|[E' ->]]; [by left|by right|by right|by right]. Qed.

Lemma below_mk d mp ma : mapBelow (ad_AssetParams d) mp -> mapBelow (ad_Assets d) ma -> below d (d <| ad_AssetParams := mp |> <| ad_Assets := ma |>).
Proof. intros H1 H2. by split. Qed.
Lemma below_inv d d' : below d d' -> exists mp ma, mapBelow (ad_AssetParams d) mp /\ mapBelow (ad_Assets d) ma /\
  d' = d <| ad_AssetParams := mp |> <| ad_Assets := ma |>.
Proof. intros [H1 H2 H3]. eauto. Qed.

#[export] Instance below_preorder : PreOrder below.
Proof.
  split.
  - intros d. split; [by left|by left|]. by destruct d.
  - intros d1 d2 d3 (mp & ma & A1 & A2 & ->)%below_inv (mp' & ma' & B1 & B2 & ->)%below_inv. destruct d1. cbn in *.
    split; cbn; [by eapply mapBelow_trans|by eapply mapBelow_trans|done].
Qed.
Lemma below_canon d : below d (canon d).
Proof. destruct d. split; cbn; [apply mapBelow_canon|apply mapBelow_canon|done]. Qed.
Lemma canon_below d d' : below d d' -> canon d' = canon d.
Proof. intros (mp & ma & A1 & A2 & ->)%below_inv. destruct d. unfold canon. cbn in *. by rewrite (mapBelow_canonMap _ _ A1), (mapBelow_canonMap _ _ A2). Qed.

Lemma IsZero_canon d : IsZero d = true -> canon d = AccountData_zero.
Proof.
  unfold IsZero. rewrite bool_decide_eq_true. destruct d. case_bool_decide as E; cbn in *; [|by intros ->].
  subst. intros [= -> -> -> -> -> -> -> -> -> ->]. done.
Qed.

(** The money of an account can be counted in the totals without a panic. *)
Definition countable (p : ConsensusParams) (lvl : Z) (d : AccountData) : Prop :=
  is_Some (ok_of (Money d p lvl)) /\ is_Some (ok_of (RewardUnits (ad_MicroAlgos d) p)).
Definition countable_delta (p : ConsensusParams) (lvl : Z) (ad : accountDelta) : Prop :=
  countable p lvl (acd_old ad) /\ countable p lvl (acd_new ad).

Lemma ok_of_Some {A} (r : result A) : is_Some (ok_of r) <-> exists a, r = Ok a.
Proof. destruct r; cbn; split; intros [? [=]]; subst; eauto. Qed.

Lemma addAccount_countable p d t ot t' ot' : addAccount p d t ot = Ok (t', ot') ->
  countable p (at_RewardsLevel t) d /\ at_RewardsLevel t' = at_RewardsLevel t.
Proof.
  unfold addAccount, countable. intros E. destruct (Money d p _) as [m| |]; cbn in E; try done.
  destruct (RewardUnits _ _) as [u| |]; cbn in E; try done.
  injection E as <- <-. rewrite level_set. cbn. eauto.
Qed.
Lemma delAccount_countable p d t ot t' ot' : delAccount p d t ot = Ok (t', ot') ->
  countable p (at_RewardsLevel t) d /\ at_RewardsLevel t' = at_RewardsLevel t.
Proof.
  unfold delAccount, countable. intros E. destruct (Money d p _) as [m| |]; cbn in E; try done.
  destruct (RewardUnits _ _) as [u| |]; cbn in E; try done.
  injection E as <- <-. rewrite level_set. cbn. eauto.
Qed.
Lemma countable_addAccount p d t ot : countable p (at_RewardsLevel t) d ->
  exists t' ot', addAccount p d t ot = Ok (t', ot') /\ at_RewardsLevel t' = at_RewardsLevel t.
Proof.
  intros [[m Hm]%ok_of_Some [u Hu]%ok_of_Some]. unfold addAccount. rewrite Hm, Hu. cbn.
  eexists _, _. split; [reflexivity|apply level_set].
Qed.
Lemma countable_delAccount p d t ot : countable p (at_RewardsLevel t) d ->
  exists t' ot', delAccount p d t ot = Ok (t', ot') /\ at_RewardsLevel t' = at_RewardsLevel t.
Proof.
  intros [[m Hm]%ok_of_Some [u Hu]%ok_of_Some]. unfold delAccount. rewrite Hm, Hu. cbn.
  eexists _, _. split; [reflexivity|apply level_set].
Qed.

Lemma applyRewards_level lvl t ot : at_RewardsLevel (at_applyRewards lvl t ot).1 = lvl.
Proof.
  unfold at_applyRewards. destruct (ot_Sub ot lvl (at_RewardsLevel t)). destruct (ac_applyRewards _ _ _).
  by destruct (ac_applyRewards _ _ _).
Qed.

(** The creator that a change leaves in the database. *)
Definition creatorRow (x : modifiedAsset) : option Address := if ma_created x then Some (ma_creator x) else None.

Lemma writeCreators_spec addr l : forall t t', NoDup l.*1 -> writeCreators addr l t = Ok t' -> forall i,
  t' !! i = match (list_to_map l : gmap _ _) !! i with
            | Some x => if ma_created x then Some addr else None
            | None => t !! i
            end.
Proof.
  induction l as [|[j x] l IH]; intros t t' Hnd E i; [by injection E as <-|]. cbn in Hnd. apply NoDup_cons in Hnd as [Hj Hnd].
  cbn [writeCreators] in E. apply result_bind_Ok in E as (t1 & E1 & E). rewrite (IH _ _ Hnd E). cbn.
  assert (t1 !! i = if decide (i = j) then (if ma_created x then Some addr else None) else t !! i) as ->.
  { destruct (ma_created x); [case_bool_decide; [|done]|]; injection E1 as <-; case_decide; subst;
      by rewrite ?lookup_insert_eq, ?lookup_insert_ne, ?lookup_delete_eq, ?lookup_delete_ne by done. }
  case_decide as Ei; [subst|by rewrite lookup_insert_ne by done].
  rewrite lookup_insert_eq. by rewrite (not_elem_of_list_to_map_1 l j Hj).
Qed.

Section Flush.
Context {Blob : Type} (Encode : AccountData -> Blob) (Decode : Blob -> result AccountData).
Context (iter : gmap Address accountDelta -> list (Address * accountDelta)).
(** An encoded account is decoded as the same account, with empty maps as nil. *)
Hypothesis codec : forall d, Decode (Encode d) = Ok (canon d).
(** A range loop visits every entry of a map once, in any order. *)
Hypothesis iter_perm : forall d, iter d ≡ₚ map_to_list d.
Implicit Types (db : acctDB Blob).

(** [db'] is [db] with the account changes [d] and the asset changes [m] written. *)
Definition db_step db (d : gmap Address accountDelta) (m : gmap AssetIndex modifiedAsset) db' : Prop :=
  (forall a, qs_lookup Decode db' a = match d !! a with Some ad => Ok (canon (acd_new ad)) | None => qs_lookup Decode db a end) /\
  (forall i, db_assetcreators db' !! i = match m !! i with Some x => creatorRow x | None => db_assetcreators db !! i end).

Lemma qs_lookup_write db a new x :
  qs_lookup Decode (db <| db_accountbase ::= writeBase Encode a new |>) x =
    if decide (x = a) then Ok (canon new) else qs_lookup Decode db x.
Proof using codec.
  unfold qs_lookup, writeBase. cbn. destruct (IsZero new) eqn:Z; case_decide; subst;
    rewrite ?lookup_delete_eq, ?lookup_delete_ne, ?lookup_insert_eq, ?lookup_insert_ne by done; auto.
  by rewrite IsZero_canon.
Qed.

Lemma newRoundLoop_step p l : forall db t ot db' t' ot', NoDup l.*1 -> disjoint_assets l ->
  newRoundLoop Encode p l db t ot = Ok (db', t', ot') -> db_step db (list_to_map l) (chg l) db' /\ db_acctrounds db' = db_acctrounds db.
Proof using codec.
  induction l as [|[a ad] l IH]; intros db t ot db' t' ot' Hnd HD E.
  { injection E as <- _ _. split; [split|done]; intros; cbn; by rewrite lookup_empty. }
  cbn in Hnd. apply NoDup_cons in Hnd as [Ha Hnd]. cbn [newRoundLoop] in E.
  apply result_bind_Ok in E as (r1 & _ & E). apply result_bind_Ok in E as (r2 & _ & E). apply result_bind_Ok in E as (ac & Ec & E).
  destruct (IH _ _ _ _ _ _ Hnd (disjoint_tail _ _ HD) E) as [[H1 H2] H3]. split; [split|by rewrite H3].
  - intros x. rewrite H1. cbn. destruct (decide (x = a)) as [->|Hne].
    + rewrite lookup_insert_eq. rewrite (not_elem_of_list_to_map_1 l a Ha).
      pose proof (qs_lookup_write db a (acd_new ad) a) as E1. rewrite decide_True in E1 by done. exact E1.
    + rewrite lookup_insert_ne by done. destruct (list_to_map l !! x); [done|].
      pose proof (qs_lookup_write db a (acd_new ad) x) as E1. rewrite decide_False in E1 by done. exact E1.
  - intros i. rewrite H2. cbn [chg foldr fst snd]. fold (chg l). rewrite lookup_union.
    assert (ac !! i = match getChangedAssetIndices a ad !! i with Some x => creatorRow x | None => db_assetcreators db !! i end) as Hac.
    { rewrite (writeCreators_spec _ _ _ _ (NoDup_fst_map_to_list _) Ec i). rewrite list_to_map_to_list. cbn.
      destruct (getChangedAssetIndices a ad !! i) as [x|] eqn:Ex; [|done]. unfold creatorRow.
      by apply getChanged_creator in Ex as [-> _]. }
    cbn. rewrite Hac. destruct (getChangedAssetIndices a ad !! i) as [x|] eqn:Ex.
    + rewrite (chg_head a ad l i) by eauto. done.
    + by destruct (chg l !! i).
Qed.

Lemma newRoundLoop_no_panic p l : forall db t ot, Forall (λ x, countable_delta p (at_RewardsLevel t) x.2) l ->
  is_panic (newRoundLoop Encode p l db t ot) = false.
Proof using Type.
  induction l as [|[a ad] l IH]; intros db t ot HF; [done|]. apply Forall_cons in HF as [[Ho Hn] HF]. cbn [newRoundLoop snd] in *.
  destruct (countable_delAccount p _ _ ot Ho) as (t1 & ot1 & -> & L1). cbn [mbind result_bind fst snd]. rewrite <- L1 in Hn.
  destruct (countable_addAccount p _ _ ot1 Hn) as (t2 & ot2 & -> & L2). cbn [mbind result_bind fst snd].
  destruct (writeCreators _ _ _) as [ac| |] eqn:E; cbn [mbind result_bind]; [|done|].
  - apply IH. by rewrite L2, L1.
  - exfalso. revert E. generalize (map_to_list (getChangedAssetIndices a ad)). intros c. cbn. generalize (db_assetcreators db).
    induction c as [|[i x] c IHc]; intros m; cbn [writeCreators]; [done|].
    destruct (ma_created x); [case_bool_decide|]; cbn; try done; apply IHc.
Qed.

Lemma accountsNewRound_step db rnd d m lvl p db' : assetDelta_of d m ->
  accountsNewRound Encode iter db rnd d lvl p = Ok db' -> db_step db d m db' /\ db_acctrounds db' = rnd.
Proof using codec iter_perm.
  intros HA E. unfold accountsNewRound in E. apply result_bind_Ok in E as (? & _ & E).
  destruct (at_applyRewards lvl _ false) as [t ot]. apply result_bind_Ok in E as ([[db1 t1] ot1] & E1 & E).
  apply result_bind_Ok in E as (? & _ & E). injection E as <-. split; [|done].
  apply newRoundLoop_step in E1 as [[H1 H2] _]; [|by apply iter_NoDup|by eapply assetDelta_disjoint].
  rewrite (iter_map _ iter_perm) in H1. rewrite (chg_iter _ iter_perm _ m HA) in H2. by split.
Qed.

Lemma accountsNewRound_no_panic db rnd d lvl p : map_Forall (λ _, countable_delta p lvl) d ->
  is_panic (accountsNewRound Encode iter db rnd d lvl p) = false.
Proof using iter_perm.
  intros HF. unfold accountsNewRound, guardR. destruct (rnd =? _); [|done]. cbn [mbind result_bind].
  pose proof (applyRewards_level lvl (db_accounttotals db) false) as L. destruct (at_applyRewards lvl _ false) as [t ot]. cbn in L.
  pose proof (newRoundLoop_no_panic p (iter d) db t ot) as HN. rewrite L in HN. destruct (newRoundLoop _ _ _ _ _ _) as [[[]]| |]; cbn.
  - by case_match.
  - done.
  - apply HN. apply Forall_forall. intros [a ad] Ha. apply (iter_in _ iter_perm) in Ha. by apply (HF a).
Qed.

Lemma flushRounds_step ds : forall ms ts ps base db db', Forall2 assetDelta_of ds ms -> 0 <= base -> base + zlen ds < 2 ^ 64 ->
  db_acctrounds db = base -> flushRounds Encode iter base ds ts ps db = Ok db' ->
  (forall a, qs_lookup Decode db' a = match findDelta ds (length ds) a with
                                      | Some ad => Ok (canon (acd_new ad)) | None => qs_lookup Decode db a end) /\
  (forall i, db_assetcreators db' !! i = match findDelta ms (length ms) i with
                                         | Some x => creatorRow x | None => db_assetcreators db !! i end) /\
  db_acctrounds db' = base + zlen ds.
Proof using codec iter_perm.
  unfold zlen. induction ds as [|d ds IH]; intros ms ts ps base db db' HF Hb Hlt Hr E.
  - apply Forall2_nil_inv_l in HF as ->. injection E as <-. cbn. split; [done|]. split; [done|lia].
  - apply Forall2_cons_inv_l in HF as (m & ms' & HA & HF & ->). destruct ts as [|t ts]; [done|]. destruct ps as [|p ps]; [done|].
    cbn [flushRounds] in E. apply result_bind_Ok in E as (db1 & E1 & E). cbn [length] in *.
    apply (accountsNewRound_step _ _ _ m) in E1 as [[S1 S2] S3]; [|done]. rewrite wrap64_small in * by (unfold u64; lia).
    destruct (IH ms' ts ps (base + 1) db1 db' HF ltac:(lia) ltac:(lia) S3 E) as (A & B & C).
    split; [|split; [|lia]].
    + intros a. rewrite A, findDelta_cons, S1 by done. by destruct (findDelta ds _ a).
    + intros i. rewrite B, findDelta_cons, S2 by done. by destruct (findDelta ms' _ i).
Qed.

Lemma flushRounds_no_panic ds : forall ts ps base db, (length ds <= length ts)%nat -> (length ds <= length ps)%nat ->
  (forall i d t p, ds !! i = Some d -> ts !! i = Some t -> ps !! i = Some p ->
     map_Forall (λ _, countable_delta p (at_RewardsLevel t)) d) ->
  is_panic (flushRounds Encode iter base ds ts ps db) = false.
Proof using iter_perm.
  induction ds as [|d ds IH]; intros [|t ts] [|p ps] base db Ht Hp HC; cbn in Ht, Hp; try done; try lia.
  cbn [flushRounds]. pose proof (accountsNewRound_no_panic db (wrap64 (base + 1)) d (at_RewardsLevel t) p (HC 0%nat d t p eq_refl eq_refl eq_refl)) as HN.
  destruct (accountsNewRound _ _ _ _ _ _ _); cbn [mbind result_bind]; try done.
  apply IH; [lia|lia|]. intros i d' t' p' ? ? ?. by apply (HC (S i)).
Qed.
End Flush.

(** ** The invariant of the tracker *)

Definition mkAcct (ad : accountDelta) (n : Z) : modifiedAccount := mkModifiedAccount (acd_new ad) n.
Definition mkAsset (x : modifiedAsset) (n : Z) : modifiedAsset := mkModifiedAsset (ma_created x) (ma_creator x) n.

Record au_inv {Blob} (au : accountUpdates Blob) : Prop := {
  inv_db : db_acctrounds (au_dbs au) = au_dbRound au;
  inv_range : 0 <= au_dbRound au /\ au_dbRound au + zlen (au_deltas au) < 2 ^ 64;
  inv_protos : length (au_protos au) = S (length (au_deltas au));
  inv_totals : length (au_roundTotals au) = S (length (au_deltas au));
  inv_accounts : cache_ok mkAcct (au_deltas au) (au_accounts au);
  inv_assets : cache_ok mkAsset (au_assetDeltas au) (au_assets au);
  inv_assetDeltas : Forall2 assetDelta_of (au_deltas au) (au_assetDeltas au);
  inv_countable : forall i d t p, au_deltas au !! i = Some d -> au_roundTotals au !! S i = Some t -> au_protos au !! S i = Some p ->
    map_Forall (λ _, countable_delta p (at_RewardsLevel t)) d
}.

Lemma dropAccount_spec k c v n m : m !! k = Some (mkAcct v n) -> c <= n ->
  dropAccount k c m = Ok (if n - c =? 0 then delete k m else <[k := mkAcct v (n - c)]> m).
Proof. intros E Hc. unfold dropAccount. rewrite E. cbn. by rewrite (proj2 (Z.ltb_ge _ _)). Qed.
Lemma dropAsset_spec k c v n m : m !! k = Some (mkAsset v n) -> c <= n ->
  dropAsset k c m = Ok (if n - c =? 0 then delete k m else <[k := mkAsset v (n - c)]> m).
Proof. intros E Hc. unfold dropAsset. rewrite E. cbn. by rewrite (proj2 (Z.ltb_ge _ _)). Qed.

(** The loop of [newBlock] counts one more reference for what the round changes. *)
Lemma newBlockLoop_spec p l : forall accounts assets nd t ot accounts' assets' nd' t' ot',
  NoDup l.*1 -> disjoint_assets l ->
  newBlockLoop p l accounts assets nd t ot = Ok (accounts', assets', nd', t', ot') ->
  (forall a, accounts' !! a = match (list_to_map l : gmap _ _) !! a with
                              | Some ad => Some (mkAcct ad (default 0 (mac_ndeltas <$> accounts !! a) + 1))
                              | None => accounts !! a end) /\
  (forall i, assets' !! i = match chg l !! i with
                            | Some x => Some (mkAsset x (default 0 (ma_ndeltas <$> assets !! i) + 1))
                            | None => assets !! i end) /\
  nd' = chg l ∪ nd /\ Forall (λ x, countable_delta p (at_RewardsLevel t) x.2) l /\ at_RewardsLevel t' = at_RewardsLevel t.
Proof.
  induction l as [|[a ad] l IH]; intros accounts assets nd t ot accounts' assets' nd' t' ot' Hnd HD E.
  { injection E as <- <- <- <- <-. cbn. rewrite (left_id_L ∅ (∪)). repeat split; try constructor; intros; by rewrite lookup_empty. }
  cbn in Hnd. apply NoDup_cons in Hnd as [Ha Hnd]. cbn [newBlockLoop] in E.
  apply result_bind_Ok in E as ([t1 ot1] & E1 & E). apply result_bind_Ok in E as ([t2 ot2] & E2 & E). cbn [fst snd] in *.
  apply delAccount_countable in E1 as [C1 L1]. apply addAccount_countable in E2 as [C2 L2]. rewrite L1 in C2, L2.
  destruct (IH _ _ _ _ _ _ _ _ _ _ Hnd (disjoint_tail _ _ HD) E) as (A & B & C & D & F). rewrite L2 in D, F.
  assert (forall i, is_Some (getChangedAssetIndices a ad !! i) -> chg l !! i = None) as Hch by (intros i; by apply chg_head).
  split; [|split; [|split; [|by split; [constructor|]]]].
  - intros x. rewrite A. cbn. unfold bumpAccount. destruct (decide (x = a)) as [->|Hx].
    + rewrite lookup_insert_eq. by rewrite (not_elem_of_list_to_map_1 l a Ha), lookup_insert_eq.
    + by rewrite !lookup_insert_ne by done.
  - intros i. rewrite B. cbn [chg foldr fst snd]. fold (chg l). rewrite lookup_union. unfold bumpAssets. rewrite lookup_merge.
    specialize (Hch i). destruct (getChangedAssetIndices a ad !! i) as [x|] eqn:Ex; cbn.
    + rewrite Hch by eauto. cbn. apply getChanged_creator in Ex as [<- _]. by destruct (assets !! i).
    + destruct (chg l !! i), (assets !! i); done.
  - rewrite C. cbn [chg foldr fst snd]. fold (chg l). rewrite (assoc_L (∪)). f_equal. apply map_union_comm.
    apply map_disjoint_spec. intros i x y Hx Hy. rewrite Hch in Hx by eauto. done.
Qed.

(** ** Answers up to nil and empty maps *)

Definition lookup_below (r r' : result AccountData) : Prop :=
  match r with Ok d => exists d', r' = Ok d' /\ below d d' | _ => r' = r end.
(** Equal up to the text of errors. *)
Definition same_outcome {A} (r r' : result A) : Prop :=
  match r, r' with Ok a, Ok b => a = b | Err _, Err _ => True | Panic _, Panic _ => True | _, _ => False end.

Lemma lookup_below_refl r : lookup_below r r.
Proof. destruct r; [|done..]. by eexists. Qed.
Lemma lookup_below_trans r1 r2 r3 : lookup_below r1 r2 -> lookup_below r2 r3 -> lookup_below r1 r3.
Proof.
  destruct r1; cbn; [|by intros ->..]. intros (d2 & -> & B1) (d3 & -> & B2). exists d3. split; [done|]. by etrans.
Qed.
Lemma same_outcome_refl {A} (r : result A) : same_outcome r r.
Proof. by destruct r. Qed.
Lemma same_outcome_trans {A} (r1 r2 r3 : result A) : same_outcome r1 r2 -> same_outcome r2 r3 -> same_outcome r1 r3.
Proof. destruct r1, r2, r3; cbn; congruence || done. Qed.

(** Pending rewards do not depend on the assets. *)
Lemma WithUpdatedRewards_below d d' p lvl : below d d' -> lookup_below (WithUpdatedRewards d p lvl) (WithUpdatedRewards d' p lvl).
Proof.
  intros (mp & ma & A1 & A2 & ->)%below_inv. destruct d. unfold WithUpdatedRewards. cbn in *.
  case_decide; [|eexists; by split]. destruct (RewardUnits _ _); cbn; [|done..].
  destruct (ot_Mul _ _ _) as [rewards ot]. destruct (ot || _); [done|]. eexists. by split.
Qed.

Section Tracker.
Context {Blob : Type} (Encode : AccountData -> Blob) (Decode : Blob -> result AccountData).
Hypothesis codec : forall d, Decode (Encode d) = Ok (canon d).
Implicit Types au : accountUpdates Blob.

Lemma latest_inv au : au_inv au -> latest au = au_dbRound au + zlen (au_deltas au).
Proof. intros [_ [] _ _ _ _ _ _]. unfold latest. apply wrap64_small. unfold u64, zlen in *. lia. Qed.

Lemma lookupRaw_find au off a : au_inv au ->
  lookupRaw Decode au off a = match findDelta (au_deltas au) off a with
                              | Some d => Ok (acd_new d) | None => qs_lookup Decode (au_dbs au) a end.
Proof.
  intros HI. unfold lookupRaw. destruct (Nat.eqb_spec off (length (au_deltas au))) as [->|_]; [|by destruct (findDelta _ _ _)].
  rewrite (inv_accounts _ HI). by destruct (findDelta _ _ _).
Qed.

Lemma creator_find au k off i : au_inv au -> roundOffset au k = Ok off ->
  getAssetCreatorForRound au k i = match findDelta (au_assetDeltas au) off i with
                                   | Some x => creatorOf x | None => qs_lookupAssetCreator (au_dbs au) i end.
Proof.
  intros HI E. unfold getAssetCreatorForRound. rewrite E. cbn.
  destruct (Nat.eqb_spec off (length (au_deltas au))) as [->|_]; [|done].
  rewrite (inv_assets _ HI), <- (Forall2_length _ _ _ (inv_assetDeltas _ HI)). by destruct (findDelta _ _ _).
Qed.

Lemma roundOffset_Ok au k : au_dbRound au <= k <= au_dbRound au + zlen (au_deltas au) ->
  roundOffset au k = Ok (Z.to_nat (k - au_dbRound au)).
Proof. intros Hk. unfold roundOffset. rewrite (proj2 (Z.ltb_ge _ _)) by lia. by rewrite (proj2 (Z.ltb_ge _ _)) by lia. Qed.

(** [au'] answers every query about round [k] as [au] does, up to nil and empty maps
    and the text of errors. *)
Definition same_answers au au' (k : Round) : Prop :=
  (forall a withRewards, result_map canon (au_lookup Decode au' k a withRewards) = result_map canon (au_lookup Decode au k a withRewards)) /\
  (forall i, ok_of (getAssetCreatorForRound au' k i) = ok_of (getAssetCreatorForRound au k i)) /\
  au_totals au' k = au_totals au k.


(** The stronger relation that the steps of a tracker keep: the answers of [au'] are
    those of [au], with some empty maps replaced by nil. *)
Definition answers_below au au' (k : Round) : Prop :=
  (forall a withRewards, lookup_below (au_lookup Decode au k a withRewards) (au_lookup Decode au' k a withRewards)) /\
  (forall i, same_outcome (getAssetCreatorForRound au k i) (getAssetCreatorForRound au' k i)) /\
  au_totals au' k = au_totals au k.

Lemma answers_below_refl au k : answers_below au au k.
Proof. split; [|split]; [intros; apply lookup_below_refl|intros; apply same_outcome_refl|done]. Qed.
Lemma answers_below_trans au1 au2 au3 k : answers_below au1 au2 k -> answers_below au2 au3 k -> answers_below au1 au3 k.
Proof.
  intros (A1 & A2 & A3) (B1 & B2 & B3). split; [|split].
  - intros. by eapply lookup_below_trans.
  - intros. by eapply same_outcome_trans.
  - congruence.
Qed.
Lemma answers_below_same au au' k : answers_below au au' k -> same_answers au au' k.
Proof.
  intros (A1 & A2 & A3). split; [|split; [|done]].
  - intros a wr. specialize (A1 a wr). destruct (au_lookup Decode au k a wr); cbn in A1; [|by rewrite A1..].
    destruct A1 as (d' & -> & B). cbn. by rewrite (canon_below _ _ B).
  - intros i. specialize (A2 i). destruct (getAssetCreatorForRound au k i), (getAssetCreatorForRound au' k i); cbn in *; congruence || done.
Qed.

Lemma lookup_raw_below au au' k off off' a withRewards :
  roundOffset au k = Ok off -> roundOffset au' k = Ok off' ->
  lookup_below (lookupRaw Decode au off a) (lookupRaw Decode au' off' a) ->
  au_roundTotals au' !! off' = au_roundTotals au !! off -> au_protos au' !! off' = au_protos au !! off ->
  lookup_below (au_lookup Decode au k a withRewards) (au_lookup Decode au' k a withRewards).
Proof.
  intros E E' HR HT HP. unfold au_lookup. rewrite E, E'. cbn [mbind result_bind].
  destruct (lookupRaw Decode au off a) as [d| |]; cbn in HR; [|by rewrite HR..]. destruct HR as (d' & -> & HB). cbn [mbind result_bind].
  destruct withRewards; [|by exists d']. rewrite HT, HP.
  destruct (au_roundTotals au !! off), (au_protos au !! off); try done. by apply WithUpdatedRewards_below.
Qed.

Lemma cache_flush_accounts au o : au_inv au -> (o <= length (au_deltas au))%nat -> exists m',
  dropAll dropAccount (map_to_list (flushcount (take o (au_deltas au)))) (au_accounts au) = Ok m' /\
  cache_ok mkAcct (drop o (au_deltas au)) m'.
Proof.
  intros HI Ho. apply (cache_flush mkAcct mac_ndeltas dropAccount); auto using dropAccount_spec, inv_accounts.
  by intros [] [] n n' [= ->].
Qed.
Lemma cache_flush_assets au o : au_inv au -> (o <= length (au_deltas au))%nat -> exists m',
  dropAll dropAsset (map_to_list (flushcount (take o (au_assetDeltas au)))) (au_assets au) = Ok m' /\
  cache_ok mkAsset (drop o (au_assetDeltas au)) m'.
Proof.
  intros HI Ho. apply (cache_flush mkAsset ma_ndeltas dropAsset); auto using dropAsset_spec, inv_assets.
  - unfold mkAsset. by intros [] [] n n' [= -> ->].
  - by rewrite <- (Forall2_length _ _ _ (inv_assetDeltas _ HI)).
Qed.

(** The state after a successful flush of [o] rounds. *)
Lemma flush_step iter au o db accounts assets now : (forall d, iter d ≡ₚ map_to_list d) -> au_inv au -> (o <= length (au_deltas au))%nat ->
  flushRounds Encode iter (au_dbRound au) (take o (au_deltas au)) (tail (au_roundTotals au)) (tail (au_protos au)) (au_dbs au) = Ok db ->
  cache_ok mkAcct (drop o (au_deltas au)) accounts -> cache_ok mkAsset (drop o (au_assetDeltas au)) assets ->
  let newBase := au_dbRound au + Z.of_nat o in
  let au' := mkAccountUpdates db newBase (drop o (au_deltas au)) accounts (drop o (au_assetDeltas au))
               assets (drop o (au_protos au)) (drop o (au_roundTotals au)) now in
  au_inv au' /\ forall k, newBase <= k <= latest au -> answers_below au au' k.
Proof using codec.
  intros Hit HI Ho HF Ha Hs newBase au'. pose proof HI as [I1 [I2 I2'] I3 I4 I5 I6 I7 I8].
  pose proof (Forall2_length _ _ _ I7) as Hlen.
  apply (flushRounds_step Encode Decode iter codec Hit _ (take o (au_assetDeltas au))) in HF as (F1 & F2 & F3); try done;
    [|by apply Forall2_take|unfold zlen in *; rewrite length_take; lia].
  unfold zlen in F3. rewrite length_take, Nat.min_l in F1, F3 by done. rewrite length_take, Nat.min_l in F2 by lia.
  assert (au_inv au') as HI'.
  { split; cbn; try done; unfold zlen in *; rewrite ?length_drop; try lia.
    - by apply Forall2_drop.
    - intros i d t p. rewrite !lookup_drop, Nat.add_succ_r. apply I8. }
  split; [done|]. intros k Hk. rewrite latest_inv in Hk by done.
  set (off := Z.to_nat (k - au_dbRound au)).
  assert (roundOffset au k = Ok off) as E by (apply roundOffset_Ok; lia).
  assert (roundOffset au' k = Ok (off - o)%nat) as E'.
  { rewrite roundOffset_Ok by (cbn; unfold zlen in *; rewrite length_drop; lia). f_equal. cbn. lia. }
  assert (o <= off <= length (au_deltas au))%nat as Hoff by (unfold zlen in *; lia).
  assert (forall T (l : list T), drop o l !! (off - o)%nat = l !! off) as Hdrop.
  { intros. rewrite lookup_drop. f_equal. lia. }
  split; [|split].
  - intros a wr. apply (lookup_raw_below au au' k off (off - o)); auto; [|apply Hdrop..].
    rewrite !lookupRaw_find by done. cbn [au' au_deltas au_dbs]. rewrite (findDelta_drop (au_deltas au) o off) by lia.
    destruct (findDelta (drop o _) _ a); [apply lookup_below_refl|]. rewrite F1. destruct (findDelta (take o _) o a); [|apply lookup_below_refl].
    eexists. split; [done|apply below_canon].
  - intros i. rewrite (creator_find au k off), (creator_find au' k (off - o)) by done. cbn [au' au_assetDeltas au_dbs].
    rewrite (findDelta_drop (au_assetDeltas au) o off) by lia. destruct (findDelta (drop o _) _ i); [apply same_outcome_refl|].
    unfold qs_lookupAssetCreator. rewrite F2. destruct (findDelta (take o _) o i) as [x|]; [|apply same_outcome_refl].
    unfold creatorRow, creatorOf. by destruct (ma_created x).
  - unfold au_totals. rewrite E, E'. cbn. by rewrite Hdrop.
Qed.

(** A new block: the state, the older rounds and the newest round. *)
Lemma newBlock_step consensus iter blk delta au au' : (forall d, iter d ≡ₚ map_to_list d) -> au_inv au ->
  disjoint_assets (map_to_list (sd_accts delta)) -> latest au < bh_Round (blk_BlockHeader blk) ->
  newBlock consensus iter blk delta au = Ok au' ->
  au_inv au' /\ exists nd t, assetDelta_of (sd_accts delta) nd /\
    au' = au <| au_deltas ::= λ l, l ++ [sd_accts delta] |>
             <| au_protos ::= λ l, l ++ [protoOf consensus (bh_CurrentProtocol (blk_BlockHeader blk))] |>
             <| au_assetDeltas ::= λ l, l ++ [nd] |> <| au_accounts := au_accounts au' |>
             <| au_assets := au_assets au' |> <| au_roundTotals ::= λ l, l ++ [t] |>.
Proof.
  intros Hit HI HD Hrnd E. unfold newBlock in E. rewrite (proj2 (Z.leb_gt _ _)) in E by done.
  destruct (Z.eqb_spec (bh_Round (blk_BlockHeader blk)) (wrap64 (latest au + 1))) as [Er|]; [|done]. cbn [negb] in E.
  destruct (last (au_roundTotals au)) as [t0|]; [|done]. apply result_bind_Ok in E as (allBefore & _ & E).
  destruct (at_applyRewards _ t0 false) as [t1 ot1]. apply result_bind_Ok in E as ([[[[accounts assets] nd] t2] ot2] & EL & E).
  destruct ot2; [done|]. apply result_bind_Ok in E as (allAfter & _ & E). destruct (negb _); [done|]. injection E as <-.
  assert (disjoint_assets (iter (sd_accts delta))) as HD'.
  { intros a ad b bd i Ha Hb. rewrite Hit in Ha, Hb. by apply HD. }
  apply newBlockLoop_spec in EL as (A & B & C & D & F); [|by apply iter_NoDup|done].
  rewrite (iter_map _ Hit) in A. rewrite (right_id_L ∅ (∪)) in C. subst nd.
  pose proof (disjoint_assetDelta _ Hit _ HD') as HAD. pose proof HI as [I1 [I2 I2'] I3 I4 I5 I6 I7 I8].
  pose proof (Forall2_length _ _ _ I7) as Hlen.
  split; [|exists (chg (iter (sd_accts delta))), t2; by split].
  split; cbn; unfold zlen in *; rewrite ?length_app; cbn; try done; try lia.
  - split; [done|]. rewrite (latest_inv _ HI) in Er, Hrnd. unfold zlen in Er, Hrnd.
    destruct (decide (au_dbRound au + Z.of_nat (length (au_deltas au)) + 1 < 2 ^ 64)); [lia|].
    rewrite (wrap64_add_over (au_dbRound au + Z.of_nat (length (au_deltas au))) 1) in Er by (unfold u64; lia). lia.
  - by apply (cache_push mkAcct mac_ndeltas) with (au_accounts au).
  - by apply (cache_push mkAsset ma_ndeltas) with (au_assets au).
  - by apply Forall2_app; [|constructor].
  - intros i d t p Hd Ht Hp. apply lookup_app_Some in Hd as [Hd|[Hi Hd]].
    + pose proof (lookup_lt_Some _ _ _ Hd). rewrite lookup_app_l in Ht by lia. rewrite lookup_app_l in Hp by lia. by apply (I8 i).
    + apply list_lookup_singleton_Some in Hd as [Hi' <-].
      rewrite lookup_app_r in Ht by lia. rewrite lookup_app_r in Hp by lia. apply list_lookup_singleton_Some in Ht as [_ <-], Hp as [_ <-].
      intros a ad Ha. rewrite F. rewrite Forall_forall in D. apply (D (a, ad)). by apply (iter_in _ Hit).
Qed.

(** The committed state after [committedUpTo]. *)
Lemma committed_step iter rnd now r au au' : (forall d, iter d ≡ₚ map_to_list d) -> au_inv au ->
  committedUpTo Encode iter rnd now au = Ok (r, au') ->
  au_inv au' /\ latest au' = latest au /\ au_dbRound au <= au_dbRound au' /\
  forall k, au_dbRound au' <= k <= latest au -> answers_below au au' k.
Proof using codec.
  intros Hit HI E.
  assert (au_inv au /\ latest au = latest au /\ au_dbRound au <= au_dbRound au /\
    forall k, au_dbRound au <= k <= latest au -> answers_below au au k) as Hsame.
  { split; [done|]. split; [done|]. split; [lia|]. intros. apply answers_below_refl. }
  unfold committedUpTo in E. destruct (last (au_protos au)) as [proto|]; [|done].
  destruct (rnd <? _); [by injection E as _ <-|]. set (newBase := rnd - _) in E. clearbody newBase.
  destruct (Z.leb_spec newBase (au_dbRound au)); [by injection E as _ <-|].
  destruct (Z.ltb_spec (latest au) newBase); [done|]. destruct (now <=? _); [by injection E as _ <-|].
  pose proof (latest_inv au HI) as HLat. set (o := Z.to_nat (newBase - au_dbRound au)) in E.
  assert (o <= length (au_deltas au))%nat as Ho by (unfold zlen in *; lia).
  destruct (cache_flush_accounts au o HI Ho) as (accounts & Ea & Ca). destruct (cache_flush_assets au o HI Ho) as (assets & Es & Cs).
  destruct (flushRounds _ _ _ _ _ _ _) as [db| |] eqn:EF; [|by injection E as _ <-|done].
  rewrite Ea in E. cbn [mbind result_bind] in E. rewrite Es in E. injection E as <- <-.
  destruct (flush_step iter au o db accounts assets now Hit HI Ho EF Ca Cs) as [HI' HA].
  replace (au_dbRound au + Z.of_nat o) with newBase in HI', HA by lia. cbn [au_dbRound].
  split; [done|]. split; [|split; [lia|done]].
  rewrite HLat, latest_inv by done. cbn. unfold zlen. rewrite length_drop. lia.
Qed.

(** A new block changes no older round and adds the newest. *)
Lemma newBlock_answers consensus iter blk delta au au' : (forall d, iter d ≡ₚ map_to_list d) -> au_inv au ->
  disjoint_assets (map_to_list (sd_accts delta)) -> latest au < bh_Round (blk_BlockHeader blk) ->
  newBlock consensus iter blk delta au = Ok au' ->
  au_inv au' /\ au_dbRound au' = au_dbRound au /\ latest au' = latest au + 1 /\
  (forall k, au_dbRound au <= k <= latest au ->
     (forall a withRewards, au_lookup Decode au' k a withRewards = au_lookup Decode au k a withRewards) /\
     (forall i, getAssetCreatorForRound au' k i = getAssetCreatorForRound au k i) /\ au_totals au' k = au_totals au k).
Proof.
  intros Hit HI HD Hr E. destruct (newBlock_step _ _ _ _ _ _ Hit HI HD Hr E) as (HI' & nd & t & _ & Hau).
  pose proof HI as [_ [I2 I2'] I3 I4 _ _ I7 _]. pose proof (Forall2_length _ _ _ I7) as Hlen.
  assert (au_dbRound au' = au_dbRound au) as Hdb by (by rewrite Hau).
  assert (au_deltas au' = au_deltas au ++ [sd_accts delta]) as Hd by (by rewrite Hau).
  assert (latest au' = latest au + 1) as HL.
  { rewrite !latest_inv, Hdb, Hd by done. unfold zlen. rewrite length_app. cbn. lia. }
  split; [done|]. split; [done|]. split; [done|]. intros k Hk. rewrite latest_inv in Hk by done.
  set (off := Z.to_nat (k - au_dbRound au)). assert (off <= length (au_deltas au))%nat as Hoff by (unfold zlen in *; lia).
  assert (roundOffset au k = Ok off) as Ek by (apply roundOffset_Ok; lia).
  assert (roundOffset au' k = Ok off) as Ek'.
  { rewrite roundOffset_Ok; [by rewrite Hdb|]. rewrite Hdb, Hd. unfold zlen in *. rewrite length_app. cbn. lia. }
  split; [|split].
  - intros a wr. unfold au_lookup. rewrite Ek, Ek'. cbn [mbind result_bind]. rewrite !lookupRaw_find by done.
    rewrite Hau. cbn. rewrite findDelta_app_le by done. by rewrite !lookup_app_l by lia.
  - intros i. rewrite (creator_find au k off), (creator_find au' k off) by done. rewrite Hau. cbn. by rewrite findDelta_app_le by lia.
  - unfold au_totals. rewrite Ek, Ek'. cbn. rewrite Hau. cbn. by rewrite lookup_app_l by lia.
Qed.

(** A step of the tracker: a block is added, or rounds are committed, with the maps
    visited in any order. *)
Inductive au_step : accountUpdates Blob -> accountUpdates Blob -> Prop :=
| step_newBlock consensus iter blk delta au au' :
    (forall d, iter d ≡ₚ map_to_list d) -> disjoint_assets (map_to_list (sd_accts delta)) ->
    newBlock consensus iter blk delta au = Ok au' -> au_step au au'
| step_committedUpTo iter rnd now r au au' :
    (forall d, iter d ≡ₚ map_to_list d) -> committedUpTo Encode iter rnd now au = Ok (r, au') -> au_step au au'.

Lemma au_step_answers au au' : au_inv au -> au_step au au' ->
  au_inv au' /\ latest au <= latest au' /\ au_dbRound au <= au_dbRound au' /\
  forall k, au_dbRound au' <= k <= latest au -> answers_below au au' k.
Proof using codec.
  intros HI HS. revert HI. destruct HS as [c iter blk delta au0 au1 Hit HD E|iter rnd now r au0 au1 Hit E]; intros HI.
  - destruct (Z.leb_spec (bh_Round (blk_BlockHeader blk)) (latest au0)) as [Hle|Hlt].
    + unfold newBlock in E. rewrite (proj2 (Z.leb_le _ _)) in E by done. injection E as <-.
      split; [done|]. split; [lia|]. split; [lia|]. intros. apply answers_below_refl.
    + destruct (newBlock_answers _ _ _ _ _ _ Hit HI HD Hlt E) as (HI' & Hdb & HL & HA).
      split; [done|]. split; [lia|]. split; [lia|]. intros k Hk. destruct (HA k ltac:(lia)) as (A & B & C).
      split; [|split; [|done]]; intros; rewrite ?A, ?B; [apply lookup_below_refl|apply same_outcome_refl].
  - destruct (committed_step _ _ _ _ _ _ Hit HI E) as (HI' & HL & Hdb & HA). split; [done|]. split; [lia|done].
Qed.

Lemma au_steps_answers au au' : au_inv au -> rtc au_step au au' ->
  au_inv au' /\ latest au <= latest au' /\ au_dbRound au <= au_dbRound au' /\
  forall k, au_dbRound au' <= k <= latest au -> answers_below au au' k.
Proof using codec.
  intros HI HR. induction HR as [au|au au1 au2 HS _ IH].
  { split; [done|]. split; [lia|]. split; [lia|]. intros. apply answers_below_refl. }
  destruct (au_step_answers _ _ HI HS) as (HI1 & L1 & D1 & A1). destruct (IH HI1) as (HI2 & L2 & D2 & A2).
  split; [done|]. split; [lia|]. split; [lia|]. intros k Hk. eapply answers_below_trans; [apply A1; lia|apply A2; lia].
Qed.

(** C24: The tracker keeps one history.  Along any sequence of new blocks and commits,
    in any interleaving and with maps visited in any order, the invariant holds and
    every round that is still retained answers account, asset-creator and totals
    queries as it did before, whether the answer comes from the newest-state cache,
    the in-memory deltas or the database. *)
Theorem au_history_stable au au' : au_inv au -> rtc au_step au au' ->
  au_inv au' /\ latest au <= latest au' /\ au_dbRound au <= au_dbRound au' /\
  forall k, au_dbRound au' <= k <= latest au -> same_answers au au' k.
Proof using codec.
  intros HI HR. destruct (au_steps_answers au au' HI HR) as (HI' & L & D & A).
  split; [done|]. split; [done|]. split; [done|]. intros k Hk. by apply answers_below_same, A.
Qed.

(** Committing a round that the tracker has seen never panics: the reference
    counts of the caches cover what is flushed.  The base moves not at all or to the
    round [MaxBalLookback] before the committed one, and the round reported as still
    needed is not after the base. *)
Theorem committedUpTo_total iter rnd now au p : (forall d, iter d ≡ₚ map_to_list d) -> au_inv au -> rnd <= latest au ->
  last (au_protos au) = Some p -> 0 <= cp_MaxBalLookback p ->
  exists r au', committedUpTo Encode iter rnd now au = Ok (r, au') /\ r <= au_dbRound au' /\
    (au_dbRound au' = au_dbRound au \/ au_dbRound au < au_dbRound au' /\ au_dbRound au' = rnd - cp_MaxBalLookback p).
Proof.
  intros Hit HI Hr Hp Hlb. unfold committedUpTo. rewrite Hp. pose proof HI as [_ [I2 I2'] I3 I4 _ _ _ I8].
  destruct (rnd <? _); [exists 0, au; split_and!; [done|done|by left]|].
  destruct (Z.leb_spec (rnd - cp_MaxBalLookback p) (au_dbRound au)); [exists (au_dbRound au), au; split_and!; [done|lia|by left]|].
  destruct (Z.ltb_spec (latest au) (rnd - cp_MaxBalLookback p)); [lia|].
  destruct (now <=? _); [exists (au_dbRound au), au; split_and!; [done|lia|by left]|].
  rewrite latest_inv in * by done. set (o := Z.to_nat _).
  assert (o <= length (au_deltas au))%nat as Ho by (unfold zlen in *; lia).
  destruct (cache_flush_accounts au o HI Ho) as (accounts & Ea & _). destruct (cache_flush_assets au o HI Ho) as (assets & Es & _).
  assert (is_panic (flushRounds Encode iter (au_dbRound au) (take o (au_deltas au)) (tail (au_roundTotals au)) (tail (au_protos au)) (au_dbs au)) = false) as HN.
  { apply flushRounds_no_panic; [done|rewrite length_take; destruct (au_roundTotals au); cbn in *; lia|
      rewrite length_take; destruct (au_protos au); cbn in *; lia|].
    intros i d t q Hd Ht Hq. rewrite !lookup_tail in *. apply lookup_take_Some in Hd as [Hd _]. by apply (I8 i). }
  destruct (flushRounds _ _ _ _ _ _ _) as [db| |]; [|exists (au_dbRound au), au; split_and!; [done|lia|by left]|done].
  rewrite Ea. cbn [mbind result_bind]. rewrite Es. eexists _, _. split; [reflexivity|]. cbn. split; [lia|right; lia].
Qed.

Lemma roundOffset_latest au : au_inv au -> roundOffset au (latest au) = Ok (length (au_deltas au)).
Proof.
  intros HI. rewrite latest_inv by done. rewrite roundOffset_Ok by (unfold zlen; lia). f_equal. unfold zlen. lia.
Qed.

Lemma qs_lookup_all db bals a : accountsAll Decode db = Ok bals ->
  qs_lookup Decode db a = Ok (default AccountData_zero (bals !! a)).
Proof.
  unfold accountsAll, qs_lookup. intros E. rewrite <- (list_to_map_to_list (db_accountbase db)) at 1. revert bals E.
  generalize (map_to_list (db_accountbase db)). intros l. induction l as [|[b buf] l IH]; intros bals E.
  - injection E as <-. done.
  - cbn [decodeRows] in E. apply result_bind_Ok in E as (data & Ed & E). apply result_bind_Ok in E as (rest & Er & E). injection E as <-.
    cbn. destruct (decide (b = a)) as [->|Hne]; [by rewrite !lookup_insert_eq|]. rewrite !lookup_insert_ne by done. by apply IH.
Qed.

(** The newest round reads the block's changes.  After [newBlock] of the next
    block, looking an account up at the new round gives the block's new data if the
    block changed it and the previous round's answer otherwise; an asset's creator is
    the block's change of that asset if there is one. *)
Theorem newBlock_newest consensus iter blk delta au au' : (forall d, iter d ≡ₚ map_to_list d) -> au_inv au ->
  disjoint_assets (map_to_list (sd_accts delta)) -> latest au < bh_Round (blk_BlockHeader blk) ->
  newBlock consensus iter blk delta au = Ok au' ->
  latest au' = bh_Round (blk_BlockHeader blk) /\
  (forall a, au_lookup Decode au' (latest au') a false =
     match sd_accts delta !! a with Some d => Ok (acd_new d) | None => au_lookup Decode au (latest au) a false end) /\
  (forall i a d x, sd_accts delta !! a = Some d -> getChangedAssetIndices a d !! i = Some x ->
     getAssetCreatorForRound au' (latest au') i = creatorOf x) /\
  (forall i, (forall a d, sd_accts delta !! a = Some d -> getChangedAssetIndices a d !! i = None) ->
     getAssetCreatorForRound au' (latest au') i = getAssetCreatorForRound au (latest au) i).
Proof.
  intros Hit HI HD Hr E. destruct (newBlock_step _ _ _ _ _ _ Hit HI HD Hr E) as (HI' & nd & t & HN & Hau).
  pose proof HI as [_ [I2 I2'] I3 I4 _ _ I7 _]. pose proof (Forall2_length _ _ _ I7) as Hlen.
  assert (au_dbRound au' = au_dbRound au) as Hdb by (by rewrite Hau).
  assert (au_deltas au' = au_deltas au ++ [sd_accts delta]) as Hd by (by rewrite Hau).
  assert (au_assetDeltas au' = au_assetDeltas au ++ [nd]) as Hn by (by rewrite Hau).
  assert (au_dbs au' = au_dbs au) as Hdbs by (by rewrite Hau). clear Hau.
  pose proof (roundOffset_latest au HI) as Eo. pose proof (roundOffset_latest au' HI') as Eo'. split; [|split; [|split]].
  - unfold newBlock in E. rewrite (proj2 (Z.leb_gt _ _)) in E by done. destruct (Z.eqb_spec (bh_Round (blk_BlockHeader blk)) (wrap64 (latest au + 1))) as [->|]; [|done].
    rewrite !latest_inv, Hdb, Hd in * by done. destruct HI' as [_ [_ B] _ _ _ _ _ _]. rewrite Hdb, Hd in B.
    unfold zlen in *. rewrite length_app in *. cbn in *. rewrite wrap64_small by (unfold u64; lia). lia.
  - intros a. unfold au_lookup. rewrite Eo, Eo'. cbn [mbind result_bind]. rewrite !lookupRaw_find by done.
    rewrite Hd, findDelta_snoc, Hdbs. destruct (sd_accts delta !! a); [done|]. by destruct (findDelta _ _ a).
  - intros i a d x Ha Hx. rewrite (creator_find _ _ _ _ HI' Eo'), Hd, Hn. replace (length (au_deltas au ++ _)) with (length (au_assetDeltas au ++ [nd])) by (rewrite !length_app; cbn; lia).
    rewrite findDelta_snoc. assert (nd !! i = Some x) as -> by (apply HN; eauto). done.
  - intros i Hno. rewrite (creator_find _ _ _ _ HI' Eo'), (creator_find _ _ _ _ HI Eo), Hd, Hn, Hdbs.
    replace (length (au_deltas au ++ _)) with (length (au_assetDeltas au ++ [nd])) by (rewrite !length_app; cbn; lia).
    rewrite findDelta_snoc, Hlen. destruct (nd !! i) as [x|] eqn:Ex; [|done]. apply HN in Ex as (a & d & Ha & Hx).
    rewrite (Hno a d Ha) in Hx. done.
Qed.

(** Listing and looking up agree.  When the listing of all balances of a round
    succeeds, looking any account up at that round without rewards gives its entry in
    the listing, and the empty account if it has none. *)
Theorem allBalances_lookup au k bals : au_inv au -> au_dbRound au <= k <= latest au -> allBalances Decode au k = Ok bals ->
  forall a, au_lookup Decode au k a false = Ok (default AccountData_zero (bals !! a)).
Proof.
  intros HI Hk E a. rewrite latest_inv in Hk by done. unfold allBalances in E. rewrite roundOffset_Ok in E by done.
  cbn [mbind result_bind] in E. apply result_bind_Ok in E as (base & EB & E). injection E as <-.
  unfold au_lookup. rewrite roundOffset_Ok by done. cbn [mbind result_bind]. rewrite lookupRaw_find by done.
  set (off := Z.to_nat _). assert (off <= length (au_deltas au))%nat as Hoff by (unfold zlen in *; lia).
  assert (findDelta (au_deltas au) off a = findDelta (take off (au_deltas au)) (length (take off (au_deltas au))) a) as ->.
  { rewrite length_take, Nat.min_l by done. rewrite <- (take_drop off (au_deltas au)) at 1.
    by rewrite findDelta_app_le by (rewrite length_take; lia). }
  rewrite (qs_lookup_all _ _ _ EB). generalize (take off (au_deltas au)). clear. intros l.
  induction l as [|d l IH] using rev_ind; [done|].
  rewrite findDelta_snoc, foldl_app. cbn [foldl]. rewrite lookup_union, lookup_fmap. destruct (d !! a) as [ad|].
  - cbn. by destruct (foldl _ _ _ !! a).
  - etrans; [exact IH|]. cbn. by destruct (foldl _ _ _ !! a).
Qed.
End Tracker.

(** ** Totals of a new block *)

(** The view after a block's changes. *)
Definition delta_view (V : View) (d : gmap Address accountDelta) : View := λ a,
  match d !! a with Some ad => Some (acd_new ad) | None => V a end.
Definition pairOf (x : Address * accountDelta) : Address * (AccountData * AccountData) := (x.1, (acd_old x.2, acd_new x.2)).

Lemma applyDeltas_map V l a : NoDup l.*1 ->
  applyDeltas V (pairOf <$> l) a = match (list_to_map l : gmap _ _) !! a with Some ad => Some (acd_new ad) | None => V a end.
Proof.
  revert V. induction l as [|[b ad] l IH]; intros V Hnd; [done|]. cbn in Hnd. apply NoDup_cons in Hnd as [Hb Hnd].
  change (applyDeltas V (pairOf <$> (b, ad) :: l)) with (applyDeltas (fupd V b (Some (acd_new ad))) (pairOf <$> l)).
  rewrite IH by done. cbn. destruct (decide (a = b)) as [->|Hne].
  - by rewrite lookup_insert_eq, (not_elem_of_list_to_map_1 l b Hb), fupd_eq.
  - by rewrite lookup_insert_ne, fupd_ne by done.
Qed.

Lemma newBlockLoop_totals p l : forall accounts assets nd t ot t' ot', updateTotals p (pairOf <$> l) t ot = Ok (t', ot') ->
  exists accounts' assets' nd', newBlockLoop p l accounts assets nd t ot = Ok (accounts', assets', nd', t', ot').
Proof.
  induction l as [|[a ad] l IH]; intros accounts assets nd t ot t' ot' E; [injection E as <- <-; by eexists _, _, _|].
  cbn [fmap list_fmap pairOf updateTotals newBlockLoop fst snd] in *.
  apply result_bind_Ok in E as (r1 & -> & E). apply result_bind_Ok in E as (r2 & E2 & E).
  cbn [mbind result_bind]. rewrite E2. by apply IH.
Qed.

Lemma sum_of_ext st f (V V' : View) D : (forall a, V a = V' a) -> sum_of st f V D = sum_of st f V' D.
Proof. intros HV. apply sumZ_ext. intros a _. by rewrite HV. Qed.

Lemma totals_repr_ext p lvl (V V' : View) D t : (forall a, V a = V' a) -> totals_repr p lvl V D t -> totals_repr p lvl V' D t.
Proof. intros HV [L M U]. split; [done|intros st; rewrite M|intros st; rewrite U]; by apply sum_of_ext. Qed.

Lemma total_ext p lvl (V V' : View) D : (forall a, V a = V' a) -> total p lvl V D = total p lvl V' D.
Proof. intros HV. apply sumZ_ext. intros a _. by rewrite HV. Qed.

Lemma applyDeltas_current p lvl V D l : NoDup l.*1 -> current p lvl V D -> Forall (delta_ok lvl V D) (pairOf <$> l) ->
  current p lvl (applyDeltas V (pairOf <$> l)) D.
Proof.
  intros Hnd HC HF a d Ha. rewrite applyDeltas_map by done. destruct (list_to_map l !! a) as [ad|] eqn:E; [|by apply HC].
  intros [= <-]. apply elem_of_list_to_map_2 in E. rewrite Forall_forall in HF.
  destruct (HF (pairOf (a, ad))) as (_ & _ & ? & ?); [by apply list_elem_of_fmap_2|]. done.
Qed.

(** [newBlock] accepts every block that conserves money.  Let the newest totals
    be the sums over the accounts of [D] in view [V], and let the block's changes
    start from [V] and keep the money supply, counted at the block's rewards level.
    If the sums stay in 64 bits, [newBlock] does not panic, neither for an overflow
    nor for a change of the sum of money, and the totals it records are the sums over
    the changed accounts at the new level. *)
Theorem newBlock_total {Blob} consensus iter blk delta (au : accountUpdates Blob) t V D :
  let p := protoOf consensus (bh_CurrentProtocol (blk_BlockHeader blk)) in
  let lvl := at_RewardsLevel t in let lvl' := bh_RewardsLevel (sd_hdr delta) in
  (forall d, iter d ≡ₚ map_to_list d) -> au_inv au ->
  bh_Round (blk_BlockHeader blk) = latest au + 1 -> latest au + 1 < 2 ^ 64 ->
  last (au_roundTotals au) = Some t -> totals_repr p lvl V D t -> current p lvl V D -> NoDup D ->
  0 < cp_RewardUnit p -> u64 lvl -> u64 lvl' -> lvl <= lvl' ->
  (forall a ad, sd_accts delta !! a = Some ad -> delta_ok lvl' V D (pairOf (a, ad))) ->
  total p lvl' (delta_view V (sd_accts delta)) D = total p lvl V D ->
  total p lvl' V D + sumZ (λ x, money p lvl' (acd_new x.2)) (map_to_list (sd_accts delta)) < 2 ^ 64 ->
  exists au' t', newBlock consensus iter blk delta au = Ok au' /\ au_roundTotals au' = au_roundTotals au ++ [t'] /\
    totals_repr p lvl' (delta_view V (sd_accts delta)) D t'.
Proof.
  intros p lvl lvl' Hit HI Hr Hlt Ht HR HC Hnd Hp Hl Hl' Hle Hd Hcons Hbound.
  set (l := iter (sd_accts delta)). assert (NoDup l.*1) as Hndl by (by apply iter_NoDup).
  assert (forall a, applyDeltas V (pairOf <$> l) a = delta_view V (sd_accts delta) a) as Hview.
  { intros a. rewrite applyDeltas_map by done. unfold l. by rewrite (iter_map _ Hit). }
  assert (Forall (delta_ok lvl' V D) (pairOf <$> l)) as HF.
  { apply Forall_fmap, Forall_forall. intros [a ad] Ha. apply Hd. by apply (iter_in _ Hit). }
  assert (sumZ (λ x, money p lvl' x.2.2) (pairOf <$> l) = sumZ (λ x, money p lvl' (acd_new x.2)) (map_to_list (sd_accts delta))) as Hsum.
  { rewrite <- (sumZ_Permutation _ _ _ (Hit (sd_accts delta))). fold l. clear. induction l as [|x l IH]; [done|]. cbn in *. lia. }
  assert (0 <= sumZ (λ x, money p lvl' x.2.2) (pairOf <$> l)) as Hpos.
  { apply sumZ_nonneg. intros x Hx. rewrite Forall_forall in HF. destruct (HF x Hx) as (_ & _ & W & B).
    pose proof (money_ge_algos p Hp lvl' _ W B). destruct W as [[]]. lia. }
  pose proof (current_mono p lvl lvl' V D Hle HC) as HC'.
  assert (total p lvl V D <= total p lvl' V D) as Hmono.
  { apply sumZ_le. intros a Ha. destruct (V a) as [d|] eqn:E; cbn; [|lia]. destruct (HC a d Ha E) as [W B].
    rewrite (money_level p lvl lvl'). pose proof (rawUnits_range p Hp d W). case_decide; nia. }
  destruct (applyRewards_repr p Hp lvl lvl' V D t false Hl Hl' Hle HC ltac:(lia) HR) as (t1 & E1 & HR1).
  destruct (updateTotals_repr p Hp lvl' D (pairOf <$> l) V t1 false) as (t2 & E2 & HR2); try done.
  { rewrite <- list_fmap_compose. exact Hndl. }
  { rewrite Hsum. lia. }
  pose proof (applyDeltas_current p lvl' V D l Hndl HC' HF) as HC2.
  unfold newBlock. rewrite (proj2 (Z.leb_gt _ _)) by lia. pose proof HI as [_ [I2 I2'] _ _ _ _ _ _].
  rewrite wrap64_small by (rewrite latest_inv in * by done; unfold u64, zlen in *; lia).
  rewrite (proj2 (Z.eqb_eq _ _)) by done. cbn [negb]. rewrite Ht. fold p lvl'.
  rewrite (All_repr p Hp lvl V D t) by (done || lia). cbn [mbind result_bind]. rewrite E1. fold l.
  destruct (newBlockLoop_totals p l (au_accounts au) (au_assets au) ∅ t1 false t2 false E2) as (ac & as' & nd & ->).
  cbn [mbind result_bind]. rewrite (All_repr p Hp lvl' _ D t2 HC2) by (try done; rewrite (total_ext _ _ _ _ _ Hview); lia).
  cbn [mbind result_bind]. rewrite (total_ext _ _ _ _ _ Hview), Hcons, Z.eqb_refl. cbn [negb].
  eexists _, t2. split; [reflexivity|]. split; [done|]. by eapply totals_repr_ext.
Qed.

(** ** Witnesses

    A protocol with a lookback of one round; the database at round 9, a payment in
    round 10, the creation of an asset in round 11, and a commit of round 11. *)
Module TrackerWitness.
Definition ad32 (n : Z) : Address := replicate 32 n.
Definition alice : Address := ad32 3.
Definition bob : Address := ad32 4.
Definition params1 : ConsensusParams := v19 <| cp_MaxBalLookback := 1 |>.
Definition consensus1 : gmap string ConsensusParams := {[ "test"%string := params1 ]}.
Definition enc (d : AccountData) : AccountData := d.
Definition dec (d : AccountData) : result AccountData := Ok (canon d).
Definition it (d : gmap Address accountDelta) : list (Address * accountDelta) := map_to_list d.
Lemma it_perm d : it d ≡ₚ map_to_list d.
Proof. done. Qed.
Lemma codec1 d : dec (enc d) = Ok (canon d).
Proof. done. Qed.

Definition acct (st : Status) (algos base : Z) : AccountData := (MakeAccountData st algos) <| ad_RewardsBase := base |>.
Definition alice9 : AccountData := acct Online 5000000 100.
Definition bob9 : AccountData := acct Offline 3000000 100.
Definition totals9 : AccountTotals := mkAccountTotals (mkAlgoCount 5000000 5) (mkAlgoCount 3000000 3) (mkAlgoCount 0 0) 100.
Definition db9 : acctDB AccountData := mkAcctDB 9 totals9 (<[alice := alice9]> {[bob := bob9]}) ∅.
Definition au0 : accountUpdates AccountData := mkAccountUpdates db9 9 [] ∅ [] ∅ [params1] [totals9] 0.

Definition alice10 : AccountData := acct Online 4000000 100.
Definition bob10 : AccountData := acct Offline 4000000 100.
Definition alice11 : AccountData := alice10 <| ad_AssetParams := Some {[7 := AssetParams_zero]} |>.
Definition hdr (r : Round) : BlockHeader :=
  mkBlockHeader r zero32 zero32 zero32 1000 "test" zero32 (mkRewardsState zero32 zero32 100 0 0 0)
    (mkUpgradeState "test" "" 0 0 0) (mkUpgradeVote "" false) 0.
Definition blk (r : Round) : Block := mkBlock (hdr r) [] [].
Definition delta10 : StateDelta :=
  mkStateDelta (<[alice := mkAccountDelta alice9 alice10]> {[bob := mkAccountDelta bob9 bob10]}) ∅ ∅ ∅ (hdr 10).
Definition delta11 : StateDelta := mkStateDelta {[alice := mkAccountDelta alice10 alice11]} ∅ ∅ ∅ (hdr 11).

Definition orElse (r : result (accountUpdates AccountData)) (d : accountUpdates AccountData) :=
  match r with Ok x => x | _ => d end.
Definition au1 := orElse (newBlock consensus1 it (blk 10) delta10 au0) au0.
Definition au2 := orElse (newBlock consensus1 it (blk 11) delta11 au1) au0.
Definition committed := committedUpTo enc it 11 6000000000 au2.
Definition au3 := match committed with Ok x => x.2 | _ => au0 end.

Example flushed : au_dbRound au3 = 10 /\ latest au3 = 11.
Proof. vm_compute. split; reflexivity. Qed.

Lemma orElse_Ok r d : is_ok r = true -> r = Ok (orElse r d).
Proof. by destruct r. Qed.
Lemma block10 : newBlock consensus1 it (blk 10) delta10 au0 = Ok au1.
Proof. apply orElse_Ok. vm_compute. reflexivity. Qed.
Lemma block11 : newBlock consensus1 it (blk 11) delta11 au1 = Ok au2.
Proof. apply orElse_Ok. vm_compute. reflexivity. Qed.
Lemma commit11 : committedUpTo enc it 11 6000000000 au2 = Ok (10, au3).
Proof.
  change (committed = Ok (10, au3)). assert (is_ok committed = true /\ match committed with Ok x => x.1 = 10 | _ => False end) as H.
  { vm_compute. split; reflexivity. }
  unfold au3. destruct committed as [[r x]| |]; destruct H as [_ H]; [cbn in *; by subst|done..].
Qed.

Lemma inv0 : au_inv au0.
Proof. by split. Qed.
Lemma changed_accounts (l : list (Address * accountDelta)) (a b : Address) (ad bd : accountDelta) i :
  Forall (λ x, ad_AssetParams (acd_new x.2) = None /\ ad_AssetParams (acd_old x.2) = None) l ->
  (a, ad) ∈ l -> is_Some (getChangedAssetIndices a ad !! i) -> False.
Proof.
  intros HF Ha. rewrite Forall_forall in HF. destruct (HF _ Ha) as [E1 E2]. destruct ad as [o n]. cbn in *.
  rewrite getChanged_lookup, E1, E2. cbn. intros [x Hx]. by rewrite lookup_empty in Hx.
Qed.
Lemma disj10 : disjoint_assets (map_to_list (sd_accts delta10)).
Proof.
  intros a ad b bd i Ha Hb Hx _. exfalso. eapply (changed_accounts _ a b ad bd i); [|exact Ha|done].
  apply (bool_decide_unpack _). vm_compute. exact I.
Qed.
Lemma disj11 : disjoint_assets (map_to_list (sd_accts delta11)).
Proof.
  intros a ad b bd i Ha Hb _ _. cbn [sd_accts delta11] in *. rewrite map_to_list_singleton in *. set_solver.
Qed.
Lemma inv1 : au_inv au1.
Proof. apply (newBlock_step consensus1 it (blk 10) delta10 au0 au1 it_perm inv0 disj10); [reflexivity|exact block10]. Qed.
Lemma inv2 : au_inv au2.
Proof. apply (newBlock_step consensus1 it (blk 11) delta11 au1 au2 it_perm inv1 disj11); [vm_compute; reflexivity|exact block11]. Qed.

Lemma au_history_stable_witness : same_answers dec au1 au3 10.
Proof.
  refine (proj2 (proj2 (proj2 (au_history_stable enc dec codec1 au1 au3 inv1 _))) 10 _).
  - apply rtc_l with au2; [exact (step_newBlock enc _ _ _ _ _ _ it_perm disj11 block11)|].
    apply rtc_once. exact (step_committedUpTo enc _ _ _ _ _ _ it_perm commit11).
  - vm_compute. split; discriminate.
Defined.

Lemma committedUpTo_total_witness : exists r au', committedUpTo enc it 11 6000000000 au2 = Ok (r, au') /\ r <= au_dbRound au' /\
    (au_dbRound au' = au_dbRound au2 \/ au_dbRound au2 < au_dbRound au' /\ au_dbRound au' = 11 - cp_MaxBalLookback params1).
Proof.
  refine (committedUpTo_total enc it 11 6000000000 au2 params1 it_perm inv2 _ _ _).
  - vm_compute. discriminate.
  - vm_compute. reflexivity.
  - vm_compute. discriminate.
Defined.

Lemma newBlock_newest_witness : au_lookup dec au1 (latest au1) alice false = Ok alice10.
Proof.
  exact (proj1 (proj2 (newBlock_newest dec consensus1 it (blk 10) delta10 au0 au1 it_perm inv0 disj10 eq_refl block10)) alice).
Defined.

Lemma allBalances_lookup_witness : exists bals, allBalances dec au1 10 = Ok bals /\
  au_lookup dec au1 10 alice false = Ok (default AccountData_zero (bals !! alice)).
Proof.
  assert (is_ok (allBalances dec au1 10) = true) as H by (vm_compute; reflexivity).
  destruct (allBalances dec au1 10) as [bals| |] eqn:E; [|discriminate H..]. exists bals. split; [reflexivity|].
  refine (allBalances_lookup dec au1 10 bals inv1 _ E alice). vm_compute. split; discriminate.
Defined.

Definition D : list Address := [alice; bob].
Definition V : View := λ a, Some (default AccountData_zero (db_accountbase db9 !! a)).
Lemma wf_mk st algos base : u64 algos -> u64 base -> wf_acct (acct st algos base).
Proof. intros. split; try done; cbn; try (by apply map_Forall_empty); unfold u64; lia. Qed.
Lemma V_current : current params1 100 V D.
Proof.
  intros a d Ha. unfold D in Ha. rewrite !elem_of_cons in Ha. destruct Ha as [->|[->|Ha]]; [| |set_solver].
  all: intros [= <-]; split; [apply wf_mk; unfold u64; lia|vm_compute; discriminate].
Qed.

Lemma newBlock_total_witness : exists au' t', newBlock consensus1 it (blk 10) delta10 au0 = Ok au' /\
  au_roundTotals au' = [totals9; t'] /\ totals_repr params1 100 (delta_view V (sd_accts delta10)) D t'.
Proof.
  refine (newBlock_total consensus1 it (blk 10) delta10 au0 totals9 V D it_perm inv0 _ _ _ _ V_current _ _ _ _ _ _ _ _).
  - reflexivity.
  - reflexivity.
  - reflexivity.
  - split; [vm_compute; reflexivity|intros []; vm_compute; reflexivity..].
  - apply (bool_decide_unpack _). vm_compute. exact I.
  - vm_compute. reflexivity.
  - vm_compute. split; congruence.
  - vm_compute. split; congruence.
  - vm_compute. congruence.
  - intros a ad Ha. cbn [sd_accts delta10] in Ha. apply lookup_insert_Some in Ha as [[<- <-]|[_ Ha]].
    + split; [set_solver|]. split; [reflexivity|]. split; [apply wf_mk; unfold u64; lia|vm_compute; discriminate].
    + apply lookup_singleton_Some in Ha as [<- <-].
      split; [set_solver|]. split; [reflexivity|]. split; [apply wf_mk; unfold u64; lia|vm_compute; discriminate].
  - vm_compute. reflexivity.
  - vm_compute. reflexivity.
Defined.
End TrackerWitness.
