(* ===== verification/EvalReads.v ===== *)
(** What the result of evaluating a block depends on (src/ledger/eval.go).

    The evaluator sees the accounts only through the answers of the ledger about the
    round before the block.  [ledger_eval_below]: over two ledgers that give the same
    answers, up to empty maps that one of them reads as nil, a block that the first one
    evaluates (validating it or not) is evaluated by the second without validation, and
    the two changes agree up to such maps.  This is what makes the replay of blocks at
    startup rebuild the lost state, in [AcctRestartSpec]. *)

From S2P Require Import Prelude Config Basics Transactions TransactionsSpec Bookkeeping Totals Cow Multisig Teal TealSpec Verify Eval AcctUpdates AcctUpdatesSpec.

(** ** Simulation of one action by another

    From related states, when [m] succeeds so does [m'], with related results. *)
Section Sim.
Context {S S' : Type} (RS : S -> S' -> Prop).

Definition sim {A} (R : A -> A -> Prop) (m : M S A) (m' : M S' A) : Prop :=
  forall s s' a t, RS s s' -> m s = (Ok a, t) -> exists a' t', m' s' = (Ok a', t') /\ R a a' /\ RS t t'.

Lemma sim_bind {A B} (R : A -> A -> Prop) (Q : B -> B -> Prop) m m' (f : A -> M S B) (f' : A -> M S' B) :
  sim R m m' -> (forall a a', R a a' -> sim Q (f a) (f' a')) -> sim Q (m ≫= f) (m' ≫= f').
Proof.
  intros Hm Hf s s' b u HS (a & t & E & E')%M_bind_Ok. destruct (Hm _ _ _ _ HS E) as (a' & t' & E1 & HR & HS').
  destruct (Hf _ _ HR _ _ _ _ HS' E') as (b' & u' & E2 & HQ & HU). exists b', u'. split; [|done]. by rewrite (bind_run _ _ _ _ _ E1).
Qed.
Lemma sim_ret {A} (R : A -> A -> Prop) a a' : R a a' -> sim R (mret a) (mret a').
Proof. intros HR s s' x t HS [= <- <-]. by exists a', s'. Qed.
Lemma sim_throw {A} (R : A -> A -> Prop) e m' : sim R (throw e) m'.
Proof. intros s s' x t HS [=]. Qed.
Lemma sim_guard b b' e e' : (b = true -> b' = true) -> sim eq (guardE b e) (guardE b' e').
Proof. intros Hb s s' u t HS [E ->]%guardE_Ok. exists u, s'. split; [|done]. apply guardE_Ok. auto. Qed.
Lemma sim_lift {A} (R : A -> A -> Prop) r r' : (forall a, r = Ok a -> exists a', r' = Ok a' /\ R a a') -> sim R (lift r) (lift r').
Proof. intros Hr s s' a t HS [= E <-]. destruct (Hr a E) as (a' & -> & HR). by exists a', s'. Qed.
Lemma sim_lift_eq {A} (r : result A) : sim eq (lift r) (lift r).
Proof. apply sim_lift. eauto. Qed.
Lemma sim_wrapErrM {A} (R : A -> A -> Prop) msg m m' : sim R m m' -> sim R (wrapErrM msg m) (wrapErrM msg m').
Proof.
  intros Hm s s' a t HS E. unfold wrapErrM in E |- *. destruct (m s) as [r t0] eqn:Em. destruct r; cbn in E; [|done..].
  injection E as <- <-. destruct (Hm _ _ _ _ HS Em) as (a' & t' & -> & HR & HS'). by exists a', t'.
Qed.
End Sim.

Lemma sim_get {S} (RS : S -> S -> Prop) : sim RS RS get get.
Proof. intros s s' a t HS [= <- <-]. by exists s', s'. Qed.

Create HintDb sim.
#[export] Hint Resolve sim_ret sim_throw sim_lift_eq sim_get : sim.

(** ** Accounts with fewer empty maps *)

Lemma below_algos d d' : below d d' -> ad_MicroAlgos d' = ad_MicroAlgos d.
Proof. by intros (mp & ma & _ & _ & ->)%below_inv. Qed.
Lemma below_status d d' : below d d' -> ad_Status d' = ad_Status d.
Proof. by intros (mp & ma & _ & _ & ->)%below_inv. Qed.
Lemma below_params d d' : below d d' -> asmap (ad_AssetParams d') = asmap (ad_AssetParams d).
Proof. intros H. apply mapBelow_asmap, H. Qed.
Lemma below_assets d d' : below d d' -> asmap (ad_Assets d') = asmap (ad_Assets d).
Proof. intros H. apply mapBelow_asmap, H. Qed.
Lemma below_setAlgos d d' x : below d d' -> below (d <| ad_MicroAlgos := x |>) (d' <| ad_MicroAlgos := x |>).
Proof. intros (mp & ma & H1 & H2 & ->)%below_inv. by split. Qed.
Lemma below_setAssets d d' f : below d d' -> below (setAssets d f) (setAssets d' f).
Proof.
  intros (mp & ma & H1 & H2 & ->)%below_inv. split; [done| |done]. left. unfold setAssets, clone. cbn -[asmap]. by rewrite (mapBelow_asmap _ _ H2).
Qed.
Lemma below_setParams d d' f : below d d' -> below (setParams d f) (setParams d' f).
Proof.
  intros (mp & ma & H1 & H2 & ->)%below_inv. split; [|done|done]. left. unfold setParams, clone. cbn -[asmap]. by rewrite (mapBelow_asmap _ _ H1).
Qed.
Lemma below_keyreg k p d d' x : below d d' -> keyreg_record k p d = Ok x -> exists x', keyreg_record k p d' = Ok x' /\ below x x'.
Proof.
  intros (mp & ma & H1 & H2 & ->)%below_inv. unfold keyreg_record. intros E. repeat case_match; inv_ok; eexists; (split; [done|by split]).
Qed.
(** An empty account stays empty when its maps are read as nil. *)
Lemma below_IsZero d d' : below d d' -> IsZero d = true -> IsZero d' = true.
Proof.
  intros (mp & ma & H1 & H2 & ->)%below_inv. unfold IsZero. rewrite !bool_decide_eq_true. destruct d. cbn in *.
  intros E. destruct H2 as [->|[E2 ->]]; [|destruct (bool_decide (ad_Assets = Some ∅)) eqn:Eb].
  - revert E. case_bool_decide; cbn; intros E; injection E as -> -> -> -> -> -> -> -> -> ->; intros; simplify_eq; destruct H1 as [->|[_ ->]]; done.
  - cbn in E. injection E as -> -> -> -> -> -> -> -> -> ->. destruct H1 as [->|[_ ->]]; done.
  - injection E as -> -> -> -> -> -> -> -> -> -> ->. destruct H1 as [->|[_ ->]]; done.
Qed.

Definition rec_below (r r' : BalanceRecord) : Prop := r'.1 = r.1 /\ below r.2 r'.2.

(** ** Related copy-on-write states *)

Definition delta_below (x x' : accountDelta) : Prop := below (acd_old x) (acd_old x') /\ below (acd_new x) (acd_new x').

Record mods_below (m m' : StateDelta) : Prop := {
  mb_accts : forall a, option_Forall2 delta_below (sd_accts m !! a) (sd_accts m' !! a);
  mb_Txids : sd_Txids m' = sd_Txids m;
  mb_txleases : sd_txleases m' = sd_txleases m;
  mb_assets : sd_assets m' = sd_assets m;
  mb_hdr : sd_hdr m' = sd_hdr m
}.
Record parent_below (p p' : roundCowParent) : Prop := {
  pb_lookup : forall a, lookup_below (rcp_lookup p a) (rcp_lookup p' a);
  pb_txnCounter : rcp_txnCounter p' = rcp_txnCounter p;
  pb_getAssetCreator : forall i, same_outcome (rcp_getAssetCreator p i) (rcp_getAssetCreator p' i)
}.
Record cow_below (s s' : roundCowState) : Prop := {
  cb_lookupParent : parent_below (rcs_lookupParent s) (rcs_lookupParent s');
  cb_proto : rcs_proto s' = rcs_proto s;
  cb_mods : mods_below (rcs_mods s) (rcs_mods s')
}.

Lemma cow_lookup s s' a : cow_below s s' -> lookup_below (lookup s a) (lookup s' a).
Proof.
  intros [[HP _ _] _ [HM _ _ _ _]]. unfold lookup. destruct (HM a) as [x x' [_ Hn]|]; [|apply HP]. by eexists.
Qed.
Lemma cow_creator s s' i : cow_below s s' -> same_outcome (getAssetCreator s i) (getAssetCreator s' i).
Proof.
  intros [[_ _ HP] _ [_ _ _ HM _]]. unfold getAssetCreator. rewrite HM. destruct (_ !! i); [apply same_outcome_refl|apply HP].
Qed.
Lemma cow_counter s s' : cow_below s s' -> txnCounter s' = txnCounter s.
Proof. intros [[_ HP _] _ [_ HM _ _ _]]. unfold txnCounter. by rewrite HP, HM. Qed.
Lemma cow_level s s' : cow_below s s' -> rewardsLevel s' = rewardsLevel s.
Proof. intros [_ _ [_ _ _ _ HM]]. unfold rewardsLevel. by rewrite HM. Qed.
Lemma asParent_below s s' : cow_below s s' -> parent_below (asParent s) (asParent s').
Proof. intros H. split; intros; [by apply cow_lookup|by apply cow_counter|by apply cow_creator]. Qed.
Lemma emptyDelta_below h : mods_below (emptyDelta h) (emptyDelta h).
Proof. split; try done. intros a. cbn. rewrite lookup_empty. constructor. Qed.
Lemma child_below s s' : cow_below s s' -> cow_below (child s) (child s').
Proof.
  intros H. pose proof H as [_ Hp [_ _ _ _ Hh]]. split; cbn; [by apply asParent_below|done|]. rewrite Hh. apply emptyDelta_below.
Qed.

Lemma getChanged_below a x x' : delta_below x x' -> getChangedAssetIndices a x' = getChangedAssetIndices a x.
Proof. intros [H1 H2]. unfold getChangedAssetIndices. by rewrite (below_params _ _ H1), (below_params _ _ H2). Qed.
Lemma put_below a old old' new new' s s' : below old old' -> below new new' -> cow_below s s' ->
  cow_below (cow_put a old new s) (cow_put a old' new' s').
Proof.
  intros Ho Hn [HP Hp [H1 H2 H3 H4 H5]]. split; [done|done|]. split; cbn; try done.
  - intros b. destruct (decide (b = a)) as [->|Hne]; [|by rewrite !lookup_insert_ne by done]. rewrite !lookup_insert_eq. constructor.
    destruct (H1 a) as [x x' [Hx _]|]; by split.
  - rewrite H4. by rewrite (getChanged_below a (mkAccountDelta old new)) by done.
Qed.
Lemma addTx_below f tx s s' : cow_below s s' -> cow_below (addTx f tx s) (addTx f tx s').
Proof. intros [HP Hp [H1 H2 H3 H4 H5]]. split; [done|done|]. split; cbn; congruence || done. Qed.
Lemma commit_below c c' s s' : cow_below c c' -> cow_below s s' -> cow_below (commitToParent c s) (commitToParent c' s').
Proof.
  intros [_ _ [C1 C2 C3 C4 C5]] [HP Hp [H1 H2 H3 H4 H5]]. split; [done|done|]. split; cbn; try congruence.
  intros a. unfold mergeAccts. rewrite !lookup_merge. destruct (C1 a) as [x x' [? ?]|]; destruct (H1 a) as [y y' [? ?]|]; cbn; try done; constructor; by split.
Qed.

(** ** The operations on balances *)

Notation simC := (sim cow_below).

Lemma sim_Get a w : simC rec_below (Get a w) (Get a w).
Proof.
  intros s s' r t HS E. unfold Get in E |- *. injection E as E <-. inv_ok. pose proof (cow_lookup s s' a HS) as HL.
  match goal with H : lookup s a = Ok ?d |- _ => rewrite H in HL; destruct HL as (d' & -> & HB) end. cbn [mbind result_bind].
  rewrite (cb_proto _ _ HS), (cow_level _ _ HS). destruct w; inv_ok; [|by eexists _, _].
  match goal with H : WithUpdatedRewards ?d ?p ?l = Ok ?x |- _ => pose proof (WithUpdatedRewards_below d d' p l HB) as HW; rewrite H in HW end.
  destruct HW as (y & -> & HB'). by eexists _, _.
Qed.
(** A failing read fails in both. *)
Lemma sim_Get_ignored a w z : simC rec_below (ignore_err (Get a w) z) (ignore_err (Get a w) z).
Proof.
  intros s s' r t HS E. pose proof (sim_Get a w s s') as HG. pose proof (cow_lookup s s' a HS) as HL. unfold ignore_err in E |- *.
  destruct (Get a w s) as [[r0|e|m] t0] eqn:EG; [|injection E as <- <-|done].
  { destruct (HG _ _ HS eq_refl) as (r' & t' & -> & HR & HS'). injection E as <- <-. by eexists _, _. }
  assert (exists e', Get a w s' = (Err e', s') /\ t0 = s) as (e' & -> & ->).
  { clear HG. unfold Get in EG |- *. injection EG as EG <-. destruct (lookup s a) as [d| |]; cbn in EG, HL; [|injection EG as <-; rewrite HL; by eexists|done].
    destruct HL as (d' & -> & HB). cbn [mbind result_bind]. destruct w; [|done]. rewrite (cb_proto _ _ HS), (cow_level _ _ HS).
    pose proof (WithUpdatedRewards_below _ _ (rcs_proto s) (rewardsLevel s) HB) as HW.
    destruct (WithUpdatedRewards d _ _) as [y| |]; cbn in EG, HW; [done| |done]. rewrite HW. by eexists. }
  exists z, s'. split; [done|]. split; [|done]. by split.
Qed.
Lemma sim_creator i : simC eq (λ s, (getAssetCreator s i, s)) (λ s, (getAssetCreator s i, s)).
Proof.
  intros s s' r t HS [= E <-]. pose proof (cow_creator s s' i HS) as HC. rewrite E in HC. destruct (getAssetCreator s' i); [|done..].
  cbn in HC. subst. by eexists _, _.
Qed.
Lemma sim_Put r r' : rec_below r r' -> simC eq (Put r) (Put r').
Proof.
  intros [H1 H2] s s' u t HS E. unfold Put in E |- *. rewrite H1. pose proof (cow_lookup s s' r.1 HS) as HL.
  destruct (lookup s r.1) as [d| |]; [|done..]. destruct HL as (d' & -> & HB). injection E as <- <-. eexists _, _.
  split; [done|]. split; [done|]. by apply put_below.
Qed.
Lemma sim_putM a old old' new new' : below old old' -> below new new' -> simC eq (putM a old new) (putM a old' new').
Proof. intros H1 H2 s s' u t HS [= <- <-]. eexists _, _. split; [done|]. split; [done|]. by apply put_below. Qed.
Lemma sim_the_params : simC eq the_params the_params.
Proof. intros s s' p t HS [= <- <-]. eexists _, _. split; [done|]. split; [|done]. symmetry. apply HS. Qed.

Lemma sim_lookup s s' a : cow_below s s' -> simC below (lift (lookup s a)) (lift (lookup s' a)).
Proof. intros HS. apply sim_lift. intros d E. pose proof (cow_lookup s s' a HS) as HL. by rewrite E in HL. Qed.
Lemma sim_rewards d d' p lvl : below d d' -> simC below (lift (WithUpdatedRewards d p lvl)) (lift (WithUpdatedRewards d' p lvl)).
Proof. intros HB. apply sim_lift. intros x E. pose proof (WithUpdatedRewards_below d d' p lvl HB) as HL. by rewrite E in HL. Qed.

Lemma sim_Move f g amt fr gr : simC eq (Move f g amt fr gr) (Move f g amt fr gr).
Proof.
  unfold Move. eapply sim_bind; [apply sim_get|]. intros s s' HS. eapply sim_bind; [by apply sim_lookup|]. intros x x' Hx.
  rewrite (cb_proto _ _ HS), (cow_level _ _ HS). eapply sim_bind; [by apply sim_rewards|]. intros y y' Hy.
  rewrite (below_algos _ _ Hx), (below_algos _ _ Hy). eapply sim_bind; [apply sim_lift_eq|]. intros r _ <-.
  destruct (OSubA _ _) as [v o]. eapply sim_bind; [by apply sim_guard|]. intros ? _ <-.
  eapply sim_bind; [by apply sim_putM; [|apply below_setAlgos]|]. intros ? _ <-.
  eapply sim_bind; [apply sim_get|]. intros t t' HT. eapply sim_bind; [by apply sim_lookup|]. intros z z' Hz.
  rewrite (cb_proto _ _ HT). eapply sim_bind; [by apply sim_rewards|]. intros w w' Hw.
  rewrite (below_algos _ _ Hz), (below_algos _ _ Hw). eapply sim_bind; [apply sim_lift_eq|]. intros q _ <-.
  destruct (OAddA _ _) as [v2 o2]. eapply sim_bind; [by apply sim_guard|]. intros ? _ <-.
  eapply sim_bind; [by apply sim_putM; [|apply below_setAlgos]|]. intros ? _ <-. by apply sim_ret.
Qed.

(** ** Applying a transaction *)

#[export] Hint Resolve sim_Get sim_Get_ignored sim_creator sim_Move sim_the_params : sim.
#[export] Hint Resolve below_setAlgos below_setAssets below_setParams : sim.

(** One step of a simulation between two runs of the same code: related results are
    replaced by equal ones where only their common part is used. *)
Ltac sim_eqs := repeat match goal with
  | H : rec_below ?r ?r' |- _ => let a := fresh "a" in let d := fresh "d" in let d' := fresh "d'" in let B := fresh "B" in
      destruct r as [a d], r' as [? d']; destruct H as [H B]; cbn in H, B; subst; cbn [fst snd] in *;
      pose proof (below_algos _ _ B); pose proof (below_status _ _ B); pose proof (below_params _ _ B); pose proof (below_assets _ _ B)
  end;
  repeat match goal with
  | H : ad_MicroAlgos ?d' = ad_MicroAlgos _ |- context [ad_MicroAlgos ?d'] => rewrite H
  | H : ad_Status ?d' = ad_Status _ |- context [ad_Status ?d'] => rewrite H
  | H : asmap (ad_AssetParams ?d') = asmap _ |- context [asmap (ad_AssetParams ?d')] => rewrite H
  | H : asmap (ad_Assets ?d') = asmap _ |- context [asmap (ad_Assets ?d')] => rewrite H
  end.
Ltac sim_bind_by L := eapply sim_bind; [apply L|]; let x := fresh "x" in let x' := fresh "x'" in let H := fresh "H" in
  intros x x' H; first [subst x'|idtac]; sim_eqs.
Ltac sim_put := apply sim_Put; split; cbn; auto with sim.

Lemma sim_payment_close p h ad : simC eq (payment_close p h ad) (payment_close p h ad).
Proof.
  unfold payment_close, bal_Get, bal_Move, bal_Put, cow_Balances. sim_bind_by sim_Get. sim_bind_by sim_Move. sim_bind_by sim_Get_ignored.
  do 3 (eapply sim_bind; [by apply sim_guard|]; intros ? _ <-). eapply sim_bind; [by apply sim_Put|]. intros ? _ <-. by apply sim_ret.
Qed.
Lemma sim_payment p h ad : simC eq (payment_apply p h ad) (payment_apply p h ad).
Proof.
  unfold payment_apply. eapply sim_bind with (R := eq).
  - case_match; [|by apply sim_ret]. eapply sim_bind; [apply sim_Move|]. intros r _ <-. by apply sim_ret.
  - intros ad' _ <-. case_match; [apply sim_payment_close|by apply sim_ret].
Qed.
Lemma sim_keyreg k h sp : simC eq (keyreg_apply k h sp) (keyreg_apply k h sp).
Proof.
  unfold keyreg_apply, bal_Get, bal_Put, cow_Balances. eapply sim_bind; [by apply sim_guard|]. intros ? _ <-. sim_bind_by sim_Get.
  eapply sim_bind; [by apply sim_guard|]. intros ? _ <-. sim_bind_by sim_the_params.
  eapply sim_bind; [apply sim_lift; intros y E; by apply (below_keyreg _ _ d _ y)|]. intros y y' Hy. by apply sim_Put.
Qed.
Lemma sim_getParams i : simC eq (getParams i) (getParams i).
Proof.
  unfold getParams, bal_Get, bal_GetAssetCreator, cow_Balances. sim_bind_by sim_creator. sim_bind_by sim_Get.
  case_match; [by apply sim_ret|apply sim_throw].
Qed.
Lemma sim_assetConfig c h n : simC eq (assetConfig_apply c h n) (assetConfig_apply c h n).
Proof.
  unfold assetConfig_apply, assetConfig_create, bal_Get, bal_Put, cow_Balances. case_match.
  - sim_bind_by sim_Get. eapply sim_bind; [by apply sim_guard|]. intros ? _ <-. sim_bind_by sim_the_params.
    rewrite (below_assets _ _ (below_setAssets _ _ _ (below_setParams _ _ _ B))). eapply sim_bind; [by apply sim_guard|]. intros ? _ <-. sim_put.
  - sim_bind_by sim_getParams. destruct x as [params creator]. eapply sim_bind; [by apply sim_guard|]. intros ? _ <-. sim_bind_by sim_Get.
    case_match; [|sim_put]. eapply sim_bind; [by apply sim_guard|]. intros ? _ <-. sim_put.
Qed.
Lemma sim_takeOut a i n b : simC eq (takeOut a i n b) (takeOut a i n b).
Proof.
  unfold takeOut, bal_Get, bal_Put, cow_Balances. case_match; [by apply sim_ret|]. sim_bind_by sim_Get. case_match; [|apply sim_throw].
  eapply sim_bind; [by apply sim_guard|]. intros ? _ <-. destruct (OSub _ _). eapply sim_bind; [by apply sim_guard|]. intros ? _ <-. sim_put.
Qed.
Lemma sim_putIn a i n b : simC eq (putIn a i n b) (putIn a i n b).
Proof.
  unfold putIn, bal_Get, bal_Put, cow_Balances. case_match; [by apply sim_ret|]. sim_bind_by sim_Get. case_match; [|apply sim_throw].
  eapply sim_bind; [by apply sim_guard|]. intros ? _ <-. destruct (OAdd _ _). eapply sim_bind; [by apply sim_guard|]. intros ? _ <-. sim_put.
Qed.
Lemma sim_source c h : simC eq (transfer_source c h) (transfer_source c h).
Proof.
  unfold transfer_source. case_match; [by apply sim_ret|]. sim_bind_by sim_getParams. eapply sim_bind; [by apply sim_guard|]. intros ? _ <-. by apply sim_ret.
Qed.
Lemma sim_optin c a : simC eq (transfer_optin c a) (transfer_optin c a).
Proof.
  unfold transfer_optin, bal_Get, bal_Put, cow_Balances. sim_bind_by sim_Get. case_match; [by apply sim_ret|]. sim_bind_by sim_getParams.
  sim_bind_by sim_the_params. rewrite (below_assets _ _ (below_setAssets _ _ _ B)). eapply sim_bind; [by apply sim_guard|]. intros ? _ <-. sim_put.
Qed.
Lemma sim_close c a : simC eq (transfer_close c a) (transfer_close c a).
Proof.
  unfold transfer_close, bal_Get, bal_Put, cow_Balances. sim_bind_by sim_Get. eapply sim_bind; [by apply sim_guard|]. intros ? _ <-.
  case_match; [|apply sim_throw]. sim_bind_by sim_Get. sim_bind_by sim_takeOut. sim_bind_by sim_putIn. sim_bind_by sim_Get.
  eapply sim_bind; [by apply sim_guard|]. intros ? _ <-. sim_put.
Qed.
Lemma sim_assetTransfer c h : simC eq (assetTransfer_apply c h) (assetTransfer_apply c h).
Proof.
  unfold assetTransfer_apply. sim_bind_by sim_source. destruct x as [source clawback].
  eapply sim_bind with (R := eq); [case_match; [apply sim_optin|by apply sim_ret]|]. intros ? _ <-. sim_bind_by sim_takeOut. sim_bind_by sim_putIn.
  case_match; [|by apply sim_ret]. eapply sim_bind; [by apply sim_guard|]. intros ? _ <-. apply sim_close.
Qed.
Lemma sim_assetFreeze c h : simC eq (assetFreeze_apply c h) (assetFreeze_apply c h).
Proof.
  unfold assetFreeze_apply, bal_Get, bal_Put, cow_Balances. sim_bind_by sim_getParams. eapply sim_bind; [by apply sim_guard|]. intros ? _ <-.
  sim_bind_by sim_Get. case_match; [|apply sim_throw]. sim_put.
Qed.

Lemma sim_keep {A} (m : M roundCowState unit) (ad : A) : simC eq m m -> simC eq (m ≫= λ _, mret ad) (m ≫= λ _, mret ad).
Proof. intros Hm. eapply sim_bind; [done|]. intros. by apply sim_ret. Qed.
#[export] Hint Resolve sim_keep sim_keyreg sim_assetConfig sim_assetTransfer sim_assetFreeze : sim.

Lemma sim_Apply tx sp n : simC eq (Apply tx sp n) (Apply tx sp n).
Proof.
  unfold Apply. sim_bind_by sim_the_params. eapply sim_bind; [apply sim_Move|]. intros r _ <-.
  eapply sim_bind with (R := eq); [|intros ad _ <-; by apply sim_ret]. unfold apply_type.
  repeat (case_match; [auto using sim_payment with sim|]). apply sim_throw.
Qed.

(** ** Evaluating a block *)

Lemma checkMinBalances_Forall {Cache} (ev : BlockEvaluator Cache) cow l : checkMinBalances ev cow l = Ok tt <-> Forall (λ a, checkMinBalance ev cow a = Ok tt) l.
Proof.
  induction l as [|a l IH]; cbn [checkMinBalances]; [by split|]. rewrite Forall_cons, <- IH. destruct (checkMinBalance ev cow a) as [[]| |]; cbn; naive_solver.
Qed.
Lemma modifiedAccounts_elem cs a : a ∈ modifiedAccounts cs <-> is_Some (sd_accts (rcs_mods cs) !! a).
Proof.
  unfold modifiedAccounts. rewrite list_elem_of_fmap. split.
  - intros ([b x] & -> & H%elem_of_map_to_list). by eexists.
  - intros [x H]. exists (a, x). by rewrite elem_of_map_to_list.
Qed.

Section Blocks.
Context {Cache : Type}.
Variable consensus : gmap string ConsensusParams.
Variable cr : Crypto.
Variable en : Encoding.
Variable vc : VerifiedTxnCache Cache.
Implicit Types ev : BlockEvaluator Cache.

(** [ev'] does without validation what [ev] does; neither generates a block. *)
Record eval_below ev ev' : Prop := {
  eb_state : cow_below (be_state ev) (be_state ev');
  eb_proto : be_proto ev' = be_proto ev;
  eb_hdr : be_hdr ev' = be_hdr ev;
  eb_validate : be_validate ev' = false;
  eb_generate : be_generate ev = false /\ be_generate ev' = false
}.
Lemma eval_specOf ev ev' : eval_below ev ev' -> specOf ev' = specOf ev.
Proof. intros H. unfold specOf. by rewrite (eb_hdr _ _ H). Qed.

Lemma checkMinBalance_below ev ev' s s' a : eval_below ev ev' -> cow_below s s' ->
  checkMinBalance ev s a = Ok tt -> checkMinBalance ev' s' a = Ok tt.
Proof.
  intros HE HS. unfold checkMinBalance. rewrite (eval_specOf _ _ HE), (eb_proto _ _ HE), (cow_level _ _ HS). destruct (_ || _); [done|].
  pose proof (cow_lookup s s' a HS) as HL. destruct (lookup s a) as [d| |]; [|done..]. destruct HL as (d' & -> & HB). cbn [mbind result_bind].
  pose proof (below_IsZero d d' HB) as HZ. destruct (IsZero d); [by rewrite HZ by done|]. intros E. destruct (IsZero d'); [done|].
  pose proof (WithUpdatedRewards_below d d' (be_proto ev) (rewardsLevel s) HB) as HW. destruct (WithUpdatedRewards d _ _) as [x| |]; [|done..].
  destruct HW as (x' & -> & HB'). cbn [mbind result_bind] in *. unfold effectiveMinBalance. by rewrite (below_algos _ _ HB'), (below_assets _ _ HB').
Qed.
Lemma checkMinBalances_below ev ev' s s' : eval_below ev ev' -> cow_below s s' ->
  checkMinBalances ev s (modifiedAccounts s) = Ok tt -> checkMinBalances ev' s' (modifiedAccounts s') = Ok tt.
Proof.
  intros HE HS. rewrite !checkMinBalances_Forall, !Forall_forall. intros H a Ha%modifiedAccounts_elem.
  apply (checkMinBalance_below ev ev' s s' a HE HS), H, modifiedAccounts_elem. destruct (mb_accts _ _ (cb_mods _ _ HS) a); [by eexists|by destruct Ha].
Qed.

Definition txSt_below (s s' : txSt (Cache := Cache)) : Prop := cow_below s.1 s'.1.
Lemma sim_onCow {A} (R : A -> A -> Prop) m m' : sim cow_below R m m' -> sim txSt_below R (onCow m) (onCow m').
Proof.
  intros Hm [s c] [s' c'] a t HS E. unfold txSt_below in HS. cbn in HS. unfold onCow in E |- *. destruct (m s) as [r u] eqn:Em. injection E as -> <-.
  destruct (Hm _ _ _ _ HS Em) as (a' & u' & -> & HR & HU). by eexists _, _.
Qed.

(** The checks of a validation do not touch the state. *)
Lemma validateTxn_cow ev txn g i u s t : validateTxn consensus cr vc ev txn g i s = (Ok u, t) -> t.1 = s.1.
Proof.
  unfold validateTxn. intros H. inv_ok. match goal with H : runLogicSig _ _ _ _ _ _ _ = _ |- _ => revert H end. unfold runLogicSig.
  repeat case_match; intros; simplify_eq; done.
Qed.

Lemma sim_transaction ev ev' txn ad g i : eval_below ev ev' ->
  sim txSt_below eq (transaction consensus cr vc ev txn ad g i) (transaction consensus cr vc ev' txn ad g i).
Proof.
  intros HE. unfold transaction. rewrite (eval_specOf _ _ HE), (eb_hdr _ _ HE), (eb_validate _ _ HE). eapply sim_bind with (R := λ _ _, True).
  { intros s s' u t HS E. exists tt, s'. split; [done|]. split; [done|]. destruct (be_validate ev); [|by injection E as _ <-].
    apply validateTxn_cow in E. unfold txSt_below. by rewrite E. }
  intros _ _ _. eapply sim_bind; [apply sim_get|]. intros s s' HS. rewrite (cow_counter _ _ HS).
  eapply sim_bind; [apply sim_wrapErrM, sim_onCow, sim_Apply|]. intros ap _ <-.
  eapply sim_bind with (R := λ _ _, True).
  { apply sim_lift. intros u E. exists tt. split; [|done]. unfold checkApplyData. by rewrite (eb_validate _ _ HE). }
  intros _ _ _. eapply sim_bind; [apply sim_lift_eq|]. intros txib _ <-. eapply sim_bind; [apply sim_get|]. intros t t' HT.
  eapply sim_bind with (R := eq).
  { apply sim_lift. intros [] E. exists tt. split; [|done]. by apply (checkMinBalances_below ev ev' t.1 t'.1). }
  intros ? _ <-. eapply sim_bind with (R := eq).
  { apply sim_onCow. intros c c' u v HC [= <- <-]. eexists _, _. split; [done|]. split; [done|]. by apply addTx_below. }
  intros ? _ <-. by apply sim_ret.
Qed.

(** The groups of the two evaluations differ only in the bytes counted. *)
Lemma sim_groupLoop ev ev' g first l : eval_below ev ev' -> forall i n n',
  sim txSt_below (λ r r', r'.1 = r.1) (groupLoop consensus cr en vc ev g first i n l) (groupLoop consensus cr en vc ev' g first i n' l).
Proof.
  intros HE. induction l as [|x l IH]; intros i n n'; cbn [groupLoop]; [by apply sim_ret|]. rewrite (eb_validate _ _ HE).
  eapply sim_bind; [by apply sim_transaction|]. intros txib _ <-. eapply sim_bind; [by apply sim_guard|]. intros ? _ <-.
  eapply sim_bind; [apply sim_lift_eq|]. intros h _ <-. eapply sim_bind; [apply IH|]. intros r r' Hr. apply sim_ret. cbn. by rewrite Hr.
Qed.

Lemma sim_TransactionGroup g : sim eval_below eq (TransactionGroup consensus cr en vc g) (TransactionGroup consensus cr en vc g).
Proof.
  intros ev ev' u t HE E. unfold TransactionGroup, transactionGroup in E |- *. destruct g as [|x g]; [injection E as <- <-; by eexists _, _|].
  rewrite (eb_proto _ _ HE). destruct (_ <? _); [done|].
  destruct (groupLoop _ _ _ _ ev _ _ _ _ _ _) as [r [cow cache]] eqn:EG. destruct r as [[[txibs hashes] n]| |]; [|done..].
  assert (txSt_below (child (be_state ev), be_txcache ev) (child (be_state ev'), be_txcache ev')) as HS by apply child_below, HE.
  destruct (sim_groupLoop ev ev' _ _ _ HE _ _ 0 _ _ _ _ HS EG)
    as ([[txibs' hashes'] n'] & [cow' cache'] & -> & [= -> ->] & HC). destruct (checkComplete _ _ _) as [[]| |]; [|done..]. injection E as <- <-.
  eexists _, _. split; [done|]. split; [done|]. destruct HE as [H1 H2 H3 H4 H5]. split; cbn; [by apply commit_below|done| |done|done].
  unfold be_hdr in *. by cbn.
Qed.
Lemma sim_evalGroups ctxErr l : forall i j, sim eval_below eq (evalGroups consensus cr en vc ctxErr i l) (evalGroups consensus cr en vc (λ _, None) j l).
Proof.
  induction l as [|g l IH]; intros i j; cbn [evalGroups]; [by apply sim_ret|]. destruct (ctxErr i); [apply sim_throw|].
  eapply sim_bind; [apply sim_TransactionGroup|]. intros ? _ <-. apply IH.
Qed.

Lemma sim_workaround gh p r r' n : rec_below r r' -> simC rec_below (workaroundOverspentRewards gh p r n) (workaroundOverspentRewards gh p r' n).
Proof.
  intros Hr. unfold workaroundOverspentRewards. repeat (case_match; [by apply sim_ret|]).
  eapply sim_bind; [apply sim_wrapErrM, sim_Move|]. intros ? _ <-. apply sim_Get.
Qed.
Lemma sim_withdrawRewards gh h p t n k : simC eq (withdrawRewards gh h p t n k) (withdrawRewards gh h p t n k).
Proof.
  unfold withdrawRewards. sim_bind_by sim_Get. eapply sim_bind; [by apply sim_workaround|]. intros r r' Hr. sim_eqs.
  eapply sim_bind; [apply sim_lift_eq|]. intros units _ <-. destruct (ot_Mul _ _ _) as [rewards o1].
  destruct (ot_SubA _ _ _) as [algos o2]. eapply sim_bind; [by apply sim_guard|]. intros ? _ <-.
  eapply sim_bind; [apply sim_Put; split; [done|by apply below_setAlgos]|]. intros ? _ <-. destruct (ot_SubA _ _ _). by apply sim_guard.
Qed.

(** [l'] answers about round [r] as [l] does, up to empty maps. *)
Record ledger_below (l l' : ledgerForEvaluator) (r : Round) : Prop := {
  lb_genesis : lfe_GenesisHash l' = lfe_GenesisHash l;
  lb_hdr : exists h, lfe_BlockHdr l r = Ok h /\ lfe_BlockHdr l' r = Ok h /\ bh_Round h = r;
  lb_lookup a : lookup_below (lfe_Lookup l r a) (lfe_Lookup l' r a);
  lb_totals : lfe_Totals l' r = lfe_Totals l r;
  lb_lookupWithoutRewards a : lookup_below (lfe_LookupWithoutRewards l r a) (lfe_LookupWithoutRewards l' r a);
  lb_creator i : same_outcome (lfe_GetAssetCreatorForRound l r i) (lfe_GetAssetCreatorForRound l' r i)
}.

Lemma startEvaluator_below l l' hdr validate txcache ev r : 0 <= r -> r + 1 < 2 ^ 64 -> bh_Round hdr = r + 1 -> ledger_below l l' r ->
  startEvaluator consensus en l hdr validate false txcache = Ok ev ->
  exists ev', startEvaluator consensus en l' hdr false false (None : option Cache) = Ok ev' /\ eval_below ev ev'.
Proof.
  intros H0 Hlt Hr [HG (h & Eh & Eh' & Ehr) HL HT HW HC] E. unfold startEvaluator in E |- *. destruct (consensus !! _) as [proto|]; [|done].
  rewrite Hr in E |- *. rewrite wrap64_small in E |- * by (unfold u64; lia). replace (r + 1 - 1) with r in E |- * by lia.
  rewrite (proj2 (Z.ltb_lt _ _)) in E |- * by lia. rewrite Eh in E. rewrite Eh'. cbn [wrapErr mbind result_bind] in E |- *. rewrite Ehr in E |- *. rewrite HT.
  apply result_bind_Ok in E as (t & -> & E). cbn [mbind result_bind]. apply result_bind_Ok in E as (pool & EP & E).
  specialize (HL (bh_RewardsPool h)). rewrite EP in HL. destruct HL as (pool' & -> & _). cbn [mbind result_bind] in E |- *.
  apply result_bind_Ok in E as (_ & _ & E). destruct (ot_Sub _ _ _) as [k o]. apply result_bind_Ok in E as (u & Eu & E). rewrite Eu, HG. cbn [mbind result_bind].
  destruct (withdrawRewards _ _ _ _ _ _ _) as [r0 s] eqn:EW. destruct r0 as [u'| |]; [|done..]. injection E as <-.
  eapply sim_withdrawRewards in EW as (u2 & s' & -> & _ & HS); cycle 1.
  { split; [|done|apply emptyDelta_below]. split; cbn; [apply HW|done|apply HC]. }
  eexists. split; [done|]. by split.
Qed.

Lemma ledger_eval_below l l' ctxErr blk validate txcache delta r : 0 <= r -> r + 1 < 2 ^ 64 -> bh_Round (blk_BlockHeader blk) = r + 1 ->
  ledger_below l l' r -> ledger_eval consensus cr en vc l ctxErr blk validate txcache = Ok delta ->
  exists delta', ledger_eval consensus cr en vc l' (λ _, None) blk false None = Ok delta' /\ mods_below delta delta'.
Proof.
  intros H0 Hlt Hr HL E. unfold ledger_eval in E |- *. apply result_bind_Ok in E as (ev & E1 & E).
  destruct (startEvaluator_below l l' _ _ _ ev r H0 Hlt Hr HL E1) as (ev' & -> & HE). cbn [mbind result_bind].
  apply result_bind_Ok in E as (groups & -> & E). cbn [mbind result_bind]. destruct (evalGroups _ _ _ _ ctxErr _ _ ev) as [r0 ev1] eqn:EG.
  destruct r0 as [u| |]; [|done..]. destruct (sim_evalGroups ctxErr groups 0 0 _ _ _ _ HE EG) as (u' & ev1' & -> & _ & [HS _ _ _ [G1 G2]]).
  apply result_bind_Ok in E as (_ & _ & E). injection E as <-. eexists. split; [done|]. unfold endOfBlock. rewrite G1, G2. apply HS.
Qed.
End Blocks.
