(* ===== verification/Agreement.v ===== *)
(** Votes, credentials, bundles, certificates and proposals of the agreement
    protocol (src/agreement/{types,vote,bundle,certificate,selector,proposal,params}.go
    and src/data/committee/credential.go).

    The VRF, the one-time signatures, the hashes and the sortition function are the
    fields of [AgreeCrypto]; the ledger is the record [LedgerReader].  The text of
    errors is not modelled where one error wraps another.  Bundles are verified by
    concurrent workers: the order in which their results arrive is an argument. *)

From S2P Require Import Prelude Config Basics Transactions Bookkeeping.

Notation period := Z (only parsing).
Notation step := Z (only parsing).

(** ** Steps (types.go) *)

Definition propose : step := 0.
Definition soft : step := 1.
Definition cert : step := 2.
Definition next : step := 3.
Definition late : step := 253.
Definition redo : step := 254.
Definition down : step := 255.

(** Durations in nanoseconds: [config.Protocol] has SmallLambda = 2s and BigLambda = 15s. *)
Definition SmallLambda : Z := 2000000000.
Definition BigLambda : Z := 15000000000.
Definition filterTimeout : Z := 2 * SmallLambda.
Definition deadlineTimeout : Z := BigLambda + SmallLambda.
Definition partitionStep : step := next + 3.
Definition recoveryExtraTimeout : Z := SmallLambda.

(** [nextVoteRanges] after [n] rounds of its loop; durations wrap as int64. *)
Definition wrapI64 (z : Z) : Z := (z + 2 ^ 63) mod 2 ^ 64 - 2 ^ 63.
Fixpoint voteRangesLoop (n : nat) (extra lower upper : Z) : Z * Z :=
  match n with
  | O => (lower, upper)
  | S n => let extra := wrapI64 (extra * 2) in voteRangesLoop n extra upper (wrapI64 (upper + extra))
  end.
Definition nextVoteRanges (s : step) : Z * Z :=
  voteRangesLoop (Z.to_nat (s - next)) recoveryExtraTimeout deadlineTimeout (deadlineTimeout + recoveryExtraTimeout).

Definition threshold (s : step) (proto : ConsensusParams) : Z :=
  if s =? propose then 0
  else if s =? soft then cp_SoftCommitteeThreshold proto
  else if s =? cert then cp_CertCommitteeThreshold proto
  else if s =? late then cp_LateCommitteeThreshold proto
  else if s =? redo then cp_RedoCommitteeThreshold proto
  else if s =? down then cp_DownCommitteeThreshold proto
  else cp_NextCommitteeThreshold proto.

Definition reachesQuorum (s : step) (proto : ConsensusParams) (weight : Z) : bool :=
  if s =? propose then false
  else if s =? soft then cp_SoftCommitteeThreshold proto <=? weight
  else if s =? cert then cp_CertCommitteeThreshold proto <=? weight
  else if s =? late then cp_LateCommitteeThreshold proto <=? weight
  else if s =? redo then cp_RedoCommitteeThreshold proto <=? weight
  else if s =? down then cp_DownCommitteeThreshold proto <=? weight
  else cp_NextCommitteeThreshold proto <=? weight.

Definition committeeSize (s : step) (proto : ConsensusParams) : Z :=
  if s =? propose then cp_NumProposers proto
  else if s =? soft then cp_SoftCommitteeSize proto
  else if s =? cert then cp_CertCommitteeSize proto
  else if s =? late then cp_LateCommitteeSize proto
  else if s =? redo then cp_RedoCommitteeSize proto
  else if s =? down then cp_DownCommitteeSize proto
  else cp_NextCommitteeSize proto.

(** ** Data *)

Record proposalValue := mkProposalValue {
  pv_OriginalPeriod : period;
  pv_OriginalProposer : Address;
  pv_BlockDigest : Digest;
  pv_EncodingDigest : Digest
}.
#[export] Instance proposalValue_eq_dec : EqDecision proposalValue.
Proof. solve_decision. Defined.
#[export] Instance proposalValue_countable : Countable proposalValue.
Proof.
  refine (inj_countable' (λ v, (pv_OriginalPeriod v, pv_OriginalProposer v, pv_BlockDigest v, pv_EncodingDigest v))
            (λ '(p, a, b, e), mkProposalValue p a b e) _). by intros [].
Defined.
Definition bottom : proposalValue := mkProposalValue 0 zero32 zero32 zero32.

Record hashableCredential := mkHashableCredential { hc_RawOut : bytes; hc_Member : Address; hc_Iter : Z }.
#[export] Instance hashableCredential_eq_dec : EqDecision hashableCredential.
Proof. solve_decision. Defined.

(** An [UnauthenticatedCredential] is its VRF proof. *)
Notation UnauthenticatedCredential := (list Z) (only parsing).
Record Credential := mkCredential {
  cred_Weight : Z;
  cred_VrfOut : Digest;
  cred_DomainSeparationEnabled : bool;
  cred_Hashable : hashableCredential;
  cred_Proof : UnauthenticatedCredential
}.
#[export] Instance Credential_eq_dec : EqDecision Credential.
Proof. solve_decision. Defined.

Record rawVote := mkRawVote {
  rv_Sender : Address;
  rv_Round : Round;
  rv_Period : period;
  rv_Step : step;
  rv_Proposal : proposalValue
}.
#[export] Instance rawVote_eq_dec : EqDecision rawVote.
Proof. solve_decision. Defined.

Record unauthenticatedVote := mkUnauthenticatedVote {
  uv_R : rawVote;
  uv_Cred : UnauthenticatedCredential;
  uv_Sig : bytes
}.
#[export] Instance unauthenticatedVote_eq_dec : EqDecision unauthenticatedVote.
Proof. solve_decision. Defined.

Record vote := mkVote { v_R : rawVote; v_Cred : Credential; v_Sig : bytes }.
#[export] Instance vote_eq_dec : EqDecision vote.
Proof. solve_decision. Defined.

Record unauthenticatedEquivocationVote := mkUnauthenticatedEquivocationVote {
  uev_Sender : Address;
  uev_Round : Round;
  uev_Period : period;
  uev_Step : step;
  uev_Cred : UnauthenticatedCredential;
  uev_Proposals : proposalValue * proposalValue;
  uev_Sigs : bytes * bytes
}.
Record equivocationVote := mkEquivocationVote {
  ev_Sender : Address;
  ev_Round : Round;
  ev_Period : period;
  ev_Step : step;
  ev_Cred : Credential;
  ev_Proposals : proposalValue * proposalValue;
  ev_Sigs : bytes * bytes
}.
#[export] Instance equivocationVote_eq_dec : EqDecision equivocationVote.
Proof. solve_decision. Defined.

Record voteAuthenticator := mkVoteAuthenticator {
  va_Sender : Address;
  va_Cred : UnauthenticatedCredential;
  va_Sig : bytes
}.
Record equivocationVoteAuthenticator := mkEquivocationVoteAuthenticator {
  eva_Sender : Address;
  eva_Cred : UnauthenticatedCredential;
  eva_Sigs : bytes * bytes;
  eva_Proposals : proposalValue * proposalValue
}.
Record unauthenticatedBundle := mkUnauthenticatedBundle {
  ub_Round : Round;
  ub_Period : period;
  ub_Step : step;
  ub_Proposal : proposalValue;
  ub_Votes : list voteAuthenticator;
  ub_EquivocationVotes : list equivocationVoteAuthenticator
}.
Record bundle := mkBundle {
  b_U : unauthenticatedBundle;
  b_Votes : list vote;
  b_EquivocationVotes : list equivocationVote
}.
(** A [Certificate] is a bundle of cert votes. *)
Notation Certificate := unauthenticatedBundle (only parsing).

Record selector := mkSelector { sel_Seed : bytes; sel_Round : Round; sel_Period : period; sel_Step : step }.
Record Membership := mkMembership { m_Record : BalanceRecord; m_Selector : selector; m_TotalMoney : MicroAlgos }.

Record unauthenticatedProposal := mkUnauthenticatedProposal {
  up_Block : Block;
  up_SeedProof : bytes;
  up_OriginalPeriod : period;
  up_OriginalProposer : Address
}.
#[export] Instance unauthenticatedProposal_eta : Eta unauthenticatedProposal := λ r,
  mkUnauthenticatedProposal (up_Block r) (up_SeedProof r) (up_OriginalPeriod r) (up_OriginalProposer r).

(** ** What the protocol takes from elsewhere *)

(** Inputs of the VRF. *)
Inductive VrfInput := VSelector (sel : selector) | VSeed (seed : bytes).
Record AgreeCrypto := mkAgreeCrypto {
  ac_VrfVerify : bytes -> bytes -> VrfInput -> bool * bytes;
  ac_VrfProve : bytes -> VrfInput -> bytes * bool;
  ac_VrfHash : bytes -> bytes * bool;
  ac_OtsVerify : bytes -> Z * Z -> rawVote -> bytes -> bool;
  ac_Hash : bytes -> Digest;
  ac_HashCredential : hashableCredential -> Digest;
  ac_HashSeed : bytes -> Digest;
  ac_HashProposerSeed : Address -> bytes -> Digest;
  ac_HashSeedInput : Digest -> Digest -> Digest;
  ac_HashProposal : unauthenticatedProposal -> Digest;
  ac_HashHeader : BlockHeader -> Digest;
  ac_Select : Z -> Z -> Z -> Digest -> Z
}.
Record LedgerReader := mkLedgerReader {
  lr_Seed : Round -> result bytes;
  lr_BalanceRecord : Round -> Address -> result BalanceRecord;
  lr_Circulation : Round -> result MicroAlgos;
  lr_LookupDigest : Round -> result Digest;
  lr_ConsensusParams : Round -> result ConsensusParams
}.

Definition ParamsRound (rnd : Round) : Round := SubSaturate rnd 2.

(** The big-endian number of a digest. *)
Definition SetBytes (h : bytes) : Z := foldl (λ n b, n * 256 + b) 0 h.
(** Eight bytes of a uint64, most significant first. *)
Definition PutUint64 (n : Z) : bytes := (λ k, Z.shiftr n (8 * k) mod 256) <$> [7; 6; 5; 4; 3; 2; 1; 0].

Section Agreement.
Variable ac : AgreeCrypto.

(** ** Credentials (credential.go) *)

(** The size of a committee is below 2^53, so its comparison with the total money
    as a float64 is the comparison of the integers. *)
Definition cred_Verify (cred : UnauthenticatedCredential) (proto : ConsensusParams) (m : Membership) : result Credential :=
  let '(addr, data) := m_Record m in
  let '(ok, vrfOut) := ac_VrfVerify ac (ad_SelectionID data) cred (VSelector (m_Selector m)) in
  let hashable := mkHashableCredential vrfOut addr 0 in
  let h := if cp_CredentialDomainSeparationEnabled proto then ac_HashCredential ac hashable
           else ac_Hash ac (vrfOut ++ addr) in
  if negb ok then Err (Errorf "UnauthenticatedCredential.Verify: could not verify VRF Proof")
  else
    let userMoney := VotingStake data in
    let expectedSelection := committeeSize (sel_Step (m_Selector m)) proto in
    if m_TotalMoney m <? userMoney then Panic "UnauthenticatedCredential.Verify: total money below user money"
    else if (m_TotalMoney m =? 0) || (expectedSelection =? 0) || (m_TotalMoney m <? expectedSelection)
    then Panic "UnauthenticatedCredential.Verify: bad total money"
    else
      let weight := if userMoney =? 0 then 0 else ac_Select ac userMoney (m_TotalMoney m) expectedSelection h in
      if weight =? 0 then Err (Errorf "UnauthenticatedCredential.Verify: credential has weight 0")
      else Ok (mkCredential weight h (cp_CredentialDomainSeparationEnabled proto)
                 (if cp_CredentialDomainSeparationEnabled proto then hashable else mkHashableCredential (replicate 64 0) zero32 0) cred).

Definition MakeCredential (secrets : bytes) (sel : selector) : UnauthenticatedCredential :=
  let '(pf, ok) := ac_VrfProve ac secrets (VSelector sel) in if ok then pf else replicate 80 0.

(** The hash of draw [i]. *)
Definition drawHash (cred : Credential) (i : Z) : Digest :=
  if cred_DomainSeparationEnabled cred then
    ac_HashCredential ac (mkHashableCredential (hc_RawOut (cred_Hashable cred)) (hc_Member (cred_Hashable cred)) i)
  else ac_Hash ac (cred_VrfOut cred ++ PutUint64 i ++ replicate 24 0).
(** The loop of [lowestOutput] over [n] more draws from [i]. *)
Fixpoint lowestLoop (cred : Credential) (n : nat) (i lowest : Z) : Z :=
  match n with
  | O => lowest
  | S n => let h := SetBytes (drawHash cred i) in
           lowestLoop cred n (i + 1) (if (i =? 0) || (h <? lowest) then h else lowest)
  end.
Definition lowestOutput (cred : Credential) : Z := lowestLoop cred (Z.to_nat (cred_Weight cred)) 0 0.
Definition Less (cred otherCred : Credential) : bool := lowestOutput cred <? lowestOutput otherCred.

(** ** Membership (selector.go) *)

Definition balanceRound (r : Round) (cparams : ConsensusParams) : Round :=
  SubSaturate r (wrap64 (2 * cp_SeedRefreshInterval cparams * cp_SeedLookback cparams)).
Definition seedRound (r : Round) (cparams : ConsensusParams) : Round := SubSaturate r (cp_SeedLookback cparams).

Definition membership (l : LedgerReader) (addr : Address) (r : Round) (p : period) (s : step) : result Membership :=
  cparams ← lr_ConsensusParams l (ParamsRound r);
  record ← lr_BalanceRecord l (balanceRound r cparams) addr;
  total ← lr_Circulation l (balanceRound r cparams);
  seed ← lr_Seed l (seedRound r cparams);
  Ok (mkMembership record (mkSelector seed r p s) total).

(** ** Votes (vote.go) *)

Definition vote_u (v : vote) : unauthenticatedVote := mkUnauthenticatedVote (v_R v) (cred_Proof (v_Cred v)) (v_Sig v).

(** The checks of a vote's step against its proposal-value. *)
Definition voteWellFormed (rv : rawVote) : result unit :=
  let pv := rv_Proposal rv in
  _ ← (if rv_Step rv =? propose then
         _ ← guardR (negb ((rv_Period rv =? pv_OriginalPeriod pv) && bool_decide (rv_Sender rv <> pv_OriginalProposer pv)))
               (Errorf "unauthenticatedVote.verify: proposal-vote sender mismatches with proposal-value");
         guardR (negb (rv_Period rv <? pv_OriginalPeriod pv))
           (Errorf "unauthenticatedVote.verify: proposal-vote claims to repropose block from future period")
       else Ok tt);
  guardR (negb (((rv_Step rv =? propose) || (rv_Step rv =? soft) || (rv_Step rv =? cert)) && bool_decide (pv = bottom)))
    (Errorf "unauthenticatedVote.verify: votes cannot validate bottom").

Definition vote_verify (uv : unauthenticatedVote) (l : LedgerReader) : result vote :=
  let rv := uv_R uv in
  m ← membership l (rv_Sender rv) (rv_Round rv) (rv_Period rv) (rv_Step rv);
  _ ← voteWellFormed rv;
  proto ← lr_ConsensusParams l (ParamsRound (rv_Round rv));
  let data := (m_Record m).2 in
  _ ← guardR (negb (rv_Round rv <? ad_VoteFirstValid data)) (Errorf "unauthenticatedVote.verify: vote before VoteFirstValid");
  _ ← guardR (negb (negb (ad_VoteLastValid data =? 0) && (ad_VoteLastValid data <? rv_Round rv)))
        (Errorf "unauthenticatedVote.verify: vote after VoteLastValid");
  ephID ← OneTimeIDForRound (rv_Round rv) (KeyDilution data proto);
  _ ← guardR (ac_OtsVerify ac (ad_VoteID data) ephID rv (uv_Sig uv)) (Errorf "unauthenticatedVote.verify: could not verify FS signature");
  cred ← cred_Verify (uv_Cred uv) proto m;
  Ok (mkVote rv cred (uv_Sig uv)).

(** [voting.Sign] and [voting.KeyDilution] of the caller's keys are arguments; the
    empty signature is the list []. *)
Definition makeVote (rv : rawVote) (votingKeyDilution : ConsensusParams -> Z) (votingSign : Z * Z -> rawVote -> bytes)
    (selectionSK : bytes) (l : LedgerReader) : result unauthenticatedVote :=
  m ← membership l (rv_Sender rv) (rv_Round rv) (rv_Period rv) (rv_Step rv);
  proto ← lr_ConsensusParams l (ParamsRound (rv_Round rv));
  let s := rv_Step rv in
  let noBottom := (s =? propose) || (s =? soft) || (s =? cert) ||
                  (cp_FastPartitionRecovery proto && ((s =? late) || (s =? redo))) in
  if noBottom && bool_decide (rv_Proposal rv = bottom) then Panic "makeVote: votes from step cannot validate bottom"
  else if cp_FastPartitionRecovery proto && (s =? down) && bool_decide (rv_Proposal rv <> bottom)
  then Panic "makeVote: votes from step must validate bottom"
  else
    ephID ← OneTimeIDForRound (rv_Round rv) (votingKeyDilution proto);
    let sig := votingSign ephID rv in
    _ ← guardR (bool_decide (sig <> [])) (Errorf "makeVote: got back empty signature for vote");
    Ok (mkUnauthenticatedVote rv (MakeCredential selectionSK (m_Selector m)) sig).

Definition eqv_verify (pair : unauthenticatedEquivocationVote) (l : LedgerReader) : result equivocationVote :=
  let '(p0, p1) := uev_Proposals pair in
  let '(s0, s1) := uev_Sigs pair in
  _ ← guardR (bool_decide (p0 <> p1)) (Errorf "isEquivocationPair: not an equivocation pair: identical vote");
  let rv p := mkRawVote (uev_Sender pair) (uev_Round pair) (uev_Period pair) (uev_Step pair) p in
  v0 ← vote_verify (mkUnauthenticatedVote (rv p0) (uev_Cred pair) s0) l;
  _ ← vote_verify (mkUnauthenticatedVote (rv p1) (uev_Cred pair) s1) l;
  Ok (mkEquivocationVote (uev_Sender pair) (uev_Round pair) (uev_Period pair) (uev_Step pair) (v_Cred v0)
        (uev_Proposals pair) (uev_Sigs pair)).

Definition pair_v0 (pair : equivocationVote) : vote :=
  mkVote (mkRawVote (ev_Sender pair) (ev_Round pair) (ev_Period pair) (ev_Step pair) (ev_Proposals pair).1) (ev_Cred pair) (ev_Sigs pair).1.
Definition pair_v1 (pair : equivocationVote) : vote :=
  mkVote (mkRawVote (ev_Sender pair) (ev_Round pair) (ev_Period pair) (ev_Step pair) (ev_Proposals pair).2) (ev_Cred pair) (ev_Sigs pair).2.

(** ** Bundles (bundle.go) *)

(** The loops of [makeBundle] that pack entries of weight [w] until a quorum. *)
Fixpoint packVotes {A B} (s : step) (proto : ConsensusParams) (w : A -> Z) (f : A -> B) (l : list A) (packed : Z) : list B * Z :=
  match l with
  | [] => ([], packed)
  | x :: l => if reachesQuorum s proto packed then ([], packed)
              else let '(out, packed) := packVotes s proto w f l (wrap64 (packed + w x)) in (f x :: out, packed)
  end.

Definition voteAuth (v : vote) : voteAuthenticator := mkVoteAuthenticator (rv_Sender (v_R v)) (cred_Proof (v_Cred v)) (v_Sig v).
Definition eqvAuth (ev : equivocationVote) : equivocationVoteAuthenticator :=
  mkEquivocationVoteAuthenticator (ev_Sender ev) (cred_Proof (ev_Cred ev)) (ev_Sigs ev) (ev_Proposals ev).

Definition makeBundle (proto : ConsensusParams) (targetProposal : proposalValue) (votes : list vote)
    (equivocationVotes : list equivocationVote) : result unauthenticatedBundle :=
  match votes with
  | [] => Panic "makeBundle: no votes present in bundle"
  | v0 :: _ =>
    let s := rv_Step (v_R v0) in
    if existsb (λ v, bool_decide (rv_Proposal (v_R v) <> targetProposal)) votes
    then Panic "makeBundle: invalid vote passed into function"
    else
      let '(certVotes, packedSoFar) := packVotes s proto (λ v, cred_Weight (v_Cred v)) voteAuth votes 0 in
      let '(certEquiVotes, packedSoFar) := packVotes s proto (λ ev, cred_Weight (ev_Cred ev)) eqvAuth equivocationVotes packedSoFar in
      if negb (reachesQuorum s proto packedSoFar) then Panic "not enough votes to generate bundle"
      else Ok (mkUnauthenticatedBundle (rv_Round (v_R v0)) (rv_Period (v_R v0)) s targetProposal certVotes certEquiVotes)
  end.

(** The senders of a bundle, checked to be distinct. *)
Fixpoint checkDuplicates (voters : gset Address) (senders : list Address) : result (gset Address) :=
  match senders with
  | [] => Ok voters
  | a :: senders => if bool_decide (a ∈ voters) then Err (Errorf "unauthenticatedBundle.verify: vote was duplicated in bundle")
                    else checkDuplicates ({[a]} ∪ voters) senders
  end.

(** What a worker verifies: a vote or a pair. *)
Inductive verifyRequest := ReqVote (uv : unauthenticatedVote) | ReqEqVote (uev : unauthenticatedEquivocationVote).
Definition bundleRequests (b : unauthenticatedBundle) : list verifyRequest :=
  ((λ auth, ReqVote (mkUnauthenticatedVote (mkRawVote (va_Sender auth) (ub_Round b) (ub_Period b) (ub_Step b) (ub_Proposal b))
                      (va_Cred auth) (va_Sig auth))) <$> ub_Votes b) ++
  ((λ auth, ReqEqVote (mkUnauthenticatedEquivocationVote (eva_Sender auth) (ub_Round b) (ub_Period b) (ub_Step b)
                        (eva_Cred auth) (eva_Proposals auth) (eva_Sigs auth))) <$> ub_EquivocationVotes b).

(** Reading the results in the order of the requests [reqs]. *)
Fixpoint collectResults (l : LedgerReader) (reqs : list verifyRequest) (weight : Z)
    : result (list vote * list equivocationVote * Z) :=
  match reqs with
  | [] => Ok ([], [], weight)
  | ReqVote uv :: reqs =>
    v ← vote_verify uv l;
    r ← collectResults l reqs (wrap64 (weight + cred_Weight (v_Cred v)));
    let '(votes, eqVotes, weight) := r in Ok (v :: votes, eqVotes, weight)
  | ReqEqVote uev :: reqs =>
    ev ← eqv_verify uev l;
    r ← collectResults l reqs (wrap64 (weight + cred_Weight (ev_Cred ev)));
    let '(votes, eqVotes, weight) := r in Ok (votes, ev :: eqVotes, weight)
  end.

(** [arrival] is the order in which the workers answer. *)
Definition bundle_verify (arrival : list verifyRequest -> list verifyRequest) (b : unauthenticatedBundle) (l : LedgerReader) : result bundle :=
  _ ← guardR (negb (ub_Step b =? propose)) (Errorf "unauthenticatedBundle.verify: b.Step = propose");
  proto ← lr_ConsensusParams l (ParamsRound (ub_Round b));
  let numVotes := zlen (ub_Votes b) in
  let numEquivocationVotes := zlen (ub_EquivocationVotes b) in
  let t := threshold (ub_Step b) proto in
  _ ← guardR (negb ((t <? numVotes) || (t <? numEquivocationVotes) || (t <? numVotes + numEquivocationVotes)))
        (Errorf "unauthenticatedBundle.verify: bundle too large");
  _ ← checkDuplicates ∅ ((va_Sender <$> ub_Votes b) ++ (eva_Sender <$> ub_EquivocationVotes b));
  r ← collectResults l (arrival (bundleRequests b)) 0;
  let '(votes, eqVotes, weight) := r in
  _ ← guardR (reachesQuorum (ub_Step b) proto weight) (Errorf "bundle: did not see enough votes");
  Ok (mkBundle b votes eqVotes).

Definition bundle_Certificate (b : unauthenticatedBundle) : result Certificate :=
  if negb (ub_Step b =? cert) then Panic "bundle.Certificate: expected step=cert"
  else if bool_decide (ub_Proposal b = bottom) then Panic "bundle.Certificate: attempted to generate a Certificate for a bottom-bundle"
  else Ok b.

(** ** Certificates (certificate.go) *)

Definition block_Digest (b : Block) : Digest := ac_HashHeader ac (blk_BlockHeader b).

Definition claimsToAuthenticate (c : Certificate) (e : Block) : result unit :=
  _ ← guardR (ub_Round c =? bh_Round (blk_BlockHeader e)) (Errorf "certificate claims to validate the wrong round");
  guardR (bool_decide (pv_BlockDigest (ub_Proposal c) = block_Digest e)) (Errorf "certificate claims to validate the wrong hash").

Definition Authenticate (arrival : list verifyRequest -> list verifyRequest) (c : Certificate) (e : Block) (l : LedgerReader) : result unit :=
  _ ← guardR (ub_Step c =? cert) (Errorf "certificate step is not Cert");
  _ ← claimsToAuthenticate c e;
  _ ← bundle_verify arrival c l;
  Ok tt.

(** ** Proposals (proposal.go) *)

Definition up_value (p : unauthenticatedProposal) : proposalValue :=
  mkProposalValue (up_OriginalPeriod p) (up_OriginalProposer p) (block_Digest (up_Block p)) (ac_HashProposal ac p).

(** The seed of a block of round [rnd] from [alpha]: every [SeedRefreshInterval]
    windows the digest of an old block is mixed in. *)
Definition rerandomize (rnd : Round) (alpha : Digest) (cparams : ConsensusParams) (l : LedgerReader) : result bytes :=
  let window := wrap64 (cp_SeedLookback cparams * cp_SeedRefreshInterval cparams) in
  if window =? 0 then Panic "integer divide by zero"
  else
    history ← (if rnd mod window <? cp_SeedLookback cparams then lr_LookupDigest l (SubSaturate rnd window) else Ok zero32);
    Ok (ac_HashSeedInput ac alpha history).

(** The first error path sets a local variable and returns the zero seed and a nil
    error. *)
Definition deriveNewSeed (address : Address) (vrfSK : bytes) (rnd : Round) (per : period) (l : LedgerReader)
    : result (bytes * bytes) :=
  match lr_ConsensusParams l (ParamsRound rnd) with
  | Panic m => Panic m
  | Err _ => Ok (zero32, replicate 80 0)
  | Ok cparams =>
    prevSeed ← lr_Seed l (seedRound rnd cparams);
    r ← (if per =? 0 then
           let '(seedProof, ok) := ac_VrfProve ac vrfSK (VSeed prevSeed) in
           _ ← guardR ok (Errorf "could not make seed proof");
           let '(vrfOut, ok) := ac_VrfHash ac seedProof in
           if negb ok then Panic "VrfProof.Hash() failed on a proof we ourselves generated"
           else Ok (seedProof, ac_HashProposerSeed ac address vrfOut)
         else Ok (replicate 80 0, ac_HashSeed ac prevSeed));
    newSeed ← rerandomize rnd r.2 cparams l;
    Ok (newSeed, r.1)
  end.

Definition verifyNewSeed (p : unauthenticatedProposal) (l : LedgerReader) : result unit :=
  let value := up_value p in
  let rnd := bh_Round (blk_BlockHeader (up_Block p)) in
  cparams ← lr_ConsensusParams l (ParamsRound rnd);
  proposerRecord ← lr_BalanceRecord l (balanceRound rnd cparams) (pv_OriginalProposer value);
  prevSeed ← lr_Seed l (seedRound rnd cparams);
  alpha ← (if pv_OriginalPeriod value =? 0 then
             _ ← guardR (ac_VrfVerify ac (ad_SelectionID proposerRecord.2) (up_SeedProof p) (VSeed prevSeed)).1
                   (Errorf "payload seed proof malformed");
             let '(vrfOut, ok) := ac_VrfHash ac (up_SeedProof p) in
             if negb ok then Panic "VrfProof.Hash() failed on a proof we ourselves generated"
             else Ok (ac_HashProposerSeed ac proposerRecord.1 vrfOut)
           else Ok (ac_HashSeed ac prevSeed));
  seed ← rerandomize rnd alpha cparams l;
  guardR (bool_decide (bh_Seed (blk_BlockHeader (up_Block p)) = seed)) (Errorf "payload seed malformed").

(** A block with its validation; [ve.WithSeed] sets the seed of the header. *)
Definition makeProposal (ve : Block) (pf : bytes) (origPer : period) (origProp : Address) : unauthenticatedProposal :=
  mkUnauthenticatedProposal ve pf origPer origProp.

Definition withSeed (ve : Block) (seed : bytes) : Block := ve <| blk_BlockHeader ::= λ h, h <| bh_Seed := seed |> |>.

Definition proposalForBlock (address : Address) (vrfSK : bytes) (ve : Block) (per : period) (l : LedgerReader)
    : result (unauthenticatedProposal * proposalValue) :=
  r ← deriveNewSeed address vrfSK (bh_Round (blk_BlockHeader ve)) per l;
  let p := makeProposal (withSeed ve r.1) r.2 per address in
  Ok (p, mkProposalValue per address (block_Digest (up_Block p)) (ac_HashProposal ac p)).

(** [validator] is the ledger's [Validate]. *)
Definition proposal_validate (validator : Block -> result Block) (p : unauthenticatedProposal) (current : Round) (l : LedgerReader)
    : result unauthenticatedProposal :=
  let entry := up_Block p in
  _ ← guardR (bh_Round (blk_BlockHeader entry) =? current) (Errorf "proposed entry from wrong round");
  _ ← verifyNewSeed p l;
  ve ← validator entry;
  Ok (makeProposal ve (up_SeedProof p) (up_OriginalPeriod p) (up_OriginalProposer p)).
End Agreement.
