(* ===== verification/AgreementSpec.v ===== *)
(** Bundles, certificates and proposals verify what they should.

    [bundle_verify_sound] reads a verified bundle as a set of distinct senders with
    valid votes and a quorum of weight, and [bundle_complete] is its converse.  Quorum
    intersection follows for any committee: two verified bundles for different values
    of one step expose senders of a given weight that signed two votes. *)

From S2P Require Import Prelude Config Basics Transactions Bookkeeping Eval Agreement.

(** ** Weights of sets of senders *)

Section Weights.
Context (wt : Address -> Z).
Implicit Types X Y : gset Address.

Definition wsum X : Z := sumZ wt (elements X).

Lemma wsum_empty : wsum ∅ = 0.
Proof. unfold wsum. by rewrite elements_empty. Qed.
Lemma wsum_union X Y : X ## Y -> wsum (X ∪ Y) = wsum X + wsum Y.
Proof. intros HD. unfold wsum. rewrite (sumZ_Permutation _ _ _ (elements_disj_union X Y HD)). apply sumZ_app. Qed.
Lemma wsum_singleton a : wsum {[a]} = wt a.
Proof. unfold wsum. rewrite elements_singleton. cbn. lia. Qed.

Context (wt_pos : forall a, 0 <= wt a).
Lemma wsum_nonneg X : 0 <= wsum X.
Proof using wt_pos. apply sumZ_nonneg. auto. Qed.
Lemma wsum_subset X Y : X ⊆ Y -> wsum X <= wsum Y.
Proof using wt_pos.
  intros HS. rewrite (union_difference_L X Y HS), wsum_union by set_solver. pose proof (wsum_nonneg (Y ∖ X)). lia.
Qed.
(** Two sets inside [C] overlap in at least what their weights exceed [C] by. *)
Lemma wsum_intersect C X Y : X ⊆ C -> Y ⊆ C -> wsum X + wsum Y - wsum C <= wsum (X ∩ Y).
Proof using wt_pos.
  intros HX HY. assert (wsum Y = wsum (X ∩ Y) + wsum (Y ∖ X)) as ->.
  { rewrite <- wsum_union by set_solver. f_equal. apply set_eq. intros a. destruct (decide (a ∈ X)); set_solver. }
  assert (wsum (X ∪ Y ∖ X) <= wsum C) as H by (apply wsum_subset; set_solver).
  rewrite wsum_union in H by set_solver. lia.
Qed.

Lemma sumZ_dom {V} (w : V -> Z) (m : gmap Address V) : map_Forall (λ a v, w v = wt a) m -> sumZ w (map_to_list m).*2 = wsum (dom m).
Proof.
  intros HF. unfold wsum. assert (elements (dom m) ≡ₚ (map_to_list m).*1) as E.
  { rewrite <- (list_to_map_to_list m) at 1. rewrite dom_list_to_map_L. apply elements_list_to_set, NoDup_fst_map_to_list. }
  rewrite (sumZ_Permutation _ _ _ E). clear E.
  assert (Forall (λ av, w av.2 = wt av.1) (map_to_list m)) as HL.
  { apply map_Forall_to_list in HF. eapply Forall_impl; [exact HF|]. by intros [] ?. }
  induction HL as [|[a v] l E _ IH]; [done|]. cbn in *. lia.
Qed.
End Weights.

Lemma reachesQuorum_spec s proto w : s <> propose -> reachesQuorum s proto w = (threshold s proto <=? w).
Proof. intros Hs. unfold reachesQuorum, threshold. rewrite (proj2 (Z.eqb_neq _ _)) by done. repeat case_match; done. Qed.


(** ** Verification of votes *)

Section Bundles.
Context (ac : AgreeCrypto) (l : LedgerReader).

(** A verified vote: the sender's membership, the credential for it, a well-formed
    body, and a signature with the key of the sender's record. *)
Definition sigOk (uv : unauthenticatedVote) (proto : ConsensusParams) (m : Membership) : Prop :=
  let data := (m_Record m).2 in
  negb (rv_Round (uv_R uv) <? ad_VoteFirstValid data) = true /\
  negb (negb (ad_VoteLastValid data =? 0) && (ad_VoteLastValid data <? rv_Round (uv_R uv))) = true /\
  exists ephID, OneTimeIDForRound (rv_Round (uv_R uv)) (KeyDilution data proto) = Ok ephID /\
    ac_OtsVerify ac (ad_VoteID data) ephID (uv_R uv) (uv_Sig uv) = true.

Lemma vote_verify_Ok uv v : vote_verify ac uv l = Ok v <-> exists m proto,
  membership l (rv_Sender (uv_R uv)) (rv_Round (uv_R uv)) (rv_Period (uv_R uv)) (rv_Step (uv_R uv)) = Ok m /\
  lr_ConsensusParams l (ParamsRound (rv_Round (uv_R uv))) = Ok proto /\ cred_Verify ac (uv_Cred uv) proto m = Ok (v_Cred v) /\
  voteWellFormed (uv_R uv) = Ok tt /\ sigOk uv proto m /\ v = mkVote (uv_R uv) (v_Cred v) (uv_Sig uv).
Proof.
  unfold vote_verify, sigOk. split.
  - intros E. apply result_bind_Ok in E as (m & Em & E). apply result_bind_Ok in E as ([] & Ewf & E).
    apply result_bind_Ok in E as (proto & Ep & E). apply result_bind_Ok in E as (? & G1%guardR_Ok & E).
    apply result_bind_Ok in E as (? & G2%guardR_Ok & E). apply result_bind_Ok in E as (eph & Ee & E).
    apply result_bind_Ok in E as (? & G3%guardR_Ok & E). apply result_bind_Ok in E as (cred & Ec & E). injection E as <-.
    exists m, proto. cbn. eauto 10.
  - intros (m & proto & -> & Ep & Ec & Ewf & (G1 & G2 & eph & Ee & G3) & Ev). cbn. rewrite Ewf. cbn. rewrite Ep. cbn.
    rewrite G1. cbn. rewrite G2. cbn. rewrite Ee. cbn. rewrite G3. cbn. rewrite Ec. cbn. by rewrite <- Ev.
Qed.

(** The weight that a verified request adds. *)
Definition reqWeight (req : verifyRequest) : result Z :=
  match req with
  | ReqVote uv => v ← vote_verify ac uv l; Ok (cred_Weight (v_Cred v))
  | ReqEqVote uev => ev ← eqv_verify ac uev l; Ok (cred_Weight (ev_Cred ev))
  end.
Definition weightOr0 (req : verifyRequest) : Z := match reqWeight req with Ok w => w | _ => 0 end.
Definition reqSender (req : verifyRequest) : Address :=
  match req with ReqVote uv => rv_Sender (uv_R uv) | ReqEqVote uev => uev_Sender uev end.

Lemma collectResults_spec reqs : forall w0,
  (forall r, collectResults ac l reqs w0 = Ok r -> Forall (λ req, is_ok (reqWeight req) = true) reqs /\
     (u64 w0 -> r.2 = wrap64 (w0 + sumZ weightOr0 reqs))) /\
  (Forall (λ req, is_ok (reqWeight req) = true) reqs -> exists r, collectResults ac l reqs w0 = Ok r).
Proof.
  induction reqs as [|req reqs IH]; intros w0.
  { split; [|cbn; eauto]. intros r [= <-]. split; [done|]. intros Hu. cbn. rewrite Z.add_0_r. by rewrite wrap64_small. }
  assert (forall w, wrap64 (wrap64 (w0 + w) + sumZ weightOr0 reqs) = wrap64 (w0 + (w + sumZ weightOr0 reqs))) as Hw.
  { intros w. unfold wrap64. rewrite Zplus_mod_idemp_l. f_equal. lia. }
  split.
  - intros r E. destruct req as [uv|uev]; cbn [collectResults] in E; apply result_bind_Ok in E as (v & Ev & E);
      apply result_bind_Ok in E as ([[vs es] w] & Er & E); injection E as <-;
      apply (proj1 (IH _)) in Er as [HF HS]; cbn [snd] in HS |- *.
    all: split; [constructor; [cbn; by rewrite Ev|done]|]; intros _; rewrite HS by apply wrap64_range; rewrite Hw; f_equal; f_equal;
      cbn [sumZ]; f_equal; unfold weightOr0, reqWeight; by rewrite Ev.
  - intros [Hok HF]%Forall_cons. destruct req as [uv|uev]; cbn [collectResults reqWeight] in *.
    + destruct (vote_verify ac uv l) as [v| |]; try done. cbn [mbind result_bind].
      destruct (IH (wrap64 (w0 + cred_Weight (v_Cred v)))) as [_ HI]. destruct (HI HF) as [[[vs es] w] ->]. cbn. eauto.
    + destruct (eqv_verify ac uev l) as [v| |]; try done. cbn [mbind result_bind].
      destruct (IH (wrap64 (w0 + cred_Weight (ev_Cred v)))) as [_ HI]. destruct (HI HF) as [[[vs es] w] ->]. cbn. eauto.
Qed.

Lemma checkDuplicates_spec senders : forall voters,
  is_ok (checkDuplicates voters senders) = true <-> NoDup senders /\ forall a, a ∈ senders -> a ∉ voters.
Proof.
  induction senders as [|a senders IH]; intros voters; cbn.
  { split; [|done]. intros _. split; [constructor|set_solver]. }
  case_bool_decide as Ha; [split; [done|intros [_ H]; destruct (H a); [set_solver|done]]|].
  rewrite IH, NoDup_cons. split.
  - intros [HN H]. split_and!; [|done|]; [intros Hin; destruct (H a Hin); set_solver|].
    intros b [->|Hb]%elem_of_cons; [done|]. specialize (H b Hb). set_solver.
  - intros [[Hn HN] H]. split; [done|]. intros b Hb. specialize (H b). set_solver.
Qed.

Definition bundleSenders (b : unauthenticatedBundle) : list Address := reqSender <$> bundleRequests b.

Lemma bundleSenders_eq b : bundleSenders b = (va_Sender <$> ub_Votes b) ++ (eva_Sender <$> ub_EquivocationVotes b).
Proof. unfold bundleSenders, bundleRequests. rewrite fmap_app, <- !list_fmap_compose. done. Qed.

Context (arrival : list verifyRequest -> list verifyRequest).
Hypothesis arrival_perm : forall reqs, arrival reqs ≡ₚ reqs.

(** What a verified bundle shows. *)
Lemma bundle_verify_sound b bd : bundle_verify ac arrival b l = Ok bd ->
  ub_Step b <> propose /\ exists proto, lr_ConsensusParams l (ParamsRound (ub_Round b)) = Ok proto /\ NoDup (bundleSenders b) /\
    Forall (λ req, is_ok (reqWeight req) = true) (bundleRequests b) /\
    threshold (ub_Step b) proto <= wrap64 (sumZ weightOr0 (bundleRequests b)).
Proof using arrival_perm.
  unfold bundle_verify. intros E. apply result_bind_Ok in E as (? & Hs%guardR_Ok & E). apply negb_true_iff, Z.eqb_neq in Hs.
  apply result_bind_Ok in E as (proto & Ep & E). apply result_bind_Ok in E as (? & _ & E).
  apply result_bind_Ok in E as (voters & Ed & E). apply result_bind_Ok in E as ([[vs es] w] & Ec & E).
  apply result_bind_Ok in E as (? & Hq%guardR_Ok & _). split; [done|]. exists proto. split; [done|].
  assert (is_ok (checkDuplicates ∅ ((va_Sender <$> ub_Votes b) ++ (eva_Sender <$> ub_EquivocationVotes b))) = true) as HD by (by rewrite Ed).
  apply checkDuplicates_spec in HD as [HN _]. rewrite <- bundleSenders_eq in HN. split; [done|].
  apply (proj1 (collectResults_spec _ _)) in Ec as [HF HS]. rewrite (arrival_perm (bundleRequests b)) in HF. split; [done|].
  rewrite reachesQuorum_spec, Z.leb_le in Hq by done. cbn [snd] in HS. rewrite HS in Hq by (unfold u64; lia).
  by rewrite (sumZ_Permutation _ _ _ (arrival_perm (bundleRequests b))) in Hq.
Qed.

(** What suffices for a bundle to verify. *)
Lemma bundle_complete b proto : ub_Step b <> propose -> lr_ConsensusParams l (ParamsRound (ub_Round b)) = Ok proto ->
  NoDup (bundleSenders b) -> Forall (λ req, is_ok (reqWeight req) = true) (bundleRequests b) ->
  threshold (ub_Step b) proto <= sumZ weightOr0 (bundleRequests b) < 2 ^ 64 -> 0 <= sumZ weightOr0 (bundleRequests b) ->
  zlen (ub_Votes b) + zlen (ub_EquivocationVotes b) <= threshold (ub_Step b) proto ->
  is_ok (bundle_verify ac arrival b l) = true.
Proof using arrival_perm.
  intros Hs Ep HN HF HW H0 Hz. unfold bundle_verify. rewrite (proj2 (Z.eqb_neq _ _)) by done. cbn [negb guardR mbind result_bind].
  rewrite Ep. cbn [mbind result_bind]. unfold zlen in *. rewrite !(proj2 (Z.ltb_ge _ _)) by lia. cbn [orb negb guardR mbind result_bind].
  rewrite bundleSenders_eq in HN. assert (is_ok (checkDuplicates ∅ ((va_Sender <$> ub_Votes b) ++ (eva_Sender <$> ub_EquivocationVotes b))) = true) as HD.
  { apply checkDuplicates_spec. split; [done|set_solver]. }
  destruct (checkDuplicates _ _) as [voters| |]; try done. cbn [mbind result_bind].
  assert (Forall (λ req, is_ok (reqWeight req) = true) (arrival (bundleRequests b))) as HF' by (by rewrite arrival_perm).
  destruct (proj2 (collectResults_spec _ 0) HF') as [r Er]. destruct (proj1 (collectResults_spec _ 0) r Er) as [_ HS].
  rewrite Er. cbn [mbind result_bind]. destruct r as [[vs es] w]. cbn [snd] in HS. rewrite HS by (unfold u64; lia).
  rewrite (sumZ_Permutation _ _ _ (arrival_perm (bundleRequests b))), wrap64_small by (unfold u64; lia).
  rewrite reachesQuorum_spec, (proj2 (Z.leb_le _ _)) by (done || lia). done.
Qed.

(** [a] signed a valid vote for [p]. *)
Definition signed (a : Address) (r : Round) (per : period) (s : step) (p : proposalValue) : Prop :=
  exists uv, uv_R uv = mkRawVote a r per s p /\ is_ok (vote_verify ac uv l) = true.

(** [C] holds everybody with a valid vote in the step, and [wt] their weights. *)
Definition committee (r : Round) (per : period) (s : step) (C : gset Address) (wt : Address -> Z) : Prop :=
  (forall a, 0 <= wt a) /\
  forall uv v, vote_verify ac uv l = Ok v -> rv_Round (uv_R uv) = r -> rv_Period (uv_R uv) = per -> rv_Step (uv_R uv) = s ->
    rv_Sender (uv_R uv) ∈ C /\ cred_Weight (v_Cred v) = wt (rv_Sender (uv_R uv)).

Lemma eqv_verify_Ok uev ev : eqv_verify ac uev l = Ok ev ->
  let rv p := mkRawVote (uev_Sender uev) (uev_Round uev) (uev_Period uev) (uev_Step uev) p in
  (uev_Proposals uev).1 <> (uev_Proposals uev).2 /\
  (exists v0, vote_verify ac (mkUnauthenticatedVote (rv (uev_Proposals uev).1) (uev_Cred uev) (uev_Sigs uev).1) l = Ok v0 /\ ev_Cred ev = v_Cred v0) /\
  is_ok (vote_verify ac (mkUnauthenticatedVote (rv (uev_Proposals uev).2) (uev_Cred uev) (uev_Sigs uev).2) l) = true.
Proof.
  unfold eqv_verify. destruct uev as [a r per s c [p0 p1] [s0 s1]]. cbn. intros E.
  apply result_bind_Ok in E as (? & Hne%guardR_Ok & E). apply bool_decide_eq_true in Hne. apply result_bind_Ok in E as (v0 & E0 & E).
  apply result_bind_Ok in E as (v1 & E1 & E). injection E as <-. split; [done|]. rewrite E0, E1. eauto.
Qed.

(** A verified request of a bundle: its sender's weight, and what it signed. *)
Lemma request_signed b C wt req : committee (ub_Round b) (ub_Period b) (ub_Step b) C wt -> req ∈ bundleRequests b ->
  is_ok (reqWeight req) = true ->
  reqSender req ∈ C /\ weightOr0 req = wt (reqSender req) /\
  let signs := signed (reqSender req) (ub_Round b) (ub_Period b) (ub_Step b) in
  (signs (ub_Proposal b) \/ exists p q, p <> q /\ signs p /\ signs q).
Proof.
  intros [_ HC] Hin Hok. unfold bundleRequests in Hin. apply elem_of_app in Hin as [Hin|Hin];
    apply list_elem_of_fmap in Hin as (auth & -> & _); unfold weightOr0; cbn [reqWeight reqSender uv_R rv_Sender uev_Sender] in *.
  - set (uv := mkUnauthenticatedVote _ _ _) in *. destruct (vote_verify ac uv l) as [v| |] eqn:Ev; try done.
    destruct (HC uv v Ev eq_refl eq_refl eq_refl) as [? Hw]. cbn in *. split; [done|]. split; [done|].
    left. exists uv. by rewrite Ev.
  - set (uev := mkUnauthenticatedEquivocationVote _ _ _ _ _ _ _) in *. destruct (eqv_verify ac uev l) as [ev| |] eqn:Ev; try done.
    apply eqv_verify_Ok in Ev as (Hne & (v0 & E0 & Ec) & E1). destruct (HC _ v0 E0 eq_refl eq_refl eq_refl) as [? Hw]. cbn in *.
    split; [done|]. split; [by rewrite Ec|]. right. eexists _, _. split; [exact Hne|].
    split.
    + eexists. split; [|rewrite E0; done]. done.
    + eexists. split; [|exact E1]. done.
Qed.

Lemma bundle_weight b bd C wt : committee (ub_Round b) (ub_Period b) (ub_Step b) C wt -> wsum wt C < 2 ^ 64 ->
  bundle_verify ac arrival b l = Ok bd -> exists proto, lr_ConsensusParams l (ParamsRound (ub_Round b)) = Ok proto /\
    (list_to_set (bundleSenders b) : gset Address) ⊆ C /\ threshold (ub_Step b) proto <= wsum wt (list_to_set (bundleSenders b)).
Proof using arrival_perm.
  intros HC HW E. apply bundle_verify_sound in E as (_ & proto & Ep & HN & HF & HT). exists proto. split; [done|].
  rewrite Forall_forall in HF.
  assert ((list_to_set (bundleSenders b) : gset Address) ⊆ C) as Hsub.
  { intros a. rewrite elem_of_list_to_set. unfold bundleSenders. rewrite list_elem_of_fmap. intros (req & -> & Hin).
    by destruct (request_signed b C wt req HC Hin (HF req Hin)). }
  split; [done|]. assert (sumZ weightOr0 (bundleRequests b) = wsum wt (list_to_set (bundleSenders b))) as Ew.
  { unfold wsum. rewrite (sumZ_Permutation _ _ _ (elements_list_to_set _ HN)). unfold bundleSenders.
    assert (forall reqs, (forall req, req ∈ reqs -> weightOr0 req = wt (reqSender req)) -> sumZ weightOr0 reqs = sumZ wt (reqSender <$> reqs)) as H.
    { induction reqs as [|req reqs IH]; intros Hq; [done|]. cbn. rewrite (Hq req) by set_solver. rewrite IH; [done|set_solver]. }
    apply H. intros req Hin. by destruct (request_signed b C wt req HC Hin (HF req Hin)) as (_ & ? & _). }
  rewrite <- Ew. rewrite wrap64_small in HT; [done|]. rewrite Ew. destruct HC as [Hpos _].
  pose proof (wsum_subset wt Hpos _ _ Hsub). pose proof (wsum_nonneg wt Hpos (list_to_set (bundleSenders b))). unfold u64. lia.
Qed.
End Bundles.

(** C13: Quorum intersection.  If two bundles of the same round, period and step verify
    against a ledger and are for different values, then senders that weigh at least
    twice the threshold less the whole committee each signed valid votes for two
    different values.  When fewer equivocate, no step certifies two values. *)
Theorem quorum_intersection ac l arrival1 arrival2 b1 b2 bd1 bd2 C wt proto :
  (forall reqs, arrival1 reqs ≡ₚ reqs) -> (forall reqs, arrival2 reqs ≡ₚ reqs) ->
  bundle_verify ac arrival1 b1 l = Ok bd1 -> bundle_verify ac arrival2 b2 l = Ok bd2 ->
  ub_Round b1 = ub_Round b2 -> ub_Period b1 = ub_Period b2 -> ub_Step b1 = ub_Step b2 -> ub_Proposal b1 <> ub_Proposal b2 ->
  lr_ConsensusParams l (ParamsRound (ub_Round b1)) = Ok proto ->
  committee ac l (ub_Round b1) (ub_Period b1) (ub_Step b1) C wt -> wsum wt C < 2 ^ 64 ->
  exists X : gset Address, X ⊆ C /\ 2 * threshold (ub_Step b1) proto - wsum wt C <= wsum wt X /\
    forall a, a ∈ X -> exists p q, p <> q /\ signed ac l a (ub_Round b1) (ub_Period b1) (ub_Step b1) p /\
      signed ac l a (ub_Round b1) (ub_Period b1) (ub_Step b1) q.
Proof.
  intros P1 P2 V1 V2 Er Ep Es Hne Eproto HC HW.
  destruct (bundle_weight ac l arrival1 P1 b1 bd1 C wt HC HW V1) as (pr1 & Epr1 & S1 & T1).
  pose proof HC as HC2. rewrite Er, Ep, Es in HC2.
  destruct (bundle_weight ac l arrival2 P2 b2 bd2 C wt HC2 HW V2) as (pr2 & Epr2 & S2 & T2).
  rewrite <- Er in Epr2. rewrite <- Es in T2. assert (pr1 = proto) as -> by congruence. assert (pr2 = proto) as -> by congruence.
  exists (list_to_set (bundleSenders b1) ∩ list_to_set (bundleSenders b2)). split; [set_solver|]. destruct HC as [Hpos HC'].
  split; [pose proof (wsum_intersect wt Hpos C _ _ S1 S2); lia|].
  intros a [H1 H2]%elem_of_intersection. rewrite elem_of_list_to_set in H1, H2. unfold bundleSenders in H1, H2.
  apply list_elem_of_fmap in H1 as (q1 & Ea1 & H1), H2 as (q2 & Ea2 & H2).
  apply bundle_verify_sound in V1 as (_ & _ & _ & _ & F1 & _); [|done]. apply bundle_verify_sound in V2 as (_ & _ & _ & _ & F2 & _); [|done].
  rewrite Forall_forall in F1. rewrite Forall_forall in F2.
  destruct (request_signed ac l b1 C wt q1 (conj Hpos HC') H1 (F1 q1 H1)) as (_ & _ & D1).
  destruct (request_signed ac l b2 C wt q2 HC2 H2 (F2 q2 H2)) as (_ & _ & D2). cbn in D1, D2.
  rewrite <- Ea1 in D1. rewrite <- Ea2, <- Er, <- Ep, <- Es in D2.
  destruct D1 as [D1|D1]; [|done]. destruct D2 as [D2|D2]; [|done]. by exists (ub_Proposal b1), (ub_Proposal b2).
Qed.

(** The weight of a sender in a step does not depend on the credential it presents:
    with unique VRF outputs, the hypothesis that weights are a function of the sender
    holds. *)
Lemma weights_agree ac l uv1 uv2 v1 v2 :
  (forall pk pf1 pf2 x o1 o2, ac_VrfVerify ac pk pf1 x = (true, o1) -> ac_VrfVerify ac pk pf2 x = (true, o2) -> o1 = o2) ->
  vote_verify ac uv1 l = Ok v1 -> vote_verify ac uv2 l = Ok v2 ->
  rv_Sender (uv_R uv1) = rv_Sender (uv_R uv2) -> rv_Round (uv_R uv1) = rv_Round (uv_R uv2) ->
  rv_Period (uv_R uv1) = rv_Period (uv_R uv2) -> rv_Step (uv_R uv1) = rv_Step (uv_R uv2) ->
  cred_Weight (v_Cred v1) = cred_Weight (v_Cred v2).
Proof.
  intros HV E1 E2 Ha Hr Hp Hs.
  apply vote_verify_Ok in E1 as (m & proto & M1 & P1 & C1 & _), E2 as (m2 & proto2 & M2 & P2 & C2 & _).
  rewrite <- Ha, <- Hr, <- Hp, <- Hs, M1 in M2. injection M2 as <-. rewrite <- Hr, P1 in P2. injection P2 as <-.
  unfold cred_Verify in C1, C2. destruct (m_Record m) as [addr data].
  destruct (ac_VrfVerify ac (ad_SelectionID data) (uv_Cred uv1) _) as [ok1 o1] eqn:V1.
  destruct (ac_VrfVerify ac (ad_SelectionID data) (uv_Cred uv2) _) as [ok2 o2] eqn:V2.
  destruct ok1, ok2; cbn in C1, C2; try done. rewrite (HV _ _ _ _ _ _ V1 V2) in C1.
  set (h := if cp_CredentialDomainSeparationEnabled proto then _ else _) in *. clearbody h.
  repeat (case_match; try done); simplify_eq; by rewrite <- C1, <- C2.
Qed.

(** ** Proposals *)

(** A proposer's seed is accepted.  The proposal built for a block of the current
    round passes the seed check of every verifier with the same ledger, when the
    ledger knows the round's parameters, the proposer's record has its VRF key and the
    VRF accepts its own proofs; the value signed with it is the value verifiers
    compute. *)
Theorem proposal_seed_roundtrip ac l address sk ve per p value cparams rec :
  let rnd := bh_Round (blk_BlockHeader ve) in
  (forall x pf, ac_VrfProve ac sk x = (pf, true) -> (ac_VrfVerify ac (ad_SelectionID rec) pf x).1 = true) ->
  lr_ConsensusParams l (ParamsRound rnd) = Ok cparams ->
  lr_BalanceRecord l (balanceRound rnd cparams) address = Ok (address, rec) ->
  proposalForBlock ac address sk ve per l = Ok (p, value) ->
  verifyNewSeed ac p l = Ok tt /\ up_value ac p = value.
Proof.
  intros rnd Hvrf Ec Erec E. unfold proposalForBlock in E. apply result_bind_Ok in E as ([seed pf] & Ed & E). injection E as <- <-.
  split; [|done]. unfold deriveNewSeed in Ed. fold rnd in Ed. rewrite Ec in Ed. apply result_bind_Ok in Ed as (prev & Eprev & Ed).
  apply result_bind_Ok in Ed as ([pf' alpha] & Ea & Ed). apply result_bind_Ok in Ed as (s & Es & Ed). injection Ed as <- <-. cbn [fst snd] in *.
  unfold verifyNewSeed. cbn. fold rnd. rewrite Ec. cbn. rewrite Erec. cbn. rewrite Eprev. cbn. destruct (per =? 0).
  - destruct (ac_VrfProve ac sk (VSeed prev)) as [pf0 ok] eqn:Epf. apply result_bind_Ok in Ea as (? & Hok%guardR_Ok & Ea). subst ok.
    destruct (ac_VrfHash ac pf0) as [out okh] eqn:Eh. destruct okh; [|done]. cbn in Ea. injection Ea as <- <-.
    rewrite (Hvrf _ _ Epf), Eh. cbn. rewrite Es. cbn. by rewrite bool_decide_true.
  - injection Ea as <- <-. cbn. rewrite Es. cbn. by rewrite bool_decide_true.
Qed.

(** ** A committee of five *)
Module AgreementWitness.
Definition addr (n : Z) : Address := n :: replicate 31 0.
Definition members : list Address := [addr 1; addr 2; addr 3; addr 4; addr 5].
Definition C : gset Address := list_to_set members.
Definition wt (a : Address) : Z := if decide (a ∈ members) then 300 else 0.

(** Everybody has 300 tickets; a signature repeats the digest of the value voted for. *)
Definition ac : AgreeCrypto := mkAgreeCrypto
  (λ pk pf x, (true, replicate 64 0)) (λ sk x, (sk, true)) (λ pf, (pf, true))
  (λ _ _ rv sig, bool_decide (sig = pv_BlockDigest (rv_Proposal rv)))
  (λ _, zero32) (λ _, zero32) (λ b, b) (λ a b, a ++ b) (λ a b, a ++ b) (λ _, zero32) (λ _, zero32) (λ money _ _ _, money).
Definition rich : AccountData := MakeAccountData Online 300.
Definition l : LedgerReader := mkLedgerReader
  (λ _, Ok zero32) (λ _ a, Ok (a, if decide (a ∈ members) then rich else AccountData_zero)) (λ _, Ok 1500) (λ _, Ok zero32) (λ _, Ok v19).

Lemma committee_C r per s : committee ac l r per s C wt.
Proof.
  split; [intros a; unfold wt; case_decide; lia|]. intros uv v E _ _ _. apply vote_verify_Ok in E as (m & proto & Em & _ & Ec & _).
  injection Em as <-. unfold cred_Verify in Ec. cbn [m_Record m_Selector m_TotalMoney ac ac_VrfVerify] in Ec. unfold C, wt.
  rewrite elem_of_list_to_set. case_decide as Ha; cbn in Ec; [|by destruct (_ || _)].
  split; [done|]. repeat (case_match; try done); injection Ec as Ec; by rewrite <- Ec.
Qed.

Definition value (n : Z) : proposalValue := mkProposalValue 0 (addr n) (addr n) (addr n).
Definition auth (p a : Z) : voteAuthenticator := mkVoteAuthenticator (addr a) [] (addr p).
Definition bundleFor (p : Z) (senders : list Z) : unauthenticatedBundle := mkUnauthenticatedBundle 20 0 cert (value p) (auth p <$> senders) [].

Lemma quorum_intersection_witness : exists X : gset Address, X ⊆ C /\ 724 <= wsum wt X /\
  forall a, a ∈ X -> exists p q, p <> q /\ signed ac l a 20 0 cert p /\ signed ac l a 20 0 cert q.
Proof.
  destruct (quorum_intersection ac l id (@rev _) (bundleFor 1 [1; 2; 3; 4]) (bundleFor 2 [2; 3; 4; 5])
    (match bundle_verify ac id (bundleFor 1 [1; 2; 3; 4]) l with Ok b => b | _ => mkBundle (bundleFor 1 []) [] [] end)
    (match bundle_verify ac (@rev _) (bundleFor 2 [2; 3; 4; 5]) l with Ok b => b | _ => mkBundle (bundleFor 2 []) [] [] end) C wt v19)
    as (X & HX & HW & HS); try (vm_compute; reflexivity); try reflexivity; try discriminate.
  - intros reqs. symmetry. apply Permutation_rev.
  - apply committee_C.
  - exists X. split; [done|]. split; [etrans; [|exact HW]; vm_compute; discriminate|exact HS].
Defined.

Definition blk20 : Block := mkBlock (BlockHeader_zero <| bh_Round := 20 |>) [] [].
Definition proposed : unauthenticatedProposal * proposalValue :=
  match proposalForBlock ac (addr 1) [7] blk20 0 l with Ok pv => pv | _ => (makeProposal blk20 [] 0 [], bottom) end.

Lemma proposal_seed_roundtrip_witness : verifyNewSeed ac proposed.1 l = Ok tt /\ up_value ac proposed.1 = proposed.2.
Proof.
  apply (proposal_seed_roundtrip ac l (addr 1) [7] blk20 0 proposed.1 proposed.2 v19 rich).
  - done.
  - reflexivity.
  - reflexivity.
  - vm_compute. reflexivity.
Defined.
End AgreementWitness.
