(* ===== verification/VoteTracker.v ===== *)
(** The vote trackers of the agreement protocol
    (src/agreement/{voteTracker,voteTrackerContract,voteAuxiliary,events}.go).

    A tracker's method on a pointer becomes a function of the monad [M]; log calls
    are left out, panics are kept.  The order in which Go visits a map matters to no
    result here: a range that finds two values panics, and [genBundle] sorts. *)

From S2P Require Import Prelude Config Basics Transactions Bookkeeping Agreement.

(** ** Threshold events (events.go) *)

Inductive thresholdType := none | softThreshold | certThreshold | nextThreshold.
#[export] Instance thresholdType_eq_dec : EqDecision thresholdType.
Proof. solve_decision. Defined.

Definition unauthenticatedBundle_zero : unauthenticatedBundle := mkUnauthenticatedBundle 0 0 0 bottom [] [].
Record thresholdEvent := mkThresholdEvent {
  te_T : thresholdType;
  te_Round : Round;
  te_Period : period;
  te_Step : step;
  te_Proposal : proposalValue;
  te_Bundle : unauthenticatedBundle
}.
Definition thresholdEvent_zero : thresholdEvent := mkThresholdEvent none 0 0 0 bottom unauthenticatedBundle_zero.

(** Freshness, for events of one round. *)
Definition fresherThan (e o : thresholdEvent) : result bool :=
  match te_T e, te_T o with
  | none, none => Ok true
  | none, _ => Ok false
  | _, none => Ok true
  | te, to =>
    if negb (te_Round e =? te_Round o) then Panic "round mismatch"
    else match to, te with
         | certThreshold, _ => Ok false
         | _, softThreshold => Ok (te_Period o <? te_Period e)
         | _, certThreshold => Ok true
         | _, _ =>
           if te_Period o <? te_Period e then Ok true
           else if te_Period e <? te_Period o then Ok false
           else if decide (to = softThreshold) then Ok true
           else Ok (bool_decide (te_Proposal e = bottom) && bool_decide (te_Proposal o <> bottom))
         end
  end.

(** ** The vote tracker of one step (voteTracker.go) *)

Record proposalVoteCounter := mkProposalVoteCounter { pvc_Count : Z; pvc_Votes : gmap Address vote }.
Definition proposalVoteCounter_zero : proposalVoteCounter := mkProposalVoteCounter 0 ∅.

Record voteTracker := mkVoteTracker {
  vt_Voters : gmap Address vote;
  vt_Counts : gmap proposalValue proposalVoteCounter;
  vt_Equivocators : gmap Address equivocationVote;
  vt_EquivocatorsCount : Z
}.
#[export] Instance voteTracker_eta : Eta voteTracker := λ r,
  mkVoteTracker (vt_Voters r) (vt_Counts r) (vt_Equivocators r) (vt_EquivocatorsCount r).
Definition voteTracker_zero : voteTracker := mkVoteTracker ∅ ∅ ∅ 0.

(** [tracker.Counts[p]], the zero value when absent. *)
Definition counterOf (t : voteTracker) (p : proposalValue) : proposalVoteCounter :=
  default proposalVoteCounter_zero (vt_Counts t !! p).
Definition vt_count (t : voteTracker) (p : proposalValue) : Z := wrap64 (pvc_Count (counterOf t p) + vt_EquivocatorsCount t).

(** The proposals of [Counts] over the threshold; two of them are a panic. *)
Definition overProposals (t : voteTracker) (proto : ConsensusParams) (s : step) : list proposalValue :=
  filter (λ p, reachesQuorum s proto (vt_count t p) = true) (map_to_list (vt_Counts t)).*1.
Definition overThreshold (t : voteTracker) (proto : ConsensusParams) (s : step) : result (option proposalValue) :=
  match overProposals t proto s with
  | [] => Ok None
  | [p] => Ok (Some p)
  | _ => Panic "voteTracker: more than value reached a threhsold in a given step"
  end.

(** [bytes.Compare] of two addresses. *)
Fixpoint bytesCompare (a b : bytes) : comparison :=
  match a, b with
  | [], [] => Eq
  | [], _ => Lt
  | _, [] => Gt
  | x :: a, y :: b => match x ?= y with Eq => bytesCompare a b | c => c end
  end.
Definition heavier (w1 : Z) (s1 : Address) (w2 : Z) (s2 : Address) : bool :=
  (w2 <? w1) || ((w1 =? w2) && match bytesCompare s1 s2 with Gt => true | _ => false end).

(** A stable sort by [less], as [sort.SliceStable]: insertion in order. *)
Fixpoint insertSorted {A} (less : A -> A -> bool) (x : A) (l : list A) : list A :=
  match l with
  | [] => [x]
  | y :: l => if less x y then x :: y :: l else y :: insertSorted less x l
  end.
Definition SliceStable {A} (less : A -> A -> bool) (l : list A) : list A := foldl (λ acc x, insertSorted less x acc) [] l.

Definition weightOf (v : vote) : Z := cred_Weight (v_Cred v).
Definition senderOf (v : vote) : Address := rv_Sender (v_R v).

(** The loop of [genBundle] that cuts a sorted list off at a quorum. *)
Fixpoint cutoff {A} (w : A -> Z) (s : step) (proto : ConsensusParams) (l : list A) (weight : Z) : list A * Z :=
  match l with
  | [] => ([], weight)
  | x :: l => if reachesQuorum s proto weight then ([], weight)
              else let '(out, weight) := cutoff w s proto l (wrap64 (weight + w x)) in (x :: out, weight)
  end.

Definition genBundle (t : voteTracker) (proto : ConsensusParams) (proposalVotes : proposalVoteCounter) : result unauthenticatedBundle :=
  let votes := SliceStable (λ v1 v2, heavier (weightOf v1) (senderOf v1) (weightOf v2) (senderOf v2))
                 (map_to_list (pvc_Votes proposalVotes)).*2 in
  match votes with
  | [] => Panic "index out of range"
  | v0 :: _ =>
    let s := rv_Step (v_R v0) in
    let '(votes, weight) := cutoff weightOf s proto votes 0 in
    let equiPairs := SliceStable (λ e1 e2, heavier (cred_Weight (ev_Cred e1)) (ev_Sender e1) (cred_Weight (ev_Cred e2)) (ev_Sender e2))
                       (map_to_list (vt_Equivocators t)).*2 in
    match votes with
    | [] => Panic "index out of range"
    | v0 :: _ =>
      let '(equiPairs, _) := cutoff (λ e, cred_Weight (ev_Cred e)) (rv_Step (v_R v0)) proto equiPairs weight in
      makeBundle proto (rv_Proposal (v_R v0)) votes equiPairs
    end
  end.

(** A first vote of a sender. *)
Definition recordVote (v : vote) (t : voteTracker) : voteTracker :=
  let pv := rv_Proposal (v_R v) in
  let c := counterOf t pv in
  t <| vt_Voters ::= <[senderOf v := v]> |>
    <| vt_Counts ::= <[pv := mkProposalVoteCounter (wrap64 (pvc_Count c + weightOf v)) (<[senderOf v := v]> (pvc_Votes c))]> |>.

(** The weight of an equivocator is taken from the proposal of its first vote. *)
Definition dropVote (old : vote) (sender : Address) (t : voteTracker) : voteTracker :=
  let pv := rv_Proposal (v_R old) in
  let c := counterOf t pv in
  if pvc_Count c <=? weightOf old then t <| vt_Counts ::= delete pv |>
  else t <| vt_Counts ::= <[pv := mkProposalVoteCounter (wrap64 (pvc_Count c - weightOf old)) (delete sender (pvc_Votes c))]> |>.

Definition pairOfVotes (old v : vote) : equivocationVote :=
  mkEquivocationVote (rv_Sender (v_R old)) (rv_Round (v_R old)) (rv_Period (v_R old)) (rv_Step (v_R old)) (v_Cred old)
    (rv_Proposal (v_R old), rv_Proposal (v_R v)) (v_Sig old, v_Sig v).

(** A second vote of a sender, for another proposal. *)
Definition recordEquivocation (proto : ConsensusParams) (old v : vote) (t : voteTracker) : result voteTracker :=
  let t := t <| vt_EquivocatorsCount := wrap64 (vt_EquivocatorsCount t + weightOf v) |> in
  if reachesQuorum (rv_Step (v_R v)) proto (vt_EquivocatorsCount t) then Panic "too many equivocators for step"
  else
    let t := dropVote old (senderOf v) t in
    Ok (t <| vt_Equivocators ::= <[senderOf v := pairOfVotes old v]> |> <| vt_Voters ::= delete (senderOf v) |>).

(** The threshold event of a step for proposal [prop]. *)
Definition stepThreshold (s : step) : thresholdType :=
  if s =? soft then softThreshold else if s =? cert then certThreshold else nextThreshold.
Definition makeThreshold (t : voteTracker) (proto : ConsensusParams) (v : vote) (prop : proposalValue) : result thresholdEvent :=
  b ← genBundle t proto (counterOf t prop);
  Ok (mkThresholdEvent (stepThreshold (rv_Step (v_R v))) (rv_Round (v_R v)) (rv_Period (v_R v)) (rv_Step (v_R v)) prop b).

Definition vt_voteAccepted (proto : ConsensusParams) (v : vote) : M voteTracker thresholdEvent := λ t,
  let s := rv_Step (v_R v) in
  if bool_decide (is_Some (vt_Equivocators t !! senderOf v)) then (Ok thresholdEvent_zero, t)
  else match overThreshold t proto s with
       | Panic m => (Panic m, t)
       | Err e => (Err e, t)
       | Ok before =>
         (* the tracker after the vote, and whether to look for a threshold *)
         let counted := match vt_Voters t !! senderOf v with
                        | None => Ok (recordVote v t, true)
                        | Some old =>
                          if bool_decide (rv_Proposal (v_R old) = rv_Proposal (v_R v)) then Ok (t, false)
                          else t' ← recordEquivocation proto old v t; Ok (t', negb (size (vt_Voters t') =? 0)%nat)
                        end in
         match counted with
         | Panic m => (Panic m, t)
         | Err e => (Err e, t)
         | Ok (t', false) => (Ok thresholdEvent_zero, t')
         | Ok (t', true) =>
           (after ← overThreshold t' proto s;
            match before, after with
            | None, Some prop => makeThreshold t' proto v prop
            | _, _ => Ok thresholdEvent_zero
            end, t')
         end
       end.

(** [true] is the event [voteFilteredStep]. *)
Definition vt_voteFilterRequest (rv : rawVote) (t : voteTracker) : bool :=
  bool_decide (is_Some (vt_Equivocators t !! rv_Sender rv)) ||
  match vt_Voters t !! rv_Sender rv with
  | Some v => bool_decide (rv_Proposal rv = rv_Proposal (v_R v))
  | None => false
  end.

Definition vt_dumpVotes (t : voteTracker) : list unauthenticatedVote :=
  (vote_u <$> (map_to_list (vt_Voters t)).*2) ++
  concat ((λ ev, [vote_u (pair_v0 ev); vote_u (pair_v1 ev)]) <$> (map_to_list (vt_Equivocators t)).*2).

(** ** The contract of a step (voteTrackerContract.go, listener.go) *)

Record voteTrackerContract := mkVoteTrackerContract { vtc_Step : step; vtc_StepOk : bool; vtc_Emitted : bool }.
Definition voteTrackerContract_zero : voteTrackerContract := mkVoteTrackerContract 0 false false.

(** A [stepRouter] holds a tracker and its contract. *)
Record stepRouter := mkStepRouter { sr_VoteTracker : voteTracker; sr_Contract : voteTrackerContract }.
Definition stepRouter_zero : stepRouter := mkStepRouter voteTracker_zero voteTrackerContract_zero.

Definition vtc_pre (v : vote) (c : voteTrackerContract) : result voteTrackerContract :=
  let c' := if vtc_StepOk c then c else mkVoteTrackerContract (rv_Step (v_R v)) true (vtc_Emitted c) in
  if (rv_Step (v_R v) =? propose) || (vtc_StepOk c && negb (vtc_Step c =? rv_Step (v_R v)))
  then Panic "voteMachineStep: precondition violated"
  else Ok c'.

Definition vtc_post (v : vote) (out : thresholdEvent) (c : voteTrackerContract) : result voteTrackerContract :=
  let s := rv_Step (v_R v) in
  let typeOk := match te_T out with
                | none => true
                | softThreshold => s =? soft
                | certThreshold => s =? cert
                | nextThreshold => cert <? s
                end in
  let emits := bool_decide (te_T out <> none) in
  let bottomOk := match te_T out with
                  | softThreshold | certThreshold => bool_decide (te_Proposal out <> bottom)
                  | _ => true
                  end in
  let bundleOk := eqb (negb emits) (bool_decide (ub_Votes (te_Bundle out) = [])) in
  let stepOk := negb (emits && bool_decide (te_Proposal out = bottom) && (te_Step out <? next)) in
  if negb typeOk || (emits && vtc_Emitted c) || negb bottomOk || negb bundleOk || negb stepOk
  then Panic "voteMachineStep: postcondition violated"
  else Ok (mkVoteTrackerContract (vtc_Step c) (vtc_StepOk c) (vtc_Emitted c || emits)).

(** [checkedListener.handle] of a step on [voteAccepted]. *)
Definition step_voteAccepted (proto : ConsensusParams) (v : vote) : M stepRouter thresholdEvent := λ sr,
  match vtc_pre v (sr_Contract sr) with
  | Ok c =>
    let '(r, t) := vt_voteAccepted proto v (sr_VoteTracker sr) in
    match r with
    | Ok out => match vtc_post v out c with
                | Ok c => (Ok out, mkStepRouter t c)
                | Err e => (Err e, mkStepRouter t c)
                | Panic m => (Panic m, mkStepRouter t c)
                end
    | Err e => (Err e, mkStepRouter t c)
    | Panic m => (Panic m, mkStepRouter t c)
    end
  | Err e => (Err e, sr)
  | Panic m => (Panic m, sr)
  end.
