(* ===== verification/VoteTrackerSpec.v ===== *)
(** The vote tracker of a step counts what it should.

    [tracked H t] relates a tracker to the list [H] of votes delivered to it: a sender
    that always voted for one value is a voter, a sender that voted for two values is
    an equivocator.  The weight the tracker compares with the threshold is the weight
    of the senders that support the value, equivocators supporting every value.  While
    equivocators are too light to break quorum intersection, the tracker does not
    panic, emits one threshold event at the first moment a value has a quorum, and
    the bundle in the event convinces any other verifier. *)

From S2P Require Import Prelude Config Basics Transactions Bookkeeping Agreement AgreementSpec VoteTracker.

(** ** The invariant of a tracker

    [C] is the committee of the step: every sender with a credential; [wt] gives the
    weight of its credential. *)
Section Tracker.
Context (proto : ConsensusParams) (s : step) (C : gset Address) (wt : Address -> Z).
Hypothesis s_vote : s <> propose.
Hypothesis wt_pos : forall a, 0 <= wt a.
Hypothesis C_small : wsum wt C < 2 ^ 64.
Notation T := (threshold s proto).
Implicit Types (t : voteTracker) (v : vote) (p : proposalValue).

Definition propOf v : proposalValue := rv_Proposal (v_R v).
(** A vote of the step whose credential has the sender's weight. *)
Definition admissible v : Prop := rv_Step (v_R v) = s /\ senderOf v ∈ C /\ weightOf v = wt (senderOf v) /\ 0 < wt (senderOf v).

Definition votesFor t p : gmap Address vote := filter (λ av, propOf av.2 = p) (vt_Voters t).
Definition supporters t p : gset Address := dom (votesFor t p) ∪ dom (vt_Equivocators t).
Definition counterFor (m : gmap Address vote) : option proposalVoteCounter :=
  if decide (m = ∅) then None else Some (mkProposalVoteCounter (wsum wt (dom m)) m).

Record vt_inv t : Prop := {
  vi_voters : map_Forall (λ a v, senderOf v = a /\ admissible v) (vt_Voters t);
  vi_counts : forall p, vt_Counts t !! p = counterFor (votesFor t p);
  vi_equiv : map_Forall (λ a e, ev_Sender e = a /\ ev_Step e = s /\ a ∈ C /\ cred_Weight (ev_Cred e) = wt a /\ 0 < wt a) (vt_Equivocators t);
  vi_disj : dom (vt_Voters t) ## dom (vt_Equivocators t);
  vi_eqcount : vt_EquivocatorsCount t = wsum wt (dom (vt_Equivocators t))
}.

Lemma vt_inv_zero : vt_inv voteTracker_zero.
Proof.
  split; try (by apply map_Forall_empty).
  - intros p. unfold counterFor, votesFor. cbn. by rewrite map_filter_empty, decide_True, lookup_empty.
  - set_solver.
  - cbn. by rewrite dom_empty_L, wsum_empty.
Qed.

Lemma votesFor_Some t p a v : votesFor t p !! a = Some v <-> vt_Voters t !! a = Some v /\ propOf v = p.
Proof. unfold votesFor. by rewrite map_lookup_filter_Some. Qed.

Lemma votesFor_dom t p : dom (votesFor t p) ⊆ dom (vt_Voters t).
Proof. intros a [v Hv]%elem_of_dom. apply votesFor_Some in Hv as [? _]. apply elem_of_dom. eauto. Qed.

Lemma voters_C t : vt_inv t -> dom (vt_Voters t) ⊆ C.
Proof. intros HI a [v Hv]%elem_of_dom. destruct (vi_voters t HI a v Hv) as (<- & _ & ? & _). done. Qed.
Lemma equivocators_C t : vt_inv t -> dom (vt_Equivocators t) ⊆ C.
Proof. intros HI a [e He]%elem_of_dom. by destruct (vi_equiv t HI a e He) as (_ & _ & ? & _). Qed.
Lemma supporters_C t p : vt_inv t -> supporters t p ⊆ C.
Proof.
  intros HI. pose proof (voters_C t HI). pose proof (equivocators_C t HI). pose proof (votesFor_dom t p). unfold supporters. set_solver.
Qed.
Lemma supporters_wsum t p : vt_inv t -> wsum wt (supporters t p) = wsum wt (dom (votesFor t p)) + wsum wt (dom (vt_Equivocators t)).
Proof. intros HI. apply wsum_union. pose proof (vi_disj t HI). pose proof (votesFor_dom t p). set_solver. Qed.

Lemma wsum_C X : X ⊆ C -> 0 <= wsum wt X < 2 ^ 64.
Proof. intros HX. pose proof (wsum_subset wt wt_pos X C HX). pose proof (wsum_nonneg wt wt_pos X). lia. Qed.

Lemma counter_count t p : vt_inv t -> pvc_Count (counterOf t p) = wsum wt (dom (votesFor t p)).
Proof.
  intros HI. unfold counterOf. rewrite (vi_counts t HI). unfold counterFor. case_decide as E; [|done].
  rewrite E. cbn. by rewrite dom_empty_L, wsum_empty.
Qed.
Lemma counter_votes t p : vt_inv t -> pvc_Votes (counterOf t p) = votesFor t p.
Proof. intros HI. unfold counterOf. rewrite (vi_counts t HI). unfold counterFor. by case_decide. Qed.

(** The weight a tracker compares with the threshold. *)
Lemma vt_count_spec t p : vt_inv t -> vt_count t p = wsum wt (supporters t p).
Proof.
  intros HI. unfold vt_count. rewrite counter_count, (vi_eqcount t HI), <- supporters_wsum by done.
  apply wrap64_small, wsum_C, supporters_C, HI.
Qed.

Lemma recordVote_votesFor v t p : vt_Voters t !! senderOf v = None ->
  votesFor (recordVote v t) p = if decide (propOf v = p) then <[senderOf v := v]> (votesFor t p) else votesFor t p.
Proof.
  intros Ha. unfold votesFor, recordVote. cbn. case_decide as Hp.
  - by rewrite map_filter_insert_True.
  - apply map_filter_insert_not'; [done|]. intros y Hy. by rewrite Ha in Hy.
Qed.

Lemma recordVote_inv v t : vt_inv t -> admissible v -> vt_Voters t !! senderOf v = None -> vt_Equivocators t !! senderOf v = None ->
  vt_inv (recordVote v t).
Proof.
  intros HI Hv Ha He. pose proof Hv as (Hs & HC & Hw & Hpos). split.
  - apply map_Forall_insert_2; [by split|apply (vi_voters t HI)].
  - intros p. rewrite recordVote_votesFor by done. unfold recordVote. cbn.
    fold (propOf v). case_decide as Hp; [subst|by rewrite lookup_insert_ne, (vi_counts t HI)].
    rewrite lookup_insert_eq. unfold counterFor. rewrite decide_False by apply insert_non_empty.
    rewrite counter_count, counter_votes by done. f_equal. f_equal.
    assert (senderOf v ∉ dom (votesFor t (propOf v))) as Hni.
    { intros Hin. apply votesFor_dom, elem_of_dom in Hin as [? Hin]. congruence. }
    rewrite dom_insert_L, wsum_union, wsum_singleton, Hw by set_solver.
    rewrite Z.add_comm. apply wrap64_small. rewrite <- (wsum_singleton wt), <- wsum_union by set_solver.
    apply wsum_C. pose proof (voters_C t HI). pose proof (votesFor_dom t (propOf v)). set_solver.
  - apply (vi_equiv t HI).
  - cbn. rewrite dom_insert_L. pose proof (vi_disj t HI). apply not_elem_of_dom in He. set_solver.
  - apply (vi_eqcount t HI).
Qed.

Lemma votesFor_delete t t' a p : vt_Voters t' = delete a (vt_Voters t) -> votesFor t' p = delete a (votesFor t p).
Proof. intros E. unfold votesFor. by rewrite E, map_filter_delete. Qed.

(** Without its only vote a proposal has no counter. *)
Lemma only_vote (m : gmap Address vote) a v : m !! a = Some v -> map_Forall (λ b _, 0 < wt b) m ->
  wsum wt (dom m) <= wt a <-> delete a m = ∅.
Proof.
  intros Ha HF. assert (dom m = {[a]} ∪ dom (delete a m)) as ->.
  { rewrite dom_delete_L. apply union_difference_L. apply elem_of_dom_2 in Ha. set_solver. }
  rewrite wsum_union, wsum_singleton by (rewrite dom_delete_L; set_solver). split.
  - intros Hle. apply map_empty. intros b. destruct (delete a m !! b) as [w|] eqn:Eb; [|done]. exfalso.
    pose proof Eb as Eb'. apply lookup_delete_Some in Eb as [_ Eb]. specialize (HF b w Eb). cbn in HF.
    pose proof (wsum_subset wt wt_pos {[b]} (dom (delete a m))) as Hs. rewrite wsum_singleton in Hs.
    apply elem_of_dom_2 in Eb'. specialize (Hs ltac:(set_solver)). lia.
  - intros ->. rewrite dom_empty_L, wsum_empty. lia.
Qed.

Lemma dropVote_counts old t a : vt_inv t -> vt_Voters t !! a = Some old ->
  forall p, vt_Counts (dropVote old a t) !! p = counterFor (delete a (votesFor t p)).
Proof.
  intros HI Ho p. destruct (vi_voters t HI a old Ho) as (Ea & Hs & HC & Hw & Hpos). rewrite Ea in *.
  assert (votesFor t (propOf old) !! a = Some old) as Hold by (by apply votesFor_Some).
  assert (map_Forall (λ b _, 0 < wt b) (votesFor t (propOf old))) as HF.
  { intros b w Hb. apply votesFor_Some in Hb as [Hb _]. destruct (vi_voters t HI b w Hb) as (<- & _ & _ & _ & ?). done. }
  pose proof (only_vote _ _ _ Hold HF) as Honly. unfold dropVote. fold (propOf old). rewrite counter_count, counter_votes, Hw by done.
  assert (forall q, q <> propOf old -> delete a (votesFor t q) = votesFor t q) as Hoth.
  { intros q Hq. apply delete_id. destruct (votesFor t q !! a) as [w|] eqn:Ew; [|done]. apply votesFor_Some in Ew as [? <-]. congruence. }
  destruct (Z.leb_spec (wsum wt (dom (votesFor t (propOf old)))) (wt a)) as [Hle|Hgt]; cbn.
  - destruct (decide (p = propOf old)) as [->|Hp].
    + rewrite lookup_delete_eq. unfold counterFor. by rewrite decide_True by (by apply Honly).
    + rewrite lookup_delete_ne by done. by rewrite (vi_counts t HI), Hoth.
  - destruct (decide (p = propOf old)) as [->|Hp].
    + rewrite lookup_insert_eq. unfold counterFor. rewrite decide_False by (intros E; apply Honly in E; lia).
      f_equal. f_equal. assert (dom (votesFor t (propOf old)) = {[a]} ∪ dom (delete a (votesFor t (propOf old)))) as Ed.
      { rewrite dom_delete_L. apply union_difference_L. apply elem_of_dom_2 in Hold. set_solver. }
      rewrite Ed, wsum_union, wsum_singleton by (rewrite dom_delete_L; set_solver).
      replace (_ + _ - _) with (wsum wt (dom (delete a (votesFor t (propOf old))))) by lia. apply wrap64_small, wsum_C.
      rewrite dom_delete_L. pose proof (voters_C t HI). pose proof (votesFor_dom t (propOf old)). set_solver.
    + rewrite lookup_insert_ne by done. by rewrite (vi_counts t HI), Hoth.
Qed.

(** The tracker after an equivocation. *)
Lemma recordEquivocation_inv old v t : vt_inv t -> admissible v -> vt_Voters t !! senderOf v = Some old ->
  vt_Equivocators t !! senderOf v = None ->
  exists t', recordEquivocation proto old v t =
      (if T <=? wsum wt ({[senderOf v]} ∪ dom (vt_Equivocators t)) then Panic "too many equivocators for step" else Ok t') /\
    vt_inv t' /\ vt_Voters t' = delete (senderOf v) (vt_Voters t) /\
    vt_Equivocators t' = <[senderOf v := pairOfVotes old v]> (vt_Equivocators t).
Proof.
  intros HI Hv Ho He. pose proof Hv as (Hs & HC & Hw & Hpos). set (a := senderOf v) in *.
  assert (a ∉ dom (vt_Equivocators t)) as Hni by (by apply not_elem_of_dom).
  destruct (vi_voters t HI a old Ho) as (Ea & Hso & HCo & Hwo & Hpo).
  assert (wrap64 (vt_EquivocatorsCount t + weightOf v) = wsum wt ({[a]} ∪ dom (vt_Equivocators t))) as Ecount.
  { rewrite (vi_eqcount t HI), wsum_union, wsum_singleton, Hw by set_solver. rewrite Z.add_comm. apply wrap64_small.
    rewrite <- (wsum_singleton wt), <- wsum_union by set_solver. apply wsum_C. pose proof (equivocators_C t HI). set_solver. }
  set (t1 := t <| vt_EquivocatorsCount := wrap64 (vt_EquivocatorsCount t + weightOf v) |>).
  set (t2 := dropVote old a t1).
  exists (t2 <| vt_Equivocators ::= <[a := pairOfVotes old v]> |> <| vt_Voters ::= delete a |>).
  assert (vt_Voters t2 = vt_Voters t /\ vt_Equivocators t2 = vt_Equivocators t /\
          vt_EquivocatorsCount t2 = wsum wt ({[a]} ∪ dom (vt_Equivocators t)) /\
          vt_Counts t2 = vt_Counts (dropVote old a t)) as (E1 & E2 & E3 & E4).
  { unfold t2, dropVote. change (counterOf t1) with (counterOf t). destruct (_ <=? _); cbn; by rewrite Ecount. }
  split; [|split; [|by rewrite <- E1, <- E2]].
  { unfold recordEquivocation. fold a t1. rewrite Hs, reachesQuorum_spec by done. cbn [vt_EquivocatorsCount t1 rset setter].
    rewrite Ecount. done. }
  split; cbn.
  - rewrite E1. by apply map_Forall_delete, (vi_voters t HI).
  - intros p. rewrite E4, dropVote_counts by done. f_equal. symmetry. apply votesFor_delete. cbn. by rewrite E1.
  - rewrite E2. apply map_Forall_insert_2; [|apply (vi_equiv t HI)]. cbn. fold a. unfold senderOf in Ea. rewrite Ea in *.
    unfold weightOf in Hwo. unfold senderOf in *. rewrite Ea in *. done.
  - rewrite E1, E2, dom_delete_L, dom_insert_L. pose proof (vi_disj t HI). set_solver.
  - by rewrite E2, E3, dom_insert_L.
Qed.

(** ** Quorums *)

(** A proposal with a voter of its own and a quorum of supporters. *)
Definition over t p : Prop := votesFor t p <> ∅ /\ T <= wsum wt (supporters t p).
(** Equivocators too light for two quorums. *)
Definition light (X : gset Address) : Prop := wsum wt C + wsum wt X < 2 * T.

Lemma light_T X : light X -> X ⊆ C -> 0 < T /\ wsum wt X < T.
Proof.
  unfold light. intros HL HX. pose proof (wsum_subset wt wt_pos X C HX). pose proof (wsum_nonneg wt wt_pos X). lia.
Qed.
Lemma light_mono X Y : X ⊆ Y -> light Y -> light X.
Proof. unfold light. intros HX HL. pose proof (wsum_subset wt wt_pos X Y HX). lia. Qed.

Lemma over_unique t p q : vt_inv t -> light (dom (vt_Equivocators t)) -> over t p -> over t q -> p = q.
Proof.
  intros HI HL [_ Hp] [_ Hq]. destruct (decide (p = q)) as [|Hne]; [done|]. exfalso. unfold light in HL.
  pose proof (wsum_intersect wt wt_pos C _ _ (supporters_C t p HI) (supporters_C t q HI)) as Hint.
  assert (supporters t p ∩ supporters t q ⊆ dom (vt_Equivocators t)) as Hsub.
  { unfold supporters. intros a Ha. destruct (decide (a ∈ dom (vt_Equivocators t))) as [|Hn]; [done|]. exfalso.
    assert (a ∈ dom (votesFor t p)) as [v Hv]%elem_of_dom by set_solver. assert (a ∈ dom (votesFor t q)) as [w Hw]%elem_of_dom by set_solver.
    apply votesFor_Some in Hv as [? <-], Hw as [? <-]. congruence. }
  pose proof (wsum_subset wt wt_pos _ _ Hsub). lia.
Qed.

Lemma overProposals_elem t p : vt_inv t -> p ∈ overProposals t proto s <-> over t p.
Proof.
  intros HI. unfold overProposals, over. rewrite list_elem_of_filter, reachesQuorum_spec, Z.leb_le, vt_count_spec by done.
  rewrite list_elem_of_fmap. split.
  - intros [HT ([q c] & -> & Hc%elem_of_map_to_list)]. split; [|done]. rewrite (vi_counts t HI) in Hc.
    unfold counterFor in Hc. by case_decide.
  - intros [Hne HT]. split; [done|]. exists (p, mkProposalVoteCounter (wsum wt (dom (votesFor t p))) (votesFor t p)). split; [done|].
    apply elem_of_map_to_list. rewrite (vi_counts t HI). unfold counterFor. by rewrite decide_False.
Qed.

(** The search of [overThreshold] finds the one value with a quorum. *)
Lemma overThreshold_spec t : vt_inv t -> light (dom (vt_Equivocators t)) ->
  exists r, overThreshold t proto s = Ok r /\ forall p, r = Some p <-> over t p.
Proof.
  intros HI HL. unfold overThreshold. pose proof (overProposals_elem t) as HE.
  assert (NoDup (overProposals t proto s)) as HN by (apply NoDup_filter, NoDup_fst_map_to_list).
  destruct (overProposals t proto s) as [|p [|q l]].
  - exists None. split; [done|]. intros p. rewrite <- HE by done. split; [done|set_solver].
  - exists (Some p). split; [done|]. intros q. rewrite <- HE by done. set_solver.
  - exfalso. assert (p = q) as -> by (apply (over_unique t); [done|done|apply HE; set_solver..]).
    apply NoDup_cons in HN as [HN _]. set_solver.
Qed.

(** A value keeps its quorum. *)
Lemma over_recordVote v t p : vt_inv t -> admissible v -> vt_Voters t !! senderOf v = None -> over t p -> over (recordVote v t) p.
Proof.
  intros HI Hv Ha [Hne HT]. unfold over, supporters. rewrite recordVote_votesFor by done.
  change (vt_Equivocators (recordVote v t)) with (vt_Equivocators t). split.
  - case_decide; [apply insert_non_empty|done].
  - etrans; [exact HT|]. apply wsum_subset; [done|]. unfold supporters. case_decide; [rewrite dom_insert_L|]; set_solver.
Qed.

Lemma over_equivocation t t' a old p : vt_inv t -> vt_inv t' -> light (dom (vt_Equivocators t')) -> vt_Voters t !! a = Some old ->
  vt_Voters t' = delete a (vt_Voters t) -> dom (vt_Equivocators t') = {[a]} ∪ dom (vt_Equivocators t) -> over t p -> over t' p.
Proof.
  intros HI HI' HL Ho EV EE [Hne HT]. pose proof (equivocators_C t' HI') as HC'. destruct (light_T _ HL HC') as [_ Hlt].
  assert (supporters t p ⊆ supporters t' p) as Hsub.
  { unfold supporters. rewrite (votesFor_delete t t' a p EV), EE, dom_delete_L.
    intros b Hb. destruct (decide (b = a)); set_solver. }
  assert (T <= wsum wt (supporters t' p)) as HT' by (etrans; [exact HT|]; by apply wsum_subset).
  split; [|done]. intros E. unfold supporters in HT'. rewrite E, dom_empty_L in HT'.
  replace (∅ ∪ dom (vt_Equivocators t')) with (dom (vt_Equivocators t')) in HT' by set_solver. lia.
Qed.

(** ** Bundles *)

Lemma sumZ_length {A} (w : A -> Z) l : Forall (λ x, 0 < w x) l -> zlen l <= sumZ w l.
Proof. unfold zlen. induction 1; cbn [length sumZ]; lia. Qed.

Lemma cutoff_spec {A} (w : A -> Z) l : forall weight out weight', Forall (λ x, 0 < w x) l -> 0 <= weight -> weight + sumZ w l < 2 ^ 64 ->
  cutoff w s proto l weight = (out, weight') ->
  out `prefix_of` l /\ weight' = weight + sumZ w out /\ (T <= weight' \/ out = l) /\
  zlen out <= Z.max 0 (T - weight) /\ (forall B (f : A -> B), packVotes s proto w f out weight = (f <$> out, weight')).
Proof.
  unfold zlen. induction l as [|x l IH]; intros weight out weight' HF H0 HT E; cbn [cutoff sumZ] in *.
  { injection E as <- <-. cbn. split_and!; [done|lia|by right|lia|done]. }
  apply Forall_cons in HF as [Hx HF]. rewrite reachesQuorum_spec in E by done.
  assert (0 <= sumZ w l) as Hnn by (apply sumZ_nonneg; rewrite Forall_forall in HF; intros y Hy; specialize (HF y Hy); lia).
  destruct (Z.leb_spec T weight) as [Hq|Hq].
  { injection E as <- <-. cbn. split_and!; [apply prefix_nil|lia|by left|lia|done]. }
  rewrite wrap64_small in E by (unfold u64; lia). destruct (cutoff w s proto l (weight + w x)) as [out1 w1] eqn:E1. injection E as <- <-.
  destruct (IH (weight + w x) out1 w1 HF ltac:(lia) ltac:(lia) E1) as (P & -> & Q & L & R). split_and!.
  - by apply prefix_cons.
  - cbn. lia.
  - destruct Q as [?|EQ]; [by left|right; by rewrite EQ].
  - cbn [length]. lia.
  - intros B f. cbn [packVotes]. rewrite reachesQuorum_spec, (proj2 (Z.leb_gt _ _)), wrap64_small by (done || unfold u64; lia).
    by rewrite R.
Qed.

Lemma SliceStable_perm {A} (less : A -> A -> bool) l : SliceStable less l ≡ₚ l.
Proof.
  assert (forall x (m : list A), insertSorted less x m ≡ₚ x :: m) as Hins.
  { intros x m. induction m as [|y m IH]; [done|]. cbn. destruct (less x y); [done|]. rewrite IH. apply Permutation_swap. }
  unfold SliceStable. assert (forall acc : list A, foldl (λ acc x, insertSorted less x acc) acc l ≡ₚ acc ++ l) as H.
  { induction l as [|x l IH]; intros acc; cbn; [by rewrite app_nil_r|]. rewrite IH, Hins. cbn. by rewrite Permutation_middle. }
  apply H.
Qed.

(** The bundle of a value with a quorum: some of its votes and some of the
    equivocation pairs, with a quorum of weight and no more entries than that. *)
Record bundle_of t p (b : unauthenticatedBundle) (vs : list vote) (es : list equivocationVote) : Prop := {
  bo_bundle : exists v0, v0 ∈ vs /\ b = mkUnauthenticatedBundle (rv_Round (v_R v0)) (rv_Period (v_R v0)) s p (voteAuth <$> vs) (eqvAuth <$> es);
  bo_votes : forall v, v ∈ vs -> votesFor t p !! senderOf v = Some v;
  bo_pairs : forall e, e ∈ es -> vt_Equivocators t !! ev_Sender e = Some e;
  bo_senders : NoDup ((senderOf <$> vs) ++ (ev_Sender <$> es));
  bo_weight : T <= sumZ weightOf vs + sumZ (λ e, cred_Weight (ev_Cred e)) es;
  bo_size : zlen vs + zlen es <= T
}.

Lemma values_prefix {A} (key : A -> Address) (m : gmap Address A) l out : map_Forall (λ a x, key x = a) m ->
  l ≡ₚ (map_to_list m).*2 -> out `prefix_of` l ->
  (forall x, x ∈ out -> m !! key x = Some x) /\ NoDup (key <$> out).
Proof.
  intros HF HP [rest ->]. assert (forall x, x ∈ out ++ rest -> m !! key x = Some x) as HA.
  { intros x Hx. rewrite HP in Hx. apply list_elem_of_fmap in Hx as ([a y] & -> & Hy%elem_of_map_to_list). cbn. by rewrite (HF a y Hy). }
  split; [intros x Hx; apply HA; set_solver|].
  assert (NoDup (key <$> (out ++ rest))) as HN.
  { rewrite HP. assert (key <$> (map_to_list m).*2 = (map_to_list m).*1) as ->; [|apply NoDup_fst_map_to_list].
    assert (Forall (λ ax, key ax.2 = ax.1) (map_to_list m)) as HL by (apply Forall_forall; intros [a x] Hx%elem_of_map_to_list; by apply (HF a x)).
    clear -HL. induction HL as [|[a x] l E _ IH]; [done|]. cbn in *. by rewrite E, IH. }
  rewrite fmap_app in HN. by apply NoDup_app in HN as [? _].
Qed.

Lemma genBundle_spec t p : vt_inv t -> 0 < T -> over t p -> exists b vs es, genBundle t proto (counterOf t p) = Ok b /\ bundle_of t p b vs es.
Proof.
  intros HI HT0 [Hne HT]. unfold genBundle. rewrite counter_votes by done.
  set (l1 := SliceStable _ (map_to_list (votesFor t p)).*2). set (l2 := SliceStable _ (map_to_list (vt_Equivocators t)).*2).
  assert (l1 ≡ₚ (map_to_list (votesFor t p)).*2) as P1 by apply SliceStable_perm.
  assert (l2 ≡ₚ (map_to_list (vt_Equivocators t)).*2) as P2 by apply SliceStable_perm. clearbody l1 l2.
  assert (map_Forall (λ a v, senderOf v = a /\ admissible v) (votesFor t p)) as HA.
  { intros a v Hv. apply votesFor_Some in Hv as [Hv _]. by apply (vi_voters t HI). }
  assert (sumZ weightOf l1 = wsum wt (dom (votesFor t p))) as S1.
  { rewrite (sumZ_Permutation _ _ _ P1). apply sumZ_dom. intros a v Hv. destruct (HA a v Hv) as (<- & _ & _ & ? & _). done. }
  assert (sumZ (λ e, cred_Weight (ev_Cred e)) l2 = wsum wt (dom (vt_Equivocators t))) as S2.
  { rewrite (sumZ_Permutation _ _ _ P2). apply sumZ_dom. intros a e He. by destruct (vi_equiv t HI a e He) as (_ & _ & _ & ? & _). }
  assert (Forall (λ v, 0 < weightOf v) l1) as F1.
  { rewrite P1. apply Forall_fmap, Forall_forall. intros [a v] Hv%elem_of_map_to_list. destruct (HA a v Hv) as (<- & _ & _ & E & ?). cbn. by rewrite E. }
  assert (Forall (λ e, 0 < cred_Weight (ev_Cred e)) l2) as F2.
  { rewrite P2. apply Forall_fmap, Forall_forall. intros [a e] He%elem_of_map_to_list. destruct (vi_equiv t HI a e He) as (_ & _ & _ & E & ?). cbn. by rewrite E. }
  assert (forall v, v ∈ l1 -> rv_Step (v_R v) = s /\ propOf v = p) as F3.
  { intros v Hv. rewrite P1 in Hv. apply list_elem_of_fmap in Hv as ([a w] & -> & Hw%elem_of_map_to_list). cbn.
    destruct (HA a w Hw) as (_ & ? & _). by apply votesFor_Some in Hw as [_ ?]. }
  pose proof (wsum_C (supporters t p) (supporters_C t p HI)) as HW. rewrite supporters_wsum in HT, HW by done.
  pose proof (wsum_nonneg wt wt_pos (dom (votesFor t p))). pose proof (wsum_nonneg wt wt_pos (dom (vt_Equivocators t))).
  destruct (cutoff weightOf s proto l1 0) as [vs w1] eqn:E1.
  destruct (cutoff_spec weightOf l1 0 vs w1 F1 ltac:(lia) ltac:(lia) E1) as (Pre1 & W1 & Q1 & L1 & K1).
  destruct (cutoff (λ e, cred_Weight (ev_Cred e)) s proto l2 w1) as [es w2] eqn:E2.
  assert (0 <= sumZ weightOf vs <= sumZ weightOf l1) as Hvs.
  { destruct Pre1 as [rest ->]. apply Forall_app in F1 as [F1a F1b]. rewrite sumZ_app.
    rewrite Forall_forall in F1a. rewrite Forall_forall in F1b.
    split; [|enough (0 <= sumZ weightOf rest) by lia]; apply sumZ_nonneg; intros x Hx;
      [specialize (F1a x Hx)|specialize (F1b x Hx)]; lia. }
  destruct (cutoff_spec (λ e, cred_Weight (ev_Cred e)) l2 w1 es w2 F2 ltac:(lia) ltac:(lia) E2) as (Pre2 & W2 & Q2 & L2 & K2).
  assert (zlen vs <= sumZ weightOf vs) as Hlen.
  { apply sumZ_length. destruct Pre1 as [rest Er]. rewrite Er in F1. by apply Forall_app in F1 as [? _]. }
  assert (T <= w2) as HT2.
  { assert (0 <= sumZ (λ e, cred_Weight (ev_Cred e)) es) as Hes.
    { destruct Pre2 as [rest ->]. apply Forall_app in F2 as [F2 _]. apply sumZ_nonneg. intros e He. rewrite Forall_forall in F2.
      specialize (F2 e He). lia. }
    destruct Q1 as [?|Evs]; [lia|]. destruct Q2 as [?|Ees]; [lia|]. rewrite Evs in W1. rewrite Ees in W2. lia. }
  assert (l1 <> []) as Hl1.
  { intros ->. apply Hne. apply Permutation_nil_l in P1. symmetry in P1. by apply fmap_nil_inv, map_to_list_empty_iff in P1. }
  destruct l1 as [|u0 l1']; [done|]. destruct (F3 u0 ltac:(set_solver)) as [Hu0 _]. rewrite Hu0, E1.
  destruct vs as [|v0 vs'].
  { exfalso. cbn [cutoff] in E1. rewrite reachesQuorum_spec, (proj2 (Z.leb_gt _ _)) in E1 by (done || lia).
    destruct (cutoff _ _ _ _ _); discriminate E1. }
  assert (v0 ∈ u0 :: l1') as Hv0 by (destruct Pre1 as [rest ->]; set_solver). destruct (F3 v0 Hv0) as [Hs0 Hp0]. rewrite Hs0, E2.
  fold (propOf v0). rewrite Hp0. exists (mkUnauthenticatedBundle (rv_Round (v_R v0)) (rv_Period (v_R v0)) s p (voteAuth <$> (v0 :: vs')) (eqvAuth <$> es)).
  exists (v0 :: vs'), es. split.
  - unfold makeBundle. rewrite Hs0. assert (existsb (λ v, bool_decide (rv_Proposal (v_R v) <> p)) (v0 :: vs') = false) as ->.
    { apply not_true_iff_false. intros (v & Hv & Hd)%existsb_exists. apply bool_decide_eq_true in Hd. apply Hd.
      apply list_elem_of_In in Hv. destruct Pre1 as [rest Er]. apply (F3 v). rewrite Er. set_solver. }
    fold weightOf. rewrite (K1 _ voteAuth). rewrite (K2 _ eqvAuth). rewrite reachesQuorum_spec by done.
    rewrite (proj2 (Z.leb_le _ _)) by done. done.
  - destruct (values_prefix senderOf (votesFor t p) _ _ (map_Forall_impl _ _ _ HA (λ a v H, proj1 H)) P1 Pre1) as [V1 N1].
    destruct (values_prefix ev_Sender (vt_Equivocators t) _ _ (map_Forall_impl _ _ _ (vi_equiv t HI) (λ a e H, proj1 H)) P2 Pre2) as [V2 N2].
    split; try done.
    + exists v0. split; [set_solver|done].
    + apply NoDup_app. split; [done|]. split; [|done]. intros a Ha Hb.
      apply list_elem_of_fmap in Ha as (v & -> & Hv), Hb as (e & Ee & He). apply V1, elem_of_dom_2, votesFor_dom in Hv.
      apply V2, elem_of_dom_2 in He. pose proof (vi_disj t HI). rewrite <- Ee in He. set_solver.
    + lia.
    + lia.
Qed.

Lemma bundle_of_weight t p b vs es : vt_inv t -> bundle_of t p b vs es ->
  0 <= sumZ weightOf vs + sumZ (λ e, cred_Weight (ev_Cred e)) es < 2 ^ 64.
Proof.
  intros HI [_ Hvs Hes HN _ _].
  assert (sumZ weightOf vs + sumZ (λ e, cred_Weight (ev_Cred e)) es = wsum wt (list_to_set ((senderOf <$> vs) ++ (ev_Sender <$> es)))) as ->.
  { unfold wsum. rewrite (sumZ_Permutation _ _ _ (elements_list_to_set _ HN)), sumZ_app, !sumZ_fmap.
    f_equal; apply sumZ_ext.
    - intros v Hv. apply Hvs, votesFor_Some in Hv as [Hv _]. by destruct (vi_voters t HI _ _ Hv) as (_ & _ & _ & ? & _).
    - intros e He. apply Hes in He. by destruct (vi_equiv t HI _ _ He) as (_ & _ & _ & ? & _). }
  apply wsum_C. intros a. rewrite elem_of_list_to_set, elem_of_app, !list_elem_of_fmap. intros [(v & -> & Hv)|(e & -> & He)].
  - apply Hvs, votesFor_Some in Hv as [Hv _]. by destruct (vi_voters t HI _ _ Hv) as (_ & _ & ? & _).
  - apply Hes in He. by destruct (vi_equiv t HI _ _ He) as (_ & _ & ? & _).
Qed.

(** ** The votes delivered so far *)

Implicit Type H : list vote.

(** The senders of [H] that voted for two values. *)
Definition equivocators H : gset Address :=
  list_to_set (senderOf <$> filter (λ v, Exists (λ w, senderOf w = senderOf v /\ propOf w <> propOf v) H) H).
(** The senders of [H] that support [p]. *)
Definition supportersOf H p : gset Address := list_to_set (senderOf <$> filter (λ v, propOf v = p) H) ∪ equivocators H.

Lemma equivocators_elem H a : a ∈ equivocators H <->
  exists v w, v ∈ H /\ w ∈ H /\ senderOf v = a /\ senderOf w = a /\ propOf w <> propOf v.
Proof.
  unfold equivocators. rewrite elem_of_list_to_set, list_elem_of_fmap. split.
  - intros (v & -> & [HE Hv]%list_elem_of_filter). apply Exists_exists in HE as (w & Hw & ? & ?). eauto 10.
  - intros (v & w & Hv & Hw & <- & ? & ?). exists v. split; [done|]. apply list_elem_of_filter. split; [|done].
    apply Exists_exists. eauto.
Qed.

Record tracked H t : Prop := {
  tr_voters : forall a v, vt_Voters t !! a = Some v -> v ∈ H /\ forall w, w ∈ H -> senderOf w = a -> propOf w = propOf v;
  tr_equiv : forall a e, vt_Equivocators t !! a = Some e ->
    exists v w, v ∈ H /\ w ∈ H /\ senderOf v = a /\ senderOf w = a /\ propOf v <> propOf w /\ e = pairOfVotes v w;
  tr_all : forall v, v ∈ H -> senderOf v ∈ dom (vt_Voters t) ∪ dom (vt_Equivocators t)
}.

Lemma tracked_zero : tracked [] voteTracker_zero.
Proof. split; cbn; try (intros ? ?; by rewrite lookup_empty). set_solver. Qed.

Lemma tracked_equivocators H t : vt_inv t -> tracked H t -> dom (vt_Equivocators t) = equivocators H.
Proof.
  intros HI HT. apply set_eq. intros a. rewrite equivocators_elem. split.
  - intros [e He]%elem_of_dom. destruct (tr_equiv H t HT a e He) as (v & w & ? & ? & ? & ? & ? & _). exists v, w. auto 10.
  - intros (v & w & Hv & Hw & Ev & Ew & Hne). pose proof (tr_all H t HT v Hv) as Ha. rewrite Ev in Ha.
    apply elem_of_union in Ha as [[u Hu]%elem_of_dom|]; [|done]. destruct (tr_voters H t HT a u Hu) as [_ Hall].
    rewrite (Hall v), (Hall w) in Hne; done.
Qed.

Lemma tracked_supporters H t p : vt_inv t -> tracked H t -> supporters t p = supportersOf H p.
Proof.
  intros HI HT. unfold supporters, supportersOf. rewrite <- (tracked_equivocators H t) by done. apply set_eq. intros a.
  rewrite !elem_of_union, elem_of_list_to_set, list_elem_of_fmap. split; (intros [Ha|]; [|by right]).
  - left. apply elem_of_dom in Ha as [v Hv]. apply votesFor_Some in Hv as [Hv <-]. exists v.
    destruct (vi_voters t HI a v Hv) as [<- _]. split; [done|]. apply list_elem_of_filter. split; [done|].
    by destruct (tr_voters H t HT _ v Hv).
  - destruct Ha as (v & -> & [<- Hv]%list_elem_of_filter). pose proof (tr_all H t HT v Hv) as Ha.
    apply elem_of_union in Ha as [[u Hu]%elem_of_dom|]; [left|by right]. apply elem_of_dom. exists u. apply votesFor_Some.
    split; [done|]. destruct (tr_voters H t HT _ u Hu) as [_ Hall]. symmetry. by apply Hall.
Qed.

Lemma tracked_weaken H v t : tracked H t -> senderOf v ∈ dom (vt_Voters t) ∪ dom (vt_Equivocators t) ->
  (forall u, vt_Voters t !! senderOf v = Some u -> propOf v = propOf u) -> tracked (v :: H) t.
Proof.
  intros [T1 T2 T3] Hin Hu. split.
  - intros a u Ha. destruct (T1 a u Ha) as [? Hall]. split; [set_solver|]. intros w [->|Hw]%elem_of_cons Ea; [|by apply Hall].
    apply Hu. by rewrite Ea.
  - intros a e He. destruct (T2 a e He) as (x & y & ? & ? & ?). exists x, y. split; [set_solver|]. split; [set_solver|done].
  - intros w [->|Hw]%elem_of_cons; [done|by apply T3].
Qed.

Lemma tracked_recordVote H v t : tracked H t -> senderOf v ∉ dom (vt_Voters t) ∪ dom (vt_Equivocators t) -> tracked (v :: H) (recordVote v t).
Proof.
  intros [T1 T2 T3] Hni. assert (forall w, w ∈ H -> senderOf w <> senderOf v) as Hfresh.
  { intros w Hw E. apply Hni. rewrite <- E. by apply T3. }
  split; cbn.
  - intros a u [[<- <-]|[Hne Ha]]%lookup_insert_Some.
    + split; [set_solver|]. intros w [->|Hw]%elem_of_cons Ea; [done|]. by destruct (Hfresh w Hw).
    + destruct (T1 a u Ha) as [? Hall]. split; [set_solver|]. intros w [->|Hw]%elem_of_cons Ea; [done|by apply Hall].
  - intros a e He. destruct (T2 a e He) as (x & y & ? & ? & ?). exists x, y. split; [set_solver|]. split; [set_solver|done].
  - intros w. rewrite dom_insert_L. intros [->|Hw]%elem_of_cons; [set_solver|]. specialize (T3 w Hw). set_solver.
Qed.

Lemma tracked_equivocation H v old t t' : tracked H t -> vt_inv t -> vt_Voters t !! senderOf v = Some old -> propOf old <> propOf v ->
  vt_Voters t' = delete (senderOf v) (vt_Voters t) -> vt_Equivocators t' = <[senderOf v := pairOfVotes old v]> (vt_Equivocators t) ->
  tracked (v :: H) t'.
Proof.
  intros [T1 T2 T3] HI Ho Hne EV EE. destruct (vi_voters t HI _ _ Ho) as [Es _]. split.
  - rewrite EV. intros a u [Hna Ha]%lookup_delete_Some. destruct (T1 a u Ha) as [? Hall]. split; [set_solver|].
    intros w [->|Hw]%elem_of_cons Ea; [done|by apply Hall].
  - rewrite EE. intros a e [[<- <-]|[Hna He]]%lookup_insert_Some.
    + exists old, v. destruct (T1 _ old Ho) as [? _]. split_and!; try done; set_solver.
    + destruct (T2 a e He) as (x & y & ? & ? & ?). exists x, y. split; [set_solver|]. split; [set_solver|done].
  - rewrite EV, EE, dom_delete_L, dom_insert_L. intros w [->|Hw]%elem_of_cons; [set_solver|]. specialize (T3 w Hw).
    destruct (decide (senderOf w = senderOf v)); set_solver.
Qed.

(** ** Delivering a vote *)

(** The event for a delivered vote: none, or the threshold of the value that just
    got its quorum, with a bundle. *)
Inductive emitted t v t' : thresholdEvent -> Prop :=
| emit_none : (exists p, over t p) \/ (forall p, ~ over t' p) -> emitted t v t' thresholdEvent_zero
| emit_threshold p b vs es : (forall q, ~ over t q) -> over t' p -> bundle_of t' p b vs es ->
    emitted t v t' (mkThresholdEvent (stepThreshold s) (rv_Round (v_R v)) (rv_Period (v_R v)) s p b).

Lemma search_emits t v t' before : rv_Step (v_R v) = s -> vt_inv t' -> light (dom (vt_Equivocators t')) ->
  (forall p, before = Some p <-> over t p) ->
  exists out, (after ← overThreshold t' proto s;
               match before, after with None, Some prop => makeThreshold t' proto v prop | _, _ => Ok thresholdEvent_zero end) = Ok out /\
    emitted t v t' out.
Proof.
  intros Hs HI' HL Hbefore. destruct (overThreshold_spec t' HI' HL) as (after & -> & Hafter). cbn [mbind result_bind].
  destruct before as [q|]; [exists thresholdEvent_zero; split; [done|]; apply emit_none; left; exists q; by apply Hbefore|].
  destruct after as [p|].
  - destruct (light_T _ HL (equivocators_C t' HI')) as [HT0 _]. assert (over t' p) as Ho by (by apply Hafter).
    destruct (genBundle_spec t' p HI' HT0 Ho) as (b & vs & es & Eb & Hb). unfold makeThreshold. rewrite Eb. cbn. rewrite Hs.
    eexists. split; [done|]. eapply emit_threshold; [|done..]. intros q Hq. by apply Hbefore in Hq.
  - exists thresholdEvent_zero. split; [done|]. apply emit_none. right. intros q Hq. by apply Hafter in Hq.
Qed.

Lemma vt_accept H t v : vt_inv t -> tracked H t -> admissible v -> light (equivocators (v :: H)) ->
  exists t' out, vt_voteAccepted proto v t = (Ok out, t') /\ vt_inv t' /\ tracked (v :: H) t' /\
    (forall p, over t p -> over t' p) /\ emitted t v t' out.
Proof.
  intros HI HT Hv HL. pose proof Hv as (Hs & HC & Hw & Hpos). unfold vt_voteAccepted. rewrite Hs.
  assert (light (dom (vt_Equivocators t))) as HLt.
  { rewrite (tracked_equivocators H t) by done. eapply light_mono; [|exact HL]. intros a. rewrite !equivocators_elem.
    intros (x & y & ? & ? & ?). exists x, y. split; [by right|]. split; [by right|done]. }
  destruct (overThreshold_spec t HI HLt) as (before & Eb & Hbefore).
  assert (forall t', vt_inv t' -> tracked (v :: H) t' -> light (dom (vt_Equivocators t'))) as HLt'.
  { intros t' HI' HT'. by rewrite (tracked_equivocators (v :: H) t'). }
  case_bool_decide as He.
  { (* already an equivocator *)
    exists t, thresholdEvent_zero. assert (senderOf v ∈ dom (vt_Equivocators t)) as Hd by (by apply elem_of_dom).
    split_and!; try done.
    - apply tracked_weaken; [done|set_solver|]. intros u Hu. apply elem_of_dom_2 in Hu. pose proof (vi_disj t HI). set_solver.
    - apply emit_none. destruct before as [q|]; [left; exists q; by apply Hbefore|right]. intros q Hq. by apply Hbefore in Hq. }
  assert (vt_Equivocators t !! senderOf v = None) as He' by (destruct (vt_Equivocators t !! senderOf v); [destruct He; eauto|done]).
  rewrite Eb. destruct (vt_Voters t !! senderOf v) as [old|] eqn:Ho.
  2: { (* a first vote *)
    pose proof (recordVote_inv v t HI Hv Ho He') as HI'.
    assert (tracked (v :: H) (recordVote v t)) as HT'.
    { apply tracked_recordVote; [done|]. apply not_elem_of_dom in Ho, He'. set_solver. }
    destruct (search_emits t v (recordVote v t) before Hs HI' (HLt' _ HI' HT') Hbefore) as (out & -> & Hout).
    exists (recordVote v t), out. split_and!; try done. intros p. by apply over_recordVote. }
  fold (propOf old) (propOf v). case_bool_decide as Hp.
  { (* the same vote again *)
    exists t, thresholdEvent_zero. split_and!; try done.
    - apply tracked_weaken; [done|apply elem_of_dom_2 in Ho; set_solver|]. intros u Hu. congruence.
    - apply emit_none. destruct before as [q|]; [left; exists q; by apply Hbefore|right]. intros q Hq. by apply Hbefore in Hq. }
  (* an equivocation *)
  destruct (recordEquivocation_inv old v t HI Hv Ho He') as (t' & Er & HI' & EV & EE).
  pose proof (tracked_equivocation H v old t t' HT HI Ho Hp EV EE) as HT'. pose proof (HLt' _ HI' HT') as HL'.
  assert (dom (vt_Equivocators t') = {[senderOf v]} ∪ dom (vt_Equivocators t)) as Ed by (by rewrite EE, dom_insert_L).
  destruct (light_T _ HL' (equivocators_C t' HI')) as [_ Hlt]. rewrite Ed in Hlt.
  rewrite Er, (proj2 (Z.leb_gt _ _)) by done. cbn [mbind result_bind].
  assert (forall p, over t p -> over t' p) as Hmono by (intros p; by apply (over_equivocation t t' (senderOf v) old)).
  destruct (Nat.eqb_spec (size (vt_Voters t')) 0) as [E0|E0]; cbn [negb].
  - exists t', thresholdEvent_zero. split_and!; try done. apply emit_none. right. intros p [Hne _]. apply Hne.
    unfold votesFor. apply map_size_empty_iff in E0. by rewrite E0, map_filter_empty.
  - destruct (search_emits t v t' before Hs HI' HL' Hbefore) as (out & -> & Hout). by exists t', out.
Qed.
End Tracker.

(** ** A step's router over a whole run *)

(** The votes of a step delivered one after the other; [events] keeps the threshold
    events. *)
Fixpoint deliver (proto : ConsensusParams) (vs : list vote) : M stepRouter (list thresholdEvent) :=
  match vs with
  | [] => mret []
  | v :: vs => out ← step_voteAccepted proto v; outs ← deliver proto vs; mret (out :: outs)
  end.
Definition events (outs : list thresholdEvent) : list thresholdEvent := filter (λ e, te_T e <> none) outs.

Lemma equivocators_mono H H' : (forall v, v ∈ H -> v ∈ H') -> equivocators H ⊆ equivocators H'.
Proof. intros HS a. rewrite !equivocators_elem. intros (v & w & ? & ? & ?). exists v, w. auto. Qed.
Lemma supportersOf_mono H H' p : (forall v, v ∈ H -> v ∈ H') -> supportersOf H p ⊆ supportersOf H' p.
Proof.
  intros HS. pose proof (equivocators_mono H H' HS). unfold supportersOf. intros a.
  rewrite !elem_of_union, !elem_of_list_to_set, !list_elem_of_fmap. intros [(v & -> & [Hp Hv]%list_elem_of_filter)|Ha]; [left|right; set_solver].
  exists v. split; [done|]. apply list_elem_of_filter. auto.
Qed.

Lemma elem_of_rev' vs (v : vote) : v ∈ rev vs <-> v ∈ vs.
Proof. rewrite !list_elem_of_In. symmetry. apply in_rev. Qed.
Lemma equivocators_rev vs : equivocators (rev vs) = equivocators vs.
Proof. apply (anti_symm (⊆)); apply equivocators_mono; intros v; apply elem_of_rev'. Qed.
Lemma supportersOf_rev vs p : supportersOf (rev vs) p = supportersOf vs p.
Proof. apply (anti_symm (⊆)); apply supportersOf_mono; intros v; apply elem_of_rev'. Qed.

Section Run.
Context (ac : AgreeCrypto) (l : LedgerReader) (r : Round) (per : period) (s : step) (proto : ConsensusParams).
Context (C : gset Address) (wt : Address -> Z).
Hypothesis s_pos : 0 < s.
Hypothesis ledger_proto : lr_ConsensusParams l (ParamsRound r) = Ok proto.
Hypothesis in_committee : committee ac l r per s C wt.
Hypothesis C_small : wsum wt C < 2 ^ 64.
Notation T := (threshold s proto).

(** A vote of the step that was verified against the ledger. *)
Definition verified (v : vote) : Prop :=
  (exists uv, vote_verify ac uv l = Ok v) /\ rv_Round (v_R v) = r /\ rv_Period (v_R v) = per /\ rv_Step (v_R v) = s.

Lemma wt_nonneg a : 0 <= wt a.
Proof using in_committee. apply in_committee. Qed.
Lemma s_not_propose : s <> propose.
Proof using s_pos. unfold propose. lia. Qed.

Lemma cred_Verify_Ok cred m c : cred_Verify ac cred proto m = Ok c -> cred_Weight c <> 0 /\ cred_Proof c = cred.
Proof.
  unfold cred_Verify. destruct (m_Record m) as [addr data]. destruct (ac_VrfVerify _ _ _ _) as [ok out].
  destruct ok; [|done]. cbn [negb]. set (h := if cp_CredentialDomainSeparationEnabled proto then _ else _). clearbody h.
  repeat (case_match; try done); intros [= <-]; cbn; lia || (split; [by apply Z.eqb_neq|done]).
Qed.

Lemma verified_self v : verified v -> vote_verify ac (vote_u v) l = Ok v.
Proof using ledger_proto.
  intros [[uv E] (Hr & _)]. pose proof E as E'. apply vote_verify_Ok in E' as (m & pr & _ & Ep & Ec & _ & _ & Ev).
  rewrite Ev in Hr. cbn in Hr. rewrite Hr, ledger_proto in Ep. injection Ep as <-. apply cred_Verify_Ok in Ec as [_ Ec].
  replace (vote_u v) with uv; [done|]. rewrite Ev. unfold vote_u. cbn. rewrite Ec. by destruct uv.
Qed.

Lemma verified_admissible v : verified v -> admissible s C wt v /\ (s = soft \/ s = cert -> propOf v <> bottom).
Proof using ledger_proto in_committee.
  intros Hv. pose proof (verified_self v Hv) as E. destruct Hv as (_ & Hr & Hp & Hs). destruct in_committee as [Hpos HC].
  destruct (HC (vote_u v) v E Hr Hp Hs) as [Hin Hw]. apply vote_verify_Ok in E as (m & pr & _ & Ep & Ec & Ewf & _).
  cbn in *. rewrite Hr, ledger_proto in Ep. injection Ep as <-. apply cred_Verify_Ok in Ec as [Hne _]. split.
  - unfold admissible, weightOf, senderOf. specialize (Hpos (rv_Sender (v_R v))). split_and!; try done. lia.
  - intros Hsc Hb. unfold voteWellFormed in Ewf. fold (propOf v) in Ewf. apply result_bind_Ok in Ewf as (? & _ & G%guardR_Ok).
    rewrite Hs, Hb in G. destruct Hsc as [E|E]; rewrite E in G; cbn in G; by rewrite bool_decide_true in G.
Qed.

(** Two verified votes of one sender verify as an equivocation pair. *)
Lemma pair_verifies v w : verified v -> verified w -> senderOf v = senderOf w -> propOf v <> propOf w ->
  let e := pairOfVotes v w in
  eqv_verify ac (mkUnauthenticatedEquivocationVote (ev_Sender e) r per s (cred_Proof (ev_Cred e)) (ev_Proposals e) (ev_Sigs e)) l = Ok e.
Proof using ledger_proto.
  intros Hv Hw Es Hne e. pose proof (verified_self v Hv) as Ev. pose proof (verified_self w Hw) as Ew.
  destruct Hv as (_ & Rv & Pv & Sv), Hw as (_ & Rw & Pw & Sw). destruct v as [[av rv pv sv qv] cv gv], w as [[aw rw pw sw qw] cw gw].
  unfold vote_u, senderOf, propOf in *. cbn in *. subst. unfold eqv_verify. cbn. rewrite bool_decide_true by done. cbn. rewrite Ev. cbn.
  apply vote_verify_Ok in Ev as (m & pr & Em & Ep & Ec & Hwf & _). apply vote_verify_Ok in Ew as (m2 & pr2 & Em2 & Ep2 & Ec2 & Hwf2 & Hsig & _).
  cbn in *. rewrite Em in Em2. injection Em2 as <-. rewrite Ep in Ep2. injection Ep2 as <-.
  assert (vote_verify ac (mkUnauthenticatedVote (mkRawVote aw r per s qw) (cred_Proof cv) gw) l = Ok (mkVote (mkRawVote aw r per s qw) cv gw)) as ->.
  { apply vote_verify_Ok. exists m, pr. cbn. split_and!; try done. }
  done.
Qed.

Section Arrival.
Context (arrival : list verifyRequest -> list verifyRequest).
Hypothesis arrival_perm : forall reqs, arrival reqs ≡ₚ reqs.

(** The bundle of an event convinces a verifier with the same ledger. *)
Lemma bundle_of_verifies H t p b vs es : vt_inv s C wt t -> tracked H t -> Forall verified H -> bundle_of proto s t p b vs es ->
  is_ok (bundle_verify ac arrival b l) = true /\ b = mkUnauthenticatedBundle r per s p (ub_Votes b) (ub_EquivocationVotes b) /\ ub_Votes b <> [].
Proof using arrival_perm ledger_proto in_committee s_pos C_small.
  intros HI HT HV [(v0 & Hv0 & Eb) Hvs Hes HN HW Hsz]. rewrite Forall_forall in HV.
  assert (forall v, v ∈ vs -> verified v /\ propOf v = p) as Fv.
  { intros v Hv. apply Hvs, votesFor_Some in Hv as [Hv ?]. apply (tr_voters H t HT) in Hv as [Hv _]. auto. }
  assert (forall e, e ∈ es -> exists v w, e = pairOfVotes v w /\ verified v /\ verified w /\ senderOf v = senderOf w /\ propOf v <> propOf w) as Fe.
  { intros e He. apply Hes, (tr_equiv H t HT) in He as (v & w & ? & ? & Ev & Ew & ? & ->). exists v, w. split_and!; auto; congruence. }
  destruct (Fv v0 Hv0) as [(_ & Hr & Hp & _) _]. rewrite Hr, Hp in Eb. rewrite Eb. cbn. split; [|split; [done|by intros ->%fmap_nil_inv; set_solver]].
  assert (bundleRequests b = (ReqVote ∘ vote_u <$> vs) ++
    ((λ e, ReqEqVote (mkUnauthenticatedEquivocationVote (ev_Sender e) r per s (cred_Proof (ev_Cred e)) (ev_Proposals e) (ev_Sigs e))) <$> es)) as Er.
  { rewrite Eb. unfold bundleRequests. cbn. rewrite <- !list_fmap_compose. f_equal. apply list_fmap_ext. intros i v Hv%list_elem_of_lookup_2.
    destruct (Fv v Hv) as [(_ & R1 & R2 & R3) R4]. unfold vote_u, propOf in *. cbn. destruct v as [[]]; cbn in *; congruence. }
  assert (forall v, v ∈ vs -> reqWeight ac l (ReqVote (vote_u v)) = Ok (weightOf v)) as Rv.
  { intros v Hv. cbn. by rewrite (verified_self v (proj1 (Fv v Hv))). }
  assert (forall e, e ∈ es -> reqWeight ac l (ReqEqVote (mkUnauthenticatedEquivocationVote (ev_Sender e) r per s (cred_Proof (ev_Cred e)) (ev_Proposals e) (ev_Sigs e)))
            = Ok (cred_Weight (ev_Cred e))) as Re.
  { intros e He. destruct (Fe e He) as (v & w & -> & Hv & Hw & Es & Hne). cbn [reqWeight]. by rewrite (pair_verifies v w Hv Hw Es Hne). }
  assert (sumZ (weightOr0 ac l) (bundleRequests b) = sumZ weightOf vs + sumZ (λ e, cred_Weight (ev_Cred e)) es) as Ew.
  { rewrite Er, sumZ_app, !sumZ_fmap. f_equal; apply sumZ_ext; [intros v Hv|intros e He]; unfold weightOr0; cbn [compose];
      [by rewrite (Rv v Hv)|by rewrite (Re e He)]. }
  assert (bundleSenders b = (senderOf <$> vs) ++ (ev_Sender <$> es)) as Esnd.
  { unfold bundleSenders. rewrite Er, fmap_app, <- !list_fmap_compose. done. }
  assert (0 <= sumZ weightOf vs + sumZ (λ e, cred_Weight (ev_Cred e)) es < 2 ^ 64) as Hle.
  { apply (bundle_of_weight proto s C wt) with t p b; [exact wt_nonneg|done|done|]. split; try done. exists v0. by rewrite Hr, Hp. }
  rewrite <- Eb. apply (bundle_complete ac l arrival arrival_perm b proto); rewrite ?Ew, ?Esnd; try done.
  - rewrite Eb. apply s_not_propose.
  - by rewrite Eb.
  - rewrite Er. apply Forall_app. split; apply Forall_fmap, Forall_forall; [intros v Hv|intros e He]; cbn [compose];
      [by rewrite (Rv v Hv)|by rewrite (Re e He)].
  - rewrite Eb. cbn. split; [done|lia].
  - lia.
  - rewrite Eb. cbn. unfold zlen in *. by rewrite !length_fmap.
Qed.

(** A quorum of the votes delivered, when equivocators are light. *)
Definition quorum H p : Prop := T <= wsum wt (supportersOf H p).

Lemma quorum_over H t p : vt_inv s C wt t -> tracked H t -> light proto s C wt (equivocators H) -> over proto s wt t p <-> quorum H p.
Proof using arrival_perm ledger_proto in_committee s_pos C_small.
  intros HI HT HL. unfold over, quorum. rewrite (tracked_supporters s C wt H t p HI HT). split; [by intros [_ ?]|]. intros HQ. split; [|done].
  intros E. assert (supportersOf H p = equivocators H) as E2.
  { rewrite <- (tracked_supporters s C wt H t p HI HT). unfold supporters. rewrite E, dom_empty_L, (tracked_equivocators s C wt H t HI HT). set_solver. }
  rewrite E2 in HQ. rewrite <- (tracked_equivocators s C wt H t HI HT) in HL, HQ.
  destruct (light_T proto s C wt wt_nonneg _ HL (equivocators_C s C wt t HI)). lia.
Qed.

(** A router of the step after the votes of [H]. *)
Record run_inv H (sr : stepRouter) : Prop := {
  ri_inv : vt_inv s C wt (sr_VoteTracker sr);
  ri_tracked : tracked H (sr_VoteTracker sr);
  ri_step : vtc_StepOk (sr_Contract sr) = true -> vtc_Step (sr_Contract sr) = s;
  ri_emitted : vtc_Emitted (sr_Contract sr) = true <-> exists p, over proto s wt (sr_VoteTracker sr) p
}.

Lemma run_inv_zero : run_inv [] stepRouter_zero.
Proof using in_committee s_pos C_small.
  split; [apply vt_inv_zero; auto using s_not_propose, wt_nonneg|by apply tracked_zero with (s := s) (C := C) (wt := wt); auto using s_not_propose, wt_nonneg|done|]. cbn. split; [done|]. intros (p & Hne & _). destruct Hne. apply map_filter_empty.
Qed.

(** A threshold event of the step, with a bundle that verifies. *)
Record goodEvent (e : thresholdEvent) : Prop := {
  ge_type : te_T e = stepThreshold s;
  ge_fields : te_Round e = r /\ te_Period e = per /\ te_Step e = s;
  ge_bundle : te_Bundle e = mkUnauthenticatedBundle r per s (te_Proposal e) (ub_Votes (te_Bundle e)) (ub_EquivocationVotes (te_Bundle e));
  ge_verifies : is_ok (bundle_verify ac arrival (te_Bundle e) l) = true
}.

Lemma vtc_pre_ok v c : rv_Step (v_R v) = s -> (vtc_StepOk c = true -> vtc_Step c = s) ->
  vtc_pre v c = Ok (mkVoteTrackerContract s true (vtc_Emitted c)).
Proof using s_pos.
  intros Hs Hc. unfold vtc_pre. rewrite Hs, (proj2 (Z.eqb_neq _ _) s_not_propose). cbn [orb]. destruct c as [st ok em]. cbn in *.
  destruct ok; [|done]. rewrite Hc by done. by rewrite Z.eqb_refl.
Qed.

Lemma vtc_post_none v c : vtc_post v thresholdEvent_zero c = Ok (mkVoteTrackerContract (vtc_Step c) (vtc_StepOk c) (vtc_Emitted c)).
Proof.
  unfold vtc_post. change (bool_decide (te_T thresholdEvent_zero <> none)) with false. cbn. by rewrite orb_false_r.
Qed.

Lemma stepThreshold_not_none : stepThreshold s <> none.
Proof. unfold stepThreshold. destruct (s =? soft), (s =? cert); discriminate. Qed.

Lemma vtc_post_threshold v c p b : rv_Step (v_R v) = s -> vtc_Emitted c = false -> (s = soft \/ s = cert -> p <> bottom) -> ub_Votes b <> [] ->
  vtc_post v (mkThresholdEvent (stepThreshold s) (rv_Round (v_R v)) (rv_Period (v_R v)) s p b) c =
  Ok (mkVoteTrackerContract (vtc_Step c) (vtc_StepOk c) true).
Proof using s_pos.
  intros Hs Hem Hbot Hvs. unfold vtc_post. cbn. rewrite Hs, Hem, (bool_decide_true (stepThreshold s <> none)) by apply stepThreshold_not_none.
  rewrite (bool_decide_false (ub_Votes b = [])) by done. unfold stepThreshold, soft, cert, next in *.
  destruct (Z.eqb_spec s 1) as [E1|]; [|destruct (Z.eqb_spec s 2) as [E2|]]; cbn.
  1-2: rewrite (bool_decide_true (p <> bottom)), (bool_decide_false (p = bottom)) by (try intros ?; by apply Hbot; auto); done.
  rewrite (proj2 (Z.ltb_lt 2 s)), (proj2 (Z.ltb_ge s 3)) by lia. by rewrite andb_false_r.
Qed.

Lemma run_step H sr v : run_inv H sr -> Forall verified (v :: H) -> light proto s C wt (equivocators (v :: H)) ->
  exists out sr', step_voteAccepted proto v sr = (Ok out, sr') /\ run_inv (v :: H) sr' /\
    ((te_T out = none /\ vtc_Emitted (sr_Contract sr') = vtc_Emitted (sr_Contract sr)) \/
     (goodEvent out /\ quorum (v :: H) (te_Proposal out) /\ vtc_Emitted (sr_Contract sr) = false /\ vtc_Emitted (sr_Contract sr') = true)).
Proof using arrival_perm ledger_proto in_committee s_pos C_small.
  intros [HI HT Hst Hem] HV HL. pose proof HV as [Hv HVH]%Forall_cons. destruct (verified_admissible v Hv) as [Hadm Hbot].
  destruct (vt_accept proto s C wt s_not_propose wt_nonneg C_small H (sr_VoteTracker sr) v HI HT Hadm HL) as (t' & out & E & HI' & HT' & Hmono & Hout).
  unfold step_voteAccepted. destruct Hv as (_ & Hr & Hp & Hs). rewrite vtc_pre_ok, E by done. cbn iota.
  inversion Hout as [Hno Eout|p b vs es Hno Ho Hb Eout]; subst out.
  - rewrite vtc_post_none. exists thresholdEvent_zero. eexists. split; [done|]. split; [|by left]. split; try done. cbn. rewrite Hem. split.
    + intros [p Hpo]. eauto.
    + intros [p Hpo]. destruct Hno as [?|Hno]; [done|]. by destruct (Hno p).
  - destruct (bundle_of_verifies (v :: H) t' p b vs es HI' HT' HV Hb) as (Hok & Eb & Hne).
    assert (vtc_Emitted (sr_Contract sr) = false) as Hfalse.
    { destruct (vtc_Emitted (sr_Contract sr)); [|done]. destruct Hem as [Hem _]. destruct (Hem eq_refl) as [q Hq]. by destruct (Hno q). }
    rewrite vtc_post_threshold; try done.
    2: { intros Hsc. destruct Ho as [Hvf _]. destruct (map_choose _ Hvf) as (a & w & Hw). apply votesFor_Some in Hw as [Hw <-].
         apply (tr_voters _ _ HT') in Hw as [Hw _]. rewrite Forall_forall in HV. by apply verified_admissible; [apply HV|]. }
    eexists _, _. split; [done|]. split.
    + split; try done. cbn. split; [by exists p|done].
    + right. split; [by split|]. split; [|done]. by apply (quorum_over _ t').
Qed.

(** Delivering [vs] after [H]. *)
Lemma deliver_run vs : forall H sr, run_inv H sr -> Forall verified (rev vs ++ H) -> light proto s C wt (equivocators (rev vs ++ H)) ->
  exists outs sr', deliver proto vs sr = (Ok outs, sr') /\ run_inv (rev vs ++ H) sr' /\
    ((events outs = [] /\ vtc_Emitted (sr_Contract sr') = vtc_Emitted (sr_Contract sr)) \/
     (exists e, events outs = [e] /\ goodEvent e /\ quorum (rev vs ++ H) (te_Proposal e) /\ vtc_Emitted (sr_Contract sr) = false /\
        vtc_Emitted (sr_Contract sr') = true)).
Proof using arrival_perm ledger_proto in_committee s_pos C_small.
  induction vs as [|v vs IH]; intros H sr HR HV HL.
  { exists [], sr. split; [done|]. split; [done|by left]. }
  cbn [rev] in *. rewrite <- app_assoc in *. cbn [app] in *. pose proof HV as [_ HVv]%Forall_app.
  assert (light proto s C wt (equivocators (v :: H))) as HLv.
  { eapply light_mono; [exact wt_nonneg| |exact HL]. apply equivocators_mono. intros w Hw. apply elem_of_app. by right. }
  destruct (run_step H sr v HR HVv HLv) as (out & sr1 & E1 & HR1 & D1).
  destruct (IH (v :: H) sr1 HR1 HV HL) as (outs & sr2 & E2 & HR2 & D2). exists (out :: outs), sr2. cbn [deliver].
  split; [unfold mbind, M_bind; by rewrite E1, E2|]. split; [done|]. unfold events in *. destruct D1 as [[En Em]|(Hg & Hq & Ef & Et)].
  - rewrite filter_cons_False by (rewrite En; auto). destruct D2 as [[-> ->]|(e & -> & Hge & Hqe & Ef & Et)]; [by left|].
    right. exists e. by rewrite Em in Ef.
  - rewrite filter_cons_True by (rewrite (ge_type out Hg); apply stepThreshold_not_none). right. exists out.
    destruct D2 as [[-> E]|(e & _ & _ & _ & Ef' & _)]; [|congruence]. split_and!; try done; [|congruence].
    unfold quorum in *. etrans; [exact Hq|]. apply wsum_subset; [exact wt_nonneg|]. apply supportersOf_mono. intros w Hw. apply elem_of_app. by right.
Qed.

Section Delivered.
Context (vs : list vote).
Hypothesis votes_verified : Forall verified vs.
Hypothesis equivocators_light : light proto s C wt (equivocators vs).

Lemma deliver_all : exists outs sr, deliver proto vs stepRouter_zero = (Ok outs, sr) /\ run_inv (rev vs) sr /\
  ((events outs = [] /\ forall p, ~ quorum vs p) \/
   (exists e, events outs = [e] /\ goodEvent e /\ quorum vs (te_Proposal e) /\ forall q, quorum vs q -> q = te_Proposal e)).
Proof using arrival_perm ledger_proto in_committee s_pos C_small votes_verified equivocators_light.
  destruct (deliver_run vs [] stepRouter_zero run_inv_zero) as (outs & sr & E & HR & D).
  { rewrite app_nil_r. by apply Forall_rev. }
  { by rewrite app_nil_r, equivocators_rev. }
  rewrite app_nil_r in *. exists outs, sr. split; [done|]. split; [done|].
  assert (forall p, over proto s wt (sr_VoteTracker sr) p <-> quorum vs p) as HQ.
  { intros p. unfold quorum. rewrite <- supportersOf_rev. apply quorum_over; [apply HR|apply HR|by rewrite equivocators_rev]. }
  destruct D as [[Ee Em]|(e & Ee & Hg & Hq & _ & Em)].
  - left. split; [done|]. intros p Hp%HQ. assert (vtc_Emitted (sr_Contract sr) = true) by (apply (ri_emitted _ _ HR); eauto). cbn in Em. congruence.
  - right. exists e. unfold quorum in Hq. rewrite supportersOf_rev in Hq. split_and!; try done. intros q Hq2. apply HQ in Hq2. apply HQ in Hq.
    apply (over_unique proto s C wt s_not_propose wt_nonneg C_small (sr_VoteTracker sr)); try done; [apply HR|].
    by rewrite (tracked_equivocators s C wt _ _ (ri_inv _ _ HR) (ri_tracked _ _ HR)), equivocators_rev.
Qed.
End Delivered.
End Arrival.

Context (vs : list vote).
Hypothesis votes_verified : Forall verified vs.
Hypothesis equivocators_light : light proto s C wt (equivocators vs).
Notation delivered arrival arrival_perm := (deliver_all arrival arrival_perm vs votes_verified equivocators_light).

(** C14: The step machine counts supporters.  Delivering verified votes of one step, in
    any order and with repeats, never trips a panic of the tracker or its contract
    while equivocators are too light for two quorums, and the weight the tracker then
    has for a value is that of the senders that voted for it or equivocated, each
    counted once. *)
Theorem tracker_counts : exists outs sr, deliver proto vs stepRouter_zero = (Ok outs, sr) /\
  forall p, vt_count (sr_VoteTracker sr) p = wsum wt (supportersOf vs p).
Proof using ledger_proto in_committee s_pos C_small votes_verified equivocators_light.
  destruct (delivered id (λ _, reflexivity _)) as (outs & sr & E & HR & _). exists outs, sr. split; [done|]. intros p.
  rewrite (vt_count_spec s C wt) by (apply HR || auto using s_not_propose, wt_nonneg).
  rewrite (tracked_supporters s C wt (rev vs)) by apply HR. by rewrite supportersOf_rev.
Qed.

(** A step emits one threshold event exactly when a value has a quorum.  If no value
    is supported by senders of threshold weight, no event was emitted; otherwise one
    event was, of the step's type, for the only such value. *)
Theorem tracker_threshold outs sr : deliver proto vs stepRouter_zero = (Ok outs, sr) ->
  (events outs = [] /\ forall p, wsum wt (supportersOf vs p) < T) \/
  exists e, events outs = [e] /\ te_T e = stepThreshold s /\ (te_Round e, te_Period e, te_Step e) = (r, per, s) /\
    forall p, T <= wsum wt (supportersOf vs p) <-> p = te_Proposal e.
Proof using ledger_proto in_committee s_pos C_small votes_verified equivocators_light.
  intros E. destruct (delivered id (λ _, reflexivity _)) as (outs' & sr' & E' & HR & D). rewrite E in E'. injection E' as <- <-.
  destruct D as [[? Hn]|(e & Ee & Hg & Hq & Hu)]; [left; split; [done|]; intros p; specialize (Hn p); unfold quorum in Hn; lia|].
  right. exists e. destruct (ge_fields _ e Hg) as (-> & -> & ->). split_and!; try done; [apply Hg|]. intros p. split; [apply Hu|intros ->; done].
Qed.

(** C15: The bundle of a threshold event convinces everybody.  A node with the same view
    of the ledger verifies it, whatever order its workers answer in, and it is a
    bundle for the event's round, period, step and value. *)
Theorem tracker_bundle_verifies arrival outs sr e : (forall reqs, arrival reqs ≡ₚ reqs) -> deliver proto vs stepRouter_zero = (Ok outs, sr) -> e ∈ events outs ->
  is_ok (bundle_verify ac arrival (te_Bundle e) l) = true /\
  (ub_Round (te_Bundle e), ub_Period (te_Bundle e), ub_Step (te_Bundle e), ub_Proposal (te_Bundle e)) = (r, per, s, te_Proposal e).
Proof using ledger_proto in_committee s_pos C_small votes_verified equivocators_light.
  intros Harr E Hin. destruct (delivered arrival Harr) as (outs' & sr' & E' & HR & D). rewrite E in E'. injection E' as <- <-.
  destruct D as [[Ee _]|(e' & Ee & Hg & _)]; rewrite Ee in Hin; [set_solver|]. apply list_elem_of_singleton in Hin as ->.
  split; [apply Hg|]. rewrite (ge_bundle _ e' Hg). done.
Qed.
End Run.

(** ** Four of five senders vote for one value, one of them for two *)
Module VoteTrackerWitness.
Import AgreementSpec.AgreementWitness.

Definition ballot (p a : Z) : unauthenticatedVote := mkUnauthenticatedVote (mkRawVote (addr a) 20 0 cert (value p)) [] (addr p).
Definition cast (p a : Z) : vote :=
  mkVote (uv_R (ballot p a)) (mkCredential 300 zero32 true (mkHashableCredential (replicate 64 0) (addr a) 0) []) (addr p).
Definition ballots : list (Z * Z) := [(1, 1); (2, 4); (1, 2); (1, 4); (1, 3); (1, 1)].
Definition votes : list vote := (λ '(p, a), cast p a) <$> ballots.
Definition run : list thresholdEvent * stepRouter :=
  match deliver v19 votes stepRouter_zero with (Ok outs, sr) => (outs, sr) | (_, sr) => ([], sr) end.

Lemma votes_verified : Forall (verified ac l 20 0 cert) votes.
Proof.
  unfold votes. apply Forall_fmap, Forall_forall. intros [p a] Hin. split; [|done]. exists (ballot p a). revert p a Hin.
  enough (Forall (λ '(p, a), vote_verify ac (ballot p a) l = Ok (cast p a)) ballots) as HF.
  { intros p a Hin. rewrite Forall_forall in HF. apply (HF (p, a) Hin). }
  repeat (apply Forall_cons; split; [vm_compute; reflexivity|]). by apply Forall_nil.
Defined.
Lemma equivocators_light : light v19 cert C wt (equivocators votes).
Proof. vm_compute. reflexivity. Qed.
Lemma C_small : wsum wt C < 2 ^ 64.
Proof. vm_compute. reflexivity. Qed.

Lemma tracker_counts_witness : exists outs sr, deliver v19 votes stepRouter_zero = (Ok outs, sr) /\
  forall p, vt_count (sr_VoteTracker sr) p = wsum wt (supportersOf votes p).
Proof.
  apply (tracker_counts ac l 20 0 cert v19 C wt).
  - done.
  - reflexivity.
  - apply committee_C.
  - apply C_small.
  - apply votes_verified.
  - apply equivocators_light.
Defined.

Lemma tracker_threshold_witness : (events run.1 = [] /\ forall p, wsum wt (supportersOf votes p) < threshold cert v19) \/
  exists e, events run.1 = [e] /\ te_T e = certThreshold /\ (te_Round e, te_Period e, te_Step e) = (20, 0, cert) /\
    forall p, threshold cert v19 <= wsum wt (supportersOf votes p) <-> p = te_Proposal e.
Proof.
  apply (tracker_threshold ac l 20 0 cert v19 C wt) with (sr := run.2).
  - done.
  - reflexivity.
  - apply committee_C.
  - apply C_small.
  - apply votes_verified.
  - apply equivocators_light.
  - vm_compute. reflexivity.
Defined.

Definition event : thresholdEvent := default thresholdEvent_zero (head (events run.1)).
Lemma tracker_bundle_verifies_witness : is_ok (bundle_verify ac (@rev _) (te_Bundle event) l) = true /\
  (ub_Round (te_Bundle event), ub_Period (te_Bundle event), ub_Step (te_Bundle event), ub_Proposal (te_Bundle event)) = (20, 0, cert, te_Proposal event).
Proof.
  apply (tracker_bundle_verifies ac l 20 0 cert v19 C wt) with (vs := votes) (outs := run.1) (sr := run.2).
  - done.
  - reflexivity.
  - apply committee_C.
  - apply C_small.
  - apply votes_verified.
  - apply equivocators_light.
  - intros reqs. symmetry. apply Permutation_rev.
  - vm_compute. reflexivity.
  - vm_compute. apply list_elem_of_here.
Defined.
End VoteTrackerWitness.
