(* ===== verification/ProposalTracker.v ===== *)
(** The proposal tracker of a period with its contract
    (src/agreement/{proposalTracker,proposalTrackerContract}.go).

    The tracker keeps the proposal-vote with the lowest credential until it is frozen,
    and the value of the period's soft threshold.  Each event of [handle] is a
    definition [pt_*]; its [ct_*] runs it under the contract, as
    [checkedListener.handle] does. *)

From S2P Require Import Prelude Config Basics Transactions Bookkeeping Agreement VoteTracker.

(** ** proposalSeeker *)

Definition Credential_zero : Credential := mkCredential 0 zero32 false (mkHashableCredential (replicate 64 0) zero32 0) (replicate 80 0).
Definition vote_zero : vote := mkVote (mkRawVote zero32 0 0 0 bottom) Credential_zero [].

Record proposalSeeker := mkProposalSeeker { ps_Lowest : vote; ps_Filled : bool; ps_Frozen : bool }.
Definition proposalSeeker_zero : proposalSeeker := mkProposalSeeker vote_zero false false.

Definition ps_accept (ac : AgreeCrypto) (s : proposalSeeker) (v : vote) : result proposalSeeker :=
  if ps_Frozen s then Err (Errorf "proposalSeeker.accept: seeker is already frozen")
  else if ps_Filled s && negb (Less ac (v_Cred v) (v_Cred (ps_Lowest s)))
  then Err (Errorf "proposalSeeker.accept: credential is not less than the lowest")
  else Ok (mkProposalSeeker v true (ps_Frozen s)).

Definition ps_freeze (s : proposalSeeker) : proposalSeeker := mkProposalSeeker (ps_Lowest s) (ps_Filled s) true.

(** ** proposalTracker *)

(** [Duplicate] is the set of senders mapped to true. *)
Record proposalTracker := mkProposalTracker {
  pt_Duplicate : gset Address;
  pt_Freezer : proposalSeeker;
  pt_Staging : proposalValue
}.
#[export] Instance proposalTracker_eta : Eta proposalTracker := λ r, mkProposalTracker (pt_Duplicate r) (pt_Freezer r) (pt_Staging r).
Definition proposalTracker_zero : proposalTracker := mkProposalTracker ∅ proposalSeeker_zero bottom.

(** The answer to a proposal-vote: accepted, or the error of a [voteFiltered] event. *)
Definition pt_voteVerified (ac : AgreeCrypto) (v : vote) (t : proposalTracker) : option error * proposalTracker :=
  if bool_decide (rv_Sender (v_R v) ∈ pt_Duplicate t)
  then (Some (Errorf "proposalTracker: filtered vote: sender had already sent a vote"), t)
  else
    let t := t <| pt_Duplicate ::= union {[rv_Sender (v_R v)]} |> in
    if bool_decide (pt_Staging t <> bottom) then (Some (Errorf "proposalTracker: value already staged"), t)
    else match ps_accept ac (pt_Freezer t) v with
         | Ok s => (None, t <| pt_Freezer := s |>)
         | Err e => (Some e, t)
         | Panic m => (Some (Errorf m), t)
         end.

Definition pt_voteFilterRequest (rv : rawVote) (t : proposalTracker) : bool := bool_decide (rv_Sender rv ∈ pt_Duplicate t).

Definition pt_proposalFrozen (t : proposalTracker) : proposalValue * proposalTracker :=
  (rv_Proposal (v_R (ps_Lowest (pt_Freezer t))), t <| pt_Freezer ::= ps_freeze |>).

Definition pt_softThreshold (te : thresholdEvent) (t : proposalTracker) : proposalTracker := t <| pt_Staging := te_Proposal te |>.

(** ** The contract *)

Record proposalTrackerContract := mkProposalTrackerContract {
  ptc_SawOneVote : bool;
  ptc_Froze : bool;
  ptc_SawSoftThreshold : bool;
  ptc_Expected : proposalValue
}.
#[export] Instance proposalTrackerContract_eta : Eta proposalTrackerContract := λ r,
  mkProposalTrackerContract (ptc_SawOneVote r) (ptc_Froze r) (ptc_SawSoftThreshold r) (ptc_Expected r).
Definition proposalTrackerContract_zero : proposalTrackerContract := mkProposalTrackerContract false false false bottom.

Definition ptc_pre_frozen (c : proposalTrackerContract) : result unit :=
  if ptc_Froze c then Panic "delivered proposalFrozen event twice" else Ok tt.
Definition ptc_pre_soft (te : thresholdEvent) (c : proposalTrackerContract) : result unit :=
  if ptc_SawSoftThreshold c || bool_decide (te_Proposal te = bottom)
  then Panic "proposalMachinePeriod: precondition violated" else Ok tt.

Definition ptc_post_vote (accepted : bool) (c : proposalTrackerContract) : result proposalTrackerContract :=
  if (negb (ptc_SawOneVote c) && negb (ptc_Froze c) && negb (ptc_SawSoftThreshold c) && negb accepted) ||
     ((ptc_Froze c || ptc_SawSoftThreshold c) && accepted)
  then Panic "proposalMachinePeriod: postcondition violated"
  else Ok (c <| ptc_SawOneVote := true |>).
Definition ptc_post_frozen (out : proposalValue) (c : proposalTrackerContract) : result proposalTrackerContract :=
  if negb (ptc_SawOneVote c) && bool_decide (out <> bottom) then Panic "proposalMachinePeriod: postcondition violated"
  else Ok (c <| ptc_Froze := true |> <| ptc_Expected := out |>).
Definition ptc_post_soft (out : proposalValue) (c : proposalTrackerContract) : proposalTrackerContract :=
  c <| ptc_SawSoftThreshold := true |> <| ptc_Expected := out |>.

(** A tracker and its contract, as a [periodRouter] holds them. *)
Record checkedTracker := mkCheckedTracker { ct_Tracker : proposalTracker; ct_Contract : proposalTrackerContract }.
Definition checkedTracker_zero : checkedTracker := mkCheckedTracker proposalTracker_zero proposalTrackerContract_zero.

(** [checkedListener.handle] of the tracker on each of its events. *)
Definition ct_voteVerified (ac : AgreeCrypto) (v : vote) : M checkedTracker (option error) := λ t,
  let '(out, tr) := pt_voteVerified ac v (ct_Tracker t) in
  match ptc_post_vote (bool_decide (out = None)) (ct_Contract t) with
  | Ok c => (Ok out, mkCheckedTracker tr c)
  | Err e => (Err e, mkCheckedTracker tr (ct_Contract t))
  | Panic m => (Panic m, mkCheckedTracker tr (ct_Contract t))
  end.
Definition ct_proposalFrozen : M checkedTracker proposalValue := λ t,
  match ptc_pre_frozen (ct_Contract t) with
  | Ok _ =>
    let '(out, tr) := pt_proposalFrozen (ct_Tracker t) in
    match ptc_post_frozen out (ct_Contract t) with
    | Ok c => (Ok out, mkCheckedTracker tr c)
    | Err e => (Err e, mkCheckedTracker tr (ct_Contract t))
    | Panic m => (Panic m, mkCheckedTracker tr (ct_Contract t))
    end
  | Err e => (Err e, t)
  | Panic m => (Panic m, t)
  end.
Definition ct_softThreshold (te : thresholdEvent) : M checkedTracker proposalValue := λ t,
  match ptc_pre_soft te (ct_Contract t) with
  | Ok _ => (Ok (te_Proposal te),
             mkCheckedTracker (pt_softThreshold te (ct_Tracker t)) (ptc_post_soft (te_Proposal te) (ct_Contract t)))
  | Err e => (Err e, t)
  | Panic m => (Panic m, t)
  end.
Definition ct_voteFilterRequest (rv : rawVote) : M checkedTracker bool := λ t, (Ok (pt_voteFilterRequest rv (ct_Tracker t)), t).
Definition ct_readStaging : M checkedTracker proposalValue := λ t, (Ok (pt_Staging (ct_Tracker t)), t).
