(* ===== verification/Router.v ===== *)
(** The tree of state machines of the agreement protocol and how events travel in it
    (src/agreement/{router,events,message,proposalTable,voteAuxiliary}.go).

    A router holds the machines of its level and its children by round, period or
    step; [dispatch] first updates the router, which creates the addressed child and
    collects old ones, and then runs a machine of its own level ([rootSelf],
    [roundSelf], [periodSelf]) or goes down to the child ([rootDispatch],
    [roundDispatch], [periodDispatch]).  A child that the update has just collected is
    a nil pointer, so going down to it panics.  A machine only dispatches through the
    router of its own level, so the state of the tree is passed down and up. *)

From S2P Require Import Prelude Config Basics Transactions Bookkeeping Eval Agreement VoteTracker ProposalTracker.

(** ** Messages (message.go, events.go) *)

Definition Block_zero : Block := mkBlock BlockHeader_zero [] [].
Definition unauthenticatedProposal_zero : unauthenticatedProposal := mkUnauthenticatedProposal Block_zero (replicate 80 0) 0 zero32.
Definition unauthenticatedVote_zero : unauthenticatedVote := mkUnauthenticatedVote (mkRawVote zero32 0 0 0 bottom) (replicate 80 0) [].
Definition bundle_zero : bundle := mkBundle unauthenticatedBundle_zero [] [].

Record compoundMessage := mkCompoundMessage { cm_Vote : unauthenticatedVote; cm_Proposal : unauthenticatedProposal }.
Definition compoundMessage_zero : compoundMessage := mkCompoundMessage unauthenticatedVote_zero unauthenticatedProposal_zero.

(** A [MessageHandle] is opaque: a number. *)
Record message := mkMessage {
  msg_MessageHandle : Z;
  msg_Tag : string;
  msg_Vote : vote;
  msg_Proposal : unauthenticatedProposal;
  msg_Bundle : bundle;
  msg_UnauthenticatedVote : unauthenticatedVote;
  msg_UnauthenticatedProposal : unauthenticatedProposal;
  msg_UnauthenticatedBundle : unauthenticatedBundle;
  msg_CompoundMessage : compoundMessage
}.
#[export] Instance message_eta : Eta message := λ r,
  mkMessage (msg_MessageHandle r) (msg_Tag r) (msg_Vote r) (msg_Proposal r) (msg_Bundle r) (msg_UnauthenticatedVote r)
    (msg_UnauthenticatedProposal r) (msg_UnauthenticatedBundle r) (msg_CompoundMessage r).
Definition message_zero : message :=
  mkMessage 0 "" vote_zero unauthenticatedProposal_zero bundle_zero unauthenticatedVote_zero unauthenticatedProposal_zero
    unauthenticatedBundle_zero compoundMessage_zero.

Record ConsensusVersionView := mkConsensusVersionView { cvv_Err : option error; cvv_Version : string }.

Inductive messageType := votePresent | voteVerified | payloadPresent | payloadVerified | bundlePresent | bundleVerified.
#[export] Instance messageType_eq_dec : EqDecision messageType.
Proof. solve_decision. Defined.

(** [Tail] is a pointer to another event. *)
Inductive messageEvent := mkMessageEvent {
  me_T : messageType;
  me_Input : message;
  me_Err : option error;
  me_TaskIndex : Z;
  me_Tail : option messageEvent;
  me_Cancelled : bool;
  me_Proto : ConsensusVersionView
}.

Record freshnessData := mkFreshnessData {
  fd_PlayerRound : Round;
  fd_PlayerPeriod : period;
  fd_PlayerStep : step;
  fd_PlayerLastConcluding : step
}.

(** ** proposalTable.go *)

Record proposalTable := mkProposalTable { tbl_Pending : gmap Z (option messageEvent); tbl_PendingNext : Z }.
Definition proposalTable_zero : proposalTable := mkProposalTable ∅ 0.

Definition tbl_push (e : option messageEvent) (t : proposalTable) : Z * proposalTable :=
  let n := wrapI64 (tbl_PendingNext t + 1) in (n, mkProposalTable (<[n := e]> (tbl_Pending t)) n).
Definition tbl_pop (taskIndex : Z) (t : proposalTable) : option messageEvent * proposalTable :=
  (mjoin (tbl_Pending t !! taskIndex), mkProposalTable (delete taskIndex (tbl_Pending t)) (tbl_PendingNext t)).

(** ** The player's state (player.go) *)

Record player := mkPlayer {
  pl_Round : Round;
  pl_Period : period;
  pl_Step : step;
  pl_LastConcluding : step;
  pl_Deadline : Z;
  pl_Napping : bool;
  pl_FastRecoveryDeadline : Z;
  pl_Pending : proposalTable
}.
#[export] Instance player_eta : Eta player := λ r,
  mkPlayer (pl_Round r) (pl_Period r) (pl_Step r) (pl_LastConcluding r) (pl_Deadline r) (pl_Napping r)
    (pl_FastRecoveryDeadline r) (pl_Pending r).

(** ** What machines answer (events.go) *)

Record proposalAcceptedEvent := mkProposalAcceptedEvent {
  pa_Round : Round;
  pa_Period : period;
  pa_Proposal : proposalValue;
  pa_Payload : unauthenticatedProposal;
  pa_PayloadOk : bool
}.
Record committableEvent := mkCommittableEvent { ce_Proposal : proposalValue; ce_Vote : vote }.
Inductive payloadType := payloadRejected | payloadPipelined | payloadAccepted.
Record payloadProcessedEvent := mkPayloadProcessedEvent {
  pp_T : payloadType;
  pp_Round : Round;
  pp_Period : period;
  pp_Pinned : bool;
  pp_Proposal : proposalValue;
  pp_UnauthenticatedPayload : unauthenticatedProposal;
  pp_Vote : vote;
  pp_Err : option error
}.
#[export] Instance payloadProcessedEvent_eta : Eta payloadProcessedEvent := λ r,
  mkPayloadProcessedEvent (pp_T r) (pp_Round r) (pp_Period r) (pp_Pinned r) (pp_Proposal r) (pp_UnauthenticatedPayload r)
    (pp_Vote r) (pp_Err r).
Definition rejected (err : option error) : payloadProcessedEvent :=
  mkPayloadProcessedEvent payloadRejected 0 0 false bottom unauthenticatedProposal_zero vote_zero err.
Inductive filteredType := voteFiltered | voteMalformed | bundleFiltered | bundleMalformed | payloadMalformed.

Inductive event :=
| EmptyEvent
| ThresholdEvent (te : thresholdEvent)
| FilteredEvent (T : filteredType) (err : option error)
| ProposalAcceptedEvent (e : proposalAcceptedEvent)
| CommittableEvent (e : committableEvent)
| PayloadProcessedEvent (e : payloadProcessedEvent).

Record stagingValueEvent := mkStagingValueEvent {
  sv_Round : Round;
  sv_Period : period;
  sv_Proposal : proposalValue;
  sv_Payload : unauthenticatedProposal;
  sv_Committable : bool
}.
Record pinnedValueEvent := mkPinnedValueEvent {
  pin_Round : Round;
  pin_Proposal : proposalValue;
  pin_Payload : unauthenticatedProposal;
  pin_PayloadOK : bool
}.
Record nextThresholdStatusEvent := mkNextThresholdStatusEvent { nts_Bottom : bool; nts_Proposal : proposalValue }.
Record freshestBundleEvent := mkFreshestBundleEvent { fb_Ok : bool; fb_Event : thresholdEvent }.

(** ** The data of the proposal store (proposalStore.go) *)

Record blockAssembler := mkBlockAssembler {
  ba_Pipeline : unauthenticatedProposal;
  ba_Filled : bool;
  ba_Payload : unauthenticatedProposal;
  ba_Assembled : bool;
  ba_Authenticators : list vote
}.
#[export] Instance blockAssembler_eta : Eta blockAssembler := λ r,
  mkBlockAssembler (ba_Pipeline r) (ba_Filled r) (ba_Payload r) (ba_Assembled r) (ba_Authenticators r).
Definition blockAssembler_zero : blockAssembler :=
  mkBlockAssembler unauthenticatedProposal_zero false unauthenticatedProposal_zero false [].

Record proposalStore := mkProposalStore {
  st_Relevant : gmap period proposalValue;
  st_Pinned : proposalValue;
  st_Assemblers : gmap proposalValue blockAssembler
}.
#[export] Instance proposalStore_eta : Eta proposalStore := λ r, mkProposalStore (st_Relevant r) (st_Pinned r) (st_Assemblers r).
Definition proposalStore_zero : proposalStore := mkProposalStore ∅ bottom ∅.

(** ** Routers (router.go) *)

Record voteTrackerRound := mkVoteTrackerRound { vtr_Freshest : thresholdEvent; vtr_Ok : bool }.

(** A [voteTrackerPeriod] is its [Cached] event. *)
Record periodRouter := mkPeriodRouter {
  pr_ProposalTracker : checkedTracker;
  pr_VoteTrackerPeriod : nextThresholdStatusEvent;
  pr_Children : gmap step stepRouter
}.
#[export] Instance periodRouter_eta : Eta periodRouter := λ r,
  mkPeriodRouter (pr_ProposalTracker r) (pr_VoteTrackerPeriod r) (pr_Children r).
Definition periodRouter_zero : periodRouter :=
  mkPeriodRouter checkedTracker_zero (mkNextThresholdStatusEvent false bottom) ∅.

Record roundRouter := mkRoundRouter {
  rr_ProposalStore : proposalStore;
  rr_VoteTrackerRound : voteTrackerRound;
  rr_Children : gmap period periodRouter
}.
#[export] Instance roundRouter_eta : Eta roundRouter := λ r,
  mkRoundRouter (rr_ProposalStore r) (rr_VoteTrackerRound r) (rr_Children r).
Definition roundRouter_zero : roundRouter :=
  mkRoundRouter proposalStore_zero (mkVoteTrackerRound thresholdEvent_zero false) ∅.

(** The proposal manager and the vote aggregator have no state. *)
Notation rootRouter := (gmap Round roundRouter) (only parsing).

(** [Children[k]], created if it is not there. *)
Definition ensureChild {V} (zero : V) (k : Z) (m : gmap Z V) : gmap Z V :=
  match m !! k with Some _ => m | None => <[k := zero]> m end.

Definition root_update (state : player) (r : Round) (router : rootRouter) : rootRouter :=
  filter (λ rc, pl_Round state <= rc.1) (ensureChild roundRouter_zero r router).
Definition round_update (state : player) (p : period) (router : roundRouter) : roundRouter :=
  router <| rr_Children ::= λ cs,
    filter (λ pc, pl_Period state <= wrap64 (pc.1 + 1) \/ pc.1 <= 1) (ensureChild periodRouter_zero p cs) |>.
Definition period_update (s : step) (router : periodRouter) : periodRouter :=
  router <| pr_Children ::= ensureChild stepRouter_zero s |>.

(** Run [m] on child [k] of a map; a missing child is a nil pointer. *)
Definition onChild {V A} (k : Z) (m : M V A) : M (gmap Z V) A := λ cs,
  match cs !! k with
  | None => (Panic "nil pointer dereference", cs)
  | Some c => let '(r, c) := m c in (r, <[k := c]> cs)
  end.

(** Run [m] on a part of the state. *)
Definition onPart {S T A} (getp : S -> T) (setp : T -> S -> S) (m : M T A) : M S A := λ s,
  let '(r, t) := m (getp s) in (r, setp t s).

Definition rootSelf {A} (state : player) (r : Round) (m : M rootRouter A) : M rootRouter A := λ router, m (root_update state r router).
Definition rootDispatch {A} (state : player) (r : Round) (m : M roundRouter A) : M rootRouter A := λ router,
  onChild r m (root_update state r router).

Definition roundSelf {A} (state : player) (p : period) (m : M roundRouter A) : M roundRouter A := λ router, m (round_update state p router).
Definition roundDispatch {A} (state : player) (p : period) (m : M periodRouter A) : M roundRouter A := λ router,
  onPart rr_Children (λ cs r, r <| rr_Children := cs |>) (onChild p m) (round_update state p router).

Definition periodSelf {A} (s : step) (m : M periodRouter A) : M periodRouter A := λ router, m (period_update s router).
Definition periodDispatch {A} (s : step) (m : M stepRouter A) : M periodRouter A := λ router,
  onPart pr_Children (λ cs r, r <| pr_Children := cs |>) (onChild s m) (period_update s router).

(** The proposal tracker of a period, addressed from its round. *)
Definition onTracker {A} (m : M checkedTracker A) : M periodRouter A :=
  onPart pr_ProposalTracker (λ t r, r <| pr_ProposalTracker := t |>) m.

(** ** Vote trackers of a period and of a round (voteAuxiliary.go) *)

(** A panicking match in the code. *)
Definition panic {S A} (msg : string) : M S A := λ s, (Panic msg, s).

Definition step_voteFilterRequest (rv : rawVote) : M stepRouter bool := λ sr, (Ok (vt_voteFilterRequest rv (sr_VoteTracker sr)), sr).
Definition step_dumpVotes : M stepRouter (list unauthenticatedVote) := λ sr, (Ok (vt_dumpVotes (sr_VoteTracker sr)), sr).

(** [config.Consensus[version]]; a missing version is the zero value. *)
Definition paramsOf (version : string) : ConsensusParams := default ConsensusParams_zero (Consensus !! version).

Definition vtp_nextThreshold (te : thresholdEvent) : M periodRouter unit := λ router,
  match te_T te with
  | nextThreshold =>
    (Ok tt, router <| pr_VoteTrackerPeriod ::= λ c,
              if bool_decide (te_Proposal te = bottom) then mkNextThresholdStatusEvent true (nts_Proposal c)
              else mkNextThresholdStatusEvent (nts_Bottom c) (te_Proposal te) |>)
  | _ => (Panic "voteTrackerPeriod: bad event type", router)
  end.

Definition vtp_voteAccepted (version : string) (v : vote) : M periodRouter thresholdEvent :=
  te ← periodDispatch (rv_Step (v_R v)) (step_voteAccepted (paramsOf version) v);
  _ ← (if bool_decide (te_T te <> none) && (next <=? te_Step te) then periodSelf 0 (vtp_nextThreshold te) else mret tt);
  mret te.

Definition vtp_nextThresholdStatus : M periodRouter nextThresholdStatusEvent := λ router, (Ok (pr_VoteTrackerPeriod router), router).

(** A threshold event is answered if it is the freshest so far. *)
Definition vtr_threshold (te : thresholdEvent) : M roundRouter (option thresholdEvent) := λ router,
  match fresherThan te (vtr_Freshest (rr_VoteTrackerRound router)) with
  | Ok true => (Ok (Some te), router <| rr_VoteTrackerRound := mkVoteTrackerRound te true |>)
  | Ok false => (Ok None, router)
  | Err e => (Err e, router)
  | Panic m => (Panic m, router)
  end.

Definition vtr_voteAccepted (state : player) (version : string) (v : vote) : M roundRouter (option thresholdEvent) :=
  te ← roundDispatch state (rv_Period (v_R v)) (periodSelf 0 (vtp_voteAccepted version v));
  if bool_decide (te_T te <> none) then roundSelf state 0 (vtr_threshold te) else mret None.

Definition vtr_freshestBundle : M roundRouter freshestBundleEvent := λ router,
  (Ok (mkFreshestBundleEvent (vtr_Ok (rr_VoteTrackerRound router)) (vtr_Freshest (rr_VoteTrackerRound router))), router).
