(* ===== verification/Machines.v ===== *)
(** The proposal store, the proposal manager and the vote aggregator
    (src/agreement/{proposalStore,proposalManager,proposalManagerContract,voteAggregator}.go).

    The store is a machine of the round's router: it answers from its own state and
    asks the trackers of its periods.  The manager and the aggregator are machines of
    the root without state.  The texts of errors that wrap others are shortened; timing
    records and logs are left out. *)

From S2P Require Import Prelude Config Basics Transactions Bookkeeping Eval Agreement VoteTracker ProposalTracker Router.

Section Machines.
Variable ac : AgreeCrypto.

(** ** Block assemblers *)

Definition ba_pipeline (a : blockAssembler) (p : unauthenticatedProposal) : blockAssembler * option error :=
  if ba_Assembled a then (a, Some (Errorf "blockAssembler.pipeline: already assembled"))
  else if ba_Filled a then (a, Some (Errorf "blockAssembler.pipeline: already filled"))
  else (a <| ba_Pipeline := p |> <| ba_Filled := true |>, None).
Definition ba_bind (a : blockAssembler) (p : unauthenticatedProposal) : blockAssembler * option error :=
  if ba_Assembled a then (a, Some (Errorf "blockAssembler.pipeline: already assembled"))
  else (a <| ba_Payload := p |> <| ba_Assembled := true |>, None).
Definition ba_authenticator (a : blockAssembler) (p : period) : vote :=
  default vote_zero (head (filter (λ v, rv_Period (v_R v) = p) (ba_Authenticators a))).
Definition ba_trim (a : blockAssembler) (p : period) : blockAssembler :=
  a <| ba_Authenticators ::= filter (λ v, p <= rv_Period (v_R v)) |>.

(** ** proposalStore *)

Definition assemblerOf (st : proposalStore) (pv : proposalValue) : blockAssembler := default blockAssembler_zero (st_Assemblers st !! pv).

Definition store_trim (p : player) (st : proposalStore) : proposalStore :=
  let kept := foldr (λ pv m, <[pv := ba_trim (assemblerOf st pv) (pl_Period p)]> m)
                (<[st_Pinned st := ba_trim (assemblerOf st (st_Pinned st)) (pl_Period p)]> ∅) (map_to_list (st_Relevant st)).*2 in
  st <| st_Assemblers := delete bottom kept |>.

Definition lastRelevant (st : proposalStore) (pv : proposalValue) : period * bool :=
  if bool_decide (st_Pinned st = pv) then (0, true)
  else (foldr Z.max 0 (map_to_list (st_Relevant st)).*1, false).

Definition getStore : M roundRouter proposalStore := λ router, (Ok (rr_ProposalStore router), router).
Definition modStore (f : proposalStore -> proposalStore) : M roundRouter unit := λ router,
  (Ok tt, router <| rr_ProposalStore ::= f |>).

(** The answer to [readStaging] for a period. *)
Definition store_readStaging (state : player) (r : Round) (per : period) : M roundRouter stagingValueEvent :=
  staging ← roundDispatch state per (periodSelf 0 (onTracker ct_readStaging));
  st ← getStore;
  let ea := assemblerOf st staging in
  mret (mkStagingValueEvent r per staging (ba_Payload ea) (ba_Assembled ea)).
(** [stagedValue] through the handle of the round. *)
Definition stagedValueHere (state : player) : M roundRouter stagingValueEvent :=
  roundSelf state (pl_Period state) (store_readStaging state (pl_Round state) (pl_Period state)).

Definition store_voteVerified (state : player) (v : vote) : M roundRouter event :=
  out ← roundDispatch state (rv_Period (v_R v)) (periodSelf 0 (onTracker (ct_voteVerified ac v)));
  match out with
  | Some e => mret (FilteredEvent voteFiltered (Some e))
  | None =>
    st ← getStore;
    let pv := rv_Proposal (v_R v) in
    let ea := (assemblerOf st pv) <| ba_Authenticators ::= λ vs, vs ++ [v] |> in
    _ ← modStore (λ st, store_trim state (st <| st_Assemblers ::= <[pv := ea]> |> <| st_Relevant ::= <[rv_Period (v_R v) := pv]> |>));
    mret (ProposalAcceptedEvent (mkProposalAcceptedEvent (rv_Round (v_R v)) (rv_Period (v_R v)) pv (ba_Payload ea) (ba_Assembled ea)))
  end.

Definition store_payloadPresent (state : player) (up : unauthenticatedProposal) : M roundRouter payloadProcessedEvent :=
  st ← getStore;
  let pv := up_value ac up in
  match st_Assemblers st !! pv with
  | None => mret (rejected (Some (Errorf "proposalStore: no accepting blockAssembler found on payloadPresent")))
  | Some ea =>
    let '(ea', err) := ba_pipeline ea up in
    _ ← modStore (λ st, st <| st_Assemblers ::= <[pv := ea']> |>);
    match err with
    | Some e => mret (rejected (Some e))
    | None =>
      let '(relevantPeriod, pinned) := lastRelevant st pv in
      mret (mkPayloadProcessedEvent payloadPipelined 0 relevantPeriod pinned pv up (ba_authenticator ea (pl_Period state)) None)
    end
  end.

Definition store_payloadVerified (state : player) (pp : unauthenticatedProposal) : M roundRouter event :=
  st ← getStore;
  let pv := up_value ac pp in
  match st_Assemblers st !! pv with
  | None => mret (PayloadProcessedEvent (rejected (Some (Errorf "proposalStore: no accepting blockAssembler found on payloadVerified"))))
  | Some ea =>
    let '(ea', err) := ba_bind ea pp in
    _ ← modStore (λ st, st <| st_Assemblers ::= <[pv := ea']> |>);
    match err with
    | Some e => mret (PayloadProcessedEvent (rejected (Some e)))
    | None =>
      a ← stagedValueHere state;
      let authVote := ba_authenticator ea (pl_Period state) in
      if bool_decide (sv_Proposal a = pv) then mret (CommittableEvent (mkCommittableEvent pv authVote))
      else mret (PayloadProcessedEvent (mkPayloadProcessedEvent payloadAccepted 0 0 false pv unauthenticatedProposal_zero authVote None))
    end
  end.

(** Called before the player's period changes. *)
Definition store_newPeriod (state : player) (per : period) (starting : proposalValue) : M roundRouter unit :=
  staged ← stagedValueHere state;
  modStore (λ st,
    let st := if bool_decide (starting <> bottom) then st <| st_Pinned := starting |>
              else if bool_decide (sv_Proposal staged <> bottom) then st <| st_Pinned := sv_Proposal staged |>
              else st in
    store_trim state (st <| st_Relevant ::= filter (λ pv, ~ wrap64 (pv.1 + 1) < per) |>)).

Definition store_newRound (state : player) : M roundRouter event :=
  st ← getStore;
  match map_to_list (st_Assemblers st) with
  | _ :: _ :: _ => panic "too many assemblers"
  | [(pv, ea)] =>
    if ba_Filled ea then
      let '(relevantPeriod, pinned) := lastRelevant st pv in
      mret (PayloadProcessedEvent (mkPayloadProcessedEvent payloadPipelined 0 relevantPeriod pinned pv (ba_Pipeline ea)
              (ba_authenticator ea (pl_Period state)) None))
    else mret EmptyEvent
  | [] => mret EmptyEvent
  end.

Definition store_softThreshold (state : player) (te : thresholdEvent) : M roundRouter event :=
  pv ← roundDispatch state (te_Period te) (periodSelf 0 (onTracker (ct_softThreshold te)));
  st ← getStore;
  let ea := assemblerOf st pv in
  if ba_Assembled ea then mret (CommittableEvent (mkCommittableEvent pv (ba_authenticator ea (pl_Period state))))
  else
    _ ← modStore (λ st, store_trim state (st <| st_Assemblers ::= <[pv := ea]> |> <| st_Relevant ::= <[te_Period te := pv]> |>));
    mret (ProposalAcceptedEvent (mkProposalAcceptedEvent (te_Round te) (te_Period te) pv (ba_Payload ea) (ba_Assembled ea))).

Definition store_readPinned (r : Round) : M roundRouter pinnedValueEvent :=
  st ← getStore;
  let ea := assemblerOf st (st_Pinned st) in
  mret (mkPinnedValueEvent r (st_Pinned st) (ba_Payload ea) (ba_Assembled ea)).

(** [stagedValue] and [pinnedValue] through the handle of the root. *)
Definition stagedValue (state : player) (r : Round) (per : period) : M rootRouter stagingValueEvent :=
  rootDispatch state r (roundSelf state per (store_readStaging state r per)).
Definition pinnedValue (state : player) (r : Round) : M rootRouter pinnedValueEvent :=
  rootDispatch state r (roundSelf state 0 (store_readPinned r)).

(** ** proposalManager *)

Definition proposalFresh (fd : freshnessData) (uv : unauthenticatedVote) : result unit :=
  let r := rv_Round (uv_R uv) in let per := rv_Period (uv_R uv) in
  if r =? fd_PlayerRound fd then
    _ ← guardR (negb (negb (fd_PlayerPeriod fd =? 0) && (per <? fd_PlayerPeriod fd - 1))) (Errorf "filtered stale proposal");
    guardR (negb (wrap64 (fd_PlayerPeriod fd + 1) <? per)) (Errorf "filtered premature proposal")
  else if r =? wrap64 (fd_PlayerRound fd + 1) then guardR (per =? 0) (Errorf "filtered premature proposal from next round")
  else Err (Errorf "filtered proposal from bad round").

(** The errors of [filterProposalVote]. *)
Definition filterProposalVote (state : player) (uv : unauthenticatedVote) (fd : freshnessData) : M rootRouter (option error) :=
  match proposalFresh fd uv with
  | Ok _ =>
    sawVote ← rootDispatch state (rv_Round (uv_R uv)) (roundDispatch state (rv_Period (uv_R uv))
                (periodSelf 0 (onTracker (ct_voteFilterRequest (uv_R uv)))));
    mret (match sawVote with
          | true => Some (Errorf "proposalManager: filtered proposal-vote: sender had already sent a vote")
          | false => None
          end)
  | Err e => mret (Some e)
  | Panic msg => panic msg
  end.

Definition pm_handleMessageEvent (state : player) (e : messageEvent) (fd : freshnessData) : M rootRouter event :=
  match me_T e with
  | votePresent =>
    err ← filterProposalVote state (msg_UnauthenticatedVote (me_Input e)) fd;
    mret (match err with Some _ => FilteredEvent voteFiltered err | None => EmptyEvent end)
  | voteVerified =>
    if me_Cancelled e then mret (FilteredEvent voteFiltered (me_Err e))
    else match me_Err e with
         | Some _ => mret (FilteredEvent voteMalformed (me_Err e))
         | None =>
           let v := msg_Vote (me_Input e) in
           match proposalFresh fd (vote_u v) with
           | Ok _ => rootDispatch state (rv_Round (v_R v)) (roundSelf state (rv_Period (v_R v)) (store_voteVerified state v))
           | Err err => mret (FilteredEvent voteFiltered (Some err))
           | Panic msg => panic msg
           end
         end
  | payloadPresent =>
    let up := msg_UnauthenticatedProposal (me_Input e) in
    if bool_decide (pl_Round state = bh_Round (blk_BlockHeader (up_Block up))) then
      ep ← rootDispatch state (pl_Round state) (roundSelf state (pl_Period state) (store_payloadPresent state up));
      mret (PayloadProcessedEvent (match pp_T ep with payloadRejected => ep | _ => ep <| pp_Round := pl_Round state |> end))
    else
      let next := wrap64 (pl_Round state + 1) in
      ep ← rootDispatch state next (roundSelf state 0 (store_payloadPresent state up));
      mret (PayloadProcessedEvent (match pp_T ep with payloadRejected => ep | _ => ep <| pp_Round := next |> end))
  | _ =>
    if me_Cancelled e then mret (PayloadProcessedEvent (rejected (me_Err e)))
    else match me_Err e with
         | Some _ => mret (FilteredEvent payloadMalformed (me_Err e))
         | None => rootDispatch state (pl_Round state) (roundSelf state (pl_Period state) (store_payloadVerified state (msg_Proposal (me_Input e))))
         end
  end.

Definition pm_handleNewRound (state : player) (r : Round) : M rootRouter event :=
  rootDispatch state r (roundSelf state 0 (store_newRound state)).

Definition pm_handleNewPeriod (state : player) (te : thresholdEvent) : M rootRouter unit :=
  let target := if bool_decide (te_T te = nextThreshold) then wrap64 (te_Period te + 1) else te_Period te in
  rootDispatch state (te_Round te) (roundSelf state 0 (store_newPeriod state target (te_Proposal te))).

(** The contract of the manager on a threshold event. *)
Definition pmc_pre (state : player) (te : thresholdEvent) : bool :=
  (pl_Round state =? te_Round te) &&
  (bool_decide (te_T te = certThreshold) || negb (te_Period te <? pl_Period state)) &&
  negb (bool_decide (te_T te = softThreshold) && bool_decide (te_Proposal te = bottom)).

Definition pm_threshold (state : player) (te : thresholdEvent) : M rootRouter event :=
  if negb (pmc_pre state te) then panic "proposalMachine: precondition violated"
  else match te_T te with
       | certThreshold => pm_handleNewRound state (wrap64 (te_Round te + 1))
       | softThreshold =>
         _ ← (if pl_Period state <? te_Period te then pm_handleNewPeriod state te else mret tt);
         rootDispatch state (te_Round te) (roundSelf state (te_Period te) (store_softThreshold state te))
       | nextThreshold => _ ← pm_handleNewPeriod state te; mret EmptyEvent
       | none => panic "proposalManager: bad event type"
       end.

(** ** voteAggregator *)

(** [proto] is the version of the vote's round. *)
Definition voteStepFresh (proto : string) (mine voteStep : step) : result unit :=
  if voteStep <=? next then Ok tt
  else if cp_FastPartitionRecovery (paramsOf proto) && (late <=? voteStep) then Ok tt
  else if negb (mine =? 0) && (voteStep <? mine - 1) then Err (Errorf "filtered stale vote")
  else if wrap64 (mine + 1) <? voteStep then Err (Errorf "filtered premature vote")
  else Ok tt.

Definition voteFresh (proto : string) (fd : freshnessData) (uv : unauthenticatedVote) : result unit :=
  let r := rv_Round (uv_R uv) in let per := rv_Period (uv_R uv) in let s := rv_Step (uv_R uv) in
  let bad := Err (Errorf "filtered vote from bad period") in
  if negb (fd_PlayerRound fd =? r) && negb (wrap64 (fd_PlayerRound fd + 1) =? r) then Err (Errorf "filtered vote from bad round")
  else if wrap64 (fd_PlayerRound fd + 1) =? r then
    if 0 <? per then Err (Errorf "filtered future vote from bad period") else voteStepFresh proto 0 s
  else if per =? wrap64 (fd_PlayerPeriod fd - 1) then
    if negb (fd_PlayerPeriod fd =? 0) then voteStepFresh proto (fd_PlayerLastConcluding fd) s else bad
  else if per =? fd_PlayerPeriod fd then voteStepFresh proto (fd_PlayerStep fd) s
  else if per =? wrap64 (fd_PlayerPeriod fd + 1) then voteStepFresh proto soft s
  else bad.

Definition bundleFresh (fd : freshnessData) (b : unauthenticatedBundle) : result unit :=
  _ ← guardR (fd_PlayerRound fd =? ub_Round b) (Errorf "filtered bundle from different round");
  guardR (negb (negb (fd_PlayerPeriod fd =? 0) && (ub_Period b <? fd_PlayerPeriod fd - 1))) (Errorf "filtered stale bundle").

Definition filterVote (proto : string) (state : player) (uv : unauthenticatedVote) (fd : freshnessData) : M rootRouter (option error) :=
  match voteFresh proto fd uv with
  | Ok _ =>
    let rv := uv_R uv in
    filtered ← rootDispatch state (rv_Round rv) (roundDispatch state (rv_Period rv) (periodDispatch (rv_Step rv) (step_voteFilterRequest rv)));
    mret (match filtered with
          | true => Some (Errorf "voteAggregator: rejected vote: sender had already sent a vote")
          | false => None
          end)
  | Err e => mret (Some e)
  | Panic msg => panic msg
  end.

Definition agg_voteAccepted (state : player) (version : string) (v : vote) : M rootRouter (option thresholdEvent) :=
  rootDispatch state (rv_Round (v_R v)) (roundSelf state (rv_Period (v_R v)) (vtr_voteAccepted state version v)).

(** The votes of a bundle, pairs in both halves. *)
Definition bundleVotes (b : bundle) : list vote := b_Votes b ++ concat ((λ pair, [pair_v0 pair; pair_v1 pair]) <$> b_EquivocationVotes b).

(** Every vote is delivered; the last threshold event is kept. *)
Fixpoint agg_deliver (state : player) (version : string) (votes : list vote) (thresh : option thresholdEvent) : M rootRouter (option thresholdEvent) :=
  match votes with
  | [] => mret thresh
  | v :: votes => out ← agg_voteAccepted state version v;
                  agg_deliver state version votes (match out with Some te => Some te | None => thresh end)
  end.

Definition agg_handle (state : player) (e : messageEvent) (fd : freshnessData) : M rootRouter event :=
  let proto := me_Proto e in
  match me_T e with
  | votePresent =>
    match cvv_Err proto with
    | Some _ => mret (FilteredEvent voteFiltered (cvv_Err proto))
    | None =>
      err ← filterVote (cvv_Version proto) state (msg_UnauthenticatedVote (me_Input e)) fd;
      mret (match err with Some _ => FilteredEvent voteFiltered err | None => EmptyEvent end)
    end
  | voteVerified =>
    if me_Cancelled e then mret (FilteredEvent voteFiltered (me_Err e))
    else match cvv_Err proto, me_Err e with
         | Some _, _ => mret (FilteredEvent voteFiltered (me_Err e))
         | None, Some _ => mret (FilteredEvent voteMalformed (me_Err e))
         | None, None =>
           let v := msg_Vote (me_Input e) in
           err ← filterVote (cvv_Version proto) state (vote_u v) fd;
           match err with
           | Some _ => mret (FilteredEvent voteFiltered err)
           | None =>
             tE ← agg_voteAccepted state (cvv_Version proto) v;
             match tE with
             | None => mret EmptyEvent
             | Some te => if te_Round te =? fd_PlayerRound fd then mret (ThresholdEvent te)
                          else if te_Round te =? wrap64 (fd_PlayerRound fd + 1) then mret EmptyEvent
                          else panic "bad round"
             end
           end
         end
  | bundlePresent =>
    match bundleFresh fd (msg_UnauthenticatedBundle (me_Input e)) with
    | Ok _ => mret EmptyEvent
    | Err err => mret (FilteredEvent bundleFiltered (Some err))
    | Panic msg => panic msg
    end
  | bundleVerified =>
    if me_Cancelled e then mret (FilteredEvent bundleFiltered (me_Err e))
    else match cvv_Err proto, me_Err e with
         | Some _, _ => mret (FilteredEvent bundleFiltered (me_Err e))
         | None, Some _ => mret (FilteredEvent bundleMalformed (me_Err e))
         | None, None =>
           let b := msg_Bundle (me_Input e) in
           match bundleFresh fd (b_U b) with
           | Ok _ =>
             thresh ← agg_deliver state (cvv_Version proto) (bundleVotes b) None;
             mret (match thresh with
                   | Some te => ThresholdEvent te
                   | None => FilteredEvent bundleFiltered (Some (Errorf "bundle failed to cause a significant state change"))
                   end)
           | Err err => mret (FilteredEvent bundleFiltered (Some err))
           | Panic msg => panic msg
           end
         end
  | _ => panic "voteAggregator: bad event type"
  end.
End Machines.
