(* ===== verification/RouterSpec.v ===== *)
(** What the tree of machines keeps while events travel in it.

    [Keeps R m] says that the action [m] relates the states before and after it by [R]
    whenever it returns.  For the preorders [padv], [radv] and [adv] of periods, rounds
    and the root it composes along binds and dispatches.  They say that a staging value,
    once set, stays: the tracker's contract admits one soft threshold, and collecting
    old children spares the player's current period. *)

From S2P Require Import Prelude Config Basics Transactions Bookkeeping Eval Agreement VoteTracker ProposalTracker Router Machines.

(** ** Actions that keep a relation *)

Definition Keeps {S A} (R : S -> S -> Prop) (m : M S A) : Prop := forall s a s', m s = (Ok a, s') -> R s s'.

Section Keeps.
Context {S : Type} (R : S -> S -> Prop) `{!PreOrder R}.

Lemma Keeps_ret {A} (a : A) : Keeps R (mret a).
Proof. intros s b s' [= <- <-]. reflexivity. Qed.
Lemma Keeps_bind {A B} (m : M S A) (f : A -> M S B) : Keeps R m -> (forall a, Keeps R (f a)) -> Keeps R (m ≫= f).
Proof. intros Hm Hf s b s' (a & s1 & E1 & E2)%M_bind_Ok. etrans; [by eapply Hm|by eapply Hf]. Qed.
Lemma Keeps_panic {A} msg : Keeps R (A := A) (panic msg).
Proof. intros s a s' E. discriminate E. Qed.
Lemma Keeps_read {A} (f : S -> result A) : Keeps R (λ s, (f s, s)).
Proof. intros s a s' E. injection E as _ <-. reflexivity. Qed.
End Keeps.

Create HintDb keeps.
#[export] Hint Resolve Keeps_panic Keeps_read : keeps.
#[export] Hint Extern 0 (PreOrder _) => apply _ : keeps.
Ltac keeps_step :=
  match goal with
  | |- Keeps _ (_ ≫= _) => apply Keeps_bind; [apply _| |intros ?]
  | |- Keeps _ (mret _) => apply Keeps_ret; apply _
  | |- Keeps _ (match ?x with _ => _ end) => destruct x
  | |- Keeps _ _ => solve [eauto with keeps]
  end.
Ltac keeps := repeat keeps_step.

(** ** Periods *)

Notation tracker_of pr := (ct_Tracker (pr_ProposalTracker pr)) (only parsing).
Definition staging (pr : periodRouter) : proposalValue := pt_Staging (tracker_of pr).
(** A staged value came with the one soft threshold that the contract lets through. *)
Definition tr_ok (pr : periodRouter) : Prop :=
  staging pr <> bottom -> ptc_SawSoftThreshold (ct_Contract (pr_ProposalTracker pr)) = true.

Definition padv (pr pr' : periodRouter) : Prop :=
  tr_ok pr -> tr_ok pr' /\ (staging pr <> bottom -> staging pr' = staging pr).
#[export] Instance padv_preorder : PreOrder padv.
Proof.
  split; [by intros pr|]. intros a b c Hab Hbc Ha. destruct (Hab Ha) as [Hb E1]. destruct (Hbc Hb) as [Hc E2].
  split; [done|]. intros Hne. rewrite E2, E1; [done..|]. by rewrite E1.
Qed.

(** Leaving the tracker alone is enough. *)
Lemma padv_same pr pr' : pr_ProposalTracker pr' = pr_ProposalTracker pr -> padv pr pr'.
Proof. unfold padv, tr_ok, staging. by intros ->. Qed.

Lemma Keeps_periodSelf {A} s (m : M periodRouter A) : Keeps padv m -> Keeps padv (periodSelf s m).
Proof. intros Hm pr a pr' E. etrans; [|by eapply Hm]. by apply padv_same. Qed.
Lemma Keeps_periodDispatch {A} s (m : M stepRouter A) : Keeps padv (periodDispatch s m).
Proof.
  intros pr a pr' E. apply padv_same. unfold periodDispatch, onPart in E. destruct (onChild _ _ _) as [r cs]. injection E as _ <-. done.
Qed.

Definition ctadv (t t' : checkedTracker) : Prop :=
  (pt_Staging (ct_Tracker t) <> bottom -> ptc_SawSoftThreshold (ct_Contract t) = true) ->
  (pt_Staging (ct_Tracker t') <> bottom -> ptc_SawSoftThreshold (ct_Contract t') = true) /\
  (pt_Staging (ct_Tracker t) <> bottom -> pt_Staging (ct_Tracker t') = pt_Staging (ct_Tracker t)).
Lemma Keeps_onTracker {A} (m : M checkedTracker A) : Keeps ctadv m -> Keeps padv (onTracker m).
Proof.
  intros Hm pr a pr' E. unfold onTracker, onPart in E. destruct (m _) as [r t] eqn:Em. injection E as -> <-.
  apply (Hm _ _ _ Em).
Qed.

Lemma ctadv_same t t' : pt_Staging (ct_Tracker t') = pt_Staging (ct_Tracker t) ->
  ptc_SawSoftThreshold (ct_Contract t') = ptc_SawSoftThreshold (ct_Contract t) -> ctadv t t'.
Proof. unfold ctadv. by intros -> ->. Qed.

Lemma Keeps_ct_voteVerified ac v : Keeps ctadv (ct_voteVerified ac v).
Proof.
  intros t out t' E. unfold ct_voteVerified in E. destruct (pt_voteVerified ac v (ct_Tracker t)) as [o tr] eqn:Ev.
  destruct (ptc_post_vote _ _) as [c| |] eqn:Ec; try done. injection E as _ <-. apply ctadv_same; cbn.
  - unfold pt_voteVerified in Ev. repeat (case_match; try (injection Ev as <- <-; done)).
  - unfold ptc_post_vote in Ec. case_match; [done|]. by injection Ec as <-.
Qed.
Lemma Keeps_ct_proposalFrozen : Keeps ctadv ct_proposalFrozen.
Proof.
  intros t out t' E. unfold ct_proposalFrozen in E. destruct (ptc_pre_frozen _); try done. cbn in E.
  destruct (ptc_post_frozen _ _) as [c| |] eqn:Ec; try done. injection E as _ <-. apply ctadv_same; [done|]. cbn.
  unfold ptc_post_frozen in Ec. case_match; [done|]. by injection Ec as <-.
Qed.
Lemma Keeps_ct_softThreshold te : Keeps ctadv (ct_softThreshold te).
Proof.
  intros t out t' E. unfold ct_softThreshold, ptc_pre_soft in E. destruct (ptc_SawSoftThreshold (ct_Contract t)) eqn:Es; [done|].
  cbn [orb] in E. case_bool_decide; [done|]. injection E as _ <-. intros Hok. split; [done|]. intros Hne. by rewrite Hok in Es.
Qed.
Lemma Keeps_ct_read {A} (f : checkedTracker -> result A) : Keeps ctadv (λ t, (f t, t)).
Proof. intros t a t' E. injection E as _ <-. by apply ctadv_same. Qed.

#[export] Hint Resolve Keeps_periodSelf Keeps_periodDispatch Keeps_onTracker Keeps_ct_voteVerified Keeps_ct_proposalFrozen
  Keeps_ct_softThreshold Keeps_ct_read : keeps.

Lemma Keeps_vtp_nextThreshold te : Keeps padv (vtp_nextThreshold te).
Proof. intros pr a pr' E. unfold vtp_nextThreshold in E. case_match; try done. injection E as _ <-. by apply padv_same. Qed.
#[export] Hint Resolve Keeps_vtp_nextThreshold : keeps.
Lemma Keeps_vtp_voteAccepted version v : Keeps padv (vtp_voteAccepted version v).
Proof. unfold vtp_voteAccepted. keeps. Qed.
#[export] Hint Resolve Keeps_vtp_voteAccepted : keeps.

(** ** Rounds *)

(** Periods far enough from the largest uint64. *)
Definition per_ok (per : period) : Prop := 0 <= per < 2 ^ 64 - 2.

Section Rounds.
Context (ac : AgreeCrypto) (p : player).
Hypothesis p_small : 0 <= pl_Period p /\ pl_Period p + 1 < 2 ^ 64.

(** The payload of an assembled proposal has the value it is stored under. *)
Definition ea_ok (pv : proposalValue) (ea : blockAssembler) : Prop := ba_Assembled ea = true -> up_value ac (ba_Payload ea) = pv.
Definition store_ok (st : proposalStore) : Prop := map_Forall ea_ok (st_Assemblers st) /\ st_Assemblers st !! bottom = None.
Definition rr_ok (rr : roundRouter) : Prop :=
  map_Forall (λ _, tr_ok) (rr_Children rr) /\ store_ok (rr_ProposalStore rr) /\ per_ok (te_Period (vtr_Freshest (rr_VoteTrackerRound rr))).
Definition stageIn (rr : roundRouter) (per : period) : proposalValue := default bottom (staging <$> rr_Children rr !! per).

Definition radv (rr rr' : roundRouter) : Prop :=
  rr_ok rr -> rr_ok rr' /\ (stageIn rr (pl_Period p) <> bottom -> stageIn rr' (pl_Period p) = stageIn rr (pl_Period p)).
#[export] Instance radv_preorder : PreOrder radv.
Proof using Type.
  split; [by intros rr|]. intros a b c Hab Hbc Ha. destruct (Hab Ha) as [Hb E1]. destruct (Hbc Hb) as [Hc E2].
  split; [done|]. intros Hne. rewrite E2, E1; [done..|]. by rewrite E1.
Qed.

(** The update of a router: its children are those kept, or new. *)
Lemma round_update_child per rr k c : rr_Children (round_update p per rr) !! k = Some c ->
  rr_Children rr !! k = Some c \/ c = periodRouter_zero.
Proof using Type.
  unfold round_update, ensureChild. cbn. intros [Hk _]%map_lookup_filter_Some. destruct (rr_Children rr !! per) eqn:Ep; [by left|].
  apply lookup_insert_Some in Hk as [[<- <-]|[_ ?]]; auto.
Qed.
Lemma round_update_current per rr : rr_Children rr !! pl_Period p <> None ->
  rr_Children (round_update p per rr) !! pl_Period p = rr_Children rr !! pl_Period p.
Proof using p_small.
  intros Hne. destruct (rr_Children rr !! pl_Period p) as [c|] eqn:Ec; [|done]. unfold round_update, ensureChild. cbn.
  apply map_lookup_filter_Some. split; [|cbn; rewrite wrap64_small by (unfold u64; lia); lia].
  destruct (rr_Children rr !! per) eqn:Ep; [done|]. rewrite lookup_insert_ne; [done|]. congruence.
Qed.
Lemma tr_ok_zero : tr_ok periodRouter_zero.
Proof using Type. intros H. by destruct H. Qed.

Lemma radv_update per rr : radv rr (round_update p per rr).
Proof using p_small.
  intros (HC & HS & HF). split.
  - split; [|done]. intros k c [Hk| ->]%round_update_child; [by apply (HC k)|apply tr_ok_zero].
  - intros Hne. unfold stageIn. rewrite round_update_current; [done|]. intros E. unfold stageIn in Hne. by rewrite E in Hne.
Qed.

Lemma Keeps_roundSelf {A} per (m : M roundRouter A) : Keeps radv m -> Keeps radv (roundSelf p per m).
Proof using p_small. intros Hm rr a rr' E. etrans; [apply (radv_update per)|by eapply Hm]. Qed.

(** Going down to a period. *)
Lemma roundDispatch_Ok {A} per (m : M periodRouter A) rr a rr' : roundDispatch p per m rr = (Ok a, rr') ->
  exists c c', rr_Children (round_update p per rr) !! per = Some c /\ m c = (Ok a, c') /\
    rr' = (round_update p per rr) <| rr_Children ::= <[per := c']> |>.
Proof using Type.
  intros E. unfold roundDispatch, onPart, onChild in E. destruct (rr_Children (round_update p per rr) !! per) as [c|] eqn:Ec; [|done].
  destruct (m c) as [r c'] eqn:Em. injection E as -> <-. exists c, c'. done.
Qed.
Lemma Keeps_roundDispatch {A} per (m : M periodRouter A) : Keeps padv m -> Keeps radv (roundDispatch p per m).
Proof using p_small.
  intros Hm rr a rr' (c & c' & Ec & Em & ->)%roundDispatch_Ok. etrans; [apply (radv_update per)|].
  set (rr1 := round_update p per rr) in *. clearbody rr1. intros (HC & HS & HF). destruct (Hm _ _ _ Em (HC _ _ Ec)) as [Hok Hst]. split.
  - split; [|done]. by apply map_Forall_insert_2.
  - unfold stageIn. cbn. destruct (decide (per = pl_Period p)) as [->|Hne].
    + rewrite lookup_insert_eq, Ec. cbn. exact Hst.
    + by rewrite lookup_insert_ne.
Qed.

Lemma Keeps_modStore f : (forall st, store_ok st -> store_ok (f st)) -> Keeps radv (modStore f).
Proof using Type. intros Hf rr a rr' E. injection E as _ <-. intros (HC & HS & HF). split; [|done]. split; [done|]. split; [by apply Hf|done]. Qed.
Lemma Keeps_getStore : Keeps radv getStore.
Proof using Type. intros rr a rr' E. injection E as _ <-. reflexivity. Qed.

(** *** The store *)

Lemma ea_ok_trim pv ea per : ea_ok pv ea -> ea_ok pv (ba_trim ea per).
Proof using Type. done. Qed.
Lemma assemblerOf_ok st pv : store_ok st -> ea_ok pv (assemblerOf st pv).
Proof using Type. intros HS. unfold assemblerOf. destruct (st_Assemblers st !! pv) as [ea|] eqn:E; [by apply (proj1 HS pv)|done]. Qed.
Lemma store_trim_ok st : store_ok st -> store_ok (store_trim p st).
Proof using Type.
  intros HS. unfold store_trim, store_ok. cbn. split; [|apply lookup_delete_eq]. apply map_Forall_delete. induction (map_to_list (st_Relevant st)).*2 as [|pv l IH]; cbn.
  - apply map_Forall_insert_2; [|apply map_Forall_empty]. by apply ea_ok_trim, assemblerOf_ok.
  - apply map_Forall_insert_2; [|done]. by apply ea_ok_trim, assemblerOf_ok.
Qed.

(** Trimming also repairs a store in which a value was just entered. *)
Lemma store_trim_insert st pv ea rel : store_ok st -> ea_ok pv ea ->
  store_ok (store_trim p (st <| st_Assemblers ::= <[pv := ea]> |> <| st_Relevant := rel |>)).
Proof using Type.
  intros HS Hea. unfold store_trim, store_ok. cbn [st_Assemblers rset setter]. split; [|apply lookup_delete_eq]. apply map_Forall_delete.
  set (st1 := mkProposalStore _ _ _). assert (forall q, ea_ok q (ba_trim (assemblerOf st1 q) (pl_Period p))) as Hq.
  { intros q. apply ea_ok_trim. unfold assemblerOf, st1. cbn. destruct (decide (q = pv)) as [->|Hne]; [by rewrite lookup_insert_eq|].
    rewrite lookup_insert_ne by done. by apply assemblerOf_ok. }
  induction (map_to_list (st_Relevant st1)).*2 as [|q l IH]; cbn; (apply map_Forall_insert_2; [apply Hq|]); [apply map_Forall_empty|done].
Qed.
Lemma store_insert_ok st pv ea ea' : store_ok st -> st_Assemblers st !! pv = Some ea -> ea_ok pv ea' ->
  store_ok (st <| st_Assemblers ::= <[pv := ea']> |>).
Proof using Type.
  intros [HS Hb] He Hea. split; cbn; [by apply map_Forall_insert_2|]. rewrite lookup_insert_ne; [done|]. intros ->. congruence.
Qed.

#[local] Hint Resolve Keeps_roundSelf Keeps_roundDispatch Keeps_getStore : keeps.

Lemma Keeps_store_readStaging r per : Keeps radv (store_readStaging p r per).
Proof using p_small. unfold store_readStaging, ct_readStaging. keeps. Qed.
Lemma Keeps_stagedValueHere : Keeps radv (stagedValueHere p).
Proof using p_small. apply Keeps_roundSelf, Keeps_store_readStaging. Qed.

Lemma Keeps_store_voteVerified v : Keeps radv (store_voteVerified ac p v).
Proof using p_small.
  intros rr a rr' E. apply M_bind_Ok in E as (out & s1 & E1 & E).
  assert (radv rr s1) as H1 by (eapply Keeps_roundDispatch; [|exact E1]; eauto with keeps).
  destruct out as [e|]; [by injection E as <- <-|]. injection E as <- <-. etrans; [exact H1|].
  intros (HC & HS & HF). split; [|done]. split; [done|]. split; [|done]. cbn. apply store_trim_insert; [done|].
  intros Ha. by apply (assemblerOf_ok _ _ HS).
Qed.

Lemma Keeps_store_payloadPresent up : Keeps radv (store_payloadPresent ac p up).
Proof using p_small.
  intros rr a rr' E. apply M_bind_Ok in E as (st & s1 & Est & E). injection Est as <- <-. cbv zeta in E.
  destruct (st_Assemblers _ !! _) as [ea|] eqn:Ea; [|by injection E as <- <-]. destruct (ba_pipeline ea up) as [ea' err] eqn:Ep.
  assert (radv rr (rr <| rr_ProposalStore ::= λ st, st <| st_Assemblers ::= <[up_value ac up := ea']> |> |>)) as H1.
  { intros (HC & HS & HF). split; [|done]. split; [done|]. split; [|done]. eapply store_insert_ok; [done..|].
    pose proof (proj1 HS _ _ Ea) as Hea. unfold ba_pipeline in Ep.
    destruct (ba_Assembled ea) eqn:?; [|destruct (ba_Filled ea)]; injection Ep as <- _; done. }
  apply M_bind_Ok in E as ([] & s2 & Em & E). injection Em as <-.
  destruct err as [e|]; [by injection E as <- <-|]. destruct (lastRelevant _ _). by injection E as <- <-.
Qed.

(** Reading a staged value, and what it says of the store. *)
Definition assembledIn (rr : roundRouter) (pv : proposalValue) : Prop :=
  exists ea, st_Assemblers (rr_ProposalStore rr) !! pv = Some ea /\ ba_Assembled ea = true.
Lemma assemblerOf_assembled rr pv : ba_Assembled (assemblerOf (rr_ProposalStore rr) pv) = true -> assembledIn rr pv.
Proof using Type. unfold assemblerOf, assembledIn. destruct (st_Assemblers _ !! pv) as [ea|] eqn:E; [|done]. intros Ha. by exists ea. Qed.

Lemma store_readStaging_Ok r per rr a rr' : store_readStaging p r per rr = (Ok a, rr') ->
  rr_ProposalStore rr' = rr_ProposalStore rr /\ sv_Proposal a = stageIn rr' per /\ (sv_Committable a = true -> assembledIn rr' (sv_Proposal a)).
Proof using Type.
  intros (v & s1 & E1 & E)%M_bind_Ok. apply M_bind_Ok in E as (st & s2 & Est & E). injection Est as <- <-. injection E as <- <-. cbn.
  apply roundDispatch_Ok in E1 as (c & c' & Ec & Em & ->). injection Em as <- <-. cbn. split; [done|].
  split; [unfold stageIn; cbn; by rewrite lookup_insert_eq|]. apply assemblerOf_assembled.
Qed.

Lemma Keeps_store_payloadVerified pp : Keeps radv (store_payloadVerified ac p pp).
Proof using p_small.
  intros rr a rr' E. apply M_bind_Ok in E as (st & s1 & Est & E). injection Est as <- <-. cbv zeta in E.
  destruct (st_Assemblers _ !! _) as [ea|] eqn:Ea; [|by injection E as <- <-]. destruct (ba_bind ea pp) as [ea' err] eqn:Ep.
  assert (radv rr (rr <| rr_ProposalStore ::= λ st, st <| st_Assemblers ::= <[up_value ac pp := ea']> |> |>)) as H1.
  { intros (HC & HS & HF). split; [|done]. split; [done|]. split; [|done]. eapply store_insert_ok; [done..|].
    pose proof (proj1 HS _ _ Ea) as Hea. unfold ba_bind in Ep.
    destruct (ba_Assembled ea); injection Ep as <- _; done. }
  apply M_bind_Ok in E as ([] & s2 & Em & E). injection Em as <-.
  destruct err as [e|]; [by injection E as <- <-|]. apply M_bind_Ok in E as (sv & s3 & Es & E). apply Keeps_stagedValueHere in Es.
  etrans; [exact H1|]. case_bool_decide; injection E as <- <-; exact Es.
Qed.
(** A payload is committable when it is the value staged in the player's period. *)
Lemma store_payloadVerified_committable pp rr ce rr' : store_payloadVerified ac p pp rr = (Ok (CommittableEvent ce), rr') -> rr_ok rr ->
  stageIn rr' (pl_Period p) = ce_Proposal ce /\ assembledIn rr' (ce_Proposal ce) /\ ce_Proposal ce <> bottom.
Proof using Type.
  intros E (_ & [HS Hb] & _). apply M_bind_Ok in E as (st & s1 & Est & E). injection Est as <- <-. cbv zeta in E.
  destruct (st_Assemblers _ !! _) as [ea|] eqn:Ea; [|done]. destruct (ba_bind ea pp) as [ea' err] eqn:Ep.
  apply M_bind_Ok in E as ([] & s2 & Em & E). injection Em as <-. destruct err as [e|]; [done|].
  apply M_bind_Ok in E as (sv & s3 & Es & E). apply store_readStaging_Ok in Es as (Est & Ev & _).
  case_bool_decide as Hsv; [|done]. injection E as <- <-. cbn. split; [by rewrite <- Ev|]. split.
  - unfold assembledIn. rewrite Est. cbn. rewrite lookup_insert_eq. exists ea'. split; [done|].
    unfold ba_bind in Ep. destruct (ba_Assembled ea); [done|]. by injection Ep as <-.
  - intros E0. rewrite E0 in Ea. congruence.
Qed.

Lemma Keeps_store_newPeriod per starting : Keeps radv (store_newPeriod p per starting).
Proof using p_small.
  unfold store_newPeriod. apply Keeps_bind; [apply _|apply Keeps_stagedValueHere|]. intros sv. apply Keeps_modStore. intros st HS.
  apply store_trim_ok. by repeat case_bool_decide.
Qed.
Lemma Keeps_store_newRound : Keeps radv (store_newRound p).
Proof using Type. unfold store_newRound. keeps. Qed.

Lemma Keeps_store_softThreshold te : Keeps radv (store_softThreshold p te).
Proof using p_small.
  intros rr a rr' E. apply M_bind_Ok in E as (pv & s1 & E1 & E).
  assert (radv rr s1) as H1 by (eapply Keeps_roundDispatch; [|exact E1]; eauto with keeps).
  apply M_bind_Ok in E as (st & s2 & Est & E). injection Est as <- <-. cbv zeta in E. case_match; [by injection E as <- <-|].
  injection E as <- <-. etrans; [exact H1|].
  intros (HC & HS & HF). split; [|done]. split; [done|]. split; [|done]. cbn. apply store_trim_insert; [done|]. by apply assemblerOf_ok.
Qed.
Lemma store_softThreshold_committable te rr ce rr' : store_softThreshold p te rr = (Ok (CommittableEvent ce), rr') ->
  stageIn rr' (te_Period te) = ce_Proposal ce /\ assembledIn rr' (ce_Proposal ce) /\ ce_Proposal ce <> bottom.
Proof using Type.
  intros E. apply M_bind_Ok in E as (pv & s1 & E1 & E). apply M_bind_Ok in E as (st & s2 & Est & E). injection Est as <- <-. cbv zeta in E.
  destruct (ba_Assembled _) eqn:Ha; [|done]. injection E as <- <-. cbn. apply roundDispatch_Ok in E1 as (c & c' & Ec & Em & ->).
  unfold periodSelf, onTracker, onPart, ct_softThreshold, ptc_pre_soft in Em.
  destruct (ptc_SawSoftThreshold _); [done|]. cbn [orb] in Em. case_bool_decide; [done|]. injection Em as <- <-. split_and!; [|by apply assemblerOf_assembled|done].
  unfold stageIn. cbn. by rewrite lookup_insert_eq.
Qed.
Lemma Keeps_store_readPinned r : Keeps radv (store_readPinned r).
Proof using Type. unfold store_readPinned. keeps. Qed.

(** *** Votes *)

(** A threshold event is for the round and period of the vote that caused it. *)
Definition of_vote (v : vote) (te : thresholdEvent) : Prop :=
  te_T te <> none -> te_Round te = rv_Round (v_R v) /\ te_Period te = rv_Period (v_R v).

Lemma step_voteAccepted_of_vote proto v sr te sr' : step_voteAccepted proto v sr = (Ok te, sr') -> of_vote v te.
Proof using Type.
  unfold step_voteAccepted. destruct (vtc_pre _ _); try done. destruct (vt_voteAccepted _ _ _) as [r t] eqn:Ev. destruct r as [out| |]; try done.
  destruct (vtc_post _ _ _); try done. intros E. injection E as <- _. clear -Ev. unfold vt_voteAccepted in Ev.
  case_bool_decide; [by injection Ev as <- _|]. destruct (overThreshold _ _ _) as [before| |]; try done.
  match goal with H : match ?c with _ => _ end = _ |- _ => destruct c as [[t' look]| |] end; try done. destruct look; [|by injection Ev as <- _].
  injection Ev as Ev _. apply result_bind_Ok in Ev as (after & _ & Ev). destruct before; [by injection Ev as <-|].
  destruct after; [|by injection Ev as <-]. unfold makeThreshold in Ev. apply result_bind_Ok in Ev as (b & _ & Ev). by injection Ev as <-.
Qed.
Lemma periodDispatch_Ok {A} s (m : M stepRouter A) pr a pr' : periodDispatch s m pr = (Ok a, pr') -> exists sr sr', m sr = (Ok a, sr').
Proof using Type.
  unfold periodDispatch, onPart, onChild. destruct (_ !! s) as [sr|]; [|done]. destruct (m sr) as [r sr'] eqn:E. intros E'. injection E' as -> _. eauto.
Qed.
Lemma vtp_voteAccepted_of_vote version v pr te pr' : vtp_voteAccepted version v pr = (Ok te, pr') -> of_vote v te.
Proof using Type.
  intros (te1 & s1 & E1 & E)%M_bind_Ok. apply M_bind_Ok in E as (? & s2 & _ & E). injection E as <- _.
  apply periodDispatch_Ok in E1 as (sr & sr' & E1). by eapply step_voteAccepted_of_vote.
Qed.

Lemma vtr_voteAccepted_Ok version v rr out rr' : vtr_voteAccepted p version v rr = (Ok out, rr') -> per_ok (rv_Period (v_R v)) ->
  radv rr rr' /\ forall te, out = Some te -> te_T te <> none /\ of_vote v te.
Proof using p_small.
  intros (te & s1 & E1 & E)%M_bind_Ok Hper. assert (radv rr s1) as H1.
  { eapply Keeps_roundDispatch; [|exact E1]. eauto with keeps. }
  apply roundDispatch_Ok in E1 as (c & c' & _ & Em & _). apply vtp_voteAccepted_of_vote in Em.
  case_bool_decide as Hn; [|injection E as <- <-; split; [done|discriminate]]. destruct (Em Hn) as [_ Hp]. unfold roundSelf in E.
  pose proof (radv_update 0 s1) as H2. set (s2 := round_update p 0 s1) in *. clearbody s2. unfold vtr_threshold in E.
  destruct (fresherThan _ _) as [[]| |]; try done; injection E as <- <-.
  - split; [|intros ? [= <-]; done]. etrans; [exact H1|]. etrans; [exact H2|]. intros (HC & HS & HF). split; [|done]. split; [done|]. split; [done|].
    cbn. by rewrite Hp.
  - split; [by etrans|discriminate].
Qed.
Lemma Keeps_vtr_freshestBundle : Keeps radv vtr_freshestBundle.
Proof using Type. unfold vtr_freshestBundle. intros rr a rr' E. injection E as _ <-. reflexivity. Qed.
End Rounds.

(** ** The root *)

Section Root.
Context (ac : AgreeCrypto) (p : player).
Hypothesis p_small : 0 <= pl_Period p /\ pl_Period p + 1 < 2 ^ 64.

Definition root_ok (router : rootRouter) : Prop := map_Forall (λ _, rr_ok ac) router.
Definition stageAt (router : rootRouter) (r : Round) (per : period) : proposalValue := default bottom ((λ rr, stageIn rr per) <$> router !! r).
Definition assembledAt (router : rootRouter) (r : Round) (pv : proposalValue) : Prop := exists rr, router !! r = Some rr /\ assembledIn rr pv.

Definition adv (router router' : rootRouter) : Prop :=
  root_ok router -> root_ok router' /\
    (stageAt router (pl_Round p) (pl_Period p) <> bottom -> stageAt router' (pl_Round p) (pl_Period p) = stageAt router (pl_Round p) (pl_Period p)).
#[export] Instance adv_preorder : PreOrder adv.
Proof using Type.
  split; [by intros rr|]. intros a b c Hab Hbc Ha. destruct (Hab Ha) as [Hb E1]. destruct (Hbc Hb) as [Hc E2].
  split; [done|]. intros Hne. rewrite E2, E1; [done..|]. by rewrite E1.
Qed.

Lemma root_update_child r router k c : root_update p r router !! k = Some c -> router !! k = Some c \/ c = roundRouter_zero.
Proof using Type.
  unfold root_update, ensureChild. intros [Hk _]%map_lookup_filter_Some. destruct (router !! r) eqn:Ep; [by left|].
  apply lookup_insert_Some in Hk as [[<- <-]|[_ ?]]; auto.
Qed.
Lemma root_update_current r router : router !! pl_Round p <> None -> root_update p r router !! pl_Round p = router !! pl_Round p.
Proof using Type.
  intros Hne. destruct (router !! pl_Round p) as [c|] eqn:Ec; [|done]. unfold root_update, ensureChild.
  apply map_lookup_filter_Some. split; [|cbn; lia]. destruct (router !! r) eqn:Ep; [done|]. rewrite lookup_insert_ne; [done|]. congruence.
Qed.
Lemma rr_ok_zero : rr_ok ac roundRouter_zero.
Proof using Type. split; [apply map_Forall_empty|]. split; [split; [apply map_Forall_empty|done]|]. cbn. unfold per_ok. lia. Qed.

Lemma adv_update r router : adv router (root_update p r router).
Proof using Type.
  intros HC. split.
  - intros k c [Hk| ->]%root_update_child; [by apply (HC k)|apply rr_ok_zero].
  - intros Hne. unfold stageAt. rewrite root_update_current; [done|]. intros E. unfold stageAt in Hne. by rewrite E in Hne.
Qed.
Lemma Keeps_rootSelf {A} r (m : M rootRouter A) : Keeps adv m -> Keeps adv (rootSelf p r m).
Proof using Type. intros Hm rr a rr' E. etrans; [apply (adv_update r)|by eapply Hm]. Qed.

Lemma rootDispatch_Ok {A} r (m : M roundRouter A) router a router' : rootDispatch p r m router = (Ok a, router') ->
  exists c c', root_update p r router !! r = Some c /\ m c = (Ok a, c') /\ router' = <[r := c']> (root_update p r router).
Proof using Type.
  intros E. unfold rootDispatch, onChild in E. destruct (root_update p r router !! r) as [c|] eqn:Ec; [|done].
  destruct (m c) as [r' c'] eqn:Em. injection E as -> <-. exists c, c'. done.
Qed.
(** The relation holds between the children before and after. *)
Lemma adv_child r router c c' : router !! r = Some c -> radv ac p c c' -> adv router (<[r := c']> router).
Proof using Type.
  intros Ec Hm HC. destruct (Hm (HC _ _ Ec)) as [Hok Hst]. split; [by apply map_Forall_insert_2|].
  unfold stageAt. destruct (decide (r = pl_Round p)) as [->|Hne]; [by rewrite lookup_insert_eq, Ec|by rewrite lookup_insert_ne].
Qed.
Lemma Keeps_rootDispatch {A} r (m : M roundRouter A) : Keeps (radv ac p) m -> Keeps adv (rootDispatch p r m).
Proof using Type.
  intros Hm router a router' (c & c' & Ec & Em & ->)%rootDispatch_Ok. etrans; [apply (adv_update r)|]. eapply adv_child; [done|by eapply Hm].
Qed.

#[local] Hint Resolve Keeps_rootSelf Keeps_rootDispatch Keeps_roundSelf Keeps_roundDispatch Keeps_store_readStaging Keeps_store_voteVerified
  Keeps_store_payloadPresent Keeps_store_payloadVerified Keeps_store_newPeriod Keeps_store_newRound Keeps_store_softThreshold
  Keeps_store_readPinned Keeps_vtr_freshestBundle : keeps.

Lemma Keeps_stagedValue r per : Keeps adv (stagedValue p r per).
Proof using p_small. unfold stagedValue. eauto with keeps. Qed.
Lemma Keeps_pinnedValue r : Keeps adv (pinnedValue p r).
Proof using p_small. unfold pinnedValue. eauto with keeps. Qed.
Lemma stagedValue_Ok r per router a router' : stagedValue p r per router = (Ok a, router') ->
  sv_Proposal a = stageAt router' r per /\ (sv_Committable a = true -> assembledAt router' r (sv_Proposal a)).
Proof using Type.
  intros (c & c' & Ec & Em & ->)%rootDispatch_Ok. unfold roundSelf in Em. apply store_readStaging_Ok in Em as (_ & Ev & Ha).
  unfold stageAt, assembledAt. rewrite lookup_insert_eq. split; [done|]. intros Hc. exists c'. auto.
Qed.

(** *** The proposal manager *)

Lemma Keeps_filterProposalVote uv fd : Keeps adv (filterProposalVote p uv fd).
Proof using p_small. unfold filterProposalVote, ct_voteFilterRequest. keeps. Qed.
#[local] Hint Resolve Keeps_filterProposalVote : keeps.
Lemma Keeps_pm_handleMessageEvent e fd : Keeps adv (pm_handleMessageEvent ac p e fd).
Proof using p_small. unfold pm_handleMessageEvent. cbv zeta. keeps. Qed.

(** A committable value: staged in the player's round, with its payload. *)
Definition committable (router : rootRouter) (per : period) (pv : proposalValue) : Prop :=
  stageAt router (pl_Round p) per = pv /\ assembledAt router (pl_Round p) pv /\ pv <> bottom.
Lemma rootDispatch_committable {A} per pv (m : M roundRouter A) a router router' :
  (forall rr rr', rr_ok ac rr -> m rr = (Ok a, rr') -> stageIn rr' per = pv /\ assembledIn rr' pv /\ pv <> bottom) ->
  rootDispatch p (pl_Round p) m router = (Ok a, router') -> root_ok router -> committable router' per pv.
Proof using Type.
  intros Hm (c & c' & Ec & Em & ->)%rootDispatch_Ok Hok. destruct (adv_update (pl_Round p) router Hok) as [Hok' _].
  destruct (Hm c c' (Hok' _ _ Ec) Em) as (Hst & Ha & Hne). unfold committable, stageAt, assembledAt. rewrite lookup_insert_eq. eauto.
Qed.

Lemma pm_message_committable e fd router ce router' : pm_handleMessageEvent ac p e fd router = (Ok (CommittableEvent ce), router') -> root_ok router ->
  committable router' (pl_Period p) (ce_Proposal ce).
Proof using p_small.
  intros E Hok. assert (forall v r, rootDispatch p r (roundSelf p (rv_Period (v_R v)) (store_voteVerified ac p v)) router <> (Ok (CommittableEvent ce), router')) as Hv.
  { intros v r (c & c' & _ & Em & _)%rootDispatch_Ok. apply M_bind_Ok in Em as (out & s1 & _ & Em). destruct out; [done|].
    apply M_bind_Ok in Em as (? & ? & _ & Em). by apply M_bind_Ok in Em as (? & ? & _ & Em). }
  unfold pm_handleMessageEvent in E. cbv zeta in E.
  assert (forall e0 : messageEvent, (if me_Cancelled e0 then mret (PayloadProcessedEvent (rejected (me_Err e0)))
     else match me_Err e0 with
          | Some _ => mret (FilteredEvent payloadMalformed (me_Err e0))
          | None => rootDispatch p (pl_Round p) (roundSelf p (pl_Period p) (store_payloadVerified ac p (msg_Proposal (me_Input e0))))
          end) router = (Ok (CommittableEvent ce), router') -> committable router' (pl_Period p) (ce_Proposal ce)) as Hp.
  { intros e0 E0. destruct (me_Cancelled e0); [done|]. destruct (me_Err e0); [done|]. revert E0 Hok. apply rootDispatch_committable.
    intros rr rr' Hrr E0. apply (store_payloadVerified_committable ac p) in E0; [done|]. by apply (radv_update ac p p_small (pl_Period p) rr Hrr). }
  destruct (me_T e).
  - apply M_bind_Ok in E as (err & ? & _ & E). by destruct err.
  - destruct (me_Cancelled e); [done|]. destruct (me_Err e); [done|]. destruct (proposalFresh _ _); try done. by apply Hv in E.
  - case_bool_decide; apply M_bind_Ok in E as (ep & ? & _ & E); done.
  - by apply (Hp e).
  - by apply (Hp e).
  - by apply (Hp e).
Qed.

Lemma Keeps_pm_handleNewRound r : Keeps adv (pm_handleNewRound p r).
Proof using p_small. unfold pm_handleNewRound. eauto with keeps. Qed.
Lemma Keeps_pm_handleNewPeriod te : Keeps adv (pm_handleNewPeriod p te).
Proof using p_small. unfold pm_handleNewPeriod. eauto with keeps. Qed.
#[local] Hint Resolve Keeps_pm_handleNewRound Keeps_pm_handleNewPeriod : keeps.
Lemma Keeps_pm_threshold te : Keeps adv (pm_threshold p te).
Proof using p_small. unfold pm_threshold. keeps. Qed.

Lemma pm_threshold_committable te router ce router' : pm_threshold p te router = (Ok (CommittableEvent ce), router') -> root_ok router ->
  te_T te = softThreshold /\ committable router' (te_Period te) (ce_Proposal ce).
Proof using p_small.
  intros E Hok. unfold pm_threshold in E. destruct (pmc_pre p te) eqn:Epre; [|done]. cbn [negb] in E.
  unfold pmc_pre in Epre. apply andb_true_iff in Epre as [Epre _]. apply andb_true_iff in Epre as [Er%Z.eqb_eq _].
  destruct (te_T te); try done.
  - apply M_bind_Ok in E as (? & s1 & E1 & E). split; [done|]. assert (root_ok s1) as Hok1.
    { assert (adv router s1) as H1 by (revert E1; case_match; intros E1; [by apply Keeps_pm_handleNewPeriod in E1|by injection E1 as _ <-]). by apply H1. }
    rewrite <- Er in E. revert E Hok1. apply rootDispatch_committable. intros rr rr' Hrr E0.
    by apply store_softThreshold_committable in E0.
  - apply rootDispatch_Ok in E as (c & c' & _ & Em & _). apply M_bind_Ok in Em as (st & s1 & _ & Em). repeat (case_match; try done).
  - by apply M_bind_Ok in E as (? & s1 & E1 & E).
Qed.

(** *** The vote aggregator *)

Definition vote_ok (v : vote) : Prop := per_ok (rv_Period (v_R v)).

Lemma step_read {A} s (f : stepRouter -> result A) : Keeps padv (periodDispatch s (λ sr, (f sr, sr))).
Proof using Type. apply Keeps_periodDispatch. Qed.
Lemma Keeps_filterVote proto uv fd : Keeps adv (filterVote proto p uv fd).
Proof using p_small. unfold filterVote, step_voteFilterRequest. cbv zeta. keeps. Qed.

(** A threshold event that reaches the player. *)
Definition te_ok (te : thresholdEvent) : Prop := te_T te <> none /\ per_ok (te_Period te).

Lemma agg_voteAccepted_Ok version v router out router' : agg_voteAccepted p version v router = (Ok out, router') -> vote_ok v ->
  adv router router' /\ forall te, out = Some te -> te_ok te.
Proof using p_small.
  intros (c & c' & Ec & Em & ->)%rootDispatch_Ok Hv. unfold roundSelf in Em.
  apply (vtr_voteAccepted_Ok ac p p_small) in Em as [Hr Hte]; [|done]. split.
  - etrans; [apply (adv_update (rv_Round (v_R v)))|]. eapply adv_child; [done|]. etrans; [apply (radv_update ac p p_small)|exact Hr].
  - intros te ->. destruct (Hte te eq_refl) as [Hn Hof]. split; [done|]. destruct (Hof Hn) as [_ ->]. exact Hv.
Qed.
Lemma agg_deliver_Ok version votes : forall thresh router out router', agg_deliver p version votes thresh router = (Ok out, router') ->
  Forall vote_ok votes -> (forall te, thresh = Some te -> te_ok te) -> adv router router' /\ forall te, out = Some te -> te_ok te.
Proof using p_small.
  induction votes as [|v votes IH]; intros thresh router out router' E HF Hth; [by injection E as <- <-|].
  apply Forall_cons in HF as [Hv HF]. cbn in E. apply M_bind_Ok in E as (o & s1 & E1 & E). apply agg_voteAccepted_Ok in E1 as [H1 Ho]; [|done].
  destruct (IH _ _ _ _ E HF) as [H2 Hout]; [|split; [by etrans|done]]. destruct o as [te|]; [|done]. intros te' [= <-]. by apply Ho.
Qed.

Lemma agg_handle_Ok e fd router out router' : agg_handle p e fd router = (Ok out, router') ->
  vote_ok (msg_Vote (me_Input e)) -> Forall vote_ok (bundleVotes (msg_Bundle (me_Input e))) ->
  adv router router' /\ forall te, out = ThresholdEvent te -> te_ok te.
Proof using p_small.
  intros E Hv Hb. unfold agg_handle in E. cbv zeta in E. destruct (me_T e); try done.
  - destruct (cvv_Err _); [injection E as <- <-; split; [done|discriminate]|]. apply M_bind_Ok in E as (err & s1 & E1 & E).
    apply Keeps_filterVote in E1. injection E as <- <-. split; [done|]. by destruct err.
  - destruct (me_Cancelled e); [injection E as <- <-; split; [done|discriminate]|].
    destruct (cvv_Err _); [injection E as <- <-; split; [done|discriminate]|].
    destruct (me_Err e); [injection E as <- <-; split; [done|discriminate]|].
    apply M_bind_Ok in E as (err & s1 & E1 & E). apply Keeps_filterVote in E1.
    destruct err; [injection E as <- <-; split; [done|discriminate]|].
    apply M_bind_Ok in E as (tE & s2 & E2 & E). apply agg_voteAccepted_Ok in E2 as [H2 Hte]; [|done].
    assert (adv router s2) as H12 by (by etrans). destruct tE as [te|]; [|injection E as <- <-; split; [done|discriminate]].
    repeat (case_match; try done); injection E as <- <-; (split; [done|]); try discriminate. intros ? [= <-]. by apply Hte.
  - destruct (bundleFresh _ _); try done; injection E as <- <-; (split; [done|discriminate]).
  - destruct (me_Cancelled e); [injection E as <- <-; split; [done|discriminate]|].
    destruct (cvv_Err _); [injection E as <- <-; split; [done|discriminate]|].
    destruct (me_Err e); [injection E as <- <-; split; [done|discriminate]|].
    destruct (bundleFresh _ _); try done; [|injection E as <- <-; split; [done|discriminate]].
    apply M_bind_Ok in E as (th & s1 & E1 & E). apply agg_deliver_Ok in E1 as [H1 Hte]; [|done..]. injection E as <- <-. split; [done|].
    destruct th as [te|]; [|discriminate]. intros ? [= <-]. by apply Hte.
Qed.
End Root.
