(* ===== verification/Player.v ===== *)
(** The player, the root of the agreement state machines
    (src/agreement/{player,actions,router}.go).

    The state is the player with the tree of routers.  [handle] calls itself for the
    freshest threshold of a round it has just entered and for the payload behind a
    proposal-vote: both recursions take fuel.  What happens without fuel is a parameter,
    and [PlayerFuel] shows how much fuel makes it irrelevant.
    The contract of the player only logs, so it is left out, as are timing records. *)

From S2P Require Import Prelude Config Basics Transactions Bookkeeping Eval Agreement VoteTracker ProposalTracker Router Machines.

(** ** Actions (actions.go) *)

Definition AgreementVoteTag : string := "AV".
Definition ProposalPayloadTag : string := "PP".
Definition VoteBundleTag : string := "VB".

Inductive networkActionType := ignore | broadcast | relay | disconnect | broadcastVotes.
Record networkAction := mkNetworkAction {
  na_T : networkActionType;
  na_Tag : string;
  na_h : Z;
  na_UnauthenticatedVote : unauthenticatedVote;
  na_UnauthenticatedBundle : unauthenticatedBundle;
  na_CompoundMessage : compoundMessage;
  na_UnauthenticatedVotes : list unauthenticatedVote;
  na_Err : option error
}.
#[export] Instance networkAction_eta : Eta networkAction := λ r,
  mkNetworkAction (na_T r) (na_Tag r) (na_h r) (na_UnauthenticatedVote r) (na_UnauthenticatedBundle r) (na_CompoundMessage r)
    (na_UnauthenticatedVotes r) (na_Err r).
Definition networkAction_zero (T : networkActionType) (tag : string) (h : Z) : networkAction :=
  mkNetworkAction T tag h unauthenticatedVote_zero unauthenticatedBundle_zero compoundMessage_zero [] None.

Inductive cryptoActionType := verifyVote | verifyPayload | verifyBundle.
Record cryptoAction := mkCryptoAction {
  ca_T : cryptoActionType;
  ca_M : message;
  ca_Round : Round;
  ca_Period : period;
  ca_Pinned : bool;
  ca_TaskIndex : Z
}.
Inductive pseudonodeActionType := attest | assemble | repropose.
Record pseudonodeAction := mkPseudonodeAction {
  psa_T : pseudonodeActionType;
  psa_Round : Round;
  psa_Period : period;
  psa_Step : step;
  psa_Proposal : proposalValue
}.

Inductive action :=
| NetworkAction (a : networkAction)
| CryptoAction (a : cryptoAction)
| EnsureAction (Payload : unauthenticatedProposal) (PayloadOk : bool) (Cert : Certificate)
| RezeroAction (r : Round)
| PseudonodeAction (a : pseudonodeAction)
| CheckpointAction (r : Round) (per : period) (s : step) (err : option error) (done : option nat).   (* [done] names a channel *)

Definition ignoreAction (e : messageEvent) (err : option error) : action :=
  NetworkAction ((networkAction_zero ignore "" (msg_MessageHandle (me_Input e))) <| na_Err := err |>).
Definition disconnectAction (e : messageEvent) (err : option error) : action :=
  NetworkAction ((networkAction_zero disconnect "" (msg_MessageHandle (me_Input e))) <| na_Err := err |>).

(** The object of a broadcast or relay, by its tag. *)
Inductive payloadObject := OVote (uv : unauthenticatedVote) | OBundle (ub : unauthenticatedBundle) | OCompound (cm : compoundMessage).
Definition tagOf (o : payloadObject) : string :=
  match o with OVote _ => AgreementVoteTag | OBundle _ => VoteBundleTag | OCompound _ => ProposalPayloadTag end.
Definition withObject (o : payloadObject) (a : networkAction) : networkAction :=
  match o with
  | OVote uv => a <| na_UnauthenticatedVote := uv |>
  | OBundle ub => a <| na_UnauthenticatedBundle := ub |>
  | OCompound cm => a <| na_CompoundMessage := cm |>
  end.
Definition broadcastAction (o : payloadObject) : action := NetworkAction (withObject o (networkAction_zero broadcast (tagOf o) 0)).
Definition relayAction (e : messageEvent) (o : payloadObject) : action :=
  NetworkAction (withObject o (networkAction_zero relay (tagOf o) (msg_MessageHandle (me_Input e)))).

Definition verifyBundleAction (e : messageEvent) (r : Round) (per : period) : action :=
  CryptoAction (mkCryptoAction verifyBundle (me_Input e) r per false 0).
Definition verifyVoteAction (e : messageEvent) (r : Round) (per : period) (taskIndex : Z) : action :=
  CryptoAction (mkCryptoAction verifyVote (me_Input e) r per false taskIndex).
Definition verifyPayloadAction (e : messageEvent) (r : Round) (per : period) (pinned : bool) : action :=
  CryptoAction (mkCryptoAction verifyPayload (me_Input e) r per pinned 0).

(** ** The player (player.go) *)

Definition PS : Type := player * rootRouter.

Section Player.
Variable ac : AgreeCrypto.

(** Dispatch with the current player. *)
Definition dispatch {A} (m : player -> M rootRouter A) : M PS A := λ '(p, router),
  let '(r, router) := m p router in (r, (p, router)).
Definition getPlayer : M PS player := λ s, (Ok s.1, s).
Definition modPlayer (f : player -> player) : M PS unit := λ '(p, router), (Ok tt, (f p, router)).

Definition partitioned (p : player) : bool := (partitionStep <=? pl_Step p) || (3 <=? pl_Period p).

Definition readFreshest : M PS freshestBundleEvent :=
  dispatch (λ p, rootDispatch p (pl_Round p) (roundSelf p 0 vtr_freshestBundle)).
Definition readNextStatus : M PS nextThresholdStatusEvent :=
  dispatch (λ p, rootDispatch p (pl_Round p) (roundDispatch p (wrap64 (pl_Period p - 1)) (periodSelf 0 vtp_nextThresholdStatus))).

(** The payload to relay: the one staged with the bundle, or the pinned one. *)
Definition relayStaged (r : Round) (per : period) : M PS (list action) :=
  resStaged ← dispatch (λ p, stagedValue p r per);
  if sv_Committable resStaged then
    mret [broadcastAction (OCompound (mkCompoundMessage unauthenticatedVote_zero (sv_Payload resStaged)))]
  else
    resPinned ← dispatch (λ p, pinnedValue p r);
    mret (if pin_PayloadOK resPinned
          then [broadcastAction (OCompound (mkCompoundMessage unauthenticatedVote_zero (pin_Payload resPinned)))] else []).

Definition partitionPolicy : M PS (list action) :=
  p ← getPlayer;
  if negb (partitioned p) then mret []
  else
    res ← readFreshest;
    let b := te_Bundle (fb_Event res) in
    let a0 := if fb_Ok res then [broadcastAction (OBundle b)] else [] in
    a1 ← (if fb_Ok res && bool_decide (ub_Proposal b <> bottom) then relayStaged (ub_Round b) (ub_Period b)
          else if pl_Period p =? 0 then relayStaged (pl_Round p) (pl_Period p)
          else mret []);
    mret (a0 ++ a1).

Definition issueCertVote (p : player) (pv : proposalValue) : action :=
  PseudonodeAction (mkPseudonodeAction attest (pl_Round p) (pl_Period p) cert pv).

(** The value to soft-vote, if any. *)
Definition softValue (p : player) (frozen : proposalValue) (nextStatus : nextThresholdStatusEvent) : option proposalValue :=
  if (0 <? pl_Period p) && negb (nts_Bottom nextStatus) && bool_decide (nts_Proposal nextStatus <> bottom) then Some (nts_Proposal nextStatus)
  else if bool_decide (frozen = bottom) then None
  else if pv_OriginalPeriod frozen <? pl_Period p then
    if bool_decide (nts_Proposal nextStatus <> bottom) && bool_decide (nts_Proposal nextStatus = frozen) then Some frozen else None
  else Some frozen.

Definition issueSoftVote : M PS (list action) :=
  frozen ← dispatch (λ p, rootDispatch p (pl_Round p) (roundDispatch p (pl_Period p) (periodSelf 0 (onTracker ct_proposalFrozen))));
  nextStatus ← readNextStatus;
  p ← getPlayer;
  _ ← modPlayer (λ p, p <| pl_Deadline := deadlineTimeout |>);
  mret (match softValue p frozen nextStatus with
        | Some pv => [PseudonodeAction (mkPseudonodeAction attest (pl_Round p) (pl_Period p) soft pv)]
        | None => []
        end).

Definition issueNextVote : M PS (list action) :=
  actions ← partitionPolicy;
  answer ← dispatch (λ p, stagedValue p (pl_Round p) (pl_Period p));
  pv ← (if sv_Committable answer then mret (sv_Proposal answer)
        else nextStatus ← readNextStatus; mret (if nts_Bottom nextStatus then bottom else nts_Proposal nextStatus));
  p ← getPlayer;
  _ ← modPlayer (λ p, p <| pl_Napping := false |> <| pl_Deadline := (nextVoteRanges (pl_Step p)).2 |>);
  mret (actions ++ [PseudonodeAction (mkPseudonodeAction attest (pl_Round p) (pl_Period p) (pl_Step p) pv)]).

Definition dumpVotes (s : step) : M PS (list unauthenticatedVote) :=
  dispatch (λ p, rootDispatch p (pl_Round p) (roundDispatch p (pl_Period p) (periodDispatch s step_dumpVotes))).

Definition issueFastVote : M PS (list action) :=
  actions ← partitionPolicy;
  elate ← dumpVotes late;
  eredo ← dumpVotes redo;
  edown ← dumpVotes down;
  let votes := elate ++ eredo ++ edown in
  let a0 := NetworkAction ((networkAction_zero broadcastVotes "" 0) <| na_UnauthenticatedVotes := votes |>) in
  answer ← dispatch (λ p, stagedValue p (pl_Round p) (pl_Period p));
  sp ← (if sv_Committable answer then mret (late, sv_Proposal answer)
        else nextStatus ← readNextStatus; mret (if nts_Bottom nextStatus then (down, bottom) else (redo, nts_Proposal nextStatus)));
  p ← getPlayer;
  let s := if bool_decide (sp.2 = bottom) then down else sp.1 in
  mret (actions ++ [a0; PseudonodeAction (mkPseudonodeAction attest (pl_Round p) (pl_Period p) s sp.2)]).

(** A fast timeout with entropy; durations are int64. *)
Definition handleFastTimeout (entropy : Z) (proto : ConsensusVersionView) : M PS (list action) :=
  match cvv_Err proto with
  | Some _ => mret []
  | None =>
    let lambda := cp_FastRecoveryLambda (paramsOf (cvv_Version proto)) in
    if lambda =? 0 then panic "integer divide by zero"
    else
      p ← getPlayer;
      let k := Z.quot (wrapI64 (wrapI64 (pl_FastRecoveryDeadline p + lambda) - 1)) lambda in
      let lower := wrapI64 (k * lambda) in
      let upper := wrapI64 (wrapI64 (k + 1) * lambda) in
      let range := wrap64 (upper - lower) in
      if range =? 0 then panic "integer divide by zero"
      else
        let delta := wrapI64 (entropy mod range) in
        if pl_FastRecoveryDeadline p =? 0 then
          _ ← modPlayer (λ p, p <| pl_FastRecoveryDeadline := wrapI64 (wrapI64 (lower + delta) + lambda) |>);
          mret []
        else
          _ ← modPlayer (λ p, p <| pl_FastRecoveryDeadline := wrapI64 (lower + delta) |>);
          issueFastVote
  end.

(** Where a period or a round starts. *)
Definition newPosition (r : Round) (per : period) (p : player) : player :=
  p <| pl_LastConcluding := pl_Step p |> <| pl_Round := r |> <| pl_Period := per |> <| pl_Step := soft |>
    <| pl_Napping := false |> <| pl_FastRecoveryDeadline := 0 |> <| pl_Deadline := filterTimeout |>.

Definition enterPeriod (source : thresholdEvent) (target : period) : M PS (list action) :=
  actions ← partitionPolicy;
  e ← dispatch (λ p, rootSelf p (pl_Round p) (pm_threshold p source));
  _ ← modPlayer (λ p, newPosition (pl_Round p) target p);
  p ← getPlayer;
  mret (actions ++ [RezeroAction (pl_Round p)] ++
    match e with
    | CommittableEvent ce => [issueCertVote p (ce_Proposal ce)]
    | _ => match te_T source with
           | nextThreshold =>
             if bool_decide (te_Proposal source = bottom)
             then [PseudonodeAction (mkPseudonodeAction assemble (pl_Round p) (pl_Period p) 0 bottom)]
             else [PseudonodeAction (mkPseudonodeAction repropose (pl_Round p) (pl_Period p) 0 (te_Proposal source))]
           | _ => []
           end
    end).

(** [source] is a cert threshold, or nothing for a round interruption; [k] handles the
    freshest threshold of the new round. *)
Definition enterRound (k : thresholdEvent -> M PS (list action)) (source : option thresholdEvent) (target : Round) : M PS (list action) :=
  e ← dispatch (λ p, rootSelf p target (match source with Some te => pm_threshold p te | None => pm_handleNewRound p target end));
  _ ← modPlayer (newPosition target 0);
  let actions := [RezeroAction target; PseudonodeAction (mkPseudonodeAction assemble target 0 0 bottom)] ++
    match e with
    | PayloadProcessedEvent ep =>
      match pp_T ep with
      | payloadPipelined =>
        let msg := message_zero <| msg_Tag := ProposalPayloadTag |> <| msg_UnauthenticatedProposal := pp_UnauthenticatedPayload ep |> in
        [verifyPayloadAction (mkMessageEvent payloadPresent msg None 0 None false (mkConsensusVersionView None "")) target (pp_Period ep) (pp_Pinned ep)]
      | _ => []
      end
    | _ => []
    end in
  freshestRes ← readFreshest;
  a4 ← (if fb_Ok freshestRes then k (fb_Event freshestRes) else mret []);
  mret (actions ++ a4).

Definition handleThresholdEvent (k : thresholdEvent -> M PS (list action)) (te : thresholdEvent) : M PS (list action) :=
  p ← getPlayer;
  match te_T te with
  | none => mret []
  | certThreshold =>
    res ← dispatch (λ p, stagedValue p (te_Round te) (te_Period te));
    rest ← enterRound k (Some te) (wrap64 (pl_Round p + 1));
    mret (EnsureAction (sv_Payload res) (sv_Committable res) (te_Bundle te) :: rest)
  | T =>
    if wrap64 (te_Period te + 1) <=? pl_Period p then mret []
    else if bool_decide (T = softThreshold) then
      if pl_Period p =? te_Period te then
        ec ← dispatch (λ p, rootSelf p (pl_Round p) (pm_threshold p te));
        mret (match ec with
              | CommittableEvent ce => if pl_Step p <=? cert then [issueCertVote p (ce_Proposal ce)] else []
              | _ => []
              end)
      else enterPeriod te (te_Period te)
    else enterPeriod te (wrap64 (te_Period te + 1))
  end.

(** What happens when the fuel of a recursion is exhausted. *)
Variable exhaustedT : thresholdEvent -> M PS (list action).
Variable exhaustedM : messageEvent -> M PS (list action).

(** [handle] of a threshold event. *)
Fixpoint handleThreshold (fuel : nat) (te : thresholdEvent) : M PS (list action) :=
  match fuel with
  | O => exhaustedT te
  | S fuel => handleThresholdEvent (handleThreshold fuel) te
  end.

Definition freshnessOf (p : player) : freshnessData := mkFreshnessData (pl_Round p) (pl_Period p) (pl_Step p) (pl_LastConcluding p).

(** [handle] of the event a machine answered. *)
Definition handleEvent (fuel : nat) (e : event) : M PS (list action) :=
  match e with
  | EmptyEvent => mret []
  | ThresholdEvent te => handleThreshold fuel te
  | _ => panic "bad event"
  end.

Definition pushTail (e : messageEvent) : M PS Z := λ '(p, router),
  let '(seq, pending) := tbl_push (me_Tail e) (pl_Pending p) in (Ok seq, (p <| pl_Pending := pending |>, router)).

(** A proposal-vote: the actions, and whether its tail is to be handled now. *)
Definition handleProposalVote (e : messageEvent) : M PS (list action * bool) :=
  ef ← dispatch (λ p, rootSelf p 0 (pm_handleMessageEvent ac p e (freshnessOf p)));
  match ef with
  | FilteredEvent voteMalformed err => mret ([disconnectAction e err], true)
  | FilteredEvent voteFiltered err => mret ([ignoreAction e err], true)
  | _ =>
    match me_T e with
    | votePresent =>
      seq ← pushTail e;
      let uv := uv_R (msg_UnauthenticatedVote (me_Input e)) in
      mret ([verifyVoteAction e (rv_Round uv) (rv_Period uv) seq], false)
    | _ =>
      let v := msg_Vote (me_Input e) in
      match ef with
      | ProposalAcceptedEvent ep =>
        mret ([if pa_PayloadOk ep then broadcastAction (OCompound (mkCompoundMessage (vote_u v) (pa_Payload ep)))
               else relayAction e (OVote (vote_u v))], true)
      | _ => panic "interface conversion"
      end
    end
  end.

(** The deferred function of [handleMessageEvent]: the tail to handle. *)
Definition takeTail (e : messageEvent) : M PS (option messageEvent) := λ '(p, router),
  match me_T e with
  | voteVerified => let '(tail, pending) := tbl_pop (me_TaskIndex e) (pl_Pending p) in (Ok tail, (p <| pl_Pending := pending |>, router))
  | _ => (Ok (me_Tail e), (p, router))
  end.

Definition handlePayload (e : messageEvent) : M PS (list action) :=
  ef ← dispatch (λ p, rootSelf p 0 (pm_handleMessageEvent ac p e (freshnessOf p)));
  p ← getPlayer;
  let rest (v : vote) := relayAction e (OCompound (mkCompoundMessage (vote_u v) (msg_UnauthenticatedProposal (me_Input e)))) in
  match ef with
  | FilteredEvent payloadMalformed _ => mret [ignoreAction e (Some (Errorf "rejected message since it was invalid"))]
  | PayloadProcessedEvent ep =>
    match pp_T ep with
    | payloadRejected => mret [ignoreAction e (pp_Err ep)]
    | payloadPipelined =>
      if pp_Round ep =? pl_Round p then mret [verifyPayloadAction e (pp_Round ep) (pp_Period ep) (pp_Pinned ep)] else mret [rest (pp_Vote ep)]
    | payloadAccepted => mret [rest (pp_Vote ep)]
    end
  | CommittableEvent ce => mret (rest (ce_Vote ce) :: if pl_Step p <=? cert then [issueCertVote p (ce_Proposal ce)] else [])
  | _ => mret [relayAction e (OCompound (mkCompoundMessage unauthenticatedVote_zero (msg_UnauthenticatedProposal (me_Input e))))]
  end.

Definition handleVote (fuel : nat) (e : messageEvent) : M PS (list action) :=
  ef ← dispatch (λ p, rootSelf p 0 (agg_handle p e (freshnessOf p)));
  match ef with
  | FilteredEvent voteMalformed _ => mret [disconnectAction e (Some (Errorf "rejected message since it was invalid"))]
  | FilteredEvent voteFiltered err => mret [ignoreAction e err]
  | _ =>
    match me_T e with
    | votePresent =>
      let uv := uv_R (msg_UnauthenticatedVote (me_Input e)) in mret [verifyVoteAction e (rv_Round uv) (rv_Period uv) 0]
    | _ => a1 ← handleEvent fuel ef; mret (relayAction e (OVote (vote_u (msg_Vote (me_Input e)))) :: a1)
    end
  end.

Definition handleBundle (fuel : nat) (e : messageEvent) : M PS (list action) :=
  ef ← dispatch (λ p, rootSelf p 0 (agg_handle p e (freshnessOf p)));
  match ef with
  | FilteredEvent bundleMalformed _ => mret [disconnectAction e (Some (Errorf "rejected message since it was invalid"))]
  | FilteredEvent bundleFiltered err => mret [ignoreAction e err]
  | _ =>
    match me_T e with
    | bundlePresent =>
      let ub := msg_UnauthenticatedBundle (me_Input e) in mret [verifyBundleAction e (ub_Round ub) (ub_Period ub)]
    | _ => match ef with
           | ThresholdEvent te => a1 ← handleEvent fuel ef; mret (relayAction e (OBundle (te_Bundle te)) :: a1)
           | _ => panic "interface conversion"
           end
    end
  end.

(** A vote for the propose step. *)
Definition isProposalVote (e : messageEvent) : bool :=
  match me_T e with
  | votePresent | voteVerified => rv_Step (uv_R (msg_UnauthenticatedVote (me_Input e))) =? propose
  | _ => false
  end.

Fixpoint handleMessageEvent (fuel : nat) (e : messageEvent) : M PS (list action) :=
  match fuel with
  | O => exhaustedM e
  | S fuel =>
    if isProposalVote e then
      r ← handleProposalVote e;
      tail ← takeTail e;
      match r, tail with
      | (actions, true), Some ev => suffix ← handleMessageEvent fuel ev; mret (actions ++ suffix)
      | (actions, _), _ => mret actions
      end
    else match me_T e with
         | payloadPresent | payloadVerified => handlePayload e
         | votePresent | voteVerified => handleVote fuel e
         | bundlePresent | bundleVerified => handleBundle fuel e
         end
  end.

Definition handleTimeout (entropy : Z) : M PS (list action) :=
  p ← getPlayer;
  if pl_Step p =? soft then
    actions ← issueSoftVote;
    _ ← modPlayer (λ p, p <| pl_Step := cert |>);
    mret actions
  else if pl_Step p =? cert then
    _ ← modPlayer (λ p, p <| pl_Step := next |>);
    issueNextVote
  else if pl_Napping p then issueNextVote
  else
    let s := wrap64 (pl_Step p + 1) in
    let '(lower, upper) := nextVoteRanges s in
    let range := wrap64 (upper - lower) in
    if range =? 0 then panic "integer divide by zero"
    else
      _ ← modPlayer (λ p, p <| pl_Step := s |> <| pl_Napping := true |> <| pl_Deadline := wrapI64 (lower + wrapI64 (entropy mod range)) |>);
      mret [].

(** ** Events from outside *)

Inductive input :=
| InMessage (e : messageEvent)
| InThreshold (te : thresholdEvent)
| InTimeout (entropy : Z)
| InFastTimeout (entropy : Z) (proto : ConsensusVersionView)
| InRoundInterruption (r : Round)
| InCheckpoint (r : Round) (per : period) (s : step) (err : option error) (done : option nat).

Definition handle (fuel : nat) (i : input) : M PS (list action) :=
  match i with
  | InMessage e => handleMessageEvent fuel e
  | InThreshold te => handleThreshold fuel te
  | InTimeout entropy => handleTimeout entropy
  | InFastTimeout entropy proto => handleFastTimeout entropy proto
  | InRoundInterruption r => enterRound (handleThreshold fuel) None r
  | InCheckpoint r per s err done => mret [CheckpointAction r per s err done]
  end.

(** [submitTop] of the root router. *)
Definition submitTop (fuel : nat) (i : input) : M PS (list action) := λ '(p, router),
  handle fuel i (p, root_update p 0 router).
End Player.

(** The player that panics without fuel. *)
Definition dieT (_ : thresholdEvent) : M PS (list action) := panic "out of fuel".
Definition dieM (_ : messageEvent) : M PS (list action) := panic "out of fuel".
