(* ===== verification/PlayerSpec.v ===== *)
(** The player never takes a vote back.

    [Inv A s] relates the state to the list [A] of all actions emitted so far.  It says
    that the votes for the player's current round and period are those the player's
    step and the staging value allow, and that no two votes of a step differ.  Every
    handler extends [A] and keeps it.  The player only moves forward, and it cert-votes
    only for a staged value whose payload it holds. *)

From S2P Require Import Prelude Config Basics Transactions Bookkeeping Eval Agreement AgreementSpec VoteTracker ProposalTracker Router Machines RouterSpec Player.

(** ** Durations of steps *)

Lemma wrapI64_wrap z c : wrap64 (wrapI64 z + c) = wrap64 (z + c).
Proof.
  unfold wrapI64, wrap64. replace ((z + 2 ^ 63) mod 2 ^ 64 - 2 ^ 63 + c) with ((z + 2 ^ 63) mod 2 ^ 64 + (c - 2 ^ 63)) by lia.
  rewrite Zplus_mod_idemp_l. f_equal. lia.
Qed.
Lemma voteRangesLoop_range n : forall extra lower upper, wrap64 (upper - lower) = wrap64 extra ->
  wrap64 ((voteRangesLoop n extra lower upper).2 - (voteRangesLoop n extra lower upper).1) = wrap64 (extra * 2 ^ Z.of_nat n).
Proof.
  induction n as [|n IH]; intros extra lower upper E; cbn [voteRangesLoop]; [by rewrite Z.mul_1_r|].
  rewrite IH.
  - unfold wrap64. rewrite <- (Zmult_mod_idemp_l (wrapI64 _)). fold (wrap64 (wrapI64 (extra * 2))).
    rewrite <- (Z.add_0_r (wrapI64 _)), wrapI64_wrap. unfold wrap64. rewrite Zmult_mod_idemp_l. f_equal. rewrite Z.add_0_r, Nat2Z.inj_succ, Z.pow_succ_r; lia.
  - replace (_ - _) with (wrapI64 (upper + wrapI64 (extra * 2)) + (- upper)) by lia. rewrite wrapI64_wrap. f_equal. lia.
Qed.
(** The wait after step 56 has length zero as a machine word. *)
Lemma nextVoteRanges_range s : wrap64 ((nextVoteRanges s).2 - (nextVoteRanges s).1) <> 0 -> s < 57.
Proof.
  unfold nextVoteRanges. rewrite voteRangesLoop_range by reflexivity. intros H. destruct (Z.lt_ge_cases s 57) as [|Hs]; [done|]. destruct H.
  unfold next. rewrite Z2Nat.id by lia. replace (2 ^ (s - 3)) with (2 ^ 54 * 2 ^ (s - 57)) by (rewrite <- Z.pow_add_r; [f_equal; lia|lia..]).
  unfold recoveryExtraTimeout, SmallLambda, wrap64. apply Z.mod_divide; [lia|]. exists (1953125 * 2 ^ (s - 57)). lia.
Qed.

(** ** Votes among actions *)

(** [x] is a vote the player asks for. *)
Definition voted (acts : list action) (x : pseudonodeAction) : Prop := PseudonodeAction x ∈ acts /\ psa_T x = attest.
Definition no_votes (acts : list action) : Prop := forall x, ~ voted acts x.

Lemma voted_app acts1 acts2 x : voted (acts1 ++ acts2) x <-> voted acts1 x \/ voted acts2 x.
Proof. unfold voted. rewrite elem_of_app. tauto. Qed.
Lemma voted_cons a acts x : voted (a :: acts) x <-> (a = PseudonodeAction x /\ psa_T x = attest) \/ voted acts x.
Proof. unfold voted. rewrite elem_of_cons. intuition congruence. Qed.
Lemma voted_nil x : ~ voted [] x.
Proof. intros [H _]. set_solver. Qed.
Lemma no_votes_nil : no_votes [].
Proof. intros x. apply voted_nil. Qed.
Lemma no_votes_app acts1 acts2 : no_votes acts1 -> no_votes acts2 -> no_votes (acts1 ++ acts2).
Proof. intros H1 H2 x [?|?]%voted_app; [by eapply H1|by eapply H2]. Qed.
Lemma no_votes_cons a acts : (forall x, a = PseudonodeAction x -> psa_T x <> attest) -> no_votes acts -> no_votes (a :: acts).
Proof. intros Ha H x [[E ?]|?]%voted_cons; [by eapply Ha|by eapply H]. Qed.

Create HintDb votes.
#[export] Hint Resolve no_votes_nil no_votes_app : votes.
Ltac no_votes := repeat first [apply no_votes_nil | apply no_votes_app | apply no_votes_cons; [intros ? [=]; subst; done|] | done].

(** ** Quiet actions: the player stands still and staged values stay *)

Section Player.
Context (ac : AgreeCrypto).
#[local] Notation handleThreshold := (Player.handleThreshold dieT).
#[local] Notation handleEvent := (Player.handleEvent dieT).
#[local] Notation handleVote := (Player.handleVote dieT).
#[local] Notation handleBundle := (Player.handleBundle dieT).
#[local] Notation handleMessageEvent := (Player.handleMessageEvent ac dieT dieM).
#[local] Notation submitTop := (Player.submitTop ac dieT dieM).

Definition small (p : player) : Prop := 0 <= pl_Period p /\ pl_Period p + 1 < 2 ^ 64.
Definition quiet {A} (m : M PS A) : Prop := forall p router a s', small p -> m (p, router) = (Ok a, s') -> s'.1 = p /\ adv ac p router s'.2.

Lemma quiet_ret {A} (a : A) : quiet (mret a).
Proof. intros p router b s' _ E. injection E as <- <-. done. Qed.
Lemma quiet_bind {A B} (m : M PS A) (f : A -> M PS B) : quiet m -> (forall a, quiet (f a)) -> quiet (m ≫= f).
Proof.
  intros Hm Hf p router b s' Hs (a & [p1 r1] & E1 & E2)%M_bind_Ok. destruct (Hm _ _ _ _ Hs E1) as [Ep H1]. cbn in Ep, H1. subst p1.
  destruct (Hf a _ _ _ _ Hs E2) as [Ep H2]. split; [done|]. by etrans.
Qed.
Lemma quiet_dispatch {A} (m : player -> M rootRouter A) : (forall p, small p -> Keeps (adv ac p) (m p)) -> quiet (dispatch m).
Proof.
  intros Hm p router a s' Hs E. unfold dispatch in E. destruct (m p router) as [r router'] eqn:Em. injection E as -> <-.
  split; [done|]. by eapply Hm.
Qed.
Lemma quiet_getPlayer : quiet getPlayer.
Proof. intros p router a s' _ E. injection E as <- <-. done. Qed.

Lemma dispatch_Ok {A} (m : player -> M rootRouter A) p router a s' : dispatch m (p, router) = (Ok a, s') ->
  exists router', m p router = (Ok a, router') /\ s' = (p, router').
Proof. unfold dispatch. destruct (m p router) as [r router']. intros E. injection E as -> <-. eauto. Qed.

Lemma mret_Ok {S A} (a b : A) (s s' : S) : (mret a : M S A) s = (Ok b, s') -> a = b /\ s = s'.
Proof. intros E. by injection E as <- <-. Qed.
Lemma modPlayer_Ok f p router u s' : modPlayer f (p, router) = (Ok u, s') -> s' = (f p, router).
Proof. intros E. by injection E as _ <-. Qed.

Lemma quiet_readFreshest : quiet readFreshest.
Proof. apply quiet_dispatch. intros p Hp. apply Keeps_rootDispatch, Keeps_roundSelf; [done|]. apply Keeps_vtr_freshestBundle. Qed.
Lemma quiet_readNextStatus : quiet readNextStatus.
Proof.
  apply quiet_dispatch. intros p Hp. apply Keeps_rootDispatch, Keeps_roundDispatch; [done|]. apply Keeps_periodSelf.
  intros pr a pr' E. injection E as _ <-. reflexivity.
Qed.
Lemma quiet_stagedValue f : quiet (dispatch (λ p, stagedValue p (f p).1 (f p).2)).
Proof. apply quiet_dispatch. intros p Hp. by apply Keeps_stagedValue. Qed.
Lemma quiet_relayStaged r per : quiet (relayStaged r per).
Proof.
  apply quiet_bind; [apply (quiet_stagedValue (λ _, (r, per)))|]. intros sv. destruct (sv_Committable sv); [apply quiet_ret|].
  apply quiet_bind; [apply quiet_dispatch; intros p Hp; by apply Keeps_pinnedValue|]. intros ?. apply quiet_ret.
Qed.
Lemma relayStaged_no_votes r per s acts s' : relayStaged r per s = (Ok acts, s') -> no_votes acts.
Proof.
  intros (sv & s1 & _ & E)%M_bind_Ok. destruct (sv_Committable sv); [injection E as <- _; no_votes|].
  apply M_bind_Ok in E as (pin & s2 & _ & E). injection E as <- _. destruct (pin_PayloadOK pin); no_votes.
Qed.
Lemma quiet_partitionPolicy : quiet partitionPolicy.
Proof.
  apply quiet_bind; [apply quiet_getPlayer|]. intros p. destruct (partitioned p); cbn [negb]; [|apply quiet_ret].
  apply quiet_bind; [apply quiet_readFreshest|]. intros res. apply quiet_bind; [|intros ?; apply quiet_ret].
  repeat case_match; (apply quiet_relayStaged || apply quiet_ret).
Qed.
Lemma partitionPolicy_no_votes s acts s' : partitionPolicy s = (Ok acts, s') -> no_votes acts.
Proof.
  intros (p & s1 & _ & E)%M_bind_Ok. destruct (partitioned p); cbn [negb] in E; [|injection E as <- _; no_votes].
  apply M_bind_Ok in E as (res & s2 & _ & E). apply M_bind_Ok in E as (a1 & s3 & E1 & E). injection E as <- _.
  apply no_votes_app; [destruct (fb_Ok res); no_votes|].
  destruct (fb_Ok res && _); [by apply relayStaged_no_votes in E1|]. destruct (pl_Period p =? 0); [by apply relayStaged_no_votes in E1|].
  injection E1 as <- _. no_votes.
Qed.

(** ** The invariant *)

(** Messages whose votes have sensible periods, with the messages behind them. *)
Fixpoint wf_msg (e : messageEvent) : Prop :=
  match e with
  | mkMessageEvent _ i _ _ tail _ _ =>
    vote_ok (msg_Vote i) /\ Forall vote_ok (bundleVotes (msg_Bundle i)) /\ match tail with Some e' => wf_msg e' | None => True end
  end.

(** Round and period come before, or are the same. *)
Definition before (r : Round) (per : period) (p : player) : Prop := r < pl_Round p \/ (r = pl_Round p /\ per < pl_Period p).
Definition here (x : pseudonodeAction) (p : player) : Prop := psa_Round x = pl_Round p /\ psa_Period x = pl_Period p.

(** What a vote for the current round and period says of the state. *)
Definition current_vote (x : pseudonodeAction) (p : player) (router : rootRouter) : Prop :=
  (psa_Step x = soft -> cert <= pl_Step p) /\
  (next <= psa_Step x < late -> psa_Step x <= pl_Step p /\ (psa_Step x = pl_Step p -> pl_Napping p = false)) /\
  (psa_Step x = cert \/ psa_Step x = late -> psa_Proposal x = stageAt router (pl_Round p) (pl_Period p) /\ psa_Proposal x <> bottom) /\
  (psa_Step x = down -> psa_Proposal x = bottom).

Record Inv (A : list action) (s : PS) : Prop := {
  inv_small : small s.1;
  inv_step : soft <= pl_Step s.1 < 57;
  inv_nap : pl_Napping s.1 = true -> next < pl_Step s.1;
  inv_root : root_ok ac s.2;
  inv_pending : map_Forall (λ _ o, forall e, o = Some e -> wf_msg e) (tbl_Pending (pl_Pending s.1));
  inv_votes : forall x, voted A x -> soft <= psa_Step x /\ (before (psa_Round x) (psa_Period x) s.1 \/ (here x s.1 /\ current_vote x s.1 s.2));
  inv_agree : forall x y, voted A x -> voted A y -> psa_Round x = psa_Round y -> psa_Period x = psa_Period y -> psa_Step x = psa_Step y ->
    psa_Step x <> redo -> psa_Proposal x = psa_Proposal y
}.

Lemma Inv_quiet A p router router' : Inv A (p, router) -> adv ac p router router' -> Inv A (p, router').
Proof.
  intros [H1 H2 Hn H3 H4 H5 H6] Hadv. destruct (Hadv H3) as [Hok Hst]. split; try done. intros x Hx. destruct (H5 x Hx) as [Hs [?|[? (C1 & C2 & C3 & C4)]]]; [by split; [|left]|].
  split; [done|]. right. split; [done|]. split; [done|]. split; [done|]. split; [|done]. intros Hc. destruct (C3 Hc) as [E Hne]. cbn in *.
  rewrite E in Hne |- *. by rewrite Hst.
Qed.
Lemma Inv_no_votes A acts s : Inv A s -> no_votes acts -> Inv (A ++ acts) s.
Proof.
  intros [H1 H2 Hn H3 H4 H5 H6] Hnv. assert (forall x, voted (A ++ acts) x -> voted A x) as Hv by (intros x [?|?]%voted_app; [done|by destruct (Hnv x)]).
  split; try done; [intros x Hx; auto|]. intros x y Hx Hy. auto.
Qed.
(** Entering a later period or round. *)
Lemma Inv_enter A p router r per : Inv A (p, router) -> (pl_Round p < r \/ (r = pl_Round p /\ pl_Period p < per)) -> 0 <= per -> per + 1 < 2 ^ 64 ->
  Inv A (newPosition r per p, router).
Proof.
  intros [H1 H2 Hn H3 H4 H5 H6] Hlt Hp Hp'. split; try done.
  intros x Hx. destruct (H5 x Hx) as [Hs Hd]. split; [done|]. left. unfold before, here in *. cbn in *. lia.
Qed.
(** A vote for the current round and period. *)
Lemma Inv_vote A p router x : Inv A (p, router) -> here x p -> current_vote x p router -> soft <= psa_Step x ->
  (forall y, voted A y -> here y p -> psa_Step y = psa_Step x -> psa_Step x <> redo -> psa_Proposal y = psa_Proposal x) ->
  Inv (A ++ [PseudonodeAction x]) (p, router).
Proof.
  intros [H1 H2 Hn H3 H4 H5 H6] Hh Hc Hs Hag.
  assert (forall y, voted (A ++ [PseudonodeAction x]) y -> voted A y \/ y = x) as Hv.
  { intros y [?|Hy]%voted_app; [by left|]. apply voted_cons in Hy as [[[= <-] _]|[]%voted_nil]. by right. }
  assert (forall y z, y = x -> voted A z -> psa_Round y = psa_Round z -> psa_Period y = psa_Period z -> psa_Step y = psa_Step z ->
            psa_Step y <> redo -> psa_Proposal y = psa_Proposal z) as Hxz.
  { intros y z -> Hz Er Ep Es Hne. symmetry. apply Hag; try done. unfold here in *. by rewrite <- Er, <- Ep. }
  split; try done.
  - intros y [Hy| ->]%Hv; [by apply H5|]. split; [done|by right].
  - intros y z Hy Hz Er Ep Es Hne. apply Hv in Hy, Hz. destruct Hy as [Hy|Ey], Hz as [Hz|Ez].
    + by apply H6.
    + symmetry. apply (Hxz z y); try done. by rewrite <- Es.
    + by apply (Hxz y z).
    + by subst.
Qed.
(** Moving on within a period: the step grows, or a nap ends. *)
Lemma Inv_step A p p' router : Inv A (p, router) -> pl_Round p' = pl_Round p -> pl_Period p' = pl_Period p -> pl_Pending p' = pl_Pending p ->
  pl_Step p <= pl_Step p' < 57 -> (pl_Napping p' = true -> next < pl_Step p') ->
  (pl_Step p' = pl_Step p -> pl_Napping p = false -> pl_Napping p' = false) -> Inv A (p', router).
Proof.
  intros [H1 H2 Hn H3 H4 H5 H6] Er Ep Epd Hst Hn' Hnap. cbn in *. split; cbn; try done.
  - unfold small in *. by rewrite Ep.
  - lia.
  - by rewrite Epd.
  - intros x Hx. destruct (H5 x Hx) as [Hs [Hb|[Hh (C1 & C2 & C3 & C4)]]]; cbn in *.
    + split; [done|]. left. unfold before in *. by rewrite Er, Ep.
    + split; [done|]. right. unfold here, current_vote in *. rewrite Er, Ep. split; [done|]. split; [intros Hx1; specialize (C1 Hx1); lia|].
      split; [|done]. intros Hr. destruct (C2 Hr) as [Hle Hnp]. split; [lia|]. intros E. apply Hnap; [lia|]. apply Hnp. lia.
Qed.

(** ** What a handler achieves *)

(** The player's position does not go back. *)
Definition pos_le (p p' : player) : Prop :=
  pl_Round p < pl_Round p' \/
  (pl_Round p = pl_Round p' /\ (pl_Period p < pl_Period p' \/ (pl_Period p = pl_Period p' /\ pl_Step p <= pl_Step p'))).
#[local] Instance pos_le_preorder : PreOrder pos_le.
Proof. split; unfold pos_le; [intros p; lia|intros p q r; lia]. Qed.

(** A cert vote is for the committable value of the player's round and period. *)
Definition cert_ok (acts : list action) (s : PS) : Prop :=
  forall x, voted acts x -> psa_Step x = cert -> here x s.1 /\ committable s.1 s.2 (pl_Period s.1) (psa_Proposal x).

Record Outcome (A : list action) (s : PS) (acts : list action) (s' : PS) : Prop := {
  oc_inv : Inv (A ++ acts) s';
  oc_pos : pos_le s.1 s'.1;
  oc_cert : cert_ok acts s'
}.

Lemma Outcome_no_votes A s acts s' : Inv A s' -> pos_le s.1 s'.1 -> no_votes acts -> Outcome A s acts s'.
Proof. intros HI Hp Hn. split; [by apply Inv_no_votes|done|]. intros x Hx. by destruct (Hn x). Qed.
(** More actions without votes in front. *)
Lemma Outcome_cons A s acts1 acts s' : no_votes acts1 -> Outcome (A ++ acts1) s acts s' -> Outcome A s (acts1 ++ acts) s'.
Proof.
  intros Hn [HI Hp Hc]. split; [by rewrite app_assoc|done|]. intros x [?|Hx]%voted_app; [by destruct (Hn x)|by apply Hc].
Qed.
Lemma Outcome_trans A s s1 acts s' : pos_le s.1 s1.1 -> Outcome A s1 acts s' -> Outcome A s acts s'.
Proof. intros H1 [HI Hp Hc]. split; [done|by etrans|done]. Qed.

(** Votes that are not cert votes. *)
Lemma cert_ok_other acts x s : no_votes acts -> psa_Step x <> cert -> cert_ok (acts ++ [PseudonodeAction x]) s.
Proof. intros Hn Hx y [?|Hy]%voted_app; [by destruct (Hn y)|]. by apply voted_cons in Hy as [[[= <-] _]|[]%voted_nil]. Qed.

(** A cert vote for a committable value. *)
Lemma Outcome_cert A s0 p router pv acts : Inv A (p, router) -> pos_le s0.1 p -> committable p router (pl_Period p) pv -> no_votes acts ->
  Outcome A s0 (acts ++ [issueCertVote p pv]) (p, router).
Proof.
  intros HI Hp Hc Hn. apply Outcome_cons; [done|]. apply (Inv_no_votes _ acts) in HI; [|done]. pose proof Hc as (Hst & _ & Hne).
  set (x := mkPseudonodeAction attest (pl_Round p) (pl_Period p) cert pv). split.
  - apply (Inv_vote _ _ _ x); try done.
    + split; [done|]. split; [cbn; unfold next, cert; lia|]. split; [done|]. done.
    + intros y Hy Hh Es _. destruct (inv_votes _ _ HI y Hy) as [_ [Hb|[_ (_ & _ & C3 & _)]]].
      * unfold before, here in *. cbn in *. lia.
      * destruct C3 as [E _]; [by left|]. cbn in *. by rewrite E, Hst.
  - done.
  - intros y [[[= <-] _]|[]%voted_nil]%voted_cons _. split; [done|]. exact Hc.
Qed.

(** *** Timeouts *)

Lemma issueSoftVote_Ok p router acts s' : small p -> issueSoftVote (p, router) = (Ok acts, s') ->
  exists router', s' = (p <| pl_Deadline := deadlineTimeout |>, router') /\ adv ac p router router' /\
    (acts = [] \/ exists pv, acts = [PseudonodeAction (mkPseudonodeAction attest (pl_Round p) (pl_Period p) soft pv)]).
Proof.
  intros Hs (frozen & [p1 r1] & E1 & E)%M_bind_Ok. apply quiet_dispatch in E1 as [Ep H1]; [cbn in Ep, H1; subst p1| |done].
  2: { intros q Hq. apply Keeps_rootDispatch, Keeps_roundDispatch; [done|]. eauto with keeps. }
  apply M_bind_Ok in E as (ns & [p2 r2] & E2 & E). apply quiet_readNextStatus in E2 as [Ep H2]; [cbn in Ep, H2; subst p2|done].
  injection E as <- <-. exists r2. split; [done|]. split; [by etrans|]. destruct (softValue p frozen ns) as [pv|]; eauto.
Qed.

Lemma issueNextVote_Ok p router acts s' : small p -> issueNextVote (p, router) = (Ok acts, s') ->
  exists router' acts0 pv, s' = (p <| pl_Napping := false |> <| pl_Deadline := (nextVoteRanges (pl_Step p)).2 |>, router') /\ adv ac p router router' /\
    no_votes acts0 /\ acts = acts0 ++ [PseudonodeAction (mkPseudonodeAction attest (pl_Round p) (pl_Period p) (pl_Step p) pv)].
Proof.
  intros Hs (acts0 & [p1 r1] & E1 & E)%M_bind_Ok. pose proof (partitionPolicy_no_votes _ _ _ E1) as Hn.
  apply quiet_partitionPolicy in E1 as [Ep H1]; [cbn in Ep, H1; subst p1|done].
  apply M_bind_Ok in E as (sv & [p2 r2] & E2 & E). apply (quiet_stagedValue (λ p, (pl_Round p, pl_Period p))) in E2 as [Ep H2]; [cbn in Ep, H2; subst p2|done].
  apply M_bind_Ok in E as (pv & [p3 r3] & E3 & E). assert (p3 = p /\ adv ac p r2 r3) as [-> H3].
  { destruct (sv_Committable sv); [by injection E3 as _ <- <-|]. apply M_bind_Ok in E3 as (ns & [p4 r4] & E4 & E3).
    apply quiet_readNextStatus in E4 as [Ep H4]; [cbn in Ep, H4; subst p4|done]. by injection E3 as _ <- <-. }
  injection E as <- <-. exists r3, acts0, pv. split; [done|]. split; [|done]. etrans; [exact H1|]. by etrans.
Qed.

(** A next vote of a step in which there was none yet. *)
Lemma Outcome_next A s0 p router acts s' : Inv A (p, router) -> pos_le s0.1 p -> next <= pl_Step p ->
  (forall y, voted A y -> here y p -> psa_Step y <> pl_Step p) -> issueNextVote (p, router) = (Ok acts, s') -> Outcome A s0 acts s'.
Proof.
  intros HI Hpos Hst Hnew E. pose proof (inv_small _ _ HI) as Hs. pose proof (inv_step _ _ HI) as Hb. cbn in Hs, Hb.
  apply issueNextVote_Ok in E as (router' & acts0 & pv & -> & Hadv & Hn & ->); [|done].
  set (x := mkPseudonodeAction attest _ _ _ pv). set (p' := p <| pl_Napping := false |> <| pl_Deadline := _ |>).
  assert (Inv A (p', router')) as HI'.
  { eapply Inv_step; [eapply Inv_quiet; [exact HI|exact Hadv]|done..|cbn; lia|done|done]. }
  unfold next, cert, late, redo, down, soft in *. split.
  - rewrite app_assoc. apply Inv_vote; [by apply Inv_no_votes|done| | |].
    + unfold current_vote. cbn. unfold soft, cert, next, late, down. split; [lia|]. split; [done|]. split; lia.
    + cbn. unfold soft. lia.
    + intros y [Hy|Hy]%voted_app Hh Es _; [|by destruct (Hn y)]. by destruct (Hnew y).
  - done.
  - apply cert_ok_other; [done|]. cbn. unfold cert. lia.
Qed.

Lemma handleTimeout_Ok entropy A p router acts s' : Inv A (p, router) -> handleTimeout entropy (p, router) = (Ok acts, s') -> Outcome A (p, router) acts s'.
Proof.
  intros HI E. pose proof (inv_small _ _ HI) as Hs. pose proof (inv_step _ _ HI) as Hb. cbn in Hs, Hb.
  apply M_bind_Ok in E as (p0 & s0 & E0 & E). injection E0 as <- <-. cbn [fst] in E.
  destruct (Z.eqb_spec (pl_Step p) soft) as [Esoft|Hsoft].
  { apply M_bind_Ok in E as (acts1 & s1 & E1 & E). apply issueSoftVote_Ok in E1 as (router' & -> & Hadv & Hacts); [|done]. injection E as <- <-.
    set (p' := p <| pl_Deadline := deadlineTimeout |> <| pl_Step := cert |>).
    assert (Inv A (p', router')) as HI'.
    { eapply Inv_step; [eapply Inv_quiet; [exact HI|exact Hadv]|done..|cbn; rewrite Esoft; unfold soft, cert; lia| |].
      - cbn. intros Hnap. pose proof (inv_nap _ _ HI Hnap) as Hnn. cbn in Hnn. rewrite Esoft in Hnn. unfold next, soft in Hnn. lia.
      - cbn. rewrite Esoft. done. }
    assert (pos_le p p') as Hpos by (unfold pos_le; cbn; rewrite Esoft; unfold soft, cert; lia).
    destruct Hacts as [->|[pv ->]]; [by apply Outcome_no_votes; [..|no_votes]|]. split.
    - apply Inv_vote; [done|done| |cbn; unfold soft; lia|].
      + unfold current_vote. cbn. unfold soft, cert, next, late, down. lia.
      + intros y Hy Hh Ey _. cbn in Ey. destruct (inv_votes _ _ HI y Hy) as [_ [Hbf|[_ (C1 & _)]]].
        * unfold before, here in *. cbn in *. lia.
        * specialize (C1 Ey). cbn in C1. rewrite Esoft in C1. unfold soft, cert in C1. lia.
    - done.
    - by apply (cert_ok_other []); [no_votes|]. }
  destruct (Z.eqb_spec (pl_Step p) cert) as [Ecert|Hcert].
  { apply M_bind_Ok in E as ([] & s1 & E1 & E). injection E1 as <-. unfold cert, soft, next in *.
    assert (Inv A (p <| pl_Step := next |>, router)) as HI'.
    { eapply Inv_step; [exact HI|done..|cbn; unfold next; lia| |cbn; unfold next; lia].
      cbn. intros Hnap. pose proof (inv_nap _ _ HI Hnap) as Hnn. cbn in Hnn. unfold next in Hnn. lia. }
    eapply Outcome_next; [exact HI'| |cbn; unfold next; lia| |exact E].
    - unfold pos_le. cbn. unfold next. lia.
    - intros y Hy Hh Ey. cbn in Ey. destruct (inv_votes _ _ HI y Hy) as [_ [Hbf|[_ (_ & C2 & _)]]].
      + unfold before, here in *. cbn in *. lia.
      + cbn in C2. unfold next, late in *. lia. }
  destruct (pl_Napping p) eqn:Hnap.
  { eapply Outcome_next; [exact HI|done|unfold next, soft, cert in *; lia| |exact E].
    intros y Hy Hh Ey. destruct (inv_votes _ _ HI y Hy) as [_ [Hbf|[_ (_ & C2 & _)]]].
    - unfold before, here in *. cbn in *. lia.
    - cbn in C2. unfold next, late, soft, cert in *. destruct C2 as [_ Hnp]; [lia|]. rewrite Hnp in Hnap; [done|lia]. }
  rewrite wrap64_small in E by (unfold u64, soft in *; lia). destruct (nextVoteRanges (pl_Step p + 1)) as [lower upper] eqn:Er.
  destruct (Z.eqb_spec (wrap64 (upper - lower)) 0) as [|Hr]; [done|]. injection E as <- <-.
  pose proof (nextVoteRanges_range (pl_Step p + 1)) as Hlt. rewrite Er in Hlt. specialize (Hlt Hr).
  apply Outcome_no_votes; [|unfold pos_le; cbn; lia|no_votes].
  eapply Inv_step; [exact HI|done..|cbn; lia|cbn; unfold next, soft, cert in *; lia|cbn; lia].
Qed.

Lemma quiet_dumpVotes st : quiet (dumpVotes st).
Proof. apply quiet_dispatch. intros p Hp. apply Keeps_rootDispatch, Keeps_roundDispatch; [done|]. apply Keeps_periodDispatch. Qed.

(** A fast vote: for the committable value, for bottom, or again for the value of the
    last period. *)
Lemma issueFastVote_Ok p router acts s' : small p -> issueFastVote (p, router) = (Ok acts, s') ->
  exists router' acts0 st pv, s' = (p, router') /\ adv ac p router router' /\ no_votes acts0 /\
    acts = acts0 ++ [PseudonodeAction (mkPseudonodeAction attest (pl_Round p) (pl_Period p) st pv)] /\
    ((st = late /\ pv = stageAt router' (pl_Round p) (pl_Period p) /\ pv <> bottom) \/ st = redo \/ (st = down /\ pv = bottom)).
Proof.
  intros Hs (acts0 & [p1 r1] & E1 & E)%M_bind_Ok. pose proof (partitionPolicy_no_votes _ _ _ E1) as Hn.
  apply quiet_partitionPolicy in E1 as [Ep H1]; [cbn in Ep, H1; subst p1|done].
  apply M_bind_Ok in E as (vl & [p2 r2] & E2 & E). apply quiet_dumpVotes in E2 as [Ep H2]; [cbn in Ep, H2; subst p2|done].
  apply M_bind_Ok in E as (vr & [p3 r3] & E3 & E). apply quiet_dumpVotes in E3 as [Ep H3]; [cbn in Ep, H3; subst p3|done].
  apply M_bind_Ok in E as (vd & [p4 r4] & E4 & E). apply quiet_dumpVotes in E4 as [Ep H4]; [cbn in Ep, H4; subst p4|done]. cbv zeta in E.
  apply M_bind_Ok in E as (sv & s5 & E5 & E). pose proof E5 as E5'. apply dispatch_Ok in E5' as (r5 & E5' & ->).
  apply stagedValue_Ok in E5' as [Esv _]. apply (quiet_stagedValue (λ p, (pl_Round p, pl_Period p))) in E5 as [_ H5]; [cbn in H5|done].
  assert (adv ac p router r5) as H15 by (do 4 (etrans; [eassumption|]); done).
  apply M_bind_Ok in E as ([st pv] & [p6 r6] & E6 & E). injection E as <- <-.
  assert (forall a0, no_votes [NetworkAction a0]) as Hn0 by (intros; no_votes).
  destruct (sv_Committable sv).
  - injection E6 as <- <- <- <-. exists r5. cbn [fst snd]. eexists (acts0 ++ [_]), _, _. split; [done|]. split; [done|].
    split; [by apply no_votes_app|]. split; [by rewrite <- app_assoc|]. case_bool_decide as Hb; [by right; right|left]. by rewrite <- Esv.
  - apply M_bind_Ok in E6 as (ns & [p7 r7] & E7 & E6). apply quiet_readNextStatus in E7 as [Ep H7]; [cbn in Ep, H7; subst p7|done].
    injection E6 as E6 <- <-. exists r7. cbn [fst snd]. eexists (acts0 ++ [_]), _, _. split; [done|]. split; [by etrans|].
    split; [by apply no_votes_app|]. split; [by rewrite <- app_assoc|]. right.
    destruct (nts_Bottom ns); injection E6 as <- <-; case_bool_decide; auto.
Qed.

Lemma handleFastTimeout_Ok entropy proto A p router acts s' : Inv A (p, router) -> handleFastTimeout entropy proto (p, router) = (Ok acts, s') ->
  Outcome A (p, router) acts s'.
Proof.
  intros HI E. pose proof (inv_step _ _ HI) as Hb. unfold handleFastTimeout in E. destruct (cvv_Err proto).
  { injection E as <- <-. apply Outcome_no_votes; [done|done|no_votes]. }
  cbv zeta in E. destruct (_ =? 0); [done|]. apply M_bind_Ok in E as (p0 & s0 & E0 & E). injection E0 as <- <-. cbn [fst] in E.
  destruct (_ =? 0); [done|]. assert (forall d, Inv A (p <| pl_FastRecoveryDeadline := d |>, router)) as HId.
  { intros d. eapply Inv_step; [exact HI|done..|cbn in *; lia|apply (inv_nap _ _ HI)|done]. }
  destruct (pl_FastRecoveryDeadline p =? 0); apply M_bind_Ok in E as ([] & s1 & E1 & E); apply modPlayer_Ok in E1 as ->.
  { apply mret_Ok in E as [<- <-]. apply Outcome_no_votes; [apply HId|unfold pos_le; cbn; lia|no_votes]. }
  match type of E with issueFastVote (?q, _) = _ => set (p' := q) in *; assert (Inv A (p', router)) as HI' by apply HId; assert (pos_le p p') as Hpos by (unfold pos_le; cbn; lia) end.
  clearbody p'. pose proof (inv_small _ _ HI') as Hs. apply issueFastVote_Ok in E as (router' & acts0 & st & pv & -> & Hadv & Hn & -> & Hst); [|done].
  pose proof (Inv_quiet _ _ _ _ HI' Hadv) as HI2. set (x := mkPseudonodeAction attest _ _ st pv). pose proof (inv_step _ _ HI2) as Hb2. cbn in Hb2.
  assert (psa_Step x <> cert) as Hnc by (cbn; unfold cert, late, redo, down in *; destruct Hst as [(-> & _)|[->|[-> _]]]; lia).
  split.
  - rewrite app_assoc. apply Inv_vote; [by apply Inv_no_votes|done| | |].
    + unfold current_vote. cbn. unfold soft, cert, next, late, redo, down in *. destruct Hst as [(-> & ? & ?)|[->|[-> ?]]]; (split; [lia|]); (split; [lia|]); split; (lia || done).
    + cbn. unfold soft, late, redo, down in *. destruct Hst as [(-> & ? & ?)|[->|[-> ?]]]; lia.
    + intros y [Hy|Hy]%voted_app Hh Ey Hnr; [|by destruct (Hn y)]. cbn in Ey, Hnr |- *.
      destruct (inv_votes _ _ HI2 y Hy) as [_ [Hbf|[_ (_ & _ & C3 & C4)]]]; [unfold before, here in *; cbn in *; lia|].
      destruct Hst as [(-> & -> & ?)|[->|[-> ->]]]; [by apply C3; right|done|by apply C4].
  - done.
  - by apply cert_ok_other.
Qed.

(** *** Threshold events *)

Lemma readFreshest_Ok p router res s' : small p -> root_ok ac router -> readFreshest (p, router) = (Ok res, s') ->
  per_ok (te_Period (fb_Event res)).
Proof.
  intros Hs Hok (router' & E & ->)%dispatch_Ok. apply rootDispatch_Ok in E as (c & c' & Ec & Em & _). destruct (adv_update ac p (pl_Round p) router Hok) as [Hok' _].
  destruct (Hok' _ _ Ec) as (_ & _ & HF). by injection Em as <- _.
Qed.

Lemma enterPeriod_Ok A p router te target acts s' : Inv A (p, router) -> pl_Period p < target -> target + 1 < 2 ^ 64 ->
  (te_T te = softThreshold -> target = te_Period te) -> enterPeriod te target (p, router) = (Ok acts, s') -> Outcome A (p, router) acts s'.
Proof.
  intros HI Hlt Htgt Hsoft E. pose proof (inv_small _ _ HI) as Hs. cbn in Hs.
  apply M_bind_Ok in E as (acts0 & [p1 r1] & E1 & E). pose proof (partitionPolicy_no_votes _ _ _ E1) as Hn.
  apply quiet_partitionPolicy in E1 as [Ep H1]; [cbn in Ep, H1; subst p1|done]. pose proof (Inv_quiet _ _ _ _ HI H1) as HI1.
  apply M_bind_Ok in E as (e & s2 & E2 & E). apply dispatch_Ok in E2 as (r2 & E2 & ->).
  assert (adv ac p r1 r2) as H2 by (eapply Keeps_rootSelf; [|exact E2]; by apply Keeps_pm_threshold).
  pose proof (Inv_quiet _ _ _ _ HI1 H2) as HI2. apply M_bind_Ok in E as ([] & s3 & E3 & E). apply modPlayer_Ok in E3 as ->.
  apply M_bind_Ok in E as (p3 & s3 & E3 & E). injection E3 as <- <-. apply mret_Ok in E as [<- <-]. cbn [fst].
  assert (Inv A (newPosition (pl_Round p) target p, r2)) as HI3 by (apply Inv_enter; [done|lia|unfold small in Hs; lia|done]).
  assert (pos_le p (newPosition (pl_Round p) target p)) as Hpos by (unfold pos_le; cbn; lia).
  rewrite app_assoc. assert (no_votes (acts0 ++ [RezeroAction (pl_Round p)])) as Hn1 by no_votes.
  assert (forall rest, no_votes rest -> Outcome A (p, router) ((acts0 ++ [RezeroAction (pl_Round p)]) ++ rest) (newPosition (pl_Round p) target p, r2)) as Hplain.
  { intros rest Hr. apply Outcome_no_votes; [done|done|by apply no_votes_app]. }
  destruct e as [| | | |ce|]; try (apply Hplain; destruct (te_T te); [no_votes..|]; case_bool_decide; no_votes).
  unfold rootSelf in E2. apply (pm_threshold_committable ac) in E2 as [ET Hc]; [|done|by apply adv_update, (inv_root _ _ HI1)].
  rewrite <- (Hsoft ET) in Hc. by apply Outcome_cert.
Qed.

Section Fuel.
Context (fuel : nat) (k : thresholdEvent -> M PS (list action)).
Hypothesis k_Ok : forall A p router te acts s', Inv A (p, router) -> 0 <= pl_Round p -> pl_Round p + Z.of_nat fuel < 2 ^ 64 -> per_ok (te_Period te) ->
  k te (p, router) = (Ok acts, s') -> Outcome A (p, router) acts s'.

Lemma enterRound_Ok A p router source target acts s' : Inv A (p, router) -> 0 <= pl_Round p -> pl_Round p < target -> target + Z.of_nat fuel < 2 ^ 64 ->
  enterRound k source target (p, router) = (Ok acts, s') -> Outcome A (p, router) acts s'.
Proof using k_Ok.
  intros HI H0 Hlt Htgt E. pose proof (inv_small _ _ HI) as Hs. cbn in Hs.
  apply M_bind_Ok in E as (e & s1 & E1 & E). apply dispatch_Ok in E1 as (r1 & E1 & ->).
  assert (adv ac p router r1) as H1.
  { eapply Keeps_rootSelf; [|exact E1]. destruct source; [by apply Keeps_pm_threshold|by apply Keeps_pm_handleNewRound]. }
  apply M_bind_Ok in E as ([] & s2 & E2 & E). apply modPlayer_Ok in E2 as ->. cbv zeta in E.
  set (p' := newPosition target 0 p) in *. assert (Inv A (p', r1)) as HI1 by (apply Inv_enter; [by eapply Inv_quiet|lia|lia|lia]).
  assert (pos_le p p') as Hpos by (unfold pos_le; cbn; lia). pose proof (inv_small _ _ HI1) as Hs1. cbn in Hs1.
  apply M_bind_Ok in E as (res & s3 & E3 & E). pose proof (readFreshest_Ok _ _ _ _ Hs1 (inv_root _ _ HI1) E3) as Hper.
  apply quiet_readFreshest in E3 as [Ep H3]; [|done]. destruct s3 as [p3 r3]. cbn in Ep, H3. subst p3.
  pose proof (Inv_quiet _ _ _ _ HI1 H3) as HI3. apply M_bind_Ok in E as (a4 & s4 & E4 & E). apply mret_Ok in E as [<- <-].
  match goal with |- Outcome _ _ (?pre ++ _) _ => assert (no_votes pre) as Hn end.
  { apply no_votes_cons; [discriminate|]. apply no_votes_cons; [intros ? [= <-]; done|]. destruct e as [| | | | |ep]; try no_votes. destruct (pp_T ep); no_votes. }
  apply Outcome_cons; [done|]. apply (Inv_no_votes _ _ _ HI3) in Hn as HI4. apply Outcome_trans with (s1 := (p', r3)); [exact Hpos|].
  destruct (fb_Ok res); [eapply k_Ok; [exact HI4|cbn; lia|cbn; lia|exact Hper|exact E4]|]. apply mret_Ok in E4 as [<- <-].
  apply Outcome_no_votes; [done|done|no_votes].
Qed.

Lemma handleThresholdEvent_Ok A p router te acts s' : Inv A (p, router) -> 0 <= pl_Round p -> pl_Round p + Z.of_nat (S fuel) < 2 ^ 64 -> per_ok (te_Period te) ->
  handleThresholdEvent k te (p, router) = (Ok acts, s') -> Outcome A (p, router) acts s'.
Proof using k_Ok.
  intros HI H0 Hb Hper E. pose proof (inv_small _ _ HI) as Hs. cbn in Hs. apply M_bind_Ok in E as (p0 & s0 & E0 & E). injection E0 as <- <-. cbn [fst] in E.
  assert (forall (a b : M PS (list action)), (if wrap64 (te_Period te + 1) <=? pl_Period p then a else b) (p, router) = (Ok acts, s') ->
            (a (p, router) = (Ok acts, s') /\ te_Period te < pl_Period p) \/ (b (p, router) = (Ok acts, s') /\ pl_Period p <= te_Period te)) as Hif.
  { intros a b Hab. unfold per_ok in Hper. rewrite wrap64_small in Hab by (unfold u64; lia). destruct (Z.leb_spec (te_Period te + 1) (pl_Period p)); [left|right]; (split; [done|lia]). }
  assert (Outcome A (p, router) [] (p, router)) as Hnil by (apply Outcome_no_votes; [done|done|no_votes]).
  destruct (te_T te) eqn:ET.
  - by apply mret_Ok in E as [<- <-].
  - apply Hif in E as [[E _]|[E Hle]]; [by apply mret_Ok in E as [<- <-]|]. rewrite bool_decide_true in E by done.
    destruct (Z.eqb_spec (pl_Period p) (te_Period te)) as [Eper|Hne].
    + apply M_bind_Ok in E as (ec & s1 & E1 & E). apply dispatch_Ok in E1 as (r1 & E1 & ->).
      assert (adv ac p router r1) as H1 by (eapply Keeps_rootSelf; [|exact E1]; by apply Keeps_pm_threshold).
      pose proof (Inv_quiet _ _ _ _ HI H1) as HI1. assert (Outcome A (p, router) [] (p, r1)) as Hnil1 by (apply Outcome_no_votes; [done|done|no_votes]).
      apply mret_Ok in E as [<- <-]. destruct ec as [| | | |ce|]; try done. destruct (pl_Step p <=? cert); [|done].
      unfold rootSelf in E1. apply (pm_threshold_committable ac) in E1 as [_ Hc]; [|done|by apply adv_update, (inv_root _ _ HI)]. rewrite <- Eper in Hc.
      by apply (Outcome_cert A (p, router) p r1 (ce_Proposal ce) []); [..|no_votes].
    + eapply enterPeriod_Ok; [exact HI| | | |exact E]; [lia|unfold per_ok in Hper; lia|done].
  - apply M_bind_Ok in E as (sv & [p1 r1] & E1 & E). apply (quiet_stagedValue (λ _, (te_Round te, te_Period te))) in E1 as [Ep H1]; [cbn in Ep, H1; subst p1|done].
    apply M_bind_Ok in E as (rest & s2 & E2 & E). apply mret_Ok in E as [<- <-]. apply (Outcome_cons _ _ [_]); [no_votes|].
    rewrite wrap64_small in E2 by (unfold u64; lia). apply Outcome_trans with (s1 := (p, r1)); [done|].
    apply (enterRound_Ok _ p r1 (Some te) (pl_Round p + 1)); [|done|lia|lia|done]. apply Inv_no_votes; [by eapply Inv_quiet|no_votes].
  - apply Hif in E as [[E _]|[E Hle]]; [by apply mret_Ok in E as [<- <-]|]. rewrite bool_decide_false in E by done.
    rewrite wrap64_small in E by (unfold u64, per_ok in *; lia).
    eapply enterPeriod_Ok; [exact HI| | | |exact E]; [lia|unfold per_ok in Hper; lia|by rewrite ET].
Qed.
End Fuel.

Lemma handleThreshold_Ok fuel : forall A p router te acts s', Inv A (p, router) -> 0 <= pl_Round p -> pl_Round p + Z.of_nat fuel < 2 ^ 64 -> per_ok (te_Period te) ->
  handleThreshold fuel te (p, router) = (Ok acts, s') -> Outcome A (p, router) acts s'.
Proof.
  induction fuel as [|fuel IH]; [done|]. intros A p router te acts s' HI H0 Hb Hper E. cbn [Player.handleThreshold] in E.
  eapply handleThresholdEvent_Ok; [exact IH|..]; done.
Qed.

(** *** Messages *)

Lemma wf_msg_inv e : wf_msg e -> vote_ok (msg_Vote (me_Input e)) /\ Forall vote_ok (bundleVotes (msg_Bundle (me_Input e))) /\
  forall e', me_Tail e = Some e' -> wf_msg e'.
Proof. destruct e as [T i err ti tail c pr]. cbn. intros (H1 & H2 & H3). split_and!; try done. by intros e' ->. Qed.

(** Only the table of pending proposals changes. *)
Lemma Inv_pending A p router t : Inv A (p, router) -> map_Forall (λ _ o, forall e, o = Some e -> wf_msg e) (tbl_Pending t) ->
  Inv A (p <| pl_Pending := t |>, router).
Proof. intros [H1 H2 Hn H3 H4 H5 H6] Ht. split; try done. Qed.

Lemma handleProposalVote_Ok A p router e r s' : Inv A (p, router) -> wf_msg e -> handleProposalVote ac e (p, router) = (Ok r, s') ->
  Inv A s' /\ pos_le p s'.1 /\ no_votes r.1 /\ pl_Round s'.1 = pl_Round p.
Proof.
  intros HI Hwf E. pose proof (inv_small _ _ HI) as Hs. cbn in Hs. apply wf_msg_inv in Hwf as (_ & _ & Htail).
  apply M_bind_Ok in E as (ef & s1 & E1 & E). apply dispatch_Ok in E1 as (r1 & E1 & ->).
  assert (adv ac p router r1) as H1 by (eapply Keeps_rootSelf; [|exact E1]; by apply Keeps_pm_handleMessageEvent).
  pose proof (Inv_quiet _ _ _ _ HI H1) as HI1.
  assert (forall (x : list action * bool) (s : PS), x = r -> s = s' -> s = (p, r1) -> no_votes x.1 -> Inv A s' /\ pos_le p s'.1 /\ no_votes r.1 /\ pl_Round s'.1 = pl_Round p) as Hdone.
  { by intros x s -> <- ->. }
  assert (forall (m : M PS (list action * bool)), (match me_T e with
       | votePresent => seq ← pushTail e;
           mret ([verifyVoteAction e (rv_Round (uv_R (msg_UnauthenticatedVote (me_Input e)))) (rv_Period (uv_R (msg_UnauthenticatedVote (me_Input e)))) seq], false)
       | _ => m end) (p, r1) = (Ok r, s') ->
       m (p, r1) = (Ok r, s') \/ (Inv A s' /\ pos_le p s'.1 /\ no_votes r.1 /\ pl_Round s'.1 = pl_Round p)) as Hpush.
  { intros m. destruct (me_T e); auto. intros E0. right. apply M_bind_Ok in E0 as (seq & s2 & E2 & E0). apply mret_Ok in E0 as [<- <-].
    unfold pushTail in E2. cbn in E2. injection E2 as _ <-. split; [|split; [unfold pos_le; cbn; lia|split; [no_votes|done]]].
    apply Inv_pending; [done|]. apply map_Forall_insert_2; [exact Htail|apply (inv_pending _ _ HI1)]. }
  destruct ef as [|te|T err|pa|ce|ep].
  - apply Hpush in E as [E|E]; [done|exact E].
  - apply Hpush in E as [E|E]; [done|exact E].
  - destruct T; try (apply Hpush in E as [E|E]; [done|exact E]); apply mret_Ok in E as [E1' E2']; (eapply Hdone; [exact E1'|done|done|]); no_votes.
  - apply Hpush in E as [E|E]; [|exact E]. apply mret_Ok in E as [E1' E2']. eapply Hdone; [exact E1'|done|done|]. destruct (pa_PayloadOk pa); no_votes.
  - apply Hpush in E as [E|E]; [done|exact E].
  - apply Hpush in E as [E|E]; [done|exact E].
Qed.

Lemma takeTail_Ok A p router e tail s' : Inv A (p, router) -> wf_msg e -> takeTail e (p, router) = (Ok tail, s') ->
  Inv A s' /\ pos_le p s'.1 /\ (forall e', tail = Some e' -> wf_msg e') /\ pl_Round s'.1 = pl_Round p.
Proof.
  intros HI Hwf E. apply wf_msg_inv in Hwf as (_ & _ & Htail). unfold takeTail in E.
  assert ((Ok (me_Tail e), (p, router)) = (Ok tail, s') -> Inv A s' /\ pos_le p s'.1 /\ (forall e', tail = Some e' -> wf_msg e') /\ pl_Round s'.1 = pl_Round p) as Hd.
  { intros E0. by injection E0 as <- <-. }
  destruct (me_T e); try (by apply Hd). cbn in E. injection E as <- <-. pose proof (inv_pending _ _ HI) as HP. split_and!.
  - apply Inv_pending; [done|]. by apply map_Forall_delete.
  - unfold pos_le. cbn. lia.
  - intros e' He. cbn in HP. destruct (tbl_Pending (pl_Pending p) !! me_TaskIndex e) as [o|] eqn:Eo; [|done]. cbn in He. by apply (HP _ _ Eo).
  - done.
Qed.

Lemma handlePayload_Ok A p router e acts s' : Inv A (p, router) -> handlePayload ac e (p, router) = (Ok acts, s') -> Outcome A (p, router) acts s'.
Proof.
  intros HI E. pose proof (inv_small _ _ HI) as Hs. cbn in Hs. apply M_bind_Ok in E as (ef & s1 & E1 & E). apply dispatch_Ok in E1 as (r1 & E1 & ->).
  assert (adv ac p router r1) as H1 by (eapply Keeps_rootSelf; [|exact E1]; by apply Keeps_pm_handleMessageEvent).
  pose proof (Inv_quiet _ _ _ _ HI H1) as HI1. apply M_bind_Ok in E as (p0 & s0 & E0 & E). injection E0 as <- <-. cbn [fst] in E. cbv zeta in E.
  assert (forall acts0, no_votes acts0 -> (mret acts0 : M PS _) (p, r1) = (Ok acts, s') -> Outcome A (p, router) acts s') as Hd.
  { intros acts0 Hn [<- <-]%mret_Ok. by apply Outcome_no_votes. }
  destruct ef as [|te|T err|pa|ce|ep].
  - eapply Hd; [|exact E]. no_votes.
  - eapply Hd; [|exact E]. no_votes.
  - destruct T; (eapply Hd; [|exact E]); no_votes.
  - eapply Hd; [|exact E]. no_votes.
  - apply mret_Ok in E as [<- <-]. destruct (pl_Step p <=? cert); [|apply Outcome_no_votes; [done|done|no_votes]].
    apply (Outcome_cert A (p, router) p r1 (ce_Proposal ce) [_]); [done|done| |no_votes]. unfold rootSelf in E1.
    eapply pm_message_committable; [done|exact E1|]. by apply adv_update, (inv_root _ _ HI).
  - destruct (pp_T ep); try (eapply Hd; [|exact E]; no_votes). destruct (_ =? _); (eapply Hd; [|exact E]); no_votes.
Qed.

(** What the aggregator makes of a message. *)
Lemma agg_quiet A p router e ef s' : Inv A (p, router) -> wf_msg e ->
  dispatch (λ p, rootSelf p 0 (agg_handle p e (freshnessOf p))) (p, router) = (Ok ef, s') ->
  exists router', s' = (p, router') /\ Inv A (p, router') /\ forall te, ef = ThresholdEvent te -> per_ok (te_Period te).
Proof.
  intros HI (Hv & Hb & _)%wf_msg_inv (r1 & E1 & ->)%dispatch_Ok. pose proof (inv_small _ _ HI) as Hs. cbn in Hs. unfold rootSelf in E1.
  apply (agg_handle_Ok ac p Hs) in E1 as [H1 Hte]; [|done..]. exists r1. split; [done|]. split.
  - eapply Inv_quiet; [exact HI|]. etrans; [apply (adv_update ac p 0)|exact H1].
  - intros te ->. by apply Hte.
Qed.

Lemma handleEvent_Ok fuel A p router ef acts s' : Inv A (p, router) -> 0 <= pl_Round p -> pl_Round p + Z.of_nat fuel < 2 ^ 64 ->
  (forall te, ef = ThresholdEvent te -> per_ok (te_Period te)) -> handleEvent fuel ef (p, router) = (Ok acts, s') -> Outcome A (p, router) acts s'.
Proof.
  intros HI H0 Hb Hte E. destruct ef as [|te| | | |]; try done.
  - apply mret_Ok in E as [<- <-]. apply Outcome_no_votes; [done|done|no_votes].
  - eapply handleThreshold_Ok; [done..|by apply Hte|exact E].
Qed.

Lemma handleVote_Ok fuel A p router e acts s' : Inv A (p, router) -> wf_msg e -> 0 <= pl_Round p -> pl_Round p + Z.of_nat fuel < 2 ^ 64 ->
  handleVote fuel e (p, router) = (Ok acts, s') -> Outcome A (p, router) acts s'.
Proof.
  intros HI Hwf H0 Hb E. apply M_bind_Ok in E as (ef & s1 & E1 & E). destruct (agg_quiet _ _ _ _ _ _ HI Hwf E1) as (r1 & -> & HI1 & Hte).
  assert (forall acts0, no_votes acts0 -> (mret acts0 : M PS _) (p, r1) = (Ok acts, s') -> Outcome A (p, router) acts s') as Hd.
  { intros acts0 Hn [<- <-]%mret_Ok. by apply Outcome_no_votes. }
  assert (forall E0 : (a1 ← handleEvent fuel ef; mret (relayAction e (OVote (vote_u (msg_Vote (me_Input e)))) :: a1)) (p, r1) = (Ok acts, s'), Outcome A (p, router) acts s') as Hv.
  { intros E0. apply M_bind_Ok in E0 as (a1 & s2 & E2 & E0). apply mret_Ok in E0 as [<- <-]. apply (Outcome_cons _ _ [_]); [no_votes|].
    apply Outcome_trans with (s1 := (p, r1)); [done|]. eapply handleEvent_Ok; [|done|done|exact Hte|exact E2]. apply Inv_no_votes; [done|no_votes]. }
  assert (forall acts0, no_votes acts0 -> (match me_T e with votePresent => mret acts0
      | _ => a1 ← handleEvent fuel ef; mret (relayAction e (OVote (vote_u (msg_Vote (me_Input e)))) :: a1) end) (p, r1) = (Ok acts, s') -> Outcome A (p, router) acts s') as Hm.
  { intros acts0 Hn E0. destruct (me_T e); auto. by eapply Hd. }
  destruct ef as [|te|T err|pa|ce|ep]; try (eapply Hm; [|exact E]; no_votes).
  destruct T; try (eapply Hm; [|exact E]; no_votes); (eapply Hd; [|exact E]); no_votes.
Qed.

Lemma handleBundle_Ok fuel A p router e acts s' : Inv A (p, router) -> wf_msg e -> 0 <= pl_Round p -> pl_Round p + Z.of_nat fuel < 2 ^ 64 ->
  handleBundle fuel e (p, router) = (Ok acts, s') -> Outcome A (p, router) acts s'.
Proof.
  intros HI Hwf H0 Hb E. apply M_bind_Ok in E as (ef & s1 & E1 & E). destruct (agg_quiet _ _ _ _ _ _ HI Hwf E1) as (r1 & -> & HI1 & Hte).
  assert (forall acts0, no_votes acts0 -> (mret acts0 : M PS _) (p, r1) = (Ok acts, s') -> Outcome A (p, router) acts s') as Hd.
  { intros acts0 Hn [<- <-]%mret_Ok. by apply Outcome_no_votes. }
  destruct ef as [|te|T err|pa|ce|ep].
  - destruct (me_T e); try done. eapply Hd; [|exact E]. no_votes.
  - assert (forall E0 : (a1 ← handleEvent fuel (ThresholdEvent te); mret (relayAction e (OBundle (te_Bundle te)) :: a1)) (p, r1) = (Ok acts, s'), Outcome A (p, router) acts s') as Hv.
    { intros E0. apply M_bind_Ok in E0 as (a1 & s2 & E2 & E0). apply mret_Ok in E0 as [<- <-]. apply (Outcome_cons _ _ [_]); [no_votes|].
      apply Outcome_trans with (s1 := (p, r1)); [done|]. eapply handleEvent_Ok; [|done|done|exact Hte|exact E2]. apply Inv_no_votes; [done|no_votes]. }
    destruct (me_T e); auto. eapply Hd; [|exact E]. no_votes.
  - destruct T; try (destruct (me_T e); try done; eapply Hd; [|exact E]; no_votes); (eapply Hd; [|exact E]); no_votes.
  - destruct (me_T e); try done. eapply Hd; [|exact E]. no_votes.
  - destruct (me_T e); try done. eapply Hd; [|exact E]. no_votes.
  - destruct (me_T e); try done. eapply Hd; [|exact E]. no_votes.
Qed.

Lemma handleMessageEvent_Ok fuel : forall A p router e acts s', Inv A (p, router) -> wf_msg e -> 0 <= pl_Round p -> pl_Round p + Z.of_nat fuel < 2 ^ 64 ->
  handleMessageEvent fuel e (p, router) = (Ok acts, s') -> Outcome A (p, router) acts s'.
Proof.
  induction fuel as [|fuel IH]; [done|]. intros A p router e acts s' HI Hwf H0 Hb E. cbn [Player.handleMessageEvent] in E. destruct (isProposalVote e).
  - apply M_bind_Ok in E as ([acts1 b] & [p1 r1] & E1 & E). apply handleProposalVote_Ok with (A := A) in E1 as (HI1 & Hp1 & Hn & Er1); [|done..].
    apply M_bind_Ok in E as (tail & [p2 r2] & E2 & E). apply takeTail_Ok with (A := A) in E2 as (HI2 & Hp2 & Htail & Er2); [|done..]. cbn in *.
    assert (pos_le p p2) as Hp by (by etrans). assert (Outcome A (p, router) acts1 (p2, r2)) as Hplain by (by apply Outcome_no_votes).
    destruct b; [|by apply mret_Ok in E as [<- <-]]. destruct tail as [ev|]; [|by apply mret_Ok in E as [<- <-]].
    apply M_bind_Ok in E as (suffix & s3 & E3 & E). apply mret_Ok in E as [<- <-]. apply Outcome_cons; [done|].
    apply Outcome_trans with (s1 := (p2, r2)); [done|]. eapply IH; [by apply Inv_no_votes|by apply Htail|lia|lia|exact E3].
  - assert (pl_Round p + Z.of_nat fuel < 2 ^ 64) by lia.
    destruct (me_T e); [eapply handleVote_Ok|eapply handleVote_Ok|eapply handlePayload_Ok|eapply handlePayload_Ok|eapply handleBundle_Ok|eapply handleBundle_Ok]; done.
Qed.

(** Events as the service delivers them: votes with sensible periods, and rounds that
    the ledger reached ahead of the player. *)
Definition wf_input (fuel : nat) (p : player) (i : input) : Prop :=
  match i with
  | InMessage e => wf_msg e
  | InThreshold te => per_ok (te_Period te)
  | InRoundInterruption r => pl_Round p < r /\ r + Z.of_nat fuel < 2 ^ 64
  | _ => True
  end.

Lemma submitTop_Ok fuel A p router i acts s' : Inv A (p, router) -> wf_input fuel p i -> 0 <= pl_Round p -> pl_Round p + Z.of_nat fuel < 2 ^ 64 ->
  submitTop fuel i (p, router) = (Ok acts, s') -> Outcome A (p, router) acts s'.
Proof.
  intros HI Hwf H0 Hb E. apply Outcome_trans with (s1 := (p, root_update p 0 router)); [done|].
  pose proof (Inv_quiet _ _ _ _ HI (adv_update ac p 0 router)) as HI1. unfold submitTop in E. destruct i as [e|te|entropy|entropy proto|r|r per st err done]; cbn in Hwf, E.
  - by eapply handleMessageEvent_Ok.
  - by eapply handleThreshold_Ok.
  - by eapply handleTimeout_Ok.
  - by eapply handleFastTimeout_Ok.
  - eapply enterRound_Ok; [exact (handleThreshold_Ok fuel)|done|done|apply Hwf|apply Hwf|exact E].
  - apply mret_Ok in E as [<- <-]. apply Outcome_no_votes; [done|done|no_votes].
Qed.

(** ** Runs *)

(** A player at the start of a round's period, with nothing received. *)
Definition starts (p : player) : Prop :=
  small p /\ pl_Step p = soft /\ pl_Napping p = false /\ tbl_Pending (pl_Pending p) = ∅.

(** [run s A s']: from [s], events have led to [s'] with the actions [A]. *)
Inductive run (s : PS) : list action -> PS -> Prop :=
| run_nil : run s [] s
| run_step A p router fuel i acts s' : run s A (p, router) -> 0 <= pl_Round p -> pl_Round p + Z.of_nat fuel < 2 ^ 64 -> wf_input fuel p i ->
    submitTop fuel i (p, router) = (Ok acts, s') -> run s (A ++ acts) s'.

Lemma run_Inv p A s : starts p -> run (p, ∅) A s -> Inv A s.
Proof.
  intros (Hs & Hst & Hn & Hpd). induction 1 as [|A p' router fuel i acts s' _ IH H0 Hb Hwf E].
  - split; cbn; try done.
    + rewrite Hst. unfold soft. lia.
    + by rewrite Hn.
    + rewrite Hpd. by apply map_Forall_empty.
    + intros x []%voted_nil.
    + intros x y []%voted_nil.
  - by eapply oc_inv, submitTop_Ok.
Qed.

(** C10: The player does not equivocate.  Over any run, whatever messages and timeouts it
    is given, two votes that the player asks for in the same round, period and step are
    for the same value; the redo step of fast recovery is the only exception. *)
Theorem no_equivocation p A s x y : starts p -> run (p, ∅) A s -> voted A x -> voted A y ->
  psa_Round x = psa_Round y -> psa_Period x = psa_Period y -> psa_Step x = psa_Step y -> psa_Step x <> redo -> psa_Proposal x = psa_Proposal y.
Proof. intros Hs Hr. apply (inv_agree _ _ (run_Inv _ _ _ Hs Hr)). Qed.

(** C11: Cert votes are safe.  When an event makes the player ask for a cert vote, the vote
    is for its current round and period, the value has the period's soft quorum staged,
    and the node holds a validated payload with exactly that value. *)
Theorem cert_vote_sound p A q router fuel i acts s' x : starts p -> run (p, ∅) A (q, router) -> 0 <= pl_Round q -> pl_Round q + Z.of_nat fuel < 2 ^ 64 ->
  wf_input fuel q i -> submitTop fuel i (q, router) = (Ok acts, s') -> voted acts x -> psa_Step x = cert ->
  psa_Round x = pl_Round s'.1 /\ psa_Period x = pl_Period s'.1 /\ stageAt s'.2 (psa_Round x) (psa_Period x) = psa_Proposal x /\
  exists rr ea, s'.2 !! psa_Round x = Some rr /\ st_Assemblers (rr_ProposalStore rr) !! psa_Proposal x = Some ea /\ ba_Assembled ea = true /\
    up_value ac (ba_Payload ea) = psa_Proposal x.
Proof.
  intros Hs Hr H0 Hb Hwf E Hv Hc. destruct (submitTop_Ok _ _ _ _ _ _ _ (run_Inv _ _ _ Hs Hr) Hwf H0 Hb E) as [HI _ Hok].
  destruct (Hok x Hv Hc) as [[Er Ep] (Hst & (rr & Err & ea & Eea & Ha) & _)]. rewrite Er, Ep. split_and!; try done. exists rr, ea. split_and!; try done.
  destruct (inv_root _ _ HI _ _ Err) as (_ & [HS _] & _). by apply (HS _ _ Eea).
Qed.

(** The player only moves forward.  Handling an event never lowers its round, its
    period within the round, or its step within the period. *)
Theorem player_forward p A q router fuel i acts s' : starts p -> run (p, ∅) A (q, router) -> 0 <= pl_Round q -> pl_Round q + Z.of_nat fuel < 2 ^ 64 ->
  wf_input fuel q i -> submitTop fuel i (q, router) = (Ok acts, s') -> pos_le q s'.1.
Proof. intros Hs Hr H0 Hb Hwf E. apply (submitTop_Ok _ _ _ _ _ _ _ (run_Inv _ _ _ Hs Hr) Hwf H0 Hb E). Qed.
End Player.

(** ** A period in which a value is certified *)
Module PlayerWitness.
Import AgreementSpec.AgreementWitness.

(** A run computed from a list of events; [None] when a step panics or leaves the bounds. *)
Fixpoint exec (fuel : nat) (ins : list input) (A : list action) (s : PS) : option (list action * PS) :=
  match ins with
  | [] => Some (A, s)
  | i :: ins =>
    if (0 <=? pl_Round s.1) && (pl_Round s.1 + Z.of_nat fuel <? 2 ^ 64) then
      match submitTop ac dieT dieM fuel i s with
      | (Ok acts, s') => exec fuel ins (A ++ acts) s'
      | _ => None
      end
    else None
  end.
Lemma exec_run s0 fuel ins : forall A s A' s', run ac s0 A s -> (forall i p, i ∈ ins -> wf_input fuel p i) -> exec fuel ins A s = Some (A', s') -> run ac s0 A' s'.
Proof.
  induction ins as [|i ins IH]; intros A s A' s' HR Hwf E; [by injection E as <- <-|]. cbn in E. destruct (_ && _) eqn:Eb; [|done].
  apply andb_true_iff in Eb as [H0%Z.leb_le Hb%Z.ltb_lt]. destruct (submitTop _ _ _ _ _ _) as [[acts| |] s1] eqn:Es; try done.
  destruct s as [p router]. apply (IH _ _ _ _ (run_step ac s0 A p router fuel i acts s1 HR H0 Hb (Hwf i p ltac:(set_solver)) Es)); [|done].
  intros j q Hj. apply Hwf. set_solver.
Qed.

Definition version : ConsensusVersionView := mkConsensusVersionView None ConsensusV19.
Definition payload : unauthenticatedProposal := proposed.1.
Definition pv : proposalValue := up_value ac payload.
Definition voteOf (a s w : Z) : vote :=
  mkVote (mkRawVote (addr a) 20 0 s pv) (mkCredential w zero32 true (mkHashableCredential (replicate 64 0) (addr a) 0) []) [].
Definition voteMsg (v : vote) : input :=
  InMessage (mkMessageEvent voteVerified (message_zero <| msg_Vote := v |> <| msg_UnauthenticatedVote := vote_u v |>) None 0 None false version).
Definition payloadMsg (T : messageType) : input :=
  InMessage (mkMessageEvent T (message_zero <| msg_Proposal := payload |> <| msg_UnauthenticatedProposal := payload |>) None 0 None false version).

(** A proposal, its payload, and soft votes of weight 600 each. *)
Definition opening : list input := [voteMsg (voteOf 1 propose 1); payloadMsg payloadPresent; payloadMsg payloadVerified;
  voteMsg (voteOf 1 soft 600); voteMsg (voteOf 2 soft 600); voteMsg (voteOf 3 soft 600)].
Definition p0 : player := mkPlayer 20 0 soft 0 filterTimeout false 0 proposalTable_zero.
Definition opened : list action * PS := default ([], (p0, ∅)) (exec 5 opening [] (p0, ∅)).
Definition last : input := voteMsg (voteOf 4 soft 600).
Definition certified : list action * PS :=
  match submitTop ac dieT dieM 5 last opened.2 with (Ok acts, s) => (acts, s) | _ => ([], (p0, ∅)) end.
Definition certVote : pseudonodeAction := mkPseudonodeAction attest 20 0 cert pv.

Lemma p0_starts : starts p0.
Proof. unfold starts, small. cbn. split_and!; try done; lia. Qed.
Lemma opened_run : run ac (p0, ∅) opened.1 opened.2.
Proof.
  apply (exec_run (p0, ∅) 5 opening [] (p0, ∅)); [constructor| |vm_compute; reflexivity].
  intros i p Hi. unfold opening in Hi. repeat (apply elem_of_cons in Hi as [->|Hi]; [cbn; unfold vote_ok, per_ok; cbn; split_and!; (lia || by apply Forall_nil || done)|]).
  by apply elem_of_nil in Hi.
Qed.
Lemma last_wf p : wf_input 5 p last.
Proof. cbn. unfold vote_ok, per_ok. cbn. split_and!; (lia || by apply Forall_nil || done). Qed.
Lemma certified_run : run ac (p0, ∅) (opened.1 ++ certified.1) certified.2.
Proof.
  assert (opened.2 = (opened.2.1, opened.2.2)) as E by (by destruct opened.2). pose proof opened_run as HR. rewrite E in HR.
  apply (run_step ac (p0, ∅) opened.1 opened.2.1 opened.2.2 5 last); [exact HR|vm_compute; discriminate|vm_compute; reflexivity|apply last_wf|vm_compute; reflexivity].
Qed.

Lemma no_equivocation_witness : psa_Proposal certVote = pv.
Proof.
  apply (no_equivocation ac p0 (opened.1 ++ certified.1) certified.2 certVote certVote).
  - apply p0_starts.
  - apply certified_run.
  - split; [|done]. vm_compute. repeat (apply list_elem_of_here || apply list_elem_of_further).
  - split; [|done]. vm_compute. repeat (apply list_elem_of_here || apply list_elem_of_further).
  - done.
  - done.
  - done.
  - done.
Defined.

Lemma opened_run' : run ac (p0, ∅) opened.1 (opened.2.1, opened.2.2).
Proof. pose proof opened_run as HR. by destruct opened.2. Qed.

Lemma cert_vote_sound_witness : stageAt certified.2.2 20 0 = pv /\
  exists rr ea, certified.2.2 !! 20 = Some rr /\ st_Assemblers (rr_ProposalStore rr) !! pv = Some ea /\ ba_Assembled ea = true /\ up_value ac (ba_Payload ea) = pv.
Proof.
  destruct (cert_vote_sound ac p0 opened.1 opened.2.1 opened.2.2 5 last certified.1 certified.2 certVote) as (_ & _ & H).
  - apply p0_starts.
  - apply opened_run'.
  - vm_compute. discriminate.
  - vm_compute. reflexivity.
  - apply last_wf.
  - vm_compute. reflexivity.
  - split; [|done]. vm_compute. repeat (apply list_elem_of_here || apply list_elem_of_further).
  - done.
  - exact H.
Defined.

Lemma player_forward_witness : pos_le opened.2.1 certified.2.1.
Proof.
  apply (player_forward ac p0 opened.1 opened.2.1 opened.2.2 5 last certified.1 certified.2).
  - apply p0_starts.
  - apply opened_run'.
  - vm_compute. discriminate.
  - vm_compute. reflexivity.
  - apply last_wf.
  - vm_compute. reflexivity.
Defined.
End PlayerWitness.
