(* ===== verification/PlayerFuel.v ===== *)
(** The player's recursion ends.

    A call of [handle] for the freshest threshold of a new round is only made when the
    round has seen a threshold, and entering the next round leaves that round behind:
    the rounds ahead of the player with a threshold bound the depth.  With more fuel
    than that, [submitTop] gives the same result whatever happens without fuel, that
    is, it never runs out. *)

From S2P Require Import Prelude Config Basics Transactions Bookkeeping Eval Agreement AgreementSpec VoteTracker ProposalTracker Router Machines RouterSpec Player PlayerSpec.

Lemma M_bind_ext {S A B} (m : M S A) (f g : A -> M S B) s : (forall a s', m s = (Ok a, s') -> f a s' = g a s') -> (m ≫= f) s = (m ≫= g) s.
Proof. intros H. unfold mbind, M_bind. destruct (m s) as [[a| |] s']; auto. Qed.

Lemma M_bind_ext_l {S A B} (m1 m2 : M S A) (f : A -> M S B) s : m1 s = m2 s -> (m1 ≫= f) s = (m2 ≫= f) s.
Proof. intros E. unfold mbind, M_bind. by rewrite E. Qed.

Lemma size_list_to_set_le (l : list Z) : (size (list_to_set l : gset Z) <= length l)%nat.
Proof.
  induction l as [|x l IH]; [cbn; by rewrite (size_empty (C:=gset Z))|]. cbn. rewrite size_union_alt, size_singleton.
  assert (size ((list_to_set l : gset Z) ∖ {[x]}) <= size (list_to_set l : gset Z))%nat by (apply subseteq_size; set_solver). lia.
Qed.

(** ** Rounds that have seen a threshold *)

Definition okr (router : rootRouter) : gset Round := dom (filter (λ rc, vtr_Ok (rr_VoteTrackerRound rc.2) = true) router).
Definition vsame (rr rr' : roundRouter) : Prop := rr_VoteTrackerRound rr' = rr_VoteTrackerRound rr.
Definition sub (router router' : rootRouter) : Prop := okr router' ⊆ okr router.
#[local] Instance vsame_preorder : PreOrder vsame.
Proof. split; unfold vsame; [done|]. intros a b c -> ->. done. Qed.
#[local] Instance sub_preorder : PreOrder sub.
Proof. split; unfold sub; [intros ?; set_solver|]. intros a b c ? ?. set_solver. Qed.

Lemma okr_elem router r : r ∈ okr router <-> exists rr, router !! r = Some rr /\ vtr_Ok (rr_VoteTrackerRound rr) = true.
Proof. unfold okr. rewrite elem_of_dom. unfold is_Some. setoid_rewrite map_lookup_filter_Some. done. Qed.

Section Fuel.
Context (ac : AgreeCrypto) (p : player).

Lemma Keepsv_roundSelf {A} per (m : M roundRouter A) : Keeps vsame m -> Keeps vsame (roundSelf p per m).
Proof using Type. intros Hm rr a rr' E. by apply (Hm _ _ _ E). Qed.
Lemma Keepsv_roundDispatch {A} per (m : M periodRouter A) : Keeps vsame (roundDispatch p per m).
Proof using Type. by intros rr a rr' (c & c' & Ec & Em & ->)%roundDispatch_Ok. Qed.
Lemma Keepsv_getStore : Keeps vsame getStore.
Proof using Type. intros rr a rr' E. by injection E as _ <-. Qed.
Lemma Keepsv_modStore f : Keeps vsame (modStore f).
Proof using Type. intros rr a rr' E. by injection E as _ <-. Qed.
Lemma Keepsv_freshest : Keeps vsame vtr_freshestBundle.
Proof using Type. intros rr a rr' E. by injection E as _ <-. Qed.
#[local] Hint Resolve Keepsv_roundSelf Keepsv_roundDispatch Keepsv_getStore Keepsv_modStore Keepsv_freshest : keeps.

Lemma Keepsv_readStaging r per : Keeps vsame (store_readStaging p r per).
Proof using Type. unfold store_readStaging. keeps. Qed.
#[local] Hint Resolve Keepsv_readStaging : keeps.
Lemma Keepsv_stagedHere : Keeps vsame (stagedValueHere p).
Proof using Type. unfold stagedValueHere. eauto with keeps. Qed.
#[local] Hint Resolve Keepsv_stagedHere : keeps.
Lemma Keepsv_voteVerified v : Keeps vsame (store_voteVerified ac p v).
Proof using Type. unfold store_voteVerified. keeps. Qed.
Lemma Keepsv_payloadPresent up : Keeps vsame (store_payloadPresent ac p up).
Proof using Type. unfold store_payloadPresent. cbv zeta. keeps. Qed.
Lemma Keepsv_payloadVerified pp : Keeps vsame (store_payloadVerified ac p pp).
Proof using Type. unfold store_payloadVerified. cbv zeta. keeps. Qed.
Lemma Keepsv_newPeriod per v : Keeps vsame (store_newPeriod p per v).
Proof using Type. unfold store_newPeriod. keeps. Qed.
Lemma Keepsv_newRound : Keeps vsame (store_newRound p).
Proof using Type. unfold store_newRound. keeps. Qed.
Lemma Keepsv_softThreshold te : Keeps vsame (store_softThreshold p te).
Proof using Type. unfold store_softThreshold. cbv zeta. keeps. Qed.
Lemma Keepsv_readPinned r : Keeps vsame (store_readPinned r).
Proof using Type. unfold store_readPinned. keeps. Qed.
#[local] Hint Resolve Keepsv_voteVerified Keepsv_payloadPresent Keepsv_payloadVerified Keepsv_newPeriod Keepsv_newRound Keepsv_softThreshold Keepsv_readPinned : keeps.

Lemma sub_update r router : sub router (root_update p r router).
Proof using Type.
  intros k (rr & Hk & Hok)%okr_elem. apply okr_elem. exists rr. split; [|done]. by apply root_update_child in Hk as [?| ->].
Qed.
Lemma Keepss_rootSelf {A} r (m : M rootRouter A) : Keeps sub m -> Keeps sub (rootSelf p r m).
Proof using Type. intros Hm router a router' E. etrans; [apply (sub_update r)|by eapply Hm]. Qed.
Lemma Keepss_rootDispatch {A} r (m : M roundRouter A) : Keeps vsame m -> Keeps sub (rootDispatch p r m).
Proof using Type.
  intros Hm router a router' (c & c' & Ec & Em & ->)%rootDispatch_Ok. etrans; [apply (sub_update r)|]. apply Hm in Em. intros k (rr & Hk & Hok)%okr_elem.
  apply okr_elem. apply lookup_insert_Some in Hk as [[<- <-]|[_ Hk]]; [|by exists rr]. exists c. by rewrite <- Em.
Qed.
#[local] Hint Resolve Keepss_rootSelf Keepss_rootDispatch : keeps.

Lemma Keepss_stagedValue r per : Keeps sub (stagedValue p r per).
Proof using Type. unfold stagedValue. eauto with keeps. Qed.
Lemma Keepss_pm_handleMessageEvent e fd : Keeps sub (pm_handleMessageEvent ac p e fd).
Proof using Type. unfold pm_handleMessageEvent, filterProposalVote. cbv zeta. keeps. Qed.
Lemma Keepss_pm_handleNewRound r : Keeps sub (pm_handleNewRound p r).
Proof using Type. unfold pm_handleNewRound. eauto with keeps. Qed.
Lemma Keepss_pm_threshold te : Keeps sub (pm_threshold p te).
Proof using Type. unfold pm_threshold, pm_handleNewRound, pm_handleNewPeriod. keeps. Qed.

(** Delivering votes can give their rounds a threshold. *)
Lemma filterVote_sub proto uv fd : Keeps sub (filterVote proto p uv fd).
Proof using Type. unfold filterVote. cbv zeta. keeps. Qed.
Lemma agg_voteAccepted_okr version v router out router' : agg_voteAccepted p version v router = (Ok out, router') ->
  okr router' ⊆ {[rv_Round (v_R v)]} ∪ okr router.
Proof using Type.
  intros (c & c' & Ec & Em & ->)%rootDispatch_Ok k (rr & Hk & Hok)%okr_elem. apply lookup_insert_Some in Hk as [[<- _]|[_ Hk]]; [set_solver|].
  apply elem_of_union. right. apply (sub_update (rv_Round (v_R v))). apply okr_elem. eauto.
Qed.
Lemma agg_deliver_okr version votes : forall th router out router', agg_deliver p version votes th router = (Ok out, router') ->
  okr router' ⊆ list_to_set ((λ v, rv_Round (v_R v)) <$> votes) ∪ okr router.
Proof using Type.
  induction votes as [|v votes IH]; intros th router out router' E; [injection E as <- <-; set_solver|].
  cbn [agg_deliver] in E. apply M_bind_Ok in E as (o & s1 & E1 & E). apply agg_voteAccepted_okr in E1. apply IH in E. cbn. set_solver.
Qed.
Definition votesOf (e : messageEvent) : list vote := msg_Vote (me_Input e) :: bundleVotes (msg_Bundle (me_Input e)).
Lemma agg_handle_okr e fd router out router' : agg_handle p e fd router = (Ok out, router') ->
  okr router' ⊆ list_to_set ((λ v, rv_Round (v_R v)) <$> votesOf e) ∪ okr router.
Proof using Type.
  intros E. unfold agg_handle in E. cbv zeta in E. assert (forall X, sub router X -> okr X ⊆ list_to_set ((λ v, rv_Round (v_R v)) <$> votesOf e) ∪ okr router) as Hs by (unfold sub; set_solver).
  destruct (me_T e); try done.
  - destruct (cvv_Err _); [by injection E as <- <-; apply Hs|]. apply M_bind_Ok in E as (err & s1 & E1 & E). apply filterVote_sub in E1. injection E as <- <-. by apply Hs.
  - destruct (me_Cancelled e); [by injection E as <- <-; apply Hs|]. destruct (cvv_Err _); [by injection E as <- <-; apply Hs|].
    destruct (me_Err e); [by injection E as <- <-; apply Hs|]. apply M_bind_Ok in E as (err & s1 & E1 & E). apply filterVote_sub in E1.
    destruct err; [by injection E as <- <-; apply Hs|]. apply M_bind_Ok in E as (tE & s2 & E2 & E). apply agg_voteAccepted_okr in E2.
    assert (router' = s2) as ->; [|unfold sub in E1; cbn; set_solver]. destruct tE; [|by injection E as <- <-]. repeat (case_match; try done); by injection E as <- <-.
  - destruct (bundleFresh _ _); try done; by injection E as <- <-; apply Hs.
  - destruct (me_Cancelled e); [by injection E as <- <-; apply Hs|]. destruct (cvv_Err _); [by injection E as <- <-; apply Hs|].
    destruct (me_Err e); [by injection E as <- <-; apply Hs|]. destruct (bundleFresh _ _); try done; [|by injection E as <- <-; apply Hs].
    apply M_bind_Ok in E as (th & s1 & E1 & E). apply agg_deliver_okr in E1. injection E as <- <-. cbn. set_solver.
Qed.
End Fuel.

(** ** Enough fuel *)

(** The rounds ahead of the player that have seen a threshold. *)
Definition ahead (p : player) (router : rootRouter) : gset Round := filter (λ r, pl_Round p < r) (okr router).

Lemma ahead_sub p router router' : sub router router' -> (size (ahead p router') <= size (ahead p router))%nat.
Proof. unfold sub, ahead. intros H. apply subseteq_size. set_solver. Qed.

Lemma dispatch_sub {A} (m : player -> M rootRouter A) p router a s' : (forall p, Keeps sub (m p)) -> dispatch m (p, router) = (Ok a, s') ->
  s'.1 = p /\ sub router s'.2.
Proof. intros Hm (router' & E & ->)%dispatch_Ok. split; [done|]. by eapply Hm. Qed.
Lemma readFreshest_ahead p router res s' : readFreshest (p, router) = (Ok res, s') ->
  s'.1 = p /\ sub router s'.2 /\ (fb_Ok res = true -> pl_Round p ∈ okr router).
Proof.
  intros E. pose proof E as (router' & E' & ->)%dispatch_Ok. split; [done|]. split.
  - eapply Keepss_rootDispatch; [|exact E']. apply Keepsv_roundSelf, Keepsv_freshest.
  - intros Hok. apply rootDispatch_Ok in E' as (c & c' & Ec & Em & _). injection Em as <- _. cbn in Hok.
    apply root_update_child in Ec as [Ec| ->]; [|done]. apply okr_elem. eauto.
Qed.

Section Rounds.
Context (k1 k2 : thresholdEvent -> M PS (list action)) (n : nat).
Hypothesis k_eq : forall te p router, 0 <= pl_Round p -> pl_Round p + Z.of_nat n < 2 ^ 64 -> (size (ahead p router) < n)%nat -> k1 te (p, router) = k2 te (p, router).

Lemma enterRound_eq source target p router : pl_Round p < target -> 0 <= pl_Round p -> target + Z.of_nat n < 2 ^ 64 -> (size (ahead p router) < S n)%nat ->
  enterRound k1 source target (p, router) = enterRound k2 source target (p, router).
Proof using k_eq.
  intros Hlt H0 Hb Hsz. unfold enterRound. apply M_bind_ext. intros e s1 E1. apply dispatch_sub in E1 as [Ep Hs1].
  2: { intros q. apply Keepss_rootSelf. destruct source; [apply Keepss_pm_threshold|apply Keepss_pm_handleNewRound]. }
  destruct s1 as [p1 r1]. cbn in Ep, Hs1. subst p1. apply M_bind_ext. intros [] s2 ->%modPlayer_Ok. cbv zeta.
  set (p' := newPosition target 0 p). apply M_bind_ext. intros res [p3 r3] (Ep & Hs3 & Hok)%readFreshest_ahead. cbn in Ep, Hs3. subst p3.
  apply M_bind_ext_l. destruct (fb_Ok res); [|done]. apply k_eq; [cbn; lia|cbn; lia|]. specialize (Hok eq_refl). cbn in Hok.
  assert (ahead p' r3 ⊂ ahead p router) as Hss.
  { unfold ahead, sub in *. split; [intros r; rewrite !elem_of_filter; cbn; intros [? Hr]; split; [lia|]; set_solver|].
    intros Hsup. assert (target ∈ filter (λ r, pl_Round p' < r) (okr r3)) as Ht%elem_of_filter; [|cbn in Ht; lia].
    apply Hsup, elem_of_filter. split; [lia|set_solver]. }
  apply subset_size in Hss. lia.
Qed.

Lemma handleThresholdEvent_eq te p router : 0 <= pl_Round p -> pl_Round p + Z.of_nat (S n) < 2 ^ 64 -> (size (ahead p router) < S n)%nat ->
  handleThresholdEvent k1 te (p, router) = handleThresholdEvent k2 te (p, router).
Proof using k_eq.
  intros H0 Hb Hsz. unfold handleThresholdEvent. apply M_bind_ext. intros q s E. injection E as <- <-. cbn [fst]. destruct (te_T te); try done.
  apply M_bind_ext. intros sv [p1 r1] E1. apply dispatch_sub in E1 as [Ep Hs1]; [|intros; apply Keepss_stagedValue]. cbn in Ep, Hs1. subst p1.
  apply M_bind_ext_l. rewrite wrap64_small by (unfold u64; lia). apply enterRound_eq; [lia|done|lia|]. pose proof (ahead_sub p _ _ Hs1). lia.
Qed.
End Rounds.

Lemma handleThreshold_eq b1 b2 fuel : forall te p router, 0 <= pl_Round p -> pl_Round p + Z.of_nat fuel < 2 ^ 64 -> (size (ahead p router) < fuel)%nat ->
  handleThreshold b1 fuel te (p, router) = handleThreshold b2 fuel te (p, router).
Proof. induction fuel as [|n IH]; intros te p router H0 Hb Hsz; [lia|]. by apply (handleThresholdEvent_eq _ _ n IH). Qed.

Section Messages.
Context (ac : AgreeCrypto) (b1 b2 : thresholdEvent -> M PS (list action)) (c1 c2 : messageEvent -> M PS (list action)).

Lemma agg_dispatch_ahead e p router ef s' : dispatch (λ p, rootSelf p 0 (agg_handle p e (freshnessOf p))) (p, router) = (Ok ef, s') ->
  s'.1 = p /\ (size (ahead p s'.2) <= length (votesOf e) + size (ahead p router))%nat.
Proof using Type.
  intros (router' & E & ->)%dispatch_Ok. split; [done|]. unfold rootSelf in E. apply agg_handle_okr in E. cbn [snd].
  set (V := list_to_set ((λ v, rv_Round (v_R v)) <$> votesOf e) : gset Round) in *.
  assert (size V <= length (votesOf e))%nat as HV.
  { unfold V. rewrite <- (length_fmap (λ v, rv_Round (v_R v)) (votesOf e)). apply size_list_to_set_le. }
  etrans; [apply (subseteq_size _ (V ∪ ahead p router))|].
  - unfold ahead. intros r [Hr Hin]%elem_of_filter. apply E in Hin. apply elem_of_union in Hin as [?|Hin]; apply elem_of_union; [by left|right].
    apply elem_of_filter. split; [done|]. by apply (sub_update p 0).
  - rewrite size_union_alt. assert (size (ahead p router ∖ V) <= size (ahead p router))%nat by (apply subseteq_size; set_solver). lia.
Qed.

Lemma handleEvent_eq fuel ef p router : 0 <= pl_Round p -> pl_Round p + Z.of_nat fuel < 2 ^ 64 -> (size (ahead p router) < fuel)%nat ->
  handleEvent b1 fuel ef (p, router) = handleEvent b2 fuel ef (p, router).
Proof using Type. intros. destruct ef; try done. by apply handleThreshold_eq. Qed.

Lemma handleVote_eq fuel e p router : 0 <= pl_Round p -> pl_Round p + Z.of_nat fuel < 2 ^ 64 -> (length (votesOf e) + size (ahead p router) < fuel)%nat ->
  handleVote b1 fuel e (p, router) = handleVote b2 fuel e (p, router).
Proof using Type.
  intros H0 Hb Hsz. unfold handleVote. apply M_bind_ext. intros ef [p1 r1] [Ep Ha]%agg_dispatch_ahead. cbn [fst snd] in Ep, Ha. subst p1.
  repeat (case_match; try done); (apply M_bind_ext_l, handleEvent_eq; [done|done|lia]).
Qed.
Lemma handleBundle_eq fuel e p router : 0 <= pl_Round p -> pl_Round p + Z.of_nat fuel < 2 ^ 64 -> (length (votesOf e) + size (ahead p router) < fuel)%nat ->
  handleBundle b1 fuel e (p, router) = handleBundle b2 fuel e (p, router).
Proof using Type.
  intros H0 Hb Hsz. unfold handleBundle. apply M_bind_ext. intros ef [p1 r1] [Ep Ha]%agg_dispatch_ahead. cbn [fst snd] in Ep, Ha. subst p1.
  repeat (case_match; try done); (apply M_bind_ext_l, handleEvent_eq; [done|done|lia]).
Qed.

(** A proposal-vote continues with a tail that is a payload. *)
Definition payloadTail (o : option messageEvent) : Prop := match o with Some t => me_T t = payloadPresent | None => True end.
Definition payloadTails (p : player) : Prop := map_Forall (λ _ o, payloadTail o) (tbl_Pending (pl_Pending p)).

Lemma payload_message_eq fuel e s : me_T e = payloadPresent ->
  handleMessageEvent ac b1 c1 (S fuel) e s = handleMessageEvent ac b2 c2 (S fuel) e s.
Proof using Type. intros E. cbn. unfold isProposalVote. by rewrite E. Qed.

Lemma handleProposalVote_tail e s r s' : handleProposalVote ac e s = (Ok r, s') -> r.2 = true -> s'.1 = s.1.
Proof using Type.
  intros (ef & s1 & E1 & E)%M_bind_Ok Hr. destruct s as [p router]. apply dispatch_Ok in E1 as (router' & _ & ->). cbn in E |- *.
  repeat (case_match; try done); try (injection E as <- <-; done); apply M_bind_Ok in E as (q & s2 & _ & E); injection E as <- <-; done.
Qed.
Lemma takeTail_payload e s t s' : payloadTail (me_Tail e) -> payloadTails s.1 -> takeTail e s = (Ok (Some t), s') -> me_T t = payloadPresent.
Proof using Type.
  destruct s as [p router]. intros He Hp. unfold takeTail, tbl_pop. cbn. destruct (me_T e); intros E; injection E as E _; try (by rewrite E in He).
  destruct (tbl_Pending (pl_Pending p) !! me_TaskIndex e) as [o|] eqn:El; [|done]. apply Hp in El. cbn in E. by rewrite E in El.
Qed.

Lemma handleMessageEvent_eq fuel e p router : payloadTail (me_Tail e) -> payloadTails p -> 0 <= pl_Round p -> pl_Round p + Z.of_nat (S fuel) < 2 ^ 64 ->
  (length (votesOf e) + size (ahead p router) < fuel)%nat ->
  handleMessageEvent ac b1 c1 (S fuel) e (p, router) = handleMessageEvent ac b2 c2 (S fuel) e (p, router).
Proof using Type.
  intros He Hp H0 Hb Hsz. destruct fuel as [|fuel]; [lia|]. change (S (S fuel)) with (S (S fuel)). cbn [handleMessageEvent]. destruct (isProposalVote e).
  - apply M_bind_ext. intros [acts [|]] s1 E1; [|done]. apply handleProposalVote_tail in E1; [|done]. cbn in E1.
    apply M_bind_ext. intros [t|] s2 E2; [|done]. apply takeTail_payload in E2; [|done|by rewrite E1]. by apply M_bind_ext_l, payload_message_eq.
  - destruct (me_T e); try done; (apply handleVote_eq || apply handleBundle_eq); lia.
Qed.
End Messages.

(** Fuel for an input: the rounds ahead with a threshold, and those the votes of a message
    can give one. *)
Definition inputVotes (i : input) : nat := match i with InMessage e => length (votesOf e) | _ => 0%nat end.
Definition wellFormedInput (p : player) (fuel : nat) (i : input) : Prop :=
  match i with
  | InMessage e => payloadTail (me_Tail e)
  | InRoundInterruption r => pl_Round p < r /\ r + Z.of_nat fuel < 2 ^ 64
  | _ => True
  end.

Lemma ahead_update p r router : (size (ahead p (root_update p r router)) <= size (ahead p router))%nat.
Proof. apply ahead_sub, sub_update. Qed.

(** C16: the player's recursion ends: from a position below the last rounds, with more fuel
    than the rounds ahead that have (or may get, from the message) a threshold,
    [submitTop] does not depend on what happens when the fuel runs out, so every
    recursive call of [handle] returns before that. *)
Theorem player_fuel (ac : AgreeCrypto) b1 b2 c1 c2 (fuel : nat) (i : input) (p : player) (router : rootRouter) :
  0 <= pl_Round p -> pl_Round p + Z.of_nat fuel < 2 ^ 64 -> payloadTails p -> wellFormedInput p fuel i ->
  (1 + inputVotes i + size (ahead p router) < fuel)%nat ->
  submitTop ac b1 c1 fuel i (p, router) = submitTop ac b2 c2 fuel i (p, router).
Proof.
  intros H0 Hb Hp Hi Hsz. unfold submitTop. pose proof (ahead_update p 0 router) as Ha. destruct i as [e|te|en|en pr|r|r per st err]; cbn [handle inputVotes wellFormedInput] in *; try done.
  - destruct fuel as [|fuel]; [lia|]. apply handleMessageEvent_eq; try done; lia.
  - apply handleThreshold_eq; lia.
  - apply (enterRound_eq _ _ fuel); try lia. intros te q rt ???. by apply handleThreshold_eq.
Qed.

Module PlayerFuelWitness.
Import AgreementSpec.AgreementWitness PlayerSpec.PlayerWitness.

(** The vote that completes a soft threshold, with the player that would panic without
    fuel and the one that would go on. *)
Lemma player_fuel_witness :
  submitTop ac dieT dieM 5 last (opened.2.1, opened.2.2) = submitTop ac (λ _, mret []) (λ _, mret []) 5 last (opened.2.1, opened.2.2).
Proof.
  apply (player_fuel ac dieT (λ _, mret []) dieM (λ _, mret []) 5 last opened.2.1 opened.2.2).
  - vm_compute. discriminate.
  - vm_compute. reflexivity.
  - assert (tbl_Pending (pl_Pending opened.2.1) = ∅) as E by (vm_compute; reflexivity). unfold payloadTails. rewrite E. apply map_Forall_empty.
  - exact I.
  - vm_compute. lia.
Defined.
End PlayerFuelWitness.
