(* ===== verification/Merkle.v ===== *)
(** The Merkle tree of transaction identifiers (src/crypto/merkle).

    The tree is a list of levels, leaves first; [leavesProcessed] leaves are reflected
    in the upper levels, the rest when a root is asked for.  A node is its hash.  Every
    [int64] of the code counts nodes of a slice in memory, so none of them wraps.
    Loops over levels and nodes take fuel; running out of it is a panic, and the
    theorems of [MerkleSpec] show that no call panics.  The hash function of
    the hasher, SHA-256 in [DefaultHasher], is the parameter [H]. *)

From S2P Require Import Prelude Config Basics Transactions.

Record InMemoryMerkleTree := mkInMemoryMerkleTree {
  mt_tree : list (list bytes);
  mt_leavesProcessed : Z;
  mt_levelCount : Z
}.
#[export] Instance InMemoryMerkleTree_eta : Eta InMemoryMerkleTree := λ r,
  mkInMemoryMerkleTree (mt_tree r) (mt_leavesProcessed r) (mt_levelCount r).
Record TreeEntryDescriptor := mkTreeEntryDescriptor { ted_Value : bytes; ted_XCoord : Z; ted_YCoord : Z }.

(** ** common.go *)

Definition parent (leafIndex : Z) : Z := Z.shiftr leafIndex 1.
Definition isRightChild (leafIndex : Z) : bool := Z.land leafIndex 1 =? 1.

Definition isPowerOfTwoPlusOne (leafCount : Z) : bool :=
  if leafCount =? 0 then false
  else if leafCount =? 1 then true
  else Z.land (leafCount - 1) (leafCount - 2) =? 0.

Definition sibling (leaf : Z) : Z := if isRightChild leaf then leaf - 1 else leaf + 1.

Definition NewInMemoryMerkleTree : InMemoryMerkleTree := mkInMemoryMerkleTree [] 0 0.

(** ** Access to the levels *)

(** [l[i]] *)
Definition at_ {A} (l : list A) (i : Z) : option A := if i <? 0 then None else l !! Z.to_nat i.
Definition level_ (mt : InMemoryMerkleTree) (level : Z) : result (list bytes) :=
  match at_ (mt_tree mt) level with Some l => Ok l | None => Panic "index out of range" end.
Definition node_ (mt : InMemoryMerkleTree) (level i : Z) : result bytes :=
  l ← level_ mt level;
  match at_ l i with Some h => Ok h | None => Panic "index out of range" end.

Definition lazyLevelCount (mt : InMemoryMerkleTree) : Z := zlen (mt_tree mt).
Definition NodeCount (mt : InMemoryMerkleTree) (level : Z) : result Z :=
  if lazyLevelCount mt <=? level then Panic "lazyLevelCount <= level in nodeCount" else l ← level_ mt level; Ok (zlen l).
Definition LeafCount (mt : InMemoryMerkleTree) : result Z := if zlen (mt_tree mt) =? 0 then Ok 0 else NodeCount mt 0.
(** The accessor panics only on a missing level, which level 0 of a tree is not. *)
Definition LeafHash (mt : InMemoryMerkleTree) (leaf : Z) : result (option bytes) :=
  n ← LeafCount mt;
  if (leaf =? 0) || (n <? leaf) then Ok None else h ← node_ mt 0 (leaf - 1); Ok (Some h).

Definition mt_root (mt : InMemoryMerkleTree) : result bytes :=
  let lastLevel := zlen (mt_tree mt) - 1 in
  l ← level_ mt lastLevel;
  if 1 <? zlen l then Panic "found multiple nodes in root" else node_ mt lastLevel 0.

Definition mt_lastNode (mt : InMemoryMerkleTree) (level : Z) : result bytes :=
  levelNodes ← NodeCount mt level;
  if levelNodes <? 1 then Panic "no nodes at level in lastNode" else node_ mt level (levelNodes - 1).

Definition addLevel (mt : InMemoryMerkleTree) : InMemoryMerkleTree := mt <| mt_tree ::= λ t, t ++ [[]] |>.
Definition pushBack (level : Z) (h : bytes) : M InMemoryMerkleTree unit := λ mt,
  if lazyLevelCount mt <=? level then (Panic "lazyLevelCount <= level in pushBack", mt)
  else if level <? 0 then (Panic "index out of range", mt)
  else (Ok tt, mt <| mt_tree ::= alter (λ l, l ++ [h]) (Z.to_nat level) |>).
Definition popBack (level : Z) : M InMemoryMerkleTree unit := λ mt,
  match level_ mt level with
  | Ok l => if zlen l <? 1 then (Panic "no nodes to pop in popBack", mt)
            else (Ok tt, mt <| mt_tree ::= alter (λ l, take (length l - 1) l) (Z.to_nat level) |>)
  | Err e => (Err e, mt)
  | Panic m => (Panic m, mt)
  end.

Section Merkle.
Variable H : bytes -> bytes.

(** ** Hasher (rfc6962.go) *)

Definition LeafHashPrefix : Z := 0.
Definition NodeHashPrefix : Z := 1.
Definition EmptyRoot : bytes := H [].
Definition HashLeaf (leaf : bytes) : bytes := H (LeafHashPrefix :: leaf).
Definition HashChildren (l r : bytes) : bytes := H (NodeHashPrefix :: l ++ r).

(** ** Adding leaves *)

Definition addLeafHash (leafData : bytes) : M InMemoryMerkleTree Z :=
  mt ← get;
  _ ← (if lazyLevelCount mt =? 0 then put ((addLevel mt) <| mt_leavesProcessed := 1 |>) else mret tt);
  _ ← pushBack 0 leafData;
  mt ← get;
  leafCount ← lift (LeafCount mt);
  _ ← (if isPowerOfTwoPlusOne leafCount then put (mt <| mt_levelCount ::= λ n, n + 1 |>) else mret tt);
  mret leafCount.
(** [HashLeaf] never fails. *)
Definition AddLeaf (leafData : bytes) : M InMemoryMerkleTree (Z * bytes) :=
  n ← addLeafHash (HashLeaf leafData); mret (n, HashLeaf leafData).

(** ** Roots *)

(** [j &^ 1] *)
Definition evenBelow (j : Z) : Z := Z.ldiff j 1.

Fixpoint pushParents (fuel : nat) (level j lastNode : Z) : M InMemoryMerkleTree unit :=
  match fuel with
  | O => lift (Panic "out of fuel")
  | S fuel =>
    if j <? lastNode then
      mt ← get;
      l ← lift (node_ mt level j);
      r ← lift (node_ mt level (j + 1));
      _ ← pushBack (level + 1) (HashChildren l r);
      pushParents fuel level (j + 2) lastNode
    else mret tt
  end.

(** One level of [updateToSnapshot]. *)
Definition updateLevel (level firstNode lastNode : Z) : M InMemoryMerkleTree unit :=
  mt ← get;
  _ ← (if lazyLevelCount mt <=? level + 1 then put (addLevel mt)
       else n ← lift (NodeCount mt (level + 1));
            if n =? parent firstNode + 1 then popBack (level + 1) else mret tt);
  _ ← pushParents (S (Z.to_nat lastNode)) level (evenBelow firstNode) lastNode;
  if negb (isRightChild lastNode) then
    mt ← get;
    h ← lift (node_ mt level lastNode);
    pushBack (level + 1) h
  else mret tt.
Fixpoint updateLevels (fuel : nat) (level firstNode lastNode : Z) : M InMemoryMerkleTree unit :=
  match fuel with
  | O => lift (Panic "out of fuel")
  | S fuel =>
    if lastNode =? 0 then mret tt
    else _ ← updateLevel level firstNode lastNode; updateLevels fuel (level + 1) (parent firstNode) (parent lastNode)
  end.

Definition updateToSnapshot (snapshot : Z) : M InMemoryMerkleTree bytes :=
  mt ← get;
  if snapshot =? 0 then mret EmptyRoot
  else if snapshot =? 1 then lift (node_ mt 0 0)
  else if snapshot =? mt_leavesProcessed mt then lift (mt_root mt)
  else
    n ← lift (LeafCount mt);
    if n <? snapshot then lift (Panic "snapshot size > leaf count in updateToSnapshot")
    else if snapshot <=? mt_leavesProcessed mt then lift (Panic "snapshot size <= leavesProcessed in updateToSnapshot")
    else
      _ ← updateLevels (S (Z.to_nat snapshot)) 0 (mt_leavesProcessed mt) (snapshot - 1);
      mt ← get;
      let mt := mt <| mt_leavesProcessed := snapshot |> in
      _ ← put mt;
      lift (mt_root mt).

(** The two loops of [recomputePastSnapshot], with the node recorded at [nodeLevel]. *)
Fixpoint climbRight (fuel : nat) (mt : InMemoryMerkleTree) (nodeLevel level lastNode : Z) (rec : option bytes)
    : result (Z * Z * option bytes) :=
  match fuel with
  | O => Panic "out of fuel"
  | S fuel =>
    if isRightChild lastNode then
      rec ← (if nodeLevel =? level then h ← node_ mt level lastNode; Ok (Some h) else Ok rec);
      climbRight fuel mt nodeLevel (level + 1) (parent lastNode) rec
    else Ok (level, lastNode, rec)
  end.
Fixpoint climbRoot (fuel : nat) (mt : InMemoryMerkleTree) (nodeLevel level lastNode : Z) (subtreeRoot : bytes) (rec : option bytes)
    : result (bytes * option bytes) :=
  match fuel with
  | O => Panic "out of fuel"
  | S fuel =>
    if lastNode =? 0 then Ok (subtreeRoot, rec)
    else
      subtreeRoot ← (if isRightChild lastNode then l ← node_ mt level (lastNode - 1); Ok (HashChildren l subtreeRoot) else Ok subtreeRoot);
      let level := level + 1 in
      climbRoot fuel mt nodeLevel level (parent lastNode) subtreeRoot (if nodeLevel =? level then Some subtreeRoot else rec)
  end.

(** The root of the snapshot and, if the caller gave a place for it, the rightmost node
    at [nodeLevel]; the zero value when none was recorded. *)
Definition recomputePastSnapshot (mt : InMemoryMerkleTree) (snapshot nodeLevel : Z) (wanted : bool) : result (bytes * bytes) :=
  let lastNode := snapshot - 1 in
  if snapshot =? mt_leavesProcessed mt then
    node ← (if wanted && (nodeLevel <? lazyLevelCount mt)
            then if 0 <? nodeLevel then mt_lastNode mt nodeLevel else node_ mt nodeLevel lastNode
            else Ok []);
    root ← mt_root mt;
    Ok (root, node)
  else if mt_leavesProcessed mt <=? snapshot then Panic "snapshot size >= leavesProcessed in recomputePastSnapshot"
  else
    c ← climbRight (S (Z.to_nat snapshot)) mt nodeLevel 0 lastNode None;
    let '(level, lastNode, rec) := c in
    subtreeRoot ← node_ mt level lastNode;
    r ← climbRoot (S (Z.to_nat snapshot)) mt nodeLevel level lastNode subtreeRoot (if nodeLevel =? level then Some subtreeRoot else rec);
    Ok (r.1, default [] r.2).

(** The zero hash stands for the nil entry of a snapshot in the future. *)
Definition RootAtSnapshot (snapshot : Z) : M InMemoryMerkleTree bytes :=
  mt ← get;
  if snapshot =? 0 then mret EmptyRoot
  else
    n ← lift (LeafCount mt);
    if n <? snapshot then mret []
    else if mt_leavesProcessed mt <=? snapshot then updateToSnapshot snapshot
    else r ← lift (recomputePastSnapshot mt snapshot 0 false); mret r.1.
Definition CurrentRoot : M InMemoryMerkleTree bytes := mt ← get; n ← lift (LeafCount mt); RootAtSnapshot n.

(** ** Paths *)

Fixpoint climbPath (fuel : nat) (mt : InMemoryMerkleTree) (snapshot node level lastNode : Z) : result (list TreeEntryDescriptor) :=
  match fuel with
  | O => Panic "out of fuel"
  | S fuel =>
    if lastNode =? 0 then Ok []
    else
      let sib := sibling node in
      here ← (if sib <? lastNode then h ← node_ mt level sib; Ok [mkTreeEntryDescriptor h level sib]
              else if sib =? lastNode then
                r ← recomputePastSnapshot mt snapshot level true; Ok [mkTreeEntryDescriptor r.2 (- level) (- sib)]
              else Ok []);
      rest ← climbPath fuel mt snapshot (parent node) (level + 1) (parent lastNode);
      Ok (here ++ rest)
  end.

Definition pathFromNodeToRootAtSnapshot (node level snapshot : Z) : M InMemoryMerkleTree (list TreeEntryDescriptor) :=
  if snapshot =? 0 then mret []
  else
    let lastNode := Z.shiftr (snapshot - 1) level in
    mt ← get;
    n ← lift (LeafCount mt);
    if (mt_levelCount mt <=? level) || (lastNode <? node) || (n <? snapshot) then mret []
    else
      _ ← (if mt_leavesProcessed mt <? snapshot then _ ← updateToSnapshot snapshot; mret tt else mret tt);
      mt ← get;
      lift (climbPath (S (Z.to_nat snapshot)) mt snapshot node level lastNode).

Definition PathToRootAtSnapshot (leaf snapshot : Z) : M InMemoryMerkleTree (list TreeEntryDescriptor) :=
  mt ← get;
  n ← lift (LeafCount mt);
  if (snapshot <? leaf) || (n <? snapshot) || (leaf =? 0) then mret [] else pathFromNodeToRootAtSnapshot (leaf - 1) 0 snapshot.
Definition PathToCurrentRoot (leaf : Z) : M InMemoryMerkleTree (list TreeEntryDescriptor) :=
  mt ← get; n ← lift (LeafCount mt); PathToRootAtSnapshot leaf n.

Fixpoint climbLeft (fuel : nat) (node level : Z) : result (Z * Z) :=
  match fuel with
  | O => Panic "out of fuel"
  | S fuel => if isRightChild node then climbLeft fuel (parent node) (level + 1) else Ok (node, level)
  end.
Definition SnapshotConsistency (snapshot1 snapshot2 : Z) : M InMemoryMerkleTree (list TreeEntryDescriptor) :=
  mt ← get;
  n ← lift (LeafCount mt);
  if (snapshot1 =? 0) || (snapshot2 <=? snapshot1) || (n <? snapshot2) then mret []
  else
    c ← lift (climbLeft (S (Z.to_nat snapshot1)) (snapshot1 - 1) 0);
    let '(node, level) := c in
    _ ← (if mt_leavesProcessed mt <? snapshot2 then _ ← updateToSnapshot snapshot2; mret tt else mret tt);
    mt ← get;
    proof ← lift (if negb (node =? 0) then h ← node_ mt level node; Ok [mkTreeEntryDescriptor h level node] else Ok []);
    path ← pathFromNodeToRootAtSnapshot node level snapshot2;
    mret (proof ++ path).

(** ** root.go *)

Definition addLeaves (leaves : list bytes) : M InMemoryMerkleTree unit := forM (λ leaf, _ ← AddLeaf leaf; mret tt) leaves.
Definition Root (leaves : list bytes) : result Digest :=
  match (_ ← addLeaves leaves; CurrentRoot) NewInMemoryMerkleTree with
  | (Ok root, _) => if zlen root =? 32 then Ok root else Panic "merkleRoot: merkle root hash not the same length as a crypto.Digest"
  | (Err e, _) => Err e
  | (Panic m, _) => Panic m
  end.
End Merkle.

(** Order of byte slices: [b] must be as long as [a]. *)
Fixpoint Order (a b : bytes) : result bool :=
  match a, b with
  | [], _ => Ok true
  | _ :: _, [] => Panic "index out of range"
  | x :: a, y :: b => if x <? y then Ok true else if y <? x then Ok false else Order a b
  end.
