(* ===== verification/MerkleSpec.v ===== *)
(** The lazily updated tree computes the Merkle tree hash of RFC 6962.

    [MTH] is the recursive definition of the RFC.  Level [k] of a tree over the hashes
    [L] is [lev k L], [k] rounds of pairing; the invariant [mt_inv] says that the upper
    levels of the data structure are those of its processed leaves.  After any sequence
    of additions and queries, the root of every snapshot is the [MTH] of that prefix of
    the leaves, and the path of every leaf leads to it. *)

From Equations Require Import Equations.
From S2P Require Import Prelude Config Basics Transactions Merkle.

#[local] Set Equations Transparent.
#[local] Coercion Z.of_nat : nat >-> Z.

(** ** Indices *)

Lemma parent_nat i : parent (Z.of_nat i) = Z.of_nat (i / 2).
Proof. unfold parent. rewrite Z.shiftr_div_pow2 by lia. change (2 ^ 1) with (Z.of_nat 2). by rewrite <- Nat2Z.inj_div. Qed.
Lemma land1 z : Z.land z 1 = z mod 2.
Proof. change 1 with (Z.ones 1). by rewrite Z.land_ones. Qed.
Lemma right_nat i : isRightChild (Z.of_nat i) = Nat.odd i.
Proof.
  unfold isRightChild. rewrite land1. change 2 with (Z.of_nat 2). rewrite <- Nat2Z.inj_mod. pose proof (Nat.mod_upper_bound i 2).
  destruct (Nat.odd i) eqn:E.
  - apply Nat.odd_spec in E as [m ->]. rewrite Nat.add_comm, Nat.mul_comm, Nat.Div0.mod_add. done.
  - rewrite <- Nat.negb_even in E. apply negb_false_iff, Nat.even_spec in E as [m ->]. rewrite Nat.mul_comm, Nat.Div0.mod_mul. done.
Qed.
Lemma even_below_nat i : evenBelow (Z.of_nat i) = Z.of_nat (2 * (i / 2)).
Proof.
  unfold evenBelow. apply Z.bits_inj'. intros n Hn. rewrite Z.ldiff_spec. destruct (decide (n = 0)) as [->|Hne].
  - rewrite Nat2Z.inj_mul, Z.testbit_even_0. cbn. by rewrite andb_false_r.
  - replace (Z.testbit 1 n) with false by (symmetry; apply (Z.bits_above_log2 1 n); cbn; lia). rewrite andb_true_r.
    replace n with (Z.succ (n - 1)) by lia. rewrite Nat2Z.inj_mul, Z.testbit_even_succ, Nat2Z.inj_div by lia. change (Z.of_nat 2) with (2 ^ 1).
    rewrite <- Z.shiftr_div_pow2, Z.shiftr_spec by lia. f_equal; lia.
Qed.
Lemma shiftr_nat i k : Z.shiftr (Z.of_nat i) (Z.of_nat k) = Z.of_nat (i / 2 ^ k).
Proof. rewrite Z.shiftr_div_pow2 by lia. rewrite Nat2Z.inj_div, Nat2Z.inj_pow. done. Qed.
Lemma at_nat {A} (l : list A) i : at_ l (Z.of_nat i) = l !! i.
Proof. unfold at_. rewrite (proj2 (Z.ltb_ge _ _)), Nat2Z.id by lia. done. Qed.

Section Spec.
Variable H : bytes -> bytes.
Notation HC := (HashChildren H).

(** ** RFC 6962 *)

(** The largest power of two smaller than [n]. *)
Definition splitPoint (n : nat) : nat := 2 ^ Nat.log2 (n - 1).
Lemma splitPoint_lt n : (2 <= n)%nat -> (1 <= splitPoint n < n)%nat.
Proof using Type. unfold splitPoint. intros Hn. pose proof (Nat.log2_spec (n - 1) ltac:(lia)). split; [|lia]. apply Nat.neq_0_lt_0, Nat.pow_nonzero. lia. Qed.

Lemma split_take_lt d1 d2 (D : list bytes) : (length (take (splitPoint (2 + length D)) (d1 :: d2 :: D)) < S (S (length D)))%nat.
Proof using Type. pose proof (splitPoint_lt (2 + length D) ltac:(lia)). rewrite length_take. cbn [length]. lia. Qed.
Lemma split_drop_lt d1 d2 (D : list bytes) : (length (drop (splitPoint (2 + length D)) (d1 :: d2 :: D)) < S (S (length D)))%nat.
Proof using Type. pose proof (splitPoint_lt (2 + length D) ltac:(lia)). rewrite length_drop. cbn [length]. lia. Qed.

Equations MTH (D : list bytes) : bytes by wf (length D) lt :=
  MTH [] := EmptyRoot H;
  MTH [d] := HashLeaf H d;
  MTH (d1 :: d2 :: D) := HC (MTH (take (splitPoint (2 + length D)) (d1 :: d2 :: D))) (MTH (drop (splitPoint (2 + length D)) (d1 :: d2 :: D))).
Next Obligation. intros. apply split_take_lt. Qed.
Next Obligation. intros. apply split_drop_lt. Qed.

Lemma MTH_nil : MTH [] = EmptyRoot H.
Proof using Type. by simp MTH. Qed.
Lemma MTH_one d : MTH [d] = HashLeaf H d.
Proof using Type. by simp MTH. Qed.
Lemma MTH_split D : (2 <= length D)%nat -> MTH D = HC (MTH (take (splitPoint (length D)) D)) (MTH (drop (splitPoint (length D)) D)).
Proof using Type. destruct D as [|d1 [|d2 D]]; cbn [length]; [lia..|]. intros _. by simp MTH. Qed.

(** ** Levels *)

Fixpoint up (l : list bytes) : list bytes :=
  match l with
  | a :: b :: l => HC a b :: up l
  | _ => l
  end.
Definition lev (k : nat) (l : list bytes) : list bytes := Nat.iter k up l.

Lemma lev_S k l : lev (S k) l = up (lev k l).
Proof using Type. done. Qed.
Lemma pair_ind (P : list bytes -> Prop) : P [] -> (forall x, P [x]) -> (forall x y l, P l -> P (x :: y :: l)) -> forall l, P l.
Proof using Type. intros H0 H1 H2. fix IH 1. intros [|x [|y l]]; [exact H0|exact (H1 x)|exact (H2 x y l (IH l))]. Qed.
Lemma length_up l : length (up l) = ((length l + 1) / 2)%nat.
Proof using Type.
  induction l as [| |x y l IH] using pair_ind; [done..|]. cbn [up length]. rewrite IH. replace (S (S (length l)) + 1)%nat with (length l + 1 + 1 * 2)%nat by lia.
  rewrite Nat.div_add by lia. lia.
Qed.
Lemma up_app A B : Nat.even (length A) = true -> up (A ++ B) = up A ++ up B.
Proof using Type. induction A as [| |x y A IH] using pair_ind; [done..|]. cbn. intros HA. by rewrite IH. Qed.

Lemma lev_app k m A B : length A = (m * 2 ^ k)%nat -> lev k (A ++ B) = lev k A ++ lev k B /\ length (lev k A) = m.
Proof using Type.
  revert m. induction k as [|k IH]; intros m HA; [cbn in *; split; [done|lia]|]. destruct (IH (m * 2)%nat) as [E1 E2]; [rewrite HA; cbn; lia|].
  rewrite !lev_S, E1, up_app by (rewrite E2, Nat.mul_comm; apply Nat.even_spec; by exists m). split; [done|].
  rewrite length_up, E2. rewrite Nat.add_comm, Nat.div_add by lia. done.
Qed.
Lemma lev_take k m l : (m * 2 ^ k <= length l)%nat -> take m (lev k l) = lev k (take (m * 2 ^ k) l).
Proof using Type.
  intros Hm. destruct (lev_app k m (take (m * 2 ^ k) l) (drop (m * 2 ^ k) l)) as [E1 E2]; [rewrite length_take; lia|].
  rewrite take_drop in E1. rewrite E1, take_app_length' by done. done.
Qed.
Lemma ceil_half n k : (((n + 2 ^ k - 1) / 2 ^ k + 1) / 2 = (n + 2 ^ S k - 1) / 2 ^ S k)%nat.
Proof using Type.
  assert (2 ^ k <> 0)%nat as Hk by (apply Nat.pow_nonzero; lia). rewrite Nat.pow_succ_r', (Nat.mul_comm 2), <- Nat.Div0.div_div. f_equal.
  replace (n + 2 ^ k * 2 - 1)%nat with ((n + 2 ^ k - 1) + 1 * 2 ^ k)%nat by lia. by rewrite Nat.div_add.
Qed.
Lemma length_lev k l : length (lev k l) = ((length l + 2 ^ k - 1) / 2 ^ k)%nat.
Proof using Type.
  induction k as [|k IH]; [cbn -[Nat.div]; rewrite Nat.div_1_r; lia|]. by rewrite lev_S, length_up, IH, ceil_half.
Qed.
Lemma length_lev' k l : l <> [] -> length (lev k l) = S ((length l - 1) / 2 ^ k)%nat.
Proof using Type.
  intros Hl. rewrite length_lev. assert (2 ^ k <> 0)%nat as Hk by (apply Nat.pow_nonzero; lia). assert (length l <> 0)%nat by (by destruct l).
  replace (length l + 2 ^ k - 1)%nat with (length l - 1 + 1 * 2 ^ k)%nat by lia. rewrite Nat.div_add by done. lia.
Qed.

(** Pairing up to the top gives the recursive hash. *)
Lemma lev_MTH j : forall D, (0 < length D <= 2 ^ j)%nat -> lev j (HashLeaf H <$> D) = [MTH D].
Proof using Type.
  induction j as [|j IH]; intros D HD; [destruct D as [|d [|? ?]]; cbn in HD; try lia; by simp MTH|].
  rewrite lev_S. destruct (decide (length D <= 2 ^ j)%nat) as [Hle|Hgt]; [rewrite IH by lia; done|].
  assert (splitPoint (length D) = 2 ^ j)%nat as Es.
  { unfold splitPoint. f_equal. apply Nat.log2_unique; [lia|]. cbn in HD |- *. lia. }
  assert (2 ^ j <> 0)%nat by (apply Nat.pow_nonzero; lia). rewrite (MTH_split D), Es by lia. rewrite <- (take_drop (2 ^ j) D) at 1. rewrite fmap_app.
  destruct (lev_app j 1 (HashLeaf H <$> take (2 ^ j) D) (HashLeaf H <$> drop (2 ^ j) D)) as [-> _]; [rewrite length_fmap, length_take; lia|].
  rewrite !IH; [done|rewrite length_drop; cbn in HD; lia|rewrite length_take; lia].
Qed.

(** ** Running the operations *)

Lemma node_run mt (k i : nat) l h : mt_tree mt !! k = Some l -> l !! i = Some h -> node_ mt k i = Ok h.
Proof using Type. intros Hl Hh. unfold node_, level_. rewrite at_nat, Hl. cbn. by rewrite at_nat, Hh. Qed.
Lemma count_run mt (k : nat) l : mt_tree mt !! k = Some l -> NodeCount mt k = Ok (Z.of_nat (length l)).
Proof using Type.
  intros Hl. unfold NodeCount, level_, lazyLevelCount, zlen. rewrite at_nat, Hl. pose proof (lookup_lt_Some _ _ _ Hl).
  by rewrite (proj2 (Z.leb_gt _ _)) by lia.
Qed.

(** Appending to a level, which is what [pushBack] does. *)
Definition app_row (k : nat) (l : list bytes) (mt : InMemoryMerkleTree) : InMemoryMerkleTree :=
  mt <| mt_tree ::= alter (λ r, r ++ l) k |>.
Lemma app_row_app k a b mt : app_row k b (app_row k a mt) = app_row k (a ++ b) mt.
Proof using Type.
  unfold app_row. destruct mt as [t p n]. cbn. f_equal. rewrite list_alter_alter_eq. apply list_alter_ext; [|done]. intros r _. cbn. by rewrite app_assoc.
Qed.
Lemma app_row_nil k mt : app_row k [] mt = mt.
Proof using Type. unfold app_row. destruct mt as [t p n]. cbn. f_equal. apply list_alter_id. intros r. apply app_nil_r. Qed.
Lemma app_row_ne k j l mt : j <> k -> mt_tree (app_row k l mt) !! j = mt_tree mt !! j.
Proof using Type. intros Hne. unfold app_row. cbn. apply list_lookup_alter_ne. done. Qed.
Lemma app_row_length k l mt : length (mt_tree (app_row k l mt)) = length (mt_tree mt).
Proof using Type. unfold app_row. cbn. apply length_alter. Qed.
Lemma push_run (k : nat) h mt : (k < length (mt_tree mt))%nat -> pushBack k h mt = (Ok tt, app_row k [h] mt).
Proof using Type.
  intros Hk. unfold pushBack, lazyLevelCount, zlen. rewrite (proj2 (Z.leb_gt _ _)), (proj2 (Z.ltb_ge _ _)), Nat2Z.id by lia. done.
Qed.

(** The parents of the nodes [X] of level [k], from position [j] on. *)
Lemma pushParents_run k X : forall mt j last fuel, Nat.even j = true -> (j + length X = S last)%nat -> (length X < 2 * fuel)%nat ->
  (S k < length (mt_tree mt))%nat -> (forall i h, X !! i = Some h -> node_ mt k (j + i)%nat = Ok h) ->
  (_ ← pushParents H fuel k j last;
   if negb (isRightChild last) then mt ← get; h ← lift (node_ mt k last); pushBack (k + 1) h else mret tt) mt
  = (Ok tt, app_row (S k) (up X) mt).
Proof using Type.
  induction X as [|x|x y X IH] using pair_ind; intros mt j last fuel Hj HX Hf Hk Hn; (destruct fuel as [|fuel]; [lia|]); cbn [pushParents length up] in *.
  - rewrite (proj2 (Z.ltb_ge _ _)) by lia. erewrite bind_run by done. replace j with (S last) in Hj by lia.
    rewrite right_nat, <- Nat.even_succ, Hj, app_row_nil. done.
  - rewrite (proj2 (Z.ltb_ge _ _)) by lia. erewrite bind_run by done. replace last with j by lia. rewrite right_nat, <- Nat.negb_even, Hj. cbn [negb].
    erewrite bind_run by done. rewrite <- (Nat.add_0_r j), (Hn 0%nat x) by done. erewrite bind_run by done. replace (k + 1) with (Z.of_nat (S k)) by lia.
    by apply push_run.
  - rewrite (proj2 (Z.ltb_lt _ _)) by lia. run.
    pose proof (Hn 0%nat x eq_refl) as Hx. pose proof (Hn 1%nat y eq_refl) as Hy. rewrite Nat.add_0_r in Hx. rewrite Nat2Z.inj_add in Hy.
    change (Z.of_nat 1) with 1 in Hy. rewrite Hx, Hy. run. run.
    replace (k + 1) with (Z.of_nat (S k)) by lia. erewrite bind_run by by apply push_run. replace (j + 2) with (Z.of_nat (S (S j))) by lia.
    replace (Z.of_nat (S k)) with (k + 1) by lia. rewrite IH; [by rewrite app_row_app|done|lia..|by rewrite app_row_length|].
    intros i h Hi. unfold node_, level_. rewrite at_nat, app_row_ne by lia. specialize (Hn (S (S i)) h Hi). unfold node_, level_ in Hn. rewrite at_nat in Hn.
    by replace (S (S j) + i)%nat with (j + S (S i))%nat by lia.
Qed.

(** ** The levels of the data structure *)

(** Level [i] of a tree over [L] that has processed [p] leaves. *)
Definition row (p : nat) (L : list bytes) (i : nat) : list bytes := if decide (i = 0%nat) then L else lev i (take p L).
Definition levels (mt : InMemoryMerkleTree) (n : nat) (f : nat -> list bytes) : Prop :=
  length (mt_tree mt) = n /\ forall i, (i < n)%nat -> mt_tree mt !! i = Some (f i).
(** ... when its first [k] levels have been updated to [s]. *)
Definition mixed (k s p : nat) (L : list bytes) (i : nat) : list bytes := if decide (i <= k)%nat then row s L i else row p L i.

Lemma levels_ext mt n n' f g : levels mt n f -> n = n' -> (forall i, (i < n)%nat -> f i = g i) -> levels mt n' g.
Proof using Type. intros [Hl Hf] <- Hg. split; [done|]. intros i Hi. rewrite <- Hg by done. auto. Qed.
Lemma levels_app mt n f k l : levels mt n f -> levels (app_row k l mt) n (λ i, if decide (i = k) then f i ++ l else f i).
Proof using Type.
  intros [Hl Hf]. split; [by rewrite app_row_length|]. intros i Hi. case_decide as Hd; [subst i|rewrite app_row_ne by done; auto].
  unfold app_row. cbn. by rewrite list_lookup_alter_eq, Hf.
Qed.
Lemma levels_add mt n f : levels mt n f -> levels (addLevel mt) (S n) (λ i, if decide (i = n) then [] else f i).
Proof using Type.
  intros [Hl Hf]. unfold addLevel. cbn. split; [cbn; rewrite length_app, Hl; cbn; lia|]. intros i Hi. cbn. case_decide as Hd.
  - rewrite lookup_app_r, Hd, Hl by lia. by rewrite Nat.sub_diag.
  - rewrite lookup_app_l by lia. apply Hf. lia.
Qed.
Lemma levels_pop mt n f k : levels mt n f -> (k < n)%nat -> f k <> [] ->
  exists mt', popBack k mt = (Ok tt, mt') /\ levels mt' n (λ i, if decide (i = k) then take (length (f k) - 1) (f k) else f i)
    /\ mt_leavesProcessed mt' = mt_leavesProcessed mt /\ mt_levelCount mt' = mt_levelCount mt.
Proof using Type.
  intros [Hl Hf] Hk Hne. eexists. unfold popBack, level_. rewrite at_nat, Hf by done. rewrite (proj2 (Z.ltb_ge _ _)) by (unfold zlen; destruct (f k); cbn; [done|lia]).
  split; [done|]. rewrite Nat2Z.id. split; [|done]. split; [cbn; by rewrite length_alter|]. intros i Hi. cbn. case_decide as Hd.
  - subst i. by rewrite list_lookup_alter_eq, Hf.
  - rewrite list_lookup_alter_ne by done. auto.
Qed.
Lemma levels_node mt n f (k i : nat) h : levels mt n f -> (k < n)%nat -> f k !! i = Some h -> node_ mt k i = Ok h.
Proof using Type. intros [_ Hf] Hk Hi. by apply (node_run _ _ _ (f k)); [apply Hf|]. Qed.
Lemma row_node p L (k i : nat) : (p <= length L)%nat -> (i * 2 ^ k < p)%nat -> row p L k !! i = lev k (take p L) !! i.
Proof using Type. intros Hp Hi. unfold row. case_decide as Hk; [|done]. subst k. cbn in *. rewrite lookup_take_lt; [done|lia]. Qed.

(** Complete nodes do not depend on the leaves to their right. *)
Lemma lev_prefix k m s p L : (m * 2 ^ k <= s)%nat -> (m * 2 ^ k <= p)%nat -> (m * 2 ^ k <= length L)%nat -> take m (lev k (take s L)) = take m (lev k (take p L)).
Proof using Type. intros Hs Hp HL. rewrite !lev_take by (rewrite length_take; lia). by rewrite !take_take, !Nat.min_l by lia. Qed.
Lemma lev_split k m l : lev (S k) l = take m (lev (S k) l) ++ up (drop (2 * m) (lev k l)).
Proof using Type.
  rewrite lev_S. destruct (decide (2 * m <= length (lev k l))%nat) as [Hm|Hm].
  - rewrite <- (take_drop (2 * m) (lev k l)) at 1 2. rewrite up_app by (rewrite length_take, Nat.min_l by done; apply Nat.even_spec; by exists m).
    rewrite take_app_length' by (rewrite length_up, length_take, Nat.min_l, Nat.mul_comm, Nat.add_comm, Nat.div_add by lia; done). done.
  - rewrite drop_ge by lia. cbn [up]. rewrite app_nil_r, take_ge; [done|]. rewrite length_up. apply Nat.lt_succ_r, Nat.Div0.div_lt_upper_bound. lia.
Qed.

(** ** Updating the levels *)

Lemma pow_pos k : (0 < 2 ^ k)%nat.
Proof using Type. apply Nat.neq_0_lt_0, Nat.pow_nonzero. lia. Qed.
Lemma div_pow_S n k : (n / 2 ^ k / 2 = n / 2 ^ S k)%nat.
Proof using Type. rewrite Nat.Div0.div_div, Nat.pow_succ_r', Nat.mul_comm. done. Qed.
Lemma parent_pow n k : parent (n / 2 ^ k)%nat = (n / 2 ^ S k)%nat.
Proof using Type. by rewrite parent_nat, div_pow_S. Qed.
Lemma mul_div_pow n k : (n / 2 ^ k * 2 ^ k <= n)%nat.
Proof using Type. rewrite Nat.mul_comm. apply Nat.Div0.mul_div_le. Qed.

Definition same_counts (mt mt' : InMemoryMerkleTree) : Prop :=
  mt_leavesProcessed mt' = mt_leavesProcessed mt /\ mt_levelCount mt' = mt_levelCount mt.
Section Update.
Variables (L : list bytes) (p s : nat).
Hypothesis Hp : (1 <= p < s)%nat.
Hypothesis Hs : (s <= length L)%nat.

(** The parent of the first new node is dropped if it was there. *)
Definition trimmed (k : nat) (i : nat) : list bytes :=
  if decide (i = S k) then take (p / 2 ^ S k) (lev (S k) (take s L)) else mixed k s p L i.
Lemma trim_run k mt : levels mt (1 + Nat.max k (Nat.log2_up p)) (mixed k s p L) ->
  exists mt', (mt ← get;
     if lazyLevelCount mt <=? k + 1 then put (addLevel mt)
     else n ← lift (NodeCount mt (k + 1)); if n =? parent (p / 2 ^ k)%nat + 1 then popBack (k + 1) else mret tt) mt = (Ok tt, mt')
    /\ levels mt' (1 + Nat.max (S k) (Nat.log2_up p)) (trimmed k) /\ same_counts mt mt'.
Proof using Hp Hs.
  intros Hmt. pose proof (pow_pos (S k)) as Hpow. erewrite bind_run by done. rewrite parent_pow. replace (k + 1) with (Z.of_nat (S k)) by lia. unfold lazyLevelCount, zlen.
  rewrite (proj1 Hmt). destruct (Z.leb_spec (1 + Nat.max k (Nat.log2_up p))%nat (S k)).
  - eexists. split; [done|]. split; [|done]. eapply levels_ext; [by apply levels_add|lia|]. intros i Hi. cbn. unfold trimmed.
    replace (Nat.max k (Nat.log2_up p)) with k by lia. case_decide; [|done].
    rewrite Nat.div_small; [done|]. apply (Nat.le_lt_trans _ (2 ^ k)); [apply Nat.log2_up_le_pow2; lia|]. cbn. pose proof (pow_pos k). lia.
  - assert (mixed k s p L (S k) = lev (S k) (take p L)) as Er by (unfold mixed, row; by rewrite !decide_False by lia).
    assert (length (lev (S k) (take p L)) = S ((p - 1) / 2 ^ S k)) as El.
    { rewrite length_lev', length_take, Nat.min_l by (try lia; destruct p, L; cbn in *; lia || done). done. }
    assert (take (p / 2 ^ S k) (lev (S k) (take s L)) = take (p / 2 ^ S k) (lev (S k) (take p L))) as Et.
    { apply lev_prefix; pose proof (mul_div_pow p (S k)); lia. }
    assert ((p - 1) / 2 ^ S k <= p / 2 ^ S k)%nat by (apply Nat.Div0.div_le_mono; lia).
    assert (p / 2 ^ S k <= S ((p - 1) / 2 ^ S k))%nat.
    { replace (S ((p - 1) / 2 ^ S k)) with ((p - 1 + 1 * 2 ^ S k) / 2 ^ S k)%nat by (rewrite Nat.div_add by lia; lia). apply Nat.Div0.div_le_mono. lia. }
    rewrite (count_run _ _ (lev (S k) (take p L))) by (rewrite <- Er; apply (proj2 Hmt); lia). erewrite bind_run by done. rewrite El.
    destruct (Z.eqb_spec (S ((p - 1) / 2 ^ S k)) ((p / 2 ^ S k)%nat + 1)).
    + destruct (levels_pop _ _ _ (S k) Hmt) as (mt' & -> & Hmt' & Hc); [lia|rewrite Er; by destruct (lev (S k) (take p L))|].
      exists mt'. split; [done|]. split; [|done]. eapply levels_ext; [done|lia|]. intros i Hi. cbn. unfold trimmed. case_decide; [|done].
      rewrite Er, El, Et. f_equal; lia.
    + eexists. split; [done|]. split; [|done]. eapply levels_ext; [done|lia|]. intros i Hi. unfold trimmed. case_decide as Hd; [|done].
      rewrite Hd, Er, Et, (take_ge (lev _ _)); [done|lia].
Qed.

Lemma updateLevel_run k mt : levels mt (1 + Nat.max k (Nat.log2_up p)) (mixed k s p L) -> ((s - 1) / 2 ^ k <> 0)%nat ->
  exists mt', updateLevel H k (p / 2 ^ k)%nat ((s - 1) / 2 ^ k)%nat mt = (Ok tt, mt')
    /\ levels mt' (1 + Nat.max (S k) (Nat.log2_up p)) (mixed (S k) s p L) /\ same_counts mt mt'.
Proof using Hp Hs.
  intros Hmt Hlast. destruct (trim_run k mt Hmt) as (mt1 & E1 & Hmt1 & Hc1). unfold updateLevel. rewrite <- bind_assoc_run. erewrite bind_run by exact E1.
  rewrite even_below_nat, div_pow_S. set (m := (p / 2 ^ S k)%nat). set (last := ((s - 1) / 2 ^ k)%nat) in *. set (X := drop (2 * m) (lev k (take s L))).
  assert (2 * m <= last)%nat as Hm.
  { apply Nat.div_le_lower_bound; [pose proof (pow_pos k); lia|]. pose proof (mul_div_pow p (S k)). fold m in H0. cbn in H0. lia. }
  assert (length (lev k (take s L)) = S last) as Ek.
  { rewrite length_lev', length_take, Nat.min_l by (try lia; destruct s, L; cbn in *; lia || done). done. }
  assert (length X = S last - 2 * m)%nat as EX by (unfold X; by rewrite length_drop, Ek). rewrite Nat2Z.id.
  rewrite (pushParents_run k X); [|apply Nat.even_spec; by exists m|lia|rewrite EX; lia|rewrite (proj1 Hmt1); lia|].
  - eexists. split; [done|]. split; [|done]. eapply levels_ext; [by apply levels_app|done|]. intros i Hi. cbn. unfold trimmed, mixed, row.
    destruct (decide (i = S k)) as [->|Hne].
    + rewrite decide_True by lia. rewrite decide_False by lia. symmetry. apply lev_split.
    + destruct (decide (i <= k)%nat); [by rewrite (decide_True (P := (i <= S k)%nat)) by lia|]. by rewrite (decide_False (P := (i <= S k)%nat)) by lia.
  - intros i h Hi. unfold X in Hi. rewrite lookup_drop in Hi. eapply levels_node; [done|lia|]. unfold trimmed, mixed.
    rewrite decide_False, decide_True by lia. pose proof (lookup_lt_Some _ _ _ Hi) as Hlt. rewrite Ek in Hlt. rewrite row_node; [done|lia|].
    pose proof (mul_div_pow (s - 1) k). fold last in H0. pose proof (Nat.mul_le_mono_r (2 * m + i) last (2 ^ k) ltac:(lia)). lia.
Qed.

Lemma updateLevels_run fuel : forall k mt, levels mt (1 + Nat.max k (Nat.log2_up p)) (mixed k s p L) -> (k <= Nat.log2_up s < k + fuel)%nat ->
  exists mt', updateLevels H fuel k (p / 2 ^ k)%nat ((s - 1) / 2 ^ k)%nat mt = (Ok tt, mt')
    /\ levels mt' (1 + Nat.log2_up s) (row s L) /\ same_counts mt mt'.
Proof using Hp Hs.
  induction fuel as [|fuel IH]; intros k mt Hmt Hk; [lia|]. cbn [updateLevels]. destruct (decide (k = Nat.log2_up s)) as [->|Hne].
  - assert (s <= 2 ^ Nat.log2_up s)%nat by (apply Nat.log2_up_le_pow2; lia). rewrite (Nat.div_small (s - 1)) by lia. exists mt. split; [done|]. split; [|done].
    assert (Nat.log2_up p <= Nat.log2_up s)%nat by (apply Nat.log2_up_le_mono; lia). eapply levels_ext; [done|lia|]. intros i Hi. unfold mixed. by rewrite decide_True by lia.
  - assert (2 ^ k < s)%nat as Hlt by (apply Nat.log2_up_lt_pow2; lia). pose proof (pow_pos k).
    assert ((s - 1) / 2 ^ k <> 0)%nat as Hnz by (intros Hz; apply Nat.div_small_iff in Hz; lia).
    rewrite (proj2 (Z.eqb_neq _ _)) by lia. destruct (updateLevel_run k mt Hmt Hnz) as (mt1 & E1 & Hmt1 & [? ?]). erewrite bind_run by exact E1.
    rewrite !parent_pow. replace (k + 1) with (Z.of_nat (S k)) by lia. destruct (IH (S k) mt1 Hmt1) as (mt2 & E2 & Hmt2 & [? ?]); [lia|].
    exists mt2. unfold same_counts. split_and!; [done|done|congruence..].
Qed.
End Update.

(** ** Recomputing a past snapshot *)

Lemma half_SS i : (S (S i) / 2 = S (i / 2))%nat.
Proof using Type. replace (S (S i)) with (i + 1 * 2)%nat by lia. rewrite Nat.div_add by lia. lia. Qed.
Lemma up_last_odd l : forall i a b, length l = S i -> Nat.odd i = true -> l !! (i - 1)%nat = Some a -> l !! i = Some b -> up l !! (i / 2)%nat = Some (HC a b).
Proof using Type.
  induction l as [|x|x y l IH] using pair_ind; intros i a b Hl Hi Ha Hb; cbn in Hl; [done|by injection Hl as <-|]. destruct i as [|[|i]]; [done|by simplify_eq/=|].
  cbn [up]. rewrite half_SS. cbn [lookup list_lookup]. apply IH; [lia|done| |done].
  destruct i; [done|]. cbn in Ha |- *. by rewrite Nat.sub_0_r.
Qed.
Lemma up_last_even l : forall i b, length l = S i -> Nat.odd i = false -> l !! i = Some b -> up l !! (i / 2)%nat = Some b.
Proof using Type.
  induction l as [|x|x y l IH] using pair_ind; intros i b Hl Hi Hb; cbn in Hl; [done|by injection Hl as <-|]. destruct i as [|[|i]]; [done|done|].
  cbn [up]. rewrite half_SS. apply IH; [lia|done|done].
Qed.

Lemma if_ok {A B} (c : bool) (a : A) (b : A) (f : A -> result B) : ((if c then Ok a else Ok b) ≫= f) = f (if c then a else b).
Proof using Type. by destruct c. Qed.

Lemma last_complete s k : (1 <= s)%nat -> Nat.modulo s (2 ^ k) = 0%nat -> (S ((s - 1) / 2 ^ k) * 2 ^ k)%nat = s.
Proof using Type.
  intros Hs Hm. pose proof (pow_pos k). apply Nat.Div0.mod_divides in Hm as [c ->]. destruct c as [|c]; [lia|].
  replace (2 ^ k * S c - 1)%nat with (2 ^ k - 1 + c * 2 ^ k)%nat by lia. rewrite Nat.div_add, Nat.div_small by lia. lia.
Qed.
Lemma complete_up s k : (1 <= s)%nat -> Nat.modulo s (2 ^ k) = 0%nat -> Nat.odd ((s - 1) / 2 ^ k) = true -> Nat.modulo s (2 ^ S k) = 0%nat.
Proof using Type.
  intros Hs Hk Ho. apply Nat.odd_spec in Ho as [c Hc]. rewrite <- (last_complete s k Hs Hk) at 1. rewrite Hc.
  replace (S (2 * c + 1) * 2 ^ k)%nat with (S c * 2 ^ S k)%nat by (cbn; lia). apply Nat.Div0.mod_mul.
Qed.

Section Past.
Variables (L : list bytes) (p s : nat) (mt : InMemoryMerkleTree).
Hypothesis Hs : (1 <= s <= length L)%nat.

(** The rightmost node at level [k] of the snapshot. *)
Definition lastAt (k : nat) : option bytes := lev k (take s L) !! ((s - 1) / 2 ^ k)%nat.
Lemma length_snap k : length (lev k (take s L)) = S ((s - 1) / 2 ^ k).
Proof using Hs. rewrite length_lev', length_take, Nat.min_l by (try lia; destruct s, L; cbn in *; lia || done). done. Qed.
Lemma lastAt_is_Some k : is_Some (lastAt k).
Proof using Hs. apply lookup_lt_is_Some. rewrite length_snap. lia. Qed.
Lemma lastAt_top k : (s <= 2 ^ k)%nat -> lastAt k = lastAt (Nat.log2_up s).
Proof using Hs.
  intros Hk. assert (forall j, (s <= 2 ^ j)%nat -> lastAt (S j) = lastAt j) as Hstep.
  { intros j Hj. unfold lastAt. pose proof (length_snap j) as Hl. rewrite <- div_pow_S, (Nat.div_small (s - 1) (2 ^ j)) in * by lia. rewrite lev_S.
    by destruct (lev j (take s L)) as [|x [|? ?]]. }
  assert (Nat.log2_up s <= k)%nat as Hle by (apply Nat.log2_up_le_pow2; lia). assert (s <= 2 ^ Nat.log2_up s)%nat as H0 by (apply Nat.log2_up_le_pow2; lia).
  induction Hle as [|k' Hle IH]; [done|]. rewrite Hstep, IH; [done|..]; (etrans; [exact H0|apply Nat.pow_le_mono_r; lia]).
Qed.
Lemma lastAt_step k b : lastAt k = Some b -> let i := ((s - 1) / 2 ^ k)%nat in
  lastAt (S k) = (if Nat.odd i then (λ a, HC a b) <$> lev k (take s L) !! (i - 1)%nat else Some b).
Proof using Hs.
  intros Hb i. unfold lastAt in *. rewrite <- div_pow_S, lev_S. fold i in Hb |- *. pose proof (length_snap k) as Hl. fold i in Hl. destruct (Nat.odd i) eqn:Ho.
  - destruct (lookup_lt_is_Some_2 (lev k (take s L)) (i - 1)%nat) as [a Ha]; [lia|]. rewrite Ha. by apply up_last_odd.
  - by apply up_last_even.
Qed.

Hypothesis Hmt : levels mt (1 + Nat.log2_up p) (row p L).
Hypothesis Hp : (s <= p <= length L)%nat.

(** A node that is complete in the snapshot is in the tree. *)
Lemma node_past (k i : nat) h : (S i * 2 ^ k <= s)%nat -> lev k (take s L) !! i = Some h -> node_ mt k i = Ok h.
Proof using Hs Hmt Hp.
  intros Hi Hh. pose proof (pow_pos k). assert (k <= Nat.log2_up p)%nat by (apply (Nat.pow_le_mono_r_iff 2); [lia|]; pose proof (Nat.log2_up_le_pow2 p (Nat.log2_up p)); lia).
  eapply levels_node; [exact Hmt|lia|]. rewrite row_node by lia. rewrite <- (lookup_take_lt _ (S i)) by lia. rewrite <- (lev_prefix k (S i) s p) by lia.
  by rewrite lookup_take_lt by lia.
Qed.
Lemma climbRight_run nl fuel : forall k r, Nat.modulo s (2 ^ k) = 0%nat -> ((s - 1) / 2 ^ k < fuel)%nat ->
  exists k', (k <= k')%nat /\ Nat.modulo s (2 ^ k') = 0%nat /\ Nat.odd ((s - 1) / 2 ^ k') = false /\
    climbRight fuel mt nl k ((s - 1) / 2 ^ k)%nat r = Ok (Z.of_nat k', Z.of_nat ((s - 1) / 2 ^ k')%nat, if (k <=? nl) && (nl <? k') then lastAt (Z.to_nat nl) else r).
Proof using Hs Hmt Hp.
  induction fuel as [|fuel IH]; intros k r Hk Hf; [lia|]. cbn [climbRight]. rewrite right_nat. set (i := ((s - 1) / 2 ^ k)%nat) in *. destruct (Nat.odd i) eqn:Ho.
  - destruct (lastAt_is_Some k) as [h Eh]. rewrite (node_past k i h); [|subst i; rewrite last_complete; lia || done|done].
    assert (Nat.modulo s (2 ^ S k) = 0)%nat as Hk'.
    { apply complete_up; [lia|done|done]. }
    assert (i / 2 < i)%nat by (apply Nat.div_lt; [destruct i; [done|lia]|lia]). unfold i. rewrite parent_pow. replace (k + 1) with (Z.of_nat (S k)) by lia.
    destruct (IH (S k) (if nl =? k then Some h else r) Hk') as (k' & Hle & Hm & Hod & E); [rewrite <- div_pow_S; fold i; lia|].
    exists k'. split_and!; [lia|done|done|]. rewrite (if_ok (nl =? k) (Some h) r). etrans; [exact E|]. clear E.
    destruct (Z.eqb_spec nl k) as [->|Hne].
    + rewrite Nat2Z.id, Eh. do 2 f_equal. zcases; done || lia.
    + do 2 f_equal. zcases; done || lia.
  - exists k. split_and!; [lia|done|done|]. replace ((k <=? nl) && (nl <? k)) with false by lia. done.
Qed.

Lemma climbRoot_run nl fuel : forall k b r, (k <= Nat.log2_up s)%nat -> ((s - 1) / 2 ^ k < fuel)%nat -> lastAt k = Some b ->
  exists root, lastAt (Nat.log2_up s) = Some root /\
    climbRoot H fuel mt nl k ((s - 1) / 2 ^ k)%nat b r = Ok (root, if (k <? nl) && (nl <=? Nat.log2_up s) then lastAt (Z.to_nat nl) else r).
Proof using Hs Hmt Hp.
  induction fuel as [|fuel IH]; intros k b r Hk Hf Hb; [lia|]. cbn [climbRoot]. set (i := ((s - 1) / 2 ^ k)%nat) in *. destruct (Z.eqb_spec i 0) as [E0|E0].
  - assert (s <= 2 ^ k)%nat by (assert (i = 0)%nat as Hz by lia; unfold i in Hz; apply Nat.div_small_iff in Hz; pose proof (pow_pos k); lia).
    assert (Nat.log2_up s <= k)%nat by (apply Nat.log2_up_le_pow2; lia). assert (k = Nat.log2_up s) as -> by lia.
    exists b. split; [done|]. replace ((Nat.log2_up s <? nl) && (nl <=? Nat.log2_up s)) with false by lia. done.
  - pose proof (lastAt_step k b Hb) as Hst. cbn zeta in Hst. fold i in Hst. pose proof (mul_div_pow (s - 1) k) as Hmul. fold i in Hmul.
    assert (i / 2 < i)%nat by (apply Nat.div_lt; lia). assert (k < Nat.log2_up s)%nat.
    { apply Nat.log2_up_lt_pow2; [lia|]. destruct i; [lia|]. pose proof (pow_pos k). cbn in Hmul. lia. }
    assert (exists b', lastAt (S k) = Some b' /\ (if isRightChild i then l ← node_ mt k (i - 1); Ok (HC l b) else Ok b) = Ok b') as (b' & Hb' & ->).
    { rewrite right_nat. destruct (Nat.odd i); [|by exists b]. destruct (lookup_lt_is_Some_2 (lev k (take s L)) (i - 1)%nat) as [a Ha]; [rewrite length_snap; fold i; lia|].
      rewrite Ha in Hst. exists (HC a b). split; [done|]. replace (i - 1) with (Z.of_nat (i - 1)) by lia.
      rewrite (node_past k (i - 1) a); [done| |done]. replace (S (i - 1)) with i by lia. lia. }
    destruct (IH (S k) b' (if nl =? S k then Some b' else r)) as (root & Er & E); [lia|rewrite <- div_pow_S; fold i; lia|done|]. exists root. split; [done|].
    unfold i. rewrite parent_pow. replace (k + 1) with (Z.of_nat (S k)) by lia. etrans; [exact E|]. clear E. do 2 f_equal. destruct (Z.eqb_spec nl (S k)) as [->|Hne].
    + rewrite Nat2Z.id, Hb'. zcases; done || lia.
    + zcases; done || lia.
Qed.
Lemma mt_root_run : (2 <= p)%nat -> s = p -> exists root, lastAt (Nat.log2_up s) = Some root /\ mt_root mt = Ok root.
Proof using Hs Hmt Hp.
  intros H2 <-. destruct (lastAt_is_Some (Nat.log2_up s)) as [root Er]. exists root. split; [done|]. unfold mt_root, zlen. rewrite (proj1 Hmt).
  replace ((1 + Nat.log2_up s)%nat - 1) with (Z.of_nat (Nat.log2_up s)) by lia.
  assert (s <= 2 ^ Nat.log2_up s)%nat by (apply Nat.log2_up_le_pow2; lia). assert (0 < Nat.log2_up s)%nat by (apply Nat.log2_up_pos; lia).
  assert (row s L (Nat.log2_up s) = lev (Nat.log2_up s) (take s L)) as Erow by (unfold row; by rewrite decide_False by lia).
  pose proof (length_snap (Nat.log2_up s)) as Hl. rewrite Nat.div_small in Hl by lia. unfold lastAt in Er. rewrite Nat.div_small in Er by lia.
  unfold level_. rewrite at_nat, (proj2 Hmt), Erow by lia. cbn -[Nat.log2_up lev]. rewrite Hl. cbn -[Nat.log2_up lev node_].
  apply (levels_node _ _ _ _ 0 _ Hmt); [lia|]. by rewrite Erow.
Qed.

Lemma lastNode_run (nl : nat) h : s = p -> (nl <= Nat.log2_up s)%nat -> lastAt nl = Some h ->
  (if 0 <? nl then mt_lastNode mt nl else node_ mt nl (s - 1)) = Ok h.
Proof using Hs Hmt Hp.
  intros <- Hnl Hh. pose proof Hh as Hh'. unfold lastAt in Hh'. rewrite <- row_node in Hh'; [|lia|pose proof (mul_div_pow (s - 1) nl); lia].
  destruct (Z.ltb_spec 0 nl).
  - unfold mt_lastNode. rewrite (count_run _ _ (row s L nl)) by (apply (proj2 Hmt); lia). assert (row s L nl = lev nl (take s L)) as Er by (unfold row; by rewrite decide_False by lia).
    rewrite Er, length_snap. cbn -[Z.of_nat node_]. rewrite (proj2 (Z.ltb_ge _ _)) by lia. replace (S ((s - 1) / 2 ^ nl) - 1) with (Z.of_nat ((s - 1) / 2 ^ nl)) by lia.
    by eapply levels_node; [exact Hmt|lia|].
  - assert (nl = 0)%nat as -> by lia. change (2 ^ 0)%nat with 1%nat in *. rewrite Nat.div_1_r in *. replace (s - 1) with (Z.of_nat (s - 1)) by lia.
    by eapply levels_node; [exact Hmt|lia|].
Qed.

(** The root of the snapshot, and its rightmost node at the level asked for. *)
Lemma recompute_run (nl : nat) : mt_leavesProcessed mt = p -> (2 <= p)%nat -> (nl <= Nat.log2_up s)%nat ->
  exists root h h', lastAt (Nat.log2_up s) = Some root /\ lastAt nl = Some h
    /\ recomputePastSnapshot H mt s nl true = Ok (root, h) /\ recomputePastSnapshot H mt s nl false = Ok (root, h').
Proof using Hs Hmt Hp.
  intros Elp H2 Hnl. unfold recomputePastSnapshot. rewrite Elp. destruct (lastAt_is_Some nl) as [h Hh]. destruct (Z.eqb_spec s p) as [E|E].
  - destruct (mt_root_run H2 ltac:(lia)) as (root & Hroot & ->). exists root, h, []. split_and!; [done|done| |done].
    assert (Nat.log2_up s <= Nat.log2_up p)%nat by (apply Nat.log2_up_le_mono; lia).
    unfold lazyLevelCount, zlen. rewrite (proj1 Hmt), (proj2 (Z.ltb_lt nl _)) by lia. cbn [andb]. rewrite (lastNode_run nl h); [done|lia|done|done].
  - rewrite (proj2 (Z.leb_gt _ _)) by lia. rewrite Nat2Z.id. replace (s - 1) with (Z.of_nat ((s - 1) / 2 ^ 0)) by (rewrite Nat.pow_0_r, Nat.div_1_r; lia).
    destruct (climbRight_run nl (S s) 0 None) as (k & _ & Hk & Ho & Ec); [by rewrite Nat.pow_0_r, Nat.mod_1_r|rewrite Nat.pow_0_r, Nat.div_1_r; lia|].
    change (Z.of_nat 0) with 0 in Ec. rewrite Ec. destruct (lastAt_is_Some k) as [b Hb]. pose proof (last_complete s k ltac:(lia) Hk) as Hc.
    assert (node_ mt k ((s - 1) / 2 ^ k)%nat = Ok b) as Hn by (apply node_past; [lia|done]).
    assert (k <= Nat.log2_up s)%nat. { apply (Nat.pow_le_mono_r_iff 2); [lia|]. pose proof (Nat.log2_up_le_pow2 s (Nat.log2_up s)). cbn in Hc. lia. }
    destruct (climbRoot_run nl (S s) k b (if nl =? k then Some b else if (0 <=? nl) && (nl <? k) then lastAt (Z.to_nat nl) else None)) as (root & Hroot & Er);
      [done|pose proof (Nat.Div0.div_le_upper_bound (s - 1) (2 ^ k) s); pose proof (pow_pos k); nia|done|].
    set (r := if (k <? nl) && _ then _ else _) in Er. assert (r = Some h) as Ehr.
    { subst r. rewrite Nat2Z.id. destruct (Z.eqb_spec nl k) as [Ek|Ek]; [assert (nl = k) as -> by lia; rewrite Hh in Hb; injection Hb as <-|]; zcases; done || lia. }
    exists root, h, h. split_and!; [done|done|..]; (cbn -[node_ climbRoot Nat.log2_up Nat.div Nat.sub]; rewrite Hn; cbn -[node_ climbRoot Nat.log2_up Nat.div Nat.sub]; rewrite Er, Ehr; done).
Qed.
End Past.

(** ** The invariant *)

Definition processed (L : list bytes) (p : nat) (mt : InMemoryMerkleTree) : Prop :=
  (1 <= p <= length L)%nat /\ levels mt (1 + Nat.log2_up p) (row p L) /\ mt_leavesProcessed mt = p /\ mt_levelCount mt = 1 + Nat.log2_up (length L).
Definition mt_inv (L : list bytes) (mt : InMemoryMerkleTree) : Prop :=
  match L with [] => mt = NewInMemoryMerkleTree | _ => exists p, processed L p mt end.
Lemma mt_inv_cons L mt : L <> [] -> mt_inv L mt <-> exists p, processed L p mt.
Proof using Type. by destruct L. Qed.
Lemma processed_inv L p mt : processed L p mt -> mt_inv L mt.
Proof using Type. intros Hp. destruct L; [destruct Hp as [? _]; cbn in *; lia|]. by exists p. Qed.

Lemma LeafCount_run L mt : mt_inv L mt -> LeafCount mt = Ok (Z.of_nat (length L)).
Proof using Type.
  destruct (decide (L = [])) as [->|Hne]; [by intros ->|]. rewrite mt_inv_cons by done. intros (p & Hp & Hl & _). unfold LeafCount, zlen. rewrite (proj1 Hl).
  rewrite (proj2 (Z.eqb_neq _ _)) by lia. apply (count_run _ 0). rewrite (proj2 Hl) by lia. done.
Qed.

Lemma pow2_plus_one_spec (a : nat) : (1 <= a)%nat -> isPowerOfTwoPlusOne (S a) = bool_decide (a = 2 ^ Nat.log2 a)%nat.
Proof using Type.
  intros Ha. unfold isPowerOfTwoPlusOne. rewrite (proj2 (Z.eqb_neq _ _)), (proj2 (Z.eqb_neq _ _)) by lia. replace (S a - 1) with (Z.of_nat a) by lia. replace (S a - 2) with (a - 1) by lia.
  pose proof (Nat.log2_spec a ltac:(lia)) as [Hl Hu]. set (j := Nat.log2 a) in *. case_bool_decide as Hd.
  - rewrite Hd, Nat2Z.inj_pow. change (Z.of_nat 2) with 2. replace (2 ^ j - 1) with (Z.ones j) by (rewrite Z.ones_equiv; lia).
    rewrite Z.land_ones, Z.mod_same by lia. done.
  - apply Z.eqb_neq. intros Hz. assert (forall x : Z, 2 ^ j <= x < 2 ^ (j + 1) -> Z.testbit x j = true) as Hbit.
    { intros x Hx. rewrite Z.testbit_true by lia. rewrite Z.pow_add_r in Hx by lia. change (2 ^ 1) with 2 in Hx.
      replace (x `div` 2 ^ j) with 1 by (apply (Z.div_unique _ _ _ (x - 2 ^ j)); lia). done. }
    assert (Z.testbit (Z.land a (a - 1)) j = true) as Ht.
    { assert (Z.of_nat (2 ^ j) = 2 ^ j) as E1 by (by rewrite Nat2Z.inj_pow). assert (Z.of_nat (2 ^ S j) = 2 ^ (j + 1)) as E2 by (rewrite Nat2Z.inj_pow; do 2 f_equal; lia).
      rewrite Z.land_spec, !Hbit by lia. done. }
    by rewrite Hz, Z.bits_0 in Ht.
Qed.
Lemma log2_up_step (a : nat) : (1 <= a)%nat -> Nat.log2_up (S a) = ((if isPowerOfTwoPlusOne (S a) then 1 else 0) + Nat.log2_up a)%nat.
Proof using Type.
  intros Ha. rewrite pow2_plus_one_spec by done. pose proof (Nat.log2_spec a ltac:(lia)) as [Hl Hu]. set (j := Nat.log2 a) in *. cbn in Hu. pose proof (pow_pos j).
  case_bool_decide as Hd.
  - rewrite Hd at 2. rewrite Nat.log2_up_pow2 by lia. apply Nat.log2_up_unique; cbn; lia.
  - transitivity (S j); [|symmetry]; apply Nat.log2_up_unique; cbn; lia.
Qed.

Lemma AddLeaf_run L mt d : mt_inv L mt ->
  exists mt', AddLeaf H d mt = (Ok (Z.of_nat (S (length L)), HashLeaf H d), mt') /\ mt_inv (L ++ [HashLeaf H d]) mt'.
Proof using Type.
  intros Hinv. set (h := HashLeaf H d). unfold AddLeaf, addLeafHash. destruct (decide (L = [])) as [->|Hne].
  - cbn in Hinv. subst mt. eexists. split; [reflexivity|]. exists 1%nat. split_and!; [done|done| |done|done]. split; [done|]. intros [|i] Hi; [done|]. cbn in Hi. lia.
  - rewrite mt_inv_cons in Hinv by done. destruct Hinv as (p & Hp & Hl & Elp & Elc). run. unfold lazyLevelCount, zlen. rewrite (proj1 Hl), (proj2 (Z.eqb_neq _ _)) by lia. run.
    erewrite bind_run by (apply (push_run 0); rewrite (proj1 Hl); lia). run.
    pose proof (levels_app _ _ _ 0 [HashLeaf H d] Hl) as Hl'.
    assert (LeafCount (app_row 0 [HashLeaf H d] mt) = Ok (Z.of_nat (S (length L)))) as ->.
    { unfold LeafCount, zlen. rewrite (proj1 Hl'), (proj2 (Z.eqb_neq _ _)) by lia. etrans; [apply (count_run _ 0); rewrite (proj2 Hl') by lia; done|].
      unfold row. rewrite !decide_True by done. rewrite length_app. cbn. do 2 f_equal. lia. }
    run.
    set (mt1 := if isPowerOfTwoPlusOne (S (length L)) then (app_row 0 [HashLeaf H d] mt) <| mt_levelCount ::= λ n, n + 1 |> else app_row 0 [HashLeaf H d] mt).
    exists mt1. split; [unfold mt1; by destruct (isPowerOfTwoPlusOne _)|]. rewrite mt_inv_cons by by destruct L. exists p.
    assert (mt_tree mt1 = mt_tree (app_row 0 [HashLeaf H d] mt)) as Et by (unfold mt1; by destruct (isPowerOfTwoPlusOne _)).
    unfold processed. rewrite length_app, Nat.add_1_r. split_and!; [lia|lia| | |].
    + eapply (levels_ext mt1 _ _ _ _ ltac:(unfold levels; rewrite Et; exact Hl')); [done|]. intros i Hi. cbn. unfold row. destruct i as [|i]; [done|]. by rewrite take_app_le by lia.
    + unfold mt1. by destruct (isPowerOfTwoPlusOne _).
    + rewrite log2_up_step by lia. unfold mt1. destruct (isPowerOfTwoPlusOne _); cbn; lia.
Qed.

Lemma updateToSnapshot_run L p s mt : processed L p mt -> (p <= s <= length L)%nat ->
  exists mt' root, updateToSnapshot H s mt = (Ok root, mt') /\ lastAt L s (Nat.log2_up s) = Some root /\ processed L s mt'.
Proof using Type.
  intros Hpr Hs. pose proof Hpr as (Hp & Hl & Elp & Elc). unfold updateToSnapshot. erewrite bind_run by done. rewrite (proj2 (Z.eqb_neq s 0)) by lia.
  destruct (lastAt_is_Some L s ltac:(lia) (Nat.log2_up s)) as [root Hroot]. exists (if decide (s = p) then mt else (updateLevels H (S s) 0 p (s - 1) mt).2 <| mt_leavesProcessed := s |>), root.
  destruct (Z.eqb_spec s 1) as [E1|E1]; [|destruct (decide (s = p)) as [->|Hne]].
  - assert (s = 1)%nat as -> by lia. rewrite decide_True by lia. assert (p = 1)%nat as -> by lia. split; [|done]. unfold lift. f_equal.
    apply (levels_node _ _ _ 0 0 _ Hl); [cbn; lia|]. unfold lastAt in Hroot. by rewrite <- row_node in Hroot by (cbn; lia).
  - rewrite Elp, Z.eqb_refl. destruct (mt_root_run L p p mt ltac:(lia) Hl ltac:(lia) ltac:(lia) eq_refl) as (root' & Hr & E). rewrite Hroot in Hr. injection Hr as <-. rewrite E. done.
  - rewrite Elp, (proj2 (Z.eqb_neq _ _)) by lia. rewrite (LeafCount_run L) by by eapply processed_inv. erewrite bind_run by done.
    rewrite (proj2 (Z.ltb_ge _ _)), (proj2 (Z.leb_gt _ _)), Nat2Z.id by lia.
    destruct (updateLevels_run L p s ltac:(lia) ltac:(lia) (S s) 0 mt) as (mt' & Eu & Hl' & [Ec1 Ec2]).
    { eapply levels_ext; [exact Hl|done|]. intros i Hi. unfold mixed, row. destruct i as [|i]; done. }
    { pose proof (Nat.log2_up_le_lin s). lia. }
    change (Z.of_nat 0) with 0 in Eu. rewrite !Nat.pow_0_r, !Nat.div_1_r in Eu. replace (Z.of_nat (s - 1)) with (s - 1) in Eu by lia. erewrite bind_run by exact Eu. rewrite Eu.
    run. run. set (mt2 := mt' <| mt_leavesProcessed := Z.of_nat s |>). assert (levels mt2 (1 + Nat.log2_up s) (row s L)) as Hl2 by exact Hl'.
    destruct (mt_root_run L s s mt2 ltac:(lia) Hl2 ltac:(lia) ltac:(lia) eq_refl) as (root' & Hr & E). rewrite Hroot in Hr. injection Hr as <-.
    split; [unfold lift; by rewrite E|]. split; [done|]. split_and!; [lia|lia|done|done|]. cbn. by rewrite Ec2.
Qed.

(** Only the first [s] leaves matter for a snapshot of [s]; the empty hash stands for a
    snapshot in the future. *)
Definition snapRoot (L : list bytes) (s : nat) : bytes :=
  if decide (s = 0%nat) then EmptyRoot H else if decide (length L < s)%nat then [] else default [] (lastAt L s (Nat.log2_up s)).
Lemma RootAtSnapshot_run L mt (s : nat) : mt_inv L mt -> exists mt', RootAtSnapshot H s mt = (Ok (snapRoot L s), mt') /\ mt_inv L mt'.
Proof using Type.
  intros Hinv. unfold RootAtSnapshot, snapRoot. erewrite bind_run by done. destruct (Z.eqb_spec s 0); [rewrite decide_True by lia; eauto|]. rewrite decide_False by lia.
  rewrite (LeafCount_run L) by done. erewrite bind_run by done. case_decide as Hd; [rewrite (proj2 (Z.ltb_lt _ _)) by lia; eauto|]. rewrite (proj2 (Z.ltb_ge _ _)) by lia.
  assert (L <> []) as HL by (by intros ->; cbn in *; lia). pose proof Hinv as Hinv'. rewrite mt_inv_cons in Hinv' by done. destruct Hinv' as [p Hp]. destruct Hp as (Hp & Hl & Elp & Elc).
  rewrite Elp. destruct (Z.leb_spec p s).
  - destruct (updateToSnapshot_run L p s mt) as (mt' & root & -> & -> & Hpr); [done|lia|]. exists mt'. split; [done|]. by eapply processed_inv.
  - destruct (recompute_run L p s mt ltac:(lia) Hl ltac:(lia) 0 Elp ltac:(lia) ltac:(lia)) as (root & h & h' & -> & _ & _ & E). exists mt. split; [|done].
    change (Z.of_nat 0) with 0 in E. by rewrite E.
Qed.
Lemma snapRoot_MTH D (s : nat) : snapRoot (HashLeaf H <$> D) s = if decide (length D < s)%nat then [] else MTH (take s D).
Proof using Type.
  unfold snapRoot, lastAt. rewrite length_fmap. destruct (decide (s = 0%nat)) as [->|Hne]; [by rewrite decide_False by lia|]. destruct (decide (length D < s)%nat) as [|Hge]; [done|].
  assert (s <= 2 ^ Nat.log2_up s)%nat by (apply Nat.log2_up_le_pow2; lia). rewrite <- fmap_take, lev_MTH by (rewrite length_take; lia). by rewrite Nat.div_small by lia.
Qed.

(** ** Paths *)

(** The verifier: from node [fn] of a level whose last node is [sn], the hash of the
    root.  With [old], right siblings are skipped, which gives the root of the tree
    whose last node is [fn]. *)
Fixpoint path_root (fuel : nat) (old : bool) (fn sn : nat) (h : bytes) (path : list bytes) : option bytes :=
  match fuel with
  | O => None
  | S fuel =>
    if decide (sn = 0%nat) then match path with [] => Some h | _ => None end
    else if negb (Nat.odd fn) && bool_decide (fn = sn) then path_root fuel old (fn / 2) (sn / 2) h path
    else match path with
         | [] => None
         | c :: path => path_root fuel old (fn / 2) (sn / 2) (if Nat.odd fn then HC c h else if old then h else HC h c) path
         end
  end.

Lemma up_lookup l : forall j a b, l !! (2 * j)%nat = Some a -> l !! (2 * j + 1)%nat = Some b -> up l !! j = Some (HC a b).
Proof using Type.
  induction l as [|x|x y l IH] using pair_ind; intros j a b Ha Hb; [done|destruct j; [done|by rewrite lookup_cons_ne_0 in Ha by lia]|]. destruct j as [|j]; [by simplify_eq/=|].
  replace (2 * S j)%nat with (S (S (2 * j))) in * by lia. cbn [up]. by apply IH.
Qed.
Lemma even_double n : Nat.odd n = false -> (2 * (n / 2) = n)%nat.
Proof using Type. intros Hn. rewrite <- Nat.negb_even in Hn. apply negb_false_iff, Nat.even_spec in Hn as [c ->]. rewrite (Nat.mul_comm 2 c), Nat.div_mul by lia. lia. Qed.
Lemma odd_double n : Nat.odd n = true -> (2 * (n / 2) + 1 = n)%nat.
Proof using Type. intros Hn. apply Nat.odd_spec in Hn as [c ->]. replace (2 * c + 1)%nat with (1 + c * 2)%nat by lia. rewrite Nat.div_add by lia. cbn. lia. Qed.

Section Path.
Variables (L : list bytes) (p s : nat) (mt : InMemoryMerkleTree).
Hypothesis Hpr : processed L p mt.
Hypothesis Hs : (1 <= s <= p)%nat.

(** The sibling of a node of the snapshot that has one. *)
Lemma sibling_run (k n : nat) : let i := ((s - 1) / 2 ^ k)%nat in let sib := (if Nat.odd n then n - 1 else n + 1)%nat in i <> 0%nat -> (n <= i)%nat -> (sib <= i)%nat ->
  exists c d, lev k (take s L) !! sib = Some c /\ ted_Value d = c /\
    (if sib <? i then h ← node_ mt k sib; Ok [mkTreeEntryDescriptor h k sib]
     else if sib =? i then r ← recomputePastSnapshot H mt s k true; Ok [mkTreeEntryDescriptor r.2 (- k) (- sib)] else Ok []) = Ok [d].
Proof using Hpr Hs.
  intros i sib Hi Hn Hsib. destruct Hpr as (Hp & Hl & Elp & _). destruct (lookup_lt_is_Some_2 (lev k (take s L)) sib) as [c Hc]; [rewrite length_snap; fold i; lia|].
  pose proof (mul_div_pow (s - 1) k) as Hmul. fold i in Hmul. pose proof (pow_pos k) as Hpow. destruct (Z.ltb_spec sib i) as [Hlt|Hge].
  - exists c, (mkTreeEntryDescriptor c k sib). split_and!; [done|done|]. rewrite (node_past L p s mt ltac:(lia) Hl ltac:(lia) k sib c); [done| |done].
    pose proof (Nat.mul_le_mono_r (S sib) i (2 ^ k) ltac:(lia)). lia.
  - assert (sib = i) as Es by lia. rewrite (proj2 (Z.eqb_eq _ _)) by lia.
    assert (2 ^ k < s)%nat as Hks by (pose proof (Nat.mul_le_mono_r 1 i (2 ^ k) ltac:(lia)); lia). assert (k <= Nat.log2_up s)%nat by (apply Nat.log2_up_lt_pow2 in Hks; lia).
    destruct (recompute_run L p s mt ltac:(lia) Hl ltac:(lia) k Elp ltac:(lia) ltac:(lia)) as (root & h & h' & _ & Hh & -> & _).
    unfold lastAt in Hh. fold i in Hh. rewrite Es in Hc. rewrite Hh in Hc. injection Hc as <-. exists h, (mkTreeEntryDescriptor h (- k) (- sib)). by rewrite Es.
Qed.

Lemma climbPath_run fuel : forall (k n : nat) h, let i := ((s - 1) / 2 ^ k)%nat in (i < fuel)%nat -> (n <= i)%nat -> lev k (take s L) !! n = Some h ->
  exists path root, climbPath H fuel mt s n k i = Ok path /\ lastAt L s (Nat.log2_up s) = Some root /\ path_root fuel false n i h (ted_Value <$> path) = Some root
    /\ forall s1 h1, (1 <= s1 <= s)%nat -> n = ((s1 - 1) / 2 ^ k)%nat -> lastAt L s1 k = Some h1 ->
         path_root fuel true n i h1 (ted_Value <$> path) = lastAt L s1 (Nat.log2_up s1).
Proof using Hpr Hs.
  induction fuel as [|fuel IH]; intros k n h i Hf Hn Hh; [lia|]. cbn [climbPath path_root]. pose proof Hpr as (Hp & _). destruct (Z.eqb_spec i 0) as [E0|E0].
  - assert (i = 0)%nat as Ei by lia. assert (n = 0)%nat as -> by lia. assert (s <= 2 ^ k)%nat by (unfold i in Ei; apply Nat.div_small_iff in Ei; pose proof (pow_pos k); lia).
    exists [], h. rewrite decide_True by done. split_and!; [done| |done|].
    + rewrite <- (lastAt_top L s ltac:(lia) k) by done. unfold lastAt. fold i. by rewrite Ei.
    + intros s1 h1 Hs1 _ <-. rewrite decide_True by done. apply lastAt_top; lia.
  - set (sib := (if Nat.odd n then n - 1 else n + 1)%nat). assert (sibling n = Z.of_nat sib) as Esib.
    { unfold sibling, sib. rewrite right_nat. destruct n; [done|]. destruct (Nat.odd (S n)); lia. }
    rewrite Esib, !parent_nat. replace (k + 1) with (Z.of_nat (S k)) by lia.
    assert (i / 2 < i)%nat by (apply Nat.div_lt; lia). assert (n / 2 <= i / 2)%nat by (by apply Nat.Div0.div_le_mono). pose proof (length_snap L s ltac:(lia) k) as Hlen. fold i in Hlen.
    specialize (IH (S k) (n / 2)%nat). cbn zeta in IH. rewrite <- div_pow_S in IH. fold i in IH.
    assert (forall s1 h1, (1 <= s1 <= s)%nat -> n = ((s1 - 1) / 2 ^ k)%nat -> lastAt L s1 k = Some h1 ->
        exists h1', lastAt L s1 (S k) = Some h1' /\ (forall c, (sib <= i)%nat -> lev k (take s L) !! sib = Some c -> h1' = if Nat.odd n then HC c h1 else h1) /\ (Nat.odd n = false -> h1' = h1)) as Hold.
    { intros s1 h1 Hs1 En Hh1. pose proof (lastAt_step L s1 ltac:(lia) k h1 Hh1) as Hst. cbn zeta in Hst. rewrite <- En in Hst. unfold sib. destruct (Nat.odd n) eqn:Ho; [|by exists h1].
      pose proof (length_snap L s1 ltac:(lia) k) as Hl1. rewrite <- En in Hl1. destruct (lookup_lt_is_Some_2 (lev k (take s1 L)) (n - 1)%nat) as [a Ha]; [lia|].
      rewrite Ha in Hst. exists (HC a h1). split_and!; [done| |done]. intros c _ Hc. pose proof (odd_double n Ho). pose proof (mul_div_pow (s1 - 1) k) as Hm. rewrite <- En in Hm.
      rewrite <- (lookup_take_lt _ n) in Ha by lia. rewrite <- (lookup_take_lt _ n) in Hc by lia. rewrite (lev_prefix k n s1 s) in Ha by lia. by rewrite Hc in Ha; injection Ha as ->. }
    destruct (decide (sib <= i)%nat) as [Hsib|Hsib].
    + destruct (sibling_run k n ltac:(fold i; lia) Hn Hsib) as (c & d & Hc & Ed & Esr). fold sib in Hc. fold i in Esr. fold sib in Esr. rewrite Esr.
      destruct (IH (if Nat.odd n then HC c h else HC h c)) as (path & root & -> & Hroot & Hpath & Hpold); [lia|lia| |].
      { rewrite lev_S. unfold sib in Hc. destruct (Nat.odd n) eqn:Ho; first [pose proof (odd_double n Ho)|pose proof (even_double n Ho)]; apply up_lookup.
        - by replace (2 * (n / 2))%nat with (n - 1)%nat by lia.
        - by replace (2 * (n / 2) + 1)%nat with n by lia.
        - by replace (2 * (n / 2))%nat with n by lia.
        - by replace (2 * (n / 2) + 1)%nat with (n + 1)%nat by lia. }
      exists (d :: path), root. rewrite decide_False by lia. assert (negb (Nat.odd n) && bool_decide (n = i) = false) as ->.
      { unfold sib in Hsib. destruct (Nat.odd n); [done|]. apply bool_decide_eq_false. lia. }
      cbn [fmap list_fmap app]. rewrite Ed. split_and!; [done|done|by destruct (Nat.odd n)|]. intros s1 h1 Hs1 En Hh1. rewrite decide_False by lia.
      destruct (Hold s1 h1 Hs1 En Hh1) as (h1' & Hh1' & Hodd & _). rewrite <- (Hodd c Hsib Hc). apply Hpold; [done|by rewrite En, div_pow_S|done].
    + rewrite (proj2 (Z.ltb_ge _ _)), (proj2 (Z.eqb_neq _ _)) by lia. unfold sib in Hsib. destruct (Nat.odd n) eqn:Ho; [pose proof (odd_double n Ho); lia|].
      assert (n = i) as -> by lia. destruct (IH h) as (path & root & Hcp & Hroot & Hpath & Hpold); [lia|lia|rewrite lev_S; by apply up_last_even|].
      exists path, root. rewrite decide_False by lia. rewrite bool_decide_true by done. cbn [negb andb]. split_and!; [|done|done|].
      { cbn -[climbPath Nat.div Z.of_nat]. by rewrite Hcp. }
      intros s1 h1 Hs1 En Hh1. rewrite decide_False by lia. destruct (Hold s1 h1 Hs1 En Hh1) as (h1' & Hh1' & _ & He). rewrite <- (He eq_refl). apply Hpold; [done|by rewrite En, div_pow_S|done].
Qed.
End Path.

Lemma catchUp_run L p s mt : processed L p mt -> (1 <= s <= length L)%nat ->
  exists mt' p', (if mt_leavesProcessed mt <? s then _ ← updateToSnapshot H s; mret tt else mret tt) mt = (Ok tt, mt') /\ processed L p' mt' /\ (s <= p')%nat.
Proof using Type.
  intros Hpr Hs. pose proof Hpr as (Hp & _ & Elp & _). rewrite Elp. destruct (Z.ltb_spec p s); [|exists mt, p; split_and!; [done|done|lia]].
  destruct (updateToSnapshot_run L p s mt Hpr ltac:(lia)) as (mt' & root & E & _ & Hpr'). exists mt', s. erewrite bind_run by exact E. done.
Qed.
Lemma pathFromNode_run L p mt (n k s : nat) h : processed L p mt -> (1 <= s <= length L)%nat -> (2 ^ k <= s)%nat -> (n <= (s - 1) / 2 ^ k)%nat -> lev k (take s L) !! n = Some h ->
  exists mt' path, pathFromNodeToRootAtSnapshot H n k s mt = (Ok path, mt') /\ mt_inv L mt'
    /\ path_root (S s) false n ((s - 1) / 2 ^ k) h (ted_Value <$> path) = Some (snapRoot L s)
    /\ forall s1 h1, (1 <= s1 <= s)%nat -> n = ((s1 - 1) / 2 ^ k)%nat -> lastAt L s1 k = Some h1 ->
         path_root (S s) true n ((s - 1) / 2 ^ k) h1 (ted_Value <$> path) = Some (snapRoot L s1).
Proof using Type.
  intros Hpr Hs Hk Hn Hh. pose proof Hpr as (Hp & _ & _ & Elc). unfold pathFromNodeToRootAtSnapshot. rewrite (proj2 (Z.eqb_neq _ _)) by lia. run. rewrite (LeafCount_run L) by by eapply processed_inv. run.
  replace (s - 1) with (Z.of_nat (s - 1)) by lia. rewrite shiftr_nat, Elc.
  assert (k <= Nat.log2_up (length L))%nat by (apply (Nat.pow_le_mono_r_iff 2); [lia|]; pose proof (Nat.log2_up_le_pow2 (length L) (Nat.log2_up (length L))); lia).
  rewrite (proj2 (Z.leb_gt _ _)), (proj2 (Z.ltb_ge _ _)), (proj2 (Z.ltb_ge _ _)) by lia. cbn [orb].
  destruct (catchUp_run L p s mt Hpr Hs) as (mt1 & p1 & E1 & Hpr1 & Hp1). erewrite bind_run by exact E1. run. rewrite Nat2Z.id.
  destruct (climbPath_run L p1 s mt1 Hpr1 ltac:(lia) (S s) k n h) as (path & root & E2 & Hroot & Hpath & Hold);
    [pose proof (mul_div_pow (s - 1) k); pose proof (pow_pos k); nia|done|done|].
  exists mt1, path. rewrite E2. split_and!; [done|by eapply processed_inv| |].
  - unfold snapRoot. by rewrite !decide_False, Hroot by lia.
  - intros s1 h1 Hs1 En Hh1. rewrite (Hold s1 h1 Hs1 En Hh1). unfold snapRoot. rewrite !decide_False by lia. by destruct (lastAt_is_Some L s1 ltac:(lia) (Nat.log2_up s1)) as [x ->].
Qed.
Lemma Path_run L mt (leaf s : nat) : mt_inv L mt ->
  exists mt' path, PathToRootAtSnapshot H leaf s mt = (Ok path, mt') /\ mt_inv L mt' /\
    forall h, (1 <= leaf <= s)%nat -> (s <= length L)%nat -> L !! (leaf - 1)%nat = Some h -> path_root (S s) false (leaf - 1) (s - 1) h (ted_Value <$> path) = Some (snapRoot L s).
Proof using Type.
  intros Hinv. unfold PathToRootAtSnapshot. erewrite bind_run by done. rewrite (LeafCount_run L) by done. erewrite bind_run by done.
  destruct ((s <? leaf) || (length L <? s) || (leaf =? 0)) eqn:Eg; [exists mt, []; split_and!; [done|done|lia]|].
  assert (L <> []) as HL by (intros ->; cbn [length] in Eg; bool_hyps; lia). pose proof Hinv as Hinv'. rewrite mt_inv_cons in Hinv' by done. destruct Hinv' as [p Hpr].
  destruct (lookup_lt_is_Some_2 L (leaf - 1)%nat) as [h Hh]; [bool_hyps; lia|]. replace (leaf - 1) with (Z.of_nat (leaf - 1)) by (bool_hyps; lia).
  destruct (pathFromNode_run L p mt (leaf - 1) 0 s h Hpr) as (mt' & path & E & Hinv' & Hpath & _); [bool_hyps; lia|rewrite Nat.pow_0_r; bool_hyps; lia|rewrite Nat.pow_0_r, Nat.div_1_r; bool_hyps; lia|change (take s L !! (leaf - 1)%nat = Some h); rewrite lookup_take_lt; [done|bool_hyps; lia]|].
  rewrite Nat.pow_0_r, Nat.div_1_r in Hpath. exists mt', path. split_and!; [exact E|done|]. intros h' _ _ Hh'. rewrite Hh in Hh'. by injection Hh' as <-.
Qed.

(** ** Consistency *)

Fixpoint strip (fuel fn sn : nat) : nat * nat :=
  match fuel with
  | O => (fn, sn)
  | S fuel => if Nat.odd fn then strip fuel (fn / 2) (sn / 2) else (fn, sn)
  end.
(** The check of a consistency proof from a tree of [s1] leaves to one of [s2]. *)
Definition verify_consistency (s1 s2 : nat) (root1 root2 : bytes) (proof : list bytes) : bool :=
  let '(fn, sn) := strip s1 (s1 - 1) (s2 - 1) in
  match (if decide (fn = 0%nat) then Some (root1, proof) else match proof with [] => None | h :: path => Some (h, path) end) with
  | None => false
  | Some (h, path) => bool_decide (path_root (S s2) true fn sn h path = Some root1) && bool_decide (path_root (S s2) false fn sn h path = Some root2)
  end.

Lemma climbLeft_run s1 s2 fuel : (1 <= s1)%nat -> forall k, Nat.modulo s1 (2 ^ k) = 0%nat -> ((s1 - 1) / 2 ^ k < fuel)%nat ->
  exists k', Nat.modulo s1 (2 ^ k') = 0%nat /\ climbLeft (S fuel) ((s1 - 1) / 2 ^ k)%nat k = Ok (Z.of_nat ((s1 - 1) / 2 ^ k')%nat, Z.of_nat k')
    /\ strip fuel ((s1 - 1) / 2 ^ k) ((s2 - 1) / 2 ^ k) = ((s1 - 1) / 2 ^ k', (s2 - 1) / 2 ^ k')%nat.
Proof using Type.
  intros Hs. induction fuel as [|fuel IH]; intros k Hk Hf; [lia|]. cbn [strip]. remember (S fuel) as f. cbn [climbLeft]. subst f. rewrite right_nat. destruct (Nat.odd _) eqn:Ho; [|by exists k].
  assert (Nat.modulo s1 (2 ^ S k) = 0)%nat as Hk' by by apply complete_up.
  rewrite parent_pow, !div_pow_S. replace (k + 1) with (Z.of_nat (S k)) by lia. apply IH; [done|]. rewrite <- div_pow_S. pose proof (odd_double _ Ho). lia.
Qed.

Lemma SnapshotConsistency_run L mt (s1 s2 : nat) : mt_inv L mt ->
  exists mt' path, SnapshotConsistency H s1 s2 mt = (Ok path, mt') /\ mt_inv L mt' /\
    ((1 <= s1 < s2)%nat -> (s2 <= length L)%nat -> verify_consistency s1 s2 (snapRoot L s1) (snapRoot L s2) (ted_Value <$> path) = true).
Proof using Type.
  intros Hinv. unfold SnapshotConsistency. erewrite bind_run by done. rewrite (LeafCount_run L) by done. erewrite bind_run by done.
  destruct ((s1 =? 0) || (s2 <=? s1) || (length L <? s2)) eqn:Eg; [exists mt, []; split_and!; [done|done|lia]|]. bool_hyps.
  assert (L <> []) as HL by (intros ->; cbn [length] in Eg; lia). pose proof Hinv as Hinv'. rewrite mt_inv_cons in Hinv' by done. destruct Hinv' as [p Hpr].
  destruct (climbLeft_run s1 s2 s1 ltac:(lia) 0) as (k & Hk & Ec & Est); [by rewrite Nat.pow_0_r, Nat.mod_1_r|rewrite Nat.pow_0_r, Nat.div_1_r; lia|].
  rewrite Nat.pow_0_r, Nat.div_1_r in Ec. rewrite Nat.pow_0_r, !Nat.div_1_r in Est. replace (Z.of_nat (s1 - 1)) with (s1 - 1) in Ec by lia. change (Z.of_nat 0) with 0 in Ec. rewrite Nat2Z.id, Ec. erewrite bind_run by done. cbn beta iota.
  destruct (catchUp_run L p s2 mt Hpr ltac:(lia)) as (mt1 & p1 & E1 & Hpr1 & Hp1). erewrite bind_run by exact E1. erewrite bind_run by done.
  pose proof Hpr1 as (Hpl & Hl1 & _). destruct (lastAt_is_Some L s1 ltac:(lia) k) as [h Hh]. pose proof (last_complete s1 k ltac:(lia) Hk) as Hc.
  assert (2 ^ k <= s1)%nat as Hk1 by (pose proof (pow_pos k); cbn in Hc; lia). set (fn := ((s1 - 1) / 2 ^ k)%nat) in *.
  assert (lev k (take s2 L) !! fn = Some h) as Hh2.
  { unfold lastAt in Hh. fold fn in Hh. rewrite <- (lookup_take_lt _ (S fn)) in Hh by lia. rewrite <- (lookup_take_lt _ (S fn)) by lia.
    by rewrite (lev_prefix k (S fn) s2 s1) by lia. }
  destruct (pathFromNode_run L p1 mt1 fn k s2 h Hpr1) as (mt2 & path & E2 & Hinv2 & Hpath & Hold); [lia|lia|apply Nat.Div0.div_le_mono; lia|done|].
  specialize (Hold s1 h ltac:(lia) eq_refl Hh). rewrite (node_past L p1 s1 mt1 ltac:(lia) Hl1 ltac:(lia) k fn h) by (done || lia).
  exists mt2, ((if decide (fn = 0%nat) then [] else [mkTreeEntryDescriptor h k fn]) ++ path). split_and!; [|done|].
  - destruct (Z.eqb_spec fn 0); [rewrite decide_True by lia|rewrite decide_False by lia]; cbn [negb]; erewrite bind_run by done; erewrite bind_run by exact E2; done.
  - intros _ _. unfold verify_consistency. rewrite Est. destruct (decide (fn = 0%nat)) as [E0|E0].
    + assert (snapRoot L s1 = h) as Eh.
      { unfold snapRoot. rewrite !decide_False by lia. rewrite <- (lastAt_top L s1 ltac:(lia) k), Hh; [done|]. rewrite E0 in Hc. lia. }
      rewrite Eh in *. cbn [app]. by rewrite !bool_decide_true.
    + cbn [app fmap list_fmap ted_Value]. by rewrite !bool_decide_true.
Qed.

(** ** Reachable trees *)

(** The public operations; counts and positions are not negative. *)
Inductive mt_step : list bytes * InMemoryMerkleTree -> list bytes * InMemoryMerkleTree -> Prop :=
  | step_AddLeaf D mt d : mt_step (D, mt) (D ++ [d], (AddLeaf H d mt).2)
  | step_Root D mt s : 0 <= s -> mt_step (D, mt) (D, (RootAtSnapshot H s mt).2)
  | step_Path D mt leaf s : 0 <= leaf -> 0 <= s -> mt_step (D, mt) (D, (PathToRootAtSnapshot H leaf s mt).2)
  | step_Consistency D mt s1 s2 : 0 <= s1 -> 0 <= s2 -> mt_step (D, mt) (D, (SnapshotConsistency H s1 s2 mt).2).
Definition mt_reachable (D : list bytes) (mt : InMemoryMerkleTree) : Prop := rtc mt_step ([], NewInMemoryMerkleTree) (D, mt).

Lemma mt_step_inv c c' : mt_step c c' -> mt_inv (HashLeaf H <$> c.1) c.2 -> mt_inv (HashLeaf H <$> c'.1) c'.2.
Proof using Type.
  intros Hst Hinv. destruct Hst as [D mt d|D mt s Hs|D mt leaf s Hl Hs|D mt s1 s2 H1 H2]; cbn [fst snd] in *.
  - destruct (AddLeaf_run _ _ d Hinv) as (mt' & -> & Hinv'). by rewrite fmap_app.
  - rewrite <- (Z2Nat.id s) by done. by destruct (RootAtSnapshot_run _ _ (Z.to_nat s) Hinv) as (mt' & -> & Hinv').
  - rewrite <- (Z2Nat.id leaf), <- (Z2Nat.id s) by done. by destruct (Path_run _ _ (Z.to_nat leaf) (Z.to_nat s) Hinv) as (mt' & path & -> & Hinv' & _).
  - rewrite <- (Z2Nat.id s1), <- (Z2Nat.id s2) by done. by destruct (SnapshotConsistency_run _ _ (Z.to_nat s1) (Z.to_nat s2) Hinv) as (mt' & path & -> & Hinv' & _).
Qed.
Lemma reachable_inv D mt : mt_reachable D mt -> mt_inv (HashLeaf H <$> D) mt.
Proof using Type.
  intros Hr. change (mt_inv (HashLeaf H <$> (D, mt).1) (D, mt).2). unfold mt_reachable in Hr. remember ([], NewInMemoryMerkleTree) as c0 eqn:E0.
  assert (mt_inv (HashLeaf H <$> c0.1) c0.2) as H0 by by subst c0. clear E0. induction Hr as [|c c' c'' Hst _ IH]; [done|]. by apply IH, (mt_step_inv c).
Qed.

(** C33: The lazily updated tree computes the Merkle tree hash that RFC 6962 defines by
    recursion: after any additions and queries, asking for the root of any snapshot, past
    or current, does not panic and gives the hash of that prefix of the leaves. *)
Theorem root_is_MTH D mt s : mt_reachable D mt -> 0 <= s <= zlen D -> exists mt', RootAtSnapshot H s mt = (Ok (MTH (take (Z.to_nat s) D)), mt').
Proof using Type.
  intros Hr Hs. unfold zlen in Hs. destruct (RootAtSnapshot_run _ _ (Z.to_nat s) (reachable_inv _ _ Hr)) as (mt' & E & _). rewrite Z2Nat.id in E by lia.
  exists mt'. by rewrite E, snapRoot_MTH, decide_False by lia.
Qed.

(** The path of a leaf leads to the root of its snapshot: the verifier, given the leaf,
    its position, the size of the tree and the hashes of the path, arrives at the
    Merkle tree hash of the leaves of the snapshot. *)
Theorem path_verifies D mt leaf s d : mt_reachable D mt -> 1 <= leaf <= s -> s <= zlen D -> D !! Z.to_nat (leaf - 1) = Some d ->
  exists path mt', PathToRootAtSnapshot H leaf s mt = (Ok path, mt') /\
    path_root (S (Z.to_nat s)) false (Z.to_nat (leaf - 1)) (Z.to_nat (s - 1)) (HashLeaf H d) (ted_Value <$> path) = Some (MTH (take (Z.to_nat s) D)).
Proof using Type.
  intros Hr Hl Hs Hd. unfold zlen in Hs. destruct (Path_run _ _ (Z.to_nat leaf) (Z.to_nat s) (reachable_inv _ _ Hr)) as (mt' & path & E & _ & Hp).
  rewrite !Z2Nat.id in E by lia. exists path, mt'. split; [done|]. rewrite snapRoot_MTH, decide_False in Hp by lia. replace (Z.to_nat (leaf - 1)) with (Z.to_nat leaf - 1)%nat in * by lia. replace (Z.to_nat (s - 1)) with (Z.to_nat s - 1)%nat by lia. apply Hp; [lia| |].
  - rewrite length_fmap. lia.
  - by rewrite list_lookup_fmap, Hd.
Qed.

(** A consistency proof convinces its verifier that the tree of the first snapshot is a
    prefix of that of the second: from the hashes of the proof it recomputes both
    roots. *)
Theorem consistency_verifies D mt s1 s2 : mt_reachable D mt -> 1 <= s1 < s2 -> s2 <= zlen D ->
  exists path mt', SnapshotConsistency H s1 s2 mt = (Ok path, mt') /\
    verify_consistency (Z.to_nat s1) (Z.to_nat s2) (MTH (take (Z.to_nat s1) D)) (MTH (take (Z.to_nat s2) D)) (ted_Value <$> path) = true.
Proof using Type.
  intros Hr H1 H2. unfold zlen in H2. destruct (SnapshotConsistency_run _ _ (Z.to_nat s1) (Z.to_nat s2) (reachable_inv _ _ Hr)) as (mt' & path & E & _ & Hv).
  rewrite !Z2Nat.id in E by lia. exists path, mt'. split; [done|]. rewrite !snapRoot_MTH, !decide_False in Hv by lia. apply Hv; [lia|]. rewrite length_fmap. lia.
Qed.
End Spec.

(** ** Witnesses *)

(** Five leaves, with a root and a path asked for on the way. *)
Definition toyH (b : bytes) : bytes := [zlen b; foldr (λ x acc, (3 * x + 5 * acc) `mod` 251) 7 b].
Definition toyLeaves : list bytes := [[1]; [2]; [3]; [4]; [5]].
Definition toyTree : InMemoryMerkleTree :=
  let add d mt := (AddLeaf toyH d mt).2 in
  (PathToRootAtSnapshot toyH 3 4 (add [5] (add [4] ((RootAtSnapshot toyH 3 (add [3] (add [2] (add [1] NewInMemoryMerkleTree)))).2)))).2.
Lemma toyTree_reachable : mt_reachable toyH toyLeaves toyTree.
Proof.
  unfold mt_reachable, toyTree. eapply rtc_l; [apply (step_AddLeaf _ [])|]. eapply rtc_l; [apply (step_AddLeaf _ [[1]])|]. eapply rtc_l; [apply (step_AddLeaf _ [[1]; [2]])|].
  eapply rtc_l; [apply (step_Root _ _ _ 3); lia|]. eapply rtc_l; [apply (step_AddLeaf _ [[1]; [2]; [3]])|]. eapply rtc_l; [apply (step_AddLeaf _ [[1]; [2]; [3]; [4]])|].
  eapply rtc_l; [apply (step_Path _ _ _ 3 4); lia|]. apply rtc_refl.
Qed.
Lemma root_is_MTH_witness : exists mt', RootAtSnapshot toyH 3 toyTree = (Ok (MTH toyH [[1]; [2]; [3]]), mt').
Proof. apply (root_is_MTH toyH toyLeaves toyTree 3); [exact toyTree_reachable|change (zlen toyLeaves) with 5; lia]. Defined.
Lemma path_verifies_witness : exists path mt', PathToRootAtSnapshot toyH 2 5 toyTree = (Ok path, mt') /\
  path_root toyH 6 false 1 4 (HashLeaf toyH [2]) (ted_Value <$> path) = Some (MTH toyH toyLeaves).
Proof. apply (path_verifies toyH toyLeaves toyTree 2 5 [2]); [exact toyTree_reachable|lia|change (zlen toyLeaves) with 5; lia|reflexivity]. Defined.
Lemma consistency_verifies_witness : exists path mt', SnapshotConsistency toyH 3 5 toyTree = (Ok path, mt') /\
  verify_consistency toyH 3 5 (MTH toyH [[1]; [2]; [3]]) (MTH toyH toyLeaves) (ted_Value <$> path) = true.
Proof. apply (consistency_verifies toyH toyLeaves toyTree 3 5); [exact toyTree_reachable|lia|change (zlen toyLeaves) with 5; lia]. Defined.
