(* ===== verification/Payset.v ===== *)
(** Commitments to the transactions of a block (src/data/transactions/aggregates.go and
    tx.go): the hash of the encoded list, or the Merkle root of the identifiers.

    [H] is [crypto.Hash], [HM] the hash function of the Merkle tree; the encodings of
    the two kinds of list and the identifier of a ledger transaction are parameters.  The
    theorem is the binding property of the Merkle mode: two lists with one commitment are
    equal, or a collision of one of the hash functions can be read off them. *)

From S2P Require Import Prelude Config Basics Transactions Bookkeeping Merkle MerkleSpec.

Section Payset.
Variables H HM : bytes -> bytes.
Variable encodePayset : list SignedTxnInBlock -> bytes.
Variable encodeProxySet : list SignedSingleTxnInBlock -> bytes.
Variable computeID : Transaction -> Txid.

(** [hashRep] of a list: the domain [protocol.PaysetFlat], which is "PF", and the
    encoding. *)
Definition PaysetFlat : bytes := [80; 70].
Definition Payset_ToBeHashed (payset : list SignedTxnInBlock) : bytes * bytes := (PaysetFlat, encodePayset payset).
Definition PayProxySet_ToBeHashed (payset : list SignedSingleTxnInBlock) : bytes * bytes := (PaysetFlat, encodeProxySet payset).
Definition hashRep (h : bytes * bytes) : bytes := h.1 ++ h.2.
Definition HashObj (h : bytes * bytes) : Digest := H (hashRep h).

(** ** Application transactions *)

Definition Tx_Hash (tx : bytes) : bytes := tx.
Definition Tx_ComputeID (tx : bytes) : Txid := H tx.
(** The first transaction; an empty list panics. *)
Definition Txs_Hash (txs : list bytes) : result bytes :=
  match Tx_Hash <$> txs with [] => Panic "index out of range" | h :: _ => Ok h end.
Fixpoint Txs_index (i : Z) (txs : list bytes) (tx : bytes) : Z :=
  match txs with
  | [] => -1
  | t :: txs => if bool_decide (t = tx) then i else Txs_index (i + 1) txs tx
  end.
Definition Txs_Index (txs : list bytes) (tx : bytes) : Z := Txs_index 0 txs tx.
Definition Txs_IndexByHash (txs : list bytes) (hash : bytes) : Z := Txs_index 0 (Tx_Hash <$> txs) hash.

(** ** Commitments *)

Definition Payset_Commit (payset : list SignedTxnInBlock) (flat : bool) : result Digest :=
  if flat then Ok (HashObj (Payset_ToBeHashed payset))
  else Root HM ((λ txib, ID computeID (stx_Txn (sad_SignedTxn (stb_WithAD txib)))) <$> payset).
Definition PayProxySet_Commit (payset : list SignedSingleTxnInBlock) (flat : bool) : result Digest :=
  if flat then Ok (HashObj (PayProxySet_ToBeHashed payset))
  else Root HM ((λ txib, Tx_ComputeID (ssb_Tx txib)) <$> payset).

(** ** Binding *)

Definition collision (h : bytes -> bytes) : Prop := exists x y, x <> y /\ h x = h y.
Lemma hash_inj h x y : h x = h y -> x = y \/ collision h.
Proof using Type. intros E. destruct (decide (x = y)); [by left|right; by exists x, y]. Qed.

Lemma Txs_index_spec txs tx : forall i, 0 <= i ->
  (Txs_index i txs tx = -1 /\ tx ∉ txs) \/ exists n : nat, Txs_index i txs tx = i + Z.of_nat n /\ txs !! n = Some tx.
Proof using Type.
  induction txs as [|t txs IH]; intros i Hi; [left; split; [done|apply not_elem_of_nil]|]. cbn. case_bool_decide as E.
  - right. exists 0%nat. subst t. split; [lia|done].
  - destruct (IH (i + 1)) as [[E1 E2]|(n & E1 & E2)]; [lia|left; split; [done|by apply not_elem_of_cons]|].
    right. exists (S n). split; [lia|done].
Qed.
Lemma Txs_Index_spec txs tx : (Txs_Index txs tx = -1 /\ tx ∉ txs) \/ exists n : nat, Txs_Index txs tx = Z.of_nat n /\ txs !! n = Some tx.
Proof using Type. apply Txs_index_spec. lia. Qed.

(** What the root of a tree is the hash of. *)
Definition MTH_pre (D : list bytes) : bytes :=
  match D with
  | [] => []
  | [d] => LeafHashPrefix :: d
  | _ => NodeHashPrefix :: MTH HM (take (splitPoint (length D)) D) ++ MTH HM (drop (splitPoint (length D)) D)
  end.
Lemma MTH_pre_spec D : MTH HM D = HM (MTH_pre D).
Proof using Type. destruct D as [|d1 [|d2 D]]; [apply MTH_nil|apply MTH_one|]. by rewrite MTH_split by (cbn; lia). Qed.

Hypothesis HM_length : forall b, length (HM b) = 32%nat.

Lemma MTH_length D : length (MTH HM D) = 32%nat.
Proof using HM_length. rewrite MTH_pre_spec. apply HM_length. Qed.
Lemma addLeaves_run leaves : forall D mt, mt_inv HM (HashLeaf HM <$> D) mt ->
  exists mt', addLeaves HM leaves mt = (Ok tt, mt') /\ mt_inv HM (HashLeaf HM <$> (D ++ leaves)) mt'.
Proof using Type.
  induction leaves as [|d leaves IH]; intros D mt Hinv; [exists mt; by rewrite app_nil_r|]. destruct (AddLeaf_run HM _ _ d Hinv) as (mt1 & E & Hinv1).
  change [HashLeaf HM d] with (HashLeaf HM <$> [d]) in Hinv1. rewrite <- fmap_app in Hinv1. destruct (IH _ _ Hinv1) as (mt2 & E2 & Hinv2). exists mt2. rewrite <- app_assoc in Hinv2. split; [|done].
  unfold addLeaves. cbn [forM]. erewrite bind_run by (erewrite bind_run by exact E; done). exact E2.
Qed.
(** [merkle.Root] is the Merkle tree hash. *)
Lemma Root_MTH leaves : Root HM leaves = Ok (MTH HM leaves).
Proof using HM_length.
  unfold Root. destruct (addLeaves_run leaves [] NewInMemoryMerkleTree eq_refl) as (mt1 & E1 & Hinv1). erewrite bind_run by exact E1. unfold CurrentRoot.
  erewrite bind_run by done. rewrite (LeafCount_run HM _ _ Hinv1). erewrite bind_run by done. cbn [app]. destruct (RootAtSnapshot_run HM _ _ (length leaves) Hinv1) as (mt2 & E2 & _).
  cbn [app]. rewrite length_fmap, E2. rewrite snapRoot_MTH. cbn [app]. rewrite decide_False, take_ge by lia. unfold zlen. by rewrite MTH_length.
Qed.

(** Equal hashes of two trees: equal leaves, or a collision. *)
Lemma MTH_binding n : forall D1 D2, (length D1 <= n)%nat -> MTH HM D1 = MTH HM D2 -> D1 = D2 \/ collision HM.
Proof using HM_length.
  induction n as [n IH] using lt_wf_ind. intros D1 D2 Hn E. rewrite !MTH_pre_spec in E. apply hash_inj in E as [E|?]; [|by right].
  destruct D1 as [|d1 [|d1' D1]], D2 as [|d2 [|d2' D2]]; try discriminate E; [by left|left; injection E as E; by subst|].
  set (E1 := d1 :: d1' :: D1) in *. set (E2 := d2 :: d2' :: D2) in *. assert (2 <= length E1)%nat as Hl1 by (cbn; lia). cbn [MTH_pre] in E.
  injection E as E. apply app_inj_1 in E as [Et Ed]; [|by rewrite !MTH_length].
  change (S (S (length D1))) with (length E1) in *. change (S (S (length D2))) with (length E2) in *. pose proof (splitPoint_lt (length E1) Hl1) as Hsp.
  eapply (IH (splitPoint (length E1))) in Et as [Et'|?]; [|by right|lia|rewrite length_take; lia].
  eapply (IH (length E1 - splitPoint (length E1))%nat) in Ed as [Ed'|?]; [|by right|lia|rewrite length_drop; lia].
  left. rewrite <- (take_drop (splitPoint (length E1)) E1), Et', Ed'. apply take_drop.
Qed.
Lemma ComputeID_binding (T1 T2 : list bytes) : Tx_ComputeID <$> T1 = Tx_ComputeID <$> T2 -> T1 = T2 \/ collision H.
Proof using Type.
  revert T2. induction T1 as [|t1 T1 IH]; intros [|t2 T2] E; try discriminate E; [by left|]. injection E as Eh Et. apply hash_inj in Eh as [->|?]; [|by right].
  destruct (IH T2 Et) as [->|?]; [by left|by right].
Qed.

(** The commitment to the application transactions of a block, in Merkle mode, never
    panics and binds the list: two lists with the same commitment hold the same
    transactions in the same order, or yield two different strings with one hash. *)
Theorem PayProxySet_Commit_binds (p1 p2 : list SignedSingleTxnInBlock) :
  exists d1 d2, PayProxySet_Commit p1 false = Ok d1 /\ PayProxySet_Commit p2 false = Ok d2 /\ (d1 = d2 -> ssb_Tx <$> p1 = ssb_Tx <$> p2 \/ collision H \/ collision HM).
Proof using HM_length.
  unfold PayProxySet_Commit. eexists _, _. split_and!; [apply Root_MTH..|]. intros E.
  destruct (MTH_binding _ _ _ (le_n _) E) as [E'|?]; [|by right; right]. destruct (ComputeID_binding (ssb_Tx <$> p1) (ssb_Tx <$> p2)) as [?|?]; [|by left|by right; left].
  rewrite <- !list_fmap_compose. exact E'.
Qed.
End Payset.

(** Two one-element lists under a hash function of the right length. *)
Lemma PayProxySet_Commit_binds_witness : let H := λ b : bytes, take 32 (b ++ replicate 32 0) in let p b := [mkSignedSingleTxnInBlock b false false] in
  exists d1 d2, PayProxySet_Commit H H (λ _, []) (p [1; 2]) false = Ok d1 /\ PayProxySet_Commit H H (λ _, []) (p [1; 3]) false = Ok d2
    /\ (d1 = d2 -> ssb_Tx <$> p [1; 2] = ssb_Tx <$> p [1; 3] \/ collision H \/ collision H).
Proof.
  intros H p. apply (PayProxySet_Commit_binds H H (λ _, [])). intros b. unfold H. rewrite length_take, length_app, length_replicate. lia.
Defined.
