(* ===== verification/OneTimeSigSpec.v ===== *)
(** What the one-time signatures guarantee.

    [certified] is the invariant of the secrets: every key is a key pair, certified by
    the key above it for its own identifier.  Deletion is characterised by the set of
    identifiers that can still be signed for, so the state machine of batches and
    offsets refines a set that only shrinks. *)

From S2P Require Import Prelude Config Basics Transactions OneTimeSig.

(** ** Coverage *)

Definition covers (s : OneTimeSignatureSecrets) (id : OneTimeSignatureIdentifier) : bool :=
  bool_decide (is_Some (offsetKey s id)) || bool_decide (is_Some (batchKey s id)).
(** Identifiers are ordered by batch, then offset. *)
Definition id_le (a b : OneTimeSignatureIdentifier) : bool :=
  (id_Batch a <? id_Batch b) || ((id_Batch a =? id_Batch b) && (id_Offset a <=? id_Offset b)).
Definition valid_id (id : OneTimeSignatureIdentifier) : Prop := 0 <= id_Batch id < maxUint64 /\ 0 <= id_Offset id.
Definition bounded (s : OneTimeSignatureSecrets) : Prop :=
  0 <= oss_FirstBatch s /\ oss_FirstBatch s + zlen (batches s) <= maxUint64 /\ 0 <= oss_FirstOffset s.


Lemma if_lookup_Some {A} (c : bool) (l : list A) i : (c = true -> 0 <= i < zlen l) -> bool_decide (is_Some (if c then l !! Z.to_nat i else None)) = c.
Proof.
  intros Hc. destruct c; [|apply bool_decide_eq_false; by intros [??]]. apply bool_decide_true, lookup_lt_is_Some. specialize (Hc eq_refl). unfold zlen in Hc. lia.
Qed.
Lemma wrap_batch id : valid_id id -> wrap64 (id_Batch id + 1) = id_Batch id + 1.
Proof. unfold valid_id, maxUint64. intros Hid. apply wrap64_small. unfold u64. lia. Qed.
Lemma covers_spec s id : valid_id id -> covers s id =
  ((id_Batch id + 1 =? oss_FirstBatch s) && (oss_FirstOffset s <=? id_Offset id) && (id_Offset id <? oss_FirstOffset s + zlen (oss_Offsets s)))
  || ((oss_FirstBatch s <=? id_Batch id) && (id_Batch id <? oss_FirstBatch s + zlen (batches s))).
Proof.
  intros Hid. unfold covers, offsetKey, batchKey. rewrite !if_lookup_Some by (intros Hc; bool_hyps; lia). rewrite wrap_batch by done.
  f_equal; [f_equal|f_equal]; apply eq_true_iff_eq; rewrite !Z.ltb_lt; lia.
Qed.

Section Secrets.
Context {R : Type}.
Variable ed : Ed25519 R.
Variable encodeBatchID : OneTimeSignatureSubkeyBatchID -> bytes.
Variable encodeOffsetID : OneTimeSignatureSubkeyOffsetID -> bytes.
Notation Del := (DeleteBeforeFineGrained ed encodeOffsetID).
Notation repB := (repBatch encodeBatchID).
Notation repO := (repOffset encodeOffsetID).

(** ** Key pairs and certificates *)

Definition keypair (k : bytes * bytes) : Prop := forall m, ed_Verify ed k.1 m (ed_Sign ed k.2 m) = true.
Definition certifiedBatch (v : bytes) (batch : Z) (b : ephemeralSubkey) : Prop :=
  keypair (ek_PK b, ek_SK b) /\ ed_Verify ed v (repB (mkBatchID (ek_PK b) batch)) (ek_PKSigNew b) = true.
Definition certifiedOffset (pk2 : bytes) (batch off : Z) (k : ephemeralSubkey) : Prop :=
  keypair (ek_PK k, ek_SK k) /\ ed_Verify ed pk2 (repO (mkOffsetID (ek_PK k) batch off)) (ek_PKSigNew k) = true.
Definition certified (s : OneTimeSignatureSecrets) : Prop :=
  (forall i b, batches s !! i = Some b -> certifiedBatch (oss_Verifier s) (oss_FirstBatch s + Z.of_nat i) b) /\
  (forall i k, oss_Offsets s !! i = Some k -> certifiedOffset (oss_OffsetsPK2 s) (oss_FirstBatch s - 1) (oss_FirstOffset s + Z.of_nat i) k
     /\ ed_Verify ed (oss_Verifier s) (repB (mkBatchID (oss_OffsetsPK2 s) (oss_FirstBatch s - 1))) (oss_OffsetsPK2Sig s) = true).

(** The generator makes key pairs. *)
Hypothesis GenerateKey_keypair : forall r, keypair (ed_GenerateKey ed r).1.

Lemma generateKey_run r : exists k r', generateKey ed r = (Ok k, r') /\ keypair k.
Proof using GenerateKey_keypair. unfold generateKey. pose proof (GenerateKey_keypair r) as Hk. destruct (ed_GenerateKey ed r) as [k r']. by exists k, r'. Qed.

Lemma generateBatches_run n sec v : (forall m, ed_Verify ed v m (ed_Sign ed sec m) = true) -> forall batch r, 0 <= batch -> batch + Z.of_nat n <= maxUint64 ->
  exists l r', generateBatches ed encodeBatchID n sec batch r = (Ok l, r') /\ length l = n /\
    forall i b, l !! i = Some b -> certifiedBatch v (batch + Z.of_nat i) b.
Proof using GenerateKey_keypair.
  intros Hv. induction n as [|n IH]; intros batch r Hb Hle; [by exists [], r|]. cbn [generateBatches]. destruct (generateKey_run r) as (k & r1 & E1 & Hk).
  unfold maxUint64 in *. rewrite wrap64_small by (unfold u64; lia). destruct (IH (batch + 1) r1) as (l & r2 & E2 & Hl & Hc); [lia|lia|].
  eexists (_ :: l), r2. unfold mbind, M_bind. rewrite E1. cbn -[Z.add]. rewrite E2. split; [reflexivity|]. split; [cbn; lia|]. intros [|i] b Hi; cbn in Hi.
  - injection Hi as <-. split; [by destruct k|]. cbn. rewrite Z.add_0_r. apply Hv.
  - replace (batch + Z.of_nat (S i)) with (batch + 1 + Z.of_nat i) by lia. by apply Hc.
Qed.
Lemma expandOffsets_run n sk pk2 batch : (forall m, ed_Verify ed pk2 m (ed_Sign ed sk m) = true) -> forall off r,
  exists l r', expandOffsets ed encodeOffsetID n sk batch off r = (Ok l, r') /\ length l = n /\
    forall i k, l !! i = Some k -> certifiedOffset pk2 batch (off + Z.of_nat i) k.
Proof using GenerateKey_keypair.
  intros Hv. induction n as [|n IH]; intros off r; [by exists [], r|]. cbn [expandOffsets]. destruct (generateKey_run r) as (k & r1 & E1 & Hk).
  destruct (IH (off + 1) r1) as (l & r2 & E2 & Hl & Hc).
  eexists (_ :: l), r2. unfold mbind, M_bind. rewrite E1. cbn -[Z.add]. rewrite E2. split; [reflexivity|]. split; [cbn; lia|]. intros [|i] b Hi; cbn in Hi.
  - injection Hi as <-. split; [by destruct k|]. cbn. rewrite Z.add_0_r. apply Hv.
  - replace (off + Z.of_nat (S i)) with (off + 1 + Z.of_nat i) by lia. by apply Hc.
Qed.

(** ** Generation, signing, deletion *)

Lemma Generate_run start num r : 0 <= start -> 0 <= num -> start + num <= maxUint64 ->
  exists s r', GenerateOneTimeSignatureSecretsRNG ed encodeBatchID start num r = (Ok s, r') /\ certified s /\ bounded s
    /\ forall id, valid_id id -> covers s id = (start <=? id_Batch id) && (id_Batch id <? start + num).
Proof using GenerateKey_keypair.
  intros Hs Hn Hle. unfold GenerateOneTimeSignatureSecretsRNG. destruct (generateKey_run r) as (k & r1 & E1 & Hk). destruct (generateBatches_run (Z.to_nat num) k.2 k.1 Hk start r1) as (l & r2 & E2 & Hl & Hc); [done|lia|].
  eexists _, r2. unfold mbind, M_bind. rewrite E1. cbn. rewrite E2. split; [reflexivity|]. unfold certified, bounded, zlen. cbn. split_and!; [done|done|done|rewrite Hl; lia|done|].
  intros id Hid. rewrite covers_spec by done. unfold zlen. cbn. rewrite Hl, Z2Nat.id by done. apply eq_true_iff_eq. bool_hyps. lia.
Qed.

Lemma Sign_run s id m r : certified s -> valid_id id -> exists sig r', Sign ed encodeOffsetID s id m r = (Ok sig, r') /\
  if covers s id then Verify ed encodeBatchID encodeOffsetID (oss_Verifier s) id m sig = true else sig = OneTimeSignature_zero.
Proof using GenerateKey_keypair.
  intros [Hb Ho] Hid. unfold Sign, covers. destruct (offsetKey s id) as [k|] eqn:Ek.
  - eexists _, r. split; [reflexivity|]. rewrite bool_decide_true by done. cbn [orb]. unfold offsetKey in Ek. destruct (_ && _) eqn:Eg in Ek; [|done]. bool_hyps. rewrite wrap_batch in Eg by done.
    destruct (Ho _ _ Ek) as [[Hkp Hc] Hv]. rewrite Z2Nat.id in Hc by lia. replace (oss_FirstBatch s - 1) with (id_Batch id) in * by lia.
    replace (oss_FirstOffset s + (id_Offset id - oss_FirstOffset s)) with (id_Offset id) in Hc by lia. unfold Verify. cbn -[repBatch repOffset]. rewrite Hv, Hc. by rewrite (Hkp m : ed_Verify ed (ek_PK k) m (ed_Sign ed (ek_SK k) m) = true).
  - rewrite bool_decide_false by by intros [??]. cbn [orb]. destruct (batchKey s id) as [b|] eqn:Eb; [|eexists _, r; by rewrite bool_decide_false by by intros [??]].
    rewrite bool_decide_true by done. destruct (generateKey_run r) as (k & r1 & E1 & Hk). eexists _, r1. unfold mbind, M_bind. rewrite E1. split; [reflexivity|].
    unfold batchKey in Eb. destruct (_ && _) eqn:Eg in Eb; [|done]. bool_hyps. destruct (Hb _ _ Eb) as [Hkp Hc]. rewrite Z2Nat.id in Hc by lia.
    replace (oss_FirstBatch s + (id_Batch id - oss_FirstBatch s)) with (id_Batch id) in Hc by lia. unfold Verify. cbn -[repBatch repOffset]. by rewrite Hc, (Hkp _ : ed_Verify ed (ek_PK b) _ (ed_Sign ed (ek_SK b) _) = true), (Hk m).
Qed.

Lemma covers_intro s id : valid_id id -> forall c : bool,
  (c = true <-> (id_Batch id + 1 = oss_FirstBatch s /\ oss_FirstOffset s <= id_Offset id < oss_FirstOffset s + zlen (oss_Offsets s))
                \/ oss_FirstBatch s <= id_Batch id < oss_FirstBatch s + zlen (batches s)) -> covers s id = c.
Proof using Type. intros Hid c Hc. rewrite covers_spec by done. apply eq_true_iff_eq. rewrite Hc. bool_hyps. lia. Qed.

(** What deletion guarantees of the new secrets. *)
Definition deleted (s s' : OneTimeSignatureSecrets) (current : OneTimeSignatureIdentifier) (n : Z) : Prop :=
  certified s' /\ bounded s' /\ oss_Verifier s' = oss_Verifier s /\
  forall id, valid_id id -> id_Offset id < n -> covers s' id = covers s id && id_le current id.
Lemma deleted_id s current n : certified s -> bounded s ->
  (forall id, valid_id id -> id_Offset id < n -> covers s id = true -> id_le current id = true) -> deleted s s current n.
Proof using Type.
  intros Hc Hb Hle. split; [done|]. split; [done|]. split; [done|]. intros id Hid Hn. specialize (Hle id Hid Hn). destruct (covers s id); [by rewrite Hle|done].
Qed.

(** Into a later batch. *)
Lemma Delete_later v fb bs fo pk2 sg os current n r : let s := mkSecrets v fb bs fo os pk2 sg in
  certified s -> bounded s -> valid_id current -> fb <= id_Batch current ->
  exists s' r', Del s current n r = (Ok s', r') /\ deleted s s' current n.
Proof using GenerateKey_keypair.
  intros s [Hb _] (HB0 & HB1 & HO0) Hcur Hlater. pose proof Hcur as [Hcur1 Hcur2]. unfold maxUint64, zlen, batches in *. cbn in *. unfold DeleteBeforeFineGrained. rewrite wrap_batch by done.
  cbn -[Z.add Z.sub]. rewrite (proj2 (Z.eqb_neq _ _)), (proj2 (Z.ltb_ge _ _)) by lia. rewrite (wrap64_small (id_Batch current - fb)) by (unfold u64; lia).
  unfold zlen, batches. cbn -[Z.add Z.sub]. destruct (Z.ltb_spec (Z.of_nat (length (default [] bs))) (id_Batch current - fb)) as [Hall|Hsome].
  - destruct bs as [bs|]; (eexists _, r; split; [reflexivity|]; split; [split; cbn; [|done]; intros ? ? Hi; done|]; split; [unfold bounded, maxUint64, zlen, batches; cbn; lia|]; split; [done|]);
      intros id Hid Hn; apply covers_intro; try done; rewrite covers_spec by done; unfold id_le, zlen, batches in *; cbn in *; bool_hyps; lia.
  - set (j := Z.to_nat (id_Batch current - fb)). assert (default [] (drop j <$> bs) = drop j (default [] bs)) as -> by (destruct bs; [done|cbn; by rewrite drop_nil]).
    rewrite (wrap64_small (fb + _)) by (unfold u64; lia). replace (fb + (id_Batch current - fb)) with (id_Batch current) by lia.
    destruct (drop j (default [] bs)) as [|b rest] eqn:Ed.
    + assert (default [] (drop j <$> bs) = []) as Ebs by (destruct bs; [done|done]). assert (length (default [] bs) <= j)%nat as Hlen by (rewrite <- Nat.sub_0_le, <- length_drop, Ed; done).
      eexists _, r. split; [reflexivity|]. split; [split; cbn; [|done]; unfold batches; cbn; rewrite Ebs; done|]. split; [unfold bounded, maxUint64, zlen, batches; cbn; rewrite Ebs; cbn; lia|].
      split; [done|]. intros id Hid Hn. apply covers_intro; [done|]. rewrite covers_spec by done. unfold id_le, zlen, batches in *. cbn. rewrite Ebs. cbn. bool_hyps. lia.
    + assert (default [] bs !! j = Some b) as Hj by (rewrite <- (Nat.add_0_r j), <- lookup_drop, Ed; done). destruct (Hb _ _ Hj) as [Hkp Hcb].
      replace (fb + Z.of_nat j) with (id_Batch current) in Hcb by lia. assert (length (default [] bs) = j + S (length rest))%nat as Hlen.
      { pose proof (lookup_lt_Some _ _ _ Hj). pose proof (length_drop (default [] bs) j) as El. rewrite Ed in El. cbn in El. lia. }
      destruct (expandOffsets_run (Z.to_nat (n - id_Offset current)) (ek_SK b) (ek_PK b) (id_Batch current) Hkp (id_Offset current) r) as (os' & r' & E & Hl' & Hos).
      rewrite (wrap64_small (id_Batch current + 1)) by (unfold u64; lia). eexists _, r'. unfold mbind, M_bind. rewrite E. split; [reflexivity|].
      split; [split; cbn|split; [unfold bounded, maxUint64, zlen, batches; cbn; lia|split; [done|]]].
      * intros i b' Hi. replace (id_Batch current + 1 + Z.of_nat i) with (fb + Z.of_nat (j + S i)) by lia. apply Hb. by rewrite <- lookup_drop, Ed.
      * replace (id_Batch current + 1 - 1) with (id_Batch current) by lia. intros i k Hi. split; [by apply Hos|done].
      * intros id Hid Hn. apply covers_intro; [done|]. rewrite covers_spec by done. unfold id_le, zlen, batches in *. cbn. rewrite Hl'. pose proof Hid as [? ?]. bool_hyps. lia.
Qed.
Lemma Delete_run s current n r : certified s -> bounded s -> valid_id current ->
  exists s' r', Del s current n r = (Ok s', r') /\ deleted s s' current n.
Proof using GenerateKey_keypair.
  intros [Hb Ho] (HB0 & HB1 & HO0) Hcur. pose proof Hcur as [Hcur1 Hcur2]. destruct (Z.le_gt_cases (oss_FirstBatch s) (id_Batch current)) as [Hlater|Hnl]; [destruct s; by apply Delete_later|].
  unfold DeleteBeforeFineGrained. rewrite wrap_batch by done. unfold maxUint64 in *.
  destruct (Z.eqb_spec (id_Batch current + 1) (oss_FirstBatch s)) as [Esame|Ene].
  2:{ rewrite (proj2 (Z.ltb_lt _ _)) by lia. eexists s, r. split; [reflexivity|]. apply deleted_id; [done|done|]. intros id Hid Hn. rewrite covers_spec by done. unfold id_le. bool_hyps. lia. }
  destruct (Z.ltb_spec (oss_FirstOffset s) (id_Offset current)) as [Hlt|Hge].
  2:{ eexists s, r. split; [reflexivity|]. apply deleted_id; [done|done|]. intros id Hid Hn. rewrite covers_spec by done. unfold id_le. bool_hyps. lia. }
  eexists _, r. split; [reflexivity|]. set (jump := Z.min _ _). assert (0 <= jump <= zlen (oss_Offsets s)) as Hj by (unfold jump, zlen in *; lia).
  split; [|split; [unfold bounded, maxUint64; cbn; unfold batches in *; cbn; lia|split; [done|]]].
  - split; [exact Hb|]. cbn. intros i k Hi. rewrite lookup_drop in Hi. destruct (Ho _ _ Hi) as [Hc Hv]. split; [|done].
    replace (oss_FirstOffset s + jump + Z.of_nat i) with (oss_FirstOffset s + Z.of_nat (Z.to_nat jump + i)) by lia. done.
  - intros id Hid Hn. apply covers_intro; [done|]. rewrite covers_spec by done. unfold id_le, batches, zlen in *. cbn. rewrite length_drop. bool_hyps. lia.
Qed.
End Secrets.
