(* ===== verification/Participation.v ===== *)
(** Participation keys and the account manager (src/data/account/participation.go,
    account.go, partInstall.go, rootInstall.go and src/data/accountManager.go).

    A participation owns a database with two tables, which [PartDB] holds; a
    transaction that fails leaves it unchanged ([Atomic]).  The encodings of the secrets
    are parameters.  The secrets are shared through a pointer: a participation that is
    returned replaces the one that was given.  The write that [DeleteOldKeys] starts in
    the background is done when the manager has received from its channel; its outcome
    is returned beside the participation. *)

From S2P Require Import Prelude Config Basics Transactions OneTimeSig.

(** ** The participation database *)

Record PartRow := mkPartRow {
  pr_parent : bytes; pr_vrf : bytes; pr_voting : bytes; pr_firstValid : Z; pr_lastValid : Z; pr_keyDilution : Z
}.
#[export] Instance PartRow_eta : Eta PartRow := λ r,
  mkPartRow (pr_parent r) (pr_vrf r) (pr_voting r) (pr_firstValid r) (pr_lastValid r) (pr_keyDilution r).
(** The table of accounts; [pt_keyDilution]: whether it has that column, whose value is 0
    in the rows of a table without it. *)
Record PartTable := mkPartTable { pt_keyDilution : bool; pt_rows : list PartRow }.
#[export] Instance PartTable_eta : Eta PartTable := λ r, mkPartTable (pt_keyDilution r) (pt_rows r).
(** [None]: there is no such table. *)
Record PartDB := mkPartDB { pdb_account : option PartTable; pdb_schema : option (list (string * Z)) }.
#[export] Instance PartDB_eta : Eta PartDB := λ r, mkPartDB (pdb_account r) (pdb_schema r).
Definition PartDB_empty : PartDB := mkPartDB None None.

Definition Atomic {A} (f : M PartDB A) : M PartDB A := λ d,
  match f d with
  | (Ok a, d') => (Ok a, d')
  | (r, _) => (r, d)
  end.

Definition PartTableSchemaName : string := "parttable".
Definition PartTableSchemaVersion : Z := 2.
Definition ErrUnsupportedSchema : error := Errorf "unsupported participation file schema version (expected 2)".

Definition partInstallDatabase : M PartDB unit :=
  d ← get;
  _ ← match pdb_account d with
      | Some _ => throw (Errorf "table ParticipationAccount already exists")
      | None => put (d <| pdb_account := Some (mkPartTable true []) |>)
      end;
  d ← get;
  _ ← match pdb_schema d with
      | Some _ => throw (Errorf "table schema already exists")
      | None => put (d <| pdb_schema := Some [] |>)
      end;
  d ← get;
  put (d <| pdb_schema ::= fmap (λ rows, rows ++ [(PartTableSchemaName, PartTableSchemaVersion)]) |>).

(** [versions[tablename]]: the last row with that name. *)
Definition versionOf (rows : list (string * Z)) (name : string) : option Z :=
  foldl (λ acc row, if bool_decide (row.1 = name) then Some row.2 else acc) None rows.
Definition partMigrate : M PartDB unit :=
  d ← get;
  match pdb_schema d with
  | None => throw ErrUnsupportedSchema
  | Some rows =>
    match versionOf rows PartTableSchemaName with
    | None => throw ErrUnsupportedSchema
    | Some partVersion =>
      partVersion ← (if partVersion =? 1 then
                       _ ← match pdb_account d with
                           | Some t => if pt_keyDilution t then throw (Errorf "duplicate column name: keyDilution")
                                       else put (d <| pdb_account := Some (t <| pt_keyDilution := true |>) |>)
                           | None => throw (Errorf "no such table: ParticipationAccount")
                           end;
                       d ← get;
                       _ ← put (d <| pdb_schema := Some ((λ row, if bool_decide (row.1 = PartTableSchemaName) then (row.1, 2) else row) <$> rows) |>);
                       mret 2
                     else mret partVersion);
      guardE (partVersion =? PartTableSchemaVersion) ErrUnsupportedSchema
    end
  end.
Definition Migrate : M PartDB unit := Atomic partMigrate.

(** Integers go to the database as [int64]; [database/sql] refuses larger ones. *)
Definition sqlInt (z : Z) : M PartDB unit := guardE (z <? 2 ^ 63) (Errorf "uint64 values with high bit set are not supported").

(** ** Participation *)

Record Participation := mkParticipation {
  part_Parent : Address;
  part_VRF : bytes * bytes;   (* public and private key *)
  part_Voting : OneTimeSignatureSecrets;
  part_FirstValid : Round;
  part_LastValid : Round;
  part_KeyDilution : Z;
  part_Store : PartDB
}.
#[export] Instance Participation_eta : Eta Participation := λ r,
  mkParticipation (part_Parent r) (part_VRF r) (part_Voting r) (part_FirstValid r) (part_LastValid r) (part_KeyDilution r) (part_Store r).

Definition ValidInterval (part : Participation) : Round * Round := (part_FirstValid part, part_LastValid part).
Definition OverlapsInterval (part : Participation) (first last : Round) : result bool :=
  if last <? first then Panic "Round interval should be ordered"
  else if (last <? part_FirstValid part) || (part_LastValid part <? first) then Ok false
  else Ok true.
Definition VotingSigner (part : Participation) : OneTimeSigner := mkOneTimeSigner (part_Voting part) (part_KeyDilution part).

Definition GenerateRegistrationTransaction (part : Participation) (fee : MicroAlgos) (txnFirstValid txnLastValid : Round) (leaseBytes : bytes)
    (params : ConsensusParams) : Transaction :=
  mkTransaction KeyRegistrationTx
    (mkHeader (part_Parent part) fee txnFirstValid txnLastValid None "" zero32 zero32 leaseBytes)
    (mkKeyregTxnFields (oss_Verifier (part_Voting part)) (part_VRF part).1 (part_FirstValid part) (part_LastValid part) (part_KeyDilution part) false)
    PaymentTxnFields_zero AssetConfigTxnFields_zero AssetTransferTxnFields_zero AssetFreezeTxnFields_zero zero32 false.

Section Participation.
Context {R : Type}.
Variable ed : Ed25519 R.
Variable encodeBatchID : OneTimeSignatureSubkeyBatchID -> bytes.
Variable encodeOffsetID : OneTimeSignatureSubkeyOffsetID -> bytes.
Variable generateVRF : R -> (bytes * bytes) * R.
Variable encodeVRF : bytes * bytes -> bytes.
Variable decodeVRF : bytes -> option (bytes * bytes).
Variable encodeVoting : OneTimeSignatureSecrets -> bytes.
Variable decodeVoting : bytes -> option OneTimeSignatureSecrets.

Definition persistTx (part : Participation) : M PartDB unit :=
  _ ← partInstallDatabase;
  _ ← sqlInt (part_FirstValid part);
  _ ← sqlInt (part_LastValid part);
  _ ← sqlInt (part_KeyDilution part);
  d ← get;
  put (d <| pdb_account ::= fmap (λ t, t <| pt_rows ::= λ rows, rows ++
         [mkPartRow (part_Parent part) (encodeVRF (part_VRF part)) (encodeVoting (Snapshot (part_Voting part)))
            (part_FirstValid part) (part_LastValid part) (part_KeyDilution part)] |>) |>).
Definition Persist (part : Participation) : result unit * Participation :=
  let '(r, d) := Atomic (persistTx part) (part_Store part) in (r, part <| part_Store := d |>).

(** The statement UPDATE ... SET parent. *)
Definition updateRows (f : PartRow -> PartRow) : M PartDB unit := Atomic (
  d ← get;
  match pdb_account d with
  | None => throw (Errorf "no such table: ParticipationAccount")
  | Some t => put (d <| pdb_account := Some (t <| pt_rows ::= fmap f |>) |>)
  end).
Definition PersistNewParent (part : Participation) : result unit * Participation :=
  let '(r, d) := updateRows (λ row, row <| pr_parent := part_Parent part |>) (part_Store part) in (r, part <| part_Store := d |>).

Definition part_DeleteOldKeys (part : Participation) (current : Round) (proto : ConsensusParams) : M R (result unit * Participation) :=
  let keyDilution := if part_KeyDilution part =? 0 then cp_DefaultKeyDilution proto else part_KeyDilution part in
  id ← lift (OneTimeIDForRound current keyDilution);
  voting ← DeleteBeforeFineGrained ed encodeOffsetID (part_Voting part) (mkOTID id.1 id.2) keyDilution;
  let encodedVotingSecrets := encodeVoting (Snapshot voting) in
  let '(r, d) := updateRows (λ row, row <| pr_voting := encodedVotingSecrets |>) (part_Store part) in
  mret (r, part <| part_Voting := voting |> <| part_Store := d |>).

Definition generateVRFSecrets : M R (bytes * bytes) := λ r, let '(k, r') := generateVRF r in (Ok k, r').
Definition FillDBWithParticipationKeys (store : PartDB) (address : Address) (firstValid lastValid : Round) (keyDilution : Z)
    : M R (result unit * Participation) :=
  if lastValid <? firstValid then throw (Errorf "FillDBWithParticipationKeys: lastValid is after firstValid")
  else
    firstID ← lift (OneTimeIDForRound firstValid keyDilution);
    lastID ← lift (OneTimeIDForRound lastValid keyDilution);
    let numBatches := wrap64 (lastID.1 - firstID.1 + 1) in
    v ← GenerateOneTimeSignatureSecretsRNG ed encodeBatchID firstID.1 numBatches;
    vrf ← generateVRFSecrets;
    mret (Persist (mkParticipation address vrf v firstValid lastValid keyDilution store)).

Definition RestoreParticipation (store : PartDB) : result Participation * PartDB :=
  match Migrate store with
  | (Err e, store) => (Err e, store)
  | (Panic m, store) => (Panic m, store)
  | (Ok _, store) =>
    (match pdb_account store with
     | None => Err (Errorf "RestoreParticipation: could not query storage")
     | Some t =>
       match pt_rows t with
       | [] => Err (Errorf "RestoreParticipation: could not read account raw data")
       | row :: _ =>
         match decodeVRF (pr_vrf row) with
         | None => Err (Errorf "decode vrf")
         | Some vrf =>
           match decodeVoting (pr_voting row) with
           | None => Err (Errorf "decode voting")
           | Some voting =>
             Ok (mkParticipation (take 32 (pr_parent row) ++ drop (length (take 32 (pr_parent row))) zero32) vrf voting
                   (pr_firstValid row) (pr_lastValid row) (pr_keyDilution row) store)
           end
         end
       end
     end, store)
  end.

(** ** Root accounts *)

(** The rows of the table RootAccount; [None] before it is created. *)
Definition RootDB : Type := option (list bytes).
Record Root := mkRoot { root_secrets : bytes * bytes; root_store : RootDB }.
Definition rootInstallDatabase : M RootDB unit :=
  d ← get; match d with Some _ => throw (Errorf "table RootAccount already exists") | None => put (Some []) end.
Variable generateSignatureSecrets : bytes -> bytes * bytes.   (* public and private key from a seed *)
Variable encodeSecrets : bytes * bytes -> bytes.
Variable decodeSecrets : bytes -> option (bytes * bytes).
Definition importRootTx (raw : bytes) : M RootDB unit := _ ← rootInstallDatabase; d ← get; put ((λ rows, rows ++ [raw]) <$> d).
Definition ImportRoot (store : RootDB) (seed : bytes) : result Root * RootDB :=
  let s := generateSignatureSecrets seed in
  match importRootTx (encodeSecrets s) store with
  | (Ok _, store') => (Ok (mkRoot s store'), store')
  | (Err e, _) => (Err e, store)
  | (Panic m, _) => (Panic m, store)
  end.
Definition RestoreRoot (store : RootDB) : result Root :=
  match store with
  | None => Err (Errorf "RestoreRoot: could not query storage")
  | Some [] => Err (Errorf "RestoreRoot: could not read account raw data")
  | Some (raw :: _) =>
    match decodeSecrets raw with
    | None => Err (Errorf "RestoreRoot: error decoding account")
    | Some s => Ok (mkRoot s store)
    end
  end.
Definition Root_Address (root : Root) : Address := (root_secrets root).1.

(** ** The account manager *)

Record ParticipationInterval := mkInterval { pi_Address : Address; pi_FirstValid : Round; pi_LastValid : Round }.
#[export] Instance ParticipationInterval_eq_dec : EqDecision ParticipationInterval.
Proof using Type. solve_decision. Defined.
#[export] Instance ParticipationInterval_countable : Countable ParticipationInterval.
Proof using Type.
  refine (inj_countable' (λ i, (pi_Address i, pi_FirstValid i, pi_LastValid i)) (λ '(a, f, l), mkInterval a f l) _). by intros [].
Defined.

Record AccountManager := mkAccountManager {
  am_partIntervals : gmap ParticipationInterval Participation;
  am_registeredAccounts : gmap Address bool   (* keyed by the text of the address *)
}.
Definition MakeAccountManager : AccountManager := mkAccountManager ∅ ∅.

(** The ranges over the map visit it in some order; these two do not depend on it. *)
Definition Keys (manager : AccountManager) : list Participation := (map_to_list (am_partIntervals manager)).*2.
Fixpoint anyOverlaps (parts : list Participation) (from to : Round) : result bool :=
  match parts with
  | [] => Ok false
  | part :: parts => b ← OverlapsInterval part from to; if b : bool then Ok true else anyOverlaps parts from to
  end.
Definition HasLiveKeys (manager : AccountManager) (from to : Round) : result bool := anyOverlaps (Keys manager) from to.

Definition AddParticipation (manager : AccountManager) (participation : Participation) : bool * AccountManager :=
  let address := part_Parent participation in
  let '(first, last) := ValidInterval participation in
  let interval := mkInterval address first last in
  match am_partIntervals manager !! interval with
  | Some _ => (false, manager)
  | None => (true, mkAccountManager (<[interval := participation]> (am_partIntervals manager)) (<[address := true]> (am_registeredAccounts manager)))
  end.

(** [order] is the order in which the range visits the map.  Failed writes are logged. *)
Fixpoint deleteAll (order : list ParticipationInterval) (current : Round) (proto : ConsensusParams)
    (parts : gmap ParticipationInterval Participation) : M R (gmap ParticipationInterval Participation) :=
  match order with
  | [] => mret parts
  | i :: order =>
    match parts !! i with
    | None => deleteAll order current proto parts
    | Some part => r ← part_DeleteOldKeys part current proto; deleteAll order current proto (<[i := r.2]> parts)
    end
  end.
Definition manager_DeleteOldKeys (order : list ParticipationInterval) (manager : AccountManager) (current : Round) (proto : ConsensusParams) : M R AccountManager :=
  parts ← deleteAll order current proto (am_partIntervals manager);
  mret (mkAccountManager parts (am_registeredAccounts manager)).
End Participation.
