(* ===== verification/ParticipationSpec.v ===== *)
(** The life of participation keys: what a key can sign for after any sequence of
    deletions, in memory and when it is read back from its database, and what the
    account manager's deletions guarantee of every key it holds. *)

From S2P Require Import Prelude Config Basics Transactions OneTimeSig OneTimeSigSpec Participation.

(** Rounds that a database can hold. *)
Definition valid_round (r : Round) : Prop := 0 <= r < 2 ^ 63.
Definition idOf (kd : Z) (r : Round) : OneTimeSignatureIdentifier := mkOTID (r / kd) (r mod kd).

Lemma idOf_valid kd r : 0 < kd -> valid_round r -> valid_id (idOf kd r) /\ id_Offset (idOf kd r) < kd.
Proof.
  intros Hk Hr. unfold valid_id, valid_round, maxUint64 in *. cbn. pose proof (Z.mod_pos_bound r kd Hk). pose proof (Z.div_pos r kd ltac:(lia) Hk).
  pose proof (Z.div_le_upper_bound r kd r Hk ltac:(nia)). lia.
Qed.
(** The order of identifiers is that of rounds. *)
Lemma idOf_le kd a b : 0 < kd -> 0 <= a -> 0 <= b -> id_le (idOf kd a) (idOf kd b) = (a <=? b).
Proof.
  intros Hk Ha Hb. unfold id_le. cbn. apply eq_true_iff_eq. bool_hyps. pose proof (Z.div_mod a kd ltac:(lia)). pose proof (Z.div_mod b kd ltac:(lia)).
  pose proof (Z.mod_pos_bound a kd Hk). pose proof (Z.mod_pos_bound b kd Hk). nia.
Qed.
Lemma OneTimeID_run r kd : 0 < kd -> OneTimeIDForRound r kd = Ok (id_Batch (idOf kd r), id_Offset (idOf kd r)).
Proof. intros Hk. unfold OneTimeIDForRound. by rewrite (proj2 (Z.eqb_neq _ _)) by lia. Qed.

Lemma Migrate_run t : let d := mkPartDB t (Some [(PartTableSchemaName, PartTableSchemaVersion)]) in Migrate d = (Ok tt, d).
Proof. reflexivity. Qed.

Section Participations.
Context {R : Type}.
Variable ed : Ed25519 R.
Variable encodeBatchID : OneTimeSignatureSubkeyBatchID -> bytes.
Variable encodeOffsetID : OneTimeSignatureSubkeyOffsetID -> bytes.
Variable generateVRF : R -> (bytes * bytes) * R.
Variable encodeVRF : bytes * bytes -> bytes.
Variable decodeVRF : bytes -> option (bytes * bytes).
Variable encodeVoting : OneTimeSignatureSecrets -> bytes.
Variable decodeVoting : bytes -> option OneTimeSignatureSecrets.
Notation Fill := (FillDBWithParticipationKeys ed encodeBatchID generateVRF encodeVRF encodeVoting).
Notation Delete := (part_DeleteOldKeys ed encodeOffsetID encodeVoting).
Notation Restore := (RestoreParticipation decodeVRF decodeVoting).

Hypothesis GenerateKey_keypair : forall r, keypair ed (ed_GenerateKey ed r).1.

(** ** The invariant of a participation *)

Definition secrets_ok (s : OneTimeSignatureSecrets) : Prop := certified ed encodeBatchID encodeOffsetID s /\ bounded s.
(** The database holds this participation, and nothing else. *)
Definition stored (part : Participation) : Prop :=
  part_Store part = mkPartDB (Some (mkPartTable true [mkPartRow (part_Parent part) (encodeVRF (part_VRF part)) (encodeVoting (part_Voting part))
    (part_FirstValid part) (part_LastValid part) (part_KeyDilution part)])) (Some [(PartTableSchemaName, PartTableSchemaVersion)]).
(** [part] was made for the rounds [f] to [l], and the keys before the rounds [cs] were
    deleted. *)
Definition part_inv (v : bytes) (f l kd : Z) (cs : list Round) (part : Participation) : Prop :=
  secrets_ok (part_Voting part) /\ stored part /\ part_KeyDilution part = kd /\ oss_Verifier (part_Voting part) = v /\
  forall r, valid_round r -> covers (part_Voting part) (idOf kd r) = (f / kd <=? r / kd) && (r / kd <=? l / kd) && forallb (λ c, c <=? r) cs.

Lemma persist_run part : part_FirstValid part < 2 ^ 63 -> part_LastValid part < 2 ^ 63 -> part_KeyDilution part < 2 ^ 63 ->
  exists d, Atomic (persistTx encodeVRF encodeVoting part) PartDB_empty = (Ok tt, d) /\ stored (part <| part_Store := d |>).
Proof using Type.
  intros Hf Hl Hk. unfold Atomic, persistTx, sqlInt. erewrite bind_run by reflexivity. rewrite !(proj2 (Z.ltb_lt _ _)) by lia. eexists. split; [reflexivity|]. by destruct part.
Qed.
Lemma Fill_run address f l kd rng : valid_round f -> valid_round l -> f <= l -> 0 < kd < 2 ^ 63 ->
  exists part rng', Fill PartDB_empty address f l kd rng = (Ok (Ok tt, part), rng') /\ part_Parent part = address
    /\ part_inv (oss_Verifier (part_Voting part)) f l kd [] part.
Proof using GenerateKey_keypair.
  intros Hf Hl Hfl Hkd. unfold FillDBWithParticipationKeys. rewrite (proj2 (Z.ltb_ge _ _)) by lia. rewrite !OneTimeID_run by lia. run. run. cbn [fst].
  pose proof (idOf_valid kd f ltac:(lia) Hf) as [[Hf1 _] _]. pose proof (idOf_valid kd l ltac:(lia) Hl) as [[Hl1 _] _]. cbn [id_Batch idOf] in *. unfold maxUint64 in *.
  pose proof (Z.div_le_mono f l kd ltac:(lia) Hfl). assert (l / kd <= l) by (unfold valid_round in *; apply Z.div_le_upper_bound; nia). unfold valid_round in *.
  rewrite wrap64_small by (unfold u64; lia).
  destruct (Generate_run ed encodeBatchID encodeOffsetID GenerateKey_keypair (f / kd) (l / kd - f / kd + 1) rng) as (s & r1 & E1 & Hc & Hb & Hcov); [lia|lia|unfold maxUint64; lia|].
  run_by E1. destruct (generateVRF r1) as [vrf r2] eqn:Ev. erewrite bind_run by (unfold generateVRFSecrets; rewrite Ev; reflexivity). unfold Persist.
  set (part := mkParticipation address vrf s f l kd PartDB_empty).
  assert (exists d, Atomic (persistTx encodeVRF encodeVoting part) PartDB_empty = (Ok tt, d) /\ stored (part <| part_Store := d |>)) as (d & Ed & Hst) by (apply persist_run; cbn; lia).
  cbn [part_Store part]. rewrite Ed. eexists _, r2. split; [reflexivity|]. split; [done|]. split; [done|]. split; [done|]. split; [done|]. split; [done|].
  intros r Hr. change (part_Voting _) with s. pose proof (idOf_valid kd r ltac:(lia) Hr) as [Hv _]. rewrite Hcov by done. cbn [id_Batch idOf forallb]. apply eq_true_iff_eq. bool_hyps. lia.
Qed.

Lemma Delete_part_run v f l kd cs part c proto rng : 0 < kd -> part_inv v f l kd cs part -> valid_round c ->
  exists part' rng', Delete part c proto rng = (Ok (Ok tt, part'), rng') /\ part_Parent part' = part_Parent part /\ part_inv v f l kd (cs ++ [c]) part'.
Proof using GenerateKey_keypair.
  intros Hk ([Hc Hb] & Hst & Ekd & Ev & Hcov) Hvc. unfold part_DeleteOldKeys. rewrite Ekd, (proj2 (Z.eqb_neq _ _)) by lia. rewrite OneTimeID_run by done. run. cbn [fst snd].
  change (mkOTID (id_Batch (idOf kd c)) (id_Offset (idOf kd c))) with (idOf kd c). pose proof (idOf_valid kd c Hk Hvc) as [Hid _].
  destruct (Delete_run ed encodeBatchID encodeOffsetID GenerateKey_keypair (part_Voting part) (idOf kd c) kd rng Hc Hb Hid) as (s' & r' & E & Hc' & Hb' & Ev' & Hcov').
  run_by E. unfold stored in Hst. rewrite Hst. cbn -[id_le covers Z.div]. eexists _, r'. split; [reflexivity|]. split; [done|]. split; [done|]. split; [done|]. split; [done|]. split; [cbn; congruence|].
  intros r Hr. cbn [part_Voting rset setter]. change (part_Voting _) with s'. pose proof (idOf_valid kd r Hk Hr) as [Hv Ho]. unfold valid_round in *.
  rewrite Hcov', Hcov, idOf_le by (done || lia). rewrite forallb_app. cbn [forallb]. by rewrite andb_true_r, andb_assoc.
Qed.

(** A participation through its life: made for the rounds [f] to [l], then the keys
    before each round of [cs] deleted. *)
Fixpoint runDeletes (cs : list Round) (proto : ConsensusParams) (part : Participation) : M R Participation :=
  match cs with
  | [] => mret part
  | c :: cs => p ← Delete part c proto; runDeletes cs proto p.2
  end.
Definition life (address : Address) (f l kd : Z) (cs : list Round) (proto : ConsensusParams) : M R Participation :=
  p ← Fill PartDB_empty address f l kd; runDeletes cs proto p.2.

Lemma runDeletes_run v f l kd proto cs2 : 0 < kd -> Forall valid_round cs2 -> forall cs1 part rng, part_inv v f l kd cs1 part ->
  exists part' rng', runDeletes cs2 proto part rng = (Ok part', rng') /\ part_Parent part' = part_Parent part /\ part_inv v f l kd (cs1 ++ cs2) part'.
Proof using GenerateKey_keypair.
  intros Hk. induction 1 as [|c cs2 Hc _ IH]; intros cs1 part rng Hinv; [exists part, rng; by rewrite app_nil_r|]. cbn [runDeletes].
  destruct (Delete_part_run v f l kd cs1 part c proto rng Hk Hinv Hc) as (p1 & r1 & E1 & Ep1 & Hinv1). run_by E1. cbn [snd].
  destruct (IH _ _ r1 Hinv1) as (p2 & r2 & E2 & Ep2 & Hinv2). exists p2, r2. rewrite <- app_assoc in Hinv2. split; [done|]. split; [congruence|done].
Qed.
Lemma life_run address f l kd cs proto rng : valid_round f -> valid_round l -> f <= l -> 0 < kd < 2 ^ 63 -> Forall valid_round cs ->
  exists part rng', life address f l kd cs proto rng = (Ok part, rng') /\ part_Parent part = address /\ part_inv (oss_Verifier (part_Voting part)) f l kd cs part.
Proof using GenerateKey_keypair.
  intros Hf Hl Hfl Hkd Hcs. unfold life. destruct (Fill_run address f l kd rng Hf Hl Hfl Hkd) as (p1 & r1 & E1 & Ep1 & Hinv1). run_by E1. cbn [snd].
  destruct (runDeletes_run _ f l kd proto cs ltac:(lia) Hcs [] p1 r1 Hinv1) as (p2 & r2 & E2 & Ep2 & Hinv2). exists p2, r2. split; [done|]. split; [congruence|].
  destruct Hinv2 as (H1 & H2 & H3 & H4 & H5). by rewrite <- H4 in *.
Qed.

(** C34: Participation keys sign for exactly the rounds they should.  Keys made for the
    rounds [f] to [l] (rounded to whole batches), from which the keys before each round
    of [cs] have been deleted in that order, produce for a round not before any of these
    a signature that verifies under the registered key, and the empty signature for any
    other round: a past round can no longer be signed for. *)
Theorem participation_signs address f l kd cs proto rng : valid_round f -> valid_round l -> f <= l -> 0 < kd < 2 ^ 63 -> Forall valid_round cs ->
  exists part rng', life address f l kd cs proto rng = (Ok part, rng') /\
    forall r msg rng1, valid_round r -> exists sig rng2, Sign ed encodeOffsetID (part_Voting part) (idOf kd r) msg rng1 = (Ok sig, rng2) /\
      if (f / kd <=? r / kd) && (r / kd <=? l / kd) && forallb (λ c, c <=? r) cs
      then Verify ed encodeBatchID encodeOffsetID (oss_Verifier (part_Voting part)) (idOf kd r) msg sig = true
      else sig = OneTimeSignature_zero.
Proof using GenerateKey_keypair.
  intros Hf Hl Hfl Hkd Hcs. destruct (life_run address f l kd cs proto rng Hf Hl Hfl Hkd Hcs) as (part & rng' & E & _ & [Hc _] & _ & _ & _ & Hcov).
  exists part, rng'. split; [done|]. intros r msg rng1 Hr. rewrite <- Hcov by done. apply (Sign_run ed encodeBatchID encodeOffsetID GenerateKey_keypair); [done|].
  apply idOf_valid; [lia|done].
Qed.

(** The database follows: reading it back gives the participation with its current
    secrets, so keys deleted in memory are gone from the disk as well. *)
Theorem participation_restores address f l kd cs proto rng : (forall k, decodeVRF (encodeVRF k) = Some k) -> (forall s, decodeVoting (encodeVoting s) = Some s) ->
  length address = 32%nat -> valid_round f -> valid_round l -> f <= l -> 0 < kd < 2 ^ 63 -> Forall valid_round cs ->
  exists part rng', life address f l kd cs proto rng = (Ok part, rng') /\ Restore (part_Store part) = (Ok part, part_Store part).
Proof using GenerateKey_keypair.
  intros Hvrf Hvot Ha Hf Hl Hfl Hkd Hcs. destruct (life_run address f l kd cs proto rng Hf Hl Hfl Hkd Hcs) as (part & rng' & E & Ep & _ & Hst & _).
  exists part, rng'. split; [done|]. unfold stored in Hst. rewrite Hst. unfold RestoreParticipation. rewrite Migrate_run. cbn -[zero32 firstn]. rewrite Hvrf, Hvot, <- Hst. f_equal. f_equal.
  rewrite firstn_all2 by (rewrite Ep; lia). rewrite Ep, Ha, <- Ep. rewrite drop_ge, app_nil_r by done. by destruct part.
Qed.

(** ** The manager *)

Definition effectiveDilution (proto : ConsensusParams) (part : Participation) : Z :=
  if part_KeyDilution part =? 0 then cp_DefaultKeyDilution proto else part_KeyDilution part.
Definition manageable (proto : ConsensusParams) (part : Participation) : Prop := secrets_ok (part_Voting part) /\ 0 < effectiveDilution proto part.
(** No round before [current] can be signed for. *)
Definition forgotten (proto : ConsensusParams) (current : Round) (part : Participation) : Prop :=
  forall r, 0 <= r < current -> covers (part_Voting part) (idOf (effectiveDilution proto part) r) = false.
Lemma Delete_manageable proto current part rng : manageable proto part -> valid_round current ->
  exists res part' rng', Delete part current proto rng = (Ok (res, part'), rng') /\ manageable proto part' /\ forgotten proto current part'.
Proof using GenerateKey_keypair.
  intros [[Hc Hb] Hk] Hcur. unfold part_DeleteOldKeys. fold (effectiveDilution proto part). set (kd := effectiveDilution proto part) in *. rewrite OneTimeID_run by done. run. cbn [fst snd].
  change (mkOTID (id_Batch (idOf kd current)) (id_Offset (idOf kd current))) with (idOf kd current). pose proof (idOf_valid kd current Hk Hcur) as [Hid _].
  destruct (Delete_run ed encodeBatchID encodeOffsetID GenerateKey_keypair (part_Voting part) (idOf kd current) kd rng Hc Hb Hid) as (s' & r' & E & Hc' & Hb' & _ & Hcov').
  run_by E. destruct (updateRows _ _) as [res d]. eexists res, _, r'. split; [reflexivity|]. split; [done|]. intros r Hr. unfold valid_round in *.
  change (covers s' (idOf kd r) = false). pose proof (idOf_valid kd r Hk ltac:(unfold valid_round; lia)) as [Hv Ho]. rewrite Hcov', idOf_le by (done || lia). apply andb_false_iff. right. lia.
Qed.

Lemma deleteAll_run proto current order : valid_round current -> forall parts rng, map_Forall (λ _, manageable proto) parts ->
  exists parts' rng', deleteAll ed encodeOffsetID encodeVoting order current proto parts rng = (Ok parts', rng') /\ dom parts' = dom parts /\ map_Forall (λ _, manageable proto) parts'
    /\ forall i part, parts' !! i = Some part -> i ∈ order \/ (exists part0, parts !! i = Some part0 /\ forgotten proto current part0) -> forgotten proto current part.
Proof using GenerateKey_keypair.
  intros Hcur. induction order as [|i order IH]; intros parts rng Hall; cbn [deleteAll].
  { exists parts, rng. split_and!; [done|done|done|]. intros i part Hi [Hin|(p0 & E0 & Hf)]; [by apply elem_of_nil in Hin|]. rewrite Hi in E0. by injection E0 as ->. }
  destruct (parts !! i) as [part|] eqn:Ei.
  - destruct (Delete_manageable proto current part rng (Hall _ _ Ei) Hcur) as (res & part1 & r1 & E1 & Hm1 & Hf1). run_by E1. cbn [snd].
    destruct (IH (<[i := part1]> parts) r1) as (parts' & r' & E & Hd & Hm & Hf); [by apply map_Forall_insert_2|]. exists parts', r'.
    split; [done|]. split; [rewrite Hd; apply dom_insert_lookup_L; by eexists|]. split; [done|]. intros j p' Hj Hor. apply (Hf j p' Hj). destruct (decide (j = i)) as [->|Hne].
    + right. exists part1. by rewrite lookup_insert_eq.
    + destruct Hor as [Hin|(p0 & E0 & Hf0)]; [left; by apply elem_of_cons in Hin as [?|?]|]. right. exists p0. by rewrite lookup_insert_ne.
  - destruct (IH parts rng Hall) as (parts' & r' & E & Hd & Hm & Hf). exists parts', r'. split_and!; [done|done|done|]. intros j p' Hj Hor. apply (Hf j p' Hj).
    destruct Hor as [Hin|Hex]; [|by right]. apply elem_of_cons in Hin as [->|?]; [|by left]. exfalso. apply elem_of_dom_2 in Hj. rewrite Hd in Hj. apply elem_of_dom in Hj as [? ?]. congruence.
Qed.

(** The account manager's deletion reaches every key: in whatever order it visits them,
    it completes, keeps the same accounts with certified secrets, and afterwards none of
    them holds a key for a round before [current]. *)
Theorem manager_forgets proto current manager order rng : valid_round current -> map_Forall (λ _, manageable proto) (am_partIntervals manager) ->
  (forall i, i ∈ dom (am_partIntervals manager) -> i ∈ order) ->
  exists manager' rng', manager_DeleteOldKeys ed encodeOffsetID encodeVoting order manager current proto rng = (Ok manager', rng')
    /\ dom (am_partIntervals manager') = dom (am_partIntervals manager)
    /\ map_Forall (λ _ part, manageable proto part /\ forgotten proto current part) (am_partIntervals manager').
Proof using GenerateKey_keypair.
  intros Hcur Hall Hord. destruct (deleteAll_run proto current order Hcur _ rng Hall) as (parts' & r' & E & Hd & Hm & Hf). unfold manager_DeleteOldKeys. run_by E.
  eexists _, r'. split; [reflexivity|]. split; [done|]. intros i part Hi. cbn in Hi. split; [by apply (Hm i)|]. apply (Hf i part Hi). left. apply Hord. rewrite <- Hd. by apply elem_of_dom_2 in Hi.
Qed.
End Participations.

(** ** Witnesses *)

(** A scheme whose signature of a message is the key and the message. *)
Definition toyEd : Ed25519 Z :=
  mkEd25519 Z (λ r, (([r], [r]), r + 1)) (λ sk m, sk ++ m) (λ pk m sig, bool_decide (sig = pk ++ m)).
Definition toyBatchID (b : OneTimeSignatureSubkeyBatchID) : bytes := sb_Batch b :: sb_SubKeyPK b.
Definition toyOffsetID (o : OneTimeSignatureSubkeyOffsetID) : bytes := so_Batch o :: so_Offset o :: so_SubKeyPK o.
Lemma toyEd_keypair r : keypair toyEd (ed_GenerateKey toyEd r).1.
Proof. intros m. by apply bool_decide_true. Qed.
Definition toyVRF (r : Z) : (bytes * bytes) * Z := (([r], [r; r]), r + 1).

(** Keys for the rounds 25 to 60 in batches of 10, from which those before 31 and 34 were
    deleted. *)
Lemma participation_signs_witness : exists part rng',
  life toyEd toyBatchID toyOffsetID toyVRF (λ k, k.1) (λ s, oss_Verifier s) zero32 25 60 10 [31; 34] v13 0 = (Ok part, rng') /\
  forall r msg rng1, valid_round r -> exists sig rng2, Sign toyEd toyOffsetID (part_Voting part) (idOf 10 r) msg rng1 = (Ok sig, rng2) /\
    if (25 / 10 <=? r / 10) && (r / 10 <=? 60 / 10) && forallb (λ c, c <=? r) [31; 34]
    then Verify toyEd toyBatchID toyOffsetID (oss_Verifier (part_Voting part)) (idOf 10 r) msg sig = true
    else sig = OneTimeSignature_zero.
Proof. apply (participation_signs toyEd toyBatchID toyOffsetID toyVRF (λ k, k.1) (λ s, oss_Verifier s) toyEd_keypair); unfold valid_round; try lia. repeat constructor; unfold valid_round; lia. Defined.

#[local] Instance ephemeralSubkey_eq_dec : EqDecision ephemeralSubkey.
Proof. solve_decision. Defined.
#[local] Instance ephemeralSubkey_countable : Countable ephemeralSubkey.
Proof. refine (inj_countable' (λ k, (ek_PK k, ek_SK k, ek_PKSigOld k, ek_PKSigNew k)) (λ '(a, b, c, d), mkSubkey a b c d) _). by intros []. Defined.
#[local] Instance OneTimeSignatureSecrets_eq_dec : EqDecision OneTimeSignatureSecrets.
Proof. solve_decision. Defined.
#[local] Instance OneTimeSignatureSecrets_countable : Countable OneTimeSignatureSecrets.
Proof.
  refine (inj_countable' (λ s, (oss_Verifier s, oss_FirstBatch s, oss_Batches s, oss_FirstOffset s, oss_Offsets s, oss_OffsetsPK2 s, oss_OffsetsPK2Sig s))
            (λ '(a, b, c, d, e, f, g), mkSecrets a b c d e f g) _). by intros [].
Defined.
Definition toyEncode {A} `{Countable A} (a : A) : bytes := [Z.pos (encode a)].
Definition toyDecode {A} `{Countable A} (b : bytes) : option A := match b with [Z.pos p] => decode p | _ => None end.
Lemma participation_restores_witness : exists part rng',
  life toyEd toyBatchID toyOffsetID toyVRF toyEncode toyEncode zero32 25 60 10 [31; 34] v13 0 = (Ok part, rng') /\
  RestoreParticipation toyDecode toyDecode (part_Store part) = (Ok part, part_Store part).
Proof.
  apply (participation_restores toyEd toyBatchID toyOffsetID toyVRF toyEncode toyDecode toyEncode toyDecode toyEd_keypair);
    [intros k; apply decode_encode|intros s; apply decode_encode|reflexivity|unfold valid_round; lia..|]. repeat constructor; unfold valid_round; lia.
Defined.

(** One account, with the key of batch 2, which is for the rounds 20 to 29. *)
Definition toySecrets : OneTimeSignatureSecrets :=
  mkSecrets [9] 2 (Some [mkSubkey [7] [7] zeroSig ([9] ++ repBatch toyBatchID (mkBatchID [7] 2))]) 0 [] zeroPK zeroSig.
Definition toyManager : AccountManager :=
  mkAccountManager {[mkInterval zero32 25 60 := mkParticipation zero32 ([], []) toySecrets 25 60 10 PartDB_empty]} ∅.
Lemma manager_forgets_witness : exists manager' rng',
  manager_DeleteOldKeys toyEd toyOffsetID toyEncode [mkInterval zero32 25 60] toyManager 25 v13 0 = (Ok manager', rng')
  /\ dom (am_partIntervals manager') = dom (am_partIntervals toyManager)
  /\ map_Forall (λ _ part, manageable toyEd toyBatchID toyOffsetID v13 part /\ forgotten v13 25 part) (am_partIntervals manager').
Proof.
  apply (manager_forgets toyEd toyBatchID toyOffsetID toyEncode toyEd_keypair v13 25 toyManager [mkInterval zero32 25 60] 0).
  - unfold valid_round. lia.
  - apply map_Forall_singleton. split; [|reflexivity]. split; [split; [|done]|unfold bounded, maxUint64, zlen; cbn; lia].
    intros [|i] b Hi; [|done]. cbn in Hi. injection Hi as <-. split; [intros m|]; by apply bool_decide_true.
  - intros i Hi. unfold toyManager in Hi. cbn in Hi. rewrite dom_singleton_L in Hi. apply elem_of_singleton in Hi as ->. by apply list_elem_of_singleton.
Defined.
