(* ===== verification/PassphraseSpec.v ===== *)
(** Mnemonics and keys determine each other. *)

From Stdlib Require Import Ascii String.
From S2P Require Import Prelude Config Basics Transactions Wordlist Passphrase.
#[local] Open Scope Z_scope.

(** ** Digits *)

(** The number whose digits in base [2 ^ k] are [l], least significant first. *)
Fixpoint vle (k : Z) (l : list Z) : Z := match l with [] => 0 | x :: l => x + 2 ^ k * vle k l end.
Definition digits (k : Z) (l : list Z) : Prop := Forall (λ x, 0 <= x < 2 ^ k) l.

Lemma vle_app k l1 l2 : 0 <= k -> vle k (l1 ++ l2) = vle k l1 + 2 ^ (k * Z.of_nat (length l1)) * vle k l2.
Proof.
  intros Hk. induction l1 as [|x l1 IH]; [cbn -[Z.pow]; rewrite Z.mul_0_r, Z.pow_0_r; lia|]. cbn [app vle length]. rewrite IH.
  replace (k * Z.of_nat (S (length l1))) with (k + k * Z.of_nat (length l1)) by lia. rewrite Z.pow_add_r by lia. ring.
Qed.
Lemma vle_inj k l1 l2 : 0 <= k -> digits k l1 -> digits k l2 -> length l1 = length l2 -> vle k l1 = vle k l2 -> l1 = l2.
Proof.
  intros Hk H1. revert l2. induction H1 as [|x l1 Hx _ IH]; intros [|y l2] H2 Hl E; try discriminate Hl; [done|]. apply Forall_cons in H2 as [Hy H2]. cbn in E.
  injection Hl as Hl. assert (x = y) as ->.
  { rewrite <- (Z.mod_small x (2 ^ k)), <- (Z.mod_small y (2 ^ k)) by done. rewrite <- (Z.mod_add x (vle k l1)), <- (Z.mod_add y (vle k l2)) by lia. f_equal. lia. }
  f_equal. apply IH; [done|done|]. apply (Z.mul_reg_l _ _ (2 ^ k)); lia.
Qed.
Lemma vle_bound k l : 0 <= k -> digits k l -> 0 <= vle k l < 2 ^ (k * Z.of_nat (length l)).
Proof.
  intros Hk H. induction H as [|x l Hx _ IH]; [cbn; rewrite Z.mul_0_r; lia|]. cbn [vle length]. replace (k * Z.of_nat (S (length l))) with (k + k * Z.of_nat (length l)) by lia.
  rewrite Z.pow_add_r by lia. nia.
Qed.

(** ** The buffers *)

Lemma lor_shift b a n w : 0 <= n -> 0 <= w -> 0 <= b < 2 ^ n -> 0 <= a < 2 ^ w -> n + w <= 32 ->
  Z.lor b (u32 (Z.shiftl a n)) = b + 2 ^ n * a /\ 0 <= b + 2 ^ n * a < 2 ^ (n + w).
Proof.
  intros Hn Hw Hb Ha Hle. rewrite Z.shiftl_mul_pow2 by done. assert (2 ^ n * 2 ^ w <= 2 ^ 32) as Hp by (rewrite <- Z.pow_add_r by done; apply Z.pow_le_mono_r; lia).
  unfold u32. rewrite Z.mod_small by nia. split; [|rewrite Z.pow_add_r by done; nia].
  assert (Z.land b (a * 2 ^ n) = 0) as Hz.
  { apply Z.bits_inj'. intros i Hi. rewrite Z.land_spec, Z.bits_0. destruct (Z.lt_ge_cases i n); [by rewrite Z.mul_pow2_bits_low, andb_false_r by lia|].
    destruct (Z.eq_dec b 0) as [->|Hb0]; [by rewrite Z.bits_0|]. rewrite (Z.bits_above_log2 b); [done|lia|]. apply Z.log2_lt_pow2; [lia|].
    apply (Z.lt_le_trans _ (2 ^ n)); [lia|apply Z.pow_le_mono_r; lia]. }
  rewrite <- Z.lxor_lor, <- Z.add_nocarry_lxor by done. lia.
Qed.
Lemma land_ones_mod b k : 0 <= k -> Z.land b (Z.ones k) = b mod 2 ^ k.
Proof. apply Z.land_ones. Qed.

Lemma uint11Loop_spec arr : digits 8 arr -> forall buffer n, 0 <= n < 11 -> 0 <= buffer < 2 ^ n ->
  vle 11 (uint11Loop arr buffer n) = buffer + 2 ^ n * vle 8 arr /\ digits 11 (uint11Loop arr buffer n)
  /\ 0 <= 11 * Z.of_nat (length (uint11Loop arr buffer n)) - (n + 8 * Z.of_nat (length arr)) < 11.
Proof.
  induction 1 as [|a arr Ha _ IH]; intros buffer n Hn Hb; cbn [uint11Loop].
  - destruct (Z.eqb_spec n 0) as [->|Hne]; cbn [negb].
    + cbn. change (2 ^ 0) with 1 in Hb. split_and!; [lia|constructor|lia|lia].
    + assert (2 ^ n <= 2 ^ 11) by (apply Z.pow_le_mono_r; lia). change 0x7ff with (Z.ones 11). rewrite land_ones_mod, Z.mod_small by lia. cbn [vle length]. split_and!; [lia|repeat constructor; lia|lia|lia].
  - destruct (lor_shift buffer a n 8 ltac:(lia) ltac:(lia) Hb Ha ltac:(lia)) as [-> Hb']. set (b' := buffer + 2 ^ n * a) in *. rewrite Z.pow_add_r in Hb' by lia.
    destruct (Z.leb_spec 11 (n + 8)) as [Hge|Hlt].
    + change 0x7ff with (Z.ones 11). rewrite land_ones_mod, Z.shiftr_div_pow2 by lia. pose proof (Z.mod_pos_bound b' (2 ^ 11) ltac:(lia)). pose proof (Z.div_mod b' (2 ^ 11) ltac:(lia)).
      destruct (IH (b' / 2 ^ 11) (n + 8 - 11)) as (E & Hd & Hl); [lia|split; [apply Z.div_pos; lia|apply Z.div_lt_upper_bound; [lia|]; rewrite <- !Z.pow_add_r in * by lia; replace (11 + (n + 8 - 11)) with (n + 8) by lia; lia]|].
      cbn [vle length]. split_and!; [|by constructor|lia|lia]. rewrite E. unfold b' in *. 
      assert (2 ^ 11 * 2 ^ (n + 8 - 11) = 2 ^ n * 2 ^ 8) as Hp by (rewrite <- !Z.pow_add_r by lia; f_equal; lia). nia.
    + destruct (IH b' (n + 8)) as (E & Hd & Hl); [lia|by rewrite Z.pow_add_r by lia|]. cbn [vle length]. split_and!; [|done|lia|lia]. rewrite E, Z.pow_add_r by lia. unfold b'. ring.
Qed.

Lemma drain_spec fuel : forall buffer n, 0 <= n -> n < 8 * Z.of_nat fuel + 8 -> 0 <= buffer < 2 ^ n ->
  let '(out, b, m) := drain fuel buffer n in
  vle 8 out + 2 ^ (8 * Z.of_nat (length out)) * b = buffer /\ digits 8 out /\ 0 <= m < 8 /\ n = 8 * Z.of_nat (length out) + m /\ 0 <= b < 2 ^ m.
Proof.
  induction fuel as [|fuel IH]; intros buffer n Hn Hf Hb; cbn [drain].
  - cbn. change (2 ^ 0) with 1. split_and!; [lia|constructor|lia..].
  - destruct (Z.leb_spec 8 n) as [Hge|Hlt]; [|cbn; change (2 ^ 0) with 1; split_and!; [lia|constructor|lia..]].
    change 0xff with (Z.ones 8). rewrite land_ones_mod, Z.shiftr_div_pow2 by lia. pose proof (Z.mod_pos_bound buffer (2 ^ 8) ltac:(lia)). pose proof (Z.div_mod buffer (2 ^ 8) ltac:(lia)).
    specialize (IH (buffer / 2 ^ 8) (n - 8) ltac:(lia) ltac:(lia)). destruct (drain fuel _ _) as [[out b] m]. destruct IH as (E & Hd & Hm & Hl & Hb').
    { split; [apply Z.div_pos; lia|]. apply Z.div_lt_upper_bound; [lia|]. rewrite <- Z.pow_add_r by lia. replace (8 + (n - 8)) with n by lia. lia. }
    cbn [vle length]. replace (8 * Z.of_nat (S (length out))) with (8 + 8 * Z.of_nat (length out)) by lia. rewrite Z.pow_add_r by lia. split_and!; [nia|by constructor|lia..].
Qed.
Lemma byteLoop_spec arr : digits 11 arr -> forall buffer n, 0 <= n < 8 -> 0 <= buffer < 2 ^ n ->
  vle 8 (byteLoop arr buffer n) = buffer + 2 ^ n * vle 11 arr /\ digits 8 (byteLoop arr buffer n)
  /\ 0 <= 8 * Z.of_nat (length (byteLoop arr buffer n)) - (n + 11 * Z.of_nat (length arr)) < 8.
Proof.
  induction 1 as [|a arr Ha _ IH]; intros buffer n Hn Hb; cbn [byteLoop].
  - destruct (Z.eqb_spec n 0) as [->|Hne]; cbn [negb].
    + cbn. change (2 ^ 0) with 1 in Hb. split_and!; [lia|constructor|lia|lia].
    + assert (2 ^ n <= 2 ^ 8) by (apply Z.pow_le_mono_r; lia). rewrite Z.mod_small by lia. cbn [vle length]. split_and!; [lia|repeat constructor; lia|lia|lia].
  - destruct (lor_shift buffer a n 11 ltac:(lia) ltac:(lia) Hb Ha ltac:(lia)) as [-> Hb']. set (b' := buffer + 2 ^ n * a) in *.
    pose proof (drain_spec (Z.to_nat (n + 11)) b' (n + 11) ltac:(lia) ltac:(lia) Hb') as Hdr. destruct (drain _ _ _) as [[out b] m]. destruct Hdr as (E & Hd & Hm & Hl & Hbm).
    destruct (IH b m Hm Hbm) as (E2 & Hd2 & Hl2). rewrite vle_app, E2, length_app by lia. cbn [vle length]. split_and!; [|by apply Forall_app|lia|lia].
    assert (2 ^ (8 * Z.of_nat (length out)) * 2 ^ m = 2 ^ n * 2 ^ 11) as Hp by (rewrite <- !Z.pow_add_r by lia; f_equal; lia). unfold b' in E. nia.
Qed.

(** A key as 24 words and one zero bit group, and back. *)
Lemma key_words key : digits 8 key -> length key = 32%nat -> let ws := toUint11Array key in
  vle 11 ws = vle 8 key /\ digits 11 ws /\ length ws = 24%nat.
Proof.
  intros Hk Hl. unfold toUint11Array. destruct (uint11Loop_spec key Hk 0 0) as (E & Hd & Hlen); [lia|lia|]. rewrite E. change (2 ^ 0) with 1. split_and!; [lia|done|lia].
Qed.
Lemma words_key ws : digits 11 ws -> length ws = 24%nat -> let bs := toByteArray ws in
  vle 8 bs = vle 11 ws /\ digits 8 bs /\ length bs = 33%nat.
Proof.
  intros Hw Hl. unfold toByteArray. destruct (byteLoop_spec ws Hw 0 0) as (E & Hd & Hlen); [lia|lia|]. rewrite E. change (2 ^ 0) with 1. split_and!; [lia|done|lia].
Qed.

(** ** The words *)

Fixpoint noChar (c : ascii) (s : string) : bool := match s with EmptyString => true | String a s => negb (bool_decide (a = c)) && noChar c s end.
Definition plain (w : string) : bool := negb (bool_decide (w = ""%string)) && noChar space w.

Lemma wordlist_length : length wordlist = 2049%nat.
Proof. vm_compute. reflexivity. Qed.
(** The words are in alphabetical order, so they are distinct. *)
Fixpoint before (a b : string) : bool :=
  match a, b with
  | _, EmptyString => false
  | EmptyString, String _ _ => true
  | String x a, String y b => (N_of_ascii x <? N_of_ascii y)%N || ((N_of_ascii x =? N_of_ascii y)%N && before a b)
  end.
Fixpoint alphabetical (ws : list string) : bool := match ws with a :: (b :: _) as ws => before a b && alphabetical ws | _ => true end.
Lemma before_irrefl a : before a a = false.
Proof. induction a as [|x a IH]; [done|]. cbn. by rewrite N.ltb_irrefl, N.eqb_refl, IH. Qed.
Lemma before_trans a b c : before a b = true -> before b c = true -> before a c = true.
Proof.
  revert b c. induction a as [|x a IH]; intros [|y b] [|z c]; cbn; try done. rewrite !orb_true_iff, !andb_true_iff, !N.ltb_lt, !N.eqb_eq.
  intros [H1|[H1 H1']] [H2|[H2 H2']]; [left; lia..|right]. split; [lia|by apply (IH b)].
Qed.
Lemma alphabetical_before a ws : alphabetical (a :: ws) = true -> Forall (λ b, before a b = true) ws.
Proof.
  revert a. induction ws as [|b ws IH]; intros a Hs; [constructor|]. cbn in Hs. apply andb_true_iff in Hs as [Hab Hs]. constructor; [done|].
  apply (Forall_impl _ _ _ (IH b Hs)). intros c Hbc. by apply (before_trans a b).
Qed.
Lemma alphabetical_NoDup ws : alphabetical ws = true -> NoDup ws.
Proof.
  induction ws as [|a ws IH]; intros Hs; [constructor|]. constructor.
  - intros Ha. pose proof (alphabetical_before a ws Hs) as Hb. rewrite Forall_forall in Hb. specialize (Hb a Ha). cbn in Hb. by rewrite before_irrefl in Hb.
  - apply IH. destruct ws; [done|]. cbn in Hs. by apply andb_true_iff in Hs as [_ Hs].
Qed.
Lemma wordlist_alphabetical : alphabetical (take 2048 wordlist) = true.
Proof. vm_compute. reflexivity. Qed.
Lemma wordlist_last : drop 2048 wordlist = [""%string].
Proof. vm_compute. reflexivity. Qed.
Lemma wordlist_plain : forallb plain (take 2048 wordlist) = true.
Proof. vm_compute. reflexivity. Qed.
Lemma wordlist_NoDup : NoDup wordlist.
Proof.
  rewrite <- (take_drop 2048 wordlist), wordlist_last. apply NoDup_app. split_and!; [apply alphabetical_NoDup, wordlist_alphabetical| |apply NoDup_singleton].
  intros w Hw Hl. apply list_elem_of_singleton in Hl as ->. pose proof wordlist_plain as Hp. rewrite forallb_forall in Hp. by apply list_elem_of_In, Hp in Hw.
Qed.
Lemma wordlist_end : wordlist !! 2048%nat = Some ""%string.
Proof. rewrite <- (Nat.add_0_r 2048), <- lookup_drop, wordlist_last. done. Qed.
#[local] Opaque wordlist.

Definition wordAt (a : Z) : string := default ""%string (wordlist !! Z.to_nat a).
Lemma wordAt_lookup a : 0 <= a < 2 ^ 11 -> wordlist !! Z.to_nat a = Some (wordAt a).
Proof. intros Ha. unfold wordAt. destruct (lookup_lt_is_Some_2 wordlist (Z.to_nat a)) as [w ->]; [rewrite wordlist_length; lia|done]. Qed.
Lemma wordAt_plain a : 0 <= a < 2 ^ 11 -> plain (wordAt a) = true.
Proof.
  intros Ha. pose proof wordlist_plain as Hp. rewrite forallb_forall in Hp. apply Hp, list_elem_of_In, list_elem_of_lookup. exists (Z.to_nat a).
  rewrite lookup_take_lt by lia. by apply wordAt_lookup.
Qed.
Lemma applyWords_run arr : digits 11 arr -> applyWords arr wordlist = Ok (wordAt <$> arr).
Proof.
  induction 1 as [|a arr Ha _ IH]; [done|]. cbn [applyWords]. rewrite (proj2 (Z.ltb_ge _ _)), wordAt_lookup, IH by lia. done.
Qed.

Lemma indexFrom_spec arr s : forall i, 0 <= i -> (indexFrom i arr s = -1 /\ s ∉ arr) \/ exists n : nat, indexFrom i arr s = i + Z.of_nat n /\ arr !! n = Some s.
Proof.
  induction arr as [|w arr IH]; intros i Hi; [left; split; [done|apply not_elem_of_nil]|]. cbn. case_bool_decide as E.
  - right. exists 0%nat. subst w. split; [lia|done].
  - destruct (IH (i + 1)) as [[E1 E2]|(n & E1 & E2)]; [lia|left; split; [done|by apply not_elem_of_cons]|]. right. exists (S n). split; [lia|done].
Qed.
Lemma indexOf_wordAt a : 0 <= a < 2 ^ 11 -> indexOf wordlist (wordAt a) = a.
Proof.
  intros Ha. pose proof (wordAt_lookup a Ha) as Hl. destruct (indexFrom_spec wordlist (wordAt a) 0 ltac:(lia)) as [[_ Hn]|(n & E & Hn)].
  - destruct Hn. by apply list_elem_of_lookup_2 in Hl.
  - unfold indexOf. rewrite E. pose proof (NoDup_lookup _ _ _ _ wordlist_NoDup Hl Hn). lia.
Qed.
(** A word of the list that is not empty has an 11-bit index. *)
Lemma indexOf_word w : w <> ""%string -> indexOf wordlist w <> -1 -> 0 <= indexOf wordlist w < 2 ^ 11 /\ wordAt (indexOf wordlist w) = w.
Proof.
  intros Hw Hi. destruct (indexFrom_spec wordlist w 0 ltac:(lia)) as [[E _]|(n & E & Hn)]; [done|]. unfold indexOf in *. rewrite E in *.
  assert (n <> 2048)%nat by (intros ->; rewrite wordlist_end in Hn; congruence). pose proof (lookup_lt_Some _ _ _ Hn) as Hlt. rewrite wordlist_length in Hlt.
  split; [lia|]. unfold wordAt. by replace (Z.to_nat (0 + Z.of_nat n)) with n by lia; rewrite Hn.
Qed.

(** ** Splitting and joining *)

Lemma Split_app c w s : noChar c w = true -> Split c (String.append w (String c s)) = w :: Split c s.
Proof.
  induction w as [|a w IH]; [intros _; change (String.append "" (String c s)) with (String c s); cbn [Split]; by rewrite bool_decide_true|].
  change (String.append (String a w) (String c s)) with (String a (String.append w (String c s))). cbn [noChar Split]. intros Hw. apply andb_true_iff in Hw as [Ha Hw]. rewrite IH by done.
  by destruct (bool_decide (a = c)).
Qed.
Lemma Split_one c w : noChar c w = true -> Split c w = [w].
Proof. induction w as [|a w IH]; [done|]. cbn. intros Hw. apply andb_true_iff in Hw as [Ha Hw]. rewrite IH by done. by destruct (bool_decide (a = c)). Qed.
Lemma Split_Join ws : ws <> [] -> forallb plain ws = true -> Split space (Join ws " ") = ws.
Proof.
  intros Hne. induction ws as [|w ws IH]; [done|]. intros Hp. apply andb_true_iff in Hp as [Hw Hp]. apply andb_true_iff in Hw as [_ Hw].
  destruct ws as [|w' ws]; [by apply Split_one|]. change (Join (w :: w' :: ws) " ") with (String.append w (String space (Join (w' :: ws) " "))). by rewrite Split_app, IH.
Qed.
Lemma append_assoc' (a b c : string) : String.append (String.append a b) c = String.append a (String.append b c).
Proof. induction a as [|x a IH]; [done|]. change (String x (String.append (String.append a b) c) = String x (String.append a (String.append b c))). by rewrite IH. Qed.
Lemma Join_snoc ws w : ws <> [] -> String.append (Join ws " ") (String.append " " w) = Join (ws ++ [w]) " ".
Proof.
  intros Hne. induction ws as [|x ws IH]; [done|]. destruct ws as [|y ws]; [done|].
  change (Join (x :: y :: ws) " ") with (String.append x (String.append " " (Join (y :: ws) " "))). change ((x :: y :: ws) ++ [w]) with (x :: y :: ws ++ [w]).
  change (Join (x :: y :: ws ++ [w]) " ") with (String.append x (String.append " " (Join ((y :: ws) ++ [w]) " "))). rewrite <- IH by done.
  by rewrite !append_assoc'.
Qed.
Lemma mnemonicWords_Join ws : ws <> [] -> forallb plain ws = true -> mnemonicWords (Join ws " ") = ws.
Proof.
  intros Hne Hp. unfold mnemonicWords. rewrite Split_Join by done. clear Hne. induction ws as [|w ws IH]; [done|]. apply andb_true_iff in Hp as [Hw Hp].
  apply andb_true_iff in Hw as [Hw _]. rewrite filter_cons_True, IH; [done|done|]. by intros ->.
Qed.

(** ** Round trips *)

Section Mnemonics.
Variable H : bytes -> bytes.
Hypothesis H_digest : forall b, digits 8 (H b) /\ length (H b) = 32%nat.

Lemma checksum_run data : exists c, 0 <= c < 2 ^ 11 /\ checksum H data = Ok (wordAt c).
Proof using H_digest.
  destruct (H_digest data) as [Hd Hl]. unfold checksum. set (t := take 2 (H data)). assert (digits 8 t) as Ht by by apply Forall_take. assert (length t = 2%nat) as Htl by (unfold t; rewrite length_take; lia).
  destruct (uint11Loop_spec t Ht 0 0) as (_ & Hw & Hlen); [lia|lia|]. fold (toUint11Array t) in *. rewrite applyWords_run by done.
  destruct (toUint11Array t) as [|c cs]; [cbn [length] in Hlen; lia|]. apply Forall_cons in Hw as [Hc _]. by exists c.
Qed.
(** The bytes and the words of a number below [2 ^ 256]. *)
Lemma bytes_words key ws : digits 8 key -> length key = 32%nat -> digits 11 ws -> length ws = 24%nat -> toUint11Array key = ws <-> toByteArray ws = key ++ [0].
Proof using Type.
  intros Hk Hkl Hw Hwl. destruct (key_words key Hk Hkl) as (E1 & D1 & L1). destruct (words_key ws Hw Hwl) as (E2 & D2 & L2).
  assert (vle 8 (key ++ [0]) = vle 8 key) as E3 by (rewrite vle_app by lia; cbn [vle]; lia). split; [intros <-|intros Eb].
  - apply (vle_inj 8); [lia|done|apply Forall_app; split; [done|repeat constructor; lia]|rewrite length_app, Hkl, L2; done|]. lia.
  - rewrite Eb, E3 in E2. apply (vle_inj 11); [lia|done|done|lia|lia].
Qed.
Lemma mnemonic_shape key : digits 8 key -> length key = 32%nat -> exists c, 0 <= c < 2 ^ 11 /\ checksum H key = Ok (wordAt c) /\
  KeyToMnemonic H key = Ok (Join ((wordAt <$> toUint11Array key) ++ [wordAt c]) " ").
Proof using H_digest.
  intros Hk Hl. destruct (key_words key Hk Hl) as (_ & Hd & Hlw). destruct (checksum_run key) as (c & Hc & Ec). exists c. split_and!; [lia|lia|done|]. unfold KeyToMnemonic, zlen, keyLenBytes.
  rewrite Hl, Ec. cbn [negb Z.eqb]. change (Z.of_nat 32 =? 32) with true. cbn [negb mbind result_bind]. rewrite applyWords_run by done. cbn [mbind result_bind]. rewrite Join_snoc; [done|].
  intros E. apply (f_equal length) in E. rewrite length_fmap, Hlw in E. done.
Qed.

(** C35: A key is recovered from its mnemonic. *)
Theorem mnemonic_roundtrip key : digits 8 key -> length key = 32%nat -> exists m, KeyToMnemonic H key = Ok m /\ MnemonicToKey H m = Ok key.
Proof using H_digest.
  intros Hk Hl. destruct (mnemonic_shape key Hk Hl) as (c & Hc & Ec & Em). eexists. split; [exact Em|]. destruct (key_words key Hk Hl) as (_ & Hd & Hlw). set (ws := toUint11Array key) in *.
  assert (digits 11 (ws ++ [c])) as Hdc by (apply Forall_app; split; [done|by constructor]). unfold MnemonicToKey. change [wordAt c] with (wordAt <$> [c]). rewrite <- fmap_app.
  rewrite mnemonicWords_Join; [|by destruct ws|]. 2:{ apply forallb_forall. intros w Hw. apply list_elem_of_In, list_elem_of_fmap in Hw as (a & -> & Ha). apply wordAt_plain. unfold digits in Hdc. rewrite Forall_forall in Hdc. by apply Hdc. }
  unfold zlen. rewrite length_fmap, length_app, Hlw. cbn [length]. change (Z.of_nat (24 + 1) =? mnemonicLenWords) with true. cbn [negb].
  assert (existsb (λ w, indexOf wordlist w =? -1) (wordAt <$> (ws ++ [c])) = false) as ->.
  { apply not_true_iff_false. intros Hex. apply existsb_exists in Hex as (w & Hw & Ei). apply list_elem_of_In, list_elem_of_fmap in Hw as (a & -> & Ha).
    unfold digits in Hdc. rewrite Forall_forall in Hdc. specialize (Hdc a Ha). rewrite indexOf_wordAt in Ei by done. lia. }
  change (24 + 1 - 1)%nat with 24%nat. rewrite fmap_app, take_app_length' by (by rewrite length_fmap).
  assert ((λ w, u32 (indexOf wordlist w)) <$> (wordAt <$> ws) = ws) as ->.
  { rewrite <- list_fmap_compose. rewrite <- (list_fmap_id ws) at 2. apply list_fmap_ext. intros i a Ha. cbn. unfold digits in Hd. rewrite Forall_lookup in Hd. specialize (Hd i a Ha).
    rewrite indexOf_wordAt by done. unfold u32. apply Z.mod_small. lia. }
  rewrite (proj1 (bytes_words key ws Hk Hl Hd Hlw) eq_refl). rewrite length_app, Hl. cbn [length]. change (Z.of_nat (32 + 1) =? keyLenBytes + 1) with true. cbn [negb].
  rewrite lookup_app_r, Hl by lia. change ([0] !! (32 - 32)%nat) with (Some 0). cbn [default Z.eqb negb]. rewrite take_app_length' by done. rewrite Ec. cbn [mbind result_bind].
  change (wordAt <$> [c]) with [wordAt c]. rewrite last_snoc. cbn [default]. rewrite bool_decide_true by done. cbn [negb]. by rewrite Hl.
Qed.

(** A mnemonic that is accepted is that of the key it stands for, up to spacing: the
    mnemonic of the key is the words of the input, separated by single spaces. *)
Theorem mnemonic_canonical m key : MnemonicToKey H m = Ok key -> KeyToMnemonic H key = Ok (Join (mnemonicWords m) " ").
Proof using H_digest.
  unfold MnemonicToKey. set (words := mnemonicWords m). destruct (zlen words =? mnemonicLenWords) eqn:El; [|done]. cbn [negb]. destruct (existsb _ words) eqn:Ex; [done|].
  destruct (decide (words = [])) as [->|Hne]; [done|]. destruct (exists_last Hne) as (front & chk & Ew). rewrite Ew in *. clear Hne.
  unfold zlen in El. rewrite length_app in El |- *. cbn [length] in *. apply Z.eqb_eq in El. unfold mnemonicLenWords in El. assert (length front = 24%nat) as Hf by lia.
  rewrite last_snoc. cbn [default]. rewrite Hf. change (24 + 1 - 1)%nat with 24%nat. rewrite take_app_length' by done.
  assert (forall w, w ∈ front -> 0 <= indexOf wordlist w < 2 ^ 11 /\ wordAt (indexOf wordlist w) = w) as Hwords.
  { intros w Hw. apply indexOf_word.
    - assert (w ∈ words) as Hin by (rewrite Ew; apply elem_of_app; by left). unfold words, mnemonicWords in Hin. by apply list_elem_of_filter in Hin as [? _].
    - intros Ei. apply not_true_iff_false in Ex. apply Ex, existsb_exists. exists w. split; [apply list_elem_of_In, elem_of_app; by left|]. by apply Z.eqb_eq. }
  set (ws := (λ w, u32 (indexOf wordlist w)) <$> front). assert (digits 11 ws) as Hd.
  { apply Forall_forall. intros a Ha. apply list_elem_of_fmap in Ha as (w & -> & Hw). destruct (Hwords w Hw) as [Hr _]. unfold u32. rewrite Z.mod_small; lia. }
  assert (wordAt <$> ws = front) as Efront.
  { unfold ws. rewrite <- list_fmap_compose. rewrite <- (list_fmap_id front) at 2. apply list_fmap_ext. intros i w Hw. apply list_elem_of_lookup_2 in Hw. destruct (Hwords w Hw) as [Hr E].
    cbn. unfold u32. rewrite Z.mod_small by lia. done. }
  assert (length ws = 24%nat) as Hwl by (unfold ws; by rewrite length_fmap). destruct (words_key ws Hd Hwl) as (Ev & Hb & Hbl). set (bs := toByteArray ws) in *.
  unfold zlen. rewrite Hbl. change (negb (Z.of_nat 33 =? keyLenBytes + 1)) with false. cbv iota. destruct (lookup_lt_is_Some_2 bs 32%nat) as [z Hz]; [lia|]. rewrite Hz. change (default 0 (Some z)) with z.
  destruct (Z.eqb_spec z 0) as [->|]; [|done]. cbn [negb]. assert (bs = take 32 bs ++ [0]) as Ebs by (rewrite <- take_S_r by done; rewrite take_ge by lia; done).
  intros E. apply result_bind_Ok in E as (chk' & Echk & E). case_bool_decide as Ec; [|done]. cbn [negb] in E. destruct (negb _) in E; [done|]. injection E as <-. subst chk'.
  assert (digits 8 (take 32 bs)) as Hk by by apply Forall_take. assert (length (take 32 bs) = 32%nat) as Hkl by (rewrite length_take; lia).
  destruct (mnemonic_shape _ Hk Hkl) as (c & _ & Echk' & ->). rewrite Echk in Echk'. injection Echk' as <-. do 2 f_equal. rewrite (proj2 (bytes_words _ ws Hk Hkl Hd Hwl) Ebs). by rewrite Efront.
Qed.
End Mnemonics.

(** ** Witnesses *)

Definition toyDigest (b : bytes) : bytes := replicate 32 (zlen b mod 256).
Lemma toyDigest_digest b : digits 8 (toyDigest b) /\ length (toyDigest b) = 32%nat.
Proof. split; [|apply length_replicate]. apply Forall_replicate, Z.mod_pos_bound. lia. Qed.
Lemma mnemonic_roundtrip_witness : exists m, KeyToMnemonic toyDigest (seqZ 100 32) = Ok m /\ MnemonicToKey toyDigest m = Ok (seqZ 100 32).
Proof. apply (mnemonic_roundtrip toyDigest toyDigest_digest); [|reflexivity]. apply (bool_decide_unpack _). vm_compute. exact I. Defined.
(** The all-zero key, written with more spaces than needed. *)
Definition toyMnemonic : string := "  abandon  abandon abandon abandon abandon abandon abandon abandon abandon abandon abandon abandon abandon abandon abandon abandon abandon abandon abandon abandon abandon abandon abandon abandon advice".
Lemma mnemonic_canonical_witness : KeyToMnemonic toyDigest (replicate 32 0) = Ok (Join (mnemonicWords toyMnemonic) " ").
Proof. apply (mnemonic_canonical toyDigest toyDigest_digest toyMnemonic). vm_compute. reflexivity. Defined.
