(* ===== verification/Auction.v ===== *)
(** The auction (src/auction): the messages, their signatures, the logic of a running
    auction and the tracker of all auctions.

    [RunningAuction] is the state; [PlaceDeposit], [PlaceBid] and [Settle] are its
    operations, [SerializedRunningAuction] the same behind a lock.  Amounts are 64 bits
    wide, with the wrap-around or overflow check of the code.  Signature verification and
    the hash of the outcomes are parameters.  [Settle] iterates over the rounds of the
    auction with fuel for each of them and two more; running out stands for the endless
    loop of an auction whose last round is the largest integer.  Decoding of a note
    field is a parameter of the tracker: the messages before the first that does not
    decode. *)

From S2P Require Import Prelude Config Basics Transactions.

(** ** messages.go *)

Record Deposit := mkDeposit {
  dep_BidderKey : Digest; dep_WinningsAddress : Digest; dep_Currency : Z; dep_AuctionKey : Digest; dep_AuctionID : Z; dep_DepositID : Z
}.
Record SignedDeposit := mkSignedDeposit { sd_Deposit : Deposit; sd_Sig : bytes }.
Record Bid := mkBid {
  bid_BidderKey : Digest; bid_BidCurrency : Z; bid_MaxPrice : Z; bid_BidID : Z; bid_AuctionKey : Digest; bid_AuctionID : Z
}.
Record SignedBid := mkSignedBid { sb_Bid : Bid; sb_Sig : bytes }.
Record BidderOutcome := mkBidderOutcome { bo_BidderKey : Digest; bo_AlgosWon : Z; bo_WinningsAddress : Digest; bo_BidID : Z }.
Record BidOutcomes := mkBidOutcomes {
  out_AuctionKey : Digest; out_AuctionID : Z; out_Price : Z; out_Cleared : bool; out_Outcomes : list BidderOutcome
}.
Record Settlement := mkSettlement {
  stl_AuctionKey : Digest; stl_AuctionID : Z; stl_Cleared : bool; stl_OutcomesHash : Digest; stl_Canceled : bool
}.
Record SignedSettlement := mkSignedSettlement { ss_Settlement : Settlement; ss_Sig : bytes }.
Record Params := mkParams {
  ap_AuctionKey : Digest; ap_AuctionID : Z; ap_BankKey : Digest; ap_DispensingKey : Digest; ap_LastPrice : Z; ap_DepositRound : Z;
  ap_FirstRound : Z; ap_PriceChunkRounds : Z; ap_NumChunks : Z; ap_MaxPriceMultiple : Z; ap_NumAlgos : Z; ap_MinBidAlgos : Z
}.
Record SignedParams := mkSignedParams { sp_Params : Params; sp_Sig : bytes }.

(** [NoteField]: the type tag selects the message; any other tag is ignored. *)
Inductive NoteField :=
| NoteDeposit (d : SignedDeposit)
| NoteBid (b : SignedBid)
| NoteSettlement (s : SignedSettlement)
| NoteParams (p : SignedParams)
| NoteOther.

Definition WinningAddress (d : Deposit) : Digest :=
  if bool_decide (dep_WinningsAddress d = zero32) then dep_BidderKey d else dep_WinningsAddress d.

(** ** logic.go *)

Record RunningBid := mkRunningBid { rb_Bidder : Digest; rb_Currency : Z; rb_BidID : Z }.
Record BidderState := mkBidderState { bs_WinningsAddress : Digest; bs_DepositAmount : Z; bs_PlacedBidIDs : list Z }.
Definition BidderState_zero : BidderState := mkBidderState zero32 0 [].

Record RunningAuction := mkRunningAuction {
  ra_Params : Params;
  ra_DepositIDs : gset Z;
  ra_Bidders : gmap Digest BidderState;
  ra_Bids : gmap Z (list RunningBid);
  ra_TotalCurrency : Z;
  ra_Outcome : option BidOutcomes
}.
#[export] Instance RunningAuction_eta : Eta RunningAuction := λ r,
  mkRunningAuction (ra_Params r) (ra_DepositIDs r) (ra_Bidders r) (ra_Bids r) (ra_TotalCurrency r) (ra_Outcome r).
Definition bidderOf (ra : RunningAuction) (k : Digest) : BidderState := default BidderState_zero (ra_Bidders ra !! k).
Definition bidsIn (ra : RunningAuction) (rnd : Z) : list RunningBid := default [] (ra_Bids ra !! rnd).

Definition validate (p : Params) : result unit :=
  if ap_FirstRound p <? ap_DepositRound p then Err (Errorf "DepositRound > FirstRound")
  else if ap_NumAlgos p =? 0 then Err (Errorf "NumAlgos == 0")
  else if ap_PriceChunkRounds p =? 0 then Err (Errorf "PriceChunkRounds == 0")
  else if ap_NumChunks p =? 0 then Err (Errorf "NumChunks == 0")
  else if ap_MaxPriceMultiple p =? 0 then Err (Errorf "MaxPriceMultiple == 0")
  else
    let '(maxPrice, overflowed) := OMul (ap_LastPrice p) (ap_MaxPriceMultiple p) in
    if overflowed then Err (Errorf "MaxPrice overflow")
    else
      let '(_, overflowed) := OMul (ap_NumAlgos p) maxPrice in
      if overflowed then Err (Errorf "NumAlgos * MaxPrice overflow")
      else if ap_MinBidAlgos p =? 0 then Err (Errorf "MinBidAlgos == 0")
      else Ok tt.

Definition Init (p : Params) : result RunningAuction := _ ← validate p; Ok (mkRunningAuction p ∅ ∅ ∅ 0 None).

Definition LastRound (ra : RunningAuction) : Z :=
  wrap64 (wrap64 (ap_FirstRound (ra_Params ra) + wrap64 (ap_NumChunks (ra_Params ra) * ap_PriceChunkRounds (ra_Params ra))) - 1).

Definition CurrentPrice (ra : RunningAuction) (rnd : Z) : result Z :=
  let p := ra_Params ra in
  if rnd <? ap_FirstRound p then Panic "CurrentPrice undefined for rounds before FirstRound"
  else if LastRound ra <? rnd then Panic "CurrentPrice undefined for rounds after LastRound"
  else if ap_PriceChunkRounds p =? 0 then Panic "integer divide by zero"
  else
    let chunkNum := (rnd - ap_FirstRound p) / ap_PriceChunkRounds p in
    let chunksToEnd := wrap64 (wrap64 (ap_NumChunks p - chunkNum) - 1) in
    let x := wrap64 (ap_LastPrice p * wrap64 (ap_MaxPriceMultiple p - 1)) in
    let '(w, overflowed) := OMul x chunksToEnd in
    if overflowed then Panic "Overflow while computing chunk increase"
    else
      z ← (if w =? 0 then Ok 0
           else if wrap64 (ap_NumChunks p - 1) =? 0 then Panic "integer divide by zero"
           else Ok (w / wrap64 (ap_NumChunks p - 1)));
      Ok (wrap64 (ap_LastPrice p + z)).

Definition PlaceDeposit (d : Deposit) (rnd : Z) : M RunningAuction unit :=
  ra ← get;
  let p := ra_Params ra in
  if negb (bool_decide (dep_AuctionKey d = ap_AuctionKey p)) then throw (Errorf "mismatched auctionkey")
  else if negb (dep_AuctionID d =? ap_AuctionID p) then throw (Errorf "mismatched auctionID")
  else if (rnd <? ap_DepositRound p) || (LastRound ra <? rnd) then throw (Errorf "mismatched deposit round")
  else if bool_decide (dep_DepositID d ∈ ra_DepositIDs ra) then throw (Errorf "deposit has already been placed")
  else
    let bidder := bidderOf ra (dep_BidderKey d) in
    _ ← guardE (bool_decide (bs_WinningsAddress bidder = zero32) || bool_decide (bs_WinningsAddress bidder = WinningAddress d))
          (Errorf "different winning address");
    let '(newAmount, overflowed) := OAdd (bs_DepositAmount bidder) (dep_Currency d) in
    if overflowed then throw (Errorf "deposit would cause overflow")
    else
      put (ra <| ra_DepositIDs ::= λ s, {[dep_DepositID d]} ∪ s |>
              <| ra_Bidders ::= insert (dep_BidderKey d) (mkBidderState (WinningAddress d) newAmount (bs_PlacedBidIDs bidder)) |>).

Definition PlaceBid (b : Bid) (rnd : Z) : M RunningAuction unit :=
  ra ← get;
  let p := ra_Params ra in
  if negb (bool_decide (bid_AuctionKey b = ap_AuctionKey p)) then throw (Errorf "mismatched auctionkey")
  else if negb (bid_AuctionID b =? ap_AuctionID p) then throw (Errorf "mismatched AuctionID")
  else if (rnd <? ap_FirstRound p) || (LastRound ra <? rnd) then throw (Errorf "mismatched deposit round")
  else
    price ← lift (CurrentPrice ra rnd);
    if bid_MaxPrice b <? price then throw (Errorf "bad price")
    else
      let '(minBidCurrency, overflowed) := OMul (bid_MaxPrice b) (ap_MinBidAlgos p) in
      if overflowed then throw (Errorf "overflow in computing minBidCurrency")
      else if bid_BidCurrency b <? minBidCurrency then throw (Errorf "not enough for MinBidAlgos")
      else
        let bidder := bidderOf ra (bid_BidderKey b) in
        if bs_DepositAmount bidder <? bid_BidCurrency b then throw (Errorf "exceeds the deposited amount")
        else if bool_decide (bid_BidID b ∈ bs_PlacedBidIDs bidder) then throw (Errorf "already have a bid with bidID")
        else
          let '(newTotalCurrency, overflowed) := OAdd (ra_TotalCurrency ra) (bid_BidCurrency b) in
          if overflowed then throw (Errorf "the bid overflows the total currency")
          else
            put (ra <| ra_TotalCurrency := newTotalCurrency |>
                    <| ra_Bidders ::= insert (bid_BidderKey b) (mkBidderState (bs_WinningsAddress bidder)
                         (wrap64 (bs_DepositAmount bidder - bid_BidCurrency b)) (bs_PlacedBidIDs bidder ++ [bid_BidID b])) |>
                    <| ra_Bids ::= insert rnd (bidsIn ra rnd ++ [mkRunningBid (bid_BidderKey b) (bid_BidCurrency b) (bid_BidID b)]) |>).

Definition currencyTarget (ra : RunningAuction) (rnd : Z) : result Z := price ← CurrentPrice ra rnd; Ok (wrap64 (ap_NumAlgos (ra_Params ra) * price)).

(** The first loop of [Settle]: the bids up to the round in which the auction clears,
    with that round's price if it does. *)
Fixpoint clearingLoop (fuel : nat) (ra : RunningAuction) (rnd : Z) (winningBids : list RunningBid) (winningCurrency : Z)
    : result (list RunningBid * option Z) :=
  match fuel with
  | O => Panic "endless loop"
  | S fuel =>
    if rnd <=? LastRound ra then
      let winningCurrency := foldl (λ acc bid, wrap64 (acc + rb_Currency bid)) winningCurrency (bidsIn ra rnd) in
      let winningBids := winningBids ++ bidsIn ra rnd in
      target ← currencyTarget ra rnd;
      if target <=? winningCurrency then price ← CurrentPrice ra rnd; Ok (winningBids, Some price)
      else clearingLoop fuel ra (wrap64 (rnd + 1)) winningBids winningCurrency
    else Ok (winningBids, None)
  end.
(** The second loop. *)
Fixpoint awardLoop (ra : RunningAuction) (finalPrice algosAvailable : Z) (bids : list RunningBid) : result (list BidderOutcome) :=
  match bids with
  | [] => Ok []
  | bid :: bids =>
    if finalPrice =? 0 then Panic "integer divide by zero"
    else
      let wonAlgos := Z.min (rb_Currency bid / finalPrice) algosAvailable in
      if ap_MinBidAlgos (ra_Params ra) <=? wonAlgos then
        rest ← awardLoop ra finalPrice (algosAvailable - wonAlgos) bids;
        Ok (mkBidderOutcome (rb_Bidder bid) wonAlgos (bs_WinningsAddress (bidderOf ra (rb_Bidder bid))) (rb_BidID bid) :: rest)
      else awardLoop ra finalPrice algosAvailable bids
  end.

Definition cancel : M RunningAuction BidOutcomes :=
  ra ← get;
  let out := mkBidOutcomes (ap_AuctionKey (ra_Params ra)) (ap_AuctionID (ra_Params ra)) 0 false [] in
  _ ← put (ra <| ra_Outcome := Some out |>);
  mret out.
Definition Settle (cancel_ : bool) : M RunningAuction BidOutcomes :=
  if cancel_ then cancel
  else
    ra ← get;
    let p := ra_Params ra in
    r ← lift (clearingLoop (Z.to_nat (LastRound ra - ap_FirstRound p) + 2) ra (ap_FirstRound p) [] 0);
    let '(winningBids, clearing) := r in
    finalPrice ← lift (match clearing with Some price => Ok price | None => CurrentPrice ra (LastRound ra) end);
    outcomes ← lift (awardLoop ra finalPrice (ap_NumAlgos p) winningBids);
    let out := mkBidOutcomes (ap_AuctionKey p) (ap_AuctionID p) finalPrice (bool_decide (is_Some clearing)) outcomes in
    _ ← put (ra <| ra_Outcome := Some out |>);
    mret out.

Definition Cleared (ra : RunningAuction) : result bool :=
  match ra_Outcome ra with Some out => Ok (out_Cleared out) | None => Panic "Cleared was called before auction was settled" end.
Definition Balance (ra : RunningAuction) (addr : Digest) : Z := bs_DepositAmount (bidderOf ra addr).

(** [SerializedRunningAuction.Bids]: the bids of every round. *)
Fixpoint bidsFrom (fuel : nat) (ra : RunningAuction) (rnd : Z) : result (list RunningBid) :=
  match fuel with
  | O => Panic "endless loop"
  | S fuel => if rnd <=? LastRound ra then rest ← bidsFrom fuel ra (wrap64 (rnd + 1)); Ok (bidsIn ra rnd ++ rest) else Ok []
  end.
Definition Bids (ra : RunningAuction) : result (list RunningBid) :=
  bidsFrom (Z.to_nat (LastRound ra - ap_FirstRound (ra_Params ra)) + 2) ra (ap_FirstRound (ra_Params ra)).

(** ** sigcheck.go and the tracker *)

(** [SignatureVerifier.Verify] on each kind of message, and the hash of outcomes. *)
Record AuctionCrypto := mkAuctionCrypto {
  ac_verifyParams : Digest -> Params -> bytes -> bool;
  ac_verifyDeposit : Digest -> Deposit -> bytes -> bool;
  ac_verifyBid : Digest -> Bid -> bytes -> bool;
  ac_verifySettlement : Digest -> Settlement -> bytes -> bool;
  ac_hashOutcomes : BidOutcomes -> Digest
}.

(** The states of an auction. *)
Inductive State := Uninitialized | Active | Closed | Settled.
#[export] Instance State_eq_dec : EqDecision State.
Proof. solve_decision. Defined.

Record Tracker := mkTracker { tk_Auctions : gmap Z RunningAuction; tk_AuctionKey : Address; tk_lastRound : Z; tk_lastAuction : Z }.
#[export] Instance Tracker_eta : Eta Tracker := λ r, mkTracker (tk_Auctions r) (tk_AuctionKey r) (tk_lastRound r) (tk_lastAuction r).

Section Tracker.
Variable ac : AuctionCrypto.

Definition VerifySignedParams (sp : SignedParams) (auctionKey : Digest) : bool :=
  if negb (ac_verifyParams ac auctionKey (sp_Params sp) (sp_Sig sp)) then false
  else if negb (bool_decide (ap_AuctionKey (sp_Params sp) = auctionKey)) then false
  else true.
Definition VerifySignedDeposit (p : Params) (sd : SignedDeposit) : bool :=
  if negb (ac_verifyDeposit ac (ap_BankKey p) (sd_Deposit sd) (sd_Sig sd)) then false
  else if negb (bool_decide (dep_AuctionKey (sd_Deposit sd) = ap_AuctionKey p)) || negb (dep_AuctionID (sd_Deposit sd) =? ap_AuctionID p) then false
  else true.
Definition VerifySignedBid (p : Params) (sb : SignedBid) : bool :=
  if negb (ac_verifyBid ac (bid_BidderKey (sb_Bid sb)) (sb_Bid sb) (sb_Sig sb)) then false
  else if negb (bool_decide (bid_AuctionKey (sb_Bid sb) = ap_AuctionKey p)) || negb (bid_AuctionID (sb_Bid sb) =? ap_AuctionID p) then false
  else true.
Definition VerifySignedSettlement (ss : SignedSettlement) (auctionKey : Digest) (auctionID : Z) : bool :=
  if negb (ac_verifySettlement ac auctionKey (ss_Settlement ss) (ss_Sig ss)) then false
  else if negb (bool_decide (stl_AuctionKey (ss_Settlement ss) = auctionKey)) || negb (stl_AuctionID (ss_Settlement ss) =? auctionID) then false
  else true.
Definition VerifyBidOutcomes (s : Settlement) (bo : BidOutcomes) : bool :=
  if negb (bool_decide (stl_AuctionKey s = out_AuctionKey bo)) || negb (stl_AuctionID s =? out_AuctionID bo) then false
  else if negb (bool_decide (stl_OutcomesHash s = ac_hashOutcomes ac bo)) then false
  else if negb (eqb (stl_Cleared s) (out_Cleared bo)) then false
  else true.

Definition InitSigned (sp : SignedParams) (auctionKey : Digest) : result RunningAuction :=
  if negb (VerifySignedParams sp auctionKey) then Err (Errorf "signature mismatch on SignedParams") else Init (sp_Params sp).
Definition PlaceSignedDeposit (sd : SignedDeposit) (rnd : Z) : M RunningAuction unit :=
  ra ← get; if negb (VerifySignedDeposit (ra_Params ra) sd) then throw (Errorf "failed to verify signed deposit") else PlaceDeposit (sd_Deposit sd) rnd.
Definition PlaceSignedBid (sb : SignedBid) (rnd : Z) : M RunningAuction unit :=
  ra ← get; if negb (VerifySignedBid (ra_Params ra) sb) then throw (Errorf "failed to verify signed bid") else PlaceBid (sb_Bid sb) rnd.

(** ** tracker.go *)

(** [ak]: the decoded address. *)
Definition MakeTracker (startRound : Z) (ak : result Address) : result Tracker := ak ← ak; Ok (mkTracker ∅ ak startRound 0).

Definition auctionState (am : Tracker) (id : Z) : State :=
  match tk_Auctions am !! id with
  | None => Uninitialized
  | Some auction =>
    match ra_Outcome auction with
    | Some _ => Settled
    | None => if LastRound auction <=? tk_lastRound am then Closed else Active
    end
  end.

(** An operation on one of the auctions. *)
Definition onAuction {A} (id : Z) (f : M RunningAuction A) : M Tracker A := λ am,
  match tk_Auctions am !! id with
  | Some ra => let '(r, ra') := f ra in (r, am <| tk_Auctions ::= insert id ra' |>)
  | None => (Panic "nil pointer dereference", am)
  end.

Definition placeParams (params : Params) (rnd : Z) : M Tracker bool :=
  am ← get;
  if bool_decide (auctionState am (tk_lastAuction am) = Active) then lift (Panic "Got a start auction message before the auction was settled")
  else
    match Init params with
    | Ok au => _ ← put (am <| tk_lastAuction := ap_AuctionID params |> <| tk_Auctions ::= insert (ap_AuctionID params) au |>); mret true
    | _ => lift (Panic "couldn't initialize the auction")
    end.
Definition tk_placeBid (bid : Bid) (rnd : Z) : M Tracker unit :=
  am ← get;
  if negb (bool_decide (auctionState am (bid_AuctionID bid) = Active)) then throw (Errorf "auction is not active for bid")
  else onAuction (bid_AuctionID bid) (PlaceBid bid rnd).
Definition tk_placeDeposit (deposit : Deposit) (rnd : Z) : M Tracker unit :=
  am ← get;
  if negb (bool_decide (auctionState am (dep_AuctionID deposit) = Active)) then throw (Errorf "auction is not active for deposit")
  else onAuction (dep_AuctionID deposit) (PlaceDeposit deposit rnd).
Definition placeSettlement (settlement : Settlement) (rnd : Z) : M Tracker bool :=
  outcomes ← onAuction (stl_AuctionID settlement) (Settle (stl_Canceled settlement));
  if negb (VerifyBidOutcomes settlement outcomes) then lift (Panic "the settlement message hash isn't equal to the expected one") else mret true.

(** A failed placement is logged and the message dropped. *)
Definition dropErr {A} (m : M Tracker A) : M Tracker unit := λ am,
  match m am with
  | (Ok _, am') => (Ok tt, am')
  | (Err _, am') => (Ok tt, am')
  | (Panic s, am') => (Panic s, am')
  end.
Definition processOne (from : Address) (rnd : Z) (msg : NoteField) : M Tracker unit :=
  am ← get;
  match msg with
  | NoteParams sp =>
    if negb (bool_decide (from = ap_AuctionKey (sp_Params sp))) then mret tt
    else if negb (VerifySignedParams sp (tk_AuctionKey am)) then mret tt
    else dropErr (placeParams (sp_Params sp) rnd)
  | NoteDeposit sd =>
    match tk_Auctions am !! dep_AuctionID (sd_Deposit sd) with
    | None => mret tt
    | Some ra => if negb (VerifySignedDeposit (ra_Params ra) sd) then mret tt else dropErr (tk_placeDeposit (sd_Deposit sd) rnd)
    end
  | NoteBid sb =>
    match tk_Auctions am !! bid_AuctionID (sb_Bid sb) with
    | None => mret tt
    | Some ra => if negb (VerifySignedBid (ra_Params ra) sb) then mret tt else dropErr (tk_placeBid (sb_Bid sb) rnd)
    end
  | NoteSettlement ss =>
    let id := stl_AuctionID (ss_Settlement ss) in
    let s := auctionState am id in
    if bool_decide (s = Uninitialized) || bool_decide (s = Settled) then mret tt
    else if negb (bool_decide (from = stl_AuctionKey (ss_Settlement ss))) then mret tt
    else
      match tk_Auctions am !! id with
      | None => lift (Panic "nil pointer dereference")
      | Some ra =>
        if negb (VerifySignedSettlement ss (ap_AuctionKey (ra_Params ra)) (ap_AuctionID (ra_Params ra))) then mret tt
        else dropErr (placeSettlement (ss_Settlement ss) rnd)
      end
  | NoteOther => mret tt
  end.
(** [from]: the decoded sender of the transaction; [msgs]: its decoded note. *)
Definition ProcessMessage (from : result Address) (msgs : list NoteField) (confirmedRound : Z) : M Tracker unit :=
  from ← lift (match from with Ok a => Ok a | _ => Err (Errorf "failed to unmarshal") end);
  forM (processOne from confirmedRound) msgs.

(** One turn of [LiveUpdateWithContext]: the transactions of the new rounds, whose
    errors are logged, then the round. *)
Fixpoint processTxns (txns : list (result Address * list NoteField * Z)) : M Tracker unit :=
  match txns with
  | [] => mret tt
  | (from, msgs, rnd) :: txns => _ ← dropErr (ProcessMessage from msgs rnd); processTxns txns
  end.
Definition liveUpdateTurn (txns : list (result Address * list NoteField * Z)) (lastRound : Z) : M Tracker unit :=
  _ ← processTxns txns;
  am ← get;
  put (am <| tk_lastRound := lastRound |>).

Definition LastAuctionID (am : Tracker) : result Z :=
  if tk_lastAuction am =? 0 then Err (Errorf "no auction has been seen yet") else Ok (tk_lastAuction am).
End Tracker.
