(* ===== verification/AuctionSpec.v ===== *)
(** What the auction guarantees.

    For parameters that [validate] accepts and whose arithmetic fits ([sound]), the price
    falls from the maximum to the reserve, currency is conserved by deposits and bids,
    and settlement sells no more than there is, at a price no winner's bid was below.
    Without a reserve price, which [validate] allows, settlement divides by zero. *)

From S2P Require Import Prelude Config Basics Transactions Auction.

(** ** The price *)

Record sound (p : Params) : Prop := mkSound {
  snd_u64 : Forall u64 [ap_LastPrice p; ap_DepositRound p; ap_FirstRound p; ap_PriceChunkRounds p; ap_NumChunks p; ap_MaxPriceMultiple p; ap_NumAlgos p; ap_MinBidAlgos p];
  snd_valid : validate p = Ok tt;
  snd_rounds : ap_FirstRound p + ap_NumChunks p * ap_PriceChunkRounds p <= maxUint64;
  snd_steps : ap_LastPrice p * (ap_MaxPriceMultiple p - 1) * (ap_NumChunks p - 1) <= maxUint64
}.
Definition lastRoundOf (p : Params) : Z := ap_FirstRound p + ap_NumChunks p * ap_PriceChunkRounds p - 1.
Definition inRounds (p : Params) (rnd : Z) : Prop := ap_FirstRound p <= rnd <= lastRoundOf p.
(** The price of a round; with one chunk there is no step, and division by 0 is 0. *)
Definition priceOf (p : Params) (rnd : Z) : Z :=
  ap_LastPrice p + ap_LastPrice p * (ap_MaxPriceMultiple p - 1) * (ap_NumChunks p - 1 - (rnd - ap_FirstRound p) / ap_PriceChunkRounds p) / (ap_NumChunks p - 1).

Lemma sound_facts p : sound p -> 0 <= ap_FirstRound p /\ 0 < ap_NumChunks p /\ 0 < ap_PriceChunkRounds p /\ 0 < ap_MaxPriceMultiple p /\ 0 < ap_NumAlgos p /\ 0 < ap_MinBidAlgos p
  /\ 0 <= ap_LastPrice p /\ ap_NumAlgos p * (ap_LastPrice p * ap_MaxPriceMultiple p) <= maxUint64 /\ ap_MinBidAlgos p <= maxUint64.
Proof.
  intros [Hu Hv _ _]. rewrite !Forall_cons in Hu. destruct Hu as (H1 & H2 & H3 & H4 & H5 & H6 & H7 & H8 & _). unfold validate in Hv.
  destruct (Z.ltb_spec (ap_FirstRound p) (ap_DepositRound p)); [done|]. destruct (Z.eqb_spec (ap_NumAlgos p) 0); [done|]. destruct (Z.eqb_spec (ap_PriceChunkRounds p) 0); [done|].
  destruct (Z.eqb_spec (ap_NumChunks p) 0); [done|]. destruct (Z.eqb_spec (ap_MaxPriceMultiple p) 0); [done|]. rewrite OMul_spec in Hv by done.
  destruct (Z.ltb_spec (ap_LastPrice p * ap_MaxPriceMultiple p) (2 ^ 64)) as [Hm|]; [|done]. rewrite OMul_spec in Hv by (done || (unfold u64 in *; nia)).
  destruct (Z.ltb_spec (ap_NumAlgos p * (ap_LastPrice p * ap_MaxPriceMultiple p)) (2 ^ 64)) as [Hn|]; [|done]. destruct (Z.eqb_spec (ap_MinBidAlgos p) 0); [done|].
  unfold u64, maxUint64 in *. lia.
Qed.
Lemma LastRound_run ra : sound (ra_Params ra) -> LastRound ra = lastRoundOf (ra_Params ra).
Proof.
  intros Hs. pose proof (sound_facts _ Hs) as (? & ? & ? & ? & ? & ? & ? & ? & ?). pose proof (snd_rounds _ Hs). unfold LastRound, lastRoundOf, maxUint64 in *.
  rewrite (wrap64_small (ap_NumChunks _ * _)) by (unfold u64; nia). rewrite (wrap64_small (ap_FirstRound _ + _)) by (unfold u64; nia). rewrite wrap64_small by (unfold u64; nia). done.
Qed.
Lemma chunk_range p rnd : sound p -> inRounds p rnd -> 0 <= (rnd - ap_FirstRound p) / ap_PriceChunkRounds p <= ap_NumChunks p - 1.
Proof.
  intros Hs Hr. pose proof (sound_facts _ Hs) as (? & ? & ? & ? & ? & ? & ? & ? & ?). unfold inRounds, lastRoundOf in Hr. split; [apply Z.div_pos; lia|].
  apply Zlt_succ_le, Z.div_lt_upper_bound; nia.
Qed.
Lemma CurrentPrice_run ra rnd : sound (ra_Params ra) -> inRounds (ra_Params ra) rnd -> CurrentPrice ra rnd = Ok (priceOf (ra_Params ra) rnd).
Proof.
  intros Hs Hr. pose proof (chunk_range _ _ Hs Hr) as Hk. pose proof (sound_facts _ Hs) as (? & ? & ? & ? & ? & ? & ? & Hmax & ?). pose proof (snd_steps _ Hs) as Hst.
  pose proof (snd_u64 _ Hs) as Hu. rewrite !Forall_cons in Hu. destruct Hu as (U1 & U2 & U3 & U4 & U5 & U6 & U7 & U8 & _). unfold inRounds in Hr.
  unfold CurrentPrice, priceOf. rewrite LastRound_run by done. set (p := ra_Params ra) in *. set (k := (rnd - ap_FirstRound p) / ap_PriceChunkRounds p) in *. unfold maxUint64, u64 in *.
  rewrite !(proj2 (Z.ltb_ge _ _)), (proj2 (Z.eqb_neq _ _)) by lia. rewrite (wrap64_small (ap_NumChunks p - k)), (wrap64_small (ap_NumChunks p - k - 1)), (wrap64_small (ap_MaxPriceMultiple p - 1)) by (unfold u64; lia).
  assert (ap_LastPrice p * ap_MaxPriceMultiple p <= 2 ^ 64 - 1) by nia. rewrite (wrap64_small (ap_LastPrice p * _)) by (unfold u64; nia). set (x := ap_LastPrice p * (ap_MaxPriceMultiple p - 1)) in *.
  assert (0 <= x) by nia. assert (x * (ap_NumChunks p - k - 1) <= x * (ap_NumChunks p - 1)) by (apply Z.mul_le_mono_nonneg_l; lia).
  rewrite OMul_spec by (unfold u64; nia). rewrite (proj2 (Z.ltb_lt _ _)) by lia. replace (ap_NumChunks p - 1 - k) with (ap_NumChunks p - k - 1) by lia. set (w := x * (ap_NumChunks p - k - 1)) in *.
  assert (0 <= w / (ap_NumChunks p - 1) <= x) as Hz.
  { destruct (Z.eq_dec (ap_NumChunks p) 1) as [E|]; [rewrite E; change (1 - 1) with 0; rewrite Zdiv_0_r; lia|]. split; [apply Z.div_pos; nia|]. apply Z.div_le_upper_bound; lia. }
  destruct (Z.eqb_spec w 0) as [E|Hw].
  - cbn. rewrite E, Zdiv_0_l. rewrite wrap64_small by (unfold u64; lia). done.
  - rewrite (wrap64_small (ap_NumChunks p - 1)) by (unfold u64; lia). assert (ap_NumChunks p <> 1) by (intros E; unfold w in Hw; apply Hw; replace (ap_NumChunks p - k - 1) with 0 by lia; lia).
    rewrite (proj2 (Z.eqb_neq _ _)) by lia. cbn. rewrite wrap64_small by (unfold u64; nia). done.
Qed.
Lemma price_bounds p rnd : sound p -> inRounds p rnd -> ap_LastPrice p <= priceOf p rnd <= ap_LastPrice p * ap_MaxPriceMultiple p.
Proof.
  intros Hs Hr. pose proof (chunk_range _ _ Hs Hr) as Hk. pose proof (sound_facts _ Hs) as (? & ? & ? & ? & ? & ? & ? & ? & ?). unfold priceOf. set (k := (rnd - ap_FirstRound p) / _) in *.
  assert (0 <= ap_LastPrice p * (ap_MaxPriceMultiple p - 1)) by nia. set (x := ap_LastPrice p * (ap_MaxPriceMultiple p - 1)) in *.
  assert (0 <= x * (ap_NumChunks p - 1 - k) / (ap_NumChunks p - 1) <= x); [|unfold x in *; lia].
  destruct (Z.eq_dec (ap_NumChunks p) 1) as [E|]; [rewrite E; change (1 - 1) with 0; rewrite Zdiv_0_r; lia|]. split; [apply Z.div_pos; nia|]. apply Z.div_le_upper_bound; [lia|]. nia.
Qed.
Lemma price_mono p r r' : sound p -> inRounds p r -> inRounds p r' -> r <= r' -> priceOf p r' <= priceOf p r.
Proof.
  intros Hs Hr Hr' Hle. pose proof (chunk_range _ _ Hs Hr). pose proof (chunk_range _ _ Hs Hr'). pose proof (sound_facts _ Hs) as (? & ? & ? & ? & ? & ? & ? & ? & ?). unfold priceOf.
  assert ((r - ap_FirstRound p) / ap_PriceChunkRounds p <= (r' - ap_FirstRound p) / ap_PriceChunkRounds p) by (apply Z.div_le_mono; lia).
  destruct (Z.eq_dec (ap_NumChunks p) 1) as [E|]; [rewrite E; change (1 - 1) with 0; rewrite !Zdiv_0_r; lia|]. apply Zplus_le_compat_l, Z.div_le_mono; [lia|]. apply Z.mul_le_mono_nonneg_l; nia.
Qed.

(** ** Currency *)

Definition allBids (bids : gmap Z (list RunningBid)) : list RunningBid := concat (map_to_list bids).*2.
Definition ofBidder (k : Digest) (b : RunningBid) : Z := if bool_decide (rb_Bidder b = k) then rb_Currency b else 0.
Definition depositOf (k : Digest) (d : Deposit) : Z := if bool_decide (dep_BidderKey d = k) then dep_Currency d else 0.

Lemma sum_insert f r l (m : gmap Z (list RunningBid)) : m !! r = None -> sumZ f (allBids (<[r := l]> m)) = sumZ f l + sumZ f (allBids m).
Proof.
  intros Hr. unfold allBids. transitivity (sumZ f (concat ((r, l) :: map_to_list m).*2)).
  - apply sumZ_Permutation. rewrite map_to_list_insert by done. done.
  - cbn [fmap list_fmap concat snd]. apply sumZ_app.
Qed.
Lemma sum_delete f r (m : gmap Z (list RunningBid)) : sumZ f (allBids m) = sumZ f (default [] (m !! r)) + sumZ f (allBids (delete r m)).
Proof.
  destruct (m !! r) as [l|] eqn:E; [|by rewrite delete_id]. rewrite <- (insert_delete_id m r l E) at 1. by rewrite sum_insert by apply lookup_delete_eq.
Qed.
Lemma sum_append f r b (m : gmap Z (list RunningBid)) : sumZ f (allBids (<[r := default [] (m !! r) ++ [b]]> m)) = sumZ f (allBids m) + f b.
Proof.
  rewrite (sum_delete f r m), <- insert_delete_eq, sum_insert by apply lookup_delete_eq. rewrite sumZ_app. cbn [sumZ]. lia.
Qed.
(** The bids of distinct rounds are part of all bids. *)
Lemma sum_rounds f rs : forall m : gmap Z (list RunningBid), (forall b, 0 <= f b) -> NoDup rs -> sumZ f (concat ((λ r, default [] (m !! r)) <$> rs)) <= sumZ f (allBids m).
Proof.
  induction rs as [|r rs IH]; intros m Hf Hnd; [apply sumZ_nonneg; auto|]. apply NoDup_cons in Hnd as [Hr Hnd]. cbn [fmap list_fmap concat]. rewrite sumZ_app, (sum_delete f r m).
  specialize (IH (delete r m) Hf Hnd). assert ((λ r0, default [] (m !! r0)) <$> rs = (λ r0, default [] (delete r m !! r0)) <$> rs) as ->; [|lia].
  apply list_fmap_ext. intros i x Hx. rewrite lookup_delete_ne; [done|]. intros ->. apply Hr. by eapply list_elem_of_lookup_2.
Qed.

Record au_inv (ds : list Deposit) (ra : RunningAuction) : Prop := mkAuInv {
  ai_sound : sound (ra_Params ra);
  ai_u64 : forall k, u64 (Balance ra k);
  ai_conserved : forall k, Balance ra k + sumZ (ofBidder k) (allBids (ra_Bids ra)) = sumZ (depositOf k) ds;
  ai_total : ra_TotalCurrency ra = sumZ rb_Currency (allBids (ra_Bids ra)) /\ u64 (ra_TotalCurrency ra);
  ai_bids : forall r b, b ∈ bidsIn ra r -> inRounds (ra_Params ra) r /\ 0 <= rb_Currency b /\ ap_MinBidAlgos (ra_Params ra) * priceOf (ra_Params ra) r <= rb_Currency b
}.

(** Deposits and bids, accepted or not; [ds] collects the accepted deposits. *)
Inductive au_step : list Deposit * RunningAuction -> list Deposit * RunningAuction -> Prop :=
  | step_deposit ds ra ra' d rnd : u64 (dep_Currency d) -> PlaceDeposit d rnd ra = (Ok tt, ra') -> au_step (ds, ra) (ds ++ [d], ra')
  | step_deposit_err ds ra ra' d rnd e : u64 (dep_Currency d) -> PlaceDeposit d rnd ra = (Err e, ra') -> au_step (ds, ra) (ds, ra')
  | step_bid ds ra ra' b rnd r : u64 (bid_BidCurrency b) -> u64 (bid_MaxPrice b) -> PlaceBid b rnd ra = (r, ra') -> au_step (ds, ra) (ds, ra').
Definition au_reachable (p : Params) (ds : list Deposit) (ra : RunningAuction) : Prop :=
  exists ra0, Init p = Ok ra0 /\ rtc au_step ([], ra0) (ds, ra).

Lemma Init_inv p ra : sound p -> Init p = Ok ra -> au_inv [] ra.
Proof.
  intros Hs. unfold Init. rewrite (snd_valid _ Hs). cbn. intros E. injection E as <-.
  assert (forall k, Balance (mkRunningAuction p ∅ ∅ ∅ 0 None) k = 0) as HB by (intros k; unfold Balance, bidderOf; cbn; by rewrite lookup_empty).
  split; [done|intros k; rewrite HB; unfold u64; lia|intros k; by rewrite HB|split; [done|unfold u64; cbn; lia]|].
  intros r b Hb. unfold bidsIn in Hb. cbn in Hb. rewrite lookup_empty in Hb. by apply elem_of_nil in Hb.
Qed.

Lemma PlaceDeposit_cases d rnd ra : (exists e, PlaceDeposit d rnd ra = (Err e, ra)) \/
  (exists newAmount, OAdd (bs_DepositAmount (bidderOf ra (dep_BidderKey d))) (dep_Currency d) = (newAmount, false) /\
    PlaceDeposit d rnd ra = (Ok tt, ra <| ra_DepositIDs ::= λ s, {[dep_DepositID d]} ∪ s |>
      <| ra_Bidders ::= insert (dep_BidderKey d) (mkBidderState (WinningAddress d) newAmount (bs_PlacedBidIDs (bidderOf ra (dep_BidderKey d)))) |>)).
Proof.
  unfold PlaceDeposit. erewrite bind_run by done. destruct (negb (bool_decide _)); [left; by eexists|]. destruct (negb (_ =? _)); [left; by eexists|]. destruct (_ || _); [left; by eexists|].
  destruct (bool_decide (_ ∈ _)); [left; by eexists|]. unfold guardE. destruct (_ || _); [|left; by eexists]. erewrite bind_run by done. destruct (OAdd _ _) as [n [|]]; [left; by eexists|right; by exists n].
Qed.
Lemma Balance_insert ra ra' k k' bs : ra_Bidders ra' = <[k := bs]> (ra_Bidders ra) -> Balance ra' k' = if decide (k' = k) then bs_DepositAmount bs else Balance ra k'.
Proof. intros E. unfold Balance, bidderOf. rewrite E. case_decide as Ek; [subst; by rewrite lookup_insert_eq|by rewrite lookup_insert_ne]. Qed.
Lemma PlaceDeposit_inv ds ra ra' d rnd : au_inv ds ra -> u64 (dep_Currency d) -> PlaceDeposit d rnd ra = (Ok tt, ra') -> au_inv (ds ++ [d]) ra'.
Proof.
  intros [Hs Hu Hc Ht Hb] Hd E. destruct (PlaceDeposit_cases d rnd ra) as [[e E']|(n & En & E')]; rewrite E in E'; [done|]. injection E' as ->.
  apply OAdd_Ok in En as [-> Hlt]; [|apply Hu|done]. set (ra' := mkRunningAuction _ _ _ _ _ _).
  assert (forall k, Balance ra' k = Balance ra k + depositOf k d) as HB.
  { intros k. rewrite (Balance_insert ra ra' _ k _ eq_refl). unfold depositOf. case_decide as Ek; [rewrite bool_decide_true by done; by subst k|rewrite bool_decide_false by congruence; lia]. }
  split; [done| | |done|done].
  - intros k. rewrite HB. unfold depositOf. case_bool_decide as Ek; [|rewrite Z.add_0_r; apply Hu]. subst k. pose proof (Hu (dep_BidderKey d)). unfold u64, Balance in *. lia.
  - intros k. rewrite HB, sumZ_app. cbn [sumZ]. specialize (Hc k). cbn. lia.
Qed.

Lemma PlaceBid_cases b rnd ra : (exists r, PlaceBid b rnd ra = (r, ra)) \/
  (exists price min total, ap_FirstRound (ra_Params ra) <= rnd <= LastRound ra /\ CurrentPrice ra rnd = Ok price /\ price <= bid_MaxPrice b
    /\ OMul (bid_MaxPrice b) (ap_MinBidAlgos (ra_Params ra)) = (min, false) /\ min <= bid_BidCurrency b <= Balance ra (bid_BidderKey b)
    /\ OAdd (ra_TotalCurrency ra) (bid_BidCurrency b) = (total, false) /\
    let bidder := bidderOf ra (bid_BidderKey b) in
    PlaceBid b rnd ra = (Ok tt, mkRunningAuction (ra_Params ra) (ra_DepositIDs ra)
      (<[bid_BidderKey b := mkBidderState (bs_WinningsAddress bidder) (wrap64 (bs_DepositAmount bidder - bid_BidCurrency b)) (bs_PlacedBidIDs bidder ++ [bid_BidID b])]> (ra_Bidders ra))
      (<[rnd := bidsIn ra rnd ++ [mkRunningBid (bid_BidderKey b) (bid_BidCurrency b) (bid_BidID b)]]> (ra_Bids ra)) total (ra_Outcome ra))).
Proof.
  unfold PlaceBid. erewrite bind_run by done. destruct (negb (bool_decide _)); [left; by eexists|]. destruct (negb (_ =? _)); [left; by eexists|].
  destruct (Z.ltb_spec rnd (ap_FirstRound (ra_Params ra))); [left; by eexists|]. destruct (Z.ltb_spec (LastRound ra) rnd); [left; by eexists|]. cbn [orb].
  destruct (CurrentPrice ra rnd) as [price|e|s] eqn:Ep; [|left; by eexists..]. erewrite bind_run by done. destruct (Z.ltb_spec (bid_MaxPrice b) price); [left; by eexists|].
  destruct (OMul _ _) as [min [|]] eqn:Em; [left; by eexists|]. destruct (Z.ltb_spec (bid_BidCurrency b) min); [left; by eexists|].
  destruct (Z.ltb_spec (bs_DepositAmount (bidderOf ra (bid_BidderKey b))) (bid_BidCurrency b)); [left; by eexists|]. destruct (bool_decide (_ ∈ _)); [left; by eexists|].
  destruct (OAdd _ _) as [total [|]] eqn:Eo; [left; by eexists|]. right. exists price, min, total. split_and!; done || lia.
Qed.
Lemma PlaceBid_inv ds ra ra' b rnd r : au_inv ds ra -> u64 (bid_BidCurrency b) -> u64 (bid_MaxPrice b) -> PlaceBid b rnd ra = (r, ra') -> au_inv ds ra'.
Proof.
  intros [Hs Hu Hc [Ht Htu] Hb] Hcur Hmax E. destruct (PlaceBid_cases b rnd ra) as [[r' E']|(price & min & total & Hr & Ep & Hpm & Em & Hbal & Eo & E')]; rewrite E in E'; [by injection E' as _ ->|].
  injection E' as _ ->. rewrite LastRound_run in Hr by done. assert (inRounds (ra_Params ra) rnd) as Hin by done. rewrite CurrentPrice_run in Ep by done. injection Ep as <-.
  apply OAdd_Ok in Eo as [-> Hlt]; [|done|done]. set (ra' := mkRunningAuction _ _ _ _ _ _). pose proof (Hu (bid_BidderKey b)) as Hub. unfold Balance in Hub, Hbal.
  assert (forall k, Balance ra' k = Balance ra k - ofBidder k (mkRunningBid (bid_BidderKey b) (bid_BidCurrency b) (bid_BidID b))) as HB.
  { intros k. rewrite (Balance_insert ra ra' _ k _ eq_refl). unfold ofBidder. cbn [rb_Bidder rb_Currency bs_DepositAmount].
    case_decide as Ek; [rewrite bool_decide_true by done; subst k; unfold Balance; apply wrap64_sub_small; [done|done|lia]|rewrite bool_decide_false by congruence; lia]. }
  split; [done| | | |].
  - intros k. rewrite HB. unfold ofBidder. cbn [rb_Bidder rb_Currency]. case_bool_decide as Ek; [|rewrite Z.sub_0_r; apply Hu]. subst k. unfold u64, Balance in *. lia.
  - intros k. rewrite HB. cbn [ra_Bids ra']. unfold bidsIn. rewrite sum_append. specialize (Hc k). lia.
  - cbn [ra_Bids ra_TotalCurrency ra']. unfold bidsIn. rewrite sum_append. cbn [rb_Currency]. unfold u64 in *. lia.
  - intros r0 b0. unfold bidsIn. cbn [ra_Bids ra_Params ra']. destruct (decide (r0 = rnd)) as [->|Hne]; [|rewrite lookup_insert_ne by done; apply Hb]. rewrite lookup_insert_eq. cbn [default].
    intros Hb0. apply elem_of_app in Hb0 as [Hb0|Hb0]; [by apply Hb|]. apply list_elem_of_singleton in Hb0 as ->. cbn [rb_Currency]. split; [done|]. split; [apply Hcur|].
    pose proof (sound_facts _ Hs) as (? & ? & ? & ? & ? & ? & ? & ? & ?). rewrite OMul_spec in Em by (done || (unfold u64, maxUint64 in *; lia)).
    destruct (Z.ltb_spec (bid_MaxPrice b * ap_MinBidAlgos (ra_Params ra)) (2 ^ 64)); [|done]. injection Em as <-. nia.
Qed.
Lemma au_reachable_inv p ds ra : sound p -> au_reachable p ds ra -> au_inv ds ra.
Proof.
  intros Hs (ra0 & Ei & Hr). apply Init_inv in Ei; [|done]. change (au_inv (ds, ra).1 (ds, ra).2). change (au_inv (@nil Deposit, ra0).1 (@nil Deposit, ra0).2) in Ei. revert Ei.
  induction Hr as [c|c c' c'' Hst _ IH]; [done|]. intros Hi. apply IH. destruct Hst as [? ra1 ? d rnd ? E|? ra1 ? d rnd ? ? E|? ra1 ? b rnd ? ? ? E]; cbn [fst snd] in *.
  - by eapply PlaceDeposit_inv.
  - destruct (PlaceDeposit_cases d rnd ra1) as [[e' E']|(n & _ & E')]; rewrite E in E'; [by injection E' as _ ->|done].
  - by eapply PlaceBid_inv.
Qed.

(** C40: Currency is conserved: whatever deposits and bids arrive, for every bidder the
    balance and the bids placed add up to the accepted deposits, no balance is
    negative, and the running total is the sum of all bids. *)
Theorem auction_conserves p ds ra : sound p -> au_reachable p ds ra ->
  (forall k, 0 <= Balance ra k /\ Balance ra k + sumZ (ofBidder k) (allBids (ra_Bids ra)) = sumZ (depositOf k) ds) /\
  ra_TotalCurrency ra = sumZ rb_Currency (allBids (ra_Bids ra)) /\ ra_TotalCurrency ra <= maxUint64.
Proof.
  intros Hs Hr. destruct (au_reachable_inv p ds ra Hs Hr) as [_ Hu Hc [Ht Htu] _]. split_and!; [|done|unfold u64, maxUint64 in *; lia]. intros k. split; [apply Hu|done].
Qed.

(** ** Settlement *)

(** The bids of the rounds from the first up to [r]. *)
Definition bidsUpTo (ra : RunningAuction) (r : Z) : list RunningBid :=
  concat (bidsIn ra <$> seqZ (ap_FirstRound (ra_Params ra)) (r - ap_FirstRound (ra_Params ra) + 1)).

Section Settle.
Variables (ds : list Deposit) (ra : RunningAuction).
Hypothesis Hinv : au_inv ds ra.
Notation p := (ra_Params ra).

Lemma bidsUpTo_step r : ap_FirstRound p <= r -> bidsUpTo ra r = bidsUpTo ra (r - 1) ++ bidsIn ra r.
Proof using Type.
  intros Hr. unfold bidsUpTo. replace (r - ap_FirstRound p + 1) with ((r - 1 - ap_FirstRound p + 1) + 1) by lia. rewrite seqZ_app by lia. rewrite fmap_app, concat_app.
  f_equal. rewrite seqZ_cons by lia. cbn [fmap list_fmap]. change (Z.pred 1) with 0. cbn. rewrite app_nil_r. f_equal. lia.
Qed.
Lemma bidsUpTo_sum r : sumZ rb_Currency (bidsUpTo ra r) <= ra_TotalCurrency ra.
Proof using Hinv.
  destruct Hinv as [_ _ _ [-> _] Hb]. transitivity (sumZ (λ b, Z.max 0 (rb_Currency b)) (bidsUpTo ra r)); [apply sumZ_le; intros; lia|].
  transitivity (sumZ (λ b, Z.max 0 (rb_Currency b)) (allBids (ra_Bids ra))); [apply sum_rounds; [intros; lia|apply NoDup_seqZ]|].
  apply sumZ_le. intros b Hin. unfold allBids in Hin. apply list_elem_of_In, in_concat in Hin as (l & Hl & Hbl). apply list_elem_of_In, list_elem_of_fmap in Hl as ([r' l'] & -> & Hl).
  apply elem_of_map_to_list in Hl. destruct (Hb r' b) as (_ & Hc & _); [unfold bidsIn; rewrite Hl; by apply list_elem_of_In|]. lia.
Qed.
Lemma bids_nonneg r : Forall (λ b, 0 <= rb_Currency b) (bidsIn ra r).
Proof using Hinv. apply Forall_forall. intros b Hb. by apply (ai_bids _ _ Hinv r). Qed.
Lemma addCurrency l : forall c, Forall (λ b, 0 <= rb_Currency b) l -> 0 <= c -> c + sumZ rb_Currency l <= maxUint64 ->
  foldl (λ acc bid, wrap64 (acc + rb_Currency bid)) c l = c + sumZ rb_Currency l.
Proof using Type.
  induction l as [|b l IH]; intros c Hl Hc Hle; [cbn; lia|]. apply Forall_cons in Hl as [Hb Hl]. cbn [foldl sumZ] in *.
  assert (0 <= sumZ rb_Currency l) by (apply sumZ_nonneg; intros x Hx; rewrite Forall_forall in Hl; by apply Hl). unfold maxUint64 in *. rewrite wrap64_small by (unfold u64; lia). rewrite IH by (done || lia). lia.
Qed.

(** The auction clears in the first round whose target is met by the bids so far. *)
Definition clears (r : Z) : Prop := inRounds p r /\ ap_NumAlgos p * priceOf p r <= sumZ rb_Currency (bidsUpTo ra r).
Lemma clearingLoop_run fuel : forall rnd, ap_FirstRound p <= rnd <= lastRoundOf p + 1 -> lastRoundOf p + 1 - rnd < Z.of_nat fuel ->
  (exists r, rnd <= r /\ clears r /\ (forall r', rnd <= r' < r -> ~ clears r') /\
     clearingLoop fuel ra rnd (bidsUpTo ra (rnd - 1)) (sumZ rb_Currency (bidsUpTo ra (rnd - 1))) = Ok (bidsUpTo ra r, Some (priceOf p r))) \/
  ((forall r', rnd <= r' -> ~ clears r') /\
     clearingLoop fuel ra rnd (bidsUpTo ra (rnd - 1)) (sumZ rb_Currency (bidsUpTo ra (rnd - 1))) = Ok (bidsUpTo ra (lastRoundOf p), None)).
Proof using Hinv.
  destruct Hinv as [Hs _ _ [_ Htu] Hb]. pose proof (sound_facts _ Hs) as (? & ? & ? & ? & ? & ? & ? & Hmax & ?). pose proof (snd_rounds _ Hs) as Hrounds.
  induction fuel as [|fuel IH]; intros rnd Hr Hf; [lia|]. cbn [clearingLoop]. rewrite LastRound_run by done. destruct (Z.leb_spec rnd (lastRoundOf p)) as [Hle|Hgt].
  2:{ right. replace (rnd - 1) with (lastRoundOf p) by lia. split; [|done]. intros r' Hr' [[_ ?] _]. lia. }
  assert (inRounds p rnd) as Hin by (unfold inRounds; lia). pose proof (price_bounds _ _ Hs Hin) as [Hp1 Hp2]. unfold currencyTarget. rewrite !CurrentPrice_run by done. cbn [mbind result_bind].
  rewrite (wrap64_small (ap_NumAlgos p * _)) by (unfold u64, maxUint64 in *; nia). pose proof (bidsUpTo_sum rnd) as Hsum. rewrite bidsUpTo_step, sumZ_app in Hsum by lia.
  assert (0 <= sumZ rb_Currency (bidsUpTo ra (rnd - 1))) as Hnn.
  { apply sumZ_nonneg. intros b Hbin. unfold bidsUpTo in Hbin. apply list_elem_of_In, in_concat in Hbin as (l & Hl & Hbl). apply list_elem_of_In, list_elem_of_fmap in Hl as (r' & -> & _).
    apply list_elem_of_In in Hbl. by apply (Hb r'). }
  rewrite addCurrency by (apply bids_nonneg || (unfold u64, maxUint64 in *; lia)). rewrite <- sumZ_app, <- bidsUpTo_step by lia.
  destruct (Z.leb_spec (ap_NumAlgos p * priceOf p rnd) (sumZ rb_Currency (bidsUpTo ra rnd))) as [Hc|Hnc].
  - left. exists rnd. split; [lia|]. split; [done|]. split; [intros; lia|done].
  - unfold lastRoundOf, maxUint64 in *. rewrite wrap64_small by (unfold u64; lia). specialize (IH (rnd + 1) ltac:(lia) ltac:(lia)). replace (rnd + 1 - 1) with rnd in IH by lia.
    assert (~ clears rnd) as Hn by (intros [_ ?]; lia). destruct IH as [(r & Hr1 & Hr2 & Hr3 & ->)|[Hr3 ->]].
    + left. exists r. split; [lia|]. split; [done|]. split; [|done]. intros r' Hr'. destruct (Z.eq_dec r' rnd) as [->|]; [done|apply Hr3; lia].
    + right. split; [|done]. intros r' Hr'. destruct (Z.eq_dec r' rnd) as [->|]; [done|apply Hr3; lia].
Qed.

Lemma awardLoop_run price bids : 0 < price -> Forall (λ b, 0 <= rb_Currency b) bids -> forall avail, 0 <= avail -> exists outs, awardLoop ra price avail bids = Ok outs
  /\ sumZ bo_AlgosWon outs <= avail /\ forall o, o ∈ outs -> ap_MinBidAlgos p <= bo_AlgosWon o /\
       exists b, b ∈ bids /\ rb_Bidder b = bo_BidderKey o /\ rb_BidID b = bo_BidID o /\ bo_AlgosWon o * price <= rb_Currency b.
Proof using Type.
  intros Hp Hb. induction Hb as [|b bids Hc _ IH]; intros avail Ha; cbn [awardLoop]; [exists []; split_and!; [done|done|intros o Ho; by apply elem_of_nil in Ho]|].
  rewrite (proj2 (Z.eqb_neq _ _)) by lia. set (won := Z.min (rb_Currency b / price) avail). assert (0 <= rb_Currency b / price) by (apply Z.div_pos; lia).
  pose proof (Z.mul_div_le (rb_Currency b) price Hp). destruct (Z.leb_spec (ap_MinBidAlgos p) won).
  - destruct (IH (avail - won)) as (outs & -> & Hsum & Ho); [lia|]. cbn [mbind result_bind]. eexists. split; [done|]. cbn [sumZ bo_AlgosWon]. split; [lia|].
    intros o Hin. apply elem_of_cons in Hin as [->|Hin]; cbn [bo_AlgosWon bo_BidderKey bo_BidID].
    + split; [done|]. exists b. split_and!; [by left|done|done|]. nia.
    + destruct (Ho o Hin) as (? & b' & ? & ?). split; [done|]. exists b'. split; [by right|done].
  - destruct (IH avail Ha) as (outs & -> & Hsum & Ho). exists outs. split_and!; [done|done|]. intros o Hin. destruct (Ho o Hin) as (? & b' & ? & ?). split; [done|]. exists b'. split; [by right|done].
Qed.

Lemma bidsUpTo_in r b : b ∈ bidsUpTo ra r -> exists r', ap_FirstRound p <= r' <= r /\ b ∈ bidsIn ra r'.
Proof using Type.
  unfold bidsUpTo. intros Hb. apply list_elem_of_In, in_concat in Hb as (l & Hl & Hbl). apply list_elem_of_In, list_elem_of_fmap in Hl as (r' & -> & Hr').
  apply elem_of_seqZ in Hr'. exists r'. split; [lia|]. by apply list_elem_of_In.
Qed.
(** The outcome at the price of round [r], up to which bids are considered. *)
Lemma award_run r : 0 < ap_LastPrice p -> inRounds p r -> exists outs, awardLoop ra (priceOf p r) (ap_NumAlgos p) (bidsUpTo ra r) = Ok outs
  /\ sumZ bo_AlgosWon outs <= ap_NumAlgos p /\ forall o, o ∈ outs -> ap_MinBidAlgos p <= bo_AlgosWon o /\
       exists r' b, b ∈ bidsIn ra r' /\ rb_Bidder b = bo_BidderKey o /\ rb_BidID b = bo_BidID o /\ bo_AlgosWon o * priceOf p r <= rb_Currency b /\ priceOf p r <= priceOf p r'.
Proof using Hinv.
  intros Hp Hr. pose proof (ai_sound _ _ Hinv) as Hs. pose proof (sound_facts _ Hs) as (? & ? & ? & ? & ? & ? & ? & ? & ?). pose proof (price_bounds _ _ Hs Hr).
  destruct (awardLoop_run (priceOf p r) (bidsUpTo ra r) ltac:(lia)) with (avail := ap_NumAlgos p) as (outs & E & Hsum & Ho); [|lia|].
  { apply Forall_forall. intros b Hb. apply bidsUpTo_in in Hb as (r' & _ & Hb). by apply (ai_bids _ _ Hinv r'). }
  exists outs. split_and!; [done|done|]. intros o Hin. destruct (Ho o Hin) as (Hmin & b & Hb & E1 & E2 & Hle). split; [done|]. apply bidsUpTo_in in Hb as (r' & Hr' & Hb).
  exists r', b. split_and!; [done..|]. apply price_mono; [done|by apply (ai_bids _ _ Hinv r' b)|done|lia].
Qed.
End Settle.

(** Settlement: it terminates with a price of one of the rounds, sells at most
    [NumAlgos], and every winner gets at least the minimum, for a bid that was placed,
    pays no more than the currency of that bid, and no more per unit than the price of
    the round in which it was placed.  The auction is reported as cleared only if the
    bids up to the clearing round buy everything at that price. *)
Theorem auction_settles p ds ra : sound p -> 0 < ap_LastPrice p -> au_reachable p ds ra -> ra_Params ra = p ->
  exists out ra', Settle false ra = (Ok out, ra') /\ ra_Outcome ra' = Some out /\ sumZ bo_AlgosWon (out_Outcomes out) <= ap_NumAlgos p /\
    (exists r, inRounds p r /\ out_Price out = priceOf p r /\ (out_Cleared out = true -> ap_NumAlgos p * out_Price out <= sumZ rb_Currency (bidsUpTo ra r))) /\
    forall o, o ∈ out_Outcomes out -> ap_MinBidAlgos p <= bo_AlgosWon o /\
      exists r b, b ∈ bidsIn ra r /\ rb_Bidder b = bo_BidderKey o /\ rb_BidID b = bo_BidID o /\ bo_AlgosWon o * out_Price out <= rb_Currency b /\ out_Price out <= priceOf p r.
Proof.
  intros Hs Hp Hr Ep. pose proof (au_reachable_inv _ _ _ Hs Hr) as Hinv. pose proof (sound_facts _ Hs) as (? & ? & ? & ? & ? & ? & ? & ? & ?). subst p. set (p := ra_Params ra) in *.
  unfold Settle. erewrite bind_run by done. rewrite LastRound_run by done. fold p.
  assert (ap_FirstRound p <= lastRoundOf p) as Hne by (unfold lastRoundOf; nia).
  assert (bidsUpTo ra (ap_FirstRound p - 1) = []) as E0 by (unfold bidsUpTo; fold p; by replace (ap_FirstRound p - 1 - ap_FirstRound p + 1) with 0 by lia).
  pose proof (clearingLoop_run ds ra Hinv (Z.to_nat (lastRoundOf p - ap_FirstRound p) + 2) (ap_FirstRound p) ltac:(fold p; lia) ltac:(fold p; lia)) as Hcl. rewrite E0 in Hcl. cbn [sumZ] in Hcl. fold p in Hcl.
  destruct Hcl as [(r & _ & [Hin Hcl] & _ & ->)|[_ ->]]; (erewrite bind_run by done); cbn beta iota.
  - destruct (award_run ds ra Hinv r Hp Hin) as (outs & E & Hsum & Ho). fold p in E. erewrite bind_run by done. rewrite E. erewrite bind_run by done. eexists _, _. split; [reflexivity|].
    cbn [ra_Outcome out_Outcomes out_Price out_Cleared]. split; [done|]. split; [done|]. split; [by exists r|done].
  - assert (inRounds p (lastRoundOf p)) as Hin by (unfold inRounds; lia). destruct (award_run ds ra Hinv (lastRoundOf p) Hp Hin) as (outs & E & Hsum & Ho). fold p in E.
    rewrite CurrentPrice_run by done. fold p. erewrite bind_run by done. rewrite E. erewrite bind_run by done. eexists _, _. split; [reflexivity|].
    cbn [ra_Outcome out_Outcomes out_Price out_Cleared]. split; [done|]. split; [done|]. split; [|done]. exists (lastRoundOf p). split; [done|]. split; [done|]. rewrite bool_decide_false; [done|by intros [? ?]].
Qed.

(** The price of the auction: it is defined in every round, falls from round to round
    and stays between the reserve price and its multiple. *)
Theorem auction_price ra r r' : sound (ra_Params ra) -> inRounds (ra_Params ra) r -> inRounds (ra_Params ra) r' -> r <= r' ->
  exists price price', CurrentPrice ra r = Ok price /\ CurrentPrice ra r' = Ok price' /\
    ap_LastPrice (ra_Params ra) <= price' <= price /\ price <= ap_LastPrice (ra_Params ra) * ap_MaxPriceMultiple (ra_Params ra).
Proof.
  intros Hs Hr Hr' Hle. eexists _, _. split_and!; [by apply CurrentPrice_run..| | |].
  - by apply price_bounds.
  - by apply price_mono.
  - by apply price_bounds.
Qed.

(** ** The tracker *)

Section Tracker.
Variable ac : AuctionCrypto.
Definition startsOnly (ids : Z -> Prop) (msg : NoteField) : Prop := match msg with NoteParams sp => ids (ap_AuctionID (sp_Params sp)) | _ => True end.

(** The settled auction [id] stays as it is. *)
Definition frozen (id : Z) (ra : RunningAuction) (am : Tracker) : Prop := tk_Auctions am !! id = Some ra /\ is_Some (ra_Outcome ra).
Lemma frozen_settled id ra am : frozen id ra am -> auctionState am id = Settled.
Proof using Type. intros [E [out Eo]]. unfold auctionState. by rewrite E, Eo. Qed.
Lemma onAuction_frozen {A} id ra id' (f : M RunningAuction A) am : frozen id ra am -> id' <> id -> frozen id ra (onAuction id' f am).2.
Proof using Type.
  intros [E Ho] Hne. unfold onAuction. destruct (tk_Auctions am !! id') as [ra'|]; [|done]. destruct (f ra') as [r ra'']. split; [|done]. cbn. by rewrite lookup_insert_ne.
Qed.
Lemma dropErr_snd {A} (m : M Tracker A) am : (dropErr m am).2 = (m am).2.
Proof using Type. unfold dropErr. by destruct (m am) as [[]]. Qed.
Lemma processOne_frozen id ra from rnd msg am : frozen id ra am -> startsOnly (λ i, i <> id) msg -> frozen id ra (processOne ac from rnd msg am).2.
Proof using Type.
  intros Hf Hm. pose proof (frozen_settled _ _ _ Hf) as Hst. unfold processOne. erewrite bind_run by done. destruct msg as [sd|sb|ss|sp|]; [| | | |done].
  - destruct (tk_Auctions am !! _) as [ra0|]; [|done]. destruct (negb _); [done|]. rewrite dropErr_snd. unfold tk_placeDeposit. erewrite bind_run by done.
    case_bool_decide as Ha; [|done]. cbn [negb]. apply onAuction_frozen; [done|]. intros E. rewrite E, Hst in Ha. done.
  - destruct (tk_Auctions am !! _) as [ra0|]; [|done]. destruct (negb _); [done|]. rewrite dropErr_snd. unfold tk_placeBid. erewrite bind_run by done.
    case_bool_decide as Ha; [|done]. cbn [negb]. apply onAuction_frozen; [done|]. intros E. rewrite E, Hst in Ha. done.
  - set (id' := stl_AuctionID (ss_Settlement ss)). destruct (bool_decide (auctionState am id' = Uninitialized) || _) eqn:Eg; [done|]. destruct (negb _); [done|].
    destruct (tk_Auctions am !! id') as [ra0|]; [|done]. destruct (negb _); [done|]. rewrite dropErr_snd. assert (id' <> id) as Hne.
    { intros E. apply orb_false_iff in Eg as [_ Eg]. rewrite E, Hst in Eg. by rewrite bool_decide_true in Eg. }
    unfold placeSettlement. pose proof (onAuction_frozen id ra id' (Settle (stl_Canceled (ss_Settlement ss))) am Hf Hne) as Hon. fold id'. unfold mbind, M_bind.
    destruct (onAuction id' _ am) as [[out|e|m] am']; [|done..]. by destruct (negb _).
  - cbn in Hm. destruct (negb _); [done|]. destruct (negb _); [done|]. rewrite dropErr_snd. unfold placeParams. erewrite bind_run by done. destruct (bool_decide _); [done|].
    destruct (Init _) as [au|e|m]; [|done..]. destruct Hf as [E Ho]. erewrite bind_run by done. split; [|done]. cbn. rewrite lookup_insert_ne by done. done.
Qed.

(** Settlement is final: whatever a transaction's note holds, valid or not, it leaves a
    settled auction as it is, unless it starts an auction with the same identifier. *)
Theorem settled_is_final id ra am from msgs rnd : tk_Auctions am !! id = Some ra -> is_Some (ra_Outcome ra) -> Forall (startsOnly (λ i, i <> id)) msgs ->
  tk_Auctions (ProcessMessage ac from msgs rnd am).2 !! id = Some ra.
Proof using Type.
  intros E Ho Hm. unfold ProcessMessage. destruct from as [from|e|m]; [|done..]. erewrite bind_run by done. assert (frozen id ra am) as Hf by done. clear E Ho. revert am Hf.
  induction Hm as [|msg msgs Hm _ IH]; intros am Hf; [apply Hf|]. cbn [forM]. pose proof (processOne_frozen id ra from rnd msg am Hf Hm) as Hf1. unfold mbind, M_bind.
  destruct (processOne ac from rnd msg am) as [[u|e|m] am']; [by apply IH|apply Hf1..].
Qed.
End Tracker.

(** ** Witnesses *)

(** 1000 units, from a price of 50 down to 5 in 10 chunks of 2 rounds. *)
Definition toyParams : Params := mkParams [1] 7 [2] [3] 5 90 100 2 10 10 1000 10.
Lemma toyParams_sound : sound toyParams.
Proof. split; [|done|unfold maxUint64; cbn; lia|unfold maxUint64; cbn; lia]. repeat constructor; unfold u64; cbn; lia. Qed.
Definition toyDeposit : Deposit := mkDeposit [4] zero32 2000 [1] 7 1.
Definition toyBid : Bid := mkBid [4] 1500 40 1 [1] 7.
Definition toyAuction0 : RunningAuction := mkRunningAuction toyParams ∅ ∅ ∅ 0 None.
Definition toyAuction1 : RunningAuction := (PlaceDeposit toyDeposit 95 toyAuction0).2.
Definition toyAuction : RunningAuction := (PlaceBid toyBid 105 toyAuction1).2.
Lemma toyAuction_reachable : au_reachable toyParams [toyDeposit] toyAuction.
Proof.
  exists toyAuction0. split; [reflexivity|]. apply (rtc_l _ _ ([toyDeposit], toyAuction1)).
  - apply (step_deposit [] toyAuction0 toyAuction1 toyDeposit 95); [unfold u64; cbn; lia|vm_compute; reflexivity].
  - apply rtc_once. apply (step_bid [toyDeposit] toyAuction1 toyAuction toyBid 105 (Ok tt)); [unfold u64; cbn; lia..|vm_compute; reflexivity].
Qed.
Lemma auction_conserves_witness : (forall k, 0 <= Balance toyAuction k /\ Balance toyAuction k + sumZ (ofBidder k) (allBids (ra_Bids toyAuction)) = sumZ (depositOf k) [toyDeposit]) /\
  ra_TotalCurrency toyAuction = sumZ rb_Currency (allBids (ra_Bids toyAuction)) /\ ra_TotalCurrency toyAuction <= maxUint64.
Proof. apply (auction_conserves toyParams [toyDeposit] toyAuction toyParams_sound toyAuction_reachable). Defined.
Lemma auction_settles_witness : exists out ra', Settle false toyAuction = (Ok out, ra') /\ ra_Outcome ra' = Some out /\ sumZ bo_AlgosWon (out_Outcomes out) <= ap_NumAlgos toyParams /\
    (exists r, inRounds toyParams r /\ out_Price out = priceOf toyParams r /\ (out_Cleared out = true -> ap_NumAlgos toyParams * out_Price out <= sumZ rb_Currency (bidsUpTo toyAuction r))) /\
    forall o, o ∈ out_Outcomes out -> ap_MinBidAlgos toyParams <= bo_AlgosWon o /\
      exists r b, b ∈ bidsIn toyAuction r /\ rb_Bidder b = bo_BidderKey o /\ rb_BidID b = bo_BidID o /\ bo_AlgosWon o * out_Price out <= rb_Currency b /\ out_Price out <= priceOf toyParams r.
Proof. apply (auction_settles toyParams [toyDeposit] toyAuction toyParams_sound); [cbn; lia|exact toyAuction_reachable|vm_compute; reflexivity]. Defined.
Lemma auction_price_witness : exists price price', CurrentPrice toyAuction0 103 = Ok price /\ CurrentPrice toyAuction0 110 = Ok price' /\ 5 <= price' <= price /\ price <= 50.
Proof. apply (auction_price toyAuction0 103 110 toyParams_sound); unfold inRounds, lastRoundOf; cbn; lia. Defined.

(** With a reserve price of zero, which [validate] accepts, a bid makes settlement
    divide by zero. *)
Definition freeParams : Params := mkParams [1] 7 [2] [3] 0 90 100 2 10 10 1000 10.
Definition freeBid : M RunningAuction unit := _ ← PlaceDeposit toyDeposit 95; PlaceBid (mkBid [4] 1500 0 1 [1] 7) 100.
Lemma settle_divides_by_zero : let ra := mkRunningAuction freeParams ∅ ∅ ∅ 0 None in
  Init freeParams = Ok ra /\ (freeBid ra).1 = Ok tt /\ (Settle false (freeBid ra).2).1 = Panic "integer divide by zero".
Proof. split_and!; vm_compute; reflexivity. Qed.

(** A late bid for an auction that was cancelled. *)
Definition toyCrypto : AuctionCrypto := mkAuctionCrypto (λ _ _ _, true) (λ _ _ _, true) (λ _ _ _, true) (λ _ _ _, true) (λ _, []).
Definition toySettled : RunningAuction := (Settle true toyAuction).2.
Definition toyTracker : Tracker := mkTracker {[7 := toySettled]} [1] 104 7.
Lemma settled_is_final_witness : tk_Auctions (ProcessMessage toyCrypto (Ok [4]) [NoteBid (mkSignedBid (mkBid [4] 400 40 2 [1] 7) [])] 106 toyTracker).2 !! 7 = Some toySettled.
Proof. apply (settled_is_final toyCrypto 7 toySettled toyTracker); [vm_compute; reflexivity|vm_compute; by eexists|by repeat constructor]. Defined.
