(* ===== verification/BlockDB.v ===== *)
(** The table of blocks (src/ledger/blockdb.go) and the transactions it is used in
    (src/util/db/dbutil.go).

    The database is the table [blocks], or nothing before the table is created; a
    function of a transaction is an action of the state monad on it.  Columns hold
    encoded values: the codec is a record of functions, with its round trip as laws.
    SQLite stores signed 64-bit integers, and the driver refuses an unsigned argument
    of [2^63] or more. *)

From S2P Require Import Prelude Config Basics Transactions Bookkeeping Agreement.

(** What is left of the auxiliary data of an evaluation: an empty struct. *)
Record evalAux := mkEvalAux {}.

Record blockEntry := mkBlockEntry {
  be_block : Block;
  be_cert : Certificate;
  be_aux : evalAux
}.
Definition blk_Round (b : Block) : Round := bh_Round (blk_BlockHeader b).
Definition be_Round (e : blockEntry) : Round := blk_Round (be_block e).

(** The columns of a row but its key. *)
Record blockRow (Blob : Type) := mkBlockRow {
  row_proto : string;
  row_hdrdata : Blob;
  row_blkdata : Blob;
  row_certdata : Blob;
  row_auxdata : Blob
}.
Arguments mkBlockRow {Blob}. Arguments row_proto {Blob}. Arguments row_hdrdata {Blob}. Arguments row_blkdata {Blob}.
Arguments row_certdata {Blob}. Arguments row_auxdata {Blob}.

(** [protocol.Encode] and [protocol.Decode] at the types that are stored. *)
Class Codec (Blob : Type) := {
  encHdr : BlockHeader -> Blob; decHdr : Blob -> result BlockHeader;
  encBlock : Block -> Blob; decBlock : Blob -> result Block;
  encCert : Certificate -> Blob; decCert : Blob -> result Certificate;
  encAux : evalAux -> Blob; decAux : Blob -> result evalAux
}.
Class CodecLaws (Blob : Type) `{!Codec Blob} := {
  decHdr_encHdr x : decHdr (encHdr x) = Ok x;
  decBlock_encBlock x : decBlock (encBlock x) = Ok x;
  decCert_encCert x : decCert (encCert x) = Ok x;
  decAux_encAux x : decAux (encAux x) = Ok x
}.

Section DB.
Context {Blob : Type} `{!Codec Blob}.
Definition blockDB : Type := option (gmap Z (blockRow Blob)).

(** ** Statements *)

Definition blocksTable : M blockDB (gmap Z (blockRow Blob)) := λ s,
  match s with Some t => (Ok t, s) | None => (Err (Errorf "no such table: blocks"), s) end.
Definition createTable : M blockDB unit := λ s, (Ok tt, Some (default ∅ s)).
Definition dropTable : M blockDB unit := λ _, (Ok tt, None).

(** An unsigned argument of a statement. *)
Definition sqlArg (r : Round) : M blockDB Z :=
  guardE (r <? 2 ^ 63) (Errorf "uint64 values with high bit set are not supported") ≫= λ _, mret r.

Definition maxRnd (t : gmap Z (blockRow Blob)) : option Z :=
  foldr (λ k m, Some (default k (Z.max k <$> m))) None (elements (dom t)).
Definition minRnd (t : gmap Z (blockRow Blob)) : option Z :=
  foldr (λ k m, Some (default k (Z.min k <$> m))) None (elements (dom t)).

Definition selectRow (rnd : Round) : M blockDB (blockRow Blob) :=
  k ← sqlArg rnd;
  t ← blocksTable;
  match t !! k with Some row => mret row | None => throw (ErrNoEntry rnd 0 0) end.

(** ** blockdb.go *)

Definition blockNext : M blockDB Round :=
  t ← blocksTable; mret (match maxRnd t with Some max => wrap64 (max + 1) | None => 0 end).

Definition blockLatest : M blockDB Round :=
  t ← blocksTable;
  match maxRnd t with Some max => mret (wrap64 max) | None => throw (Errorf "no blocks present") end.

Definition blockEarliest : M blockDB Round :=
  t ← blocksTable;
  match minRnd t with Some min => mret (wrap64 min) | None => throw (Errorf "no blocks present") end.

Definition rowOf (blk : Block) (cert : Certificate) (aux : evalAux) : blockRow Blob :=
  mkBlockRow (bh_CurrentProtocol (blk_BlockHeader blk)) (encHdr (blk_BlockHeader blk)) (encBlock blk) (encCert cert) (encAux aux).

Definition blockPut (blk : Block) (cert : Certificate) (aux : evalAux) : M blockDB unit :=
  t ← blocksTable;
  _ ← match maxRnd t with
      | Some max => guardE (blk_Round blk =? wrap64 (max + 1)) (Errorf "inserting block but expected the next")
      | None => guardE (blk_Round blk =? 0) (Errorf "inserting block but expected 0")
      end;
  k ← sqlArg (blk_Round blk);
  _ ← guardE (bool_decide (t !! k = None)) (SqliteError ErrConstraint);
  put (Some (<[k := rowOf blk cert aux]> t)).

(** The zero [agreement.Certificate]. *)
Definition zeroCert : Certificate := mkUnauthenticatedBundle 0 0 0 bottom [] [].

(** The initial blocks go in one by one; a block that is already there is skipped. *)
Fixpoint putInitBlocks (initBlocks : list Block) : M blockDB unit :=
  match initBlocks with
  | [] => mret tt
  | blk :: rest => λ s,
    match blockPut blk zeroCert mkEvalAux s with
    | (Ok _, s') => putInitBlocks rest s'
    | (Err (SqliteError ErrConstraint), s') => putInitBlocks rest s'
    | other => other
    end
  end.

Definition blockInit (initBlocks : list Block) : M blockDB unit :=
  _ ← createTable;
  next ← blockNext;
  if next =? 0 then putInitBlocks initBlocks else mret tt.

Definition blockResetDB : M blockDB unit := dropTable.

Definition blockGet (rnd : Round) : M blockDB Block :=
  row ← selectRow rnd; lift (decBlock (row_blkdata row)).
Definition blockGetHdr (rnd : Round) : M blockDB BlockHeader :=
  row ← selectRow rnd; lift (decHdr (row_hdrdata row)).
Definition blockGetEncodedCert (rnd : Round) : M blockDB (Blob * Blob) :=
  row ← selectRow rnd; mret (row_blkdata row, row_certdata row).
Definition blockGetCert (rnd : Round) : M blockDB (Block * Certificate) :=
  bufs ← blockGetEncodedCert rnd;
  blk ← lift (decBlock bufs.1);
  cert ← lift (decCert bufs.2);
  mret (blk, cert).
Definition blockGetAux (rnd : Round) : M blockDB (Block * evalAux) :=
  row ← selectRow rnd;
  blk ← lift (decBlock (row_blkdata row));
  aux ← lift (decAux (row_auxdata row));
  mret (blk, aux).

Definition blockForgetBefore (rnd : Round) : M blockDB unit :=
  next ← blockNext;
  _ ← guardE (rnd <? next) (Errorf "forgetting too much");
  k ← sqlArg rnd;
  t ← blocksTable;
  put (Some (filter (λ p, ¬ p.1 < k) t)).

(** ledger.go, [initBlocksDB]. *)
Definition initBlocksDB (initBlocks : list Block) (isArchival : bool) : M blockDB unit :=
  _ ← blockInit initBlocks;
  if isArchival then
    earliest ← blockEarliest;
    if negb (earliest =? 0) then
      _ ← blockResetDB;
      blockInit initBlocks
    else mret tt
  else mret tt.
End DB.
Arguments blockDB : clear implicits.

(** ** Transactions *)

Definition dbretry (e : error) : bool :=
  match e with SqliteError ErrLocked | SqliteError ErrBusy => true | _ => false end.

(** What the database does to one attempt: it fails to begin, to execute a statement or
    to commit with the error, or it serves the whole transaction. *)
Definition weather : Type := nat -> option error.
Definition calm : weather := λ _, None.

(** [fn] under [recover]: a panic becomes an error. *)
Definition guardedFn {D A} (fn : M D A) (db : D) : result A * D :=
  match fn db with (Panic m, db') => (Err (Errorf m), db') | r => r end.

(** The loop of [Atomic] from its [i]th turn, with [n] turns left before it gives up. *)
Fixpoint atomicLoop {D A} (n : nat) (i : nat) (env : weather) (fn : M D A) (db : D) (last : error) : result A * D :=
  match n with
  | O => (Err last, db)
  | S n =>
    match env i with
    | Some e => if dbretry e then atomicLoop n (S i) env fn db e else (Err e, db)
    | None =>
      match guardedFn fn db with
      | (Ok a, db') => (Ok a, db')
      | (Err e, _) => if dbretry e then atomicLoop n (S i) env fn db e else (Err e, db)
      | (Panic m, _) => (Panic m, db)
      end
    end
  end.

Definition Atomic {D A} (env : weather) (fn : M D A) (db : D) : result A * D :=
  atomicLoop 1000 0 env fn db (Errorf "").

(** ** Lemmas *)

(** A transaction commits what its function did, or leaves the database alone. *)
Lemma atomicLoop_cases {D A} n i env (fn : M D A) db last :
  (exists a db', fn db = (Ok a, db') /\ atomicLoop n i env fn db last = (Ok a, db')) \/
  (exists e, atomicLoop n i env fn db last = (Err e, db)).
Proof.
  revert i last. induction n as [|n IH]; intros i last; cbn; [right; eauto|].
  destruct (env i) as [e|]; [destruct (dbretry e); [apply IH|right; eauto]|].
  unfold guardedFn. destruct (fn db) as [[a|e|m] db'] eqn:E; [left; eauto| |].
  - destruct (dbretry e); [apply IH|right; eauto].
  - cbn. right. eauto.
Qed.
Lemma Atomic_cases {D A} env (fn : M D A) db :
  (exists a db', fn db = (Ok a, db') /\ Atomic env fn db = (Ok a, db')) \/ (exists e, Atomic env fn db = (Err e, db)).
Proof. apply atomicLoop_cases. Qed.
Lemma Atomic_Ok {D A} env (fn : M D A) db a db' : Atomic env fn db = (Ok a, db') -> fn db = (Ok a, db').
Proof. intros E. destruct (Atomic_cases env fn db) as [(? & ? & ? & E')|(? & E')]; congruence. Qed.
(** In calm weather the first attempt decides, unless the function asks for a retry. *)
Lemma Atomic_calm_Ok {D A} (fn : M D A) db a db' : fn db = (Ok a, db') -> Atomic calm fn db = (Ok a, db').
Proof. intros E. unfold Atomic. change 1000%nat with (S 999). cbn [atomicLoop calm]. unfold guardedFn. by rewrite E. Qed.
Lemma Atomic_calm_Err {D A} (fn : M D A) db e db' : fn db = (Err e, db') -> dbretry e = false -> Atomic calm fn db = (Err e, db).
Proof.
  intros E Hr. unfold Atomic. change 1000%nat with (S 999). cbn [atomicLoop calm]. unfold guardedFn. rewrite E. by rewrite Hr.
Qed.
#[global] Opaque Atomic.
