(* ===== verification/BlockQueue.v ===== *)
(** The queue of blocks on their way to the database (src/ledger/blockqueue.go).

    A method that takes the lock, looks, unlocks and then reads the database is a
    function of the queue it saw and of the database it read, which may be a later one.
    The goroutine [syncer] is a program counter with one definition per stretch of code
    between two releases of the lock: other goroutines run between them. *)

From S2P Require Import Prelude Config Basics Transactions Bookkeeping Agreement BlockDB.

Record blockQueue := mkBlockQueue {
  bq_lastCommitted : Round;
  bq_q : list blockEntry;
  bq_running : bool
}.
#[export] Instance blockQueue_eta : Eta blockQueue := λ r, mkBlockQueue (bq_lastCommitted r) (bq_q r) (bq_running r).

Definition bq_latest (bq : blockQueue) : Round := wrap64 (bq_lastCommitted bq + wrap64 (zlen (bq_q bq))).
Definition bq_latestCommitted (bq : blockQueue) : Round := bq_lastCommitted bq.
Definition bq_close (bq : blockQueue) : blockQueue := if bq_running bq then bq <| bq_running := false |> else bq.
(** [waitCommit r] returns when this holds; it waits before. *)
Definition waitCommit_done (bq : blockQueue) (r : Round) : bool := negb (bq_lastCommitted bq <? r).

(** The check for a fork in the first branch writes to the log and nothing else. *)
Definition putBlock (blk : Block) (cert : Certificate) (aux : evalAux) : M blockQueue unit := λ bq,
  let nextRound := wrap64 (wrap64 (bq_lastCommitted bq + wrap64 (zlen (bq_q bq))) + 1) in
  if blk_Round blk <? nextRound then (Err (BlockInLedgerError (blk_Round blk) nextRound), bq)
  else if negb (blk_Round blk =? nextRound) then (Err (Errorf "bqPutBlock: got another block than expected"), bq)
  else (Ok tt, bq <| bq_q ::= λ q, q ++ [mkBlockEntry blk cert aux] |>).

(** The entry when it is still in the queue, with the rounds for error messages. *)
Definition checkEntry (r : Round) (bq : blockQueue) : result (option blockEntry * Round * Round) :=
  let lastCommitted := bq_lastCommitted bq in
  let latest := wrap64 (bq_lastCommitted bq + wrap64 (zlen (bq_q bq))) in
  if latest <? r then Err (ErrNoEntry r latest lastCommitted)
  else if r <=? bq_lastCommitted bq then Ok (None, lastCommitted, latest)
  else match bq_q bq !! Z.to_nat (wrap64 (wrap64 (r - bq_lastCommitted bq) - 1)) with
       | Some e => Ok (Some e, lastCommitted, latest)
       | None => Panic "index out of range"
       end.

Definition updateErrNoEntry (e : error) (lastCommitted latest : Round) : error :=
  match e with ErrNoEntry r _ _ => ErrNoEntry r latest lastCommitted | _ => e end.

Section Queue.
Context {Blob : Type} `{!Codec Blob}.

(** The common shape of the readers: [ofEntry] of an entry in the queue, or [fromDB]. *)
Definition reader {A} (ofEntry : blockEntry -> A) (fromDB : Round -> M (blockDB Blob) A)
    (r : Round) (bq : blockQueue) (env : weather) (db : blockDB Blob) : result A :=
  match checkEntry r bq with
  | Panic m => Panic m
  | Err e => Err e
  | Ok (Some e, _, _) => Ok (ofEntry e)
  | Ok (None, lastCommitted, latest) =>
    match (Atomic env (fromDB r) db).1 with
    | Err e => Err (updateErrNoEntry e lastCommitted latest)
    | other => other
    end
  end.
Definition getBlock := reader be_block blockGet.
Definition getBlockHdr := reader (λ e, blk_BlockHeader (be_block e)) blockGetHdr.
Definition getEncodedBlockCert := reader (λ e, (encBlock (be_block e), encCert (be_cert e))) blockGetEncodedCert.
Definition getBlockCert := reader (λ e, (be_block e, be_cert e)) blockGetCert.
Definition getBlockAux := reader (λ e, (be_block e, be_aux e)) blockGetAux.

Definition bqInit (env : weather) (db : blockDB Blob) : result blockQueue :=
  lastCommitted ← (Atomic env blockLatest db).1;
  Ok (mkBlockQueue lastCommitted [] true).

(** ** The syncer *)

Inductive syncerPC :=
| AtLoop                                             (* at the top of the loop, the lock held or waiting *)
| Flushing (workQ : list blockEntry)                 (* about to write [workQ], unlocked *)
| Flushed (workQ : list blockEntry) (r : result unit) (* about to lock after the write *)
| Notifying (committed : Round)                      (* about to call notifyCommit *)
| Forgetting (minToSave : Round)                     (* about to delete old blocks *)
| Exited.

(** The inner loop: wait while running with an empty queue. *)
Definition syncer_wake (bq : blockQueue) : syncerPC :=
  if bq_running bq && bool_decide (bq_q bq = []) then AtLoop
  else if negb (bq_running bq) then Exited
  else Flushing (bq_q bq).

Definition putEntries (workQ : list blockEntry) : M (blockDB Blob) unit :=
  forM (λ e, blockPut (be_block e) (be_cert e) (be_aux e)) workQ.
Definition syncer_flush (env : weather) (workQ : list blockEntry) (db : blockDB Blob) : syncerPC * blockDB Blob :=
  let '(r, db') := Atomic env (putEntries workQ) db in (Flushed workQ r, db').

Definition syncer_flushed (workQ : list blockEntry) (r : result unit) (bq : blockQueue) : result (syncerPC * blockQueue) :=
  match r with
  | Ok _ =>
    let lastCommitted := wrap64 (bq_lastCommitted bq + wrap64 (zlen workQ)) in
    if (length (bq_q bq) <? length workQ)%nat then Panic "slice bounds out of range"
    else
      let bq' := bq <| bq_lastCommitted := lastCommitted |> <| bq_q ::= drop (length workQ) |> in
      match last workQ with
      | Some e => if negb (be_Round e =? lastCommitted) then Panic "blockQueue.syncer: lastCommitted lastWritten workQ"
                  else Ok (Notifying lastCommitted, bq')
      | None => Ok (Notifying lastCommitted, bq')
      end
  | _ => Ok (AtLoop, bq)
  end.

(** A failure to delete is logged. *)
Definition syncer_forget (env : weather) (minToSave : Round) (db : blockDB Blob) : syncerPC * blockDB Blob :=
  (AtLoop, (Atomic env (blockForgetBefore minToSave) db).2).
End Queue.
