(* ===== verification/Trackers.v ===== *)
(** The trackers of the ledger: the interface and the registry (src/ledger/tracker.go),
    the bulletin of committed rounds (bulletin.go), the notifier of block listeners
    (notifier.go) and the tracker of timestamps (time.go).

    A registered tracker is a pointer to a field of the ledger: its operations act on the
    state [S] of all trackers.  [onField] lifts the operations on one field. *)

From S2P Require Import Prelude Config Basics Transactions Bookkeeping Cow Agreement BlockDB.

(** What a tracker may ask of the ledger.  [trackerEvalVerified] reads the trackers that
    are being loaded: it is a function of them, written out where it is called
    ([AcctRestart.trackerEvalVerified]). *)
Record ledgerForTracker := mkLedgerForTracker {
  lf_Latest : Round;
  lf_Block : Round -> result Block;
  lf_BlockHdr : Round -> result BlockHeader;
  lf_blockAux : Round -> result (Block * evalAux)
}.

(** [committedUpTo] has the clock as an argument. *)
Record ledgerTracker (S : Type) := mkLedgerTracker {
  lt_loadFromDisk : ledgerForTracker -> S -> result S;
  lt_newBlock : Block -> StateDelta -> S -> result S;
  lt_committedUpTo : Z -> Round -> S -> result (Round * S)
}.
Arguments mkLedgerTracker {S}. Arguments lt_loadFromDisk {S}. Arguments lt_newBlock {S}. Arguments lt_committedUpTo {S}.

Definition onField {S T} (g : S -> T) (u : T -> S -> S) (lt : ledgerTracker T) : ledgerTracker S := mkLedgerTracker
  (λ l s, t ← lt_loadFromDisk lt l (g s); Ok (u t s))
  (λ blk delta s, t ← lt_newBlock lt blk delta (g s); Ok (u t s))
  (λ now rnd s, r ← lt_committedUpTo lt now rnd (g s); Ok (r.1, u r.2 s)).

(** ** The registry *)

Module Registry.
Section Registry.
Context {S : Type}.
Definition trackerRegistry : Type := list (ledgerTracker S).

Definition register (lt : ledgerTracker S) (tr : trackerRegistry) : trackerRegistry := tr ++ [lt].

Fixpoint loadFromDisk (tr : trackerRegistry) (l : ledgerForTracker) (s : S) : result S :=
  match tr with
  | [] => Ok s
  | lt :: tr => s ← lt_loadFromDisk lt l s; loadFromDisk tr l s
  end.

Fixpoint newBlock (tr : trackerRegistry) (blk : Block) (delta : StateDelta) (s : S) : result S :=
  match tr with
  | [] => Ok s
  | lt :: tr => s ← lt_newBlock lt blk delta s; newBlock tr blk delta s
  end.

(** The loop over the trackers, [minBlock] so far. *)
Fixpoint committedLoop (tr : trackerRegistry) (now : Z) (rnd minBlock : Round) (s : S) : result (Round * S) :=
  match tr with
  | [] => Ok (minBlock, s)
  | lt :: tr =>
    r ← lt_committedUpTo lt now rnd s;
    committedLoop tr now rnd (if r.1 <? minBlock then r.1 else minBlock) r.2
  end.
Definition committedUpTo (tr : trackerRegistry) (now : Z) (rnd : Round) (s : S) : result (Round * S) :=
  committedLoop tr now rnd rnd s.
End Registry.
Arguments trackerRegistry : clear implicits.
End Registry.

(** ** The bulletin

    A channel is a number; the numbers below [bl_chans] have been made, those in
    [bl_closed] are closed.  Receiving from a channel returns when it is closed. *)

Record notifier := mkNotifier { nf_signal : nat; nf_notified : bool }.

Record bulletin := mkBulletin {
  bl_pendingNotificationRequests : gmap Round notifier;
  bl_latestRound : Round;
  bl_chans : nat;
  bl_closed : gset nat
}.
#[export] Instance bulletin_eta : Eta bulletin := λ r,
  mkBulletin (bl_pendingNotificationRequests r) (bl_latestRound r) (bl_chans r) (bl_closed r).

Definition makeChan : M bulletin nat := λ b, (Ok (bl_chans b), b <| bl_chans ::= λ n, (n + 1)%nat |>).
Definition closeChan (c : nat) : M bulletin unit := λ b,
  if bool_decide (c ∈ bl_closed b) then (Panic "close of closed channel", b)
  else (Ok tt, b <| bl_closed ::= λ s, {[c]} ∪ s |>).
Definition makeNotifier : M bulletin notifier := c ← makeChan; mret (mkNotifier c false).
(** The map holds notifiers by value: the flag is set in the caller's copy. *)
Definition notify (n : notifier) : M bulletin notifier :=
  if nf_notified n then mret n
  else _ ← closeChan (nf_signal n); mret (mkNotifier (nf_signal n) true).

Definition makeBulletin : bulletin := mkBulletin ∅ 0 0 ∅.

Definition Wait (round : Round) : M bulletin nat := λ b,
  if round <=? bl_latestRound b then (c ← makeChan; _ ← closeChan c; mret c) b
  else match bl_pendingNotificationRequests b !! round with
       | Some signal => (Ok (nf_signal signal), b)
       | None =>
         (signal ← makeNotifier;
          b ← get;
          _ ← put (b <| bl_pendingNotificationRequests ::= <[round := signal]> |>);
          mret (nf_signal signal)) b
       end.

Definition bulletin_loadFromDisk (l : ledgerForTracker) (b : bulletin) : bulletin :=
  b <| bl_pendingNotificationRequests := ∅ |> <| bl_latestRound := lf_Latest l |>.

Definition bulletin_release (rnd : Round) (p : Round * notifier) : M bulletin unit :=
  if rnd <? p.1 then mret tt
  else λ b, (notify p.2 ≫= λ _, mret tt) (b <| bl_pendingNotificationRequests ::= delete p.1 |>).
Definition bulletin_committedUpTo (rnd : Round) (b : bulletin) : result (Round * bulletin) :=
  match forM (bulletin_release rnd) (map_to_list (bl_pendingNotificationRequests b)) b with
  | (Ok _, b') => Ok (rnd, b' <| bl_latestRound := rnd |>)
  | (Err e, _) => Err e
  | (Panic m, _) => Panic m
  end.

Definition bulletinTracker : ledgerTracker bulletin := mkLedgerTracker
  (λ l b, Ok (bulletin_loadFromDisk l b)) (λ _ _ b, Ok b) (λ _ rnd b, bulletin_committedUpTo rnd b).

(** ** The notifier of block listeners

    The listeners are of any type [L]; the worker hands every pending block to every
    listener.  [worker_take] is the stretch under the lock, [worker_calls] the calls made
    after it. *)

Section Notifier.
Context {L : Type}.
Definition blockDeltaPair : Type := Block * StateDelta.
Record blockNotifier := mkBlockNotifier {
  bn_listeners : list L;
  bn_pendingBlocks : list blockDeltaPair;
  bn_running : bool
}.
#[export] Instance blockNotifier_eta : Eta blockNotifier := λ r, mkBlockNotifier (bn_listeners r) (bn_pendingBlocks r) (bn_running r).

Definition bn_register (listeners : list L) (bn : blockNotifier) : blockNotifier := bn <| bn_listeners ::= λ l, l ++ listeners |>.
Definition bn_newBlock (blk : Block) (delta : StateDelta) (bn : blockNotifier) : blockNotifier :=
  bn <| bn_pendingBlocks ::= λ l, l ++ [(blk, delta)] |>.
Definition bn_close (bn : blockNotifier) : blockNotifier := if bn_running bn then bn <| bn_running := false |> else bn.
Definition bn_loadFromDisk (bn : blockNotifier) : blockNotifier := bn <| bn_running := true |>.

(** What the worker does when it has the lock: wait, exit, or take the pending blocks. *)
Inductive workerTake := WorkerWaits | WorkerExits | WorkerTakes (blocks : list blockDeltaPair) (listeners : list L).
Definition worker_take (bn : blockNotifier) : workerTake * blockNotifier :=
  if bn_running bn && bool_decide (length (bn_pendingBlocks bn) = 0%nat) then (WorkerWaits, bn)
  else if negb (bn_running bn) then (WorkerExits, bn)
  else (WorkerTakes (bn_pendingBlocks bn) (bn_listeners bn), bn <| bn_pendingBlocks := [] |>).
Definition worker_calls (blocks : list blockDeltaPair) (listeners : list L) : list (L * blockDeltaPair) :=
  b ← blocks; (λ l, (l, b)) <$> listeners.

Definition notifierTracker : ledgerTracker blockNotifier := mkLedgerTracker
  (λ _ bn, Ok (bn_loadFromDisk bn)) (λ blk delta bn, Ok (bn_newBlock blk delta bn)) (λ _ rnd bn, Ok (rnd, bn)).
End Notifier.
Arguments blockNotifier : clear implicits.

(** ** Timestamps *)

Record timeTracker := mkTimeTracker { tm_timestamps : gmap Round Z }.

Definition time_loadFromDisk (l : ledgerForTracker) (tt : timeTracker) : result timeTracker :=
  blkhdr ← lf_BlockHdr l (lf_Latest l);
  Ok (mkTimeTracker {[lf_Latest l := bh_TimeStamp blkhdr]}).
Definition time_newBlock (blk : Block) (delta : StateDelta) (tt : timeTracker) : timeTracker :=
  mkTimeTracker (<[blk_Round blk := bh_TimeStamp (sd_hdr delta)]> (tm_timestamps tt)).
Definition time_committedUpTo (committedRnd : Round) (tt : timeTracker) : Round * timeTracker :=
  (committedRnd, mkTimeTracker (filter (λ p, ¬ p.1 < committedRnd) (tm_timestamps tt))).
Definition timestamp (r : Round) (tt : timeTracker) : result Z :=
  match tm_timestamps tt !! r with Some ts => Ok ts | None => Err (Errorf "no record of timestamp for round") end.

Definition timeTrackerOps : ledgerTracker timeTracker := mkLedgerTracker
  time_loadFromDisk (λ blk delta tt, Ok (time_newBlock blk delta tt)) (λ _ rnd tt, Ok (time_committedUpTo rnd tt)).
