(* ===== verification/TrackersSpec.v ===== *)
(** What the ledger may rely on when it calls its trackers in order, as a class of laws
    for a registry; the trackers of Trackers.v satisfy it.  The bulletin closes exactly
    the channels of rounds that are on disk, and the notifier hands every block to every
    listener once and in order. *)

From S2P Require Import Prelude Config Basics Transactions Bookkeeping Cow Agreement BlockDB Trackers.

(** ** Laws

    [I n s]: the state [s] of trackers that have seen the blocks up to round [n]. *)

Class TrackersOK {S} (validated : Block -> StateDelta -> Prop) (tr : Registry.trackerRegistry S) (I : Z -> S -> Prop) : Prop := {
  tk_load l s s' : Registry.loadFromDisk tr l s = Ok s' -> I (lf_Latest l) s';
  tk_newBlock n blk delta s s' : validated blk delta -> I n s -> blk_Round blk = n + 1 ->
    Registry.newBlock tr blk delta s = Ok s' -> I (n + 1) s';
  tk_committed n now c m s : I n s -> 0 <= c <= n ->
    exists m' s', Registry.committedLoop tr now c m s = Ok (m', s') /\ I n s'
}.
Class TrackerOK {S} (validated : Block -> StateDelta -> Prop) (lt : ledgerTracker S) (I : Z -> S -> Prop) : Prop := {
  lt_load l s s' : lt_loadFromDisk lt l s = Ok s' -> I (lf_Latest l) s';
  lt_new n blk delta s s' : validated blk delta -> I n s -> blk_Round blk = n + 1 -> lt_newBlock lt blk delta s = Ok s' -> I (n + 1) s';
  lt_committed n now c s : I n s -> 0 <= c <= n -> exists m s', lt_committedUpTo lt now c s = Ok (m, s') /\ I n s'
}.

Section Composition.
Context (validated : Block -> StateDelta -> Prop).

#[export] Instance TrackersOK_nil {S} : TrackersOK validated ([] : Registry.trackerRegistry S) (λ _ _, True).
Proof. split; [done|done|]. cbn. eauto. Qed.

Definition firstField {S T} : ledgerTracker S -> ledgerTracker (S * T) := onField fst (λ s p, (s, p.2)).
Definition secondField {S T} : ledgerTracker T -> ledgerTracker (S * T) := onField snd (λ t p, (p.1, t)).

(** Operations on the second field leave the first alone. *)
Lemma load_second {S T} (tr : Registry.trackerRegistry T) l (s : S) t :
  Registry.loadFromDisk (secondField <$> tr) l (s, t) = (t ← Registry.loadFromDisk tr l t; Ok (s, t)).
Proof.
  revert t. induction tr as [|lt tr IH]; intros t; [done|]. cbn. destruct (lt_loadFromDisk lt l t); [|done|done]. cbn. apply IH.
Qed.
Lemma newBlock_second {S T} (tr : Registry.trackerRegistry T) blk delta (s : S) t :
  Registry.newBlock (secondField <$> tr) blk delta (s, t) = (t ← Registry.newBlock tr blk delta t; Ok (s, t)).
Proof.
  revert t. induction tr as [|lt tr IH]; intros t; [done|]. cbn. destruct (lt_newBlock lt blk delta t); [|done|done]. cbn. apply IH.
Qed.
Lemma committed_second {S T} (tr : Registry.trackerRegistry T) now c m (s : S) t :
  Registry.committedLoop (secondField <$> tr) now c m (s, t) = (r ← Registry.committedLoop tr now c m t; Ok (r.1, (s, r.2))).
Proof.
  revert m t. induction tr as [|lt tr IH]; intros m t; [done|]. cbn. destruct (lt_committedUpTo lt now c t) as [[m' t']| |]; [|done|done]. cbn. apply IH.
Qed.

(** A registry of lawful trackers is lawful. *)
#[export] Instance TrackersOK_cons {S T} lt (tr : Registry.trackerRegistry T) I1 I2 :
  TrackerOK validated lt I1 -> TrackersOK validated tr I2 ->
  TrackersOK validated (firstField lt :: (secondField <$> tr)) (λ n (p : S * T), I1 n p.1 /\ I2 n p.2).
Proof.
  intros H1 H2. split.
  - intros l [s t] [s' t'] E. cbn in E. inv_ok. rewrite load_second in *. inv_ok. split; cbn; [by eapply lt_load|by eapply tk_load].
  - intros n blk delta [s t] [s' t'] Hv [HI1 HI2] Hr E. cbn in E. inv_ok. rewrite newBlock_second in *. inv_ok.
    split; cbn; [by eapply lt_new|by eapply tk_newBlock].
  - intros n now c m [s t] [HI1 HI2] Hc. cbn in *. destruct (lt_committed n now c s HI1 Hc) as (m1 & s1 & -> & HI1'). cbn.
    rewrite committed_second. destruct (tk_committed n now c (if m1 <? m then m1 else m) t HI2 Hc) as (m2 & t2 & -> & HI2').
    cbn. eauto.
Qed.

(** ** Notifier and timestamps *)

#[export] Instance notifierOK {L} : TrackerOK validated (notifierTracker (L := L)) (λ _ _, True).
Proof. split; cbn; eauto. Qed.

(** The newest timestamp is always there. *)
#[export] Instance timeOK : TrackerOK validated timeTrackerOps (λ n tt, is_Some (tm_timestamps tt !! n)).
Proof.
  split; cbn.
  - intros l s s' E. unfold time_loadFromDisk in E. inv_ok. cbn. rewrite lookup_singleton_eq. eauto.
  - intros n blk delta s s' _ _ Hr E. inv_ok. cbn. rewrite Hr, lookup_insert_eq. eauto.
  - intros n now c s [ts Hts] Hc. eexists _, _. split; [done|]. cbn. exists ts. apply map_lookup_filter_Some. split; [done|cbn; lia].
Qed.
End Composition.

(** ** The bulletin *)

Record bulletin_inv (b : bulletin) : Prop := {
  bi_pending r n : bl_pendingNotificationRequests b !! r = Some n ->
    nf_notified n = false /\ (nf_signal n < bl_chans b)%nat /\ nf_signal n ∉ bl_closed b /\ bl_latestRound b < r;
  bi_inj r1 r2 n1 n2 : bl_pendingNotificationRequests b !! r1 = Some n1 -> bl_pendingNotificationRequests b !! r2 = Some n2 ->
    nf_signal n1 = nf_signal n2 -> r1 = r2
}.
Definition chans_ok (b : bulletin) : Prop := forall c, c ∈ bl_closed b -> (c < bl_chans b)%nat.

(** Releasing a list of requests closes the channels of those that are due. *)
Definition due (rnd : Round) (p : Round * notifier) : bool := p.1 <=? rnd.
Definition closes (rnd : Round) (l : list (Round * notifier)) : gset nat := list_to_set ((λ p, nf_signal p.2) <$> (filter (λ p, due rnd p = true) l)).

Lemma release_one rnd p b : nf_notified p.2 = false -> nf_signal p.2 ∉ bl_closed b ->
  bulletin_release rnd p b = (Ok tt, if due rnd p then b <| bl_pendingNotificationRequests ::= delete p.1 |> <| bl_closed ::= λ s, {[nf_signal p.2]} ∪ s |> else b).
Proof.
  intros Hf Hc. unfold bulletin_release, due. destruct (Z.ltb_spec rnd p.1).
  - by rewrite (proj2 (Z.leb_gt _ _)) by lia.
  - rewrite (proj2 (Z.leb_le _ _)) by lia. unfold notify, closeChan, mbind, M_bind. rewrite Hf. cbn. by rewrite bool_decide_eq_false_2 by done.
Qed.
Lemma release_spec rnd l b :
  (forall p, p ∈ l -> nf_notified p.2 = false /\ nf_signal p.2 ∉ bl_closed b) -> NoDup ((λ p, nf_signal p.2) <$> l) ->
  forM (bulletin_release rnd) l b = (Ok tt, b <| bl_pendingNotificationRequests ::= λ m, foldl (λ m p, if due rnd p then delete p.1 m else m) m l |>
                                              <| bl_closed ::= λ s, closes rnd l ∪ s |>).
Proof.
  revert b. induction l as [|p l IH]; intros b Hp Hnd.
  - cbn. unfold closes. cbn. destruct b. cbn. by rewrite union_empty_l_L.
  - apply NoDup_cons in Hnd as [Hn Hnd]. cbn [forM]. destruct (Hp p ltac:(set_solver)) as [Hf Hc]. run_by (release_one rnd p b Hf Hc).
    unfold closes. rewrite filter_cons. destruct (due rnd p) eqn:Ed; cbn.
    + rewrite IH; [| |done].
      * cbn. rewrite Ed. f_equal. f_equal. unfold closes. set_solver.
      * cbn. intros q Hq. destruct (Hp q ltac:(set_solver)) as [Hf' Hc']. split; [done|]. apply not_elem_of_union. split; [|done].
        apply not_elem_of_singleton. intros E. apply Hn. rewrite <- E. by apply (list_elem_of_fmap_2 (λ p, nf_signal p.2)).
    + rewrite IH by (done || set_solver). cbn. by rewrite Ed.
Qed.

Lemma foldl_delete_lookup (d : Round * notifier -> bool) l (m : gmap Round notifier) r n : foldl (λ m p, if d p then delete p.1 m else m) m l !! r = Some n <->
  m !! r = Some n /\ (forall p, p ∈ l -> p.1 = r -> d p = false).
Proof.
  revert m. induction l as [|p l IH]; intros m; cbn; [set_solver|]. rewrite IH. destruct (d p) eqn:E.
  - rewrite lookup_delete_Some. split.
    + intros [[Hne Hm] Hl]. split; [done|]. intros q [->|Hq]%elem_of_cons; [done|by apply Hl].
    + intros [Hm Hl]. split; [|set_solver]. split; [|done]. intros Er. rewrite (Hl p) in E by set_solver. done.
  - split; [|set_solver]. intros [Hm Hl]. split; [done|]. intros q [->|Hq]%elem_of_cons; [done|by apply Hl].
Qed.

Lemma committed_bulletin rnd b : bulletin_inv b -> exists b', bulletin_committedUpTo rnd b = Ok (rnd, b') /\ bulletin_inv b' /\
  bl_latestRound b' = rnd /\ bl_chans b' = bl_chans b /\
  (forall r n, bl_pendingNotificationRequests b' !! r = Some n <-> bl_pendingNotificationRequests b !! r = Some n /\ rnd < r) /\
  (forall c, c ∈ bl_closed b' <-> c ∈ bl_closed b \/ exists r, r <= rnd /\ nf_signal <$> bl_pendingNotificationRequests b !! r = Some c).
Proof.
  intros [B1 B2]. unfold bulletin_committedUpTo. set (P := bl_pendingNotificationRequests b) in *.
  rewrite release_spec; cycle 1.
  { intros [r n] Hp%elem_of_map_to_list. by destruct (B1 r n Hp) as (? & _ & ? & _). }
  { apply NoDup_fmap_2_strong; [|apply NoDup_map_to_list]. intros [r1 n1] [r2 n2] H1%elem_of_map_to_list H2%elem_of_map_to_list E.
    cbn in E. pose proof (B2 _ _ _ _ H1 H2 E) as ->. rewrite H1 in H2. by injection H2 as ->. }
  assert (forall r n, foldl (λ m p, if due rnd p then delete p.1 m else m) P (map_to_list P) !! r = Some n <-> P !! r = Some n /\ rnd < r) as HP.
  { intros r n. rewrite foldl_delete_lookup. unfold due. split; intros [HP Hd]; (split; [done|]).
    - specialize (Hd (r, n)). cbn in Hd. rewrite elem_of_map_to_list in Hd. specialize (Hd HP eq_refl). bool_hyps. lia.
    - intros p _ ->. by apply Z.leb_gt. }
  assert (forall c, c ∈ closes rnd (map_to_list P) <-> exists r, r <= rnd /\ nf_signal <$> P !! r = Some c) as HC.
  { intros c. unfold closes. rewrite elem_of_list_to_set, list_elem_of_fmap. split.
    - intros ([r n] & -> & [Hd Hin]%list_elem_of_filter). apply elem_of_map_to_list in Hin. unfold due in Hd. bool_hyps.
      exists r. split; [done|]. by rewrite Hin.
    - intros (r & Hr & Hc). apply fmap_Some in Hc as (n & Hn & ->). exists (r, n). split; [done|]. apply list_elem_of_filter.
      split; [by apply Z.leb_le|by apply elem_of_map_to_list]. }
  eexists. split; [done|]. cbn. split; [|split; [done|]; split; [done|]; split; [apply HP|]].
  - split; cbn.
    + intros r n [Hn Hr]%HP. destruct (B1 r n Hn) as (? & ? & Hc & _). split; [done|]. split; [done|]. split; [|done].
      apply not_elem_of_union. split; [|done]. rewrite HC. intros (r' & Hr' & Hs). apply fmap_Some in Hs as (n' & Hn' & Es).
      pose proof (B2 _ _ _ _ Hn Hn' Es). lia.
    + intros r1 r2 n1 n2 [H1 _]%HP [H2 _]%HP. by apply B2.
  - intros c. rewrite elem_of_union, HC. naive_solver.
Qed.

#[export] Instance bulletinOK validated : TrackerOK validated bulletinTracker (λ _ b, bulletin_inv b).
Proof.
  split; cbn.
  - intros l s s' E. inv_ok. split; cbn; [|]; intros *; rewrite ?lookup_empty; done.
  - intros n blk delta s s' _ HI _ E. by inv_ok.
  - intros n now c s HI _. destruct (committed_bulletin c s HI) as (b' & E & HI' & _). eauto.
Qed.

(** The calls the bulletin gets, with the channels it has handed out. *)
Inductive bulletin_step : bulletin * list (Round * nat) -> bulletin * list (Round * nat) -> Prop :=
| bs_wait b ws r c b' : Wait r b = (Ok c, b') -> bulletin_step (b, ws) (b', (r, c) :: ws)
| bs_committed b ws rnd b' : bl_latestRound b <= rnd -> bulletin_committedUpTo rnd b = Ok (rnd, b') -> bulletin_step (b, ws) (b', ws).

(** A channel that was handed out is closed, or waits for its round. *)
Record waits_inv (b : bulletin) (ws : list (Round * nat)) : Prop := {
  wi_bulletin : bulletin_inv b;
  wi_chans : chans_ok b;
  wi_waits r c : (r, c) ∈ ws -> c ∈ bl_closed b /\ r <= bl_latestRound b \/ bl_pendingNotificationRequests b !! r = Some (mkNotifier c false)
}.

Lemma Wait_spec r b ws : waits_inv b ws -> exists c b', Wait r b = (Ok c, b') /\ bl_latestRound b' = bl_latestRound b /\ waits_inv b' ((r, c) :: ws).
Proof.
  intros [[B1 B2] HC HW]. unfold Wait. destruct (Z.leb_spec r (bl_latestRound b)).
  - assert (bl_chans b ∉ bl_closed b) as Hfresh by (intros Hc%HC; lia).
    unfold makeChan, closeChan, mbind, M_bind. cbn. rewrite bool_decide_eq_false_2 by done. eexists _, _. split; [done|]. split; [done|].
    split; [split|..]; cbn.
    + intros r' n Hn. destruct (B1 r' n Hn) as (? & ? & ? & ?). split; [done|]. split; [cbn; lia|]. split; [|done].
      apply not_elem_of_union. split; [|done]. apply not_elem_of_singleton. lia.
    + done.
    + intros c [->%elem_of_singleton|Hc%HC]%elem_of_union; cbn; lia.
    + intros r' c [[= -> ->]|Hin]%elem_of_cons; [left; set_solver|]. destruct (HW r' c Hin) as [[? ?]|?]; [left; set_solver|by right].
  - destruct (bl_pendingNotificationRequests b !! r) as [[c nf]|] eqn:Ep.
    + eexists _, _. split; [done|]. split; [done|]. split; [done|done|]. intros r' c' [[= -> ->]|Hin]%elem_of_cons; [|by apply HW].
      right. rewrite Ep. destruct (B1 _ _ Ep) as (Hf & _). cbn in *. by subst.
    + unfold makeNotifier, makeChan, get, put, mbind, M_bind. cbn. eexists _, _. split; [done|]. split; [done|]. split; [split|..]; cbn.
      * intros r' n [[<- <-]|[Hne Hn]]%lookup_insert_Some; cbn.
        -- split; [done|]. split; [lia|]. split; [intros Hc%HC; lia|lia].
        -- destruct (B1 r' n Hn) as (? & ? & ? & ?). split; [done|]. split; [cbn; lia|]. done.
      * intros r1 r2 n1 n2 [[<- <-]|[? H1]]%lookup_insert_Some [[<- <-]|[? H2]]%lookup_insert_Some E; [done|..|by eapply B2]; cbn in E.
        -- destruct (B1 _ _ H2) as (_ & ? & _). lia.
        -- destruct (B1 _ _ H1) as (_ & ? & _). lia.
      * intros c Hc%HC. cbn. lia.
      * intros r' c [[= -> ->]|Hin]%elem_of_cons; [right; by rewrite lookup_insert_eq|].
        destruct (HW r' c Hin) as [?|Hp]; [by left|right]. rewrite lookup_insert_ne; [done|]. congruence.
Qed.

Lemma bulletin_step_inv b ws b' ws' : bulletin_step (b, ws) (b', ws') -> waits_inv b ws -> waits_inv b' ws'.
Proof.
  intros Hs HI. inversion Hs as [? ? r c ? E|? ? rnd ? Hle E]; subst.
  - destruct (Wait_spec r b ws HI) as (c' & b1 & E1 & _ & HI'). rewrite E in E1. by injection E1 as <- <-.
  - destruct HI as [HB HC HW]. destruct (committed_bulletin rnd b HB) as (b1 & E1 & HB1 & HL & Hch & HP & HCl). rewrite E in E1. injection E1 as <-.
    split; [done|..].
    + intros c [Hc|(r & _ & Hs1)]%HCl; rewrite Hch; [by apply HC|]. apply fmap_Some in Hs1 as (n & Hn & ->). by apply (bi_pending _ HB r n).
    + intros r c Hin. destruct (HW r c Hin) as [[Hc Hr]|Hp]; [left; split; [apply HCl; by left|lia]|].
      destruct (Z.leb_spec r rnd); [left; split; [apply HCl; right; exists r; by rewrite Hp|lia]|right; by apply HP].
Qed.

(** Every channel that [Wait] handed out is closed exactly when its round is committed. *)
Theorem Wait_closes b0 b ws r c : bl_pendingNotificationRequests b0 = ∅ -> chans_ok b0 -> rtc bulletin_step (b0, []) (b, ws) -> (r, c) ∈ ws ->
  (c ∈ bl_closed b <-> r <= bl_latestRound b).
Proof.
  intros Hp Hc Hr Hin. assert (waits_inv b ws) as [HB HC HW].
  { assert (waits_inv b0 []) as HI by (split; [split|done|]; try set_solver; rewrite Hp; intros *; rewrite lookup_empty; done).
    revert HI. generalize (@nil (Round * nat)) Hr. clear. intros ws0 Hr. remember (b0, ws0) as x eqn:Ex. remember (b, ws) as y eqn:Ey.
    revert b0 ws0 Ex. induction Hr as [|x [b1 ws1] y Hs _ IH]; intros b0 ws0 ->; [by injection Ey as -> ->|].
    intros HI. by eapply (IH Ey b1 ws1), bulletin_step_inv. }
  destruct (HW r c Hin) as [[? ?]|Hpend]; [naive_solver|]. destruct (bi_pending _ HB r _ Hpend) as (_ & _ & Hnc & Hlt). cbn in Hnc.
  split; [done|lia].
Qed.

(** ** Delivery to listeners *)

Section Delivery.
Context {L : Type} `{!EqDecision L}.

(** The notifier with the calls its worker has yet to make, the calls it has made, and
    the blocks the ledger has announced. *)
Record delivery := mkDelivery {
  dl_bn : blockNotifier L;
  dl_todo : list (L * blockDeltaPair);
  dl_done : list (L * blockDeltaPair);
  dl_news : list blockDeltaPair
}.
Inductive delivery_step : delivery -> delivery -> Prop :=
| ds_register bn todo made news ls : delivery_step (mkDelivery bn todo made news) (mkDelivery (bn_register ls bn) todo made news)
| ds_newBlock bn todo made news blk delta :
    delivery_step (mkDelivery bn todo made news) (mkDelivery (bn_newBlock blk delta bn) todo made (news ++ [(blk, delta)]))
| ds_take bn made news blocks ls bn' : worker_take bn = (WorkerTakes blocks ls, bn') ->
    delivery_step (mkDelivery bn [] made news) (mkDelivery bn' (worker_calls blocks ls) made news)
| ds_call bn call todo made news : delivery_step (mkDelivery bn (call :: todo) made news) (mkDelivery bn todo (made ++ [call]) news)
| ds_close bn todo made news : delivery_step (mkDelivery bn todo made news) (mkDelivery (bn_close bn) todo made news).

Definition received (x : L) (calls : list (L * blockDeltaPair)) : list blockDeltaPair := (filter (λ p, p.1 = x) calls).*2.
(** How often [x] is registered. *)
Definition registrations (x : L) (bn : blockNotifier L) : nat := length (filter (.= x) (bn_listeners bn)).

Arguments received : simpl never.
Arguments registrations : simpl never.

Lemma received_app x c1 c2 : received x (c1 ++ c2) = received x c1 ++ received x c2.
Proof. unfold received. by rewrite filter_app, fmap_app. Qed.
Lemma received_calls x b ls : received x ((λ l, (l, b)) <$> ls) = replicate (length (filter (.= x) ls)) b.
Proof.
  unfold received. induction ls as [|y ls IH]; [done|]. rewrite fmap_cons, !filter_cons. cbn. destruct (decide (y = x)); cbn; by rewrite IH.
Qed.
Lemma received_worker x blocks ls : length (filter (.= x) ls) = 1%nat -> received x (worker_calls blocks ls) = blocks.
Proof.
  intros H1. unfold worker_calls. induction blocks as [|b blocks IH]; [done|].
  rewrite bind_cons, received_app, received_calls, H1, IH. done.
Qed.

Lemma delivery_inv x d d' : delivery_step d d' ->
  (registrations x (dl_bn d) = 1%nat -> received x (dl_done d ++ dl_todo d) ++ bn_pendingBlocks (dl_bn d) = dl_news d) ->
  (registrations x (dl_bn d) <= registrations x (dl_bn d'))%nat /\
  (registrations x (dl_bn d') = 1%nat -> registrations x (dl_bn d) = 1%nat ->
   received x (dl_done d' ++ dl_todo d') ++ bn_pendingBlocks (dl_bn d') = dl_news d').
Proof.
  intros Hs HI. destruct Hs as [bn todo made news ls|bn todo made news blk delta|bn made news blocks ls bn' E|bn call todo made news|bn todo made news]; cbn in *.
  - unfold registrations in *. cbn. rewrite filter_app, length_app. split; [lia|]. intros _. done.
  - split; [done|]. intros _ H1. by rewrite app_assoc, HI.
  - unfold worker_take in E. destruct (bn_running bn && _); [done|]. destruct (negb _); [done|]. injection E as <- <- <-. cbn.
    split; [done|]. intros _ H1. rewrite received_app, received_worker by done. rewrite app_nil_r in *. by apply HI.
  - split; [done|]. intros _ H1. rewrite <- app_assoc. by apply HI.
  - unfold bn_close. destruct (bn_running bn); (split; [done|]); intros _ H1; by apply HI.
Qed.

(** A listener that is registered once from the start gets every announced block exactly
    once and in order: those it got, those on their way and those pending are all. *)
Theorem notifier_delivers x ls0 d : length (filter (.= x) ls0) = 1%nat -> rtc delivery_step (mkDelivery (mkBlockNotifier ls0 [] true) [] [] []) d ->
  registrations x (dl_bn d) = 1%nat ->
  received x (dl_done d) ++ received x (dl_todo d) ++ bn_pendingBlocks (dl_bn d) = dl_news d.
Proof.
  intros Hls Hr. assert ((1 <= registrations x (dl_bn d))%nat /\ (registrations x (dl_bn d) = 1%nat ->
    received x (dl_done d ++ dl_todo d) ++ bn_pendingBlocks (dl_bn d) = dl_news d)) as [_ HI].
  { revert d Hr. apply rtc_ind_r; [unfold registrations; cbn; rewrite Hls; done|]. intros d d' _ Hs [Hge HI].
    destruct (delivery_inv x d d' Hs HI) as [Hle HI']. split; [lia|]. intros H1. apply HI'; lia. }
  intros H1. rewrite app_assoc, <- received_app. by apply HI.
Qed.
End Delivery.
