(* ===== verification/HeaderCache.v ===== *)
(** The cache of block headers (src/ledger/roundlru.go): a heap ordered by last use, with
    an index from rounds to positions, kept by the standard library's container/heap. *)

From S2P Require Import Prelude Config Basics Transactions.

Section Cache.
Context {X : Type}.

Record lruEntry := mkLruEntry { le_useIndex : Z; le_r : Round; le_x : X }.
Record lruHeap := mkLruHeap { lh_heap : list lruEntry; lh_lookup : gmap Round nat }.
#[export] Instance lruEntry_eta : Eta lruEntry := λ r, mkLruEntry (le_useIndex r) (le_r r) (le_x r).
#[export] Instance lruHeap_eta : Eta lruHeap := λ r, mkLruHeap (lh_heap r) (lh_lookup r).

(** ** heap.Interface *)

Definition entryAt (i : nat) : M lruHeap lruEntry := λ h,
  match lh_heap h !! i with Some e => (Ok e, h) | None => (Panic "index out of range", h) end.
Definition Len : M lruHeap nat := λ h, (Ok (length (lh_heap h)), h).
Definition Less (i j : nat) : M lruHeap bool :=
  ei ← entryAt i; ej ← entryAt j; mret (le_useIndex ei <? le_useIndex ej).
Definition Swap (i j : nat) : M lruHeap unit :=
  ei ← entryAt i;
  ej ← entryAt j;
  h ← get;
  put (mkLruHeap (<[j := ei]> (<[i := ej]> (lh_heap h))) (<[le_r ei := j]> (<[le_r ej := i]> (lh_lookup h)))).
Definition hPush (x : lruEntry) : M lruHeap unit :=
  h ← get; put (mkLruHeap (lh_heap h ++ [x]) (<[le_r x := length (lh_heap h)]> (lh_lookup h))).
Definition hPop : M lruHeap lruEntry :=
  h ← get;
  match last (lh_heap h) with
  | None => lift (Panic "index out of range")
  | Some out => _ ← put (mkLruHeap (removelast (lh_heap h)) (delete (le_r out) (lh_lookup h))); mret out
  end.

(** ** container/heap

    The loops are bounded by the position they start from and by the size. *)

(** [(j - 1) / 2], rounding towards zero. *)
Definition parent (j : nat) : nat := ((j - 1) / 2)%nat.

Fixpoint up (fuel : nat) (j : nat) : M lruHeap unit :=
  match fuel with
  | O => lift (Panic "out of fuel")
  | S fuel =>
    let i := parent j in
    if (i =? j)%nat then mret tt
    else
      lt ← Less j i;
      if negb lt then mret tt else _ ← Swap i j; up fuel i
  end.

(** The position the loop ends at. *)
Fixpoint downLoop (fuel : nat) (i n : nat) : M lruHeap nat :=
  match fuel with
  | O => lift (Panic "out of fuel")
  | S fuel =>
    let j1 := (2 * i + 1)%nat in
    if (n <=? j1)%nat then mret i
    else
      let j2 := (j1 + 1)%nat in
      right ← (if (j2 <? n)%nat then Less j2 j1 else mret false);
      let j := if (right : bool) then j2 else j1 in
      lt ← Less j i;
      if negb lt then mret i else _ ← Swap i j; downLoop fuel j n
  end.
Definition down (i0 n : nat) : M lruHeap bool :=
  i ← downLoop (S n) i0 n; mret (i0 <? i)%nat.

Definition heapPush (x : lruEntry) : M lruHeap unit :=
  _ ← hPush x; n ← Len; up n (n - 1).
Definition heapRemove (i : nat) : M lruHeap lruEntry :=
  len ← Len;
  let n := (len - 1)%nat in
  _ ← (if negb (n =? i)%nat then
         _ ← Swap i n;
         moved ← down i n;
         if (moved : bool) then mret tt else up (S i) i
       else mret tt);
  hPop.
Definition heapFix (i : nat) : M lruHeap unit :=
  n ← Len;
  moved ← down i n;
  if (moved : bool) then mret tt else up (S i) i.

(** ** The cache *)

(** The zero value has a nil heap and a nil map: [None]. *)
Record heapLRUCache := mkHeapLRUCache {
  hlc_entries : option lruHeap;
  hlc_nextUseIndex : Z;
  hlc_maxEntries : Z
}.
#[export] Instance heapLRUCache_eta : Eta heapLRUCache := λ r, mkHeapLRUCache (hlc_entries r) (hlc_nextUseIndex r) (hlc_maxEntries r).

Definition MaxInt : Z := 2 ^ 63 - 1.
Definition wrapInt (z : Z) : Z := (z + 2 ^ 63) mod 2 ^ 64 - 2 ^ 63.

(** The guard of [reIndex] returns when the heap is not nil and when it is empty, so the
    rest of its body is never reached. *)
Definition reIndex (hlc : heapLRUCache) : heapLRUCache :=
  match hlc_entries hlc with
  | Some _ => hlc    (* heap != nil *)
  | None => hlc      (* len(heap) == 0 *)
  end.
Definition inc (hlc : heapLRUCache) : heapLRUCache :=
  let hlc := hlc <| hlc_nextUseIndex ::= λ n, wrapInt (n + 1) |> in
  if hlc_nextUseIndex hlc =? MaxInt then reIndex hlc else hlc.

(** An action on the entries of the cache. *)
Definition onEntries {A} (m : M lruHeap A) (hlc : heapLRUCache) (h : lruHeap) : result A * heapLRUCache :=
  let '(r, h') := m h in (r, hlc <| hlc_entries := Some h' |>).

Definition Get (r : Round) : M heapLRUCache (option X) := λ hlc,
  match hlc_entries hlc with
  | None => (Ok None, hlc)
  | Some h =>
    match lh_lookup h !! r with
    | None => (Ok None, hlc)
    | Some i =>
      match lh_heap h !! i with
      | None => (Panic "index out of range", hlc)
      | Some e =>
        let h1 := h <| lh_heap ::= <[i := e <| le_useIndex := hlc_nextUseIndex hlc |>]> |> in
        match onEntries (heapFix i) (inc hlc) h1 with
        | (Ok _, hlc') => (Ok (Some (le_x e)), hlc')
        | (Err err, hlc') => (Err err, hlc')
        | (Panic m, hlc') => (Panic m, hlc')
        end
      end
    end
  end.

(** [for len(heap) > maxEntries { heap.Remove(0) }] *)
Fixpoint shrink (fuel : nat) (maxEntries : Z) : M lruHeap unit :=
  match fuel with
  | O => lift (Panic "out of fuel")
  | S fuel =>
    len ← Len;
    if maxEntries <? Z.of_nat len then _ ← heapRemove 0; shrink fuel maxEntries else mret tt
  end.

Definition Put (r : Round) (data : X) : M heapLRUCache unit := λ hlc,
  match hlc_entries hlc with
  | None =>
    (Ok tt, inc (hlc <| hlc_entries := Some (mkLruHeap [mkLruEntry (hlc_nextUseIndex hlc) r data] {[r := 0%nat]}) |>))
  | Some h =>
    match lh_lookup h !! r with
    | Some i =>
      match lh_heap h !! i with
      | None => (Panic "index out of range", hlc)
      | Some e => (Ok tt, hlc <| hlc_entries := Some (h <| lh_heap ::= <[i := e <| le_x := data |>]> |>) |>)
      end
    | None =>
      match onEntries (heapPush (mkLruEntry (hlc_nextUseIndex hlc) r data) ≫= λ _, shrink (length (lh_heap h) + 3) (hlc_maxEntries hlc)) hlc h with
      | (Ok _, hlc') => (Ok tt, inc hlc')
      | other => other
      end
    end
  end.
End Cache.
Arguments lruEntry : clear implicits. Arguments lruHeap : clear implicits. Arguments heapLRUCache : clear implicits.
