(* ===== verification/HeaderCacheSpec.v ===== *)
(** The cache of headers is a least-recently-used map: it refines a list of rounds and
    values in the order of their last use, cut to the capacity of the cache, and never
    reads or writes outside its heap. *)

From stdpp Require Import sorting.
From S2P Require Import Prelude Config Basics Transactions HeaderCache.

(** ** Positions *)

#[local] Arguments parent : simpl never.

Lemma parent_cases k : (0 < k)%nat -> k = (2 * parent k + 1)%nat \/ k = (2 * parent k + 2)%nat.
Proof.
  intros Hk. unfold parent. pose proof (Nat.div_mod_eq (k - 1) 2). pose proof (Nat.mod_upper_bound (k - 1) 2 ltac:(lia)). lia.
Qed.
Lemma parent_lt k : (0 < k)%nat -> (parent k < k)%nat.
Proof. intros Hk. destruct (parent_cases k Hk); lia. Qed.
Lemma parent_eq k i : (0 < k)%nat -> k = (2 * i + 1)%nat \/ k = (2 * i + 2)%nat -> parent k = i.
Proof. intros Hk [E|E]; destruct (parent_cases k Hk); lia. Qed.

Section Spec.
Context {X : Type}.
Notation entry := (lruEntry X).
Notation lheap := (lruHeap X).

Definition key (h : list entry) (k : nat) : Z := from_option le_useIndex 0 (h !! k).

(** The index knows the position of every round in the heap, and no other round. *)
Definition index_ok (h : lheap) : Prop := forall r i, lh_lookup h !! r = Some i <-> exists e, lh_heap h !! i = Some e /\ le_r e = r.

Lemma index_inj h i j ei ej : index_ok h -> lh_heap h !! i = Some ei -> lh_heap h !! j = Some ej -> le_r ei = le_r ej -> i = j.
Proof.
  intros HI Hi Hj E. assert (lh_lookup h !! le_r ei = Some i) as H1 by (apply HI; eauto).
  assert (lh_lookup h !! le_r ei = Some j) as H2 by (apply HI; eauto). congruence.
Qed.
Lemma index_NoDup h : index_ok h -> NoDup (lh_heap h).
Proof. intros HI. apply NoDup_alt. intros i j e Hi Hj. by eapply index_inj. Qed.

(** ** Exchanging two entries *)

Definition swapped (i j : nat) (ei ej : entry) (h : lheap) : lheap :=
  mkLruHeap (<[j := ei]> (<[i := ej]> (lh_heap h))) (<[le_r ei := j]> (<[le_r ej := i]> (lh_lookup h))).

Lemma Swap_run i j h ei ej : lh_heap h !! i = Some ei -> lh_heap h !! j = Some ej -> Swap i j h = (Ok tt, swapped i j ei ej h).
Proof. intros Hi Hj. unfold Swap, entryAt, get, put, mbind, M_bind. by rewrite Hi, Hj. Qed.

Lemma swapped_lookup i j h ei ej k : lh_heap h !! i = Some ei -> lh_heap h !! j = Some ej ->
  lh_heap (swapped i j ei ej h) !! k = if decide (k = j) then Some ei else if decide (k = i) then Some ej else lh_heap h !! k.
Proof.
  intros Hi Hj. apply lookup_lt_Some in Hi, Hj. cbn. destruct (decide (k = j)) as [->|].
  - rewrite list_lookup_insert_eq; [done|]. rewrite length_insert. lia.
  - rewrite list_lookup_insert_ne by done. destruct (decide (k = i)) as [->|]; [by rewrite list_lookup_insert_eq|by rewrite list_lookup_insert_ne].
Qed.

Lemma swapped_index i j h ei ej : index_ok h -> lh_heap h !! i = Some ei -> lh_heap h !! j = Some ej -> i <> j -> index_ok (swapped i j ei ej h).
Proof.
  intros HI Hi Hj Hne r k. rewrite swapped_lookup by done. cbn.
  assert (le_r ei <> le_r ej) as Hr by (intros E; by apply Hne, (index_inj h i j ei ej)).
  destruct (decide (r = le_r ei)) as [->|Hri].
  - rewrite lookup_insert_eq. split.
    + intros [= <-]. rewrite decide_True by done. eauto.
    + intros (e & He & Ee). destruct (decide (k = j)); [by subst|]. destruct (decide (k = i)); [simplify_eq|].
      f_equal. exfalso. apply n0. by eapply index_inj.
  - rewrite lookup_insert_ne by done. destruct (decide (r = le_r ej)) as [->|Hrj].
    + rewrite lookup_insert_eq. split.
      * intros [= <-]. rewrite decide_False, decide_True by done. eauto.
      * intros (e & He & Ee). destruct (decide (k = j)); [simplify_eq|]. destruct (decide (k = i)); [by subst|].
        exfalso. apply n. by eapply index_inj.
    + rewrite lookup_insert_ne by done. rewrite (HI r k). destruct (decide (k = j)) as [->|]; [|destruct (decide (k = i)) as [->|]; [|done]];
        split; intros (e & He & Ee); simplify_eq.
Qed.

Lemma swapped_perm i j h ei ej : index_ok h -> lh_heap h !! i = Some ei -> lh_heap h !! j = Some ej -> i <> j ->
  lh_heap (swapped i j ei ej h) ≡ₚ lh_heap h.
Proof.
  intros HI Hi Hj Hne. apply NoDup_Permutation; [apply index_NoDup; by apply swapped_index|by apply index_NoDup|].
  intros e. rewrite !list_elem_of_lookup. split.
  - intros [k Hk]. rewrite swapped_lookup in Hk by done. destruct (decide _); [simplify_eq; eauto|]. destruct (decide _); simplify_eq; eauto.
  - intros [k Hk]. destruct (decide (k = i)) as [->|]; [exists j|destruct (decide (k = j)) as [->|]; [exists i|exists k]];
      rewrite swapped_lookup by done; repeat case_decide; congruence.
Qed.

Lemma key_swapped i j h ei ej k : lh_heap h !! i = Some ei -> lh_heap h !! j = Some ej ->
  key (lh_heap (swapped i j ei ej h)) k = if decide (k = j) then key (lh_heap h) i else if decide (k = i) then key (lh_heap h) j else key (lh_heap h) k.
Proof. intros Hi Hj. unfold key at 1. rewrite swapped_lookup by done. unfold key. repeat case_decide; rewrite ?Hi, ?Hj; done. Qed.

Lemma Less_run i j h ei ej : lh_heap h !! i = Some ei -> lh_heap h !! j = Some ej -> Less i j h = (Ok (key (lh_heap h) i <? key (lh_heap h) j), h).
Proof. intros Hi Hj. unfold Less, entryAt, mbind, M_bind, key. by rewrite Hi, Hj. Qed.

(** ** The order of the heap *)

(** No entry among the first [n] is older than its parent, but perhaps below [i]. *)
Definition ord_but (h : list entry) (n i : nat) : Prop := forall k, (0 < k < n)%nat -> parent k <> i -> key h (parent k) <= key h k.
Definition heap_ord (h : list entry) (n : nat) : Prop := forall k, (0 < k < n)%nat -> key h (parent k) <= key h k.

(** What sifting down keeps, and what it establishes. *)
Record sifted (n : nat) (h h' : lheap) : Prop := {
  sf_index : index_ok h';
  sf_perm : lh_heap h' ≡ₚ lh_heap h;
  sf_ord : heap_ord (lh_heap h') n;
  sf_rest k : (n <= k)%nat -> lh_heap h' !! k = lh_heap h !! k
}.

Lemma ord_leaf h n i : ord_but h n i -> (n <= 2 * i + 1)%nat -> heap_ord h n.
Proof. intros H Hn k Hk. apply H; [done|]. destruct (parent_cases k); lia. Qed.

(** Exchanging [i] with its younger child moves the defect to that child. *)
Lemma sift_once h n i j ei ej : ord_but (lh_heap h) n i ->
  (forall k, (0 < k < n)%nat -> parent k = i -> (0 < i)%nat -> key (lh_heap h) (parent i) <= key (lh_heap h) k) ->
  lh_heap h !! i = Some ei -> lh_heap h !! j = Some ej -> (0 < j < n)%nat -> parent j = i -> i <> j ->
  (forall k, (0 < k < n)%nat -> parent k = i -> key (lh_heap h) j <= key (lh_heap h) k) -> key (lh_heap h) j < key (lh_heap h) i ->
  let h' := swapped i j ei ej h in ord_but (lh_heap h') n j /\
  (forall k, (0 < k < n)%nat -> parent k = j -> (0 < j)%nat -> key (lh_heap h') (parent j) <= key (lh_heap h') k).
Proof.
  intros HO HH Hi Hj Hjn Hp Hne Hmin Hlt h'. unfold h'. split; intros k Hk Hpk; [|intros _]; rewrite !key_swapped by done.
  - rewrite (decide_False (P := parent k = j)) by done. destruct (decide (parent k = i)) as [Epi|Hpi].
    + destruct (decide (k = j)) as [->|]; [lia|]. rewrite decide_False by (intros ->; pose proof (parent_lt i ltac:(lia)); lia). by apply Hmin.
    + destruct (decide (k = j)) as [->|]; [congruence|]. destruct (decide (k = i)) as [->|]; [apply HH; [done|done|lia]|by apply HO].
  - rewrite Hp. pose proof (parent_lt j ltac:(lia)). rewrite (decide_False (P := i = j)), (decide_True (P := i = i)) by done.
    pose proof (parent_lt k ltac:(lia)). rewrite !decide_False by lia. rewrite <- Hpk. apply HO; [done|lia].
Qed.

(** The younger child of [i]. *)
Lemma pick_child h n i : (2 * i + 1 < n)%nat -> (n <= length (lh_heap h))%nat -> exists right,
  (if (2 * i + 1 + 1 <? n)%nat then Less (2 * i + 1 + 1) (2 * i + 1) else mret false) h = (Ok right, h) /\
  let j := if (right : bool) then (2 * i + 1 + 1)%nat else (2 * i + 1)%nat in
  (i < j < n)%nat /\ parent j = i /\ forall k, (0 < k < n)%nat -> parent k = i -> key (lh_heap h) j <= key (lh_heap h) k.
Proof.
  intros Hj1 Hn. destruct (lookup_lt_is_Some_2 (lh_heap h) (2 * i + 1)) as [e1 He1]; [lia|].
  destruct (Nat.ltb_spec (2 * i + 1 + 1) n) as [Hj2|Hj2].
  - destruct (lookup_lt_is_Some_2 (lh_heap h) (2 * i + 1 + 1)) as [e2 He2]; [lia|]. rewrite (Less_run _ _ _ _ _ He2 He1). eexists. split; [done|].
    destruct (Z.ltb_spec (key (lh_heap h) (2 * i + 1 + 1)) (key (lh_heap h) (2 * i + 1))); cbn -[Nat.mul parent key]; (split; [lia|]); (split; [apply parent_eq; lia|]);
      intros k Hk Hp; (assert (k = 2 * i + 1 \/ k = 2 * i + 1 + 1)%nat as [->| ->] by (destruct (parent_cases k); lia)); lia.
  - exists false. split; [done|]. cbn -[Nat.mul parent key]. split; [lia|]. split; [apply parent_eq; lia|]. intros k Hk Hp.
    destruct (parent_cases k) as [E|E]; [lia|..]; rewrite Hp in E; [by rewrite E|lia].
Qed.

Lemma sifted_trans n h h1 h2 : sifted n h1 h2 -> lh_heap h1 ≡ₚ lh_heap h -> (forall k, (n <= k)%nat -> lh_heap h1 !! k = lh_heap h !! k) -> sifted n h h2.
Proof. intros [A B C D] Hp Hr. split; [done|by rewrite B|done|]. intros k Hk. by rewrite D, Hr. Qed.

Lemma downLoop_spec fuel : forall i n h, (n < fuel + i)%nat -> (i <= n <= length (lh_heap h))%nat -> index_ok h -> ord_but (lh_heap h) n i ->
  (forall k, (0 < k < n)%nat -> parent k = i -> (0 < i)%nat -> key (lh_heap h) (parent i) <= key (lh_heap h) k) ->
  exists i' h', downLoop fuel i n h = (Ok i', h') /\ sifted n h h' /\ (i' = i -> h' = h) /\ (i <= i')%nat.
Proof.
  induction fuel as [|fuel IH]; intros i n h Hf Hn HI HO HH; [lia|].
  cbn [downLoop]. destruct (Nat.leb_spec n (2 * i + 1)) as [Hleaf|Hj1].
  { exists i, h. split; [done|]. split; [|done]. split; [done|done|by eapply ord_leaf|done]. }
  destruct (pick_child h n i Hj1 ltac:(lia)) as (right & Er & Hj & Hp & Hmin). run_by Er. set (j := if right then _ else _) in *.
  destruct (lookup_lt_is_Some_2 (lh_heap h) i) as [ei Hei]; [lia|]. destruct (lookup_lt_is_Some_2 (lh_heap h) j) as [ej Hej]; [lia|].
  run_by (Less_run _ _ _ _ _ Hej Hei). destruct (Z.ltb_spec (key (lh_heap h) j) (key (lh_heap h) i)) as [Hlt|Hge]; cbn [negb].
  - run_by (Swap_run _ _ _ _ _ Hei Hej).
    destruct (sift_once h n i j ei ej HO HH Hei Hej ltac:(lia) Hp ltac:(lia) Hmin Hlt) as [HO' HH'].
    destruct (IH j n (swapped i j ei ej h)) as (i' & h' & E & Hs & _ & Hle); [lia| |by apply swapped_index; [..|lia]|done|done|].
    { cbn. rewrite !length_insert. lia. }
    exists i', h'. split; [done|]. split; [|split; lia]. eapply sifted_trans; [done|by apply swapped_perm; [..|lia]|].
    intros k Hk. rewrite swapped_lookup by done. rewrite !decide_False by lia. done.
  - exists i, h. split; [done|]. split; [|done]. split; [done|done| |done].
    intros k Hk. destruct (decide (parent k = i)) as [E|]; [|by apply HO]. rewrite E. etrans; [apply Hge|by apply Hmin].
Qed.

(** Sifting up from a place that is in order does nothing. *)
Lemma up_done fuel j h : (j < length (lh_heap h))%nat -> heap_ord (lh_heap h) (length (lh_heap h)) -> (0 < fuel)%nat -> up fuel j h = (Ok tt, h).
Proof.
  intros Hj HO Hf. destruct fuel as [|fuel]; [lia|]. cbn [up]. destruct (Nat.eqb_spec (parent j) j) as [|Hne]; [done|].
  assert (0 < j)%nat as Hj0 by (destruct j; [done|lia]). pose proof (parent_lt j Hj0).
  destruct (lookup_lt_is_Some_2 (lh_heap h) j) as [ej Hej]; [lia|]. destruct (lookup_lt_is_Some_2 (lh_heap h) (parent j)) as [ep Hep]; [lia|].
  run_by (Less_run _ _ _ _ _ Hej Hep). rewrite (proj2 (Z.ltb_ge _ _)) by (apply HO; lia). done.
Qed.

(** ** The operations of the heap *)

Record heap_ok (h : lheap) : Prop := { ho_index : index_ok h; ho_ord : heap_ord (lh_heap h) (length (lh_heap h)) }.

Lemma heap_min h e0 k : heap_ord h (length h) -> h !! 0%nat = Some e0 -> (k < length h)%nat -> le_useIndex e0 <= key h k.
Proof.
  intros HO H0. induction k as [k IH] using lt_wf_ind. intros Hk. destruct (decide (k = 0)%nat) as [->|Hne].
  - unfold key. by rewrite H0.
  - pose proof (parent_lt k ltac:(lia)). etrans; [apply (IH (parent k)); lia|apply HO; lia].
Qed.

(** A raised entry sinks to its place. *)
Lemma heapFix_spec i h : index_ok h -> (i < length (lh_heap h))%nat -> ord_but (lh_heap h) (length (lh_heap h)) i ->
  (forall k, (0 < k < length (lh_heap h))%nat -> parent k = i -> (0 < i)%nat -> key (lh_heap h) (parent i) <= key (lh_heap h) k) ->
  exists h', heapFix i h = (Ok tt, h') /\ heap_ok h' /\ lh_heap h' ≡ₚ lh_heap h.
Proof.
  intros HI Hi HO HH. unfold heapFix, Len. run. unfold down.
  destruct (downLoop_spec (S (length (lh_heap h))) i (length (lh_heap h)) h ltac:(lia) ltac:(lia) HI HO HH) as (i' & h' & E & [A B C D] & Hsame & Hle).
  rewrite bind_assoc_run. run_by E. run. exists h'. pose proof (Permutation_length B) as HL. rewrite <- HL in C.
  split; [|by split]. destruct (Nat.ltb_spec i i'); [done|]. apply up_done; [lia|done|lia].
Qed.

(** A new entry that is younger than all stays at the end. *)
Lemma heapPush_spec x h : heap_ok h -> lh_lookup h !! le_r x = None -> (forall e, e ∈ lh_heap h -> le_useIndex e < le_useIndex x) ->
  exists h', heapPush x h = (Ok tt, h') /\ heap_ok h' /\ lh_heap h' = lh_heap h ++ [x].
Proof.
  intros [HI HO] Hx Hmax. set (h' := mkLruHeap (lh_heap h ++ [x]) (<[le_r x := length (lh_heap h)]> (lh_lookup h))).
  assert (heap_ok h') as HK.
  { split.
    - intros r k. cbn. destruct (decide (r = le_r x)) as [->|Hr].
      + rewrite lookup_insert_eq. split; [intros [= <-]; exists x; by rewrite lookup_app_r, Nat.sub_diag by lia|].
        intros (e & [He|[Hge He]]%lookup_app_Some & Er); [rewrite (proj2 (HI (le_r x) k)) in Hx; [done|eauto]|].
        apply list_lookup_singleton_Some in He as [? _]. f_equal. lia.
      + rewrite lookup_insert_ne by done. rewrite (HI r k). split; intros (e & He & Er); exists e; (split; [|done]).
        * by apply lookup_app_l_Some.
        * apply lookup_app_Some in He as [He|[_ He]]; [done|]. apply list_lookup_singleton_Some in He as [_ <-]. done.
    - intros k Hk. cbn in *. rewrite length_app in Hk. cbn in Hk. pose proof (parent_lt k ltac:(lia)). unfold key.
      rewrite (lookup_app_l _ _ (parent k)) by lia. destruct (decide (k < length (lh_heap h))%nat) as [Hlt|]; [rewrite lookup_app_l by done; apply HO; lia|].
      replace k with (length (lh_heap h)) in * by lia. rewrite lookup_app_r, Nat.sub_diag by lia. cbn.
      destruct (lookup_lt_is_Some_2 (lh_heap h) (parent (length (lh_heap h)))) as [e He]; [lia|]. rewrite He. cbn.
      apply Z.lt_le_incl, Hmax. by eapply list_elem_of_lookup_2. }
  exists h'. split; [|done]. unfold heapPush, hPush, Len, get, put. rewrite bind_assoc_run. run. run. run. fold h'.
  destruct HK. apply up_done; [cbn; rewrite length_app; cbn; lia|done|cbn; rewrite length_app; cbn; lia].
Qed.

(** Popping the last entry. *)
Lemma hPop_spec l e m : index_ok (mkLruHeap (l ++ [e]) m) -> hPop (mkLruHeap (l ++ [e]) m) = (Ok e, mkLruHeap l (delete (le_r e) m)) /\
  index_ok (mkLruHeap l (delete (le_r e) m)).
Proof.
  intros HI. split.
  - unfold hPop, get, put. run. cbn [lh_heap]. rewrite last_snoc, removelast_last. run. done.
  - intros r k. cbn. specialize (HI r k) as HIr. cbn in HIr. destruct (decide (r = le_r e)) as [->|Hr].
    + rewrite lookup_delete_eq. split; [done|]. intros (e' & He' & Ee). apply lookup_lt_Some in He' as Hlt.
      assert (k = length l); [|lia]. eapply (index_inj _ k (length l) e' e HI); cbn; [by apply lookup_app_l_Some|by rewrite lookup_app_r, Nat.sub_diag by lia|done].
    + rewrite lookup_delete_ne by done. rewrite HIr. split; intros (e' & He' & Ee); exists e'; (split; [|done]).
      * apply lookup_app_Some in He' as [He'|[_ He']]; [done|]. apply list_lookup_singleton_Some in He' as [_ <-]. done.
      * by apply lookup_app_l_Some.
Qed.

(** After the first and the last entry changed places only the root may be out of order. *)
Lemma swap_ends h e0 en n : heap_ok h -> lh_heap h !! 0%nat = Some e0 -> lh_heap h !! n = Some en -> (0 < n)%nat -> S n = length (lh_heap h) ->
  ord_but (lh_heap (swapped 0 n e0 en h)) n 0.
Proof.
  intros [HI HO] H0 Hn Hpos HL k Hk Hp. rewrite !key_swapped by done. pose proof (parent_lt k ltac:(lia)).
  repeat (rewrite decide_False by lia). apply HO. lia.
Qed.

Lemma up_root fuel (h : lheap) : (0 < fuel)%nat -> up fuel 0 h = (Ok tt, h).
Proof. destruct fuel; [lia|done]. Qed.

(** Removing the first entry. *)
Lemma heapRemove_spec h e0 : heap_ok h -> lh_heap h !! 0%nat = Some e0 ->
  exists h', heapRemove 0 h = (Ok e0, h') /\ heap_ok h' /\ lh_heap h ≡ₚ e0 :: lh_heap h'.
Proof.
  intros HK H0. unfold heapRemove, Len. run. apply lookup_lt_Some in H0 as Hpos. set (n := (length (lh_heap h) - 1)%nat).
  destruct (lookup_lt_is_Some_2 (lh_heap h) n) as [en Hn]; [unfold n; lia|]. destruct (Nat.eqb_spec n 0) as [En|Hne]; cbn [negb].
  - run. destruct h as [l m]. cbn in *. destruct l as [|e [|? ?]]; [done| |unfold n in En; cbn in En; lia]. injection H0 as <-.
    destruct (hPop_spec [] e m (ho_index _ HK)) as [E HI']. exists (mkLruHeap [] (delete (le_r e) m)). split; [exact E|]. split; [|done].
    split; [done|]. intros k Hk. cbn in Hk. lia.
  - pose proof (swap_ends h e0 en n HK H0 Hn ltac:(lia) ltac:(unfold n; lia)) as HO. destruct HK as [HI _].
    rewrite bind_assoc_run. run_by (Swap_run _ _ _ _ _ H0 Hn). set (h1 := swapped 0 n e0 en h) in *.
    assert (index_ok h1) as HI1 by (by apply swapped_index).
    assert (lh_heap h1 ≡ₚ lh_heap h) as HP1 by (by apply swapped_perm). pose proof (Permutation_length HP1) as HL1.
    destruct (downLoop_spec (S n) 0 n h1 ltac:(lia) ltac:(unfold n; lia) HI1 HO ltac:(lia)) as (i' & h2 & E & [A B C D] & _ & _).
    pose proof (Permutation_length B) as HL2. unfold down. rewrite !bind_assoc_run. run_by E. run.
    assert ((if (0 <? i')%nat then mret tt else up 1 0) h2 = (Ok tt, h2)) as Eu by (by destruct (0 <? i')%nat). run_by Eu.
    assert (lh_heap h2 !! n = Some e0) as Hlast by (rewrite D by done; unfold h1; rewrite swapped_lookup by done; by rewrite decide_True).
    destruct h2 as [l m]. cbn in *. assert (l = take n l ++ [e0]) as El.
    { rewrite <- (take_drop_middle l n e0 Hlast) at 1. rewrite drop_ge by (unfold n in *; lia). done. }
    rewrite El in A |- *. destruct (hPop_spec (take n l) e0 m A) as [E' HI']. exists (mkLruHeap (take n l) (delete (le_r e0) m)).
    split; [exact E'|]. split.
    + split; [done|]. cbn. rewrite length_take. intros k Hk. pose proof (parent_lt k ltac:(lia)). unfold key.
      rewrite !lookup_take_lt by lia. apply C. lia.
    + cbn. rewrite <- HP1, <- B. rewrite El at 1. by rewrite Permutation_app_comm.
Qed.

(** ** The reference: a list, the most recently used round last *)

Definition lruGet (r : Round) (l : list (Round * X)) : option X * list (Round * X) :=
  match filter (λ p, p.1 = r) l with
  | [] => (None, l)
  | p :: _ => (Some p.2, filter (λ p, p.1 <> r) l ++ [p])
  end.
Definition lruPut (max : Z) (r : Round) (x : X) (l : list (Round * X)) : list (Round * X) :=
  if decide (r ∈ l.*1) then (λ p, if decide (p.1 = r) then (r, x) else p) <$> l
  else drop (length l + 1 - Z.to_nat max) (l ++ [(r, x)]).

Definition view (e : entry) : Round * X := (le_r e, le_x e).
Definition older (a b : entry) : Prop := le_useIndex a < le_useIndex b.

(** The entries in the order of their last use are the list. *)
Record in_order (h : lheap) (next : Z) (l : list (Round * X)) (es : list entry) : Prop := {
  io_perm : es ≡ₚ lh_heap h;
  io_sorted : StronglySorted older es;
  io_view : view <$> es = l;
  io_next e : e ∈ es -> le_useIndex e < next
}.
Record lru_rel (l : list (Round * X)) (c : heapLRUCache X) : Prop := {
  lr_max : 1 <= hlc_maxEntries c;
  lr_len : zlen l <= hlc_maxEntries c;
  lr_next : 0 <= hlc_nextUseIndex c;
  lr_entries : match hlc_entries c with
               | None => l = []
               | Some h => heap_ok h /\ exists es, in_order h (hlc_nextUseIndex c) l es
               end
}.

Lemma rounds_NoDup h : index_ok h -> NoDup (le_r <$> lh_heap h).
Proof.
  intros HI. apply NoDup_alt. intros i j r Hi Hj. apply list_lookup_fmap_Some in Hi as (ei & -> & Hi), Hj as (ej & E & Hj).
  by eapply index_inj.
Qed.

(** The entry the index finds, in its place among the others. *)
Lemma found h next l es r i e : heap_ok h -> in_order h next l es -> lh_lookup h !! r = Some i -> lh_heap h !! i = Some e ->
  le_r e = r /\ exists es1 es2, es = es1 ++ e :: es2 /\ (forall e', e' ∈ es1 ++ es2 -> le_r e' <> r).
Proof.
  intros [HI _] [HP _ _ _] Hr He. pose proof (proj1 (HI r i) Hr) as (e' & He' & <-). rewrite He in He'. injection He' as <-.
  split; [done|]. assert (e ∈ es) as Hin by (rewrite HP; by eapply list_elem_of_lookup_2). apply list_elem_of_split in Hin as (es1 & es2 & ->).
  exists es1, es2. split; [done|]. pose proof (rounds_NoDup h HI) as Hnd. rewrite <- HP in Hnd.
  rewrite fmap_app, fmap_cons in Hnd. rewrite <- Permutation_middle in Hnd. apply NoDup_cons in Hnd as [Hn _]. rewrite <- fmap_app in Hn.
  intros e' He' E. apply Hn. rewrite <- E. by apply list_elem_of_fmap_2.
Qed.
Lemma not_found h next l es r : heap_ok h -> in_order h next l es -> lh_lookup h !! r = None -> r ∉ l.*1.
Proof.
  intros [HI _] [HP _ <- _] Hr Hin. apply list_elem_of_fmap in Hin as ([r' x] & -> & Hin). apply list_elem_of_fmap in Hin as (e & [= -> ->] & Hin).
  rewrite HP in Hin. apply list_elem_of_lookup in Hin as [i Hi]. cbn in Hr. rewrite (proj2 (HI (le_r e) i)) in Hr; [done|eauto].
Qed.

Lemma filter_others (es : list entry) r : (forall e, e ∈ es -> le_r e <> r) ->
  filter (λ p, p.1 = r) (view <$> es) = [] /\ filter (λ p, p.1 <> r) (view <$> es) = view <$> es.
Proof.
  induction es as [|e es IH]; intros H; [done|]. destruct IH as [I1 I2]; [set_solver|]. specialize (H e ltac:(set_solver)).
  rewrite fmap_cons, !filter_cons. cbn. rewrite decide_False by done. rewrite decide_True by done. by rewrite I1, I2.
Qed.
Lemma map_others (es : list entry) r x : (forall e, e ∈ es -> le_r e <> r) -> (λ p, if decide (p.1 = r) then (r, x) else p) <$> (view <$> es) = view <$> es.
Proof.
  induction es as [|e es IH]; intros H; [done|]. rewrite !fmap_cons, IH by set_solver. cbn. by rewrite decide_False by set_solver.
Qed.

Lemma inc_run (c : heapLRUCache X) : 0 <= hlc_nextUseIndex c < MaxInt -> inc c = c <| hlc_nextUseIndex := hlc_nextUseIndex c + 1 |>.
Proof.
  intros H. unfold inc, wrapInt, MaxInt in *. cbn. rewrite Z.mod_small by lia. replace (_ + 1 + 2 ^ 63 - 2 ^ 63) with (hlc_nextUseIndex c + 1) by lia.
  unfold reIndex. destruct (_ =? _); [cbn; by destruct (hlc_entries c)|done].
Qed.

(** Changing an entry in place. *)
Lemma insert_perm (l l1 l2 : list entry) i e e' : l1 ++ e :: l2 ≡ₚ l -> l !! i = Some e -> l1 ++ e' :: l2 ≡ₚ <[i := e']> l.
Proof.
  intros HP Hi. rewrite insert_take_drop by (by eapply lookup_lt_Some). rewrite <- (take_drop_middle l i e Hi) in HP.
  rewrite <- !Permutation_middle in HP |- *. apply Permutation_cons_inv in HP. by rewrite HP.
Qed.
Lemma insert_index h i e e' : index_ok h -> lh_heap h !! i = Some e -> le_r e' = le_r e -> index_ok (mkLruHeap (<[i := e']> (lh_heap h)) (lh_lookup h)).
Proof.
  intros HI Hi Hr r k. cbn. rewrite (HI r k). apply lookup_lt_Some in Hi as Hlt. destruct (decide (k = i)) as [->|].
  - rewrite list_lookup_insert_eq by done. rewrite Hi. split; intros (x & [= <-] & Hx); eexists; (split; [done|]); congruence.
  - by rewrite list_lookup_insert_ne.
Qed.
Lemma key_insert (h : list entry) i e' k : (i < length h)%nat -> key (<[i := e']> h) k = if decide (k = i) then le_useIndex e' else key h k.
Proof.
  intros Hi. unfold key. destruct (decide (k = i)) as [->|]; [by rewrite list_lookup_insert_eq|by rewrite list_lookup_insert_ne].
Qed.

(** Raising an entry leaves it above its parent and perhaps above its children. *)
Lemma raise_ord (h : list entry) i e e' : heap_ord h (length h) -> h !! i = Some e -> le_useIndex e <= le_useIndex e' ->
  ord_but (<[i := e']> h) (length h) i /\
  (forall k, (0 < k < length h)%nat -> parent k = i -> (0 < i)%nat -> key (<[i := e']> h) (parent i) <= key (<[i := e']> h) k).
Proof.
  intros HO Hi Hle. apply lookup_lt_Some in Hi as Hlt. assert (key h i = le_useIndex e) as Hk by (unfold key; by rewrite Hi).
  split; intros k Hkn Hp; [|intros H0]; pose proof (parent_lt k ltac:(lia)); rewrite !key_insert by done.
  - rewrite (decide_False (P := parent k = i)) by done. destruct (decide (k = i)) as [->|]; [|by apply HO]. pose proof (HO i ltac:(lia)). lia.
  - pose proof (parent_lt i H0). rewrite !decide_False by lia. pose proof (HO i ltac:(lia)). pose proof (HO k ltac:(lia)). rewrite Hp in *. lia.
Qed.

(** A use moves the entry to the end. *)
Lemma used_in_order h h' next l es1 e es2 e' : in_order h next l (es1 ++ e :: es2) -> lh_heap h' ≡ₚ es1 ++ e' :: es2 ->
  le_useIndex e' = next -> view e' = view e -> in_order h' (next + 1) ((view <$> (es1 ++ es2)) ++ [view e]) (es1 ++ es2 ++ [e']).
Proof.
  intros [_ HS _ Hlt] HP' Hn Hv. split.
  - rewrite HP'. by rewrite <- Permutation_cons_append.
  - apply StronglySorted_app in HS as (S1 & S2 & S3). apply StronglySorted_inv in S3 as [S3 _].
    apply StronglySorted_app. split; [|split; [done|apply StronglySorted_app; split; [|split; [done|repeat constructor]]]]; unfold older.
    + intros a b Ha [Hb|Hb]%elem_of_app; [apply S1; set_solver|]. apply list_elem_of_singleton in Hb as ->. rewrite Hn. apply Hlt. set_solver.
    + intros a b Ha Hb. apply list_elem_of_singleton in Hb as ->. rewrite Hn. apply Hlt. set_solver.
  - by rewrite app_assoc, fmap_app, <- Hv.
  - intros a Ha. rewrite !elem_of_app, list_elem_of_singleton in Ha.
    destruct Ha as [Ha|[Ha| ->]]; [..|lia]; (etrans; [apply Hlt; set_solver|lia]).
Qed.

Lemma Get_spec r l c : lru_rel l c -> hlc_nextUseIndex c < MaxInt ->
  exists c', Get r c = (Ok (lruGet r l).1, c') /\ lru_rel (lruGet r l).2 c' /\ hlc_maxEntries c' = hlc_maxEntries c /\
    hlc_nextUseIndex c <= hlc_nextUseIndex c' <= hlc_nextUseIndex c + 1.
Proof.
  intros [HM HL HN HE] Hnext. unfold Get, lruGet. destruct (hlc_entries c) as [h|] eqn:Ec; [|subst l; exists c; split; [done|]; split; [split; by rewrite ?Ec|lia]].
  destruct HE as (HK & es & HO). destruct (lh_lookup h !! r) as [i|] eqn:Er.
  - destruct (proj1 (ho_index _ HK r i) Er) as (e & He & _). rewrite He. destruct (found h _ l es r i e HK HO Er He) as (Hre & es1 & es2 & -> & Hothers).
    destruct HO as [HP HS <- Hlt]. set (e' := e <| le_useIndex := hlc_nextUseIndex c |>).
    assert (le_useIndex e < hlc_nextUseIndex c) as Helt by (apply Hlt; set_solver).
    destruct (raise_ord (lh_heap h) i e e' (ho_ord _ HK) He ltac:(cbn; lia)) as [HB HH].
    destruct (heapFix_spec i (mkLruHeap (<[i := e']> (lh_heap h)) (lh_lookup h))) as (h' & Ef & HK' & HP').
    { by eapply (insert_index h i e); [apply HK|..]. }
    { cbn. rewrite length_insert. by eapply lookup_lt_Some. }
    { cbn. by rewrite length_insert. }
    { cbn. by rewrite length_insert. }
    destruct (filter_others es1 r) as [F1 F2]; [set_solver|]. destruct (filter_others es2 r) as [F3 F4]; [set_solver|].
    assert (filter (λ p, p.1 = r) (view <$> es1 ++ e :: es2) = [view e]) as ->.
    { rewrite fmap_app, fmap_cons, filter_app, filter_cons, F1. rewrite decide_True by done. by rewrite F3. }
    assert (filter (λ p, p.1 <> r) (view <$> es1 ++ e :: es2) = view <$> (es1 ++ es2)) as ->.
    { rewrite fmap_app, fmap_cons, filter_app, filter_cons, F2. rewrite decide_False by (cbn; tauto). by rewrite F4, fmap_app. }
    unfold onEntries. replace (h <| lh_heap ::= <[i := e']> |>) with (mkLruHeap (<[i := e']> (lh_heap h)) (lh_lookup h)) by done. rewrite Ef.
    rewrite inc_run by lia. eexists. split; [done|]. cbn. split; [|split; [done|lia]]. split; cbn; [done| |lia|].
    { unfold zlen in *. rewrite length_app, !length_fmap, !length_app in *. cbn in *. lia. }
    split; [done|]. exists (es1 ++ es2 ++ [e']). eapply (used_in_order h h' _ _ es1 e es2 e'); [by split| |done|done].
    rewrite HP'. cbn. by rewrite <- (insert_perm (lh_heap h) es1 es2 i e e').
  - pose proof (not_found h _ l es r HK HO Er) as Hn. destruct HO as [HP HS <- Hlt]. destruct (filter_others es r) as [-> _].
    { intros e He E. apply Hn. rewrite <- list_fmap_compose. rewrite <- E. by apply (list_elem_of_fmap_2 (fst ∘ view)). }
    exists c. split; [done|]. split; [|lia]. split; rewrite ?Ec; eauto using in_order.
Qed.

Lemma Put_found r x l h c es i e : lru_rel l c -> hlc_entries c = Some h -> heap_ok h -> in_order h (hlc_nextUseIndex c) l es ->
  lh_lookup h !! r = Some i -> lh_heap h !! i = Some e ->
  lru_rel (lruPut (hlc_maxEntries c) r x l) (c <| hlc_entries := Some (h <| lh_heap ::= <[i := e <| le_x := x |>]> |>) |>).
Proof.
  intros [HM HL HN _] Ec HK HO Er He. destruct (found h _ l es r i e HK HO Er He) as (Hre & es1 & es2 & -> & Hothers).
  destruct HO as [HP HS <- Hlt]. set (e' := e <| le_x := x |>). unfold lruPut.
  rewrite decide_True; [|rewrite <- Hre, <- list_fmap_compose; apply (list_elem_of_fmap_2 (fst ∘ view)); set_solver].
  split; cbn; [done|unfold zlen in *; by rewrite length_fmap|done|]. split; [split|].
  - by eapply (insert_index h i e); [apply HK|..].
  - intros k Hk. cbn in *. rewrite length_insert in Hk. apply lookup_lt_Some in He as Hlti. rewrite !key_insert by done.
    assert (key (lh_heap h) i = le_useIndex e') as <- by (unfold key; by rewrite He). 
    assert (forall m, (if decide (m = i) then key (lh_heap h) i else key (lh_heap h) m) = key (lh_heap h) m) as Hs by (intros; case_decide; congruence).
    rewrite !Hs. by apply (ho_ord _ HK).
  - exists (es1 ++ e' :: es2). split.
    + cbn. by apply (insert_perm _ _ _ _ e).
    + apply StronglySorted_app in HS as (S1 & S2 & S3). apply StronglySorted_inv in S3 as [S3 S4].
      apply StronglySorted_app. split; [|split; [done|by constructor]].
      intros a b Ha [->|Hb]%elem_of_cons; [apply (S1 a e Ha); set_solver|apply S1; set_solver].
    + rewrite !fmap_app, !fmap_cons, map_others, map_others by set_solver. cbn. rewrite decide_True by done. unfold view. cbn. by rewrite Hre.
    + intros a Ha. rewrite elem_of_app, elem_of_cons in Ha. destruct Ha as [Ha|[->|Ha]]; [apply Hlt; set_solver|apply (Hlt e); set_solver|apply Hlt; set_solver].
Qed.

(** The oldest entry is the first of the heap. *)
Lemma oldest_first h next l es e0 e es' : heap_ok h -> in_order h next l es -> lh_heap h !! 0%nat = Some e0 -> es = e :: es' -> e = e0.
Proof.
  intros HK [HP HS _ _] H0 ->. apply StronglySorted_inv in HS as [_ HF]. rewrite Forall_forall in HF.
  assert (e0 ∈ e :: es') as [->|Hin]%elem_of_cons by (rewrite HP; by eapply list_elem_of_lookup_2); [done|].
  specialize (HF e0 Hin). unfold older in HF. assert (e ∈ lh_heap h) as He by (rewrite <- HP; set_solver). apply list_elem_of_lookup in He as [k Hk].
  pose proof (heap_min (lh_heap h) e0 k (ho_ord _ HK) H0 ltac:(by eapply lookup_lt_Some)). unfold key in *. rewrite Hk in *. cbn in *. lia.
Qed.

Lemma shrink_none fuel max (h : lheap) : (0 < fuel)%nat -> Z.of_nat (length (lh_heap h)) <= max -> shrink fuel max h = (Ok tt, h).
Proof. intros Hf Hm. destruct fuel; [lia|]. cbn [shrink]. unfold Len. run. by rewrite (proj2 (Z.ltb_ge _ _)) by lia. Qed.

(** With one entry too many the oldest goes. *)
Lemma shrink_one fuel max h next l es : (1 < fuel)%nat -> heap_ok h -> in_order h next l es -> Z.of_nat (length l) = max + 1 -> 0 <= max ->
  exists h', shrink fuel max h = (Ok tt, h') /\ heap_ok h' /\ in_order h' next (drop 1 l) (drop 1 es).
Proof.
  intros Hf HK HO Hlen Hmax. pose proof HO as [HP HS <- Hlt]. rewrite length_fmap in Hlen. pose proof (Permutation_length HP) as HL.
  destruct fuel as [|fuel]; [lia|]. cbn [shrink]. unfold Len. run. rewrite (proj2 (Z.ltb_lt _ _)) by lia.
  destruct (lookup_lt_is_Some_2 (lh_heap h) 0) as [e0 H0]; [lia|]. destruct (heapRemove_spec h e0 HK H0) as (h' & Eh & HK' & HP').
  destruct es as [|e es]; [cbn in Hlen; lia|]. pose proof (oldest_first _ _ _ _ _ _ _ HK HO H0 eq_refl) as ->.
  rewrite HP' in HP. apply Permutation_cons_inv in HP. apply Permutation_length in HP as HL'. cbn in *.
  exists h'. run_by Eh. apply StronglySorted_inv in HS as [HS _]. split; [apply shrink_none; lia|]. split; [done|].
  split; [done|by destruct es|by destruct es|]. intros a Ha. apply Hlt. destruct es; set_solver.
Qed.

Lemma Put_spec r x l c : lru_rel l c -> hlc_nextUseIndex c < MaxInt ->
  exists c', Put r x c = (Ok tt, c') /\ lru_rel (lruPut (hlc_maxEntries c) r x l) c' /\ hlc_maxEntries c' = hlc_maxEntries c /\
    hlc_nextUseIndex c <= hlc_nextUseIndex c' <= hlc_nextUseIndex c + 1.
Proof.
  intros HR Hnext. pose proof HR as [HM HL HN HE]. unfold Put. destruct (hlc_entries c) as [h|] eqn:Ec.
  - destruct HE as (HK & es & HO). destruct (lh_lookup h !! r) as [i|] eqn:Er.
    + destruct (proj1 (ho_index _ HK r i) Er) as (e & He & _). rewrite He. eexists. split; [done|]. split; [by eapply Put_found|cbn; lia].
    + pose proof (not_found h _ l es r HK HO Er) as Hn. unfold lruPut. rewrite decide_False by done. unfold onEntries.
      pose proof HO as [HP HS Hv Hlt]. set (x' := mkLruEntry (hlc_nextUseIndex c) r x).
      destruct (heapPush_spec x' h HK Er) as (h1 & Ep & HK1 & EP1); [intros e He; apply Hlt; by rewrite HP|].
      assert (in_order h1 (hlc_nextUseIndex c + 1) (l ++ [(r, x)]) (es ++ [x'])) as HO1.
      { split; [by rewrite EP1, HP|apply StronglySorted_app; split; [|split; [done|repeat constructor]]|by rewrite fmap_app, Hv|].
        - intros a b Ha Hb. apply list_elem_of_singleton in Hb as ->. by apply Hlt.
        - intros a [Ha|Ha]%elem_of_app; [etrans; [by apply Hlt|lia]|]. apply list_elem_of_singleton in Ha as ->. cbn. lia. }
      assert (length (lh_heap h1) = length l + 1)%nat as HL1 by (rewrite EP1, length_app, <- HP, <- Hv, length_fmap; done).
      assert (exists h2 es2, shrink (length (lh_heap h) + 3) (hlc_maxEntries c) h1 = (Ok tt, h2) /\ heap_ok h2 /\
        in_order h2 (hlc_nextUseIndex c + 1) (drop (length l + 1 - Z.to_nat (hlc_maxEntries c)) (l ++ [(r, x)])) es2) as (h2 & es2 & Es & HK2 & HO2).
      { unfold zlen in *. destruct (decide (Z.of_nat (length l) < hlc_maxEntries c)).
        - exists h1, (es ++ [x']). split; [apply shrink_none; lia|]. split; [done|]. by replace (_ + 1 - _)%nat with 0%nat by lia.
        - destruct (shrink_one (length (lh_heap h) + 3) (hlc_maxEntries c) h1 _ _ _ ltac:(lia) HK1 HO1) as (h2 & Es & HK2 & HO2); [rewrite length_app; cbn; lia|lia|].
          exists h2, (drop 1 (es ++ [x'])). split; [done|]. split; [done|]. by replace (_ + 1 - _)%nat with 1%nat by lia. }
      rewrite (bind_run _ _ _ _ _ Ep), Es. cbn. eexists. split; [done|]. rewrite inc_run by (cbn; lia). cbn. split; [|split; [done|lia]].
      split; cbn; [done| |lia|eauto]. unfold zlen in *. rewrite length_drop, length_app. cbn. lia.
  - subst l. eexists. split; [done|]. rewrite inc_run by (cbn; lia). cbn. split; [|split; [done|lia]]. unfold lruPut. cbn.
    rewrite decide_False by set_solver. replace (1 - Z.to_nat (hlc_maxEntries c))%nat with 0%nat by lia. cbn.
    split; cbn; [done|done|lia|]. split; [split|].
    + intros r' k. cbn. split.
      * intros [<- <-]%lookup_singleton_Some. eexists. done.
      * intros (e & [-> <-]%list_lookup_singleton_Some & <-). cbn. apply lookup_singleton_eq.
    + intros k Hk. cbn in Hk. lia.
    + eexists. split; [done|repeat constructor|done|]. intros e ->%list_elem_of_singleton. cbn. lia.
Qed.

(** ** Runs *)

Inductive cacheOp := OpGet (r : Round) | OpPut (r : Round) (x : X).

Definition cacheStep (o : cacheOp) : M (heapLRUCache X) (option X) :=
  match o with OpGet r => Get r | OpPut r x => _ ← Put r x; mret None end.
Fixpoint cacheRun (ops : list cacheOp) : M (heapLRUCache X) (list (option X)) :=
  match ops with
  | [] => mret []
  | o :: ops => out ← cacheStep o; outs ← cacheRun ops; mret (out :: outs)
  end.

Fixpoint lruRun (max : Z) (ops : list cacheOp) (l : list (Round * X)) : list (option X) * list (Round * X) :=
  match ops with
  | [] => ([], l)
  | OpGet r :: ops => let '(outs, l') := lruRun max ops (lruGet r l).2 in ((lruGet r l).1 :: outs, l')
  | OpPut r x :: ops => let '(outs, l') := lruRun max ops (lruPut max r x l) in (None :: outs, l')
  end.

Lemma cacheRun_spec ops : forall l c, lru_rel l c -> hlc_nextUseIndex c + zlen ops <= MaxInt ->
  exists c', cacheRun ops c = (Ok (lruRun (hlc_maxEntries c) ops l).1, c') /\ lru_rel (lruRun (hlc_maxEntries c) ops l).2 c'.
Proof.
  induction ops as [|o ops IH]; intros l c HR Hn; [by exists c|]. unfold zlen in *. cbn [length] in Hn. destruct o as [r|r x]; cbn [cacheRun cacheStep lruRun].
  - destruct (Get_spec r l c HR ltac:(lia)) as (c1 & E1 & HR1 & HM & HN). run_by E1. destruct (IH _ _ HR1) as (c' & E & HR'); [lia|]. rewrite HM in *.
    run_by E. exists c'. by destruct (lruRun _ _ _).
  - destruct (Put_spec r x l c HR ltac:(lia)) as (c1 & E1 & HR1 & HM & HN). rewrite bind_assoc_run. run_by E1. run. destruct (IH _ _ HR1) as (c' & E & HR'); [lia|]. rewrite HM in *.
    run_by E. exists c'. by destruct (lruRun _ _ _).
Qed.

(** Any sequence of [Get] and [Put] on a new cache, up to [2^63 - 1] of them, answers like
    the list of the [max] most recently used rounds and never panics. *)
Theorem cache_is_lru ops max : 1 <= max -> zlen ops <= MaxInt ->
  exists c, cacheRun ops (mkHeapLRUCache None 0 max) = (Ok (lruRun max ops []).1, c) /\ lru_rel (lruRun max ops []).2 c.
Proof.
  intros Hm Hn. apply (cacheRun_spec ops [] (mkHeapLRUCache None 0 max)); [|cbn; lia]. split; cbn; [done|unfold zlen; cbn; lia|done|done].
Qed.

(** What the list holds was put there. *)
Lemma lruGet_elem r l p : p ∈ (lruGet r l).2 -> p ∈ l.
Proof.
  unfold lruGet. destruct (filter (λ p, p.1 = r) l) as [|q qs] eqn:E; [done|]. cbn. intros [Hp|Hp]%elem_of_app.
  - by apply list_elem_of_filter in Hp as [_ ?].
  - apply list_elem_of_singleton in Hp as ->. assert (q ∈ filter (λ p, p.1 = r) l) as Hq by (rewrite E; set_solver).
    by apply list_elem_of_filter in Hq as [_ ?].
Qed.
Lemma lruGet_Some r l x : (lruGet r l).1 = Some x -> (r, x) ∈ l.
Proof.
  unfold lruGet. destruct (filter (λ p, p.1 = r) l) as [|[r' x'] qs] eqn:E; [done|]. cbn. intros [= ->].
  assert ((r', x) ∈ filter (λ p, p.1 = r) l) as Hq by (rewrite E; set_solver). apply list_elem_of_filter in Hq as [Hr ?]. cbn in Hr. by subst.
Qed.
Lemma lruPut_elem max r x l p : p ∈ lruPut max r x l -> p ∈ l \/ p = (r, x).
Proof.
  unfold lruPut. destruct (decide _).
  - intros (q & -> & Hq)%list_elem_of_fmap. destruct (decide _); [by right|by left].
  - intros Hp%list_elem_of_In. assert (p ∈ l ++ [(r, x)]) as Hin.
    { rewrite <- (take_drop (length l + 1 - Z.to_nat max) (l ++ [(r, x)])). apply elem_of_app. right. by apply list_elem_of_In. }
    rewrite elem_of_app, list_elem_of_singleton in Hin. done.
Qed.
End Spec.

(** ** Witness *)

Definition demo : list (cacheOp (X := Z)) := [OpPut 1 10; OpPut 2 20; OpGet 1; OpPut 3 30; OpGet 2; OpGet 1; OpPut 3 31; OpGet 3].
Lemma cache_is_lru_witness : exists c,
  cacheRun demo (mkHeapLRUCache None 0 2) = (Ok [None; None; Some 10; None; None; Some 10; None; Some 31], c) /\ lru_rel [(1, 10); (3, 31)] c.
Proof. exact (cache_is_lru demo 2 ltac:(lia) ltac:(vm_compute; discriminate)). Defined.
