(* ===== verification/LedgerStore.v ===== *)
(** The ledger around its queue of blocks and its trackers (src/ledger/ledger.go): opening,
    adding blocks, telling the trackers what is on disk, reading.

    [ledger_step] interleaves the goroutines: a caller of [AddValidatedBlock], which holds
    the lock of the trackers from [putBlock] to [newBlock], the syncer of the queue, a
    failure of any transaction, and a crash at any point followed by [OpenLedger]. *)

From S2P Require Import Prelude Config Basics Transactions Bookkeeping Cow Agreement BlockDB BlockQueue Trackers HeaderCache.

Section Ledger.
Context {Blob : Type} `{!Codec Blob} {S : Type}.
Variable consensus : gmap string ConsensusParams.
Variable trackers : Registry.trackerRegistry S.
(** The blocks and deltas that a [ValidatedBlock] can hold. *)
Variable validated : Block -> StateDelta -> Prop.

(** [InitState], but for the accounts, which belong to the accounts tracker. *)
Record InitState := mkInitState { is_Block : Block; is_GenesisHash : Digest }.

Record Ledger := mkLedger {
  l_blockDB : blockDB Blob;
  l_blockQ : blockQueue;
  l_syncer : syncerPC;
  l_adding : option (Block * StateDelta);  (* a caller between putBlock and newBlock *)
  l_archival : bool;
  l_trackers : S
}.
#[export] Instance Ledger_eta : Eta Ledger := λ r,
  mkLedger (l_blockDB r) (l_blockQ r) (l_syncer r) (l_adding r) (l_archival r) (l_trackers r).

(** ** Opening *)

(** What the trackers see of a queue that was just opened. *)
Definition forTrackers (bq : blockQueue) (env : weather) (db : blockDB Blob) : ledgerForTracker := mkLedgerForTracker
  (bq_latest bq) (λ r, getBlock r bq env db) (λ r, getBlockHdr r bq env db) (λ r, getBlockAux r bq env db).

Definition checkGenesisHash (hash : Digest) : M (blockDB Blob) unit :=
  latest ← blockLatest;
  hdr ← blockGetHdr latest;
  guardE (negb (cp_SupportGenesisHash (protoOf consensus (bh_CurrentProtocol hdr)) && bool_decide (bh_GenesisHash hdr <> hash)))
    (Errorf "latest block genesis hash does not match expected genesis hash").

(** [env i] is what happens to the [i]th transaction; [s] the trackers before loading. *)
Definition OpenLedger (env : nat -> weather) (genesis : InitState) (isArchival : bool) (s : S) (db : blockDB Blob)
    : result Ledger * blockDB Blob :=
  match Atomic (env 0%nat) (initBlocksDB [is_Block genesis] isArchival) db with
  | (Ok _, db) =>
    (bq ← bqInit (env 1%nat) db;
     s ← Registry.loadFromDisk trackers (forTrackers bq (env 2%nat) db) s;
     _ ← (Atomic (env 3%nat) (checkGenesisHash (is_GenesisHash genesis)) db).1;
     Ok (mkLedger db bq AtLoop None isArchival s), db)
  | (Err e, db) => (Err e, db)
  | (Panic m, db) => (Panic m, db)
  end.

(** ** Committing *)

Definition notifyCommit (now : Z) (r : Round) (archival : bool) (s : S) : result (Round * S) :=
  m ← Registry.committedUpTo trackers now r s;
  Ok (if archival then 0 else m.1, m.2).

(** ** Reading and waiting: the queue may be read before the database *)

Definition Latest (l : Ledger) : Round := bq_latest (l_blockQ l).
Definition LatestCommitted (l : Ledger) : Round := bq_latestCommitted (l_blockQ l).
Definition BlockAt (r : Round) (l l' : Ledger) (env : weather) : result Block := getBlock r (l_blockQ l) env (l_blockDB l').
Definition BlockCert (r : Round) (l l' : Ledger) (env : weather) : result (Block * Certificate) :=
  getBlockCert r (l_blockQ l) env (l_blockDB l').
Definition EncodedBlockCert (r : Round) (l l' : Ledger) (env : weather) : result (Blob * Blob) :=
  getEncodedBlockCert r (l_blockQ l) env (l_blockDB l').
Definition blockAux (r : Round) (l l' : Ledger) (env : weather) : result (Block * evalAux) :=
  getBlockAux r (l_blockQ l) env (l_blockDB l').

(** The cache of headers has its own lock; [l] and [l'] as above when it does not know [r]. *)
Definition BlockHdr (r : Round) (l l' : Ledger) (env : weather) : M (heapLRUCache BlockHeader) BlockHeader :=
  value ← Get r;
  match value with
  | Some blk => mret blk
  | None =>
    blk ← lift (getBlockHdr r (l_blockQ l) env (l_blockDB l'));
    _ ← Put r blk;
    mret blk
  end.

(** ** Interleaving *)

Inductive label :=
| LAdd (e : blockEntry)
| LRefuse (err : error)
| LNewBlock (r : Round)
| LSyncer
| LCommitted (r minToSave : Round)
| LReopen.

(** Rounds end at [2^64 - 1]: no block is added after that. *)
Inductive ledger_step (genesis : InitState) : Ledger -> label -> Ledger -> Prop :=
| step_put l blk delta cert aux bq :
    validated blk delta -> l_adding l = None -> bq_latest (l_blockQ l) < maxUint64 ->
    putBlock blk cert aux (l_blockQ l) = (Ok tt, bq) ->
    ledger_step genesis l (LAdd (mkBlockEntry blk cert aux)) (l <| l_blockQ := bq |> <| l_adding := Some (blk, delta) |>)
| step_refuse l blk cert aux e bq :
    l_adding l = None -> putBlock blk cert aux (l_blockQ l) = (Err e, bq) ->
    ledger_step genesis l (LRefuse e) (l <| l_blockQ := bq |>)
| step_newBlock l blk delta s :
    l_adding l = Some (blk, delta) -> Registry.newBlock trackers blk delta (l_trackers l) = Ok s ->
    ledger_step genesis l (LNewBlock (blk_Round blk)) (l <| l_adding := None |> <| l_trackers := s |>)
| step_wake l :
    l_syncer l = AtLoop -> ledger_step genesis l LSyncer (l <| l_syncer := syncer_wake (l_blockQ l) |>)
| step_flush l env workQ pc db :
    l_syncer l = Flushing workQ -> syncer_flush env workQ (l_blockDB l) = (pc, db) ->
    ledger_step genesis l LSyncer (l <| l_blockDB := db |> <| l_syncer := pc |>)
| step_flushed l workQ r pc bq :
    l_syncer l = Flushed workQ r -> syncer_flushed workQ r (l_blockQ l) = Ok (pc, bq) ->
    ledger_step genesis l LSyncer (l <| l_blockQ := bq |> <| l_syncer := pc |>)
| step_notify l now c m s :
    l_syncer l = Notifying c -> l_adding l = None -> notifyCommit now c (l_archival l) (l_trackers l) = Ok (m, s) ->
    ledger_step genesis l (LCommitted c m) (l <| l_syncer := Forgetting m |> <| l_trackers := s |>)
| step_forget l env m pc db :
    l_syncer l = Forgetting m -> syncer_forget env m (l_blockDB l) = (pc, db) ->
    ledger_step genesis l LSyncer (l <| l_blockDB := db |> <| l_syncer := pc |>)
| step_close l : ledger_step genesis l LSyncer (l <| l_blockQ := bq_close (l_blockQ l) |>)
| step_reopen l env s l' db :
    OpenLedger env genesis (l_archival l) s (l_blockDB l) = (Ok l', db) ->
    ledger_step genesis l LReopen l'.

Inductive ledger_run (genesis : InitState) : Ledger -> list label -> Ledger -> Prop :=
| run_nil l : ledger_run genesis l [] l
| run_snoc l ls l' lab l'' :
    ledger_run genesis l ls l' -> ledger_step genesis l' lab l'' -> ledger_run genesis l (ls ++ [lab]) l''.
End Ledger.
Arguments Ledger : clear implicits.
