(* ===== verification/LedgerStoreSpec.v ===== *)
(** What the ledger promises about its blocks, over every interleaving of callers, the
    syncer, failing transactions, crashes and restarts.

    The abstract ledger [achain] is one list of blocks, of which the first [ac_durable]
    are on disk, the first [ac_lo] have been deleted, and the trackers have released the
    first [ac_floor].  [store_inv] relates it to the
    table, the queue and the program counter of the syncer. *)

From S2P Require Import Prelude Config Basics Transactions Bookkeeping Cow Agreement BlockDB BlockQueue Trackers LedgerStore.

(** ** Extrema of the keys *)

Section Extrema.
Context (op : Z -> Z -> Z) (le : Z -> Z -> Prop).
Hypothesis op_choice : forall a b, op a b = a \/ op a b = b.
Hypothesis op_le : forall a b, le (op a b) a /\ le (op a b) b.
Hypothesis le_trans : forall a b c, le a b -> le b c -> le a c.
Hypothesis le_antisymm : forall a b, le a b -> le b a -> a = b.

Let fold (l : list Z) := foldr (λ k m, Some (default k (op k <$> m))) None l.

Lemma extremum_fold l : match fold l with None => l = [] | Some m => m ∈ l /\ forall k, k ∈ l -> le m k end.
Proof using op_choice op_le le_trans le_antisymm.
  induction l as [|x l IH]; cbn; [done|]. fold (fold l). destruct (fold l) as [m|]; cbn.
  - destruct IH as [Hm Hle]. destruct (op_le x m) as [H1 H2]. split.
    + destruct (op_choice x m) as [->| ->]; set_solver.
    + intros k [->|Hk]%elem_of_cons; [done|]. eauto.
  - subst l. split; [set_solver|]. intros k ->%list_elem_of_singleton.
    destruct (op_le x x) as [H _]. by destruct (op_choice x x) as [E|E]; rewrite E in H.
Qed.

Lemma extremum_unique l m : m ∈ l -> (forall k, k ∈ l -> le m k) -> fold l = Some m.
Proof using op_choice op_le le_trans le_antisymm.
  intros Hm Hle. pose proof (extremum_fold l) as H. destruct (fold l) as [m'|].
  - destruct H as [Hm' Hle']. f_equal. auto.
  - subst. set_solver.
Qed.
End Extrema.

Section Store.
Context {Blob : Type} `{!Codec Blob, !CodecLaws Blob}.
Notation table := (gmap Z (blockRow Blob)).

Lemma maxRnd_spec (t : table) m : is_Some (t !! m) -> (forall k, is_Some (t !! k) -> k <= m) -> maxRnd t = Some m.
Proof.
  intros Hm Hle. apply (extremum_unique Z.max (λ a b, b <= a)); try lia.
  - by apply elem_of_elements, elem_of_dom.
  - intros k Hk. by apply Hle, elem_of_dom, elem_of_elements.
Qed.
Lemma minRnd_spec (t : table) m : is_Some (t !! m) -> (forall k, is_Some (t !! k) -> m <= k) -> minRnd t = Some m.
Proof.
  intros Hm Hle. apply (extremum_unique Z.min (λ a b, a <= b)); try lia.
  - by apply elem_of_elements, elem_of_dom.
  - intros k Hk. by apply Hle, elem_of_dom, elem_of_elements.
Qed.

(** ** A table that holds a stretch of a chain *)

(** Block [i] of a chain is of round [i]. *)
Definition chain_ok (c : list blockEntry) : Prop := forall i e, c !! i = Some e -> be_Round e = Z.of_nat i.

Definition entryRow (e : blockEntry) : blockRow Blob := rowOf (be_block e) (be_cert e) (be_aux e).

(** The rows are those of the blocks [lo] to [hi - 1] of [c]. *)
Record holds (c : list blockEntry) (lo hi : Z) (t : table) : Prop := {
  holds_bounds : 0 <= lo < hi /\ hi <= zlen c /\ hi <= 2 ^ 63;
  holds_in k : lo <= k < hi -> t !! k = entryRow <$> c !! Z.to_nat k;
  holds_out k : ~ (lo <= k < hi) -> t !! k = None
}.

Lemma holds_Some c lo hi t k : holds c lo hi t -> is_Some (t !! k) <-> lo <= k < hi.
Proof.
  intros H. pose proof (holds_bounds _ _ _ _ H). split.
  - intros [? E]. destruct (decide (lo <= k < hi)); [done|]. rewrite (holds_out _ _ _ _ H) in E; done.
  - intros Hk. rewrite (holds_in _ _ _ _ H) by done. apply fmap_is_Some, lookup_lt_is_Some. unfold zlen in *. lia.
Qed.
Lemma holds_max c lo hi t : holds c lo hi t -> maxRnd t = Some (hi - 1).
Proof.
  intros H. pose proof (holds_bounds _ _ _ _ H).
  apply maxRnd_spec; [apply (holds_Some c lo hi t); [done|lia]|]. intros k Hk%(holds_Some c lo hi t k H). lia.
Qed.
Lemma holds_min c lo hi t : holds c lo hi t -> minRnd t = Some lo.
Proof.
  intros H. pose proof (holds_bounds _ _ _ _ H).
  apply minRnd_spec; [apply (holds_Some c lo hi t); [done|lia]|]. intros k Hk%(holds_Some c lo hi t k H). lia.
Qed.
Lemma holds_app c d lo hi t : holds c lo hi t -> holds (c ++ d) lo hi t.
Proof.
  intros [B I O]. unfold zlen in *. split; [unfold zlen; rewrite length_app; lia| |done].
  intros k Hk. rewrite I by done. rewrite lookup_app_l by lia. done.
Qed.
Lemma holds_take c lo hi t : holds c lo hi t -> holds (take (Z.to_nat hi) c) lo hi t.
Proof.
  intros [B I O]. unfold zlen in *. split; [unfold zlen; rewrite length_take; lia| |done].
  intros k Hk. rewrite I by done. rewrite lookup_take_lt by lia. done.
Qed.

(** The next block of the chain goes in; nothing else does. *)
Lemma blockPut_holds c lo hi t e db' u : holds c lo hi t -> 
  blockPut (be_block e) (be_cert e) (be_aux e) (Some t) = (Ok u, db') ->
  be_Round e = hi /\ hi < 2 ^ 63 /\ db' = Some (<[hi := entryRow e]> t).
Proof.
  intros H E. pose proof (holds_bounds _ _ _ _ H). unfold blockPut in E. inv_ok. cbn in *. inv_ok.
  rewrite (holds_max _ _ _ _ H) in *. inv_ok. unfold sqlArg in *. inv_ok. bool_hyps.
  change (blk_Round (be_block e)) with (be_Round e) in *.
  rewrite wrap64_small in * by (unfold u64; lia). replace (hi - 1 + 1) with hi in * by lia.
  split; [done|]. split; [lia|]. by replace (be_Round e) with hi.
Qed.
Lemma holds_insert c lo hi t e : holds c lo hi t -> hi < 2 ^ 63 -> c !! Z.to_nat hi = Some e ->
  holds c lo (hi + 1) (<[hi := entryRow e]> t).
Proof.
  intros [B I O] Hhi He. apply lookup_lt_Some in He as Hlt. unfold zlen in *. split; [unfold zlen; lia|..].
  - intros k Hk. destruct (decide (k = hi)) as [->|]; [rewrite lookup_insert_eq, He; done|].
    rewrite lookup_insert_ne by done. apply I. lia.
  - intros k Hk. rewrite lookup_insert_ne by lia. apply O. lia.
Qed.

Lemma putEntries_holds c lo w : forall hi t db' u, holds c lo hi t -> (forall i e, w !! i = Some e -> c !! (Z.to_nat hi + i)%nat = Some e) ->
  putEntries w (Some t) = (Ok u, db') -> exists t', db' = Some t' /\ holds c lo (hi + zlen w) t'.
Proof.
  induction w as [|e w IH]; intros hi t db' u H Hw E.
  - cbn in E. inv_ok. exists t. split; [done|]. unfold zlen. cbn. by rewrite Z.add_0_r.
  - cbn in E. inv_ok. match goal with H1 : blockPut _ _ _ _ = _ |- _ => destruct (blockPut_holds c lo hi t e _ _ H H1) as (Hr & Hlt & ->) end.
    pose proof (holds_bounds _ _ _ _ H).
    assert (c !! Z.to_nat hi = Some e) as He by (rewrite <- (Hw 0%nat e) by done; f_equal; lia).
    match goal with H2 : forM _ w _ = _ |- _ => eapply IH in H2 as (t' & -> & Ht') end.
    + exists t'. split; [done|]. unfold zlen in *. cbn. by replace (hi + Z.of_nat (S (length w))) with (hi + 1 + Z.of_nat (length w)) by lia.
    + by apply holds_insert.
    + intros i e' Hi. rewrite <- (Hw (S i) e') by done. f_equal. lia.
Qed.

Lemma holds_filter c lo hi t m : holds c lo hi t -> m < hi -> holds c (Z.max lo m) hi (filter (λ p, ¬ p.1 < m) t).
Proof.
  intros [B I O] Hm. split; [lia|..]; intros k Hk.
  - rewrite <- I by lia. destruct (t !! k) as [row|] eqn:Ek.
    + apply map_lookup_filter_Some. split; [done|cbn; lia].
    + apply map_lookup_filter_None. by left.
  - apply map_lookup_filter_None. destruct (decide (lo <= k < hi)); [right; cbn; intros; lia|left; by apply O].
Qed.
(** The next stretch of a chain can be written. *)
Lemma blockPut_next c lo hi t e : holds c lo hi t -> hi < 2 ^ 63 -> be_Round e = hi ->
  blockPut (be_block e) (be_cert e) (be_aux e) (Some t) = (Ok tt, Some (<[hi := entryRow e]> t)).
Proof.
  intros H Hhi He. pose proof (holds_bounds _ _ _ _ H). unfold blockPut, sqlArg, guardE. change (blk_Round (be_block e)) with (be_Round e). run.
  rewrite (holds_max _ _ _ _ H), He. rewrite wrap64_small by (unfold u64; lia). rewrite (proj2 (Z.eqb_eq _ _)) by lia.
  rewrite (proj2 (Z.ltb_lt hi (2 ^ 63))) by lia. do 3 run. rewrite bool_decide_eq_true_2 by (apply (holds_out _ _ _ _ H); lia). run. done.
Qed.
Lemma putEntries_next c lo w : chain_ok c -> zlen c <= 2 ^ 63 -> forall hi t, holds c lo hi t ->
  (forall i e, w !! i = Some e -> c !! (Z.to_nat hi + i)%nat = Some e) -> exists t', putEntries w (Some t) = (Ok tt, Some t').
Proof.
  intros Hc Hlen. induction w as [|e w IH]; intros hi t H Hw; [by exists t|]. pose proof (holds_bounds _ _ _ _ H).
  assert (c !! Z.to_nat hi = Some e) as He by (rewrite <- (Hw 0%nat e) by done; f_equal; lia).
  pose proof (lookup_lt_Some _ _ _ He). pose proof (Hc _ _ He). unfold zlen in *.
  destruct (IH (hi + 1) (<[hi := entryRow e]> t)) as (t' & E).
  - apply holds_insert; [done|lia|done].
  - intros i e' Hi. rewrite <- (Hw (S i) e') by done. f_equal. lia.
  - exists t'. cbn. run_by (blockPut_next c lo hi t e H ltac:(lia) ltac:(lia)). done.
Qed.

Lemma forget_holds c lo hi t m db' u : holds c lo hi t -> blockForgetBefore m (Some t) = (Ok u, db') ->
  m < hi /\ exists t', db' = Some t' /\ holds c (Z.max lo m) hi t'.
Proof.
  intros H E. pose proof (holds_bounds _ _ _ _ H). unfold blockForgetBefore, blockNext in E. inv_ok. cbn in *. inv_ok.
  rewrite (holds_max _ _ _ _ H) in *. unfold sqlArg in *. inv_ok. cbn in *. inv_ok. bool_hyps.
  rewrite wrap64_small in * by (unfold u64; lia). split; [lia|]. eexists. split; [done|]. apply holds_filter; [done|lia].
Qed.

(** Reading a block that is there, and one that is not. *)
Lemma selectRow_in c lo hi t r e : holds c lo hi t -> lo <= r < hi -> c !! Z.to_nat r = Some e ->
  selectRow r (Some t) = (Ok (entryRow e), Some t).
Proof.
  intros H Hr He. pose proof (holds_bounds _ _ _ _ H). unfold selectRow, sqlArg.
  rewrite (proj2 (Z.ltb_lt r (2 ^ 63))) by lia. unfold guardE. do 3 run. by rewrite (holds_in _ _ _ _ H), He.
Qed.
Lemma selectRow_out c lo hi t r : holds c lo hi t -> r < lo -> selectRow r (Some t) = (Err (ErrNoEntry r 0 0), Some t).
Proof.
  intros H Hr. pose proof (holds_bounds _ _ _ _ H). unfold selectRow, sqlArg.
  rewrite (proj2 (Z.ltb_lt r (2 ^ 63))) by lia. unfold guardE. do 3 run. by rewrite (holds_out _ _ _ _ H) by lia.
Qed.
End Store.

(** ** The abstract ledger *)

Record achain := mkAchain { ac_chain : list blockEntry; ac_lo : Z; ac_floor : Z; ac_durable : Z }.

(** Appending is the only way the chain grows; a crash loses what is not durable; blocks
    the trackers have released go, but never the newest durable one. *)
Inductive astep : achain -> label -> achain -> Prop :=
| a_append c lo f d e : be_Round e = zlen c -> astep (mkAchain c lo f d) (LAdd e) (mkAchain (c ++ [e]) lo f d)
| a_refuse a err : astep a (LRefuse err) a
| a_newBlock a r : astep a (LNewBlock r) a
| a_committed c lo f d r m : r < d -> m <= r -> astep (mkAchain c lo f d) (LCommitted r m) (mkAchain c lo (Z.max f m) d)
| a_idle a : astep a LSyncer a
| a_persist c lo f d d' : d <= d' <= zlen c -> astep (mkAchain c lo f d) LSyncer (mkAchain c lo f d')
| a_trim c lo f d lo' : lo <= lo' <= f -> lo' < d -> astep (mkAchain c lo f d) LSyncer (mkAchain c lo' f d)
| a_crash c lo f d : astep (mkAchain c lo f d) LReopen (mkAchain (take (Z.to_nat d) c) lo f d).

Inductive arun : achain -> list label -> achain -> Prop :=
| arun_nil a : arun a [] a
| arun_snoc a ls a' lab a'' : arun a ls a' -> astep a' lab a'' -> arun a (ls ++ [lab]) a''.

Definition genesisEntry (g : Block) : blockEntry := mkBlockEntry g zeroCert mkEvalAux.
Definition achain_init (g : Block) : achain := mkAchain [genesisEntry g] 0 0 1.

Section Refinement.
Context {Blob : Type} `{!Codec Blob, !CodecLaws Blob} {S : Type}.
Variable consensus : gmap string ConsensusParams.
Variable trackers : Registry.trackerRegistry S.
Variable validated : Block -> StateDelta -> Prop.
Notation Ledger := (Ledger Blob S).

(** Blocks written by a transaction that the syncer has not yet accounted for. *)
Definition inflight (pc : syncerPC) : Z := match pc with Flushed w (Ok _) => zlen w | _ => 0 end.

Definition syncer_ok (pc : syncerPC) (bq : blockQueue) (archival : bool) (floor : Z) : Prop :=
  match pc with
  | Flushing w | Flushed w _ => w <> [] /\ w `prefix_of` bq_q bq
  | Notifying c => c = bq_lastCommitted bq
  | Forgetting m => m <= bq_lastCommitted bq /\ m <= floor /\ (archival = true -> m = 0)
  | Exited => bq_running bq = false
  | AtLoop => True
  end.

Record store_inv (a : achain) (l : Ledger) : Prop := {
  si_chain : chain_ok (ac_chain a);
  si_len : zlen (ac_chain a) <= 2 ^ 64;
  si_table : exists t, l_blockDB l = Some t /\ holds (ac_chain a) (ac_lo a) (ac_durable a) t;
  si_committed : 0 <= bq_lastCommitted (l_blockQ l) /\
    bq_lastCommitted (l_blockQ l) + 1 + inflight (l_syncer l) = ac_durable a;
  si_queue : bq_q (l_blockQ l) = drop (Z.to_nat (bq_lastCommitted (l_blockQ l) + 1)) (ac_chain a);
  si_syncer : syncer_ok (l_syncer l) (l_blockQ l) (l_archival l) (ac_floor a);
  si_floor : ac_lo a <= ac_floor a;
  si_archival : l_archival l = true -> ac_lo a = 0
}.

Lemma inflight_nonneg pc : 0 <= inflight pc.
Proof. destruct pc as [| |? []| | |]; cbn; unfold zlen; lia. Qed.

Lemma si_lastCommitted a l : store_inv a l ->
  0 <= bq_lastCommitted (l_blockQ l) < zlen (ac_chain a) /\ bq_lastCommitted (l_blockQ l) < 2 ^ 63.
Proof.
  intros H. destruct (si_table _ _ H) as (t & _ & [B _ _]). pose proof (si_committed _ _ H). pose proof (inflight_nonneg (l_syncer l)). lia.
Qed.
Lemma si_latest a l : store_inv a l -> bq_latest (l_blockQ l) = zlen (ac_chain a) - 1.
Proof.
  intros H. pose proof (si_lastCommitted _ _ H). pose proof (si_len _ _ H). unfold bq_latest. rewrite (si_queue _ _ H).
  unfold zlen in *. rewrite length_drop. rewrite (wrap64_small (Z.of_nat _)) by (unfold u64; lia).
  rewrite wrap64_small by (unfold u64; lia). lia.
Qed.

(** The entry of round [r] is in the queue at its offset. *)
Lemma checkEntry_inv a l r : store_inv a l -> 0 <= r -> 
  checkEntry r (l_blockQ l) =
    if zlen (ac_chain a) <=? r then Err (ErrNoEntry r (zlen (ac_chain a) - 1) (bq_lastCommitted (l_blockQ l)))
    else Ok (if r <=? bq_lastCommitted (l_blockQ l) then None else ac_chain a !! Z.to_nat r, bq_lastCommitted (l_blockQ l), zlen (ac_chain a) - 1).
Proof.
  intros H Hr. pose proof (si_lastCommitted _ _ H). pose proof (si_len _ _ H).
  unfold checkEntry. fold (bq_latest (l_blockQ l)). rewrite (si_latest _ _ H). zcases; try lia; [done|done|].
  rewrite (wrap64_small (r - _)) by (unfold u64; lia). rewrite wrap64_small by (unfold u64; lia).
  rewrite (si_queue _ _ H), lookup_drop. replace (_ + _)%nat with (Z.to_nat r) by lia.
  destruct (ac_chain a !! Z.to_nat r) eqn:E; [done|]. apply lookup_ge_None in E. unfold zlen in *. lia.
Qed.

(** ** Steps of the queue and the syncer *)

Lemma putBlock_inv a l blk cert aux bq : store_inv a l -> bq_latest (l_blockQ l) < maxUint64 ->
  putBlock blk cert aux (l_blockQ l) = (Ok tt, bq) ->
  blk_Round blk = zlen (ac_chain a) /\ zlen (ac_chain a) < 2 ^ 64 /\
  bq = (l_blockQ l) <| bq_q ::= λ q, q ++ [mkBlockEntry blk cert aux] |>.
Proof.
  intros H Hlt E. unfold putBlock in E. fold (bq_latest (l_blockQ l)) in E. rewrite (si_latest _ _ H) in *. unfold maxUint64 in *.
  rewrite wrap64_small in E by (unfold u64, zlen in *; lia). replace (_ - 1 + 1) with (zlen (ac_chain a)) in E by lia.
  destruct (_ <? _) eqn:E1; [done|]. destruct (negb _) eqn:E2; [done|]. injection E as <-. bool_hyps.
  split; [done|]. split; [lia|done].
Qed.
Lemma putBlock_refused blk cert aux bq bq' e : putBlock blk cert aux bq = (Err e, bq') -> bq' = bq.
Proof. unfold putBlock. destruct (_ <? _); [congruence|]. destruct (negb _); congruence. Qed.

Lemma chain_ok_snoc c e : chain_ok c -> be_Round e = zlen c -> chain_ok (c ++ [e]).
Proof.
  intros Hc He i e' Hi. apply lookup_app_Some in Hi as [Hi|[Hge Hi]]; [by apply Hc|].
  apply list_lookup_singleton_Some in Hi as [Hz <-]. unfold zlen in *. lia.
Qed.
Lemma chain_ok_take c n : chain_ok c -> chain_ok (take n c).
Proof. intros Hc i e Hi. apply Hc. by apply lookup_take_Some in Hi as [? ?]. Qed.

Lemma syncer_ok_app pc bq ar f e : syncer_ok pc bq ar f -> syncer_ok pc (bq <| bq_q ::= λ q, q ++ [e] |>) ar f.
Proof. destruct pc; cbn; try done; intros [? ?]; (split; [done|]); by apply prefix_app_r. Qed.

Lemma put_sim a l blk delta cert aux bq : store_inv a l -> bq_latest (l_blockQ l) < maxUint64 ->
  putBlock blk cert aux (l_blockQ l) = (Ok tt, bq) ->
  exists a', astep a (LAdd (mkBlockEntry blk cert aux)) a' /\ store_inv a' (l <| l_blockQ := bq |> <| l_adding := Some (blk, delta) |>).
Proof.
  intros H Hlt E. destruct (putBlock_inv _ _ _ _ _ _ H Hlt E) as (Hr & Hl & ->). clear E.
  pose proof (si_lastCommitted _ _ H). destruct H as [HC HL (t & Et & HT) HB HQ HS HF HA], a as [c lo f d]. cbn in *.
  eexists. split; [by apply a_append|]. split; cbn; try done.
  - by apply chain_ok_snoc.
  - unfold zlen in *. rewrite length_app. cbn. lia.
  - exists t. split; [done|]. by apply holds_app.
  - rewrite HQ, drop_app_le by (unfold zlen in *; lia). done.
  - by apply syncer_ok_app.
Qed.

(** Steps that change neither the blocks nor what the syncer relies on. *)
Lemma inv_same a (l l' : Ledger) : store_inv a l -> l_blockDB l' = l_blockDB l -> l_blockQ l' = l_blockQ l ->
  l_syncer l' = l_syncer l -> l_archival l' = l_archival l -> store_inv a l'.
Proof. intros [] E1 E2 E3 E4. split; rewrite ?E1, ?E2, ?E3, ?E4; done. Qed.

Lemma wake_sim a l : store_inv a l -> l_syncer l = AtLoop -> store_inv a (l <| l_syncer := syncer_wake (l_blockQ l) |>).
Proof.
  intros [HC HL HT HB HQ HS HF HA] E. rewrite E in *. unfold syncer_wake.
  destruct (bq_running (l_blockQ l) && _) eqn:E1; [by split|]. destruct (negb _) eqn:E2; [apply negb_true_iff in E2; by split|].
  split; cbn; try done. split; [|done]. intros E3. rewrite E3 in E1. apply negb_false_iff in E2. rewrite E2 in E1. done.
Qed.

(** What is written is the next stretch of the chain. *)
Lemma queue_prefix_chain a l w i e : store_inv a l -> w `prefix_of` bq_q (l_blockQ l) -> w !! i = Some e ->
  ac_chain a !! (Z.to_nat (bq_lastCommitted (l_blockQ l) + 1) + i)%nat = Some e.
Proof. intros H Hp Hi. rewrite <- lookup_drop, <- (si_queue _ _ H). by eapply prefix_lookup_Some. Qed.

Lemma flush_sim a l env w pc db : store_inv a l -> l_syncer l = Flushing w -> syncer_flush env w (l_blockDB l) = (pc, db) ->
  exists a', astep a LSyncer a' /\ store_inv a' (l <| l_blockDB := db |> <| l_syncer := pc |>).
Proof.
  intros H Epc E. pose proof (si_syncer _ _ H) as HS. rewrite Epc in HS. destruct HS as [Hne Hp].
  pose proof (λ i e, queue_prefix_chain a l w i e H Hp) as Hw. pose proof (si_lastCommitted _ _ H) as Hlc.
  destruct H as [HC HL (t & Et & HT) HB HQ _ HF HA], a as [c lo f d]. rewrite Epc in *. cbn in *. rewrite Et in E. unfold syncer_flush in E.
  destruct (Atomic_cases env (putEntries w) (Some t)) as [([] & db' & E1 & E2)|(e & E2)]; rewrite E2 in E; injection E as <- <-.
  - destruct (putEntries_holds c lo w d t db' tt) as (t' & -> & Ht'); [done| |done|].
    { intros i e Hi. rewrite <- (Hw i e Hi). do 2 f_equal. lia. }
    pose proof (holds_bounds _ _ _ _ Ht'). exists (mkAchain c lo f (d + zlen w)).
    split; [apply a_persist; unfold zlen in *; lia|]. split; cbn; eauto. lia.
  - exists (mkAchain c lo f d). split; [apply a_idle|]. split; cbn; eauto.
Qed.

Lemma last_of_prefix (w q : list blockEntry) e : w `prefix_of` q -> last w = Some e -> q !! pred (length w) = Some e.
Proof. intros Hp Hl. rewrite last_lookup in Hl. by eapply prefix_lookup_Some. Qed.

(** The sanity check of the syncer passes. *)
Lemma flushed_inv a l w r : store_inv a l -> l_syncer l = Flushed w r ->
  syncer_flushed w r (l_blockQ l) = match r with
    | Ok _ => Ok (Notifying (bq_lastCommitted (l_blockQ l) + zlen w),
        (l_blockQ l) <| bq_lastCommitted := bq_lastCommitted (l_blockQ l) + zlen w |> <| bq_q ::= drop (length w) |>)
    | _ => Ok (AtLoop, l_blockQ l)
    end.
Proof.
  intros H Epc. pose proof (si_syncer _ _ H) as HS. rewrite Epc in HS. destruct HS as [Hne Hp].
  destruct r as [[]|e|m]; [|done|done]. unfold syncer_flushed.
  pose proof (si_committed _ _ H) as HB. rewrite Epc in HB. cbn in HB. destruct (si_table _ _ H) as (t & _ & [B _ _]).
  rewrite (wrap64_small (zlen w)) by (unfold u64, zlen in *; lia). rewrite wrap64_small by (unfold u64, zlen in *; lia).
  rewrite (proj2 (Nat.ltb_ge _ _)) by (by apply prefix_length).
  destruct (last w) as [e|] eqn:El; [|by apply last_None in El].
  pose proof El as El'. rewrite last_lookup in El'. apply (queue_prefix_chain a l w _ e H Hp), (si_chain _ _ H) in El'.
  assert (length w <> 0)%nat by (by intros ?%nil_length_inv). unfold zlen in *. rewrite El'.
  rewrite (proj2 (Z.eqb_eq _ _)) by lia. done.
Qed.

Lemma flushed_sim a l w r pc bq : store_inv a l -> l_syncer l = Flushed w r -> syncer_flushed w r (l_blockQ l) = Ok (pc, bq) ->
  store_inv a (l <| l_blockQ := bq |> <| l_syncer := pc |>).
Proof.
  intros H Epc E. rewrite (flushed_inv _ _ _ _ H Epc) in E. pose proof (si_lastCommitted _ _ H).
  destruct H as [HC HL HT HB HQ HS HF HA]. rewrite Epc in *. destruct r as [[]|e|m]; injection E as <- <-; split; cbn in *; try done.
  - unfold zlen in *. lia.
  - rewrite HQ, drop_drop. f_equal. unfold zlen in *. lia.
Qed.

Lemma committedLoop_le tr now rnd m s m' (s' : S) : Registry.committedLoop tr now rnd m s = Ok (m', s') -> m' <= m.
Proof.
  revert m s. induction tr as [|lt tr IH]; intros m s E; cbn in E; [injection E; lia|].
  inv_ok. match goal with H : Registry.committedLoop _ _ _ _ _ = _ |- _ => apply IH in H end. revert H0. zcases; lia.
Qed.
Lemma notifyCommit_le now c ar s m s' : notifyCommit trackers now c ar s = Ok (m, s') -> (ar = false -> m <= c) /\ (ar = true -> m = 0).
Proof.
  intros E. unfold notifyCommit in E. inv_ok. destruct x as [m0 s0]. unfold Registry.committedUpTo in *.
  match goal with H : Registry.committedLoop _ _ _ _ _ = _ |- _ => apply committedLoop_le in H end. by destruct ar.
Qed.

Lemma notify_sim a l now c m s : store_inv a l -> l_syncer l = Notifying c -> notifyCommit trackers now c (l_archival l) (l_trackers l) = Ok (m, s) ->
  exists a', astep a (LCommitted c m) a' /\ store_inv a' (l <| l_syncer := Forgetting m |> <| l_trackers := s |>).
Proof.
  intros H Epc E. apply notifyCommit_le in E as [E1 E2]. destruct H as [HC HL HT HB HQ HS HF HA]. rewrite Epc in *. cbn in *. subst c.
  assert (m <= bq_lastCommitted (l_blockQ l)) by (destruct (l_archival l); [rewrite E2 by done; lia|by apply E1]).
  destruct a as [ch lo f d]. exists (mkAchain ch lo (Z.max f m) d). cbn in *. split; [apply a_committed; lia|].
  split; cbn; try done; [|lia]. split; [done|]. split; [lia|done].
Qed.

Lemma forget_sim a l env m pc db : store_inv a l -> l_syncer l = Forgetting m -> syncer_forget env m (l_blockDB l) = (pc, db) ->
  exists a', astep a LSyncer a' /\ store_inv a' (l <| l_blockDB := db |> <| l_syncer := pc |>).
Proof.
  intros [HC HL (t & Et & HT) HB HQ HS HF HA] Epc E. destruct a as [c lo f d]. rewrite Epc in *. cbn in *. rewrite Et in E. unfold syncer_forget in E.
  destruct (Atomic_cases env (blockForgetBefore m) (Some t)) as [([] & db' & E1 & E2)|(e & E2)]; rewrite E2 in E; injection E as <- <-.
  - destruct (forget_holds _ _ _ _ _ _ _ HT E1) as (Hm & t' & -> & Ht'). exists (mkAchain c (Z.max lo m) f d).
    pose proof (holds_bounds _ _ _ _ HT). split; [apply a_trim; lia|]. split; cbn; eauto; [lia|].
    intros Ha. destruct HS as (_ & _ & HS). rewrite HS by done. rewrite HA by done. done.
  - exists (mkAchain c lo f d). split; [apply a_idle|]. split; cbn; eauto.
Qed.

Lemma close_sim a l : store_inv a l -> store_inv a (l <| l_blockQ := bq_close (l_blockQ l) |>).
Proof.
  intros [HC HL HT HB HQ HS HF HA]. unfold bq_close. destruct (bq_running _) eqn:E; [|by split]. split; cbn; try done.
  destruct (l_syncer l); done.
Qed.

(** ** Opening *)

(** A table with blocks is left as it is, unless it was trimmed and the node is archival. *)
Lemma init_holds c lo hi t gs ar : holds c lo hi t -> (ar = true -> lo = 0) -> initBlocksDB gs ar (Some t) = (Ok tt, Some t).
Proof.
  intros H Ha. pose proof (holds_bounds _ _ _ _ H). unfold initBlocksDB, blockInit, blockNext. do 3 run. change (default ∅ (Some t)) with t.
  rewrite (holds_max _ _ _ _ H). rewrite wrap64_small by (unfold u64; lia). rewrite (proj2 (Z.eqb_neq _ _)) by lia.
  run. destruct ar; [|done]. unfold blockEarliest. run. rewrite (holds_min _ _ _ _ H), Ha by done. run. done.
Qed.

Lemma holds_genesis g : blk_Round g = 0 -> holds [genesisEntry g] 0 1 {[0 := entryRow (genesisEntry g) : blockRow Blob]}.
Proof.
  intros Hg. split; [done|..]; intros k Hk.
  - by replace k with 0 by lia.
  - rewrite lookup_singleton_ne by lia. done.
Qed.

(** An empty database gets the genesis block. *)
Lemma maxRnd_empty : maxRnd (∅ : gmap Z (blockRow Blob)) = None.
Proof. unfold maxRnd. by rewrite dom_empty_L, elements_empty. Qed.
Lemma blockPut_first g cert aux : blockPut g cert aux (Some (∅ : gmap Z (blockRow Blob))) =
  if blk_Round g =? 0 then (Ok tt, Some {[0 := rowOf g cert aux]}) else (Err (Errorf "inserting block but expected 0"), Some ∅).
Proof.
  unfold blockPut. run. rewrite maxRnd_empty. destruct (Z.eqb_spec (blk_Round g) 0) as [->|]; [|done]. unfold sqlArg. do 4 run. done.
Qed.
Lemma blockInit_fresh g db db' u : default ∅ db = (∅ : gmap Z (blockRow Blob)) -> blockInit [g] db = (Ok u, db') ->
  blk_Round g = 0 /\ db' = Some {[0 := entryRow (genesisEntry g)]}.
Proof.
  intros Hdb E. unfold blockInit, blockNext in E. erewrite bind_run in E by done. rewrite Hdb, bind_assoc_run in E.
  erewrite bind_run in E by done. erewrite bind_run in E by done. rewrite maxRnd_empty in E. cbn [putInitBlocks Z.eqb] in E.
  rewrite blockPut_first in E. destruct (Z.eqb_spec (blk_Round g) 0); [|done]. by injection E as <- <-.
Qed.
Lemma init_fresh g ar db db' u : default ∅ db = (∅ : gmap Z (blockRow Blob)) -> initBlocksDB [g] ar db = (Ok u, db') ->
  blk_Round g = 0 /\ db' = Some {[0 := entryRow (genesisEntry g)]}.
Proof.
  intros Hdb E. unfold initBlocksDB in E. apply M_bind_Ok in E as ([] & db1 & E1 & E2).
  destruct (blockInit_fresh _ _ _ _ Hdb E1) as [Hg ->]. split; [done|]. destruct ar; [|by injection E2].
  apply M_bind_Ok in E2 as (r & db2 & E2 & E3). unfold blockEarliest in E2. erewrite bind_run in E2 by done.
  rewrite (holds_min _ _ _ _ (holds_genesis g Hg)) in E2. injection E2 as <- <-. cbn in E3. by injection E3.
Qed.

Lemma open_inv env genesis ar s c lo f hi t db l db' : chain_ok c -> lo <= f -> holds c lo hi t -> (ar = true -> lo = 0) ->
  (forall u db', initBlocksDB [is_Block genesis] ar db = (Ok u, db') -> db' = Some t) ->
  OpenLedger consensus trackers env genesis ar s db = (Ok l, db') ->
  store_inv (mkAchain (take (Z.to_nat hi) c) lo f hi) l /\ l_archival l = ar /\ l_adding l = None /\ l_blockDB l = Some t /\ l_syncer l = AtLoop.
Proof.
  intros Hc Hf H Ha Hi E. pose proof (holds_bounds _ _ _ _ H). unfold OpenLedger in E.
  destruct (Atomic_cases (env 0%nat) (initBlocksDB [is_Block genesis] ar) db) as [(u & db1 & E1 & E2)|(e & E2)]; rewrite E2 in E; [|done].
  apply Hi in E1 as ->. injection E as E <-. inv_ok.
  match goal with H : bqInit _ _ = _ |- _ => unfold bqInit in H end. inv_ok. cbn.
  destruct (Atomic_cases (env 1%nat) blockLatest (Some t)) as [(r & db1 & E3 & E4)|(e & E4)]; rewrite E4 in *; [|done]. cbn in *. inv_ok.
  unfold blockLatest in E3. erewrite bind_run in E3 by done. rewrite (holds_max _ _ _ _ H) in E3. injection E3 as <- <-.
  rewrite wrap64_small by (unfold u64; lia). split; [|done]. split; cbn; try done.
  - by apply chain_ok_take.
  - unfold zlen. rewrite length_take. lia.
  - exists t. split; [done|]. by apply holds_take.
  - lia.
  - rewrite drop_ge; [done|]. rewrite length_take. lia.
Qed.

Lemma open_again env genesis s a (l l' : Ledger) db' : store_inv a l ->
  OpenLedger consensus trackers env genesis (l_archival l) s (l_blockDB l) = (Ok l', db') ->
  astep a LReopen (mkAchain (take (Z.to_nat (ac_durable a)) (ac_chain a)) (ac_lo a) (ac_floor a) (ac_durable a)) /\
  store_inv (mkAchain (take (Z.to_nat (ac_durable a)) (ac_chain a)) (ac_lo a) (ac_floor a) (ac_durable a)) l' /\
  l_adding l' = None /\ l_syncer l' = AtLoop.
Proof.
  intros H E. destruct (si_table _ _ H) as (t & Et & HT). rewrite Et in E.
  eapply open_inv in E as (HI & _ & Ha & _ & Hpc); [|apply (si_chain _ _ H)|apply (si_floor _ _ H)|exact HT|apply (si_archival _ _ H)|].
  - split; [destruct a; apply a_crash|done].
  - intros u db E1. erewrite init_holds in E1 by (try done; apply (si_archival _ _ H)). by injection E1.
Qed.
Lemma open_fresh env genesis ar s db (l : Ledger) db' : default ∅ db = (∅ : gmap Z (blockRow Blob)) ->
  OpenLedger consensus trackers env genesis ar s db = (Ok l, db') ->
  store_inv (achain_init (is_Block genesis)) l /\ l_archival l = ar /\ l_adding l = None /\ l_syncer l = AtLoop.
Proof.
  intros Hdb E. assert (blk_Round (is_Block genesis) = 0) as Hg.
  { unfold OpenLedger in E. destruct (Atomic_cases (env 0%nat) (initBlocksDB [is_Block genesis] ar) db) as [(u & db1 & E1 & E2)|(e & E2)]; rewrite E2 in E; [|done].
    by apply init_fresh in E1 as [? _]. }
  eapply (open_inv _ _ _ _ [genesisEntry (is_Block genesis)] 0 0 1) in E; [naive_solver|..].
  - intros [|i] e; [|done]. intros [= <-]. done.
  - done.
  - by apply holds_genesis.
  - done.
  - intros u db1 E1. by apply init_fresh in E1 as [_ ?].
Qed.

(** ** The simulation *)

Lemma step_sim genesis a l lab l' : store_inv a l -> ledger_step consensus trackers validated genesis l lab l' ->
  exists a', astep a lab a' /\ store_inv a' l'.
Proof.
  intros H Hstep. revert H. destruct Hstep; intros HI.
  - by eapply put_sim.
  - exists a. split; [apply a_refuse|]. apply putBlock_refused in H0 as ->. by eapply inv_same.
  - exists a. split; [apply a_newBlock|]. by eapply inv_same.
  - exists a. split; [apply a_idle|]. by apply wake_sim.
  - by eapply flush_sim.
  - exists a. split; [apply a_idle|]. by eapply flushed_sim.
  - by eapply notify_sim.
  - by eapply forget_sim.
  - exists a. split; [apply a_idle|]. by apply close_sim.
  - apply (open_again _ _ _ a) in H as (? & ? & _); [eauto|done].
Qed.

Lemma run_sim genesis a l ls l' : store_inv a l -> ledger_run consensus trackers validated genesis l ls l' ->
  exists a', arun a ls a' /\ store_inv a' l'.
Proof.
  intros HI Hrun. induction Hrun as [l|l ls l1 lab l2 _ IH Hstep]; [exists a; split; [constructor|done]|].
  destruct (IH HI) as (a1 & Hr1 & HI1). destruct (step_sim _ _ _ _ _ HI1 Hstep) as (a2 & Hs & HI2).
  exists a2. split; [by eapply arun_snoc|done].
Qed.

(** ** Reading *)

(** [fromDB] reads one row and decodes what [ofEntry] selects. *)
Definition reads_row {A} (ofEntry : blockEntry -> A) (fromDB : Round -> M (blockDB Blob) A) : Prop := forall r db,
  (forall e db', selectRow r db = (Ok (entryRow e), db') -> fromDB r db = (Ok (ofEntry e), db')) /\
  (forall err db', selectRow r db = (Err err, db') -> fromDB r db = (Err err, db')).

Ltac reads_row :=
  intros r db; split; intros ? db'; unfold blockGet, blockGetHdr, blockGetCert, blockGetEncodedCert, blockGetAux, lift, mbind, M_bind, mret, M_ret;
  intros ->; cbn; rewrite ?decBlock_encBlock, ?decHdr_encHdr; cbn; rewrite ?decCert_encCert, ?decAux_encAux; done.
Lemma reads_blockGet : reads_row be_block blockGet.
Proof. reads_row. Qed.
Lemma reads_blockGetHdr : reads_row (λ e, blk_BlockHeader (be_block e)) blockGetHdr.
Proof. reads_row. Qed.
Lemma reads_blockGetEncodedCert : reads_row (λ e, (encBlock (be_block e), encCert (be_cert e))) blockGetEncodedCert.
Proof. reads_row. Qed.
Lemma reads_blockGetCert : reads_row (λ e, (be_block e, be_cert e)) blockGetCert.
Proof. reads_row. Qed.
Lemma reads_blockGetAux : reads_row (λ e, (be_block e, be_aux e)) blockGetAux.
Proof. reads_row. Qed.

(** The answer of the abstract ledger to a read that saw the queue at [a], with rounds up
    to [committed] on disk, and the database at [a']: the block of the chain, unless it is
    not there yet or was deleted. *)
Definition readSpec {A} (ofEntry : blockEntry -> A) (a a' : achain) (committed r : Round) : result A :=
  match (if (r <=? committed) && (r <? ac_lo a') then None else ac_chain a !! Z.to_nat r) with
  | Some e => Ok (ofEntry e)
  | None => Err (ErrNoEntry r (zlen (ac_chain a) - 1) committed)
  end.

Lemma reader_spec {A} (ofEntry : blockEntry -> A) fromDB a a' (l l' : Ledger) r :
  reads_row ofEntry fromDB -> store_inv a l -> store_inv a' l' -> ac_durable a <= ac_durable a' ->
  (forall i, (i < length (ac_chain a))%nat -> ac_chain a' !! i = ac_chain a !! i) -> 0 <= r ->
  reader ofEntry fromDB r (l_blockQ l) calm (l_blockDB l') = readSpec ofEntry a a' (bq_lastCommitted (l_blockQ l)) r.
Proof.
  intros HR H H' Hd Hc Hr. unfold reader, readSpec. rewrite (checkEntry_inv a l r H Hr). pose proof (si_lastCommitted _ _ H).
  destruct (Z.leb_spec (zlen (ac_chain a)) r).
  { rewrite (lookup_ge_None_2 (ac_chain a)) by (unfold zlen in *; lia). by destruct (_ && _). }
  destruct (lookup_lt_is_Some_2 (ac_chain a) (Z.to_nat r)) as [e He]; [unfold zlen in *; lia|]. rewrite He.
  destruct (Z.leb_spec r (bq_lastCommitted (l_blockQ l))); [|done]. cbn [andb].
  destruct (si_table _ _ H') as (t & -> & HT). pose proof (si_committed _ _ H). pose proof (inflight_nonneg (l_syncer l)).
  destruct (Z.ltb_spec r (ac_lo a')).
  - rewrite (Atomic_calm_Err (fromDB r) (Some t) (ErrNoEntry r 0 0) (Some t)); [done| |done]. apply HR. by eapply selectRow_out.
  - rewrite (Atomic_calm_Ok (fromDB r) (Some t) (ofEntry e) (Some t)); [done|]. apply HR. eapply selectRow_in; [done|lia|]. rewrite Hc; [done|]. apply lookup_lt_Some in He. done.
Qed.

(** In any weather a block that is returned is the block of the chain. *)
Lemma reader_sound {A} (ofEntry : blockEntry -> A) fromDB a a' (l l' : Ledger) r env x :
  reads_row ofEntry fromDB -> store_inv a l -> store_inv a' l' -> ac_durable a <= ac_durable a' ->
  (forall i, (i < length (ac_chain a))%nat -> ac_chain a' !! i = ac_chain a !! i) -> 0 <= r ->
  reader ofEntry fromDB r (l_blockQ l) env (l_blockDB l') = Ok x -> readSpec ofEntry a a' (bq_lastCommitted (l_blockQ l)) r = Ok x.
Proof.
  intros HR H H' Hd Hc Hr E. rewrite <- (reader_spec ofEntry fromDB a a' l l' r) by done. revert E. unfold reader.
  destruct (checkEntry r (l_blockQ l)) as [[[[e|] ?] ?]|?|?]; [done| |done|done].
  destruct (Atomic_cases env (fromDB r) (l_blockDB l')) as [(y & db' & E1 & E2)|(e & E2)]; rewrite E2; cbn; [|done].
  intros [= <-]. by erewrite Atomic_calm_Ok.
Qed.

(** ** What an abstract run keeps *)

Lemma astep_keeps a lab a' : astep a lab a' -> 0 <= ac_durable a <= zlen (ac_chain a) ->
  ac_durable a <= ac_durable a' <= zlen (ac_chain a') /\ ac_lo a <= ac_lo a' /\
  (forall i, Z.of_nat i < ac_durable a -> ac_chain a' !! i = ac_chain a !! i) /\
  (lab <> LReopen -> forall i, (i < length (ac_chain a))%nat -> ac_chain a' !! i = ac_chain a !! i).
Proof.
  intros Hs Hd. destruct Hs; cbn in *; unfold zlen in *; rewrite ?length_app, ?length_take; cbn; (split; [lia|]);
    (split; [lia|]); (split; [intros i Hi|intros Hne i Hi]); try done; try (by rewrite lookup_app_l by lia).
  by rewrite lookup_take_lt by lia.
Qed.
Lemma arun_keeps a ls a' : arun a ls a' -> 0 <= ac_durable a <= zlen (ac_chain a) ->
  ac_durable a <= ac_durable a' <= zlen (ac_chain a') /\ ac_lo a <= ac_lo a' /\
  (forall i, Z.of_nat i < ac_durable a -> ac_chain a' !! i = ac_chain a !! i) /\
  (LReopen ∉ ls -> (length (ac_chain a) <= length (ac_chain a'))%nat /\
     forall i, (i < length (ac_chain a))%nat -> ac_chain a' !! i = ac_chain a !! i).
Proof.
  intros Hr Hd. induction Hr as [|a ls a1 lab a2 Hr IH Hs]; [split; [lia|done]|]. destruct (IH Hd) as (I1 & I2 & I3 & I4).
  destruct (astep_keeps _ _ _ Hs) as (J1 & J2 & J3 & J4); [lia|]. split; [lia|]. split; [lia|]. split.
  - intros i Hi. rewrite J3 by lia. by apply I3.
  - intros Hn. apply not_elem_of_app in Hn as [Hn1 Hn2%not_elem_of_cons]. destruct (I4 Hn1) as [K1 K2]. destruct Hn2 as [Hn2 _].
    assert (length (ac_chain a1) <= length (ac_chain a2))%nat as HL.
    { destruct (decide (length (ac_chain a1) = 0)%nat) as [->|]; [lia|].
      assert (is_Some (ac_chain a2 !! pred (length (ac_chain a1)))) as Hs2.
      { rewrite J4 by (done || lia). apply lookup_lt_is_Some. lia. }
      apply lookup_lt_is_Some in Hs2. lia. }
    split; [lia|]. intros i Hi. rewrite J4 by (done || lia). by apply K2.
Qed.

(** Blocks are deleted only below what the trackers released. *)
Lemma arun_floor a ls a' n : arun a ls a' -> ac_floor a <= n -> (forall r m, LCommitted r m ∈ ls -> m <= n) -> ac_floor a' <= n.
Proof.
  intros Hr Hf. induction Hr as [|a ls a1 lab a2 Hr IH Hs]; intros Hm; [done|].
  specialize (IH Hf ltac:(set_solver)). destruct Hs; cbn in *; try done. specialize (Hm r m ltac:(set_solver)). lia.
Qed.
End Refinement.
