(* ===== verification/LedgerDurable.v ===== *)
(** The promises of the ledger to its callers and to its trackers: one append-only chain,
    reads that agree with it, no committed block lost in a crash, trackers called in
    order, and a syncer that gets everything to disk. *)

From S2P Require Import Prelude Config Basics Transactions Bookkeeping Cow Agreement BlockDB BlockQueue Trackers TrackersSpec.
From S2P Require Import HeaderCache HeaderCacheSpec LedgerStore LedgerStoreSpec.

(** ** The order in which the trackers are called *)

(** [ordered n0 ls seen last]: along the labels [ls] the trackers, loaded at round [n0],
    have seen the blocks up to [seen] one by one and were told that those up to [last]
    are on disk, always after seeing them; a restart loads them afresh. *)
Inductive ordered (n0 : Z) : list label -> Z -> Z -> Prop :=
| ord_nil : ordered n0 [] n0 n0
| ord_newBlock ls seen last : ordered n0 ls seen last -> ordered n0 (ls ++ [LNewBlock (seen + 1)]) (seen + 1) last
| ord_committed ls seen last c m : ordered n0 ls seen last -> last < c <= seen -> m <= c ->
    ordered n0 (ls ++ [LCommitted c m]) seen c
| ord_reopen ls seen last n : ordered n0 ls seen last -> ordered n0 (ls ++ [LReopen]) n n
| ord_add ls seen last e : ordered n0 ls seen last -> ordered n0 (ls ++ [LAdd e]) seen last
| ord_refuse ls seen last e : ordered n0 ls seen last -> ordered n0 (ls ++ [LRefuse e]) seen last
| ord_syncer ls seen last : ordered n0 ls seen last -> ordered n0 (ls ++ [LSyncer]) seen last.

Section Durable.
Context {Blob : Type} `{!Codec Blob, !CodecLaws Blob} {S : Type}.
Variable consensus : gmap string ConsensusParams.
Variable trackers : Registry.trackerRegistry S.
Variable validated : Block -> StateDelta -> Prop.
Variable genesis : InitState.
Notation Ledger := (Ledger Blob S).
Notation run := (ledger_run consensus trackers validated genesis).
Notation step := (ledger_step consensus trackers validated genesis).

(** A ledger that was just opened on an empty database. *)
Definition opened_fresh (l : Ledger) : Prop := exists env ar s db db',
  default ∅ db = (∅ : gmap Z (blockRow Blob)) /\ OpenLedger consensus trackers env genesis ar s db = (Ok l, db').

Lemma opened_fresh_inv l : opened_fresh l ->
  store_inv (achain_init (is_Block genesis)) l /\ l_adding l = None /\ l_syncer l = AtLoop.
Proof. intros (env & ar & s & db & db' & Hdb & E). apply open_fresh in E; naive_solver. Qed.

Lemma inv_durable a (l : Ledger) : store_inv a l -> 0 <= ac_durable a <= zlen (ac_chain a).
Proof. intros H. destruct (si_table _ _ H) as (t & _ & [B _ _]). lia. Qed.

Lemma two_runs l0 ls l ls' l' : opened_fresh l0 -> run l0 ls l -> run l ls' l' -> exists a a',
  arun (achain_init (is_Block genesis)) ls a /\ arun a ls' a' /\ store_inv a l /\ store_inv a' l'.
Proof.
  intros (HI & _)%opened_fresh_inv Hr Hr'. destruct (run_sim _ _ _ _ _ _ _ _ HI Hr) as (a & Ha & HIa).
  destruct (run_sim _ _ _ _ _ _ _ _ HIa Hr') as (a' & Ha' & HIa'). exists a, a'. done.
Qed.

(** The trackers have seen every block but the one that is being added. *)
Definition pendingAdd (l : Ledger) : Z := match l_adding l with Some _ => 1 | None => 0 end.
Record order_inv (a : achain) (l : Ledger) (seen last : Z) : Prop := {
  oi_seen : seen + pendingAdd l + 1 = zlen (ac_chain a);
  oi_adding blk delta : l_adding l = Some (blk, delta) -> blk_Round blk = seen + 1 /\ validated blk delta;
  oi_last : match l_syncer l with
            | Notifying _ => last < bq_lastCommitted (l_blockQ l)
            | _ => last = bq_lastCommitted (l_blockQ l)
            end
}.

Lemma flushed_last a (l : Ledger) w r pc bq last : store_inv a l -> l_syncer l = Flushed w r ->
  syncer_flushed w r (l_blockQ l) = Ok (pc, bq) -> last = bq_lastCommitted (l_blockQ l) ->
  match pc with Notifying _ => last < bq_lastCommitted bq | _ => last = bq_lastCommitted bq end.
Proof.
  intros HI Epc E Hlast. rewrite (flushed_inv _ _ _ _ HI Epc) in E. pose proof (si_syncer _ _ HI) as HS. rewrite Epc in HS.
  destruct HS as [Hne _]. destruct r as [[]|e|m]; injection E as <- <-; cbn; [|done|done].
  destruct w; [done|]. unfold zlen. cbn. lia.
Qed.

Lemma wake_not_notifying bq c : syncer_wake bq <> Notifying c.
Proof. unfold syncer_wake. by destruct (bq_running bq && _), (negb (bq_running bq)). Qed.

(** Steps that neither add a block nor tell the trackers of one. *)
Lemma order_keep a l a' l' seen last : order_inv a l seen last -> l_adding l' = l_adding l -> zlen (ac_chain a') = zlen (ac_chain a) ->
  match l_syncer l' with
  | Notifying _ => last < bq_lastCommitted (l_blockQ l')
  | _ => last = bq_lastCommitted (l_blockQ l')
  end -> order_inv a' l' seen last.
Proof. intros [O1 O2 O3] Ha Hc Hl. split; [|rewrite Ha; done|done]. unfold pendingAdd in *. by rewrite Ha, Hc. Qed.

Lemma astep_syncer a a' : astep a LSyncer a' -> zlen (ac_chain a') = zlen (ac_chain a).
Proof. by inversion 1. Qed.

Lemma order_syncer a l a' l' seen last : store_inv a l -> order_inv a l seen last -> step l LSyncer l' -> astep a LSyncer a' ->
  order_inv a' l' seen last.
Proof.
  intros HI HO Hstep Hs%astep_syncer. pose proof (oi_last _ _ _ _ HO) as O3.
  inversion Hstep as [| | |l0 Epc|l0 env w pc db Epc E|l0 w r pc bq Epc E| |l0 env m pc db Epc E|l0|]; subst; apply (order_keep a l); try done; cbn; rewrite ?Epc in *.
  - destruct (syncer_wake (l_blockQ l)) eqn:Ew; try done. by apply wake_not_notifying in Ew.
  - unfold syncer_flush in E. destruct (Atomic _ _ _). by injection E as <- <-.
  - by eapply flushed_last.
  - unfold syncer_forget in E. by injection E as <- <-.
  - unfold bq_close. by destruct (bq_running _).
Qed.

Lemma order_put a l a' l' e seen last : store_inv a l -> order_inv a l seen last -> step l (LAdd e) l' -> astep a (LAdd e) a' ->
  order_inv a' l' seen last.
Proof.
  intros HI [O1 O2 O3] Hstep Hs. inversion Hs; subst. inversion Hstep as [l0 blk delta cert aux bq Hv Ha Hlt E| | | | | | | | |]; subst; cbn in *.
  unfold pendingAdd in *. rewrite Ha in O1. split; cbn.
  - unfold zlen in *. rewrite length_app. cbn. lia.
  - intros b d' [= <- <-]. unfold be_Round in *. cbn in *. split; [lia|done].
  - destruct (putBlock_inv _ _ _ _ _ _ HI Hlt E) as (_ & _ & ->). done.
Qed.

Lemma order_notify a l a' l' c m n0 ls seen last : store_inv a l -> order_inv a l seen last -> step l (LCommitted c m) l' -> astep a (LCommitted c m) a' ->
  ordered n0 ls seen last -> ordered n0 (ls ++ [LCommitted c m]) seen c /\ order_inv a' l' seen c.
Proof.
  intros HI [O1 O2 O3] Hstep Hs HO. pose proof (si_lastCommitted _ _ HI) as HLc. inversion Hs; subst. cbn in *.
  pose proof (si_syncer _ _ HI) as HS. inversion Hstep as [| | | | | |l0 now c' m' s Epc Ha E| | |]; subst. unfold pendingAdd in *.
  rewrite Epc in *. rewrite Ha in O1. cbn in *. subst c.
  split; [eapply ord_committed; [done|lia|done]|]. split; cbn; [unfold pendingAdd; cbn; rewrite Ha; lia|done|done].
Qed.

Lemma order_reopen a l a' l' : store_inv a l -> step l LReopen l' -> astep a LReopen a' ->
  order_inv a' l' (zlen (ac_chain a') - 1) (zlen (ac_chain a') - 1).
Proof.
  intros HI Hstep Hs. inversion Hstep as [| | | | | | | | |l0 env s l1 db E]; subst.
  destruct (open_again _ _ _ _ _ _ _ _ _ HI E) as (_ & HI' & Ha & Hpc). inversion Hs; subst; cbn in *.
  pose proof (si_committed _ _ HI') as HB. pose proof (inv_durable _ _ HI) as HD. rewrite Hpc in HB. cbn in HB, HD.
  split; [unfold pendingAdd; rewrite Ha; cbn; lia|by rewrite Ha|]. rewrite Hpc. unfold zlen in *. rewrite length_take. lia.
Qed.

Lemma order_step a l lab l' n0 ls seen last : store_inv a l -> step l lab l' -> ordered n0 ls seen last -> order_inv a l seen last ->
  exists a' seen' last', astep a lab a' /\ store_inv a' l' /\ ordered n0 (ls ++ [lab]) seen' last' /\ order_inv a' l' seen' last'.
Proof.
  intros HI Hstep HO HOI. destruct (step_sim _ _ _ _ _ _ _ _ HI Hstep) as (a' & Hs & HI'). exists a'. destruct lab as [e|e|r| |c m|].
  - exists seen, last. eauto 6 using ord_add, order_put.
  - exists seen, last. split; [done|]. split; [done|]. split; [by apply ord_refuse|]. inversion Hs; subst. inversion Hstep as [|l0 blk cert aux e' bq Ha E| | | | | | | |]; subst.
    apply putBlock_refused in E as ->. by apply (order_keep a' l); [| | |apply (oi_last _ _ _ _ HOI)].
  - exists (seen + 1), last. inversion Hs; subst. inversion Hstep as [| |l0 blk delta s Ha E| | | | | | |]; subst. destruct HOI as [O1 O2 O3].
    destruct (O2 _ _ Ha) as [-> _]. split; [constructor|]. split; [done|]. split; [by apply ord_newBlock|]. unfold pendingAdd in *. rewrite Ha in O1. split; cbn; [lia|done|done].
  - exists seen, last. eauto 6 using ord_syncer, order_syncer.
  - exists seen, c. split; [done|]. split; [done|]. by apply (order_notify a l a' l' c m n0 ls seen last).
  - pose proof (order_reopen _ _ _ _ HI Hstep Hs). eexists _, _. split; [done|]. split; [done|]. split; [by eapply ord_reopen|done].
Qed.

Lemma fresh_order l : opened_fresh l -> store_inv (achain_init (is_Block genesis)) l /\ order_inv (achain_init (is_Block genesis)) l 0 0.
Proof.
  intros (HI & Ha & Hpc)%opened_fresh_inv. split; [done|]. pose proof (si_committed _ _ HI) as HB. rewrite Hpc in HB. cbn in HB.
  split; [unfold pendingAdd; by rewrite Ha|by rewrite Ha|]. rewrite Hpc. lia.
Qed.

Lemma run_ordered n a l ls l' : store_inv a l -> order_inv a l n n -> run l ls l' ->
  exists a' seen last, store_inv a' l' /\ ordered n ls seen last /\ order_inv a' l' seen last.
Proof.
  intros HI HO Hrun. induction Hrun as [l|l ls l1 lab l2 _ IH Hstep].
  - exists a, n, n. split; [done|]. split; [constructor|done].
  - destruct (IH HI HO) as (a1 & seen & last & HI1 & HO1 & HOI1).
    destruct (order_step _ _ _ _ _ _ _ _ HI1 Hstep HO1 HOI1) as (a2 & seen2 & last2 & _ & ?). eauto.
Qed.





(** ** Theorems *)


(** C19: A reader looks at the queue and later at the database, while blocks are added,
    written and deleted in between; it gets the block, header, certificate and auxiliary
    data of the chain at the time it started, or is told that there is no such entry,
    with the rounds of that time.  It never panics. *)
Theorem reads_linearise l0 ls l ls' l' r : opened_fresh l0 -> run l0 ls l -> run l ls' l' -> LReopen ∉ ls' -> 0 <= r ->
  exists a a', arun (achain_init (is_Block genesis)) ls a /\ arun a ls' a' /\
    BlockAt r l l' calm = readSpec be_block a a' (LatestCommitted l) r /\
    getBlockHdr r (l_blockQ l) calm (l_blockDB l') = readSpec (λ e, blk_BlockHeader (be_block e)) a a' (LatestCommitted l) r /\
    BlockCert r l l' calm = readSpec (λ e, (be_block e, be_cert e)) a a' (LatestCommitted l) r /\
    EncodedBlockCert r l l' calm = readSpec (λ e, (encBlock (be_block e), encCert (be_cert e))) a a' (LatestCommitted l) r /\
    blockAux r l l' calm = readSpec (λ e, (be_block e, be_aux e)) a a' (LatestCommitted l) r /\
    forall env blk, BlockAt r l l' env = Ok blk -> be_block <$> ac_chain a !! Z.to_nat r = Some blk.
Proof.
  intros Hf Hr Hr' Hn H0. destruct (two_runs _ _ _ _ _ Hf Hr Hr') as (a & a' & Ha & Ha' & HI & HI'). exists a, a'.
  destruct (arun_keeps _ _ _ Ha' (inv_durable _ _ HI)) as (Hd & _ & _ & Hc). destruct (Hc Hn) as [_ Hc'].
  unfold BlockAt, BlockCert, EncodedBlockCert, blockAux, LatestCommitted, bq_latestCommitted.
  split; [done|]. split; [done|]. do 5 (split; [apply reader_spec; auto using reads_blockGet, reads_blockGetHdr,
    reads_blockGetCert, reads_blockGetEncodedCert, reads_blockGetAux; lia|]).
  intros env blk E. apply (reader_sound be_block blockGet a a') in E; auto using reads_blockGet; [|lia].
  unfold readSpec in E. destruct (_ && _) in E; [done|]. destruct (_ !! _); [|done]. by injection E as <-.
Qed.


(** C20: The trackers see the blocks one by one without a gap, are told of a commit only
    after they have seen the blocks it covers, each time of a later one; what is kept on
    their behalf is never above the committed round. *)
Theorem trackers_in_order l0 ls l : opened_fresh l0 -> run l0 ls l -> exists seen last, ordered 0 ls seen last /\
  (l_adding l = None -> seen = Latest l) /\ (forall blk delta, l_adding l = Some (blk, delta) -> blk_Round blk = seen + 1).
Proof.
  intros Hf Hr. destruct (fresh_order _ Hf) as (HI & HO0).
  destruct (run_ordered _ _ _ _ _ HI HO0 Hr) as (a & seen & last & HIa & HO & [O1 O2 O3]). exists seen, last. split; [done|]. split; [|naive_solver].
  intros Hn. unfold Latest. rewrite (si_latest _ _ HIa). unfold pendingAdd in O1. rewrite Hn in O1. lia.
Qed.

(** The cache of headers changes no answer: what it holds are headers of the chain, a
    header it returns is that of the chain, and a header the ledger could read it returns. *)
Definition coherent (a : achain) (hs : list (Round * BlockHeader)) : Prop :=
  forall r h, (r, h) ∈ hs -> (λ e, blk_BlockHeader (be_block e)) <$> ac_chain a !! Z.to_nat r = Some h.

Theorem BlockHdr_coherent l0 ls l ls' l' r hs cache : opened_fresh l0 -> run l0 ls l -> run l ls' l' -> LReopen ∉ ls' -> 0 <= r ->
  lru_rel hs cache -> hlc_nextUseIndex cache < MaxInt - 1 ->
  exists a a', arun (achain_init (is_Block genesis)) ls a /\ arun a ls' a' /\ (coherent a hs -> exists res hs' cache',
    BlockHdr r l l' calm cache = (res, cache') /\ lru_rel hs' cache' /\ coherent a hs' /\
    (forall h, res = Ok h -> (λ e, blk_BlockHeader (be_block e)) <$> ac_chain a !! Z.to_nat r = Some h) /\
    (forall h, readSpec (λ e, blk_BlockHeader (be_block e)) a a' (LatestCommitted l) r = Ok h -> res = Ok h)).
Proof.
  intros Hf Hr Hr' Hn H0 HL Hnext. destruct (two_runs _ _ _ _ _ Hf Hr Hr') as (a & a' & Ha & Ha' & HI & HI'). exists a, a'.
  split; [done|]. split; [done|]. intros HC. destruct (arun_keeps _ _ _ Ha' (inv_durable _ _ HI)) as (Hd & _ & _ & Hc). destruct (Hc Hn) as [_ Hc'].
  unfold LatestCommitted, bq_latestCommitted, BlockHdr.
  destruct (Get_spec r hs cache HL ltac:(lia)) as (c1 & E1 & HL1 & _ & HN1). run_by E1.
  assert (coherent a (lruGet r hs).2) as HC1 by (intros r' h' Hin; by apply HC, (lruGet_elem r)).
  destruct (lruGet r hs).1 as [h|] eqn:Eg.
  - pose proof (HC _ _ (lruGet_Some _ _ _ Eg)) as Hh. exists (Ok h), (lruGet r hs).2, c1. split; [done|]. split; [done|]. split; [done|].
    split; [by intros ? [= <-]|]. intros h'. unfold readSpec. destruct (_ && _); [done|]. destruct (ac_chain a !! Z.to_nat r); [|done].
    intros [= <-]. cbn in Hh. congruence.
  - unfold getBlockHdr. rewrite (reader_spec (λ e, blk_BlockHeader (be_block e)) blockGetHdr a a') by (done || lia || apply reads_blockGetHdr).
    destruct (readSpec _ a a' _ r) as [h|e|m] eqn:Er.
    + destruct (Put_spec r h _ c1 HL1 ltac:(lia)) as (c2 & E2 & HL2 & _). unfold lift. run. run_by E2.
      assert ((λ e, blk_BlockHeader (be_block e)) <$> ac_chain a !! Z.to_nat r = Some h) as Hh.
      { unfold readSpec in Er. destruct (_ && _); [done|]. destruct (ac_chain a !! Z.to_nat r); [|done]. by injection Er as <-. }
      eexists (Ok h), _, c2. split; [done|]. split; [done|]. split; [|split; [by intros ? [= <-]|done]].
      intros r' h' Hin. apply lruPut_elem in Hin as [Hin|[= -> ->]]; [by apply HC1|done].
    + eexists (Err e), _, c1. split; [done|]. split; [done|]. split; [done|done].
    + eexists (Panic m), _, c1. split; [done|]. split; [done|]. split; [done|done].
Qed.

(** ** With lawful trackers *)

Section Lawful.
Context (I : Z -> S -> Prop) `{!TrackersOK validated trackers I}.

(** The trackers have seen all blocks but the one being added. *)
Definition tracked (a : achain) (l : Ledger) : Prop := I (zlen (ac_chain a) - 1 - pendingAdd l) (l_trackers l).

Lemma tracked_same a a' (l l' : Ledger) : tracked a l -> zlen (ac_chain a') - pendingAdd l' = zlen (ac_chain a) - pendingAdd l ->
  l_trackers l' = l_trackers l -> tracked a' l'.
Proof. unfold tracked. intros H E ->. replace (_ - 1 - _) with (zlen (ac_chain a) - 1 - pendingAdd l) by lia. done. Qed.

Lemma open_tracked a env ar s db (l : Ledger) db' : OpenLedger consensus trackers env genesis ar s db = (Ok l, db') ->
  store_inv a l -> l_adding l = None -> tracked a l.
Proof.
  intros E HI Ha. unfold tracked, pendingAdd. rewrite Ha. replace (_ - 1 - 0) with (bq_latest (l_blockQ l)) by (rewrite (si_latest _ _ HI); lia).
  unfold OpenLedger in E. destruct (Atomic _ _ _) as [[u|e|m] db1]; [|done|done]. injection E as E _. inv_ok. cbn.
  match goal with H : Registry.loadFromDisk _ _ _ = _ |- _ => by apply tk_load in H end.
Qed.

Lemma tracked_step a l lab l' a' seen last : store_inv a l -> order_inv a l seen last -> tracked a l -> step l lab l' -> astep a lab a' -> store_inv a' l' -> tracked a' l'.
Proof.
  intros HI [O1 O2 _] HT Hstep Hs HI'. pose proof (si_lastCommitted _ _ HI) as HLc.
  destruct lab as [e|e|r| |c m|]; inversion Hs; subst;
    inversion Hstep as [l0 blk delta cert aux bq Hv Ha Hlt E|l0 blk cert aux e' bq Ha E|l0 blk delta s Ha E|l0 Epc|l0 env w pc db Epc E|l0 w rr pc bq Epc E
      |l0 now c' m' s Epc Ha E|l0 env mm pc db Epc E|l0|l0 env s l1 db E]; subst; try (eapply tracked_same; [exact HT|done|done]).
  - eapply tracked_same; [exact HT| |done]. unfold pendingAdd. cbn. rewrite Ha. unfold zlen. rewrite length_app. cbn. lia.
  - destruct (O2 _ _ Ha) as [Hr Hv]. unfold tracked, pendingAdd in *. rewrite Ha in *. cbn.
    replace (_ - 1 - 0) with (zlen (ac_chain a') - 1 - 1 + 1) by lia. eapply tk_newBlock; [done|done|lia|done].
  - pose proof (si_syncer _ _ HI) as HS. rewrite Epc in HS. cbn in HS. subst c. unfold tracked, pendingAdd in *. cbn in *. rewrite Ha in *.
    unfold notifyCommit, Registry.committedUpTo in E.
    destruct (tk_committed (zlen c0 - 1 - 0) now (bq_lastCommitted (l_blockQ l)) (bq_lastCommitted (l_blockQ l)) (l_trackers l) HT) as (m1 & s1 & E1 & HT1); [lia|].
    rewrite E1 in E. cbn in E. injection E as _ <-. done.
  - destruct (open_again _ _ _ _ _ _ _ _ _ HI E) as (_ & _ & Ha & _). by eapply open_tracked.
Qed.

Lemma run_tracked l0 ls l : opened_fresh l0 -> run l0 ls l -> exists a seen last,
  store_inv a l /\ ordered 0 ls seen last /\ order_inv a l seen last /\ tracked a l.
Proof.
  intros Hf Hr. destruct (fresh_order _ Hf) as (HI & HO). assert (tracked (achain_init (is_Block genesis)) l0) as HT.
  { destruct (opened_fresh_inv _ Hf) as (_ & Ha & _). destruct Hf as (env & ar & s & db & db' & _ & E). by eapply open_tracked. }
  clear Hf. induction Hr as [l|l ls l1 lab l2 _ IH Hstep]; [do 3 eexists; split; [done|]; split; [constructor|done]|].
  destruct (IH HI HO HT) as (a & seen & last & HI1 & HO1 & HOI1 & HT1).
  destruct (order_step _ _ _ _ _ _ _ _ HI1 Hstep HO1 HOI1) as (a2 & seen2 & last2 & Hs & HI2 & HO2 & HOI2).
  exists a2, seen2, last2. split; [done|]. split; [done|]. split; [done|]. by eapply (tracked_step a l1).
Qed.

(** The trackers are never asked for what they cannot answer: every commit the ledger
    reports to them goes through. *)
Lemma notify_total l0 ls l c now : opened_fresh l0 -> run l0 ls l -> l_syncer l = Notifying c -> l_adding l = None ->
  exists m s, notifyCommit trackers now c (l_archival l) (l_trackers l) = Ok (m, s).
Proof.
  intros Hf Hr Epc Ha. destruct (run_tracked _ _ _ Hf Hr) as (a & seen & last & HI & _ & _ & HT). pose proof (si_lastCommitted _ _ HI).
  pose proof (si_syncer _ _ HI) as HS. rewrite Epc in HS. cbn in HS. subst c. unfold tracked, pendingAdd in HT. rewrite Ha in HT.
  destruct (tk_committed _ now (bq_lastCommitted (l_blockQ l)) (bq_lastCommitted (l_blockQ l)) _ HT) as (m & s & E & _); [lia|].
  unfold notifyCommit, Registry.committedUpTo. rewrite E. cbn. eauto.
Qed.

(** ** The syncer gets everything to disk

    Steps in which the database does not fail and the queue is not closed: those of the
    syncer ([true]) and those of callers of [AddValidatedBlock] ([false]). *)
Inductive calm_step : Ledger -> bool -> Ledger -> Prop :=
| calm_wake l : l_syncer l = AtLoop -> calm_step l true (l <| l_syncer := syncer_wake (l_blockQ l) |>)
| calm_flush l w pc db : l_syncer l = Flushing w -> syncer_flush calm w (l_blockDB l) = (pc, db) ->
    calm_step l true (l <| l_blockDB := db |> <| l_syncer := pc |>)
| calm_flushed l w r pc bq : l_syncer l = Flushed w r -> syncer_flushed w r (l_blockQ l) = Ok (pc, bq) ->
    calm_step l true (l <| l_blockQ := bq |> <| l_syncer := pc |>)
| calm_notify l now c m s : l_syncer l = Notifying c -> l_adding l = None ->
    notifyCommit trackers now c (l_archival l) (l_trackers l) = Ok (m, s) ->
    calm_step l true (l <| l_syncer := Forgetting m |> <| l_trackers := s |>)
| calm_forget l m pc db : l_syncer l = Forgetting m -> syncer_forget calm m (l_blockDB l) = (pc, db) ->
    calm_step l true (l <| l_blockDB := db |> <| l_syncer := pc |>)
| calm_put l blk delta cert aux bq : validated blk delta -> l_adding l = None ->
    bq_latest (l_blockQ l) < maxUint64 -> putBlock blk cert aux (l_blockQ l) = (Ok tt, bq) ->
    calm_step l false (l <| l_blockQ := bq |> <| l_adding := Some (blk, delta) |>)
| calm_refuse l blk cert aux e bq : l_adding l = None -> putBlock blk cert aux (l_blockQ l) = (Err e, bq) ->
    calm_step l false (l <| l_blockQ := bq |>)
| calm_newBlock l blk delta s : l_adding l = Some (blk, delta) ->
    Registry.newBlock trackers blk delta (l_trackers l) = Ok s ->
    calm_step l false (l <| l_adding := None |> <| l_trackers := s |>).

(** A run of such steps, [n] of them the syncer's. *)
Inductive calm_run (l : Ledger) : nat -> Ledger -> Prop :=
| calm_nil : calm_run l 0 l
| calm_snoc n l1 b l2 : calm_run l n l1 -> calm_step l1 b l2 -> calm_run l (if b then Datatypes.S n else n) l2.

Lemma calm_step_step l b l' : calm_step l b l' -> exists lab, step l lab l' /\ lab <> LReopen.
Proof.
  destruct 1; eexists; (split; [|shelve]).
  - by apply step_wake.
  - by eapply step_flush.
  - by eapply step_flushed.
  - by eapply step_notify.
  - by eapply step_forget.
  - by eapply step_put.
  - by eapply step_refuse.
  - by eapply step_newBlock.
  Unshelve. all: done.
Qed.
Lemma calm_step_running l b l' : calm_step l b l' -> bq_running (l_blockQ l) = true -> bq_running (l_blockQ l') = true.
Proof.
  destruct 1 as [| |l w r pc bq _ E| | |l blk delta cert aux bq _ _ _ E|l blk cert aux e bq _ E|]; try done; intros Hr; cbn.
  - unfold syncer_flushed in E. destruct r; [|by injection E as _ <-..]. destruct (_ <? _)%nat; [done|].
    destruct (last w); [destruct (negb _); [done|]|]; by injection E as _ <-.
  - unfold putBlock in E. destruct (_ <? _); [done|]. destruct (negb _); [done|]. by injection E as <-.
  - by apply putBlock_refused in E as ->.
Qed.

(** Syncer steps until round [n] is on disk: six for each block that is not, and the rest of
    the round of the loop the syncer is in. *)
Definition rank (pc : syncerPC) : nat :=
  match pc with AtLoop => 3 | Flushing _ => 2 | Flushed _ (Ok _) => 1 | Flushed _ _ => 4 | Notifying _ => 5 | Forgetting _ => 4 | Exited => 0 end.
Definition work (n : Round) (l : Ledger) : nat := (6 * Z.to_nat (n - LatestCommitted l) + rank (l_syncer l))%nat.

(** What a state of a run of an open ledger satisfies. *)
Definition live (l : Ledger) : Prop := (exists l0 ls, opened_fresh l0 /\ run l0 ls l) /\ bq_running (l_blockQ l) = true.

Lemma live_step l b l' : live l -> calm_step l b l' -> live l' /\ Latest l <= Latest l'.
Proof.
  intros [(l0 & ls & Hf & Hr) Hrun] Hs. pose proof (calm_step_running _ _ _ Hs Hrun) as Hrun'.
  destruct (calm_step_step _ _ _ Hs) as (lab & Hst & Hlab).
  destruct (run_tracked _ _ _ Hf Hr) as (a & seen & last & HI & Hord & HO & _).
  destruct (order_step _ _ _ _ _ _ _ _ HI Hst Hord HO) as (a' & _ & _ & Ha & HI' & _). split.
  - split; [|done]. exists l0, (ls ++ [lab]). split; [done|]. by eapply run_snoc.
  - unfold Latest. rewrite (si_latest _ _ HI), (si_latest _ _ HI'). destruct Ha; cbn; try lia; [|done].
    unfold zlen. rewrite length_app. lia.
Qed.

(** In calm weather the transaction of the syncer succeeds. *)
Lemma flushing_step a (l : Ledger) w : store_inv a l -> zlen (ac_chain a) <= 2 ^ 63 -> l_syncer l = Flushing w ->
  exists db, syncer_flush calm w (l_blockDB l) = (Flushed w (Ok tt), db).
Proof.
  intros HI HL Epc. destruct (si_table _ _ HI) as (t & Et & HT). pose proof (si_syncer _ _ HI) as HS. rewrite Epc in HS. destruct HS as [_ Hp].
  pose proof (si_committed _ _ HI) as HB. rewrite Epc in HB. cbn in HB.
  destruct (putEntries_next (ac_chain a) (ac_lo a) w (si_chain _ _ HI) HL _ _ HT) as (t' & E).
  - intros i e Hi. rewrite <- (queue_prefix_chain a l w i e HI Hp Hi). do 2 f_equal. lia.
  - exists (Some t'). unfold syncer_flush. by rewrite Et, (Atomic_calm_Ok (D := blockDB Blob) _ _ tt (Some t') E).
Qed.

(** A calm step does not undo a commit, and one of the syncer does some of the work. *)
Lemma calm_step_work n l b l' : live l -> Latest l < 2 ^ 63 -> n <= Latest l -> LatestCommitted l < n -> calm_step l b l' ->
  n <= LatestCommitted l' \/ (work n l' + (if b then 1 else 0) <= work n l)%nat.
Proof.
  intros [(l0 & ls & Hf & Hr) Hrun] HL Hn Hlt Hs. destruct (run_tracked _ _ _ Hf Hr) as (a & _ & _ & HI & _).
  pose proof (si_syncer _ _ HI) as HS. pose proof (si_lastCommitted _ _ HI) as HC. unfold Latest in *. rewrite (si_latest _ _ HI) in *.
  unfold work, LatestCommitted, bq_latestCommitted in *.
  destruct Hs as [l Epc|l w pc db Epc E|l w r pc bq Epc E|l now c m s Epc _ _|l m pc db Epc E|l blk delta cert aux bq _ _ _ E|l blk cert aux e bq _ E|l blk delta s _ _];
    try rewrite Epc in *; cbn [l_syncer l_blockQ rank].
  - right. assert (bq_q (l_blockQ l) <> []) as Hq.
    { rewrite (si_queue _ _ HI). intros E%(f_equal length). rewrite length_drop in E. unfold zlen in *. cbn in E. lia. }
    cbn. unfold syncer_wake. rewrite Hrun, (bool_decide_eq_false_2 _ Hq). cbn. lia.
  - right. destruct (flushing_step a l w HI ltac:(lia) Epc) as (db' & E'). rewrite E' in E. injection E as <- <-. cbn. lia.
  - rewrite (flushed_inv _ _ _ _ HI Epc) in E. destruct HS as [Hne _].
    assert (0 < zlen w) by (destruct w; [done|unfold zlen; cbn; lia]).
    destruct r as [[]|e|e]; injection E as <- <-; cbn in *; [|right; lia..].
    destruct (decide (n <= bq_lastCommitted (l_blockQ l) + zlen w)); [by left|right; lia].
  - right. cbn. lia.
  - right. injection E as <- <-. cbn. lia.
  - right. unfold putBlock in E. destruct (_ <? _); [done|]. destruct (negb _); [done|]. injection E as <-. cbn. lia.
  - right. apply putBlock_refused in E as ->. cbn. lia.
  - right. cbn. lia.
Qed.
Lemma calm_step_committed l b l' : live l -> calm_step l b l' -> LatestCommitted l <= LatestCommitted l'.
Proof.
  intros [(l0 & ls & Hf & Hr) _] Hs. destruct (run_tracked _ _ _ Hf Hr) as (a & _ & _ & HI & _). unfold LatestCommitted, bq_latestCommitted.
  destruct Hs as [| |l w r pc bq Epc E| | |l blk delta cert aux bq _ _ _ E|l blk cert aux e bq _ E|]; cbn; try done.
  - rewrite (flushed_inv _ _ _ _ HI Epc) in E. destruct r; injection E as _ <-; cbn; unfold zlen; lia.
  - unfold putBlock in E. destruct (_ <? _); [done|]. destruct (negb _); [done|]. by injection E as <-.
  - by apply putBlock_refused in E as ->.
Qed.

Lemma calm_run_work l k l' : live l -> calm_run l k l' -> live l' /\ Latest l <= Latest l' /\
  (Latest l' < 2 ^ 63 -> Latest l <= LatestCommitted l' \/ (work (Latest l) l' + k <= work (Latest l) l)%nat).
Proof.
  intros HL Hr. induction Hr as [|k l1 b l2 Hr IH Hs]; [split_and!; [done|done|right; lia]|].
  destruct IH as (HL1 & Hle & HW). destruct (live_step _ _ _ HL1 Hs) as [HL2 Hle2]. split_and!; [done|lia|].
  intros H63. destruct HW as [HW|HW]; [lia|left; pose proof (calm_step_committed _ _ _ HL1 Hs); lia|].
  destruct (decide (Latest l <= LatestCommitted l1)) as [Hc|Hc]; [left; pose proof (calm_step_committed _ _ _ HL1 Hs); lia|].
  destruct (calm_step_work (Latest l) l1 b l2 HL1 ltac:(lia) Hle ltac:(lia) Hs) as [?|?]; [by left|right]. destruct b; lia.
Qed.

(** Only a caller that holds the trackers' lock can keep the syncer waiting. *)
Lemma syncer_enabled l : live l -> l_adding l = None -> exists l', calm_step l true l'.
Proof.
  intros [(l0 & ls & Hf & Hr) Hrun] Ha. destruct (run_tracked _ _ _ Hf Hr) as (a & seen & last & HI & _).
  pose proof (si_syncer _ _ HI) as HS. destruct (l_syncer l) as [|w|w r|c|m|] eqn:Epc.
  - eexists. by apply calm_wake.
  - destruct (syncer_flush calm w (l_blockDB l)) as [pc db] eqn:E. eexists. by eapply calm_flush.
  - pose proof (flushed_inv _ _ _ _ HI Epc) as E. destruct r; eexists; by eapply calm_flushed.
  - destruct (notify_total l0 ls l c 0 Hf Hr Epc Ha) as (m & s & E). eexists. by eapply calm_notify.
  - eexists. by eapply calm_forget.
  - cbn in HS. congruence.
Qed.

(** C21: Every block gets to disk.  Take a state of a run whose queue is not closed.  In any
    continuation in which no database transaction fails and neither [Close] nor a crash
    happens, while callers go on adding blocks (below round [2^63], the largest the database
    can store) in any interleaving, the syncer has committed every block the ledger had at
    the start as soon as it has made six steps for each block not yet on disk, and five more:
    [WaitForCommit] of those rounds returns.  And it is never stuck: unless a caller is
    between [putBlock] and [newBlock], holding the trackers' lock, it has a next step. *)
Theorem syncer_drains l0 ls l k l' : opened_fresh l0 -> run l0 ls l -> bq_running (l_blockQ l) = true ->
  calm_run l k l' -> Latest l' < 2 ^ 63 ->
  (6 * (Latest l - LatestCommitted l) + 5 <= Z.of_nat k -> Latest l <= LatestCommitted l' /\
    forall r, r <= Latest l -> waitCommit_done (l_blockQ l') r = true) /\
  (l_adding l' = None -> exists l'', calm_step l' true l'').
Proof.
  intros Hf Hr Hrun Hc HL. assert (live l) as HV by (split; [by exists l0, ls|done]).
  destruct (calm_run_work _ _ _ HV Hc) as (HV' & Hle & HW). split; [|by apply syncer_enabled].
  intros Hk. assert (Latest l <= LatestCommitted l') as Hd.
  { destruct (HW HL) as [?|HW']; [done|]. destruct (decide (Latest l <= LatestCommitted l')) as [?|Hn]; [done|].
    unfold work in HW'. assert (rank (l_syncer l) <= 5)%nat by (by destruct (l_syncer l) as [| |? []| | |]; cbn; lia). lia. }
  split; [done|]. intros r Hr'. unfold waitCommit_done, LatestCommitted, bq_latestCommitted in *. apply negb_true_iff, Z.ltb_ge. lia.
Qed.
End Lawful.
End Durable.

(** ** Witnesses: a ledger that adds a block, writes it, and restarts *)

Module StoreExample.

Inductive blob := BlobHdr (x : BlockHeader) | BlobBlock (x : Block) | BlobCert (x : Certificate) | BlobAux (x : evalAux).
#[export] Instance blobCodec : Codec blob := {|
  encHdr := BlobHdr; decHdr b := match b with BlobHdr x => Ok x | _ => Err (Errorf "decode") end;
  encBlock := BlobBlock; decBlock b := match b with BlobBlock x => Ok x | _ => Err (Errorf "decode") end;
  encCert := BlobCert; decCert b := match b with BlobCert x => Ok x | _ => Err (Errorf "decode") end;
  encAux := BlobAux; decAux b := match b with BlobAux x => Ok x | _ => Err (Errorf "decode") end |}.
#[export] Instance blobCodecLaws : CodecLaws blob.
Proof. by split. Qed.

Definition blk (r : Round) : Block :=
  mkBlock (mkBlockHeader r zero32 zero32 zero32 (100 + r) "" zero32 RewardsState_zero (mkUpgradeState "" "" 0 0 0) (mkUpgradeVote "" false) 0) [] [].
Definition delta (r : Round) : StateDelta := emptyDelta (blk_BlockHeader (blk r)).

(** The bulletin and the timestamps. *)
Notation state := (bulletin * (timeTracker * unit))%type.
Definition trackers : Registry.trackerRegistry state := [firstField bulletinTracker; secondField (firstField timeTrackerOps)].
Definition genesis : InitState := mkInitState (blk 0) zero32.
Definition s0 : state := (makeBulletin, (mkTimeTracker ∅, tt)).
Definition valid (b : Block) (d : StateDelta) : Prop := True.
Definition open (db : blockDB blob) : Ledger blob state :=
  match (OpenLedger Consensus trackers (λ _, calm) genesis false s0 db).1 with
  | Ok l => l
  | _ => mkLedger None (mkBlockQueue 0 [] true) AtLoop None false s0
  end.

#[export] Instance trackersOK : TrackersOK valid trackers
  (λ n (p : state), bulletin_inv p.1 /\ is_Some (tm_timestamps p.2.1 !! n) /\ True).
Proof. exact (TrackersOK_cons valid _ _ _ _ (bulletinOK valid) (TrackersOK_cons valid _ _ _ _ (timeOK valid) (TrackersOK_nil valid))). Qed.

Definition l0 := Eval vm_compute in open None.
Definition e1 : blockEntry := mkBlockEntry (blk 1) zeroCert mkEvalAux.
Definition l1 := Eval vm_compute in (l0 <| l_blockQ := (putBlock (blk 1) zeroCert mkEvalAux (l_blockQ l0)).2 |> <| l_adding := Some (blk 1, delta 1) |>).
Definition l2 := Eval vm_compute in
  (l1 <| l_adding := None |> <| l_trackers := match Registry.newBlock trackers (blk 1) (delta 1) (l_trackers l1) with Ok s => s | _ => s0 end |>).
Definition l3 := Eval vm_compute in (l2 <| l_syncer := syncer_wake (l_blockQ l2) |>).
Definition l4 := Eval vm_compute in
  (let '(pc, db) := syncer_flush calm (bq_q (l_blockQ l2)) (l_blockDB l3) in l3 <| l_blockDB := db |> <| l_syncer := pc |>).
Definition l5 := Eval vm_compute in
  (match syncer_flushed (bq_q (l_blockQ l2)) (Ok tt) (l_blockQ l4) with Ok (pc, bq) => l4 <| l_blockQ := bq |> <| l_syncer := pc |> | _ => l4 end).
Definition l6 := Eval vm_compute in
  (match notifyCommit trackers 0 1 false (l_trackers l5) with Ok (m, s) => l5 <| l_syncer := Forgetting m |> <| l_trackers := s |> | _ => l5 end).
Definition l7 := Eval vm_compute in
  (let '(pc, db) := syncer_forget calm 1 (l_blockDB l6) in l6 <| l_blockDB := db |> <| l_syncer := pc |>).
Definition l8 := Eval vm_compute in open (l_blockDB l7).

Notation run := (ledger_run Consensus trackers valid genesis).

Lemma fresh0 : opened_fresh Consensus trackers genesis l0.
Proof. exists (λ _, calm), false, s0, None, (l_blockDB l0). split; [done|]. vm_compute. reflexivity. Qed.

Lemma run02 : run l0 [LAdd e1; LNewBlock 1] l2.
Proof.
  apply (run_snoc _ _ _ _ l0 [LAdd e1] l1); [apply (run_snoc _ _ _ _ l0 [] l0); [constructor|]|].
  - apply (step_put _ _ _ _ l0 (blk 1) (delta 1)); [done|done|done|vm_compute; reflexivity].
  - apply (step_newBlock _ _ _ _ l1 (blk 1) (delta 1)); [done|vm_compute; reflexivity].
Qed.
Lemma run25 : run l2 [LSyncer; LSyncer; LSyncer] l5.
Proof.
  apply (run_snoc _ _ _ _ l2 [LSyncer; LSyncer] l4); [apply (run_snoc _ _ _ _ l2 [LSyncer] l3); [apply (run_snoc _ _ _ _ l2 [] l2); [constructor|]|]|].
  - by apply (step_wake _ _ _ _ l2).
  - by eapply (step_flush _ _ _ _ l3 calm); [done|vm_compute; reflexivity].
  - by eapply (step_flushed _ _ _ _ l4); [done|vm_compute; reflexivity].
Qed.
Lemma run58 : run l5 [LCommitted 1 1; LSyncer; LReopen] l8.
Proof.
  apply (run_snoc _ _ _ _ l5 [LCommitted 1 1; LSyncer] l7); [apply (run_snoc _ _ _ _ l5 [LCommitted 1 1] l6); [apply (run_snoc _ _ _ _ l5 [] l5); [constructor|]|]|].
  - by eapply (step_notify _ _ _ _ l5 0 1 1); [done|done|vm_compute; reflexivity].
  - by eapply (step_forget _ _ _ _ l6 calm 1); [done|vm_compute; reflexivity].
  - by eapply (step_reopen _ _ _ _ l7 (λ _, calm) s0); vm_compute; reflexivity.
Qed.
Lemma run_app (l l' l'' : Ledger blob state) ls ls' : run l ls l' -> run l' ls' l'' -> run l (ls ++ ls') l''.
Proof.
  intros H1 H2. induction H2 as [|l1 ls' l2 lab l3 _ IH Hs]; [by rewrite app_nil_r|]. rewrite app_assoc. by eapply run_snoc; [apply IH|].
Qed.
Lemma run05 : run l0 [LAdd e1; LNewBlock 1; LSyncer; LSyncer; LSyncer] l5.
Proof. exact (run_app _ _ _ _ _ run02 run25). Qed.


(** The block is read from the queue of [l2] and from the database of [l5]. *)
Lemma reads_linearise_witness : exists a a', arun (achain_init (blk 0)) [LAdd e1; LNewBlock 1] a /\ arun a [LSyncer; LSyncer; LSyncer] a' /\
    BlockAt 1 l2 l5 calm = readSpec be_block a a' (LatestCommitted l2) 1 /\
    getBlockHdr 1 (l_blockQ l2) calm (l_blockDB l5) = readSpec (λ e, blk_BlockHeader (be_block e)) a a' (LatestCommitted l2) 1 /\
    BlockCert 1 l2 l5 calm = readSpec (λ e, (be_block e, be_cert e)) a a' (LatestCommitted l2) 1 /\
    EncodedBlockCert 1 l2 l5 calm = readSpec (λ e, (encBlock (be_block e), encCert (be_cert e))) a a' (LatestCommitted l2) 1 /\
    blockAux 1 l2 l5 calm = readSpec (λ e, (be_block e, be_aux e)) a a' (LatestCommitted l2) 1 /\
    forall env b, BlockAt 1 l2 l5 env = Ok b -> be_block <$> ac_chain a !! Z.to_nat 1 = Some b.
Proof.
  refine (reads_linearise Consensus trackers valid genesis l0 _ l2 _ l5 1 fresh0 run02 run25 _ _); [|lia].
  intros Hin. repeat (apply elem_of_cons in Hin as [[=]|Hin]). by apply elem_of_nil in Hin.
Defined.


Lemma trackers_in_order_witness : exists seen last, ordered 0 [LAdd e1; LNewBlock 1; LSyncer; LSyncer; LSyncer; LCommitted 1 1; LSyncer; LReopen] seen last /\
  (l_adding l8 = None -> seen = Latest l8) /\ (forall b d, l_adding l8 = Some (b, d) -> blk_Round b = seen + 1).
Proof. exact (trackers_in_order Consensus trackers valid genesis l0 _ l8 fresh0 (run_app _ _ _ _ _ run05 run58)). Defined.

(** The syncer writes the block, reports it, and then waits for more. *)
Lemma calm27 : calm_run trackers valid l2 5 l7.
Proof.
  apply (calm_snoc _ _ l2 4 l6 true); [apply (calm_snoc _ _ l2 3 l5 true); [apply (calm_snoc _ _ l2 2 l4 true);
    [apply (calm_snoc _ _ l2 1 l3 true); [apply (calm_snoc _ _ l2 0 l2 true); [constructor|]|]|]|]|].
  - by apply (calm_wake _ _ l2).
  - by eapply (calm_flush _ _ l3); [done|vm_compute; reflexivity].
  - by eapply (calm_flushed _ _ l4); [done|vm_compute; reflexivity].
  - by eapply (calm_notify _ _ l5 0 1 1); [done|done|vm_compute; reflexivity].
  - by eapply (calm_forget _ _ l6 1); [done|vm_compute; reflexivity].
Qed.
Lemma calm_idle k : calm_run trackers valid l2 (k + 5) l7.
Proof. induction k as [|k IH]; [apply calm27|]. by eapply (calm_snoc _ _ l2 (k + 5) l7 true), (calm_wake _ _ l7). Qed.

Lemma syncer_drains_witness : (Latest l2 <= LatestCommitted l7 /\ forall r, r <= Latest l2 -> waitCommit_done (l_blockQ l7) r = true) /\
  exists l'', calm_step trackers valid l7 true l''.
Proof.
  destruct (syncer_drains Consensus trackers valid genesis _ l0 _ l2 (6 + 5) l7 fresh0 run02 eq_refl (calm_idle 6) eq_refl) as [H1 H2].
  split; [apply H1; vm_compute; discriminate|apply H2; reflexivity].
Defined.
End StoreExample.
