(* ===== verification/AcctRestart.v ===== *)
(** The accounts tracker over its whole life: the first initialisation of its database,
    loading after a restart, and the listing of assets (src/ledger/acctupdates.go and
    accountdb.go; the rest of the tracker is in AcctUpdates.v).

    The database is [None] until it is initialised: the statements that create the
    tables and the first rows run in one transaction.

    Loading evaluates blocks again with the evaluator of [Eval].  Its reads of accounts,
    asset creators and totals are methods of the ledger (ledger.go) that ask the very
    tracker that is being loaded: [trackerEvalVerified] is a function of that tracker. *)

From stdpp Require Import sorting.
From S2P Require Import Prelude Config Basics Transactions Bookkeeping Totals Cow Multisig Verify Eval AcctUpdates Agreement BlockDB Trackers.

Record AssetLocator := mkAssetLocator { al_Index : AssetIndex; al_Creator : Address }.

(** [sort.Slice] by descending index. *)
Definition notBefore (i j : AssetIndex) : Prop := j <= i.
#[export] Instance notBefore_dec : RelDecision notBefore.
Proof. unfold notBefore. intros i j. apply _. Defined.
Definition descending (l : list AssetIndex) : list AssetIndex := merge_sort notBefore l.

Section Restart.
Context {Blob Cache : Type}.
Variable consensus : gmap string ConsensusParams.
Variable Encode : AccountData -> Blob.
Variable Decode : Blob -> result AccountData.
Variable iter : gmap Address accountDelta -> list (Address * accountDelta).
Variable iterInit : gmap Address AccountData -> list (Address * AccountData).

Definition trackerDB : Type := option (acctDB Blob).

(** ** Initialisation *)

Fixpoint initLoop (proto : ConsensusParams) (l : list (Address * AccountData)) (base : gmap Address Blob) (t : AccountTotals) (ot : bool)
    : result (gmap Address Blob * AccountTotals * bool) :=
  match l with
  | [] => Ok (base, t, ot)
  | (addr, data) :: l => r ← addAccount proto data t ot; initLoop proto l (<[addr := Encode data]> base) r.1 r.2
  end.

(** An initialised database is left alone. *)
Definition accountsInit (initAccounts : gmap Address AccountData) (proto : ConsensusParams) : M trackerDB unit := λ s,
  match s with
  | Some _ => (Ok tt, s)
  | None =>
    match initLoop proto (iterInit initAccounts) ∅ AccountTotals_zero false with
    | Ok (base, totals, ot) =>
      if (ot : bool) then (Err (Errorf "overflow computing totals"), s) else (Ok tt, Some (mkAcctDB 0 totals base ∅))
    | Err e => (Err e, s)
    | Panic m => (Panic m, s)
    end
  end.

Definition accountsReset : M trackerDB unit := λ _, (Ok tt, None).
Definition accountsRound : M trackerDB Round := λ s,
  match s with Some db => (Ok (db_acctrounds db), s) | None => (Err (Errorf "no such table: acctrounds"), s) end.
Definition accountsTotals : M trackerDB AccountTotals := λ s,
  match s with Some db => (Ok (db_accounttotals db), s) | None => (Err (Errorf "no such table: accounttotals"), s) end.

Definition accountsInitialize (initAccounts : gmap Address AccountData) (initProto : ConsensusParams) : M trackerDB Round :=
  _ ← accountsInit initAccounts initProto; accountsRound.

(** ** Loading *)

(** The transaction of [loadFromDisk]: a database ahead of the blocks is reset. *)
Definition loadTx (initAccounts : gmap Address AccountData) (initProto : ConsensusParams) (latest : Round) : M trackerDB (Round * AccountTotals) :=
  dbRound ← accountsInitialize initAccounts initProto;
  dbRound ← (if latest <? dbRound then _ ← accountsReset; accountsInitialize initAccounts initProto else mret dbRound);
  totals ← accountsTotals;
  mret (dbRound, totals).

(** The methods of [*Ledger] that the evaluator reads the tracker through. *)
Definition led_Lookup (au : accountUpdates Blob) (rnd : Round) (addr : Address) : result AccountData := au_lookup Decode au rnd addr true.
Definition led_LookupWithoutRewards (au : accountUpdates Blob) (rnd : Round) (addr : Address) : result AccountData :=
  au_lookup Decode au rnd addr false.
Definition led_Totals (au : accountUpdates Blob) (rnd : Round) : result AccountTotals := au_totals au rnd.
Definition led_GetAssetCreatorForRound (au : accountUpdates Blob) (rnd : Round) (i : AssetIndex) : result Address :=
  getAssetCreatorForRound au rnd i.

(** The ledger as the evaluator sees it, over the tracker [au]; headers come from the
    blocks, [isDup] from the tracker of recent transactions. *)
Definition ledgerOver (genesisHash : Digest) (blockHdr : Round -> result BlockHeader)
    (isDup : ConsensusParams -> Round -> Round -> Round -> Txid -> txlease -> result bool) (au : accountUpdates Blob) : ledgerForEvaluator :=
  mkLedgerForEvaluator genesisHash blockHdr (led_Lookup au) (led_Totals au) isDup (led_LookupWithoutRewards au) (led_GetAssetCreatorForRound au).

Variable cr : Crypto.
Variable en : Encoding.
Variable vc : VerifiedTxnCache Cache.
Variable genesisHash : Digest.
Variable isDup : ConsensusParams -> Round -> Round -> Round -> Txid -> txlease -> result bool.

(** Evaluation without validation and without a cache, under a context that is never
    cancelled. *)
Definition trackerEvalVerified (l : ledgerForTracker) (au : accountUpdates Blob) (blk : Block) (aux : evalAux) : result StateDelta :=
  ledger_eval consensus cr en vc (ledgerOver genesisHash (lf_BlockHdr l) isDup au) (λ _, None) blk false None.

(** [for loaded < latest]: evaluate the next block and take its delta. *)
Fixpoint loadLoop (fuel : nat) (l : ledgerForTracker) (loaded : Round) (au : accountUpdates Blob) : result (accountUpdates Blob) :=
  match fuel with
  | O => Panic "out of fuel"
  | S fuel =>
    if loaded <? lf_Latest l then
      let next := wrap64 (loaded + 1) in
      ba ← lf_blockAux l next;
      delta ← trackerEvalVerified l au ba.1 ba.2;
      au ← newBlock consensus iter ba.1 delta au;
      loadLoop fuel l next au
    else Ok au
  end.

(** [lastFlushTime] is not touched by loading. *)
Definition au_loadFromDisk (env : weather) (l : ledgerForTracker) (initAccounts : option (gmap Address AccountData)) (initProto : ConsensusParams)
    (lastFlushTime : Z) (s : trackerDB) : result (accountUpdates Blob) * trackerDB :=
  match initAccounts with
  | None => (Err (Errorf "accountUpdates.loadFromDisk: initAccounts not set"), s)
  | Some initAccounts =>
    match Atomic env (loadTx initAccounts initProto (lf_Latest l)) s with
    | (Ok (dbRound, totals), s) =>
      (db ← match s with Some db => Ok db | None => Err (Errorf "no such table") end;
       hdr ← lf_BlockHdr l dbRound;
       loadLoop (S (Z.to_nat (lf_Latest l - dbRound))) l dbRound
         (mkAccountUpdates db dbRound [] ∅ [] ∅ [protoOf consensus (bh_CurrentProtocol hdr)] [totals] lastFlushTime), s)
    | (Err e, s) => (Err e, s)
    | (Panic m, s) => (Panic m, s)
    end
  end.

(** ** Listing assets *)

(** Arguments of a statement are signed. *)
Definition qs_listAssets (db : acctDB Blob) (maxAssetIdx : AssetIndex) (maxResults : Z) : result (list AssetLocator) :=
  if (2 ^ 63 <=? maxAssetIdx) || (2 ^ 63 <=? maxResults) then Err (Errorf "uint64 values with high bit set are not supported")
  else
    let idxs := descending (filter (λ i, i <= maxAssetIdx) (elements (dom (db_assetcreators db)))) in
    Ok (take (Z.to_nat maxResults) (omap (λ i, mkAssetLocator i <$> db_assetcreators db !! i) idxs)).

(** A loop that appends and returns once it has [maxResults]: [inl] is the early return. *)
Fixpoint appendUpTo (maxResults : Z) (skip : AssetIndex -> bool) (locs res : list AssetLocator) : list AssetLocator + list AssetLocator :=
  match locs with
  | [] => inr res
  | loc :: locs =>
    if zlen res =? maxResults then inl res
    else appendUpTo maxResults skip locs (if skip (al_Index loc) then res else res ++ [loc])
  end.

Definition listAssets (au : accountUpdates Blob) (maxAssetIdx : AssetIndex) (maxResults : Z) : result (list AssetLocator) :=
  let keys := descending (filter (λ i, i <= maxAssetIdx) (elements (dom (au_assets au)))) in
  let unsyncedAssets := omap (λ i, match au_assets au !! i with
                                   | Some delta => if ma_created delta then Some (mkAssetLocator i (ma_creator delta)) else None
                                   | None => None
                                   end) keys in
  let deletedAssets := filter (λ i, negb (default false (ma_created <$> au_assets au !! i)) = true) keys in
  match appendUpTo maxResults (λ _, false) unsyncedAssets [] with
  | inl res => Ok res
  | inr res =>
    let numToFetch := wrap64 (wrap64 (maxResults - zlen res) + zlen deletedAssets) in
    dbResults ← qs_listAssets (au_dbs au) maxAssetIdx numToFetch;
    match appendUpTo maxResults (λ i, bool_decide (i ∈ deletedAssets)) dbResults res with inl res | inr res => Ok res end
  end.
End Restart.
