(* ===== verification/AcctRestartSpec.v ===== *)
(** The accounts tracker survives a restart: evaluating the blocks on disk again, against
    the tracker as it is being loaded, rebuilds what was lost ([au_restart]).  Asset
    listings are the newest existing assets ([listAssets_spec]). *)

From stdpp Require Import sorting.
From S2P Require Import Prelude Config Basics Transactions Bookkeeping Totals Cow Multisig Verify Eval EvalSpec AcctUpdates AcctUpdatesSpec EvalReads Agreement BlockDB Trackers AcctRestart.

(** ** Listing assets *)

Section Listing.
Context {Blob : Type}.
Implicit Types au : accountUpdates Blob.

(** The creator of an asset in the newest round. *)
Definition liveAsset au (i : AssetIndex) : option Address :=
  match au_assets au !! i with
  | Some x => if ma_created x then Some (ma_creator x) else None
  | None => db_assetcreators (au_dbs au) !! i
  end.
Definition locator (f : AssetIndex -> option Address) (i : AssetIndex) : option AssetLocator := mkAssetLocator i <$> f i.
(** All assets up to [maxAssetIdx], the newest first. *)
Definition listed au (maxAssetIdx : AssetIndex) : list AssetLocator :=
  omap (locator (liveAsset au)) (descending (filter (λ i, i <= maxAssetIdx) (elements (dom (au_assets au) ∪ dom (db_assetcreators (au_dbs au)))))).

Definition above (a b : AssetLocator) : Prop := al_Index b < al_Index a.

(** Strictly descending lists with the same elements are equal. *)
Lemma above_unique l1 l2 : StronglySorted above l1 -> StronglySorted above l2 -> (forall x, x ∈ l1 <-> x ∈ l2) -> l1 = l2.
Proof.
  revert l2. induction l1 as [|x l1 IH]; intros [|y l2] S1 S2 E.
  - done.
  - exfalso. apply (not_elem_of_nil y), E. set_solver.
  - exfalso. apply (not_elem_of_nil x), E. set_solver.
  - apply StronglySorted_inv in S1 as [S1 F1], S2 as [S2 F2]. rewrite Forall_forall in F1, F2. unfold above in *.
    assert (x = y) as <-.
    { assert (x ∈ y :: l2) as [?|Hx]%elem_of_cons by (apply E; set_solver); [done|].
      assert (y ∈ x :: l1) as [?|Hy]%elem_of_cons by (apply E; set_solver); [done|]. specialize (F1 y Hy). specialize (F2 x Hx). lia. }
    f_equal. apply IH; [done|done|]. intros z. specialize (E z). rewrite !elem_of_cons in E. split; intros Hz.
    + destruct (proj1 E (or_intror Hz)) as [->|]; [|done]. specialize (F1 x Hz). lia.
    + destruct (proj2 E (or_intror Hz)) as [->|]; [|done]. specialize (F2 x Hz). lia.
Qed.

Lemma descending_elem l i : i ∈ descending l <-> i ∈ l.
Proof. unfold descending. by rewrite (merge_sort_Permutation notBefore l). Qed.
Lemma descending_sorted l : NoDup l -> StronglySorted (λ i j, j < i) (descending l).
Proof.
  intros Hnd. unfold descending. assert (StronglySorted notBefore (merge_sort notBefore l)) as HS.
  { apply StronglySorted_merge_sort; [unfold notBefore; intros x y z; lia|unfold notBefore; intros x y; lia]. }
  assert (NoDup (merge_sort notBefore l)) as HN by (by rewrite merge_sort_Permutation).
  induction HS as [|x l' HS IH HF]; [constructor|]. apply NoDup_cons in HN as [Hx HN]. constructor; [by apply IH|].
  rewrite Forall_forall in HF |- *. intros y Hy. specialize (HF y Hy). unfold notBefore in HF. destruct (decide (x = y)) as [->|]; [done|lia].
Qed.

Lemma omap_sorted (f : AssetIndex -> option Address) l : StronglySorted (λ i j, j < i) l -> StronglySorted above (omap (locator f) l).
Proof.
  induction 1 as [|i l HS IH HF]; [constructor|]. cbn. unfold locator at 1. destruct (f i); cbn; [|done]. constructor; [done|].
  rewrite Forall_forall in HF. apply Forall_forall. intros x (j & Hj & E)%list_elem_of_omap. unfold locator in E. apply fmap_Some in E as (c & _ & ->). unfold above. cbn. by apply HF.
Qed.
Lemma omap_elem (f : AssetIndex -> option Address) (l : list AssetIndex) i a : mkAssetLocator i a ∈ omap (locator f) l <-> i ∈ l /\ f i = Some a.
Proof.
  rewrite list_elem_of_omap. unfold locator. split.
  - intros (j & Hj & E). apply fmap_Some in E as (c & Hc & [= -> ->]). done.
  - intros [Hi Hf]. exists i. by rewrite Hf.
Qed.

(** ** The two loops *)

Lemma appendUpTo_spec max (skip : AssetIndex -> bool) locs : forall res, zlen res <= max ->
  match appendUpTo max skip locs res with
  | inl r => r = res ++ take (Z.to_nat max - length res) (filter (λ x, skip (al_Index x) = false) locs) /\ zlen r = max
  | inr r => r = res ++ filter (λ x, skip (al_Index x) = false) locs /\ zlen r <= max
  end.
Proof.
  induction locs as [|x locs IH]; intros res Hle; cbn [appendUpTo]; [by rewrite app_nil_r|]. rewrite filter_cons.
  destruct (Z.eqb_spec (zlen res) max) as [E|E].
  { split; [|done]. replace (Z.to_nat max - length res)%nat with 0%nat by (unfold zlen in *; lia). by rewrite app_nil_r. }
  destruct (skip (al_Index x)) eqn:Es.
  - rewrite decide_False by done. by apply IH.
  - rewrite decide_True by done. assert (zlen (res ++ [x]) <= max) as Hle' by (unfold zlen in *; rewrite length_app; cbn; lia).
    specialize (IH _ Hle'). destruct (appendUpTo _ _ _ _); destruct IH as [-> IH]; (split; [|done]); rewrite <- app_assoc; cbn; [|done].
    rewrite length_app. cbn. replace (Z.to_nat max - length res)%nat with (S (Z.to_nat max - (length res + 1)))%nat by (unfold zlen in *; lia). done.
Qed.

(** Enough rows make up for those that are skipped. *)
Lemma take_filter_take {A} (P : A -> Prop) `{!forall x, Decision (P x)} (l : list A) m n :
  (m + length (filter (λ x, ¬ P x) l) <= n)%nat -> take m (filter P (take n l)) = take m (filter P l).
Proof.
  revert m n. induction l as [|x l IH]; intros m n Hn; [by rewrite take_nil|]. rewrite filter_cons in Hn |- *.
  destruct (decide (P x)) as [HP|HP].
  - rewrite decide_False in Hn by tauto. destruct m as [|m]; [done|]. destruct n as [|n]; [lia|]. cbn [take]. rewrite filter_cons, decide_True by done.
    cbn. f_equal. apply IH. lia.
  - rewrite decide_True in Hn by done. cbn in Hn. destruct n as [|n]; [lia|]. cbn [take]. rewrite filter_cons, decide_False by done. apply IH. lia.
Qed.

Lemma filter_sorted (P : AssetLocator -> Prop) `{!forall x, Decision (P x)} l : StronglySorted above l -> StronglySorted above (filter P l).
Proof.
  induction 1 as [|x l HS IH HF]; [constructor|]. rewrite filter_cons. destruct (decide (P x)); [|done]. constructor; [done|].
  apply Forall_forall. rewrite Forall_forall in HF. intros y [_ Hy]%list_elem_of_filter. by apply HF.
Qed.

Lemma filter_const_true {A} (l : list A) : filter (λ _ : A, false = false) l = l.
Proof. induction l as [|x l IH]; [done|]. rewrite filter_cons, decide_True by done. by rewrite IH. Qed.

Definition createdBy au (i : AssetIndex) : option Address :=
  match au_assets au !! i with Some x => if ma_created x then Some (ma_creator x) else None | None => None end.
Definition memKeys au (maxIdx : AssetIndex) : list AssetIndex := descending (filter (λ i, i <= maxIdx) (elements (dom (au_assets au)))).
Definition deletedKeys au (maxIdx : AssetIndex) : list AssetIndex :=
  filter (λ i, negb (default false (ma_created <$> au_assets au !! i)) = true) (memKeys au maxIdx).
Definition dbKeys au (maxIdx : AssetIndex) : list AssetIndex := descending (filter (λ i, i <= maxIdx) (elements (dom (db_assetcreators (au_dbs au))))).

Lemma memKeys_elem au maxIdx i : i ∈ memKeys au maxIdx <-> i <= maxIdx /\ is_Some (au_assets au !! i).
Proof. unfold memKeys. by rewrite descending_elem, list_elem_of_filter, elem_of_elements, elem_of_dom. Qed.
Lemma dbKeys_elem au maxIdx i : i ∈ dbKeys au maxIdx <-> i <= maxIdx /\ is_Some (db_assetcreators (au_dbs au) !! i).
Proof. unfold dbKeys. by rewrite descending_elem, list_elem_of_filter, elem_of_elements, elem_of_dom. Qed.
Lemma deletedKeys_elem au maxIdx i : i ∈ deletedKeys au maxIdx <-> i <= maxIdx /\ exists x, au_assets au !! i = Some x /\ ma_created x = false.
Proof.
  unfold deletedKeys. rewrite list_elem_of_filter, memKeys_elem. destruct (au_assets au !! i) as [x|]; cbn.
  - rewrite negb_true_iff. split; [intros (? & ? & ?); eauto|intros (? & x' & [= <-] & ?); eauto].
  - split; [intros (_ & _ & [? [=]])|intros (_ & ? & [=] & _)].
Qed.
Lemma keys_sorted {V} (m : gmap AssetIndex V) (maxIdx : AssetIndex) : StronglySorted (λ i j, j < i) (descending (filter (λ i, i <= maxIdx) (elements (dom m)))).
Proof. apply descending_sorted, NoDup_filter, NoDup_elements. Qed.

(** The assets in memory come first, then those of the database that were not deleted. *)
Lemma listed_split au maxIdx : (forall i j x, au_assets au !! i = Some x -> ma_created x = true -> is_Some (db_assetcreators (au_dbs au) !! j) -> j < i) ->
  listed au maxIdx = omap (locator (createdBy au)) (memKeys au maxIdx) ++
    filter (λ x, bool_decide (al_Index x ∈ deletedKeys au maxIdx) = false) (omap (locator (λ i, db_assetcreators (au_dbs au) !! i)) (dbKeys au maxIdx)).
Proof.
  intros Hnew. apply above_unique.
  - apply omap_sorted, descending_sorted, NoDup_filter, NoDup_elements.
  - apply StronglySorted_app_2; [|apply omap_sorted, keys_sorted|apply filter_sorted, omap_sorted, keys_sorted].
    intros [i a] [j b] [Hi Hc]%omap_elem [_ [Hj Hd]%omap_elem]%list_elem_of_filter. unfold above. cbn.
    unfold createdBy in Hc. destruct (au_assets au !! i) as [x|] eqn:Ex; [|done]. destruct (ma_created x) eqn:Ec; [|done].
    apply (Hnew i j x); [done|done|]. by rewrite Hd.
  - intros [i a]. unfold listed. rewrite elem_of_app, list_elem_of_filter, !omap_elem, descending_elem, list_elem_of_filter, memKeys_elem, dbKeys_elem.
    rewrite elem_of_elements, elem_of_union, !elem_of_dom, bool_decide_eq_false, deletedKeys_elem. cbn.
    unfold liveAsset, createdBy. pose proof (Hnew i i) as Hii. destruct (au_assets au !! i) as [x|] eqn:Ex; [destruct (ma_created x) eqn:Ec|]; split.
    + intros [[? _] ?]. left. eauto.
    + intros [[[? ?] ?]|(_ & [? ?] & Hd)]; [eauto|]. exfalso. specialize (Hii x eq_refl Ec ltac:(done)). lia.
    + by intros [_ ?].
    + intros [[_ ?]|(Hn & [? _] & _)]; [done|]. exfalso. apply Hn. eauto.
    + intros [[? [[? [=]]|?]] ?]. right. split; [|done]. intros (_ & ? & [=] & _).
    + intros [[_ ?]|(_ & [? ?] & ?)]; [done|]. eauto.
Qed.

(** Few rows of the database are deleted in memory. *)
Lemma skipped_few au maxIdx : (length (filter (λ x, ¬ bool_decide (al_Index x ∈ deletedKeys au maxIdx) = false)
    (omap (locator (λ i, db_assetcreators (au_dbs au) !! i)) (dbKeys au maxIdx))) <= length (deletedKeys au maxIdx))%nat.
Proof.
  set (L := filter _ _). rewrite <- (length_fmap al_Index L). apply submseteq_length, NoDup_submseteq.
  - assert (StronglySorted above L) as HS by apply filter_sorted, omap_sorted, keys_sorted. induction HS as [|x l HS IH HF]; [constructor|].
    apply NoDup_cons. split; [|done]. rewrite Forall_forall in HF. intros (y & E & Hy)%list_elem_of_fmap. specialize (HF y Hy). unfold above in HF. lia.
  - intros i (x & -> & Hx)%list_elem_of_fmap. apply list_elem_of_filter in Hx as [Hx _]. by apply not_false_is_true, bool_decide_eq_true in Hx.
Qed.

(** While no asset in memory is older than one on disk, [listAssets] returns the newest
    [maxResults] existing assets up to [maxAssetIdx], in descending order. *)
Theorem listAssets_spec au maxAssetIdx maxResults :
  (forall i j x, au_assets au !! i = Some x -> ma_created x = true -> is_Some (db_assetcreators (au_dbs au) !! j) -> j < i) ->
  maxAssetIdx < 2 ^ 63 -> 0 <= maxResults -> maxResults + zlen (memKeys au maxAssetIdx) < 2 ^ 63 ->
  listAssets au maxAssetIdx maxResults = Ok (take (Z.to_nat maxResults) (listed au maxAssetIdx)).
Proof.
  intros Hnew Hi H0 Hm. rewrite (listed_split au maxAssetIdx Hnew). unfold listAssets. fold (memKeys au maxAssetIdx).
  fold (deletedKeys au maxAssetIdx). pose proof (skipped_few au maxAssetIdx) as Hfew.
  assert (length (deletedKeys au maxAssetIdx) <= length (memKeys au maxAssetIdx))%nat as Hdel by apply length_filter.
  replace (omap _ (memKeys au maxAssetIdx)) with (omap (locator (createdBy au)) (memKeys au maxAssetIdx)); cycle 1.
  { apply list_omap_ext, Forall_Forall2_diag, Forall_forall. intros i _. unfold locator, createdBy.
    destruct (au_assets au !! i) as [x|]; [by destruct (ma_created x)|done]. }
  set (mem := omap _ (memKeys au maxAssetIdx)) in *. set (dbl := omap _ (dbKeys au maxAssetIdx)) in *.
  pose proof (appendUpTo_spec maxResults (λ _, false) mem [] ltac:(unfold zlen; cbn; lia)) as A1. rewrite filter_const_true in A1.
  destruct (appendUpTo maxResults _ mem []) as [r|r]; destruct A1 as [-> A1]; cbn [app length] in *.
  - rewrite Nat.sub_0_r in *. unfold zlen in A1. rewrite length_take in A1. by rewrite take_app_le by lia.
  - assert (zlen mem <= maxResults) as Hmem by done. rewrite (wrap64_small (maxResults - zlen mem)) by (unfold u64, zlen in *; lia).
    rewrite wrap64_small by (unfold u64, zlen in *; lia). unfold qs_listAssets.
    rewrite (proj2 (Z.leb_gt _ _) Hi), (proj2 (Z.leb_gt (2 ^ 63) (maxResults - zlen mem + zlen (deletedKeys au maxAssetIdx)))) by (unfold zlen in *; lia).
    cbn [orb mbind result_bind]. fold (dbKeys au maxAssetIdx). change (omap _ (dbKeys au maxAssetIdx)) with dbl.
    set (n := Z.to_nat (_ - _ + _)). pose proof (appendUpTo_spec maxResults (λ i, bool_decide (i ∈ deletedKeys au maxAssetIdx)) (take n dbl) mem Hmem) as A2.
    rewrite take_app_ge by (unfold zlen in *; lia). rewrite <- (take_filter_take _ dbl (Z.to_nat maxResults - length mem) n) by (unfold n, zlen in *; lia).
    destruct (appendUpTo _ _ _ _) as [r|r]; destruct A2 as [-> A2]; [done|].
    do 2 f_equal. symmetry. apply take_ge. unfold zlen in A2. rewrite length_app in A2. lia.
Qed.
End Listing.

(** ** The totals of every round follow from those of the round before *)

Lemma newBlockLoop_updateTotals p l : forall accounts assets nd t ot accounts' assets' nd' t' ot',
  newBlockLoop p l accounts assets nd t ot = Ok (accounts', assets', nd', t', ot') -> updateTotals p (pairOf <$> l) t ot = Ok (t', ot').
Proof.
  induction l as [|[a ad] l IH]; intros accounts assets nd t ot accounts' assets' nd' t' ot' E; [by injection E as _ _ _ <- <-|].
  cbn [fmap list_fmap pairOf updateTotals newBlockLoop fst snd] in *.
  apply result_bind_Ok in E as (r1 & -> & E). cbn [mbind result_bind]. apply result_bind_Ok in E as (r2 & -> & E). cbn [mbind result_bind]. by eapply IH.
Qed.

Lemma updateTotals_level p l : forall t ot t' ot', updateTotals p (pairOf <$> l) t ot = Ok (t', ot') -> at_RewardsLevel t' = at_RewardsLevel t.
Proof.
  induction l as [|[a ad] l IH]; intros t ot t' ot' E; [by injection E as <- _|].
  cbn [fmap list_fmap pairOf updateTotals fst snd] in E. apply result_bind_Ok in E as ([t1 ot1] & E1 & E). apply result_bind_Ok in E as ([t2 ot2] & E2 & E).
  apply delAccount_countable in E1 as [_ L1]. apply addAccount_countable in E2 as [_ L2]. apply IH in E. cbn in *. congruence.
Qed.

(** ** The totals do not depend on the order in which accounts are visited *)

Section Order.
Variable p : ConsensusParams.

(** What adding ([sign] 1) or removing ([sign] -1) an account does to the field of its status. *)
Definition moneyAt (lvl : Z) (d : AccountData) : Z := match Money d p lvl with Ok m => m.1 | _ => 0 end.
Definition unitsOf (d : AccountData) : Z := match RewardUnits (ad_MicroAlgos d) p with Ok u => u | _ => 0 end.
Definition shift (x : Z * Z) (ac : AlgoCount) : AlgoCount := mkAlgoCount (wrap64 (ac_Money ac + x.1)) (wrap64 (ac_RewardUnits ac + x.2)).
Definition shifts (lvl : Z) (st : Status) (sign : Z) (d : AccountData) : list (Z * Z) :=
  if decide (st = ad_Status d) then [(sign * moneyAt lvl d, sign * unitsOf d)] else [].
Definition effects (lvl : Z) (st : Status) (x : Address * accountDelta) : list (Z * Z) :=
  shifts lvl st (-1) (acd_old x.2) ++ shifts lvl st 1 (acd_new x.2).

Lemma shift_comm x y ac : shift x (shift y ac) = shift y (shift x ac).
Proof. unfold shift. cbn. rewrite !wrap64_add_wrap. f_equal; f_equal; lia. Qed.
Lemma foldr_shift_comm l x ac : foldr shift (shift x ac) l = shift x (foldr shift ac l).
Proof. induction l as [|y l IH]; [done|]. cbn. by rewrite IH, shift_comm. Qed.
Lemma foldr_shift_perm l l' ac : l ≡ₚ l' -> foldr shift ac l = foldr shift ac l'.
Proof.
  induction 1 as [|x l l' _ IH|x y l|l1 l2 l3 _ IH1 _ IH2]; cbn; [done|by rewrite IH|apply shift_comm|by rewrite IH1].
Qed.

Lemma addAccount_shift d t ot t' ot' st : addAccount p d t ot = Ok (t', ot') ->
  statusField t' st = foldr shift (statusField t st) (shifts (at_RewardsLevel t) st 1 d).
Proof.
  unfold addAccount, shifts, moneyAt, unitsOf. intros E. destruct (Money d p _) as [m| |]; cbn in E; try done.
  destruct (RewardUnits _ _) as [u| |]; cbn in E; try done. injection E as <- <-. rewrite statusField_set. case_decide; subst; [|done].
  unfold shift. cbn. by rewrite !Z.mul_1_l.
Qed.
Lemma delAccount_shift d t ot t' ot' st : delAccount p d t ot = Ok (t', ot') ->
  statusField t' st = foldr shift (statusField t st) (shifts (at_RewardsLevel t) st (-1) d).
Proof.
  unfold delAccount, shifts, moneyAt, unitsOf. intros E. destruct (Money d p _) as [m| |]; cbn in E; try done.
  destruct (RewardUnits _ _) as [u| |]; cbn in E; try done. injection E as <- <-. rewrite statusField_set. case_decide; subst; [|done].
  unfold shift. cbn. f_equal; f_equal; lia.
Qed.

Lemma updateTotals_shift l : forall t ot t' ot' st, updateTotals p (pairOf <$> l) t ot = Ok (t', ot') ->
  statusField t' st = foldr shift (statusField t st) (l ≫= effects (at_RewardsLevel t) st).
Proof.
  induction l as [|[a ad] l IH]; intros t ot t' ot' st E; [by injection E as <- _|].
  cbn [fmap list_fmap pairOf updateTotals fst snd] in E. apply result_bind_Ok in E as ([t1 ot1] & E1 & E). apply result_bind_Ok in E as ([t2 ot2] & E2 & E).
  cbn [fst snd] in *. pose proof (delAccount_countable _ _ _ _ _ _ E1) as [_ L1]. pose proof (addAccount_countable _ _ _ _ _ _ E2) as [_ L2].
  rewrite (IH _ _ _ _ st E), L2, (addAccount_shift _ _ _ _ _ st E2), L1, (delAccount_shift _ _ _ _ _ st E1).
  cbn [mbind list_bind]. unfold effects at 2. cbn [snd]. rewrite <- !foldr_app. apply foldr_shift_perm. solve_Permutation.
Qed.

Lemma totals_ext (t t' : AccountTotals) : at_RewardsLevel t = at_RewardsLevel t' -> (forall st, statusField t st = statusField t' st) -> t = t'.
Proof. intros HL HS. pose proof (HS Online). pose proof (HS Offline). pose proof (HS NotParticipating). destruct t, t'. cbn in *. by subst. Qed.

Lemma updateTotals_order l l' t ot ot' t1 o1 t2 o2 : l ≡ₚ l' -> updateTotals p (pairOf <$> l) t ot = Ok (t1, o1) ->
  updateTotals p (pairOf <$> l') t ot' = Ok (t2, o2) -> t2 = t1.
Proof.
  intros HP E1 E2. apply totals_ext.
  - by rewrite (updateTotals_level _ _ _ _ _ _ E1), (updateTotals_level _ _ _ _ _ _ E2).
  - intros st. rewrite (updateTotals_shift _ _ _ _ _ st E1), (updateTotals_shift _ _ _ _ _ st E2). apply foldr_shift_perm. by rewrite HP.
Qed.

(** They do not depend on the assets either. *)
Lemma Money_below d d' lvl : below d d' -> Money d' p lvl = Money d p lvl.
Proof.
  intros (mp & ma & H1 & H2 & ->)%below_inv. unfold Money, WithUpdatedRewards. cbn. case_decide; [|done].
  destruct (RewardUnits _ _); cbn; [|done..]. destruct (ot_Mul _ _ _) as [x o]. destruct (o || _); done.
Qed.
Lemma updateTotals_below l l' : Forall2 (λ x x', delta_below x.2 x'.2) l l' -> forall t ot,
  updateTotals p (pairOf <$> l') t ot = updateTotals p (pairOf <$> l) t ot.
Proof.
  induction 1 as [|[a x] [a' x'] l l' [Ho Hn] _ IH]; intros t ot; [done|]. cbn [fmap list_fmap pairOf updateTotals fst snd] in *.
  unfold delAccount at 1 2. rewrite (Money_below _ _ _ Ho), (below_algos _ _ Ho), (below_status _ _ Ho). destruct (Money _ _ _) as [m| |]; [|done..]. cbn [mbind result_bind].
  destruct (ot_SubA _ _ _). destruct (RewardUnits _ _); [|done..]. cbn [mbind result_bind]. destruct (ot_Sub _ _ _). cbn [mbind result_bind mret result_ret fst snd].
  unfold addAccount at 1 2. rewrite (Money_below _ _ _ Hn), (below_algos _ _ Hn), (below_status _ _ Hn). destruct (Money _ _ _) as [m'| |]; [|done..]. cbn [mbind result_bind].
  destruct (ot_AddA _ _ _). destruct (RewardUnits _ _); [|done..]. cbn [mbind result_bind]. destruct (ot_Add _ _ _). cbn [mbind result_bind mret result_ret fst snd]. apply IH.
Qed.
End Order.

(** ** Rounds of changes that agree up to empty maps *)

Definition maps_below (d d' : gmap Address accountDelta) : Prop := forall a, option_Forall2 delta_below (d !! a) (d' !! a).

(** A visit of [d'] in any order is matched by one of [d]. *)
Lemma maps_below_perm d d' l' : maps_below d d' -> l' ≡ₚ map_to_list d' ->
  exists l, l ≡ₚ map_to_list d /\ Forall2 (λ x x', delta_below x.2 x'.2) l l'.
Proof.
  intros HD HP. set (f := λ x' : Address * accountDelta, pair x'.1 <$> d !! x'.1).
  assert (forall a x', (a, x') ∈ l' -> exists x, d !! a = Some x /\ delta_below x x') as Hin.
  { intros a x' Ha. rewrite HP, elem_of_map_to_list in Ha. specialize (HD a). rewrite Ha in HD. inversion HD; subst. eauto. }
  exists (omap f l'). split.
  - assert (NoDup l'.*1) as Hnd by (rewrite HP; apply NoDup_fst_map_to_list).
    assert ((omap f l').*1 = l'.*1) as Hfst.
    { clear HP Hnd. induction l' as [|[a x'] l' IH]; [done|]. destruct (Hin a x' ltac:(set_solver)) as (x & Hx & _). cbn. unfold f at 1. cbn. rewrite Hx. cbn.
      f_equal. apply IH. set_solver. }
    apply NoDup_Permutation; [apply (NoDup_fmap_1 fst); by rewrite Hfst|apply NoDup_map_to_list|].
    intros [a x]. rewrite elem_of_map_to_list, list_elem_of_omap. split.
    + intros ([b x'] & Hb & E). unfold f in E. cbn in E. apply fmap_Some in E as (y & Hy & [= -> ->]). done.
    + intros Ha. specialize (HD a). rewrite Ha in HD. inversion HD as [? x' HX E1 E2|]; subst. exists (a, x'). split; [by rewrite HP, elem_of_map_to_list|].
      unfold f. cbn. by rewrite Ha.
  - clear HP. induction l' as [|[a x'] l' IH]; [constructor|]. destruct (Hin a x' ltac:(set_solver)) as (x & Hx & HX). cbn. unfold f at 1. cbn. rewrite Hx. cbn.
    constructor; [done|]. apply IH. set_solver.
Qed.

Lemma assetDelta_below d d' m : maps_below d d' -> assetDelta_of d m -> assetDelta_of d' m.
Proof.
  intros HD HA i x. rewrite (HA i x). split; intros (a & y & Ha & Hx); specialize (HD a); rewrite Ha in HD; inversion HD as [? y' HX E1 E2|]; subst.
  - exists a, y'. by rewrite (getChanged_below _ _ _ HX).
  - eexists a, _. split; [done|]. by rewrite <- (getChanged_below _ _ _ HX).
Qed.
Lemma assetDelta_unique d m m' : assetDelta_of d m -> assetDelta_of d m' -> m = m'.
Proof. intros H1 H2. apply map_eq. intros i. apply option_eq. intros x. by rewrite (H1 i x), (H2 i x). Qed.

Lemma findDelta_below (l l' : list (gmap Address accountDelta)) n a :
  (forall j d, (j < n)%nat -> l !! j = Some d -> exists d', l' !! j = Some d' /\ maps_below d d') -> (n <= length l)%nat ->
  option_Forall2 delta_below (findDelta l n a) (findDelta l' n a).
Proof.
  induction n as [|n IH]; intros HL Hn; [constructor|]. cbn [findDelta]. destruct (lookup_lt_is_Some_2 l n) as [d Hd]; [lia|].
  destruct (HL n d ltac:(lia) Hd) as (d' & Hd' & HD). rewrite Hd, Hd'. destruct (HD a) as [x x' HX|]; [by constructor|]. apply IH; [|lia]. intros j dj Hj. apply HL. lia.
Qed.

(** ** The steps of a tracker *)

Section Replay.
Context {Blob Cache : Type} (Encode : AccountData -> Blob) (Decode : Blob -> result AccountData).
(** An encoded account is decoded as the same account, with empty maps as nil. *)
Hypothesis codec : forall d, Decode (Encode d) = Ok (canon d).
Variable consensus : gmap string ConsensusParams.
Variable cr : Crypto.
Variable en : Encoding.
Variable vc : VerifiedTxnCache Cache.
Variable genesisHash : Digest.
(** The chain: the block of every round. *)
Variable chain : Round -> Block.
Hypothesis chain_round : forall r, bh_Round (blk_BlockHeader (chain r)) = r.
Implicit Types au : accountUpdates Blob.
Implicit Types iter : gmap Address accountDelta -> list (Address * accountDelta).

Definition protoAt (r : Round) : ConsensusParams := protoOf consensus (bh_CurrentProtocol (blk_BlockHeader (chain r))).

(** [delta] is what the evaluator computed for the block of round [r] + 1, validating it
    ([Validate]) or not ([AddBlock]), with any cache and context, over the tracker [au]. *)
Definition evaluated au (r : Round) (delta : StateDelta) : Prop :=
  exists blockHdr isDup ctxErr validate txcache, blockHdr r = Ok (blk_BlockHeader (chain r)) /\
    ledger_eval consensus cr en vc (ledgerOver Decode genesisHash blockHdr isDup au) ctxErr (chain (r + 1)) validate txcache = Ok delta.

(** The totals after a round, in whatever order its accounts are visited. *)
Definition fits (p : ConsensusParams) (delta : StateDelta) (t : AccountTotals) : Prop :=
  let r := at_applyRewards (bh_RewardsLevel (sd_hdr delta)) t false in
  forall l, l ≡ₚ map_to_list (sd_accts delta) -> exists t', updateTotals p (pairOf <$> l) r.1 r.2 = Ok (t', false).

(** A state: the tracker, and the results of evaluations of the next block that have not
    been added.  The evaluator holds no lock: rounds may be committed between the
    evaluation of a block and its addition. *)
Inductive tracker_step : accountUpdates Blob * list StateDelta -> accountUpdates Blob * list StateDelta -> Prop :=
| ts_eval au pend delta : evaluated au (latest au) delta -> tracker_step (au, pend) (au, delta :: pend)
| ts_newBlock iter au pend delta t au' : (forall d, iter d ≡ₚ map_to_list d) -> delta ∈ pend ->
    disjoint_assets (map_to_list (sd_accts delta)) -> last (au_roundTotals au) = Some t -> fits (protoAt (latest au + 1)) delta t ->
    newBlock consensus iter (chain (latest au + 1)) delta au = Ok au' -> tracker_step (au, pend) (au', [])
| ts_committedUpTo iter au pend rnd now r au' : (forall d, iter d ≡ₚ map_to_list d) ->
    committedUpTo Encode iter rnd now au = Ok (r, au') -> tracker_step (au, pend) (au', pend).

(** The tracker over database [db], before any block. *)
Definition fresh (db : acctDB Blob) (tm : Z) : accountUpdates Blob :=
  mkAccountUpdates db (db_acctrounds db) [] ∅ [] ∅ [protoAt (db_acctrounds db)] [db_accounttotals db] tm.

(** ** What the history of a tracker fixes *)

Definition totalsStep (p : ConsensusParams) (d : gmap Address accountDelta) (t t' : AccountTotals) : Prop :=
  (exists s, All t = Ok s /\ All t' = Ok s) /\
  let r := at_applyRewards (at_RewardsLevel t') t false in
  forall l, l ≡ₚ map_to_list d -> updateTotals p (pairOf <$> l) r.1 r.2 = Ok (t', false).

(** The changes [d] of round [r] + 1 come from an evaluation of its block over a tracker
    whose answers about round [r] are those of [au]. *)
Definition comesFrom au (r : Round) (delta : StateDelta) : Prop := exists au0, evaluated au0 r delta /\ answers_below Decode au0 au r.

Record history au : Prop := {
  hi_inv : au_inv au;
  hi_db : au_roundTotals au !! 0%nat = Some (db_accounttotals (au_dbs au));
  hi_protos i p : au_protos au !! i = Some p -> p = protoAt (au_dbRound au + Z.of_nat i);
  hi_rounds i d t t' : au_deltas au !! i = Some d -> au_roundTotals au !! i = Some t -> au_roundTotals au !! S i = Some t' ->
    totalsStep (protoAt (au_dbRound au + Z.of_nat i + 1)) d t t' /\
    exists delta, comesFrom au (au_dbRound au + Z.of_nat i) delta /\ sd_accts delta = d /\ bh_RewardsLevel (sd_hdr delta) = at_RewardsLevel t'
}.

Lemma comesFrom_trans au au' r delta : comesFrom au r delta -> answers_below Decode au au' r -> comesFrom au' r delta.
Proof. intros (au0 & H1 & H2) H. exists au0. split; [done|]. by eapply answers_below_trans. Qed.

Lemma newRoundLoop_updateTotals p l : forall db t ot db' t' ot', newRoundLoop Encode p l db t ot = Ok (db', t', ot') ->
  updateTotals p (pairOf <$> l) t ot = Ok (t', ot').
Proof.
  induction l as [|[a ad] l IH]; intros db t ot db' t' ot' E; [by injection E as _ <- <-|].
  cbn [fmap list_fmap pairOf updateTotals newRoundLoop fst snd] in *.
  apply result_bind_Ok in E as (r1 & -> & E). cbn [mbind result_bind]. apply result_bind_Ok in E as (r2 & -> & E). cbn [mbind result_bind].
  apply result_bind_Ok in E as (ac & _ & E). by eapply IH.
Qed.

Lemma accountsNewRound_totals iter db rnd d p t' db' : (forall d, iter d ≡ₚ map_to_list d) -> totalsStep p d (db_accounttotals db) t' ->
  accountsNewRound Encode iter db rnd d (at_RewardsLevel t') p = Ok db' -> db_accounttotals db' = t'.
Proof.
  intros Hit [_ HT] E. unfold accountsNewRound in E. apply result_bind_Ok in E as (? & _ & E). specialize (HT (iter d) (Hit d)).
  destruct (at_applyRewards _ _ false) as [t1 ot1]. apply result_bind_Ok in E as ([[db1 t2] ot2] & E1 & E).
  apply result_bind_Ok in E as (? & _ & E). injection E as <-. apply newRoundLoop_updateTotals in E1. cbn in *. congruence.
Qed.

Lemma flushRounds_totals iter ds : (forall d, iter d ≡ₚ map_to_list d) -> forall ts ps base db db' t, t = db_accounttotals db ->
  (forall i d t0 t' p, ds !! i = Some d -> (t :: ts) !! i = Some t0 -> ts !! i = Some t' -> ps !! i = Some p -> totalsStep p d t0 t') ->
  flushRounds Encode iter base ds ts ps db = Ok db' -> (t :: ts) !! length ds = Some (db_accounttotals db').
Proof.
  intros Hit. induction ds as [|d ds IH]; intros ts ps base db db' t Et HS E; [injection E as <-; cbn; by rewrite Et|].
  destruct ts as [|t' ts]; [done|]. destruct ps as [|p ps]; [done|]. cbn [flushRounds] in E. apply result_bind_Ok in E as (db1 & E1 & E).
  apply accountsNewRound_totals in E1; [|done|rewrite <- Et; by apply (HS 0%nat)]. cbn [length lookup list_lookup].
  eapply (IH ts ps _ db1 db' t'); [done| |exact E]. intros i d0 t0 t1 p0 H1 H2 H3 H4. by apply (HS (S i)).
Qed.

Lemma committed_history iter rnd now r au au' : (forall d, iter d ≡ₚ map_to_list d) -> history au ->
  committedUpTo Encode iter rnd now au = Ok (r, au') -> history au'.
Proof using codec.
  intros Hit HH E. pose proof HH as [HI H1 H2 H3]. destruct (committed_step Encode Decode codec iter rnd now r au au' Hit HI E) as (HI' & HL & _ & HA).
  unfold committedUpTo in E. destruct (last (au_protos au)) as [proto|]; [|done].
  destruct (rnd <? _); [by injection E as _ <-|]. set (newBase := rnd - _) in E. clearbody newBase.
  destruct (Z.leb_spec newBase (au_dbRound au)); [by injection E as _ <-|].
  destruct (Z.ltb_spec (latest au) newBase); [done|]. destruct (now <=? _); [by injection E as _ <-|].
  pose proof (latest_inv au HI) as HLat. set (o := Z.to_nat (newBase - au_dbRound au)) in E.
  assert (o <= length (au_deltas au))%nat as Ho by (unfold zlen in *; lia).
  destruct (flushRounds _ _ _ _ _ _ _) as [db| |] eqn:EF; [|by injection E as _ <-|done].
  apply result_bind_Ok in E as (accounts & _ & E). apply result_bind_Ok in E as (assets & _ & E). injection E as _ <-. cbn in HA.
  pose proof HI as [_ _ I3 I4 _ _ _ _]. split; [done|..]; cbn.
  - rewrite lookup_drop, Nat.add_0_r. destruct (au_roundTotals au) as [|t ts] eqn:Ets; [done|]. injection H1 as H1. cbn [tail] in EF.
    apply (flushRounds_totals iter _ Hit ts (tail (au_protos au)) _ _ db t H1) in EF; [by rewrite length_take, Nat.min_l in EF by done|].
    intros i d t0 t' p Hd Ht Ht' Hp. apply lookup_take_Some in Hd as [Hd _]. destruct (au_protos au) as [|p0 ps]; [done|]. cbn [tail] in Hp.
    rewrite (H2 (S i) p Hp). replace (au_dbRound au + Z.of_nat (S i)) with (au_dbRound au + Z.of_nat i + 1) by lia. by apply (H3 i d t0 t').
  - intros i p Hp. rewrite lookup_drop in Hp. rewrite (H2 _ _ Hp). f_equal. lia.
  - intros i d t t'. rewrite !lookup_drop, Nat.add_succ_r. intros Hd Ht Ht'. pose proof (lookup_lt_Some _ _ _ Hd).
    destruct (H3 _ _ _ _ Hd Ht Ht') as (HT & delta & HC & HD). replace (newBase + Z.of_nat i) with (au_dbRound au + Z.of_nat (o + i)) by lia.
    split; [done|]. exists delta. split; [|done]. eapply comesFrom_trans; [done|]. apply HA. unfold zlen in *. lia.
Qed.

(** The totals a new block leaves. *)
Lemma newBlock_totals iter blk delta au au' t : (forall d, iter d ≡ₚ map_to_list d) -> latest au < bh_Round (blk_BlockHeader blk) ->
  last (au_roundTotals au) = Some t -> fits (protoOf consensus (bh_CurrentProtocol (blk_BlockHeader blk))) delta t ->
  newBlock consensus iter blk delta au = Ok au' -> exists t', au_roundTotals au' = au_roundTotals au ++ [t'] /\
    totalsStep (protoOf consensus (bh_CurrentProtocol (blk_BlockHeader blk))) (sd_accts delta) t t' /\ bh_RewardsLevel (sd_hdr delta) = at_RewardsLevel t'.
Proof.
  intros Hit Hr El HF E. unfold newBlock in E. rewrite (proj2 (Z.leb_gt _ _)) in E by done. destruct (negb _); [done|]. rewrite El in E.
  apply result_bind_Ok in E as (allBefore & EA & E). unfold fits in HF. pose proof (applyRewards_level (bh_RewardsLevel (sd_hdr delta)) t false) as HL.
  destruct (at_applyRewards (bh_RewardsLevel (sd_hdr delta)) t false) as [t1 ot1] eqn:Ea. cbn [fst snd] in *.
  apply result_bind_Ok in E as ([[[[accounts assets] nd] t2] ot2] & EL & E). destruct ot2; [done|]. apply result_bind_Ok in E as (allAfter & EB & E).
  destruct (Z.eqb_spec allBefore allAfter) as [<-|]; [|done]. injection E as <-. apply newBlockLoop_updateTotals in EL.
  pose proof (updateTotals_level _ _ _ _ _ _ EL) as HL2. rewrite HL in HL2. exists t2. split; [done|]. split; [|done]. split; [by exists allBefore|].
  rewrite HL2, Ea. cbn. intros l Hl. destruct (HF l Hl) as (t3 & E3). rewrite E3. do 2 f_equal. symmetry.
  eapply (updateTotals_order _ l); [|exact E3|exact EL]. by rewrite Hl, (Hit (sd_accts delta)).
Qed.

Lemma newBlock_history iter delta au au' t : (forall d, iter d ≡ₚ map_to_list d) -> history au -> comesFrom au (latest au) delta ->
  disjoint_assets (map_to_list (sd_accts delta)) -> last (au_roundTotals au) = Some t -> fits (protoAt (latest au + 1)) delta t ->
  newBlock consensus iter (chain (latest au + 1)) delta au = Ok au' -> history au'.
Proof using codec chain_round.
  intros Hit HH HC HD El HF E. pose proof HH as [HI H1 H2 H3]. assert (latest au < bh_Round (blk_BlockHeader (chain (latest au + 1)))) as Hr by (rewrite chain_round; lia).
  destruct (newBlock_totals _ _ _ _ _ _ Hit Hr El HF E) as (t' & Et & HT & HLv).
  destruct (newBlock_step consensus iter _ _ _ _ Hit HI HD Hr E) as (HI' & nd & t2 & _ & Eau).
  assert (forall k, au_dbRound au <= k <= latest au -> answers_below Decode au au' k) as HA.
  { destruct (au_step_answers Encode Decode codec au au' HI (step_newBlock Encode consensus iter _ _ _ _ Hit HD E)) as (_ & _ & _ & HA).
    intros k Hk. apply HA. rewrite Eau. cbn. done. }
  pose proof HI as [_ [I2 _] I3 I4 _ _ _ _]. pose proof (latest_inv au HI) as HL. rewrite last_lookup, I4 in El. cbn in El.
  assert (au_deltas au' = au_deltas au ++ [sd_accts delta] /\ au_protos au' = au_protos au ++ [protoAt (latest au + 1)] /\
    au_dbRound au' = au_dbRound au /\ au_dbs au' = au_dbs au) as (Ed & Ep & Eb & Es) by (by rewrite Eau).
  clear Eau E. split; [done|rewrite Et, Es; rewrite lookup_app_l by lia; done|rewrite Ep, Eb|rewrite Ed, Et, Eb].
  - intros i p [Hp|[Hi [Hi' <-]%list_lookup_singleton_Some]]%lookup_app_Some; [by apply H2|]. f_equal. unfold zlen in *. lia.
  - intros i d t0 t1 Hd Ht Ht'. apply lookup_app_Some in Hd as [Hd|[Hi [Hi' <-]%list_lookup_singleton_Some]].
    + pose proof (lookup_lt_Some _ _ _ Hd). rewrite lookup_app_l in Ht by lia. rewrite lookup_app_l in Ht' by lia.
      destruct (H3 i d t0 t1 Hd Ht Ht') as (A & delta0 & B & C). split; [done|]. exists delta0. split; [|done]. eapply comesFrom_trans; [done|]. apply HA. unfold zlen in *. lia.
    + assert (i = length (au_deltas au)) as -> by lia. rewrite lookup_app_l in Ht by lia. rewrite lookup_app_r in Ht' by lia.
      apply list_lookup_singleton_Some in Ht' as [_ <-]. rewrite El in Ht. injection Ht as <-. unfold zlen in HL. rewrite <- HL. split; [done|].
      exists delta. split; [|done]. eapply comesFrom_trans; [done|]. apply HA. unfold zlen in *. lia.
Qed.

Definition run_inv (s : accountUpdates Blob * list StateDelta) : Prop := history s.1 /\ Forall (comesFrom s.1 (latest s.1)) s.2.

Lemma run_history s s' : rtc tracker_step s s' -> run_inv s -> run_inv s'.
Proof using codec chain_round.
  induction 1 as [|s s1 s2 Hs _ IH]; [done|]. intros [HH HP]. apply IH. clear IH. destruct Hs as [au pend delta HE|iter au pend delta t au' Hit Hd HD Et HF E|iter au pend rnd now r au' Hit E]; cbn in *.
  - split; [done|]. cbn. constructor; [|done]. exists au. split; [done|apply answers_below_refl].
  - split; [|constructor]. rewrite Forall_forall in HP. by eapply newBlock_history; [done|done|by apply HP|..].
  - split; [by eapply committed_history|]. cbn. pose proof (hi_inv _ HH) as HI.
    destruct (committed_step Encode Decode codec iter rnd now r au au' Hit HI E) as (HI' & -> & _ & HA).
    eapply Forall_impl; [exact HP|]. intros delta HC. eapply comesFrom_trans; [done|]. apply HA. destruct (committed_history _ _ _ _ _ _ Hit HH E) as [[_ [? ?] _ _ _ _ _ _] _ _ _].
    pose proof (latest_inv au' HI'). destruct (committed_step Encode Decode codec iter rnd now r au au' Hit HI E) as (_ & HL & _ & _). unfold zlen in *. lia.
Qed.

Lemma fresh_history db tm : u64 (db_acctrounds db) -> run_inv (fresh db tm, []).
Proof.
  intros [H0 H1]. split; [|constructor]. split; cbn; try done.
  - split; cbn; try done; [unfold zlen; cbn; lia|..]; intros k; cbn; by rewrite lookup_empty.
  - intros [|i] p Hp; [|done]. injection Hp as <-. f_equal. lia.
Qed.

(** ** Loading *)

(** The blocks of the chain that are on disk: those up to [lf_Latest l], from the round of
    the tracker's database on. *)
Record on_disk (l : ledgerForTracker) au : Prop := {
  od_latest : au_dbRound au <= lf_Latest l <= latest au;
  od_hdr r : au_dbRound au <= r <= lf_Latest l -> lf_BlockHdr l r = Ok (blk_BlockHeader (chain r));
  od_block r : au_dbRound au < r <= lf_Latest l -> exists aux, lf_blockAux l r = Ok (chain r, aux)
}.

(** [au'] holds the first [i] rounds of [au], up to empty maps. *)
Record loaded au (i : nat) au' : Prop := {
  ld_inv : au_inv au';
  ld_db : au_dbs au' = au_dbs au /\ au_dbRound au' = au_dbRound au;
  ld_len : length (au_deltas au') = i;
  ld_deltas j d : (j < i)%nat -> au_deltas au !! j = Some d -> exists d', au_deltas au' !! j = Some d' /\ maps_below d d';
  ld_assetDeltas : au_assetDeltas au' = take i (au_assetDeltas au);
  ld_protos : au_protos au' = take (S i) (au_protos au);
  ld_totals : au_roundTotals au' = take (S i) (au_roundTotals au)
}.

(** It answers for them as [au] does. *)
Lemma loaded_answers au i au' k : au_inv au -> loaded au i au' -> (i <= length (au_deltas au))%nat ->
  au_dbRound au <= k <= au_dbRound au + Z.of_nat i -> answers_below Decode au au' k.
Proof.
  intros HI [PI [PD1 PD2] Pl P1 P2 P3 P4] Hn Hk. pose proof (Forall2_length _ _ _ (inv_assetDeltas _ HI)) as Hal. set (off := Z.to_nat (k - au_dbRound au)).
  assert (roundOffset au k = Ok off) as E by (apply roundOffset_Ok; unfold zlen; lia).
  assert (roundOffset au' k = Ok off) as E' by (unfold off; rewrite <- PD2; apply roundOffset_Ok; unfold zlen; lia).
  assert (off <= i)%nat as Hoff by (unfold off; lia).
  assert (forall T (ts : list T), take (S i) ts !! off = ts !! off) as Hlk by (intros; apply lookup_take_lt; lia).
  split; [|split].
  - intros a wr. apply (lookup_raw_below Decode au au' k off off); auto; [|by rewrite P4|by rewrite P3]. rewrite !lookupRaw_find by done. rewrite PD1.
    pose proof (findDelta_below (au_deltas au) (au_deltas au') off a) as HF. destruct HF as [x x' [_ HX]|]; [intros j d Hj; apply P1; lia|lia| |apply lookup_below_refl].
    by eexists.
  - intros x. rewrite (creator_find au k off), (creator_find au' k off) by done. rewrite P2, PD1.
    assert (findDelta (take i (au_assetDeltas au)) off x = findDelta (au_assetDeltas au) off x) as ->; [|apply same_outcome_refl].
    rewrite <- (take_drop i (au_assetDeltas au)) at 2. symmetry. apply findDelta_app_le. rewrite length_take. lia.
  - unfold au_totals. rewrite E, E'. cbn. by rewrite P4, Hlk.
Qed.

(** [newBlock] goes through again with related changes, in any order of visits. *)
Lemma newBlock_again iter blk delta delta' au t t' : (forall d, iter d ≡ₚ map_to_list d) ->
  bh_Round (blk_BlockHeader blk) = latest au + 1 -> 0 <= latest au -> latest au + 1 < 2 ^ 64 -> last (au_roundTotals au) = Some t ->
  totalsStep (protoOf consensus (bh_CurrentProtocol (blk_BlockHeader blk))) (sd_accts delta) t t' ->
  bh_RewardsLevel (sd_hdr delta) = at_RewardsLevel t' -> mods_below delta delta' ->
  exists au', newBlock consensus iter blk delta' au = Ok au' /\ au_roundTotals au' = au_roundTotals au ++ [t'].
Proof.
  intros Hit Hr H0 Hlt Ht [(s & A1 & A2) HT] Hl [M1 _ _ _ M5]. unfold newBlock. rewrite (proj2 (Z.leb_gt _ _)) by lia. rewrite wrap64_small by (unfold u64; lia).
  rewrite (proj2 (Z.eqb_eq _ _)) by done. cbn [negb]. rewrite Ht, A1, M5, Hl. cbn [mbind result_bind].
  destruct (maps_below_perm _ _ _ M1 (Hit (sd_accts delta'))) as (ls & HP & HF). specialize (HT ls HP).
  destruct (at_applyRewards (at_RewardsLevel t') t false) as [t1 ot1]. cbn [fst snd] in HT. rewrite <- (updateTotals_below _ _ _ HF) in HT.
  destruct (newBlockLoop_totals _ _ (au_accounts au) (au_assets au) ∅ t1 ot1 t' false HT) as (ac & as' & nd & ->).
  cbn [mbind result_bind]. rewrite A2. cbn [mbind result_bind]. rewrite Z.eqb_refl. cbn [negb]. eexists. done.
Qed.

Lemma last_take {A} (l : list A) i x : l !! i = Some x -> last (take (S i) l) = Some x.
Proof. intros H. by rewrite (take_S_r _ _ _ H), last_snoc. Qed.

Variable isDup : ConsensusParams -> Round -> Round -> Round -> Txid -> txlease -> result bool.

(** Evaluating a block again over the rounds loaded so far gives the changes it gave when
    the block was new. *)
Lemma eval_again l au i au' delta aux : history au -> on_disk l au -> (i < length (au_deltas au))%nat -> au_dbRound au + Z.of_nat i < lf_Latest l -> loaded au i au' ->
  comesFrom au (au_dbRound au + Z.of_nat i) delta ->
  exists delta', trackerEvalVerified consensus Decode cr en vc genesisHash isDup l au' (chain (au_dbRound au + Z.of_nat i + 1)) aux = Ok delta' /\ mods_below delta delta'.
Proof using chain_round.
  intros HH [HL HB _] Hi Hlt HP (au0 & (hdrs & dup & ctxErr & validate & cache & Eh & Ee) & HA). pose proof (hi_inv _ HH) as HI. pose proof HI as [_ [I2 I2'] _ _ _ _ _ _].
  destruct (answers_below_trans _ _ _ _ _ HA (loaded_answers au i au' (au_dbRound au + Z.of_nat i) HI HP ltac:(lia) ltac:(lia))) as (B1 & B2 & B3).
  unfold trackerEvalVerified. eapply ledger_eval_below; [| | | |exact Ee].
  - instantiate (1 := au_dbRound au + Z.of_nat i). lia.
  - unfold zlen in *. lia.
  - apply chain_round.
  - split; cbn; [done| |intros a; apply B1|done|intros a; apply B1|apply B2].
    exists (blk_BlockHeader (chain (au_dbRound au + Z.of_nat i))). rewrite chain_round. split; [done|]. split; [|done]. apply HB. lia.
Qed.

(** One turn of the loop. *)
Lemma load_one iter l au i au' : (forall d, iter d ≡ₚ map_to_list d) -> history au -> on_disk l au -> au_dbRound au + Z.of_nat i < lf_Latest l -> loaded au i au' ->
  exists aux delta au'', lf_blockAux l (au_dbRound au + Z.of_nat i + 1) = Ok (chain (au_dbRound au + Z.of_nat i + 1), aux) /\
    trackerEvalVerified consensus Decode cr en vc genesisHash isDup l au' (chain (au_dbRound au + Z.of_nat i + 1)) aux = Ok delta /\
    newBlock consensus iter (chain (au_dbRound au + Z.of_nat i + 1)) delta au' = Ok au'' /\ loaded au (S i) au''.
Proof using chain_round.
  intros Hit HH HD Hi HP. pose proof HH as [HI _ HPr HR]. pose proof (latest_inv au HI) as HL. pose proof HI as [_ [I2 I2'] I3 I4 _ _ I7 _].
  pose proof (Forall2_length _ _ _ I7) as Hal. assert (i < length (au_deltas au))%nat as Hlen by (destruct HD as [? _ _]; unfold zlen in *; lia).
  destruct (od_block _ _ HD (au_dbRound au + Z.of_nat i + 1)) as [aux Eb]; [lia|].
  destruct (lookup_lt_is_Some_2 (au_deltas au) i) as [d Hd]; [lia|]. destruct (lookup_lt_is_Some_2 (au_protos au) (S i)) as [p Hp]; [lia|].
  destruct (lookup_lt_is_Some_2 (au_roundTotals au) i) as [t Ht]; [lia|]. destruct (lookup_lt_is_Some_2 (au_roundTotals au) (S i)) as [t' Ht']; [lia|].
  destruct (lookup_lt_is_Some_2 (au_assetDeltas au) i) as [m Hm]; [lia|]. pose proof (Forall2_lookup_lr _ _ _ _ _ _ I7 Hd Hm) as Ham.
  destruct (HR i d t t' Hd Ht Ht') as (HT & delta & HC & <- & HLv). destruct (eval_again l au i au' delta aux HH HD Hlen Hi HP HC) as (delta' & Ee & HM).
  pose proof HP as [PI [PD1 PD2] Pl P1 P2 P3 P4].
  assert (latest au' = au_dbRound au + Z.of_nat i) as HL' by (rewrite (latest_inv _ PI), PD2; unfold zlen; lia).
  destruct (newBlock_again iter (chain (au_dbRound au + Z.of_nat i + 1)) delta delta' au' t t') as (au'' & En & Et); try done; try (unfold zlen in *; lia).
  { rewrite chain_round. lia. }
  { rewrite P4. by apply last_take. }
  pose proof (assetDelta_below _ _ _ (mb_accts _ _ HM) Ham) as Ham'. pose proof (assetDelta_disjoint map_to_list (λ d, reflexivity _) _ _ Ham') as HDj.
  destruct (newBlock_step consensus iter (chain (au_dbRound au + Z.of_nat i + 1)) delta' au' au'' Hit PI HDj ltac:(rewrite chain_round; lia) En) as (HI'' & nd & t2 & Hnd & E2).
  exists aux, delta', au''. do 3 (split; [done|]). pose proof (assetDelta_unique _ _ _ Ham' Hnd) as <-.
  assert (au_deltas au'' = au_deltas au' ++ [sd_accts delta'] /\ au_protos au'' = au_protos au' ++ [protoAt (au_dbRound au + Z.of_nat i + 1)] /\
    au_assetDeltas au'' = au_assetDeltas au' ++ [m] /\ au_dbRound au'' = au_dbRound au' /\ au_dbs au'' = au_dbs au') as (Ed & Ep & Ea & Er & Es) by (by rewrite E2).
  clear E2. split; [done|rewrite Es, Er; done|rewrite Ed, length_app; cbn; lia|rewrite Ed|rewrite Ea, P2; by rewrite (take_S_r _ _ _ Hm)|rewrite Ep, P3, (take_S_r _ _ _ Hp)|by rewrite Et, P4, (take_S_r _ _ _ Ht')].
  - intros j dj Hj Hdj. destruct (decide (j = i)) as [->|Hne].
    + rewrite Hd in Hdj. injection Hdj as <-. exists (sd_accts delta'). rewrite lookup_app_r, Pl, Nat.sub_diag by lia. split; [done|exact (mb_accts _ _ HM)].
    + destruct (P1 j dj ltac:(lia) Hdj) as (d' & Hd' & HB). exists d'. split; [|done]. by rewrite lookup_app_l by lia.
  - do 2 f_equal. rewrite (HPr _ _ Hp). f_equal. lia.
Qed.

Lemma load_all iter l au n : (forall d, iter d ≡ₚ map_to_list d) -> history au -> on_disk l au -> lf_Latest l = au_dbRound au + Z.of_nat n ->
  forall k i au', (i + k = n)%nat -> loaded au i au' ->
  exists au'', loadLoop consensus Decode iter cr en vc genesisHash isDup (S k) l (au_dbRound au + Z.of_nat i) au' = Ok au'' /\ loaded au n au''.
Proof using chain_round.
  intros Hit HH HD HL. pose proof (hi_inv _ HH) as HI. pose proof HI as [_ [I2 I2'] _ _ _ _ _ _]. pose proof (latest_inv au HI) as HLat. pose proof HD as [HLe _ _].
  induction k as [|k IH]; intros i au' Hk HP.
  - exists au'. replace n with i by lia. split; [|done]. cbn [loadLoop]. by rewrite (proj2 (Z.ltb_ge _ _)) by lia.
  - destruct (load_one iter l au i au' Hit HH HD ltac:(lia) HP) as (aux & delta & au'' & Eb & Ee & En & HP').
    destruct (IH (S i) au'' ltac:(lia) HP') as (au3 & E3 & HP3). exists au3. split; [|done]. rewrite <- E3. remember (S k) as f.
    cbn [loadLoop]. rewrite (proj2 (Z.ltb_lt _ _)) by lia. rewrite wrap64_small by (unfold u64, zlen in *; lia).
    rewrite Eb. cbn [mbind result_bind fst snd]. rewrite Ee. cbn [mbind result_bind]. rewrite En. cbn [mbind result_bind]. f_equal. lia.
Qed.

(** C25: The tracker survives a restart.  From a database on, let blocks of the chain be
    evaluated ([Validate] or [AddBlock]) over the tracker, be added, and rounds be
    committed to the database, in any interleaving, with maps visited in any order.  The
    process dies, and the tracker is loaded from the database of that moment and the
    blocks on disk, which reach at least the round of the database: every block after it
    is evaluated again, over the tracker as far as it is loaded, with maps in another
    order.  Loading succeeds, the invariant holds, and for every round from the database's
    to the last block on disk, account lookups, asset-creator and totals queries are
    answered as before the crash, up to nil and empty maps and the text of errors.  No
    asset is created or deleted in two accounts by one block, and the 64-bit totals
    overflow in no order of visits. *)
Theorem au_restart db tm0 au pend l iter iterInit initAccounts initProto tm : u64 (db_acctrounds db) ->
  rtc tracker_step (fresh db tm0, []) (au, pend) -> on_disk l au -> (forall d, iter d ≡ₚ map_to_list d) ->
  exists au', au_loadFromDisk consensus Encode Decode iter iterInit cr en vc genesisHash isDup calm l (Some initAccounts) initProto tm (Some (au_dbs au)) =
      (Ok au', Some (au_dbs au)) /\
    au_inv au' /\ latest au' = lf_Latest l /\ forall k, au_dbRound au <= k <= lf_Latest l -> same_answers Decode au au' k.
Proof using codec chain_round.
  intros Hdb Hsteps HD Hit. destruct (run_history _ _ Hsteps (fresh_history db tm0 Hdb)) as [HH _]. cbn in HH. pose proof HH as [HI H1 H2 _].
  pose proof HD as [HL HHd _]. pose proof (latest_inv au HI) as HLat. pose proof HI as [I1 [I2 I2'] I3 I4 _ _ I7 _]. set (n := Z.to_nat (lf_Latest l - au_dbRound au)).
  assert (lf_Latest l = au_dbRound au + Z.of_nat n) as Hn by lia. assert (n <= length (au_deltas au))%nat as Hlen by (unfold zlen in *; lia). unfold au_loadFromDisk.
  assert (loadTx Encode iterInit initAccounts initProto (lf_Latest l) (Some (au_dbs au)) = (Ok (au_dbRound au, db_accounttotals (au_dbs au)), Some (au_dbs au))) as ET.
  { unfold loadTx, accountsInitialize. rewrite bind_assoc_run. run. run. rewrite I1. rewrite (proj2 (Z.ltb_ge _ _)) by lia. run. run. done. }
  rewrite (Atomic_calm_Ok (D := trackerDB (Blob := Blob)) _ _ _ _ ET). cbn [mbind result_bind]. rewrite HHd by lia. cbn [mbind result_bind]. fold n.
  destruct (load_all iter l au n Hit HH HD Hn n 0%nat (mkAccountUpdates (au_dbs au) (au_dbRound au) [] ∅ [] ∅ [protoAt (au_dbRound au)]
    [db_accounttotals (au_dbs au)] tm)) as (au' & E & HP); [lia| |].
  { split; cbn; try done; [|lia|..].
    - split; cbn; try done; [unfold zlen in *; cbn; lia|..]; intros k; cbn; by rewrite lookup_empty.
    - destruct (au_protos au) as [|p ps] eqn:Ep; [done|]. rewrite (H2 0%nat p eq_refl). cbn. do 2 f_equal. lia.
    - destruct (au_roundTotals au) as [|t ts]; [done|]. by injection H1 as ->. }
  exists au'. replace (au_dbRound au + Z.of_nat 0) with (au_dbRound au) in E by lia. unfold protoAt in E. rewrite E. split; [done|]. split; [apply HP|]. split.
  - rewrite (latest_inv _ (ld_inv _ _ _ HP)), (proj2 (ld_db _ _ _ HP)). unfold zlen. rewrite (ld_len _ _ _ HP). lia.
  - intros k Hk. apply answers_below_same, (loaded_answers au n); [done|done|done|lia].
Qed.
End Replay.

(** ** Witnesses: a payment in block 10, which is validated, an empty block 11, a commit
    that writes round 10; then the process dies and block 11 is evaluated again *)

Module RestartWitness.
Import EvalWitness.
Definition params1 : ConsensusParams := v19 <| cp_MaxBalLookback := 1 |>.
Definition consensus1 : gmap string ConsensusParams := {[ ConsensusV19 := params1 ]}.
Definition block10 : Block := Eval vm_compute in blk10.
Definition chain (r : Round) : Block :=
  if r =? 9 then mkBlock hdr9 [] [] else if r =? 10 then block10 else mkBlock ((blk_BlockHeader block10) <| bh_Round := r |>) [] [].
Lemma chain_round r : bh_Round (blk_BlockHeader (chain r)) = r.
Proof. unfold chain. destruct (Z.eqb_spec r 9) as [->|]; [done|]. by destruct (Z.eqb_spec r 10) as [->|]. Qed.
Definition hdrs (r : Round) : result BlockHeader := Ok (blk_BlockHeader (chain r)).
Definition noDup (_ : ConsensusParams) (_ _ _ : Round) (_ : Txid) (_ : txlease) : result bool := Ok false.

Definition enc (d : AccountData) : AccountData := d.
Definition dec (d : AccountData) : result AccountData := Ok (canon d).
Lemma restart_codec d : dec (enc d) = Ok (canon d).
Proof. done. Qed.
Definition visit (d : gmap Address accountDelta) : list (Address * accountDelta) := map_to_list d.
Definition visit' (d : gmap Address accountDelta) : list (Address * accountDelta) := reverse (map_to_list d).
Lemma visit_perm d : visit d ≡ₚ map_to_list d.
Proof. done. Qed.
Lemma visit'_perm d : visit' d ≡ₚ map_to_list d.
Proof. apply reverse_Permutation. Qed.

Definition db9 : acctDB AccountData := mkAcctDB 9 totals9 balances ∅.
Definition au0 : accountUpdates AccountData := fresh consensus1 chain db9 0.
Definition eval (au : accountUpdates AccountData) (r : Round) (validate : bool) : result StateDelta :=
  ledger_eval consensus1 cr0 en0 vc0 (ledgerOver dec gh hdrs noDup au) (λ _, None) (chain (r + 1)) validate None.
Definition orEmpty (r : result StateDelta) : StateDelta := match r with Ok d => d | _ => emptyDelta hdr9 end.
Definition orAu0 (r : result (accountUpdates AccountData)) : accountUpdates AccountData := match r with Ok a => a | _ => au0 end.
Definition delta10 := orEmpty (eval au0 9 true).
Definition au1 := orAu0 (newBlock consensus1 visit (chain 10) delta10 au0).
Definition delta11 := orEmpty (eval au1 10 false).
Definition au2 := orAu0 (newBlock consensus1 visit' (chain 11) delta11 au1).
Definition committed := committedUpTo enc visit' 11 6000000000 au2.
Definition au3 := match committed with Ok x => x.2 | _ => au0 end.

Lemma orEmpty_Ok r : is_ok r = true -> r = Ok (orEmpty r).
Proof. by destruct r. Qed.
Lemma orAu0_Ok r : is_ok r = true -> r = Ok (orAu0 r).
Proof. by destruct r. Qed.
Lemma eval10 : eval au0 9 true = Ok delta10.
Proof. apply orEmpty_Ok. vm_compute. reflexivity. Qed.
Lemma added10 : newBlock consensus1 visit (chain 10) delta10 au0 = Ok au1.
Proof. apply orAu0_Ok. vm_compute. reflexivity. Qed.
Lemma eval11 : eval au1 10 false = Ok delta11.
Proof. apply orEmpty_Ok. vm_compute. reflexivity. Qed.
Lemma added11 : newBlock consensus1 visit' (chain 11) delta11 au1 = Ok au2.
Proof. apply orAu0_Ok. vm_compute. reflexivity. Qed.
Lemma committed_11 : committedUpTo enc visit' 11 6000000000 au2 = Ok (10, au3).
Proof.
  change (committed = Ok (10, au3)). assert (match committed with Ok x => x.1 = 10 | _ => False end) as H by (vm_compute; reflexivity).
  unfold au3. destruct committed as [[r x]| |]; [cbn in *; by subst|done..].
Qed.

Lemma no_assets (delta : StateDelta) : Forall (λ x, ad_AssetParams (acd_new x.2) = None /\ ad_AssetParams (acd_old x.2) = None) (map_to_list (sd_accts delta)) ->
  disjoint_assets (map_to_list (sd_accts delta)).
Proof. intros HF a ad b bd i Ha Hb Hx _. exfalso. by eapply (TrackerWitness.changed_accounts _ a b ad bd i). Qed.
Definition fits_b (delta : StateDelta) (t : AccountTotals) : bool :=
  let r := at_applyRewards (bh_RewardsLevel (sd_hdr delta)) t false in
  forallb (λ l, match updateTotals params1 (pairOf <$> l) r.1 r.2 with Ok (_, false) => true | _ => false end) (permutations (map_to_list (sd_accts delta))).
Lemma fits_check delta t : fits_b delta t = true -> fits params1 delta t.
Proof.
  intros H l Hl. unfold fits_b in H. rewrite forallb_forall in H. specialize (H l (proj1 (list_elem_of_In _ _) (proj2 (permutations_Permutation _ _) (symmetry Hl)))).
  cbn zeta. destruct (updateTotals _ _ _ _) as [[t' []]| |]; [discriminate H|by exists t'|discriminate H..].
Qed.

Lemma disjoint_10 : disjoint_assets (map_to_list (sd_accts delta10)).
Proof. apply no_assets, (bool_decide_unpack _). vm_compute. exact I. Qed.
Lemma disjoint_11 : disjoint_assets (map_to_list (sd_accts delta11)).
Proof. apply no_assets, (bool_decide_unpack _). vm_compute. exact I. Qed.
Definition totals10 : AccountTotals := Eval vm_compute in default totals9 (last (au_roundTotals au1)).
Lemma latest1 : latest au1 = 10.
Proof. vm_compute. reflexivity. Qed.
Lemma last1 : last (au_roundTotals au1) = Some totals10.
Proof. vm_compute. reflexivity. Qed.
Lemma fits10 : fits params1 delta10 totals9.
Proof. apply fits_check. vm_compute. reflexivity. Qed.
Lemma fits11 : fits params1 delta11 totals10.
Proof. apply fits_check. vm_compute. reflexivity. Qed.
Lemma proto1 r : protoAt consensus1 chain r = params1.
Proof. unfold protoAt, chain. destruct (r =? 9); [reflexivity|]. destruct (r =? 10); reflexivity. Qed.
Lemma add_step iter au delta au' r t : (forall d, iter d ≡ₚ map_to_list d) -> latest au = r -> disjoint_assets (map_to_list (sd_accts delta)) ->
  last (au_roundTotals au) = Some t -> fits params1 delta t -> newBlock consensus1 iter (chain (r + 1)) delta au = Ok au' ->
  tracker_step enc dec consensus1 cr0 en0 vc0 gh chain (au, [delta]) (au', []).
Proof.
  intros Hit <- HD Ht HF E. eapply ts_newBlock; [exact Hit|apply list_elem_of_here|exact HD|exact Ht|by rewrite proto1|exact E].
Qed.

Lemma steps03 : rtc (tracker_step enc dec consensus1 cr0 en0 vc0 gh chain) (fresh consensus1 chain db9 0, []) (au3, []).
Proof.
  apply (rtc_l _ _ (au0, [delta10])); [apply ts_eval; exists hdrs, noDup, (λ _, None), true, None; split; [reflexivity|exact eval10]|].
  apply (rtc_l _ _ (au1, [])).
  { exact (add_step visit au0 delta10 au1 9 totals9 visit_perm eq_refl disjoint_10 eq_refl fits10 added10). }
  apply (rtc_l _ _ (au1, [delta11])); [apply ts_eval; rewrite latest1; exists hdrs, noDup, (λ _, None), false, None; split; [reflexivity|exact eval11]|].
  apply (rtc_l _ _ (au2, [])).
  { exact (add_step visit' au1 delta11 au2 10 totals10 visit'_perm latest1 disjoint_11 last1 fits11 added11). }
  apply (rtc_l _ _ (au3, [])); [|apply rtc_refl]. exact (ts_committedUpTo enc dec consensus1 cr0 en0 vc0 gh chain visit' au2 [] 11 6000000000 10 au3 visit'_perm committed_11).
Qed.

Definition disk : ledgerForTracker := mkLedgerForTracker 11 (λ r, Ok (chain r)) hdrs (λ r, Ok (chain r, mkEvalAux)).
Lemma on_disk11 : on_disk chain disk au3.
Proof. split; [vm_compute; split; discriminate|done|]. intros r _. by exists mkEvalAux. Qed.

Lemma au_restart_witness : exists au', au_loadFromDisk consensus1 enc dec visit' map_to_list cr0 en0 vc0 gh noDup calm disk (Some ∅) params1 0 (Some (au_dbs au3)) =
      (Ok au', Some (au_dbs au3)) /\
    au_inv au' /\ latest au' = 11 /\ forall k, au_dbRound au3 <= k <= 11 -> same_answers dec au3 au' k.
Proof.
  refine (au_restart enc dec restart_codec consensus1 cr0 en0 vc0 gh chain chain_round noDup db9 0 au3 [] disk visit' map_to_list ∅ params1 0 _ steps03 on_disk11 visit'_perm).
  vm_compute. split; [discriminate|reflexivity].
Defined.
End RestartWitness.

(** The asset created in round 11 is listed from memory before the commit of that round. *)
Module ListingWitness.
Import TrackerWitness.
Lemma listAssets_witness : listAssets au3 100 5 = Ok [mkAssetLocator 7 alice].
Proof.
  assert (au_assets au3 = {[7 := mkModifiedAsset true alice 1]} /\ db_assetcreators (au_dbs au3) = ∅ /\ zlen (memKeys au3 100) = 1) as (E1 & E2 & E3) by (vm_compute; done).
  transitivity (Ok (take (Z.to_nat 5) (listed au3 100))); [|vm_compute; reflexivity].
  apply (listAssets_spec au3 100 5); [|lia|lia|lia]. intros i j x _ _ [a Ha]. by rewrite E2, lookup_empty in Ha.
Defined.
End ListingWitness.
