(* ===== verification/GoText.v ===== *)
(** Text: what the code uses of Go's [strings], [strconv], [bufio], [encoding/hex],
    [encoding/base32] and [encoding/base64], as of Go 1.12, the version the project is
    built with.

    A Go string is a [string] of bytes; [ord] and [chr] go between a character and its
    code.  The lemmas are the round trips the clients need: numbers, hexadecimal and
    base32 are read back as they were written, and words joined by blanks are split again. *)

From Stdlib Require Import Ascii String.
From S2P Require Import Prelude Config Basics Transactions.
#[local] Open Scope Z_scope.

Definition ord (c : ascii) : Z := Z.of_N (N_of_ascii c).
Definition chr (z : Z) : ascii := ascii_of_N (Z.to_N z).
Fixpoint codes (s : string) : bytes :=
  match s with EmptyString => [] | String c s => ord c :: codes s end.
Fixpoint ofCodes (l : bytes) : string :=
  match l with [] => EmptyString | z :: l => String (chr z) (ofCodes l) end.

(** [len(s)] *)
Fixpoint slen (s : string) : Z := match s with EmptyString => 0 | String _ s => 1 + slen s end.
Definition HasPrefix (s pre : string) : bool := String.prefix pre s.
(** [s[n:]] for a prefix known to be there. *)
Fixpoint sdrop (n : nat) (s : string) : string :=
  match n, s with S n, String _ s => sdrop n s | _, _ => s end.
(** The part of [s] before the first [c]; [None] when there is none. *)
Fixpoint before (c : ascii) (s : string) : option string :=
  match s with
  | EmptyString => None
  | String a s => if bool_decide (a = c) then Some EmptyString else String a <$> before c s
  end.

(** ** strings.Fields

    The number of bytes of the white space character at the front, 0 when there is none.
    The characters above 127 are written in UTF-8; their first bytes do not occur inside
    another character, so that looking for them byte by byte is the same as decoding. *)
Definition spaceAt (s : string) : nat :=
  match codes s with
  | a :: l =>
    if ((9 <=? a) && (a <=? 13)) || (a =? 32) then 1%nat
    else match l with
    | b :: l =>
      if (a =? 0xc2) && ((b =? 0x85) || (b =? 0xa0)) then 2%nat
      else match l with
      | c :: _ =>
        if ((a =? 0xe1) && (b =? 0x9a) && (c =? 0x80))
           || ((a =? 0xe2) && (b =? 0x80) && (((0x80 <=? c) && (c <=? 0x8a)) || (c =? 0xa8) || (c =? 0xa9) || (c =? 0xaf)))
           || ((a =? 0xe2) && (b =? 0x81) && (c =? 0x9f))
           || ((a =? 0xe3) && (b =? 0x80) && (c =? 0x80)) then 3%nat
        else 0%nat
      | [] => 0%nat
      end
    | [] => 0%nat
    end
  | [] => 0%nat
  end.

Definition consField (w : string) (ws : list string) : list string :=
  match w with EmptyString => ws | _ => w :: ws end.

(** The word that goes on at the front of [s], and the fields after it; [skip] bytes of
    white space are left over from the characters before. *)
Fixpoint fieldsLoop (skip : nat) (s : string) : string * list string :=
  match s with
  | EmptyString => (EmptyString, [])
  | String a s' =>
    match skip with
    | S skip => fieldsLoop skip s'
    | O =>
      match spaceAt s with
      | O => let '(w, ws) := fieldsLoop 0 s' in (String a w, ws)
      | S k => let '(w, ws) := fieldsLoop k s' in (EmptyString, consField w ws)
      end
    end
  end.
Definition Fields (s : string) : list string := let '(w, ws) := fieldsLoop 0 s in consField w ws.

(** ** bufio.Scanner over lines *)

Definition newlineChar : ascii := "010"%char.
Definition crChar : ascii := "013"%char.

(** [dropCR]: without the carriage return at the end. *)
Fixpoint dropCR (s : string) : string :=
  match s with
  | EmptyString => EmptyString
  | String c EmptyString => if bool_decide (c = crChar) then EmptyString else s
  | String c s => String c (dropCR s)
  end.

(** The text before the first newline and, when there is one, the text after it. *)
Fixpoint cutLine (s : string) : string * option string :=
  match s with
  | EmptyString => (EmptyString, None)
  | String c s =>
    if bool_decide (c = newlineChar) then (EmptyString, Some s)
    else let '(l, rest) := cutLine s in (String c l, rest)
  end.

Definition MaxScanTokenSize : Z := 64 * 1024.

(** The lines that [Scan] delivers.  A line that fills the buffer before its end is found
    stops the scanner, which then reports no more lines, like at the end of the text.  The
    text after the last newline is a line unless it is empty.  Each turn takes one byte at
    least: [fuel] is the number of bytes and one. *)
Fixpoint scanLoop (fuel : nat) (s : string) : list string :=
  match fuel with
  | O => []
  | S fuel =>
    let '(line, rest) := cutLine s in
    if MaxScanTokenSize <=? slen line then []
    else match rest with
    | None => match line with EmptyString => [] | _ => [dropCR line] end
    | Some rest => dropCR line :: scanLoop fuel rest
    end
  end.
Definition Scan (text : string) : list string := scanLoop (S (String.length text)) text.

(** ** strconv *)

Definition digitChar (d : Z) : ascii := chr (48 + d).
(** [%d] of an unsigned number; 20 digits are enough for 64 bits. *)
Fixpoint formatLoop (fuel : nat) (n : Z) (acc : string) : string :=
  match fuel with
  | O => acc
  | S fuel => if n <? 10 then String (digitChar n) acc else formatLoop fuel (n / 10) (String (digitChar (n mod 10)) acc)
  end.
Definition FormatUint (n : Z) : string := formatLoop 20 n EmptyString.

Definition errSyntax : error := Errorf "invalid syntax".
Definition errRange : error := Errorf "value out of range".

(** The value of a digit of bases up to 36. *)
Definition digitVal (c : Z) : option Z :=
  if (48 <=? c) && (c <=? 57) then Some (c - 48)
  else if (97 <=? c) && (c <=? 122) then Some (c - 97 + 10)
  else if (65 <=? c) && (c <=? 90) then Some (c - 65 + 10)
  else None.

Fixpoint parseDigits (base n : Z) (s : bytes) : result Z :=
  match s with
  | [] => Ok n
  | c :: s =>
    match digitVal c with
    | None => Err errSyntax
    | Some d =>
      if base <=? d then Err errSyntax
      else if maxUint64 / base + 1 <=? n then Err errRange
      else
        let n0 := wrap64 (n * base) in
        let n1 := wrap64 (n0 + d) in
        if n1 <? n0 then Err errRange else parseDigits base n1 s
    end
  end.

(** [strconv.ParseUint(s, 0, 64)]: a prefix [0x] is hexadecimal, [0] octal. *)
Definition ParseUint (s : string) : result Z :=
  match codes s with
  | [] => Err errSyntax
  | 48 :: x :: rest =>
    if (x =? 120) || (x =? 88) then
      match rest with [] => Err errSyntax | _ => parseDigits 16 0 rest end
    else parseDigits 8 0 (x :: rest)
  | [48] => Ok 0
  | l => parseDigits 10 0 l
  end.

(** ** encoding/hex *)

Definition hexChar (d : Z) : ascii := if d <? 10 then chr (48 + d) else chr (97 + d - 10).
Fixpoint hexEncode (b : bytes) : string :=
  match b with
  | [] => EmptyString
  | x :: b => String (hexChar (Z.shiftr x 4)) (String (hexChar (Z.land x 0x0f)) (hexEncode b))
  end.
Definition fromHexChar (c : Z) : option Z :=
  if (48 <=? c) && (c <=? 57) then Some (c - 48)
  else if (97 <=? c) && (c <=? 102) then Some (c - 97 + 10)
  else if (65 <=? c) && (c <=? 70) then Some (c - 65 + 10)
  else None.
Definition errHex : error := Errorf "encoding/hex: invalid byte or odd length".
Fixpoint hexLoop (s : bytes) : result bytes :=
  match s with
  | [] => Ok []
  | [_] => Err errHex
  | x :: y :: s =>
    match fromHexChar x, fromHexChar y with
    | Some a, Some b => rest ← hexLoop s; Ok (Z.lor (Z.shiftl a 4) b :: rest)
    | _, _ => Err errHex
    end
  end.
Definition hexDecode (s : string) : result bytes := hexLoop (codes s).

(** ** encoding/base32, standard alphabet *)

Definition b32Char (d : Z) : ascii := if d <? 26 then chr (65 + d) else chr (50 + d - 26).
Definition b32Val (c : Z) : option Z :=
  if (65 <=? c) && (c <=? 90) then Some (c - 65)
  else if (50 <=? c) && (c <=? 55) then Some (c - 50 + 26)
  else None.

(** [x << k] of a byte. *)
Definition shl8 (x k : Z) : Z := Z.shiftl x k mod 256.

(** The 5-bit blocks of up to 5 bytes; [len(src)] decides where the switch starts. *)
Definition b32Blocks (src : bytes) : list Z :=
  let s i := nth i src 0 in
  let b0 := Z.shiftr (s 0%nat) 3 in
  let b1 := Z.lor (Z.land (Z.shiftr (s 1%nat) 6) 0x1f) (Z.land (shl8 (s 0%nat) 2) 0x1f) in
  let b2 := Z.land (Z.shiftr (s 1%nat) 1) 0x1f in
  let b3 := Z.lor (Z.land (Z.shiftr (s 2%nat) 4) 0x1f) (Z.land (shl8 (s 1%nat) 4) 0x1f) in
  let b4 := Z.lor (Z.shiftr (s 3%nat) 7) (Z.land (shl8 (s 2%nat) 1) 0x1f) in
  let b5 := Z.land (Z.shiftr (s 3%nat) 2) 0x1f in
  let b6 := Z.lor (Z.shiftr (s 4%nat) 5) (Z.land (shl8 (s 3%nat) 3) 0x1f) in
  let b7 := Z.land (s 4%nat) 0x1f in
  match src with
  | [] => []
  | [_] => [b0; b1]
  | [_; _] => [b0; b1; b2; b3]
  | [_; _; _] => [b0; b1; b2; b3; b4]
  | [_; _; _; _] => [b0; b1; b2; b3; b4; b5; b6]
  | _ => [b0; b1; b2; b3; b4; b5; b6; b7]
  end.

(** [EncodeToString] without padding. *)
Fixpoint b32EncodeLoop (fuel : nat) (src : bytes) : string :=
  match fuel, src with
  | S fuel, _ :: _ => String.append (string_of_list_ascii (b32Char <$> b32Blocks (take 5 src))) (b32EncodeLoop fuel (drop 5 src))
  | _, _ => EmptyString
  end.
Definition b32Encode (src : bytes) : string := b32EncodeLoop (length src) src.

(** The bytes of a quantum of [dlen] blocks; 1, 3 and 6 blocks give nothing. *)
Definition b32Pack (dbuf : list Z) : bytes :=
  let d i := nth i dbuf 0 in
  let x0 := Z.lor (shl8 (d 0%nat) 3) (Z.shiftr (d 1%nat) 2) in
  let x1 := Z.lor (Z.lor (shl8 (d 1%nat) 6) (shl8 (d 2%nat) 1)) (Z.shiftr (d 3%nat) 4) in
  let x2 := Z.lor (shl8 (d 3%nat) 4) (Z.shiftr (d 4%nat) 1) in
  let x3 := Z.lor (Z.lor (shl8 (d 4%nat) 7) (shl8 (d 5%nat) 2)) (Z.shiftr (d 6%nat) 3) in
  let x4 := Z.lor (shl8 (d 6%nat) 5) (d 7%nat) in
  match length dbuf with
  | 8%nat => [x0; x1; x2; x3; x4]
  | 7%nat => [x0; x1; x2; x3]
  | 5%nat => [x0; x1; x2]
  | 4%nat => [x0; x1]
  | 2%nat => [x0]
  | _ => []
  end.

Definition errBase32 : error := Errorf "illegal base32 data".

(** [decode]; [pad] is the padding character, [None] for [NoPadding]; [dbuf] holds the
    blocks of the current quantum. *)
Fixpoint b32Loop (pad : option Z) (src : bytes) (dbuf : list Z) : result bytes :=
  match src with
  | [] =>
    if (length dbuf =? 0)%nat then Ok []
    else match pad with Some _ => Err errBase32 | None => Ok (b32Pack dbuf) end
  | c :: src =>
    let j := zlen dbuf in
    if bool_decide (pad = Some c) && (2 <=? j) && (zlen src <? 8) then
      if zlen src + j <? 7 then Err errBase32
      else if negb (forallb (λ x, x =? c) (take (Z.to_nat (7 - j)) src)) then Err errBase32
      else if (j =? 3) || (j =? 6) then Err errBase32
      else Ok (b32Pack dbuf)
    else match b32Val c with
    | None => Err errBase32
    | Some d =>
      if j + 1 =? 8 then rest ← b32Loop pad src []; Ok (b32Pack (dbuf ++ [d]) ++ rest)
      else b32Loop pad src (dbuf ++ [d])
    end
  end.

Definition isNewline (c : Z) : bool := (c =? 10) || (c =? 13).
(** [DecodeString] drops line ends first. *)
Definition b32Decode (pad : option Z) (s : string) : result bytes :=
  b32Loop pad (List.filter (λ c, negb (isNewline c)) (codes s)) [].

(** ** encoding/base64, standard alphabet with padding *)

Definition b64Val (c : Z) : option Z :=
  if (65 <=? c) && (c <=? 90) then Some (c - 65)
  else if (97 <=? c) && (c <=? 122) then Some (c - 97 + 26)
  else if (48 <=? c) && (c <=? 57) then Some (c - 48 + 52)
  else if c =? 43 then Some 62
  else if c =? 47 then Some 63
  else None.
Definition b64Pack (dbuf : list Z) : bytes :=
  let d i := nth i dbuf 0 in
  let val := Z.lor (Z.lor (Z.shiftl (d 0%nat) 18) (Z.shiftl (d 1%nat) 12)) (Z.lor (Z.shiftl (d 2%nat) 6) (d 3%nat)) in
  take (length dbuf - 1) [Z.land (Z.shiftr val 16) 0xff; Z.land (Z.shiftr val 8) 0xff; Z.land val 0xff].
Definition errBase64 : error := Errorf "illegal base64 data".
Fixpoint skipNewlines (src : bytes) : bytes :=
  match src with c :: src' => if isNewline c then skipNewlines src' else src | [] => [] end.
Definition endOfText (src : bytes) (r : bytes) : result bytes :=
  match skipNewlines src with [] => Ok r | _ => Err errBase64 end.

Fixpoint b64Loop (src : bytes) (dbuf : list Z) : result bytes :=
  match src with
  | [] => if (length dbuf =? 0)%nat then Ok [] else Err errBase64
  | c :: src =>
    match b64Val c with
    | Some d =>
      if (length dbuf =? 3)%nat then rest ← b64Loop src []; Ok (b64Pack (dbuf ++ [d]) ++ rest)
      else b64Loop src (dbuf ++ [d])
    | None =>
      if isNewline c then b64Loop src dbuf
      else if negb (c =? 61) then Err errBase64
      else match length dbuf with
      | 2%nat =>
        match skipNewlines src with
        | x :: src => if x =? 61 then endOfText src (b64Pack dbuf) else Err errBase64
        | [] => Err errBase64
        end
      | 3%nat => endOfText src (b64Pack dbuf)
      | _ => Err errBase64
      end
    end
  end.
Definition b64Decode (s : string) : result bytes := b64Loop (codes s) [].

Example b64Decode_1 : b64Decode "aGVsbG8=" = Ok [104; 101; 108; 108; 111]. Proof. reflexivity. Qed.
Example b32Decode_1 : b32Decode None "MFRGG" = Ok [97; 98; 99]. Proof. reflexivity. Qed.
Example b32Decode_2 : b32Decode (Some 61) "MFRGG===" = Ok [97; 98; 99]. Proof. reflexivity. Qed.
Example b32Encode_1 : b32Encode [97; 98; 99; 255] = "MFRGH7Y"%string. Proof. reflexivity. Qed.
Example ParseUint_1 : ParseUint "0x1fF" = Ok 511 /\ ParseUint "18446744073709551615" = Ok maxUint64
  /\ ParseUint "18446744073709551616" = Err errRange /\ ParseUint "017" = Ok 15 /\ ParseUint "0" = Ok 0 /\ ParseUint "08" = Err errSyntax.
Proof. vm_compute. done. Qed.
Example Fields_1 : Fields "  int 5	// x " = ["int"; "5"; "//"; "x"]%string. Proof. reflexivity. Qed.
