(* ===== verification/GoTextSpec.v ===== *)
(** What is written as text is read back: numbers, hexadecimal, base32, words of a line
    and lines of a text. *)

From Stdlib Require Import Ascii String.
From S2P Require Import Prelude Config Basics Transactions GoText.
#[local] Open Scope Z_scope.
#[local] Arguments b32Blocks : simpl never.
#[local] Arguments b32Pack : simpl never.

(** ** Characters *)

Lemma ord_chr z : is_byte z -> ord (chr z) = z.
Proof.
  intros Hz. unfold is_byte, ord, chr in *. rewrite N_ascii_embedding; [by rewrite Z2N.id by lia|].
  apply N2Z.inj_lt. rewrite Z2N.id by lia. apply Hz.
Qed.
Lemma chr_ord c : chr (ord c) = c.
Proof. unfold chr, ord. by rewrite N2Z.id, ascii_N_embedding. Qed.
Lemma ord_byte c : is_byte (ord c).
Proof. unfold is_byte, ord. pose proof (N_ascii_bounded c) as H. apply N2Z.inj_lt in H. lia. Qed.
Lemma ord_inj c d : ord c = ord d -> c = d.
Proof. intros H. by rewrite <- (chr_ord c), <- (chr_ord d), H. Qed.

Lemma app_cons_s c a b : String c a +:+ b = String c (a +:+ b).
Proof. reflexivity. Qed.
Lemma codes_app a b : codes (a +:+ b) = codes a ++ codes b.
Proof. induction a as [|c a IH]; [done|]. rewrite app_cons_s. cbn [codes app]. by rewrite IH. Qed.
Lemma slen_app a b : slen (a +:+ b) = slen a + slen b.
Proof. induction a as [|c a IH]; [done|]. rewrite app_cons_s. cbn [slen]. rewrite IH. lia. Qed.
Lemma slen_codes s : slen s = zlen (codes s).
Proof. induction s as [|c s IH]; [done|]. cbn [slen codes]. rewrite IH. unfold zlen. cbn [length]. lia. Qed.
Lemma slen_nonneg s : 0 <= slen s.
Proof. rewrite slen_codes. unfold zlen. lia. Qed.
Lemma app_assoc_s (a b c : string) : (a +:+ b) +:+ c = a +:+ b +:+ c.
Proof. induction a as [|x a IH]; [done|]. rewrite !app_cons_s. by rewrite IH. Qed.
Lemma app_nil_l_s (a : string) : EmptyString +:+ a = a.
Proof. reflexivity. Qed.
Lemma app_nil_r_s (a : string) : a +:+ EmptyString = a.
Proof. induction a as [|x a IH]; [done|]. by rewrite app_cons_s, IH. Qed.
Lemma ofCodes_codes s : ofCodes (codes s) = s.
Proof. induction s as [|c s IH]; [done|]. cbn. by rewrite chr_ord, IH. Qed.
Lemma codes_inj a b : codes a = codes b -> a = b.
Proof.
  revert b. induction a as [|c a IH]; intros [|d b] H; try discriminate H; [done|]. cbn in H.
  injection H as H1 H2. f_equal; [by apply ord_inj|by apply IH].
Qed.

(** ** Numbers *)

Definition decimal (c : Z) : Prop := 48 <= c <= 57.

Lemma digitVal_decimal d : 0 <= d < 10 -> digitVal (48 + d) = Some d.
Proof.
  intros Hd. unfold digitVal. rewrite (proj2 (Z.leb_le _ _)), (proj2 (Z.leb_le _ _)) by lia. cbn [andb]. f_equal. lia.
Qed.
Lemma parseDigits_step m d r : 0 <= m -> 0 <= d < 10 -> u64 (m * 10 + d) ->
  parseDigits 10 m (48 + d :: r) = parseDigits 10 (m * 10 + d) r.
Proof.
  intros Hm Hd Hu. cbn [parseDigits]. rewrite digitVal_decimal by done. unfold u64 in Hu.
  change (maxUint64 / 10 + 1) with 1844674407370955162. rewrite (proj2 (Z.leb_gt 10 d)) by lia.
  rewrite (proj2 (Z.leb_gt _ m)) by lia. rewrite (wrap64_small (m * 10)) by (unfold u64; lia).
  rewrite wrap64_small by (unfold u64; lia). by rewrite (proj2 (Z.ltb_ge _ _)) by lia.
Qed.

(** The digits of a number: no leading zero, read back as the number, and at most three
    for every seven bits. *)
Lemma formatLoop_spec fuel : forall n acc, (0 < fuel)%nat -> 0 <= n < 10 ^ Z.of_nat fuel -> u64 n ->
  exists ds, codes (formatLoop fuel n acc) = ds ++ codes acc /\ Forall decimal ds
    /\ (forall r, parseDigits 10 0 (ds ++ r) = parseDigits 10 n r)
    /\ (if decide (n = 0) then ds = [48] else exists d ds', ds = d :: ds' /\ d <> 48)
    /\ forall k, 0 < k -> n < 10 ^ k -> zlen ds <= k.
Proof.
  induction fuel as [|fuel IH]; intros n acc H0 Hn Hu; [lia|]. cbn [formatLoop].
  assert (is_byte (48 + n mod 10)) as Hb by (unfold is_byte; pose proof (Z.mod_pos_bound n 10); lia).
  destruct (Z.ltb_spec n 10) as [Hlt|Hge].
  - exists [48 + n]. split_and!.
    + cbn [codes app]. unfold digitChar. by rewrite ord_chr by (unfold is_byte; lia).
    + constructor; [unfold decimal; lia|constructor].
    + intros r. cbn [app]. by rewrite (parseDigits_step 0 n r) by (unfold u64 in *; lia).
    + destruct (decide (n = 0)) as [->|]; [done|]. exists (48 + n), []. split; [done|lia].
    + intros k Hk _. unfold zlen. cbn. lia.
  - assert (n / 10 < 10 ^ Z.of_nat fuel) as Hq.
    { apply Z.div_lt_upper_bound; [lia|]. rewrite <- Z.pow_succ_r by lia. replace (Z.succ (Z.of_nat fuel)) with (Z.of_nat (S fuel)) by lia. lia. }
    assert (1 <= n / 10) as Hq1 by (apply Z.div_le_lower_bound; lia). assert (n / 10 < n) by (apply Z.div_lt; lia).
    destruct (IH (n / 10) (String (digitChar (n mod 10)) acc)) as (ds & E & HF & HP & HZ & HL).
    { destruct fuel; [cbn in Hq; lia|lia]. } { lia. } { unfold u64 in *. lia. }
    exists (ds ++ [48 + n mod 10]). cbn [codes] in E.
    assert (ord (digitChar (n mod 10)) = 48 + n mod 10) as Ed by (by apply ord_chr). rewrite Ed in E.
    pose proof (Z.mod_pos_bound n 10 ltac:(lia)) as Hm. pose proof (Z.div_mod n 10 ltac:(lia)) as Hdm. split_and!.
    + rewrite E, <- app_assoc. done.
    + apply Forall_app. split; [done|]. constructor; [unfold decimal; lia|constructor].
    + intros r. rewrite <- app_assoc, HP. cbn [app]. rewrite parseDigits_step by (try (unfold u64 in *); lia). f_equal. lia.
    + rewrite decide_False in HZ by lia. rewrite decide_False by lia. destruct HZ as (d & ds' & -> & Hd). exists d, (ds' ++ [48 + n mod 10]). done.
    + intros k Hk Hnk. assert (1 < k). { destruct (decide (k = 1)) as [->|]; [cbn in Hnk; lia|lia]. }
      assert (zlen ds <= k - 1) as Hl.
      { apply HL; [lia|]. apply Z.div_lt_upper_bound; [lia|]. rewrite <- Z.pow_succ_r by lia. by replace (Z.succ (k - 1)) with k by lia. }
      unfold zlen in *. rewrite length_app. cbn. lia.
Qed.

Lemma u64_digits n : u64 n -> 0 <= n < 10 ^ Z.of_nat 20.
Proof. unfold u64. intros. change (10 ^ Z.of_nat 20) with 100000000000000000000. lia. Qed.

(** Numbers round trip. *)
Lemma ParseUint_FormatUint n : u64 n -> ParseUint (FormatUint n) = Ok n.
Proof.
  intros Hn. destruct (formatLoop_spec 20 n EmptyString ltac:(lia) (u64_digits n Hn) Hn) as (ds & E & HF & HP & HZ & _).
  unfold ParseUint, FormatUint. rewrite E. cbn [codes]. rewrite app_nil_r. specialize (HP []). rewrite app_nil_r in HP.
  case_decide; [by subst|]. destruct HZ as (d & ds' & -> & Hd). apply Forall_cons in HF as [HF _]. unfold decimal in HF.
  change (parseDigits 10 n []) with (@Ok Z n) in HP. rewrite <- HP. clear HP E.
  destruct d as [|p|p]; try done. do 6 (destruct p as [p|p|]; try done); lia.
Qed.
Lemma FormatUint_digits n : u64 n -> Forall decimal (codes (FormatUint n)) /\ FormatUint n <> EmptyString.
Proof.
  intros Hn. destruct (formatLoop_spec 20 n EmptyString ltac:(lia) (u64_digits n Hn) Hn) as (ds & E & HF & HP & HZ & _).
  unfold FormatUint. split; [rewrite E; cbn; by rewrite app_nil_r|]. intros Hc. rewrite Hc in E. cbn in E. rewrite app_nil_r in E. subst.
  case_decide; [done|]. by destruct HZ as (? & ? & ? & ?).
Qed.
Lemma FormatUint_len n k : u64 n -> 0 < k -> n < 10 ^ k -> slen (FormatUint n) <= k.
Proof.
  intros Hn Hk Hnk. destruct (formatLoop_spec 20 n EmptyString ltac:(lia) (u64_digits n Hn) Hn) as (ds & E & _ & _ & _ & HL).
  unfold FormatUint. rewrite slen_codes, E. cbn [codes]. rewrite app_nil_r. by apply HL.
Qed.

(** ** Hexadecimal *)

Lemma hexChar_spec d : 0 <= d < 16 -> fromHexChar (ord (hexChar d)) = Some d.
Proof.
  intros Hd. assert (Forall (λ d, fromHexChar (ord (hexChar d)) = Some d) (seqZ 0 16)) as H
    by (change (seqZ 0 16) with [0;1;2;3;4;5;6;7;8;9;10;11;12;13;14;15]; repeat constructor).
  rewrite Forall_forall in H. apply H, elem_of_seqZ. lia.
Qed.
Lemma lor_disjoint a b k : 0 <= k -> 0 <= b < 2 ^ k -> Z.lor (Z.shiftl a k) b = a * 2 ^ k + b.
Proof.
  intros Hk Hb. rewrite Z.shiftl_mul_pow2 by done. rewrite <- Z.add_lor_land.
  assert (Z.land (a * 2 ^ k) b = 0) as ->; [|lia].
  apply Z.bits_inj'. intros n Hn. rewrite Z.land_spec, Z.bits_0. destruct (decide (n < k)).
  - by rewrite Z.mul_pow2_bits_low by lia.
  - rewrite <- (Z.mod_small b (2 ^ k)) by done. rewrite Z.mod_pow2_bits_high by lia. apply andb_false_r.
Qed.
Lemma nibbles x : is_byte x -> Z.lor (Z.shiftl (Z.shiftr x 4) 4) (Z.land x 0x0f) = x /\ 0 <= Z.shiftr x 4 < 16 /\ 0 <= Z.land x 0x0f < 16.
Proof.
  intros Hx. unfold is_byte in Hx. change 0x0f with (Z.ones 4). rewrite Z.land_ones, Z.shiftr_div_pow2 by lia.
  change (2 ^ 4) with 16. pose proof (Z.mod_pos_bound x 16 ltac:(lia)). pose proof (Z.div_mod x 16 ltac:(lia)). rewrite lor_disjoint by (change (2 ^ 4) with 16; lia). change (2 ^ 4) with 16. lia.
Qed.

Lemma hexDecode_hexEncode b : Forall is_byte b -> hexDecode (hexEncode b) = Ok b.
Proof.
  unfold hexDecode. induction b as [|x b IH]; intros HF; [done|]. apply Forall_cons in HF as [Hx HF].
  destruct (nibbles x Hx) as (E & H1 & H2). cbn [hexEncode codes hexLoop]. rewrite !hexChar_spec by done.
  rewrite IH by done. cbn. by rewrite E.
Qed.
Lemma hexEncode_len b : slen (hexEncode b) = 2 * zlen b.
Proof. induction b as [|x b IH]; [done|]. cbn [hexEncode slen]. rewrite IH. unfold zlen. cbn [length]. lia. Qed.

(** ** Base32 *)

Lemma b32Char_spec d : 0 <= d < 32 -> b32Val (ord (b32Char d)) = Some d /\ isNewline (ord (b32Char d)) = false.
Proof.
  intros Hd. assert (Forall (λ d, b32Val (ord (b32Char d)) = Some d /\ isNewline (ord (b32Char d)) = false) (seqZ 0 32)) as H
    by (apply (bool_decide_unpack _); vm_compute; exact I).
  rewrite Forall_forall in H. apply H, elem_of_seqZ. lia.
Qed.

Ltac div_bound x k m := assert (0 <= x / k < m) by (split; [apply Z.div_pos|apply Z.div_lt_upper_bound]; lia).

(** Pieces of bytes as arithmetic. *)
Lemma land_31 x : Z.land x 0x1f = x mod 32.
Proof. change 0x1f with (Z.ones 5). by rewrite Z.land_ones. Qed.
Lemma shl8_mod x k : 0 <= k -> shl8 x k = (x * 2 ^ k) mod 256.
Proof. intros. unfold shl8. by rewrite Z.shiftl_mul_pow2. Qed.
Lemma shl8_split x k : 0 <= k <= 8 -> shl8 x k = Z.shiftl (x mod 2 ^ (8 - k)) k.
Proof.
  intros Hk. rewrite shl8_mod, Z.shiftl_mul_pow2 by lia. rewrite <- Z.mul_mod_distr_r by (try apply Z.pow_nonzero; lia).
  rewrite <- Z.pow_add_r by lia. by replace (8 - k + k) with 8 by lia.
Qed.
Lemma shl8_low5 x k : 0 <= k <= 5 -> Z.land (shl8 x k) 0x1f = Z.shiftl (x mod 2 ^ (5 - k)) k.
Proof.
  intros Hk. rewrite land_31, shl8_mod, Z.shiftl_mul_pow2 by lia. rewrite Z.mod_mod_divide by (by exists 8).
  rewrite <- Z.mul_mod_distr_r by (try apply Z.pow_nonzero; lia). rewrite <- Z.pow_add_r by lia.
  by replace (5 - k + k) with 5 by lia.
Qed.

(** [hi] above [lo]. *)
Lemma blocks_join hi lo k : 0 <= k -> 0 <= lo < 2 ^ k -> Z.lor lo (Z.shiftl hi k) = hi * 2 ^ k + lo.
Proof. intros. rewrite Z.lor_comm. by apply lor_disjoint. Qed.

Section Quantum.
Variables s0 s1 s2 s3 s4 : Z.
Hypotheses (B0 : is_byte s0) (B1 : is_byte s1) (B2 : is_byte s2) (B3 : is_byte s3) (B4 : is_byte s4).

Lemma blocks_arith : b32Blocks [s0; s1; s2; s3; s4] =
  [s0 / 8; s0 mod 8 * 4 + s1 / 64; s1 / 2 mod 32; s1 mod 2 * 16 + s2 / 16; s2 mod 16 * 2 + s3 / 128; s3 / 4 mod 32;
   s3 mod 4 * 8 + s4 / 32; s4 mod 32].
Proof.
  unfold b32Blocks. cbn [nth]. rewrite !shl8_low5 by lia. rewrite !land_31, !Z.shiftr_div_pow2 by lia.
  change (2 ^ 3) with 8. change (2 ^ 6) with 64. change (2 ^ 1) with 2. change (2 ^ 4) with 16. change (2 ^ 7) with 128.
  change (2 ^ 2) with 4. change (2 ^ 5) with 32. unfold is_byte in *.
  div_bound s1 64 4. div_bound s2 16 16. div_bound s3 128 2. div_bound s4 32 8.
  rewrite (Z.mod_small (s1 / 64)), (Z.mod_small (s2 / 16)) by lia.
  rewrite !blocks_join by (try change (2 ^ 2) with 4; try change (2 ^ 4) with 16; try change (2 ^ 1) with 2; try change (2 ^ 3) with 8; lia).
  done.
Qed.
End Quantum.

Lemma pack_pair a b k : 0 <= k <= 8 -> 0 <= a < 2 ^ (8 - k) -> 0 <= b < 2 ^ k -> Z.lor (shl8 a k) b = a * 2 ^ k + b.
Proof. intros Hk Ha Hb. rewrite shl8_split by done. rewrite Z.mod_small by done. apply lor_disjoint; [lia|done]. Qed.
Lemma pack_pair_mod a b k : 0 <= k <= 8 -> 0 <= b < 2 ^ k -> Z.lor (shl8 a k) b = a mod 2 ^ (8 - k) * 2 ^ k + b.
Proof. intros Hk Hb. rewrite shl8_split by done. apply lor_disjoint; [lia|done]. Qed.
Lemma pack_three a b c k m : 0 <= m <= k -> k <= 8 -> 0 <= b < 2 ^ (k - m) -> 0 <= c < 2 ^ m ->
  Z.lor (Z.lor (shl8 a k) (shl8 b m)) c = a mod 2 ^ (8 - k) * 2 ^ k + (b * 2 ^ m + c).
Proof.
  intros Hm Hk Hb Hc. assert (2 ^ k = 2 ^ (k - m) * 2 ^ m) as E by (rewrite <- Z.pow_add_r by lia; f_equal; lia).
  assert (2 ^ (k - m) <= 2 ^ (8 - m)) by (apply Z.pow_le_mono_r; lia).
  rewrite <- Z.lor_assoc, (pack_pair b) by lia. rewrite pack_pair_mod; [done|lia|]. nia.
Qed.

Definition block (d : Z) : Prop := 0 <= d < 32.
Lemma pack_arith d0 d1 d2 d3 d4 d5 d6 d7 : Forall block [d0; d1; d2; d3; d4; d5; d6; d7] ->
  b32Pack [d0; d1; d2; d3; d4; d5; d6; d7] =
    [d0 * 8 + d1 / 4; d1 mod 4 * 64 + (d2 * 2 + d3 / 16); d3 mod 16 * 16 + d4 / 2; d4 mod 2 * 128 + (d5 * 4 + d6 / 8); d6 mod 8 * 32 + d7].
Proof.
  unfold block. intros HF. decompose_Forall_hyps. unfold b32Pack. cbn [nth length]. rewrite !Z.shiftr_div_pow2 by lia.
  change (2 ^ 2) with 4. change (2 ^ 4) with 16. change (2 ^ 1) with 2. change (2 ^ 3) with 8.
  div_bound d1 4 8. div_bound d3 16 2. div_bound d4 2 16. div_bound d6 8 4.
  rewrite (pack_pair d0), (pack_three d1 d2 _ 6 1), (pack_pair_mod d3), (pack_three d4 d5 _ 7 2), (pack_pair_mod d6) by (cbn; lia).
  done.
Qed.

(** A quantum of up to five bytes is packed as it was unpacked. *)
Lemma quantum src : Forall is_byte src -> (1 <= length src <= 5)%nat ->
  Forall block (b32Blocks src) /\ b32Pack (b32Blocks src) = src.
Proof.
  intros HF Hl.
  assert (Forall is_byte [0] /\ Forall is_byte [0; 0] /\ Forall is_byte [0; 0; 0] /\ Forall is_byte [0; 0; 0; 0]) as (Z1 & Z2 & Z3 & Z4)
    by (split_and!; repeat constructor; unfold is_byte; lia).
  assert (forall s0 s1 s2 s3 s4, Forall is_byte [s0; s1; s2; s3; s4] ->
    Forall block (b32Blocks [s0; s1; s2; s3; s4]) /\ b32Pack (b32Blocks [s0; s1; s2; s3; s4]) = [s0; s1; s2; s3; s4]) as H5.
  { clear. intros s0 s1 s2 s3 s4 HF. decompose_Forall_hyps. rewrite blocks_arith by done. unfold is_byte in *.
    match goal with |- ?P /\ _ => assert P as HB end.
    { unfold block. repeat (apply Forall_cons; split); try apply Forall_nil_2; Z.to_euclidean_division_equations; lia. }
    split; [done|]. rewrite pack_arith by done. repeat f_equal; Z.to_euclidean_division_equations; lia. }
  destruct src as [|s0 [|s1 [|s2 [|s3 [|s4 [|]]]]]]; cbn in Hl; try lia; [..|by apply H5].
  - destruct (H5 s0 0 0 0 0) as [H1 H2]; [by apply (Forall_app _ [_]); split|].
    split; [exact (Forall_take _ 2 _ H1)|exact (f_equal (take 1) H2)].
  - destruct (H5 s0 s1 0 0 0) as [H1 H2]; [by apply (Forall_app _ [_; _]); split|].
    split; [exact (Forall_take _ 4 _ H1)|exact (f_equal (take 2) H2)].
  - destruct (H5 s0 s1 s2 0 0) as [H1 H2]; [by apply (Forall_app _ [_; _; _]); split|].
    split; [exact (Forall_take _ 5 _ H1)|exact (f_equal (take 3) H2)].
  - destruct (H5 s0 s1 s2 s3 0) as [H1 H2]; [by apply (Forall_app _ [_; _; _; _]); split|].
    split; [exact (Forall_take _ 7 _ H1)|exact (f_equal (take 4) H2)].
Qed.

(** Reading the characters of one quantum. *)
Lemma b32Loop_blocks ds rest : Forall block ds -> forall dbuf, (length dbuf + length ds <= 8)%nat -> (length dbuf < 8)%nat -> ds <> [] ->
  b32Loop None (((ord ∘ b32Char) <$> ds) ++ rest) dbuf =
    if (length dbuf + length ds =? 8)%nat then rest ← b32Loop None rest []; Ok (b32Pack (dbuf ++ ds) ++ rest)
    else b32Loop None rest (dbuf ++ ds).
Proof.
  induction ds as [|d ds IH]; intros HF dbuf Hl H8 Hne; [done|]. apply Forall_cons in HF as [Hd HF].
  cbn [fmap list_fmap app b32Loop]. rewrite bool_decide_eq_false_2 by done. cbn [andb]. unfold compose at 1.
  rewrite (proj1 (b32Char_spec d Hd)). cbn [length] in *. unfold zlen. destruct ds as [|d' ds].
  - cbn [fmap list_fmap app length]. destruct (Z.eqb_spec (Z.of_nat (length dbuf) + 1) 8).
    + rewrite (proj2 (Nat.eqb_eq _ _)) by lia. done.
    + rewrite (proj2 (Nat.eqb_neq _ _)) by lia. done.
  - rewrite (proj2 (Z.eqb_neq _ _)) by (cbn [length] in Hl; lia).
    rewrite IH by (rewrite ?length_app; cbn [length] in *; try done; lia). rewrite <- app_assoc. cbn [app].
    replace (length (dbuf ++ [d]) + length (d' :: ds))%nat with (length dbuf + S (length (d' :: ds)))%nat by (rewrite length_app; cbn; lia).
    done.
Qed.

Lemma codes_ascii l : codes (string_of_list_ascii l) = ord <$> l.
Proof. induction l as [|c l IH]; [done|]. cbn. by rewrite IH. Qed.
Lemma blocks_length src : length (b32Blocks src) =
  match length src with 0 => 0 | 1 => 2 | 2 => 4 | 3 => 5 | 4 => 7 | _ => 8 end%nat.
Proof. by destruct src as [|? [|? [|? [|? [|? ?]]]]]. Qed.

Lemma blocks_le src : (length (b32Blocks src) <= 8)%nat.
Proof. rewrite blocks_length. destruct (length src) as [|[|[|[|[|]]]]]; lia. Qed.

Lemma b32Loop_encode fuel : forall src, (length src <= fuel)%nat -> Forall is_byte src ->
  b32Loop None (codes (b32EncodeLoop fuel src)) [] = Ok src
  /\ Forall (λ c, isNewline c = false) (codes (b32EncodeLoop fuel src)).
Proof.
  induction fuel as [|fuel IH]; intros src Hl HF; [destruct src; [done|cbn in Hl; lia]|].
  destruct src as [|s0 src]; [done|]. set (s := s0 :: src) in *. change (b32EncodeLoop (S fuel) s) with
    (string_of_list_ascii (b32Char <$> b32Blocks (take 5 s)) +:+ b32EncodeLoop fuel (drop 5 s)).
  rewrite codes_app, codes_ascii, <- list_fmap_compose.
  assert (1 <= length (take 5 s) <= 5)%nat as Ht by (rewrite length_take; unfold s; cbn [length]; lia).
  destruct (quantum (take 5 s) (Forall_take _ _ _ HF) Ht) as [HB HP].
  destruct (IH (drop 5 s)) as [I1 I2]; [rewrite length_drop; unfold s in *; cbn [length] in *; lia|by apply Forall_drop|].
  split.
  - rewrite b32Loop_blocks; [|done|apply blocks_le|cbn; lia|by unfold s, b32Blocks; destruct src as [|? [|? [|? [|]]]]].
    cbn [length Nat.add app]. destruct (Nat.eqb_spec (length (b32Blocks (take 5 s))) 8) as [E|E].
    + rewrite I1. cbn [mbind result_bind]. by rewrite HP, take_drop.
    + assert (length src < 4)%nat as Hs.
      { rewrite blocks_length, length_take in E. unfold s in E. cbn [length] in E.
        destruct (decide (length src < 4)%nat); [done|]. rewrite Nat.min_l in E by lia. done. }
      rewrite drop_ge by (unfold s; cbn; lia). rewrite take_ge in HP |- * by (unfold s; cbn; lia). destruct fuel; cbn [b32EncodeLoop codes b32Loop].
      all: rewrite (proj2 (Nat.eqb_neq _ _)); [by rewrite HP|]; rewrite blocks_length; destruct src as [|? [|? [|? [|]]]]; done.
  - apply Forall_app. split; [|done]. apply Forall_fmap. eapply Forall_impl; [exact HB|]. intros d Hd. by apply b32Char_spec.
Qed.

Lemma filter_all {A} (f : A -> bool) l : Forall (λ x, f x = true) l -> List.filter f l = l.
Proof. induction 1 as [|x l Hx _ IH]; [done|]. cbn. by rewrite Hx, IH. Qed.

(** Base32 without padding round trips. *)
Lemma b32Decode_b32Encode src : Forall is_byte src -> b32Decode None (b32Encode src) = Ok src.
Proof.
  intros HF. destruct (b32Loop_encode (length src) src ltac:(lia) HF) as [H1 H2]. unfold b32Decode, b32Encode.
  rewrite filter_all; [done|]. eapply Forall_impl; [exact H2|]. cbn. by intros c ->.
Qed.

(** What is decoded are bytes. *)
Lemma lor_byte a b : is_byte a -> is_byte b -> is_byte (Z.lor a b).
Proof.
  unfold is_byte. intros Ha Hb. split; [apply Z.lor_nonneg; lia|].
  destruct (decide (Z.lor a b = 0)) as [->|Hn]; [lia|]. assert (0 <= Z.lor a b) by (apply Z.lor_nonneg; lia).
  apply (Z.log2_lt_pow2 _ 8); [lia|]. rewrite Z.log2_lor by lia.
  assert (forall x, 0 <= x < 256 -> Z.log2 x < 8) as Hx.
  { intros x Hx. destruct (decide (x = 0)) as [->|]; [done|]. apply Z.log2_lt_pow2; lia. }
  apply Z.max_lub_lt; by apply Hx.
Qed.
Lemma shl8_byte x k : is_byte (shl8 x k).
Proof. unfold is_byte, shl8. by apply Z.mod_pos_bound. Qed.
Lemma shiftr_byte x k : 0 <= k -> block x -> is_byte (Z.shiftr x k).
Proof.
  unfold block, is_byte. intros Hk Hx. rewrite Z.shiftr_div_pow2 by done. assert (0 < 2 ^ k) by (apply Z.pow_pos_nonneg; lia).
  split; [apply Z.div_pos; lia|]. apply Z.div_lt_upper_bound; [lia|]. nia.
Qed.
Lemma nth_block dbuf i : Forall block dbuf -> block (nth i dbuf 0).
Proof.
  intros HF. revert i. induction HF as [|d l Hd _ IH]; intros [|i]; cbn; [unfold block; lia..|done|apply IH].
Qed.
Lemma block_byte d : block d -> is_byte d.
Proof. unfold block, is_byte. lia. Qed.
Create HintDb bytes.
#[export] Hint Resolve lor_byte shl8_byte shiftr_byte nth_block block_byte : bytes.
#[export] Hint Extern 1 (0 <= _) => lia : bytes.
Lemma b32Pack_bytes dbuf : Forall block dbuf -> Forall is_byte (b32Pack dbuf).
Proof.
  intros HF. unfold b32Pack. destruct (length dbuf) as [|[|[|[|[|[|[|[|[|]]]]]]]]]; repeat apply Forall_cons_2; auto 6 with bytes.
Qed.
Lemma b32Val_block c d : b32Val c = Some d -> block d.
Proof. unfold b32Val, block. intros. repeat case_match; simplify_eq; bool_hyps; lia. Qed.
Lemma b32Loop_bytes pad src : forall dbuf out, Forall block dbuf -> b32Loop pad src dbuf = Ok out -> Forall is_byte out.
Proof.
  induction src as [|c src IH]; intros dbuf out HF E; cbn [b32Loop] in E.
  { repeat case_match; simplify_eq; [constructor|by apply b32Pack_bytes]. }
  destruct (_ && _ && _) in E; [repeat case_match; simplify_eq; by apply b32Pack_bytes|].
  destruct (b32Val c) as [d|] eqn:Ed; [|done]. assert (Forall block (dbuf ++ [d])) as HF'.
  { apply Forall_app. split; [done|]. constructor; [by eapply b32Val_block|constructor]. }
  destruct (_ =? 8) in E; [|by eapply IH]. apply result_bind_Ok in E as (rest & E1 & [= <-]).
  apply Forall_app. split; [by apply b32Pack_bytes|]. by eapply IH; [|exact E1].
Qed.

(** ** Words and lines *)

Definition plain (s : string) : Prop := Forall (λ z, 33 <= z <= 126) (codes s).
Definition printable (s : string) : Prop := Forall (λ z, 32 <= z <= 126) (codes s).
Definition word (s : string) : Prop := plain s /\ s <> EmptyString.

(** A word followed by others, with a blank before each. *)
Definition blanks (ws : list string) : string := foldr (λ w s, " " +:+ w +:+ s) EmptyString ws.

Lemma plain_app a b : plain (a +:+ b) <-> plain a /\ plain b.
Proof. unfold plain. rewrite codes_app. apply Forall_app. Qed.
Lemma printable_app a b : printable (a +:+ b) <-> printable a /\ printable b.
Proof. unfold printable. rewrite codes_app. apply Forall_app. Qed.
Lemma plain_printable s : plain s -> printable s.
Proof. intros H. eapply Forall_impl; [exact H|]. cbn. lia. Qed.
Lemma plain_cons c s : plain (String c s) -> 33 <= ord c <= 126 /\ plain s.
Proof. intros H. by apply Forall_cons in H. Qed.

Lemma spaceAt_plain c s : 33 <= ord c <= 126 -> spaceAt (String c s) = 0%nat.
Proof.
  intros Hc. unfold spaceAt. cbn [codes]. set (a := ord c) in *.
  rewrite (proj2 (Z.leb_gt a 13)), (proj2 (Z.eqb_neq a 32)), andb_false_r by lia. cbn [orb].
  rewrite (proj2 (Z.eqb_neq a 0xc2)), (proj2 (Z.eqb_neq a 0xe1)), (proj2 (Z.eqb_neq a 0xe2)), (proj2 (Z.eqb_neq a 0xe3)) by lia.
  cbn [andb orb]. by destruct (codes s) as [|? [|? ?]].
Qed.

Lemma fieldsLoop_word w s : plain w -> fieldsLoop 0 (w +:+ s) = (w +:+ (fieldsLoop 0 s).1, (fieldsLoop 0 s).2).
Proof.
  induction w as [|c w IH]; intros H; [change (fieldsLoop 0 s = ((fieldsLoop 0 s).1, (fieldsLoop 0 s).2)); by destruct (fieldsLoop 0 s)|]. apply plain_cons in H as [Hc H].
  rewrite !app_cons_s. cbn [fieldsLoop]. rewrite spaceAt_plain by done. by rewrite (IH H).
Qed.
Lemma fieldsLoop_blanks ws : Forall word ws -> fieldsLoop 0 (blanks ws) = (EmptyString, ws).
Proof.
  induction 1 as [|w ws [Hp Hne] _ IH]; [done|]. cbn [blanks foldr]. fold (blanks ws).
  change (" " +:+ w +:+ blanks ws) with (String " " (w +:+ blanks ws)).
  change (fieldsLoop 0 (String " " ?s)) with (let '(w, ws) := fieldsLoop 0 s in (EmptyString, consField w ws)).
  rewrite (fieldsLoop_word w) by done. rewrite IH. cbn [fst snd]. rewrite app_nil_r_s. by destruct w.
Qed.
Lemma Fields_blanks w ws : word w -> Forall word ws -> Fields (w +:+ blanks ws) = w :: ws.
Proof.
  intros [Hp Hne] HF. unfold Fields. rewrite fieldsLoop_word, fieldsLoop_blanks by done. cbn [fst snd].
  rewrite app_nil_r_s. by destruct w.
Qed.

(** Text of lines that end with a newline. *)
Definition unlines (ls : list string) : string := foldr (λ l s, l +:+ String newlineChar s) EmptyString ls.

Lemma cutLine_line l s : printable l -> cutLine (l +:+ String newlineChar s) = (l, Some s).
Proof.
  induction l as [|c l IH]; intros H; [done|]. apply Forall_cons in H as [Hc H]. rewrite app_cons_s. cbn [cutLine].
  rewrite bool_decide_eq_false_2 by (intros ->; vm_compute in Hc; destruct Hc; done). by rewrite (IH H).
Qed.
Lemma dropCR_line l : printable l -> dropCR l = l.
Proof.
  induction l as [|c l IH]; intros H; [done|]. apply Forall_cons in H as [Hc H]. cbn [dropCR].
  rewrite (IH H). destruct l; [|done]. by rewrite bool_decide_eq_false_2 by (intros ->; vm_compute in Hc; destruct Hc; done).
Qed.

Definition shortLine (l : string) : Prop := printable l /\ slen l < MaxScanTokenSize.
Lemma scanLoop_unlines ls : Forall shortLine ls -> forall fuel, (length ls < fuel)%nat -> scanLoop fuel (unlines ls) = ls.
Proof.
  induction 1 as [|l ls [Hp Hs] _ IH]; intros fuel Hf; (destruct fuel as [|fuel]; [cbn in Hf; lia|]); [done|].
  cbn [unlines foldr scanLoop]. fold (unlines ls). rewrite cutLine_line by done. rewrite (proj2 (Z.leb_gt _ _)) by done.
  rewrite dropCR_line by done. f_equal. apply IH. cbn in Hf. lia.
Qed.
Lemma unlines_length ls : (length ls <= String.length (unlines ls))%nat.
Proof.
  induction ls as [|l ls IH]; [done|]. cbn [unlines foldr length]. fold (unlines ls).
  assert (forall a c b, S (String.length b) <= String.length (a +:+ String c b))%nat as H.
  { clear. intros a c b. induction a as [|x a IH]; [done|]. rewrite app_cons_s. cbn. lia. }
  specialize (H l newlineChar (unlines ls)). lia.
Qed.
Lemma Scan_unlines ls : Forall shortLine ls -> Scan (unlines ls) = ls.
Proof. intros HF. apply scanLoop_unlines; [done|]. pose proof (unlines_length ls). lia. Qed.

Lemma length_app_s (a b : string) : String.length (a +:+ b) = (String.length a + String.length b)%nat.
Proof. induction a as [|c a IH]; [done|]. rewrite app_cons_s. cbn. by rewrite IH. Qed.
Lemma cutLine_app l s : printable l -> (cutLine (l +:+ s)).1 = l +:+ (cutLine s).1.
Proof.
  induction l as [|c l IH]; intros H; [done|]. apply Forall_cons in H as [Hc H]. rewrite !app_cons_s. cbn [cutLine].
  rewrite bool_decide_eq_false_2 by (intros ->; vm_compute in Hc; destruct Hc; done). rewrite <- (IH H). by destruct (cutLine (l +:+ s)).
Qed.
(** Nothing is delivered from a line that does not fit on. *)
Lemma scanLoop_long ls l rest fuel : Forall shortLine ls -> printable l -> MaxScanTokenSize <= slen l -> (length ls < fuel)%nat ->
  scanLoop fuel (unlines ls +:+ l +:+ rest) = ls.
Proof.
  intros HF Hp Hl. revert fuel. induction HF as [|x ls [Hx Hs] _ IH]; intros fuel Hf; (destruct fuel as [|fuel]; [cbn in Hf; lia|]).
  - cbn [unlines foldr]. rewrite app_nil_l_s. cbn [scanLoop]. pose proof (cutLine_app l rest Hp) as E. destruct (cutLine (l +:+ rest)) as [line r].
    cbn in E. subst line. rewrite slen_app, (proj2 (Z.leb_le _ _)); [done|]. pose proof (slen_nonneg (cutLine rest).1). lia.
  - cbn [unlines foldr]. fold (unlines ls). rewrite app_assoc_s, app_cons_s. cbn [scanLoop]. rewrite cutLine_line by done.
    rewrite (proj2 (Z.leb_gt _ _)), dropCR_line by done. f_equal. apply IH. cbn in Hf. lia.
Qed.
Lemma codes_ofCodes l : Forall is_byte l -> codes (ofCodes l) = l.
Proof. induction 1 as [|z l Hz _ IH]; [done|]. cbn [ofCodes codes]. by rewrite ord_chr, IH. Qed.
