(* ===== verification/Address.v ===== *)
(** The text form of addresses (src/data/basics/address.go): base32 of the 32 bytes and a
    checksum of 4 bytes, without padding.

    [H] is [crypto.Hash], SHA-512/256; the theorem asks that it gives 32 bytes.  An [Address]
    is a list of 32 bytes here. *)

From Stdlib Require Import Ascii String.
From S2P Require Import Prelude Config Basics Transactions GoText GoTextSpec.
#[local] Open Scope Z_scope.

Definition checksumLength : nat := 4.
Definition addressLength : nat := 32.

Section Address.
Variable H : bytes -> bytes.

(** The last 4 bytes of the hash; a shorter hash cannot occur in Go, where it is an array. *)
Definition GetChecksum (addr : Address) : bytes :=
  let shortAddressHash := H addr in
  drop (length shortAddressHash - checksumLength) shortAddressHash.

Definition Address_String (addr : Address) : string := b32Encode (addr ++ GetChecksum addr).
Definition GetUserAddress (addr : Address) : string := Address_String addr.

Definition UnmarshalChecksumAddress (address : string) : result Address :=
  match b32Decode None address with
  | Ok decoded =>
    if (length decoded <? addressLength)%nat then Err (Errorf "decoded bad addr")
    else
      let short := take addressLength decoded in
      let incomingchecksum := drop (length decoded - checksumLength) decoded in
      let calculatedchecksum := GetChecksum short in
      if negb (bool_decide (incomingchecksum = calculatedchecksum)) then Err (Errorf "checksum verification failed")
      else if negb (bool_decide (Address_String short = address)) then Err (Errorf "address is non-canonical")
      else Ok short
  | Err _ => Err (Errorf "failed to decode address to base 32")
  | Panic m => Panic m
  end.

Definition MarshalText (addr : Address) : result bytes := Ok (codes (Address_String addr)).
(** The receiver is written only on success. *)
Definition UnmarshalText (text : bytes) : M Address unit := λ addr,
  match UnmarshalChecksumAddress (ofCodes text) with
  | Ok a => (Ok tt, a)
  | Err e => (Err e, addr)
  | Panic m => (Panic m, addr)
  end.

Definition isAddress (a : Address) : Prop := Forall is_byte a /\ length a = addressLength.

Hypothesis H_digest : forall b, Forall is_byte (H b) /\ length (H b) = 32%nat.

Lemma checksum_shape a : Forall is_byte (GetChecksum a) /\ length (GetChecksum a) = checksumLength.
Proof using H_digest.
  destruct (H_digest a) as [HF Hl]. unfold GetChecksum. split; [by apply Forall_drop|]. rewrite length_drop, Hl. done.
Qed.

Lemma Unmarshal_String a : isAddress a -> UnmarshalChecksumAddress (Address_String a) = Ok a.
Proof using H_digest.
  intros [HF Hl]. destruct (checksum_shape a) as [CF Cl]. unfold UnmarshalChecksumAddress, Address_String at 1.
  rewrite b32Decode_b32Encode by (by apply Forall_app). rewrite length_app, Hl, Cl.
  replace (addressLength + checksumLength <? addressLength)%nat with false by done.
  replace (addressLength + checksumLength - checksumLength)%nat with (length a) by done.
  rewrite <- Hl, take_app_length, drop_app_length. cbn zeta. by rewrite !bool_decide_eq_true_2.
Qed.

(** The text form of addresses is canonical: a text is accepted exactly when it is the
    text of an address of 32 bytes, which is then the result, so that no two texts stand for
    one address and no text for two; and unmarshalling what was marshalled writes that
    address to the receiver. *)
Theorem address_canonical :
  (forall s a, UnmarshalChecksumAddress s = Ok a <-> isAddress a /\ s = Address_String a)
  /\ forall a a0 text, isAddress a -> MarshalText a = Ok text -> UnmarshalText text a0 = (Ok tt, a).
Proof using H_digest.
  split.
  - intros s a. split; [|intros [Ha ->]; by apply Unmarshal_String].
    unfold UnmarshalChecksumAddress. destruct (b32Decode None s) as [d|e|m] eqn:Ed; [|done..].
    destruct (Nat.ltb_spec (length d) addressLength) as [|Hl]; [done|]. case_bool_decide as Hc; [|done].
    case_bool_decide as Hs; [|done]. intros [= <-]. cbn [negb] in *. split; [|done]. split.
    + apply Forall_take. by eapply b32Loop_bytes; [|exact Ed].
    + rewrite length_take. lia.
  - intros a a0 text Ha [= <-]. unfold UnmarshalText. by rewrite ofCodes_codes, Unmarshal_String.
Qed.
End Address.

(** ** Witness *)

Definition toyHash (b : bytes) : bytes := replicate 32 (foldr (λ x s, (x + s) mod 256) 7 b).
Lemma toyHash_digest b : Forall is_byte (toyHash b) /\ length (toyHash b) = 32%nat.
Proof.
  split; [|done]. apply Forall_replicate. destruct b as [|x b]; [unfold is_byte; cbn; lia|]. cbn. unfold is_byte. by apply Z.mod_pos_bound.
Qed.
Definition addr1 : Address := Z.of_nat <$> seq 1 32.
Lemma address_canonical_witness :
  UnmarshalChecksumAddress toyHash (Address_String toyHash addr1) = Ok addr1
  /\ UnmarshalChecksumAddress toyHash (Address_String toyHash addr1 +:+ "A") = Err (Errorf "checksum verification failed")
  /\ UnmarshalText toyHash (codes (Address_String toyHash addr1)) [] = (Ok tt, addr1).
Proof.
  assert (isAddress addr1) as Ha by (split; [repeat constructor; unfold is_byte; cbn; lia|reflexivity]).
  split; [|split; [vm_compute; reflexivity|]].
  - apply (proj1 (address_canonical toyHash toyHash_digest)). split; [exact Ha|reflexivity].
  - apply (proj2 (address_canonical toyHash toyHash_digest)); [exact Ha|reflexivity].
Defined.
