(* ===== verification/AsmText.v ===== *)
(** The text side of the TEAL assembler (src/data/transactions/logic/assembler.go): lines,
    fields, literals and the functions of [argOps], on top of the emitters of [Assembler].

    [H] is the hash behind the checksum of addresses.  A function that reads [args[0]]
    without looking at the number of arguments is a run-time panic when there are none.
    Line numbers, which only occur in messages, and traces are left out. *)

From Stdlib Require Import Ascii String.
From S2P Require Import Prelude Config Basics Transactions Bookkeeping Teal Assembler GoText Address.
#[local] Open Scope Z_scope.

(** ** Names *)

(** [TxnFieldNames], the names of the enumeration in its order. *)
Definition TxnFieldNames : list string :=
  ["Sender"; "Fee"; "FirstValid"; "FirstValidTime"; "LastValid"; "Note"; "Lease"; "Receiver"; "Amount";
   "CloseRemainderTo"; "VotePK"; "SelectionPK"; "VoteFirst"; "VoteLast"; "VoteKeyDilution"; "Type"; "TypeEnum";
   "XferAsset"; "AssetAmount"; "AssetSender"; "AssetReceiver"; "AssetCloseTo"; "GroupIndex"; "TxID"].
Definition GlobalFieldNames : list string := ["MinTxnFee"; "MinBalance"; "MaxTxnLife"; "ZeroAddress"; "GroupSize"].
Definition TxnTypeNames : list string := ["unknown"; "pay"; "keyreg"; "acfg"; "axfer"; "afrz"].

Definition typeEnumDescriptions : list (string * string) :=
  [("unknown", "Unknown type. Invalid transaction."); ("pay", "Payment"); ("keyreg", "KeyRegistration");
   ("acfg", "AssetConfig"); ("axfer", "AssetTransfer"); ("afrz", "AssetFreeze")].
Definition TypeNameDescription (typeName : string) : string :=
  match List.find (λ ted, bool_decide (typeName = ted.1)) typeEnumDescriptions with
  | Some ted => ted.2
  | None => "invalid type name"
  end.

(** The maps from names to positions that [init] builds from these lists. *)
Definition positionIn (names : list string) (s : string) : option Z :=
  match list_find (λ n, n = s) names with Some (i, _) => Some (Z.of_nat i) | None => None end.
Definition txnFields (s : string) : option Z := positionIn TxnFieldNames s.
Definition globalFields (s : string) : option Z := positionIn GlobalFieldNames s.
Definition txnTypeIndexes (s : string) : option Z := positionIn TxnTypeNames s.
Definition txnTypeConstToUint64 (s : string) : option Z := positionIn (TypeNameDescription <$> TxnTypeNames) s.

(** ** Literals *)

(** [args[i]] *)
Definition argAt (args : list string) (i : nat) : result string :=
  match args !! i with Some a => Ok a | None => Panic "index out of range" end.

Definition base32DecdodeAnyPadding (x : string) : result bytes :=
  match b32Decode None x with
  | Ok v => Ok v
  | e => match b32Decode (Some 61) x with Ok v => Ok v | _ => e end
  end.

(** The text after the first [c]. *)
Fixpoint after (c : ascii) (s : string) : string :=
  match s with
  | EmptyString => EmptyString
  | String a s => if bool_decide (a = c) then s else after c s
  end.
(** [arg[open+1 : close]]; the names before the parenthesis hold no closing one. *)
Definition inParens (arg : string) : option string := before ")" (after "(" arg).

(** The value of the first literal and the number of arguments it takes. *)
Definition parseBinaryArgs (args : list string) : result (bytes * nat) :=
  arg ← argAt args 0;
  let second := match args !! 1%nat with Some a => Ok a | None => Err (Errorf "need literal after byte") end in
  if HasPrefix arg "base32(" || HasPrefix arg "b32(" then
    match inParens arg with
    | None => Err (Errorf "byte base32 arg lacks close paren")
    | Some x => val ← base32DecdodeAnyPadding x; Ok (val, 1%nat)
    end
  else if HasPrefix arg "base64(" || HasPrefix arg "b64(" then
    match inParens arg with
    | None => Err (Errorf "byte base64 arg lacks close paren")
    | Some x => val ← b64Decode x; Ok (val, 1%nat)
    end
  else if HasPrefix arg "0x" then val ← hexDecode (sdrop 2 arg); Ok (val, 1%nat)
  else if bool_decide (arg = "base32"%string) || bool_decide (arg = "b32"%string) then
    x ← second; val ← base32DecdodeAnyPadding x; Ok (val, 2%nat)
  else if bool_decide (arg = "base64"%string) || bool_decide (arg = "b64"%string) then
    x ← second; val ← b64Decode x; Ok (val, 2%nat)
  else Err (Errorf "byte arg did not parse").

(** The loop of [assembleByteCBlock]; every literal takes an argument at least. *)
Fixpoint parseLiterals (fuel : nat) (rest : list string) : result (list bytes) :=
  match fuel, rest with
  | S fuel, _ :: _ => r ← parseBinaryArgs rest; bvals ← parseLiterals fuel (drop r.2 rest); Ok (r.1 :: bvals)
  | _, _ => Ok []
  end.

(** ** The functions of argOps *)

Section Text.
Variable H : bytes -> bytes.

Definition asmFunc : Type := list string -> M OpStream unit.

Definition assembleInt : asmFunc := λ args,
  a ← lift (argAt args 0);
  match txnTypeConstToUint64 a with
  | Some te => Uint te
  | None =>
    match txnTypeIndexes a with
    | Some ty => Uint ty
    | None => val ← lift (ParseUint a); Uint val
    end
  end.
(** A number in the first argument. *)
Definition uintArg (args : list string) : M OpStream Z :=
  a ← lift (argAt args 0); lift (ParseUint a).
Definition assembleIntC : asmFunc := λ args, constIndex ← uintArg args; Intc constIndex.
Definition assembleByteC : asmFunc := λ args, constIndex ← uintArg args; Bytec constIndex.

Definition assembleByte : asmFunc := λ args,
  _ ← guardE (negb (length args =? 0)%nat) (Errorf "byte operation needs byte literal argument");
  r ← lift (parseBinaryArgs args);
  ByteLiteral r.1.

Definition assembleIntCBlock : asmFunc := λ args,
  _ ← write [0x20];
  _ ← write (PutUvarint (zlen args));
  forM (λ xs, cu ← lift (ParseUint xs); write (PutUvarint cu)) args.
Definition assembleByteCBlock : asmFunc := λ args,
  _ ← write [0x26];
  bvals ← lift (parseLiterals (length args) args);
  _ ← write (PutUvarint (zlen bvals));
  forM (λ bv, _ ← write (PutUvarint (zlen bv)); write bv) bvals.

Definition assembleAddr : asmFunc := λ args,
  _ ← guardE (length args =? 1)%nat (Errorf "addr operation needs one argument");
  a ← lift (argAt args 0);
  addr ← lift (UnmarshalChecksumAddress H a);
  ByteLiteral addr.
Definition assembleArg : asmFunc := λ args, val ← uintArg args; Arg val.
Definition assembleBnz : asmFunc := λ args,
  _ ← guardE (length args =? 1)%nat (Errorf "bnz operation needs label argument");
  label ← lift (argAt args 0);
  emitBnz label.
Definition assembleLoad : asmFunc := λ args, val ← uintArg args; emitLoad val.
Definition assembleStore : asmFunc := λ args, val ← uintArg args; emitStore val.
Definition assembleTxn : asmFunc := λ args,
  _ ← guardE (length args =? 1)%nat (Errorf "txn expects one argument");
  a ← lift (argAt args 0);
  match txnFields a with None => throw (Errorf "txn unknown arg") | Some val => Txn val end.
Definition assembleGtxn : asmFunc := λ args,
  _ ← guardE (length args =? 2)%nat (Errorf "gtxn expects two arguments");
  gtid ← uintArg args;
  a ← lift (argAt args 1);
  match txnFields a with None => throw (Errorf "gtxn unknown arg") | Some val => Gtxn gtid val end.
Definition assembleGlobal : asmFunc := λ args,
  _ ← guardE (length args =? 1)%nat (Errorf "global expects one argument");
  a ← lift (argAt args 0);
  match globalFields a with None => throw (Errorf "global unknown arg") | Some val => Global val end.

Definition argOps : list (string * asmFunc) :=
  [("int", assembleInt); ("intc", assembleIntC); ("intcblock", assembleIntCBlock); ("byte", assembleByte);
   ("bytec", assembleByteC); ("bytecblock", assembleByteCBlock); ("addr", assembleAddr); ("arg", assembleArg);
   ("txn", assembleTxn); ("gtxn", assembleGtxn); ("global", assembleGlobal); ("bnz", assembleBnz);
   ("load", assembleLoad); ("store", assembleStore)].

(** ** Lines *)

Fixpoint filterFieldsForLineComment (fields : list string) : list string :=
  match fields with
  | [] => []
  | s :: fields => if HasPrefix s "//" then [] else s :: filterFieldsForLineComment fields
  end.

(** The last character of a text and what comes before it. *)
Fixpoint splitLast (s : string) : option (string * ascii) :=
  match s with
  | EmptyString => None
  | String c s => match splitLast s with None => Some (EmptyString, c) | Some (p, l) => Some (String c p, l) end
  end.

Definition assembleOpString (opstring : string) (args : list string) : M OpStream unit :=
  match List.find (λ p, bool_decide (p.1 = opstring)) argOps with
  | Some (_, argf) => argf args
  | None =>
    match List.find (λ p, bool_decide (p.1 = opstring)) plainOps with
    | Some _ => emitOp opstring
    | None =>
      match splitLast opstring with
      | None => lift (Panic "index out of range")
      | Some (label, c) =>
        if bool_decide (c = ":"%char) then SetLabelHere label else throw (Errorf "unknown opcode")
      end
    end
  end.

(** One turn of the loop over the lines. *)
Definition assembleText (line : string) : M OpStream unit :=
  if slen line =? 0 then mret tt
  else if HasPrefix line "//" then mret tt
  else match filterFieldsForLineComment (Fields line) with
  | [] => mret tt
  | opstring :: args => assembleOpString opstring args
  end.

(** The error of the scanner is not looked at: a line that is too long ends the program. *)
Definition Assemble (fin : string) : M OpStream unit :=
  _ ← forM assembleText (Scan fin);
  resolveLabels.

Definition AssembleString (text : string) : result bytes :=
  match Assemble text OpStream_zero with
  | (Ok _, ops) => Ok (Bytes ops)
  | (Err e, _) => Err e
  | (Panic m, _) => Panic m
  end.
End Text.
