(* ===== verification/AsmTextSpec.v ===== *)
(** The text side of the assembler reads lines: whatever text is assembled is a list of
    [Line]s assembled by the emitters, and the text a line is printed as is read back as
    that line. *)

From Stdlib Require Import Ascii String.
From S2P Require Import Prelude Config Basics Transactions Bookkeeping Teal TealSpec Assembler.
From S2P Require Import GoText GoTextSpec Address AsmText.
#[local] Open Scope Z_scope.

(** ** What literals can be *)

Lemma parseDigits_u64 base s : forall n v, u64 n -> parseDigits base n s = Ok v -> u64 v.
Proof.
  induction s as [|c s IH]; intros n v Hn H; cbn [parseDigits] in H; [by injection H as <-|].
  destruct (digitVal c); [|done]. repeat (case_match; [done|]). eapply IH; [|exact H]. apply wrap64_range.
Qed.
Lemma ParseUint_u64 s v : ParseUint s = Ok v -> u64 v.
Proof.
  assert (u64 0) by (unfold u64; lia).
  unfold ParseUint. intros. repeat case_match; simplify_eq; eauto using parseDigits_u64.
Qed.

Lemma fromHexChar_range c a : fromHexChar c = Some a -> 0 <= a < 16.
Proof. unfold fromHexChar. intros. repeat case_match; simplify_eq; bool_hyps; lia. Qed.
Lemma hexLoop_bytes n : forall s v, (length s <= n)%nat -> hexLoop s = Ok v -> Forall is_byte v.
Proof.
  induction n as [|n IH]; intros [|x [|y s]] v Hl H; cbn in Hl, H; simplify_eq; [constructor|lia|constructor|].
  destruct (fromHexChar x) as [a|] eqn:Ea; [|done]. destruct (fromHexChar y) as [b|] eqn:Eb; [|done].
  apply result_bind_Ok in H as (rest & H1 & [= <-]). apply fromHexChar_range in Ea, Eb. constructor; [|by eapply IH; [|exact H1]; lia].
  unfold is_byte. rewrite lor_disjoint by (change (2 ^ 4) with 16; lia). change (2 ^ 4) with 16. lia.
Qed.
Lemma hexDecode_bytes s v : hexDecode s = Ok v -> Forall is_byte v.
Proof. by eapply hexLoop_bytes. Qed.

Lemma land_byte x : is_byte (Z.land x 0xff).
Proof. change 0xff with (Z.ones 8). rewrite Z.land_ones by lia. by apply Z.mod_pos_bound. Qed.
Lemma b64Pack_bytes dbuf : Forall is_byte (b64Pack dbuf).
Proof. unfold b64Pack. apply Forall_take. repeat apply Forall_cons_2; auto using land_byte. Qed.
Lemma endOfText_Ok src r v : endOfText src r = Ok v -> v = r.
Proof. unfold endOfText. intros. case_match; by simplify_eq. Qed.
Lemma b64Loop_bytes src : forall dbuf v, b64Loop src dbuf = Ok v -> Forall is_byte v.
Proof.
  induction src as [|c src IH]; intros dbuf v H; cbn [b64Loop] in H; [by case_match; simplify_eq|].
  destruct (b64Val c); [destruct (_ =? 3)%nat|].
  - apply result_bind_Ok in H as (rest & H1 & [= <-]). apply Forall_app. eauto using b64Pack_bytes.
  - eauto.
  - destruct (isNewline c); [by eauto|]. repeat (case_match; try done); apply endOfText_Ok in H as ->; apply b64Pack_bytes.
Qed.
Lemma b32Decode_bytes pad s v : b32Decode pad s = Ok v -> Forall is_byte v.
Proof. by apply b32Loop_bytes. Qed.
Lemma anyPadding_bytes s v : base32DecdodeAnyPadding s = Ok v -> Forall is_byte v.
Proof. unfold base32DecdodeAnyPadding. intros. repeat case_match; simplify_eq; eauto using b32Decode_bytes. Qed.
Lemma address_bytes H s v : UnmarshalChecksumAddress H s = Ok v -> Forall is_byte v.
Proof. unfold UnmarshalChecksumAddress. intros. repeat case_match; simplify_eq. apply Forall_take. eauto using b32Decode_bytes. Qed.

Lemma literal_bytes args r : parseBinaryArgs args = Ok r -> Forall is_byte r.1.
Proof.
  unfold parseBinaryArgs. intros H. apply result_bind_Ok in H as (arg & _ & H).
  repeat case_match; try done; repeat (apply result_bind_Ok in H as (? & ? & H)); simplify_eq;
    eauto using anyPadding_bytes, hexDecode_bytes, (b64Loop_bytes).
  all: cbn; eapply b64Loop_bytes; eassumption.
Qed.
Lemma literals_bytes fuel : forall args bs, parseLiterals fuel args = Ok bs -> Forall (Forall is_byte) bs.
Proof.
  induction fuel as [|fuel IH]; intros args bs H; cbn [parseLiterals] in H; [by injection H as <-|].
  destruct args; [by injection H as <-|]. apply result_bind_Ok in H as (r & H1 & H). apply result_bind_Ok in H as (bvals & H2 & [= <-]).
  constructor; eauto using literal_bytes.
Qed.

(** ** Every text is a list of lines *)

Definition wfLine (l : Line) : Prop :=
  match l with
  | LInt v | LIntC v | LByteC v | LArg v | LLoad v | LStore v => u64 v
  | LIntCBlock vs => Forall u64 vs
  | LByte b => Forall is_byte b
  | LByteCBlock bs => Forall (Forall is_byte) bs
  | LTxn f | LGlobal f => 0 <= f
  | LGtxn g f => u64 g /\ 0 <= f
  | LBnz _ | LOp _ | LLabel _ => True
  end.

(** [l] does what the action does when it succeeds. *)
Definition asLine (m : M OpStream unit) : Prop :=
  forall ops ops', m ops = (Ok tt, ops') -> exists l, wfLine l /\ assembleLine l ops = (Ok tt, ops').

Lemma positionIn_range names s i : positionIn names s = Some i -> 0 <= i < zlen names.
Proof.
  unfold positionIn. destruct (list_find _ _) as [[k n]|] eqn:E; [|done]. intros [= <-].
  apply list_find_Some in E as (E & _). apply lookup_lt_Some in E. unfold zlen. lia.
Qed.
Lemma position_u64 names s i : zlen names < 2 ^ 64 -> positionIn names s = Some i -> u64 i.
Proof. intros Hl H%positionIn_range. unfold u64. lia. Qed.

Lemma lift_bind_Ok {A} (r : result A) (f : A -> M OpStream unit) ops ops' :
  (lift r ≫= f) ops = (Ok tt, ops') <-> exists a, r = Ok a /\ f a ops = (Ok tt, ops').
Proof.
  rewrite M_bind_Ok. unfold lift. split; [intros (a & s & [= -> <-] & H); eauto|intros (a & -> & H); eauto].
Qed.
Lemma guard_bind_Ok (b : bool) e (f : unit -> M OpStream unit) ops ops' :
  (guardE b e ≫= f) ops = (Ok tt, ops') <-> b = true /\ f tt ops = (Ok tt, ops').
Proof.
  rewrite M_bind_Ok. setoid_rewrite guardE_Ok. split; [intros ([] & s & [-> ->] & H); eauto|intros [-> H]; eauto].
Qed.
Lemma uintArg_Ok args (f : Z -> M OpStream unit) ops ops' :
  (uintArg args ≫= f) ops = (Ok tt, ops') -> exists v, u64 v /\ f v ops = (Ok tt, ops').
Proof.
  intros (v & s & H & Hf)%M_bind_Ok. unfold uintArg in H. apply M_bind_Ok in H as (a & s1 & [= Ha <-] & [= Hv <-]).
  eauto using ParseUint_u64.
Qed.
Ltac steps := repeat match goal with
  | H : (lift _ ≫= _) _ = (Ok tt, _) |- _ => apply lift_bind_Ok in H as (? & ? & H)
  | H : (guardE _ _ ≫= _) _ = (Ok tt, _) |- _ => apply guard_bind_Ok in H as [? H]
  | H : (uintArg _ ≫= _) _ = (Ok tt, _) |- _ => apply uintArg_Ok in H as (? & ? & H)
  end.

(** Writing the items of a block one by one. *)
Lemma write_write a b ops : (write a ≫= λ _, write b) ops = write (a ++ b) ops.
Proof. unfold mbind, M_bind, write, modify. cbn. by rewrite app_assoc. Qed.
Lemma writes {A} (f : A -> bytes) l : forall b ops, (write b ≫= λ _, forM (λ x, write (f x)) l) ops = write (b ++ concat (f <$> l)) ops.
Proof.
  induction l as [|x l IH]; intros b ops; cbn [forM fmap list_fmap concat].
  { rewrite app_nil_r. unfold mbind, M_bind, write, modify. by destruct ops. }
  rewrite app_assoc, <- IH. unfold mbind, M_bind, write, modify. cbn. by rewrite <- app_assoc.
Qed.
Lemma forM_ext {S A} (f g : A -> M S unit) l : (forall x s, f x s = g x s) -> forall s, forM f l s = forM g l s.
Proof. intros E. induction l as [|x l IH]; intros s; [done|]. cbn [forM]. unfold mbind, M_bind. rewrite E. repeat case_match; auto. Qed.

Lemma bind_ext {S A B} (m : M S A) (f g : A -> M S B) s : (forall a s, f a s = g a s) -> (m ≫= f) s = (m ≫= g) s.
Proof. intros E. unfold mbind, M_bind. repeat case_match; auto. Qed.
Lemma lift_run {S A B} (a : A) (f : A -> M S B) s : (lift (Ok a) ≫= f) s = f a s.
Proof. reflexivity. Qed.
Lemma guard_run {S B} e (f : unit -> M S B) s : (guardE true e ≫= f) s = f tt s.
Proof. reflexivity. Qed.
Lemma argAt_0 x r : argAt (x :: r) 0 = Ok x.
Proof. reflexivity. Qed.
Lemma argAt_1 x y r : argAt (x :: y :: r) 1 = Ok y.
Proof. reflexivity. Qed.
(** An opcode, a count and the items. *)
Lemma blockWrites {A} op n (f : A -> bytes) l ops :
  (_ ← write [op]; _ ← write n; forM (λ x, write (f x)) l) ops = write (op :: n ++ concat (f <$> l)) ops.
Proof.
  change (op :: n ++ ?r) with ([op] ++ n ++ r). rewrite <- write_write. apply bind_ext. intros [] s. apply writes.
Qed.

Lemma parseInts args : forall ops ops', forM (λ xs, cu ← lift (ParseUint xs); write (PutUvarint cu)) args ops = (Ok tt, ops') ->
  exists vs, Forall u64 vs /\ length vs = length args /\ forM (λ v, write (PutUvarint v)) vs ops = (Ok tt, ops').
Proof.
  induction args as [|a args IH]; intros ops ops' H; cbn [forM] in H; [exists []; by cbn|].
  apply M_bind_Ok in H as ([] & s & H & Hr). steps. destruct (IH _ _ Hr) as (vs & HF & Hl & Hv).
  exists (x :: vs). split_and!; [constructor; eauto using ParseUint_u64|cbn; lia|]. cbn [forM]. apply M_bind_Ok. eauto.
Qed.

Section Text.
Context (H : bytes -> bytes).

Lemma argOps_lines : Forall (λ p, forall args, asLine (p.2 args)) (argOps H).
Proof.
  unfold argOps. repeat apply Forall_cons_2; try apply Forall_nil_2; cbn [snd]; intros args ops ops' E.
  - unfold assembleInt in E. steps. destruct (txnTypeConstToUint64 x) eqn:E1; [exists (LInt z)|destruct (txnTypeIndexes x) eqn:E2; [exists (LInt z)|]].
    + split; [by eapply position_u64, E1|done].
    + split; [by eapply position_u64, E2|done].
    + steps. exists (LInt x0). split; [by eapply ParseUint_u64|done].
  - unfold assembleIntC in E. steps. by exists (LIntC x).
  - unfold assembleIntCBlock in E. apply M_bind_Ok in E as ([] & s & E1 & E). apply M_bind_Ok in E as ([] & s1 & E2 & E).
    destruct (parseInts _ _ _ E) as (vs & HF & Hl & Hv). exists (LIntCBlock vs). split; [done|]. cbn [assembleLine]. unfold emitIntCBlock.
    rewrite <- blockWrites. replace (zlen vs) with (zlen args) by (unfold zlen; lia).
    apply M_bind_Ok. exists tt, s. split; [done|]. apply M_bind_Ok. eauto.
  - unfold assembleByte in E. steps. exists (LByte x.1). split; [by eapply literal_bytes|done].
  - unfold assembleByteC in E. steps. by exists (LByteC x).
  - unfold assembleByteCBlock in E. apply M_bind_Ok in E as ([] & s & E1 & E). steps. exists (LByteCBlock x). split; [by eapply literals_bytes|].
    cbn [assembleLine]. unfold emitByteCBlock.
    rewrite <- blockWrites. apply M_bind_Ok. exists tt, s. split; [done|]. rewrite <- E. apply bind_ext. intros [] st.
    apply forM_ext. intros bv st'. by rewrite write_write.
  - unfold assembleAddr in E. steps. exists (LByte x0). split; [by eapply address_bytes|done].
  - unfold assembleArg in E. steps. by exists (LArg x).
  - unfold assembleTxn in E. steps. destruct (txnFields x) as [f|] eqn:Ef; [|done]. exists (LTxn f). split; [|done]. by apply positionIn_range in Ef as [? _].
  - unfold assembleGtxn in E. steps. destruct (txnFields x0) as [f|] eqn:Ef; [|done]. exists (LGtxn x f). split; [|done]. by apply positionIn_range in Ef as [? _].
  - unfold assembleGlobal in E. steps. destruct (globalFields x) as [f|] eqn:Ef; [|done]. exists (LGlobal f). split; [|done]. by apply positionIn_range in Ef as [? _].
  - unfold assembleBnz in E. steps. by exists (LBnz x).
  - unfold assembleLoad in E. steps. by exists (LLoad x).
  - unfold assembleStore in E. steps. by exists (LStore x).
Qed.

Lemma opString_line opstring args : asLine (assembleOpString H opstring args).
Proof.
  intros ops ops' E. unfold assembleOpString in E. destruct (List.find _ (argOps H)) as [[n f]|] eqn:Ef.
  { apply find_some in Ef as [Hin _]. pose proof argOps_lines as HF. rewrite List.Forall_forall in HF. exact (HF _ Hin args ops ops' E). }
  destruct (List.find _ plainOps) eqn:Ep; [by exists (LOp opstring)|].
  destruct (splitLast opstring) as [[label c]|]; [|done]. case_bool_decide; [|done]. by exists (LLabel label).
Qed.

Lemma lines_of_text ls : forall ops ops', forM (assembleText H) ls ops = (Ok tt, ops') ->
  exists lines, Forall wfLine lines /\ forM assembleLine lines ops = (Ok tt, ops').
Proof.
  induction ls as [|t ls IH]; intros ops ops' E; cbn [forM] in E; [exists []; by split|].
  apply M_bind_Ok in E as ([] & s & E1 & E2). destruct (IH _ _ E2) as (lines & HF & Hr).
  assert (s = ops \/ exists l, wfLine l /\ assembleLine l ops = (Ok tt, s)) as [->|(l & Hl & El)]; [|by exists lines|].
  - unfold assembleText in E1. destruct (_ =? 0); [left; by injection E1|]. destruct (HasPrefix t "//"); [left; by injection E1|].
    destruct (filterFieldsForLineComment (Fields t)); [left; by injection E1|]. right. by eapply opString_line.
  - exists (l :: lines). split; [by constructor|]. cbn [forM]. apply M_bind_Ok. eauto.
Qed.

(** A text that assembles is a list of lines that assembles to the same program. *)
Lemma AssembleString_lines text p : AssembleString H text = Ok p ->
  exists lines, Forall wfLine lines /\ assembleProgram lines = Ok p.
Proof.
  unfold AssembleString, assembleProgram, assembleLines. destruct (Assemble H text OpStream_zero) as [[[]|e|m] ops] eqn:E; [|done..].
  intros [= <-]. unfold Assemble in E. apply M_bind_Ok in E as ([] & s & E1 & E2). destruct (lines_of_text _ _ _ E1) as (lines & HF & Hr).
  exists lines. split; [done|]. unfold mbind, M_bind. by rewrite Hr, E2.
Qed.
End Text.
