(* ===== verification/Disasm.v ===== *)
(** The TEAL disassembler (src/data/transactions/logic/assembler.go, from
    [disassembleState] on; the parsers of constant blocks are in [Teal]).

    Writing to the [strings.Builder] cannot fail.  A handler returns the new state, [Err]
    for [dis.err], and [Panic] where it indexes past the program.  [Disassemble] returns the
    text and the error, as an invalid opcode gives both. *)

From Stdlib Require Import Ascii String.
From S2P Require Import Prelude Config Basics Transactions Bookkeeping Teal Assembler GoText AsmText.
#[local] Open Scope Z_scope.

Record disassembleState := mkDis {
  dis_program : bytes;
  dis_pc : Z;
  dis_out : string;
  dis_labelCount : Z;
  dis_pendingLabels : gmap Z string;
  dis_nextpc : Z
}.
#[export] Instance disassembleState_eta : Eta disassembleState := λ r,
  mkDis (dis_program r) (dis_pc r) (dis_out r) (dis_labelCount r) (dis_pendingLabels r) (dis_nextpc r).

Definition endl : string := String newlineChar EmptyString.
Definition disPut (s : string) (dis : disassembleState) : disassembleState := dis <| dis_out ::= λ o, o +:+ s |>.
Definition disNext (n : Z) (dis : disassembleState) : disassembleState := dis <| dis_nextpc := n |>.
Definition putLabel (label : string) (target : Z) (dis : disassembleState) : disassembleState :=
  dis <| dis_pendingLabels ::= <[target := label]> |>.

Definition disFunc : Type := disassembleState -> result disassembleState.
(** [dis.program[dis.pc+i]] *)
Definition disByte (i : Z) (dis : disassembleState) : result Z := byteAt (dis_program dis) (dis_pc dis + i).

(** An instruction with one byte, printed in decimal. *)
Definition disNumber (name : string) : disFunc := λ dis,
  b ← disByte 1 dis;
  Ok (disPut (name +:+ " " +:+ FormatUint b +:+ endl) (disNext (dis_pc dis + 2) dis)).

Definition disIntcblock : disFunc := λ dis,
  r ← parseIntcblock (dis_program dis) (dis_pc dis);
  Ok (disPut ("intcblock" +:+ foldr (λ iv s, " " +:+ FormatUint iv +:+ s) EmptyString r.1 +:+ endl) (disNext r.2 dis)).
Definition disIntc : disFunc := disNumber "intc".
Definition disBytecblock : disFunc := λ dis,
  r ← parseBytecBlock (dis_program dis) (dis_pc dis);
  Ok (disPut ("bytecblock" +:+ foldr (λ bv s, " 0x" +:+ hexEncode bv +:+ s) EmptyString r.1 +:+ endl) (disNext r.2 dis)).
Definition disBytec : disFunc := disNumber "bytec".
Definition disArg : disFunc := disNumber "arg".
Definition disTxn : disFunc := λ dis,
  txarg ← disByte 1 dis;
  match TxnFieldNames !! Z.to_nat txarg with
  | None => Err (Errorf "invalid txn arg index")
  | Some n => Ok (disPut ("txn " +:+ n +:+ endl) (disNext (dis_pc dis + 2) dis))
  end.
Definition disGtxn : disFunc := λ dis,
  gi ← disByte 1 dis;
  txarg ← disByte 2 dis;
  match TxnFieldNames !! Z.to_nat txarg with
  | None => Err (Errorf "invalid txn arg index")
  | Some n => Ok (disPut ("gtxn " +:+ FormatUint gi +:+ " " +:+ n +:+ endl) (disNext (dis_pc dis + 3) dis))
  end.
Definition disGlobal : disFunc := λ dis,
  garg ← disByte 1 dis;
  match GlobalFieldNames !! Z.to_nat garg with
  | None => Err (Errorf "invalid global arg index")
  | Some n => Ok (disPut ("global " +:+ n +:+ endl) (disNext (dis_pc dis + 2) dis))
  end.
Definition labelName (n : Z) : string := "label" +:+ FormatUint n.
Definition disBnz : disFunc := λ dis,
  offset ← branchOffset (dis_program dis) (dis_pc dis);
  let target := offset + dis_pc dis + 3 in
  let dis := dis <| dis_labelCount ::= Z.succ |> in
  let label := labelName (dis_labelCount dis) in
  Ok (disPut ("bnz " +:+ label +:+ endl) (putLabel label target (disNext (dis_pc dis + 3) dis))).
Definition disLoad : disFunc := disNumber "load".
Definition disStore : disFunc := disNumber "store".

Definition disassemblers : list (string * disFunc) :=
  [("intcblock", disIntcblock); ("intc", disIntc); ("bytecblock", disBytecblock); ("bytec", disBytec); ("arg", disArg);
   ("txn", disTxn); ("gtxn", disGtxn); ("global", disGlobal); ("bnz", disBnz); ("load", disLoad); ("store", disStore)].

(** The names of [OpSpecs] by opcode. *)
Definition opNames : list (Z * string) :=
  ((λ p, (p.2.1.1, p.1)) <$> plainOps)
  ++ [(0x20, "intcblock"); (0x21, "intc"); (0x26, "bytecblock"); (0x27, "bytec"); (0x2c, "arg"); (0x31, "txn");
      (0x32, "global"); (0x33, "gtxn"); (0x34, "load"); (0x35, "store"); (0x40, "bnz")].
Definition opName (opcode : Z) : option string := snd <$> List.find (λ p, p.1 =? opcode) opNames.

(** One turn of the loop.  A label that waits for this position is printed first. *)
Definition disLabel (dis : disassembleState) : disassembleState :=
  match dis_pendingLabels dis !! dis_pc dis with
  | Some label => disPut (label +:+ ":" +:+ endl) dis
  | None => dis
  end.
(** The state after an instruction, or the error at which the loop stops; [inr] is an opcode
    that does not exist, at which the text so far is kept. *)
Definition disOp (dis : disassembleState) : result (disassembleState + disassembleState * error) :=
  op ← disByte 0 dis;
  match opName op with
  | None => Ok (inr (disPut ("invalid opcode " +:+ hexEncode [op] +:+ " at pc=" +:+ FormatUint (dis_pc dis) +:+ endl) dis,
                     Errorf "invalid opcode"))
  | Some name =>
    match List.find (λ p, bool_decide (p.1 = name)) disassemblers with
    | Some (_, handler) => dis ← handler dis; Ok (inl (dis <| dis_pc := dis_nextpc dis |>))
    | None => Ok (inl (disPut (name +:+ endl) dis <| dis_pc ::= Z.succ |>))
    end
  end.
Definition disStep (dis : disassembleState) : result (disassembleState + disassembleState * error) := disOp (disLabel dis).

(** Every instruction moves the counter: a turn per byte is enough. *)
Fixpoint disLoop (fuel : nat) (dis : disassembleState) : result (disassembleState * option error) :=
  if dis_pc dis <? zlen (dis_program dis) then
    match fuel with
    | O => Panic "out of fuel"
    | S fuel =>
      r ← disStep dis;
      match r with inl dis => disLoop fuel dis | inr (dis, e) => Ok (dis, Some e) end
    end
  else Ok (dis, None).

Definition disInit (program : bytes) : disassembleState := mkDis program 0 EmptyString 0 ∅ 0.

(** The run after the version, which takes [vlen] bytes. *)
Definition disRun (program : bytes) (version vlen : Z) : result (disassembleState * option error) :=
  disLoop (length program) (disPut ("// version " +:+ FormatUint version +:+ endl) (disInit program) <| dis_pc := vlen |>).

Definition Disassemble (program : bytes) : result (string * option error) :=
  let '(version, vlen) := Uvarint program in
  if vlen <=? 0 then Ok ("// invalid version" +:+ endl, None)
  else
    match disRun program version vlen with
    | Ok (dis, e) => Ok (dis_out dis, e)
    | Err e => Ok (EmptyString, Some e)
    | Panic m => Panic m
    end.

(** The table of names is that of the interpreter. *)
Lemma opNames_OpSpecs computeID sha256 keccak256 sha512_256 verifyMsg opcode :
  opName opcode = os_Name <$> opsByOpcode computeID sha256 keccak256 sha512_256 verifyMsg opcode.
Proof.
  unfold opName, opsByOpcode, opNames, plainOps, OpSpecs. cbn [fmap list_fmap app List.find os_Opcode fst snd].
  repeat match goal with |- context [?a =? opcode] => destruct (Z.eqb_spec a opcode); [subst; reflexivity|] end. done.
Qed.

Example Disassemble_1 : Disassemble [1; 0x20; 2; 7; 0xac; 2; 0x22; 0x40; 0; 1; 0x00; 0x28; 0x21; 4] = Ok (
"// version 1
intcblock 7 300
intc_0
bnz label1
err
label1:
bytec_0
intc 4
"%string, None).
Proof. vm_compute. reflexivity. Qed.
Example Disassemble_2 : Disassemble [1; 0x21] = Panic "index out of range".
Proof. vm_compute. reflexivity. Qed.
