(* ===== verification/AsmPrint.v ===== *)
(** Printing and reading canonical lines.

    [canon] are the lines the disassembler prints, [printLine] is their text; the assembler
    reads the text of a line as that line. *)

From Stdlib Require Import Ascii String.
From S2P Require Import Prelude Config Basics Transactions Bookkeeping Teal TealSpec Assembler.
From S2P Require Import GoText GoTextSpec Address AsmText AsmTextSpec Disasm.
#[local] Open Scope Z_scope.

(** ** Lines as they are printed *)

Definition canon (l : Line) : Prop :=
  match l with
  | LIntC i | LByteC i | LArg i => 4 <= i <= 255
  | LLoad v | LStore v => 0 <= v <= 255
  | LIntCBlock vs => Forall u64 vs
  | LByteCBlock bs => Forall (Forall is_byte) bs
  | LTxn f => 0 <= f < 24
  | LGtxn g f => 0 <= g <= 255 /\ 0 <= f < 24
  | LGlobal f => 0 <= f < 5
  | LOp name => name ∈ plainOps.*1
  | LBnz label | LLabel label => exists n, u64 n /\ label = labelName n
  | LInt _ | LByte _ => False
  end.

Definition fieldName (names : list string) (f : Z) : string := nth (Z.to_nat f) names EmptyString.
Definition printWords (l : Line) : string * list string :=
  match l with
  | LInt v => ("int", [FormatUint v])
  | LIntC i => ("intc", [FormatUint i])
  | LIntCBlock vs => ("intcblock", FormatUint <$> vs)
  | LByte b => ("byte", ["0x" +:+ hexEncode b])
  | LByteC i => ("bytec", [FormatUint i])
  | LByteCBlock bs => ("bytecblock", (λ b, "0x" +:+ hexEncode b) <$> bs)
  | LArg v => ("arg", [FormatUint v])
  | LTxn f => ("txn", [fieldName TxnFieldNames f])
  | LGtxn g f => ("gtxn", [FormatUint g; fieldName TxnFieldNames f])
  | LGlobal f => ("global", [fieldName GlobalFieldNames f])
  | LBnz label => ("bnz", [label])
  | LLoad v => ("load", [FormatUint v])
  | LStore v => ("store", [FormatUint v])
  | LOp name => (name, [])
  | LLabel label => (label +:+ ":", [])
  end.
Definition printLine (l : Line) : string := (printWords l).1 +:+ blanks (printWords l).2.

(** Words that are not comments. *)
Definition okWord (s : string) : Prop := word s /\ HasPrefix s "//" = false.
Definition okWordb (s : string) : bool :=
  forallb (λ z, (33 <=? z) && (z <=? 126)) (codes s) && negb (bool_decide (s = EmptyString)) && negb (HasPrefix s "//").
Lemma okWordb_spec s : okWordb s = true -> okWord s.
Proof.
  unfold okWordb. intros [[H1 H2]%andb_true_iff H3]%andb_true_iff. apply negb_true_iff in H2, H3. apply bool_decide_eq_false in H2.
  split; [|done]. split; [|done]. unfold plain. apply Is_true_true in H1. apply forallb_True in H1. eapply Forall_impl; [exact H1|]. cbn. intros z Hz.
  apply Is_true_true in Hz. bool_hyps. lia.
Qed.

Lemma okWord_cons c s : 33 <= ord c <= 126 -> c <> "/"%char -> plain s -> okWord (String c s).
Proof.
  intros Hc Hn Hs. split; [split; [by constructor|done]|]. unfold HasPrefix. cbn [String.prefix]. by destruct (ascii_dec "/" c).
Qed.
Lemma decimal_plain s : Forall decimal (codes s) -> plain s.
Proof. intros H. eapply Forall_impl; [exact H|]. unfold decimal. cbn. lia. Qed.
Lemma okWord_number n : u64 n -> okWord (FormatUint n).
Proof.
  intros Hn. destruct (FormatUint_digits n Hn) as [HF Hne]. destruct (FormatUint n) as [|c s]; [done|].
  apply Forall_cons in HF as [Hc HF]. unfold decimal in Hc. apply okWord_cons; [lia| |by apply decimal_plain]. intros ->. destruct Hc as [Hc _]. by destruct Hc.
Qed.
Lemma hexChar_plain d : 0 <= d < 16 -> 33 <= ord (hexChar d) <= 126.
Proof.
  intros Hd. assert (Forall (λ d, 33 <= ord (hexChar d) <= 126) (seqZ 0 16)) as H by (apply (bool_decide_unpack _); vm_compute; exact I).
  rewrite Forall_forall in H. apply H, elem_of_seqZ. lia.
Qed.
Lemma hexEncode_plain b : Forall is_byte b -> plain (hexEncode b).
Proof.
  induction 1 as [|x b Hx _ IH]; [constructor|]. destruct (nibbles x Hx) as (_ & H1 & H2).
  cbn [hexEncode]. do 2 (apply Forall_cons; split; [by apply hexChar_plain|]). exact IH.
Qed.
Lemma okWord_hex b : Forall is_byte b -> okWord ("0x" +:+ hexEncode b).
Proof. intros HF. apply okWord_cons; [vm_compute; done|done|]. apply (plain_app "x"). split; [by repeat constructor|by apply hexEncode_plain]. Qed.
Lemma okWord_label n : u64 n -> okWord (labelName n).
Proof.
  intros Hn. unfold labelName. apply okWord_cons; [vm_compute; done|done|]. apply (plain_app "abel").
  split; [repeat constructor; vm_compute; done|]. by apply decimal_plain, FormatUint_digits.
Qed.
Lemma okWord_colon n : u64 n -> okWord (labelName n +:+ ":").
Proof.
  intros Hn. unfold labelName. rewrite app_assoc_s. apply okWord_cons; [vm_compute; done|done|]. apply (plain_app "abel").
  split; [repeat constructor; vm_compute; done|]. apply plain_app. split; [by apply decimal_plain, FormatUint_digits|by repeat constructor].
Qed.

(** The tables. *)
Lemma tables_ok : Forall (λ n, okWordb n = true) (plainOps.*1 ++ TxnFieldNames ++ GlobalFieldNames).
Proof. apply (bool_decide_unpack _). vm_compute. exact I. Qed.
Lemma okWord_op name : name ∈ plainOps.*1 -> okWord name.
Proof. intros H. apply okWordb_spec. pose proof tables_ok as HF. rewrite Forall_forall in HF. apply HF, elem_of_app. by left. Qed.
Lemma field_known names f : 0 <= f < zlen names -> fieldName names f ∈ names.
Proof. intros Hf. unfold fieldName. apply list_elem_of_In, nth_In. unfold zlen in Hf. lia. Qed.
Lemma okWord_field names f : names = TxnFieldNames \/ names = GlobalFieldNames -> 0 <= f < zlen names -> okWord (fieldName names f).
Proof.
  intros Hn Hf%field_known. apply okWordb_spec. pose proof tables_ok as HF. rewrite Forall_forall in HF. apply HF, elem_of_app. right.
  apply elem_of_app. destruct Hn as [->| ->]; auto.
Qed.
Lemma field_position names f : names = TxnFieldNames \/ names = GlobalFieldNames -> 0 <= f < zlen names ->
  positionIn names (fieldName names f) = Some f.
Proof.
  intros Hn Hf. assert (Forall (λ f, positionIn names (fieldName names f) = Some f) (seqZ 0 (zlen names))) as H.
  { destruct Hn as [->| ->]; apply (bool_decide_unpack _); vm_compute; exact I. }
  rewrite Forall_forall in H. apply H, elem_of_seqZ. lia.
Qed.

Lemma printWords_ok l : canon l -> okWord (printWords l).1 /\ Forall okWord (printWords l).2.
Proof.
  assert (forall v, 0 <= v <= 255 -> Forall okWord [FormatUint v]) as Hu
    by (intros v Hv; constructor; [apply okWord_number; unfold u64; lia|constructor]).
  destruct l; cbn [canon printWords fst snd]; intros H; try done; try (split; [by apply okWordb_spec|]).
  1,3,5,10,11: apply Hu; lia.
  - apply Forall_fmap. eapply Forall_impl; [exact H|]. apply okWord_number.
  - apply Forall_fmap. eapply Forall_impl; [exact H|]. apply okWord_hex.
  - constructor; [apply okWord_field; [by left|done]|constructor].
  - destruct H as [Hg Hf]. apply (Forall_app _ [_]). split; [by apply Hu|]. constructor; [apply okWord_field; [by left|done]|constructor].
  - constructor; [apply okWord_field; [by right|done]|constructor].
  - destruct H as (n & Hn & ->). constructor; [by apply okWord_label|constructor].
  - split; [by apply okWord_op|constructor].
  - destruct H as (n & Hn & ->). split; [by apply okWord_colon|constructor].
Qed.

(** ** Reading a printed line *)

Lemma comments_none ws : Forall okWord ws -> filterFieldsForLineComment ws = ws.
Proof. induction 1 as [|w ws [_ Hw] _ IH]; [done|]. cbn. by rewrite Hw, IH. Qed.
Lemma okWord_line w ws : okWord w -> HasPrefix (w +:+ blanks ws) "//" = false.
Proof.
  intros [[_ Hne] Hp]. unfold HasPrefix in *. destruct w as [|c [|d w]]; [done| |].
  - rewrite app_cons_s. cbn [String.prefix]. destruct (ascii_dec "/" c); [|done]. by destruct ws.
  - rewrite !app_cons_s. revert Hp. cbn [String.prefix]. destruct (ascii_dec "/" c); [|done]. destruct (ascii_dec "/" d); [|done].
    by destruct w.
Qed.

Section Read.
Context (H : bytes -> bytes).

Lemma text_words w ws ops : okWord w -> Forall okWord ws -> assembleText H (w +:+ blanks ws) ops = assembleOpString H w ws ops.
Proof.
  intros Hw HF. unfold assembleText. pose proof Hw as [[Hp Hne] _].
  assert (slen (w +:+ blanks ws) <> 0) as Hl.
  { destruct w as [|c w]; [done|]. rewrite app_cons_s. cbn [slen]. pose proof (slen_nonneg (w +:+ blanks ws)). lia. }
  rewrite (proj2 (Z.eqb_neq _ _)), okWord_line by done. rewrite Fields_blanks; [|by destruct Hw|].
  2:{ eapply Forall_impl; [exact HF|]. by intros ? []. }
  by rewrite comments_none by (by constructor).
Qed.

Lemma uintArg_number v r (f : Z -> M OpStream unit) ops : u64 v -> (uintArg (FormatUint v :: r) ≫= f) ops = f v ops.
Proof. intros Hv. unfold uintArg, mbind, M_bind, lift. change (argAt (?x :: r) 0) with (@Ok string x). cbn iota beta. by rewrite ParseUint_FormatUint. Qed.
Lemma ints_number vs : Forall u64 vs -> forall ops,
  forM (λ xs, cu ← lift (ParseUint xs); write (PutUvarint cu)) (FormatUint <$> vs) ops = forM (λ v, write (PutUvarint v)) vs ops.
Proof.
  induction 1 as [|v vs Hv _ IH]; intros ops; [done|]. cbn [fmap list_fmap forM].
  unfold mbind at 1 3, M_bind. unfold mbind at 1, M_bind, lift. rewrite ParseUint_FormatUint by done. cbn. apply IH.
Qed.
Lemma literal_hex b r : Forall is_byte b -> parseBinaryArgs (("0x" +:+ hexEncode b) :: r) = Ok (b, 1%nat).
Proof.
  intros Hb. unfold parseBinaryArgs. cbn [argAt lookup list_lookup mbind result_bind].
  assert (HasPrefix ("0x" +:+ hexEncode b) "0x" = true) as -> by (change (String.prefix "" (hexEncode b) = true); by destruct (hexEncode b)).
  change (sdrop 2 ("0x" +:+ hexEncode b)) with (hexEncode b). rewrite hexDecode_hexEncode by done. reflexivity.
Qed.
Lemma literals_hex bs : Forall (Forall is_byte) bs -> forall fuel, (length bs <= fuel)%nat ->
  parseLiterals fuel ((λ b, "0x" +:+ hexEncode b) <$> bs) = Ok bs.
Proof.
  induction 1 as [|b bs Hb _ IH]; intros fuel Hf; [by destruct fuel|]. destruct fuel as [|fuel]; [cbn in Hf; lia|].
  cbn [fmap list_fmap parseLiterals]. rewrite literal_hex by done. cbn [mbind result_bind fst snd drop].
  rewrite drop_0, IH by (cbn in Hf; lia). done.
Qed.

Lemma find_op name : name ∈ plainOps.*1 ->
  List.find (λ p, bool_decide (p.1 = name)) (argOps H) = None
  /\ is_Some (List.find (λ p, bool_decide (p.1 = name)) plainOps).
Proof.
  intros Hn. split.
  - assert (Forall (λ n, n ∉ plainOps.*1) (argOps H).*1) as HF by (cbn [argOps fmap list_fmap fst]; apply (bool_decide_unpack _); vm_compute; exact I).
    destruct (List.find _ _) as [[n f]|] eqn:E; [|done]. apply find_some in E as [Hin Hb]. apply bool_decide_eq_true in Hb. cbn in Hb. subst.
    rewrite Forall_forall in HF. exfalso. eapply HF, Hn. apply list_elem_of_fmap. exists (name, f). split; [done|by apply list_elem_of_In].
  - destruct (List.find _ _) eqn:E; [by eexists|]. apply list_elem_of_fmap in Hn as (p & -> & Hp%list_elem_of_In).
    eapply find_none in E; [|exact Hp]. by rewrite bool_decide_eq_true_2 in E.
Qed.

Lemma splitLast_snoc s c : splitLast (s +:+ String c EmptyString) = Some (s, c).
Proof. induction s as [|a s IH]; [done|]. rewrite app_cons_s. cbn [splitLast]. by rewrite IH. Qed.

(** No instruction ends with a colon. *)
Lemma label_not_op {A} (tbl : list (string * A)) label : Forall (λ n, snd <$> splitLast n <> Some ":"%char) tbl.*1 ->
  List.find (λ p, bool_decide (p.1 = label +:+ ":")) tbl = None.
Proof.
  intros HF. destruct (List.find _ _) as [[n f]|] eqn:E; [|done]. apply find_some in E as [Hin Hb]. apply bool_decide_eq_true in Hb.
  rewrite Forall_forall in HF. specialize (HF n). cbn in Hb. subst n. rewrite splitLast_snoc in HF. exfalso. apply HF; [|done].
  apply list_elem_of_fmap. eexists (_, f). split; [|by apply list_elem_of_In]. done.
Qed.

(** A canonical line is read back from its text. *)
Lemma read_line l ops : canon l -> assembleText H (printLine l) ops = assembleLine l ops.
Proof.
  intros Hc. destruct (printWords_ok l Hc) as [Hw HF]. unfold printLine. rewrite text_words by done.
  assert (forall v, 0 <= v <= 255 -> u64 v) as Hu by (unfold u64; lia).
  destruct l; cbn [canon printWords fst snd] in *; try done.
  - change (assembleOpString H "intc" ?a) with (assembleIntC a). unfold assembleIntC. rewrite uintArg_number by (apply Hu; lia). done.
  - change (assembleOpString H "intcblock" ?a) with (assembleIntCBlock a). unfold assembleIntCBlock. cbn [assembleLine]. unfold emitIntCBlock.
    rewrite <- blockWrites. replace (zlen (FormatUint <$> vs)) with (zlen vs) by (unfold zlen; by rewrite length_fmap).
    apply bind_ext. intros [] s. apply bind_ext. intros [] s'. by apply ints_number.
  - change (assembleOpString H "bytec" ?a) with (assembleByteC a). unfold assembleByteC. rewrite uintArg_number by (apply Hu; lia). done.
  - change (assembleOpString H "bytecblock" ?a) with (assembleByteCBlock a). unfold assembleByteCBlock. cbn [assembleLine]. unfold emitByteCBlock.
    rewrite <- blockWrites. apply bind_ext. intros [] s. rewrite literals_hex by (try done; by rewrite length_fmap).
    rewrite lift_run. apply bind_ext. intros [] s'. apply forM_ext. intros bv st. apply write_write.
  - change (assembleOpString H "arg" ?a) with (assembleArg a). unfold assembleArg. rewrite uintArg_number by (apply Hu; lia). done.
  - change (assembleOpString H "txn" ?a) with (assembleTxn a). unfold assembleTxn, txnFields. rewrite guard_run.
    rewrite argAt_0, lift_run, field_position by (try done; by left). done.
  - destruct Hc as [Hg Hf]. change (assembleOpString H "gtxn" ?a) with (assembleGtxn a). unfold assembleGtxn, txnFields. rewrite guard_run.
    rewrite uintArg_number by (by apply Hu). rewrite argAt_1, lift_run, field_position by (try done; by left). done.
  - change (assembleOpString H "global" ?a) with (assembleGlobal a). unfold assembleGlobal, globalFields. rewrite guard_run.
    rewrite argAt_0, lift_run, field_position by (try done; by right). done.
  - change (assembleOpString H "load" ?a) with (assembleLoad a). unfold assembleLoad. rewrite uintArg_number by (apply Hu; lia). done.
  - change (assembleOpString H "store" ?a) with (assembleStore a). unfold assembleStore. rewrite uintArg_number by (apply Hu; lia). done.
  - unfold assembleOpString. destruct (find_op _ Hc) as [-> [p ->]]. done.
  - unfold assembleOpString. rewrite !label_not_op, splitLast_snoc by (apply (bool_decide_unpack _); vm_compute; exact I).
    by rewrite bool_decide_eq_true_2.
Qed.
End Read.
