(* ===== verification/AsmCanon.v ===== *)
(** Canonical programs.

    What a line does to the assembler, apart from its tables of constants, is the partial
    function [cstep] on the output, the types, the labels and the references.  Every line
    that assembles does what a line of canonical [shape] does, and an assembled program is
    a list of instructions [Ins] with relative branches, after the version. *)

From Stdlib Require Import Ascii String.
From S2P Require Import Prelude Config Basics Transactions Bookkeeping Teal TealSpec Assembler.
From S2P Require Import GoText GoTextSpec Address AsmText AsmTextSpec Disasm AsmPrint.
#[local] Open Scope Z_scope.

(** ** What a line does *)

Record Core := mkCore { c_out : bytes; c_types : list StackType; c_labels : gmap string Z; c_refs : list labelReference }.
Definition coreOf (ops : OpStream) : Core := mkCore (ops_Out ops) (ops_typeStack ops) (ops_labels ops) (ops_labelReferences ops).
Definition withCore (ops : OpStream) (c : Core) : OpStream :=
  mkOpStream (c_out c) (ops_Version ops) (ops_intc ops) (ops_bytec ops) (c_types c) (c_labels c) (c_refs c).
Definition core0 : Core := mkCore [] [] ∅ [].

Definition opEntry (name : string) : option (Z * list StackType * list StackType) :=
  snd <$> List.find (λ p, bool_decide (p.1 = name)) plainOps.

Definition code (l : Line) : bytes :=
  match l with
  | LIntC i => [0x21; i] | LByteC i => [0x27; i] | LArg i => [0x2c; i]
  | LIntCBlock vs => intBlock vs | LByteCBlock bs => byteBlock bs
  | LTxn f => [0x31; f] | LGtxn g f => [0x33; g; f] | LGlobal f => [0x32; f]
  | LLoad v => [0x34; v] | LStore v => [0x35; v]
  | LBnz _ => [0x40; 0; 0]
  | LOp name => match opEntry name with Some (opcode, _, _) => [opcode] | None => [] end
  | LLabel _ | LInt _ | LByte _ => []
  end.

(** The types below the arguments; [seen] when there has been a branch. *)
Fixpoint checkTypes (args ts : list StackType) (seen : bool) : option (list StackType) :=
  match args with
  | [] => Some ts
  | a :: args => if typecheck a (default StackNone (head ts)) || seen then checkTypes args (tail ts) seen else None
  end.
Definition effect (l : Line) (ts : list StackType) (seen : bool) : option (list StackType) :=
  match l with
  | LIntC _ => Some (StackUint64 :: ts)
  | LByteC _ | LArg _ => Some (StackBytes :: ts)
  | LIntCBlock _ | LByteCBlock _ | LLabel _ => Some ts
  | LTxn f | LGtxn _ f => (λ t, t :: ts) <$> TxnFieldTypes !! Z.to_nat f
  | LGlobal f => (λ t, t :: ts) <$> GlobalFieldTypes !! Z.to_nat f
  | LLoad _ => Some (StackAny :: ts)
  | LStore _ => checkTypes [StackAny] ts seen
  | LBnz _ => checkTypes [StackUint64] ts true
  | LOp name => match opEntry name with Some (_, args, rets) => app (rev rets) <$> checkTypes args ts seen | None => None end
  | LInt _ | LByte _ => None
  end.

Definition seenRefs (refs : list labelReference) : bool := negb (length refs =? 0)%nat.
Definition refOf (l : Line) (pos : Z) : list labelReference :=
  match l with LBnz label => [mkLabelReference pos label] | _ => [] end.
Definition addLabel (l : Line) (pos : Z) (labels : gmap string Z) : option (gmap string Z) :=
  match l with
  | LLabel label => match labels !! label with Some _ => None | None => Some (<[label := pos]> labels) end
  | _ => Some labels
  end.
Definition cstep (l : Line) (c : Core) : option Core :=
  ts ← effect l (c_types c) (seenRefs (c_refs c));
  labels ← addLabel l (zlen (c_out c)) (c_labels c);
  Some (mkCore (c_out c ++ code l) ts labels (c_refs c ++ refOf l (zlen (c_out c)))).
Fixpoint crun (ls : list Line) (c : Core) : option Core :=
  match ls with [] => Some c | l :: ls => c ← cstep l c; crun ls c end.

(** Canonical up to the names of labels. *)
Definition shape (l : Line) : Prop := match l with LBnz _ | LLabel _ => True | _ => canon l end.

Lemma checkArgs_run args : forall ops, match checkTypes args (ops_typeStack ops) (seenRefs (ops_labelReferences ops)) with
  | Some ts => checkArgs args ops = (Ok tt, ops <| ops_typeStack := ts |>)
  | None => exists e ops', checkArgs args ops = (Err e, ops')
  end.
Proof.
  induction args as [|a args IH]; intros ops; cbn [checkTypes checkArgs]; [by destruct ops|].
  unfold mbind, M_bind, get, guardE, throw, mret, M_ret, tpop. destruct ops as [o v ic bc ts lb rf]. cbn [ops_typeStack ops_labelReferences].
  destruct ts as [|t ts]; cbn; fold (seenRefs rf); (destruct (typecheck _ _ || seenRefs rf); [|by eauto]).
  - apply (IH (mkOpStream o v ic bc [] lb rf)).
  - apply (IH (mkOpStream o v ic bc ts lb rf)).
Qed.
Lemma opEntry_known name : name ∈ plainOps.*1 -> is_Some (opEntry name).
Proof. intros [_ [p Hp]]%(find_op id). unfold opEntry. rewrite Hp. by eexists. Qed.

(** Lines of canonical shape step as [cstep] says. *)
Lemma shape_run l ops : shape l -> match cstep l (coreOf ops) with
  | Some c => assembleLine l ops = (Ok tt, withCore ops c)
  | None => exists e ops', assembleLine l ops = (Err e, ops')
  end.
Proof.
  destruct ops as [o v ic bc ts lb rf]. unfold cstep, coreOf, withCore, mbind at 1, option_bind. cbn [c_out c_types c_labels c_refs
    ops_Out ops_Version ops_intc ops_bytec ops_typeStack ops_labels ops_labelReferences].
  destruct l; cbn [shape canon effect addLabel refOf code assembleLine]; intros Hc; try done; rewrite ?app_nil_r.
  - unfold Intc. rewrite !(proj2 (Z.eqb_neq i _)), (proj2 (Z.ltb_ge _ _)) by lia. done.
  - done.
  - unfold Bytec. rewrite !(proj2 (Z.eqb_neq i _)), (proj2 (Z.ltb_ge _ _)) by lia. done.
  - done.
  - unfold Arg. rewrite !(proj2 (Z.eqb_neq v0 _)), (proj2 (Z.ltb_ge _ _)) by lia. done.
  - unfold Txn. destruct (TxnFieldTypes !! Z.to_nat f); [done|cbn; eauto].
  - unfold Gtxn. destruct (TxnFieldTypes !! Z.to_nat f); [|cbn; eauto]. cbn. rewrite (proj2 (Z.ltb_ge _ _)) by lia. done.
  - unfold Global. destruct (GlobalFieldTypes !! Z.to_nat f); [done|cbn; eauto].
  - unfold emitBnz. set (ops1 := mkOpStream o v ic bc ts lb (rf ++ [mkLabelReference (zlen o) label])).
    pose proof (checkArgs_run [StackUint64] ops1) as Hr. subst ops1. cbn [ops_typeStack ops_labelReferences] in Hr.
    replace (seenRefs (rf ++ _)) with true in Hr by (by destruct rf).
    unfold mbind, M_bind, get, ReferToLabel, modify. cbn [rset setter ops_Out].
    destruct (checkTypes _ _ _); cbn in Hr |- *; [rewrite Hr; done|]. destruct Hr as (e & ops' & Hr). rewrite Hr. eauto.
  - unfold emitLoad. rewrite (proj2 (Z.ltb_ge _ _)) by lia. done.
  - unfold emitStore. rewrite (proj2 (Z.ltb_ge _ _)) by lia. rewrite guard_run.
    pose proof (checkArgs_run [StackAny] (mkOpStream o v ic bc ts lb rf)) as Hr. cbn [ops_typeStack ops_labelReferences] in Hr.
    unfold mbind, M_bind. destruct (checkTypes _ _ _); [rewrite Hr; done|]. destruct Hr as (e & ops' & Hr). rewrite Hr. eauto.
  - unfold emitOp. destruct (opEntry_known _ Hc) as [[[opcode args] rets] He]. rewrite He. unfold opEntry in He.
    destruct (List.find _ plainOps) as [[n q]|]; [|done]. injection He as ->.
    pose proof (checkArgs_run args (mkOpStream o v ic bc ts lb rf)) as Hr. cbn [ops_typeStack ops_labelReferences] in Hr.
    unfold mbind, M_bind. destruct (checkTypes _ _ _); [rewrite Hr; done|]. destruct Hr as (e & ops' & Hr). rewrite Hr. cbn. eauto.
  - unfold SetLabelHere. cbn [ops_labels ops_Out]. destruct (lb !! label); [cbn; eauto|done].
Qed.

(** ** Every line does what a canonical line does *)

Definition sameConsts (ops ops' : OpStream) : Prop :=
  ops_intc ops' = ops_intc ops /\ ops_bytec ops' = ops_bytec ops /\ ops_Version ops' = ops_Version ops.
Definition normal (ops ops' : OpStream) : Prop := exists l, shape l /\ cstep l (coreOf ops) = Some (coreOf ops').

Lemma coreOf_withCore ops c : coreOf (withCore ops c) = c.
Proof. by destruct c. Qed.
Lemma shape_normal l ops ops' : shape l -> assembleLine l ops = (Ok tt, ops') -> normal ops ops' /\ sameConsts ops ops'.
Proof.
  intros Hs E. pose proof (shape_run l ops Hs) as Hr. destruct (cstep l (coreOf ops)) as [c|] eqn:Ec.
  - rewrite E in Hr. injection Hr as ->. split; [exists l; by rewrite coreOf_withCore|done].
  - destruct Hr as (e & ops1 & Hr). by rewrite E in Hr.
Qed.
Lemma named name : bool_decide (name ∈ plainOps.*1) = true -> shape (LOp name).
Proof. apply bool_decide_eq_true. Qed.

(** The short forms of the first four indexes. *)
Ltac short_form i name := apply (shape_normal (LOp name)); [by apply named|exact i].
Lemma Intc_normal i ops ops' : 0 <= i -> Intc i ops = (Ok tt, ops') -> normal ops ops' /\ sameConsts ops ops'.
Proof.
  intros Hi E. destruct (decide (4 <= i <= 255)) as [Hb|Hb]; [by apply (shape_normal (LIntC i))|].
  destruct (decide (i = 0)) as [->|]; [short_form E "intc_0"|]. destruct (decide (i = 1)) as [->|]; [short_form E "intc_1"|].
  destruct (decide (i = 2)) as [->|]; [short_form E "intc_2"|]. destruct (decide (i = 3)) as [->|]; [short_form E "intc_3"|].
  unfold Intc in E. rewrite !(proj2 (Z.eqb_neq i _)), (proj2 (Z.ltb_lt _ _)) in E by lia. done.
Qed.
Lemma Bytec_normal i ops ops' : 0 <= i -> Bytec i ops = (Ok tt, ops') -> normal ops ops' /\ sameConsts ops ops'.
Proof.
  intros Hi E. destruct (decide (4 <= i <= 255)) as [Hb|Hb]; [by apply (shape_normal (LByteC i))|].
  destruct (decide (i = 0)) as [->|]; [short_form E "bytec_0"|]. destruct (decide (i = 1)) as [->|]; [short_form E "bytec_1"|].
  destruct (decide (i = 2)) as [->|]; [short_form E "bytec_2"|]. destruct (decide (i = 3)) as [->|]; [short_form E "bytec_3"|].
  unfold Bytec in E. rewrite !(proj2 (Z.eqb_neq i _)), (proj2 (Z.ltb_lt _ _)) in E by lia. done.
Qed.
Lemma Arg_normal i ops ops' : 0 <= i -> Arg i ops = (Ok tt, ops') -> normal ops ops' /\ sameConsts ops ops'.
Proof.
  intros Hi E. destruct (decide (4 <= i <= 255)) as [Hb|Hb]; [by apply (shape_normal (LArg i))|].
  destruct (decide (i = 0)) as [->|]; [short_form E "arg_0"|]. destruct (decide (i = 1)) as [->|]; [short_form E "arg_1"|].
  destruct (decide (i = 2)) as [->|]; [short_form E "arg_2"|]. destruct (decide (i = 3)) as [->|]; [short_form E "arg_3"|].
  unfold Arg in E. rewrite !(proj2 (Z.eqb_neq i _)), (proj2 (Z.ltb_lt _ _)) in E by lia. done.
Qed.

Definition constsOk (ops : OpStream) : Prop :=
  Forall u64 (ops_intc ops) /\ Forall (Forall is_byte) (ops_bytec ops) /\ ops_Version ops = 0.
Lemma constsOk_same ops ops' : sameConsts ops ops' -> constsOk ops -> constsOk ops'.
Proof. unfold constsOk. by intros (-> & -> & ->). Qed.

Lemma field_bound (types : list StackType) f t : 0 <= f -> types !! Z.to_nat f = Some t -> 0 <= f < zlen types.
Proof. intros Hf Ht%lookup_lt_Some. unfold zlen. lia. Qed.

Lemma line_normal l ops ops' : wfLine l -> constsOk ops -> assembleLine l ops = (Ok tt, ops') -> normal ops ops' /\ constsOk ops'.
Proof.
  intros Hw Hk E. assert (normal ops ops' /\ sameConsts ops ops' -> normal ops ops' /\ constsOk ops') as Hsame
    by (intros [H1 H2]; split; [done|by eapply constsOk_same]).
  destruct l; cbn [wfLine assembleLine] in Hw, E.
  - unfold Uint in E. apply M_bind_Ok in E as (o & s & [= <- <-] & E). destruct (list_find _ _) as [[i w]|].
    { apply Hsame, (Intc_normal (Z.of_nat i)); [lia|done]. }
    apply M_bind_Ok in E as ([] & s & [= <-] & E). apply Intc_normal in E as [[l [Hl E]] Hs]; [|apply zlen_nonneg]. split; [by exists l|].
    eapply constsOk_same; [exact Hs|]. destruct Hk as (? & ? & ?). split; [|done]. apply Forall_app. split; [done|by constructor].
  - apply Hsame, (Intc_normal i); [apply Hw|done].
  - apply Hsame. by apply (shape_normal (LIntCBlock vs)).
  - unfold ByteLiteral in E. apply M_bind_Ok in E as (o & s & [= <- <-] & E). destruct (list_find _ _) as [[i w]|].
    { apply Hsame, (Bytec_normal (Z.of_nat i)); [lia|done]. }
    apply M_bind_Ok in E as ([] & s & [= <-] & E). apply Bytec_normal in E as [[l [Hl E]] Hs]; [|apply zlen_nonneg]. split; [by exists l|].
    eapply constsOk_same; [exact Hs|]. destruct Hk as (? & ? & ?). split; [done|]. split; [|done]. apply Forall_app. split; [done|by constructor].
  - apply Hsame, (Bytec_normal i); [apply Hw|done].
  - apply Hsame. by apply (shape_normal (LByteCBlock bs)).
  - apply Hsame, (Arg_normal v); [apply Hw|done].
  - apply Hsame, (shape_normal (LTxn f)); [|done]. unfold Txn in E. destruct (TxnFieldTypes !! _) eqn:Ef; [|done]. exact (field_bound _ _ _ Hw Ef).
  - apply Hsame, (shape_normal (LGtxn gid f)); [|done]. destruct Hw as [Hg Hf]. unfold Gtxn in E. destruct (TxnFieldTypes !! _) eqn:Ef; [|done].
    apply guard_bind_Ok in E as [Hb _]. unfold u64 in Hg. bool_hyps. split; [lia|exact (field_bound _ _ _ Hf Ef)].
  - apply Hsame, (shape_normal (LGlobal f)); [|done]. unfold Global in E. destruct (GlobalFieldTypes !! _) eqn:Ef; [|done]. exact (field_bound _ _ _ Hw Ef).
  - apply Hsame. by apply (shape_normal (LBnz label)).
  - apply Hsame, (shape_normal (LLoad v)); [|done]. unfold emitLoad in E. apply guard_bind_Ok in E as [Hb _]. unfold u64 in Hw. bool_hyps. cbn. lia.
  - apply Hsame, (shape_normal (LStore v)); [|done]. unfold emitStore in E. apply guard_bind_Ok in E as [Hb _]. unfold u64 in Hw. bool_hyps. cbn. lia.
  - apply Hsame, (shape_normal (LOp name)); [|done]. unfold emitOp in E. destruct (List.find _ _) as [[n q]|] eqn:Ef; [|done].
    apply find_some in Ef as [Hin Hb]. apply bool_decide_eq_true in Hb. cbn in Hb. subst. cbn [shape canon]. apply list_elem_of_fmap. exists (name, q).
    split; [done|by apply list_elem_of_In].
  - apply Hsame. by apply (shape_normal (LLabel label)).
Qed.

Lemma lines_normal lines : forall ops ops', Forall wfLine lines -> constsOk ops -> forM assembleLine lines ops = (Ok tt, ops') ->
  exists ls, Forall shape ls /\ crun ls (coreOf ops) = Some (coreOf ops') /\ constsOk ops'.
Proof.
  induction lines as [|l lines IH]; intros ops ops' HF Hk E; cbn [forM] in E; [injection E as <-; exists []; by split_and!|].
  apply Forall_cons in HF as [Hl HF]. apply M_bind_Ok in E as ([] & s & E1 & E2).
  destruct (line_normal _ _ _ Hl Hk E1) as [(l' & Hs & Ec) Hk']. destruct (IH _ _ HF Hk' E2) as (ls & HS & Er & Hk2).
  exists (l' :: ls). split_and!; [by constructor| |done]. cbn [crun]. by rewrite Ec.
Qed.

Lemma program_normal lines p : Forall wfLine lines -> assembleProgram lines = Ok p ->
  exists ls c ints bytess raw, Forall shape ls /\ crun ls core0 = Some c /\ resolveAll (c_labels c) (c_refs c) (c_out c) = Ok raw
    /\ Forall u64 ints /\ Forall (Forall is_byte) bytess
    /\ p = [1] ++ (if 0 <? zlen ints then intBlock ints else []) ++ (if 0 <? zlen bytess then byteBlock bytess else []) ++ raw.
Proof.
  intros HF. unfold assembleProgram, assembleLines. destruct ((forM assembleLine lines ≫= _) OpStream_zero) as [[[]|e|m] ops] eqn:E; [|done..].
  intros [= <-]. apply M_bind_Ok in E as ([] & s & E1 & E2). assert (constsOk OpStream_zero) as Hk by (split_and!; done || constructor).
  destruct (lines_normal _ _ _ HF Hk E1) as (ls & HS & Er & (K1 & K2 & K3)).
  unfold resolveLabels in E2. apply M_bind_Ok in E2 as (o & s1 & [= <- <-] & E2). apply M_bind_Ok in E2 as (raw & s2 & [= Hr <-] & [= <-]).
  exists ls, (coreOf s), (ops_intc s), (ops_bytec s), raw. split_and!; try done. unfold Bytes. cbn. by rewrite K3.
Qed.

(** ** Instructions with relative branches *)

Inductive Ins := IBnz (off : Z) | ILine (l : Line).
Definition enc (i : Ins) : bytes :=
  match i with IBnz off => [0x40; Z.shiftr off 8 mod 256; Z.land off 0xff] | ILine l => code l end.
Definition encs (js : list Ins) : bytes := concat (enc <$> js).
Definition branching (l : Line) : bool := match l with LBnz _ | LLabel _ => true | _ => false end.
Definition okIns (i : Ins) : Prop :=
  match i with IBnz off => 0 <= off <= 0x7fff | ILine l => shape l /\ branching l = false end.

(** The references and the code of lines that start at a position. *)
Definition codes_of (ls : list Line) : bytes := concat (code <$> ls).
Fixpoint refsAt (pos : Z) (ls : list Line) : list labelReference :=
  match ls with [] => [] | l :: ls => refOf l pos ++ refsAt (pos + zlen (code l)) ls end.
Fixpoint labelsAt (pos : Z) (ls : list Line) (m : gmap string Z) : option (gmap string Z) :=
  match ls with [] => Some m | l :: ls => m ← addLabel l pos m; labelsAt (pos + zlen (code l)) ls m end.
(** The types after lines. *)
Fixpoint typesAfter (ls : list Line) (ts : list StackType) (seen : bool) : option (list StackType) :=
  match ls with
  | [] => Some ts
  | l :: ls => ts ← effect l ts seen; typesAfter ls ts (seen || match l with LBnz _ => true | _ => false end)
  end.

(** A run is all of these at once. *)
Lemma crun_parts ls : forall c c', crun ls c = Some c' <->
  typesAfter ls (c_types c) (seenRefs (c_refs c)) = Some (c_types c') /\ labelsAt (zlen (c_out c)) ls (c_labels c) = Some (c_labels c')
  /\ c_out c' = c_out c ++ codes_of ls /\ c_refs c' = c_refs c ++ refsAt (zlen (c_out c)) ls.
Proof.
  induction ls as [|l ls IH]; intros [o ts lb rf] [o' ts' lb' rf']; cbn [crun typesAfter labelsAt refsAt c_out c_types c_labels c_refs codes_of fmap list_fmap concat].
  { rewrite !app_nil_r. split; [intros [= -> -> -> ->]; done|intros ([= ->] & [= ->] & -> & ->); done]. }
  unfold cstep. cbn [c_out c_types c_labels c_refs].
  destruct (effect l ts (seenRefs rf)) as [ts1|]; cbn [mbind option_bind]; [|split; [done|intros (? & _); done]].
  destruct (addLabel l (zlen o) lb) as [lb1|]; cbn [mbind option_bind]; [|split; [done|intros (_ & ? & _); done]].
  rewrite IH. cbn [c_out c_types c_labels c_refs]. rewrite zlen_app, <- !app_assoc.
  assert (seenRefs (rf ++ refOf l (zlen o)) = (seenRefs rf || match l with LBnz _ => true | _ => false end)) as ->.
  { unfold seenRefs. rewrite length_app. destruct rf, l; done. }
  done.
Qed.

(** The instructions of lines whose labels are known. *)
Fixpoint insOf (labels : gmap string Z) (pos : Z) (ls : list Line) : option (list Ins) :=
  match ls with
  | [] => Some []
  | LLabel _ :: ls => insOf labels pos ls
  | LBnz label :: ls =>
    dest ← labels !! label;
    if (dest <? pos + 3) || (0x7fff <? dest - (pos + 3)) then None
    else js ← insOf labels (pos + 3) ls; Some (IBnz (dest - (pos + 3)) :: js)
  | l :: ls => js ← insOf labels (pos + zlen (code l)) ls; Some (ILine l :: js)
  end.

Lemma setByte_app pre a x rest i b : i = zlen pre + zlen a -> setByte i b (pre ++ a ++ x :: rest) = Ok (pre ++ a ++ b :: rest).
Proof.
  intros ->. unfold setByte. pose proof (zlen_nonneg pre). pose proof (zlen_nonneg a). rewrite !zlen_app, zlen_cons.
  pose proof (zlen_nonneg rest). rewrite (proj2 (Z.ltb_ge _ _)), (proj2 (Z.leb_gt _ _)) by lia. cbn [orb]. f_equal.
  rewrite !app_assoc. replace (Z.to_nat _) with (length (pre ++ a) + 0)%nat by (unfold zlen; rewrite length_app; lia).
  by rewrite insert_app_r.
Qed.

Lemma insOf_resolve labels ls : forall pre, match insOf labels (zlen pre) ls with
  | Some js => resolveAll labels (refsAt (zlen pre) ls) (pre ++ codes_of ls) = Ok (pre ++ encs js)
  | None => exists e, resolveAll labels (refsAt (zlen pre) ls) (pre ++ codes_of ls) = Err e
  end.
Proof.
  induction ls as [|l ls IH]; intros pre; [done|].
  assert (branching l = false -> match (js ← insOf labels (zlen pre + zlen (code l)) ls; Some (ILine l :: js)) with
    | Some js => resolveAll labels (refsAt (zlen pre) (l :: ls)) (pre ++ codes_of (l :: ls)) = Ok (pre ++ encs js)
    | None => exists e, resolveAll labels (refsAt (zlen pre) (l :: ls)) (pre ++ codes_of (l :: ls)) = Err e
    end) as Hplain.
  { intros Hb. cbn [refsAt codes_of fmap list_fmap concat]. fold (codes_of ls). replace (refOf l (zlen pre)) with (@nil labelReference) by (by destruct l).
    specialize (IH (pre ++ code l)). rewrite zlen_app, <- app_assoc in IH. cbn [app].
    destruct (insOf labels _ ls); [|exact IH]. cbn [encs fmap list_fmap concat enc mbind option_bind]. by rewrite IH, <- app_assoc. }
  destruct l; try (apply Hplain; done); clear Hplain; cbn [insOf refsAt refOf code codes_of fmap list_fmap concat app]; fold (codes_of ls).
  - cbn [resolveAll]. unfold resolveLabel. cbn [lr_label lr_position]. destruct (labels !! label) as [dest|]; cbn [mbind option_bind result_bind]; [|by eauto].
    unfold guardR. destruct (dest <? zlen pre + 3); cbn [negb orb result_bind]; [by eauto|]. destruct (0x7fff <? _); cbn [negb result_bind]; [by eauto|].
    set (off := dest - (zlen pre + 3)). change (pre ++ 64 :: 0 :: 0 :: ?r) with (pre ++ [64] ++ 0 :: 0 :: r).
    rewrite setByte_app by done. cbn [mbind result_bind]. change (pre ++ [64] ++ ?h :: 0 :: ?r) with (pre ++ [64; h] ++ 0 :: r).
    rewrite setByte_app by done. cbn [mbind result_bind]. specialize (IH (pre ++ enc (IBnz off))).
    rewrite zlen_app, <- app_assoc in IH. change (zlen (enc (IBnz off))) with 3 in IH. change (zlen [64; 0; 0]) with 3.
    destruct (insOf labels (zlen pre + 3) ls); [|exact IH]. etrans; [exact IH|]. by rewrite <- app_assoc.
  - rewrite Z.add_0_r. apply IH.
Qed.

(** Positions between instructions, both ends included. *)
Fixpoint bndI (pos : Z) (js : list Ins) : list Z :=
  match js with [] => [pos] | j :: js => pos :: bndI (pos + zlen (enc j)) js end.
Fixpoint bndL (pos : Z) (ls : list Line) : list Z :=
  match ls with [] => [pos] | l :: ls => pos :: bndL (pos + zlen (code l)) ls end.
(** Every branch goes to such a position after it. *)
Fixpoint targetsOk (js : list Ins) : Prop :=
  match js with
  | [] => True
  | IBnz off :: js => off ∈ bndI 0 js /\ targetsOk js
  | ILine _ :: js => targetsOk js
  end.
Definition plainLine (j : Ins) : Line := match j with IBnz _ => LBnz EmptyString | ILine l => l end.

Lemma bndI_head pos js : pos ∈ bndI pos js.
Proof. destruct js; left. Qed.
Lemma bndI_shift n js : forall pos x, x ∈ bndI pos js <-> x + n ∈ bndI (pos + n) js.
Proof.
  induction js as [|j js IH]; intros pos x; cbn [bndI]; [rewrite !list_elem_of_singleton; lia|].
  rewrite !elem_of_cons, (IH (pos + _)). replace (pos + n + zlen (enc j)) with (pos + zlen (enc j) + n) by lia.
  split; (intros [|]; [left; lia|by right]).
Qed.
Lemma labels_bound ls : forall pos m m' label d, labelsAt pos ls m = Some m' -> m' !! label = Some d -> m !! label = Some d \/ d ∈ bndL pos ls.
Proof.
  induction ls as [|l ls IH]; intros pos m m' label d E Hd; cbn [labelsAt bndL] in *; [left; congruence|].
  apply bind_Some in E as (m1 & E1 & E). destruct (IH _ _ _ _ _ E Hd) as [Hm|Hb]; [|right; by right].
  destruct l; cbn in E1; simplify_eq; try (by left). destruct (m !! label0) eqn:El; simplify_eq.
  destruct (decide (label0 = label)) as [->|]; [rewrite lookup_insert_eq in Hm; simplify_eq; right; left|rewrite lookup_insert_ne in Hm by done; by left].
Qed.
Lemma code_pos l : shape l -> branching l = false -> 1 <= zlen (code l).
Proof.
  intros Hs Hb. destruct l; cbn in Hb; try done; cbn [code shape canon] in *; try done.
  - unfold intBlock. rewrite zlen_cons. pose proof (zlen_nonneg (PutUvarint (zlen vs) ++ concat (PutUvarint <$> vs))). lia.
  - unfold byteBlock. rewrite zlen_cons. match goal with |- _ <= 1 + zlen ?x => pose proof (zlen_nonneg x) end. lia.
  - destruct (opEntry_known _ Hs) as [[[op ?] ?] ->]. done.
Qed.

Lemma insOf_parts labels ls : forall pos js, Forall shape ls -> insOf labels pos ls = Some js ->
  Forall okIns js /\ (forall ts seen, typesAfter (plainLine <$> js) ts seen = typesAfter ls ts seen)
  /\ (forall x, x ∈ bndL pos ls -> x ∈ bndI pos js).
Proof.
  induction ls as [|l ls IH]; intros pos js HF E; [by injection E as <-|]. apply Forall_cons in HF as [Hs HF].
  assert (branching l = false -> (js1 ← insOf labels (pos + zlen (code l)) ls; Some (ILine l :: js1)) = Some js ->
    Forall okIns js /\ (forall ts seen, typesAfter (plainLine <$> js) ts seen = typesAfter (l :: ls) ts seen)
    /\ (forall x, x ∈ bndL pos (l :: ls) -> x ∈ bndI pos js)) as Hplain.
  { intros Hb E'. apply bind_Some in E' as (js1 & E1 & [= <-]). destruct (IH _ _ HF E1) as (H1 & H2 & H3). split_and!.
    - by constructor.
    - intros ts seen. cbn [fmap list_fmap plainLine typesAfter]. destruct (effect l ts seen); [|done]. cbn [mbind option_bind]. apply H2.
    - intros x [->|Hx]%elem_of_cons; [left|right]. by apply H3. }
  destruct l; try (by apply Hplain); clear Hplain; cbn [insOf] in E.
  - apply bind_Some in E as (dest & Ed & E). destruct (_ || _) eqn:Eb; [done|]. apply bind_Some in E as (js1 & E1 & [= <-]).
    destruct (IH _ _ HF E1) as (H1 & H2 & H3). apply orb_false_iff in Eb as [Eb1 Eb2]. apply Z.ltb_ge in Eb1, Eb2. split_and!.
    + constructor; [cbn; lia|done].
    + intros ts seen. cbn [fmap list_fmap plainLine typesAfter effect]. destruct (checkTypes _ _ _); [|done]. cbn [mbind option_bind]. apply H2.
    + intros x [->|Hx]%elem_of_cons; [left|right]. by apply H3.
  - destruct (IH _ _ HF E) as (H1 & H2 & H3). split_and!; [done| |].
    + intros ts seen. rewrite H2. cbn [typesAfter effect mbind option_bind]. by rewrite orb_false_r.
    + intros x [->|Hx]%elem_of_cons; [apply bndI_head|]. apply H3. cbn [code] in Hx. by rewrite Z.add_0_r in Hx.
Qed.

Lemma insOf_targets labels ls : forall pos js, Forall shape ls ->
  (forall label d, labels !! label = Some d -> pos <= d -> d ∈ bndI pos js) -> insOf labels pos ls = Some js -> targetsOk js.
Proof.
  induction ls as [|l ls IH]; intros pos js HF HL E; [by injection E as <-|]. apply Forall_cons in HF as [Hs HF].
  assert (branching l = false -> (js1 ← insOf labels (pos + zlen (code l)) ls; Some (ILine l :: js1)) = Some js -> targetsOk js) as Hplain.
  { intros Hb E'. apply bind_Some in E' as (js1 & E1 & [= <-]). cbn [targetsOk]. eapply IH; [done| |exact E1].
    intros label d Hd Hge. pose proof (code_pos l Hs Hb). specialize (HL label d Hd ltac:(lia)). cbn [bndI enc] in HL.
    apply elem_of_cons in HL as [->|HL]; [lia|done]. }
  destruct l; try (by apply Hplain); clear Hplain; cbn [insOf] in E; [|by eapply IH].
  apply bind_Some in E as (dest & Ed & E). destruct (_ || _) eqn:Eb; [done|]. apply bind_Some in E as (js1 & E1 & [= <-]).
  apply orb_false_iff in Eb as [Eb1 Eb2]. apply Z.ltb_ge in Eb1, Eb2.
  assert (forall label d, labels !! label = Some d -> pos + 3 <= d -> d ∈ bndI (pos + 3) js1) as HL'.
  { intros lab d Hd Hge. specialize (HL lab d Hd ltac:(lia)). cbn [bndI] in HL. change (zlen (enc (IBnz _))) with 3 in HL.
    apply elem_of_cons in HL as [->|HL]; [lia|done]. }
  split; [|by eapply IH]. apply (bndI_shift (pos + 3)). replace (dest - (pos + 3) + (pos + 3)) with dest by lia. rewrite Z.add_0_l.
  by apply (HL' label).
Qed.

(** An assembled program is its version and instructions whose branches go to instructions
    after them or to the end, and which typecheck. *)
Lemma program_ins lines p : Forall wfLine lines -> assembleProgram lines = Ok p ->
  exists js, p = [1] ++ encs js /\ Forall okIns js /\ targetsOk js /\ is_Some (typesAfter (plainLine <$> js) [] false).
Proof.
  intros HF E. destruct (program_normal _ _ HF E) as (ls & c & ints & bytess & raw & HS & Er & Hr & HI & HB & ->).
  apply crun_parts in Er as (Ht & Hl & Ho & Hf). cbn in Ht, Hl, Ho, Hf. change (zlen []) with 0 in *.
  pose proof (insOf_resolve (c_labels c) ls []) as Hi. cbn [app] in Hi. change (zlen []) with 0 in Hi. rewrite <- Ho, <- Hf, Hr in Hi.
  destruct (insOf (c_labels c) 0 ls) as [js|] eqn:Ej; [|by destruct Hi]. injection Hi as ->.
  destruct (insOf_parts _ _ _ _ HS Ej) as (H1 & H2 & H3).
  assert (targetsOk js) as HT.
  { eapply insOf_targets; [done| |exact Ej]. intros label d Hd _. destruct (labels_bound _ _ _ _ _ _ Hl Hd) as [|Hb]; [done|]. by apply H3. }
  exists ((if 0 <? zlen ints then [ILine (LIntCBlock ints)] else []) ++ (if 0 <? zlen bytess then [ILine (LByteCBlock bytess)] else []) ++ js).
  unfold encs. rewrite !fmap_app, !concat_app. destruct (0 <? zlen ints), (0 <? zlen bytess); cbn [fmap list_fmap concat enc code app targetsOk plainLine];
    rewrite ?app_nil_r; (split; [done|]); (split; [repeat apply Forall_cons_2; done|]); (split; [done|]); cbn [typesAfter effect mbind option_bind orb];
    rewrite H2, Ht; by eexists.
Qed.
