(* ===== verification/DisasmSpec.v ===== *)
(** Assembling what was disassembled.

    The comment on [Disassemble] says that assembling its text gives the program back.  The
    main theorem says exactly when this holds for a program that was assembled from text. *)

From Stdlib Require Import Ascii String.
From S2P Require Import Prelude Config Basics Transactions Bookkeeping Teal TealSpec Assembler.
From S2P Require Import GoText GoTextSpec Address AsmText AsmTextSpec Disasm AsmPrint AsmCanon.
#[local] Open Scope Z_scope.

(** ** One instruction *)

Definition isBnz (j : Ins) : Z := match j with IBnz _ => 1 | ILine _ => 0 end.
(** The line an instruction is printed as, with the number of its label. *)
Definition lineAt (n : Z) (j : Ins) : Line := match j with IBnz _ => LBnz (labelName n) | ILine l => l end.
(** The branch of an instruction at a position: its target and its label. *)
Definition branchAt (pos n : Z) (j : Ins) : list (Z * string) :=
  match j with IBnz off => [(pos + 3 + off, labelName n)] | ILine _ => [] end.
Definition waiting (m : gmap Z string) (l : list (Z * string)) : gmap Z string := foldl (λ m p, <[p.1 := p.2]> m) m l.

Definition disAfter (j : Ins) (next : Z) (dis : disassembleState) : disassembleState :=
  let n := dis_labelCount dis + isBnz j in
  mkDis (dis_program dis) (dis_pc dis + zlen (enc j)) (dis_out dis +:+ printLine (lineAt n j) +:+ endl) n
    (waiting (dis_pendingLabels dis) (branchAt (dis_pc dis) n j)) next.

(** A byte block at the end that cannot be parsed. *)
Definition shortIns (j : Ins) (rest : bytes) : Prop :=
  match j with ILine (LByteCBlock bs) => cutShort bs rest | _ => False end.
#[export] Instance shortIns_dec j rest : Decision (shortIns j rest).
Proof. unfold shortIns. destruct j as [|[]]; apply _. Defined.

Lemma print_args w ws : printLine w = (printWords w).1 +:+ blanks (printWords w).2 -> (printWords w).2 = ws ->
  printLine w +:+ endl = (printWords w).1 +:+ blanks ws +:+ endl.
Proof. intros -> <-. apply app_assoc_s. Qed.
Lemma blanks_ints vs : foldr (λ iv s, " " +:+ FormatUint iv +:+ s) EmptyString vs = blanks (FormatUint <$> vs).
Proof. induction vs as [|v vs IH]; [done|]. cbn [foldr fmap list_fmap blanks]. by rewrite IH. Qed.
Lemma blanks_hex bs : foldr (λ bv s, " 0x" +:+ hexEncode bv +:+ s) EmptyString bs = blanks ((λ b, "0x" +:+ hexEncode b) <$> bs).
Proof. induction bs as [|b bs IH]; [done|]. cbn [foldr fmap list_fmap blanks]. rewrite IH. by rewrite app_assoc_s. Qed.

Lemma op_names : forallb (λ p, bool_decide (opName p.2.1.1 = Some p.1)
  && match List.find (λ q, bool_decide (q.1 = p.1)) disassemblers with None => true | Some _ => false end) plainOps = true.
Proof. vm_compute. reflexivity. Qed.
Lemma op_name name opcode args rets : opEntry name = Some (opcode, args, rets) ->
  opName opcode = Some name /\ List.find (λ q, bool_decide (q.1 = name)) disassemblers = None.
Proof.
  unfold opEntry. destruct (List.find _ plainOps) as [[n q]|] eqn:E; [|done]. intros [= ->]. apply find_some in E as [Hin Hb].
  apply bool_decide_eq_true in Hb. cbn in Hb. subst n. pose proof op_names as HF. rewrite forallb_forall in HF. specialize (HF _ Hin). cbn [fst snd] in HF.
  apply andb_true_iff in HF as [H1 H2]. apply bool_decide_eq_true in H1. split; [done|]. by destruct (List.find _ disassemblers).
Qed.

(** The instruction [j] is where the disassembler is. *)
Definition atIns (j : Ins) (pre rest : bytes) (dis : disassembleState) : Prop :=
  dis_program dis = pre ++ enc j ++ rest /\ dis_pc dis = zlen pre.

Lemma dis_byte j pre rest dis i b : atIns j pre rest dis -> enc j !! i = Some b -> disByte (Z.of_nat i) dis = Ok b.
Proof.
  intros [Hp Hpc] Hb. unfold disByte. rewrite Hp, Hpc, byteAt_app by lia. unfold byteAt. rewrite (proj2 (Z.ltb_ge _ _)) by lia.
  by rewrite Nat2Z.id, (lookup_app_l_Some _ _ _ _ Hb).
Qed.
Lemma disOp_handler j pre rest dis op name h : atIns j pre rest dis -> enc j !! 0%nat = Some op -> opName op = Some name ->
  List.find (λ p, bool_decide (p.1 = name)) disassemblers = Some (name, h) ->
  disOp dis = (d ← h dis; Ok (inl (d <| dis_pc := dis_nextpc d |>))).
Proof.
  intros Ha Hb Hn Hf. unfold disOp. pose proof (dis_byte _ _ _ _ 0 _ Ha Hb) as H0. change (Z.of_nat 0) with 0 in H0. rewrite H0. cbn [mbind result_bind]. by rewrite Hn, Hf.
Qed.

(** Instructions with one byte that is printed as a number. *)
Lemma dis_number l op b name pre rest dis : atIns (ILine l) pre rest dis -> code l = [op; b] -> opName op = Some name ->
  List.find (λ p, bool_decide (p.1 = name)) disassemblers = Some (name, disNumber name) -> printWords l = (name, [FormatUint b]) ->
  exists next, disOp dis = Ok (inl (disAfter (ILine l) next dis)).
Proof.
  intros Ha Hc Hn Hf Hw. erewrite disOp_handler; [|exact Ha|cbn [enc]; by rewrite Hc|exact Hn|exact Hf].
  unfold disNumber. assert (enc (ILine l) !! 1%nat = Some b) as Hb by (cbn [enc]; by rewrite Hc).
  pose proof (dis_byte _ _ _ _ 1 _ Ha Hb) as H1. change (Z.of_nat 1) with 1 in H1. rewrite H1. cbn [mbind result_bind].
  exists (dis_pc dis + 2). unfold disAfter, disPut, disNext, printLine. cbn [lineAt isBnz branchAt waiting foldl enc]. rewrite Hc, Hw, Z.add_0_r.
  change (zlen [op; b]) with 2. destruct dis. cbn. do 4 f_equal. rewrite !app_assoc_s. by rewrite app_nil_l_s.
Qed.

Lemma field_lookup names f : 0 <= f < zlen names -> names !! Z.to_nat f = Some (fieldName names f).
Proof.
  intros Hf. unfold fieldName. rewrite nth_lookup. destruct (names !! Z.to_nat f) eqn:E; [done|]. apply lookup_ge_None in E. unfold zlen in Hf. lia.
Qed.
Lemma jump_offset off : 0 <= off <= 0x7fff -> forall pre rest, branchOffset (pre ++ enc (IBnz off) ++ rest) (zlen pre) = Ok off.
Proof.
  intros Ho pre rest. unfold branchOffset. rewrite !byteAt_app by lia. 
  transitivity (Ok (Z.lor (Z.shiftl (Z.shiftr off 8 mod 256) 8) (Z.land off 0xff))); [reflexivity|]. f_equal. by apply jump_bytes.
Qed.

Ltac printed := unfold disAfter, disPut, disNext, printLine; cbn [lineAt isBnz branchAt waiting foldl enc printWords fst snd]; rewrite ?Z.add_0_r;
  match goal with |- context [mkDis (dis_program ?d)] => destruct d end; cbn; do 4 f_equal; rewrite ?app_assoc_s; try reflexivity.

Lemma dis_ins j pre rest dis : atIns j pre rest dis -> okIns j -> zlen (dis_program dis) < 2 ^ 64 ->
  if decide (shortIns j rest) then disOp dis = Err errShortBytecblock
  else exists next, disOp dis = Ok (inl (disAfter j next dis)).
Proof.
  intros Ha Hok Hl. pose proof Ha as [Hp Hpc].
  assert (forall P Q : Prop, (~ shortIns j rest) -> Q -> if decide (shortIns j rest) then P else Q) as Hno
    by (intros P Q Hn HQ; by destruct (decide _)).
  destruct j as [off|l]; cbn [okIns] in Hok.
  { apply Hno; [by intros []|]. erewrite (disOp_handler _ _ _ _ 0x40 "bnz" disBnz); [|exact Ha|reflexivity..]. unfold disBnz.
    rewrite Hp, Hpc, jump_offset by done. cbn [mbind result_bind]. exists (zlen pre + 3).
    unfold disAfter, disPut, disNext, putLabel, printLine. cbn [lineAt isBnz branchAt waiting foldl printWords fst snd]. destruct dis. cbn in *. subst.
    change (Z.succ dis_labelCount) with (dis_labelCount + 1). replace (off + zlen pre + 3) with (zlen pre + 3 + off) by lia.
    do 4 f_equal. rewrite !app_assoc_s. reflexivity. }
  destruct Hok as [Hs Hb]. destruct l; cbn in Hb; try done; cbn [shape canon] in Hs; try done; try (apply Hno; [by intros []|]).
  - by apply (dis_number _ 0x21 i "intc" pre rest).
  - erewrite (disOp_handler _ _ _ _ 0x20 "intcblock" disIntcblock); [|exact Ha|reflexivity..]. unfold disIntcblock. rewrite Hp, Hpc. cbn [enc code].
    rewrite parseIntcblock_encode; [|done|].
    2:{ rewrite Hp in Hl. cbn [enc code] in Hl. rewrite !zlen_app in Hl. unfold intBlock in Hl. rewrite zlen_cons, zlen_app in Hl.
        pose proof (zlen_concat_ge PutUvarint vs PutUvarint_len). pose proof (zlen_nonneg pre). pose proof (zlen_nonneg rest).
        pose proof (zlen_nonneg (PutUvarint (zlen vs))). lia. }
    cbn [mbind result_bind fst snd]. exists (zlen (pre ++ intBlock vs)). rewrite blanks_ints. rewrite zlen_app, <- Hpc. printed.
  - by apply (dis_number _ 0x27 i "bytec" pre rest).
  - erewrite (disOp_handler _ _ _ _ 0x26 "bytecblock" disBytecblock); [|exact Ha|reflexivity..]. unfold disBytecblock. rewrite Hp in Hl |- *.
    rewrite Hpc. cbn [enc code] in Hl |- *. rewrite parseBytecBlock_encode by done.
    destruct (decide (shortIns _ rest)) as [Hc|Hc]; cbn [shortIns] in Hc; [by rewrite decide_True by done|rewrite decide_False by done].
    cbn [mbind result_bind fst snd]. exists (zlen (pre ++ byteBlock bs)). rewrite blanks_hex. rewrite zlen_app, <- Hpc. printed.
  - by apply (dis_number _ 0x2c v "arg" pre rest).
  - erewrite (disOp_handler _ _ _ _ 0x31 "txn" disTxn); [|exact Ha|reflexivity..]. unfold disTxn.
    pose proof (dis_byte _ _ _ _ 1 f Ha eq_refl) as H1. change (Z.of_nat 1) with 1 in H1. rewrite H1. cbn [mbind result_bind].
    rewrite field_lookup by done. exists (dis_pc dis + 2). printed.
  - destruct Hs as [Hg Hf]. erewrite (disOp_handler _ _ _ _ 0x33 "gtxn" disGtxn); [|exact Ha|reflexivity..]. unfold disGtxn.
    pose proof (dis_byte _ _ _ _ 1 gid Ha eq_refl) as H1. change (Z.of_nat 1) with 1 in H1. rewrite H1. cbn [mbind result_bind].
    pose proof (dis_byte _ _ _ _ 2 f Ha eq_refl) as H2. change (Z.of_nat 2) with 2 in H2. rewrite H2. cbn [mbind result_bind].
    rewrite field_lookup by done. exists (dis_pc dis + 3). printed.
  - erewrite (disOp_handler _ _ _ _ 0x32 "global" disGlobal); [|exact Ha|reflexivity..]. unfold disGlobal.
    pose proof (dis_byte _ _ _ _ 1 f Ha eq_refl) as H1. change (Z.of_nat 1) with 1 in H1. rewrite H1. cbn [mbind result_bind].
    rewrite field_lookup by done. exists (dis_pc dis + 2). printed.
  - by apply (dis_number _ 0x34 v "load" pre rest).
  - by apply (dis_number _ 0x35 v "store" pre rest).
  - destruct (opEntry_known _ Hs) as [[[op args] rets] He]. destruct (op_name _ _ _ _ He) as [Hn Hf].
    unfold disOp. assert (enc (ILine (LOp name)) !! 0%nat = Some op) as H0 by (cbn [enc code]; by rewrite He).
    pose proof (dis_byte _ _ _ _ 0 _ Ha H0) as H1. change (Z.of_nat 0) with 0 in H1. rewrite H1. cbn [mbind result_bind]. rewrite Hn, Hf.
    exists (dis_nextpc dis). assert (zlen (enc (ILine (LOp name))) = 1) as E1 by (cbn [enc code]; by rewrite He). unfold disAfter. rewrite E1. printed.
Qed.

(** ** The whole program *)

Fixpoint branches (pos n : Z) (js : list Ins) : list (Z * string) :=
  match js with [] => [] | j :: js => branchAt pos (n + isBnz j) j ++ branches (pos + zlen (enc j)) (n + isBnz j) js end.
Definition labelHere (P : gmap Z string) (pos : Z) : list Line := match P !! pos with Some label => [LLabel label] | None => [] end.
Fixpoint disLines (P : gmap Z string) (pos n : Z) (js : list Ins) : list Line :=
  match js with
  | [] => []
  | j :: js => labelHere P pos ++ lineAt (n + isBnz j) j :: disLines P (pos + zlen (enc j)) (n + isBnz j) js
  end.
Definition bnzCount (js : list Ins) : Z := sumZ isBnz js.

Definition endsShort (js : list Ins) : Prop :=
  match last js with Some (ILine (LByteCBlock bs)) => last bs = Some [] | _ => False end.
#[export] Instance endsShort_dec js : Decision (endsShort js).
Proof. unfold endsShort. destruct (last js) as [[|[]]|]; apply _. Defined.

Lemma enc_pos j : okIns j -> 1 <= zlen (enc j).
Proof. destruct j as [off|l]; cbn [okIns enc]; [done|]. intros [Hs Hb]. by apply code_pos. Qed.
Lemma encs_cons j js : encs (j :: js) = enc j ++ encs js.
Proof. reflexivity. Qed.
Lemma encs_nil js : Forall okIns js -> encs js = [] -> js = [].
Proof.
  intros HF E. destruct HF as [|j js Hj _]; [done|]. rewrite encs_cons in E. apply app_nil in E as [E _].
  pose proof (enc_pos j Hj) as H. by rewrite E in H.
Qed.
Lemma branches_later js : forall pos n t label, Forall okIns js -> (t, label) ∈ branches pos n js -> pos + 3 <= t.
Proof.
  induction js as [|j js IH]; intros pos n t label HF Hin; cbn [branches] in Hin; [by apply not_elem_of_nil in Hin|].
  apply Forall_cons in HF as [Hj HF]. apply elem_of_app in Hin as [Hin|Hin].
  - destruct j as [off|l]; cbn in Hin, Hj; [|by apply not_elem_of_nil in Hin]. apply list_elem_of_singleton in Hin. simplify_eq. lia.
  - apply IH in Hin; [|done]. pose proof (enc_pos j Hj). lia.
Qed.
Lemma waiting_app m l k : waiting m (l ++ k) = waiting (waiting m l) k.
Proof. apply foldl_app. Qed.
Lemma waiting_ne l : forall m x, (forall t label, (t, label) ∈ l -> t <> x) -> waiting m l !! x = m !! x.
Proof.
  induction l as [|[t label] l IH]; intros m x Hne; [done|]. cbn [waiting foldl]. change (foldl _ ?m l) with (waiting m l). rewrite IH.
  - apply lookup_insert_ne. eapply Hne. left.
  - intros ?? Hin. eapply Hne. right. exact Hin.
Qed.
Lemma unlines_app a b : unlines (a ++ b) = unlines a +:+ unlines b.
Proof. induction a as [|x a IH]; [done|]. cbn [app unlines foldr]. fold (unlines (a ++ b)) (unlines a). by rewrite IH, app_assoc_s, app_cons_s. Qed.

Lemma disLabel_run dis : disLabel dis = dis <| dis_out ::= λ o, o +:+ unlines (printLine <$> labelHere (dis_pendingLabels dis) (dis_pc dis)) |>.
Proof.
  unfold disLabel, labelHere. destruct dis as [p pc out n m nx]. cbn. destruct (m !! pc) as [label|]; cbn.
  - unfold disPut, printLine, unlines. cbn. by rewrite !app_assoc_s.
  - by rewrite app_nil_r_s.
Qed.

Lemma dis_loop js : forall fuel pre dis, Forall okIns js -> (length js <= fuel)%nat -> dis_program dis = pre ++ encs js ->
  dis_pc dis = zlen pre -> zlen (dis_program dis) < 2 ^ 64 ->
  let P := waiting (dis_pendingLabels dis) (branches (dis_pc dis) (dis_labelCount dis) js) in
  if decide (endsShort js) then disLoop fuel dis = Err errShortBytecblock
  else exists next, disLoop fuel dis = Ok (mkDis (dis_program dis) (zlen (dis_program dis))
    (dis_out dis +:+ unlines (printLine <$> disLines P (dis_pc dis) (dis_labelCount dis) js))
    (dis_labelCount dis + bnzCount js) P next, None).
Proof.
  induction js as [|j js IH]; intros fuel pre dis HF Hf Hp Hpc Hl P.
  { destruct (decide (endsShort [])) as [[]|_]. unfold encs in Hp. cbn in Hp. rewrite app_nil_r in Hp. exists (dis_nextpc dis).
    assert (disLoop fuel dis = if dis_pc dis <? zlen (dis_program dis) then disLoop fuel dis else Ok (dis, None)) as ->.
    { destruct fuel; cbn [disLoop]; by destruct (_ <? _). }
    rewrite Hp, Hpc, (proj2 (Z.ltb_ge _ _)) by lia. subst P. destruct dis. cbn in *. subst. by rewrite app_nil_r_s, Z.add_0_r. }
  apply Forall_cons in HF as [Hj HF]. pose proof (enc_pos j Hj) as Hpos. destruct fuel as [|fuel]; [cbn in Hf; lia|].
  rewrite encs_cons in Hp. cbn [disLoop]. rewrite (proj2 (Z.ltb_lt _ _)).
  2:{ rewrite Hp, Hpc, !zlen_app. pose proof (zlen_nonneg (encs js)). lia. }
  assert (P !! dis_pc dis = dis_pendingLabels dis !! dis_pc dis) as HP.
  { apply waiting_ne. intros t label Hin%branches_later; [lia|by constructor]. }
  unfold disStep. rewrite disLabel_run. set (d1 := dis <| dis_out ::= _ |>).
  assert (atIns j pre (encs js) d1) as Ha by (by split).
  pose proof (dis_ins j pre (encs js) d1 Ha Hj Hl) as Hi.
  destruct (decide (shortIns j (encs js))) as [Hs|Hs].
  { assert (js = []) as ->. { apply encs_nil; [done|]. destruct j as [|[]]; try done. by destruct Hs. }
    rewrite decide_True; [by rewrite Hi|]. destruct j as [|[]]; try done. by destruct Hs. }
  destruct Hi as [next Hi]. rewrite Hi. cbn [mbind result_bind].
  specialize (IH fuel (pre ++ enc j) (disAfter j next d1) HF). cbn [disAfter dis_program dis_pc dis_labelCount dis_pendingLabels dis_out] in IH.
  change (dis_program d1) with (dis_program dis) in IH. change (dis_pc d1) with (dis_pc dis) in IH.
  change (dis_labelCount d1) with (dis_labelCount dis) in IH. change (dis_pendingLabels d1) with (dis_pendingLabels dis) in IH.
  specialize (IH ltac:(cbn in Hf; lia)). rewrite <- app_assoc, zlen_app, <- Hpc in IH. specialize (IH Hp eq_refl Hl).
  rewrite <- waiting_app in IH. change (branchAt _ _ _ ++ branches _ _ js) with (branches (dis_pc dis) (dis_labelCount dis) (j :: js)) in IH.
  assert (endsShort (j :: js) <-> endsShort js) as He.
  { unfold endsShort. destruct js as [|k js]; [|done]. cbn [last]. split; [|done]. destruct j as [|[]]; try done. intros Hlast. by destruct Hs. }
  fold P in IH. cbn zeta in IH. destruct (decide (endsShort js)); [rewrite decide_True by (by apply He); exact IH|rewrite decide_False by (by rewrite He)].
  destruct IH as [nx IH]. exists nx. rewrite IH. do 3 f_equal; [|unfold bnzCount; cbn; lia].
  cbn [disLines]. rewrite fmap_app, fmap_cons, unlines_app. unfold d1. cbn [dis_out rset setter].
  unfold labelHere at 1 2. rewrite HP. cbn [unlines foldr]. unfold endl. rewrite !app_assoc_s. done.
Qed.

(** ** Assembling the printed lines *)

Lemma lines_run ls : forall ops c, Forall shape ls -> crun ls (coreOf ops) = Some c -> forM assembleLine ls ops = (Ok tt, withCore ops c).
Proof.
  induction ls as [|l ls IH]; intros ops c HF E; cbn [crun forM] in *; [injection E as <-; by destruct ops|].
  apply Forall_cons in HF as [Hl HF]. apply bind_Some in E as (c1 & E1 & E). pose proof (shape_run l ops Hl) as Hr. rewrite E1 in Hr.
  unfold mbind, M_bind. rewrite Hr. rewrite (IH (withCore ops c1) c); [done|done|]. by rewrite coreOf_withCore.
Qed.
Lemma program_run ls c : Forall shape ls -> crun ls core0 = Some c ->
  assembleProgram ls = (raw ← resolveAll (c_labels c) (c_refs c) (c_out c); Ok ([1] ++ raw)).
Proof.
  intros HF E. unfold assembleProgram, assembleLines. unfold mbind at 1, M_bind. rewrite (lines_run _ OpStream_zero _ HF E).
  unfold resolveLabels, mbind at 1, M_bind, get, lift. cbn. unfold mbind, M_bind. cbn. by destruct (resolveAll _ _ _).
Qed.

Fixpoint starts (pos : Z) (js : list Ins) : list Z :=
  match js with [] => [] | j :: js => pos :: starts (pos + zlen (enc j)) js end.
Lemma starts_range js : forall pos x, Forall okIns js -> x ∈ starts pos js -> pos <= x < pos + zlen (encs js).
Proof.
  induction js as [|j js IH]; intros pos x HF Hx; cbn [starts] in Hx; [by apply not_elem_of_nil in Hx|]. apply Forall_cons in HF as [Hj HF].
  pose proof (enc_pos j Hj). rewrite encs_cons, zlen_app. pose proof (zlen_nonneg (encs js)).
  apply elem_of_cons in Hx as [->|Hx]; [lia|]. apply IH in Hx; [lia|done].
Qed.
Lemma bnd_starts js : forall pos x, x ∈ bndI pos js <-> x ∈ starts pos js \/ x = pos + zlen (encs js).
Proof.
  induction js as [|j js IH]; intros pos x; cbn [bndI starts].
  { unfold encs. cbn. change (zlen []) with 0. rewrite list_elem_of_singleton, elem_of_nil. split; [intros ->; right; lia|intros [[]| ->]; lia]. }
  rewrite !elem_of_cons, IH, encs_cons, zlen_app, Z.add_assoc. tauto.
Qed.

Lemma lineAt_code n j : okIns j -> code (lineAt n j) = match j with IBnz _ => [0x40; 0; 0] | ILine l => code l end.
Proof. by destruct j. Qed.
Lemma lineAt_len n j : okIns j -> zlen (code (lineAt n j)) = zlen (enc j).
Proof. by destruct j. Qed.

Section Printed.
Context (P : gmap Z string).

Lemma disLines_types js : forall pos n ts seen, Forall okIns js ->
  typesAfter (disLines P pos n js) ts seen = typesAfter (plainLine <$> js) ts seen.
Proof.
  induction js as [|j js IH]; intros pos n ts seen HF; [done|]. apply Forall_cons in HF as [Hj HF].
  assert (forall t s, typesAfter (lineAt (n + isBnz j) j :: disLines P (pos + zlen (enc j)) (n + isBnz j) js) t s = typesAfter (plainLine <$> j :: js) t s) as Hl.
  { intros t s. cbn [fmap list_fmap typesAfter]. destruct j as [off|l]; cbn [lineAt plainLine effect].
    - destruct (checkTypes _ _ _); [|done]. cbn [mbind option_bind]. by rewrite IH.
    - destruct (effect l t s); [|done]. cbn [mbind option_bind]. by rewrite IH. }
  cbn [disLines]. unfold labelHere. destruct (P !! pos); [|apply Hl]. cbn [app typesAfter effect mbind option_bind]. rewrite orb_false_r. apply Hl.
Qed.

(** The labels of the printed lines, by their positions in the output. *)
Lemma disLines_labels js : (forall x y label, P !! x = Some label -> P !! y = Some label -> x = y) -> forall pos n m, Forall okIns js ->
  (forall x label, pos <= x -> P !! x = Some label -> m !! label = None) ->
  exists m', labelsAt (pos - 1) (disLines P pos n js) m = Some m' /\ forall label d, m' !! label = Some d <->
    m !! label = Some d \/ exists x, x ∈ starts pos js /\ P !! x = Some label /\ d = x - 1.
Proof.
  intros Hinj. induction js as [|j js IH]; intros pos n m HF Hm.
  { exists m. split; [done|]. intros label d. split; [by left|]. intros [|(x & Hx & _)]; [done|by apply not_elem_of_nil in Hx]. }
  apply Forall_cons in HF as [Hj HF]. pose proof (enc_pos j Hj) as Hpos.
  assert (forall m, labelsAt (pos - 1) (lineAt (n + isBnz j) j :: disLines P (pos + zlen (enc j)) (n + isBnz j) js) m
    = labelsAt (pos + zlen (enc j) - 1) (disLines P (pos + zlen (enc j)) (n + isBnz j) js) m) as Hl.
  { intros m1. cbn [labelsAt]. rewrite lineAt_len by done. replace (pos - 1 + zlen (enc j)) with (pos + zlen (enc j) - 1) by lia.
    assert (addLabel (lineAt (n + isBnz j) j) (pos - 1) m1 = Some m1) as ->; [|done]. destruct j as [|l]; [done|]. cbn in Hj |- *. by destruct l; try (destruct Hj). }
  cbn [disLines starts]. unfold labelHere. destruct (P !! pos) as [label0|] eqn:E.
  - cbn [app]. change (labelsAt (pos - 1) (LLabel label0 :: ?ls) m) with (m1 ← addLabel (LLabel label0) (pos - 1) m; labelsAt (pos - 1 + 0) ls m1).
    unfold addLabel. rewrite (Hm pos label0 ltac:(lia) E). cbn [mbind option_bind]. rewrite Z.add_0_r, Hl.
    destruct (IH (pos + zlen (enc j)) (n + isBnz j) (<[label0 := pos - 1]> m) HF) as (m' & E' & HL).
    { intros x label Hx HP. destruct (decide (label0 = label)) as [->|]; [|rewrite lookup_insert_ne by done; apply (Hm x); [lia|done]].
      pose proof (Hinj _ _ _ E HP). lia. }
    exists m'. split; [done|]. intros label d. rewrite HL. setoid_rewrite elem_of_cons. split.
    + intros [Hd|(x & Hx & HP & ->)]; [|right; eauto]. destruct (decide (label0 = label)) as [->|].
      * rewrite lookup_insert_eq in Hd. injection Hd as <-. right. eauto.
      * rewrite lookup_insert_ne in Hd by done. by left.
    + intros [Hd|(x & [->|Hx] & HP & ->)]; [|left; rewrite HP in E; injection E as ->; by rewrite lookup_insert_eq|right; eauto].
      left. rewrite lookup_insert_ne; [done|]. intros ->. rewrite (Hm pos label) in Hd by (try done; lia). done.
  - cbn [app]. rewrite Hl. destruct (IH (pos + zlen (enc j)) (n + isBnz j) m HF) as (m' & E' & HL); [intros; eapply Hm; [|done]; lia|].
    exists m'. split; [done|]. intros label d. rewrite HL. setoid_rewrite elem_of_cons. split; [intros [|(x & ? & ?)]; eauto|].
    intros [|(x & [->|Hx] & HP & ->)]; [by left|congruence|right; eauto].
Qed.

(** They are the instructions again when each label is where the branch goes. *)
Lemma disLines_ins L js : forall pos n, Forall okIns js ->
  ((forall t label, (t, label) ∈ branches pos n js -> L !! label = Some (t - 1)) -> insOf L (pos - 1) (disLines P pos n js) = Some js)
  /\ (is_Some (insOf L (pos - 1) (disLines P pos n js)) -> forall t label, (t, label) ∈ branches pos n js -> is_Some (L !! label)).
Proof.
  induction js as [|j js IH]; intros pos n HF; [split; [done|]; intros _ t label Hin; by apply not_elem_of_nil in Hin|].
  apply Forall_cons in HF as [Hj HF]. specialize (IH (pos + zlen (enc j)) (n + isBnz j) HF).
  assert (insOf L (pos - 1) (disLines P pos n (j :: js)) =
    insOf L (pos - 1) (lineAt (n + isBnz j) j :: disLines P (pos + zlen (enc j)) (n + isBnz j) js)) as ->
    by (cbn [disLines]; unfold labelHere; by destruct (P !! pos)).
  cbn [branches]. setoid_rewrite elem_of_app. destruct j as [off|l]; cbn [lineAt isBnz branchAt] in *.
  - change (zlen (enc (IBnz off))) with 3 in *. cbn [insOf]. replace (pos - 1 + 3) with (pos + 3 - 1) by lia. cbn [okIns] in Hj. destruct IH as [I1 I2]. split.
    + intros HL. rewrite (HL (pos + 3 + off) (labelName (n + 1))) by (left; left). cbn [mbind option_bind].
      rewrite (proj2 (Z.ltb_ge _ _)), (proj2 (Z.ltb_ge _ _)) by lia. cbn [orb]. rewrite I1 by (intros; apply HL; by right). cbn. do 3 f_equal. lia.
    + intros [js' (dest & Ed & E)%bind_Some] t label [Hin%list_elem_of_singleton|Hin].
      * injection Hin as -> ->. rewrite Ed. by eexists.
      * destruct (_ || _); [done|]. apply bind_Some in E as (js1 & E1 & _). eapply I2; [by eexists|exact Hin].
  - assert (insOf L (pos - 1) (l :: disLines P (pos + zlen (enc (ILine l))) (n + 0) js) =
      (js1 ← insOf L (pos + zlen (enc (ILine l)) - 1) (disLines P (pos + zlen (enc (ILine l))) (n + 0) js); Some (ILine l :: js1))) as ->.
    { replace (pos + zlen (enc (ILine l)) - 1) with (pos - 1 + zlen (code l)) by (cbn [enc]; lia). destruct Hj as [_ Hb]. by destruct l. }
    destruct IH as [I1 I2]. split.
    + intros HL. rewrite I1 by (intros; apply HL; by right). done.
    + intros [js' (js1 & E1 & _)%bind_Some] t label [Hin|Hin]; [by apply not_elem_of_nil in Hin|]. eapply I2; [by eexists|exact Hin].
Qed.
Lemma disLines_shape js : forall pos n, Forall okIns js -> Forall shape (disLines P pos n js).
Proof.
  induction js as [|j js IH]; intros pos n HF; [constructor|]. apply Forall_cons in HF as [Hj HF]. cbn [disLines]. apply Forall_app. split.
  - unfold labelHere. destruct (P !! pos); repeat constructor.
  - constructor; [|by apply IH]. destruct j; [done|]. by destruct Hj.
Qed.
End Printed.

(** ** Branches and the labels that wait *)

Lemma bnzCount_nonneg js : 0 <= bnzCount js.
Proof. unfold bnzCount. apply sumZ_nonneg. intros [|] _; cbn; lia. Qed.
Lemma bnzCount_cons j js : bnzCount (j :: js) = isBnz j + bnzCount js.
Proof. reflexivity. Qed.
Lemma branches_count js : forall pos n, zlen (branches pos n js) = bnzCount js.
Proof.
  induction js as [|j js IH]; intros pos n; [done|]. cbn [branches]. rewrite zlen_app, IH, bnzCount_cons. by destruct j.
Qed.
Lemma branches_label js : forall pos n t label, (t, label) ∈ branches pos n js -> exists k, n < k <= n + bnzCount js /\ label = labelName k.
Proof.
  induction js as [|j js IH]; intros pos n t label Hin; cbn [branches] in Hin; [by apply not_elem_of_nil in Hin|].
  rewrite bnzCount_cons. pose proof (bnzCount_nonneg js). apply elem_of_app in Hin as [Hin|Hin].
  - destruct j; cbn in Hin; [|by apply not_elem_of_nil in Hin]. apply list_elem_of_singleton in Hin. injection Hin as -> ->. exists (n + 1). cbn. split; [lia|done].
  - apply IH in Hin as (k & Hk & ->). exists k. split; [|done]. destruct j; cbn in *; lia.
Qed.
Lemma labelName_inj a b : u64 a -> u64 b -> labelName a = labelName b -> a = b.
Proof.
  intros Ha Hb E. assert (FormatUint a = FormatUint b) as E'.
  { unfold labelName in E. by simplify_eq. }
  apply (f_equal ParseUint) in E'. rewrite !ParseUint_FormatUint in E' by done. congruence.
Qed.
(** A label belongs to one branch. *)
Lemma branches_NoDup js : forall pos n, 0 <= n -> n + bnzCount js < 2 ^ 64 -> NoDup (branches pos n js).*2.
Proof.
  induction js as [|j js IH]; intros pos n Hn Hb; cbn [branches]; [constructor|]. rewrite bnzCount_cons in Hb.
  pose proof (bnzCount_nonneg js). destruct j as [off|]; cbn [branchAt isBnz app] in *; [|apply IH; lia].
  cbn [fmap list_fmap snd]. apply NoDup_cons. split; [|apply IH; lia]. intros ([t label] & E & Hin)%list_elem_of_fmap. cbn in E. subst label.
  apply branches_label in Hin as (k & Hk & Ek). apply labelName_inj in Ek; unfold u64; lia.
Qed.
Lemma pairs_unique {A B} (l : list (A * B)) : NoDup l.*2 -> forall t t' b, (t, b) ∈ l -> (t', b) ∈ l -> t = t'.
Proof.
  induction l as [|[x y] l IH]; intros Hnd t t' b H1 H2; [by apply not_elem_of_nil in H1|]. cbn in Hnd. apply NoDup_cons in Hnd as [Hn Hnd].
  assert (forall z, (z, y) ∉ l) as Hz by (intros z Hz; apply Hn, list_elem_of_fmap; by exists (z, y)).
  apply elem_of_cons in H1 as [H1|H1], H2 as [H2|H2]; simplify_eq; [done|by exfalso; eapply Hz..|by eapply IH].
Qed.
Lemma pairs_NoDup {A B} (l : list (A * B)) : NoDup l.*2 -> (forall t a b, (t, a) ∈ l -> (t, b) ∈ l -> a = b) -> NoDup l.*1.
Proof.
  induction l as [|[x y] l IH]; intros Hnd Hf; cbn; [constructor|]. cbn in Hnd. apply NoDup_cons in Hnd as [Hn Hnd]. apply NoDup_cons. split.
  - intros ([t b] & E & Hin)%list_elem_of_fmap. cbn in E. subst t. assert (y = b) as -> by (apply (Hf x); [left|by right]).
    apply Hn, list_elem_of_fmap. by exists (x, b).
  - apply IH; [done|]. intros t a b Ha Hb. apply (Hf t); by right.
Qed.

Lemma waiting_in l : forall m t label, waiting m l !! t = Some label -> m !! t = Some label \/ (t, label) ∈ l.
Proof.
  induction l as [|[t0 l0] l IH]; intros m t label E; [by left|]. cbn [waiting foldl] in E. change (foldl _ ?m l) with (waiting m l) in E.
  destruct (IH _ _ _ E) as [Hi|Hi]; [|right; by right]. cbn in Hi. apply lookup_insert_Some in Hi as [[-> ->]|[_ Hi]]; [right; left|by left].
Qed.
Lemma waiting_found l : forall m t label, NoDup l.*1 -> (t, label) ∈ l -> waiting m l !! t = Some label.
Proof.
  induction l as [|[t0 l0] l IH]; intros m t label Hnd Hin; [by apply not_elem_of_nil in Hin|]. cbn in Hnd. apply NoDup_cons in Hnd as [Hn Hnd].
  cbn [waiting foldl]. change (foldl _ ?m l) with (waiting m l). apply elem_of_cons in Hin as [[= -> ->]|Hin]; [|by apply IH].
  rewrite waiting_ne; [apply lookup_insert_eq|]. intros t' label' Hin ->. apply Hn. apply list_elem_of_fmap. by exists (t0, label').
Qed.
Lemma waiting_size l : forall m, (size (waiting m l) <= size m + length l)%nat
  /\ (size (waiting m l) = size m + length l <-> NoDup l.*1 /\ forall t, t ∈ l.*1 -> m !! t = None)%nat.
Proof.
  induction l as [|[t0 l0] l IH]; intros m; cbn [waiting foldl length fmap list_fmap fst].
  { split; [cbn; lia|]. split; [intros _; split; [constructor|intros t Ht; by apply not_elem_of_nil in Ht]|cbn; lia]. }
  change (foldl _ ?m l) with (waiting m l). cbn [fst snd]. destruct (IH (<[t0 := l0]> m)) as [I1 I2]. rewrite map_size_insert in I1, I2.
  rewrite NoDup_cons. setoid_rewrite elem_of_cons. destruct (m !! t0) as [x|] eqn:E; cbn [id] in I1, I2; split.
  - lia.
  - split; [intros Hs; exfalso; lia|]. intros [_ Hm]. rewrite Hm in E by (by left). done.
  - lia.
  - replace (size m + S (length l))%nat with (S (size m) + length l)%nat by lia. rewrite I2. split.
    + intros [Hnd Hm]. split; [split; [|done]|].
      * intros Hin. specialize (Hm _ Hin). by rewrite lookup_insert_eq in Hm.
      * intros t [->|Ht]; [done|]. specialize (Hm _ Ht). by apply lookup_insert_None in Hm as [? _].
    + intros [[Hn Hnd] Hm]. split; [done|]. intros t Ht. apply lookup_insert_None. split; [by apply Hm; right|]. intros ->. done.
Qed.

(** ** When the labels resolve *)

Lemma branches_bound js : forall pos n t label, targetsOk js -> (t, label) ∈ branches pos n js -> t ∈ bndI pos js.
Proof.
  induction js as [|j js IH]; intros pos n t label HT Hin; cbn [branches] in Hin; [by apply not_elem_of_nil in Hin|].
  apply elem_of_app in Hin as [Hin|Hin].
  - destruct j as [off|]; cbn in Hin; [|by apply not_elem_of_nil in Hin]. apply list_elem_of_singleton in Hin. injection Hin as -> ->.
    destruct HT as [HT _]. cbn [bndI]. right. change (zlen (enc (IBnz off))) with 3. apply (bndI_shift (pos + 3)) in HT.
    by rewrite Z.add_0_l, (Z.add_comm off) in HT.
  - cbn [bndI]. right. eapply IH; [|exact Hin]. by destruct j; [destruct HT|].
Qed.

Section Program.
Context (js : list Ins).
Hypothesis (Hok : Forall okIns js) (HT : targetsOk js) (Hty : is_Some (typesAfter (plainLine <$> js) [] false)).
Hypothesis (Hsmall : bnzCount js < 2 ^ 64).
Let B := branches 1 0 js.
Let P := waiting ∅ B.

Lemma P_in t label : P !! t = Some label -> (t, label) ∈ B.
Proof using. intros E%waiting_in. by destruct E. Qed.
Lemma P_inj x y label : P !! x = Some label -> P !! y = Some label -> x = y.
Proof using Hsmall. intros Hx%P_in Hy%P_in. eapply pairs_unique; [|exact Hx|exact Hy]. apply branches_NoDup; lia. Qed.

Definition resolves : Prop := forall t label, (t, label) ∈ B -> t ∈ starts 1 js /\ P !! t = Some label.

Lemma resolves_apart : resolves <-> Z.of_nat (size P) = bnzCount js /\ P !! (1 + zlen (encs js)) = None.
Proof using Hok HT Hsmall.
  assert (Z.of_nat (size P) = bnzCount js <-> NoDup B.*1) as Hsz.
  { pose proof (waiting_size B ∅) as [_ Hw]. fold P in Hw. rewrite map_size_empty in Hw. cbn [Nat.add] in Hw.
    rewrite <- (branches_count js 1 0). fold B. unfold zlen. rewrite Nat2Z.inj_iff, Hw. split; [by intros []|]. intros Hnd. split; [done|]. intros. apply lookup_empty. }
  rewrite Hsz. split.
  - intros Hr. split.
    + apply pairs_NoDup; [apply branches_NoDup; lia|]. intros t a b [_ Ha]%Hr [_ Hb]%Hr. congruence.
    + destruct (P !! _) as [label|] eqn:E; [|done]. apply P_in, Hr in E as [Hs _]. apply starts_range in Hs; [lia|done].
  - intros [Hnd He] t label Hin. assert (P !! t = Some label) as HP by (by apply waiting_found). split; [|done].
    pose proof (branches_bound _ _ _ _ _ HT Hin) as Hb. apply bnd_starts in Hb as [| ->]; [done|]. by rewrite HP in He.
Qed.

(** The printed lines assemble to the program exactly when the labels resolve. *)
Lemma printed_assembles : assembleProgram (disLines P 1 0 js) = Ok ([1] ++ encs js) <-> resolves.
Proof using Hok HT Hty Hsmall.
  destruct (disLines_labels P js P_inj 1 0 ∅ Hok) as (L & EL & HL); [intros; apply lookup_empty|].
  assert (forall label d, L !! label = Some d <-> exists x, x ∈ starts 1 js /\ P !! x = Some label /\ d = x - 1) as HL'.
  { intros label d. rewrite HL, lookup_empty. split; [by intros [|]|by right]. }
  destruct Hty as [ts Hts]. set (ls := disLines P 1 0 js) in *. assert (Forall shape ls) as HS by by apply disLines_shape.
  assert (crun ls core0 = Some (mkCore (codes_of ls) ts L (refsAt 0 ls))) as Er.
  { apply crun_parts. cbn [core0 c_out c_types c_labels c_refs seenRefs length Nat.eqb negb app]. unfold ls. by rewrite disLines_types. }
  rewrite (program_run _ _ HS Er). cbn [c_labels c_refs c_out]. pose proof (insOf_resolve L ls []) as Hi. cbn [app] in Hi. change (zlen []) with 0 in Hi.
  destruct (disLines_ins P L js 1 0 Hok) as [I1 I2]. change (1 - 1) with 0 in I1, I2. fold ls in I1, I2. fold B in I1, I2. split.
  - intros E t label Hin. destruct (insOf L 0 ls) as [js'|] eqn:Ej; [|destruct Hi as [e Hi]; by rewrite Hi in E].
    destruct (I2 (mk_is_Some _ _ eq_refl) t label Hin) as [d Hd]. apply HL' in Hd as (x & Hx & HP & _).
    assert (x = t) as <-; [|done]. eapply pairs_unique; [apply (branches_NoDup js 1 0); lia|by apply P_in|exact Hin].
  - intros Hr. rewrite I1 in Hi; [by rewrite Hi|]. intros t label Hin. apply HL'. destruct (Hr t label Hin). by exists t.
Qed.
End Program.

(** ** The printed lines are short *)

Lemma uvarint_size fuel : forall x, (0 < fuel)%nat -> 0 <= x < 128 ^ Z.of_nat fuel -> x < 128 ^ zlen (putUvarintLoop fuel x).
Proof.
  induction fuel as [|fuel IH]; intros x H0 Hx; [lia|]. cbn [putUvarintLoop]. destruct (Z.ltb_spec x 0x80) as [Hlt|Hge]; [change (zlen [x]) with 1; change (128 ^ 1) with 128; lia|].
  rewrite zlen_cons. assert (0 <= Z.shiftr x 7 < 128 ^ Z.of_nat fuel) as Hs.
  { rewrite Z.shiftr_div_pow2 by lia. change (2 ^ 7) with 128. split; [apply Z.div_pos; lia|]. apply Z.div_lt_upper_bound; [lia|].
    rewrite <- Z.pow_succ_r by lia. replace (Z.succ (Z.of_nat fuel)) with (Z.of_nat (S fuel)) by lia. apply Hx. }
  destruct fuel as [|fuel]; [cbn in Hs; rewrite Z.shiftr_div_pow2 in Hs by lia; change (2 ^ 7) with 128 in Hs; pose proof (Z.div_le_lower_bound x 128 1); lia|].
  specialize (IH _ ltac:(lia) Hs). pose proof (zlen_nonneg (putUvarintLoop (S fuel) (Z.shiftr x 7))) as Hn. revert IH Hn.
  generalize (zlen (putUvarintLoop (S fuel) (Z.shiftr x 7))) as k. intros k IH Hn. rewrite Z.add_comm, Z.pow_add_r by lia. change (128 ^ 1) with 128.
  rewrite Z.shiftr_div_pow2 in IH by lia. change (2 ^ 7) with 128 in IH. pose proof (Z.mul_succ_div_gt x 128 ltac:(lia)). nia.
Qed.
(** A number is at most three digits for each byte of its encoding. *)
Lemma number_len v : u64 v -> slen (FormatUint v) <= 3 * zlen (PutUvarint v).
Proof.
  intros Hv. pose proof (PutUvarint_len v) as Hk. apply FormatUint_len; [done|lia|].
  assert (v < 128 ^ zlen (PutUvarint v)) as H1.
  { apply uvarint_size; [lia|]. unfold u64 in Hv. assert (2 ^ 64 < 128 ^ Z.of_nat 10) by (vm_compute; done). lia. }
  assert (128 ^ zlen (PutUvarint v) <= 10 ^ (3 * zlen (PutUvarint v))) as H2; [|lia].
  rewrite Z.pow_mul_r by lia. change (10 ^ 3) with 1000. apply Z.pow_le_mono_l. lia.
Qed.
Lemma small_number v : u64 v -> slen (FormatUint v) <= 20.
Proof. intros Hv. apply FormatUint_len; [done|lia|]. apply (u64_digits v Hv). Qed.
Lemma blanks_len ws : slen (blanks ws) = sumZ (λ w, 1 + slen w) ws.
Proof. induction ws as [|w ws IH]; [done|]. cbn [blanks foldr]. rewrite !slen_app. fold (blanks ws). rewrite IH. cbn. lia. Qed.
Lemma concat_len {A} (f : A -> bytes) l : zlen (concat (f <$> l)) = sumZ (λ x, zlen (f x)) l.
Proof. induction l as [|x l IH]; [done|]. cbn [fmap list_fmap concat]. rewrite zlen_app, IH. done. Qed.
Lemma sum_words {A} (g : A -> string) (f : A -> bytes) l : Forall (λ x, 1 + slen (g x) <= 4 * zlen (f x)) l ->
  slen (blanks (g <$> l)) <= 4 * zlen (concat (f <$> l)).
Proof.
  rewrite blanks_len, concat_len. induction 1 as [|x l Hx _ IH]; [done|]. cbn [fmap list_fmap]. cbn [sumZ]. lia.
Qed.
Lemma tables_short : Forall (λ n, slen n <= 16) (plainOps.*1 ++ TxnFieldNames ++ GlobalFieldNames).
Proof. apply (bool_decide_unpack _). vm_compute. exact I. Qed.
Lemma name_short n : n ∈ plainOps.*1 ++ TxnFieldNames ++ GlobalFieldNames -> slen n <= 16.
Proof. intros H. pose proof tables_short as HF. rewrite Forall_forall in HF. by apply HF. Qed.

Lemma line_len l : canon l -> slen (printLine l) <= 4 * zlen (code l) + 45.
Proof.
  intros Hc. unfold printLine. rewrite slen_app. assert (forall v, 0 <= v <= 255 -> slen (FormatUint v) <= 20) as Hn
    by (intros v Hv; apply small_number; unfold u64; lia).
  pose proof (zlen_nonneg (code l)) as H0.
  destruct l; cbn [printWords fst snd canon code] in *; try done;
    try (rewrite blanks_len; cbn [sumZ]).
  1,3,5,10,11: match goal with H : _ <= ?v <= 255 |- _ => pose proof (Hn v ltac:(lia)) end; cbn [slen]; lia.
  - rewrite <- (blanks_len (FormatUint <$> vs)). unfold intBlock. rewrite zlen_cons, zlen_app. pose proof (PutUvarint_len (zlen vs)). cbn [slen].
    assert (slen (blanks (FormatUint <$> vs)) <= 4 * zlen (concat (PutUvarint <$> vs))); [|lia].
    apply sum_words. eapply Forall_impl; [exact Hc|]. intros v Hv. cbv beta. pose proof (number_len v Hv). pose proof (PutUvarint_len v). lia.
  - rewrite <- (blanks_len ((λ b, "0x" +:+ hexEncode b) <$> bs)). unfold byteBlock. rewrite zlen_cons, zlen_app. pose proof (PutUvarint_len (zlen bs)). cbn [slen].
    match goal with |- context [zlen (concat ?c)] => assert (slen (blanks ((λ b, "0x" +:+ hexEncode b) <$> bs)) <= 4 * zlen (concat c)); [|lia] end.
    apply sum_words. eapply Forall_impl; [exact Hc|]. intros b _. cbv beta. rewrite slen_app, hexEncode_len, zlen_app. pose proof (PutUvarint_len (zlen b)).
    pose proof (zlen_nonneg b). cbn [slen]. lia.
  - pose proof (name_short (fieldName TxnFieldNames f)) as Hf. rewrite !elem_of_app in Hf. specialize (Hf ltac:(right; left; by apply field_known)). cbn [slen]. lia.
  - destruct Hc as [Hg Hf]. pose proof (name_short (fieldName TxnFieldNames f)) as Hs. rewrite !elem_of_app in Hs.
    specialize (Hs ltac:(right; left; by apply field_known)). pose proof (Hn gid Hg). cbn [slen code] in *. change (zlen [51; gid; f]) with 3. lia.
  - pose proof (name_short (fieldName GlobalFieldNames f)) as Hf. rewrite !elem_of_app in Hf. specialize (Hf ltac:(right; right; by apply field_known)). cbn [slen]. lia.
  - destruct Hc as (n & Hu & ->). unfold labelName. rewrite slen_app. pose proof (small_number n Hu). cbn [slen]. lia.
  - pose proof (name_short name) as Hs. rewrite !elem_of_app in Hs. specialize (Hs (or_introl Hc)). cbn [slen]. lia.
  - destruct Hc as (n & Hu & ->). unfold labelName. rewrite !slen_app. pose proof (small_number n Hu). cbn [slen]. lia.
Qed.

(** ** The text *)

Lemma disLines_canon P js : (forall x label, P !! x = Some label -> exists k, u64 k /\ label = labelName k) ->
  forall pos n, Forall okIns js -> 0 <= n -> n + bnzCount js < 2 ^ 64 ->
  Forall (λ l, canon l /\ zlen (code l) <= zlen (encs js)) (disLines P pos n js).
Proof.
  intros HP. induction js as [|j js IH]; intros pos n HF Hn Hb; [constructor|]. apply Forall_cons in HF as [Hj HF]. cbn [disLines].
  rewrite bnzCount_cons in Hb. pose proof (bnzCount_nonneg js). pose proof (zlen_nonneg (encs js)). pose proof (zlen_nonneg (enc j)).
  rewrite encs_cons, zlen_app. apply Forall_app. split; [|constructor].
  - unfold labelHere. destruct (P !! pos) as [label|] eqn:E; [|constructor]. constructor; [|constructor]. split; [by apply (HP pos)|]. cbn [code]. change (zlen []) with 0. lia.
  - rewrite lineAt_len by done. split; [|lia]. destruct j as [off|l]; cbn [lineAt isBnz] in *; [exists (n + 1); unfold u64; split; [lia|done]|].
    destruct Hj as [Hs Hbr]. by destruct l.
  - eapply Forall_impl; [apply IH; [done| |]; destruct j; cbn in *; lia|]. cbv beta. intros l [Hc Hl]. split; [done|lia].
Qed.

Lemma canon_printable l : canon l -> printable (printLine l).
Proof.
  intros Hc. destruct (printWords_ok l Hc) as [[[Hw _] _] HF]. unfold printLine. apply printable_app. split; [by apply plain_printable|].
  induction HF as [|w ws [[Hp _] _] _ IH]; [constructor|]. cbn [blanks foldr]. apply printable_app. split; [repeat constructor; vm_compute; done|].
  apply printable_app. split; [by apply plain_printable|apply IH].
Qed.

Section Text.
Context (H : bytes -> bytes).

Lemma read_lines ls : Forall canon ls -> forall ops, forM (assembleText H) (printLine <$> ls) ops = forM assembleLine ls ops.
Proof.
  induction 1 as [|l ls Hl _ IH]; intros ops; [done|]. cbn [fmap list_fmap forM]. unfold mbind, M_bind. rewrite read_line by done.
  repeat case_match; auto.
Qed.
(** The text of canonical lines, after a comment, assembles like the lines. *)
Lemma text_program ls comment : Forall (λ l, canon l /\ zlen (code l) <= 16000) ls -> shortLine comment -> HasPrefix comment "//" = true ->
  AssembleString H (unlines (comment :: (printLine <$> ls))) = assembleProgram ls.
Proof.
  intros HF Hc Hp. assert (Forall canon ls) as HC by (eapply Forall_impl; [exact HF|]; by intros ? []).
  assert (Forall shortLine (comment :: (printLine <$> ls))) as HS.
  { constructor; [done|]. apply Forall_fmap. eapply Forall_impl; [exact HF|]. intros l [Hl Hn]. split; [by apply canon_printable|].
    pose proof (line_len l Hl). unfold MaxScanTokenSize. lia. }
  unfold AssembleString, Assemble, assembleProgram, assembleLines. rewrite Scan_unlines by done.
  assert (forM (assembleText H) (comment :: (printLine <$> ls)) OpStream_zero = forM assembleLine ls OpStream_zero) as E.
  { cbn [forM]. unfold mbind, M_bind. assert (assembleText H comment OpStream_zero = (Ok tt, OpStream_zero)) as ->; [|by apply read_lines].
    unfold assembleText. rewrite Hp. by destruct (_ =? 0). }
  unfold mbind, M_bind. rewrite E. done.
Qed.

(** No two branches go to one place, and none goes to the end: the labels that wait after
    disassembling are as many as the branches, and none waits at the end. *)
Definition branchesApart (dis : disassembleState) : Prop :=
  Z.of_nat (size (dis_pendingLabels dis)) = dis_labelCount dis
  /\ dis_pendingLabels dis !! zlen (dis_program dis) = None.
#[export] Instance branchesApart_dec dis : Decision (branchesApart dis).
Proof. unfold branchesApart. apply _. Defined.

Lemma program_length js : Forall okIns js -> Z.of_nat (length js) <= zlen (encs js).
Proof. induction 1 as [|j js Hj _ IH]; [done|]. rewrite encs_cons, zlen_app. pose proof (enc_pos j Hj). cbn [length]. lia. Qed.
Lemma count_length js : bnzCount js <= Z.of_nat (length js).
Proof. induction js as [|j js IH]; [done|]. rewrite bnzCount_cons. cbn [length]. destruct j; cbn; lia. Qed.

(** The end of the instructions as bytes. *)
Lemma endsShort_bytes js : endsShort js -> exists q bs, encs js = q ++ byteBlock (bs ++ [[]]).
Proof.
  unfold endsShort. destruct (last js) as [j|] eqn:E; [|done]. apply last_Some in E as [js0 ->]. destruct j as [|[]]; try done.
  intros [bs0 ->]%last_Some. exists (encs js0), bs0. unfold encs. rewrite fmap_app, concat_app. cbn [fmap list_fmap concat enc code]. by rewrite app_nil_r.
Qed.

(** C31: Assembling what was disassembled: a program of at most 16000 bytes that was
    assembled from text disassembles without a panic.  The text assembles to that very
    program exactly when no two of its branches share a target and none goes to its end.
    The one case without a text is an error for a program that ends with an empty byte
    constant. *)
Theorem disassemble_assemble text p : AssembleString H text = Ok p -> zlen p <= 16000 ->
  (exists t dis, Disassemble p = Ok (t, None) /\ disRun p 1 1 = Ok (dis, None)
     /\ (AssembleString H t = Ok p <-> branchesApart dis))
  \/ (exists q bs, p = q ++ byteBlock (bs ++ [[]])) /\ Disassemble p = Ok (EmptyString, Some errShortBytecblock).
Proof.
  intros E Hl. destruct (AssembleString_lines _ _ _ E) as (lines & HW & Ep).
  destruct (program_ins _ _ HW Ep) as (js & -> & Hok & HT & Hty). clear E lines HW Ep text.
  rewrite zlen_app in Hl. change (zlen [1]) with 1 in Hl. pose proof (program_length js Hok). pose proof (count_length js).
  unfold Disassemble. assert (Uvarint ([1] ++ encs js) = (1, 1)) as -> by reflexivity. cbn [Z.leb Z.compare].
  set (d0 := disPut ("// version " +:+ FormatUint 1 +:+ endl) (disInit ([1] ++ encs js)) <| dis_pc := 1 |>).
  pose proof (dis_loop js (length ([1] ++ encs js)) [1] d0 Hok) as HD. cbn zeta in HD.
  change (dis_program d0) with ([1] ++ encs js) in HD. change (dis_pc d0) with 1 in HD. change (dis_labelCount d0) with 0 in HD.
  change (dis_pendingLabels d0) with (∅ : gmap Z string) in HD.
  specialize (HD ltac:(rewrite length_app; unfold zlen in *; cbn; lia) eq_refl eq_refl ltac:(rewrite zlen_app; change (zlen [1]) with 1; lia)).
  unfold disRun. fold d0. set (P := waiting ∅ (branches 1 0 js)) in *. destruct (decide (endsShort js)) as [Hs|_].
  { right. rewrite HD. split; [|done]. destruct (endsShort_bytes js Hs) as (q & bs & ->). by exists ([1] ++ q), bs. }
  left. destruct HD as [next HD]. rewrite HD. do 2 eexists. split; [done|]. split; [done|]. cbn [dis_out].
  change (dis_out d0) with ("" +:+ "// version " +:+ FormatUint 1 +:+ endl).
  assert (("" +:+ "// version " +:+ FormatUint 1 +:+ endl) +:+ unlines (printLine <$> disLines P 1 0 js)
    = unlines ("// version 1"%string :: (printLine <$> disLines P 1 0 js))) as -> by reflexivity.
  rewrite text_program.
  - unfold branchesApart. cbn [dis_pendingLabels dis_labelCount dis_program]. rewrite zlen_app. change (zlen [1]) with 1. rewrite Z.add_0_l.
    unfold P. rewrite printed_assembles by (done || lia). apply resolves_apart; done || lia.
  - eapply Forall_impl; [apply disLines_canon; [|done|lia|lia]|cbv beta; intros l [Hc Hn]; split; [done|lia]].
    intros x label Hx%P_in. apply branches_label in Hx as (k & Hk & ->). exists k. unfold u64. split; [lia|done].
  - split; [repeat constructor; vm_compute; done|vm_compute; done].
  - reflexivity.
Qed.

(** C32: A line that does not fit the scanner's buffer ends the program: the lines after it are
    dropped and no error is reported. *)
Theorem long_line_ends ls l rest : Forall shortLine ls -> printable l -> MaxScanTokenSize <= slen l ->
  AssembleString H (unlines ls +:+ l +:+ rest) = AssembleString H (unlines ls).
Proof.
  intros HF Hp Hl. unfold AssembleString, Assemble. rewrite Scan_unlines by done.
  assert (Scan (unlines ls +:+ l +:+ rest) = ls) as ->; [|done]. unfold Scan.
  apply scanLoop_long; [done|done|done|]. pose proof (unlines_length ls). rewrite length_app_s. lia.
Qed.
End Text.

(** ** Witnesses and corner cases *)

Module DisasmWitness.
Definition text1 : string := "// a test
int 7
bnz skip
err
skip:
byte 0x0102
len // of the literal
int 2
==
".
Definition p1 : bytes := [1; 0x20; 2; 7; 2; 0x26; 1; 2; 1; 2; 0x22; 0x40; 0; 1; 0x00; 0x28; 0x15; 0x23; 0x12].
Lemma disassemble_assemble_witness : AssembleString toyHash text1 = Ok p1 /\ exists t dis,
  Disassemble p1 = Ok (t, None) /\ disRun p1 1 1 = Ok (dis, None) /\ (AssembleString toyHash t = Ok p1 <-> branchesApart dis).
Proof.
  assert (AssembleString toyHash text1 = Ok p1) as E by (vm_compute; reflexivity). split; [exact E|].
  destruct (disassemble_assemble toyHash text1 p1 E) as [H|[_ H]]; [vm_compute; discriminate|exact H|].
  vm_compute in H. discriminate H.
Defined.
Lemma long_line_ends_witness :
  AssembleString toyHash (unlines ["int 1"%string] +:+ ofCodes (replicate (Z.to_nat 65536) 47) +:+ endl +:+ "err") = Ok [1; 0x20; 1; 1; 0x22].
Proof.
  rewrite (long_line_ends toyHash ["int 1"%string] (ofCodes (replicate (Z.to_nat 65536) 47)) (endl +:+ "err")).
  - vm_compute. reflexivity.
  - constructor; [|constructor]. split; [repeat constructor; vm_compute; discriminate|vm_compute; reflexivity].
  - unfold printable. rewrite codes_ofCodes by (apply Forall_replicate; unfold is_byte; lia). apply Forall_replicate. lia.
  - rewrite slen_codes, codes_ofCodes by (apply Forall_replicate; unfold is_byte; lia). unfold zlen. rewrite length_replicate, Z2Nat.id by lia.
    vm_compute. discriminate.
Defined.

(** Two branches to one label: the disassembler keeps one of its two names. *)
Example labels_lost : let text := "int 1
bnz a
int 1
bnz a
err
a:
int 1
"%string in
  is_ok (AssembleString toyHash text) = true
  /\ (p ← AssembleString toyHash text; d ← Disassemble p; AssembleString toyHash d.1) = Err (Errorf "reference to undefined label").
Proof. vm_compute. done. Qed.
(** A branch to the end. *)
Example label_at_end : let text := "int 1
int 1
bnz a
a:
"%string in
  is_ok (AssembleString toyHash text) = true
  /\ (p ← AssembleString toyHash text; d ← Disassemble p; AssembleString toyHash d.1) = Err (Errorf "reference to undefined label").
Proof. vm_compute. done. Qed.
(** An instruction without its argument; a literal in base64 that starts like a comment. *)
Example int_panics : AssembleString toyHash "int" = Panic "index out of range".
Proof. vm_compute. reflexivity. Qed.
Example base64_slashes : AssembleString toyHash "byte b64 //8=" = Err (Errorf "need literal after byte")
  /\ AssembleString toyHash "byte b64(//8=)" = Ok [1; 0x26; 1; 2; 255; 255; 0x28].
Proof. vm_compute. done. Qed.
End DisasmWitness.
