(* ===== verification/WalletBox.v ===== *)
(** The boxes of the wallet daemon (src/daemon/kmd/wallet/driver/sqlite_crypto.go,
    sqlite_errors.go): secrets in the database are typed, encoded, sealed under a key and
    stored with what is needed to open them again.

    scrypt, secretbox, HKDF, ed25519 and the random source are third-party code and
    parameters, the fields of [KmdLib]; so is the msgpack codec, the class [Msgpack].
    What the theorems use of them is in [KmdLaws] and [MsgpackLaws]. *)

From S2P Require Import Prelude Config Basics Transactions GoText.

(** ** Errors *)

Definition errDatabase : error := Errorf "database error".
Definition errDatabaseConnect : error := Errorf "error connecting to database".
Definition errKeyNotFound : error := Errorf "key does not exist in this wallet".
Definition errSKToPK : error := Errorf "could not convert secret key to public key".
Definition errTampering : error := Errorf "derived public key mismatch, something fishy is going on with this wallet".
Definition errNoMnemonicUX : error := Errorf "sqlite wallet driver cannot display mnemonics".
Definition errKeyExists : error := Errorf "key already exists in wallet".
Definition errDeriveKey : error := Errorf "scrypt lib could not derive key from password".
Definition errWrongDriver : error := Errorf "found database with wrong driver name in wallets dir".
Definition errRandBytes : error := Errorf "error reading random bytes".
Definition errTooManyKeys : error := Errorf "too many keys".
Definition errWrongDriverVer : error := Errorf "found database with wrong driver version in wallets dir".
Definition errDecrypt : error := Errorf "error decrypting. wrong password?".
Definition errTypeMismatch : error :=
  Errorf "error decrypting, found the wrong type of data. something fishy is going on with this wallet".
Definition errSameName : error := Errorf "wallet with same name already exists".
Definition errSameID : error := Errorf "wallet with same id already exists".
Definition errIDConflict : error := Errorf "multiple wallets with the same ID exist. cannot continue".
Definition errWalletNotFound : error := Errorf "wallet not found".
Definition errNameTooLong : error := Errorf "wallet name too long, must be <= 64 bytes".
Definition errIDTooLong : error := Errorf "wallet id too long, must be <= 64 bytes".
Definition errMsigWrongAddr : error := Errorf "given multisig preimage hashes to wrong address".
Definition errMsigWrongKey : error := Errorf "given key is not a possible signer for this multisig".

(** ** Data *)

Definition saltLen : Z := 32.
Definition nonceLen : Z := 24.
Definition masterKeyLen : Z := 32.
Definition minScryptN : Z := 32768.
Definition minScryptR : Z := 1.
Definition minScryptP : Z := 32.
Definition hkdfInfoPrefix : string := "AlgorandDeterministicKey-".

Inductive plaintextType := PTMasterKey | PTSecretKey | PTMasterDerivationKey | PTMaxKeyIdx.
#[export] Instance plaintextType_eq_dec : EqDecision plaintextType.
Proof. solve_decision. Defined.

Record typedPlaintext := mkTypedPlaintext { tp_Plaintext : bytes; tp_Type : plaintextType }.
#[export] Instance typedPlaintext_eq_dec : EqDecision typedPlaintext.
Proof. solve_decision. Defined.

Record ScryptParams := mkScryptParams { ScryptN : Z; ScryptR : Z; ScryptP : Z }.

Record encryptedDBBlob := mkEncryptedDBBlob {
  eb_ScryptParams : ScryptParams;
  eb_DoScrypt : bool;
  eb_Ciphertext : bytes;
  eb_Nonce : bytes;
  eb_Salt : bytes
}.

(** A fixed-size array; [copy(dst[:], src)] overwrites its beginning. *)
Definition zeros (n : Z) : bytes := replicate (Z.to_nat n) 0.
Definition copyInto (dst src : bytes) : bytes := take (length dst) src ++ drop (length src) dst.

(** ** Parameters *)

(** The msgpack codec of the daemon, at the types it is used with. *)
Class Msgpack (A : Type) := {
  msgpackEncode : A -> bytes;
  decodeBytes : bytes -> option A
}.
Definition errCodec : error := Errorf "msgpack decode error".
Definition msgpackDecode {A} `{!Msgpack A} (b : bytes) : result A :=
  match decodeBytes b with Some a => Ok a | None => Err errCodec end.

Record KmdLib (R : Type) := mkKmdLib {
  kl_scryptKey : bytes -> bytes -> Z -> Z -> Z -> Z -> option bytes;  (* password, salt, N, r, p, length *)
  kl_Seal : bytes -> bytes -> bytes -> bytes;                          (* message, nonce, key *)
  kl_Open : bytes -> bytes -> bytes -> option bytes;                   (* box, nonce, key *)
  kl_randRead : bytes -> R -> bool * bytes * R;                        (* the buffer before; success, the buffer after *)
  kl_hkdfRead : bytes -> bytes -> Z -> option bytes;                   (* pseudorandom key, info, length *)
  kl_seedKeypair : bytes -> bytes * bytes;                             (* the public and the secret key of a seed *)
  kl_skToPk : bytes -> option bytes;
  kl_skToSeed : bytes -> option bytes
}.
Arguments mkKmdLib {R}.
Arguments kl_scryptKey {R}. Arguments kl_Seal {R}. Arguments kl_Open {R}. Arguments kl_randRead {R}.
Arguments kl_hkdfRead {R}. Arguments kl_seedKeypair {R}. Arguments kl_skToPk {R}. Arguments kl_skToSeed {R}.

Section Box.
Context {R : Type} (L : KmdLib R) `{!Msgpack typedPlaintext} `{!Msgpack encryptedDBBlob}.

Definition deriveEncryptionKeyWithSalt (password salt : bytes) (cfg : ScryptParams) : result bytes :=
  match kl_scryptKey L password salt (ScryptN cfg) (ScryptR cfg) (ScryptP cfg) masterKeyLen with
  | None => Err errDeriveKey
  | Some keySlice =>
    if zlen (take (Z.to_nat masterKeyLen) keySlice) =? masterKeyLen
    then Ok (copyInto (zeros masterKeyLen) keySlice) else Err errDeriveKey
  end.

Definition fillRandomBytes (out : bytes) : M R bytes := λ r,
  match kl_randRead L out r with
  | (true, b, r') => (Ok b, r')
  | (false, _, r') => (Err errRandBytes, r')
  end.

Definition deriveEncryptionKey (password : bytes) (cfg : ScryptParams) : M R (bytes * bytes) :=
  saltArr ← fillRandomBytes (zeros saltLen);
  key ← lift (deriveEncryptionKeyWithSalt password saltArr cfg);
  mret (key, saltArr).

(** The key a password that is already a key gives. *)
Definition rawKey (password : bytes) : result bytes :=
  if negb (zlen password =? masterKeyLen) then Err errDeriveKey else Ok (copyInto (zeros masterKeyLen) password).

Definition encryptBlobWithPasswordBlankOK (plaintext : bytes) (ptType : plaintextType) (password : bytes)
    (cfg : option ScryptParams) : M R bytes :=
  '(key, salt) ← match cfg with
                 | Some c => deriveEncryptionKey password c
                 | None => key ← lift (rawKey password); mret (key, zeros saltLen)
                 end;
  nonceArr ← fillRandomBytes (zeros nonceLen);
  let encodedPT := msgpackEncode (mkTypedPlaintext plaintext ptType) in
  let ciphertext := kl_Seal L encodedPT nonceArr key in
  mret (msgpackEncode
          (match cfg with
           | Some c => mkEncryptedDBBlob c true ciphertext nonceArr salt
           | None => mkEncryptedDBBlob (mkScryptParams 0 0 0) false ciphertext nonceArr salt
           end)).

Definition encryptBlobWithKey (plaintext : bytes) (ptType : plaintextType) (key : bytes) : M R bytes :=
  encryptBlobWithPasswordBlankOK plaintext ptType key None.

Definition decryptBlobWithPassword (blob : bytes) (ptType : plaintextType) (password : bytes) : result bytes :=
  dbblob ← msgpackDecode blob;
  key ← (if eb_DoScrypt dbblob then deriveEncryptionKeyWithSalt password (eb_Salt dbblob) (eb_ScryptParams dbblob)
         else rawKey password);
  match kl_Open L (eb_Ciphertext dbblob) (eb_Nonce dbblob) key with
  | None => Err errDecrypt
  | Some encodedPT =>
    typedPT ← msgpackDecode encodedPT;
    if bool_decide (tp_Type typedPT <> ptType) then Err errTypeMismatch else Ok (tp_Plaintext typedPT)
  end.

Definition extractKeyWithIndex (derivationKey : bytes) (index : Z) : result (bytes * bytes) :=
  let info := codes (hkdfInfoPrefix +:+ FormatUint index) in
  match kl_hkdfRead L derivationKey info 32 with
  | None => Err errRandBytes
  | Some seed => Ok (kl_seedKeypair L seed)
  end.

(** [fastHashWithSalt]: [Hash] is [crypto.Hash]. *)
Definition fastHashWithSalt (Hash : bytes -> Digest) (password salt : bytes) : Digest := Hash (salt ++ password).

End Box.

(** ** What the libraries promise *)

Class MsgpackLaws (A : Type) `{!Msgpack A} (wf : A -> Prop) :=
  decode_encode : forall a, wf a -> decodeBytes (msgpackEncode a) = Some a.

(** Opening a box with its nonce and key gives what was sealed; buffers are filled to
    their length; keys have 32 bytes, and a secret key contains its seed and public key. *)
Class KmdLaws {R : Type} (L : KmdLib R) := {
  kl_open_seal : forall m n k, kl_Open L (kl_Seal L m n k) n k = Some m;
  kl_rand_len : forall out r, length (kl_randRead L out r).1.2 = length out;
  kl_rand_bytes : forall out r, (kl_randRead L out r).1.1 = true -> Forall is_byte (kl_randRead L out r).1.2;
  kl_pair_pk : forall seed, kl_skToPk L (kl_seedKeypair L seed).2 = Some (kl_seedKeypair L seed).1;
  kl_pair_seed : forall seed, length seed = 32%nat -> kl_skToSeed L (kl_seedKeypair L seed).2 = Some seed;
  kl_pk_len : forall seed, length (kl_seedKeypair L seed).1 = 32%nat;
  kl_sk_len : forall seed, length (kl_seedKeypair L seed).2 = 64%nat;
  kl_seed_len : forall sk seed, kl_skToSeed L sk = Some seed -> length seed = 32%nat;
  kl_hkdf_len : forall k i n s, kl_hkdfRead L k i n = Some s -> zlen s = n
}.

Definition blob_wf (b : encryptedDBBlob) : Prop := zlen (eb_Nonce b) = nonceLen /\ zlen (eb_Salt b) = saltLen.

(** ** Lemmas *)

Lemma copyInto_full dst src : length src = length dst -> copyInto dst src = src.
Proof. intros E. unfold copyInto. rewrite <- E, take_ge, drop_ge, app_nil_r; [done|lia..]. Qed.

Lemma msgpack_roundtrip {A} `{!Msgpack A} {wf} `{!MsgpackLaws A wf} a : wf a -> msgpackDecode (msgpackEncode a) = Ok a.
Proof. intros H. unfold msgpackDecode. by rewrite decode_encode. Qed.

Lemma length_zeros n : 0 <= n -> Z.of_nat (length (zeros n)) = n.
Proof. intros. unfold zeros. rewrite length_replicate. lia. Qed.

Section BoxLemmas.
Context {R : Type} (L : KmdLib R) `{!KmdLaws L}.
Context `{!Msgpack typedPlaintext} `{!Msgpack encryptedDBBlob}.
Context `{!MsgpackLaws typedPlaintext (λ _, True)} `{!MsgpackLaws encryptedDBBlob blob_wf}.

Lemma fillRandomBytes_Ok out r b r' : fillRandomBytes L out r = (Ok b, r') -> length b = length out.
Proof.
  unfold fillRandomBytes. pose proof (kl_rand_len out r) as E. destruct (kl_randRead L out r) as [[[] b'] r1]; [|done].
  intros [= -> ->]. done.
Qed.

Lemma fill_zeros n r b r' : 0 <= n -> fillRandomBytes L (zeros n) r = (Ok b, r') -> zlen b = n.
Proof. intros Hn E%fillRandomBytes_Ok. unfold zlen. rewrite E. by apply length_zeros. Qed.

Lemma rawKey_32 k : zlen k = masterKeyLen -> rawKey k = Ok k.
Proof.
  intros E. unfold rawKey. rewrite E. cbn. f_equal. apply copyInto_full. unfold zlen in E.
  apply Nat2Z.inj. rewrite length_zeros by done. done.
Qed.

Lemma rawKey_Ok k key : rawKey k = Ok key -> key = k /\ zlen k = masterKeyLen.
Proof.
  intros H. destruct (decide (zlen k = masterKeyLen)) as [E|E].
  - rewrite rawKey_32 in H by done. inv_ok. done.
  - unfold rawKey in H. by rewrite (proj2 (Z.eqb_neq _ _)) in H.
Qed.

(** Opening what was sealed, for both kinds of box. *)
Lemma encrypt_spec pt ty pw cfg r blob r' : encryptBlobWithPasswordBlankOK L pt ty pw cfg r = (Ok blob, r') ->
  exists b key, msgpackDecode blob = Ok b /\ eb_DoScrypt b = bool_decide (is_Some cfg)
    /\ (if eb_DoScrypt b then deriveEncryptionKeyWithSalt L pw (eb_Salt b) (eb_ScryptParams b) else rawKey pw) = Ok key
    /\ eb_Ciphertext b = kl_Seal L (msgpackEncode (mkTypedPlaintext pt ty)) (eb_Nonce b) key.
Proof.
  unfold encryptBlobWithPasswordBlankOK. intros H. inv_ok. destruct x as [key salt]. inv_ok.
  match goal with H : fillRandomBytes _ (zeros nonceLen) _ = _ |- _ => apply fill_zeros in H as Hn; [|done] end.
  destruct cfg as [c|].
  - unfold deriveEncryptionKey in H. inv_ok.
    match goal with H : fillRandomBytes _ (zeros saltLen) _ = _ |- _ => apply fill_zeros in H as Hs; [|done] end.
    eexists _, key. rewrite msgpack_roundtrip by done. split_and!; done.
  - inv_ok. eexists _, key. rewrite msgpack_roundtrip by done. split_and!; done.
Qed.

Lemma decrypt_sealed blob b key pt ty ty' pw :
  msgpackDecode blob = Ok b ->
  (if eb_DoScrypt b then deriveEncryptionKeyWithSalt L pw (eb_Salt b) (eb_ScryptParams b) else rawKey pw) = Ok key ->
  eb_Ciphertext b = kl_Seal L (msgpackEncode (mkTypedPlaintext pt ty)) (eb_Nonce b) key ->
  decryptBlobWithPassword L blob ty' pw = if bool_decide (ty <> ty') then Err errTypeMismatch else Ok pt.
Proof.
  intros E1 E2 E3. unfold decryptBlobWithPassword. rewrite E1. cbn [mbind result_bind]. rewrite E2. cbn [mbind result_bind].
  rewrite E3, kl_open_seal, msgpack_roundtrip by done. done.
Qed.

(** A box opens with its password, to what was put in, when asked for the same type. *)
Lemma decrypt_encrypt pt ty ty' pw cfg r blob r' :
  encryptBlobWithPasswordBlankOK L pt ty pw cfg r = (Ok blob, r') ->
  decryptBlobWithPassword L blob ty' pw = if bool_decide (ty <> ty') then Err errTypeMismatch else Ok pt.
Proof. intros (b & key & ? & _ & ? & ?)%encrypt_spec. by eapply decrypt_sealed. Qed.

(** A password that opens a box of another one opens the sealed text under its own key. *)
Lemma decrypt_other pt ty pw c r blob r' ty' pw' pt' :
  encryptBlobWithPasswordBlankOK L pt ty pw (Some c) r = (Ok blob, r') ->
  decryptBlobWithPassword L blob ty' pw' = Ok pt' ->
  exists salt nonce key key', deriveEncryptionKeyWithSalt L pw salt c = Ok key
    /\ deriveEncryptionKeyWithSalt L pw' salt c = Ok key'
    /\ is_Some (kl_Open L (kl_Seal L (msgpackEncode (mkTypedPlaintext pt ty)) nonce key) nonce key').
Proof.
  unfold encryptBlobWithPasswordBlankOK. intros H Hd. inv_ok. destruct x as [key salt]. inv_ok.
  match goal with H : fillRandomBytes _ (zeros nonceLen) _ = _ |- _ => apply fill_zeros in H as Hn; [|done] end.
  unfold deriveEncryptionKey in H. inv_ok.
  match goal with H : fillRandomBytes _ (zeros saltLen) _ = _ |- _ => apply fill_zeros in H as Hs; [|done] end.
  unfold decryptBlobWithPassword in Hd. rewrite msgpack_roundtrip in Hd by done. cbn in Hd. inv_ok.
  do 4 eexists. split_and!; [done..|]. match goal with H : context [kl_Open _ ?a ?b ?c] |- _ => destruct (kl_Open _ a b c) eqn:E; [|discriminate] end.
  by rewrite E.
Qed.

(** Sealing under a password fails when the random source or scrypt does. *)
Definition noKey (pw : bytes) (c : ScryptParams) : Prop := exists salt e, deriveEncryptionKeyWithSalt L pw salt c = Err e.
Definition noRandom : Prop := exists out r, (kl_randRead L out r).1.1 = false.
Lemma fillRandomBytes_cases out r : match fillRandomBytes L out r with
  | (Ok b, _) => length b = length out | (Err _, _) => noRandom | (Panic _, _) => False end.
Proof.
  unfold fillRandomBytes. pose proof (kl_rand_len out r) as Hl. destruct (kl_randRead L out r) as [[[] b] r1] eqn:E; [done|].
  exists out, r. by rewrite E.
Qed.

(** Nothing here panics. *)
Lemma bind_nopanic {A B} (r : result A) (f : A -> result B) :
  (forall p, r <> Panic p) -> (forall a p, f a <> Panic p) -> forall p, r ≫= f <> Panic p.
Proof. intros Hr Hf p. destruct r as [a| |q]; [apply Hf|done|by destruct (Hr q)]. Qed.
Lemma msgpackDecode_nopanic {A} `{!Msgpack A} b p : msgpackDecode (A := A) b <> Panic p.
Proof. unfold msgpackDecode. by destruct (decodeBytes b). Qed.
Lemma rawKey_nopanic k p : rawKey k <> Panic p.
Proof. unfold rawKey. by destruct (negb _). Qed.
Lemma derive_nopanic pw salt cfg p : deriveEncryptionKeyWithSalt L pw salt cfg <> Panic p.
Proof. unfold deriveEncryptionKeyWithSalt. destruct (kl_scryptKey _ _ _ _ _ _ _); [|done]. by destruct (_ =? _). Qed.
Lemma decrypt_nopanic blob ty pw p : decryptBlobWithPassword L blob ty pw <> Panic p.
Proof.
  revert p. apply bind_nopanic; [apply msgpackDecode_nopanic|]. intros b. apply bind_nopanic.
  { destruct (eb_DoScrypt b); [apply derive_nopanic|apply rawKey_nopanic]. }
  intros k. destruct (kl_Open _ _ _ _) as [e|]; [|done]. apply bind_nopanic; [apply msgpackDecode_nopanic|].
  intros x p. by destruct (bool_decide _).
Qed.
Lemma encrypt_cases pt ty pw cfg r : match encryptBlobWithPasswordBlankOK L pt ty pw cfg r with
  | (Ok blob, _) => forall ty', decryptBlobWithPassword L blob ty' pw = if bool_decide (ty <> ty') then Err errTypeMismatch else Ok pt
  | (Err _, _) => noRandom \/ match cfg with Some c => noKey pw c | None => zlen pw <> masterKeyLen end
  | (Panic _, _) => False end.
Proof.
  destruct (encryptBlobWithPasswordBlankOK L pt ty pw cfg r) as [[blob|e|p] r'] eqn:E.
  - intros ty'. by eapply decrypt_encrypt.
  - unfold encryptBlobWithPasswordBlankOK, deriveEncryptionKey, lift, mbind, M_bind, mret, M_ret in E. destruct cfg as [c|].
    + pose proof (fillRandomBytes_cases (zeros saltLen) r) as Hs. destruct (fillRandomBytes L (zeros saltLen) r) as [[salt| |] r1]; [|by left|done].
      destruct (deriveEncryptionKeyWithSalt L pw salt c) as [k|e'|] eqn:Hd; [|right; by exists salt, e'|discriminate].
      pose proof (fillRandomBytes_cases (zeros nonceLen) r1) as Hn. by destruct (fillRandomBytes L (zeros nonceLen) r1) as [[] r2]; [|left|].
    + destruct (rawKey pw) as [k|e'|] eqn:Hd; [|right|discriminate].
      * pose proof (fillRandomBytes_cases (zeros nonceLen) r) as Hn. by destruct (fillRandomBytes L (zeros nonceLen) r) as [[] r2]; [|left|].
      * intros Hl. by rewrite rawKey_32 in Hd.
  - exfalso. unfold encryptBlobWithPasswordBlankOK, deriveEncryptionKey, fillRandomBytes, lift, mbind, M_bind, mret, M_ret in E.
    destruct cfg as [c|].
    + destruct (kl_randRead L (zeros saltLen) r) as [[[] salt] r1]; [|discriminate].
      destruct (deriveEncryptionKeyWithSalt L pw salt c) as [k| |] eqn:Hd; [|discriminate|by eapply derive_nopanic].
      by destruct (kl_randRead L (zeros nonceLen) r1) as [[[] n] r2].
    + destruct (rawKey pw) as [k| |] eqn:Hd; [|discriminate|by eapply rawKey_nopanic].
      by destruct (kl_randRead L (zeros nonceLen) r) as [[[] n] r2].
Qed.

End BoxLemmas.
