(* ===== verification/Wallet.v ===== *)
(** The wallets of the key management daemon (src/daemon/kmd/wallet/driver/sqlite.go,
    util.go, src/daemon/kmd/wallet/wallet.go, and the keys of src/crypto/curve25519.go).

    The wallets directory is a map from file names to files, and a wallet a database file
    in it: a path is a base name in that directory, which is fixed by the configuration.
    SQL statements are what they do to the tables of a file.  Every call of the operating
    system or of the database driver reads the weather ([BlockDB.weather]) at the next
    tick and can fail with its error; a method runs to its end before the next one
    starts, as it does under the lock of the driver, and between two methods of one wallet
    the database has no memory but its tables. *)

From stdpp Require Import sorting.
From S2P Require Import Prelude Config Basics Transactions Bookkeeping Multisig Verify Pool BlockDB GoText WalletBox.

(** ** Data *)

Record SQLiteWalletDriverConfig := mkSQLiteCfg { sc_WalletsDir : string; sc_UnsafeScrypt : bool; sc_ScryptParams : ScryptParams }.

Record SQLiteWallet := mkSQLiteWallet {
  sw_masterEncryptionKey : bytes;
  sw_masterDerivationKey : bytes;
  sw_walletPasswordSalt : bytes;
  sw_walletPasswordHash : Digest;
  sw_walletPasswordHashed : bool;
  sw_dbPath : string;
  sw_cfg : SQLiteWalletDriverConfig
}.
#[export] Instance SQLiteWallet_eta : Eta SQLiteWallet := λ r,
  mkSQLiteWallet (sw_masterEncryptionKey r) (sw_masterDerivationKey r) (sw_walletPasswordSalt r)
    (sw_walletPasswordHash r) (sw_walletPasswordHashed r) (sw_dbPath r) (sw_cfg r).

Record Metadata := mkMetadata {
  md_ID : bytes;
  md_Name : bytes;
  md_DriverName : string;
  md_DriverVersion : Z;
  md_SupportsMnemonicUX : bool;
  md_SupportsMasterKey : bool;
  md_SupportedTransactions : list string
}.

(** The rows of the three tables of [walletSchema]. *)
Record MetaRow := mkMetaRow {
  mr_driver_name : string;
  mr_driver_version : Z;
  mr_wallet_id : bytes;
  mr_wallet_name : bytes;
  mr_mep_encrypted : bytes;
  mr_mdk_encrypted : bytes;
  mr_max_key_idx_encrypted : bytes
}.
#[export] Instance MetaRow_eta : Eta MetaRow := λ r,
  mkMetaRow (mr_driver_name r) (mr_driver_version r) (mr_wallet_id r) (mr_wallet_name r) (mr_mep_encrypted r)
    (mr_mdk_encrypted r) (mr_max_key_idx_encrypted r).
Record KeyRow := mkKeyRow { kr_secret_key_encrypted : bytes; kr_key_idx : option Z }.
Record MsigRow := mkMsigRow { ma_version : Z; ma_threshold : Z; ma_pks : bytes }.
Record Tables := mkTables {
  t_metadata : list MetaRow;
  t_keys : gmap bytes KeyRow;
  t_msig_addrs : gmap bytes MsigRow
}.
#[export] Instance Tables_eta : Eta Tables := λ r, mkTables (t_metadata r) (t_keys r) (t_msig_addrs r).

(** A directory entry: a directory, a file that is no database, or a database, with the
    tables of the schema or without them. *)
Inductive File := Dir | NotDB | DB (tables : option Tables).

Definition sqliteWalletDriverName : string := "sqlite".
Definition sqliteWalletDriverVersion : Z := 1.
Definition sqliteMaxWalletNameLen : Z := 64.
Definition sqliteMaxWalletIDLen : Z := 64.
Definition sqliteIntOverflow : Z := Z.shiftl 1 63.
Definition walletIDBytes : Z := 16.

(** ** Names *)

Definition allowedChar (c : Z) : bool :=
  (97 <=? c) && (c <=? 122) || (65 <=? c) && (c <=? 90) || (48 <=? c) && (c <=? 57) || (c =? 95) || (c =? 45).
(** [disallowedFilenameRegex.ReplaceAll(name, "")] *)
Definition safe (name : bytes) : bytes := List.filter allowedChar name.

Definition nameIDToPath (name id : bytes) : string :=
  let safeName := safe name in
  let safeID := safe id in
  if bool_decide (safeName = safeID) then ofCodes safeID +:+ ".db"
  else ofCodes safeName +:+ "." +:+ ofCodes safeID +:+ ".db".

(** [databaseFilenameRegex.Match]: [.] does not match a newline. *)
Fixpoint matchesDB (s : string) : bool :=
  bool_decide (s = ".db"%string) ||
  match s with EmptyString => false | String c s => negb (bool_decide (c = newlineChar)) && matchesDB s end.

(** [ioutil.ReadDir] sorts by name. *)
Definition nameLe (a b : string * File) : Prop := String.leb a.1 b.1 = true.
#[export] Instance nameLe_dec : RelDecision nameLe.
Proof. intros a b. unfold nameLe. apply _. Defined.

Section Wallet.
Context {R : Type} (L : KmdLib R) (cr : Crypto) (computeEncodingLen : SignedTxn -> Z).
Context (edSign : bytes -> Hashable -> bytes) (encodeStxn : SignedTxn -> bytes).
Context `{!Msgpack typedPlaintext} `{!Msgpack encryptedDBBlob}.
Context `{!Msgpack bytes} `{!Msgpack Z} `{!Msgpack (list bytes)}.
Context (env : weather).

(** ** The world below a wallet *)

Record World := mkWorld { w_dir : option (gmap string File); w_rng : R; w_tick : nat }.
#[local] Instance World_eta : Eta World := λ r, mkWorld (w_dir r) (w_rng r) (w_tick r).

Definition onRng {A} (m : M R A) : M World A := λ w, let '(r, s) := m (w_rng w) in (r, w <| w_rng := s |>).

(** [if err != nil { return e }] *)
Definition orErr {S A} (e : error) (m : M S A) : M S A := λ s,
  match m s with (Err _, s') => (Err e, s') | r => r end.
(** [if err != nil { continue }] *)
Definition attempt {S A} (m : M S A) : M S (option A) := λ s,
  match m s with
  | (Ok a, s') => (Ok (Some a), s')
  | (Err _, s') => (Ok None, s')
  | (Panic p, s') => (Panic p, s')
  end.

(** One call below: it fails as the weather says. *)
Definition call : M World unit := λ w,
  (match env (w_tick w) with Some e => Err e | None => Ok tt end, w <| w_tick := S (w_tick w) |>).

Definition cantOpen : error := SqliteError (ErrOther 14).
Definition noTable : error := SqliteError (ErrOther 1).

(** [sqlx.Connect]: it creates the file when there is none. *)
Definition Connect (path : string) : M World unit :=
  _ ← call;
  w ← get;
  match w_dir w with
  | None => throw cantOpen
  | Some d =>
    match d !! path with
    | Some Dir => throw cantOpen
    | Some _ => mret tt
    | None => put (w <| w_dir := Some (<[path := DB None]> d) |>)
    end
  end.

(** A statement that reads the tables, and one that changes them. *)
Definition tablesOf (path : string) : M World Tables :=
  w ← get;
  match w_dir w ≫= lookup path with
  | Some (DB (Some t)) => mret t
  | _ => throw noTable
  end.
Definition query {A} (path : string) (q : Tables -> result A) : M World A := _ ← call; t ← tablesOf path; lift (q t).
Definition setTables (path : string) (t : Tables) : M World unit :=
  w ← get; put (w <| w_dir ::= fmap (M := option) <[path := DB (Some t)]> |>).
Definition exec (path : string) (q : Tables -> result Tables) : M World unit :=
  _ ← call; t ← tablesOf path; t' ← lift (q t); setTables path t'.

Definition constraint : error := SqliteError ErrConstraint.
Definition noRows : error := Errorf "sql: no rows in result set".
Definition firstRow (t : Tables) : result MetaRow := match t_metadata t with r :: _ => Ok r | [] => Err noRows end.

(** ** The driver *)

Definition maybeMakeWalletsDir : M World unit :=
  _ ← call;
  w ← get;
  match w_dir w with None => put (w <| w_dir := Some ∅ |>) | Some _ => mret tt end.

(** The configuration is stored before it is checked. *)
Definition InitWithConfig (cfg : SQLiteWalletDriverConfig) : M (SQLiteWalletDriverConfig * World) unit := λ s,
  let '(_, w) := s in
  let check :=
    (if negb (sc_UnsafeScrypt cfg) then
       _ ← guardE (negb (ScryptN (sc_ScryptParams cfg) <? minScryptN)) (Errorf "slow scrypt N must be at least 32768");
       _ ← guardE (negb (ScryptR (sc_ScryptParams cfg) <? minScryptR)) (Errorf "slow scrypt R must be at least 1");
       guardE (negb (ScryptP (sc_ScryptParams cfg) <? minScryptP)) (Errorf "slow scrypt P must be at least 32")
     else mret tt) in
  let '(r, w') := (_ ← check; maybeMakeWalletsDir) w in (r, (cfg, w')).

Definition walletMetadataFromDB (path : string) : M World Metadata :=
  r ← orErr errDatabase (query path (λ t,
        r ← firstRow t;
        _ ← guardR ((0 <=? mr_driver_version r) && (mr_driver_version r <? 2 ^ 32)) (Errorf "converting driver.Value type");
        Ok r));
  _ ← guardE (bool_decide (mr_driver_name r = sqliteWalletDriverName)) errWrongDriver;
  _ ← guardE (mr_driver_version r =? sqliteWalletDriverVersion) errWrongDriverVer;
  mret (mkMetadata (mr_wallet_id r) (mr_wallet_name r) (mr_driver_name r) (mr_driver_version r) false true ["pay"; "keyreg"]).

Definition walletMetadataFromDBPath (dbPath : string) : M World Metadata :=
  _ ← orErr errDatabaseConnect (Connect dbPath);
  walletMetadataFromDB dbPath.

Definition readDir : M World (list (string * File)) :=
  _ ← call;
  w ← get;
  match w_dir w with
  | None => throw (Errorf "no such file or directory")
  | Some d => mret (merge_sort nameLe (map_to_list d))
  end.

Definition isPotential (f : string * File) : bool := negb (match f.2 with Dir => true | _ => false end) && matchesDB f.1.
Definition potentialWalletPaths : M World (list string) :=
  files ← readDir;
  mret (fst <$> List.filter isPotential files).

Fixpoint metadatasOf (paths : list string) : M World (list Metadata) :=
  match paths with
  | [] => mret []
  | path :: paths =>
    m ← attempt (walletMetadataFromDBPath path);
    rest ← metadatasOf paths;
    mret (match m with Some m => m :: rest | None => rest end)
  end.
Definition ListWalletMetadatas : M World (list Metadata) :=
  paths ← potentialWalletPaths;
  metadatasOf paths.

Fixpoint findLoop (fieldName : string) (testValue : bytes) (potentialPaths : list string) : M World (list string) :=
  match potentialPaths with
  | [] => mret []
  | path :: potentialPaths =>
    m ← attempt (walletMetadataFromDBPath path);
    match m with
    | None => findLoop fieldName testValue potentialPaths
    | Some walletMetadata =>
      fieldValue ← lift (if bool_decide (fieldName = "ID"%string) then Ok (md_ID walletMetadata)
                         else if bool_decide (fieldName = "Name"%string) then Ok (md_Name walletMetadata)
                         else Panic "unknown fieldName");
      rest ← findLoop fieldName testValue potentialPaths;
      mret (if bool_decide (fieldValue = testValue) then path :: rest else rest)
    end
  end.
Definition findDBPathsByField (fieldName : string) (testValue : bytes) : M World (list string) :=
  potentialPaths ← potentialWalletPaths;
  findLoop fieldName testValue potentialPaths.
Definition findDBPathsByID : bytes -> M World (list string) := findDBPathsByField "ID".
Definition findDBPathsByName : bytes -> M World (list string) := findDBPathsByField "Name".

Definition checkDBError {S A} (m : M S A) : M S A := λ s,
  match m s with
  | (Err (SqliteError ErrConstraint), s') => (Err errKeyExists, s')
  | (Err _, s') => (Err errDatabase, s')
  | r => r
  end.

(** [os.Stat] *)
Inductive statRes := Exists | NotExist | StatErr (e : error).
Definition stat (path : string) : M World statRes := λ w,
  match call w with
  | (Ok _, w') => (Ok (match w_dir w ≫= lookup path with Some _ => Exists | None => NotExist end), w')
  | (Err e, w') => (Ok (StatErr e), w')
  | (Panic p, w') => (Panic p, w')
  end.

Definition runSchema (path : string) : M World unit :=
  _ ← call;
  w ← get;
  match w_dir w ≫= lookup path with
  | Some (DB t) => setTables path (default (mkTables [] ∅ ∅) t)
  | _ => throw noTable
  end.

Definition insertMetadata (r : MetaRow) (t : Tables) : result Tables :=
  if existsb (λ r', bool_decide (mr_wallet_id r' = mr_wallet_id r)) (t_metadata t) then Err constraint
  else Ok (t <| t_metadata ::= λ rs, rs ++ [r] |>).

(** The part of [CreateWallet] after its checks. *)
Definition fillWallet (cfg : SQLiteWalletDriverConfig) (dbPath : string) (name id pw mdk : bytes) : M World unit :=
  _ ← orErr errDatabaseConnect (Connect dbPath);
  _ ← orErr errDatabase (runSchema dbPath);
  masterKey ← onRng (fillRandomBytes L (zeros masterKeyLen));
  masterDerivationKey ← (if bool_decide (mdk = zero32) then onRng (fillRandomBytes L mdk) else mret mdk);
  encryptedMEPBlob ← onRng (encryptBlobWithPasswordBlankOK L masterKey PTMasterKey pw (Some (sc_ScryptParams cfg)));
  encryptedMDKBlob ← onRng (encryptBlobWithKey L masterDerivationKey PTMasterDerivationKey masterKey);
  encryptedIdxBlob ← onRng (encryptBlobWithKey L (msgpackEncode 0) PTMaxKeyIdx masterKey);
  orErr errDatabase (exec dbPath (insertMetadata
    (mkMetaRow sqliteWalletDriverName sqliteWalletDriverVersion id name encryptedMEPBlob encryptedMDKBlob encryptedIdxBlob))).

Definition CreateWallet (cfg : SQLiteWalletDriverConfig) (name id pw mdk : bytes) : M World unit :=
  if sqliteMaxWalletNameLen <? zlen name then throw errNameTooLong
  else if sqliteMaxWalletIDLen <? zlen id then throw errIDTooLong
  else
    let dbPath := nameIDToPath name id in
    st ← stat dbPath;
    match st with
    | Exists => mret tt
    | StatErr e => throw e
    | NotExist =>
      sameNameDBPaths ← findDBPathsByName name;
      _ ← guardE (length sameNameDBPaths =? 0)%nat errSameName;
      sameIDDBPaths ← findDBPathsByID id;
      _ ← guardE (length sameIDDBPaths =? 0)%nat errSameID;
      fillWallet cfg dbPath name id pw mdk
    end.

Definition fetchWalletLocked (cfg : SQLiteWalletDriverConfig) (id : bytes) : M World SQLiteWallet :=
  dbPaths ← findDBPathsByID id;
  match dbPaths with
  | [] => throw errWalletNotFound
  | [dbPath] =>
    _ ← orErr errDatabaseConnect (Connect dbPath);
    mret (mkSQLiteWallet [] [] (zeros saltLen) zero32 false dbPath cfg)
  | _ => throw errIDConflict
  end.
Definition FetchWallet : SQLiteWalletDriverConfig -> bytes -> M World SQLiteWallet := fetchWalletLocked.

(** ** A wallet *)

Definition sw_Metadata (sw : SQLiteWallet) : M World Metadata := walletMetadataFromDBPath (sw_dbPath sw).

(** A column of the first row of [metadata], opened. *)
Definition decryptColumn (sw : SQLiteWallet) (column : MetaRow -> bytes) (ptType : plaintextType) (pw : bytes) : M World bytes :=
  _ ← orErr errDatabaseConnect (Connect (sw_dbPath sw));
  blob ← orErr errDatabase (query (sw_dbPath sw) (λ t, r ← firstRow t; Ok (column r)));
  lift (decryptBlobWithPassword L blob ptType pw).
Definition decryptAndGetMasterKey (sw : SQLiteWallet) (pw : bytes) : M World bytes :=
  decryptColumn sw mr_mep_encrypted PTMasterKey pw.
Definition decryptAndGetMasterDerivationKey (sw : SQLiteWallet) (pw : bytes) : M World bytes :=
  decryptColumn sw mr_mdk_encrypted PTMasterDerivationKey pw.

Definition onWorld {X A} (m : M World A) : M (X * World) A := λ s, let '(r, w) := m s.2 in (r, (s.1, w)).

(** The salt is overwritten in place, whether or not it could be filled. *)
Definition fillSalt : M (SQLiteWallet * World) unit := λ s,
  let '(sw, w) := s in
  let '(ok, salt, rng) := kl_randRead L (sw_walletPasswordSalt sw) (w_rng w) in
  (if ok then Ok tt else Err errRandBytes, (sw <| sw_walletPasswordSalt := salt |>, w <| w_rng := rng |>)).

Definition Init (pw : bytes) : M (SQLiteWallet * World) unit :=
  '(sw, _) ← get;
  masterEncryptionKey ← onWorld (decryptAndGetMasterKey sw pw);
  masterDerivationKey ← onWorld (decryptAndGetMasterDerivationKey sw masterEncryptionKey);
  '(sw, w) ← get;
  _ ← put (sw <| sw_masterEncryptionKey := masterEncryptionKey |> <| sw_masterDerivationKey := masterDerivationKey |>, w);
  _ ← fillSalt;
  '(sw, w) ← get;
  put (sw <| sw_walletPasswordHash := fastHashWithSalt (cr_Hash cr) pw (sw_walletPasswordSalt sw) |>
          <| sw_walletPasswordHashed := true |>, w).

Definition CheckPassword (sw : SQLiteWallet) (pw : bytes) : M World unit :=
  if sw_walletPasswordHashed sw then
    let pwhash := fastHashWithSalt (cr_Hash cr) pw (sw_walletPasswordSalt sw) in
    guardE (bool_decide (pwhash = sw_walletPasswordHash sw)) errDecrypt
  else _ ← decryptAndGetMasterKey sw pw; mret tt.

Definition RenameWallet (cfg : SQLiteWalletDriverConfig) (newName id pw : bytes) : M World unit :=
  sameNameDBPaths ← findDBPathsByName newName;
  _ ← guardE (length sameNameDBPaths =? 0)%nat errSameName;
  sqWallet ← fetchWalletLocked cfg id;
  _ ← CheckPassword sqWallet pw;
  _ ← orErr errDatabaseConnect (Connect (sw_dbPath sqWallet));
  orErr errDatabase (exec (sw_dbPath sqWallet) (λ t,
    Ok (t <| t_metadata ::= fmap (M := list) (λ r, if bool_decide (mr_wallet_id r = id) then r <| mr_wallet_name := newName |> else r) |>))).

(** The loop over the selected addresses; [tmp] keeps its bytes between the turns. *)
Fixpoint copyAddrs (tmp : Digest) (addrByteSlices : list bytes) : list Digest :=
  match addrByteSlices with
  | [] => []
  | byteSlice :: l => let tmp := copyInto tmp byteSlice in tmp :: copyAddrs tmp l
  end.

Definition ListKeys (sw : SQLiteWallet) : M World (list Digest) :=
  _ ← orErr errDatabaseConnect (Connect (sw_dbPath sw));
  addrByteSlices ← orErr errDatabase (query (sw_dbPath sw) (λ t, Ok (map_to_list (t_keys t)).*1));
  mret (copyAddrs zero32 addrByteSlices).

Definition ExportMasterDerivationKey (sw : SQLiteWallet) (pw : bytes) : M World bytes :=
  _ ← CheckPassword sw pw;
  mret (copyInto zero32 (sw_masterDerivationKey sw)).

Definition publicKeyToAddress (pk : bytes) : Digest := copyInto zero32 pk.

Definition insertKey (addr : Digest) (row : KeyRow) (t : Tables) : result Tables :=
  match t_keys t !! addr with
  | Some _ => Err constraint
  | None => Ok (t <| t_keys ::= <[addr := row]> |>)
  end.

Definition ImportKey (sw : SQLiteWallet) (rawSK : bytes) : M World Digest :=
  seed ← lift (match kl_skToSeed L rawSK with Some seed => Ok seed | None => Err errSKToPK end);
  let '(pk, sk) := kl_seedKeypair L seed in
  skEncrypted ← onRng (encryptBlobWithKey L (msgpackEncode sk) PTSecretKey (sw_masterEncryptionKey sw));
  _ ← orErr errDatabaseConnect (Connect (sw_dbPath sw));
  let addr := publicKeyToAddress pk in
  _ ← checkDBError (exec (sw_dbPath sw) (insertKey addr (mkKeyRow skEncrypted None)));
  mret addr.

Definition fetchSecretKey (sw : SQLiteWallet) (addr : Digest) : M World bytes :=
  _ ← orErr errDatabaseConnect (Connect (sw_dbPath sw));
  blob ← orErr errKeyNotFound (query (sw_dbPath sw) (λ t,
           match t_keys t !! addr with Some row => Ok (kr_secret_key_encrypted row) | None => Err noRows end));
  skEncoded ← lift (decryptBlobWithPassword L blob PTSecretKey (sw_masterEncryptionKey sw));
  skCandidate ← lift (msgpackDecode skEncoded);
  derivedPK ← lift (match kl_skToPk L skCandidate with Some pk => Ok pk | None => Err errSKToPK end);
  let derivedAddr := publicKeyToAddress derivedPK in
  _ ← guardE (bool_decide (addr = derivedAddr)) errTampering;
  mret skCandidate.

Definition ExportKey (sw : SQLiteWallet) (addr : Digest) (pw : bytes) : M World bytes :=
  _ ← CheckPassword sw pw;
  fetchSecretKey sw addr.

(** A loop of at most [p] turns that a turn can leave with a result. *)
Fixpoint iterE {S A B} (p : positive) (f : A -> M S (A + B)) (a : A) : M S (A + B) :=
  let twice q a := (r ← iterE q f a; match r with inl a' => iterE q f a' | inr b => mret (inr b) end) in
  match p with
  | xH => f a
  | xO q => twice q a
  | xI q => r ← twice q a; match r with inl a' => f a' | inr b => mret (inr b) end
  end.

(** One turn of the search for the next key. *)
Definition nextKeyTurn (sw : SQLiteWallet) (nextIndex : Z) : M World (Z + (Digest * bytes * Z)) :=
  if nextIndex =? sqliteIntOverflow then throw errTooManyKeys
  else
    '(genPK, genSK) ← lift (extractKeyWithIndex L (sw_masterDerivationKey sw) nextIndex);
    let genAddr := publicKeyToAddress genPK in
    cnt ← orErr errDatabase (query (sw_dbPath sw) (λ t, Ok (match t_keys t !! genAddr with Some _ => 1 | None => 0 end)));
    mret (if cnt =? 0 then inr (genAddr, genSK, nextIndex) else inl (wrap64 (nextIndex + 1))).

(** An argument of a statement: the driver refuses integers with the high bit set. *)
Definition sqlUint (z : Z) : result Z :=
  if z <? 2 ^ 63 then Ok z else Err (Errorf "uint64 values with high bit set are not supported").

(** 2^64 turns are enough: one of them meets [sqliteIntOverflow]. *)
Definition generateKeyTxLocked (sw : SQLiteWallet) : M World Digest :=
  encryptedHighestIndexBlob ← orErr errDatabase (query (sw_dbPath sw) (λ t, r ← firstRow t; Ok (mr_max_key_idx_encrypted r)));
  highestIndexBlob ← lift (decryptBlobWithPassword L encryptedHighestIndexBlob PTMaxKeyIdx (sw_masterEncryptionKey sw));
  highestIndex ← lift (msgpackDecode (A := Z) highestIndexBlob);
  found ← iterE (2 ^ 64) (nextKeyTurn sw) (wrap64 (highestIndex + 1));
  match found with
  | inl _ => lift (Panic "more than 2^64 turns")
  | inr (genAddr, genSK, nextIndex) =>
    skEncrypted ← onRng (encryptBlobWithKey L (msgpackEncode genSK) PTSecretKey (sw_masterEncryptionKey sw));
    _ ← exec (sw_dbPath sw) (λ t, idx ← sqlUint nextIndex; insertKey genAddr (mkKeyRow skEncrypted (Some idx)) t);
    encryptedIdxBlob ← onRng (encryptBlobWithKey L (msgpackEncode nextIndex) PTMaxKeyIdx (sw_masterEncryptionKey sw));
    _ ← exec (sw_dbPath sw) (λ t, Ok (t <| t_metadata ::= fmap (M := list) (λ r, r <| mr_max_key_idx_encrypted := encryptedIdxBlob |>) |>));
    mret genAddr
  end.

(** A transaction: what it did to the files is undone unless it commits. *)
Definition transaction {A} (m : M World A) : M World A := λ w0,
  let rollback (w : World) := w <| w_dir := w_dir w0 |> in
  match m w0 with
  | (Ok a, w) =>
    match call w with
    | (Ok _, w') => (Ok a, w')
    | (_, w') => (Err errDatabase, rollback w')
    end
  | (r, w) => (r, rollback w)
  end.

Definition GenerateKey (sw : SQLiteWallet) (displayMnemonic : bool) : M World Digest :=
  _ ← orErr errDatabaseConnect (Connect (sw_dbPath sw));
  _ ← guardE (negb displayMnemonic) errNoMnemonicUX;
  _ ← orErr errDatabase call;
  transaction (generateKeyTxLocked sw).

Definition DeleteKey (sw : SQLiteWallet) (addr : Digest) (pw : bytes) : M World unit :=
  _ ← CheckPassword sw pw;
  _ ← orErr errDatabaseConnect (Connect (sw_dbPath sw));
  orErr errDatabase (exec (sw_dbPath sw) (λ t, Ok (t <| t_keys ::= delete addr |>))).

(** ** Multisignature addresses *)

Definition ImportMultisigAddr (sw : SQLiteWallet) (version threshold : Z) (pks : list bytes) : M World Digest :=
  addr ← lift (MultisigAddrGen (cr_Hash cr) version threshold pks);
  _ ← orErr errDatabaseConnect (Connect (sw_dbPath sw));
  _ ← checkDBError (exec (sw_dbPath sw) (λ t,
        match t_msig_addrs t !! addr with
        | Some _ => Err constraint
        | None => Ok (t <| t_msig_addrs ::= <[addr := mkMsigRow version threshold (msgpackEncode pks)]> |>)
        end));
  mret addr.

(** The error of [MultisigAddrGen] is looked at only after the addresses are compared. *)
Definition LookupMultisigPreimage (sw : SQLiteWallet) (addr : Digest) : M World (Z * Z * list bytes) :=
  _ ← orErr errDatabaseConnect (Connect (sw_dbPath sw));
  row ← orErr errKeyNotFound (query (sw_dbPath sw) (λ t,
          match t_msig_addrs t !! addr with Some row => Ok row | None => Err noRows end));
  pksCandidate ← lift (msgpackDecode (A := list bytes) (ma_pks row));
  let version := ma_version row mod 256 in
  let threshold := ma_threshold row mod 256 in
  let gen := MultisigAddrGen (cr_Hash cr) version threshold pksCandidate in
  let addr2 := match gen with Ok a => a | _ => zero32 end in
  _ ← guardE (bool_decide (addr2 = addr)) errTampering;
  _ ← lift gen;
  mret (version, threshold, pksCandidate).

Definition DeleteMultisigAddr (sw : SQLiteWallet) (addr : Digest) (pw : bytes) : M World unit :=
  _ ← CheckPassword sw pw;
  _ ← orErr errDatabaseConnect (Connect (sw_dbPath sw));
  orErr errDatabase (exec (sw_dbPath sw) (λ t, Ok (t <| t_msig_addrs ::= delete addr |>))).

Definition ListMultisigAddrs (sw : SQLiteWallet) : M World (list Digest) :=
  _ ← orErr errDatabaseConnect (Connect (sw_dbPath sw));
  addrByteSlices ← orErr errDatabase (query (sw_dbPath sw) (λ t, Ok (map_to_list (t_msig_addrs t)).*1));
  mret (copyAddrs zero32 addrByteSlices).

(** ** Signing *)

(** [SignatureSecrets]: the public key and the secret key. *)
Definition SignatureSecrets : Type := bytes * bytes.
Definition SecretKeyToSignatureSecrets (sk : bytes) : result SignatureSecrets :=
  match kl_skToPk L sk with Some pk => Ok (pk, sk) | None => Err (Errorf "failed to extract public key") end.
Definition secrets_Sign (s : SignatureSecrets) (msg : Hashable) : bytes := edSign s.2 msg.

Definition blankMsig : MultisigSig := mkMultisigSig 0 0 None.
(** [Transaction.Sign] *)
Definition tx_Sign (tx : Transaction) (secrets : SignatureSecrets) : SignedTxn :=
  stx_InitCaches cr computeEncodingLen
    (mkSignedTxn (secrets_Sign secrets (HTxn tx)) blankMsig (mkLogicSig [] zero64 blankMsig []) tx 0).

Definition orErrR {A} (e : error) (r : result A) : result A := match r with Err _ => Err e | _ => r end.

Definition SignTransaction (sw : SQLiteWallet) (tx : Transaction) (pw : bytes) : M World bytes :=
  _ ← CheckPassword sw pw;
  sk ← fetchSecretKey sw (hdr_Sender (tx_Header tx));
  secrets ← lift (orErrR errSKToPK (SecretKeyToSignatureSecrets sk));
  mret (encodeStxn (tx_Sign tx secrets)).

Definition SignProgram (sw : SQLiteWallet) (data : bytes) (src : Digest) (pw : bytes) : M World bytes :=
  _ ← CheckPassword sw pw;
  sk ← fetchSecretKey sw src;
  secrets ← lift (orErrR errSKToPK (SecretKeyToSignatureSecrets sk));
  mret (secrets_Sign secrets (HProgram data)).

Definition noPartial (partial : MultisigSig) : bool :=
  (msig_Version partial =? 0) && (msig_Threshold partial =? 0) && (length (subs partial) =? 0)%nat.

(** The common body of the two functions that sign for a multisignature address. *)
Definition multisigSign (sw : SQLiteWallet) (msg : Hashable) (src : Digest) (pk : bytes) (partial : MultisigSig) (pw : bytes) : M World MultisigSig :=
  _ ← CheckPassword sw pw;
  if noPartial partial then
    '(version, threshold, pks) ← LookupMultisigPreimage sw src;
    sk ← fetchSecretKey sw (publicKeyToAddress pk);
    secrets ← lift (orErrR errSKToPK (SecretKeyToSignatureSecrets sk));
    lift (MultisigSign (cr_Hash cr) fst secrets_Sign msg src version threshold pks secrets)
  else
    addr ← lift (MultisigAddrGenWithSubsigs (cr_Hash cr) (msig_Version partial) (msig_Threshold partial) (subs partial));
    _ ← guardE (bool_decide (addr = src)) errMsigWrongAddr;
    _ ← guardE (existsb (λ subsig, bool_decide (pk = ms_Key subsig)) (subs partial)) errMsigWrongKey;
    sk ← fetchSecretKey sw (publicKeyToAddress pk);
    secrets ← lift (SecretKeyToSignatureSecrets sk);
    let '(version, threshold, pks) := Preimage partial in
    msig2 ← lift (MultisigSign (cr_Hash cr) fst secrets_Sign msg addr version threshold pks secrets);
    lift (MultisigMerge partial msig2).

Definition MultisigSignTransaction (sw : SQLiteWallet) (tx : Transaction) : bytes -> MultisigSig -> bytes -> M World MultisigSig :=
  multisigSign sw (HTxn tx) (hdr_Sender (tx_Header tx)).
Definition MultisigSignProgram (sw : SQLiteWallet) (data : bytes) (src : Digest) : bytes -> MultisigSig -> bytes -> M World MultisigSig :=
  multisigSign sw (HProgram data) src.

(** [GenerateWalletID] of wallet.go; its error is that of the random source. *)
Definition GenerateWalletID : M R bytes := λ r,
  match kl_randRead L (zeros walletIDBytes) r with
  | (true, b, r') => (Ok (codes (hexEncode b)), r')
  | (false, _, r') => (Err errRandBytes, r')
  end.

End Wallet.
