(* ===== verification/WalletSpec.v ===== *)
(** What a wallet is: a store of secret keys behind a password.

    [Vault] is the abstract wallet, its secret keys by address, the highest index
    generated from the master derivation key, and its multisignature addresses.  The
    database of a wallet represents a vault ([rep]); every method of the wallet does to
    the vault what [vault_step] says when it succeeds and nothing when it fails, in any
    weather.  The proofs use triples over the monad: a postcondition for success and one
    for errors, and no panics. *)

From S2P Require Import Prelude Config Basics Transactions Bookkeeping Multisig Verify Pool BlockDB GoText GoTextSpec WalletBox Wallet.

(** ** Triples *)

Definition tri {S A} (P : S -> Prop) (m : M S A) (Q : A -> S -> Prop) (E : S -> Prop) : Prop :=
  forall s, P s -> match m s with (Ok a, s') => Q a s' | (Err _, s') => E s' | (Panic _, _) => False end.

Section Triples.
Context {S : Type}.
Implicit Types P E : S -> Prop.

Lemma tri_ret {A} P (a : A) E : tri P (mret a) (λ a' s, a' = a /\ P s) E.
Proof. intros s H. done. Qed.
Lemma tri_bind {A B} P (m : M S A) Q (f : A -> M S B) T E :
  tri P m Q E -> (forall a, tri (Q a) (f a) T E) -> tri P (m ≫= f) T E.
Proof.
  intros Hm Hf s H. specialize (Hm s H). unfold mbind, M_bind. destruct (m s) as [[a|e|p] s']; [|done..].
  by apply Hf.
Qed.
Lemma tri_conseq {A} P P' (m : M S A) (Q Q' : A -> S -> Prop) E E' :
  tri P' m Q' E' -> (forall s, P s -> P' s) -> (forall a s, Q' a s -> Q a s) -> (forall s, E' s -> E s) -> tri P m Q E.
Proof. intros Hm H1 H2 H3 s H. specialize (Hm s (H1 s H)). destruct (m s) as [[]]; auto. Qed.
Lemma tri_post {A} P (m : M S A) (Q Q' : A -> S -> Prop) E : tri P m Q' E -> (forall a s, Q' a s -> Q a s) -> tri P m Q E.
Proof. intros. by eapply tri_conseq. Qed.
Lemma tri_throw {A} P e : tri (A := A) P (throw e) (λ _ _, False) P.
Proof. intros s H. done. Qed.
Lemma tri_lift {A} P (r : result A) : (forall p, r <> Panic p) -> tri P (lift r) (λ a s, r = Ok a /\ P s) P.
Proof. intros Hp s H. unfold lift. destruct r as [a|e|p]; [done..|]. by destruct (Hp p). Qed.
Lemma tri_lift_why {A} P (r : result A) : (forall p, r <> Panic p) ->
  tri P (lift r) (λ a s, r = Ok a /\ P s) (λ s, (exists e, r = Err e) /\ P s).
Proof. intros Hp s H. unfold lift. destruct r as [a|e|p]; [done|eauto|]. by destruct (Hp p). Qed.
Lemma tri_lift_ok {A} P (r : result A) x E : r = Ok x -> tri P (lift r) (λ a s, a = x /\ P s) E.
Proof. intros -> s H. done. Qed.
Lemma tri_guardE P b e : tri P (guardE b e) (λ _ s, b = true /\ P s) P.
Proof. intros s H. by destruct b. Qed.
Lemma tri_guard_true P e E : tri P (guardE true e) (λ _, P) E.
Proof. by intros s H. Qed.
Lemma tri_orErr {A} P (m : M S A) Q E e : tri P m Q E -> tri P (orErr e m) Q E.
Proof. intros Hm s H. specialize (Hm s H). unfold orErr. by destruct (m s) as [[]]. Qed.
Lemma tri_checkDBError {A} P (m : M S A) Q E : tri P m Q E -> tri P (checkDBError m) Q E.
Proof. intros Hm s H. specialize (Hm s H). unfold checkDBError. by destruct (m s) as [[|[| | | | | | | |[]]|]]. Qed.
Lemma tri_pure {A} (phi : Prop) P (m : M S A) Q E : (phi -> tri P m Q E) -> tri (λ s, phi /\ P s) m Q E.
Proof. intros Hm s [? ?]. by apply Hm. Qed.
Lemma tri_exist {A X} (P : X -> S -> Prop) (m : M S A) Q E : (forall x, tri (P x) m Q E) -> tri (λ s, exists x, P x s) m Q E.
Proof. intros Hm s [x ?]. by apply (Hm x). Qed.
Lemma tri_false {A} (m : M S A) Q E : tri (λ _, False) m Q E.
Proof. intros s []. Qed.

(** A loop with an exit keeps an invariant that counts its turns, and leaves with what a
    turn leaves with. *)
Definition turned {A B} (I : Z -> A -> S -> Prop) (Q : B -> S -> Prop) (k : Z) (r : A + B) (s : S) : Prop :=
  match r with inl a => I k a s | inr b => Q b s end.
Lemma tri_iterE {A B} (I : Z -> A -> S -> Prop) (f : A -> M S (A + B)) (Q : B -> S -> Prop) E p k a :
  (forall k a, tri (I k a) (f a) (turned I Q (k + 1)) E) ->
  tri (I k a) (iterE p f a) (turned I Q (k + Z.pos p)) E.
Proof.
  intros Hf. revert k a.
  assert (forall q, (forall k a, tri (I k a) (iterE q f a) (turned I Q (k + Z.pos q)) E) ->
    forall k a, tri (I k a) (r ← iterE q f a; match r with inl a' => iterE q f a' | inr b => mret (inr b) end)
      (turned I Q (k + Z.pos q~0)) E) as Ht.
  { intros q IH k a. eapply tri_bind; [apply IH|]. intros [a'|b]; [|by intros s H].
    replace (k + Z.pos q~0) with (k + Z.pos q + Z.pos q) by lia. apply IH. }
  induction p as [q IH|q IH|]; intros k a; cbn [iterE].
  - eapply tri_bind; [by apply Ht|]. intros [a'|b]; [|by intros s H].
    replace (k + Z.pos q~1) with (k + Z.pos q~0 + 1) by lia. apply Hf.
  - by apply Ht.
  - apply Hf.
Qed.
End Triples.

(** A related map has a related value. *)
Lemma map_Forall2_Some {A B} (P : bytes -> A -> B -> Prop) (m1 : gmap bytes A) (m2 : gmap bytes B) i x :
  map_Forall2 P m1 m2 -> m1 !! i = Some x -> exists y, m2 !! i = Some y /\ P i x y.
Proof. intros H E. specialize (H i). rewrite E in H. inversion H; subst. eauto. Qed.

(** ** The world *)

Section World.
Context {R : Type} (L : KmdLib R) (env : weather).
Notation World := (World (R := R)).

(** The file [path] of the wallets directory is a database with these tables. *)
Definition file (path : string) (t : Tables) (w : World) : Prop := w_dir w ≫= lookup path = Some (DB (Some t)).

(** Something below the wallet fails at some time: a call, or the random source. *)
Definition storm : Prop := exists n, is_Some (env n).
Definition mishap : Prop := storm \/ noRandom L.

(** The calls below on a directory [d], with the reason for an error: a failure of the
    call, or the statement itself. *)
Definition dirIs (d : gmap string File) (w : World) : Prop := w_dir w = Some d.

Lemma tri_callD d : tri (dirIs d) (call env) (λ _, dirIs d) (λ w, storm /\ dirIs d w).
Proof. intros w H. unfold call. destruct (env _) eqn:E; [|done]. split; [|done]. exists (w_tick w). by rewrite E. Qed.
Lemma tri_onRngD {A} d (m : M R A) Q (phi : Prop) :
  (forall r, match m r with (Ok a, r') => Q a | (Err _, _) => phi | _ => False end) ->
  tri (dirIs d) (onRng m) (λ a w, Q a /\ dirIs d w) (λ w, phi /\ dirIs d w).
Proof. intros Hm w H. unfold onRng. specialize (Hm (w_rng w)). by destruct (m (w_rng w)) as [[] ?]. Qed.
Definition connected (d : gmap string File) (path : string) : gmap string File :=
  match d !! path with Some _ => d | None => <[path := DB None]> d end.
Lemma tri_ConnectD path d :
  tri (dirIs d) (Connect env path) (λ _, dirIs (connected d path)) (λ w, (storm \/ d !! path = Some Dir) /\ dirIs d w).
Proof.
  eapply tri_bind; [eapply tri_conseq; [apply tri_callD|done..|naive_solver]|]. intros ? w H. erewrite bind_run by done.
  unfold dirIs, connected in *. rewrite H. destruct (d !! path) as [[]|] eqn:E; cbn; auto.
Qed.
Lemma tri_tablesD path d t E : d !! path = Some (DB (Some t)) ->
  tri (dirIs d) (tablesOf path) (λ t' w, t' = t /\ dirIs d w) E.
Proof. intros Hd w H. unfold tablesOf. erewrite bind_run by done. unfold dirIs in H. rewrite H. cbn. by rewrite Hd. Qed.
Lemma tri_queryD {A} path d t (q : Tables -> result A) : d !! path = Some (DB (Some t)) -> (forall p, q t <> Panic p) ->
  tri (dirIs d) (query env path q) (λ a w, q t = Ok a /\ dirIs d w) (λ w, (storm \/ exists e, q t = Err e) /\ dirIs d w).
Proof.
  intros Hd Hp. eapply tri_bind; [eapply tri_conseq; [apply tri_callD|done..|naive_solver]|]. intros ?.
  eapply tri_bind; [by apply tri_tablesD|]. intros t'. apply tri_pure. intros ->.
  eapply tri_conseq; [by apply tri_lift_why|done..|naive_solver].
Qed.
Lemma tri_execD path d t q : d !! path = Some (DB (Some t)) -> (forall p, q t <> Panic p) ->
  tri (dirIs d) (exec env path q) (λ _ w, exists t', q t = Ok t' /\ dirIs (<[path := DB (Some t')]> d) w)
    (λ w, (storm \/ exists e, q t = Err e) /\ dirIs d w).
Proof.
  intros Hd Hp. eapply tri_bind; [eapply tri_conseq; [apply tri_callD|done..|naive_solver]|]. intros ?.
  eapply tri_bind; [by apply tri_tablesD|]. intros t'. apply tri_pure. intros ->.
  eapply tri_bind; [eapply tri_conseq; [by apply tri_lift_why|done..|naive_solver]|]. intros t'. apply tri_pure. intros E w H.
  exists t'. split; [done|]. unfold dirIs in *. cbn. by rewrite H.
Qed.

(** The same calls seen from one file. *)
Lemma file_dirIs path t w : file path t w <-> exists d, dirIs d w /\ d !! path = Some (DB (Some t)).
Proof. unfold file, dirIs. destruct (w_dir w); cbn; naive_solver. Qed.
Lemma tri_file {A} path t (m : M World A) Q Q' (phi psi : Prop) :
  (forall d, d !! path = Some (DB (Some t)) -> tri (dirIs d) m (Q d) (λ w, phi /\ dirIs d w)) -> (phi -> psi) ->
  (forall d a w, d !! path = Some (DB (Some t)) -> Q d a w -> Q' a w) -> tri (file path t) m Q' (λ w, psi /\ file path t w).
Proof.
  intros Hm Hphi HQ w (d & Hd & Hp)%file_dirIs. specialize (Hm d Hp w Hd). destruct (m w) as [[a|e|p] w']; [by eapply HQ| |done].
  rewrite file_dirIs. naive_solver.
Qed.

Lemma tri_call path t : tri (file path t) (call env) (λ _, file path t) (λ w, mishap /\ file path t w).
Proof. eapply tri_file; [intros; apply tri_callD|by left|]. cbn. intros. rewrite file_dirIs. eauto. Qed.
Lemma tri_onRng {A} path t (m : M R A) Q : (forall r, match m r with (Ok a, r') => Q a | (Err _, _) => mishap | _ => False end) ->
  tri (file path t) (onRng m) (λ a w, Q a /\ file path t w) (λ w, mishap /\ file path t w).
Proof. intros Hm. eapply tri_file; [intros; by apply tri_onRngD|done|]. cbn. intros. rewrite file_dirIs. naive_solver. Qed.
Lemma tri_Connect path t : tri (file path t) (Connect env path) (λ _, file path t) (λ w, mishap /\ file path t w).
Proof.
  apply (tri_file _ _ _ (λ d _, dirIs (connected d path)) _ storm); [intros d Hd; eapply tri_conseq; [apply tri_ConnectD|done..|]|by left|].
  - intros w. rewrite Hd. naive_solver.
  - cbn. intros d ? w Hd. unfold connected. rewrite Hd, file_dirIs. eauto.
Qed.
Lemma tri_query {A} path t (q : Tables -> result A) : (forall p, q t <> Panic p) ->
  tri (file path t) (query env path q) (λ a w, q t = Ok a /\ file path t w) (λ w, (mishap \/ exists e, q t = Err e) /\ file path t w).
Proof. intros Hp. eapply tri_file; [intros; by apply tri_queryD|unfold mishap; tauto|]. cbn. intros. rewrite file_dirIs. naive_solver. Qed.
Lemma tri_exec path t q : (forall p, q t <> Panic p) ->
  tri (file path t) (exec env path q) (λ _ w, exists t', q t = Ok t' /\ file path t' w) (λ w, (mishap \/ exists e, q t = Err e) /\ file path t w).
Proof.
  intros Hp. eapply tri_file; [intros; by apply tri_execD|unfold mishap; tauto|]. cbn. intros d ? w Hd (t' & E & H). exists t'. split; [done|].
  rewrite file_dirIs. eexists. split; [done|]. by rewrite lookup_insert_eq.
Qed.
Lemma tri_transaction {A} path t (m : M World A) Q (phi : Prop) : (mishap -> phi) ->
  tri (file path t) m Q (λ _, phi) -> (forall a w w', Q a w -> w_dir w' = w_dir w -> Q a w') ->
  tri (file path t) (transaction env m) Q (λ w, phi /\ file path t w).
Proof.
  intros Hphi Hm HQ w H. specialize (Hm w H). unfold transaction. destruct (m w) as [[a|e|p] w1]; [|done..].
  pose proof (tri_call path t) as Hc. unfold call. destruct (env (w_tick w1)) eqn:E; [|by eapply HQ].
  split; [|done]. apply Hphi. left. exists (w_tick w1). by rewrite E.
Qed.
End World.

(** ** Vaults *)

Record Vault := mkVault {
  v_keys : gmap bytes bytes;
  v_idx : Z;
  v_msig : gmap bytes (Z * Z * list bytes)
}.
Definition Vault_empty : Vault := mkVault ∅ 0 ∅.

(** The methods that change a wallet. *)
Inductive wop :=
| OImport (rawSK : bytes)
| OGenerate (displayMnemonic : bool)
| ODelete (addr : Digest) (pw : bytes)
| OImportMsig (version threshold : Z) (pks : list bytes)
| ODeleteMsig (addr : Digest) (pw : bytes).

Definition keys_wf (pks : list bytes) : Prop := Forall (λ k, length k = 32%nat) pks.
Definition wop_ok (op : wop) : Prop :=
  match op with
  | OImportMsig version threshold pks => 0 <= version < 256 /\ 0 <= threshold < 256 /\ keys_wf pks
  | _ => True
  end.

Class WalletCodec `{!Msgpack typedPlaintext} `{!Msgpack encryptedDBBlob} `{!Msgpack bytes} `{!Msgpack Z} `{!Msgpack (list bytes)} := {
  #[global] wc_pt :: MsgpackLaws typedPlaintext (λ _, True);
  #[global] wc_blob :: MsgpackLaws encryptedDBBlob blob_wf;
  #[global] wc_sk :: MsgpackLaws bytes (λ sk, length sk = 64%nat);
  #[global] wc_idx :: MsgpackLaws Z u64;
  #[global] wc_pks :: MsgpackLaws (list bytes) keys_wf
}.

Section Vaults.
Context {R : Type} (L : KmdLib R) (cr : Crypto).
Context `{!Msgpack typedPlaintext} `{!Msgpack encryptedDBBlob}.
Context `{!Msgpack bytes} `{!Msgpack Z} `{!Msgpack (list bytes)}.
Context `{!KmdLaws L} {WC : WalletCodec}.
Context (env : weather).
Notation World := (World (R := R)).
#[local] Notation file := (file (R := R)).
#[local] Notation mishap := (mishap L env).
Implicit Types (sw : SQLiteWallet) (t : Tables) (v : Vault).

(** What a successful method does to the vault, with the address it returns. *)
Inductive vault_step (mdk : bytes) v : wop -> option Digest -> Vault -> Prop :=
| vs_import raw seed pk sk :
    kl_skToSeed L raw = Some seed -> kl_seedKeypair L seed = (pk, sk) -> v_keys v !! pk = None ->
    vault_step mdk v (OImport raw) (Some pk) (mkVault (<[pk := sk]> (v_keys v)) (v_idx v) (v_msig v))
| vs_generate i pk sk :
    v_idx v < i < 2 ^ 63 -> extractKeyWithIndex L mdk i = Ok (pk, sk) -> v_keys v !! pk = None ->
    (forall j, v_idx v < j < i -> exists pk' sk', extractKeyWithIndex L mdk j = Ok (pk', sk') /\ is_Some (v_keys v !! pk')) ->
    vault_step mdk v (OGenerate false) (Some pk) (mkVault (<[pk := sk]> (v_keys v)) i (v_msig v))
| vs_delete addr pw :
    vault_step mdk v (ODelete addr pw) None (mkVault (delete addr (v_keys v)) (v_idx v) (v_msig v))
| vs_importMsig version threshold pks addr :
    MultisigAddrGen (cr_Hash cr) version threshold pks = Ok addr -> v_msig v !! addr = None ->
    vault_step mdk v (OImportMsig version threshold pks) (Some addr)
      (mkVault (v_keys v) (v_idx v) (<[addr := (version, threshold, pks)]> (v_msig v)))
| vs_deleteMsig addr pw :
    vault_step mdk v (ODeleteMsig addr pw) None (mkVault (v_keys v) (v_idx v) (delete addr (v_msig v))).

(** The tables of a database represent a vault, under the master keys. *)
Definition key_rep (mek : bytes) (addr : bytes) (row : KeyRow) (sk : bytes) : Prop :=
  decryptBlobWithPassword L (kr_secret_key_encrypted row) PTSecretKey mek = Ok (msgpackEncode sk)
  /\ exists seed, kl_seedKeypair L seed = (addr, sk).
Definition msig_rep (addr : bytes) (row : MsigRow) (x : Z * Z * list bytes) : Prop :=
  let '(version, threshold, pks) := x in
  row = mkMsigRow version threshold (msgpackEncode pks) /\ 0 <= version < 256 /\ 0 <= threshold < 256 /\ keys_wf pks
  /\ MultisigAddrGen (cr_Hash cr) version threshold pks = Ok addr.
Definition meta_rep (pw mek mdk : bytes) (idx : Z) (r : MetaRow) : Prop :=
  decryptBlobWithPassword L (mr_mep_encrypted r) PTMasterKey pw = Ok mek
  /\ decryptBlobWithPassword L (mr_mdk_encrypted r) PTMasterDerivationKey mek = Ok mdk
  /\ decryptBlobWithPassword L (mr_max_key_idx_encrypted r) PTMaxKeyIdx mek = Ok (msgpackEncode idx)
  /\ 0 <= idx < 2 ^ 63.
Record rep (pw mek mdk : bytes) t v : Prop := {
  rep_meta : exists r rest, t_metadata t = r :: rest /\ meta_rep pw mek mdk (v_idx v) r;
  rep_keys : map_Forall2 (key_rep mek) (t_keys t) (v_keys v);
  rep_msig : map_Forall2 msig_rep (t_msig_addrs t) (v_msig v)
}.

(** The wallet is open: it holds the master keys and the hash of the password. *)
Record opened (path : string) (pw mek mdk : bytes) sw : Prop := {
  op_path : sw_dbPath sw = path;
  op_mek : sw_masterEncryptionKey sw = mek;
  op_mdk : sw_masterDerivationKey sw = mdk;
  op_len : zlen mek = masterKeyLen;
  op_hashed : sw_walletPasswordHashed sw = true;
  op_hash : sw_walletPasswordHash sw = cr_Hash cr (sw_walletPasswordSalt sw ++ pw)
}.

(** The wallet's file represents [v]. *)
Definition holds (path : string) (pw mek mdk : bytes) v (w : World) : Prop :=
  exists t, file path t w /\ rep pw mek mdk t v.

Lemma file_dir path t (w w' : World) : file path t w -> w_dir w' = w_dir w -> file path t w'.
Proof. unfold file. by intros ? ->. Qed.

Section Open.
Context (path : string) (pw mek mdk : bytes) (sw : SQLiteWallet) (Hopen : opened path pw mek mdk sw).
Let Hpath : sw_dbPath sw = path := op_path _ _ _ _ _ Hopen.
Let Hmek : sw_masterEncryptionKey sw = mek := op_mek _ _ _ _ _ Hopen.
Let Hmdk : sw_masterDerivationKey sw = mdk := op_mdk _ _ _ _ _ Hopen.

(** Dropping the reason of an error. *)
Lemma tri_any {A} P (m : M World A) Q (phi : Prop) t : tri P m Q (λ w, phi /\ file path t w) -> tri P m Q (file path t).
Proof. intros. eapply tri_conseq; [done|done|done|]. by intros w [_ ?]. Qed.

Lemma tri_Connect' t : tri (file path t) (orErr errDatabaseConnect (Connect env (sw_dbPath sw))) (λ _, file path t) (λ w, mishap /\ file path t w).
Proof. rewrite Hpath. apply tri_orErr, tri_Connect. Qed.
Lemma tri_query' {A} e t (q : Tables -> result A) : (forall p, q t <> Panic p) ->
  tri (file path t) (orErr e (query env (sw_dbPath sw) q)) (λ a w, q t = Ok a /\ file path t w)
    (λ w, (mishap \/ exists e, q t = Err e) /\ file path t w).
Proof. intros. rewrite Hpath. by apply tri_orErr, tri_query. Qed.

Lemma CheckPassword_open pw' (w : World) : CheckPassword L cr env sw pw' w =
  (if bool_decide (cr_Hash cr (sw_walletPasswordSalt sw ++ pw') = cr_Hash cr (sw_walletPasswordSalt sw ++ pw)) then Ok tt else Err errDecrypt, w).
Proof.
  unfold CheckPassword. rewrite (op_hashed _ _ _ _ _ Hopen), (op_hash _ _ _ _ _ Hopen). unfold fastHashWithSalt.
  by destruct (bool_decide _).
Qed.
Lemma tri_CheckPassword pw' t : tri (file path t) (CheckPassword L cr env sw pw') (λ _, file path t) (λ w, pw' <> pw /\ file path t w).
Proof. intros w H. rewrite CheckPassword_open. case_bool_decide as Hc; [done|]. split; [|done]. by intros ->. Qed.

Lemma tri_encrypt pt ty t : tri (file path t) (onRng (encryptBlobWithKey L pt ty (sw_masterEncryptionKey sw)))
  (λ blob w, decryptBlobWithPassword L blob ty mek = Ok pt /\ file path t w) (λ w, mishap /\ file path t w).
Proof.
  rewrite Hmek. apply tri_onRng. intros r. pose proof (encrypt_cases L pt ty mek None r) as H. pose proof (op_len _ _ _ _ _ Hopen). unfold encryptBlobWithKey.
  destruct (encryptBlobWithPasswordBlankOK _ _ _ _ _ r) as [[] ?]; [|right; tauto|done]. rewrite H. by rewrite bool_decide_false by (by intros []).
Qed.

Lemma addr_of_pk seed : publicKeyToAddress (kl_seedKeypair L seed).1 = (kl_seedKeypair L seed).1.
Proof. unfold publicKeyToAddress. apply copyInto_full. by rewrite kl_pk_len. Qed.

Lemma keys_none t v addr : rep pw mek mdk t v -> t_keys t !! addr = None <-> v_keys v !! addr = None.
Proof.
  intros Hr. pose proof (map_Forall2_dom_L _ _ _ (rep_keys _ _ _ _ _ Hr)) as E. by rewrite <- !not_elem_of_dom, E.
Qed.
(** *** The methods that change the wallet *)

(** A method that succeeds makes the step of [op]; one that fails changes nothing. *)
Definition steps_to v op (a : option Digest) (w : World) : Prop :=
  exists v', vault_step mdk v op a v' /\ holds path pw mek mdk v' w.

Lemma tri_ImportKey t v raw : rep pw mek mdk t v ->
  tri (file path t) (ImportKey L env sw raw) (λ a, steps_to v (OImport raw) (Some a)) (file path t).
Proof.
  intros Hr. eapply tri_bind; [apply tri_lift; by destruct (kl_skToSeed L raw)|]. intros seed. apply tri_pure. intros Es.
  destruct (kl_skToSeed L raw) as [seed'|] eqn:Eseed; [|done]. injection Es as ->.
  destruct (kl_seedKeypair L seed) as [pk sk] eqn:Ek. pose proof (addr_of_pk seed) as Ea. rewrite Ek in Ea. cbn in Ea.
  eapply tri_bind; [eapply tri_any, tri_encrypt|]. intros blob. apply tri_pure. intros Hb.
  eapply tri_bind; [eapply tri_any, tri_Connect'|]. intros ?. cbv zeta. rewrite Ea, Hpath.
  eapply tri_bind; [eapply tri_any, tri_checkDBError, (tri_exec L); unfold insertKey; by destruct (t_keys t !! pk)|].
  intros ? w (t' & Ei & Hf). unfold insertKey in Ei. destruct (t_keys t !! pk) eqn:El; [done|]. injection Ei as <-.
  eexists. split; [eapply vs_import; [done..|by apply (keys_none t v pk Hr)]|]. eexists. split; [done|].
  constructor; [apply Hr| |apply Hr]. cbn. apply map_Forall2_insert_2; [|apply Hr]. split; [done|]. by exists seed.
Qed.

Lemma tri_DeleteKey t v addr pw' : rep pw mek mdk t v ->
  tri (file path t) (DeleteKey L cr env sw addr pw') (λ _, steps_to v (ODelete addr pw') None) (file path t).
Proof.
  intros Hr. eapply tri_bind; [eapply tri_any, tri_CheckPassword|]. intros ?. eapply tri_bind; [eapply tri_any, tri_Connect'|]. intros ?.
  rewrite Hpath. eapply tri_post; [by eapply tri_any, tri_orErr, (tri_exec L)|]. intros ? w (t' & [= <-] & Hf).
  eexists. split; [apply vs_delete|]. eexists. split; [done|]. constructor; [apply Hr| |apply Hr].
  apply map_Forall2_delete, Hr.
Qed.

Lemma MultisigAddrGen_nopanic ver thr pks p : MultisigAddrGen (cr_Hash cr) ver thr pks <> Panic p.
Proof. unfold MultisigAddrGen. destruct (negb _); [done|]. by destruct (_ || _). Qed.

Lemma msig_none t v addr : rep pw mek mdk t v -> t_msig_addrs t !! addr = None <-> v_msig v !! addr = None.
Proof.
  intros Hr. pose proof (map_Forall2_dom_L _ _ _ (rep_msig _ _ _ _ _ Hr)) as E. by rewrite <- !not_elem_of_dom, E.
Qed.

Lemma tri_ImportMultisigAddr t v version threshold pks : rep pw mek mdk t v -> wop_ok (OImportMsig version threshold pks) ->
  tri (file path t) (ImportMultisigAddr cr env sw version threshold pks)
    (λ a, steps_to v (OImportMsig version threshold pks) (Some a)) (file path t).
Proof.
  intros Hr (Hv & Ht & Hk). eapply tri_bind; [apply tri_lift, MultisigAddrGen_nopanic|]. intros addr. apply tri_pure. intros Ea.
  eapply tri_bind; [eapply tri_any, tri_Connect'|]. intros ?. rewrite Hpath.
  eapply tri_bind; [eapply tri_any, tri_checkDBError, (tri_exec L); by destruct (t_msig_addrs t !! addr)|].
  intros ? w (t' & Ei & Hf). destruct (t_msig_addrs t !! addr) eqn:El; [done|]. injection Ei as <-.
  eexists. split; [apply vs_importMsig; [done|by apply (msig_none t v addr Hr)]|]. eexists. split; [done|].
  constructor; [apply Hr|apply Hr|]. cbn. apply map_Forall2_insert_2; [|apply Hr]. done.
Qed.

Lemma tri_DeleteMultisigAddr t v addr pw' : rep pw mek mdk t v ->
  tri (file path t) (DeleteMultisigAddr L cr env sw addr pw') (λ _, steps_to v (ODeleteMsig addr pw') None) (file path t).
Proof.
  intros Hr. eapply tri_bind; [eapply tri_any, tri_CheckPassword|]. intros ?. eapply tri_bind; [eapply tri_any, tri_Connect'|]. intros ?.
  rewrite Hpath. eapply tri_post; [by eapply tri_any, tri_orErr, (tri_exec L)|]. intros ? w (t' & [= <-] & Hf).
  eexists. split; [apply vs_deleteMsig|]. eexists. split; [done|]. constructor; [apply Hr|apply Hr|].
  apply map_Forall2_delete, Hr.
Qed.

(** The search for the next key, after [k] turns. *)
Definition searching t v (k n : Z) (w : World) : Prop :=
  (0 <= k /\ n = v_idx v + 1 + k /\ n <= 2 ^ 63 /\
   forall j, v_idx v < j < n -> exists pk' sk', extractKeyWithIndex L mdk j = Ok (pk', sk') /\ is_Some (v_keys v !! pk'))
  /\ file path t w.
Definition found t v (x : Digest * bytes * Z) (w : World) : Prop :=
  (let '(pk, sk, i) := x in
   v_idx v < i < 2 ^ 63 /\ extractKeyWithIndex L mdk i = Ok (pk, sk) /\ v_keys v !! pk = None /\
   forall j, v_idx v < j < i -> exists pk' sk', extractKeyWithIndex L mdk j = Ok (pk', sk') /\ is_Some (v_keys v !! pk'))
  /\ file path t w.

(** No key can be generated: a derivation fails, or every key is in the wallet already. *)
Definition stuck v : Prop :=
  (exists j, v_idx v < j < 2 ^ 63 /\ forall x, extractKeyWithIndex L mdk j <> Ok x) \/
  (forall j, v_idx v < j < 2 ^ 63 -> exists pk' sk', extractKeyWithIndex L mdk j = Ok (pk', sk') /\ is_Some (v_keys v !! pk')).

Lemma extract_pair i pk sk : extractKeyWithIndex L mdk i = Ok (pk, sk) ->
  publicKeyToAddress pk = pk /\ exists seed, kl_seedKeypair L seed = (pk, sk).
Proof.
  unfold extractKeyWithIndex. destruct (kl_hkdfRead L _ _ _) as [seed|]; [|done]. intros [= E].
  pose proof (addr_of_pk seed) as Ea. rewrite E in Ea. eauto.
Qed.

Lemma tri_nextKeyTurn t v k n : rep pw mek mdk t v ->
  tri (searching t v k n) (nextKeyTurn L env sw n) (turned (searching t v) (found t v) (k + 1)) (λ _, mishap \/ stuck v).
Proof.
  intros Hr. apply tri_pure. intros (Hk & -> & Hn & Hj). destruct (rep_meta _ _ _ _ _ Hr) as (r & rest & _ & _ & _ & _ & Hv). unfold nextKeyTurn, sqliteIntOverflow. change (Z.shiftl 1 63) with (2 ^ 63).
  destruct (Z.eqb_spec (v_idx v + 1 + k) (2 ^ 63)) as [e|Hne].
  { intros w _. right. right. intros j. rewrite <- e. apply Hj. }
  rewrite Hmdk. eapply tri_bind.
  { eapply tri_conseq; [apply tri_lift_why; unfold extractKeyWithIndex; by destruct (kl_hkdfRead L _ _ _)|done..|].
    intros w [(err & Ee) _]. right. left. exists (v_idx v + 1 + k). split; [lia|]. intros x. by rewrite Ee. }
  intros [pk sk]. apply tri_pure. intros Ex. destruct (extract_pair _ _ _ Ex) as [Ea _]. cbv zeta. rewrite Ea.
  eapply tri_bind; [eapply tri_conseq; [by apply tri_query'|done..|naive_solver]|]. intros cnt. apply tri_pure. intros [= <-] w Hf. cbn.
  destruct (t_keys t !! pk) eqn:El; cbn.
  - split; [|done]. unfold wrap64. rewrite Z.mod_small by lia. split_and!; [lia..|]. intros j Hlt.
    destruct (decide (j = v_idx v + 1 + k)) as [->|]; [|apply Hj; lia]. do 2 eexists. split; [done|].
    apply not_eq_None_Some. rewrite <- (keys_none t v pk Hr). by rewrite El.
  - split; [|done]. split_and!; [lia..|done|by apply (keys_none t v pk Hr)|done].
Qed.
Lemma sqlUint_small z : z < 2 ^ 63 -> sqlUint z = Ok z.
Proof. intros. unfold sqlUint. by rewrite (proj2 (Z.ltb_lt _ _)). Qed.

(** The tables after a key was generated. *)
Lemma rep_generate t v i pk sk blob idxBlob : rep pw mek mdk t v -> v_idx v < i < 2 ^ 63 ->
  extractKeyWithIndex L mdk i = Ok (pk, sk) ->
  decryptBlobWithPassword L blob PTSecretKey mek = Ok (msgpackEncode sk) ->
  decryptBlobWithPassword L idxBlob PTMaxKeyIdx mek = Ok (msgpackEncode i) ->
  rep pw mek mdk (t <| t_keys ::= <[pk := mkKeyRow blob (Some i)]> |>
                    <| t_metadata ::= fmap (M := list) (λ r, r <| mr_max_key_idx_encrypted := idxBlob |>) |>)
    (mkVault (<[pk := sk]> (v_keys v)) i (v_msig v)).
Proof.
  intros Hr Hi Hx Hb Hib. destruct Hr as [(r & rest & Em & H1 & H2 & H3 & H4) Hk Hm]. constructor; cbn; [| |done].
  - rewrite Em. cbn. eexists _, _. split; [done|]. split_and!; [done..|lia|lia].
  - apply map_Forall2_insert_2; [|done]. split; [done|]. by eapply extract_pair.
Qed.

Lemma tri_generate t v : rep pw mek mdk t v ->
  tri (file path t) (generateKeyTxLocked L env sw) (λ a, steps_to v (OGenerate false) (Some a)) (λ _, mishap \/ stuck v).
Proof.
  intros Hr. destruct (rep_meta _ _ _ _ _ Hr) as (r & rest & Em & H1 & H2 & H3 & H4).
  eapply tri_bind. { eapply tri_conseq; [apply tri_query'; unfold firstRow; by rewrite Em|done..|]. unfold firstRow. rewrite Em. naive_solver. }
  intros blob. apply tri_pure. intros E. unfold firstRow in E. rewrite Em in E. injection E as <-.
  rewrite Hmek, H3. eapply tri_bind. { apply (tri_lift_ok _ _ (msgpackEncode (v_idx v))). done. }
  intros ?. apply tri_pure. intros ->.
  eapply tri_bind. { eapply (tri_lift_ok _ _ (v_idx v)). apply msgpack_roundtrip. unfold u64. lia. }
  intros ?. apply tri_pure. intros ->. rewrite (wrap64_small (v_idx v + 1)) by (unfold u64; lia).
  eapply tri_bind.
  { eapply tri_conseq; [apply (tri_iterE (searching t v) _ (found t v) _ _ 0); intros; by apply tri_nextKeyTurn| |done|done].
    intros w Hw. split; [|done]. split_and!; [lia..|]. intros. lia. }
  intros [n|[[pk sk] i]]; cbn [turned].
  { apply tri_pure. intros (_ & En & Hn & _). lia. }
  apply tri_pure. intros (Hi & Hx & Hn & Hj). rewrite <- Hmek.
  eapply tri_bind. { eapply tri_conseq; [apply tri_encrypt|done..|naive_solver]. }
  intros skBlob. apply tri_pure. intros Hsk. rewrite Hpath.
  assert (t_keys t !! pk = None) as El by by apply (keys_none t v pk Hr).
  assert (forall row, (idx ← sqlUint i; insertKey pk (row idx) t) = Ok (t <| t_keys ::= <[pk := row i]> |>)) as Ei.
  { intros row. rewrite sqlUint_small by lia. cbn. unfold insertKey. by rewrite El. }
  eapply tri_bind. { eapply tri_conseq; [apply (tri_exec L); by rewrite (Ei (λ idx, mkKeyRow skBlob (Some idx)))|done..|].
    cbv beta. rewrite (Ei (λ idx, mkKeyRow skBlob (Some idx))). naive_solver. }
  intros ?. apply tri_exist. intros t1. apply tri_pure. intros E. rewrite (Ei (λ idx, mkKeyRow skBlob (Some idx))) in E. injection E as <-.
  eapply tri_bind. { eapply tri_conseq; [apply tri_encrypt|done..|naive_solver]. }
  intros idxBlob. apply tri_pure. intros Hidx.
  eapply tri_bind. { eapply tri_conseq; [by apply (tri_exec L)|done..|naive_solver]. }
  intros ?. apply tri_exist. intros t2. apply tri_pure. intros [= <-] w Hf.
  eexists. split; [by eapply vs_generate|]. eexists. split; [done|]. by apply rep_generate.
Qed.

Lemma tri_GenerateKey t v displayMnemonic : rep pw mek mdk t v ->
  tri (file path t) (GenerateKey L env sw displayMnemonic) (λ a, steps_to v (OGenerate displayMnemonic) (Some a))
    (λ w, (displayMnemonic = true \/ mishap \/ stuck v) /\ file path t w).
Proof.
  intros Hr. eapply tri_bind; [eapply tri_conseq; [apply tri_Connect'|done..|naive_solver]|]. intros ?.
  destruct displayMnemonic; [intros w Hf; split; [by left|done]|]. eapply tri_bind; [apply tri_guard_true|]. intros ?.
  eapply tri_bind; [eapply tri_conseq; [apply tri_orErr, tri_call|done..|naive_solver]|]. intros ?.
  apply (tri_transaction L); [tauto| |].
  - eapply tri_conseq; [by apply tri_generate|done..|]. tauto.
  - intros addr w w' (v' & Hs & t' & Hf & Hr') Ed. exists v'. split; [done|]. exists t'. split; [|done]. by eapply file_dir.
Qed.
(** *** The methods that read it *)

Lemma keys_some t v addr row : rep pw mek mdk t v -> t_keys t !! addr = Some row ->
  exists sk, v_keys v !! addr = Some sk /\ key_rep mek addr row sk.
Proof. intros Hr. apply map_Forall2_Some, Hr. Qed.

Lemma tri_fetchSecretKey t v addr : rep pw mek mdk t v ->
  tri (file path t) (fetchSecretKey L env sw addr) (λ sk w, v_keys v !! addr = Some sk /\ file path t w)
    (λ w, (mishap \/ v_keys v !! addr = None) /\ file path t w).
Proof.
  intros Hr. eapply tri_bind; [eapply tri_conseq; [apply tri_Connect'|done..|naive_solver]|]. intros ?.
  eapply tri_bind. { eapply tri_conseq; [apply (tri_query' _ t); intros p; by destruct (t_keys t !! addr)|done..|].
    cbv beta. intros w [[?|[e He]] ?]; [auto|]. split; [|done]. right. apply (keys_none t v addr Hr). by destruct (t_keys t !! addr). }
  intros blob. apply tri_pure. intros Eb. destruct (t_keys t !! addr) as [row|] eqn:El; [|done]. injection Eb as <-.
  destruct (keys_some t v addr row Hr El) as (sk & Ev & Hd & seed & Ek). rewrite Hmek, Hd.
  pose proof (kl_sk_len seed) as Hlen. pose proof (kl_pair_pk seed) as Hpk. pose proof (addr_of_pk seed) as Ha. rewrite Ek in Hlen, Hpk, Ha. cbn in Hlen, Hpk, Ha.
  eapply tri_bind; [by apply (tri_lift_ok _ _ (msgpackEncode sk))|]. intros ?. apply tri_pure. intros ->.
  eapply tri_bind; [by apply (tri_lift_ok _ _ sk), msgpack_roundtrip|]. intros ?. apply tri_pure. intros ->. rewrite Hpk.
  eapply tri_bind; [by apply (tri_lift_ok _ _ addr)|]. intros ?. apply tri_pure. intros ->. cbv zeta. rewrite Ha, bool_decide_true by done.
  eapply tri_bind; [apply tri_guard_true|]. intros ? w Hf. done.
Qed.

Lemma tri_ExportKey t v addr pw' : rep pw mek mdk t v ->
  tri (file path t) (ExportKey L cr env sw addr pw') (λ sk w, v_keys v !! addr = Some sk /\ file path t w)
    (λ w, (pw' <> pw \/ mishap \/ v_keys v !! addr = None) /\ file path t w).
Proof.
  intros Hr. eapply tri_bind; [eapply tri_conseq; [apply tri_CheckPassword|done..|naive_solver]|]. intros ?.
  eapply tri_conseq; [by apply (tri_fetchSecretKey t v)|done..|]. naive_solver.
Qed.

Lemma copyAddrs_32 l : forall tmp, length tmp = 32%nat -> Forall (λ a, length a = 32%nat) l -> copyAddrs tmp l = l.
Proof.
  induction l as [|a l IH]; intros tmp Ht Hl; [done|]. apply Forall_cons in Hl as [Ha Hl]. cbn. rewrite copyInto_full by congruence. by rewrite IH.
Qed.

Lemma keys_32 t v : rep pw mek mdk t v -> Forall (λ a, length a = 32%nat) (map_to_list (t_keys t)).*1.
Proof.
  intros Hr. apply Forall_forall. intros a ([a' row] & -> & Hin)%list_elem_of_fmap. apply elem_of_map_to_list in Hin.
  destruct (keys_some t v _ _ Hr Hin) as (sk & _ & _ & seed & Ek). pose proof (kl_pk_len seed). by rewrite Ek in H.
Qed.

Lemma tri_ListKeys t v : rep pw mek mdk t v ->
  tri (file path t) (ListKeys env sw) (λ l w, (NoDup l /\ forall a, a ∈ l <-> is_Some (v_keys v !! a)) /\ file path t w)
    (λ w, mishap /\ file path t w).
Proof.
  intros Hr. eapply tri_bind; [apply tri_Connect'|]. intros ?.
  eapply tri_bind; [eapply tri_conseq; [by apply tri_query'|done..|naive_solver]|]. intros l. apply tri_pure. intros [= <-] w Hf.
  cbn. rewrite copyAddrs_32; [|done|by apply (keys_32 t v)]. split; [|done]. split; [apply NoDup_fst_map_to_list|].
  intros addr. rewrite <- !elem_of_dom, <- (map_Forall2_dom_L _ _ _ (rep_keys _ _ _ _ _ Hr)), elem_of_dom. split.
  - intros ([a' row] & -> & Hin)%list_elem_of_fmap. apply elem_of_map_to_list in Hin. by exists row.
  - intros [row Hrow]. apply list_elem_of_fmap. exists (addr, row). split; [done|]. by apply elem_of_map_to_list.
Qed.

Lemma tri_LookupMultisigPreimage t v addr : rep pw mek mdk t v ->
  tri (file path t) (LookupMultisigPreimage cr env sw addr) (λ x w, v_msig v !! addr = Some x /\ file path t w)
    (λ w, (mishap \/ v_msig v !! addr = None) /\ file path t w).
Proof.
  intros Hr. eapply tri_bind; [eapply tri_conseq; [apply tri_Connect'|done..|naive_solver]|]. intros ?.
  eapply tri_bind. { eapply tri_conseq; [apply (tri_query' _ t); intros p; by destruct (t_msig_addrs t !! addr)|done..|].
    cbv beta. intros w [[?|[e He]] ?]; [auto|]. split; [|done]. right. apply (msig_none t v addr Hr). by destruct (t_msig_addrs t !! addr). }
  intros row. apply tri_pure. intros Eb. destruct (t_msig_addrs t !! addr) as [row'|] eqn:El; [|done]. injection Eb as ->.
  destruct (map_Forall2_Some _ _ _ _ _ (rep_msig _ _ _ _ _ Hr) El) as ([[ver thr] pks] & Ev & -> & Hv & Ht & Hk & Hg). cbn [ma_pks ma_version ma_threshold].
  eapply tri_bind; [by apply (tri_lift_ok _ _ pks), msgpack_roundtrip|]. intros ?. apply tri_pure. intros ->. cbv zeta.
  rewrite !Z.mod_small, Hg, bool_decide_true by done.
  eapply tri_bind; [apply tri_guard_true|]. intros ?. eapply tri_bind; [by apply (tri_lift_ok _ _ addr)|]. intros ?. apply tri_pure. intros ->.
  by intros w Hf.
Qed.

(** *** Runs *)

Definition runOp (op : wop) : M World (option Digest) :=
  match op with
  | OImport raw => a ← ImportKey L env sw raw; mret (Some a)
  | OGenerate dm => a ← GenerateKey L env sw dm; mret (Some a)
  | ODelete addr pw' => _ ← DeleteKey L cr env sw addr pw'; mret None
  | OImportMsig version threshold pks => a ← ImportMultisigAddr cr env sw version threshold pks; mret (Some a)
  | ODeleteMsig addr pw' => _ ← DeleteMultisigAddr L cr env sw addr pw'; mret None
  end.

Fixpoint runOps (ops : list wop) (w : World) : list (result (option Digest)) * World :=
  match ops with
  | [] => ([], w)
  | op :: ops => let '(r, w) := runOp op w in let '(rs, w) := runOps ops w in (r :: rs, w)
  end.

Lemma tri_runOp t v op : rep pw mek mdk t v -> wop_ok op ->
  tri (file path t) (runOp op) (λ a, steps_to v op a) (file path t).
Proof.
  intros Hr Hok. destruct op; cbn [runOp]; eapply tri_bind.
  1: by apply tri_ImportKey.
  2: by eapply tri_any, tri_GenerateKey.
  3: by apply tri_DeleteKey.
  4: by apply tri_ImportMultisigAddr.
  5: by apply tri_DeleteMultisigAddr.
  all: by intros ? w Hw.
Qed.
End Open.

(** The runs of a vault: the methods that failed do nothing. *)
Inductive vault_run (mdk : bytes) : Vault -> list (wop * result (option Digest)) -> Vault -> Prop :=
| vr_nil v : vault_run mdk v [] v
| vr_ok v op a v' l v'' : vault_step mdk v op a v' -> vault_run mdk v' l v'' -> vault_run mdk v ((op, Ok a) :: l) v''
| vr_err v op e l v'' : vault_run mdk v l v'' -> vault_run mdk v ((op, Err e) :: l) v''.

Lemma runOps_refines path pw mek mdk sw ops : opened path pw mek mdk sw -> Forall wop_ok ops ->
  forall v w rs w', holds path pw mek mdk v w -> runOps sw ops w = (rs, w') ->
  length rs = length ops /\ exists v', vault_run mdk v (zip ops rs) v' /\ holds path pw mek mdk v' w'.
Proof.
  intros Ho. induction 1 as [|op ops Hop _ IH]; cbn; intros v w rs w' Hh E.
  { injection E as <- <-. split; [done|]. exists v. split; [constructor|done]. }
  destruct (runOp sw op w) as [r w1] eqn:E1, (runOps sw ops w1) as [rs1 w2] eqn:E2. injection E as <- <-.
  destruct Hh as (t & Hf & Hr). pose proof (tri_runOp path pw mek mdk sw Ho t v op Hr Hop w Hf) as Ht. rewrite E1 in Ht. destruct r as [a|e|p]; [| |done].
  - destruct Ht as (v1 & Hs & Hh1). destruct (IH v1 _ _ _ Hh1 E2) as (Hl & v' & Hrun & Hh'). cbn. split; [lia|]. exists v'. split; [|done]. by eapply vr_ok.
  - destruct (IH v w1 _ _ (ex_intro _ t (conj Ht Hr)) E2) as (Hl & v' & Hrun & Hh'). cbn. split; [lia|]. exists v'. split; [|done]. by apply vr_err.
Qed.

(** *** Opening *)

Lemma tri_decryptColumnD path sw d t column ty pw r rest : sw_dbPath sw = path -> d !! path = Some (DB (Some t)) -> t_metadata t = r :: rest ->
  tri (dirIs d) (decryptColumn L env sw column ty pw) (λ x w, decryptBlobWithPassword L (column r) ty pw = Ok x /\ dirIs d w)
    (λ w, (storm env \/ exists e, decryptBlobWithPassword L (column r) ty pw = Err e) /\ dirIs (R := R) d w).
Proof.
  intros Hpath Hd Em. unfold decryptColumn. rewrite Hpath. eapply tri_bind.
  { eapply tri_conseq; [apply tri_orErr, tri_ConnectD|done..|]. intros w. rewrite Hd. naive_solver. }
  intros ?. unfold connected. rewrite Hd. eapply tri_bind.
  { eapply tri_conseq; [apply tri_orErr, (tri_queryD env path d t); [done|]; unfold firstRow; by rewrite Em|done..|]. unfold firstRow. rewrite Em. naive_solver. }
  intros blob. apply tri_pure. unfold firstRow. rewrite Em. intros [= <-].
  eapply tri_conseq; [apply tri_lift_why, decrypt_nopanic|done..|naive_solver].
Qed.
Lemma tri_decryptColumn path sw t column ty pw r rest : sw_dbPath sw = path -> t_metadata t = r :: rest ->
  tri (file path t) (decryptColumn L env sw column ty pw) (λ x w, decryptBlobWithPassword L (column r) ty pw = Ok x /\ file path t w)
    (λ w, (mishap \/ exists e, decryptBlobWithPassword L (column r) ty pw = Err e) /\ file path t w).
Proof.
  intros Hpath Em. eapply tri_file; [intros; by eapply tri_decryptColumnD|unfold WalletSpec.mishap; tauto|].
  cbn. intros. rewrite file_dirIs. naive_solver.
Qed.

Lemma tri_onWorld {X A} (x : X) P (m : M World A) Q E : tri P m Q E ->
  tri (λ s, s.1 = x /\ P s.2) (onWorld m) (λ a s, s.1 = x /\ Q a s.2) (λ s, s.1 = x /\ E s.2).
Proof. intros Hm [y w] [Hx H]. specialize (Hm w H). unfold onWorld. cbn. by destruct (m w) as [[] ?]. Qed.

(** [Init] with the right password opens the wallet, unless something fails below. *)
Lemma tri_Init path pw mek mdk sw0 t v : sw_dbPath sw0 = path -> rep pw mek mdk t v -> zlen mek = masterKeyLen ->
  tri (λ s, s.1 = sw0 /\ file path t s.2) (Init L cr env pw) (λ _ s, opened path pw mek mdk s.1 /\ file path t s.2) (λ s, mishap).
Proof.
  intros Hp Hr Hlen. destruct (rep_meta _ _ _ _ _ Hr) as (r & rest & Em & H1 & H2 & H3 & H4).
  unfold Init. eapply (tri_bind _ _ (λ s0 s, s0.1 = sw0 /\ s.1 = sw0 /\ file path t s.2)); [by intros s [? ?]|].
  intros [sw0' w0]. apply tri_pure. cbn. intros ->.
  eapply (tri_bind _ _ (λ x s, x = mek /\ s.1 = sw0 /\ file path t s.2)).
  { eapply tri_conseq; [apply (tri_onWorld sw0); by apply (tri_decryptColumn path sw0 t _ _ _ r rest)|done| |]; cbn; rewrite H1; naive_solver. }
  intros ?. apply tri_pure. intros ->.
  eapply (tri_bind _ _ (λ x s, x = mdk /\ s.1 = sw0 /\ file path t s.2)).
  { eapply tri_conseq; [apply (tri_onWorld sw0); by apply (tri_decryptColumn path sw0 t _ _ _ r rest)|done| |]; cbn; rewrite H2; naive_solver. }
  intros ?. apply tri_pure. intros -> [sw w] [Es Hf]. cbn in Es, Hf. subst sw.
  unfold get, put, fillSalt, mbind, M_bind. cbn. destruct (kl_randRead L (sw_walletPasswordSalt sw0) (w_rng w)) as [[[] salt] rng] eqn:Er; cbn.
  - split; [|done]. by constructor.
  - right. exists (sw_walletPasswordSalt sw0), (w_rng w). by rewrite Er.
Qed.
End Vaults.
