(* ===== verification/WalletDriver.v ===== *)
(** The directory of wallets: creating, finding, fetching and renaming them.

    [metaOf] is what a file says about itself when it can be read.  The driver finds
    wallets by reading every file, and skips those it cannot read; what it finds is all
    there is only when no call fails.  [distinct] is the promise of the driver: no two
    wallets share an id or a name. *)

From S2P Require Import Prelude Config Basics Transactions Bookkeeping Multisig Verify Pool BlockDB GoText GoTextSpec WalletBox Wallet WalletSpec.

Definition metaRow (r : MetaRow) : option Metadata :=
  if bool_decide (mr_driver_name r = sqliteWalletDriverName) && (mr_driver_version r =? sqliteWalletDriverVersion)
  then Some (mkMetadata (mr_wallet_id r) (mr_wallet_name r) (mr_driver_name r) (mr_driver_version r) false true ["pay"; "keyreg"])
  else None.
Definition metaOf (f : File) : option Metadata :=
  match f with
  | DB (Some t) => match t_metadata t with r :: _ => metaRow r | [] => None end
  | _ => None
  end.

(** The wallet at [path] of the directory. *)
Definition walletAt (d : gmap string File) (path : string) : option Metadata :=
  if matchesDB path then d !! path ≫= metaOf else None.

(** No two wallets share an id or a name. *)
Definition distinct (d : gmap string File) : Prop :=
  forall p q m n, p <> q -> walletAt d p = Some m -> walletAt d q = Some n -> md_ID m <> md_ID n /\ md_Name m <> md_Name n.

Section Driver.
Context {R : Type} (L : KmdLib R) (cr : Crypto).
Context `{!Msgpack typedPlaintext} `{!Msgpack encryptedDBBlob}.
Context `{!Msgpack bytes} `{!Msgpack Z} `{!Msgpack (list bytes)}.
Context `{!KmdLaws L} {WC : WalletCodec}.
Context (env : weather).
Notation World := (World (R := R)).
#[local] Notation dirIs := (dirIs (R := R)).
#[local] Notation file := (file (R := R)).
#[local] Notation storm := (storm env).
Implicit Types d : gmap string File.

Lemma connected_present d path f : d !! path = Some f -> connected d path = d.
Proof. unfold connected. by intros ->. Qed.

Lemma tri_metadata path d f : d !! path = Some f -> f <> Dir ->
  tri (dirIs d) (walletMetadataFromDBPath env path) (λ m w, metaOf f = Some m /\ dirIs d w)
    (λ w, (storm \/ metaOf f = None) /\ dirIs d w).
Proof.
  intros Hd Hf. eapply tri_bind.
  { eapply tri_conseq; [apply tri_orErr, tri_ConnectD|done..|]. intros w. rewrite Hd. naive_solver. }
  intros ?. rewrite (connected_present d path f Hd). unfold walletMetadataFromDB.
  destruct f as [| |[t|]]; [done|..].
  1, 3: eapply (tri_bind _ _ (λ _ _, False)); [|intros; apply tri_false]; apply tri_orErr;
    (eapply tri_bind; [eapply tri_conseq; [apply tri_callD|done..|naive_solver]|]); intros ? w Hw; unfold query, tablesOf, dirIs in *;
    unfold get, mbind, M_bind; rewrite Hw; cbn; rewrite Hd; cbn; auto.
  destruct (t_metadata t) as [|r rest] eqn:Em.
  { eapply (tri_bind _ _ (λ _ _, False)); [|intros; apply tri_false]. apply tri_orErr.
    eapply tri_conseq; [apply tri_queryD; [done|]; unfold firstRow; by rewrite Em|done|..]; unfold firstRow; cbn; rewrite Em; naive_solver. }
  unfold metaOf. rewrite Em. unfold metaRow.
  eapply (tri_bind _ _ (λ r' w, r' = r /\ dirIs d w)).
  { apply tri_orErr. eapply tri_conseq; [apply tri_queryD; [done|]; unfold firstRow; rewrite Em; cbn; by destruct (_ && _)|done|..];
      unfold firstRow; rewrite Em; cbn; intros.
    - destruct (_ && _); cbn in *; naive_solver.
    - split; [|naive_solver]. destruct (Z.leb_spec 0 (mr_driver_version r)), (Z.ltb_spec (mr_driver_version r) (2 ^ 32)); cbn in *; [naive_solver|..]; right;
        rewrite (proj2 (Z.eqb_neq _ _)), andb_false_r; try done; unfold sqliteWalletDriverVersion; lia. }
  intros ?. apply tri_pure. intros ->.
  destruct (bool_decide _), (_ =? _); intros w Hw; unfold guardE, throw, mbind, M_bind, mret, M_ret; cbn; auto.
Qed.
(** *** Finding wallets *)

Lemma tri_readDir d : tri (dirIs d) (readDir env) (λ l w, Permutation l (map_to_list d) /\ dirIs d w) (λ w, storm /\ dirIs d w).
Proof.
  eapply tri_bind; [apply tri_callD|]. intros ? w Hw. erewrite bind_run by done. unfold dirIs in *. rewrite Hw. split; [|done].
  apply sorting.merge_sort_Permutation.
Qed.

Lemma tri_potential d : tri (dirIs d) (potentialWalletPaths env)
  (λ l w, (NoDup l /\ forall p, p ∈ l <-> matchesDB p = true /\ exists f, d !! p = Some f /\ f <> Dir) /\ dirIs d w) (λ w, storm /\ dirIs d w).
Proof.
  eapply tri_bind; [apply tri_readDir|]. intros files. apply tri_pure. intros Hperm w Hw. split; [|done].
  assert (NoDup files.*1) as Hnd by (rewrite Hperm; apply NoDup_fst_map_to_list). split.
  - clear Hperm. induction files as [|[p f] files IH]; [constructor|]. cbn in *. apply NoDup_cons in Hnd as [Hn Hnd].
    destruct (isPotential (p, f)); [|by apply IH]. cbn. apply NoDup_cons. split; [|by apply IH].
    intros ([p' f'] & -> & Hin)%list_elem_of_fmap. apply Hn. apply list_elem_of_In, filter_In in Hin as [Hin _].
    apply list_elem_of_fmap. exists (p', f'). split; [done|]. by apply list_elem_of_In.
  - intros p. rewrite list_elem_of_fmap. split.
    + intros ([p' f] & -> & Hin). apply list_elem_of_In, filter_In in Hin as [Hin Hp]. apply list_elem_of_In in Hin. rewrite Hperm in Hin.
      apply elem_of_map_to_list in Hin. unfold isPotential in Hp. cbn in *. bool_hyps. destruct Hp as [Hp ?]. split; [done|].
      exists f. split; [done|]. by destruct f.
    + intros (Hm & f & Hd & Hf). exists (p, f). split; [done|]. apply list_elem_of_In, filter_In. split.
      * apply list_elem_of_In. rewrite Hperm. by apply elem_of_map_to_list.
      * unfold isPotential. cbn. rewrite Hm. by destruct f.
Qed.

Lemma tri_attempt {S A} P (m : M S A) Q E F : tri P m Q E -> tri P (attempt m) (λ o s, match o with Some a => Q a s | None => E s end) F.
Proof. intros Hm s H. specialize (Hm s H). unfold attempt. by destruct (m s) as [[] ?]. Qed.

(** The two fields wallets are found by. *)
Inductive field : string -> (Metadata -> bytes) -> Prop :=
| f_ID : field "ID" md_ID
| f_Name : field "Name" md_Name.

Definition hasField d (g : Metadata -> bytes) (x : bytes) (p : string) : Prop := exists m, d !! p ≫= metaOf = Some m /\ g m = x.
Record finds d g x (paths l : list string) : Prop := {
  fi_sub : sublist l paths;
  fi_sound : Forall (hasField d g x) l;
  fi_complete : storm \/ forall p, p ∈ paths -> hasField d g x p -> p ∈ l
}.

Lemma tri_findLoop d name g x paths E : field name g -> (forall p, p ∈ paths -> exists f, d !! p = Some f /\ f <> Dir) ->
  tri (dirIs d) (findLoop env name x paths) (λ l w, finds d g x paths l /\ dirIs d w) E.
Proof.
  intros Hg. induction paths as [|p paths IH]; intros Hp; cbn [findLoop].
  { intros w Hw. split; [|done]. constructor; [done|done|right; set_solver]. }
  destruct (Hp p) as (f & Hd & Hf); [set_solver|]. assert (forall q, q ∈ paths -> exists f, d !! q = Some f /\ f <> Dir) as Hp' by set_solver.
  specialize (IH Hp'). eapply tri_bind; [apply tri_attempt; by apply (tri_metadata p d f)|]. intros [m|].
  - apply tri_pure. intros Hm. eapply (tri_bind _ _ (λ v w, v = g m /\ dirIs d w)).
    { intros w Hw. destruct Hg; done. }
    intros ?. apply tri_pure. intros ->. eapply tri_bind; [apply IH|]. intros l. apply tri_pure. intros [Hs Hl Hc] w Hw. split; [|done].
    assert (d !! p ≫= metaOf = Some m) as Hpm by by rewrite Hd. case_bool_decide as Hx.
    + constructor; [by constructor|constructor; [by exists m|done]|]. destruct Hc as [|Hc]; [by left|right]. set_solver.
    + constructor; [by constructor|done|]. destruct Hc as [|Hc]; [by left|right]. intros q [->|Hq]%elem_of_cons Hfq; [|by apply Hc].
      destruct Hfq as (m' & Em & Ex). rewrite Hpm in Em. naive_solver.
  - apply tri_pure. intros Hnone. eapply tri_post; [apply IH|]. intros l w ([Hs Hl Hc] & Hw). split; [|done].
    constructor; [by constructor|done|]. destruct Hnone as [|Hnone]; [by left|]. destruct Hc as [|Hc]; [by left|right].
    intros q [->|Hq]%elem_of_cons Hfq; [|by apply Hc]. destruct Hfq as (m' & Em & _). rewrite Hd in Em. cbn in Em. congruence.
Qed.

(** What is found has the field; and unless a call fails, all that have it are found. *)
Definition foundAll d (g : Metadata -> bytes) (x : bytes) (l : list string) : Prop :=
  NoDup l /\ (forall p, p ∈ l -> exists m, walletAt d p = Some m /\ g m = x)
  /\ (storm \/ forall p m, walletAt d p = Some m -> g m = x -> p ∈ l).

Lemma tri_find d name g x : field name g ->
  tri (dirIs d) (findDBPathsByField env name x) (λ l w, foundAll d g x l /\ dirIs d w) (λ w, storm /\ dirIs d w).
Proof.
  intros Hg. eapply tri_bind; [apply tri_potential|]. intros paths. apply tri_pure. intros [Hnd Hp].
  eapply tri_post; [apply (tri_findLoop d name g x paths); [done|]; intros p Hin; by apply Hp|].
  intros l w ([Hs Hl Hc] & Hw). split; [|done]. split_and!.
  - by eapply sublist_NoDup.
  - intros p Hin. rewrite Forall_forall in Hl. destruct (Hl p Hin) as (m & Em & Ex). exists m. split; [|done].
    unfold walletAt. destruct (proj1 (Hp p)) as [-> _]; [|done]. eapply sublist_subseteq; done.
  - destruct Hc as [|Hc]; [by left|right]. intros p m Hm Hx. unfold walletAt in Hm. destruct (matchesDB p) eqn:Ep; [|done].
    apply Hc; [|by exists m]. apply Hp. split; [done|]. destruct (d !! p) as [f|]; [|done]. exists f. split; [done|]. by destruct f.
Qed.
(** *** Creating a wallet *)

#[local] Notation rep := (rep L cr).

(** The directory with the new wallet, and what a creation that fails can leave behind. *)
Definition created d path name id pw mdk (w : World) : Prop :=
  exists mek mdk' t, (mdk <> zero32 -> mdk' = mdk) /\ zlen mek = masterKeyLen /\ rep pw mek mdk' t Vault_empty
    /\ metaOf (DB (Some t)) = Some (mkMetadata id name sqliteWalletDriverName sqliteWalletDriverVersion false true ["pay"; "keyreg"])
    /\ dirIs (<[path := DB (Some t)]> d) w.
Definition abandoned d path (w : World) : Prop :=
  dirIs d w \/ exists f, metaOf f = None /\ dirIs (<[path := f]> d) w.

Lemma tri_sealWith pt ty key d : zlen key = masterKeyLen ->
  tri (dirIs d) (onRng (encryptBlobWithKey L pt ty key)) (λ blob w, decryptBlobWithPassword L blob ty key = Ok pt /\ dirIs d w)
    (λ w, noRandom L /\ dirIs d w).
Proof.
  intros Hk. apply tri_onRngD. intros r. unfold encryptBlobWithKey. pose proof (encrypt_cases L pt ty key None r) as H.
  destruct (encryptBlobWithPasswordBlankOK _ _ _ _ _ r) as [[] ?]; [|tauto|done]. rewrite H. by rewrite bool_decide_false by (by intros []).
Qed.
Lemma tri_sealPassword pt ty pw c d :
  tri (dirIs d) (onRng (encryptBlobWithPasswordBlankOK L pt ty pw (Some c))) (λ blob w, decryptBlobWithPassword L blob ty pw = Ok pt /\ dirIs d w)
    (λ w, (noRandom L \/ noKey L pw c) /\ dirIs d w).
Proof.
  apply tri_onRngD. intros r. pose proof (encrypt_cases L pt ty pw (Some c) r) as H.
  destruct (encryptBlobWithPasswordBlankOK _ _ _ _ _ r) as [[] ?]; [|tauto|done]. rewrite H. by rewrite bool_decide_false by (by intros []).
Qed.
Lemma tri_fill out d : tri (dirIs d) (onRng (fillRandomBytes L out)) (λ b w, length b = length out /\ dirIs d w) (λ w, noRandom L /\ dirIs d w).
Proof.
  apply tri_onRngD. intros r. pose proof (fillRandomBytes_cases L out r). by destruct (fillRandomBytes L out r) as [[] ?].
Qed.

Lemma tri_runSchema path d : d !! path = Some (DB None) ->
  tri (dirIs d) (runSchema env path) (λ _, dirIs (<[path := DB (Some (mkTables [] ∅ ∅))]> d)) (λ w, storm /\ dirIs d w).
Proof.
  intros Hd. eapply tri_bind; [apply tri_callD|]. intros ? w Hw. erewrite bind_run by done. unfold dirIs in *. rewrite Hw. cbn. rewrite Hd.
  unfold setTables. erewrite bind_run by done. unfold put. cbn. by rewrite Hw.
Qed.

Lemma tri_fillWallet cfg path name id pw mdk d : d !! path = None -> length mdk = 32%nat ->
  tri (dirIs d) (fillWallet L env cfg path name id pw mdk) (λ _, created d path name id pw mdk)
    (λ w, (mishap L env \/ noKey L pw (sc_ScryptParams cfg)) /\ abandoned d path w).
Proof.
  intros Hd Hmdk. eapply tri_bind.
  { eapply tri_conseq; [apply tri_orErr, tri_ConnectD|done..|]. intros w. rewrite Hd. unfold mishap, abandoned. naive_solver. }
  intros ?. unfold connected. rewrite Hd. eapply tri_bind.
  { eapply tri_conseq; [apply tri_orErr, tri_runSchema; by rewrite lookup_insert_eq|done..|].
    unfold mishap, abandoned. intros w [? ?]. split; [tauto|]. right. by exists (DB None). }
  intros ?. rewrite insert_insert_eq. set (d2 := <[path:=DB (Some (mkTables [] ∅ ∅))]> d).
  assert (forall (phi : Prop) w, (phi -> mishap L env \/ noKey L pw (sc_ScryptParams cfg)) -> phi /\ dirIs d2 w ->
    (mishap L env \/ noKey L pw (sc_ScryptParams cfg)) /\ abandoned d path w) as Hab.
  { intros phi w Hphi [Hp Hw]. split; [auto|]. right. by exists (DB (Some (mkTables [] ∅ ∅))). }
  eapply tri_bind; [eapply tri_conseq; [apply tri_fill|done..|intros w; apply Hab; unfold mishap; tauto]|].
  intros mek. apply tri_pure. intros Hlen. assert (zlen mek = masterKeyLen) as Hmek by (unfold zlen; rewrite Hlen; done).
  eapply (tri_bind _ _ (λ x w, (mdk <> zero32 -> x = mdk) /\ dirIs d2 w)).
  { case_bool_decide as Hz; [|intros w Hw; done].
    eapply tri_conseq; [apply tri_fill|done..| |intros w; apply Hab; unfold mishap; tauto]. naive_solver. }
  intros mdk'. apply tri_pure. intros Hm.
  eapply tri_bind; [eapply tri_conseq; [apply tri_sealPassword|done..|intros w; apply Hab; unfold mishap; tauto]|]. intros b1. apply tri_pure. intros H1.
  eapply tri_bind; [eapply tri_conseq; [by apply tri_sealWith|done..|intros w; apply Hab; unfold mishap; tauto]|]. intros b2. apply tri_pure. intros H2.
  eapply tri_bind; [eapply tri_conseq; [by apply tri_sealWith|done..|intros w; apply Hab; unfold mishap; tauto]|]. intros b3. apply tri_pure. intros H3.
  eapply tri_conseq; [apply tri_orErr, (tri_execD env path d2 (mkTables [] ∅ ∅)); [by apply lookup_insert_eq|done]|done| |].
  - cbn. intros ? w (t & [= <-] & Hw). unfold d2 in Hw. rewrite insert_insert_eq in Hw.
    exists mek, mdk'. eexists (mkTables [_] ∅ ∅). split_and!; [done|done| | |exact Hw]; [|done].
    constructor; cbn; [|apply map_Forall2_empty..]. eexists _, []. split; [done|]. split_and!; done.
  - cbn. intros w. apply Hab. unfold mishap. naive_solver.
Qed.
(** *** What keeps the wallets as they are *)

Definition keeps {S A} (I : S -> Prop) (m : M S A) : Prop := forall s, I s -> I (m s).2.

Create HintDb keeps.
Lemma keeps_bind {S A B} (I : S -> Prop) (m : M S A) (f : A -> M S B) : keeps I m -> (forall a, keeps I (f a)) -> keeps I (m ≫= f).
Proof. intros Hm Hf s H. specialize (Hm s H). unfold mbind, M_bind. destruct (m s) as [[a|e|p] s']; [by apply Hf|done..]. Qed.
Lemma keeps_ret {S A} (I : S -> Prop) (a : A) : keeps I (mret a). Proof. by intros s. Qed.
Lemma keeps_throw {S A} (I : S -> Prop) e : keeps (A := A) I (throw e). Proof. by intros s. Qed.
Lemma keeps_lift {S A} (I : S -> Prop) (r : result A) : keeps I (lift r). Proof. by intros s. Qed.
Lemma keeps_get {S} (I : S -> Prop) : keeps I get. Proof. by intros s. Qed.
Lemma keeps_guard {S} (I : S -> Prop) b e : keeps I (guardE b e). Proof. intros s. by destruct b. Qed.
Lemma keeps_orErr {S A} (I : S -> Prop) e (m : M S A) : keeps I m -> keeps I (orErr e m).
Proof. intros Hm s H. specialize (Hm s H). unfold orErr. by destruct (m s) as [[] ?]. Qed.
Lemma keeps_checkDBError {S A} (I : S -> Prop) (m : M S A) : keeps I m -> keeps I (checkDBError m).
Proof. intros Hm s H. specialize (Hm s H). unfold checkDBError. by destruct (m s) as [[|[| | | | | | | |[]]|] ?]. Qed.
Lemma keeps_attempt {S A} (I : S -> Prop) (m : M S A) : keeps I m -> keeps I (attempt m).
Proof. intros Hm s H. specialize (Hm s H). unfold attempt. by destruct (m s) as [[] ?]. Qed.
Lemma keeps_iterE {S A B} (I : S -> Prop) (f : A -> M S (A + B)) p : (forall a, keeps I (f a)) -> forall a, keeps I (iterE p f a).
Proof.
  intros Hf. induction p as [q IH|q IH|]; intros a; cbn [iterE]; repeat (apply keeps_bind || apply IH || apply Hf || (intros []; try apply keeps_ret)).
Qed.
#[local] Hint Resolve keeps_ret keeps_throw keeps_lift keeps_get keeps_guard keeps_orErr keeps_checkDBError keeps_attempt : keeps.
#[local] Hint Extern 2 (keeps _ (mbind _ _)) => apply keeps_bind; [|intros] : keeps.

(** The wallets of the directory are those of [d]. *)
Definition sameW d (w : World) : Prop := exists d', dirIs d' w /\ forall p, walletAt d' p = walletAt d p.

Lemma sameW_insert d d' path f : (forall p, walletAt d' p = walletAt d p) -> metaOf f = d' !! path ≫= metaOf ->
  forall p, walletAt (<[path := f]> d') p = walletAt d p.
Proof.
  intros H Hf p. rewrite <- H. unfold walletAt. destruct (matchesDB p); [|done]. destruct (decide (p = path)) as [->|].
  - by rewrite lookup_insert_eq.
  - by rewrite lookup_insert_ne.
Qed.

Lemma keeps_call d : keeps (sameW d) (call env).
Proof. intros w H. unfold call. by destruct (env _). Qed.
Lemma keeps_onRng {A} d (m : M R A) : keeps (sameW d) (onRng m).
Proof. intros w H. unfold onRng. by destruct (m (w_rng w)). Qed.
Lemma keeps_Connect d path : keeps (sameW d) (Connect env path).
Proof.
  apply keeps_bind; [apply keeps_call|]. intros ? w (d' & Hw & Hd). erewrite bind_run by done. unfold dirIs in Hw. rewrite Hw.
  destruct (d' !! path) as [[]|] eqn:E; cbn; try (by exists d'). eexists. split; [done|]. apply sameW_insert; [done|]. by rewrite E.
Qed.
Lemma keeps_tablesOf d path : keeps (sameW d) (tablesOf path).
Proof. apply keeps_bind; [apply keeps_get|]. intros w. destruct (_ ≫= _) as [[| |[]]|]; auto with keeps. Qed.
Lemma keeps_query {A} d path (q : Tables -> result A) : keeps (sameW d) (query env path q).
Proof. unfold query. auto using keeps_call, keeps_tablesOf with keeps. Qed.
Lemma keeps_exec d path q : (forall t t', q t = Ok t' -> metaOf (DB (Some t')) = metaOf (DB (Some t))) -> keeps (sameW d) (exec env path q).
Proof.
  intros Hq. apply keeps_bind; [apply keeps_call|]. intros ? w (d' & Hw & Hd). unfold dirIs in Hw.
  unfold tablesOf. rewrite bind_assoc_run. erewrite bind_run by done. rewrite Hw. cbn [mbind option_bind].
  destruct (d' !! path) as [[| |[t|]]|] eqn:E; try (by exists d'). erewrite bind_run by done.
  unfold lift, mbind, M_bind at 1. destruct (q t) as [t'| |] eqn:Eq; try (by exists d').
  unfold setTables. erewrite bind_run by done. exists (<[path := DB (Some t')]> d'). split; [unfold dirIs, put; cbn; by rewrite Hw|]. apply sameW_insert; [done|]. rewrite E. cbn [mbind option_bind]. by apply Hq.
Qed.
Lemma keeps_transaction {A} d (m : M World A) : keeps (sameW d) m -> keeps (sameW d) (transaction env m).
Proof.
  intros Hm w H. specialize (Hm w H). unfold transaction. destruct (m w) as [[a|e|p] w']; cbn in *; [|done..].
  unfold call. by destruct (env _).
Qed.
#[local] Hint Resolve keeps_call keeps_onRng keeps_Connect keeps_tablesOf keeps_query keeps_transaction : keeps.
#[local] Hint Extern 2 (keeps _ (if ?b then _ else _)) => destruct b : keeps.
#[local] Hint Extern 2 (keeps _ (let '(_, _) := ?x in _)) => destruct x : keeps.
Lemma insertKey_meta addr row t t' : insertKey addr row t = Ok t' -> metaOf (DB (Some t')) = metaOf (DB (Some t)).
Proof. unfold insertKey. destruct (_ !! _); [done|]. by intros [= <-]. Qed.

Lemma keeps_decryptColumn d sw column ty pw : keeps (sameW d) (decryptColumn L env sw column ty pw).
Proof. unfold decryptColumn. auto 10 with keeps. Qed.
Lemma keeps_CheckPassword d sw pw : keeps (sameW d) (CheckPassword L cr env sw pw).
Proof. unfold CheckPassword, decryptAndGetMasterKey. destruct (sw_walletPasswordHashed sw); auto 10 using keeps_decryptColumn with keeps. Qed.
#[local] Hint Resolve keeps_decryptColumn keeps_CheckPassword : keeps.

Lemma keeps_generate d sw : keeps (sameW d) (generateKeyTxLocked L env sw).
Proof.
  unfold generateKeyTxLocked. do 3 (apply keeps_bind; [auto with keeps|intros]). apply keeps_bind.
  { apply keeps_iterE. intros n. unfold nextKeyTurn. destruct (_ =? _); [auto with keeps|]. apply keeps_bind; [auto with keeps|].
    intros [pk sk]. auto 10 with keeps. }
  intros [n|[[pk sk] i]]; [auto with keeps|]. apply keeps_bind; [auto with keeps|intros skBlob].
  apply keeps_bind. { apply keeps_exec. intros t t' H. inv_ok. by eapply insertKey_meta. }
  intros ?. apply keeps_bind; [auto with keeps|]. intros blob. apply keeps_bind; [|auto with keeps]. apply keeps_exec.
  intros t t' [= <-]. cbn. by destruct (t_metadata t).
Qed.

(** No method of a wallet changes the ids and names of the directory. *)
Lemma keeps_runOp d sw op : keeps (sameW d) (runOp L cr env sw op).
Proof.
  destruct op; cbn [runOp]; (apply keeps_bind; [|auto with keeps]).
  - unfold ImportKey. apply keeps_bind; [auto with keeps|]. intros seed. destruct (kl_seedKeypair L seed) as [pk sk].
    do 2 (apply keeps_bind; [auto with keeps|intros]). apply keeps_bind; [|auto with keeps]. apply keeps_checkDBError, keeps_exec, insertKey_meta.
  - unfold GenerateKey. auto 10 using keeps_generate with keeps.
  - unfold DeleteKey. do 2 (apply keeps_bind; [auto with keeps|intros]). apply keeps_orErr, keeps_exec. by intros t t' [= <-].
  - unfold ImportMultisigAddr. do 2 (apply keeps_bind; [auto with keeps|intros]). apply keeps_bind; [|auto with keeps].
    apply keeps_checkDBError, keeps_exec. intros t t'. destruct (_ !! _); [done|]. by intros [= <-].
  - unfold DeleteMultisigAddr. do 2 (apply keeps_bind; [auto with keeps|intros]). apply keeps_orErr, keeps_exec. by intros t t' [= <-].
Qed.

Lemma keeps_runOps d sw ops : forall w, sameW d w -> sameW d (runOps L cr env sw ops w).2.
Proof.
  induction ops as [|op ops IH]; intros w H; [done|]. cbn [runOps]. pose proof (keeps_runOp d sw op w H) as H1.
  destruct (runOp L cr env sw op w) as [r w1]. specialize (IH w1 H1). by destruct (runOps L cr env sw ops w1).
Qed.

Lemma keeps_onWorld {X A} (x : X) d (m : M World A) : keeps (sameW d) m -> keeps (λ s : X * World, sameW d s.2) (onWorld m).
Proof. intros Hm [y w] H. specialize (Hm w H). unfold onWorld. cbn. by destruct (m w). Qed.
Lemma keeps_Init d pw : keeps (λ s, sameW d s.2) (Init L cr env pw).
Proof.
  unfold Init. apply keeps_bind; [apply keeps_get|]. intros [sw w0]. apply keeps_bind; [apply (keeps_onWorld sw), keeps_decryptColumn|]. intros mek.
  apply keeps_bind; [apply (keeps_onWorld sw), keeps_decryptColumn|]. intros mdk [sw1 w] H. unfold get, put, fillSalt, mbind, M_bind. cbn in *.
  by destruct (kl_randRead L _ _) as [[[] ?] ?].
Qed.
(** *** The methods of the driver *)

Lemma matchesDB_app s : Forall (λ c, c <> 10) (codes s) -> matchesDB (s +:+ ".db") = true.
Proof.
  induction s as [|c s IH]; [done|]. intros H. cbn [codes] in H. apply Forall_cons in H as [Hc H]. rewrite app_cons_s.
  cbn [matchesDB]. rewrite IH by done. apply orb_true_iff. right. rewrite andb_true_r. apply negb_true_iff, bool_decide_eq_false. by intros ->.
Qed.

Lemma codes_ofCodes_safe name : Forall (λ c, c <> 10) (codes (ofCodes (safe name))).
Proof.
  unfold safe. induction name as [|c name IH]; [done|]. cbn [List.filter]. destruct (allowedChar c) eqn:E; [|done]. cbn [ofCodes codes].
  constructor; [|done]. unfold allowedChar in E. bool_hyps. rewrite ord_chr by (unfold is_byte; lia). lia.
Qed.

Lemma nameIDToPath_matches name id : matchesDB (nameIDToPath name id) = true.
Proof.
  unfold nameIDToPath. case_bool_decide; [apply matchesDB_app, codes_ofCodes_safe|].
  rewrite <- !app_assoc_s. apply matchesDB_app. rewrite !codes_app. rewrite !Forall_app. split_and!; [apply codes_ofCodes_safe|by repeat constructor|apply codes_ofCodes_safe].
Qed.
(** No wallet of [d] has the name or the id, as far as the driver could see. *)
Definition unseen d (g : Metadata -> bytes) (x : bytes) : Prop := storm \/ forall p m, walletAt d p = Some m -> g m <> x.
Lemma foundAll_nil d g x l : foundAll d g x l -> (length l =? 0)%nat = true -> unseen d g x.
Proof.
  intros (_ & _ & Hc) Hl%Nat.eqb_eq. destruct l; [|done]. destruct Hc as [|Hc]; [by left|right]. intros p m Hp Hx. specialize (Hc p m Hp Hx). set_solver.
Qed.

(** Why a creation can be refused. *)
Inductive refused (cfg : SQLiteWalletDriverConfig) d (name id pw : bytes) : Prop :=
| rf_long : 64 < zlen name \/ 64 < zlen id -> refused cfg d name id pw
| rf_taken p m : walletAt d p = Some m -> md_Name m = name \/ md_ID m = id -> refused cfg d name id pw
| rf_mishap : mishap L env -> refused cfg d name id pw
| rf_scrypt : noKey L pw (sc_ScryptParams cfg) -> refused cfg d name id pw.

Lemma tri_stat path d : tri (dirIs d) (stat env path)
  (λ r w, match r with Exists => is_Some (d !! path) | NotExist => d !! path = None | StatErr _ => storm end /\ dirIs d w) (λ _, False).
Proof.
  intros w Hw. pose proof (tri_callD env d w Hw) as Hc. unfold stat. destruct (call env w) as [[u|e|p] w'] eqn:E; [|naive_solver|done].
  unfold dirIs in Hw. rewrite Hw. cbn. destruct (d !! path); done.
Qed.

Lemma tri_CreateWallet cfg name id pw mdk d : length mdk = 32%nat ->
  tri (dirIs d) (CreateWallet L env cfg name id pw mdk)
    (λ _ w, is_Some (d !! nameIDToPath name id) /\ dirIs d w
            \/ d !! nameIDToPath name id = None /\ unseen d md_Name name /\ unseen d md_ID id /\ created d (nameIDToPath name id) name id pw mdk w)
    (λ w, refused cfg d name id pw /\ abandoned d (nameIDToPath name id) w).
Proof.
  intros Hmdk. unfold CreateWallet, sqliteMaxWalletNameLen, sqliteMaxWalletIDLen.
  destruct (Z.ltb_spec 64 (zlen name)); [intros w Hw; split; [apply rf_long; auto|by left]|].
  destruct (Z.ltb_spec 64 (zlen id)); [intros w Hw; split; [apply rf_long; auto|by left]|]. cbv zeta.
  set (path := nameIDToPath name id).
  assert (forall w, storm /\ dirIs d w -> refused cfg d name id pw /\ abandoned d path w) as Hst.
  { intros w [? ?]. split; [apply rf_mishap; by left|by left]. }
  eapply tri_bind; [eapply tri_conseq; [apply tri_stat|done..]|]. intros [| |e]; apply tri_pure; intros Hs.
  - intros w Hw. left. done.
  - eapply tri_bind; [eapply tri_conseq; [by apply (tri_find d "Name" md_Name name), f_Name|done..|done]|]. intros l1. apply tri_pure. intros H1.
    eapply (tri_bind _ _ (λ _ w, unseen d md_Name name /\ dirIs d w)).
    { intros w Hw. unfold guardE. destruct (_ =? _)%nat eqn:El; [split; [by eapply foundAll_nil|done]|]. split; [|by left].
      destruct l1 as [|p l1]; [done|]. destruct H1 as (_ & H1 & _). destruct (H1 p) as (m & ? & ?); [set_solver|]. eapply rf_taken; eauto. }
    intros ?. apply tri_pure. intros Hn.
    eapply tri_bind; [eapply tri_conseq; [by apply (tri_find d "ID" md_ID id), f_ID|done..|done]|]. intros l2. apply tri_pure. intros H2.
    eapply (tri_bind _ _ (λ _ w, unseen d md_ID id /\ dirIs d w)).
    { intros w Hw. unfold guardE. destruct (_ =? _)%nat eqn:El; [split; [by eapply foundAll_nil|done]|]. split; [|by left].
      destruct l2 as [|p l2]; [done|]. destruct H2 as (_ & H2 & _). destruct (H2 p) as (m & ? & ?); [set_solver|]. eapply rf_taken; eauto. }
    intros ?. apply tri_pure. intros Hi. eapply tri_conseq; [by apply tri_fillWallet|done| |].
    + intros ? w Hc. by right.
    + intros w [[?|?] ?]; (split; [|done]); [by apply rf_mishap|by apply rf_scrypt].
  - intros w Hw. by apply Hst.
Qed.

Definition fetched (cfg : SQLiteWalletDriverConfig) (path : string) : SQLiteWallet := mkSQLiteWallet [] [] (zeros saltLen) zero32 false path cfg.

Lemma walletAt_file d p m : walletAt d p = Some m -> exists t r rest, d !! p = Some (DB (Some t)) /\ t_metadata t = r :: rest /\ metaRow r = Some m.
Proof.
  unfold walletAt. destruct (matchesDB p); [|done]. destruct (d !! p) as [[| |[t|]]|]; try done. cbn.
  destruct (t_metadata t) as [|r rest] eqn:Em; [done|]. intros H. eauto 10.
Qed.

(** A wallet is fetched when its id is the id of exactly one. *)
Lemma tri_FetchWallet cfg id d :
  tri (dirIs d) (FetchWallet env cfg id)
    (λ sw w, (exists p m, sw = fetched cfg p /\ walletAt d p = Some m /\ md_ID m = id) /\ dirIs d w)
    (λ w, (storm \/ (forall p m, walletAt d p = Some m -> md_ID m <> id)
           \/ exists p q m n, p <> q /\ walletAt d p = Some m /\ walletAt d q = Some n /\ md_ID m = id /\ md_ID n = id) /\ dirIs d w).
Proof.
  eapply tri_bind; [eapply tri_conseq; [by apply (tri_find d "ID" md_ID id), f_ID|done..|naive_solver]|]. intros l. apply tri_pure. intros Hl.
  destruct l as [|p [|q l]].
  - intros w Hw. split; [|done]. destruct (foundAll_nil _ _ _ _ Hl) as [|Hn]; [done|by left|]. right. by left.
  - destruct Hl as (_ & Hs & _). destruct (Hs p) as (m & Hm & Hi); [set_solver|].
    destruct (walletAt_file d p m Hm) as (t & r & rest & Hd & _). eapply tri_bind.
    { eapply tri_conseq; [apply tri_orErr, tri_ConnectD|done..|]. intros w. rewrite Hd. naive_solver. }
    intros ? w Hw. rewrite (connected_present _ _ _ Hd) in Hw. split; [|done]. exists p, m. done.
  - intros w Hw. split; [|done]. right. right. destruct Hl as (Hnd & Hs & _). apply NoDup_cons in Hnd as [Hn _].
    destruct (Hs p) as (m & ? & ?), (Hs q) as (n & ? & ?); [set_solver..|]. exists p, q, m, n. split_and!; try done. set_solver.
Qed.
Definition renamed (id newName : bytes) (t : Tables) : Tables :=
  t <| t_metadata ::= fmap (M := list) (λ r, if bool_decide (mr_wallet_id r = id) then r <| mr_wallet_name := newName |> else r) |>.

Lemma tri_RenameWallet cfg newName id pw d :
  tri (dirIs d) (RenameWallet L cr env cfg newName id pw)
    (λ _ w, exists p t m, walletAt d p = Some m /\ md_ID m = id /\ d !! p = Some (DB (Some t)) /\ unseen d md_Name newName
            /\ dirIs (<[p := DB (Some (renamed id newName t))]> d) w)
    (dirIs d).
Proof.
  eapply tri_bind; [eapply tri_conseq; [by apply (tri_find d "Name" md_Name newName), f_Name|done..|naive_solver]|]. intros l. apply tri_pure. intros Hl.
  eapply (tri_bind _ _ (λ _ w, unseen d md_Name newName /\ dirIs d w)).
  { intros w Hw. unfold guardE. destruct (_ =? _)%nat eqn:El; [|done]. split; [by eapply foundAll_nil|done]. }
  intros ?. apply tri_pure. intros Hn. eapply tri_bind; [eapply tri_conseq; [apply tri_FetchWallet|done..|naive_solver]|].
  intros sw. apply tri_pure. intros (p & m & -> & Hm & Hi). destruct (walletAt_file d p m Hm) as (t & r & rest & Hd & Em & Hr).
  eapply (tri_bind _ _ (λ _, dirIs d)).
  { unfold CheckPassword. cbn. eapply tri_bind; [eapply tri_conseq; [by apply (tri_decryptColumnD L env p (fetched cfg p) d t mr_mep_encrypted PTMasterKey pw r rest)|done..|naive_solver]|].
    intros ? w [_ Hw]. done. }
  intros ?. cbn. eapply (tri_bind _ _ (λ _, dirIs d)).
  { eapply tri_conseq; [apply tri_orErr, tri_ConnectD|done| |naive_solver]. intros ? w. by rewrite (connected_present _ _ _ Hd). }
  intros ?. eapply tri_conseq; [apply tri_orErr, (tri_execD env p d t); done|done| |naive_solver].
  cbn. intros ? w (t' & [= <-] & Hw). exists p, t, m. done.
Qed.

(** *** No two wallets share an id or a name *)

Lemma distinct_same d d' : (forall p, walletAt d' p = walletAt d p) -> distinct d -> distinct d'.
Proof. intros H Hd p q m n. rewrite !H. apply Hd. Qed.

Lemma walletAt_insert d path f p : walletAt (<[path := f]> d) p =
  if decide (p = path) then (if matchesDB path then metaOf f else None) else walletAt d p.
Proof.
  unfold walletAt. destruct (decide (p = path)) as [->|]; [by rewrite lookup_insert_eq|by rewrite lookup_insert_ne].
Qed.

Lemma distinct_insert d path f : distinct d ->
  (forall m p n, metaOf f = Some m -> p <> path -> walletAt d p = Some n -> md_ID m <> md_ID n /\ md_Name m <> md_Name n) ->
  distinct (<[path := f]> d).
Proof.
  intros Hd Hf p q m n Hpq. rewrite !walletAt_insert.
  destruct (decide (p = path)) as [->|], (decide (q = path)) as [->|]; [done|..|by apply Hd]; (destruct (matchesDB path); [|done]).
  - intros Hm Hn. by eapply Hf.
  - intros Hm Hn. destruct (Hf n p m) as [? ?]; [done..|]. split; congruence.
Qed.

Lemma abandoned_distinct d path w : distinct d -> abandoned d path w -> exists d', dirIs d' w /\ distinct d'.
Proof. intros Hd [?|(f & Hf & ?)]; [by exists d|]. eexists. split; [done|]. apply distinct_insert; [done|]. rewrite Hf. done. Qed.

Lemma created_distinct d path name id pw mdk w : ~ storm -> distinct d -> unseen d md_Name name -> unseen d md_ID id ->
  created d path name id pw mdk w -> exists d', dirIs d' w /\ distinct d'.
Proof.
  intros Hst Hd [|Hn] [|Hi] (mek & mdk' & t & _ & _ & _ & Hm & Hw); try done. eexists. split; [done|]. apply distinct_insert; [done|].
  rewrite Hm. intros m p n [= <-] _ Hp. cbn. split; intros E; [by apply (Hi p n Hp)|by apply (Hn p n Hp)].
Qed.

Lemma renamed_meta id newName t r rest m : t_metadata t = r :: rest -> metaRow r = Some m -> md_ID m = id ->
  metaOf (DB (Some (renamed id newName t))) = Some (mkMetadata id newName (md_DriverName m) (md_DriverVersion m) (md_SupportsMnemonicUX m) (md_SupportsMasterKey m) (md_SupportedTransactions m)).
Proof.
  intros Em Hr Hi. unfold metaRow in Hr. destruct (_ && _) eqn:E; [|done]. injection Hr as <-. cbn in Hi. subst id.
  cbn. rewrite Em. cbn. rewrite bool_decide_true by done. unfold metaRow. cbn. by rewrite E.
Qed.

(** The methods of the driver and of the wallets, in any order. *)
Inductive dop :=
| DCreate (name id pw mdk : bytes)
| DRename (newName id pw : bytes)
| DWallet (sw : SQLiteWallet) (op : wop).
Definition dop_ok (op : dop) : Prop := match op with DCreate _ _ _ mdk => length mdk = 32%nat | _ => True end.

Definition runDop (cfg : SQLiteWalletDriverConfig) (op : dop) : M World unit :=
  match op with
  | DCreate name id pw mdk => CreateWallet L env cfg name id pw mdk
  | DRename newName id pw => RenameWallet L cr env cfg newName id pw
  | DWallet sw op => _ ← runOp L cr env sw op; mret tt
  end.
Fixpoint runDops (cfg : SQLiteWalletDriverConfig) (ops : list dop) (w : World) : World :=
  match ops with [] => w | op :: ops => runDops cfg ops (runDop cfg op w).2 end.

Lemma runDop_distinct cfg op d w : ~ storm -> dop_ok op -> dirIs d w -> distinct d ->
  exists d', dirIs d' (runDop cfg op w).2 /\ distinct d'.
Proof.
  intros Hst Hok Hw Hd. destruct op as [name id pw mdk|newName id pw|sw op]; cbn [runDop].
  - pose proof (tri_CreateWallet cfg name id pw mdk d Hok w Hw) as H. destruct (CreateWallet _ _ _ _ _ _ _ _) as [[u|e|p] w']; [| |done].
    + destruct H as [[_ ?]|(_ & Hn & Hi & Hc)]; [by exists d|by eapply created_distinct].
    + destruct H as [_ H]. by eapply abandoned_distinct.
  - pose proof (tri_RenameWallet cfg newName id pw d w Hw) as H. destruct (RenameWallet _ _ _ _ _ _ _ _) as [[u|e|p] w']; [| |done]; [|by exists d].
    destruct H as (p & t & m & Hm & Hi & Hp & [|Hn] & Hw'); [done|]. eexists. split; [done|]. apply distinct_insert; [done|].
    destruct (walletAt_file d p m Hm) as (t' & r & rest & Hp' & Em & Hr). rewrite Hp in Hp'. injection Hp' as <-.
    rewrite (renamed_meta id newName t r rest m Em Hr Hi). intros m' q n [= <-] Hq Hqn. cbn. subst id. split; [|intros E; by apply (Hn q n Hqn)].
    by destruct (Hd p q m n) as [? _].
  - destruct (keeps_runOp d sw op w) as (d' & Hw' & Hs); [by exists d|]. exists d'. split; [|by eapply distinct_same].
    unfold mbind, M_bind. by destruct (runOp L cr env sw op w) as [[] w'].
Qed.
End Driver.
