(* ===== verification/WalletClaims.v ===== *)
(** The theorems on wallets: a wallet is a vault in any weather, lost keys are generated
    again from the master derivation key, no two wallets share an id or a name, and what a
    wallet signs verifies. *)

From S2P Require Import Prelude Config Basics Transactions Bookkeeping Multisig Verify Pool BlockDB GoText GoTextSpec WalletBox Wallet WalletSpec WalletDriver.

(** The addresses that imports and generations returned. *)
Fixpoint returned (tr : list (wop * result (option Digest))) : list Digest :=
  match tr with
  | [] => []
  | (OImport _, Ok (Some a)) :: tr | (OGenerate _, Ok (Some a)) :: tr => a :: returned tr
  | _ :: tr => returned tr
  end.

Lemma length_returned tr : (length (returned tr) <= length tr)%nat.
Proof. induction tr as [|[[] [[]| |]] tr IH]; cbn; lia. Qed.

Section Recovery.
Context {R : Type} (L : KmdLib R) (cr : Crypto).
Context `{!Msgpack typedPlaintext} `{!Msgpack encryptedDBBlob}.
Context `{!Msgpack bytes} `{!Msgpack Z} `{!Msgpack (list bytes)}.
Context `{!KmdLaws L} {WC : WalletCodec}.
Context (env : weather) (mdk : bytes).
Notation World := (World (R := R)).

(** HKDF gives the 32 bytes asked for, and different indices give different keys. *)
Definition derives : Prop := forall i, exists x, extractKeyWithIndex L mdk i = Ok x.
Definition no_collision : Prop := forall i j pk si sj, 1 <= i < 2 ^ 63 -> 1 <= j < 2 ^ 63 ->
  extractKeyWithIndex L mdk i = Ok (pk, si) -> extractKeyWithIndex L mdk j = Ok (pk, sj) -> i = j.

(** The public key of an index. *)
Definition pkAt (i : Z) : bytes := match extractKeyWithIndex L mdk i with Ok x => x.1 | _ => [] end.

Lemma pkAt_Ok i pk sk : extractKeyWithIndex L mdk i = Ok (pk, sk) -> pkAt i = pk.
Proof. unfold pkAt. by intros ->. Qed.

Lemma pkAt_inj i j : derives -> no_collision -> 1 <= i < 2 ^ 63 -> 1 <= j < 2 ^ 63 -> pkAt i = pkAt j -> i = j.
Proof.
  intros Hd Hn Hi Hj E. destruct (Hd i) as [[pi si] Ei], (Hd j) as [[pj sj] Ej]. unfold pkAt in E. rewrite Ei, Ej in E. cbn in E. subst. by eapply Hn.
Qed.

(** Along a run from the empty vault every index up to the highest was returned, and so was
    every key that is in the vault. *)
Definition accounted (v : Vault) (acc : list Digest) : Prop :=
  0 <= v_idx v < 2 ^ 63 /\ (forall j, 1 <= j <= v_idx v -> pkAt j ∈ acc) /\ (forall a, is_Some (v_keys v !! a) -> a ∈ acc).

Lemma step_accounted v op a v' acc : vault_step L cr mdk v op a v' -> accounted v acc ->
  accounted v' (acc ++ returned [(op, Ok a)]).
Proof.
  assert (forall (m : gmap bytes bytes) pk sk acc, (forall a, is_Some (m !! a) -> a ∈ acc) -> forall a, is_Some (<[pk := sk]> m !! a) -> a ∈ acc ++ [pk]) as Hins.
  { intros m pk sk acc' H x [y Hx]. apply lookup_insert_Some in Hx as [[<- _]|[_ Hx]]; [set_solver|]. apply elem_of_app. left. apply H. eauto. }
  intros Hs (Hi & Hj & Hk). destruct Hs as [raw seed pk sk _ _ _|i pk sk Hr He _ Ht|addr pw|version threshold pks addr _ _|addr pw]; cbn [returned].
  - split_and!; cbn; [lia..|set_solver|by apply Hins].
  - split_and!; cbn; [lia..| |by apply Hins]. intros j Hle. destruct (decide (j <= v_idx v)) as [|Hgt]; [apply elem_of_app; left; apply Hj; lia|].
    destruct (decide (j = i)) as [->|]; [erewrite pkAt_Ok by done; set_solver|]. destruct (Ht j) as (pk' & sk' & He' & Hs'); [lia|].
    erewrite pkAt_Ok by done. set_solver.
  - rewrite app_nil_r. split_and!; cbn; [lia..|done|]. intros x [y Hx]. apply lookup_delete_Some in Hx as [_ Hx]. eauto.
  - rewrite app_nil_r. split_and!; cbn; [lia..|done|done].
  - rewrite app_nil_r. split_and!; cbn; [lia..|done|done].
Qed.

Lemma returned_cons x tr : returned (x :: tr) = returned [x] ++ returned tr.
Proof. by destruct x as [[] [[]| |]]. Qed.

Lemma run_accounted v tr v' : vault_run L cr mdk v tr v' -> forall acc, accounted v acc -> accounted v' (acc ++ returned tr).
Proof.
  induction 1 as [v|v op a v1 tr v' Hs _ IH|v op e tr v' _ IH]; intros acc H.
  - by rewrite app_nil_r.
  - rewrite returned_cons, app_assoc. apply IH. by eapply step_accounted.
  - replace (returned ((op, Err e) :: tr)) with (returned tr) by (by destruct op). by apply IH.
Qed.

Lemma accounted_empty : accounted Vault_empty [].
Proof. split_and!; cbn; [lia|lia|intros j ?; lia|]. intros a [x Hx]. by rewrite lookup_empty in Hx. Qed.

(** The highest index is at most the number of methods called. *)
Lemma idx_bound tr v : derives -> no_collision -> vault_run L cr mdk Vault_empty tr v -> 0 <= v_idx v <= zlen tr.
Proof.
  intros Hd Hn Hr. destruct (run_accounted _ _ _ Hr [] accounted_empty) as (Hi & Hj & _). split; [lia|].
  set (l := pkAt <$> (Z.of_nat <$> seq 1 (Z.to_nat (v_idx v)))).
  assert (forall x, x ∈ Z.of_nat <$> seq 1 (Z.to_nat (v_idx v)) -> 1 <= x <= v_idx v) as Hx.
  { intros x (n & -> & Hn')%list_elem_of_fmap. apply elem_of_seq in Hn'. lia. }
  assert (NoDup l) as Hnd.
  { apply NoDup_fmap_2_strong; [|apply NoDup_fmap_2; [intros ??; lia|apply NoDup_seq]].
    intros x y Hx1%Hx Hy1%Hx E. apply (pkAt_inj x y Hd Hn); [lia..|done]. }
  assert (l ⊆ returned tr) as Hsub.
  { intros k (x & -> & Hin)%list_elem_of_fmap. by apply Hj, Hx. }
  pose proof (submseteq_length _ _ (NoDup_submseteq _ _ Hnd Hsub)) as Hlen. unfold l in Hlen. rewrite !length_fmap, length_seq in Hlen.
  pose proof (length_returned tr). unfold zlen. lia.
Qed.

(** A generated key was derived from an index up to the highest. *)
Lemma run_idx v tr v' : vault_run L cr mdk v tr v' -> v_idx v <= v_idx v'.
Proof.
  induction 1 as [v|v op a v1 tr v' Hs _ IH|v op e tr v' _ IH]; [lia| |done].
  destruct Hs; cbn in *; lia.
Qed.
Lemma generated_idx v tr v' dm addr : vault_run L cr mdk v tr v' -> (OGenerate dm, Ok (Some addr)) ∈ tr -> 0 <= v_idx v ->
  exists i sk, 1 <= i <= v_idx v' /\ extractKeyWithIndex L mdk i = Ok (addr, sk).
Proof.
  induction 1 as [v|v op a v1 tr v' Hs Hr IH|v op e tr v' _ IH]; intros Hin Hv; [set_solver| |].
  - apply elem_of_cons in Hin as [[= <- <-]|Hin].
    + inversion Hs; subst. pose proof (run_idx _ _ _ Hr) as Hle. cbn in Hle. exists i, sk. split; [lia|done].
    + apply IH; [done|]. pose proof (vr_ok L cr mdk _ _ _ _ _ _ Hs (vr_nil L cr mdk v1)) as H1. apply run_idx in H1. lia.
  - apply elem_of_cons in Hin as [[=]|Hin]. by apply IH.
Qed.
(** The vault with exactly the first [k] keys. *)
Definition full (v : Vault) (k : Z) : Prop :=
  v_idx v = k /\ forall a sk, v_keys v !! a = Some sk <-> exists i, 1 <= i <= k /\ extractKeyWithIndex L mdk i = Ok (a, sk).

Lemma full_empty : full Vault_empty 0.
Proof. split; [done|]. intros a sk. cbn. rewrite lookup_empty. split; [done|]. intros (i & ? & _). lia. Qed.

Lemma full_free v k : derives -> no_collision -> full v k -> 0 <= k < 2 ^ 63 - 1 -> v_keys v !! pkAt (k + 1) = None.
Proof.
  intros Hd Hn [_ Hf] Hk. destruct (v_keys v !! pkAt (k + 1)) as [sk|] eqn:E; [|done]. apply Hf in E as (i & Hi & Ex).
  pose proof (pkAt_Ok _ _ _ Ex) as Ep. apply (pkAt_inj _ _ Hd Hn) in Ep; lia.
Qed.

Lemma full_step v k a v' : derives -> no_collision -> full v k -> 0 <= k < 2 ^ 63 - 1 ->
  vault_step L cr mdk v (OGenerate false) a v' -> full v' (k + 1).
Proof.
  intros Hd Hn Hf Hk Hs. pose proof (full_free v k Hd Hn Hf Hk) as Hfree. destruct Hf as [Hidx Hf].
  inversion Hs as [|i pk sk Hr He Hnone Ht| | |]; subst. clear Hs.
  assert (i = v_idx v + 1) as ->.
  { destruct (decide (i = v_idx v + 1)) as [|Hne]; [done|]. destruct (Ht (v_idx v + 1)) as (pk' & sk' & He' & Hs'); [lia|].
    rewrite (pkAt_Ok _ _ _ He') in Hfree. rewrite Hfree in Hs'. by destruct Hs'. }
  split; [done|]. intros a sk'. cbn. rewrite lookup_insert_Some. split.
  - intros [[<- <-]|[_ E]]; [exists (v_idx v + 1); split; [lia|done]|]. apply Hf in E as (i & ? & ?). exists i. split; [lia|done].
  - intros (i & Hi & Ex). destruct (decide (i = v_idx v + 1)) as [->|]; [left; rewrite He in Ex; by injection Ex as <- <-|].
    right. split; [|apply Hf; exists i; split; [lia|done]]. intros ->. assert (i = v_idx v + 1); [|lia]. eapply Hn; [lia..|done|done].
Qed.

Section Regenerate.
Context (path : string) (pw mek : bytes) (sw : SQLiteWallet) (Hopen : opened cr path pw mek mdk sw).
Context (Hcalm : ~ mishap L env) (Hd : derives) (Hn : no_collision).

Lemma generate_calm v k w : holds L cr path pw mek mdk v w -> full v k -> 0 <= k < 2 ^ 63 - 1 ->
  exists a v' w', runOp L cr env sw (OGenerate false) w = (Ok a, w') /\ holds L cr path pw mek mdk v' w' /\ full v' (k + 1).
Proof.
  intros (t & Hw & Hr) Hf Hk. pose proof (tri_GenerateKey L cr env path pw mek mdk sw Hopen t v false Hr w Hw) as H.
  cbn [runOp]. unfold mbind, M_bind. destruct (GenerateKey L env sw false w) as [[a|e|p] w']; [| |done].
  - destruct H as (v' & Hs & Hh). exists (Some a), v', w'. split_and!; [done..|]. by eapply full_step.
  - exfalso. destruct H as [[?|[?|Hst]] _]; [done..|]. pose proof (full_free v k Hd Hn Hf Hk) as Hfree. destruct Hf as [Hidx _].
    destruct Hst as [(j & _ & Hj)|Hall]; [destruct (Hd j) as [x Hx]; by eapply Hj|].
    destruct (Hall (k + 1)) as (pk' & sk' & He & Hs); [lia|]. rewrite (pkAt_Ok _ _ _ He) in Hfree. rewrite Hfree in Hs. by destruct Hs.
Qed.

Lemma regenerate n : forall v k w, holds L cr path pw mek mdk v w -> full v k -> 0 <= k -> k + Z.of_nat n < 2 ^ 63 ->
  exists rs w' v', runOps L cr env sw (replicate n (OGenerate false)) w = (rs, w') /\ Forall (λ r, is_ok r = true) rs
    /\ holds L cr path pw mek mdk v' w' /\ full v' (k + Z.of_nat n).
Proof.
  induction n as [|n IH]; intros v k w Hh Hf Hk Hlt.
  { exists [], w, v. replace (k + Z.of_nat 0) with k by lia. done. }
  destruct (generate_calm v k w Hh Hf) as (a & v1 & w1 & E & Hh1 & Hf1); [lia|].
  destruct (IH v1 (k + 1) w1 Hh1 Hf1) as (rs & w' & v' & E' & Hok & Hh' & Hf'); [lia..|].
  exists (Ok a :: rs), w', v'. cbn [replicate runOps]. rewrite E, E'. split_and!; [done|by constructor|done|].
  by replace (k + Z.of_nat (S n)) with (k + 1 + Z.of_nat n) by lia.
Qed.
End Regenerate.
End Recovery.

Section Claims.
Context {R : Type} (L : KmdLib R) (cr : Crypto).
Context `{!Msgpack typedPlaintext} `{!Msgpack encryptedDBBlob}.
Context `{!Msgpack bytes} `{!Msgpack Z} `{!Msgpack (list bytes)}.
Context `{!KmdLaws L} {WC : WalletCodec}.
Context (env : weather) (cfg : SQLiteWalletDriverConfig).
Notation World := (World (R := R)).

(** What the methods that read a wallet answer. *)
Record answers (pw : bytes) (sw : SQLiteWallet) (v : Vault) (w : World) : Prop := {
  an_export : forall addr pw', match ExportKey L cr env sw addr pw' w with
    | (Ok sk, _) => v_keys v !! addr = Some sk
    | (Err _, _) => pw' <> pw \/ mishap L env \/ v_keys v !! addr = None
    | (Panic _, _) => False end;
  an_list : match ListKeys env sw w with
    | (Ok l, _) => NoDup l /\ forall a, a ∈ l <-> is_Some (v_keys v !! a)
    | (Err _, _) => mishap L env
    | (Panic _, _) => False end;
  an_preimage : forall addr, match LookupMultisigPreimage cr env sw addr w with
    | (Ok x, _) => v_msig v !! addr = Some x
    | (Err _, _) => mishap L env \/ v_msig v !! addr = None
    | (Panic _, _) => False end
}.

Lemma holds_answers path pw mek mdk sw v w : opened cr path pw mek mdk sw -> holds L cr path pw mek mdk v w -> answers pw sw v w.
Proof.
  intros Ho (t & Hf & Hr). constructor.
  - intros addr pw'. pose proof (tri_ExportKey L cr env path pw mek mdk sw Ho t v addr pw' Hr w Hf) as H.
    destruct (ExportKey _ _ _ _ _ _ _) as [[] ?]; naive_solver.
  - pose proof (tri_ListKeys L cr env path pw mek mdk sw Ho t v Hr w Hf) as H. destruct (ListKeys _ _ _) as [[] ?]; naive_solver.
  - intros addr. pose proof (tri_LookupMultisigPreimage L cr env path pw mek mdk sw Ho t v addr Hr w Hf) as H.
    destruct (LookupMultisigPreimage _ _ _ _ _) as [[] ?]; naive_solver.
Qed.

Lemma created_holds d path name id pw mdk w : created L cr d path name id pw mdk w ->
  exists mek mdk' t, (mdk <> zero32 -> mdk' = mdk) /\ zlen mek = masterKeyLen /\ rep L cr pw mek mdk' t Vault_empty /\ file path t w.
Proof.
  intros (mek & mdk' & t & Hm & Hl & Hr & _ & Hw). exists mek, mdk', t. split_and!; [done..|]. apply file_dirIs. eexists. split; [done|].
  by rewrite lookup_insert_eq.
Qed.

(** What was created is there after a wallet was fetched. *)
Lemma fetch_keeps id path t (w w' : World) sw : FetchWallet env cfg id w = (Ok sw, w') -> file path t w -> file path t w'.
Proof.
  intros E (d & Hw & Hp)%file_dirIs. pose proof (tri_FetchWallet L env cfg id d w Hw) as H. rewrite E in H. destruct H as [_ H].
  apply file_dirIs. eauto.
Qed.

(** A wallet that was created, fetched and opened is an empty vault. *)
Lemma create_open name id pw mdk d (w0 w1 w2 w3 : World) sw0 sw :
  w_dir w0 = Some d -> d !! nameIDToPath name id = None -> length mdk = 32%nat ->
  CreateWallet L env cfg name id pw mdk w0 = (Ok tt, w1) ->
  FetchWallet env cfg id w1 = (Ok sw0, w2) -> sw_dbPath sw0 = nameIDToPath name id ->
  Init L cr env pw (sw0, w2) = (Ok tt, (sw, w3)) ->
  exists mek mdk', (mdk <> zero32 -> mdk' = mdk) /\ opened cr (nameIDToPath name id) pw mek mdk' sw
    /\ holds L cr (nameIDToPath name id) pw mek mdk' Vault_empty w3.
Proof.
  intros Hd0 Hnone Hmdk Hc Hf Hp Hi.
  pose proof (tri_CreateWallet L cr env cfg name id pw mdk d Hmdk w0 Hd0) as H. rewrite Hc in H.
  destruct H as [[[x Hx] _]|(_ & _ & _ & Hcr)]; [congruence|].
  destruct (created_holds _ _ _ _ _ _ _ Hcr) as (mek & mdk' & t & Hm & Hl & Hrep & Hfile).
  apply (fetch_keeps _ _ _ _ _ _ Hf) in Hfile.
  pose proof (tri_Init L cr env _ pw mek mdk' sw0 t Vault_empty Hp Hrep Hl (sw0, w2) (conj eq_refl Hfile)) as H. rewrite Hi in H.
  destruct H as [Ho Hf3]. cbn in Ho, Hf3. exists mek, mdk'. split_and!; [done..|]. by exists t.
Qed.

(** C36: A wallet is a vault.  Whatever fails below it and whatever is called, a wallet that
    was created under a password, fetched and opened is a store of keys: every method
    that succeeds does to the store what [vault_step] says (an imported key is stored
    under its address, a generated key is the first derivable one that is not there yet),
    every method that fails does nothing, and none panics.  Afterwards [ExportKey],
    [ListKeys] and [LookupMultisigPreimage] answer from the store; an export fails only
    for another password, a failure below, or an address that is not stored. *)
Theorem wallet_is_vault name id pw mdk d (w0 w1 w2 w3 w4 : World) sw0 sw ops rs :
  w_dir w0 = Some d -> d !! nameIDToPath name id = None -> length mdk = 32%nat ->
  CreateWallet L env cfg name id pw mdk w0 = (Ok tt, w1) ->
  FetchWallet env cfg id w1 = (Ok sw0, w2) -> sw_dbPath sw0 = nameIDToPath name id ->
  Init L cr env pw (sw0, w2) = (Ok tt, (sw, w3)) ->
  Forall wop_ok ops -> runOps L cr env sw ops w3 = (rs, w4) ->
  exists mdk' v, (mdk <> zero32 -> mdk' = mdk) /\ length rs = length ops
    /\ vault_run L cr mdk' Vault_empty (zip ops rs) v /\ answers pw sw v w4.
Proof.
  intros Hd0 Hnone Hmdk Hc Hf Hp Hi Hops Hr.
  destruct (create_open name id pw mdk d w0 w1 w2 w3 sw0 sw Hd0 Hnone Hmdk Hc Hf Hp Hi) as (mek & mdk' & Hm & Ho & Hh0).
  destruct (runOps_refines L cr env _ pw mek mdk' sw ops Ho Hops Vault_empty w3 rs w4 Hh0 Hr) as (Hlen & v & Hrun & Hh).
  exists mdk', v. split_and!; [done..|]. by eapply holds_answers.
Qed.

(** C37: Keys generated by a wallet are recoverable from its master derivation key.  Take a
    wallet with any history of fewer than [2^63] imports, generations and deletions, under
    any failures, and a second, empty wallet with the same master derivation key.  Suppose
    that no call and no read of the random source fails below the second wallet, that
    deriving a key from an index never fails ([derives]), and that no two of the indices 1
    to [2^63 - 1] derive the same public key ([no_collision]).  Then generating in the
    second wallet as many keys as methods were called on the first succeeds, and
    afterwards it exports every key the first one ever generated, deleted ones included. *)
Theorem keys_recoverable mdk (pathA pathB : string) (pwA mekA pwB mekB : bytes) swA swB (envA : weather) opsA rsA (wA wA' wB : World) :
  derives L mdk -> no_collision L mdk -> ~ mishap L env ->
  opened cr pathA pwA mekA mdk swA -> holds L cr pathA pwA mekA mdk Vault_empty wA ->
  Forall wop_ok opsA -> runOps L cr envA swA opsA wA = (rsA, wA') -> zlen opsA < 2 ^ 63 ->
  opened cr pathB pwB mekB mdk swB -> holds L cr pathB pwB mekB mdk Vault_empty wB ->
  exists rsB wB', runOps L cr env swB (replicate (length opsA) (OGenerate false)) wB = (rsB, wB')
    /\ Forall (λ r, is_ok r = true) rsB
    /\ forall dm addr, (OGenerate dm, Ok (Some addr)) ∈ zip opsA rsA ->
       exists i sk w', extractKeyWithIndex L mdk i = Ok (addr, sk) /\ ExportKey L cr env swB addr pwB wB' = (Ok sk, w').
Proof.
  intros Hd Hn Hcalm HoA HhA Hops HrA Hlen HoB HhB.
  destruct (runOps_refines L cr envA _ _ _ mdk swA opsA HoA Hops Vault_empty wA rsA wA' HhA HrA) as (Hl & vA & Hrun & _).
  destruct (regenerate L cr env mdk pathB pwB mekB swB HoB Hcalm Hd Hn (length opsA) Vault_empty 0 wB HhB (full_empty L mdk))
    as (rsB & wB' & vB & HrB & Hok & HhB' & Hfull); [lia|unfold zlen in Hlen; lia|].
  exists rsB, wB'. split_and!; [done..|]. intros dm addr Hin.
  destruct (generated_idx L cr mdk _ _ _ dm addr Hrun Hin) as (i & sk & Hi & He); [done|].
  pose proof (idx_bound L cr mdk _ _ Hd Hn Hrun) as Hb. unfold zlen in Hb. rewrite length_zip_with_l_eq in Hb by done.
  assert (v_keys vB !! addr = Some sk) as Hk by (apply Hfull; exists i; split; [lia|done]).
  destruct (holds_answers _ _ _ _ _ _ _ HoB HhB') as [Hex _ _]. specialize (Hex addr pwB).
  destruct (ExportKey L cr env swB addr pwB wB') as [[sk'|e|p] w']; [|exfalso; naive_solver|done].
  exists i, sk, w'. split; [done|]. do 2 f_equal. congruence.
Qed.

(** C38: No two wallets share an id or a name.  When no call of the operating system or the
    database fails, any sequence of creations, renamings and methods of wallets, with
    any results, keeps the ids and the names of the wallets in the directory distinct. *)
Theorem wallets_distinct d ops (w : World) :
  ~ storm env -> Forall dop_ok ops -> w_dir w = Some d -> distinct d ->
  exists d', w_dir (runDops L cr env cfg ops w) = Some d' /\ distinct d'.
Proof.
  intros Hst Hops. revert d w. induction Hops as [|op ops Hop _ IH]; intros d w Hw Hd; [by exists d|]. cbn [runDops].
  destruct (runDop_distinct L cr env cfg op d w Hst Hop Hw Hd) as (d' & Hw' & Hd'). by eapply IH.
Qed.
(** *** Signing *)

Section Signing.
Context (computeEncodingLen : SignedTxn -> Z) (edSign : bytes -> Hashable -> bytes) (encodeStxn : SignedTxn -> bytes).

(** Signatures verify under the public key of the pair and are not blank; the caches of a
    transaction are not part of what is signed. *)
Definition signs : Prop := forall seed msg,
  cr_Verify cr (kl_seedKeypair L seed).1 msg (edSign (kl_seedKeypair L seed).2 msg) = true /\ edSign (kl_seedKeypair L seed).2 msg <> zero64.
Definition caches_unsigned : Prop := forall k tx s, cr_Verify cr k (HTxn (InitCaches (cr_computeID cr) tx)) s = cr_Verify cr k (HTxn tx) s.

Lemma rep_pair pw mek mdk t v a sk : rep L cr pw mek mdk t v -> v_keys v !! a = Some sk -> exists seed, kl_seedKeypair L seed = (a, sk).
Proof.
  intros Hr Hk. destruct (t_keys t !! a) as [row|] eqn:E.
  - destruct (keys_some L cr pw mek mdk t v a row Hr E) as (sk' & Hk' & _ & Hs). rewrite Hk in Hk'. by injection Hk' as <-.
  - apply (keys_none L cr pw mek mdk t v a Hr) in E. congruence.
Qed.

Lemma signed_txn seed pk sk tx : kl_seedKeypair L seed = (pk, sk) -> signs -> caches_unsigned ->
  hdr_Sender (tx_Header tx) = pk -> forall spec proto, WellFormed (InitCaches (cr_computeID cr) tx) spec proto = Ok tt -> pk <> zero32 ->
  verify_Txn cr (tx_Sign cr computeEncodingLen edSign tx (pk, sk)) spec proto = Ok tt.
Proof.
  intros Ek Hs Hcu Hsd spec proto Hwf Hz. destruct (Hs seed (HTxn tx)) as [Hv Hb]. rewrite Ek in Hv, Hb. cbn in Hv, Hb.
  assert (exists s, tx_Sign cr computeEncodingLen edSign tx (pk, sk) = s /\ stx_Txn s = InitCaches (cr_computeID cr) tx
    /\ stx_Sig s = edSign sk (HTxn tx) /\ msig_Blank (stx_Msig s) = true /\ lsig_Blank (stx_Lsig s) = true) as (s & -> & E1 & E2 & E3 & E4).
  { eexists. split; [done|]. unfold tx_Sign, stx_InitCaches. cbn. done. }
  unfold verify_Txn, stxnVerifyCore, sender. rewrite E1, E2, E3, E4, Hwf.
  assert (hdr_Sender (tx_Header (InitCaches (cr_computeID cr) tx)) = pk) as Hsd' by (unfold InitCaches; by destruct (negb _)).
  rewrite Hsd'. cbn [mbind result_bind]. rewrite bool_decide_false by done. cbn. rewrite bool_decide_false by done. cbn.
  rewrite Hcu, Hv. done.
Qed.

(** What a wallet signs verifies.  [SignTransaction] of an open wallet that returns
    gives the encoding of a signed transaction that carries the given one, and that
    [verify.Txn] accepts under every protocol in which the transaction is well formed;
    the key it signed with is the one stored for the sender. *)
Theorem wallet_signs path pw mek mdk sw v (w w' : World) tx pw' b :
  signs -> caches_unsigned -> opened cr path pw mek mdk sw -> holds L cr path pw mek mdk v w ->
  SignTransaction L cr computeEncodingLen edSign encodeStxn env sw tx pw' w = (Ok b, w') ->
  cr_Hash cr (sw_walletPasswordSalt sw ++ pw') = cr_Hash cr (sw_walletPasswordSalt sw ++ pw)
  /\ holds L cr path pw mek mdk v w'
  /\ exists sk stx, v_keys v !! hdr_Sender (tx_Header tx) = Some sk /\ b = encodeStxn stx
     /\ stx_Txn stx = InitCaches (cr_computeID cr) tx /\ stx_Sig stx = edSign sk (HTxn tx)
     /\ forall spec proto, WellFormed (stx_Txn stx) spec proto = Ok tt -> hdr_Sender (tx_Header tx) <> zero32 ->
        verify_Txn cr stx spec proto = Ok tt.
Proof.
  intros Hs Hcu Ho (t & Hf & Hr) H. unfold SignTransaction in H. apply M_bind_Ok in H as ([] & w1 & H1 & H).
  rewrite (CheckPassword_open L cr env path pw mek mdk sw Ho) in H1. case_bool_decide as Hpw; [|done]. injection H1 as <-.
  split; [done|]. apply M_bind_Ok in H as (sk & w2 & H2 & H).
  pose proof (tri_fetchSecretKey L cr env path pw mek mdk sw Ho t v (hdr_Sender (tx_Header tx)) Hr w Hf) as Ht. rewrite H2 in Ht.
  destruct Ht as [Hk Hf2]. destruct (rep_pair _ _ _ _ _ _ _ Hr Hk) as (seed & Ek).
  apply M_bind_Ok in H as (secrets & w3 & H3 & H). unfold lift, SecretKeyToSignatureSecrets in H3.
  pose proof (kl_pair_pk seed) as Hpk. rewrite Ek in Hpk. cbn in Hpk. rewrite Hpk in H3. cbn in H3. inv_ok.
  split; [by exists t|]. eexists sk, _. split_and!; [done|done| | |].
  1, 2: unfold tx_Sign, stx_InitCaches; cbn; done.
  intros spec proto Hwf Hz. eapply signed_txn; [done..| |done]. revert Hwf. by unfold tx_Sign, stx_InitCaches.
Qed.
End Signing.
End Claims.
