(* ===== verification/WalletExamples.v ===== *)
(** A concrete library below the wallets, on which the theorems on wallets are applied and
    their methods run, and what goes wrong in some of them. *)

From S2P Require Import Prelude Config Basics Transactions Bookkeeping Multisig Verify Pool BlockDB GoText GoTextSpec WalletBox Wallet WalletSpec WalletDriver WalletClaims.

Module WalletWitness.

(** ** The library *)

Definition pad32 (b : bytes) : bytes := take 32 (b ++ replicate 32 0).
Lemma length_pad32 b : length (pad32 b) = 32%nat.
Proof. unfold pad32. rewrite length_take, length_app, length_replicate. lia. Qed.
Lemma pad32_id b : length b = 32%nat -> pad32 b = b.
Proof. intros E. unfold pad32. rewrite <- E at 1. apply take_app_length. Qed.

Definition strip (p b : bytes) : option bytes := if bool_decide (take (length p) b = p) then Some (drop (length p) b) else None.
Lemma strip_app p b : strip p (p ++ b) = Some b.
Proof. unfold strip. rewrite take_app_length, drop_app_length, bool_decide_true by done. done. Qed.

Definition lib : KmdLib nat := mkKmdLib
  (λ pw salt _ _ _ _, Some (pad32 (pw ++ salt)))
  (λ m n k, (zlen k :: k) ++ n ++ m)
  (λ b n k, b ← strip (zlen k :: k) b; strip n b)
  (λ out r, (true, replicate (length out) (Z.of_nat r mod 256), S r))
  (λ k info n, if n <? 0 then None else Some (take (Z.to_nat n) (drop 25 info ++ replicate (Z.to_nat n) 0)))
  (λ seed, (pad32 seed, pad32 seed ++ pad32 seed))
  (λ sk, Some (drop 32 sk))
  (λ sk, if bool_decide (length sk = 64%nat) then Some (take 32 sk) else None).

#[export] Instance lib_laws : KmdLaws lib.
Proof.
  constructor; cbn.
  - intros m n k. change (zlen k :: k ++ n ++ m) with ((zlen k :: k) ++ n ++ m). rewrite strip_app. cbn. apply strip_app.
  - intros out r. by rewrite length_replicate.
  - intros out r _. apply Forall_replicate. unfold is_byte. apply Z.mod_pos_bound. done.
  - intros seed. f_equal. by rewrite <- (length_pad32 seed) at 1; rewrite drop_app_length.
  - intros seed E. rewrite pad32_id by done. rewrite bool_decide_true by (rewrite length_app; lia). f_equal. rewrite <- E at 1. apply take_app_length.
  - intros seed. apply length_pad32.
  - intros seed. rewrite length_app, !length_pad32. done.
  - intros sk seed. case_bool_decide; [|done]. intros [= <-]. rewrite length_take. lia.
  - intros k i n s. destruct (Z.ltb_spec n 0); [done|]. intros [= <-]. unfold zlen. rewrite length_take, length_app, length_replicate. lia.
Qed.

Definition typeCode (ty : plaintextType) : Z := match ty with PTMasterKey => 1 | PTSecretKey => 2 | PTMasterDerivationKey => 3 | PTMaxKeyIdx => 4 end.
Definition typeOf (z : Z) : option plaintextType :=
  if z =? 1 then Some PTMasterKey else if z =? 2 then Some PTSecretKey else if z =? 3 then Some PTMasterDerivationKey
  else if z =? 4 then Some PTMaxKeyIdx else None.
#[export] Instance mp_pt : Msgpack typedPlaintext := {
  msgpackEncode t := typeCode (tp_Type t) :: tp_Plaintext t;
  decodeBytes b := match b with c :: b => ty ← typeOf c; Some (mkTypedPlaintext b ty) | [] => None end
}.
#[export] Instance mp_blob : Msgpack encryptedDBBlob := {
  msgpackEncode b := [ScryptN (eb_ScryptParams b); ScryptR (eb_ScryptParams b); ScryptP (eb_ScryptParams b); Z.b2z (eb_DoScrypt b)]
                     ++ eb_Nonce b ++ eb_Salt b ++ eb_Ciphertext b;
  decodeBytes b := match b with
    | n :: r :: p :: s :: b => Some (mkEncryptedDBBlob (mkScryptParams n r p) (s =? 1) (drop 56 b) (take 24 b) (take 32 (drop 24 b)))
    | _ => None end
}.
#[export] Instance mp_bytes : Msgpack bytes := { msgpackEncode b := b; decodeBytes := Some }.
#[export] Instance mp_Z : Msgpack Z := { msgpackEncode z := [z]; decodeBytes b := match b with [z] => Some z | _ => None end }.
Fixpoint chunks (n : nat) (b : bytes) : list bytes := match n with O => [] | S n => take 32 b :: chunks n (drop 32 b) end.
#[export] Instance mp_keys : Msgpack (list bytes) := { msgpackEncode l := concat l; decodeBytes b := Some (chunks (length b / 32) b) }.

Lemma chunks_concat l : keys_wf l -> chunks (length (concat l) / 32) (concat l) = l.
Proof.
  intros H. assert (length (concat l) / 32 = length l)%nat as ->.
  { rewrite <- (Nat.div_mul (length l) 32) by done. f_equal. induction H as [|k l Hk _ IH]; [done|]. cbn [concat]. rewrite length_app, Hk, IH. cbn. lia. }
  induction H as [|k l Hk _ IH]; [done|]. cbn [length chunks concat]. rewrite <- Hk at 1 2. by rewrite take_app_length, drop_app_length, IH.
Qed.

#[export] Instance codec : WalletCodec.
Proof.
  constructor.
  - intros [b ty] _. by destruct ty.
  - intros [[n r p] s c nonce salt] [Hn Hs]. cbn in *. unfold zlen in *. assert (length nonce = 24%nat) as En by (unfold nonceLen in Hn; lia).
    assert (length salt = 32%nat) as Es by (unfold saltLen in Hs; lia). f_equal. f_equal.
    + by destruct s.
    + rewrite (app_assoc nonce). by rewrite drop_app_length' by (rewrite length_app; lia).
    + by rewrite take_app_length'.
    + rewrite drop_app_length' by done. by rewrite take_app_length'.
  - by intros sk _.
  - by intros z _.
  - intros l H. unfold decodeBytes, msgpackEncode, mp_keys. by rewrite chunks_concat.
Qed.

Lemma extract0 mdk i : extractKeyWithIndex lib mdk i = Ok (kl_seedKeypair lib (pad32 (codes (FormatUint i)))).
Proof. unfold extractKeyWithIndex. cbn [kl_hkdfRead lib]. by rewrite codes_app. Qed.

Lemma derives0 mdk : derives lib mdk.
Proof. intros i. eexists. apply extract0. Qed.

Lemma nonzero_pad l : Forall decimal l -> (length l <= 32)%nat -> List.filter (λ z, negb (z =? 0)) (pad32 l) = l.
Proof.
  intros Hl Hlen. unfold pad32. rewrite take_app_ge by done. rewrite take_replicate. rewrite List.filter_app.
  assert (forall n, List.filter (λ z, negb (z =? 0)) (replicate n 0) = []) as -> by (induction n; done). rewrite app_nil_r.
  clear Hlen. induction Hl as [|z l Hz _ IH]; [done|]. cbn. unfold decimal in Hz. rewrite (proj2 (Z.eqb_neq z 0)) by lia. cbn. by rewrite IH.
Qed.

Lemma no_collision0 mdk : no_collision lib mdk.
Proof.
  intros i j pk si sj Hi Hj. rewrite !extract0. intros [= E1 _] [= E2 _]. rewrite pad32_id in E1, E2 by apply length_pad32.
  assert (u64 i /\ u64 j) as [Ui Uj] by (unfold u64; lia).
  assert (forall k, 1 <= k < 2 ^ 63 -> List.filter (λ z, negb (z =? 0)) (pad32 (codes (FormatUint k))) = codes (FormatUint k)) as Hf.
  { intros k Hk. apply nonzero_pad; [by apply FormatUint_digits; unfold u64; lia|].
    assert (slen (FormatUint k) <= 20) as Hlen by (apply FormatUint_len; [unfold u64; lia|lia|lia]). rewrite slen_codes in Hlen. unfold zlen in Hlen. lia. }
  pose proof (Hf i Hi) as Fi. pose proof (Hf j Hj) as Fj. rewrite E1 in Fi. rewrite E2 in Fj. rewrite Fi in Fj. apply codes_inj in Fj.
  pose proof (ParseUint_FormatUint i Ui) as Pi. rewrite Fj, ParseUint_FormatUint in Pi by done. by injection Pi.
Qed.

(** ** A run *)

Definition edSign (sk : bytes) (_ : Hashable) : bytes := 1 :: sk.
Definition cr : Crypto := mkCrypto (λ _, zero32) (λ _, zero32) (λ _, zero32) (λ _, zero32) (λ _ _ _ _, true) (λ _, zero32) (λ b, b)
  (λ k _ s, bool_decide (s = 1 :: k ++ k)).
Definition cfg : SQLiteWalletDriverConfig := mkSQLiteCfg "" false (mkScryptParams 65536 1 32).

Definition name : bytes := codes "main".
Definition id : bytes := codes "7f".
Definition pw : bytes := codes "pw".
Definition mdk : bytes := replicate 32 7.
Definition raw : bytes := replicate 64 5.
(** The key the wallet derives at index 1, imported by hand; then generation skips it. *)
Definition first : bytes := (kl_seedKeypair lib (pad32 (codes (FormatUint 1)))).2.
Definition pks : list bytes := [replicate 32 5; replicate 32 6].
Definition ops : list wop :=
  [OImport raw; OImport first; OGenerate false; OImport raw; ODelete (replicate 32 5) (codes "px"); ODelete (replicate 32 5) pw; OGenerate true;
   OImportMsig 1 2 pks; OGenerate false].

Definition w0 : World (R := nat) := mkWorld (Some ∅) 1%nat 0%nat.
Definition w1 := (CreateWallet lib calm cfg name id pw mdk w0).2.
Definition fetched1 := FetchWallet calm cfg id w1.
Definition sw0 : SQLiteWallet := fetched cfg "main.7f.db".
Definition opened1 := Init lib cr calm pw (sw0, fetched1.2).
Definition sw : SQLiteWallet := opened1.2.1.
Definition run1 := runOps lib cr calm sw ops opened1.2.2.

(** The results of the run: the second import of a key and the wrong password fail, and so
    does the mnemonic; the generated keys have the indices 2 and 3. *)
Example run1_results : run1.1 =
  [Ok (Some (replicate 32 5)); Ok (Some (pad32 (codes "1"))); Ok (Some (pad32 (codes "2"))); Err errKeyExists; Err errDecrypt; Ok None;
   Err errNoMnemonicUX; Ok (Some (multiSigString ++ [1; 2] ++ concat pks)); Ok (Some (pad32 (codes "3")))].
Proof. vm_compute. reflexivity. Qed.

Lemma ops_ok : Forall wop_ok ops.
Proof. repeat constructor; cbn; lia. Qed.
(** ** The theorems, applied *)

Lemma wallet_is_vault_witness : exists mdk' v, (mdk <> zero32 -> mdk' = mdk) /\ length run1.1 = length ops
  /\ vault_run lib cr mdk' Vault_empty (zip ops run1.1) v /\ answers lib cr calm pw sw v run1.2.
Proof.
  apply (wallet_is_vault lib cr calm cfg name id pw mdk ∅ w0 w1 fetched1.2 opened1.2.2 run1.2 sw0 sw ops run1.1);
    [reflexivity|reflexivity|reflexivity|vm_compute; reflexivity|vm_compute; reflexivity|reflexivity|vm_compute; reflexivity|apply ops_ok|vm_compute; reflexivity].
Defined.

Lemma calm_lib : ~ mishap lib calm.
Proof. intros [[n [x Hx]]|(out & r & H)]; done. Qed.

(** The open wallet and its file, for the theorems that start from them. *)
Lemma wallet_opened : exists mek, opened cr (nameIDToPath name id) pw mek mdk sw /\ holds lib cr (nameIDToPath name id) pw mek mdk Vault_empty opened1.2.2.
Proof.
  destruct (create_open lib cr calm cfg name id pw mdk ∅ w0 w1 fetched1.2 opened1.2.2 sw0 sw) as (mek & mdk' & Hm & Ho & Hh);
    [reflexivity|reflexivity|reflexivity|vm_compute; reflexivity|vm_compute; reflexivity|vm_compute; reflexivity|vm_compute; reflexivity|].
  exists mek. rewrite Hm in Ho, Hh by (vm_compute; discriminate). split; [exact Ho|exact Hh].
Qed.

Lemma keys_recoverable_witness : exists rsB wB',
  runOps lib cr calm sw (replicate 9 (OGenerate false)) opened1.2.2 = (rsB, wB') /\ Forall (λ r, is_ok r = true) rsB
  /\ forall dm addr, (OGenerate dm, Ok (Some addr)) ∈ zip ops run1.1 ->
     exists i sk w', extractKeyWithIndex lib mdk i = Ok (addr, sk) /\ ExportKey lib cr calm sw addr pw wB' = (Ok sk, w').
Proof.
  destruct wallet_opened as (mek & Ho & Hh).
  apply (keys_recoverable lib cr calm mdk (nameIDToPath name id) (nameIDToPath name id) pw mek pw mek sw sw calm ops run1.1 opened1.2.2 run1.2 opened1.2.2);
    [apply derives0|apply no_collision0|apply calm_lib|exact Ho|exact Hh|apply ops_ok|vm_compute; reflexivity|vm_compute; reflexivity|exact Ho|exact Hh].
Defined.

(** A second wallet, with a name that is taken and then with another; a renaming. *)
Definition dops : list dop :=
  [DCreate name id pw mdk; DCreate name (codes "80") pw zero32; DCreate (codes "other") (codes "80") pw zero32; DRename name (codes "80") pw;
   DRename (codes "third") (codes "80") pw; DWallet sw (OGenerate false)].

Lemma wallets_distinct_witness : exists d', w_dir (runDops lib cr calm cfg dops w0) = Some d' /\ distinct d'.
Proof.
  apply (wallets_distinct lib cr calm cfg ∅ dops w0).
  - intros [n [x Hx]]. discriminate.
  - repeat constructor.
  - reflexivity.
  - intros p q m n _ H. exfalso. unfold walletAt in H. rewrite lookup_empty in H. by destruct (matchesDB p).
Defined.
Example dops_names : (λ d, (λ x, (x.1, md_Name <$> metaOf x.2)) <$> map_to_list d) <$> w_dir (runDops lib cr calm cfg dops w0)
  = Some [("other.80.db", Some (codes "third")); ("main.7f.db", Some name)].
Proof. vm_compute. reflexivity. Qed.

(** A payment from the imported key, signed. *)
Definition tx0 : Transaction := VerifyWitness.pay1 (replicate 32 5).
Definition imported := runOps lib cr calm sw [OImport raw] opened1.2.2.
Definition encodeStxn (s : SignedTxn) : bytes := stx_Sig s.
Definition signed1 := SignTransaction lib cr (λ _, 100) edSign encodeStxn calm sw tx0 pw imported.2.

Lemma imported_holds : exists mek v, opened cr (nameIDToPath name id) pw mek mdk sw /\ holds lib cr (nameIDToPath name id) pw mek mdk v imported.2.
Proof.
  destruct wallet_opened as (mek & Ho & Hh). exists mek.
  destruct (runOps_refines lib cr calm _ pw mek mdk sw [OImport raw] Ho ltac:(by repeat constructor) Vault_empty opened1.2.2 imported.1 imported.2 Hh)
    as (_ & v & _ & Hv); [vm_compute; reflexivity|]. exists v. split; [exact Ho|exact Hv].
Qed.

Lemma wallet_signs_witness : exists v sk stx, v_keys v !! replicate 32 5 = Some sk
  /\ stx_Txn stx = InitCaches (cr_computeID cr) tx0 /\ verify_Txn cr stx VerifyWitness.spec1 v19 = Ok tt.
Proof.
  destruct imported_holds as (mek & v & Ho & Hh).
  destruct (wallet_signs lib cr calm (λ _, 100) edSign encodeStxn (nameIDToPath name id) pw mek mdk sw v imported.2 signed1.2 tx0 pw (1 :: raw))
    as (_ & _ & sk & stx & Hk & _ & Ht & _ & Hv).
  - intros seed msg. split; [|done]. cbn. by apply bool_decide_eq_true.
  - intros k tx s. reflexivity.
  - exact Ho.
  - exact Hh.
  - vm_compute. reflexivity.
  - exists v, sk, stx. split; [exact Hk|]. split; [exact Ht|]. apply Hv; [rewrite Ht; vm_compute; reflexivity|by vm_compute].
Defined.

(** ** What goes wrong *)

(** Creating a wallet whose file exists reports success and creates nothing: neither the
    password nor the master derivation key of the second call is used. *)
Example create_twice :
  CreateWallet lib calm cfg name id (codes "second") zero32 w1 = (Ok tt, mkWorld (w_dir w1) (w_rng w1) (S (w_tick w1))).
Proof. vm_compute. reflexivity. Qed.

(** A file that cannot be read is skipped in the search for the name, and then two wallets
    have the same name: the weather fails one call, the opening of the first wallet. *)
Definition gust : weather := λ n, if bool_decide (n = S (S (w_tick w1))) then Some (SqliteError ErrBusy) else None.
Example same_name_twice :
  let r := CreateWallet lib gust cfg name (codes "80") pw zero32 w1 in
  r.1 = Ok tt /\ (λ d, (λ x, (x.1, md_Name <$> metaOf x.2)) <$> map_to_list d) <$> w_dir r.2
    = Some [("main.7f.db", Some name); ("main.80.db", Some name)].
Proof. vm_compute. split; reflexivity. Qed.

(** [RenameWallet] does not ask for a short name. *)
Example rename_long :
  let long := replicate 65 97 in
  (CreateWallet lib calm cfg long (codes "80") pw zero32 w1).1 = Err errNameTooLong /\ (RenameWallet lib cr calm cfg long id pw w1).1 = Ok tt.
Proof. vm_compute. split; reflexivity. Qed.

(** A wallet that was fetched and not opened exports a master derivation key of zeros. *)
Example export_unopened : (ExportMasterDerivationKey lib cr calm sw0 pw w1).1 = Ok zero32.
Proof. vm_compute. reflexivity. Qed.
End WalletWitness.
