(* ===== verification/Session.v ===== *)
(** Sessions of the key management daemon (src/daemon/kmd/session/session.go, auth.go).

    A session is an open wallet behind a token, an identifier and a secret in hexadecimal
    joined by a dot, that expires unless it is renewed.  [time.Now] is an argument of every
    call that reads the clock; [int64(d.Seconds())], which computes in floating point, is
    the parameter [seconds].  The state is the manager and the world of its wallets. *)

From S2P Require Import Prelude Config Basics Transactions Bookkeeping Multisig Verify Pool BlockDB GoText GoTextSpec WalletBox Wallet.

Definition wHandleIDBytes : Z := 8.
Definition wHandleSecretBytes : Z := 32.
Definition wHandleTokenSplitChar : bytes := [46].
Definition second : Z := 10 ^ 9.

Record walletHandle := mkWalletHandle { wh_secret : bytes; wh_expires : Z; wh_wallet : SQLiteWallet }.
#[export] Instance walletHandle_eta : Eta walletHandle := λ r, mkWalletHandle (wh_secret r) (wh_expires r) (wh_wallet r).
Record Manager := mkManager { sm_walletHandles : gmap bytes walletHandle; sm_sessionLifetime : Z }.
#[export] Instance Manager_eta : Eta Manager := λ r, mkManager (sm_walletHandles r) (sm_sessionLifetime r).

(** [time.Duration(cfg.SessionLifetimeSecs * uint64(time.Second))] *)
Definition MakeManager (sessionLifetimeSecs : Z) : Manager := mkManager ∅ (wrapS64 (wrap64 (sessionLifetimeSecs * second))).

Definition isHex (c : Z) : bool := (48 <=? c) && (c <=? 57) || (97 <=? c) && (c <=? 102).
Definition validateHandleID (handleID : bytes) : result unit :=
  guardR ((length handleID =? 16)%nat && forallb isHex handleID) (Errorf "invalid wallet handle id").
Definition validateHandleSecret (handleSecret : bytes) : result unit :=
  guardR ((length handleSecret =? 64)%nat && forallb isHex handleSecret) (Errorf "invalid wallet handle secret").

(** [bytes.SplitN(b, ".", 2)] when it has two parts. *)
Fixpoint splitDot (b : bytes) : option (bytes * bytes) :=
  match b with
  | [] => None
  | c :: b => if c =? 46 then Some ([], b) else '(x, y) ← splitDot b; Some (c :: x, y)
  end.

Definition splitHandle (walletHandle : bytes) : result (bytes * bytes) :=
  match splitDot walletHandle with
  | None => Err (Errorf "wrong number of token parts")
  | Some (handleID, handleSecret) =>
    _ ← validateHandleID handleID;
    _ ← validateHandleSecret handleSecret;
    Ok (handleID, handleSecret)
  end.

Definition checkHandleNotExpired (now expires : Z) : result unit := guardR (negb (expires <? now)) (Errorf "handle expired").

(** [Sub]: the difference of two times, saturated. *)
Definition timeSub (a b : Z) : Z := Z.max (- 2 ^ 63) (Z.min (2 ^ 63 - 1) (a - b)).

Section Session.
Context {R : Type} (L : KmdLib R) (cr : Crypto) `{!Msgpack typedPlaintext} `{!Msgpack encryptedDBBlob}.
Context (env : weather) (seconds : Z -> Z).
Notation World := (World (R := R)).
Notation State := (Manager * World)%type.

(** [rand.Read] into a fresh slice; its error is the caller's. *)
Definition randBytes (n : Z) : M World bytes := λ w,
  match kl_randRead L (zeros n) (w_rng w) with
  | (true, b, r) => (Ok b, mkWorld (w_dir w) r (w_tick w))
  | (false, _, r) => (Err errRandBytes, mkWorld (w_dir w) r (w_tick w))
  end.

Definition generateHandleIDAndSecret : M World (bytes * bytes) :=
  handleID ← randBytes wHandleIDBytes;
  handleSecret ← randBytes wHandleSecretBytes;
  mret (codes (hexEncode handleID), codes (hexEncode handleSecret)).

(** Each handle is looked at at a time of its own. *)
Definition deleteExpiredHandles (now : bytes -> Z) (sm : Manager) : Manager :=
  sm <| sm_walletHandles ::= filter (λ kv, is_ok (checkHandleNotExpired (now kv.1) (wh_expires kv.2)) = true) |>.

(** The wallet [w] is opened in place; [now] is read after that. *)
Definition InitWalletHandle (w : SQLiteWallet) (pw : bytes) (now : Z) : M State bytes := λ s,
  let '(sm, world) := s in
  match Init L cr env pw (w, world) with
  | (Ok _, (w, world)) =>
    match generateHandleIDAndSecret world with
    | (Ok (handleID, handleSecret), world) =>
      let handle := mkWalletHandle handleSecret (now + sm_sessionLifetime sm) w in
      (Ok (handleID ++ wHandleTokenSplitChar ++ handleSecret), (sm <| sm_walletHandles ::= <[handleID := handle]> |>, world))
    | (Err e, world) => (Err e, (sm, world))
    | (Panic p, world) => (Panic p, (sm, world))
    end
  | (Err e, (_, world)) => (Err e, (sm, world))
  | (Panic p, (_, world)) => (Panic p, (sm, world))
  end.

Definition getHandleFromTokenLocked (sm : Manager) (walletHandleToken : bytes) : result (bytes * walletHandle) :=
  '(handleID, handleSecret) ← splitHandle walletHandleToken;
  match sm_walletHandles sm !! handleID with
  | None => Err (Errorf "handle does not exist")
  | Some handle => if bool_decide (handleSecret = wh_secret handle) then Ok (handleID, handle) else Err (Errorf "invalid token")
  end.

Definition ReleaseWalletHandle (walletHandleToken : bytes) : M Manager unit := λ sm,
  match getHandleFromTokenLocked sm walletHandleToken with
  | Ok (handleID, _) => (Ok tt, sm <| sm_walletHandles ::= delete handleID |>)
  | Err e => (Err e, sm)
  | Panic p => (Panic p, sm)
  end.

(** [now1], [now2] and [now3] are the three readings of the clock. *)
Definition authMaybeRenewWalletHandleToken (walletHandleToken : bytes) (renew : bool) (now1 now2 now3 : Z) : M Manager (SQLiteWallet * Z) := λ sm,
  match getHandleFromTokenLocked sm walletHandleToken with
  | Ok (handleID, handle) =>
    match checkHandleNotExpired now1 (wh_expires handle) with
    | Ok _ =>
      let '(handle, sm) :=
        (if renew then
           let handle := handle <| wh_expires := now2 + sm_sessionLifetime sm |> in
           (handle, sm <| sm_walletHandles ::= <[handleID := handle]> |>)
         else (handle, sm)) in
      (Ok (wh_wallet handle, seconds (timeSub (wh_expires handle) now3)), sm)
    | Err e => (Err e, sm <| sm_walletHandles ::= delete handleID |>)
    | Panic p => (Panic p, sm)
    end
  | Err e => (Err e, sm)
  | Panic p => (Panic p, sm)
  end.

Definition RenewWalletHandleToken (walletHandleToken : bytes) : Z -> Z -> Z -> M Manager (SQLiteWallet * Z) :=
  authMaybeRenewWalletHandleToken walletHandleToken true.
Definition AuthWithWalletHandleToken (walletHandleToken : bytes) : Z -> Z -> Z -> M Manager (SQLiteWallet * Z) :=
  authMaybeRenewWalletHandleToken walletHandleToken false.

End Session.
