(* ===== verification/SessionSpec.v ===== *)
(** Which tokens open a wallet.

    [sessions] are the runs of a manager: wallets are opened, tokens used, renewed and
    released, and expired handles removed, at times that do not go back.  [lastSession]
    reads off the history which wallet a token stands for and when it was last opened or
    renewed, without looking at the manager. *)

From S2P Require Import Prelude Config Basics Transactions Bookkeeping Multisig Verify Pool BlockDB GoText GoTextSpec WalletBox Wallet WalletSpec WalletClaims WalletExamples Session.

(** ** Tokens *)

Definition hexID (id : bytes) : Prop := length id = 16%nat /\ forallb isHex id = true.
Definition hexSecret (s : bytes) : Prop := length s = 64%nat /\ forallb isHex s = true.
Definition token (id secret : bytes) : bytes := id ++ wHandleTokenSplitChar ++ secret.

Lemma splitDot_app id s : forallb isHex id = true -> splitDot (id ++ 46 :: s) = Some (id, s).
Proof.
  induction id as [|c id IH]; [done|]. cbn. intros [Hc H]%andb_true_iff. rewrite (proj2 (Z.eqb_neq c 46)); [by rewrite IH|].
  intros ->. done.
Qed.
Lemma splitDot_Some b x y : splitDot b = Some (x, y) -> b = x ++ [46] ++ y.
Proof.
  revert x. induction b as [|c b IH]; intros x; cbn; [done|]. destruct (Z.eqb_spec c 46) as [->|]; [by intros [= <- <-]|].
  destruct (splitDot b) as [[x' y']|]; [|done]. cbn. intros [= <- <-]. by rewrite (IH x').
Qed.

Lemma splitHandle_Ok t id s : splitHandle t = Ok (id, s) <-> hexID id /\ hexSecret s /\ t = token id s.
Proof.
  unfold splitHandle, validateHandleID, validateHandleSecret. split.
  - destruct (splitDot t) as [[x y]|] eqn:E; [|done]. apply splitDot_Some in E as ->. unfold guardR.
    destruct ((length x =? 16)%nat && forallb isHex x) eqn:E1; [|done]. cbn.
    destruct ((length y =? 64)%nat && forallb isHex y) eqn:E2; [|done]. intros [= -> ->].
    apply andb_true_iff in E1 as [?%Nat.eqb_eq ?], E2 as [?%Nat.eqb_eq ?]. done.
  - intros ([Hl Hh] & [Hl' Hh'] & ->). unfold token, wHandleTokenSplitChar. cbn [app]. rewrite splitDot_app by done. by rewrite Hl, Hh, Hl', Hh'.
Qed.
Lemma splitHandle_nopanic t p : splitHandle t <> Panic p.
Proof.
  unfold splitHandle, validateHandleID, validateHandleSecret, guardR. destruct (splitDot t) as [[x y]|]; [|done].
  destruct (_ && forallb isHex x); cbn; [|done]. by destruct (_ && forallb isHex y).
Qed.
Lemma take_token id s : hexID id -> take 16 (token id s) = id.
Proof. intros [Hl _]. unfold token. by rewrite take_app_length'. Qed.
Lemma token_inj id s s' : token id s = token id s' -> s = s'.
Proof. unfold token. intros H%app_inv_head. by injection H. Qed.

Lemma hexEncode_hex b : Forall is_byte b -> length (codes (hexEncode b)) = (2 * length b)%nat /\ forallb isHex (codes (hexEncode b)) = true.
Proof.
  assert (forall d, 0 <= d < 16 -> isHex (ord (hexChar d)) = true) as Hd.
  { intros d Hd. unfold hexChar. destruct (Z.ltb_spec d 10); rewrite ord_chr by (unfold is_byte; lia); unfold isHex; zcases; cbn; lia. }
  induction 1 as [|z b Hz _ [IH1 IH2]]; [done|]. destruct (nibbles z Hz) as (_ & H1 & H2). cbn. split; [lia|]. by rewrite IH2, !Hd.
Qed.

(** ** What a token stands for *)

Definition sess (sm : Manager) (t : bytes) : option (SQLiteWallet * Z) :=
  match getHandleFromTokenLocked sm t with Ok (_, h) => Some (wh_wallet h, wh_expires h) | _ => None end.

Lemma getHandle_Ok sm t id h : getHandleFromTokenLocked sm t = Ok (id, h) <->
  hexID id /\ hexSecret (wh_secret h) /\ t = token id (wh_secret h) /\ sm_walletHandles sm !! id = Some h.
Proof.
  unfold getHandleFromTokenLocked. split.
  - destruct (splitHandle t) as [[id' s]| |] eqn:E; cbn; [|done..]. apply splitHandle_Ok in E as (Hi & Hs & ->).
    destruct (sm_walletHandles sm !! id') as [h'|] eqn:El; [|done]. case_bool_decide as Es; [|done]. intros [= <- <-]. by rewrite <- Es.
  - intros (Hi & Hs & -> & El). rewrite (proj2 (splitHandle_Ok _ id (wh_secret h))) by done. cbn. rewrite El. by rewrite bool_decide_true.
Qed.
Lemma getHandle_nopanic sm t p : getHandleFromTokenLocked sm t <> Panic p.
Proof.
  unfold getHandleFromTokenLocked. pose proof (splitHandle_nopanic t) as Hp. destruct (splitHandle t) as [[id s]| |q]; cbn; [|done|by destruct (Hp q)].
  destruct (_ !! _); [|done]. by destruct (bool_decide _).
Qed.
Lemma sess_Some sm t w e : sess sm t = Some (w, e) <->
  exists id h, getHandleFromTokenLocked sm t = Ok (id, h) /\ wh_wallet h = w /\ wh_expires h = e.
Proof. unfold sess. destruct (getHandleFromTokenLocked sm t) as [[id h]| |]; naive_solver. Qed.
Lemma sess_token sm id s : hexID id -> hexSecret s -> sess sm (token id s) =
  match sm_walletHandles sm !! id with Some h => if bool_decide (s = wh_secret h) then Some (wh_wallet h, wh_expires h) else None | None => None end.
Proof.
  intros Hi Hs. unfold sess, getHandleFromTokenLocked. rewrite (proj2 (splitHandle_Ok _ id s)) by done. cbn.
  destruct (sm_walletHandles sm !! id); [|done]. by case_bool_decide.
Qed.
(** A byte string is a token, or it stands for nothing. *)
Lemma token_dec t : (exists id s, hexID id /\ hexSecret s /\ t = token id s) \/ forall sm, sess sm t = None.
Proof.
  destruct (splitHandle t) as [[id s]| |] eqn:E; [left; exists id, s; by apply splitHandle_Ok|right..]; intros sm; unfold sess, getHandleFromTokenLocked; by rewrite E.
Qed.

Lemma sess_insert sm id h t : hexID id -> hexSecret (wh_secret h) ->
  sess (sm <| sm_walletHandles ::= <[id := h]> |>) t =
    if decide (t = token id (wh_secret h)) then Some (wh_wallet h, wh_expires h)
    else if decide (take 16 t = id) then None else sess sm t.
Proof.
  intros Hi Hs. destruct (token_dec t) as [(id' & s & Hi' & Hs' & ->)|Hn].
  - rewrite !sess_token, take_token by done. cbn. destruct (decide (id' = id)) as [->|Hne].
    + rewrite lookup_insert_eq. case_bool_decide as Es.
      * subst s. by rewrite decide_True by done.
      * rewrite decide_False by (intros E; by apply token_inj in E). done.
    + rewrite lookup_insert_ne by done. rewrite decide_False; [done|]. intros E. apply Hne.
      rewrite <- (take_token id' s Hi'), <- (take_token id (wh_secret h) Hi). by rewrite E.
  - rewrite !Hn. rewrite decide_False; [by destruct (decide _)|]. intros ->. specialize (Hn (mkManager {[id := h]} 0)). rewrite sess_token in Hn by done.
    cbn in Hn. rewrite lookup_singleton_eq, bool_decide_true in Hn by done. done.
Qed.
Lemma sess_delete sm id t0 h t : getHandleFromTokenLocked sm t0 = Ok (id, h) ->
  sess (sm <| sm_walletHandles ::= delete id |>) t = if decide (t = t0) then None else sess sm t.
Proof.
  intros (Hi & Hs & -> & El)%getHandle_Ok. destruct (token_dec t) as [(id' & s & Hi' & Hs' & ->)|Hn].
  - rewrite !sess_token by done. cbn. destruct (decide (id' = id)) as [->|Hne].
    + rewrite lookup_delete_eq, El. case_bool_decide as Es; [by rewrite decide_True by (by rewrite Es)|]. by destruct (decide _).
    + rewrite lookup_delete_ne by done. rewrite decide_False; [done|]. intros E. apply Hne.
      rewrite <- (take_token id' s Hi'), <- (take_token id (wh_secret h) Hi). by rewrite E.
  - rewrite !Hn. by destruct (decide _).
Qed.

(** ** Histories *)

Inductive sevent :=
| EOpened (t : bytes) (w : SQLiteWallet) (now : Z)
| ERenewed (t : bytes) (now : Z)
| EReleased (t : bytes).

(** The wallet of a token and the time of its last opening or renewal, from the events,
    the newest first.  Opening a session with the identifier of another one ends that. *)
Fixpoint lastSession (h : list sevent) (t : bytes) : option (SQLiteWallet * Z) :=
  match h with
  | [] => None
  | EOpened t' w now :: h => if decide (t = t') then Some (w, now) else if decide (take 16 t = take 16 t') then None else lastSession h t
  | ERenewed t' now :: h => if decide (t = t') then (λ x, (x.1, now)) <$> lastSession h t else lastSession h t
  | EReleased t' :: h => if decide (t = t') then None else lastSession h t
  end.

Section Runs.
Context {R : Type} (L : KmdLib R) (cr : Crypto) `{!Msgpack typedPlaintext} `{!Msgpack encryptedDBBlob}.
Context `{!KmdLaws L} (env : weather) (seconds : Z -> Z) (life : Z).
Notation World := (World (R := R)).

(** The state of the manager and the world, with the time and the history so far. *)
Inductive sessions : Z -> list sevent -> Manager * World -> Prop :=
| ss_start secs w c : wrapS64 (wrap64 (secs * second)) = life -> sessions c [] (MakeManager secs, w)
| ss_open c h sm world w pw now t w' world' s' : sessions c h (sm, world) -> c <= now ->
    Init L cr env pw (w, world) = (Ok tt, (w', world')) ->
    InitWalletHandle L cr env w pw now (sm, world) = (Ok t, s') -> sessions now (EOpened t w' now :: h) s'
| ss_open_failed c h sm world w pw now e s' : sessions c h (sm, world) -> c <= now ->
    InitWalletHandle L cr env w pw now (sm, world) = (Err e, s') -> sessions now h s'
| ss_release c h sm world t sm' : sessions c h (sm, world) ->
    ReleaseWalletHandle t sm = (Ok tt, sm') -> sessions c (EReleased t :: h) (sm', world)
| ss_release_failed c h sm world t e sm' : sessions c h (sm, world) ->
    ReleaseWalletHandle t sm = (Err e, sm') -> sessions c h (sm', world)
| ss_auth c h sm world t renew now1 now2 now3 x sm' : sessions c h (sm, world) -> c <= now1 <= now2 -> now2 <= now3 ->
    authMaybeRenewWalletHandleToken seconds t renew now1 now2 now3 sm = (Ok x, sm') ->
    sessions now3 (if renew then ERenewed t now2 :: h else h) (sm', world)
| ss_auth_failed c h sm world t renew now1 now2 now3 e sm' : sessions c h (sm, world) -> c <= now1 <= now2 -> now2 <= now3 ->
    authMaybeRenewWalletHandleToken seconds t renew now1 now2 now3 sm = (Err e, sm') -> sessions now3 h (sm', world)
| ss_clean c h sm world now c' : sessions c h (sm, world) -> c <= c' -> (forall id, c <= now id <= c') ->
    sessions c' h (deleteExpiredHandles now sm, world)
| ss_wallets c h sm world world' : sessions c h (sm, world) -> sessions c h (sm, world').

(** What the manager knows agrees with the history, up to sessions that are over. *)
Definition agrees (c : Z) (h : list sevent) (sm : Manager) : Prop :=
  sm_sessionLifetime sm = life /\
  forall t, match lastSession h t with
            | None => sess sm t = None
            | Some (w, since) => sess sm t = Some (w, since + life) \/ sess sm t = None /\ since + life < c
            end.

Lemma agrees_later c c' h sm : c <= c' -> agrees c h sm -> agrees c' h sm.
Proof. intros Hc [Hl H]. split; [done|]. intros t. specialize (H t). destruct (lastSession h t) as [[w since]|]; [|done]. destruct H as [?|[? ?]]; [by left|right; split; [done|lia]]. Qed.

Lemma open_cases w pw now sm world r s' : InitWalletHandle L cr env w pw now (sm, world) = (r, s') ->
  match r with
  | Ok t => exists w' world' id secret, Init L cr env pw (w, world) = (Ok tt, (w', world')) /\ hexID id /\ hexSecret secret /\ t = token id secret
              /\ s'.1 = sm <| sm_walletHandles ::= <[id := mkWalletHandle secret (now + sm_sessionLifetime sm) w']> |>
  | _ => s'.1 = sm
  end.
Proof.
  unfold InitWalletHandle. destruct (Init L cr env pw (w, world)) as [[[]|e|p] [w' world']]; [|by intros [= <- <-]..].
  unfold generateHandleIDAndSecret, randBytes, mbind, M_bind, mret, M_ret.
  pose proof (kl_rand_len (zeros wHandleIDBytes) (w_rng world')) as Hl1. pose proof (kl_rand_bytes (zeros wHandleIDBytes) (w_rng world')) as Hb1.
  destruct (kl_randRead L (zeros wHandleIDBytes) (w_rng world')) as [[[] b1] r1]; [|by intros [= <- <-]]. cbn [w_rng].
  pose proof (kl_rand_len (zeros wHandleSecretBytes) r1) as Hl2. pose proof (kl_rand_bytes (zeros wHandleSecretBytes) r1) as Hb2.
  destruct (kl_randRead L (zeros wHandleSecretBytes) r1) as [[[] b2] r2]; [|by intros [= <- <-]]. intros [= <- <-]. cbn [fst snd] in Hl1, Hb1, Hl2, Hb2.
  change (length (zeros wHandleIDBytes)) with 8%nat in Hl1. change (length (zeros wHandleSecretBytes)) with 32%nat in Hl2.
  destruct (hexEncode_hex b1 (Hb1 eq_refl)), (hexEncode_hex b2 (Hb2 eq_refl)).
  exists w', world', (codes (hexEncode b1)), (codes (hexEncode b2)). split_and!; [done|split; [lia|done]|split; [lia|done]|done|done].
Qed.

Lemma agrees_open c h sm w id secret now : agrees c h sm -> hexID id -> hexSecret secret ->
  agrees c (EOpened (token id secret) w now :: h) (sm <| sm_walletHandles ::= <[id := mkWalletHandle secret (now + life) w]> |>).
Proof.
  intros [Hl H] Hi Hs. split; [done|]. intros t. rewrite sess_insert by done. cbn. rewrite take_token by done.
  destruct (decide (t = token id secret)); [by left|]. destruct (decide (take 16 t = id)); [done|]. apply H.
Qed.

Lemma agrees_gone c h sm t0 id hd : agrees c h sm -> getHandleFromTokenLocked sm t0 = Ok (id, hd) ->
  agrees c (EReleased t0 :: h) (sm <| sm_walletHandles ::= delete id |>).
Proof.
  intros [Hl H] Hg. split; [done|]. intros t. rewrite (sess_delete sm id t0 hd) by done. cbn. destruct (decide (t = t0)); [done|]. apply H.
Qed.

(** The session behind a token that the manager knows. *)
Lemma agrees_known c h sm t id hd : agrees c h sm -> getHandleFromTokenLocked sm t = Ok (id, hd) ->
  exists since, lastSession h t = Some (wh_wallet hd, since) /\ wh_expires hd = since + life.
Proof.
  intros [_ H] Hg. specialize (H t). unfold sess in H. rewrite Hg in H. destruct (lastSession h t) as [[w since]|]; [|done].
  destruct H as [[= <- He]|[? _]]; [|done]. eauto.
Qed.
Lemma sess_other sm t0 id hd t : getHandleFromTokenLocked sm t0 = Ok (id, hd) -> take 16 t = id -> t <> t0 -> sess sm t = None.
Proof.
  intros (Hi & Hs & -> & El)%getHandle_Ok Ht Hne. destruct (token_dec t) as [(id' & s & Hi' & Hs' & ->)|Hn]; [|done].
  rewrite take_token in Ht by done. subst id'. rewrite sess_token, El by done. rewrite bool_decide_false; [done|]. by intros ->.
Qed.

Lemma agrees_renew c h sm t0 id hd now : agrees c h sm -> getHandleFromTokenLocked sm t0 = Ok (id, hd) ->
  agrees c (ERenewed t0 now :: h) (sm <| sm_walletHandles ::= <[id := hd <| wh_expires := now + life |>]> |>).
Proof.
  intros Ha Hg. destruct (agrees_known _ _ _ _ _ _ Ha Hg) as (since & El & _). pose proof Hg as (Hi & Hs & Et & _)%getHandle_Ok.
  destruct Ha as [Hl H]. split; [done|]. intros t. rewrite sess_insert by done. cbn. rewrite <- Et.
  destruct (decide (t = t0)) as [->|Hne]; [rewrite El; by left|]. destruct (decide (take 16 t = id)) as [Hid|]; [|apply H].
  specialize (H t). rewrite (sess_other sm t0 id hd t) in H by done. destruct (lastSession h t) as [[w s]|]; [|done]. by destruct H as [?|?]; [|right].
Qed.

Lemma agrees_expired c h sm t0 id hd now : agrees c h sm -> c <= now -> getHandleFromTokenLocked sm t0 = Ok (id, hd) -> wh_expires hd < now ->
  agrees now h (sm <| sm_walletHandles ::= delete id |>).
Proof.
  intros Ha Hc Hg He. destruct (agrees_known _ _ _ _ _ _ Ha Hg) as (since & El & Ee). apply (agrees_later c now) in Ha as [Hl H]; [|done].
  split; [done|]. intros t. rewrite (sess_delete sm id t0 hd) by done. destruct (decide (t = t0)) as [->|]; [|apply H]. rewrite El. right. split; [done|lia].
Qed.

Lemma agrees_clean c h sm now c' : agrees c h sm -> c <= c' -> (forall id, c <= now id <= c') -> agrees c' h (deleteExpiredHandles now sm).
Proof.
  intros [Hl H] Hc Hnow. split; [done|]. intros t. specialize (H t).
  assert (sess (deleteExpiredHandles now sm) t = sess sm t \/ exists w e, sess sm t = Some (w, e) /\ sess (deleteExpiredHandles now sm) t = None /\ e < c') as Hs.
  { destruct (token_dec t) as [(id & s & Hi & Hsec & ->)|Hn]; [|left; by rewrite !Hn]. rewrite !sess_token by done. unfold deleteExpiredHandles. cbn.
    destruct (sm_walletHandles sm !! id) as [hd|] eqn:El.
    - unfold checkHandleNotExpired, guardR. destruct (Z.ltb_spec (wh_expires hd) (now id)) as [Hlt|Hge].
      + rewrite map_lookup_filter_None_2; [|right; intros x [= <-]%(eq_trans (eq_sym El)); cbn; rewrite (proj2 (Z.ltb_lt _ _)) by done; done].
        case_bool_decide; [right|by left]. do 2 eexists. split_and!; [done..|]. specialize (Hnow id). lia.
      + rewrite (map_lookup_filter_Some_2 _ _ _ hd); [by left|done|]. cbn. by rewrite (proj2 (Z.ltb_ge _ _)).
    - left. rewrite map_lookup_filter_None_2; [done|by left]. }
  destruct Hs as [->|(w & e & Es & -> & He)].
  - destruct (lastSession h t) as [[w since]|]; [|done]. destruct H as [?|[? ?]]; [by left|right; split; [done|lia]].
  - rewrite Es in H. destruct (lastSession h t) as [[w' since]|]; [|done]. destruct H as [[= -> ->]|[? _]]; [|done]. right. done.
Qed.

Lemma auth_cases t renew now1 now2 now3 sm r sm' : authMaybeRenewWalletHandleToken seconds t renew now1 now2 now3 sm = (r, sm') ->
  match r with
  | Ok (w, _) => exists id hd, getHandleFromTokenLocked sm t = Ok (id, hd) /\ now1 <= wh_expires hd /\ wh_wallet hd = w
      /\ sm' = (if renew then sm <| sm_walletHandles ::= <[id := hd <| wh_expires := now2 + sm_sessionLifetime sm |>]> |> else sm)
  | Err _ => sm' = sm /\ (forall x, getHandleFromTokenLocked sm t <> Ok x)
      \/ exists id hd, getHandleFromTokenLocked sm t = Ok (id, hd) /\ wh_expires hd < now1 /\ sm' = sm <| sm_walletHandles ::= delete id |>
  | Panic _ => False
  end.
Proof.
  unfold authMaybeRenewWalletHandleToken. pose proof (getHandle_nopanic sm t) as Hp.
  destruct (getHandleFromTokenLocked sm t) as [[id hd]|e|p]; [|intros [= <- <-]; by left|by destruct (Hp p)].
  unfold checkHandleNotExpired, guardR. destruct (Z.ltb_spec (wh_expires hd) now1) as [Hlt|Hge]; cbn.
  - intros [= <- <-]. right. eauto 10.
  - destruct renew; intros [= <- <-]; eauto 10.
Qed.

Lemma sessions_agree c h s : sessions c h s -> agrees c h s.1.
Proof.
  induction 1 as [secs w c Hl|c h sm world w pw now t w' world' s' _ IH Hc Hi E|c h sm world w pw now e s' _ IH Hc E|c h sm world t sm' _ IH E|c h sm world t e sm' _ IH E
    |c h sm world t renew now1 now2 now3 x sm' _ IH Hc1 Hc2 E|c h sm world t renew now1 now2 now3 e sm' _ IH Hc1 Hc2 E|c h sm world now c' _ IH Hc Hnow|c h sm world world' _ IH]; cbn [fst] in *.
  - split; [done|]. intros t. cbn. destruct (token_dec t) as [(id & sec & Hi & Hs & ->)|Hn]; [|done]. rewrite sess_token by done. cbn. by rewrite lookup_empty.
  - apply open_cases in E as (w1 & world1 & id & secret & Ei & Hid & Hsec & -> & ->). rewrite Hi in Ei. injection Ei as <- <-.
    pose proof (proj1 IH) as Hl. rewrite Hl. apply (agrees_open now h sm); [by eapply agrees_later|done|done].
  - apply open_cases in E as ->. by eapply agrees_later.
  - unfold ReleaseWalletHandle in E. destruct (getHandleFromTokenLocked sm t) as [[id hd]| |] eqn:Eg; [|done..]. injection E as <-. by eapply agrees_gone.
  - unfold ReleaseWalletHandle in E. destruct (getHandleFromTokenLocked sm t) as [[id hd]| |] eqn:Eg; [done| |done]. by injection E as _ <-.
  - apply auth_cases in E. destruct x as [w secs]. destruct E as (id & hd & Eg & He & _ & ->). pose proof (proj1 IH) as Hl. rewrite Hl.
    apply (agrees_later c now3) in IH; [|lia]. destruct renew; [by apply agrees_renew|done].
  - apply auth_cases in E as [[-> _]|(id & hd & Eg & He & ->)]; [eapply agrees_later; [|done]; lia|].
    eapply (agrees_later now1); [lia|]. eapply agrees_expired; [done|lia|done|done].
  - by eapply agrees_clean.
  - done.
Qed.

(** C39: A token opens the wallet of its session, and only while the session lasts.  After
    any run of the manager, with times that do not go back, a token is accepted exactly
    when the history says so: it was returned for this wallet, it was neither released
    nor displaced by a session with its identifier since, and it is used no later than
    the lifetime after it was last opened or renewed.  Cleaning up expired handles
    changes no answer, and nothing panics. *)
Theorem session_tokens c h sm (world : World) t renew now1 now2 now3 w :
  sessions c h (sm, world) -> c <= now1 ->
  let r := (authMaybeRenewWalletHandleToken seconds t renew now1 now2 now3 sm).1 in
  is_panic r = false /\
  ((exists secs, r = Ok (w, secs)) <-> exists since, lastSession h t = Some (w, since) /\ now1 <= since + life).
Proof.
  intros Hs Hc. apply sessions_agree in Hs as Ha. cbn in Ha. pose proof (auth_cases t renew now1 now2 now3 sm) as Hcases. cbn zeta.
  destruct (authMaybeRenewWalletHandleToken seconds t renew now1 now2 now3 sm) as [[[w' secs]|e|p] sm']; cbn [fst]; specialize (Hcases _ _ eq_refl); cbn in Hcases; [| |done].
  - split; [done|]. destruct Hcases as (id & hd & Eg & He & <- & _). destruct (agrees_known _ _ _ _ _ _ Ha Eg) as (since & El & Ee). rewrite El. split.
    + intros [? [= <- _]]. exists since. split; [done|lia].
    + intros (s & [= <- <-] & _). eauto.
  - split; [done|]. split; [by intros [? ?]|]. intros (since & El & Hle). exfalso. destruct Hcases as [[_ Hno]|(id & hd & Eg & He & _)].
    + destruct Ha as [_ Ha]. specialize (Ha t). rewrite El in Ha. destruct Ha as [Hss|[_ ?]]; [|lia]. apply sess_Some in Hss as (id & hd & Eg & _). by eapply Hno.
    + destruct (agrees_known _ _ _ _ _ _ Ha Eg) as (s & El' & Ee). rewrite El in El'. injection El' as _ Es. lia.
Qed.
End Runs.

Module SessionWitness.
Import WalletWitness.
Definition life0 : Z := 60 * second.
Definition secondsOf (d : Z) : Z := Z.quot d second.
Definition s0 : Manager * World (R := nat) := (MakeManager 60, fetched1.2).
Definition open1 := InitWalletHandle lib cr calm sw0 pw 1000 s0.
Definition tok : bytes := match open1.1 with Ok t => t | _ => [] end.
Example tok_is : tok = token (codes (hexEncode (replicate 8 7))) (codes (hexEncode (replicate 32 8))).
Proof. vm_compute. reflexivity. Qed.
Definition renew1 := RenewWalletHandleToken secondsOf tok (50 * second) (50 * second) (50 * second) open1.2.1.
Definition history : list sevent := [ERenewed tok (50 * second); EOpened tok sw 1000].

Lemma run0 : sessions lib cr calm secondsOf life0 (50 * second) history (renew1.2, open1.2.2).
Proof.
  apply (ss_auth lib cr calm secondsOf life0 1000 [EOpened tok sw 1000] open1.2.1 open1.2.2 tok true (50 * second) (50 * second) (50 * second) (sw, 60)).
  - apply (ss_open lib cr calm secondsOf life0 0 [] (MakeManager 60) fetched1.2 sw0 pw 1000 tok sw opened1.2.2).
    + apply ss_start. vm_compute. reflexivity.
    + done.
    + vm_compute. reflexivity.
    + vm_compute. reflexivity.
  - unfold second. lia.
  - lia.
  - vm_compute. reflexivity.
Qed.

(** After 110 seconds the renewed token is accepted, with the wallet that was opened. *)
Lemma session_tokens_witness : exists secs,
  (authMaybeRenewWalletHandleToken secondsOf tok false (110 * second) (110 * second) (110 * second) renew1.2).1 = Ok (sw, secs).
Proof.
  apply (session_tokens lib cr calm secondsOf life0 (50 * second) history renew1.2 open1.2.2 tok false (110 * second) (110 * second) (110 * second) sw run0).
  - unfold second. lia.
  - exists (50 * second). split; [vm_compute; reflexivity|unfold life0, second; lia].
Defined.

(** One nanosecond later it is not, and its handle is removed. *)
Example token_expires :
  let r := AuthWithWalletHandleToken secondsOf tok (110 * second + 1) (110 * second + 1) (110 * second + 1) renew1.2 in
  r.1 = Err (Errorf "handle expired") /\ sm_walletHandles r.2 = ∅.
Proof. vm_compute. split; reflexivity. Qed.

(** A lifetime of more than 2^63 nanoseconds wraps around: sessions are over when they
    start. *)
Example lifetime_wraps : sm_sessionLifetime (MakeManager 9223372037) < 0.
Proof. vm_compute. reflexivity. Qed.
End SessionWitness.
