(* ===== verification/Pseudonode.v ===== *)
(** The pseudonode, which turns the player's wishes into signed votes and proposals
    (src/agreement/pseudonode.go).

    One goroutine executes the tasks that make votes and another the tasks that make
    proposals, one after the other in the order of their queues.  A task that makes votes
    waits for a channel before it hands them over.  The functions here are the stretches
    between two communications; [Service] interleaves them.  Names of channels are
    numbers.  Votes are signed with [sign], the agreement protocol's view of a one-time
    signature; cancellation by a context is part of shutting down and is left out. *)

From S2P Require Import Prelude Config Basics Transactions Bookkeeping Eval Agreement VoteTracker ProposalTracker Router Machines Player OneTimeSig Participation.

Definition pseudonodeVerificationBacklog : Z := 32.
Definition errPseudonodeBacklogFull : error := Errorf "pseudonode input channel is full".
Definition errPseudonodeNoVotes : error := Errorf "no valid participation keys to generate votes for given round".
Definition errPseudonodeNoProposals : error := Errorf "no valid participation keys to generate proposals for given round".

Record pseudonodeVotesTask := mkVotesTask {
  vt_participation : list Participation;
  vt_out : nat;
  vt_round : Round;
  vt_period : period;
  vt_step : step;
  vt_prop : proposalValue;
  vt_persistStateDone : nat
}.
Record pseudonodeProposalsTask := mkProposalsTask {
  pt_participation : list Participation;
  pt_out : nat;
  pt_round : Round;
  pt_period : period
}.

(** Where a verifier goroutine is in a task: it waits for the state to be on disk, or it
    pushes the events that are left. *)
Inductive votesStage := AwaitPersist (verified : list message) | PushVotes (events : list messageEvent).

Record asyncPseudonode := mkPseudonode {
  pn_votesTasks : list pseudonodeVotesTask;
  pn_votes : option (pseudonodeVotesTask * votesStage);
  pn_proposalsTasks : list pseudonodeProposalsTask;
  pn_proposals : option (pseudonodeProposalsTask * list messageEvent)
}.
#[export] Instance asyncPseudonode_eta : Eta asyncPseudonode := λ r,
  mkPseudonode (pn_votesTasks r) (pn_votes r) (pn_proposalsTasks r) (pn_proposals r).
Definition makePseudonode : asyncPseudonode := mkPseudonode [] None [] None.

Definition getParticipations (keys : list Participation) (round : Round) : list Participation :=
  List.filter (λ part, let '(firstValid, lastValid) := ValidInterval part in negb ((round <? firstValid) || (lastValid <? round))) keys.

(** ** Asking for votes and proposals *)

(** The task, or why there is none; [keys] is what the key manager holds. *)
Definition MakeVotes (keys : list Participation) (out : nat) (r : Round) (p : period) (s : step) (prop : proposalValue) (persistStateDone : nat)
    (n : asyncPseudonode) : result asyncPseudonode :=
  let participation := getParticipations keys r in
  if zlen participation =? 0 then Err errPseudonodeNoVotes
  else if zlen (pn_votesTasks n) <? pseudonodeVerificationBacklog
  then Ok (n <| pn_votesTasks ::= λ l, l ++ [mkVotesTask participation out r p s prop persistStateDone] |>)
  else Err errPseudonodeBacklogFull.

Definition MakeProposals (keys : list Participation) (out : nat) (r : Round) (p : period) (n : asyncPseudonode) : result asyncPseudonode :=
  let participation := getParticipations keys r in
  if zlen participation =? 0 then Err errPseudonodeNoProposals
  else if zlen (pn_proposalsTasks n) <? pseudonodeVerificationBacklog
  then Ok (n <| pn_proposalsTasks ::= λ l, l ++ [mkProposalsTask participation out r p] |>)
  else Err errPseudonodeBacklogFull.

(** ** Making them *)

Section Make.
Variable ac : AgreeCrypto.
Variable sign : OneTimeSignatureSecrets -> Z * Z -> rawVote -> bytes.

Definition voteOfPart (part : Participation) (rv : rawVote) (l : LedgerReader) : result unauthenticatedVote :=
  makeVote ac rv (Signer_KeyDilution (VotingSigner part)) (sign (osr_Secrets (VotingSigner part))) (part_VRF part).2 l.

Fixpoint makeVotes (round : Round) (per : period) (s : step) (proposal : proposalValue) (participation : list Participation)
    (l : LedgerReader) : result (list unauthenticatedVote) :=
  match participation with
  | [] => Ok []
  | part :: rest =>
    match voteOfPart part (mkRawVote (part_Parent part) round per s proposal) l with
    | Ok uv => votes ← makeVotes round per s proposal rest l; Ok (uv :: votes)
    | Err _ => makeVotes round per s proposal rest l
    | Panic m => Panic m
    end
  end.

Fixpoint proposalsLoop (round : Round) (per : period) (ve : Block) (accounts : list Participation) (l : LedgerReader)
    : result (list (unauthenticatedProposal * unauthenticatedVote)) :=
  match accounts with
  | [] => Ok []
  | account :: rest =>
    match proposalForBlock ac (part_Parent account) (part_VRF account).2 ve per l with
    | Err _ => proposalsLoop round per ve rest l
    | Panic m => Panic m
    | Ok (payload, proposal) =>
      match voteOfPart account (mkRawVote (part_Parent account) round per propose proposal) l with
      | Err _ => proposalsLoop round per ve rest l
      | Panic m => Panic m
      | Ok uv => r ← proposalsLoop round per ve rest l; Ok ((payload, uv) :: r)
      end
    end
  end.
(** [assembled] is what the block factory answers. *)
Definition makeProposals (round : Round) (per : period) (assembled : result Block) (accounts : list Participation) (l : LedgerReader)
    : result (list (unauthenticatedProposal * unauthenticatedVote)) :=
  match assembled with
  | Ok ve => proposalsLoop round per ve accounts l
  | Err _ => Ok []
  | Panic m => Panic m
  end.

(** The verifier's answer for a vote of our own: its message with the verified vote, or
    nothing when verification refuses it, as it does for an account that is not selected.
    The answers are put back in the order of the requests. *)
Definition verifyOwn (uv : unauthenticatedVote) (l : LedgerReader) : result (option message) :=
  match vote_verify ac uv l with
  | Ok v => Ok (Some (message_zero <| msg_Tag := AgreementVoteTag |> <| msg_UnauthenticatedVote := uv |> <| msg_Vote := v |>))
  | Err _ => Ok None
  | Panic m => Panic m
  end.
Fixpoint verifyAllOwn {A} (f : A -> unauthenticatedVote) (l : LedgerReader) (xs : list A) : result (list (A * message)) :=
  match xs with
  | [] => Ok []
  | x :: xs =>
    o ← verifyOwn (f x) l;
    r ← verifyAllOwn f l xs;
    Ok (match o with Some m => (x, m) :: r | None => r end)
  end.

Definition noVersion : ConsensusVersionView := mkConsensusVersionView None "".
Definition voteEvent (m : message) : messageEvent := mkMessageEvent voteVerified m None 0 None false noVersion.
Definition payloadEvent (p : unauthenticatedProposal) : messageEvent :=
  mkMessageEvent payloadVerified
    (message_zero <| msg_Tag := ProposalPayloadTag |> <| msg_UnauthenticatedProposal := p |> <| msg_Proposal := p |>) None 0 None false noVersion.

(** [execute] of a task that makes votes, up to where it waits. *)
Definition votesTask_execute (t : pseudonodeVotesTask) (l : LedgerReader) : result votesStage :=
  unverified ← makeVotes (vt_round t) (vt_period t) (vt_step t) (vt_prop t) (vt_participation t) l;
  verified ← verifyAllOwn id l unverified;
  Ok (match verified.*2 with [] => PushVotes [] | m :: ms => AwaitPersist (m :: ms) end).
(** [execute] of a task that makes proposals, up to the events it pushes: the votes
    first, then the payloads. *)
Definition proposalsTask_execute (t : pseudonodeProposalsTask) (assembled : result Block) (l : LedgerReader) : result (list messageEvent) :=
  made ← makeProposals (pt_round t) (pt_period t) assembled (pt_participation t) l;
  verified ← verifyAllOwn snd l made;
  Ok ((voteEvent <$> verified.*2) ++ (payloadEvent <$> verified.*1.*1)).
End Make.
