(* ===== verification/Persistence.v ===== *)
(** The crash database of the agreement service (src/agreement/persistence.go, the action
    types of actions.go).

    The table has at most one row, the encoded state.  [Raw] is the type of encoded
    values, byte strings in the program; the codec is a parameter, the class
    [DiskCodec], and what the theorems use of it is [DiskLaws].  Whether a statement of
    the database succeeds is an argument. *)

From S2P Require Import Prelude Config Basics Transactions Bookkeeping Eval Agreement VoteTracker ProposalTracker Router Machines Player.

(** ** Action types *)

Definition action_t (a : action) : Z :=
  match a with
  | NetworkAction a => match na_T a with ignore => 1 | broadcast => 2 | relay => 3 | disconnect => 4 | broadcastVotes => 5 end
  | CryptoAction a => match ca_T a with verifyVote => 6 | verifyPayload => 7 | verifyBundle => 8 end
  | EnsureAction _ _ _ => 9
  | RezeroAction _ => 10
  | PseudonodeAction a => match psa_T a with attest => 11 | assemble => 12 | repropose => 13 end
  | CheckpointAction _ _ _ _ _ => 14
  end.

(** The Go type that a stored action is decoded into. *)
Inductive actionKind := KNoop | KNetwork | KCrypto | KEnsure | KRezero | KPseudonode | KCheckpoint.
Definition zeroAction (t : Z) : result actionKind :=
  if t =? 0 then Ok KNoop
  else if (1 <=? t) && (t <=? 5) then Ok KNetwork
  else if (6 <=? t) && (t <=? 8) then Ok KCrypto
  else if t =? 9 then Ok KEnsure
  else if t =? 10 then Ok KRezero
  else if (11 <=? t) && (t <=? 13) then Ok KPseudonode
  else if t =? 14 then Ok KCheckpoint
  else Panic "bad action type".

Definition act_persistent (a : action) : bool :=
  match a with PseudonodeAction a => match psa_T a with attest => true | _ => false end | _ => false end.
Definition persistent (acts : list action) : bool := existsb act_persistent acts.

(** ** Encoding *)

Record diskState (Raw : Type) := mkDiskState {
  ds_Router : Raw;
  ds_Player : Raw;
  ds_Clock : Raw;
  ds_ActionTypes : list Z;
  ds_Actions : list Raw
}.
Arguments mkDiskState {Raw}.
Arguments ds_Router {Raw}.
Arguments ds_Player {Raw}.
Arguments ds_Clock {Raw}.
Arguments ds_ActionTypes {Raw}.
Arguments ds_Actions {Raw}.

(** A clock is the time of its zero. *)
Class DiskCodec (Raw : Type) := {
  encDisk : diskState Raw -> Raw;
  decDisk : Raw -> option (diskState Raw);
  encRouter : rootRouter -> Raw;
  decRouter : Raw -> option rootRouter;
  encPlayer : player -> Raw;
  decPlayer : Raw -> option player;
  encClock : Z -> Raw;
  decClock : Raw -> option Z;
  encAction : action -> Raw;
  decAction : actionKind -> Raw -> option action
}.

Definition errDecode : error := Errorf "msgpack decode error".
Definition orDecodeErr {A} (o : option A) : result A := match o with Some a => Ok a | None => Err errDecode end.
Definition player_zero : player := mkPlayer 0 0 0 0 0 false 0 proposalTable_zero.

Section Persistence.
Context {Raw : Type} `{!DiskCodec Raw}.

(** The functions [encode] and [decode] of the source. *)
Definition encodeState (t : Z) (rr : rootRouter) (p : player) (a : list action) : Raw :=
  encDisk (mkDiskState (encRouter rr) (encPlayer p) (encClock t) (action_t <$> a) (encAction <$> a)).

Fixpoint decodeActions (types : list Z) (raws : list Raw) : result (list action) :=
  match raws with
  | [] => Ok []
  | raw :: raws =>
    match types with
    | [] => Panic "index out of range"
    | t :: types =>
      kind ← zeroAction t;
      a ← orDecodeErr (decAction kind raw);
      r ← decodeActions types raws;
      Ok (a :: r)
    end
  end.
Definition decodeState (raw : Raw) : result (Z * rootRouter * player * list action) :=
  s ← orDecodeErr (decDisk raw);
  t2 ← orDecodeErr (decClock (ds_Clock s));
  p2 ← orDecodeErr (decPlayer (ds_Player s));
  rr2 ← orDecodeErr (decRouter (ds_Router s));
  a2 ← decodeActions (ds_ActionTypes s) (ds_Actions s);
  Ok (t2, rr2, p2, a2).

(** ** The table: absent, empty, or with its row *)

Definition CrashDB : Type := option (option Raw).

Definition persist (ok : bool) (raw : Raw) (db : CrashDB) : option error * CrashDB :=
  match db with
  | Some _ => if ok then (None, Some (Some raw)) else (Some (Errorf "sqlite error"), db)
  | None => (Some (Errorf "no such table: Service"), db)
  end.

Definition reset (ok : bool) (db : CrashDB) : CrashDB :=
  match db with Some _ => if ok then Some None else db | None => None end.

(** The table is created when it does not exist; that this fails when it does is ignored.
    The deletion inside the reading transaction is rolled back with it, because the
    transaction returns an error whenever it deletes. *)
Definition restore (installs reads : bool) (db : CrashDB) : result Raw * CrashDB :=
  let db := match db with None => if installs then Some None else None | Some _ => db end in
  (match db with
   | None => Err (Errorf "no such table: Service")
   | Some None => Err (Errorf "restore (agreement): crash state not found")
   | Some (Some raw) => if reads then Ok raw else Err (Errorf "sqlite error")
   end, db).
End Persistence.
Arguments CrashDB : clear implicits.

(** ** What survives encoding

    Handles of messages and completion channels mean nothing to another process: the
    codec keeps everything but them. *)

Definition message_forget (m : message) : message := m <| msg_MessageHandle := 0 |>.
Fixpoint event_forget (e : messageEvent) : messageEvent :=
  match e with
  | mkMessageEvent T i err k tail c v =>
    mkMessageEvent T (message_forget i) err k (match tail with Some e' => Some (event_forget e') | None => None end) c v
  end.
Definition player_forget (p : player) : player :=
  p <| pl_Pending ::= λ t, mkProposalTable (option_map event_forget <$> tbl_Pending t) (tbl_PendingNext t) |>.
Definition action_forget (a : action) : action :=
  match a with
  | NetworkAction a => NetworkAction (a <| na_h := 0 |>)
  | CryptoAction a => CryptoAction (mkCryptoAction (ca_T a) (message_forget (ca_M a)) (ca_Round a) (ca_Period a) (ca_Pinned a) (ca_TaskIndex a))
  | CheckpointAction r per s err _ => CheckpointAction r per s err None
  | a => a
  end.
Definition action_done (a : action) : option nat := match a with CheckpointAction _ _ _ _ done => done | _ => None end.
Definition kindOf (a : action) : actionKind :=
  match a with
  | NetworkAction _ => KNetwork
  | CryptoAction _ => KCrypto
  | EnsureAction _ _ _ => KEnsure
  | RezeroAction _ => KRezero
  | PseudonodeAction _ => KPseudonode
  | CheckpointAction _ _ _ _ _ => KCheckpoint
  end.

Class DiskLaws (Raw : Type) `{!DiskCodec Raw} := {
  dl_disk : forall d, decDisk (encDisk d) = Some d;
  dl_router : forall rr, decRouter (encRouter rr) = Some rr;
  dl_clock : forall t, decClock (encClock t) = Some t;
  dl_player : forall p, exists p', decPlayer (encPlayer p) = Some p' /\ player_forget p' = player_forget p;
  dl_action : forall a, exists a', decAction (kindOf a) (encAction a) = Some a' /\ action_forget a' = action_forget a /\ action_done a' = None
}.

Lemma zeroAction_t a : zeroAction (action_t a) = Ok (kindOf a).
Proof. destruct a as [a|a|? ? ?|?|a|? ? ? ? ?]; try done; cbn; [destruct (na_T a)|destruct (ca_T a)|destruct (psa_T a)]; done. Qed.

Section Roundtrip.
Context {Raw : Type} `{!DiskCodec Raw} `{!DiskLaws Raw}.

Lemma decodeActions_encode acts : exists acts', decodeActions (action_t <$> acts) (encAction <$> acts) = Ok acts' /\ action_forget <$> acts' = action_forget <$> acts /\
  Forall (λ a, action_done a = None) acts'.
Proof.
  induction acts as [|a acts IH]; [by exists []|]. destruct IH as (r & Er & Ef & Hd), (dl_action a) as (a' & Ea & Eaf & Had).
  exists (a' :: r). cbn. rewrite zeroAction_t. cbn. rewrite Ea. cbn. rewrite Er. cbn. rewrite Eaf, Ef. split_and!; try done. by constructor.
Qed.

(** A stored state is read back up to what does not survive. *)
Lemma decodeState_encode t rr p acts : exists p' acts', decodeState (encodeState t rr p acts) = Ok (t, rr, p', acts') /\
  player_forget p' = player_forget p /\ action_forget <$> acts' = action_forget <$> acts /\ Forall (λ a, action_done a = None) acts'.
Proof.
  destruct (dl_player p) as (p' & Ep & Hp), (decodeActions_encode acts) as (acts' & Ea & Ha). exists p', acts'. split; [|done].
  unfold decodeState, encodeState. rewrite dl_disk. cbn. rewrite dl_clock. cbn. rewrite Ep. cbn. rewrite dl_router. cbn. by rewrite Ea.
Qed.
End Roundtrip.
