(* ===== verification/Service.v ===== *)
(** The agreement service around the player (src/agreement/{service,demux,actions}.go, the
    persistence loop of persistence.go).

    The goroutines [mainLoop] and [demuxLoop] take turns over unbuffered channels: the
    first turns an event into actions, the second executes them one by one and then asks
    the demultiplexer for the next event.  They are one thread of control here, whose
    place is the list of actions left and whether it is blocked in [Enqueue].  The
    persistence loop and the two goroutines of the pseudonode run beside it.  [node_step]
    interleaves the stretches of code between their communications, with a ledger that
    grows, a process that may crash at any point and start again, and a crash database
    and network whose calls may fail.

    A channel is a number.  Timers are not modelled: a timeout may arrive at any moment.
    Nor is the verifier of messages: any message may arrive as present or verified.
    Logs, telemetry, queue monitors and shutting down in an orderly way are left out. *)

From S2P Require Import Prelude Config Basics Transactions Bookkeeping Eval Agreement VoteTracker ProposalTracker Router Machines Player OneTimeSig Participation Pseudonode Persistence.

(** ** State *)

Record persistentRequest (Raw : Type) := mkRequest {
  pq_round : Round;
  pq_period : period;
  pq_step : step;
  pq_raw : Raw;
  pq_done : nat;
  pq_events : nat
}.
Arguments mkRequest {Raw}.
Arguments pq_round {Raw}.
Arguments pq_period {Raw}.
Arguments pq_step {Raw}.
Arguments pq_raw {Raw}.
Arguments pq_done {Raw}.
Arguments pq_events {Raw}.

(** A channel of events: what is in its buffer, and whether it is closed. *)
Record eventChan := mkEventChan { ch_buf : list input; ch_closed : bool }.

Record Service (Raw : Type) := mkService {
  s_Clock : Z;
  s_status : player;                                      (* of mainLoop *)
  s_router : rootRouter;
  s_persistRouter : rootRouter;
  s_persistStatus : player;
  s_persistActions : list action;
  s_todo : list action;                                   (* of demuxLoop *)
  s_enqueueing : option (persistentRequest Raw * nat);    (* blocked in Enqueue, with the channel of the votes *)
  s_queue : list nat;                                     (* of the demux *)
  s_chans : gmap nat eventChan;
  s_dones : gmap nat bool;                                (* the persistStateDone channels: closed or not *)
  s_pending : option (persistentRequest Raw);             (* of the persistence loop: its channel, of capacity 1 *)
  s_storing : option (persistentRequest Raw);             (* the request it works on *)
  s_loopback : asyncPseudonode;
  s_fresh : nat                                           (* the next name of a channel *)
}.
Arguments mkService {Raw}.
Arguments s_Clock {Raw}.
Arguments s_status {Raw}.
Arguments s_router {Raw}.
Arguments s_persistRouter {Raw}.
Arguments s_persistStatus {Raw}.
Arguments s_persistActions {Raw}.
Arguments s_todo {Raw}.
Arguments s_enqueueing {Raw}.
Arguments s_queue {Raw}.
Arguments s_chans {Raw}.
Arguments s_dones {Raw}.
Arguments s_pending {Raw}.
Arguments s_storing {Raw}.
Arguments s_loopback {Raw}.
Arguments s_fresh {Raw}.
#[export] Instance Service_eta {Raw} : Eta (Service Raw) := λ r,
  mkService (s_Clock r) (s_status r) (s_router r) (s_persistRouter r) (s_persistStatus r) (s_persistActions r) (s_todo r)
    (s_enqueueing r) (s_queue r) (s_chans r) (s_dones r) (s_pending r) (s_storing r) (s_loopback r) (s_fresh r).

(** What the service tells the rest of the node. *)
Inductive output :=
| Broadcast (tag : string) (o : option payloadObject)
| Relay (h : Z) (tag : string) (o : option payloadObject)
| Disconnect (h : Z)
| Verify (a : cryptoAction)
| Ensure (c : Certificate).

(** A node: the crash database, the ledger's [NextRound] and the first of its rounds that
    is not yet on disk, the running process, the votes that the pseudonode has handed
    over, and the outputs. *)
Record Node (Raw : Type) := mkNode {
  n_crash : CrashDB Raw;
  n_NextRound : Round;
  n_durable : Round;
  n_service : option (Service Raw);
  n_sent : list unauthenticatedVote;
  n_outputs : list output
}.
Arguments mkNode {Raw}.
Arguments n_crash {Raw}.
Arguments n_NextRound {Raw}.
Arguments n_durable {Raw}.
Arguments n_service {Raw}.
Arguments n_sent {Raw}.
Arguments n_outputs {Raw}.
#[export] Instance Node_eta {Raw} : Eta (Node Raw) := λ r,
  mkNode (n_crash r) (n_NextRound r) (n_durable r) (n_service r) (n_sent r) (n_outputs r).

(** ** Network actions *)

(** [fails i] says whether the [i]th broadcast of the action returns an error. *)
Fixpoint broadcastAll (fails : nat -> bool) (i : nat) (uvs : list unauthenticatedVote) : list output :=
  match uvs with
  | [] => []
  | uv :: uvs => Broadcast AgreementVoteTag (Some (OVote uv)) :: if fails i then [] else broadcastAll fails (S i) uvs
  end.
Definition networkAction_do (fails : nat -> bool) (a : networkAction) : list output :=
  let data :=
    if String.eqb (na_Tag a) AgreementVoteTag then Some (OVote (na_UnauthenticatedVote a))
    else if String.eqb (na_Tag a) VoteBundleTag then Some (OBundle (na_UnauthenticatedBundle a))
    else if String.eqb (na_Tag a) ProposalPayloadTag then Some (OCompound (na_CompoundMessage a))
    else None in
  match na_T a with
  | broadcastVotes => broadcastAll fails 0 (na_UnauthenticatedVotes a)
  | broadcast => [Broadcast (na_Tag a) data]
  | relay => [Relay (na_h a) (na_Tag a) data]
  | disconnect => [Disconnect (na_h a)]
  | ignore => []
  end.

(** ** The demultiplexer *)

Definition me_ConsensusRound (e : messageEvent) : Round :=
  let m := me_Input e in
  match me_T e with
  | votePresent | voteVerified => rv_Round (uv_R (msg_UnauthenticatedVote m))
  | payloadPresent | payloadVerified => bh_Round (blk_BlockHeader (up_Block (msg_UnauthenticatedProposal m)))
  | bundlePresent | bundleVerified => ub_Round (msg_UnauthenticatedBundle m)
  end.
Definition attachToMessage (v : ConsensusVersionView) (e : messageEvent) : messageEvent :=
  mkMessageEvent (me_T e) (me_Input e) (me_Err e) (me_TaskIndex e) (me_Tail e) (me_Cancelled e) v.

(** [view r] is the ledger's answer about the protocol of a round of events; timeouts are
    events of round [current]. *)
Definition AttachConsensusVersion (view : Round -> ConsensusVersionView) (current : Round) (i : input) : input :=
  match i with
  | InMessage e => InMessage (attachToMessage (view (me_ConsensusRound e)) e)
  | InFastTimeout entropy _ => InFastTimeout entropy (view current)
  | i => i
  end.

Definition setupCompoundMessage (view : Round -> ConsensusVersionView) (m : message) : messageEvent :=
  let compound := msg_CompoundMessage m in
  if bool_decide (cm_Vote compound = unauthenticatedVote_zero) then
    let m := m <| msg_Tag := ProposalPayloadTag |> <| msg_UnauthenticatedProposal := cm_Proposal compound |> in
    mkMessageEvent payloadPresent m None 0 None false noVersion
  else
    let tailmsg := message_zero <| msg_MessageHandle := msg_MessageHandle m |> <| msg_Tag := ProposalPayloadTag |>
                     <| msg_UnauthenticatedProposal := cm_Proposal compound |> in
    let synthetic := mkMessageEvent payloadPresent tailmsg None 0 None false noVersion in
    let synthetic := attachToMessage (view (me_ConsensusRound synthetic)) synthetic in
    let m := m <| msg_Tag := AgreementVoteTag |> <| msg_UnauthenticatedVote := cm_Vote compound |> in
    mkMessageEvent votePresent m None 0 (Some synthetic) false noVersion.

(** What else the last [select] of [next] may see: the ledger passing the round, the two
    timers, decoded messages of the network with their handle, and verified messages. *)
Inductive source :=
| SInterrupt
| STimeout (entropy : Z)
| SFastTimeout (entropy : Z)
| SVote (h : Z) (uv : unauthenticatedVote)
| SProposal (h : Z) (cm : compoundMessage)
| SBundle (h : Z) (ub : unauthenticatedBundle)
| SVerifiedVote (m : message) (index : Z) (err : option error) (cancelled : bool)
| SVerifiedPayload (m : message) (err : option error) (cancelled : bool)
| SVerifiedBundle (m : message) (err : option error) (cancelled : bool).

Section Service.
Context {Raw : Type} `{!DiskCodec Raw}.
Variable ac : AgreeCrypto.
Variable sign : OneTimeSignatureSecrets -> Z * Z -> rawVote -> bytes.

Definition sourceEvent (view : Round -> ConsensusVersionView) (n : Node Raw) (current : Round) (src : source) : option input :=
  match src with
  | SInterrupt => if current <? n_durable n then Some (InRoundInterruption (n_NextRound n)) else None
  | STimeout entropy => Some (InTimeout entropy)
  | SFastTimeout entropy =>
    match cvv_Err (view current) with
    | None => if cp_FastPartitionRecovery (paramsOf (cvv_Version (view current))) then Some (InFastTimeout entropy noVersion) else None
    | Some _ => None
    end
  | SVote h uv =>
    Some (InMessage (mkMessageEvent votePresent
      (message_zero <| msg_MessageHandle := h |> <| msg_Tag := AgreementVoteTag |> <| msg_UnauthenticatedVote := uv |>) None 0 None false noVersion))
  | SProposal h cm =>
    Some (InMessage (setupCompoundMessage view
      (message_zero <| msg_MessageHandle := h |> <| msg_Tag := ProposalPayloadTag |> <| msg_CompoundMessage := cm |>)))
  | SBundle h ub =>
    Some (InMessage (mkMessageEvent bundlePresent
      (message_zero <| msg_MessageHandle := h |> <| msg_Tag := VoteBundleTag |> <| msg_UnauthenticatedBundle := ub |>) None 0 None false noVersion))
  | SVerifiedVote m index err cancelled => Some (InMessage (mkMessageEvent voteVerified m err index None cancelled noVersion))
  | SVerifiedPayload m err cancelled => Some (InMessage (mkMessageEvent payloadVerified m err 0 None cancelled noVersion))
  | SVerifiedBundle m err cancelled => Some (InMessage (mkMessageEvent bundleVerified m err 0 None cancelled noVersion))
  end.

(** The queue once the channels in front that are closed and empty are dropped. *)
Fixpoint liveQueue (chans : gmap nat eventChan) (q : list nat) : list nat :=
  match q with
  | [] => []
  | c :: q' =>
    match chans !! c with
    | Some (mkEventChan [] true) => liveQueue chans q'
    | _ => q
    end
  end.
(** [next] looks at other sources only when the first channel has nothing in its buffer. *)
Definition othersAllowed (chans : gmap nat eventChan) (q : list nat) : bool :=
  match q with
  | c :: _ => match chans !! c with Some (mkEventChan (_ :: _) _) => false | _ => true end
  | [] => true
  end.

(** Receiving from the first channel: from its buffer, or from the goroutine of the
    pseudonode that is sending on it. *)
Definition recv (s : Service Raw) : option (input * Service Raw) :=
  let q := liveQueue (s_chans s) (s_queue s) in
  let s := s <| s_queue := q |> in
  match q with
  | [] => None
  | c :: _ =>
    match s_chans s !! c, pn_votes (s_loopback s), pn_proposals (s_loopback s) with
    | Some (mkEventChan (e :: buf) closed), _, _ => Some (e, s <| s_chans ::= <[c := mkEventChan buf closed]> |>)
    | _, Some (t, PushVotes (e :: es)), p =>
      if Nat.eqb (vt_out t) c then Some (InMessage e, s <| s_loopback ::= λ pn, pn <| pn_votes := Some (t, PushVotes es) |> |>)
      else match p with
           | Some (t, e :: es) =>
             if Nat.eqb (pt_out t) c then Some (InMessage e, s <| s_loopback ::= λ pn, pn <| pn_proposals := Some (t, es) |> |>) else None
           | _ => None
           end
    | _, _, Some (t, e :: es) =>
      if Nat.eqb (pt_out t) c then Some (InMessage e, s <| s_loopback ::= λ pn, pn <| pn_proposals := Some (t, es) |> |>) else None
    | _, _, _ => None
    end
  end.

Definition closeChan (c : nat) (s : Service Raw) : Service Raw :=
  s <| s_chans ::= alter (λ ch, mkEventChan (ch_buf ch) true) c |>.
(** Closing a closed channel panics. *)
Definition closeDone (k : nat) (s : Service Raw) : option (Service Raw) :=
  match s_dones s !! k with Some false => Some (s <| s_dones ::= <[k := true]> |>) | _ => None end.
Definition prioritize (c : nat) (s : Service Raw) : Service Raw := s <| s_queue ::= λ q, q ++ [c] |>.
Definition makeChan (c : nat) (s : Service Raw) : Service Raw := s <| s_chans ::= <[c := mkEventChan [] false]> |>.

(** ** Executing actions *)

(** The snapshot that [persistState] encodes. *)
Definition persistRaw (s : Service Raw) : Raw := encodeState (s_Clock s) (s_persistRouter s) (s_persistStatus s) (s_persistActions s).

(** The names of the channels made: completion, votes, completed storage. *)
Definition pseudonodeAction_do (keys : list Participation) (a : pseudonodeAction) (s : Service Raw) : Service Raw :=
  let done := s_fresh s in
  let out := S done in
  let events := S out in
  let s' := s <| s_fresh := S events |> in
  match psa_T a with
  | assemble =>
    match MakeProposals keys out (psa_Round a) (psa_Period a) (s_loopback s) with
    | Ok pn => prioritize out (makeChan out (s' <| s_loopback := pn |>))
    | _ => s'
    end
  | repropose =>
    match MakeVotes keys out (psa_Round a) (psa_Period a) propose (psa_Proposal a) done (s_loopback s) with
    | Ok pn => prioritize out (makeChan out (s' <| s_loopback := pn |> <| s_dones ::= <[done := true]> |>))
    | _ => s'
    end
  | attest =>
    match MakeVotes keys out (psa_Round a) (psa_Period a) (psa_Step a) (psa_Proposal a) done (s_loopback s) with
    | Ok pn =>
      makeChan events (makeChan out (s' <| s_loopback := pn |> <| s_dones ::= <[done := false]> |>
        <| s_enqueueing := Some (mkRequest (pl_Round (s_persistStatus s)) (pl_Period (s_persistStatus s)) (pl_Step (s_persistStatus s))
                                   (persistRaw s) done events, out) |>))
    | _ => s' <| s_dones ::= <[done := true]> |>
    end
  end.

(** A checkpoint that failed hands its error to the task that waits for it, which drops
    its votes; it blocks until that task waits. *)
Definition checkpointAction_do (err : option error) (done : option nat) (s : Service Raw) : option (Service Raw) :=
  match done, err with
  | None, _ => Some s
  | Some k, None => closeDone k s
  | Some k, Some _ =>
    match pn_votes (s_loopback s) with
    | Some (t, AwaitPersist _) =>
      if Nat.eqb (vt_persistStateDone t) k
      then closeDone k (closeChan (vt_out t) (s <| s_loopback ::= λ pn, pn <| pn_votes := None |> |>)) else None
    | _ => None
    end
  end.

(** What an action finds: the keys the node holds, which broadcasts fail, and the time. *)
Record doEnv := mkDoEnv { de_keys : list Participation; de_fails : nat -> bool; de_now : Z }.

(** Adding the block of a certificate: with a payload it is the next block or already
    there, without one the ledger must have got it from elsewhere. *)
Definition ensureAction_do (PayloadOk : bool) (c : Certificate) (n : Node Raw) : option (Node Raw) :=
  let n := n <| n_outputs ::= λ o, o ++ [Ensure c] |> in
  if PayloadOk then if ub_Round c <=? n_NextRound n then Some (n <| n_NextRound ::= Z.max (ub_Round c + 1) |>) else None
  else if ub_Round c <? n_NextRound n then Some n else None.

Definition action_do (env : doEnv) (a : action) (s : Service Raw) (n : Node Raw) : option (Node Raw) :=
  match a with
  | NetworkAction a => Some (n <| n_outputs ::= λ o, o ++ networkAction_do (de_fails env) a |> <| n_service := Some s |>)
  | CryptoAction a => Some (n <| n_outputs ::= λ o, o ++ [Verify a] |> <| n_service := Some s |>)
  | EnsureAction _ PayloadOk c => ensureAction_do PayloadOk c (n <| n_service := Some s |>)
  | RezeroAction _ => Some (n <| n_service := Some (s <| s_Clock := de_now env |>) |>)
  | PseudonodeAction a => Some (n <| n_service := Some (pseudonodeAction_do (de_keys env) a s) |>)
  | CheckpointAction _ _ _ err done => match checkpointAction_do err done s with Some s => Some (n <| n_service := Some s |>) | None => None end
  end.

(** ** The main loop *)

(** One round of the loop, from an event to its actions. *)
Definition submit (fuel : nat) (i : input) (s : Service Raw) : option (Service Raw) :=
  match submitTop ac dieT dieM fuel i (s_status s, s_router s) with
  | (Ok a, (status, router)) =>
    let s := s <| s_status := status |> <| s_router := router |> <| s_todo := a |> in
    Some (if persistent a then s <| s_persistRouter := router |> <| s_persistStatus := status |> <| s_persistActions := a |> else s)
  | _ => None
  end.

Definition freshPlayer (nextRound : Round) : player := mkPlayer nextRound 0 soft 0 filterTimeout false 0 proposalTable_zero.
Definition freshActions (nextRound : Round) : list action :=
  [PseudonodeAction (mkPseudonodeAction assemble nextRound 0 0 bottom); RezeroAction 0].
Definition startAt (clock : Z) (status : player) (router : rootRouter) (a : list action) : Service Raw :=
  mkService clock status router ∅ player_zero [] a None [] ∅ ∅ None None makePseudonode 0.

(** What the statements on the crash database do when the service starts. *)
Record startEnv := mkStartEnv { se_installs : bool; se_reads : bool; se_resets : bool; se_clock : Z }.

(** From the start to the first list of actions. *)
Definition mainLoop_start (env : startEnv) (nextRound : Round) (db : CrashDB Raw) : result (Service Raw) * CrashDB Raw :=
  let fresh := startAt (se_clock env) (freshPlayer nextRound) ∅ (freshActions nextRound) in
  match restore (se_installs env) (se_reads env) db with
  | (Ok raw, db) =>
    match decodeState raw with
    | Ok (clock, router, status, a) => (Ok (if pl_Round status <? nextRound then fresh else startAt clock status router a), db)
    | Err _ => (Ok fresh, reset (se_resets env) db)
    | Panic m => (Panic m, db)
    end
  | (_, db) => (Ok fresh, db)
  end.

(** ** Steps *)

Inductive label :=
| LDo (env : doEnv)
| LEnqueue
| LRecv (view : Round -> ConsensusVersionView) (fuel : nat)
| LEvent (src : source) (view : Round -> ConsensusVersionView) (fuel : nat)
| LTake
| LStore (ok : bool)
| LVotes (l : LedgerReader)
| LHandOver
| LVotesEnd
| LProposals (assembled : result Block) (l : LedgerReader)
| LProposalsEnd
| LLedger (nextRound durable : Round)
| LCrash
| LRestart (env : startEnv) (nextRound : Round).

(** [demuxLoop] between two actions or at the next event. *)
Definition do_step (env : doEnv) (s : Service Raw) (n : Node Raw) : option (Node Raw) :=
  match s_enqueueing s, s_todo s with
  | None, a :: rest => action_do env a (s <| s_todo := rest |>) n
  | _, _ => None
  end.
Definition enqueue_step (s : Service Raw) : option (Service Raw) :=
  match s_enqueueing s, s_pending s with
  | Some (rq, out), None => Some (prioritize out (prioritize (pq_events rq) (s <| s_enqueueing := None |> <| s_pending := Some rq |>)))
  | _, _ => None
  end.
Definition idle (s : Service Raw) : bool := match s_enqueueing s, s_todo s with None, [] => true | _, _ => false end.
Definition recv_step (view : Round -> ConsensusVersionView) (fuel : nat) (s : Service Raw) : option (Service Raw) :=
  if idle s then
    match recv s with
    | Some (i, s) => submit fuel (AttachConsensusVersion view (pl_Round (s_status s)) i) s
    | None => None
    end
  else None.
Definition event_step (src : source) (view : Round -> ConsensusVersionView) (fuel : nat) (n : Node Raw) (s : Service Raw) : option (Service Raw) :=
  let q := liveQueue (s_chans s) (s_queue s) in
  if idle s && othersAllowed (s_chans s) q then
    match sourceEvent view n (pl_Round (s_status s)) src with
    | Some i => submit fuel (AttachConsensusVersion view (pl_Round (s_status s)) i) (s <| s_queue := q |>)
    | None => None
    end
  else None.

(** The persistence loop: it takes a request, waits until the round before it is on disk,
    stores the state and reports.  Its check that the state decodes only logs. *)
Definition take_step (s : Service Raw) : option (Service Raw) :=
  match s_storing s, s_pending s with
  | None, Some rq => Some (s <| s_pending := None |> <| s_storing := Some rq |>)
  | _, _ => None
  end.
Definition checkpointOf (rq : persistentRequest Raw) (err : option error) : input :=
  InCheckpoint (pq_round rq) (pq_period rq) (pq_step rq) err (Some (pq_done rq)).
Definition store_step (ok : bool) (s : Service Raw) (n : Node Raw) : option (Node Raw) :=
  match s_storing s with
  | Some rq =>
    if SubSaturate (pq_round rq) 1 <? n_durable n then
      let '(err, db) := persist ok (pq_raw rq) (n_crash n) in
      Some (n <| n_crash := db |>
              <| n_service := Some (s <| s_storing := None |> <| s_chans ::= <[pq_events rq := mkEventChan [checkpointOf rq err] true]> |>) |>)
    else None
  | None => None
  end.

(** The goroutines of the pseudonode. *)
Definition votes_step (l : LedgerReader) (s : Service Raw) : option (Service Raw) :=
  match pn_votes (s_loopback s), pn_votesTasks (s_loopback s) with
  | None, t :: ts =>
    match votesTask_execute ac sign t l with
    | Ok stage => Some (s <| s_loopback ::= λ pn, pn <| pn_votesTasks := ts |> <| pn_votes := Some (t, stage) |> |>)
    | _ => None
    end
  | _, _ => None
  end.
Definition handOver_step (s : Service Raw) (n : Node Raw) : option (Node Raw) :=
  match pn_votes (s_loopback s) with
  | Some (t, AwaitPersist verified) =>
    if bool_decide (s_dones s !! vt_persistStateDone t = Some true)
    then Some (n <| n_sent ::= λ l, l ++ (msg_UnauthenticatedVote <$> verified) |>
                 <| n_service := Some (s <| s_loopback ::= λ pn, pn <| pn_votes := Some (t, PushVotes (voteEvent <$> verified)) |> |>) |>)
    else None
  | _ => None
  end.
Definition votesEnd_step (s : Service Raw) : option (Service Raw) :=
  match pn_votes (s_loopback s) with
  | Some (t, PushVotes []) => Some (closeChan (vt_out t) (s <| s_loopback ::= λ pn, pn <| pn_votes := None |> |>))
  | _ => None
  end.
Definition proposals_step (assembled : result Block) (l : LedgerReader) (s : Service Raw) : option (Service Raw) :=
  match pn_proposals (s_loopback s), pn_proposalsTasks (s_loopback s) with
  | None, t :: ts =>
    match proposalsTask_execute ac sign t assembled l with
    | Ok events => Some (s <| s_loopback ::= λ pn, pn <| pn_proposalsTasks := ts |> <| pn_proposals := Some (t, events) |> |>)
    | _ => None
    end
  | _, _ => None
  end.
Definition proposalsEnd_step (s : Service Raw) : option (Service Raw) :=
  match pn_proposals (s_loopback s) with
  | Some (t, []) => Some (closeChan (pt_out t) (s <| s_loopback ::= λ pn, pn <| pn_proposals := None |> |>))
  | _ => None
  end.

Definition inService (f : Service Raw -> option (Service Raw)) (n : Node Raw) : option (Node Raw) :=
  match n_service n with
  | Some s => match f s with Some s => Some (n <| n_service := Some s |>) | None => None end
  | None => None
  end.
Definition withService (f : Service Raw -> Node Raw -> option (Node Raw)) (n : Node Raw) : option (Node Raw) :=
  match n_service n with Some s => f s n | None => None end.

Definition node_step (l : label) (n : Node Raw) : option (Node Raw) :=
  match l with
  | LDo env => withService (do_step env) n
  | LEnqueue => inService enqueue_step n
  | LRecv view fuel => inService (recv_step view fuel) n
  | LEvent src view fuel => inService (event_step src view fuel n) n
  | LTake => inService take_step n
  | LStore ok => withService (store_step ok) n
  | LVotes l => inService (votes_step l) n
  | LHandOver => withService handOver_step n
  | LVotesEnd => inService votesEnd_step n
  | LProposals assembled l => inService (proposals_step assembled l) n
  | LProposalsEnd => inService proposalsEnd_step n
  | LLedger nextRound durable => Some (n <| n_NextRound := nextRound |> <| n_durable := durable |>)
  | LCrash => match n_service n with Some _ => Some (n <| n_service := None |>) | None => None end
  | LRestart env nextRound =>
    match n_service n, mainLoop_start env nextRound (n_crash n) with
    | None, (Ok s, db) => Some (n <| n_crash := db |> <| n_NextRound := nextRound |> <| n_durable := nextRound |> <| n_service := Some s |>)
    | _, _ => None
    end
  end.
End Service.
