(* ===== verification/ServiceSpec.v ===== *)
(** Votes across crashes of the agreement service.

    [n_sent] holds every vote the pseudonode of a node has handed over, in the life of
    all its processes.  [Safe] relates it to the crash database: [A] is the history of
    the player, [G] the votes whose states have been stored, [D] names the vote behind a
    completion channel.  A vote is handed over only when it is in [G]; every state on its
    way to the disk knows the votes of [G] and of the requests before it. *)

From S2P Require Import Prelude Config Basics Transactions Bookkeeping Eval Agreement AgreementSpec VoteTracker ProposalTracker Router Machines RouterSpec Player PlayerSpec OneTimeSig Participation Pseudonode Persistence Service.

(** ** What the pseudonode makes *)

(** The vote is for the round, period, step and value of the task. *)
Definition task_vote (t : pseudonodeVotesTask) (uv : unauthenticatedVote) : Prop :=
  rv_Round (uv_R uv) = vt_round t /\ rv_Period (uv_R uv) = vt_period t /\ rv_Step (uv_R uv) = vt_step t /\ rv_Proposal (uv_R uv) = vt_prop t.
Definition task_of (t : pseudonodeVotesTask) (x : pseudonodeAction) : Prop :=
  vt_round t = psa_Round x /\ vt_period t = psa_Period x /\ vt_step t = psa_Step x /\ vt_prop t = psa_Proposal x.
Definition vote_of (uv : unauthenticatedVote) (x : pseudonodeAction) : Prop :=
  rv_Round (uv_R uv) = psa_Round x /\ rv_Period (uv_R uv) = psa_Period x /\ rv_Step (uv_R uv) = psa_Step x /\ rv_Proposal (uv_R uv) = psa_Proposal x.

Section Make.
Variable ac : AgreeCrypto.
Variable sign : OneTimeSignatureSecrets -> Z * Z -> rawVote -> bytes.

Lemma makeVote_R rv kd sg sk l uv : makeVote ac rv kd sg sk l = Ok uv -> uv_R uv = rv.
Proof.
  unfold makeVote. intros H. inv_ok. repeat case_match; try done. by inv_ok.
Qed.
Lemma makeVotes_R r per st pv parts l uvs : makeVotes ac sign r per st pv parts l = Ok uvs ->
  forall uv, uv ∈ uvs -> exists a, uv_R uv = mkRawVote a r per st pv.
Proof.
  revert uvs. induction parts as [|part parts IH]; intros uvs H; cbn in H; [injection H as <-; intros ? []%elem_of_nil|].
  destruct (voteOfPart _ _ _ _ _) as [uv0| |] eqn:E0; [|by apply IH|done]. apply result_bind_Ok in H as (votes & E1 & [= <-]).
  intros uv [->|Hin]%elem_of_cons; [by eexists; eapply makeVote_R|by eapply IH].
Qed.
Lemma verifyAllOwn_in {A} (f : A -> unauthenticatedVote) l xs r : verifyAllOwn ac f l xs = Ok r ->
  forall m, m ∈ r.*2 -> exists x, x ∈ xs /\ msg_UnauthenticatedVote m = f x.
Proof.
  revert r. induction xs as [|x xs IH]; intros r H; cbn in H; [injection H as <-; intros ? []%elem_of_nil|].
  apply result_bind_Ok in H as (o & E0 & H). apply result_bind_Ok in H as (r' & E1 & [= <-]).
  intros m Hm. assert (m ∈ r'.*2 -> exists y, y ∈ x :: xs /\ msg_UnauthenticatedVote m = f y) as Hrest.
  { intros Hm'. destruct (IH _ E1 m Hm') as (y & Hy & E). exists y. split; [by right|done]. }
  destruct o as [m0|]; [|by apply Hrest]. cbn in Hm. apply elem_of_cons in Hm as [->|Hm]; [|by apply Hrest].
  exists x. split; [by left|]. unfold verifyOwn in E0. by destruct (vote_verify _ _ _); simplify_eq.
Qed.
Lemma votesTask_execute_votes t l stage : votesTask_execute ac sign t l = Ok stage ->
  match stage with AwaitPersist ms => forall m, m ∈ ms -> task_vote t (msg_UnauthenticatedVote m) | PushVotes es => es = [] end.
Proof.
  unfold votesTask_execute. intros H. apply result_bind_Ok in H as (uvs & E0 & H). apply result_bind_Ok in H as (r & E1 & [= <-]).
  destruct (r.*2) as [|m ms] eqn:E; [done|].
  intros m' Hm'. rewrite <- E in Hm'. destruct (verifyAllOwn_in _ _ _ _ E1 m' Hm') as (uv & Huv & ->).
  destruct (makeVotes_R _ _ _ _ _ _ _ E0 uv Huv) as (a & Ea). unfold task_vote, id. by rewrite Ea.
Qed.
End Make.

(** ** Checkpoints come from checkpoints

    The player emits a checkpoint action only for a checkpoint event. *)

Definition noCheckpoint (acts : list action) : Prop := forall a, a ∈ acts -> forall r per st err done, a <> CheckpointAction r per st err done.
Definition emits {A} (f : A -> list action) (m : M PS A) : Prop := forall s a s', m s = (Ok a, s') -> noCheckpoint (f a).

Lemma noCheckpoint_nil : noCheckpoint [].
Proof. intros a []%elem_of_nil. Qed.
Lemma noCheckpoint_app l1 l2 : noCheckpoint l1 -> noCheckpoint l2 -> noCheckpoint (l1 ++ l2).
Proof. intros H1 H2 a [?|?]%elem_of_app; [by apply H1|by apply H2]. Qed.
Lemma noCheckpoint_cons a l : (forall r per st err done, a <> CheckpointAction r per st err done) -> noCheckpoint l -> noCheckpoint (a :: l).
Proof. intros Ha H b [->|?]%elem_of_cons; [done|by apply H]. Qed.
Lemma handler_ret {A} (f : A -> list action) a : noCheckpoint (f a) -> emits f (mret a).
Proof. intros H s b s' E. by apply mret_Ok in E as [<- _]. Qed.
Lemma handler_bind {A B} (f : B -> list action) (m : M PS A) k : (forall a, emits f (k a)) -> emits f (m ≫= k).
Proof. intros H s b s' E. apply M_bind_Ok in E as (a & s1 & _ & E). by eapply H. Qed.
Lemma handler_bind_of {A B} (g : A -> list action) (f : B -> list action) (m : M PS A) k : emits g m -> (forall a, noCheckpoint (g a) -> emits f (k a)) -> emits f (m ≫= k).
Proof. intros Hm H s b s' E. apply M_bind_Ok in E as (a & s1 & E1 & E). eapply H; [by eapply Hm|exact E]. Qed.
Lemma handler_panic {A} (f : A -> list action) msg : emits f (panic msg).
Proof. by intros s a s' [=]. Qed.

Create HintDb emits.
#[export] Hint Resolve noCheckpoint_nil handler_panic : emits.
(** Go through a handler down to its results. *)
Ltac emits_step :=
  first
  [ solve [eauto 2 with emits]
  | match goal with
    | |- noCheckpoint (_ ++ _) => apply noCheckpoint_app
    | |- noCheckpoint ((match ?x with _ => _ end) :: _) => destruct x
    | |- noCheckpoint (_ :: _) => apply noCheckpoint_cons; [by intros|]
    | |- noCheckpoint (match ?x with _ => _ end) => destruct x
    | |- emits _ (mret _) => apply handler_ret; cbn
    | |- emits _ (match ?x with _ => _ end) => destruct x
    | |- emits _ (_ ≫= _) => apply handler_bind; intros ?
    end ].
Ltac emits := repeat emits_step.
Ltac emits_of H := eapply handler_bind_of; [apply H|intros ? ?].

Lemma emits_relayStaged r per : emits id (relayStaged r per).
Proof. unfold relayStaged, broadcastAction. emits. Qed.
#[export] Hint Resolve emits_relayStaged : emits.
Lemma emits_partitionPolicy : emits id partitionPolicy.
Proof.
  unfold partitionPolicy, broadcastAction. apply handler_bind. intros p. destruct (negb _); [emits|]. apply handler_bind. intros res.
  eapply handler_bind_of with (g := id); [emits|]. intros a1 Ha. emits.
Qed.
Lemma emits_issueSoftVote : emits id issueSoftVote.
Proof. unfold issueSoftVote. emits. Qed.
Lemma emits_issueNextVote : emits id issueNextVote.
Proof. unfold issueNextVote. emits_of emits_partitionPolicy. emits. Qed.
Lemma emits_issueFastVote : emits id issueFastVote.
Proof. unfold issueFastVote. emits_of emits_partitionPolicy. emits. Qed.
#[export] Hint Resolve emits_issueSoftVote emits_issueNextVote emits_issueFastVote : emits.

Lemma emits_handleFastTimeout entropy proto : emits id (handleFastTimeout entropy proto).
Proof. unfold handleFastTimeout. emits. Qed.
Lemma emits_handleTimeout entropy : emits id (handleTimeout entropy).
Proof.
  unfold handleTimeout. apply handler_bind. intros p. destruct (_ =? soft).
  - eapply handler_bind_of with (g := id); [apply emits_issueSoftVote|]. intros a Ha. emits.
  - destruct (_ =? cert); [emits|]. destruct (pl_Napping p); [emits|]. destruct (nextVoteRanges _) as [lower upper]. emits.
Qed.
Lemma emits_enterPeriod te target : emits id (enterPeriod te target).
Proof. unfold enterPeriod, issueCertVote. emits_of emits_partitionPolicy. emits. Qed.
#[export] Hint Resolve emits_enterPeriod : emits.
Lemma emits_enterRound k src target : (forall te, emits id (k te)) -> emits id (enterRound k src target).
Proof.
  intros Hk. unfold enterRound, verifyPayloadAction. apply handler_bind. intros e. apply handler_bind. intros _. apply handler_bind. intros fr.
  eapply handler_bind_of with (g := id); [destruct (fb_Ok fr); emits|]. intros a4 Ha. emits.
Qed.
Lemma emits_handleThresholdEvent k te : (forall te, emits id (k te)) -> emits id (handleThresholdEvent k te).
Proof.
  intros Hk. unfold handleThresholdEvent, issueCertVote. apply handler_bind. intros p. destruct (te_T te); try solve [emits].
  apply handler_bind. intros res. eapply handler_bind_of with (g := id); [by apply emits_enterRound|]. intros rest Hr. emits.
Qed.
Lemma emits_handleThreshold fuel te : emits id (handleThreshold dieT fuel te).
Proof. revert te. induction fuel as [|fuel IH]; intros te; cbn; [apply handler_panic|by apply emits_handleThresholdEvent]. Qed.
Lemma emits_handleEvent fuel e : emits id (handleEvent dieT fuel e).
Proof. destruct e; cbn; try emits. apply emits_handleThreshold. Qed.
#[export] Hint Resolve emits_handleEvent : emits.

Section EmitsMessages.
Variable ac : AgreeCrypto.

Lemma emits_handleProposalVote e : emits fst (handleProposalVote ac e).
Proof.
  unfold handleProposalVote, disconnectAction, ignoreAction, verifyVoteAction, broadcastAction, relayAction. apply handler_bind. intros ef.
  destruct ef as [|te|[] err|ep|ce|pe]; destruct (me_T e); emits.
Qed.
Lemma emits_handlePayload e : emits id (handlePayload ac e).
Proof.
  unfold handlePayload, ignoreAction, verifyPayloadAction, relayAction, issueCertVote. apply handler_bind. intros ef. apply handler_bind. intros p.
  destruct ef as [|te|[] err|ep|ce|pe]; emits.
Qed.
Lemma emits_handleVote fuel e : emits id (handleVote dieT fuel e).
Proof.
  unfold handleVote, disconnectAction, ignoreAction, verifyVoteAction, relayAction. apply handler_bind. intros ef.
  assert (emits id (a1 ← handleEvent dieT fuel ef; mret (relayAction e (OVote (vote_u (msg_Vote (me_Input e)))) :: a1))) as Hr.
  { eapply handler_bind_of with (g := id); [apply emits_handleEvent|]. intros a1 Ha. apply handler_ret. cbn. by apply noCheckpoint_cons. }
  destruct ef as [|te|[] err|ep|ce|pe]; destruct (me_T e); emits.
Qed.
Lemma emits_handleBundle fuel e : emits id (handleBundle dieT fuel e).
Proof.
  unfold handleBundle, disconnectAction, ignoreAction, verifyBundleAction. apply handler_bind. intros ef.
  assert (forall te, emits id (a1 ← handleEvent dieT fuel ef; mret (relayAction e (OBundle (te_Bundle te)) :: a1))) as Hr.
  { intros te. eapply handler_bind_of with (g := id); [apply emits_handleEvent|]. intros a1 Ha. apply handler_ret. cbn. by apply noCheckpoint_cons. }
  destruct ef as [|te|[] err|ep|ce|pe]; destruct (me_T e); emits.
Qed.
Lemma emits_handleMessageEvent fuel e : emits id (handleMessageEvent ac dieT dieM fuel e).
Proof.
  revert e. induction fuel as [|fuel IH]; intros e; cbn; [apply handler_panic|]. destruct (isProposalVote e).
  - eapply handler_bind_of with (g := fst); [apply emits_handleProposalVote|]. intros [acts []] Ha; apply handler_bind; intros [ev|]; try solve [emits].
    eapply handler_bind_of with (g := id); [apply IH|]. intros suffix Hs. emits.
  - destruct (me_T e); [apply emits_handleVote|apply emits_handleVote|apply emits_handlePayload|apply emits_handlePayload|apply emits_handleBundle|apply emits_handleBundle].
Qed.
Lemma submitTop_checkpoint fuel i st acts st' r per k err done : submitTop ac dieT dieM fuel i st = (Ok acts, st') ->
  CheckpointAction r per k err done ∈ acts -> i = InCheckpoint r per k err done.
Proof.
  intros E Hin. destruct st as [p router]. unfold submitTop in E.
  assert (emits id (handle ac dieT dieM fuel i) \/ exists r per k err done, i = InCheckpoint r per k err done) as [He|(r' & per' & k' & err' & done' & ->)].
  { destruct i; cbn; [left; apply emits_handleMessageEvent|left; apply emits_handleThreshold|left; apply emits_handleTimeout|
      left; apply emits_handleFastTimeout|left; apply emits_enterRound, emits_handleThreshold|right; by do 5 eexists]. }
  - by destruct (He _ _ _ E _ Hin r per k err done).
  - cbn in E. injection E as <- <-. apply list_elem_of_singleton in Hin. by injection Hin as -> -> -> -> ->.
Qed.
End EmitsMessages.

(** ** States that are read back *)

Lemma wf_msg_forget e : wf_msg (event_forget e) <-> wf_msg e.
Proof.
  revert e. fix IH 1. intros [T i err k tail c v]. cbn. destruct tail as [e'|]; [by rewrite (IH e')|done].
Qed.
Lemma wf_event_forget e e' : event_forget e' = event_forget e -> wf_msg e -> wf_msg e'.
Proof. rewrite <- (wf_msg_forget e), <- (wf_msg_forget e'). by intros ->. Qed.

Lemma Inv_forget ac A p p' rr : player_forget p' = player_forget p -> Inv ac A (p, rr) -> Inv ac A (p', rr).
Proof.
  intros E HI. destruct p as [r per st lc dl nap fd [P n]], p' as [r' per' st' lc' dl' nap' fd' [P' n']].
  unfold player_forget in E. cbn in E. injection E as -> -> -> -> -> -> -> EP ->.
  destruct HI as [H1 H2 Hn H3 H4 H5 H6]. cbn in *. split; try done. cbn.
  intros k o' Ho' e' ->. assert (option_map event_forget <$> P' !! k = option_map event_forget <$> P !! k) as Ek by (by rewrite <- !lookup_fmap, EP).
  rewrite Ho' in Ek. destruct (P !! k) as [[e|]|] eqn:Eo; try done. cbn in Ek. injection Ek as Ek.
  eapply wf_event_forget; [exact Ek|]. by eapply (H4 k _ Eo).
Qed.
Lemma voted_forget acts acts' x : action_forget <$> acts' = action_forget <$> acts -> voted acts' x -> voted acts x.
Proof.
  intros E [Hin Ht]. split; [|done]. assert (PseudonodeAction x ∈ action_forget <$> acts') as Hf by (apply list_elem_of_fmap; by exists (PseudonodeAction x)).
  rewrite E in Hf. apply list_elem_of_fmap in Hf as (a & Ea & Ha). destruct a; try done. cbn in Ea. by rewrite Ea.
Qed.

(** A player that starts in a round after all votes. *)
Lemma Inv_fresh ac A p rr n : Inv ac A (p, rr) -> pl_Round p < n -> Inv ac A (freshPlayer n, ∅).
Proof.
  intros [H1 H2 Hn H3 H4 H5 H6] Hlt. split; cbn in *; try done.
  - intros x Hx. destruct (H5 x Hx) as [Hs Hd]. split; [done|]. left. unfold before, here in *. cbn in *. lia.
Qed.
Lemma Inv_start ac n : Inv ac [] (freshPlayer n, ∅).
Proof.
  apply (run_Inv ac (freshPlayer n)); [|constructor]. unfold starts, small. cbn. split_and!; try done; lia.
Qed.

Section Spec.
Context {Raw : Type} `{!DiskCodec Raw} `{!DiskLaws Raw}.
Variable ac : AgreeCrypto.
Variable sign : OneTimeSignatureSecrets -> Z * Z -> rawVote -> bytes.
Implicit Types (n : Node Raw) (s : Service Raw).

(** The encoding of the state with which the fields for persistence start. *)
Definition blank (raw : Raw) : Prop := exists t, raw = encodeState t ∅ player_zero [].
(** An encoded state whose history is [A]. *)
Definition snapshot (raw : Raw) (A : list action) : Prop := exists t rr p acts, decodeState raw = Ok (t, rr, p, acts) /\ Inv ac A (p, rr) /\
  (forall x, voted acts x -> voted A x) /\ Forall (λ a, action_done a = None) acts.
(** A state that knows the votes [V], unless it is the blank one. *)
Definition knows (raw : Raw) (V : pseudonodeAction -> Prop) : Prop := blank raw \/ exists A, snapshot raw A /\ forall x, V x -> voted A x.

Lemma knows_weaken raw (V W : pseudonodeAction -> Prop) : (forall x, W x -> V x) -> knows raw V -> knows raw W.
Proof. intros HW [?|(A & HA & HV)]; [by left|]. right. exists A. auto. Qed.

(** The fields for persistence: untouched, or the player's present state. *)
Definition persist_fresh s (A : list action) : Prop :=
  (s_persistRouter s = ∅ /\ s_persistStatus s = player_zero /\ s_persistActions s = []) \/
  (s_persistRouter s = s_router s /\ s_persistStatus s = s_status s /\ forall x, voted (s_persistActions s) x -> voted A x).

Lemma persistRaw_knows s A : Inv ac A (s_status s, s_router s) -> persist_fresh s A -> knows (persistRaw s) (voted A).
Proof.
  intros HI [(E1 & E2 & E3)|(E1 & E2 & Ha)]; unfold persistRaw.
  - left. exists (s_Clock s). by rewrite E1, E2, E3.
  - right. exists A. split; [|done]. rewrite E1, E2.
    destruct (decodeState_encode (s_Clock s) (s_router s) (s_status s) (s_persistActions s)) as (p' & acts' & E & Hp & Hacts & Hd).
    exists (s_Clock s), (s_router s), p', acts'. split_and!; [done|by eapply Inv_forget| |done].
    intros x Hx. apply Ha. by eapply voted_forget.
Qed.

(** The database holds a state of round 0, as the blank one is. *)
Definition storedBlank (db : CrashDB Raw) : bool :=
  match db with
  | Some (Some raw) => match decodeState raw with Ok (_, _, p, _) => pl_Round p =? 0 | _ => false end
  | _ => false
  end.
Lemma blank_stored raw : blank raw -> storedBlank (Some (Some raw)) = true.
Proof.
  intros [t ->]. cbn. destruct (decodeState_encode t ∅ player_zero []) as (p' & acts' & E & Hp & _). rewrite E.
  apply (f_equal pl_Round) in Hp. cbn in Hp. by rewrite Hp.
Qed.

(** ** Requests on their way to the disk *)

Definition opt_list {X} (o : option X) : list X := match o with Some a => [a] | None => [] end.
Definition inflight s : list (persistentRequest Raw) := opt_list (s_storing s) ++ opt_list (s_pending s) ++ opt_list (fst <$> s_enqueueing s).

Fixpoint flight (D : gmap nat pseudonodeAction) (G : pseudonodeAction -> Prop) (F : list (persistentRequest Raw)) : Prop :=
  match F with
  | [] => True
  | rq :: F => let G' x := G x \/ D !! pq_done rq = Some x in knows (pq_raw rq) G' /\ flight D G' F
  end.
Lemma flight_weaken D F : forall (G G' : pseudonodeAction -> Prop), (forall x, G' x -> G x) -> flight D G F -> flight D G' F.
Proof.
  induction F as [|rq F IH]; intros G G' HG H; [done|]. destruct H as [H1 H2]. split.
  - eapply knows_weaken; [|exact H1]. cbn. intros x [?|?]; auto.
  - eapply IH; [|exact H2]. cbn. intros x [?|?]; auto.
Qed.
(** A request behind the others, that knows every vote so far. *)
Lemma flight_snoc D (V : pseudonodeAction -> Prop) F rq : knows (pq_raw rq) V -> (forall k x, D !! k = Some x -> V x) ->
  forall G : pseudonodeAction -> Prop, (forall x, G x -> V x) -> flight D G F -> flight D G (F ++ [rq]).
Proof.
  intros Hk HD. induction F as [|rq' F IH]; intros G HG H.
  - split; [|done]. eapply knows_weaken; [|exact Hk]. cbn. intros x [?|?]; eauto.
  - destruct H as [H1 H2]. split; [done|]. apply IH; [|done]. intros x [?|?]; eauto.
Qed.
(** A name that no request has. *)
Lemma flight_insert D k x F : (forall rq, rq ∈ F -> pq_done rq <> k) -> forall G, flight D G F -> flight (<[k := x]> D) G F.
Proof.
  induction F as [|rq F IH]; intros Hk G H; [done|]. destruct H as [H1 H2]. assert (pq_done rq <> k) as Hn by (apply Hk; by left). split.
  - eapply knows_weaken; [|exact H1]. cbn. intros y. by rewrite lookup_insert_ne.
  - eapply flight_weaken; [|apply IH; [intros r Hr; apply Hk; by right|exact H2]]. cbn. intros y. by rewrite lookup_insert_ne.
Qed.
Lemma flight_delete D k F : forall G, flight D G F -> flight (delete k D) G F.
Proof.
  induction F as [|rq F IH]; intros G H; [done|]. destruct H as [H1 H2].
  assert (forall x, G x \/ delete k D !! pq_done rq = Some x -> G x \/ D !! pq_done rq = Some x) as Hw by (intros x [?|[_ ?]%lookup_delete_Some]; tauto).
  split; [exact (knows_weaken _ _ _ Hw H1)|]. exact (flight_weaken _ _ _ _ Hw (IH _ H2)).
Qed.

(** ** The invariant *)

(** Every vote handed over, other than for the propose step, is one of [G]. *)
Definition covered (sent : list unauthenticatedVote) (G : pseudonodeAction -> Prop) : Prop :=
  forall uv, uv ∈ sent -> rv_Step (uv_R uv) <> propose -> exists x, G x /\ vote_of uv x.

(** The state behind completion channel [k] has been stored. *)
Definition okCheckpoint (k : nat) (i : input) : Prop := exists r per st, i = InCheckpoint r per st None (Some k).
Definition stored s (k : nat) : Prop :=
  s_dones s !! k = Some true \/
  (exists c ch i, s_chans s !! c = Some ch /\ i ∈ ch_buf ch /\ okCheckpoint k i) \/
  (exists r per st, CheckpointAction r per st None (Some k) ∈ s_todo s).

Definition votesTasks (pn : asyncPseudonode) : list pseudonodeVotesTask := opt_list (fst <$> pn_votes pn) ++ pn_votesTasks pn.

Record Safe n s (A : list action) (G : pseudonodeAction -> Prop) (D : gmap nat pseudonodeAction) : Prop := {
  sf_inv : Inv ac A (s_status s, s_router s);
  sf_G : forall x, G x -> voted A x;
  sf_D : forall k x, D !! k = Some x -> voted A x /\ (k < s_fresh s)%nat;
  sf_todo : forall x, voted (s_todo s) x -> voted A x /\ persist_fresh s A;
  sf_sent : covered (n_sent n) G;
  sf_disk : match n_crash n with Some (Some raw) => knows raw G | _ => forall x, ~ G x end;
  sf_flight : flight D G (inflight s);
  sf_names : forall rq, rq ∈ inflight s -> (pq_done rq < s_fresh s)%nat;
  sf_tasks : forall t, t ∈ votesTasks (s_loopback s) -> vt_step t <> propose -> exists x, D !! vt_persistStateDone t = Some x /\ task_of t x;
  sf_distinct : NoDup (vt_persistStateDone <$> votesTasks (s_loopback s));
  sf_tnames : forall t, t ∈ votesTasks (s_loopback s) -> (vt_persistStateDone t < s_fresh s)%nat;
  sf_await : forall t ms, pn_votes (s_loopback s) = Some (t, AwaitPersist ms) -> forall m, m ∈ ms -> task_vote t (msg_UnauthenticatedVote m);
  sf_stored : forall k, stored s k -> (k < s_fresh s)%nat /\ forall x, D !! k = Some x -> G x
}.

(** Tasks are dropped, and tasks for proposals are added. *)
Definition tasks_step s s' : Prop := exists new, votesTasks (s_loopback s') `sublist_of` votesTasks (s_loopback s) ++ opt_list new /\
  forall t, new = Some t -> vt_step t = propose /\ (s_fresh s <= vt_persistStateDone t < s_fresh s')%nat.
Lemma tasks_same s s' : votesTasks (s_loopback s') = votesTasks (s_loopback s) -> tasks_step s s'.
Proof. intros E. exists None. cbn. rewrite app_nil_r. split; [by rewrite E|done]. Qed.
Lemma tasks_drop s s' t : votesTasks (s_loopback s) = t :: votesTasks (s_loopback s') -> tasks_step s s'.
Proof. intros E. exists None. cbn. rewrite app_nil_r, E. split; [by apply sublist_cons|done]. Qed.
Lemma tasks_step_in s s' t : tasks_step s s' -> t ∈ votesTasks (s_loopback s') ->
  t ∈ votesTasks (s_loopback s) \/ (vt_step t = propose /\ (s_fresh s <= vt_persistStateDone t < s_fresh s')%nat).
Proof.
  intros (new & Hsub & Hnew) Ht. apply (sublist_subseteq _ _ Hsub) in Ht. apply elem_of_app in Ht as [?|Ht]; [by left|].
  destruct new as [t'|]; [|by apply elem_of_nil in Ht]. apply list_elem_of_singleton in Ht as ->. right. by apply Hnew.
Qed.
Lemma tasks_step_distinct s s' : tasks_step s s' -> (forall t, t ∈ votesTasks (s_loopback s) -> (vt_persistStateDone t < s_fresh s)%nat) ->
  NoDup (vt_persistStateDone <$> votesTasks (s_loopback s)) -> NoDup (vt_persistStateDone <$> votesTasks (s_loopback s')).
Proof.
  intros (new & Hsub & Hnew) Hlt Hnd. eapply sublist_NoDup; [|apply (fmap_sublist vt_persistStateDone); exact Hsub]. rewrite fmap_app.
  apply NoDup_app. split_and!; [done| |destruct new; [apply NoDup_singleton|apply NoDup_nil_2]].
  intros k Hk Hk'. apply list_elem_of_fmap in Hk as (t & -> & Ht). destruct new as [t'|]; [|by apply elem_of_nil in Hk'].
  apply list_elem_of_singleton in Hk'. destruct (Hnew t' eq_refl). specialize (Hlt t Ht). lia.
Qed.

(** Steps that leave the player, the fields for persistence, the disk and the requests
    alone: they may drop actions and tasks, add tasks for proposals, and close completion
    channels that were stored or that nobody waits for. *)
Lemma Safe_frame n s n' s' A G D : Safe n s A G D ->
  s_status s' = s_status s -> s_router s' = s_router s ->
  s_persistRouter s' = s_persistRouter s -> s_persistStatus s' = s_persistStatus s -> s_persistActions s' = s_persistActions s ->
  (forall a, a ∈ s_todo s' -> a ∈ s_todo s) ->
  covered (n_sent n') G -> n_crash n' = n_crash n -> inflight s' = inflight s -> (s_fresh s <= s_fresh s')%nat ->
  tasks_step s s' ->
  (forall t ms, pn_votes (s_loopback s') = Some (t, AwaitPersist ms) -> forall m, m ∈ ms -> task_vote t (msg_UnauthenticatedVote m)) ->
  (forall k, stored s' k -> stored s k \/ (s_fresh s <= k < s_fresh s')%nat) -> Safe n' s' A G D.
Proof.
  intros [H1 H2 H3 H4 H5 H6 H7 H8 H9 Hnd Htn H10 H11] E1 E2 E3 E4 E5 Htd Hsent Ecr Efl Hfr Htk Haw Hst. split; try done.
  - by rewrite E1, E2.
  - intros k x Hk. destruct (H3 k x Hk). split; [done|lia].
  - intros x [Hx HT]. destruct (H4 x) as [Ha Hp]; [by split; [apply Htd|]|]. split; [done|]. unfold persist_fresh in *. by rewrite E1, E2, E3, E4, E5.
  - by rewrite Ecr.
  - by rewrite Efl.
  - rewrite Efl. intros rq Hrq. specialize (H8 rq Hrq). lia.
  - intros t Ht Hne. destruct (tasks_step_in _ _ t Htk Ht) as [?|[? _]]; [by apply H9|done].
  - by eapply tasks_step_distinct.
  - intros t Ht. destruct (tasks_step_in _ _ t Htk Ht) as [Ht'|[_ ?]]; [specialize (Htn t Ht')|]; lia.
  - intros k [Hk|Hk]%Hst.
    + destruct (H11 k Hk). split; [lia|done].
    + split; [lia|]. intros x Hx. destruct (H3 k x Hx). lia.
Qed.

(** An event: the history grows. *)
Lemma Safe_submit n s A G D fuel i s' : Safe n s A G D -> wf_input fuel (s_status s) i -> 0 <= pl_Round (s_status s) -> pl_Round (s_status s) + Z.of_nat fuel < 2 ^ 64 ->
  (forall k, okCheckpoint k i -> (k < s_fresh s)%nat /\ forall x, D !! k = Some x -> G x) ->
  submit ac fuel i s = Some s' -> exists A', Safe n s' A' G D.
Proof.
  intros [H1 H2 H3 H4 H5 H6 H7 H8 H9 Hnd Htn H10 H11] Hwf H0 Hb Hck E. unfold submit in E.
  destruct (submitTop ac dieT dieM fuel i (s_status s, s_router s)) as [[acts| |] [p rr]] eqn:Es; try done.
  destruct (submitTop_Ok ac _ _ _ _ _ _ _ H1 Hwf H0 Hb Es) as [HI _ _]. exists (A ++ acts).
  assert (forall x, voted A x -> voted (A ++ acts) x) as Hmono by (intros x Hx; apply voted_app; by left).
  assert (forall x, voted acts x -> persistent acts = true) as Hper.
  { intros x [Hin HT]. apply existsb_exists. exists (PseudonodeAction x). split; [by apply list_elem_of_In|]. cbn. by rewrite HT. }
  assert (forall s1, s_todo s1 = acts -> s_dones s1 = s_dones s -> s_chans s1 = s_chans s -> forall k, stored s1 k -> (k < s_fresh s)%nat /\ forall x, D !! k = Some x -> G x) as Hst.
  { intros s1 Et Ed Ec k [Hk|[Hk|(r & per & st & Hin)]]; [apply H11; left; by rewrite <- Ed|apply H11; right; left; by rewrite <- Ec|].
    rewrite Et in Hin. apply Hck. do 3 eexists. by eapply submitTop_checkpoint. }
  destruct (persistent acts) eqn:Ep; injection E as <-; split; cbn; try done; try (by eauto).
  - intros k x Hk. destruct (H3 k x Hk). auto.
  - intros x Hx. split; [apply voted_app; by right|]. right. cbn. split_and!; try done. intros y Hy. apply voted_app. by right.
  - by apply Hst.
  - intros k x Hk. destruct (H3 k x Hk). auto.
  - intros x Hx. by specialize (Hper x Hx).
  - by apply Hst.
Qed.

Lemma votesTasks_snoc pn t pts ps : votesTasks (mkPseudonode (pn_votesTasks pn ++ [t]) (pn_votes pn) pts ps) = votesTasks pn ++ [t].
Proof. unfold votesTasks. cbn. by rewrite app_assoc. Qed.
Lemma votesTasks_add pn t t' : t' ∈ votesTasks (pn <| pn_votesTasks ::= λ l, l ++ [t] |>) -> t' ∈ votesTasks pn \/ t' = t.
Proof. cbn. rewrite votesTasks_snoc, elem_of_app, list_elem_of_singleton. tauto. Qed.
Lemma MakeVotes_Ok keys out r p st prop done pn pn' : MakeVotes keys out r p st prop done pn = Ok pn' ->
  pn' = pn <| pn_votesTasks ::= λ l, l ++ [mkVotesTask (getParticipations keys r) out r p st prop done] |>.
Proof. unfold MakeVotes. repeat case_match; intros [=]; by subst. Qed.

(** A vote is asked for: its task waits for the state that is enqueued. *)
Lemma Safe_attest n s A G D keys x pn : Safe n s A G D -> s_enqueueing s = None -> voted A x -> psa_T x = attest -> persist_fresh s A ->
  MakeVotes keys (S (s_fresh s)) (psa_Round x) (psa_Period x) (psa_Step x) (psa_Proposal x) (s_fresh s) (s_loopback s) = Ok pn ->
  Safe n (pseudonodeAction_do keys x s) A G (<[s_fresh s := x]> D).
Proof.
  intros [H1 H2 H3 H4 H5 H6 H7 H8 H9 Hnd Htn H10 H11] Hen Hx HT Hpf E. unfold pseudonodeAction_do. rewrite HT, E. apply MakeVotes_Ok in E as ->.
  set (rq := mkRequest _ _ _ (persistRaw s) (s_fresh s) _).
  assert (forall k y, <[s_fresh s := x]> D !! k = Some y -> (k = s_fresh s /\ y = x) \/ (D !! k = Some y /\ (k < s_fresh s)%nat)) as HD.
  { intros k y. destruct (decide (k = s_fresh s)) as [->|Hk]; [rewrite lookup_insert_eq; intros [= <-]; by left|].
    rewrite lookup_insert_ne by done. intros Hy. right. split; [done|]. by destruct (H3 k y Hy). }
  assert (forall k y, <[s_fresh s := x]> D !! k = Some y -> voted A y) as HDA.
  { intros k y [[_ ->]|[Hy _]]%HD; [done|]. by destruct (H3 k y Hy). }
  match goal with |- Safe _ ?s0 _ _ _ => assert (inflight s0 = inflight s ++ [rq]) as Efl end.
  { unfold inflight. cbn. rewrite Hen. cbn. by rewrite app_nil_r, <- app_assoc. }
  split; try done.
  - intros k y Hy. split; [by eapply HDA|]. cbn. destruct (HD k y Hy) as [[-> _]|[_ ?]]; lia.
  - rewrite Efl. apply (flight_snoc _ (voted A)); [by apply persistRaw_knows|done|done|]. apply flight_insert; [|done].
    intros r Hr. specialize (H8 r Hr). lia.
  - rewrite Efl. intros r [Hr|Hr]%elem_of_app; [specialize (H8 r Hr); cbn; lia|]. apply list_elem_of_singleton in Hr as ->. cbn. lia.
  - cbn [s_loopback makeChan]. intros t [Ht| ->]%votesTasks_add Hne.
    + destruct (H9 t Ht Hne) as (y & Hy & Hty). exists y. split; [|done]. destruct (H3 _ _ Hy). rewrite lookup_insert_ne by lia. done.
    + exists x. cbn. by rewrite lookup_insert_eq.
  - cbn. rewrite votesTasks_snoc, fmap_app. apply NoDup_app. split_and!; [done| |apply NoDup_singleton].
    intros k Hk Hk'. apply list_elem_of_fmap in Hk as (t & -> & Ht). apply list_elem_of_singleton in Hk'. specialize (Htn t Ht). cbn in Hk'. lia.
  - cbn [s_loopback makeChan s_fresh]. intros t [Ht| ->]%votesTasks_add; [specialize (Htn t Ht)|]; cbn; lia.
  - intros k Hk. assert (stored s k) as Hk'.
    { destruct Hk as [Hk|[(c & ch & i & Hc & Hi & Hok)|Hk]]; cbn in *; [| |by right; right].
      - destruct (decide (k = s_fresh s)) as [->|Hne]; [by rewrite lookup_insert_eq in Hk|]. rewrite lookup_insert_ne in Hk by done. by left.
      - right. left. exists c, ch, i. split; [|done]. apply lookup_insert_Some in Hc as [[_ <-]|[_ Hc]]; [by apply elem_of_nil in Hi|].
        apply lookup_insert_Some in Hc as [[_ <-]|[_ Hc]]; [by apply elem_of_nil in Hi|done]. }
    destruct (H11 k Hk') as [Hlt HG]. cbn. split; [lia|]. intros y [[-> _]|[Hy _]]%HD; [lia|by apply HG].
Qed.

(** A request is served. *)
Lemma Safe_store n s n' A G D ok : Safe n s A G D -> store_step ok s n = Some n' -> exists s' G', n_service n' = Some s' /\ Safe n' s' A G' D.
Proof.
  intros [H1 H2 H3 H4 H5 H6 H7 H8 H9 Hnd Htn H10 H11] E. unfold store_step in E. destruct (s_storing s) as [rq|] eqn:Est; [|done].
  destruct (_ <? _); [|done]. unfold inflight in H7, H8. rewrite Est in H7, H8. cbn in H7. destruct H7 as [Hk Hfl].
  assert (pq_done rq < s_fresh s)%nat as Hrq by (apply H8; by left).
  set (F := opt_list (s_pending s) ++ opt_list (fst <$> s_enqueueing s)) in *.
  assert (forall rq', rq' ∈ F -> (pq_done rq' < s_fresh s)%nat) as HF by (intros r Hr; apply H8; by right).
  destruct (persist ok (pq_raw rq) (n_crash n)) as [err db] eqn:Ep. injection E as <-.
  match goal with |- context [Some (?s0)] => set (s1 := s0) end.
  assert (forall k, stored s1 k -> stored s k \/ (k = pq_done rq /\ err = None)) as Hst.
  { intros k [Hk'|[(c & ch & i & Hc & Hi & r & per & st & ->)|Hk']]; [by left; left| |by left; right; right].
    cbn in Hc. apply lookup_insert_Some in Hc as [[_ <-]|[_ Hc]]; [|left; right; left; exists c, ch; eexists; split_and!; [done..|by do 3 eexists]].
    cbn in Hi. apply list_elem_of_singleton in Hi. injection Hi as _ _ _ <- <-. by right. }
  unfold persist in Ep. destruct (n_crash n) as [row|] eqn:Ecr.
  2:{ injection Ep as <- <-. exists s1, G. split; [done|]. split; try done.
      - eapply flight_weaken; [|exact Hfl]. by left.
      - intros k [Hk'|[_ ?]]%Hst; [by apply H11|done]. }
  destruct ok; injection Ep as <- <-.
  - exists s1, (λ x, G x \/ D !! pq_done rq = Some x). split; [done|]. split; try done.
    + intros x [?|Hx]; [by apply H2|]. by destruct (H3 _ _ Hx).
    + intros uv Hin Hne. destruct (H5 uv Hin Hne) as (x & Hx & Hv). exists x. split; [by left|done].
    + intros k [Hk'|[-> _]]%Hst; [|split; [done|by right]]. destruct (H11 k Hk') as [? HG]. split; [done|]. intros x Hx. left. by apply HG.
  - exists s1, G. split; [done|]. split; try done.
    + eapply flight_weaken; [|exact Hfl]. by left.
    + intros k [Hk'|[_ ?]]%Hst; [by apply H11|done].
Qed.

(** ** The steps *)

Ltac frame := eapply Safe_frame; [eassumption|cbn; try done..].

Lemma stored_chans s s' : s_dones s' = s_dones s -> s_todo s' = s_todo s ->
  (forall c ch i, s_chans s' !! c = Some ch -> i ∈ ch_buf ch -> exists c' ch', s_chans s !! c' = Some ch' /\ i ∈ ch_buf ch') -> forall k, stored s' k -> stored s k.
Proof.
  intros Ed Et Hc k [Hk|[(c & ch & i & Hch & Hi & Hok)|Hk]].
  - left. by rewrite <- Ed.
  - right. left. destruct (Hc c ch i Hch Hi) as (c' & ch' & ? & ?). by exists c', ch', i.
  - right. right. by rewrite <- Et.
Qed.
Lemma closeChan_chans (s : Service Raw) o c ch i : s_chans (closeChan o s) !! c = Some ch -> i ∈ ch_buf ch -> exists c' ch', s_chans s !! c' = Some ch' /\ i ∈ ch_buf ch'.
Proof.
  cbn. intros Hc Hi. destruct (decide (c = o)) as [->|Hne]; [|rewrite lookup_alter_ne in Hc by done; by exists c, ch].
  rewrite lookup_alter_eq in Hc. destruct (s_chans s !! o) as [ch0|] eqn:E; [|done]. cbn in Hc. injection Hc as <-. cbn in Hi. by exists o, ch0.
Qed.

(** The running task moves on to push its events. *)
Lemma votesTasks_push (pn : asyncPseudonode) t st st' : pn_votes pn = Some (t, st) -> votesTasks (pn <| pn_votes := Some (t, st') |>) = votesTasks pn.
Proof. intros E. unfold votesTasks. by rewrite E. Qed.

Lemma Safe_recv n s A G D i s' : Safe n s A G D -> recv s = Some (i, s') ->
  Safe n s' A G D /\ s_status s' = s_status s /\ s_fresh s' = s_fresh s /\ forall k, okCheckpoint k i -> stored s k.
Proof.
  intros HS E. unfold recv in E. cbn in E. destruct (liveQueue (s_chans s) (s_queue s)) as [|c q]; [done|].
  assert (forall e k, ~ okCheckpoint k (InMessage e)) as Hno by (intros e k (r & per & st & [=])).
  assert (forall t e es, pn_votes (s_loopback s) = Some (t, PushVotes (e :: es)) ->
    Safe n (s <| s_queue := c :: q |> <| s_loopback ::= λ pn, pn <| pn_votes := Some (t, PushVotes es) |> |>) A G D) as Hv.
  { intros t e es Et. frame; [by apply (sf_sent _ _ _ _ _ HS)|by apply tasks_same, (votesTasks_push _ _ _ (PushVotes es) Et)|by left]. }
  assert (forall p, Safe n (s <| s_queue := c :: q |> <| s_loopback ::= λ pn, pn <| pn_proposals := p |> |>) A G D) as Hp.
  { intros p. frame; [by apply (sf_sent _ _ _ _ _ HS)|by apply tasks_same|by apply (sf_await _ _ _ _ _ HS)|by left]. }
  destruct (s_chans s !! c) as [[[|e buf] closed]|] eqn:Ec.
  2:{ injection E as <- <-. split_and!; try done.
      - frame; [by apply (sf_sent _ _ _ _ _ HS)|by apply tasks_same|by apply (sf_await _ _ _ _ _ HS)|]. intros k Hk. left. revert k Hk. apply stored_chans; [done..|]. cbn.
        intros c' ch j Hch Hj. apply lookup_insert_Some in Hch as [[_ <-]|[_ Hch]]; [|by exists c', ch]. eexists c, _. split; [done|]. cbn. by right.
      - intros k Hk. right. left. eexists c, _, _. split; [done|]. split; [by left|done]. }
  all: cbn in Hv, Hp; destruct (pn_votes (s_loopback s)) as [[t [ms|[|e es]]]|] eqn:Epv; destruct (pn_proposals (s_loopback s)) as [[t' [|e' es']]|] eqn:Epp; try done;
    repeat match type of E with context [Nat.eqb ?a ?b] => destruct (Nat.eqb a b) end; try done; injection E as <- <-; split_and!; try done;
    try (by apply Hp); try (by eapply Hv); by intros k Hk%Hno.
Qed.

Definition safe n : Prop := exists s A G D, n_service n = Some s /\ Safe n s A G D.

(** The first action is executed or dropped. *)
Lemma Safe_tail n s n' A G D a rest : Safe n s A G D -> s_todo s = a :: rest -> n_sent n' = n_sent n -> n_crash n' = n_crash n ->
  Safe n' (s <| s_todo := rest |>) A G D.
Proof.
  intros HS Et Es Ec. frame.
  - intros b Hb. rewrite Et. by right.
  - rewrite Es. by apply (sf_sent _ _ _ _ _ HS).
  - by apply tasks_same.
  - by apply (sf_await _ _ _ _ _ HS).
  - intros k [Hk|[Hk|(r & per & st & Hin)]]; left; [by left|by right; left|]. right. right. exists r, per, st. rewrite Et. by right.
Qed.

Lemma stored_names s s' : s_todo s' = s_todo s -> (forall k, s_dones s' !! k = Some true -> s_dones s !! k = Some true \/ (s_fresh s <= k < s_fresh s')%nat) ->
  (forall c ch i, s_chans s' !! c = Some ch -> i ∈ ch_buf ch -> s_chans s !! c = Some ch) ->
  forall k, stored s' k -> stored s k \/ (s_fresh s <= k < s_fresh s')%nat.
Proof.
  intros Et Hd Hc k [Hk|[(c & ch & i & Hch & Hi & Hok)|Hk]].
  - destruct (Hd k Hk); [by left; left|by right].
  - left. right. left. exists c, ch, i. by rewrite (Hc c ch i Hch Hi).
  - left. right. right. by rewrite <- Et.
Qed.
Lemma makeChan_chans (s : Service Raw) c0 c ch i : s_chans (makeChan c0 s) !! c = Some ch -> i ∈ ch_buf ch -> s_chans s !! c = Some ch.
Proof. cbn. intros [[_ <-]|[_ Hc]]%lookup_insert_Some Hi; [by apply elem_of_nil in Hi|done]. Qed.
Lemma dones_insert (d : gmap nat bool) k0 b k : <[k0 := b]> d !! k = Some true -> d !! k = Some true \/ k = k0.
Proof. intros [[<- _]|[_ H]]%lookup_insert_Some; [by right|by left]. Qed.

Lemma Safe_pseudonode n s A G D keys x : Safe n s A G D -> s_enqueueing s = None -> (psa_T x = attest -> voted A x /\ persist_fresh s A) ->
  exists D', Safe n (pseudonodeAction_do keys x s) A G D'.
Proof.
  intros HS Hen Hx. pose proof (sf_sent _ _ _ _ _ HS) as Hse. pose proof (sf_await _ _ _ _ _ HS) as Haw.
  destruct (psa_T x) eqn:HT.
  - destruct (Hx eq_refl) as [Hv Hp]. unfold pseudonodeAction_do. rewrite HT.
    destruct (MakeVotes _ _ _ _ _ _ _ _) as [pn|e|e] eqn:E.
    + exists (<[s_fresh s := x]> D). pose proof (Safe_attest n s A G D keys x pn HS Hen Hv HT Hp E) as H. unfold pseudonodeAction_do in H. by rewrite HT, E in H.
    + exists D. frame; [lia|by apply tasks_same|]. apply stored_names; [done| |by intros]. cbn. intros k [?| ->]%dones_insert; [by left|right; lia].
    + exists D. frame; [lia|by apply tasks_same|]. apply stored_names; [done| |by intros]. cbn. intros k [?| ->]%dones_insert; [by left|right; lia].
  - exists D. unfold pseudonodeAction_do. rewrite HT. destruct (MakeProposals _ _ _ _ _) as [pn|e|e] eqn:E.
    + assert (pn_votes pn = pn_votes (s_loopback s) /\ pn_votesTasks pn = pn_votesTasks (s_loopback s)) as [E1 E2].
      { unfold MakeProposals in E. repeat case_match; try done. by injection E as <-. }
      frame; [lia|apply tasks_same; cbn; unfold votesTasks; by rewrite E1, E2|by rewrite E1|]. apply stored_names; [done|by left|]. cbn. intros c ch i. apply makeChan_chans.
    + frame; [lia|by apply tasks_same|]. apply stored_names; [done|by left|by intros].
    + frame; [lia|by apply tasks_same|]. apply stored_names; [done|by left|by intros].
  - exists D. unfold pseudonodeAction_do. rewrite HT. destruct (MakeVotes _ _ _ _ _ _ _ _) as [pn|e|e] eqn:E.
    + apply MakeVotes_Ok in E as ->. frame; [lia|eexists (Some _); cbn; rewrite votesTasks_snoc; split; [done|intros t [= <-]; cbn; split; [done|lia]]|]. apply stored_names; [done| |].
      * cbn. intros k [?| ->]%dones_insert; [by left|right; lia].
      * cbn. intros c ch i. apply makeChan_chans.
    + frame; [lia|by apply tasks_same|]. apply stored_names; [done|by left|by intros].
    + frame; [lia|by apply tasks_same|]. apply stored_names; [done|by left|by intros].
Qed.

(** The state of a vote could not be stored: its task, the only one with that completion
    channel, gives up. *)
Lemma Safe_failed n s A G D t ms : Safe n s A G D -> pn_votes (s_loopback s) = Some (t, AwaitPersist ms) ->
  Safe n ((closeChan (vt_out t) (s <| s_loopback ::= λ pn, pn <| pn_votes := None |> |>)) <| s_dones ::= <[vt_persistStateDone t := true]> |>)
    A G (delete (vt_persistStateDone t) D).
Proof.
  intros [H1 H2 H3 H4 H5 H6 H7 H8 H9 Hnd Htn H10 H11] Epv. unfold votesTasks in H9, Hnd, Htn. rewrite Epv in H9, Hnd, Htn. cbn in H9, Hnd, Htn.
  apply NoDup_cons in Hnd as [Hni Hnd].
  split; try done.
  - intros k x [_ Hk]%lookup_delete_Some. by apply H3.
  - cbn. by apply flight_delete.
  - unfold votesTasks. cbn. intros t' Ht' Hne. destruct (H9 t') as (x & Hx & Hto); [by right|done|]. exists x. split; [|done].
    rewrite lookup_delete_ne; [done|]. intros Eq. apply Hni. rewrite Eq. by apply list_elem_of_fmap_2.
  - unfold votesTasks. cbn. intros t' Ht'. apply Htn. by right.
  - intros k Hk. assert (stored s k \/ k = vt_persistStateDone t) as [Hk'| ->].
    { destruct Hk as [Hk|[(c & ch & i & Hc & Hi & Hok)|Hk]]; cbn in *; [apply dones_insert in Hk as [?| ->]; [by left; left|by right]| |by left; right; right].
      left. right. left. destruct (closeChan_chans s (vt_out t) c ch i Hc Hi) as (c' & ch' & ? & ?). by exists c', ch', i. }
    + destruct (H11 k Hk') as [? HG]. split; [done|]. intros x [_ Hx]%lookup_delete_Some. by apply HG.
    + split; [apply Htn; by left|]. intros x. by rewrite lookup_delete_eq.
Qed.

Lemma Safe_checkpoint n s A G D a rest r per st err done s' : Safe n s A G D -> s_todo s = a :: rest -> a = CheckpointAction r per st err done ->
  checkpointAction_do err done (s <| s_todo := rest |>) = Some s' -> exists D', Safe n s' A G D'.
Proof.
  intros HS Et -> E. pose proof (sf_sent _ _ _ _ _ HS) as Hse. pose proof (sf_await _ _ _ _ _ HS) as Haw.
  pose proof (Safe_tail n s n A G D _ rest HS Et eq_refl eq_refl) as HS'.
  destruct done as [k|]; [|exists D; by injection E as <-]. unfold checkpointAction_do in E. destruct err as [e|].
  - destruct (pn_votes (s_loopback (s <| s_todo := rest |>))) as [[t [ms|es]]|] eqn:Epv; try done.
    destruct (Nat.eqb_spec (vt_persistStateDone t) k) as [<-|]; [|done]. unfold closeDone in E. cbn in E.
    destruct (s_dones s !! vt_persistStateDone t) as [[]|] eqn:Ed; try done. injection E as <-.
    exists (delete (vt_persistStateDone t) D). exact (Safe_failed n (s <| s_todo := rest |>) A G D t ms HS' Epv).
  - unfold closeDone in E. cbn in E. destruct (s_dones s !! k) as [[]|] eqn:Ed; try done. injection E as <-.
    exists D. eapply Safe_frame; [exact HS|cbn; try done..].
    + intros b Hb. rewrite Et. by right.
    + by apply tasks_same.
    + intros k' [Hk|[Hk|(r' & per' & st' & Hin)]]; left; cbn in *.
      * apply dones_insert in Hk as [?| ->]; [by left|]. right. right. exists r, per, st. rewrite Et. by left.
      * by right; left.
      * right. right. exists r', per', st'. rewrite Et. by right.
Qed.

Lemma safe_intro n s A G D : n_service n = Some s -> Safe n s A G D -> safe n.
Proof. intros E H. by exists s, A, G, D. Qed.

Lemma safe_do n s A G D env n' : Safe n s A G D -> do_step env s n = Some n' -> safe n'.
Proof.
  intros HS E. unfold do_step in E. destruct (s_enqueueing s) eqn:Hen; [done|]. destruct (s_todo s) as [|a rest] eqn:Et; [done|].
  pose proof (λ n' Hs Hc, Safe_tail n s n' A G D a rest HS Et Hs Hc) as HT. destruct a as [a|a|p ok c|r|x|r per st err done]; cbn in E.
  - injection E as <-. by eapply safe_intro, HT.
  - injection E as <-. by eapply safe_intro, HT.
  - unfold ensureAction_do in E. cbn in E. repeat case_match; try done; injection E as <-; by eapply safe_intro, HT.
  - injection E as <-. eapply safe_intro; [done|]. specialize (HT (n <| n_service := Some (s <| s_todo := rest |>) |>) eq_refl eq_refl).
    eapply Safe_frame; [exact HT|cbn; try done..]; [by apply (sf_sent _ _ _ _ _ HS)|by apply tasks_same|by apply (sf_await _ _ _ _ _ HS)|by left].
  - injection E as <-. destruct (Safe_pseudonode (n <| n_service := Some (pseudonodeAction_do (de_keys env) x (s <| s_todo := rest |>)) |>)
      (s <| s_todo := rest |>) A G D (de_keys env) x) as [D' HD]; [by apply HT|done| |by eapply safe_intro].
    intros HTx. apply (sf_todo _ _ _ _ _ HS). rewrite Et. split; [by left|done].
  - destruct (checkpointAction_do err done _) as [s'|] eqn:Ec; [|done]. injection E as <-.
    destruct (Safe_checkpoint n s A G D _ rest r per st err done s' HS Et eq_refl Ec) as [D' HD]. eapply safe_intro; [done|].
    eapply Safe_frame; [exact HD|cbn; try done..]; [by apply (sf_sent _ _ _ _ _ HD)|by apply tasks_same|by apply (sf_await _ _ _ _ _ HD)|by left].
Qed.

(** Steps inside the process that the frame covers. *)
Lemma safe_inside n s A G D s' : Safe n s A G D -> Safe n s' A G D -> safe (n <| n_service := Some s' |>).
Proof.
  intros HS HS'. eapply safe_intro; [done|]. eapply Safe_frame; [exact HS'|cbn; try done..];
    [by apply (sf_sent _ _ _ _ _ HS)|by apply tasks_same|by apply (sf_await _ _ _ _ _ HS')|by left].
Qed.
Lemma Safe_node n n' s A G D : Safe n s A G D -> n_sent n' = n_sent n -> n_crash n' = n_crash n -> Safe n' s A G D.
Proof.
  intros HS Es Ec. frame; [rewrite Es; by apply (sf_sent _ _ _ _ _ HS)|by apply tasks_same|by apply (sf_await _ _ _ _ _ HS)|by left].
Qed.

Lemma safe_enqueue n s A G D s' : Safe n s A G D -> enqueue_step s = Some s' -> Safe n s' A G D.
Proof.
  intros HS E. unfold enqueue_step in E. destruct (s_enqueueing s) as [[rq out]|] eqn:Een, (s_pending s) eqn:Epd; try done. injection E as <-.
  frame; [by apply (sf_sent _ _ _ _ _ HS)|unfold inflight; cbn; by rewrite Een, Epd|by apply tasks_same|by apply (sf_await _ _ _ _ _ HS)|by left].
Qed.
Lemma safe_take n s A G D s' : Safe n s A G D -> take_step s = Some s' -> Safe n s' A G D.
Proof.
  intros HS E. unfold take_step in E. destruct (s_storing s) eqn:Est, (s_pending s) as [rq|] eqn:Epd; try done. injection E as <-.
  frame; [by apply (sf_sent _ _ _ _ _ HS)|unfold inflight; cbn; by rewrite Est, Epd|by apply tasks_same|by apply (sf_await _ _ _ _ _ HS)|by left].
Qed.
Lemma safe_votes n s A G D l s' : Safe n s A G D -> votes_step ac sign l s = Some s' -> Safe n s' A G D.
Proof.
  intros HS E. unfold votes_step in E. destruct (pn_votes (s_loopback s)) eqn:Epv; [done|]. destruct (pn_votesTasks (s_loopback s)) as [|t ts] eqn:Ets; [done|].
  destruct (votesTask_execute _ _ _ _) as [stage| |] eqn:Ex; try done. injection E as <-.
  frame; [by apply (sf_sent _ _ _ _ _ HS)|apply tasks_same; unfold votesTasks; cbn; by rewrite Epv, Ets| |by left].
  intros t' ms [= <- ->]. exact (votesTask_execute_votes ac sign _ _ _ Ex).
Qed.
Lemma safe_votesEnd n s A G D s' : Safe n s A G D -> votesEnd_step s = Some s' -> Safe n s' A G D.
Proof.
  intros HS E. unfold votesEnd_step in E. destruct (pn_votes (s_loopback s)) as [[t [ms|[|e es]]]|] eqn:Epv; try done. injection E as <-.
  frame; [by apply (sf_sent _ _ _ _ _ HS)|apply (tasks_drop _ _ t); unfold votesTasks; cbn; by rewrite Epv|].
  intros k Hk. left. revert k Hk. apply stored_chans; [done..|]. intros c ch i. exact (closeChan_chans s _ c ch i).
Qed.
Lemma safe_proposals n s A G D assembled l s' : Safe n s A G D -> proposals_step ac sign assembled l s = Some s' -> Safe n s' A G D.
Proof.
  intros HS E. unfold proposals_step in E. destruct (pn_proposals (s_loopback s)); [done|]. destruct (pn_proposalsTasks (s_loopback s)); [done|].
  destruct (proposalsTask_execute _ _ _ _ _); try done. injection E as <-.
  frame; [by apply (sf_sent _ _ _ _ _ HS)|by apply tasks_same|by apply (sf_await _ _ _ _ _ HS)|by left].
Qed.
Lemma safe_proposalsEnd n s A G D s' : Safe n s A G D -> proposalsEnd_step s = Some s' -> Safe n s' A G D.
Proof.
  intros HS E. unfold proposalsEnd_step in E. destruct (pn_proposals (s_loopback s)) as [[t []]|]; try done. injection E as <-.
  frame; [by apply (sf_sent _ _ _ _ _ HS)|by apply tasks_same|by apply (sf_await _ _ _ _ _ HS)|].
  intros k Hk. left. revert k Hk. apply stored_chans; [done..|]. intros c ch i. exact (closeChan_chans s _ c ch i).
Qed.
(** The votes are handed over once their state is stored. *)
Lemma safe_handOver n s A G D n' : Safe n s A G D -> handOver_step s n = Some n' -> safe n'.
Proof.
  intros HS E. unfold handOver_step in E. destruct (pn_votes (s_loopback s)) as [[t [ms|es]]|] eqn:Epv; try done.
  case_bool_decide as Hd; [|done]. injection E as <-. eapply safe_intro; [done|].
  frame; [|by apply tasks_same, (votesTasks_push _ _ _ (PushVotes (voteEvent <$> ms)) Epv)|by left].
  intros uv [?|Huv]%elem_of_app Hne; [by apply (sf_sent _ _ _ _ _ HS)|].
  apply list_elem_of_fmap in Huv as (m & -> & Hm). pose proof (sf_await _ _ _ _ _ HS t ms Epv m Hm) as (E1 & E2 & E3 & E4).
  destruct (sf_tasks _ _ _ _ _ HS t) as (x & Hx & Ex1 & Ex2 & Ex3 & Ex4); [unfold votesTasks; rewrite Epv; by left|by rewrite <- E3|].
  exists x. split; [apply (sf_stored _ _ _ _ _ HS (vt_persistStateDone t)); [by left|done]|].
  unfold vote_of. by rewrite E1, E2, E3, E4.
Qed.

(** ** Executions *)

(** Rounds and periods are far from 2^64, the ledger only grows and keeps what is on
    disk, and the crash database can be read when the service starts.  A crash does not
    find the blank state stored. *)
Definition in_range (fuel : nat) s : Prop := 0 <= pl_Round (s_status s) /\ pl_Round (s_status s) + Z.of_nat fuel < 2 ^ 64.
Definition verified_ok (src : source) : Prop :=
  match src with
  | SVerifiedVote m _ _ _ | SVerifiedPayload m _ _ | SVerifiedBundle m _ _ => vote_ok (msg_Vote m) /\ Forall vote_ok (bundleVotes (msg_Bundle m))
  | _ => True
  end.
Definition lawful (l : label) n : Prop :=
  match l with
  | LRecv _ fuel => forall s, n_service n = Some s -> in_range fuel s /\ forall i s', recv s = Some (i, s') -> wf_input fuel (s_status s) i
  | LEvent src _ fuel => (forall s, n_service n = Some s -> in_range fuel s) /\ verified_ok src /\ n_NextRound n + Z.of_nat fuel < 2 ^ 64
  | LLedger nextRound durable => n_durable n <= durable <= nextRound /\ n_NextRound n <= nextRound
  | LCrash => storedBlank (n_crash n) = false
  | LRestart env _ => se_reads env = true
  | _ => True
  end.

Inductive node_run n0 : list label -> Node Raw -> Prop :=
| nrun_nil : node_run n0 [] n0
| nrun_snoc ls n l n' : node_run n0 ls n -> lawful l n -> node_step ac sign l n = Some n' -> node_run n0 (ls ++ [l]) n'.

(** A node that has never run. *)
Definition newNode (db : CrashDB Raw) (nextRound : Round) : Node Raw := mkNode db nextRound nextRound None [] [].
Definition unused (db : CrashDB Raw) : Prop := db = None \/ db = Some None.

(** When the process is down, the stored state knows every vote that was handed over. *)
Definition node_inv n : Prop := n_durable n <= n_NextRound n /\
  match n_service n with
  | Some s => safe n
  | None => match n_crash n with
            | Some (Some raw) => exists A, snapshot raw A /\ covered (n_sent n) (voted A)
            | _ => covered (n_sent n) (λ _, False)
            end
  end.

Lemma wf_attach view r fuel p i : wf_input fuel p i -> wf_input fuel p (AttachConsensusVersion view r i).
Proof. destruct i as [e| | | | |]; try done. by destruct e. Qed.
(** Messages of the network are not verified: they carry no votes to count. *)
Lemma wf_unverified T m tail v : msg_Vote m = vote_zero -> msg_Bundle m = bundle_zero -> match tail with Some e => wf_msg e | None => True end ->
  wf_msg (mkMessageEvent T m None 0 tail false v).
Proof.
  intros E1 E2 Ht. cbn [wf_msg]. rewrite E1, E2. split_and!; [|apply Forall_nil; exact I|exact Ht].
  unfold vote_ok, per_ok. change (rv_Period (v_R vote_zero)) with 0. lia.
Qed.
Lemma wf_compound view h cm :
  wf_msg (setupCompoundMessage view (message_zero <| msg_MessageHandle := h |> <| msg_Tag := ProposalPayloadTag |> <| msg_CompoundMessage := cm |>)).
Proof.
  unfold setupCompoundMessage. cbv zeta. case_bool_decide; (apply wf_unverified; [reflexivity|reflexivity|]); [exact I|].
  apply wf_unverified; [reflexivity|reflexivity|exact I].
Qed.
Lemma source_wf fuel view n s src i : n_durable n <= n_NextRound n -> verified_ok src -> n_NextRound n + Z.of_nat fuel < 2 ^ 64 ->
  sourceEvent view n (pl_Round (s_status s)) src = Some i -> wf_input fuel (s_status s) i.
Proof.
  intros Hd Hv Hb E. destruct src as [|en|en|h uv|h cm|h ub|m k err c|m err c|m err c]; cbn [sourceEvent] in E.
  - destruct (Z.ltb_spec (pl_Round (s_status s)) (n_durable n)); [|discriminate E]. apply Some_inj in E as <-. cbn. lia.
  - by apply Some_inj in E as <-.
  - destruct (cvv_Err _); [discriminate E|]. destruct (cp_FastPartitionRecovery _); [|discriminate E]. by apply Some_inj in E as <-.
  - apply Some_inj in E as <-. by apply wf_unverified.
  - apply Some_inj in E as <-. by apply wf_compound.
  - apply Some_inj in E as <-. by apply wf_unverified.
  - apply Some_inj in E as <-. destruct Hv. by split_and!.
  - apply Some_inj in E as <-. destruct Hv. by split_and!.
  - apply Some_inj in E as <-. destruct Hv. by split_and!.
Qed.

Lemma source_checkpoint view n current src i k : sourceEvent view n current src = Some i -> ~ okCheckpoint k i.
Proof.
  intros E (r & per & st & ->). destruct src; cbn [sourceEvent] in E; try discriminate E.
  - by destruct (_ <? _).
  - destruct (cvv_Err _); [discriminate E|]. by destruct (cp_FastPartitionRecovery _).
Qed.
Lemma safe_recv n s A G D view fuel s' : Safe n s A G D -> in_range fuel s -> (forall i s', recv s = Some (i, s') -> wf_input fuel (s_status s) i) ->
  recv_step ac view fuel s = Some s' -> exists A', Safe n s' A' G D.
Proof.
  intros HS [Hr Hb] Hwf E. unfold recv_step in E. destruct (idle s); [|done]. destruct (recv s) as [[i s1]|] eqn:Er; [|done].
  destruct (Safe_recv n s A G D i s1 HS Er) as (HS1 & Est & Efr & Hck). eapply Safe_submit; [exact HS1| |by rewrite Est|by rewrite Est| |exact E].
  - apply wf_attach. rewrite Est. by eapply Hwf.
  - intros k (r & per & st & Ei). rewrite Efr. apply (sf_stored _ _ _ _ _ HS), Hck. destruct i; try done. by do 3 eexists.
Qed.

Lemma safe_event n s A G D src view fuel s' : Safe n s A G D -> n_durable n <= n_NextRound n -> in_range fuel s -> verified_ok src -> n_NextRound n + Z.of_nat fuel < 2 ^ 64 ->
  event_step ac src view fuel n s = Some s' -> exists A', Safe n s' A' G D.
Proof.
  intros HS Hd [Hr Hb] Hv HN E. unfold event_step in E. destruct (_ && _); [|done]. destruct (sourceEvent _ _ _ _) as [i|] eqn:Es; [|done].
  assert (Safe n (s <| s_queue := liveQueue (s_chans s) (s_queue s) |>) A G D) as HS'.
  { frame; [by apply (sf_sent _ _ _ _ _ HS)|by apply tasks_same|by apply (sf_await _ _ _ _ _ HS)|by left]. }
  refine (Safe_submit _ _ _ _ _ _ _ _ HS' _ Hr Hb _ E); [exact (wf_attach _ _ _ _ _ (source_wf fuel view n s src i Hd Hv HN Es))|].
  intros k (r & per & st & Ei). destruct (source_checkpoint view n _ src i k Es). by destruct i; [| | | | |exists r, per, st].
Qed.

(** A process that has just started. *)
Lemma Safe_start n t p rr acts A : Inv ac A (p, rr) -> (forall x, voted acts x -> voted A x) -> Forall (λ a, action_done a = None) acts ->
  covered (n_sent n) (voted A) -> match n_crash n with Some (Some raw) => knows raw (voted A) | _ => forall x, ~ voted A x end ->
  Safe n (startAt t p rr acts) A (voted A) ∅.
Proof.
  intros HI Ha Hd Hc Hk. split; try done; cbn.
  - intros x Hx. split; [by apply Ha|]. by left.
  - intros rq []%elem_of_nil.
  - intros x []%elem_of_nil.
  - apply NoDup_nil_2.
  - intros t' []%elem_of_nil.
  - intros k [Hst|[(c & ch & i & Hst & _)|(r & per & st & Hin)]]; [done|done|]. rewrite Forall_forall in Hd. by specialize (Hd _ Hin).
Qed.

Lemma restart_inv n env nextRound s db : n_service n = None -> node_inv n -> se_reads env = true -> mainLoop_start env nextRound (n_crash n) = (Ok s, db) ->
  safe (n <| n_crash := db |> <| n_NextRound := nextRound |> <| n_durable := nextRound |> <| n_service := Some s |>).
Proof.
  intros En [_ HI] Hr E. rewrite En in HI. unfold mainLoop_start, restore in E. rewrite Hr in E.
  assert (Forall (λ a, action_done a = None) (freshActions nextRound)) as Hfd by (by repeat constructor).
  assert (forall x, ~ voted (freshActions nextRound) x) as Hfv by (intros x [[[= ->]|[[=]|[]%elem_of_nil]%elem_of_cons]%elem_of_cons HT]; done).
  assert (forall A x, voted (freshActions nextRound) x -> voted A x) as Hfa by (intros A x Hx; by destruct (Hfv x)).
  destruct (n_crash n) as [[raw|]|] eqn:Ecr.
  - destruct HI as (A & (t & rr & p & acts & Ed & HA & Hacts & Hdone) & Hcov). rewrite Ed in E. injection E as <- <-.
    eapply (safe_intro _ _ A (voted A) ∅); [reflexivity|]. assert (knows raw (voted A)) as Hk by (right; exists A; split; [by exists t, rr, p, acts|done]).
    destruct (Z.ltb_spec (pl_Round p) nextRound) as [Hlt|Hge]; apply Safe_start; try done; [by eapply Inv_fresh|by apply Hfa].
  - injection E as <- <-. eapply (safe_intro _ _ [] (voted []) ∅); [reflexivity|]. apply Safe_start; try done; [apply Inv_start|by apply Hfa| |intros x []%voted_nil].
    intros uv Huv Hne. destruct (HI uv Huv Hne) as (x & [] & _).
  - destruct (se_installs env); injection E as <- <-; (eapply (safe_intro _ _ [] (voted []) ∅); [reflexivity|]); (apply Safe_start; try done;
      [apply Inv_start|by apply Hfa| |intros x []%voted_nil]); intros uv Huv Hne; destruct (HI uv Huv Hne) as (x & [] & _).
Qed.

Lemma crash_inv n s A G D : Safe n s A G D -> storedBlank (n_crash n) = false -> n_durable n <= n_NextRound n -> node_inv (n <| n_service := None |>).
Proof.
  intros HS Hb Hd. split; [done|]. cbn. pose proof (sf_disk _ _ _ _ _ HS) as Hdk. pose proof (sf_sent _ _ _ _ _ HS) as Hse.
  destruct (n_crash n) as [[raw|]|].
  - destruct Hdk as [Hbl|(A' & HA & HG)]; [by rewrite blank_stored in Hb|]. exists A'. split; [done|].
    intros uv Huv Hne. destruct (Hse uv Huv Hne) as (x & Hx & Hv). exists x. auto.
  - intros uv Huv Hne. destruct (Hse uv Huv Hne) as (x & Hx & Hv). by destruct (Hdk x).
  - intros uv Huv Hne. destruct (Hse uv Huv Hne) as (x & Hx & Hv). by destruct (Hdk x).
Qed.

Lemma do_ledger env s n n' : do_step env s n = Some n' -> n_durable n' = n_durable n /\ n_NextRound n <= n_NextRound n'.
Proof.
  unfold do_step. destruct (s_enqueueing s); [done|]. destruct (s_todo s) as [|a rest]; [done|]. intros E.
  destruct a as [a|a|p ok c|r|x|r per st err done]; cbn in E; try (injection E as <-; cbn; lia).
  - unfold ensureAction_do in E. cbn in E. repeat case_match; try done; injection E as <-; cbn; lia.
  - destruct (checkpointAction_do _ _ _); [|done]. injection E as <-. cbn. lia.
Qed.
Lemma safe_up n s : n_service n = Some s -> safe n -> exists A G D, Safe n s A G D.
Proof. intros E (s' & A & G & D & E' & HS). rewrite E in E'. injection E' as <-. by exists A, G, D. Qed.
Lemma safe_inv n : n_durable n <= n_NextRound n -> safe n -> node_inv n.
Proof. intros Hd Hs. split; [done|]. pose proof Hs as (s & A & G & D & E & _). by rewrite E. Qed.

(** A step of the running process. *)
Lemma inService_inv n n' (f : Service Raw -> option (Service Raw)) : node_inv n ->
  (forall s s' A G D, n_service n = Some s -> Safe n s A G D -> f s = Some s' -> exists A', Safe n s' A' G D) -> inService f n = Some n' -> node_inv n'.
Proof.
  intros [Hd HI] Hf E. unfold inService in E. destruct (n_service n) as [s|] eqn:Es; [|done]. destruct (f s) as [s'|] eqn:Ef; [|done]. injection E as <-.
  destruct (safe_up n s Es HI) as (A & G & D & HS). destruct (Hf s s' A G D eq_refl HS Ef) as [A' HS']. split; [done|]. cbn.
  eapply safe_intro; [done|]. by eapply Safe_node.
Qed.

Lemma node_step_inv l n n' : node_inv n -> lawful l n -> node_step ac sign l n = Some n' -> node_inv n'.
Proof.
  intros HI Hl E. pose proof HI as [Hd HI'].
  assert (forall f, (forall s s' A G D, Safe n s A G D -> f s = Some s' -> Safe n s' A G D) -> inService f n = Some n' -> node_inv n') as Hin.
  { intros f Hf. apply inService_inv; [done|]. intros s s' A G D _ HS Ef. exists A. by eapply Hf. }
  destruct l as [env| |view fuel|src view fuel| |ok|l| | |assembled l| |nextRound durable| |env nextRound]; cbn [node_step] in E.
  - unfold withService in E. destruct (n_service n) as [s|] eqn:Es; [|done]. destruct (safe_up n s Es HI') as (A & G & D & HS).
    destruct (do_ledger _ _ _ _ E). pose proof (safe_do _ _ _ _ _ _ _ HS E) as Hs. apply safe_inv; [lia|done].
  - eapply Hin; [|exact E]. intros. by eapply safe_enqueue.
  - eapply inService_inv; [done| |exact E]. intros s s' A G D Es HS Ef. destruct (Hl s Es). by eapply safe_recv.
  - eapply inService_inv; [done| |exact E]. intros s s' A G D Es HS Ef. destruct Hl as (Hr & Hv & HN). exact (safe_event n s A G D src view fuel s' HS Hd (Hr s Es) Hv HN Ef).
  - eapply Hin; [|exact E]. intros. by eapply safe_take.
  - unfold withService in E. destruct (n_service n) as [s|] eqn:Es; [|done]. destruct (safe_up n s Es HI') as (A & G & D & HS).
    destruct (Safe_store _ _ _ _ _ _ _ HS E) as (s' & G' & Es' & HS'). apply safe_inv; [|by eapply safe_intro].
    unfold store_step in E. repeat case_match; try done. by injection E as <-.
  - eapply Hin; [|exact E]. intros. by eapply safe_votes.
  - unfold withService in E. destruct (n_service n) as [s|] eqn:Es; [|done]. destruct (safe_up n s Es HI') as (A & G & D & HS).
    apply safe_inv; [|by eapply safe_handOver]. unfold handOver_step in E. repeat case_match; try done. by injection E as <-.
  - eapply Hin; [|exact E]. intros. by eapply safe_votesEnd.
  - eapply Hin; [|exact E]. intros. by eapply safe_proposals.
  - eapply Hin; [|exact E]. intros. by eapply safe_proposalsEnd.
  - injection E as <-. cbn in Hl. split; [cbn; lia|]. cbn. destruct (n_service n) as [s|] eqn:Es; [|done].
    destruct (safe_up n s Es HI') as (A & G & D & HS). exists s, A, G, D. split; [done|by eapply Safe_node].
  - destruct (n_service n) as [s|] eqn:Es; [|done]. injection E as <-. destruct (safe_up n s Es HI') as (A & G & D & HS). by eapply crash_inv.
  - destruct (n_service n) eqn:Es; [done|]. destruct (mainLoop_start env nextRound (n_crash n)) as [[s|?|?] db] eqn:Em; [|discriminate E|discriminate E]. injection E as <-.
    split; [done|]. by eapply restart_inv.
Qed.

Lemma node_run_inv db nextRound ls n : unused db -> node_run (newNode db nextRound) ls n -> node_inv n.
Proof.
  intros Hu. induction 1 as [|ls n l n' _ IH Hl E]; [|by eapply node_step_inv].
  split; [done|]. cbn. destruct Hu as [->| ->]; intros uv []%elem_of_nil.
Qed.

(** Votes that were handed over agree. *)
Lemma node_inv_agree n u v : node_inv n -> u ∈ n_sent n -> v ∈ n_sent n ->
  rv_Round (uv_R u) = rv_Round (uv_R v) -> rv_Period (uv_R u) = rv_Period (uv_R v) -> rv_Step (uv_R u) = rv_Step (uv_R v) ->
  rv_Step (uv_R u) <> propose -> rv_Step (uv_R u) <> redo -> rv_Proposal (uv_R u) = rv_Proposal (uv_R v).
Proof.
  intros [_ HI] Hu Hv Er Ep Es Hp Hr.
  assert (exists A (st : PS), Inv ac A st /\ covered (n_sent n) (voted A)) as (A & st & HA & Hc).
  { destruct (n_service n) as [s|].
    - destruct HI as (s' & A & G & D & _ & HS). exists A, (s_status s', s_router s'). split; [by apply (sf_inv _ _ _ _ _ HS)|].
      intros uv Huv Hne. destruct (sf_sent _ _ _ _ _ HS uv Huv Hne) as (x & Hx & Hvo). exists x. split; [by apply (sf_G _ _ _ _ _ HS)|done].
    - destruct (n_crash n) as [[raw|]|]; [destruct HI as (A & (t & rr & p & acts & _ & HA & _) & Hc); by exists A, (p, rr)| |];
        destruct (HI u Hu Hp) as (x & [] & _). }
  destruct (Hc u Hu Hp) as (x & Hx & X1 & X2 & X3 & X4), (Hc v Hv) as (y & Hy & Y1 & Y2 & Y3 & Y4); [by rewrite <- Es|].
  rewrite X4, Y4. apply (inv_agree _ _ _ HA); try done; congruence.
Qed.

(** C12: Crashes do not make a node equivocate.  Whatever messages, timeouts and failures
    of the disk a node meets, and however often its process crashes, at any point between
    two communications of its goroutines, and starts again: two votes that it has handed
    over for the same round, period and step, other than the propose step and the redo
    step of fast recovery, are for the same value.  This needs that the crash database
    can be read at a start, and that no crash finds in it the blank state that a process
    that resumed writes before its first new vote. *)
Theorem crash_no_equivocation db nextRound ls n u v : unused db -> node_run (newNode db nextRound) ls n -> u ∈ n_sent n -> v ∈ n_sent n ->
  rv_Round (uv_R u) = rv_Round (uv_R v) -> rv_Period (uv_R u) = rv_Period (uv_R v) -> rv_Step (uv_R u) = rv_Step (uv_R v) ->
  rv_Step (uv_R u) <> propose -> rv_Step (uv_R u) <> redo -> rv_Proposal (uv_R u) = rv_Proposal (uv_R v).
Proof. intros Hu Hr. apply node_inv_agree. by eapply node_run_inv. Qed.

(** ** A failed checkpoint that nobody waits for *)

(** [demuxLoop] is about to send the error of a checkpoint on a completion channel that
    no task of the pseudonode has. *)
Definition blockedb n : bool :=
  match n_service n with
  | Some s =>
    match s_enqueueing s, s_todo s with
    | None, CheckpointAction _ _ _ (Some _) (Some k) :: _ => forallb (λ t, negb (Nat.eqb (vt_persistStateDone t) k)) (votesTasks (s_loopback s))
    | _, _ => false
    end
  | None => false
  end.
Lemma blocked_frame n n' s s' : n_service n = Some s -> n_service n' = Some s' -> s_enqueueing s' = s_enqueueing s -> s_todo s' = s_todo s ->
  votesTasks (s_loopback s') `sublist_of` votesTasks (s_loopback s) -> blockedb n = true -> blockedb n' = true.
Proof.
  unfold blockedb. intros -> -> -> -> Hs. destruct (s_enqueueing s); [done|]. destruct (s_todo s) as [|[] ?]; try done.
  destruct err as [|], done as [k|]; try done. rewrite !forallb_forall. intros H t Ht. apply H. apply list_elem_of_In. apply list_elem_of_In in Ht.
  by apply (sublist_subseteq _ _ Hs).
Qed.

(** Only a crash ends this: the service neither executes actions nor takes events. *)
Theorem blocked_forever l n n' : blockedb n = true -> node_step ac sign l n = Some n' -> n_service n' = None \/ blockedb n' = true.
Proof.
  intros Hb E. pose proof Hb as Hb'. unfold blockedb in Hb'. destruct (n_service n) as [s|] eqn:Es; [|done].
  destruct (s_enqueueing s) eqn:Een; [done|]. destruct (s_todo s) as [|a rest] eqn:Et; [done|].
  assert (forall f, (forall s', f s = Some s' -> s_enqueueing s' = s_enqueueing s /\ s_todo s' = s_todo s /\
    votesTasks (s_loopback s') `sublist_of` votesTasks (s_loopback s)) -> inService f n = Some n' -> blockedb n' = true) as Hin.
  { intros f Hf Ef. unfold inService in Ef. rewrite Es in Ef. destruct (f s) as [s'|] eqn:Efs; [|done]. injection Ef as <-.
    destruct (Hf s' eq_refl) as (E1 & E2 & E3). by eapply blocked_frame. }
  destruct l as [env| |view fuel|src view fuel| |ok|l| | |assembled l| |nextRound durable| |env nextRound]; cbn [node_step] in E;
    [right|right|right|right|right|right|right|right|right|right|right|right|left|right].
  - unfold withService in E. rewrite Es in E. unfold do_step in E. rewrite Een, Et in E. destruct a as [| | | | |r per st [e|] [k|]]; try done. cbn in E.
    destruct (pn_votes (s_loopback s)) as [[t [ms|es]]|] eqn:Epv; try done. unfold votesTasks in Hb'. rewrite Epv in Hb'. cbn in Hb'.
    apply andb_true_iff in Hb' as [Hk _]. by destruct (Nat.eqb _ _).
  - unfold inService in E. rewrite Es in E. unfold enqueue_step in E. by rewrite Een in E.
  - unfold inService in E. rewrite Es in E. unfold recv_step, idle in E. by rewrite Een, Et in E.
  - unfold inService in E. rewrite Es in E. unfold event_step, idle in E. by rewrite Een, Et in E.
  - eapply Hin; [|exact E]. unfold take_step. intros s' Ef. destruct (s_storing s), (s_pending s); try done. by injection Ef as <-.
  - unfold withService in E. rewrite Es in E. unfold store_step in E. destruct (s_storing s); [|done]. destruct (_ <? _); [|done].
    destruct (persist _ _ _). injection E as <-. by eapply blocked_frame.
  - eapply Hin; [|exact E]. unfold votes_step. intros s' Ef. destruct (pn_votes (s_loopback s)) eqn:Epv; [done|].
    destruct (pn_votesTasks (s_loopback s)) eqn:Ets; [done|]. destruct (votesTask_execute _ _ _ _); try done. injection Ef as <-.
    split_and!; try done. unfold votesTasks. cbn. by rewrite Epv, Ets.
  - unfold withService in E. rewrite Es in E. unfold handOver_step in E. destruct (pn_votes (s_loopback s)) as [[t [ms|es]]|] eqn:Epv; try done.
    case_bool_decide; [|done]. injection E as <-. eapply blocked_frame; [done..| |done]. unfold votesTasks. cbn. by rewrite Epv.
  - eapply Hin; [|exact E]. unfold votesEnd_step. intros s' Ef. destruct (pn_votes (s_loopback s)) as [[t [ms|[|e es]]]|] eqn:Epv; try done. injection Ef as <-.
    split_and!; try done. unfold votesTasks. cbn. rewrite Epv. cbn. by apply sublist_cons.
  - eapply Hin; [|exact E]. unfold proposals_step. intros s' Ef. repeat case_match; try done. by injection Ef as <-.
  - eapply Hin; [|exact E]. unfold proposalsEnd_step. intros s' Ef. repeat case_match; try done. by injection Ef as <-.
  - injection E as <-. by eapply blocked_frame.
  - rewrite Es in E. by injection E as <-.
  - by rewrite Es in E.
Qed.
End Spec.
