(* ===== verification/ServiceExamples.v ===== *)
(** A node that crashes: once, and once too often.

    [Toy] is a codec that keeps values as they are.  With it an execution is computed:
    the node soft-votes a value, crashes, restarts and repeats its vote.  The restarted
    process writes the blank state over the stored one, so a second crash makes it vote
    for another value in the same round, period and step.  Another execution shows that
    a failure to store a state blocks the service when no account was selected. *)

From S2P Require Import Prelude Config Basics Transactions Bookkeeping Eval Agreement AgreementSpec VoteTracker ProposalTracker Router Machines RouterSpec Player PlayerSpec OneTimeSig Participation Pseudonode Persistence Service ServiceSpec.

Module ServiceWitness.
Import AgreementSpec.AgreementWitness.

Inductive Toy :=
| TDisk (router pl clock : Toy) (types : list Z) (actions : list Toy)
| TRouter (rr : rootRouter)
| TPlayer (p : player)
| TClock (t : Z)
| TAction (a : action).

Definition noDone (a : action) : action := match a with CheckpointAction r per s err _ => CheckpointAction r per s err None | a => a end.
#[local] Instance toyCodec : DiskCodec Toy := {
  encDisk d := TDisk (ds_Router d) (ds_Player d) (ds_Clock d) (ds_ActionTypes d) (ds_Actions d);
  decDisk t := match t with TDisk a b c d e => Some (mkDiskState a b c d e) | _ => None end;
  encRouter := TRouter;
  decRouter t := match t with TRouter rr => Some rr | _ => None end;
  encPlayer := TPlayer;
  decPlayer t := match t with TPlayer p => Some p | _ => None end;
  encClock := TClock;
  decClock t := match t with TClock z => Some z | _ => None end;
  encAction := TAction;
  decAction k t := match t with TAction a => Some (noDone a) | _ => None end
}.
#[local] Instance toyLaws : DiskLaws Toy.
Proof.
  split; try done.
  - by intros [].
  - intros p. by exists p.
  - intros a. exists (noDone a). by destruct a.
Qed.

(** A node with one key; its votes are signed with the digest of their value. *)
Definition sign (_ : OneTimeSignatureSecrets) (_ : Z * Z) (rv : rawVote) : bytes := pv_BlockDigest (rv_Proposal rv).
Definition noSecrets : OneTimeSignatureSecrets := mkSecrets [] 0 None 0 [] [] [].
Definition key (a : Z) : Participation := mkParticipation (addr a) ([], [7]) noSecrets 0 100 10 PartDB_empty.
Definition withKeys (keys : list Participation) : label := LDo (mkDoEnv keys (λ _, false) 5).
Definition view (_ : Round) : ConsensusVersionView := mkConsensusVersionView None ConsensusV19.
Definition proposalVote (n : Z) : message :=
  let v := mkVote (mkRawVote (addr n) 20 0 propose (value n)) (mkCredential 1 zero32 true (mkHashableCredential (replicate 64 0) (addr n) 0) []) [] in
  message_zero <| msg_Vote := v |> <| msg_UnauthenticatedVote := vote_u v |>.

(** A ledger with enough money for a committee of soft votes. *)
Definition ledger : LedgerReader := mkLedgerReader
  (λ _, Ok zero32) (λ _ a, Ok (a, if decide (a ∈ members) then rich else AccountData_zero)) (λ _, Ok 5000) (λ _, Ok zero32) (λ _, Ok v19).

(** Starting in round 20, without a proposal of its own. *)
Definition start : list label := [LRestart (mkStartEnv true true true 0) 20; withKeys []].
(** A proposal-vote for value [n] arrives and is relayed; the soft-vote is asked for. *)
Definition softVote (n : Z) : list label := [withKeys []; LEvent (SVerifiedVote (proposalVote n) 0 None false) view 5; withKeys []; LEvent (STimeout 1) view 5].
(** The vote is made, its state stored, and the vote handed over. *)
Definition voteWith (a : Z) : list label := [withKeys [key a]; LEnqueue; LTake; LStore true; LVotes ledger; LRecv view 5; withKeys []; LHandOver].
Definition once : list label := start ++ softVote 1 ++ voteWith 1 ++ [LCrash; LRestart (mkStartEnv true true true 0) 20] ++ voteWith 1.
Definition twice : list label := once ++ [LCrash] ++ start ++ softVote 2 ++ voteWith 1.

Fixpoint exec (ls : list label) (n : Node Toy) : option (Node Toy) :=
  match ls with
  | [] => Some n
  | l :: ls => match node_step ac sign l n with Some n => exec ls n | None => None end
  end.

(** A check of [lawful] for executions in which only checkpoints are received. *)
Definition plainVotes (m : message) : bool :=
  (0 <=? rv_Period (v_R (msg_Vote m))) && (rv_Period (v_R (msg_Vote m)) <? 2 ^ 64 - 2) && match bundleVotes (msg_Bundle m) with [] => true | _ => false end.
Definition rangeOk (fuel : nat) (n : Node Toy) : bool :=
  match n_service n with Some s => (0 <=? pl_Round (s_status s)) && (pl_Round (s_status s) + Z.of_nat fuel <? 2 ^ 64) | None => true end.
Definition lawfulb (l : label) (n : Node Toy) : bool :=
  match l with
  | LRecv _ fuel => rangeOk fuel n &&
    match n_service n with Some s => match recv s with Some (InCheckpoint _ _ _ _ _, _) => true | None => true | _ => false end | None => true end
  | LEvent src _ fuel => rangeOk fuel n && (n_NextRound n + Z.of_nat fuel <? 2 ^ 64) &&
    match src with SVerifiedVote m _ _ _ | SVerifiedPayload m _ _ | SVerifiedBundle m _ _ => plainVotes m | _ => true end
  | LLedger nextRound durable => (n_durable n <=? durable) && (durable <=? nextRound) && (n_NextRound n <=? nextRound)
  | LCrash => negb (storedBlank (n_crash n))
  | LRestart env _ => se_reads env
  | _ => true
  end.
Fixpoint execLawful (ls : list label) (n : Node Toy) : option (Node Toy) :=
  match ls with
  | [] => Some n
  | l :: ls => if lawfulb l n then match node_step ac sign l n with Some n => execLawful ls n | None => None end else None
  end.

Lemma lawfulb_ok l n : lawfulb l n = true -> lawful l n.
Proof.
  assert (forall fuel s, rangeOk fuel n = true -> n_service n = Some s -> in_range fuel s) as Hr.
  { unfold rangeOk, in_range. intros fuel s Hb E. rewrite E in Hb. bool_hyps. lia. }
  assert (forall m, plainVotes m = true -> vote_ok (msg_Vote m) /\ Forall vote_ok (bundleVotes (msg_Bundle m))) as Hp.
  { unfold plainVotes, vote_ok, per_ok. intros m Hb. destruct (bundleVotes _); bool_hyps; [split; [lia|by apply Forall_nil]|by destruct Hb]. }
  destruct l; cbn [lawfulb lawful]; try done; intros H; bool_hyps.
  - destruct H as [H1 H2]. intros s Es. split; [by apply Hr|]. intros i s' E. rewrite Es, E in H2. by destruct i.
  - destruct H as [[H1 H2] H3]. split; [intros s Es; by apply Hr|]. split; [|done]. destruct src; try done; by apply Hp.
  - lia.
  - done.
Qed.
Lemma execLawful_run n0 ls : forall ls0 n n', node_run ac sign n0 ls0 n -> execLawful ls n = Some n' -> node_run ac sign n0 (ls0 ++ ls) n'.
Proof.
  induction ls as [|l ls IH]; intros ls0 n n' HR E; cbn in E; [injection E as <-; by rewrite app_nil_r|].
  destruct (lawfulb l n) eqn:El; [|done]. destruct (node_step ac sign l n) as [n1|] eqn:Es; [|done].
  replace (ls0 ++ l :: ls) with ((ls0 ++ [l]) ++ ls) by (by rewrite <- app_assoc). apply (IH _ n1); [|done].
  apply (nrun_snoc ac sign n0 ls0 n); [done|by apply lawfulb_ok|done].
Qed.

Definition n0 : Node Toy := newNode None 20.
Definition softFor (n : Z) : rawVote := mkRawVote (addr 1) 20 0 soft (value n).
Definition votesOf (o : option (Node Toy)) : list rawVote := match o with Some n => uv_R <$> n_sent n | None => [] end.

(** The vote before the crash and the vote after it. *)
Example once_votes : votesOf (execLawful once n0) = [softFor 1; softFor 1].
Proof. vm_compute. reflexivity. Qed.
(** The second crash finds the blank state: the node votes twice. *)
Example twice_votes : votesOf (exec twice n0) = [softFor 1; softFor 1; softFor 2].
Proof. vm_compute. reflexivity. Qed.
Example once_blank : storedBlank (match exec once n0 with Some n => n_crash n | None => None end) = true.
Proof. vm_compute. reflexivity. Qed.
(** So it does when the crash database cannot be read. *)
Definition unread : list label :=
  start ++ softVote 1 ++ voteWith 1 ++ [LCrash; LRestart (mkStartEnv true false true 0) 20; withKeys []] ++ softVote 2 ++ voteWith 1.
Example unread_votes : votesOf (exec unread n0) = [softFor 1; softFor 2].
Proof. vm_compute. reflexivity. Qed.

Definition after : Node Toy := match execLawful once n0 with Some n => n | None => n0 end.
Definition voteAt (i : nat) : unauthenticatedVote := default unauthenticatedVote_zero (n_sent after !! i).
Lemma after_run : node_run ac sign n0 once after.
Proof. apply (execLawful_run n0 once [] n0); [constructor|]. vm_compute. reflexivity. Qed.
Lemma crash_no_equivocation_witness : rv_Proposal (uv_R (voteAt 0)) = rv_Proposal (uv_R (voteAt 1)).
Proof.
  apply (crash_no_equivocation ac sign None 20 once after (voteAt 0) (voteAt 1)).
  - by left.
  - apply after_run.
  - vm_compute. apply list_elem_of_here.
  - vm_compute. apply list_elem_of_further, list_elem_of_here.
  - vm_compute. reflexivity.
  - vm_compute. reflexivity.
  - vm_compute. reflexivity.
  - vm_compute. discriminate.
  - vm_compute. discriminate.
Defined.

(** ** A failure to store a state *)

(** The account is not selected, so its task ends without waiting; the write fails. *)
Definition failing : list label := start ++ softVote 1 ++ [withKeys [key 9]; LEnqueue; LTake; LVotes ledger; LVotesEnd; LStore false; LRecv view 5].
Example failing_blocks : match execLawful failing n0 with Some n => blockedb n | None => false end = true.
Proof. vm_compute. reflexivity. Qed.
End ServiceWitness.
